(* ===== verification/_CoqProject ===== *)
-Q . S2P
Prelude.v
StdText.v
Target.v
Cipher.v
Cluster.v
EarlyShape.v
Padding.v
Resume.v
UdpRecords.v
Ss2022.v
Vless.v
VlessMux.v
Xhttp.v
H3Datagram.v
H3Demux.v
Socks5.v
Socks5Udp.v
Rings.v
ReplayWindow.v
ReplayStore.v
NatKey.v
Orphans.v
MeshFrame.v
MeshHome.v
MeshSplice.v
MeshEdge.v
UplinkDescent.v
UplinkWires.v
UplinkProbe.v
UplinkRun.v
UplinkRound.v
SortBy.v
Selection.v
Candidates.v
CandidatesFacts.v
StrictChoice.v
StrictMoves.v
Operator.v
StickyFacts.v
Reselect.v
SelectionRun.v
Cidr.v
DomainSet.v
Routing.v
RouteCache.v
IpPacket.v
Defrag.v
DefragIpv4.v
TcpTypes.v
TcpWire.v
TcpRecv.v
TcpPackets.v
TcpScoreboard.v
TcpSend.v
TcpValidate.v
TcpEngine.v
TcpRun.v
StreamCrypto.v
StreamClient.v
StreamWire.v
StreamServer.v
StreamRun.v
StreamReader.v
StreamDown.v
XhttpSession.v
XhttpClient.v
XhttpRegistry.v
XhttpHandlers.v
XhttpDown.v
UdpCrypto.v
UdpCryptoFacts.v
NatTable.v
UdpRelay.v
UdpRelayFacts.v
UdpRelayRuns.v
UdpRelaySpec.v
