(* ===== verification/Prelude.v ===== *)
(** * outline-proxy: a verification library

    outline-proxy tunnels TCP and UDP over Shadowsocks, VLESS and XHTTP
    carriers: a client ([bins/outline-ws-rust]) takes SOCKS5 connections or the
    packets of a TUN device, routes them, picks an uplink and speaks the wire
    protocol to the server ([bins/outline-ss-rust]). This library models the
    protocol and session core of both sides as executable functions and step
    relations, and proves what each part is for. Every definition is named
    after the Rust item it translates; the file headers say which source file.

    ** Files

    Foundations:
    - [Prelude] bytes, machine integers, [Result], byte-slice lemmas, the codec
      interface ([Codec]: a parser of one message that reports how much it
      consumed, with the laws that make a buffer drain message by message) and
      the streaming-decoder interface ([StreamDecoder]: feeding chunks is
      feeding their concatenation). Wire formats are instances of them.
    - [StdText] the parsers of Rust's standard library the configuration code
      leans on: decimal [u8], [IpAddr], [trim], [split_once], [lines].

    Wire formats ([crates/outline-wire]): [Target] (addresses), [Cipher] (keys),
    [Cluster] (shard ids), [EarlyShape], [Padding], [Resume], [UdpRecords],
    [Ss2022], [Vless], [VlessMux], [Xhttp], [H3Datagram]; [Socks5], [Socks5Udp]
    ([crates/socks5-proto]). The theorems are round trips against an arbitrary
    continuation of the buffer, exact characterisations of what a parser
    accepts (iff), and independence of how the stream is cut into chunks.

    Sessions: [H3Demux] (the datagram demultiplexer of an HTTP/3 connection:
    a step relation over registrations, channels and the reader, with byte
    accounting, FIFO order and tombstones), [Rings] (the replay rings of both
    sides against one abstract log), [ReplayWindow] and [ReplayStore] (the
    server's anti-replay window against a set of seen ids, and the store's
    quotas).

    Resumption and the cluster ([bins/outline-ss-rust/src/server/resumption],
    [server/cluster], [server/transport/mesh_relay.rs]): [NatKey]; [Orphans] (the
    registry of parked sessions: a park is given once, to its owner, and a resume
    waits for a park in flight); [MeshFrame] (the frames of a relay stream);
    [MeshHome] (the home's decision, a machine that suspends where the code
    awaits); [MeshSplice] (the splice of a park onto a relay, over a whole life of
    relays); [MeshEdge] (the ids a node issues and where they route).

    Uplinks ([crates/outline-uplink]). The wires of one uplink: [UplinkDescent],
    [UplinkWires], [UplinkProbe] (operations), [UplinkRun] (the invariant of every
    run), [UplinkRound] (how many failures until it is given up). The choice among
    uplinks: [SortBy], [Selection], [Candidates] (operations), [CandidatesFacts],
    [StrictChoice] (what one dispatch chooses), [StrictMoves] (when the active slot
    moves and settles), [Operator] (manual switches), [StickyFacts] (active-active),
    [Reselect] (the schedule), [SelectionRun] (the invariant of every run, and
    computed cases that do not settle).

    Routing ([crates/outline-routing]): [Cidr] and [DomainSet] (compiled sets
    against membership in their source lists), [Routing] (compilation, the
    two-pass lookup), [RouteCache] (the hot reload of rule files and the swap of
    whole tables, interleaved with a client's versioned cache).

    The TUN ([crates/outline-tun]): [IpPacket] (headers and checksums), [Defrag]
    and [DefragIpv4] (reassembly of fragments), and the userspace TCP: [TcpTypes]
    and [TcpWire] (data, segments), [TcpRecv] (the bytes handed upstream are a
    prefix of the client's stream), [TcpPackets] (acknowledgements and SACK),
    [TcpScoreboard] and [TcpSend] (the retransmission queue, the flush),
    [TcpValidate], [TcpEngine] (the handlers, whole) and [TcpRun] (towards
    a client whose acknowledgements are true: the server's bytes reach it exactly,
    the handlers always return, the timer resends).

    The AEAD stream, both ends: [StreamCrypto] (the server's code) and
    [StreamClient] (the client's), [StreamWire] (both write the same records),
    [StreamServer] and [StreamRun] (the uplink, however it is cut), [StreamReader]
    and [StreamDown] (the downlink and the resumption frames before it).

    XHTTP, both ends: [XhttpSession] (one session of the server), [XhttpClient]
    (the client's window and what the relay reads), [XhttpRegistry] (caps and
    lifetime), [XhttpHandlers] (the requests), [XhttpDown] (the downlink, and UDP
    records over a session).

    The UDP relay: [UdpCrypto] and [UdpCryptoFacts] (one datagram at both ends),
    [NatTable] (sockets, counters, the sweep), [UdpRelay] (readers, datagram tasks,
    resumption and teardown as interleaved machines), [UdpRelayFacts] and
    [UdpRelayRuns] (invariants of the steps and runs), [UdpRelaySpec] (whom a
    response reaches, what a resume keeps).

    ** Conventions

    An [u8] is [byte]; wider integers are [Z] (or [nat] for a length or an index)
    with wrapping, saturation and checked overflow written out where the code
    has them. A panic is [None] of the operation's result. Instants are
    integers in the unit the code compares them in. Randomness, clocks and
    cryptographic primitives are arguments. Fuel appears where Rust loops:
    [Codec] drains with the length of the buffer as fuel, and every message
    consumes at least a byte; [DomainSet.suffix_walk] with the length of the
    host plus one, every step of which removes a label; the theorems are about
    the functions with that fuel, so that running out of it would falsify them.
    The other loops are bounded the same way, by what each turn uses up: bytes
    that wait, entries of a queue, messages still to come. Code that suspends is
    a machine of one step between two suspensions, and a theorem about it is
    about every list of steps or every state a step relation reaches.

    A theorem about third-party code behind an argument states what it needs of
    it as a class ([StreamWire.AeadLaws], [UdpCryptoFacts.XAeadLaws] and
    [BlockLaws]) with an instance its witness runs on.

    ** Not modelled

    Sockets, TLS, QUIC, HTTP and the async runtime (tokio, rustls, quinn,
    wtransport, hyper), metrics, logging, the dashboard, the configuration
    file's schema and the REST control plane: they are I/O or third-party
    protocol stacks, or glue with no invariant of its own. Where the core calls
    them their behaviour is an argument of the model.

    Inside the parts that are modelled: the floating-point arithmetic of BBR and
    of the round-trip estimator (its answers are arguments) and of uplink scores
    (a class); loss sampling, standby pools and the I/O of probes; the wheel that
    calls a flow's timer and the migration of its upstream; the datagram and mux
    splices of a relay and the pool of mesh peers; the padding and masquerading
    headers of XHTTP, its HTTP/3 datagram anchor and the carriers' own drivers
    beyond the POST loop; the padding of UDP datagrams and their HTTP/3 links; the
    server's TCP and VLESS relay loops. An operation of the resumption registry is
    one step, save the resume that waits, which is split. *)
From stdpp Require Export base tactics list option numbers gmap fin_maps.
From Stdlib Require Export ZArith Lia.
From Corelib Require Export Init.Byte.
From Stdlib Require Strings.Byte.
From stdpp Require Export strings.

(** ** Bytes and machine integers

    A [u8] is the kernel's 256-constructor [byte]; every other machine integer
    is a [Z] at its width, with the truncation of an [as] cast written out. *)
Abbreviation byte := Byte.byte.
Abbreviation bytes := (list Byte.byte).

Declare Scope wire_scope.
Delimit Scope wire_scope with wire.
Open Scope wire_scope.

#[export] Instance byte_eq_dec : EqDecision byte := Byte.byte_eq_dec.
#[export] Instance byte_inhabited : Inhabited byte := populate Byte.x00.
#[export] Program Instance byte_countable : Countable byte :=
  inj_countable Byte.to_N Byte.of_N Byte.of_to_N.

(** [b2z b] is [b as uN]; [u8 z] is [z as u8]. *)
Definition b2z (b : byte) : Z := Z.of_N (Byte.to_N b).
Definition u8 (z : Z) : byte :=
  match Byte.of_N (Z.to_N (z mod 256)) with Some b => b | None => Byte.x00 end.

(** [str "OCTL"] is the byte string literal [b"OCTL"]. *)
Definition str (s : String.string) : bytes := String.list_byte_of_string s.

(** [be_bytes n z] is [z.to_be_bytes()] of an [n]-byte integer and [be_val l]
    is [from_be_bytes(l)]. *)
Fixpoint be_bytes (n : nat) (z : Z) : bytes :=
  match n with
  | O => []
  | S k => u8 (Z.shiftr z (8 * Z.of_nat k)) :: be_bytes k z
  end.

Fixpoint be_acc (acc : Z) (l : bytes) : Z :=
  match l with
  | [] => acc
  | b :: l' => be_acc (256 * acc + b2z b) l'
  end.
Definition be_val (l : bytes) : Z := be_acc 0 l.

(** [l.len()] where the code computes with it *)
Definition zlen {A} (l : list A) : Z := Z.of_nat (length l).

(** [l[a..b]] for bounds the code has checked. *)
Definition slice {A} (l : list A) (a b : nat) : list A := take (b - a) (drop a l).

(** ** Results

    [Result<A, E>] with the [?] operator as stdpp's monadic bind. *)
Inductive result (E A : Type) : Type :=
  | Ok (a : A)
  | Err (e : E).
Arguments Ok {E A} a.
Arguments Err {E A} e.

#[export] Instance result_eq_dec {E A} `{EqDecision E, EqDecision A} : EqDecision (result E A).
Proof. solve_decision. Defined.
#[export] Instance result_ret E : MRet (result E) := fun A a => Ok a.
#[export] Instance result_bind E : MBind (result E) := fun A B k r =>
  match r with Ok a => k a | Err e => Err e end.

(** [r.map_err(f)] *)
Definition map_err {E F A} (f : E -> F) (r : result E A) : result F A :=
  match r with Ok a => Ok a | Err e => Err (f e) end.

(** [o.ok_or(e)] *)
Definition ok_or {E A} (e : E) (o : option A) : result E A :=
  match o with Some a => Ok a | None => Err e end.

Lemma bind_Ok_inv {E A B} (r : result E A) (k : A -> result E B) b :
  r ≫= k = Ok b -> exists a, r = Ok a /\ k a = Ok b.
Proof. destruct r as [a|e]; simpl; intros H; [eauto | discriminate]. Qed.

(** [injection] without its normalisation of the contents. *)
Lemma Ok_inj {E A} (a b : A) : @Ok E A a = Ok b -> a = b.
Proof. congruence. Qed.

Lemma map_err_Ok_inv {E F A} (f : E -> F) (r : result E A) a :
  map_err f r = Ok a -> r = Ok a.
Proof. destruct r; simpl; congruence. Qed.

(** ** Byte and integer lemmas *)
Lemma b2z_range b : (0 <= b2z b < 256)%Z.
Proof.
  unfold b2z. pose proof (Byte.to_N_bounded b). lia.
Qed.

Lemma u8_b2z b : u8 (b2z b) = b.
Proof.
  unfold u8. rewrite Z.mod_small by apply b2z_range.
  unfold b2z. by rewrite N2Z.id, Byte.of_to_N.
Qed.

Lemma b2z_u8 z : b2z (u8 z) = (z mod 256)%Z.
Proof.
  unfold u8, b2z.
  pose proof (Z.mod_pos_bound z 256 ltac:(lia)) as Hb.
  destruct (Byte.of_N (Z.to_N (z mod 256))) as [b|] eqn:E.
  - apply Byte.to_of_N in E. rewrite E. lia.
  - apply Byte.of_N_None_iff in E. lia.
Qed.

Lemma b2z_u8_small z : (0 <= z < 256)%Z -> b2z (u8 z) = z.
Proof. intros H. rewrite b2z_u8. by apply Z.mod_small. Qed.

Lemma b2z_inj a b : b2z a = b2z b -> a = b.
Proof. intros H. rewrite <- (u8_b2z a), <- (u8_b2z b). by rewrite H. Qed.

Lemma u8_mod z : u8 (z mod 256) = u8 z.
Proof. apply b2z_inj. rewrite !b2z_u8. by rewrite Z.mod_mod by lia. Qed.

Lemma be_bytes_length n z : length (be_bytes n z) = n.
Proof. induction n; simpl; congruence. Qed.

Lemma be_acc_app acc l1 l2 : be_acc acc (l1 ++ l2) = be_acc (be_acc acc l1) l2.
Proof. revert acc; induction l1; intros; simpl; auto. Qed.

Lemma be_acc_shift acc l :
  be_acc acc l = (acc * 256 ^ Z.of_nat (length l) + be_val l)%Z.
Proof.
  unfold be_val. revert acc; induction l as [|b l IH]; intros acc; cbn [be_acc length].
  - change (Z.of_nat 0) with 0%Z. rewrite Z.pow_0_r. lia.
  - rewrite IH, (IH (256 * 0 + b2z b)%Z).
    rewrite Nat2Z.inj_succ, Z.pow_succ_r by lia. ring.
Qed.

Lemma be_val_cons b l :
  be_val (b :: l) = (b2z b * 256 ^ Z.of_nat (length l) + be_val l)%Z.
Proof. unfold be_val at 1. cbn [be_acc]. rewrite be_acc_shift. lia. Qed.

Lemma be_val_app l1 l2 :
  be_val (l1 ++ l2) = (be_val l1 * 256 ^ Z.of_nat (length l2) + be_val l2)%Z.
Proof. unfold be_val at 1. by rewrite be_acc_app, be_acc_shift. Qed.

Lemma be_val_range l : (0 <= be_val l < 256 ^ Z.of_nat (length l))%Z.
Proof.
  induction l as [|b l IH]; [vm_compute; split; [discriminate|done]|].
  rewrite be_val_cons. cbn [length]. rewrite Nat2Z.inj_succ, Z.pow_succ_r by lia.
  pose proof (b2z_range b). nia.
Qed.

Lemma be_val_be_bytes n z : be_val (be_bytes n z) = (z mod 256 ^ Z.of_nat n)%Z.
Proof.
  induction n as [|n IH]; cbn [be_bytes].
  - change (Z.of_nat 0) with 0%Z. by rewrite Z.pow_0_r, Z.mod_1_r.
  - rewrite be_val_cons, be_bytes_length, IH, b2z_u8.
    rewrite Nat2Z.inj_succ, Z.pow_succ_r by lia.
    rewrite Z.shiftr_div_pow2 by lia.
    replace (2 ^ (8 * Z.of_nat n))%Z with (256 ^ Z.of_nat n)%Z
      by (rewrite Z.pow_mul_r by lia; done).
    pose proof (Z.pow_pos_nonneg 256 (Z.of_nat n)) as Hp.
    rewrite (Z.mul_comm 256), Z.rem_mul_r by lia. lia.
Qed.

Lemma be_val_be_bytes_small n z :
  (0 <= z < 256 ^ Z.of_nat n)%Z -> be_val (be_bytes n z) = z.
Proof. intros H. by rewrite be_val_be_bytes, Z.mod_small. Qed.

Lemma be_bytes_mod n z : be_bytes n (z mod 256 ^ Z.of_nat n) = be_bytes n z.
Proof.
  enough (forall k, (n <= k)%nat -> be_bytes n (z mod 256 ^ Z.of_nat k) = be_bytes n z) by auto.
  induction n as [|n IH]; intros k Hk; cbn [be_bytes]; [done|].
  f_equal; [|apply IH; lia].
  apply b2z_inj. rewrite !b2z_u8, !Z.shiftr_div_pow2 by lia.
  replace (2 ^ (8 * Z.of_nat n))%Z with (256 ^ Z.of_nat n)%Z
    by (rewrite Z.pow_mul_r by lia; done).
  replace (Z.of_nat k) with (Z.of_nat n + (1 + Z.of_nat (k - n - 1)))%Z by lia.
  rewrite !Z.pow_add_r by lia. rewrite Z.pow_1_r.
  set (p := (256 ^ Z.of_nat n)%Z). set (q := (256 ^ Z.of_nat (k - n - 1))%Z).
  assert (0 < p)%Z by (apply Z.pow_pos_nonneg; lia).
  assert (0 < q)%Z by (apply Z.pow_pos_nonneg; lia).
  rewrite Z.rem_mul_r by lia.
  rewrite (Z.mul_comm p ((z / p) mod (256 * q))), Z.div_add by lia.
  rewrite (Z.div_small (z mod p)) by (apply Z.mod_pos_bound; lia).
  rewrite Z.add_0_l, Z.rem_mul_r by lia.
  rewrite Z.mul_comm, Z_mod_plus_full. by rewrite Z.mod_mod by lia.
Qed.

Lemma be_bytes_be_val l : be_bytes (length l) (be_val l) = l.
Proof.
  induction l as [|b l IH]; [done|]. cbn [length be_bytes].
  pose proof (be_val_range l) as Hr.
  f_equal.
  - apply b2z_inj. rewrite b2z_u8, Z.shiftr_div_pow2 by lia.
    replace (2 ^ (8 * Z.of_nat (length l)))%Z with (256 ^ Z.of_nat (length l))%Z
      by (rewrite Z.pow_mul_r by lia; done).
    rewrite be_val_cons, Z.div_add_l by lia.
    rewrite (Z.div_small (be_val l)) by done.
    rewrite Z.add_0_r. apply Z.mod_small, b2z_range.
  - rewrite <- be_bytes_mod, be_val_cons, Z.add_comm, Z_mod_plus_full.
    by rewrite Z.mod_small.
Qed.

Lemma be_val_inj l1 l2 :
  length l1 = length l2 -> be_val l1 = be_val l2 -> l1 = l2.
Proof.
  intros Hl Hv. rewrite <- (be_bytes_be_val l1), <- (be_bytes_be_val l2).
  by rewrite Hl, Hv.
Qed.

(** A two-byte prefix as the code reads it: [u16::from_be_bytes([a, b])]. *)
Lemma be_bytes_2 z : be_bytes 2 z = [u8 (Z.shiftr z 8); u8 z].
Proof. cbn [be_bytes]. by rewrite Z.shiftr_0_r. Qed.

(** ** UTF-8

    [core::str::from_utf8] accepts exactly the well-formed sequences of the
    Unicode standard (no overlong forms, no surrogates, at most U+10FFFF).
    A Rust [String] is a byte list for which [utf8_valid] holds. *)
Definition in_range (lo hi : Z) (b : byte) : bool :=
  ((lo <=? b2z b) && (b2z b <=? hi))%Z.
Definition cont (b : byte) : bool := in_range 128 191 b.

Fixpoint utf8_valid (l : bytes) : bool :=
  match l with
  | [] => true
  | b0 :: l0 =>
    if in_range 0 127 b0 then utf8_valid l0
    else if in_range 194 223 b0 then
      match l0 with b1 :: l1 => cont b1 && utf8_valid l1 | _ => false end
    else if in_range 224 239 b0 then
      match l0 with
      | b1 :: b2 :: l2 =>
        (if (b2z b0 =? 224)%Z then in_range 160 191 b1
         else if (b2z b0 =? 237)%Z then in_range 128 159 b1
         else cont b1) && cont b2 && utf8_valid l2
      | _ => false
      end
    else if in_range 240 244 b0 then
      match l0 with
      | b1 :: b2 :: b3 :: l3 =>
        (if (b2z b0 =? 240)%Z then in_range 144 191 b1
         else if (b2z b0 =? 244)%Z then in_range 128 143 b1
         else cont b1) && cont b2 && cont b3 && utf8_valid l3
      | _ => false
      end
    else false
  end.

(** ** Exhaustive reasoning over a byte *)
Definition all_bytes : bytes := map (fun n => u8 (Z.of_nat n)) (seq 0 256).

Lemma elem_of_all_bytes b : In b all_bytes.
Proof.
  unfold all_bytes. apply in_map_iff. exists (Z.to_nat (b2z b)).
  pose proof (b2z_range b). rewrite Z2Nat.id, u8_b2z by lia. split; [done|].
  apply in_seq. lia.
Qed.

Lemma byte_forall (P : byte -> bool) : forallb P all_bytes = true -> forall b, P b = true.
Proof. intros H b. exact (proj1 (forallb_forall P _) H b (elem_of_all_bytes b)). Qed.

Lemma byte_forall2 (P : byte -> byte -> bool) :
  forallb (fun a => forallb (P a) all_bytes) all_bytes = true -> forall a b, P a b = true.
Proof. intros H a. apply byte_forall. exact (byte_forall _ H a). Qed.

(** [a ^ b], [a & b], [a | b] on [u8]. *)
Definition bxor (a b : byte) : byte := u8 (Z.lxor (b2z a) (b2z b)).
Definition band (a b : byte) : byte := u8 (Z.land (b2z a) (b2z b)).
Definition bor (a b : byte) : byte := u8 (Z.lor (b2z a) (b2z b)).

Lemma bxor_involutive a b : bxor (bxor a b) b = a.
Proof.
  revert a b. assert (H : forall a b, bool_decide (bxor (bxor a b) b = a) = true)
    by (apply byte_forall2; vm_compute; reflexivity).
  intros a b. exact (bool_decide_eq_true_1 _ (H a b)).
Qed.

(** ** Bit lemmas *)
Lemma lor_disjoint a n b : 
  (0 <= n)%Z -> (0 <= b < 2 ^ n)%Z -> (Z.lor (a * 2 ^ n) b = a * 2 ^ n + b)%Z.
Proof.
  intros Hn Hb. rewrite Z.add_nocarry_lxor, Z.lxor_lor; [done| |];
    (apply Z.bits_inj'; intros i Hi; rewrite Z.land_spec, Z.bits_0;
     destruct (Z.ltb_spec i n);
     [rewrite Z.mul_pow2_bits_low by done; done
     |rewrite <- (Z.mod_small b (2 ^ n)%Z) by done; rewrite Z.mod_pow2_bits_high by lia;
      apply andb_false_r]).
Qed.

Lemma testbit_above z w i : (0 <= z < 2 ^ w)%Z -> (0 <= w <= i)%Z -> Z.testbit z i = false.
Proof. intros Hz Hw. rewrite <- (Z.mod_small z (2 ^ w)) by done. apply Z.mod_pow2_bits_high. lia. Qed.

(** ** List lemmas shared by the parsers *)
Lemma slice_app_mid {A} (l1 l2 l3 : list A) a b :
  a = length l1 -> b = length l1 + length l2 -> slice (l1 ++ l2 ++ l3) a b = l2.
Proof.
  intros -> ->. unfold slice. rewrite drop_app_length.
  replace (length l1 + length l2 - length l1) with (length l2) by lia.
  apply take_app_length.
Qed.

Lemma zlen_app {A} (a b : list A) : zlen (a ++ b) = (zlen a + zlen b)%Z.
Proof. unfold zlen. rewrite length_app. lia. Qed.
Lemma zlen_nonneg {A} (l : list A) : (0 <= zlen l)%Z.
Proof. unfold zlen. lia. Qed.

Lemma slice_length {A} (l : list A) a b :
  a <= b -> b <= length l -> length (slice l a b) = b - a.
Proof. intros. unfold slice. rewrite length_take, length_drop. lia. Qed.

Lemma slice_0 {A} (l : list A) b : slice l 0 b = take b l.
Proof. unfold slice. by rewrite Nat.sub_0_r. Qed.

Lemma take_slice_drop {A} (l : list A) a b :
  a <= b -> take a l ++ slice l a b ++ drop b l = l.
Proof.
  intros. unfold slice. rewrite <- (take_drop a l) at 4. f_equal.
  rewrite <- (take_drop (b - a) (drop a l)) at 2. f_equal.
  rewrite drop_drop. f_equal. lia.
Qed.

Lemma drop_slice {A} (l : list A) a b : a <= b -> drop a l = slice l a b ++ drop b l.
Proof.
  intros H. unfold slice. rewrite <- (take_drop (b - a) (drop a l)) at 1. f_equal.
  rewrite drop_drop. f_equal. lia.
Qed.

Lemma lookup_total_app_mid (l1 l2 : bytes) i :
  length l1 <= i -> (l1 ++ l2) !!! i = l2 !!! (i - length l1).
Proof. intros. by rewrite lookup_total_app_r. Qed.

Lemma slice_2 (l : bytes) i : i + 1 < length l ->
  slice l i (i + 2) = [l !!! i; l !!! (i + 1)].
Proof.
  intros H. unfold slice. replace (i + 2 - i) with 2 by lia.
  rewrite <- (take_drop i l) at 2 3.
  assert (Hl : length (take i l) = i) by (rewrite length_take; lia).
  rewrite !lookup_total_app_r by lia. rewrite Hl.
  replace (i - i) with 0 by lia. replace (i + 1 - i) with 1 by lia.
  destruct (drop i l) as [|a [|b r]] eqn:E;
    apply (f_equal length) in E; rewrite length_drop in E; simpl in E; try lia; done.
Qed.

(** A buffer split at a two-byte field read by index. *)
Lemma split_at_u16 (l : bytes) n : n + 2 <= length l ->
  l = take n l ++ be_bytes 2 (be_val [l !!! n; l !!! (n + 1)]) ++ drop (n + 2) l.
Proof.
  intros H. rewrite (be_bytes_be_val [l !!! n; l !!! (n + 1)]).
  rewrite <- slice_2 by lia. symmetry. apply take_slice_drop. lia.
Qed.

Lemma u16_val_range a b : (0 <= be_val [a; b] < 65536)%Z.
Proof. exact (be_val_range [a; b]). Qed.

Lemma be_bytes_u16 a b : be_bytes 2 (be_val [a; b]) = [a; b].
Proof. exact (be_bytes_be_val [a; b]). Qed.

(** The same for the eight bytes of a [u64]. *)
Lemma u64_val_range l : length l = 8 -> (0 <= be_val l < 2 ^ 64)%Z.
Proof. intros H. pose proof (be_val_range l) as Hr. by rewrite H in Hr. Qed.

Lemma be_bytes_u64 l : length l = 8 -> be_bytes 8 (be_val l) = l.
Proof. intros <-. apply be_bytes_be_val. Qed.

Lemma be_val_u64 n : (0 <= n < 2 ^ 64)%Z -> be_val (be_bytes 8 n) = n.
Proof. intros. by apply be_val_be_bytes_small. Qed.

Lemma be_val_u16 p : (0 <= p < 65536)%Z -> be_val (be_bytes 2 p) = p.
Proof. intros. by apply be_val_be_bytes_small. Qed.

(** Reading back a big-endian [u16] written after [l1]. *)
Lemma read_u16 l1 p rest i j :
  i = length l1 -> j = S i -> (0 <= p < 65536)%Z ->
  be_val [(l1 ++ be_bytes 2 p ++ rest) !!! i; (l1 ++ be_bytes 2 p ++ rest) !!! j] = p.
Proof.
  intros -> -> Hp. rewrite !(lookup_total_app_r l1) by lia.
  replace (S (length l1) - length l1) with 1 by lia.
  rewrite Nat.sub_diag. rewrite be_bytes_2. cbn [app].
  change (be_val [u8 (Z.shiftr p 8); u8 p] = p).
  by rewrite <- be_bytes_2, be_val_u16.
Qed.

Lemma read_u16_head p rest : (0 <= p < 65536)%Z ->
  be_val [(be_bytes 2 p ++ rest) !!! 0; (be_bytes 2 p ++ rest) !!! 1] = p.
Proof. intros Hp. by apply (read_u16 [] p rest). Qed.

Lemma u8_of_nat_len n : n <= 255 -> Z.to_nat (b2z (u8 (Z.of_nat n))) = n.
Proof. intros. rewrite b2z_u8_small by lia. lia. Qed.

Lemma u8_to_nat_len b : u8 (Z.of_nat (Z.to_nat (b2z b))) = b.
Proof. pose proof (b2z_range b). rewrite Z2Nat.id by lia. apply u8_b2z. Qed.

Lemma to_nat_b2z_lt b : Z.to_nat (b2z b) <= 255.
Proof. pose proof (b2z_range b). lia. Qed.

#[global] Arguments Z.shiftr : simpl never.
#[global] Arguments Z.shiftl : simpl never.
#[global] Arguments Z.land : simpl never.
#[global] Arguments Z.lor : simpl never.
#[global] Arguments Z.lxor : simpl never.
#[global] Arguments Z.modulo : simpl never.
#[global] Arguments Z.div : simpl never.
#[global] Arguments Z.pow : simpl never.
#[global] Arguments Z.add : simpl never.
#[global] Arguments Z.sub : simpl never.
#[global] Arguments Z.mul : simpl never.
#[global] Arguments Z.of_nat : simpl never.
#[global] Arguments Z.to_nat : simpl never.
#[global] Arguments Nat.ltb : simpl never.
#[global] Arguments Nat.min : simpl never.
#[global] Arguments Z.min : simpl never.
#[global] Arguments Z.max : simpl never.
#[global] Arguments Z.ltb : simpl never.
#[global] Arguments Z.leb : simpl never.
#[global] Arguments Z.eqb : simpl never.
#[global] Arguments Nat.max : simpl never.
#[global] Arguments Nat.leb : simpl never.
#[global] Arguments Nat.div : simpl never.
#[global] Arguments b2z : simpl never.
#[global] Arguments u8 : simpl never.
#[global] Arguments be_val : simpl never.
#[global] Arguments be_bytes : simpl never.
#[global] Arguments utf8_valid : simpl never.
#[global] Arguments slice : simpl never.

(** Deciding a [nat] comparison by the arithmetic of the context. *)
Lemma ltb_false_ge a b : b <= a -> (a <? b)%nat = false.
Proof. intros. by apply Nat.ltb_ge. Qed.
Lemma ltb_true_lt a b : a < b -> (a <? b)%nat = true.
Proof. intros. by apply Nat.ltb_lt. Qed.

(** [decide_ltb] rewrites every natural-number guard whose outcome [lia] can
    settle from the lengths of the lists involved. *)
Ltac len_simpl :=
  repeat (rewrite ?length_app, ?length_cons, ?length_nil, ?be_bytes_length in *).

(** The rewrite database [zlen] pushes [zlen] to the leaves and the resolve
    database [bounds] knows the ranges of bytes, fields and lengths; [bounds]
    adds to the context the ranges of the integers of the goal, for [lia]. *)
Lemma zlen_nil {A} : zlen (@nil A) = 0%Z.
Proof. done. Qed.
Lemma zlen_cons {A} (x : A) l : zlen (x :: l) = (1 + zlen l)%Z.
Proof. unfold zlen. simpl. lia. Qed.
Lemma zlen_be_bytes n z : zlen (be_bytes n z) = Z.of_nat n.
Proof. unfold zlen. by rewrite be_bytes_length. Qed.
Lemma zlen_drop {A} n (l : list A) : (0 <= n <= zlen l)%Z -> zlen (drop (Z.to_nat n) l) = (zlen l - n)%Z.
Proof. unfold zlen. intros H. rewrite length_drop. lia. Qed.
Lemma zlen_take {A} n (l : list A) : (0 <= n <= zlen l)%Z -> zlen (take (Z.to_nat n) l) = n.
Proof. unfold zlen. intros H. rewrite length_take. lia. Qed.

Create Rewrite HintDb zlen.
Create HintDb bounds.
#[export] Hint Rewrite @zlen_nil @zlen_cons @zlen_app zlen_be_bytes : zlen.
#[export] Hint Rewrite @zlen_drop @zlen_take using lia : zlen.
#[export] Hint Resolve b2z_range u16_val_range u64_val_range @zlen_nonneg be_bytes_length : bounds.

Ltac note_bound t P :=
  lazymatch goal with
  | _ : P |- _ => fail
  | _ => assert P by (cbn beta; auto with bounds)
  end.
Ltac bounds :=
  repeat match goal with
  | |- context [b2z ?b] => note_bound b (0 <= b2z b < 256)%Z
  | |- context [@zlen ?A ?l] => note_bound l (0 <= @zlen A l)%Z
  | H : context [@zlen ?A ?l] |- _ => note_bound l (0 <= @zlen A l)%Z
  | H : context [b2z ?b] |- _ => note_bound b (0 <= b2z b < 256)%Z
  end.
Ltac decide_ltb :=
  repeat match goal with
  | |- context [(?a <? ?b)%nat] =>
    first [ rewrite (ltb_false_ge a b) by (len_simpl; simpl; lia)
          | rewrite (ltb_true_lt a b) by (len_simpl; simpl; lia) ]
  end.

(** [eval_eqs] decides the equality tests between closed constants (byte tags,
    enum constructors) and takes the branch. *)
Ltac eval_eqs :=
  repeat match goal with
  | |- context [bool_decide (?a = ?b)] =>
    let v := eval vm_compute in (bool_decide (a = b)) in
    match v with
    | true => change (bool_decide (a = b)) with true
    | false => change (bool_decide (a = b)) with false
    end
  end; cbv beta iota.

(** Case analysis on the outermost guard of a computation hypothesis, as the
    code takes its early returns. *)
Ltac split_guard :=
  match goal with
  | H : (if (?a <? ?b)%nat then _ else _) = _ |- _ =>
    destruct (Nat.ltb_spec a b); try discriminate H
  | H : (if (?a <? ?b)%Z then _ else _) = _ |- _ =>
    destruct (Z.ltb_spec a b); try discriminate H
  | H : (if (?a <=? ?b)%Z then _ else _) = _ |- _ =>
    destruct (Z.leb_spec a b); try discriminate H
  | H : (if bool_decide ?P then _ else _) = _ |- _ =>
    destruct (bool_decide_reflect P); try discriminate H
  | H : (if ?c then _ else _) = _ |- _ =>
    let E := fresh "G" in destruct c eqn:E; try discriminate H
  end.

(** ** The interface of an incremental codec

    What the stream-head parsers of the crate promise their callers: a whole
    encoding at the head of a buffer is decoded whatever follows it, every
    strict prefix of an encoding asks for more bytes, and a decode consumes at
    least one byte and never more than the buffer holds. *)
Class Codec (A E : Type) := {
  cwf : A -> Prop;
  cenc : A -> result E bytes;
  cdec : bytes -> result E (option (A * nat));
  codec_complete a w rest :
    cwf a -> cenc a = Ok w -> cdec (w ++ rest) = Ok (Some (a, length w));
  codec_prefix a w k :
    cwf a -> cenc a = Ok w -> k < length w -> cdec (take k w) = Ok None;
  codec_consumed input a n :
    cdec input = Ok (Some (a, n)) -> 0 < n <= length input
}.

(** The reader loop of a stream client: decode at the head of the buffer until
    the decoder asks for more. [length buf] rounds are enough, since each
    consumes a byte. *)
Fixpoint drain_fuel {A E} `{Codec A E} (fuel : nat) (buf : bytes)
    : result E (list A * bytes) :=
  match fuel with
  | O => Ok ([], buf)
  | S fuel =>
    o ← cdec buf;
    match o with
    | None => Ok ([], buf)
    | Some (a, n) =>
      r ← drain_fuel fuel (drop n buf);
      Ok (a :: r.1, r.2)
    end
  end.
Definition drain {A E} `{Codec A E} (buf : bytes) : result E (list A * bytes) :=
  drain_fuel (S (length buf)) buf.

Section codec_facts.
Context {A E : Type} `{Codec A E}.

Definition encodes (a : A) (w : bytes) : Prop := cwf a /\ cenc a = Ok w.

Lemma encodes_nonempty a w : encodes a w -> 0 < length w.
Proof.
  intros [Hwf He]. pose proof (codec_complete a w [] Hwf He) as Hd.
  apply codec_consumed in Hd. lia.
Qed.

(** A concatenation of encodings followed by a strict prefix of one more is
    drained to exactly the encoded values, the prefix staying buffered. *)
Lemma drain_fuel_encodings fuel xs ws tail :
  Forall2 encodes xs ws ->
  length (concat ws ++ tail) < fuel ->
  cdec tail = Ok None ->
  drain_fuel fuel (concat ws ++ tail) = Ok (xs, tail).
Proof.
  intros HF. revert fuel. induction HF as [|a w xs ws Haw HF IH]; intros fuel Hlen Htail.
  - destruct fuel as [|fuel]; [lia|]. simpl in *. by rewrite Htail.
  - destruct fuel as [|fuel]; [lia|]. pose proof (encodes_nonempty _ _ Haw).
    destruct Haw as [Hwf He]. cbn [concat]. rewrite <- app_assoc. simpl drain_fuel.
    rewrite (codec_complete a w _ Hwf He). simpl.
    rewrite drop_app_length.
    cbn [concat] in Hlen. rewrite !length_app in Hlen.
    rewrite IH; [done | rewrite length_app; lia | done].
Qed.

Lemma drain_encodings xs ws a w k :
  Forall2 encodes xs ws -> encodes a w -> k < length w ->
  drain (concat ws ++ take k w) = Ok (xs, take k w).
Proof.
  intros HF [Hwf He] Hk. apply drain_fuel_encodings; [done | lia |].
  by eapply codec_prefix.
Qed.
End codec_facts.

(** A decoder whose decisions are stable (more bytes never change a verdict)
    needs no separate argument for prefixes: a verdict on a strict prefix would
    be the verdict on the whole, which consumes more than the prefix holds. *)
Lemma stable_prefix {A E} (dec : bytes -> result E (option (A * nat))) a w k :
  (forall input more, dec input <> Ok None -> dec (input ++ more) = dec input) ->
  (forall input a n, dec input = Ok (Some (a, n)) -> n <= length input) ->
  dec w = Ok (Some (a, length w)) -> k < length w -> dec (take k w) = Ok None.
Proof.
  intros Hst Hc Hw Hk.
  destruct (dec (take k w)) as [[[b n]|]|e] eqn:Ed; [exfalso | done | exfalso];
    pose proof (Hst (take k w) (drop k w) ltac:(congruence)) as H;
    rewrite take_drop, Hw in H; [|congruence].
  pose proof (Hc _ _ _ Ed) as Hn. rewrite length_take in Hn.
  rewrite Ed in H. injection H as _ Hl. lia.
Qed.

Lemma lookup_total_app_stable (l more : bytes) i :
  i < length l -> (l ++ more) !!! i = l !!! i.
Proof. intros. by apply lookup_total_app_l. Qed.

Lemma slice_app_stable {A} (l more : list A) a b :
  b <= length l -> slice (l ++ more) a b = slice l a b.
Proof.
  intros. unfold slice. destruct (decide (a <= length l)).
  - rewrite drop_app_le by done. apply take_app_le. rewrite length_drop. lia.
  - replace (b - a) with 0 by lia. by rewrite !take_0.
Qed.

(** [stable_guard] takes the guard of a stable decoder: a short buffer asks for
    more, a long enough one stays long enough. *)
Ltac stable_guard :=
  match goal with
  | |- (if (length ?l <? ?b)%nat then Ok None else _) <> Ok None -> _ =>
    destruct (Nat.ltb_spec (length l) b); [congruence|];
    rewrite (ltb_false_ge (length (l ++ _)) b) by (rewrite length_app; lia)
  end.
Ltac stable_reads :=
  repeat match goal with
  | |- context [(?l ++ ?m) !!! ?i] => rewrite (lookup_total_app_stable l m i) by lia
  | |- context [slice (?l ++ ?m) ?a ?b] => rewrite (slice_app_stable l m a b) by lia
  end.

(** ** Writing into a fixed array

    [buf[i..i + xs.len()].copy_from_slice(xs)] *)
Definition splice {A} (l : list A) (i : nat) (xs : list A) : list A :=
  take i l ++ xs ++ drop (i + length xs) l.

Lemma splice_length {A} (l : list A) i xs :
  i + length xs <= length l -> length (splice l i xs) = length l.
Proof.
  intros H. unfold splice. rewrite !length_app, length_take, length_drop. lia.
Qed.

Lemma splice_splice {A} (l : list A) i xs ys :
  i + length xs + length ys <= length l ->
  splice (splice l i xs) (i + length xs) ys = splice l i (xs ++ ys).
Proof.
  intros H. unfold splice.
  assert (Ht : length (take i l ++ xs) = i + length xs)
    by (rewrite length_app, length_take; lia).
  rewrite (app_assoc (take i l) xs (drop _ l)).
  rewrite take_app_length' by done.
  rewrite drop_app_ge by lia. rewrite Ht, drop_drop, length_app, <- !app_assoc.
  do 4 f_equal. lia.
Qed.

(** ** The interface of a streaming decoder

    A carrier hands the decoder arbitrary slices of a byte stream. What every
    decoder promises is that the slicing cannot be observed: the outputs and
    the final state depend on the bytes alone. *)
Class StreamDecoder (S O : Type) := {
  sd_inv : S -> Prop;
  sd_push : S -> bytes -> S * list O;
  sd_push_inv s input : sd_inv s -> sd_inv (sd_push s input).1;
  sd_push_nil s : sd_inv s -> sd_push s [] = (s, []);
  sd_push_app s a b : sd_inv s ->
    sd_push s (a ++ b) =
    let (s1, o1) := sd_push s a in let (s2, o2) := sd_push s1 b in (s2, o1 ++ o2)
}.

(** Feeding the chunks of a carrier one by one. *)
Fixpoint feed {S O} `{StreamDecoder S O} (s : S) (chunks : list bytes) : S * list O :=
  match chunks with
  | [] => (s, [])
  | c :: chunks =>
    let (s1, o1) := sd_push s c in let (s2, o2) := feed s1 chunks in (s2, o1 ++ o2)
  end.

Lemma feed_concat {S O} `{StreamDecoder S O} (s : S) chunks :
  sd_inv s -> feed s chunks = sd_push s (concat chunks).
Proof.
  revert s; induction chunks as [|c chunks IH]; intros s Hs; simpl.
  - by rewrite sd_push_nil.
  - rewrite sd_push_app by done. pose proof (sd_push_inv s c Hs) as Hs1.
    destruct (sd_push s c) as [s1 o1]. simpl in *. by rewrite IH.
Qed.

(** ** Reading back a field of a buffer just written

    Each tactic takes the buffer as [l1 ++ field ++ rest] and rewrites the
    access at the field's position; the goal must be in the normal form of
    [norm_app]. *)
Ltac norm_app := repeat first [rewrite <- app_assoc | progress cbn [app]].
Ltac rewrite_normed H :=
  repeat first [rewrite <- app_assoc in H | progress cbn [app] in H]; rewrite ?H; clear H.
Ltac rd_u16 l1 p rest i j :=
  let H := fresh in
  assert (H : be_val [(l1 ++ be_bytes 2 p ++ rest) !!! i; (l1 ++ be_bytes 2 p ++ rest) !!! j] = p)
    by (apply read_u16; [len_simpl; simpl; lia | lia | lia]);
  rewrite_normed H.
Lemma read_at (l1 rest : bytes) b i : i = length l1 -> (l1 ++ b :: rest) !!! i = b.
Proof. intros ->. rewrite lookup_total_app_r by lia. by rewrite Nat.sub_diag. Qed.
Ltac rd_at l1 b rest i :=
  let H := fresh in
  assert (H : (l1 ++ b :: rest) !!! i = b)
    by (apply read_at; len_simpl; simpl; lia);
  rewrite_normed H.
Ltac rd_drop l1 rest n :=
  let H := fresh in
  assert (H : drop n (l1 ++ rest) = rest) by (apply drop_app_length'; len_simpl; simpl; lia);
  rewrite_normed H.
Ltac rd_take l1 rest n :=
  let H := fresh in
  assert (H : take n (l1 ++ rest) = l1) by (apply take_app_length'; len_simpl; simpl; lia);
  rewrite_normed H.
Ltac rd_slice l1 l2 rest a b :=
  let H := fresh in
  assert (H : slice (l1 ++ l2 ++ rest) a b = l2)
    by (apply slice_app_mid; len_simpl; simpl; lia);
  rewrite_normed H.

Lemma map_Forall_weaken {K A} `{Countable K} (P : K -> A -> Prop) (m1 m2 : gmap K A) :
  map_Forall P m2 -> m1 ⊆ m2 -> map_Forall P m1.
Proof. intros H2 Hs k x Hk. apply H2. by apply (lookup_weaken m1 m2). Qed.

(** ** Sums over a map: [map.values().map(f).sum()] *)
Definition map_sum {K A} `{Countable K} (f : A -> nat) (m : gmap K A) : nat :=
  map_fold (fun _ x n => f x + n) 0 m.

Section map_sum.
Context {K A} `{Countable K} (f : A -> nat).
Implicit Types m : gmap K A.

Lemma map_sum_empty : map_sum f (∅ : gmap K A) = 0.
Proof. unfold map_sum. by rewrite map_fold_empty. Qed.

Lemma map_sum_fresh m k x : m !! k = None -> map_sum f (<[k := x]> m) = f x + map_sum f m.
Proof.
  intros Hk. unfold map_sum. rewrite map_fold_insert_L; [done| |done]. intros. lia.
Qed.

Lemma map_sum_lookup m k x : m !! k = Some x -> map_sum f m = f x + map_sum f (delete k m).
Proof.
  intros Hk. rewrite <- (insert_delete_id m k x Hk) at 1. apply map_sum_fresh.
  by rewrite lookup_delete_eq.
Qed.

Lemma map_sum_insert m k x : map_sum f (<[k := x]> m) = f x + map_sum f (delete k m).
Proof. rewrite <- insert_delete_eq. apply map_sum_fresh. by rewrite lookup_delete_eq. Qed.

Lemma map_sum_delete m k : map_sum f (delete k m) <= map_sum f m.
Proof.
  destruct (m !! k) as [x|] eqn:E; [rewrite (map_sum_lookup m k x E); lia|].
  by rewrite delete_id.
Qed.

Lemma map_sum_filter (P : K * A -> Prop) `{!forall x, Decision (P x)} m :
  map_sum f (filter P m) <= map_sum f m.
Proof.
  induction m as [|k x m Hk IH] using map_ind.
  - by rewrite map_filter_empty.
  - rewrite (map_sum_fresh m) by done. destruct (decide (P (k, x))).
    + rewrite map_filter_insert_True by done. rewrite map_sum_fresh; [lia|].
      apply map_lookup_filter_None. by left.
    + rewrite map_filter_insert_False by done. rewrite delete_id by done. lia.
Qed.
End map_sum.
