(* ===== verification/StdText.v ===== *)
(** The standard library's text functions the sources call: [str] splitting and
    trimming, ASCII case, [u8::from_str] and [IpAddr::from_str]
    ([core::net::parser]), on the UTF-8 bytes of the string. Nothing here is
    code of the repository; the components above use it. *)
From S2P Require Import Prelude.

(** ** Splitting and stripping *)

(** [s.strip_prefix(p)] *)
Fixpoint strip_prefix (p l : bytes) : option bytes :=
  match p, l with
  | [], _ => Some l
  | a :: p, b :: l => if bool_decide (a = b) then strip_prefix p l else None
  | _ :: _, [] => None
  end.

(** [s.strip_suffix(p)] *)
Definition strip_suffix (p l : bytes) : option bytes :=
  reverse <$> strip_prefix (reverse p) (reverse l).

(** [s.split_once(c)] for an ASCII [c] *)
Fixpoint split_once (c : byte) (l : bytes) : option (bytes * bytes) :=
  match l with
  | [] => None
  | b :: l =>
    if bool_decide (b = c) then Some ([], l)
    else r ← split_once c l; Some (b :: r.1, r.2)
  end.

(** The [char]s of [White_Space], encoded. *)
Definition white_space : list bytes :=
  [[x09]; [x0a]; [x0b]; [x0c]; [x0d]; [x20]; [xc2; x85]; [xc2; xa0]; [xe1; x9a; x80];
   [xe2; x80; x80]; [xe2; x80; x81]; [xe2; x80; x82]; [xe2; x80; x83]; [xe2; x80; x84];
   [xe2; x80; x85]; [xe2; x80; x86]; [xe2; x80; x87]; [xe2; x80; x88]; [xe2; x80; x89];
   [xe2; x80; x8a]; [xe2; x80; xa8]; [xe2; x80; xa9]; [xe2; x80; xaf]; [xe2; x81; x9f];
   [xe3; x80; x80]].

Fixpoint strip_any (ps : list bytes) (l : bytes) : option bytes :=
  match ps with
  | [] => None
  | p :: ps => match strip_prefix p l with Some r => Some r | None => strip_any ps l end
  end.

Fixpoint trim_with (fuel : nat) (ws : list bytes) (l : bytes) : bytes :=
  match fuel with
  | O => l
  | S fuel => match strip_any ws l with Some r => trim_with fuel ws r | None => l end
  end.

(** [s.trim()]; every round strips at least one byte. *)
Definition trim (l : bytes) : bytes :=
  let l := trim_with (length l) white_space l in
  reverse (trim_with (length l) (reverse <$> white_space) (reverse l)).

(** [s.lines()]: a final newline ends the last line, a [\r] before a newline
    belongs to it. *)
Fixpoint lines_from (cur l : bytes) : list bytes :=
  match l with
  | [] => match cur with [] => [] | _ => [cur] end
  | b :: l =>
    if bool_decide (b = x0a) then default cur (strip_suffix [x0d] cur) :: lines_from [] l
    else lines_from (cur ++ [b]) l
  end.
Definition lines (l : bytes) : list bytes := lines_from [] l.

Definition is_ascii_uppercase (b : byte) : bool := in_range 65 90 b.
Definition ascii_lower (b : byte) : byte :=
  if is_ascii_uppercase b then u8 (b2z b + 32) else b.
(** [s.to_ascii_lowercase()] *)
Definition to_ascii_lowercase (l : bytes) : bytes := ascii_lower <$> l.

(** ** Numbers *)

(** [c.to_digit(radix)] for the radices 10 and 16 *)
Definition to_digit (radix : Z) (b : byte) : option Z :=
  let d :=
    if in_range 48 57 b then Some (b2z b - 48)%Z
    else if in_range 97 102 b then Some (b2z b - 87)%Z
    else if in_range 65 70 b then Some (b2z b - 55)%Z
    else None in
  d ← d; if (d <? radix)%Z then Some d else None.

(** The digits of [u8::from_str], with the overflow check of each step. *)
Fixpoint parse_digits_u8 (acc : Z) (l : bytes) : option Z :=
  match l with
  | [] => Some acc
  | b :: l =>
    d ← to_digit 10 b;
    let acc := (acc * 10 + d)%Z in
    if (255 <? acc)%Z then None else parse_digits_u8 acc l
  end.

(** [s.parse::<u8>()]: one leading [+] is accepted, nothing else around the
    digits. *)
Definition parse_u8 (l : bytes) : option Z :=
  match l with
  | [] => None
  | b :: rest =>
    if bool_decide (b = x2b) then
      match rest with [] => None | _ => parse_digits_u8 0 rest end
    else parse_digits_u8 0 l
  end.

(** ** IP literals

    [core::net::parser]: a parser returns the rest of its input, and [None]
    leaves the input where it was ([read_atomically]). *)
Inductive IpAddr : Type :=
  | IpAddrV4 (octets : bytes)
  | IpAddrV6 (octets : bytes).

Definition parser (A : Type) : Type := bytes -> option (A * bytes).

Definition read_given_char (c : byte) : parser unit := fun l =>
  match l with b :: l => if bool_decide (b = c) then Some (tt, l) else None | [] => None end.

Definition read_separator {A} (sep : byte) (index : nat) (inner : parser A) : parser A :=
  fun l =>
    match index with
    | O => inner l
    | S _ => r ← read_given_char sep l; inner r.2
    end.

(** The digit loop of [read_number]; [None] once more than [max_digits] are
    read. *)
Fixpoint read_digits (radix : Z) (max_digits : nat) (count : nat) (acc : Z) (l : bytes)
    : option (Z * nat * bytes) :=
  match l with
  | b :: l' =>
    match to_digit radix b with
    | Some d =>
      if (max_digits <? S count)%nat then None
      else read_digits radix max_digits (S count) (acc * radix + d) l'
    | None => Some (acc, count, l)
    end
  | [] => Some (acc, count, l)
  end.

(** [read_number(radix, Some(max_digits), allow_zero_prefix)] into an integer
    of maximum [tmax]. *)
Definition read_number (radix : Z) (max_digits : nat) (allow_zero_prefix : bool) (tmax : Z)
    : parser Z := fun l =>
  let has_leading_zero := match l with b :: _ => bool_decide (b = x30) | [] => false end in
  r ← read_digits radix max_digits 0 0 l;
  let '(v, count, rest) := (r : Z * nat * bytes) in
  if (count =? 0)%nat then None
  else if negb allow_zero_prefix && has_leading_zero && (1 <? count)%nat then None
  else if (tmax <? v)%Z then None
  else Some (v, rest).

Fixpoint read_ipv4_groups (n i : nat) (l : bytes) : option (bytes * bytes) :=
  match n with
  | O => Some ([], l)
  | S n =>
    g ← read_separator x2e i (read_number 10 3 false 255) l;
    r ← read_ipv4_groups n (S i) g.2;
    Some (u8 g.1 :: r.1, r.2)
  end.
Definition read_ipv4_addr : parser bytes := read_ipv4_groups 4 0.

(** [read_groups(p, &mut groups)]: the octets of the groups read (two per
    group), whether the last two came from an embedded IPv4 address, and the
    rest. [n] is the number of slots left, [i] the slot's index. *)
Fixpoint read_groups (limit n i : nat) (l : bytes) : bytes * bool * bytes :=
  match n with
  | O => ([], false, l)
  | S n =>
    match (if (i <? limit - 1)%nat then read_separator x3a i read_ipv4_addr l else None) with
    | Some (v4, l') => (v4, true, l')
    | None =>
      match read_separator x3a i (read_number 16 4 true 65535) l with
      | Some (g, l') =>
        let '(gs, v4, rest) := read_groups limit n (S i) l' in (be_bytes 2 g ++ gs, v4, rest)
      | None => ([], false, l)
      end
    end
  end.

Definition read_ipv6_addr : parser bytes := fun l =>
  let '(head, head_ipv4, l) := read_groups 8 8 0 l in
  if bool_decide (length head = 16) then Some (head, l)
  else if head_ipv4 then None
  else
    r ← read_given_char x3a l;
    r ← read_given_char x3a r.2;
    let limit := 8 - (length head / 2 + 1) in
    let '(tail, _, l) := read_groups limit limit 0 r.2 in
    Some (head ++ replicate (16 - length head - length tail) x00 ++ tail, l).

(** [s.parse::<IpAddr>()] *)
Definition parse_ip (l : bytes) : option IpAddr :=
  match read_ipv4_addr l with
  | Some (a, []) => Some (IpAddrV4 a)
  | Some (_, _ :: _) => None
  | None =>
    match read_ipv6_addr l with
    | Some (a, []) => Some (IpAddrV6 a)
    | _ => None
    end
  end.

Example parse_ip_v4 : parse_ip (str "10.0.255.1") = Some (IpAddrV4 [x0a; x00; xff; x01]).
Proof. reflexivity. Qed.
Example parse_ip_zero : parse_ip (str "10.0.05.1") = None.
Proof. reflexivity. Qed.
Example parse_ip_v6 :
  parse_ip (str "2001:dB8::1:0") = Some (IpAddrV6
    ([x20; x01; x0d; xb8] ++ replicate 8 x00 ++ [x00; x01; x00; x00])).
Proof. reflexivity. Qed.
Example parse_ip_mapped :
  parse_ip (str "::ffff:1.2.3.4") = Some (IpAddrV6
    (replicate 10 x00 ++ [xff; xff; x01; x02; x03; x04])).
Proof. reflexivity. Qed.
Example parse_ip_bad : parse_ip (str "1:2:3:4:5:6:7::8") = None.
Proof. reflexivity. Qed.
Example parse_ip_any : parse_ip (str "::") = Some (IpAddrV6 (replicate 16 x00)).
Proof. reflexivity. Qed.

(** ** Facts *)
Lemma strip_prefix_spec p l r : strip_prefix p l = Some r <-> l = p ++ r.
Proof.
  revert l; induction p as [|a p IH]; intros l; simpl.
  - split; [by intros [= ->]|by intros ->].
  - destruct l as [|b l]; [done|]. destruct (bool_decide_reflect (a = b)) as [->|Hne].
    + rewrite IH. split; [by intros ->|by intros [= ->]].
    + split; [done|]. intros [= -> ->]. done.
Qed.

Lemma strip_suffix_spec p l r : strip_suffix p l = Some r <-> l = r ++ p.
Proof.
  unfold strip_suffix. split.
  - intros H. apply fmap_Some in H as (x & Hx & ->). apply strip_prefix_spec in Hx.
    apply (f_equal reverse) in Hx. by rewrite reverse_involutive, reverse_app, reverse_involutive in Hx.
  - intros ->. rewrite reverse_app. apply fmap_Some. exists (reverse r).
    split; [by apply strip_prefix_spec|by rewrite reverse_involutive].
Qed.

Lemma split_once_spec c l :
  match split_once c l with
  | Some (a, b) => l = a ++ c :: b /\ c ∉ a
  | None => c ∉ l
  end.
Proof.
  induction l as [|x l IH]; simpl; [set_solver|].
  destruct (bool_decide_reflect (x = c)) as [->|Hne]; [set_solver|].
  destruct (split_once c l) as [[a b]|]; simpl; set_solver.
Qed.

Lemma read_separator_inner {A} sep i (p : parser A) l r :
  read_separator sep i p l = Some r -> exists l', p l' = Some r.
Proof. destruct i; simpl; [eauto|]. intros H. apply bind_Some in H as (x & _ & H). eauto. Qed.

Lemma read_ipv4_groups_length n i l a r :
  read_ipv4_groups n i l = Some (a, r) -> length a = n.
Proof.
  revert i l a r; induction n as [|n IH]; intros i l a r H; simpl in H; [by simplify_eq|].
  apply bind_Some in H as (g & _ & H). apply bind_Some in H as ([a' r'] & Ha & H).
  simplify_eq/=. f_equal. eauto.
Qed.

Lemma read_groups_length limit n i l :
  i + n = limit ->
  length (read_groups limit n i l).1.1 <= 2 * n /\
  exists k, length (read_groups limit n i l).1.1 = 2 * k.
Proof.
  revert i l; induction n as [|n IH]; intros i l Hi; simpl; [split; [lia|by exists 0]|].
  assert (Hslot : let p := match read_separator x3a i (read_number 16 4 true 65535) l with
      | Some (g, l') =>
        let '(gs, v4, rest) := read_groups limit n (S i) l' in (be_bytes 2 g ++ gs, v4, rest)
      | None => ([], false, l)
      end in length p.1.1 <= 2 * S n /\ exists k, length p.1.1 = 2 * k).
  { destruct (read_separator x3a i (read_number 16 4 true 65535) l) as [[g l']|];
      [|split; [simpl; lia|by exists 0]].
    specialize (IH (S i) l' ltac:(lia)). destruct (read_groups limit n (S i) l') as [[gs v4] rest].
    cbn [fst snd] in *. cbv zeta. cbn [fst snd].
    rewrite length_app, be_bytes_length. destruct IH as [IH [k Hk]]. split; [lia|exists (S k); lia]. }
  destruct (Nat.ltb_spec i (limit - 1)); [|exact Hslot].
  destruct (read_separator x3a i read_ipv4_addr l) as [[v4 l']|] eqn:E; [|exact Hslot].
  apply read_separator_inner in E as [l0 E]. apply read_ipv4_groups_length in E.
  simpl. split; [lia|exists 2; lia].
Qed.

(** What [parse::<IpAddr>()] returns has the type's shape. *)
Lemma parse_ip_wf l a : parse_ip l = Some a ->
  match a with IpAddrV4 o => length o = 4 | IpAddrV6 o => length o = 16 end.
Proof.
  unfold parse_ip. destruct (read_ipv4_addr l) as [[o [|b r]]|] eqn:E4.
  - intros [= <-]. by apply read_ipv4_groups_length in E4.
  - done.
  - unfold read_ipv6_addr. pose proof (read_groups_length 8 8 0 l eq_refl) as [Hh [k Hk]].
    destruct (read_groups 8 8 0 l) as [[head v4] l1]. simpl in Hh, Hk.
    destruct (bool_decide_reflect (length head = 16)) as [H16|Hn].
    + destruct l1; [|done]. by intros [= <-].
    + destruct v4; [done|]. simpl.
      destruct (read_given_char x3a l1) as [[? l2]|]; simpl; [|done].
      destruct (read_given_char x3a l2) as [[? l3]|]; simpl; [|done].
      match goal with |- context [read_groups ?n ?n 0 l3] => set (limit := n) end.
      pose proof (read_groups_length limit limit 0 l3 eq_refl) as [Ht _].
      destruct (read_groups limit limit 0 l3) as [[tl ?] l4]. simpl in Ht.
      destruct l4; [|done]. intros [= <-]. rewrite !length_app, length_replicate.
      assert (Hd : length head / 2 = k) by (replace (length head) with (k * 2) by lia; by apply Nat.div_mul).
      assert (limit = 7 - k) by (unfold limit; lia).
      lia.
Qed.
