(* ===== verification/Target.v ===== *)
(** Target addresses in the SOCKS5 ATYP wire shape
    ([crates/outline-wire/src/target.rs]): the strict and the incremental
    decoder over one shared [parse_inner], and the encoder. *)
From S2P Require Import Prelude.

Definition SOCKS_ATYP_IPV4 : byte := x01.
Definition SOCKS_ATYP_DOMAIN : byte := x03.
Definition SOCKS_ATYP_IPV6 : byte := x04.

(** An [Ipv4Addr] is its four octets, an [Ipv6Addr] its sixteen, a [String]
    its bytes; [wf_target] states these shapes. *)
Inductive TargetAddr : Type :=
  | IpV4 (host : bytes) (port : Z)
  | IpV6 (host : bytes) (port : Z)
  | Domain (host : bytes) (port : Z).

#[export] Instance TargetAddr_eq_dec : EqDecision TargetAddr.
Proof. solve_decision. Defined.

Inductive TargetAddrError : Type :=
  | EmptyBuffer
  | ShortAddress (kind : String.string)
  | UnsupportedAddressType (atyp : byte)
  | DomainTooLong
  | DomainNotUtf8.

Inductive ParseOutcome : Type :=
  | Complete (addr : TargetAddr) (consumed : nat)
  | Incomplete (kind : String.string).

Definition parse_inner (input : bytes) : result TargetAddrError ParseOutcome :=
  match input with
  | [] => Ok (Incomplete "address")
  | atyp :: rest =>
    if bool_decide (atyp = SOCKS_ATYP_IPV4) then
      if (length rest <? 6)%nat then Ok (Incomplete "IPv4")
      else
        let host := [rest !!! 0; rest !!! 1; rest !!! 2; rest !!! 3] in
        let port := be_val [rest !!! 4; rest !!! 5] in
        Ok (Complete (IpV4 host port) 7)
    else if bool_decide (atyp = SOCKS_ATYP_IPV6) then
      if (length rest <? 18)%nat then Ok (Incomplete "IPv6")
      else
        let octets := take 16 rest in
        let port := be_val [rest !!! 16; rest !!! 17] in
        Ok (Complete (IpV6 octets port) 19)
    else if bool_decide (atyp = SOCKS_ATYP_DOMAIN) then
      match rest with
      | [] => Ok (Incomplete "domain")
      | len :: rest =>
        let len := Z.to_nat (b2z len) in
        if (length rest <? len + 2)%nat then Ok (Incomplete "domain")
        else if utf8_valid (take len rest) then
          let port := be_val [rest !!! len; rest !!! (len + 1)] in
          Ok (Complete (Domain (take len rest) port) (2 + len + 2))
        else Err DomainNotUtf8
      end
    else Err (UnsupportedAddressType atyp)
  end.

Definition to_wire_bytes (t : TargetAddr) : result TargetAddrError bytes :=
  match t with
  | IpV4 addr port => Ok (SOCKS_ATYP_IPV4 :: addr ++ be_bytes 2 port)
  | IpV6 addr port => Ok (SOCKS_ATYP_IPV6 :: addr ++ be_bytes 2 port)
  | Domain host port =>
    if (255 <? length host)%nat then Err DomainTooLong
    else Ok (SOCKS_ATYP_DOMAIN :: u8 (Z.of_nat (length host)) :: host ++ be_bytes 2 port)
  end.

Definition from_wire_bytes (input : bytes) : result TargetAddrError (TargetAddr * nat) :=
  match input with
  | [] => Err EmptyBuffer
  | _ =>
    o ← parse_inner input;
    match o with
    | Complete addr consumed => Ok (addr, consumed)
    | Incomplete kind => Err (ShortAddress kind)
    end
  end.

Definition parse_target_addr (input : bytes)
    : result TargetAddrError (option (TargetAddr * nat)) :=
  o ← parse_inner input;
  match o with
  | Complete addr consumed => Ok (Some (addr, consumed))
  | Incomplete _ => Ok None
  end.

Inductive SocketAddr : Type :=
  | V4 (ip : bytes) (port : Z)
  | V6 (ip : bytes) (port : Z).

Definition socket_addr (t : TargetAddr) : option SocketAddr :=
  match t with
  | IpV4 addr port => Some (V4 addr port)
  | IpV6 addr port => Some (V6 addr port)
  | Domain _ _ => None
  end.

Definition port (t : TargetAddr) : Z :=
  match t with IpV4 _ port | IpV6 _ port | Domain _ port => port end.

Definition socket_addr_to_target (addr : SocketAddr) : TargetAddr :=
  match addr with V4 ip port => IpV4 ip port | V6 ip port => IpV6 ip port end.

(** Well-formedness: what the Rust types of the variants guarantee. *)
Definition wf_port (p : Z) : Prop := (0 <= p < 65536)%Z.
Definition wf_target (t : TargetAddr) : Prop :=
  match t with
  | IpV4 h p => length h = 4 /\ wf_port p
  | IpV6 h p => length h = 16 /\ wf_port p
  | Domain h p => utf8_valid h = true /\ wf_port p
  end.
#[export] Instance wf_target_dec t : Decision (wf_target t).
Proof. destruct t; simpl; unfold wf_port; apply _. Defined.

(** ** Correctness *)
Section target_facts.

Lemma to_wire_bytes_length t w : wf_target t -> to_wire_bytes t = Ok w ->
  length w = match t with IpV4 _ _ => 7 | IpV6 _ _ => 19 | Domain h _ => 4 + length h end.
Proof.
  destruct t as [h p|h p|h p]; simpl; intros [Hl _] H; try split_guard;
    injection H as <-; rewrite ?length_cons, length_app; simpl; lia.
Qed.

Lemma parse_inner_complete t w rest :
  wf_target t -> to_wire_bytes t = Ok w ->
  parse_inner (w ++ rest) = Ok (Complete t (length w)).
Proof.
  intros Hwf Hw. pose proof (to_wire_bytes_length t w Hwf Hw) as Hlen. revert Hw.
  rewrite Hlen.
  destruct t as [h p|h p|h p]; simpl in Hwf; destruct Hwf as [Hh Hp];
    cbn [to_wire_bytes]; intros H; try (split_guard; []); injection H as <-;
    rewrite <- ?app_comm_cons, <- app_assoc; cbn [parse_inner]; eval_eqs.
  - decide_ltb. rewrite read_u16 by done.
    by do 5 (destruct h as [|? h]; simpl in Hh; try lia).
  - decide_ltb. rewrite take_app_length' by done. by rewrite read_u16.
  - rewrite u8_of_nat_len by lia. decide_ltb. rewrite take_app_length, Hh.
    rewrite read_u16 by (done || lia).
    by replace (4 + length h) with (2 + length h + 2) by lia.
Qed.

(** Soundness: what the parser returns is well formed and the bytes it consumed
    are its canonical encoding. *)
Lemma parse_inner_sound input t n :
  parse_inner input = Ok (Complete t n) ->
  wf_target t /\ n <= length input /\ to_wire_bytes t = Ok (take n input).
Proof.
  destruct input as [|atyp rest]; [discriminate|]. cbn [parse_inner]. intros H.
  repeat split_guard; subst atyp; [injection H as <- <- .. | ].
  - do 6 (destruct rest as [|? rest]; simpl in *; try lia).
    unfold wf_port. pose proof (u16_val_range b3 b4). cbn.
    split_and!; try (done || lia). by rewrite be_bytes_u16.
  - simpl. rewrite length_take.
    split_and!; try (apply u16_val_range || lia).
    rewrite (split_at_u16 rest 16) at 4 by lia.
    do 2 f_equal. rewrite app_assoc, take_app_length'; [done|].
    rewrite length_app, length_take, be_bytes_length. lia.
  - destruct rest as [|len rest]; [discriminate|]. simpl in H.
    repeat split_guard. injection H as <- <-. simpl.
    set (k := Z.to_nat (b2z len)) in *.
    split_and!; try (done || apply u16_val_range || lia).
    rewrite length_take, Nat.min_l by lia.
    assert (k <= 255) by apply to_nat_b2z_lt.
    rewrite ltb_false_ge by lia. unfold k at 1. rewrite u8_to_nat_len.
    do 3 f_equal. rewrite (split_at_u16 rest k) at 4 by lia.
    rewrite app_assoc, take_app_length'; [done|].
    rewrite length_app, length_take, be_bytes_length. lia.
Qed.

(** A strict prefix of an encoding never decides anything. *)
Lemma parse_inner_prefix t w k :
  wf_target t -> to_wire_bytes t = Ok w -> k < length w ->
  exists kind, parse_inner (take k w) = Ok (Incomplete kind).
Proof.
  intros Hwf Hw. rewrite (to_wire_bytes_length t w Hwf Hw). revert Hw.
  destruct t as [h p|h p|h p]; simpl in Hwf; destruct Hwf as [Hh Hp];
    cbn [to_wire_bytes]; intros H Hk; try (split_guard; []); injection H as <-;
    (destruct k as [|k]; [eexists; reflexivity|]); cbn [take parse_inner]; eval_eqs.
  - rewrite ltb_true_lt by (rewrite length_take; lia). eauto.
  - rewrite ltb_true_lt by (rewrite length_take; lia). eauto.
  - destruct k as [|k]; [eexists; reflexivity|]. cbn [take].
    rewrite u8_of_nat_len by lia.
    rewrite ltb_true_lt by (rewrite length_take; lia). eauto.
Qed.

Lemma from_wire_bytes_spec input t n :
  from_wire_bytes input = Ok (t, n) <-> parse_inner input = Ok (Complete t n).
Proof.
  destruct input as [|a l]; [split; discriminate|]. unfold from_wire_bytes.
  destruct (parse_inner (a :: l)) as [[addr c|kind]|e]; simpl; split; congruence.
Qed.

Lemma parse_target_addr_spec input t n :
  parse_target_addr input = Ok (Some (t, n)) <-> parse_inner input = Ok (Complete t n).
Proof.
  unfold parse_target_addr.
  destruct (parse_inner input) as [[addr c|kind]|e]; simpl; split; congruence.
Qed.

Lemma parse_target_addr_app t w rest :
  wf_target t -> to_wire_bytes t = Ok w ->
  parse_target_addr (w ++ rest) = Ok (Some (t, length w)).
Proof. intros. apply parse_target_addr_spec. by apply parse_inner_complete. Qed.

Lemma to_wire_bytes_nonempty t w : to_wire_bytes t = Ok w -> 0 < length w.
Proof. destruct t; simpl; intros H; try split_guard; injection H as <-; simpl; lia. Qed.

Lemma parse_target_addr_sound input t n :
  parse_target_addr input = Ok (Some (t, n)) ->
  wf_target t /\ n <= length input /\ to_wire_bytes t = Ok (take n input).
Proof. intros H. apply parse_inner_sound. by apply parse_target_addr_spec. Qed.

Lemma parse_target_addr_consumed input t n :
  parse_target_addr input = Ok (Some (t, n)) -> 0 < n <= length input.
Proof.
  intros H. apply parse_target_addr_sound in H as (_ & Hn & Hw).
  apply to_wire_bytes_nonempty in Hw. rewrite length_take in Hw. lia.
Qed.

Lemma parse_target_addr_prefix t w k :
  wf_target t -> to_wire_bytes t = Ok w -> k < length w ->
  parse_target_addr (take k w) = Ok None.
Proof.
  intros Hwf Hw Hk. unfold parse_target_addr.
  by destruct (parse_inner_prefix t w k Hwf Hw Hk) as [kind ->].
Qed.
End target_facts.

(** The incremental decoder is a stream codec. *)
#[export] Instance target_codec : Codec TargetAddr TargetAddrError := {|
  cwf := wf_target;
  cenc := to_wire_bytes;
  cdec := parse_target_addr;
  codec_complete := parse_target_addr_app;
  codec_prefix := parse_target_addr_prefix;
  codec_consumed := parse_target_addr_consumed
|}.

(** ** Properties *)

(** The strict decoder and the encoder agree exactly: [from_wire_bytes]
    accepts a buffer with address [t] and length [n] if and only if [t] is well
    formed (octet counts, a port of 16 bits, a UTF-8 domain) and the first [n]
    bytes of the buffer are the encoding of [t]. *)
Theorem from_wire_bytes_iff (input : bytes) (t : TargetAddr) (n : nat) :
  from_wire_bytes input = Ok (t, n) <->
  wf_target t /\ n <= length input /\ to_wire_bytes t = Ok (take n input).
Proof.
  rewrite from_wire_bytes_spec. split.
  - apply parse_inner_sound.
  - intros (Hwf & Hn & Hw). rewrite <- (take_drop n input) at 1.
    rewrite (parse_inner_complete t _ _ Hwf Hw). rewrite length_take. do 2 f_equal. lia.
Qed.

(** The two decoders differ only on short input: the incremental one asks
    for more bytes ([Ok None]) exactly where the strict one reports a short or
    an empty buffer, and they agree on every address and every other error. *)
Theorem strict_incremental_agree (input : bytes) :
  parse_target_addr input =
  match from_wire_bytes input with
  | Ok r => Ok (Some r)
  | Err (EmptyBuffer | ShortAddress _) => Ok None
  | Err e => Err e
  end.
Proof.
  destruct input as [|a l]; [done|]. unfold parse_target_addr, from_wire_bytes.
  destruct (parse_inner (a :: l)) as [[addr c|kind]|e] eqn:E; [done..|]. simpl.
  assert (He : e = UnsupportedAddressType a \/ e = DomainNotUtf8).
  { revert E. cbn [parse_inner].
    repeat (case_match; try discriminate); intros E; injection E as <-; auto. }
  by destruct He as [-> | ->].
Qed.
