(* ===== verification/Cipher.v ===== *)
(** Cipher identifiers and master-key derivation
    ([crates/outline-wire/src/cipher.rs]). MD5 and base64 are third-party code
    and enter as parameters. *)
From S2P Require Import Prelude.

Inductive CipherKind : Type :=
  | Aes128Gcm
  | Aes256Gcm
  | Chacha20IetfPoly1305
  | Aes128Gcm2022
  | Aes256Gcm2022
  | Chacha20Poly13052022.

#[export] Instance CipherKind_eq_dec : EqDecision CipherKind.
Proof. solve_decision. Defined.

Definition key_len (c : CipherKind) : nat :=
  match c with
  | Aes128Gcm | Aes128Gcm2022 => 16
  | Aes256Gcm | Chacha20IetfPoly1305 | Aes256Gcm2022 | Chacha20Poly13052022 => 32
  end.

Definition salt_len (c : CipherKind) : nat := key_len c.

Definition is_ss2022 (c : CipherKind) : bool :=
  match c with Aes128Gcm2022 | Aes256Gcm2022 | Chacha20Poly13052022 => true | _ => false end.

Definition is_ss2022_aes (c : CipherKind) : bool :=
  match c with Aes128Gcm2022 | Aes256Gcm2022 => true | _ => false end.

Definition is_ss2022_chacha (c : CipherKind) : bool :=
  match c with Chacha20Poly13052022 => true | _ => false end.

Definition max_payload_len (c : CipherKind) : Z :=
  if is_ss2022 c then 65535%Z else 16383%Z.

Definition as_str (c : CipherKind) : bytes :=
  match c with
  | Aes128Gcm => str "aes-128-gcm"
  | Aes256Gcm => str "aes-256-gcm"
  | Chacha20IetfPoly1305 => str "chacha20-ietf-poly1305"
  | Aes128Gcm2022 => str "2022-blake3-aes-128-gcm"
  | Aes256Gcm2022 => str "2022-blake3-aes-256-gcm"
  | Chacha20Poly13052022 => str "2022-blake3-chacha20-poly1305"
  end.

Inductive UnknownCipherError : Type := UnknownCipher (s : bytes).

Definition from_str (s : bytes) : result UnknownCipherError CipherKind :=
  if bool_decide (s = str "aes-128-gcm") then Ok Aes128Gcm
  else if bool_decide (s = str "aes-256-gcm") then Ok Aes256Gcm
  else if bool_decide (s = str "chacha20-ietf-poly1305") then Ok Chacha20IetfPoly1305
  else if bool_decide (s = str "2022-blake3-aes-128-gcm") then Ok Aes128Gcm2022
  else if bool_decide (s = str "2022-blake3-aes-256-gcm") then Ok Aes256Gcm2022
  else if bool_decide (s = str "2022-blake3-chacha20-poly1305") then Ok Chacha20Poly13052022
  else Err (UnknownCipher s).

Definition MD5_BLOCK_LEN : nat := 16.

Section keys.
Context {DecodeError : Type}.
Variable md5 : bytes -> bytes.
Variable base64_decode : bytes -> result DecodeError bytes.

Inductive MasterKeyError : Type :=
  | InvalidBase64Psk (e : DecodeError)
  | PskLengthMismatch (got expected : nat).

(** The stretch loop of [evp_bytes_to_key]; [None] only when the fuel runs
    out while the key is still short. *)
Fixpoint evp_loop (fuel : nat) (password : bytes) (key_len : nat) (key prev : bytes)
    : option bytes :=
  if (length key <? key_len)%nat then
    match fuel with
    | O => None
    | S fuel =>
      let input := prev ++ password in
      let prev := md5 input in
      evp_loop fuel password key_len (key ++ prev) prev
    end
  else Some key.

Definition evp_bytes_to_key (password : bytes) (key_len : nat) : option bytes :=
  key ← evp_loop key_len password key_len [] [];
  Some (take key_len key).

(** [None] is a key stretch that would not terminate; [derive_master_key_total]
    shows that it does not occur. *)
Definition derive_master_key (c : CipherKind) (password : bytes)
    : option (result MasterKeyError bytes) :=
  if is_ss2022 c then
    Some (key ← map_err InvalidBase64Psk (base64_decode password);
          if bool_decide (length key = key_len c) then Ok key
          else Err (PskLengthMismatch (length key) (key_len c)))
  else
    Ok <$> evp_bytes_to_key password (key_len c).

(** OpenSSL's definition of EVP_BytesToKey with one iteration and no salt:
    [D_1 = MD5(password)], [D_i = MD5(D_(i-1) || password)], the key being
    the first bytes of [D_1 || D_2 || ...]. *)
Fixpoint evp_blocks (n : nat) (password prev : bytes) : bytes :=
  match n with
  | O => []
  | S n => let d := md5 (prev ++ password) in d ++ evp_blocks n password d
  end.

Hypothesis md5_length : forall x, length (md5 x) = MD5_BLOCK_LEN.

Lemma evp_blocks_length n password prev :
  length (evp_blocks n password prev) = 16 * n.
Proof.
  revert prev; induction n as [|n IH]; intros prev; [done|].
  cbn [evp_blocks]. rewrite length_app, md5_length, IH. unfold MD5_BLOCK_LEN. lia.
Qed.

Lemma evp_loop_spec n fuel password kl key prev :
  kl <= 16 * n + length key -> n <= fuel ->
  exists k, evp_loop fuel password kl key prev = Some k
    /\ take kl k = take kl (key ++ evp_blocks n password prev) /\ kl <= length k.
Proof.
  revert fuel key prev; induction n as [|n IH]; intros fuel key prev Hkl Hf.
  - exists key. simpl. rewrite app_nil_r. destruct fuel; simpl;
      rewrite ltb_false_ge by lia; split_and!; (done || lia).
  - destruct fuel as [|fuel]; [lia|]. simpl.
    destruct (Nat.ltb_spec (length key) kl).
    + destruct (IH fuel (key ++ md5 (prev ++ password)) (md5 (prev ++ password)))
        as (k & Hk & Ht & Hl); [|lia|].
      * rewrite length_app, md5_length. unfold MD5_BLOCK_LEN. lia.
      * exists k. split_and!; [done| |done]. by rewrite Ht, <- app_assoc.
    + exists key. split_and!; [done| |lia]. by rewrite take_app_le by lia.
Qed.

Lemma evp_bytes_to_key_total password kl n :
  kl <= 16 * n ->
  evp_bytes_to_key password kl = Some (take kl (evp_blocks n password [])).
Proof.
  intros Hn. unfold evp_bytes_to_key.
  assert (exists m, kl <= 16 * m /\ m <= kl) as (m & Hm & Hmk).
  { destruct kl as [|k']; [exists 0; lia|]. exists (S k'). lia. }
  destruct (evp_loop_spec m kl password kl [] []) as (k & Hk & Ht & Hl);
    [simpl; lia | lia |].
  rewrite Hk. simpl. f_equal. rewrite Ht. simpl. clear -Hn Hm md5_length.
  enough (forall a b, a <= b -> kl <= 16 * a ->
    take kl (evp_blocks a password []) = take kl (evp_blocks b password [])) as He.
  { destruct (Nat.le_ge_cases m n); [by apply He|]. symmetry. by apply He. }
  clear -md5_length. intros a b Hab. generalize (@nil byte) as prev. revert b kl Hab.
  induction a as [|a IH]; intros b kl Hab prev Hkl.
  - by assert (kl = 0) as -> by lia.
  - destruct b as [|b]; [lia|]. cbn [evp_blocks].
    rewrite !take_app. f_equal. apply IH; [lia|].
    rewrite md5_length. unfold MD5_BLOCK_LEN. lia.
Qed.
End keys.

(** ** Properties *)

(** The method names parse back: [from_str] accepts exactly the six canonical
    strings and returns the cipher that prints as that string. *)
Theorem from_str_iff (s : bytes) (c : CipherKind) : from_str s = Ok c <-> s = as_str c.
Proof.
  unfold from_str. split.
  - intros H. by repeat split_guard; injection H as <-.
  - intros ->. by destruct c.
Qed.

(** Master-key derivation always returns, and a key it returns has the
    cipher's key length; classic ciphers never fail and get OpenSSL's
    EVP_BytesToKey stretch of the password (two MD5 blocks cover every key
    length), SS2022 ciphers get the decoded PSK or an error that says why. *)
Theorem derive_master_key_total {DecodeError : Type} (md5 : bytes -> bytes)
    (base64_decode : bytes -> result DecodeError bytes)
    (md5_length : forall x, length (md5 x) = MD5_BLOCK_LEN) (c : CipherKind) (password : bytes) :
  exists r, derive_master_key md5 base64_decode c password = Some r /\
  match r with
  | Ok k => length k = key_len c /\
      (is_ss2022 c = false -> k = take (key_len c) (evp_blocks md5 2 password [])) /\
      (is_ss2022 c = true -> base64_decode password = Ok k)
  | Err (InvalidBase64Psk e) => is_ss2022 c = true /\ base64_decode password = Err e
  | Err (PskLengthMismatch got expected) => is_ss2022 c = true /\ expected = key_len c /\
      got <> expected /\ exists k, base64_decode password = Ok k /\ length k = got
  end.
Proof.
  unfold derive_master_key. destruct (is_ss2022 c) eqn:Hc.
  - eexists; split; [reflexivity|].
    destruct (base64_decode password) as [k|e] eqn:E; simpl; [|done].
    case_bool_decide; split_and!; eauto; discriminate.
  - rewrite (evp_bytes_to_key_total md5 md5_length _ _ 2) by (destruct c; simpl; lia).
    eexists; split; [reflexivity|]. split_and!; [|done|discriminate].
    rewrite length_take, (evp_blocks_length md5 md5_length). destruct c; simpl; lia.
Qed.

Lemma derive_master_key_total_witness :
  exists r, derive_master_key (DecodeError := unit) (fun x => replicate 16 (x !!! 0)) Ok
    Chacha20IetfPoly1305 (str "pw") = Some r.
Proof.
  destruct (derive_master_key_total (DecodeError := unit)
    (fun x => replicate 16 (x !!! 0)) Ok (fun x => eq_refl) Chacha20IetfPoly1305 (str "pw"))
    as [r [H _]].
  exists r. exact H.
Defined.
