(* ===== verification/Cluster.v ===== *)
(** Shard routing in the resumption session id
    ([crates/outline-wire/src/cluster.rs]). BLAKE3 is third-party code and
    enters as a parameter. *)
From S2P Require Import Prelude.

Definition SHARD_BITS : Z := 4.
Definition MAX_SHARDS : Z := Z.shiftl 1 SHARD_BITS.
Definition SESSION_ID_LEN : nat := 16.
Definition SEED_LEN : nat := 8.
Definition PAYLOAD_LEN : nat := SESSION_ID_LEN - SEED_LEN.
Definition SHARD_OBFUSCATION_CONTEXT : bytes :=
  str "outline-proxy cluster shard-obfuscation v1".
Definition MESH_AUTH_CONTEXT : bytes := str "outline-proxy cluster mesh-auth v1".

(** [ShardId(u8)], built only by [ShardId_new]. *)
Record ShardId : Type := mkShardId { get : byte }.

Definition ShardId_new (value : byte) : option ShardId :=
  if (b2z value <? MAX_SHARDS)%Z then Some (mkShardId value) else None.

Definition wf_shard (s : ShardId) : Prop := (b2z (get s) < MAX_SHARDS)%Z.

Record ObfuscationKey : Type := mkObfuscationKey { key_bytes : bytes }.

Section blake3.
(** [blake3::derive_key(context, material)] and the keyed extendable output
    [Hasher::new_keyed(key).update(data).finalize_xof()], cut to [n] bytes. *)
Variable blake3_derive_key : bytes -> bytes -> bytes.
Variable blake3_keyed_xof : bytes -> bytes -> nat -> bytes.

Definition derive_mesh_auth_seed (psk : bytes) : bytes :=
  blake3_derive_key MESH_AUTH_CONTEXT psk.

Definition derive_from_psk (psk : bytes) : ObfuscationKey :=
  mkObfuscationKey (blake3_derive_key SHARD_OBFUSCATION_CONTEXT psk).

Definition keystream (key : ObfuscationKey) (seed : bytes) : bytes :=
  blake3_keyed_xof (key_bytes key) seed PAYLOAD_LEN.

(** [payload[0] = (shard << SHARD_BITS) | (payload[0] & 0x0F)] *)
Definition tag_payload (shard : ShardId) (payload : bytes) : bytes :=
  <[0 := bor (u8 (Z.shiftl (b2z (get shard)) SHARD_BITS))
             (band (payload !!! 0) x0f)]> payload.

Definition encode_session_id (key : ObfuscationKey) (shard : ShardId) (entropy : bytes)
    : bytes :=
  let seed := take SEED_LEN entropy in
  let payload := tag_payload shard (drop SEED_LEN entropy) in
  let ks := keystream key seed in
  seed ++ zip_with bxor payload ks.

(** The [expect] on [ShardId::new] is the [None]. *)
Definition decode_shard (key : ObfuscationKey) (id : bytes) : option ShardId :=
  let ks := keystream key (take SEED_LEN id) in
  let first_plain := bxor (id !!! SEED_LEN) (ks !!! 0) in
  let shard := u8 (Z.shiftr (b2z first_plain) SHARD_BITS) in
  ShardId_new shard.

(** The keystream fills its output buffer. *)
Hypothesis xof_length : forall k d n, length (blake3_keyed_xof k d n) = n.

Lemma shiftr_nibble b : (b2z (u8 (Z.shiftr (b2z b) SHARD_BITS)) < MAX_SHARDS)%Z.
Proof.
  revert b. assert (H : forall b,
    (b2z (u8 (Z.shiftr (b2z b) SHARD_BITS)) <? MAX_SHARDS)%Z = true)
    by (apply byte_forall; vm_compute; reflexivity).
  intros b. by apply Z.ltb_lt, H.
Qed.

Lemma untag_shard s b : (b2z s < MAX_SHARDS)%Z ->
  u8 (Z.shiftr (b2z (bor (u8 (Z.shiftl (b2z s) SHARD_BITS)) (band b x0f))) SHARD_BITS) = s.
Proof.
  revert s b. assert (H : forall s b,
    implb (b2z s <? MAX_SHARDS)%Z (bool_decide
      (u8 (Z.shiftr (b2z (bor (u8 (Z.shiftl (b2z s) SHARD_BITS)) (band b x0f))) SHARD_BITS)
       = s)) = true) by (apply byte_forall2; vm_compute; reflexivity).
  intros s b Hs. specialize (H s b). apply Z.ltb_lt in Hs. rewrite Hs in H.
  exact (bool_decide_eq_true_1 _ H).
Qed.

Lemma untag_nonce s b : (b2z s < MAX_SHARDS)%Z ->
  band (bor (u8 (Z.shiftl (b2z s) SHARD_BITS)) (band b x0f)) x0f = band b x0f.
Proof.
  revert s b. assert (H : forall s b,
    implb (b2z s <? MAX_SHARDS)%Z (bool_decide
      (band (bor (u8 (Z.shiftl (b2z s) SHARD_BITS)) (band b x0f)) x0f = band b x0f)) = true)
    by (apply byte_forall2; vm_compute; reflexivity).
  intros s b Hs. specialize (H s b). apply Z.ltb_lt in Hs. rewrite Hs in H.
  exact (bool_decide_eq_true_1 _ H).
Qed.

Lemma encode_shape key s entropy : length entropy = SESSION_ID_LEN ->
  exists b, drop SEED_LEN entropy !! 0 = Some b /\
  encode_session_id key s entropy =
    take SEED_LEN entropy ++
    zip_with bxor (bor (u8 (Z.shiftl (b2z (get s)) SHARD_BITS)) (band b x0f)
                   :: drop (S SEED_LEN) entropy)
      (keystream key (take SEED_LEN entropy)).
Proof.
  intros Hl. do 17 (destruct entropy as [|? entropy]; [discriminate Hl || idtac|]);
    [|discriminate Hl].
  eexists; split; reflexivity.
Qed.

Lemma zip_bxor_involutive l ks : length ks = length l ->
  zip_with bxor (zip_with bxor l ks) ks = l.
Proof.
  revert ks; induction l as [|a l IH]; intros [|k ks]; try done. simpl.
  intros [=]. f_equal; [apply bxor_involutive | by apply IH].
Qed.

Lemma encode_take key s entropy : length entropy = SESSION_ID_LEN ->
  take SEED_LEN (encode_session_id key s entropy) = take SEED_LEN entropy.
Proof.
  intros Hl. unfold encode_session_id. rewrite take_app_length'; [done|].
  rewrite length_take, Hl. done.
Qed.

(** The payload the receiver recovers by XORing the keystream back. *)
Lemma encode_payload key s entropy : length entropy = SESSION_ID_LEN ->
  exists b, drop SEED_LEN entropy !! 0 = Some b /\
  zip_with bxor (drop SEED_LEN (encode_session_id key s entropy))
    (keystream key (take SEED_LEN entropy)) =
  bor (u8 (Z.shiftl (b2z (get s)) SHARD_BITS)) (band b x0f) :: drop (S SEED_LEN) entropy.
Proof.
  intros Hl. destruct (encode_shape key s entropy Hl) as (b & Hb & ->).
  exists b. split; [done|]. rewrite drop_app_length' by (by rewrite length_take, Hl).
  apply zip_bxor_involutive. unfold keystream. rewrite xof_length.
  simpl. by rewrite length_drop, Hl.
Qed.

Lemma encode_length key s entropy : length entropy = SESSION_ID_LEN ->
  length (encode_session_id key s entropy) = SESSION_ID_LEN.
Proof.
  intros Hl. destruct (encode_shape key s entropy Hl) as (b & Hb & ->).
  rewrite length_app, length_zip_with. unfold keystream. rewrite xof_length.
  cbn [length]. by rewrite length_take, length_drop, Hl.
Qed.
Lemma decode_encode key s entropy : wf_shard s -> length entropy = SESSION_ID_LEN ->
  decode_shard key (encode_session_id key s entropy) = Some s.
Proof.
  intros Hs Hl. unfold decode_shard. rewrite encode_take by done.
  destruct (encode_payload key s entropy Hl) as (b & _ & Hp).
  pose proof (encode_length key s entropy Hl) as Hil.
  set (i := encode_session_id key s entropy) in *.
  replace (bxor (i !!! SEED_LEN) (keystream key (take SEED_LEN entropy) !!! 0))
    with (bor (u8 (Z.shiftl (b2z (get s)) SHARD_BITS)) (band b x0f)).
  - rewrite (untag_shard (get s) b Hs). unfold ShardId_new.
    destruct (Z.ltb_spec (b2z (get s)) MAX_SHARDS); [by destruct s | unfold wf_shard in Hs; lia].
  - apply (f_equal (fun l => l !!! 0)) in Hp. rewrite <- Hp at 1. clear Hp.
    unfold keystream. pose proof (xof_length (key_bytes key) (take SEED_LEN entropy) PAYLOAD_LEN)
      as Hk.
    destruct (blake3_keyed_xof _ _ _) as [|k ks]; [discriminate|]. simpl in Hil.
    do 9 (destruct i as [|? i]; [discriminate Hil|]). done.
Qed.
End blake3.

(** ** Properties *)

(** Shard routing round trip: whatever the keystream, a session id encoded
    for a shard from sixteen random bytes decodes to that shard, is sixteen
    bytes long, and shows its first eight random bytes unchanged. *)
Theorem shard_roundtrip (xof : bytes -> bytes -> nat -> bytes)
    (xof_length : forall k d n, length (xof k d n) = n)
    (key : ObfuscationKey) (s : ShardId) (entropy : bytes) :
  wf_shard s -> length entropy = SESSION_ID_LEN ->
  let id := encode_session_id xof key s entropy in
  decode_shard xof key id = Some s /\ length id = SESSION_ID_LEN /\
  take SEED_LEN id = take SEED_LEN entropy.
Proof.
  intros Hs Hl id. split_and!; [by apply (decode_encode xof xof_length)|by apply (encode_length xof xof_length)|].
  by apply (encode_take xof).
Qed.

Lemma shard_roundtrip_witness :
  decode_shard (fun k d n => replicate n (d !!! 0)) (mkObfuscationKey [])
    (encode_session_id (fun k d n => replicate n (d !!! 0)) (mkObfuscationKey [])
       (mkShardId x0b) (str "0123456789abcdef")) = Some (mkShardId x0b).
Proof.
  exact (proj1 (shard_roundtrip (fun k d n => replicate n (d !!! 0))
    (fun k d n => length_replicate n _) (mkObfuscationKey []) (mkShardId x0b)
    (str "0123456789abcdef") eq_refl eq_refl)).
Defined.

(** Every sixteen-byte id, forged or not, decodes to a shard in range (the
    [expect] of [decode_shard] cannot fire). *)
Theorem decode_shard_total (xof : bytes -> bytes -> nat -> bytes)
    (key : ObfuscationKey) (id : bytes) :
  exists s, decode_shard xof key id = Some s /\ wf_shard s.
Proof.
  unfold decode_shard, ShardId_new. pose proof (shiftr_nibble
    (bxor (id !!! SEED_LEN) (keystream xof key (take SEED_LEN id) !!! 0))) as H.
  apply Z.ltb_lt in H as Hb. rewrite Hb. by eexists.
Qed.

(** No randomness is lost but the shard's four bits: two ids made under one
    key and shard are equal if and only if their random inputs agree on
    everything except the high nibble of byte eight, so 124 of the 128 random
    bits reach the id. *)
Theorem encode_injective (xof : bytes -> bytes -> nat -> bytes)
    (xof_length : forall k d n, length (xof k d n) = n)
    (key : ObfuscationKey) (s : ShardId) (e1 e2 : bytes) :
  wf_shard s -> length e1 = SESSION_ID_LEN -> length e2 = SESSION_ID_LEN ->
  encode_session_id xof key s e1 = encode_session_id xof key s e2 <->
  take SEED_LEN e1 = take SEED_LEN e2 /\
  band (e1 !!! SEED_LEN) x0f = band (e2 !!! SEED_LEN) x0f /\
  drop (S SEED_LEN) e1 = drop (S SEED_LEN) e2.
Proof.
  intros Hs H1 H2.
  destruct (encode_payload xof xof_length key s e1 H1) as (b1 & Hb1 & Hp1).
  destruct (encode_payload xof xof_length key s e2 H2) as (b2 & Hb2 & Hp2).
  rewrite lookup_drop in Hb1, Hb2. apply list_lookup_total_correct in Hb1, Hb2.
  change (SEED_LEN + 0) with SEED_LEN in *. rewrite Hb1, Hb2. split.
  - intros He. assert (Ht : take SEED_LEN e1 = take SEED_LEN e2).
    { by rewrite <- (encode_take xof key s e1), <- (encode_take xof key s e2), He. }
    rewrite <- He, <- Ht, Hp1 in Hp2. injection Hp2 as Hb Hd. split_and!; [done| |done].
    by rewrite <- (untag_nonce (get s) b1 Hs), <- (untag_nonce (get s) b2 Hs), Hb.
  - intros (Ht & Hn & Hd).
    destruct (encode_shape xof key s e1 H1) as (c1 & Hc1 & ->).
    destruct (encode_shape xof key s e2 H2) as (c2 & Hc2 & ->).
    rewrite lookup_drop in Hc1, Hc2. apply list_lookup_total_correct in Hc1, Hc2.
    change (SEED_LEN + 0) with SEED_LEN in *. simplify_eq.
    by rewrite Ht, Hn, Hd.
Qed.

Lemma encode_injective_witness :
  encode_session_id (fun k d n => replicate n (d !!! 0)) (mkObfuscationKey []) (mkShardId x05)
    (str "01234567A9abcdef") =
  encode_session_id (fun k d n => replicate n (d !!! 0)) (mkObfuscationKey []) (mkShardId x05)
    (str "01234567q9abcdef").
Proof.
  apply (encode_injective (fun k d n => replicate n (d !!! 0))
    (fun k d n => length_replicate n _) (mkObfuscationKey []) (mkShardId x05));
    [reflexivity..|]. vm_compute. split_and!; reflexivity.
Defined.
