(* ===== verification/EarlyShape.v ===== *)
(** Early-session shaping ([crates/outline-wire/src/early_shape.rs]): how the
    first messages of a session are cut into browser-sized pieces. The random
    draw is the caller's closure, threaded as a state; nothing is assumed of
    the values it returns. *)
From S2P Require Import Prelude.
Local Open Scope Z_scope.

Definition WINDOW_MSGS : Z * Z := (6, 10).
Definition WINDOW_BYTES : Z * Z := (16 * 1024, 24 * 1024).
Definition C2S_SPLIT_ABOVE : Z := 900.
Definition C2S_PIECE : Z * Z := (300, 850).
Definition S2C_SPLIT_ABOVE : Z := 1500.
Definition S2C_PIECE : Z * Z := (600, 2800).
Definition COVER_COUNT : Z * Z := (1, 2).
Definition COVER_PAD : Z * Z := (40, 100).

Inductive ShapeDirection : Type := ClientToServer | ServerToClient.
#[export] Instance ShapeDirection_eq_dec : EqDecision ShapeDirection.
Proof. solve_decision. Defined.

Record ShapePlan : Type := mkPlan { covers : list Z; pieces : list Z }.

Record EarlyShaper : Type := mkShaper {
  direction : ShapeDirection;
  msgs_left : Z;
  bytes_left : Z;
  covers_pending : bool
}.

(** [x.clamp(lo, hi)]: it panics ([None]) when [lo > hi]. *)
Definition clamp (x lo hi : Z) : option Z :=
  if hi <? lo then None else Some (Z.max lo (Z.min x hi)).

(** [a - b] on [usize], a panic ([None]) below zero. *)
Definition checked_sub (a b : Z) : option Z := if a <? b then None else Some (a - b).

Section shaper.
Context {D : Type}.
Variable draw : D -> Z -> Z -> Z * D.

Definition new (dir : ShapeDirection) (covers_allowed : bool) (d : D) : EarlyShaper * D :=
  let (msgs, d) := draw d WINDOW_MSGS.1 WINDOW_MSGS.2 in
  let (nbytes, d) := draw d WINDOW_BYTES.1 WINDOW_BYTES.2 in
  if covers_allowed && bool_decide (dir = ClientToServer) then
    let (coin, d) := draw d 0 1 in
    (mkShaper dir msgs nbytes (coin =? 1), d)
  else (mkShaper dir msgs nbytes false, d).

Definition is_active (s : EarlyShaper) : bool := (0 <? msgs_left s) && (0 <? bytes_left s).

Definition split_params (dir : ShapeDirection) : Z * (Z * Z) :=
  match dir with
  | ClientToServer => (C2S_SPLIT_ABOVE, C2S_PIECE)
  | ServerToClient => (S2C_SPLIT_ABOVE, S2C_PIECE)
  end.

(** The cover loop: [n] clamped pad sizes. *)
Fixpoint draw_covers (n : nat) (d : D) : option (list Z * D) :=
  match n with
  | O => Some ([], d)
  | S n =>
    let (c, d) := draw d COVER_PAD.1 COVER_PAD.2 in
    c ← clamp c COVER_PAD.1 COVER_PAD.2;
    r ← draw_covers n d;
    Some (c :: r.1, r.2)
  end.

(** The lead-in covers of the first big message. *)
Definition plan_covers (pending : bool) (d : D) : option (list Z * D) :=
  if pending then
    let (n, d) := draw d COVER_COUNT.1 COVER_COUNT.2 in
    n ← clamp n COVER_COUNT.1 COVER_COUNT.2;
    draw_covers (Z.to_nat n) d
  else Some ([], d).

(** The cutting loop, the tail piece included. [None] is a panic of the
    clamp or the subtractions, or exhausted fuel. *)
Fixpoint cut (fuel : nat) (piece : Z * Z) (left : Z) (d : D) : option (list Z * D) :=
  match fuel with
  | O => None
  | S fuel =>
    room ← checked_sub left piece.1;
    let hi := Z.min piece.2 room in
    let (p, d) := draw d piece.1 hi in
    p ← clamp p piece.1 hi;
    left ← checked_sub left p;
    if left <=? piece.2 then Some ([p; left], d)
    else
      r ← cut fuel piece left d;
      Some (p :: r.1, r.2)
  end.

(** Fuel enough for any [shaped]: a round takes at least [piece.1 > 0]
    bytes. *)
Definition cut_fuel (shaped : Z) : nat := Z.to_nat shaped.

Definition plan (s : EarlyShaper) (len : Z) (d : D) : option (ShapePlan * EarlyShaper * D) :=
  if (len =? 0) || negb (is_active s) then Some (mkPlan [] [len], s, d)
  else
    let '(split_above, piece) := split_params (direction s) in
    let shaped := Z.min len (bytes_left s) in
    let s := mkShaper (direction s) (msgs_left s - 1) (bytes_left s - shaped)
                      (covers_pending s) in
    if (len <=? split_above) || (shaped <=? split_above) then
      Some (mkPlan [] [len], s, d)
    else
      cd ← plan_covers (covers_pending s) d;
      let '(cs, d) := (cd : list Z * D) in
      let s := mkShaper (direction s) (msgs_left s) (bytes_left s) false in
      r ← cut (cut_fuel shaped) piece shaped d;
      let '(ps, d) := (r : list Z * D) in
      let ps := if shaped <? len then ps ++ [len - shaped] else ps in
      Some (mkPlan cs ps, s, d).

Definition sumZ (l : list Z) : Z := foldr Z.add 0 l.

Lemma sumZ_app l1 l2 : sumZ (l1 ++ l2) = sumZ l1 + sumZ l2.
Proof. induction l1 as [|a l1 IH]; simpl; [lia|]. unfold sumZ in *. simpl. lia. Qed.

Lemma clamp_spec x lo hi : lo <= hi -> exists c, clamp x lo hi = Some c /\ lo <= c <= hi.
Proof.
  intros H. unfold clamp. destruct (Z.ltb_spec hi lo); [lia|].
  eexists; split; [done|]. lia.
Qed.

Lemma checked_sub_spec a b : b <= a -> checked_sub a b = Some (a - b).
Proof. intros. unfold checked_sub. destruct (Z.ltb_spec a b); [lia|done]. Qed.

Lemma draw_covers_spec n d : exists cs d', draw_covers n d = Some (cs, d') /\
  length cs = n /\ Forall (fun c => 40 <= c <= 100) cs.
Proof.
  revert d; induction n as [|n IH]; intros d; cbn [draw_covers]; [by exists [], d|].
  unfold COVER_PAD; cbn [fst snd].
  destruct (draw d 40 100) as [c d'].
  destruct (clamp_spec c 40 100 ltac:(lia)) as (c' & -> & Hc). simpl.
  destruct (IH d') as (cs & d'' & -> & Hl & HF). simpl.
  exists (c' :: cs), d''. simpl. split_and!; [done | by rewrite Hl | by constructor].
Qed.

Lemma plan_covers_spec pending d : exists cs d', plan_covers pending d = Some (cs, d') /\
  (length cs <= 2)%nat /\ Forall (fun c => 40 <= c <= 100) cs /\
  (cs <> [] -> pending = true).
Proof.
  unfold plan_covers. destruct pending; [|by exists [], d; split_and!; simpl; [|lia|constructor|]].
  destruct (draw d COVER_COUNT.1 COVER_COUNT.2) as [n d0].
  destruct (clamp_spec n 1 2 ltac:(lia)) as (n' & Hc & Hn).
  change (clamp n COVER_COUNT.1 COVER_COUNT.2) with (clamp n 1 2). rewrite Hc. simpl.
  destruct (draw_covers_spec (Z.to_nat n') d0) as (cs & d' & -> & Hl & HF).
  exists cs, d'. split_and!; (done || lia).
Qed.

(** The cutting loop terminates without a panic, its pieces sum to the input,
    and every piece lies between the floor and the ceiling. *)
Lemma cut_spec fuel lo hi left d :
  0 < lo -> 2 * lo <= hi -> 2 * lo <= left -> left < lo * Z.of_nat fuel + lo ->
  exists ps d', cut fuel (lo, hi) left d = Some (ps, d') /\ sumZ ps = left /\
    (2 <= length ps)%nat /\ Forall (fun p => lo <= p <= hi) ps.
Proof.
  intros Hlo Hhi. revert left d; induction fuel as [|fuel IH]; intros left d Hl Hf; [lia|].
  simpl. rewrite checked_sub_spec by lia. simpl.
  destruct (draw d lo (Z.min hi (left - lo))) as [p d'].
  destruct (clamp_spec p lo (Z.min hi (left - lo)) ltac:(lia)) as (q & -> & Hq). simpl.
  rewrite checked_sub_spec by lia. simpl.
  destruct (Z.leb_spec (left - q) hi).
  - exists [q; left - q], d'. split_and!; [done | unfold sumZ; simpl; lia | simpl; lia |].
    repeat constructor; lia.
  - destruct (IH (left - q) d') as (ps & d'' & -> & Hs & Hn & HF); [lia|lia|].
    exists (q :: ps), d''. simpl. split_and!; [done | | lia |].
    + unfold sumZ in *. simpl. lia.
    + constructor; [lia|done].
Qed.
End shaper.

(** Closes the conjuncts of a plan that passes the message through. *)
Ltac pass_through := first [done | lia | by left | by intros [] | constructor].

(** ** Properties *)

(** Planning a message never panics and never loses or invents a byte:
    whatever the random draw returns, [plan] gives pieces that sum to the
    message; the byte budget falls by exactly the shaped bytes, never below
    zero; and when the message is cut, there are at least two pieces, each
    shaped one is within the direction's piece bounds, there are at most two
    covers of 40 to 100 bytes, and covers are never planned twice. *)
Theorem plan_spec {D : Type} (draw : D -> Z -> Z -> Z * D) (s : EarlyShaper) (len : Z) (d : D) :
  0 <= len -> 0 <= bytes_left s ->
  exists p s' d', plan draw s len d = Some (p, s', d') /\
    sumZ (pieces p) = len /\
    0 <= bytes_left s' <= bytes_left s /\
    direction s' = direction s /\
    (covers p <> [] -> covers_pending s = true /\ covers_pending s' = false) /\
    (length (covers p) <= 2)%nat /\ Forall (fun c => 40 <= c <= 100) (covers p) /\
    (pieces p = [len] \/
     exists body tail, pieces p = body ++ tail /\ (2 <= length body)%nat /\
       is_active s = true /\ msgs_left s' = msgs_left s - 1 /\
       bytes_left s' = bytes_left s - sumZ body /\
       (tail = [] \/ exists t, tail = [t] /\ 0 < t /\ bytes_left s' = 0) /\
       let '(lo, hi) := (split_params (direction s)).2 in Forall (fun q => lo <= q <= hi) body).
Proof.
  intros Hlen Hb. unfold plan.
  destruct ((len =? 0) || negb (is_active s)) eqn:Hact.
  { exists (mkPlan [] [len]), s, d. simpl.
    split_and!; pass_through. }
  apply orb_false_iff in Hact as [Hl0 Hact]. apply Z.eqb_neq in Hl0.
  apply negb_false_iff in Hact.
  destruct (split_params (direction s)) as [above [lo hi]] eqn:Hdir.
  set (shaped := Z.min len (bytes_left s)).
  destruct ((len <=? above) || (shaped <=? above)) eqn:Hsmall.
  { eexists (mkPlan [] [len]), _, d. split; [reflexivity|]. simpl.
    split_and!; pass_through. }
  apply orb_false_iff in Hsmall as [Hs1 Hs2]. apply Z.leb_gt in Hs1, Hs2.
  assert (Hlo : 0 < lo /\ 2 * lo <= hi /\ 2 * lo <= above).
  { revert Hdir. destruct (direction s); vm_compute; intros [= <- <- <-];
      split_and!; discriminate || done. }
  cbn [covers_pending direction msgs_left bytes_left].
  destruct (plan_covers_spec draw (covers_pending s) d) as (cs & d1 & -> & Hcl & HcF & Hcp).
  simpl.
  destruct (cut_spec draw (cut_fuel shaped) lo hi shaped d1)
    as (ps & d2 & -> & Hsum & Hn & HF); try lia.
  { unfold cut_fuel. rewrite Z2Nat.id by lia. nia. }
  simpl. eexists _, _, d2. split; [reflexivity|]. simpl.
  destruct (Z.ltb_spec shaped len).
  - split_and!; try (done || lia).
    + rewrite sumZ_app, Hsum. unfold sumZ. simpl. lia.
    + auto.
    + right. exists ps, [len - shaped]. split_and!; try (done || lia).
      right. eexists. split_and!; [done | lia | lia].
  - split_and!; try (done || lia).
    + auto.
    + right. exists ps, []. rewrite app_nil_r. split_and!; (done || lia || by left).
Qed.

Lemma plan_spec_witness :
  exists p s' d', plan (fun (d : unit) lo hi => (lo, d))
    (mkShaper ClientToServer 6 20000 true) 2000 tt = Some (p, s', d') /\
    sumZ (pieces p) = 2000.
Proof.
  destruct (plan_spec (fun (d : unit) lo hi => (lo, d))
    (mkShaper ClientToServer 6 20000 true) 2000 tt ltac:(lia) ltac:(simpl; lia))
    as (p & s' & d' & Hp & Hs & _).
  exists p, s', d'. split; [exact Hp | exact Hs].
Defined.
