(* ===== verification/Padding.v ===== *)
(** Carrier padding ([crates/outline-wire/src/padding.rs]): the frame encoder,
    the streaming decoder with its control-signal probe, and the pad-length
    scheme. *)
From S2P Require Import Prelude.

Definition PADDING_FRAME_HEADER_LEN : nat := 4.
Definition MAX_PADDING_SEGMENT : Z := 65535.
Definition CONTROL_MAGIC : bytes := str "OCTL".
Definition CONTROL_VERSION : byte := x01.
Definition CONTROL_PREFIX_LEN : nat := 6.

Definition datagram_pad_budget (room real_len : Z) : option Z :=
  let used := (Z.of_nat PADDING_FRAME_HEADER_LEN + real_len)%Z in
  if (room <? used)%Z then None else Some (room - used)%Z.

Inductive ControlSignal : Type := ThrottleSwitchUplink.
#[export] Instance ControlSignal_eq_dec : EqDecision ControlSignal.
Proof. solve_decision. Defined.

Definition OP_THROTTLE_SWITCH : byte := x01.
Definition opcode (s : ControlSignal) : byte :=
  match s with ThrottleSwitchUplink => OP_THROTTLE_SWITCH end.
Definition from_opcode (b : byte) : option ControlSignal :=
  if bool_decide (b = OP_THROTTLE_SWITCH) then Some ThrottleSwitchUplink else None.

Definition parse_control (probe : bytes) : option ControlSignal :=
  if negb (bool_decide (take 4 probe = CONTROL_MAGIC)) then None
  else if negb (bool_decide (probe !!! 4 = CONTROL_VERSION)) then None
  else from_opcode (probe !!! 5).

Inductive PaddingError : Type :=
  | RealTooLarge (n : nat)
  | PadTooLarge (n : nat).

(** *** The pad-length scheme: [u16] bounds, widened to [u32] for the span *)
Record PaddingScheme : Type := mkScheme { min_pad : Z; max_pad : Z }.

Definition scheme_new (lo hi : Z) : PaddingScheme :=
  mkScheme lo (if (hi <? lo)%Z then lo else hi).
Definition disabled : PaddingScheme := mkScheme 0 0.
Definition is_enabled (s : PaddingScheme) : bool := (0 <? max_pad s)%Z.
Definition pad_len (s : PaddingScheme) (rand : Z) : Z :=
  let span := (max_pad s - min_pad s + 1)%Z in
  (min_pad s + (rand mod span) mod 65536)%Z.
Definition pad_len_capped (s : PaddingScheme) (rand cap : Z) : Z :=
  let cap16 := if (cap <? 65536)%Z then cap else 65535%Z in
  pad_len (scheme_new (Z.min (min_pad s) cap16) (Z.min (max_pad s) cap16)) rand.

Definition wf_scheme (s : PaddingScheme) : Prop :=
  (0 <= min_pad s <= max_pad s /\ max_pad s < 65536)%Z.

(** *** The encoder; [Err] leaves the caller's buffer untouched *)
Definition encode_frame_into (out real pad : bytes) : result PaddingError bytes :=
  if (MAX_PADDING_SEGMENT <? Z.of_nat (length real))%Z then Err (RealTooLarge (length real))
  else if (MAX_PADDING_SEGMENT <? Z.of_nat (length pad))%Z then Err (PadTooLarge (length pad))
  else Ok (out ++ be_bytes 2 (Z.of_nat (length real)) ++ be_bytes 2 (Z.of_nat (length pad))
               ++ real ++ pad).

Definition encode_control_frame_into (out : bytes) (signal : ControlSignal) (extra_pad : bytes)
    : result PaddingError bytes :=
  let pad := CONTROL_MAGIC ++ [CONTROL_VERSION] ++ [opcode signal] ++ extra_pad in
  encode_frame_into out [] pad.

(** *** The streaming decoder *)
Inductive DecodeState : Type :=
  | Header
  | Real (real_rem pad : nat)
  | Pad (pad_rem : nat) (inspect : bool).

Record PaddingDecoder : Type := mkDecoder {
  state : DecodeState;
  header : bytes;
  header_filled : nat;
  ctrl_buf : bytes;
  ctrl_filled : nat;
  pending_control : option ControlSignal
}.

Definition decoder_new : PaddingDecoder :=
  mkDecoder Header (replicate PADDING_FRAME_HEADER_LEN x00) 0
            (replicate CONTROL_PREFIX_LEN x00) 0 None.

Definition take_control (s : PaddingDecoder) : option ControlSignal * PaddingDecoder :=
  (pending_control s,
   mkDecoder (state s) (header s) (header_filled s) (ctrl_buf s) (ctrl_filled s) None).

Definition next_after_header (real pad : nat) : DecodeState :=
  if (0 <? real)%nat then Real real pad
  else if (0 <? pad)%nat then Pad pad true
  else Header.

(** The loop body of [push]: new state, payload recovered, input bytes used. *)
Definition push_body (s : PaddingDecoder) (input : bytes) : PaddingDecoder * bytes * nat :=
  match state s with
  | Header =>
    let need := PADDING_FRAME_HEADER_LEN - header_filled s in
    let t := Nat.min need (length input) in
    let header := splice (header s) (header_filled s) (take t input) in
    let filled := header_filled s + t in
    if bool_decide (filled = PADDING_FRAME_HEADER_LEN) then
      let real := Z.to_nat (be_val [header !!! 0; header !!! 1]) in
      let pad := Z.to_nat (be_val [header !!! 2; header !!! 3]) in
      let cf := if bool_decide (real = 0) then 0 else ctrl_filled s in
      (mkDecoder (next_after_header real pad) header 0 (ctrl_buf s) cf (pending_control s), [], t)
    else
      (mkDecoder Header header filled (ctrl_buf s) (ctrl_filled s) (pending_control s), [], t)
  | Real real_rem pad =>
    let t := Nat.min real_rem (length input) in
    let rem := real_rem - t in
    let st := if (0 <? rem)%nat then Real rem pad
              else if (0 <? pad)%nat then Pad pad false
              else Header in
    (mkDecoder st (header s) (header_filled s) (ctrl_buf s) (ctrl_filled s) (pending_control s),
     take t input, t)
  | Pad pad_rem inspect =>
    let t := Nat.min pad_rem (length input) in
    let '(cb, cf, pc) :=
      if inspect && (ctrl_filled s <? CONTROL_PREFIX_LEN)%nat then
        let want := Nat.min (CONTROL_PREFIX_LEN - ctrl_filled s) t in
        let cb := splice (ctrl_buf s) (ctrl_filled s) (take want input) in
        let cf := ctrl_filled s + want in
        let pc := if bool_decide (cf = CONTROL_PREFIX_LEN) then
                    match parse_control cb with
                    | Some sig => Some sig
                    | None => pending_control s
                    end
                  else pending_control s in
        (cb, cf, pc)
      else (ctrl_buf s, ctrl_filled s, pending_control s) in
    let rem := pad_rem - t in
    let st := if (0 <? rem)%nat then Pad rem inspect else Header in
    (mkDecoder st (header s) (header_filled s) cb cf pc, [], t)
  end.

(** The loop: final state, output, input left when the fuel is used up. *)
Fixpoint push_loop (fuel : nat) (s : PaddingDecoder) (input out : bytes)
    : PaddingDecoder * bytes * bytes :=
  match fuel, input with
  | O, _ | _, [] => (s, out, input)
  | S fuel, _ =>
    let '(s, o, t) := push_body s input in push_loop fuel s (drop t input) (out ++ o)
  end.

Definition push (s : PaddingDecoder) (input out : bytes) : PaddingDecoder * bytes :=
  (push_loop (length input) s input out).1.

Definition is_at_frame_boundary (s : PaddingDecoder) : bool :=
  match state s with Header => bool_decide (header_filled s = 0) | _ => false end.

(** ** The decoder does not depend on how its input is sliced *)
Section decoder_facts.

(** Bytes the current phase still needs. *)
Definition need (s : PaddingDecoder) : nat :=
  match state s with
  | Header => PADDING_FRAME_HEADER_LEN - header_filled s
  | Real r _ | Pad r _ => r
  end.

Definition decoder_inv (s : PaddingDecoder) : Prop :=
  0 < need s /\ length (header s) = PADDING_FRAME_HEADER_LEN /\
  length (ctrl_buf s) = CONTROL_PREFIX_LEN /\ ctrl_filled s <= CONTROL_PREFIX_LEN /\
  header_filled s < PADDING_FRAME_HEADER_LEN.

Lemma decoder_new_inv : decoder_inv decoder_new.
Proof. repeat split; vm_compute; lia. Qed.

(** A round consumes what the phase needs, as far as the input goes. *)
Lemma push_body_taken s input : (push_body s input).2 = Nat.min (need s) (length input).
Proof.
  unfold push_body, need. destruct (state s) as [|r p|r i]; simpl.
  - by case_bool_decide.
  - done.
  - destruct (if i && _ then _ else _) as [[cb cf] pc]. done.
Qed.

Lemma next_after_header_need real pad h hf cb cf pc : hf < PADDING_FRAME_HEADER_LEN ->
  0 < need (mkDecoder (next_after_header real pad) h hf cb cf pc).
Proof.
  intros. unfold need, next_after_header. simpl.
  destruct (Nat.ltb_spec 0 real); [done|]. destruct (Nat.ltb_spec 0 pad); [done|]. lia.
Qed.

Lemma push_body_inv s input : decoder_inv s -> decoder_inv (push_body s input).1.1.
Proof.
  intros (Hn & Hh & Hc & Hf & Hhf). unfold push_body.
  destruct (state s) as [|r p|r i] eqn:Hst; unfold need in Hn; rewrite Hst in Hn.
  - set (t := Nat.min (PADDING_FRAME_HEADER_LEN - header_filled s) (length input)).
    assert (Hs : length (splice (header s) (header_filled s) (take t input)) = 4).
    { rewrite splice_length; [done|]. rewrite length_take.
      unfold t, PADDING_FRAME_HEADER_LEN in *. lia. }
    case_bool_decide; simpl; split_and!; simpl; try done.
    + apply next_after_header_need. unfold PADDING_FRAME_HEADER_LEN. lia.
    + case_bool_decide; lia.
    + unfold PADDING_FRAME_HEADER_LEN. lia.
    + unfold need. simpl. unfold t, PADDING_FRAME_HEADER_LEN in *. lia.
    + unfold t, PADDING_FRAME_HEADER_LEN in *. lia.
  - simpl. split_and!; simpl; try done. unfold need. simpl.
    destruct (Nat.ltb_spec 0 (r - Nat.min r (length input))); [done|].
    destruct (Nat.ltb_spec 0 p); [done|]. lia.
  - destruct (i && (ctrl_filled s <? CONTROL_PREFIX_LEN)%nat) eqn:Hi; simpl.
    + apply andb_true_iff in Hi as [_ Hi]. apply Nat.ltb_lt in Hi.
      split_and!; simpl; try done.
      * unfold need. simpl.
        destruct (Nat.ltb_spec 0 (r - Nat.min r (length input))); simpl; lia.
      * rewrite splice_length; [done|]. rewrite length_take. lia.
      * lia.
    + split_and!; simpl; try done. unfold need. simpl.
      destruct (Nat.ltb_spec 0 (r - Nat.min r (length input))); simpl; lia.
Qed.

(** The loop always ends with the whole input consumed: [length input] rounds
    are enough because each consumes at least one byte. *)
Lemma push_loop_consumes fuel s input out :
  decoder_inv s -> length input <= fuel -> (push_loop fuel s input out).2 = [].
Proof.
  revert s input out; induction fuel as [|fuel IH]; intros s input out Hs Hl.
  - by destruct input; [|simpl in Hl; lia].
  - destruct input as [|b input]; [done|]. cbn [push_loop].
    pose proof (push_body_inv s (b :: input) Hs) as Hs'.
    pose proof (push_body_taken s (b :: input)) as Ht.
    destruct (push_body s (b :: input)) as [[s' o] t]. cbn [fst snd] in Hs', Ht.
    apply IH; [done|]. destruct Hs as [Hn _]. rewrite length_drop. cbn [length] in *. lia.
Qed.

(** More fuel than the input is long changes nothing. *)
Lemma push_loop_fuel fuel1 fuel2 s input out :
  decoder_inv s -> length input <= fuel1 -> length input <= fuel2 ->
  push_loop fuel1 s input out = push_loop fuel2 s input out.
Proof.
  revert fuel2 s input out; induction fuel1 as [|f1 IH]; intros f2 s input out Hs H1 H2.
  - destruct input; [|simpl in H1; lia]. by destruct f2.
  - destruct input as [|b input]; [by destruct f2|]. destruct f2 as [|f2]; [simpl in H2; lia|].
    cbn [push_loop]. pose proof (push_body_inv s (b :: input) Hs) as Hs'.
    pose proof (push_body_taken s (b :: input)) as Ht.
    destruct (push_body s (b :: input)) as [[s' o] t]. cbn [fst snd] in Hs', Ht.
    destruct Hs as [Hn _]. apply IH; try done; rewrite length_drop; cbn [length] in *; lia.
Qed.

(** One round on a longer input, when the phase ends inside the first part. *)
Lemma push_body_enough s a b : need s <= length a ->
  push_body s (a ++ b) = push_body s a.
Proof.
  intros Hn. unfold push_body, need in *. rewrite length_app.
  destruct (state s) as [|r p|r i].
  - rewrite (Nat.min_l _ (length a + length b)), (Nat.min_l _ (length a)) by lia. by rewrite take_app_le by lia.
  - rewrite (Nat.min_l _ (length a + length b)), (Nat.min_l _ (length a)) by lia. by rewrite take_app_le by lia.
  - rewrite (Nat.min_l _ (length a + length b)), (Nat.min_l _ (length a)) by lia.
    by rewrite (take_app_le _ _ (Nat.min (CONTROL_PREFIX_LEN - ctrl_filled s) r)) by lia.
Qed.

(** One round on a longer input, when the phase outlives the first part: it is
    a round on the first part followed by a round on the second. *)
Lemma push_body_absorb s a b : decoder_inv s -> length a < need s ->
  push_body s (a ++ b) =
  let '(s1, o1, t1) := push_body s a in
  let '(s2, o2, t2) := push_body s1 b in (s2, o1 ++ o2, t1 + t2).
Proof.
  intros (_ & Hh & Hc & Hcf & Hhf) Hn. unfold push_body, need in *. rewrite length_app.
  destruct (state s) as [|r p|r i].
  - rewrite (Nat.min_r _ (length a)) by lia. rewrite firstn_all.
    rewrite (bool_decide_eq_false_2 (header_filled s + length a = _)) by lia. simpl.
    set (n := PADDING_FRAME_HEADER_LEN - header_filled s) in *.
    replace (PADDING_FRAME_HEADER_LEN - (header_filled s + length a)) with (n - length a) by lia.
    replace (Nat.min n (length a + length b)) with (length a + Nat.min (n - length a) (length b))
      by lia.
    rewrite take_app_add.
    rewrite splice_splice by (rewrite Hh, length_take; unfold n in *; lia).
    rewrite Nat.add_assoc. by case_bool_decide.
  - rewrite (Nat.min_r _ (length a)) by lia. rewrite firstn_all.
    replace (Nat.min r (length a + length b)) with (length a + Nat.min (r - length a) (length b))
      by lia.
    rewrite (ltb_true_lt 0 (r - length a)) by lia. simpl.
    by rewrite take_app_add, Nat.sub_add_distr.
  - rewrite (Nat.min_r _ (length a)) by lia.
    replace (Nat.min r (length a + length b)) with (length a + Nat.min (r - length a) (length b))
      by lia.
    set (t2 := Nat.min (r - length a) (length b)).
    rewrite Nat.sub_add_distr, (ltb_true_lt 0 (r - length a)) by lia.
    destruct i; simpl; [|done].
    destruct (Nat.ltb_spec (ctrl_filled s) CONTROL_PREFIX_LEN) as [Hlt|Hge]; simpl;
      [|by rewrite (ltb_false_ge (ctrl_filled s)) by lia].
    destruct (Nat.le_gt_cases (CONTROL_PREFIX_LEN - ctrl_filled s) (length a)) as [Hle|Hgt].
    + rewrite (Nat.min_l _ (length a)), (Nat.min_l _ (length a + t2)) by lia.
      rewrite take_app_le by lia.
      rewrite (bool_decide_eq_true_2 (_ + _ = _)) by lia.
      by rewrite (ltb_false_ge (ctrl_filled s + _)) by lia.
    + rewrite (Nat.min_r _ (length a)), firstn_all by lia.
      rewrite (bool_decide_eq_false_2 (ctrl_filled s + length a = _)) by lia.
      rewrite (ltb_true_lt (ctrl_filled s + length a)) by lia.
      replace (Nat.min (CONTROL_PREFIX_LEN - ctrl_filled s) (length a + t2))
        with (length a + Nat.min (CONTROL_PREFIX_LEN - (ctrl_filled s + length a)) t2) by lia.
      rewrite take_app_add, Nat.add_assoc.
      rewrite splice_splice; [done|]. rewrite Hc, length_take. lia.
Qed.

Lemma push_loop_app s a b out : decoder_inv s ->
  push_loop (length (a ++ b)) s (a ++ b) out =
  let '(s1, out1, _) := push_loop (length a) s a out in push_loop (length b) s1 b out1.
Proof.
  remember (length a) as n eqn:Hlen. revert s a out Hlen.
  induction n as [n IH] using lt_wf_ind. intros s a out -> Hs.
  destruct a as [|x a]; [done|]. destruct b as [|y b].
  { rewrite app_nil_r.
    pose proof (push_loop_consumes (length (x :: a)) s (x :: a) out Hs (le_n _)) as Hr.
    by destruct (push_loop _ s (x :: a) out) as [[s1 o1] r]; simpl in Hr; subst r. }
  pose proof (push_body_inv s (x :: a) Hs) as Hs1. pose proof (push_body_taken s (x :: a)) as Ht.
  cbn [app length push_loop]. rewrite app_comm_cons.
  destruct (Nat.le_gt_cases (need s) (length (x :: a))) as [Hn|Hn].
  - rewrite push_body_enough by done.
    destruct (push_body s (x :: a)) as [[s1 o1] t1]. cbn [fst snd] in Hs1, Ht.
    rewrite drop_app_le by lia.
    destruct Hs as [Hpos _]. pose proof (length_drop (x :: a) t1) as Hd.
    assert (Hdl : length (drop t1 (x :: a)) <= length a) by (cbn [length] in *; lia).
    rewrite (push_loop_fuel (length (a ++ y :: b)) (length (drop t1 (x :: a) ++ y :: b)) s1
      (drop t1 (x :: a) ++ y :: b)) by (rewrite ?length_app; (done || lia)).
    rewrite (push_loop_fuel (length a) (length (drop t1 (x :: a))) s1 (drop t1 (x :: a)))
      by (done || lia).
    apply (IH (length (drop t1 (x :: a)))); [cbn [length] in *; lia|done..].
  - rewrite push_body_absorb by done.
    destruct (push_body s (x :: a)) as [[s1 o1] t1]. cbn [fst snd] in Hs1, Ht.
    rewrite Nat.min_r in Ht by lia. subst t1.
    rewrite drop_all by done. replace (push_loop (length a) s1 [] (out ++ o1))
      with (s1, out ++ o1, @nil byte) by (by destruct a).
    destruct (push_body s1 (y :: b)) as [[s2 o2] t2] eqn:E2.
    rewrite drop_app_ge by lia.
    rewrite Nat.add_sub_swap, Nat.sub_diag, app_assoc by lia. rewrite Nat.add_0_l.
    pose proof (push_body_inv s1 (y :: b) Hs1) as Hs2.
    pose proof (push_body_taken s1 (y :: b)) as Ht2. rewrite E2 in Hs2, Ht2.
    cbn [fst snd] in Hs2, Ht2. destruct Hs1 as [Hpos1 _].
    apply push_loop_fuel; [done| |]; rewrite length_drop, ?length_app; cbn [length] in *; lia.
Qed.

Lemma push_loop_out fuel s input out :
  push_loop fuel s input out =
  let '(s1, o1, r1) := push_loop fuel s input [] in (s1, out ++ o1, r1).
Proof.
  revert s input out; induction fuel as [|fuel IH]; intros s input out.
  { simpl. by rewrite app_nil_r. }
  destruct input as [|b input]; [simpl; by rewrite app_nil_r|]. cbn [push_loop].
  destruct (push_body s (b :: input)) as [[s1 o1] t1].
  rewrite (IH s1 _ (out ++ o1)), (IH s1 _ ([] ++ o1)).
  destruct (push_loop fuel s1 (drop t1 (b :: input)) []) as [[s2 o2] r2]. simpl.
  by rewrite app_assoc.
Qed.

Lemma push_nil s out : push s [] out = (s, out).
Proof. done. Qed.

Lemma push_out s input out : push s input out =
  let (s1, o1) := push s input [] in (s1, out ++ o1).
Proof.
  unfold push. rewrite push_loop_out. by destruct (push_loop _ s input []) as [[s1 o1] r1].
Qed.

Lemma push_loop_inv fuel s input out : decoder_inv s ->
  decoder_inv (push_loop fuel s input out).1.1.
Proof.
  revert s input out; induction fuel as [|fuel IH]; intros s input out Hs; [by simpl|].
  destruct input as [|b input]; [by simpl|]. cbn [push_loop].
  pose proof (push_body_inv s (b :: input) Hs) as Hs1.
  destruct (push_body s (b :: input)) as [[s1 o1] t1]. by apply IH.
Qed.

Lemma push_inv s input : decoder_inv s -> decoder_inv (push s input []).1.
Proof. apply push_loop_inv. Qed.

Lemma push_app s a b : decoder_inv s ->
  push s (a ++ b) [] =
  let (s1, o1) := push s a [] in let (s2, o2) := push s1 b [] in (s2, o1 ++ o2).
Proof.
  intros Hs. unfold push. rewrite push_loop_app by done.
  destruct (push_loop (length a) s a []) as [[s1 o1] r1]. simpl.
  rewrite push_loop_out. by destruct (push_loop (length b) s1 b []) as [[s2 o2] r2].
Qed.
End decoder_facts.

#[export] Instance padding_stream : StreamDecoder PaddingDecoder byte := {|
  sd_inv := decoder_inv;
  sd_push := fun s input => push s input [];
  sd_push_inv := push_inv;
  sd_push_nil := fun s _ => eq_refl;
  sd_push_app := push_app
|}.

(** ** Decoding what the encoder wrote *)
Section frames.

(** A frame is its real segment and its pad. *)
Abbreviation frame := (bytes * bytes)%type.

Definition wf_frame (f : frame) : Prop :=
  (Z.of_nat (length f.1) <= MAX_PADDING_SEGMENT /\
   Z.of_nat (length f.2) <= MAX_PADDING_SEGMENT)%Z.

Definition frame_bytes (f : frame) : bytes :=
  be_bytes 2 (Z.of_nat (length f.1)) ++ be_bytes 2 (Z.of_nat (length f.2)) ++ f.1 ++ f.2.

(** The signal a frame carries: only a cover frame can, in its pad head. *)
Definition frame_signal (f : frame) : option ControlSignal :=
  match f.1 with
  | [] => if (length f.2 <? CONTROL_PREFIX_LEN)%nat then None
          else parse_control (take CONTROL_PREFIX_LEN f.2)
  | _ => None
  end.

(** Writing frames back to back into one buffer. *)
Fixpoint encode_frames (out : bytes) (fs : list frame) : result PaddingError bytes :=
  match fs with
  | [] => Ok out
  | f :: fs => out ← encode_frame_into out f.1 f.2; encode_frames out fs
  end.

Definition last_signal (fs : list frame) : option ControlSignal :=
  foldl (fun acc f => match frame_signal f with Some s => Some s | None => acc end) None fs.

Lemma encode_frame_into_ok out f : wf_frame f ->
  encode_frame_into out f.1 f.2 = Ok (out ++ frame_bytes f).
Proof.
  intros [H1 H2]. unfold encode_frame_into.
  destruct (Z.ltb_spec MAX_PADDING_SEGMENT (Z.of_nat (length f.1))); [lia|].
  destruct (Z.ltb_spec MAX_PADDING_SEGMENT (Z.of_nat (length f.2))); [lia|]. done.
Qed.

Lemma encode_frames_ok out fs : Forall wf_frame fs ->
  encode_frames out fs = Ok (out ++ concat (map frame_bytes fs)).
Proof.
  intros HF. revert out; induction HF as [|f fs Hf HF IH]; intros out; simpl.
  - by rewrite app_nil_r.
  - rewrite encode_frame_into_ok by done. simpl. by rewrite IH, <- app_assoc.
Qed.

Definition boundary (s : PaddingDecoder) : Prop :=
  decoder_inv s /\ state s = Header /\ header_filled s = 0.

(** A phase fed exactly the bytes it needs takes one round. *)
Lemma push_exact s a : decoder_inv s -> length a = need s ->
  push s a [] = (push_body s a).1.
Proof.
  intros Hs Hl. unfold push. destruct a as [|x a]; [destruct Hs; simpl in Hl; lia|].
  cbn [length push_loop]. pose proof (push_body_taken s (x :: a)) as Ht.
  destruct (push_body s (x :: a)) as [[s1 o1] t1]. cbn [fst snd] in Ht.
  rewrite Ht, Hl, Nat.min_id, <- Hl, drop_all. by destruct (length a).
Qed.

Lemma push_header s real pad : boundary s ->
  (Z.of_nat real <= MAX_PADDING_SEGMENT)%Z -> (Z.of_nat pad <= MAX_PADDING_SEGMENT)%Z ->
  exists h, length h = PADDING_FRAME_HEADER_LEN /\
  push s (be_bytes 2 (Z.of_nat real) ++ be_bytes 2 (Z.of_nat pad)) [] =
  (mkDecoder (next_after_header real pad) h 0 (ctrl_buf s)
     (if bool_decide (real = 0) then 0 else ctrl_filled s) (pending_control s), []).
Proof.
  intros (Hinv & Hst & Hf) Hr Hp. unfold MAX_PADDING_SEGMENT in *.
  set (h := be_bytes 2 (Z.of_nat real) ++ be_bytes 2 (Z.of_nat pad)).
  rewrite push_exact; [|done|unfold need; by rewrite Hst, Hf].
  destruct Hinv as (_ & Hh & _). unfold push_body. rewrite Hst, Hf.
  change (Nat.min (PADDING_FRAME_HEADER_LEN - 0) (length h)) with 4.
  change (take 4 h) with h.
  assert (splice (header s) 0 h = h) as ->.
  { unfold splice. simpl take. rewrite Nat.add_0_l, drop_ge by (rewrite Hh; done).
    by rewrite app_nil_r. }
  rewrite bool_decide_eq_true_2 by done. exists h. split; [done|]. cbn [fst].
  pose proof (read_u16 [] (Z.of_nat real) (be_bytes 2 (Z.of_nat pad)) 0 1 eq_refl eq_refl) as H1.
  pose proof (read_u16 (be_bytes 2 (Z.of_nat real)) (Z.of_nat pad) [] 2 3 eq_refl eq_refl) as H2.
  rewrite app_nil_r in H2. cbn [app] in H1. unfold h. rewrite H1, H2 by lia.
  by rewrite !Nat2Z.id.
Qed.

(** The three phases that can follow a header, each fed all it needs. *)
Lemma push_real s r pad : decoder_inv s -> state s = Real (length r) pad ->
  push s r [] = (mkDecoder (if (0 <? pad)%nat then Pad pad false else Header) (header s)
                   (header_filled s) (ctrl_buf s) (ctrl_filled s) (pending_control s), r).
Proof.
  intros Hs Hst. rewrite push_exact; [|done|unfold need; by rewrite Hst].
  unfold push_body. rewrite Hst, Nat.min_id, Nat.sub_diag, firstn_all. done.
Qed.

Lemma push_pad_skip s p : decoder_inv s -> state s = Pad (length p) false ->
  push s p [] = (mkDecoder Header (header s) (header_filled s) (ctrl_buf s) (ctrl_filled s)
                   (pending_control s), []).
Proof.
  intros Hs Hst. rewrite push_exact; [|done|unfold need; by rewrite Hst].
  unfold push_body. rewrite Hst, Nat.min_id, Nat.sub_diag. done.
Qed.

Lemma push_pad_cover s p : decoder_inv s -> state s = Pad (length p) true -> ctrl_filled s = 0 ->
  exists cb cf, push s p [] = (mkDecoder Header (header s) (header_filled s) cb cf
    (if (length p <? CONTROL_PREFIX_LEN)%nat then pending_control s
     else match parse_control (take CONTROL_PREFIX_LEN p) with
          | Some sig => Some sig | None => pending_control s end), []).
Proof.
  intros Hs Hst Hcf. rewrite push_exact; [|done|unfold need; by rewrite Hst].
  destruct Hs as (_ & _ & Hc & _). unfold push_body.
  rewrite Hst, Nat.min_id, Nat.sub_diag, Hcf. simpl.
  do 2 eexists. do 2 f_equal. unfold CONTROL_PREFIX_LEN in *.
  destruct (Nat.ltb_spec (length p) 6).
  - by rewrite bool_decide_eq_false_2 by lia.
  - rewrite bool_decide_eq_true_2, Nat.min_l by lia.
    unfold splice. rewrite drop_ge by (rewrite Hc, length_take; lia).
    by rewrite app_nil_r.
Qed.

(** Landing on a boundary; the invariant comes from [push_inv]. *)
Lemma boundary_intro s h cb cf pc :
  decoder_inv s -> s = mkDecoder Header h 0 cb cf pc -> boundary s.
Proof. intros Hs ->. done. Qed.

(** The whole frame: the real segment comes out, the decoder is back at a
    boundary, and a signal in the pad head of a cover frame is recorded. *)
Lemma push_frame s f : boundary s -> wf_frame f ->
  exists s', push s (frame_bytes f) [] = (s', f.1) /\ boundary s' /\
    pending_control s' = match frame_signal f with
                         | Some sig => Some sig
                         | None => pending_control s
                         end.
Proof.
  intros Hb [Hr Hp]. pose proof (push_inv s (frame_bytes f) (proj1 Hb)) as Hinv'.
  enough (exists s', push s (frame_bytes f) [] = (s', f.1) /\
    (exists h cb cf, s' = mkDecoder Header h 0 cb cf
      match frame_signal f with Some sig => Some sig | None => pending_control s end))
    as (s' & He & h & cb & cf & Hs').
  { exists s'. rewrite He in Hinv'. simpl in Hinv'.
    split_and!; [done | by eapply boundary_intro | by subst s']. }
  clear Hinv'. destruct f as [real pad]. unfold frame_bytes. cbn [fst snd] in *. rewrite app_assoc.
  destruct (push_header s (length real) (length pad) Hb Hr Hp) as (h & Hh & Hpush).
  pose proof (push_inv s (be_bytes 2 (Z.of_nat (length real)) ++
                          be_bytes 2 (Z.of_nat (length pad))) (proj1 Hb)) as Hinv.
  rewrite push_app by apply Hb. rewrite Hpush in *. clear Hpush. cbn [fst] in Hinv.
  destruct real as [|x real].
  - destruct pad as [|y pad]; cbn [app length] in *; [by eauto 10|].
    edestruct (push_pad_cover _ (y :: pad) Hinv) as (cb & cf & ->); [done..|].
    eexists. split; [done|]. do 3 eexists. unfold frame_signal. cbn [fst snd].
    cbn. f_equal. destruct (Nat.ltb _ _); [done|]. by destruct (parse_control _).
  - pose proof (push_inv _ (x :: real) Hinv) as Hinv2.
    pose proof (push_real _ (x :: real) (length pad) Hinv eq_refl) as Hreal.
    rewrite push_app by done. rewrite Hreal in *. clear Hreal.
    destruct pad as [|y pad]; cbn [fst] in Hinv2.
    + rewrite push_nil, app_nil_r. eexists. split; [done|]. by eauto.
    + rewrite push_pad_skip, app_nil_r by done. eexists. split; [done|]. by eauto.
Qed.

Lemma push_frames s fs : boundary s -> Forall wf_frame fs ->
  exists s', push s (concat (map frame_bytes fs)) [] = (s', concat (map fst fs)) /\ boundary s' /\
    pending_control s' =
      foldl (fun acc f => match frame_signal f with Some g => Some g | None => acc end)
        (pending_control s) fs.
Proof.
  intros Hs HF. revert s Hs; induction HF as [|f fs Hf HF IH]; intros s Hs.
  - by exists s.
  - cbn [map concat]. rewrite push_app by apply Hs.
    destruct (push_frame s f Hs Hf) as (s1 & -> & Hb1 & Hp1).
    destruct (IH s1 Hb1) as (s2 & -> & Hb2 & Hp2).
    exists s2. split_and!; [done..|]. by rewrite Hp2, Hp1.
Qed.
End frames.

(** ** The pad-length scheme *)
Lemma pad_len_range s rand : wf_scheme s ->
  (min_pad s <= pad_len s rand <= max_pad s)%Z.
Proof.
  intros [H1 H2]. unfold pad_len.
  pose proof (Z.mod_pos_bound rand (max_pad s - min_pad s + 1) ltac:(lia)).
  rewrite Z.mod_small by lia. lia.
Qed.

Lemma scheme_new_wf lo hi : (lo <= hi)%Z -> scheme_new lo hi = mkScheme lo hi.
Proof. intros. unfold scheme_new. destruct (Z.ltb_spec hi lo); [lia|done]. Qed.

Lemma pad_len_capped_range s rand b : wf_scheme s -> (0 <= b)%Z ->
  (Z.min (min_pad s) b <= pad_len_capped s rand b <= Z.min (max_pad s) b)%Z.
Proof.
  intros [Hmin Hmax] Hb. unfold pad_len_capped.
  set (c := if (b <? 65536)%Z then b else 65535%Z).
  assert (Hc : (Z.min (max_pad s) c = Z.min (max_pad s) b /\
    Z.min (min_pad s) c = Z.min (min_pad s) b)%Z)
    by (unfold c; destruct (Z.ltb_spec b 65536); lia).
  destruct Hc as [-> ->]. rewrite scheme_new_wf by lia.
  apply (pad_len_range (mkScheme (Z.min (min_pad s) b) (Z.min (max_pad s) b))).
  unfold wf_scheme. simpl. lia.
Qed.

(** ** Properties *)

(** Decoding inverts encoding under any slicing: frames written back to back
    by the encoder, cut into arbitrary carrier chunks and pushed one by one
    into a fresh decoder, give back exactly the real segments in order; the
    decoder ends on a frame boundary, and the pending control signal is that of
    the last cover frame that carries one (pad after payload never signals). *)
Theorem padding_roundtrip (fs : list (bytes * bytes)) (wire : bytes) (chunks : list bytes) :
  Forall wf_frame fs -> encode_frames [] fs = Ok wire -> concat chunks = wire ->
  exists s', feed decoder_new chunks = (s', concat (map fst fs)) /\
    is_at_frame_boundary s' = true /\ pending_control s' = last_signal fs.
Proof.
  intros HF He Hc. rewrite encode_frames_ok in He by done. injection He as <-.
  rewrite feed_concat, Hc by apply decoder_new_inv. cbn [app sd_push padding_stream].
  destruct (push_frames decoder_new fs) as (s' & Hp & Hb & Hpc);
    [by split; [apply decoder_new_inv|] | done |].
  exists s'. split_and!; [done| |done].
  destruct Hb as (_ & Hst & Hf). unfold is_at_frame_boundary. by rewrite Hst, Hf.
Qed.

Lemma padding_roundtrip_witness :
  exists s', feed decoder_new
    [[x00; x02; x00]; [x03; x41; x42; x00; x00]; [x00; x00; x00; x00; x07];
     [x4f; x43; x54]; [x4c; x01; x01; xff]] = (s', str "AB") /\
    is_at_frame_boundary s' = true /\ pending_control s' = Some ThrottleSwitchUplink.
Proof.
  apply (padding_roundtrip
    [(str "AB", [x00; x00; x00]); ([], CONTROL_MAGIC ++ [x01; x01; xff])]
    (concat [[x00; x02; x00]; [x03; x41; x42; x00; x00]; [x00; x00; x00; x00; x07];
     [x4f; x43; x54]; [x4c; x01; x01; xff]])).
  - repeat constructor; vm_compute; discriminate.
  - vm_compute. reflexivity.
  - reflexivity.
Defined.

(** Slicing cannot be observed on any input at all, well formed or not: from
    any state a decoder can be in, pushing chunks one by one gives the output
    and the state of one push of the whole, the state stays consistent, and no
    input byte is ever left unread. *)
Theorem padding_push_chunks (s : PaddingDecoder) (chunks : list bytes) :
  decoder_inv s ->
  feed s chunks = push s (concat chunks) [] /\ decoder_inv (feed s chunks).1 /\
  (push_loop (length (concat chunks)) s (concat chunks) []).2 = [].
Proof.
  intros Hs. rewrite feed_concat by done. cbn [sd_push padding_stream]. split_and!; [done| |].
  - by apply push_inv.
  - by apply push_loop_consumes.
Qed.

Lemma padding_push_chunks_witness :
  feed decoder_new [[x00]; [x01; x00; x00; x41]] = push decoder_new [x00; x01; x00; x00; x41] [].
Proof.
  exact (proj1 (padding_push_chunks decoder_new [[x00]; [x01; x00; x00; x41]] decoder_new_inv)).
Defined.

(** Pad sizing: a draw lies in the scheme's range and every size of the range
    is drawn by some random value; the draw capped to the budget of a datagram
    never lets the framed datagram outgrow its room. *)
Theorem pad_len_bounds (s : PaddingScheme) (rand room real_len budget : Z) :
  wf_scheme s -> (0 <= rand < 65536)%Z -> (0 <= real_len)%Z ->
  datagram_pad_budget room real_len = Some budget ->
  (min_pad s <= pad_len s rand <= max_pad s)%Z /\
  (forall v, (min_pad s <= v <= max_pad s)%Z ->
     exists r, (0 <= r < 65536)%Z /\ pad_len s r = v) /\
  (Z.min (min_pad s) budget <= pad_len_capped s rand budget <= Z.min (max_pad s) budget)%Z /\
  (Z.of_nat PADDING_FRAME_HEADER_LEN + real_len + pad_len_capped s rand budget <= room)%Z.
Proof.
  intros [Hmin Hmax] Hr Hreal Hb. unfold datagram_pad_budget in Hb.
  destruct (Z.ltb_spec room (Z.of_nat PADDING_FRAME_HEADER_LEN + real_len)); [discriminate|].
  injection Hb as <-. set (b := (room - (Z.of_nat PADDING_FRAME_HEADER_LEN + real_len))%Z).
  pose proof (pad_len_range s rand (conj Hmin Hmax)).
  pose proof (pad_len_capped_range s rand b (conj Hmin Hmax) ltac:(unfold b; lia)).
  split_and!; try done; try lia.
  intros v Hv. exists (v - min_pad s)%Z. split; [lia|]. unfold pad_len.
  rewrite (Z.mod_small (v - min_pad s)) by lia. rewrite Z.mod_small by lia. lia.
Qed.

Lemma pad_len_bounds_witness :
  (Z.of_nat PADDING_FRAME_HEADER_LEN + 1000 + pad_len_capped (mkScheme 16 256) 777 196 <= 1200)%Z.
Proof.
  refine (proj2 (proj2 (proj2 (pad_len_bounds (mkScheme 16 256) 777 1200 1000 196 _ _ _ _))));
    [unfold wf_scheme; simpl; lia | lia | lia | reflexivity].
Defined.

(** The encoder refuses, without writing, exactly the segments whose length
    does not fit the field; otherwise it appends four header bytes and both
    segments. *)
Theorem encode_frame_into_spec (out real pad : bytes) :
  encode_frame_into out real pad =
  if decide (wf_frame (real, pad)) then Ok (out ++ frame_bytes (real, pad))
  else if (MAX_PADDING_SEGMENT <? Z.of_nat (length real))%Z then Err (RealTooLarge (length real))
  else Err (PadTooLarge (length pad)).
Proof.
  unfold encode_frame_into, frame_bytes, wf_frame. cbn [fst snd].
  destruct (Z.ltb_spec MAX_PADDING_SEGMENT (Z.of_nat (length real)));
  destruct (Z.ltb_spec MAX_PADDING_SEGMENT (Z.of_nat (length pad)));
  destruct (decide _) as [[? ?]|Hd]; try done; lia.
Qed.
