(* ===== verification/Resume.v ===== *)
(** Session-resumption control frames ([crates/outline-wire/src/resume.rs]):
    the v1 "ORSM" acknowledgement frame and the v2 "ORDR" replay header. *)
From S2P Require Import Prelude.

Definition FRAME_LEN_V1 : nat := 14.
Definition VERSION_V1 : byte := x01.

(** The layout both frames share: magic, version, one byte, a [u64]. *)
Definition control_frame (magic : bytes) (version flags : byte) (n : Z) : bytes :=
  magic ++ [version] ++ [flags] ++ be_bytes 8 n.

Module Ack.
Definition MAGIC : bytes := str "ORSM".
Definition FLAGS_NONE : byte := x00.

Definition build_v1_payload (up_acked : Z) : bytes :=
  control_frame MAGIC VERSION_V1 FLAGS_NONE up_acked.

Inductive ParseResult : Type :=
  | Valid (up_acked : Z)
  | TooShort
  | BadMagic
  | UnsupportedVersion (v : byte)
  | ReservedFlagsSet (f : byte).

Definition parse_v1 (buf : bytes) : ParseResult :=
  if (length buf <? FRAME_LEN_V1)%nat then TooShort
  else if negb (bool_decide (slice buf 0 4 = MAGIC)) then BadMagic
  else if negb (bool_decide (buf !!! 4 = VERSION_V1)) then UnsupportedVersion (buf !!! 4)
  else if negb (bool_decide (buf !!! 5 = x00)) then ReservedFlagsSet (buf !!! 5)
  else Valid (be_val (slice buf 6 14)).
End Ack.

Module DownlinkReplay.
Definition MAGIC : bytes := str "ORDR".
Definition FLAG_REPLAY_TRUNCATED : byte := x01.
Definition FLAG_KNOWN_MASK : byte := FLAG_REPLAY_TRUNCATED.

Definition build_v1_header (flags : byte) (replay_len : Z) : bytes :=
  control_frame MAGIC VERSION_V1 flags replay_len.

Inductive ParseResult : Type :=
  | Valid (flags : byte) (replay_len : Z)
  | TooShort
  | BadMagic
  | UnsupportedVersion (v : byte)
  | ReservedFlagsSet (f : byte).

(** [flags & !FLAG_KNOWN_MASK != 0] *)
Definition unknown_flags (flags : byte) : bool :=
  negb (bool_decide (band flags (bxor FLAG_KNOWN_MASK xff) = x00)).

Definition parse_v1 (buf : bytes) : ParseResult :=
  if (length buf <? FRAME_LEN_V1)%nat then TooShort
  else if negb (bool_decide (slice buf 0 4 = MAGIC)) then BadMagic
  else if negb (bool_decide (buf !!! 4 = VERSION_V1)) then UnsupportedVersion (buf !!! 4)
  else if unknown_flags (buf !!! 5) then ReservedFlagsSet (buf !!! 5)
  else Valid (buf !!! 5) (be_val (slice buf 6 14)).
End DownlinkReplay.

(** A buffer of at least a frame, split at the frame's fields. *)
Lemma split_control_frame (buf : bytes) : FRAME_LEN_V1 <= length buf ->
  buf = slice buf 0 4 ++ [buf !!! 4] ++ [buf !!! 5] ++ slice buf 6 14 ++ drop 14 buf
  /\ length (slice buf 6 14) = 8.
Proof.
  unfold FRAME_LEN_V1. intros H. split; [|by apply slice_length; lia].
  do 14 (destruct buf as [|? buf]; [simpl in H; lia|]). done.
Qed.

Lemma control_frame_fields magic v f n rest :
  length magic = 4 -> (0 <= n < 2 ^ 64)%Z ->
  let buf := control_frame magic v f n ++ rest in
  slice buf 0 4 = magic /\ buf !!! 4 = v /\ buf !!! 5 = f /\ be_val (slice buf 6 14) = n /\
  (length buf <? FRAME_LEN_V1)%nat = false.
Proof.
  intros Hm Hn buf. unfold buf, control_frame.
  do 5 (destruct magic as [|? magic]; [discriminate Hm || idtac|]); [|discriminate Hm].
  split_and!; try done.
  - pose proof (slice_app_mid [b; b0; b1; b2; v; f] (be_bytes 8 n) rest 6 14 eq_refl) as Hs.
    rewrite be_bytes_length in Hs. specialize (Hs eq_refl). cbn [app] in *. rewrite Hs.
    by apply be_val_u64.
Qed.

(** ** Properties *)

(** The v1 acknowledgement frame: a buffer parses as [Valid n] if and only if
    it starts with the frame the server builds for the 64-bit counter [n];
    every other buffer is rejected by the first check it fails. *)
Theorem ack_frame_iff (buf : bytes) (n : Z) :
  Ack.parse_v1 buf = Ack.Valid n <->
  (0 <= n < 2 ^ 64)%Z /\ exists rest, buf = Ack.build_v1_payload n ++ rest.
Proof.
  unfold Ack.parse_v1, Ack.build_v1_payload. split.
  - destruct (Nat.ltb_spec (length buf) FRAME_LEN_V1); [done|].
    destruct (split_control_frame buf) as [Hsplit Hlen]; [done|].
    repeat (case_bool_decide; [|done]; cbn [negb]). intros [= <-].
    split; [by apply u64_val_range|].
    exists (drop 14 buf). rewrite Hsplit at 1. unfold control_frame.
    rewrite be_bytes_u64, <- !app_assoc by done. unfold Ack.FLAGS_NONE. by repeat f_equal.
  - intros (Hn & rest & ->).
    destruct (control_frame_fields Ack.MAGIC VERSION_V1 Ack.FLAGS_NONE n rest)
      as (-> & -> & -> & -> & ->); done.
Qed.

(** The v2 replay header: it parses back to its flags and length exactly when
    the flags are known ones, and no v1 frame is ever taken for a v2 header or
    the reverse, so the two control frames cannot be confused. *)
Theorem replay_header_iff (buf : bytes) (flags : byte) (n : Z) :
  (DownlinkReplay.parse_v1 buf = DownlinkReplay.Valid flags n <->
   (0 <= n < 2 ^ 64)%Z /\ (flags = x00 \/ flags = DownlinkReplay.FLAG_REPLAY_TRUNCATED) /\
   exists rest, buf = DownlinkReplay.build_v1_header flags n ++ rest) /\
  (Ack.parse_v1 buf = Ack.Valid n -> DownlinkReplay.parse_v1 buf = DownlinkReplay.BadMagic) /\
  (DownlinkReplay.parse_v1 buf = DownlinkReplay.Valid flags n -> Ack.parse_v1 buf = Ack.BadMagic).
Proof.
  assert (Hflags : forall f, DownlinkReplay.unknown_flags f = false <->
    f = x00 \/ f = DownlinkReplay.FLAG_REPLAY_TRUNCATED).
  { intros f. assert (H : forall f, eqb (negb (DownlinkReplay.unknown_flags f))
      (bool_decide (f = x00 \/ f = x01)) = true) by (apply byte_forall; vm_compute; done).
    specialize (H f). apply eqb_prop in H. unfold DownlinkReplay.FLAG_REPLAY_TRUNCATED.
    rewrite <- negb_true_iff, H. apply bool_decide_eq_true. }
  unfold DownlinkReplay.parse_v1, Ack.parse_v1, DownlinkReplay.build_v1_header.
  split_and!.
  - split.
    + destruct (Nat.ltb_spec (length buf) FRAME_LEN_V1); [done|].
      destruct (split_control_frame buf) as [Hsplit Hlen]; [done|].
      do 2 (case_bool_decide; [|done]; cbn [negb]).
      destruct (DownlinkReplay.unknown_flags (buf !!! 5)) eqn:Hu; [done|].
      apply Hflags in Hu. intros [= <- <-].
      split; [by apply u64_val_range|]. split; [done|].
      exists (drop 14 buf). rewrite Hsplit at 1. unfold control_frame.
      rewrite be_bytes_u64, <- !app_assoc by done. by repeat f_equal.
    + intros (Hn & Hf & rest & ->).
      destruct (control_frame_fields DownlinkReplay.MAGIC VERSION_V1 flags n rest)
        as (-> & -> & -> & -> & ->); [done..|]. cbn. by rewrite (proj2 (Hflags flags) Hf).
  - destruct (Nat.ltb _ _); [done|]. case_bool_decide as H; [|done]. rewrite H. done.
  - destruct (Nat.ltb _ _); [done|]. case_bool_decide as H; [|done]. rewrite H. done.
Qed.
