(* ===== verification/UdpRecords.v ===== *)
(** Datagram records over a streaming carrier
    ([crates/outline-wire/src/udp_records.rs]): the record encoder and the
    reassembler, which restores datagram boundaries whatever the carrier does
    to them. *)
From S2P Require Import Prelude.

Definition UDP_RECORD_HEADER_LEN : nat := 2.
Definition MAX_UDP_RECORD_PAYLOAD : Z := 65535.

Inductive UdpRecordError : Type := PayloadTooLarge (n : nat).

Definition encode_record_into (payload out : bytes) : result UdpRecordError bytes :=
  if (MAX_UDP_RECORD_PAYLOAD <? Z.of_nat (length payload))%Z
  then Err (PayloadTooLarge (length payload))
  else Ok (out ++ be_bytes 2 (Z.of_nat (length payload)) ++ payload).

(** The decoder is its buffer. *)
Record UdpRecordDecoder : Type := mkRecDecoder { buf : bytes }.

Definition dec_new : UdpRecordDecoder := mkRecDecoder [].

Definition dec_push (d : UdpRecordDecoder) (chunk : bytes) : UdpRecordDecoder :=
  mkRecDecoder (buf d ++ chunk).

(** The loop of [next_record]: empty records are skipped. Every round drops at
    least the two header bytes, so [length buf] rounds are enough. *)
Fixpoint next_record_loop (fuel : nat) (b : bytes) : option bytes * bytes :=
  match fuel with
  | O => (None, b)
  | S fuel =>
    if (length b <? UDP_RECORD_HEADER_LEN)%nat then (None, b)
    else
      let len := Z.to_nat (be_val [b !!! 0; b !!! 1]) in
      if (length b <? UDP_RECORD_HEADER_LEN + len)%nat then (None, b)
      else
        let b := drop UDP_RECORD_HEADER_LEN b in
        if bool_decide (len = 0) then next_record_loop fuel b
        else (Some (take len b), drop len b)
  end.

Definition next_record (d : UdpRecordDecoder) : option bytes * UdpRecordDecoder :=
  let (r, b) := next_record_loop (S (length (buf d))) (buf d) in (r, mkRecDecoder b).

Definition buffered_len (d : UdpRecordDecoder) : nat := length (buf d).

(** The callers' loop: pop records until the head one is incomplete. *)
Fixpoint drain_records (fuel : nat) (d : UdpRecordDecoder) : UdpRecordDecoder * list bytes :=
  match fuel with
  | O => (d, [])
  | S fuel =>
    match next_record d with
    | (None, d) => (d, [])
    | (Some r, d) => let (d, rs) := drain_records fuel d in (d, r :: rs)
    end
  end.

(** Feeding one carrier chunk and draining, as every caller does. *)
Definition feed_chunk (d : UdpRecordDecoder) (chunk : bytes) : UdpRecordDecoder * list bytes :=
  let d := dec_push d chunk in drain_records (S (buffered_len d)) d.

(** ** Reference decoder

    The head record of a byte string, and the split of a byte string into its
    non-empty records and an incomplete tail. *)
Section reference.

Definition head_record (b : bytes) : option (bytes * bytes) :=
  if (length b <? 2)%nat then None
  else
    let len := Z.to_nat (be_val [b !!! 0; b !!! 1]) in
    if (length b <? 2 + len)%nat then None
    else Some (take len (drop 2 b), drop len (drop 2 b)).

Definition keep (p : bytes) (ps : list bytes) : list bytes :=
  match p with [] => ps | _ => p :: ps end.

Fixpoint split_records (fuel : nat) (b : bytes) : bytes * list bytes :=
  match fuel with
  | O => (b, [])
  | S fuel =>
    match head_record b with
    | None => (b, [])
    | Some (p, r) => let (t, ps) := split_records fuel r in (t, keep p ps)
    end
  end.

Lemma head_record_shrinks b p r : head_record b = Some (p, r) ->
  S (S (length p + length r)) = length b.
Proof.
  unfold head_record. intros H. repeat split_guard. injection H as <- <-.
  rewrite length_take, !length_drop. lia.
Qed.

Lemma head_record_app b p r c : head_record b = Some (p, r) ->
  head_record (b ++ c) = Some (p, r ++ c).
Proof.
  unfold head_record. intros H. repeat split_guard. injection H as <- <-.
  rewrite (lookup_total_app_l b c 0), (lookup_total_app_l b c 1) by lia.
  decide_ltb. rewrite (drop_app_le b c) by lia.
  rewrite take_app_le, drop_app_le by (rewrite length_drop; lia). done.
Qed.

Lemma split_records_fuel f1 f2 b : length b < f1 -> length b < f2 ->
  split_records f1 b = split_records f2 b.
Proof.
  revert f2 b; induction f1 as [|f1 IH]; intros [|f2] b H1 H2; try lia.
  cbn [split_records]. destruct (head_record b) as [[p r]|] eqn:E; [|done].
  apply head_record_shrinks in E. by rewrite (IH f2) by lia.
Qed.

Lemma split_records_tail f b : length b < f ->
  head_record (split_records f b).1 = None /\ length (split_records f b).1 <= length b.
Proof.
  revert b; induction f as [|f IH]; intros b H; [lia|]. cbn [split_records].
  destruct (head_record b) as [[p r]|] eqn:E; [|done].
  apply head_record_shrinks in E. specialize (IH r ltac:(lia)).
  destruct (split_records f r). simpl in *. destruct IH. split; [done|lia].
Qed.

Lemma keep_app p ps qs : keep p (ps ++ qs) = keep p ps ++ qs.
Proof. by destruct p. Qed.

(** Splitting can stop after any prefix and resume with its tail. *)
Lemma split_records_app f b c : length (b ++ c) < f ->
  split_records f (b ++ c) =
  let (t, ps) := split_records f b in
  let (t', qs) := split_records f (t ++ c) in (t', ps ++ qs).
Proof.
  remember (length b) as n eqn:Hn. revert f b Hn.
  induction n as [n IH] using lt_wf_ind. intros [|f] b -> Hf; [lia|].
  cbn [split_records]. destruct (head_record b) as [[p r]|] eqn:E.
  - rewrite (head_record_app b p r c E). apply head_record_shrinks in E.
    rewrite length_app in Hf. assert (Hr : length (r ++ c) < f) by (rewrite length_app; lia).
    rewrite (IH (length r)) by (done || lia).
    destruct (split_records_tail f r) as [Ht Hl]; [rewrite length_app in Hr; lia|].
    destruct (split_records f r) as [t ps]. cbn [fst] in *.
    change (match head_record (t ++ c) with
            | Some (p, r) => let (t, ps) := split_records f r in (t, keep p ps)
            | None => (t ++ c, []) end) with (split_records (S f) (t ++ c)).
    rewrite (split_records_fuel (S f) f) by (rewrite length_app in *; lia).
    destruct (split_records f (t ++ c)) as [t' qs]. by rewrite keep_app.
  - by destruct (head_record (b ++ c)) as [[p r]|]; [destruct (split_records f r)|].
Qed.

(** The code's two nested loops compute the reference split. *)
Lemma next_record_loop_spec f g b : length b < f -> length b < g ->
  split_records f b =
  match next_record_loop f b with
  | (None, t) => (t, [])
  | (Some p, r) => let (t, ps) := split_records g r in (t, p :: ps)
  end /\ (forall p r, next_record_loop f b = (Some p, r) -> length r < length b).
Proof.
  revert b; induction f as [|f IH]; intros b Hf Hg; [lia|].
  cbn [split_records next_record_loop]. unfold UDP_RECORD_HEADER_LEN, head_record.
  destruct (Nat.ltb_spec (length b) 2); [done|].
  set (len := Z.to_nat (be_val [b !!! 0; b !!! 1])).
  destruct (Nat.ltb_spec (length b) (2 + len)); [done|].
  assert (Hd : length (drop 2 b) < f /\ length (drop 2 b) < g) by (rewrite length_drop; lia).
  destruct Hd as [Hd Hd'].
  case_bool_decide as Hz.
  - rewrite Hz. destruct (IH (drop 2 b) Hd Hd') as [IH1 IH2].
    rewrite (drop_0 (drop 2 b)), IH1. split.
    + destruct (next_record_loop f (drop 2 b)) as [[p|] r]; [|done].
      by destruct (split_records g r).
    + intros p r Hr. specialize (IH2 p r Hr). rewrite length_drop in IH2. lia.
  - assert (Hl : length (take len (drop 2 b)) = len)
      by (rewrite length_take, length_drop; lia).
    split; [|intros p r [= <- <-]; rewrite !length_drop; lia].
    rewrite (split_records_fuel f g) by (rewrite !length_drop in *; lia).
    destruct (split_records g (drop len (drop 2 b))) as [t ps].
    destruct (take len (drop 2 b)); [simpl in Hl; lia|done].
Qed.

Lemma drain_records_spec f g d : length (buf d) < f -> length (buf d) < g ->
  drain_records f d = let (t, ps) := split_records g (buf d) in (mkRecDecoder t, ps).
Proof.
  revert g d; induction f as [|f IH]; intros g d Hf Hg; [lia|]. cbn [drain_records].
  unfold next_record.
  rewrite (split_records_fuel g (S (length (buf d)))) by lia.
  destruct (next_record_loop_spec (S (length (buf d))) (S (length (buf d))) (buf d))
    as [H1 H2]; [lia..|].
  rewrite H1. destruct (next_record_loop _ (buf d)) as [[p|] r]; [|done].
  specialize (H2 p r eq_refl). rewrite (IH (S (length (buf d)))) by (simpl; lia). simpl buf.
  by destruct (split_records _ r).
Qed.
End reference.

Definition rec_inv (d : UdpRecordDecoder) : Prop := head_record (buf d) = None.

Lemma feed_chunk_spec d c g : length (buf d ++ c) < g ->
  feed_chunk d c = let (t, ps) := split_records g (buf d ++ c) in (mkRecDecoder t, ps).
Proof. intros Hg. apply drain_records_spec; simpl; unfold buffered_len; simpl; lia. Qed.

Lemma feed_chunk_inv d c : rec_inv d -> rec_inv (feed_chunk d c).1.
Proof.
  intros _. rewrite (feed_chunk_spec d c (S (length (buf d ++ c)))) by lia.
  pose proof (split_records_tail (S (length (buf d ++ c))) (buf d ++ c) ltac:(lia)) as [H _].
  by destruct (split_records _ _).
Qed.

Lemma feed_chunk_nil d : rec_inv d -> feed_chunk d [] = (d, []).
Proof.
  intros H. rewrite (feed_chunk_spec d [] (S (length (buf d ++ [])))) by lia.
  rewrite app_nil_r. cbn [split_records]. rewrite H. by destruct d.
Qed.

Lemma feed_chunk_app d a b : rec_inv d ->
  feed_chunk d (a ++ b) =
  let (d1, r1) := feed_chunk d a in let (d2, r2) := feed_chunk d1 b in (d2, r1 ++ r2).
Proof.
  intros _. set (g := S (length (buf d ++ a ++ b))).
  rewrite (feed_chunk_spec d (a ++ b) g) by (unfold g; lia).
  rewrite (feed_chunk_spec d a g) by (unfold g; rewrite !length_app; lia).
  rewrite app_assoc, (split_records_app g (buf d ++ a) b)
    by (unfold g; rewrite !length_app; lia).
  destruct (split_records_tail g (buf d ++ a)) as [_ Hl]; [unfold g; rewrite !length_app; lia|].
  destruct (split_records g (buf d ++ a)) as [t ps]. cbn [fst] in Hl.
  rewrite (feed_chunk_spec (mkRecDecoder t) b g)
    by (cbn [buf]; unfold g; rewrite !length_app in *; lia).
  cbn [buf]. by destruct (split_records g (t ++ b)) as [t' qs].
Qed.

#[export] Instance record_stream : StreamDecoder UdpRecordDecoder bytes := {|
  sd_inv := rec_inv;
  sd_push := feed_chunk;
  sd_push_inv := feed_chunk_inv;
  sd_push_nil := feed_chunk_nil;
  sd_push_app := feed_chunk_app
|}.

Definition wf_payload (p : bytes) : Prop := (Z.of_nat (length p) <= MAX_UDP_RECORD_PAYLOAD)%Z.

Definition record_bytes (p : bytes) : bytes := be_bytes 2 (Z.of_nat (length p)) ++ p.

(** Sending datagrams back to back over one carrier. *)
Fixpoint encode_records (out : bytes) (ps : list bytes) : result UdpRecordError bytes :=
  match ps with
  | [] => Ok out
  | p :: ps => out ← encode_record_into p out; encode_records out ps
  end.

Lemma encode_record_into_ok p out : wf_payload p ->
  encode_record_into p out = Ok (out ++ record_bytes p).
Proof.
  intros H. unfold encode_record_into, wf_payload in *.
  destruct (Z.ltb_spec MAX_UDP_RECORD_PAYLOAD (Z.of_nat (length p))); [lia|done].
Qed.

Lemma encode_records_ok out ps : Forall wf_payload ps ->
  encode_records out ps = Ok (out ++ concat (map record_bytes ps)).
Proof.
  intros HF. revert out; induction HF as [|p ps Hp HF IH]; intros out; simpl.
  - by rewrite app_nil_r.
  - rewrite encode_record_into_ok by done. simpl. by rewrite IH, <- app_assoc.
Qed.

Lemma head_record_bytes p rest : wf_payload p ->
  head_record (record_bytes p ++ rest) = Some (p, rest).
Proof.
  intros H. unfold wf_payload, MAX_UDP_RECORD_PAYLOAD in H.
  unfold head_record, record_bytes. rewrite <- app_assoc.
  pose proof (read_u16 [] (Z.of_nat (length p)) (p ++ rest) 0 1 eq_refl eq_refl) as Hu.
  cbn [app] in Hu. rewrite Hu, Nat2Z.id by lia. decide_ltb.
  rewrite drop_app_length' by done. by rewrite take_app_length, drop_app_length.
Qed.

(** The datagrams a receiver sees: empty ones do not survive the framing. *)
Fixpoint delivered (ps : list bytes) : list bytes :=
  match ps with [] => [] | p :: ps => keep p (delivered ps) end.

Lemma split_records_encoded ps g : Forall wf_payload ps ->
  length (concat (map record_bytes ps)) < g ->
  split_records g (concat (map record_bytes ps)) = ([], delivered ps).
Proof.
  intros HF. revert g; induction HF as [|p ps Hp HF IH]; intros [|g] Hg;
    cbn [map concat delivered split_records] in *; try lia; [done|].
  rewrite head_record_bytes by done. rewrite IH; [done|].
  rewrite length_app in Hg. unfold record_bytes in Hg at 1. rewrite length_app in Hg.
  rewrite be_bytes_length in Hg. lia.
Qed.

(** ** Properties *)

(** Datagram boundaries survive the carrier: datagrams encoded back to back
    and delivered in arbitrary slices are reassembled exactly, in order and
    with nothing left buffered; an empty datagram is not delivered. *)
Theorem records_roundtrip (ps : list bytes) (wire : bytes) (chunks : list bytes) :
  Forall wf_payload ps -> encode_records [] ps = Ok wire -> concat chunks = wire ->
  feed dec_new chunks = (dec_new, delivered ps) /\
  (Forall (fun p => p <> []) ps -> delivered ps = ps).
Proof.
  intros HF He Hc. rewrite encode_records_ok in He by done. injection He as <-.
  split.
  - rewrite feed_concat by done. rewrite Hc. cbn [sd_push record_stream app].
    rewrite (feed_chunk_spec _ _ (S (length (buf dec_new ++ concat (map record_bytes ps)))))
      by lia.
    cbn [dec_new buf app]. by rewrite split_records_encoded by (done || lia).
  - clear. induction 1 as [|p ps Hne _ IH]; [done|].
    destruct p; [done|]. simpl. by rewrite IH.
Qed.

Lemma records_roundtrip_witness :
  feed dec_new [[x00; x02; x41]; [x42; x00]; [x00; x00; x01; x43]] =
  (dec_new, [str "AB"; str "C"]).
Proof.
  refine (proj1 (records_roundtrip [str "AB"; []; str "C"]
    (concat [[x00; x02; x41]; [x42; x00]; [x00; x00; x01; x43]]) _ _ _ _)).
  - repeat constructor; vm_compute; discriminate.
  - vm_compute. reflexivity.
  - reflexivity.
Defined.

(** Bounded memory on arbitrary input: whatever bytes arrive in whatever
    slices, what stays buffered after draining is shorter than one full record
    and holds no complete one. *)
Theorem records_bounded (d : UdpRecordDecoder) (chunks : list bytes) :
  rec_inv d ->
  let d' := (feed d chunks).1 in
  next_record d' = (None, d') /\
  (Z.of_nat (buffered_len d') < Z.of_nat UDP_RECORD_HEADER_LEN + MAX_UDP_RECORD_PAYLOAD)%Z.
Proof.
  intros Hd d'. assert (Hinv : rec_inv d').
  { unfold d'. rewrite feed_concat by done. by apply feed_chunk_inv. }
  clearbody d'. clear Hd. unfold rec_inv, head_record in Hinv. split.
  - unfold next_record. cbn [next_record_loop]. unfold UDP_RECORD_HEADER_LEN.
    repeat split_guard; by destruct d'.
  - unfold buffered_len, UDP_RECORD_HEADER_LEN, MAX_UDP_RECORD_PAYLOAD.
    repeat split_guard; [lia|]. pose proof (u16_val_range (buf d' !!! 0) (buf d' !!! 1)). lia.
Qed.

Lemma records_bounded_witness :
  (Z.of_nat (buffered_len (feed dec_new [[xff; xff; x00]]).1) < 65537)%Z.
Proof. exact (proj2 (records_bounded dec_new [[xff; xff; x00]] eq_refl)). Defined.

(** The comment in [next_record] says that an empty record is never emitted by
    the encoder; it is, and the receiver drops it. *)
Lemma empty_datagram_lost (out : bytes) :
  encode_record_into [] out = Ok (out ++ [x00; x00]) /\
  feed_chunk dec_new [x00; x00] = (dec_new, []).
Proof. split; reflexivity. Qed.
