(* ===== verification/Ss2022.v ===== *)
(** Shadowsocks-2022 headers ([crates/outline-wire/src/ss2022.rs]): TCP request
    and response headers, UDP bodies of the AES and ChaCha paths, and the
    timestamp window. All of it is plaintext framing; sealing is elsewhere. *)
From S2P Require Import Prelude Target Cipher.

Definition SS2022_TCP_REQUEST_TYPE : byte := x00.
Definition SS2022_TCP_RESPONSE_TYPE : byte := x01.
Definition SS2022_UDP_CLIENT_TYPE : byte := x00.
Definition SS2022_UDP_SERVER_TYPE : byte := x01.
Definition SS2022_REQUEST_FIXED_HEADER_LEN : nat := 11.
Definition SS2022_UDP_SEPARATE_HEADER_LEN : nat := 16.
Definition SS2022_MAX_PADDING_LEN : nat := 900.
Definition SS2022_MAX_TIME_DIFF_SECS : Z := 30.

Inductive Ss2022HeaderError : Type :=
  | Invalid
  | TimestampSkew (skew_secs : Z)
  | InvalidResponseLength (n : nat)
  | InvalidResponseType (b : byte)
  | RequestSaltMismatch
  | ClientSessionMismatch
  | TargetErr (e : TargetAddrError).

Definition validate_timestamp (timestamp now : Z) : result Ss2022HeaderError unit :=
  let skew_secs := Z.abs (now - timestamp) in
  if (SS2022_MAX_TIME_DIFF_SECS <? skew_secs)%Z then Err (TimestampSkew skew_secs) else Ok tt.

(** [u64::from_be_bytes(b[1..9])], where every header keeps its timestamp. *)
Definition timestamp_at (b : bytes) : Z := be_val (slice b 1 9).

Definition validate_request_fixed_header (header : bytes) (now : Z)
    : result Ss2022HeaderError nat :=
  if negb (bool_decide (length header = SS2022_REQUEST_FIXED_HEADER_LEN)) then Err Invalid
  else if negb (bool_decide (header !!! 0 = SS2022_TCP_REQUEST_TYPE)) then Err Invalid
  else
    _ ← validate_timestamp (timestamp_at header) now;
    Ok (Z.to_nat (be_val [header !!! 9; header !!! 10])).

Record Ss2022Request : Type := mkRequest { target : TargetAddr; payload : bytes }.

Definition parse_request_variable_header (header : bytes)
    : result Ss2022HeaderError Ss2022Request :=
  o ← map_err TargetErr (parse_target_addr header);
  match o with
  | None => Err Invalid
  | Some (t, consumed) =>
    if (length header <? consumed + 2)%nat then Err Invalid
    else
      let padding_len := Z.to_nat (be_val [header !!! consumed; header !!! (consumed + 1)]) in
      if (SS2022_MAX_PADDING_LEN <? padding_len)%nat then Err Invalid
      else if (length header <? consumed + 2 + padding_len)%nat then Err Invalid
      else
        let payload := drop (consumed + 2 + padding_len) header in
        if bool_decide (padding_len = 0) && bool_decide (payload = []) then Err Invalid
        else Ok (mkRequest t payload)
  end.

Definition build_request_header (t : TargetAddr) (now : Z) (padding : bytes)
    : result Ss2022HeaderError (bytes * bytes) :=
  target ← map_err TargetErr (to_wire_bytes t);
  if (SS2022_MAX_PADDING_LEN <? length padding)%nat then Err Invalid
  else
    let variable_len := length target + 2 + length padding in
    let fixed := [SS2022_TCP_REQUEST_TYPE] ++ be_bytes 8 now
                 ++ be_bytes 2 (Z.of_nat variable_len) in
    let variable := target ++ be_bytes 2 (Z.of_nat (length padding)) ++ padding in
    Ok (fixed, variable).

Definition parse_response_header (cipher : CipherKind) (request_salt plaintext : bytes) (now : Z)
    : result Ss2022HeaderError nat :=
  let expected_len := 1 + 8 + salt_len cipher + 2 in
  if negb (bool_decide (length plaintext = expected_len))
  then Err (InvalidResponseLength (length plaintext))
  else if negb (bool_decide (plaintext !!! 0 = SS2022_TCP_RESPONSE_TYPE))
  then Err (InvalidResponseType (plaintext !!! 0))
  else
    _ ← validate_timestamp (timestamp_at plaintext) now;
    let salt_end := 9 + salt_len cipher in
    if negb (bool_decide (slice plaintext 9 salt_end = request_salt))
    then Err RequestSaltMismatch
    else Ok (Z.to_nat (be_val [plaintext !!! salt_end; plaintext !!! (salt_end + 1)])).

Definition parse_udp_request_body (body : bytes) (now : Z)
    : result Ss2022HeaderError Ss2022Request :=
  if (length body <? 1 + 8 + 2)%nat then Err Invalid
  else if negb (bool_decide (body !!! 0 = SS2022_UDP_CLIENT_TYPE)) then Err Invalid
  else
    _ ← validate_timestamp (timestamp_at body) now;
    let padding_len := Z.to_nat (be_val [body !!! 9; body !!! 10]) in
    let body := drop 11 body in
    if (length body <? padding_len)%nat then Err Invalid
    else
      let body := drop padding_len body in
      o ← map_err TargetErr (parse_target_addr body);
      match o with
      | None => Err Invalid
      | Some (t, consumed) => Ok (mkRequest t (drop consumed body))
      end.

Record Ss2022ChachaUdpRequest : Type := mkChachaRequest {
  c_request : Ss2022Request;
  client_session_id : bytes;
  packet_id : Z
}.

(** The tail after the two ids is the AES-path body, read by the same
    statements in the source. *)
Definition parse_chacha_udp_request_body (body : bytes) (now : Z)
    : result Ss2022HeaderError Ss2022ChachaUdpRequest :=
  if (length body <? 8 + 8 + 1 + 8 + 2)%nat then Err Invalid
  else
    let csid := take 8 body in
    let pid := be_val (slice body 8 16) in
    let body := drop 16 body in
    if negb (bool_decide (body !!! 0 = SS2022_UDP_CLIENT_TYPE)) then Err Invalid
    else
      _ ← validate_timestamp (timestamp_at body) now;
      let padding_len := Z.to_nat (be_val [body !!! 9; body !!! 10]) in
      let body := drop 11 body in
      if (length body <? padding_len)%nat then Err Invalid
      else
        let body := drop padding_len body in
        o ← map_err TargetErr (parse_target_addr body);
        match o with
        | None => Err Invalid
        | Some (t, consumed) => Ok (mkChachaRequest (mkRequest t (drop consumed body)) csid pid)
        end.

Definition udp_nonce_from_separate_header (separate_header : bytes) : bytes :=
  slice separate_header 4 16.

Definition encode_udp_separate_header (session_id : bytes) (pid : Z) : bytes :=
  session_id ++ be_bytes 8 pid.

Definition build_udp_request_body (chacha_session : option (bytes * Z)) (now : Z)
    (addressed_payload : bytes) : bytes :=
  (match chacha_session with
   | Some (session_id, pid) => session_id ++ be_bytes 8 pid
   | None => []
   end)
  ++ [SS2022_UDP_CLIENT_TYPE] ++ be_bytes 8 now ++ be_bytes 2 0 ++ addressed_payload.

Definition write_udp_response_body (out : bytes) (now : Z) (csid target_wire payload : bytes)
    : bytes :=
  out ++ [SS2022_UDP_SERVER_TYPE] ++ be_bytes 8 now ++ csid ++ be_bytes 2 0
      ++ target_wire ++ payload.

Definition write_chacha_udp_response_body (out ssid : bytes) (pid now : Z)
    (csid target_wire payload : bytes) : bytes :=
  write_udp_response_body (out ++ ssid ++ be_bytes 8 pid) now csid target_wire payload.

Definition parse_udp_response_body (body : bytes) (expected : option bytes) (now : Z)
    : result Ss2022HeaderError bytes :=
  if (length body <? 1 + 8 + 8 + 2)%nat then Err Invalid
  else if negb (bool_decide (body !!! 0 = SS2022_UDP_SERVER_TYPE))
  then Err (InvalidResponseType (body !!! 0))
  else
    _ ← validate_timestamp (timestamp_at body) now;
    let csid := slice body 9 17 in
    if match expected with Some e => negb (bool_decide (csid = e)) | None => false end
    then Err ClientSessionMismatch
    else
      let padding_len := Z.to_nat (be_val [body !!! 17; body !!! 18]) in
      let rest := drop 19 body in
      if (length rest <? padding_len)%nat then Err Invalid
      else Ok (drop padding_len rest).

Record Ss2022ChachaUdpResponse : Type := mkChachaResponse {
  server_session_id : bytes;
  r_packet_id : Z;
  addressed_payload : bytes
}.

Definition parse_chacha_udp_response_body (body : bytes) (expected : option bytes) (now : Z)
    : result Ss2022HeaderError Ss2022ChachaUdpResponse :=
  if (length body <? 8 + 8)%nat then Err Invalid
  else
    let ssid := take 8 body in
    let pid := be_val (slice body 8 16) in
    ap ← parse_udp_response_body (drop 16 body) expected now;
    Ok (mkChachaResponse ssid pid ap).

(** BLAKE3 [derive_key] output of the session subkey: third-party code. *)
Definition SS2022_SUBKEY_CONTEXT : bytes := str "shadowsocks 2022 session subkey".
Definition ss2022_session_subkey_into (blake3_derive_xof : bytes -> bytes -> nat -> bytes)
    (master_key salt : bytes) (out_len : nat) : bytes :=
  blake3_derive_xof SS2022_SUBKEY_CONTEXT (master_key ++ salt) out_len.

(** ** Round trips *)
Section ss2022_facts.

Definition fresh (timestamp now : Z) : Prop := (Z.abs (now - timestamp) <= 30)%Z.

Lemma validate_timestamp_fresh ts now : fresh ts now -> validate_timestamp ts now = Ok tt.
Proof.
  unfold fresh, validate_timestamp, SS2022_MAX_TIME_DIFF_SECS. intros H.
  destruct (Z.ltb_spec 30 (Z.abs (now - ts))); [lia|done].
Qed.

Lemma validate_timestamp_inv ts now u : validate_timestamp ts now = Ok u -> fresh ts now.
Proof.
  unfold fresh, validate_timestamp, SS2022_MAX_TIME_DIFF_SECS. intros H.
  split_guard. lia.
Qed.

Lemma timestamp_at_cons t now rest : (0 <= now < 2 ^ 64)%Z ->
  timestamp_at (t :: be_bytes 8 now ++ rest) = now.
Proof.
  intros H. unfold timestamp_at. rd_slice [t] (be_bytes 8 now) rest 1 9. by apply be_val_u64.
Qed.

(** The parsers after the fixed part all end the same way: an address at the
    head of the buffer, the payload behind it. *)
Lemma parse_addressed t w p : wf_target t -> to_wire_bytes t = Ok w ->
  map_err TargetErr (parse_target_addr (w ++ p)) = Ok (Some (t, length w)).
Proof. intros Hwf Hw. by rewrite (parse_target_addr_app t w p Hwf Hw). Qed.

Lemma parse_request_variable_header_app t w padding p :
  wf_target t -> to_wire_bytes t = Ok w -> length padding <= SS2022_MAX_PADDING_LEN ->
  parse_request_variable_header (w ++ be_bytes 2 (Z.of_nat (length padding)) ++ padding ++ p) =
  if bool_decide (padding = []) && bool_decide (p = []) then Err Invalid
  else Ok (mkRequest t p).
Proof.
  intros Hwf Hw Hp. unfold SS2022_MAX_PADDING_LEN in Hp. unfold parse_request_variable_header.
  rewrite (parse_addressed t w _ Hwf Hw). cbn [mbind result_bind].
  rewrite (ltb_false_ge _ (length w + 2)) by (len_simpl; lia).
  rewrite read_u16 by (done || lia). rewrite Nat2Z.id.
  rewrite (ltb_false_ge SS2022_MAX_PADDING_LEN) by (unfold SS2022_MAX_PADDING_LEN; lia).
  rewrite (ltb_false_ge _ (length w + 2 + length padding)) by (len_simpl; lia).
  rewrite !app_assoc, drop_app_length' by (len_simpl; lia).
  by destruct padding.
Qed.

Lemma build_request_header_inv t now padding fixed variable :
  build_request_header t now padding = Ok (fixed, variable) ->
  exists w, to_wire_bytes t = Ok w /\ length padding <= SS2022_MAX_PADDING_LEN /\
    variable = w ++ be_bytes 2 (Z.of_nat (length padding)) ++ padding /\
    fixed = SS2022_TCP_REQUEST_TYPE :: be_bytes 8 now ++ be_bytes 2 (Z.of_nat (length variable)).
Proof.
  unfold build_request_header. intros H. apply bind_Ok_inv in H as (w & Hw & H).
  apply map_err_Ok_inv in Hw. split_guard. apply Ok_inj, pair_equal_spec in H as [<- <-].
  exists w. split_and!; [done | lia | done |]. cbn [app].
  rewrite !length_app, be_bytes_length. do 4 f_equal. lia.
Qed.

Lemma udp_body_fields now rest : (0 <= now < 2 ^ 64)%Z ->
  let b := SS2022_UDP_CLIENT_TYPE :: be_bytes 8 now ++ be_bytes 2 0 ++ rest in
  b !!! 0 = SS2022_UDP_CLIENT_TYPE /\ timestamp_at b = now /\
  be_val [b !!! 9; b !!! 10] = 0%Z /\ drop 11 b = rest /\ (length b <? 1 + 8 + 2)%nat = false.
Proof.
  intros Hn b. unfold b. split_and!; try done.
  by apply timestamp_at_cons.
Qed.

Lemma parse_udp_request_body_built t w p now now' :
  wf_target t -> to_wire_bytes t = Ok w -> (0 <= now < 2 ^ 64)%Z -> fresh now now' ->
  parse_udp_request_body (build_udp_request_body None now (w ++ p)) now' = Ok (mkRequest t p).
Proof.
  intros Hwf Hw Hn Hf. unfold parse_udp_request_body, build_udp_request_body. cbn [app].
  destruct (udp_body_fields now (w ++ p) Hn) as (H0 & Ht & Hp & Hd & Hl).
  rewrite H0, Ht, Hp, Hd, Hl, bool_decide_eq_true_2 by done. cbn [negb].
  rewrite validate_timestamp_fresh by done. cbn [mbind result_bind].
  change (Z.to_nat 0) with 0. rewrite ltb_false_ge, drop_0 by lia.
  rewrite (parse_addressed t w p Hwf Hw). cbn. by rewrite drop_app_length.
Qed.

Lemma parse_chacha_udp_request_body_built t w p sid pid now now' :
  wf_target t -> to_wire_bytes t = Ok w -> (0 <= now < 2 ^ 64)%Z -> fresh now now' ->
  length sid = 8 -> (0 <= pid < 2 ^ 64)%Z ->
  parse_chacha_udp_request_body (build_udp_request_body (Some (sid, pid)) now (w ++ p)) now' =
  Ok (mkChachaRequest (mkRequest t p) sid pid).
Proof.
  intros Hwf Hw Hn Hf Hs Hpid. unfold parse_chacha_udp_request_body, build_udp_request_body.
  set (b := [SS2022_UDP_CLIENT_TYPE] ++ be_bytes 8 now ++ be_bytes 2 0 ++ w ++ p).
  rewrite <- app_assoc.
  rewrite (ltb_false_ge _ (8 + 8 + 1 + 8 + 2)) by (unfold b; len_simpl; simpl; lia).
  rewrite take_app_length' by done.
  rewrite (slice_app_mid sid (be_bytes 8 pid) b 8 16) by (rewrite ?be_bytes_length; lia).
  rewrite be_val_u64 by done.
  rewrite app_assoc, drop_app_length' by (rewrite length_app, be_bytes_length; lia).
  destruct (udp_body_fields now (w ++ p) Hn) as (H0 & Ht & Hp & Hd & Hl).
  fold b in H0, Ht, Hp, Hd. unfold b in *. cbn [app] in *.
  rewrite H0, Ht, Hp, Hd, bool_decide_eq_true_2 by done. cbn [negb].
  rewrite validate_timestamp_fresh by done. cbn [mbind result_bind].
  change (Z.to_nat 0) with 0. rewrite ltb_false_ge, drop_0 by lia.
  rewrite (parse_addressed t w p Hwf Hw). cbn. by rewrite drop_app_length.
Qed.

Lemma parse_udp_response_body_built csid tw p now now' expected :
  length csid = 8 -> (0 <= now < 2 ^ 64)%Z -> fresh now now' ->
  parse_udp_response_body (write_udp_response_body [] now csid tw p) expected now' =
  match expected with
  | Some e => if decide (csid = e) then Ok (tw ++ p) else Err ClientSessionMismatch
  | None => Ok (tw ++ p)
  end.
Proof.
  intros Hc Hn Hf. unfold parse_udp_response_body, write_udp_response_body. norm_app.
  rewrite (ltb_false_ge _ (1 + 8 + 8 + 2)) by (len_simpl; simpl; lia).
  change ((SS2022_UDP_SERVER_TYPE :: be_bytes 8 now ++ csid ++ be_bytes 2 0 ++ tw ++ p) !!! 0)
    with SS2022_UDP_SERVER_TYPE. rewrite bool_decide_eq_true_2 by done. cbn [negb].
  rewrite timestamp_at_cons, validate_timestamp_fresh by done. cbn [mbind result_bind].
  rd_slice (SS2022_UDP_SERVER_TYPE :: be_bytes 8 now) csid (be_bytes 2 0 ++ tw ++ p) 9 17.
  rd_u16 ((SS2022_UDP_SERVER_TYPE :: be_bytes 8 now) ++ csid) 0%Z (tw ++ p) 17 18.
  rd_drop ((SS2022_UDP_SERVER_TYPE :: be_bytes 8 now) ++ csid ++ be_bytes 2 0) (tw ++ p) 19.
  change (Z.to_nat 0) with 0. rewrite ltb_false_ge by lia. cbn [drop].
  destruct expected as [e|]; [|done]. by destruct (decide (csid = e)); case_bool_decide.
Qed.
Lemma validate_built_header t now now' padding fixed variable :
  wf_target t -> (0 <= now < 2 ^ 64)%Z -> fresh now now' ->
  build_request_header t now padding = Ok (fixed, variable) ->
  (Z.of_nat (length variable) < 65536)%Z /\ length fixed = SS2022_REQUEST_FIXED_HEADER_LEN /\
  validate_request_fixed_header fixed now' = Ok (length variable).
Proof.
  intros Hwf Hn Hf Hb.
  destruct (build_request_header_inv _ _ _ _ _ Hb) as (w & Hw & Hp & Hv & Hfx).
  assert (Hlv : (0 <= Z.of_nat (length variable) < 65536)%Z).
  { rewrite Hv, !length_app, be_bytes_length. unfold SS2022_MAX_PADDING_LEN in Hp.
    assert (length w <= 259); [|lia].
    pose proof (to_wire_bytes_length t w Hwf Hw) as Hl. rewrite Hl.
    destruct t as [|h|h]; [lia..|]. simpl in Hw. split_guard. lia. }
  clear Hv Hb. split; [lia|]. subst fixed. split; [done|]. unfold validate_request_fixed_header.
  rewrite !bool_decide_eq_true_2 by done. cbn [negb].
  rewrite <- (app_nil_r (be_bytes 2 _)).
  rewrite timestamp_at_cons, validate_timestamp_fresh by done. cbn [mbind result_bind].
  rd_u16 (SS2022_TCP_REQUEST_TYPE :: be_bytes 8 now) (Z.of_nat (length variable)) (@nil byte) 9 10.
  by rewrite Nat2Z.id.
Qed.
End ss2022_facts.

(** ** Properties *)

(** The TCP request header round trip: a header the client builds for a
    target passes the server's fixed-header check within the clock window and
    announces its own variable length; the variable header with any initial
    payload parses back to the same target and payload, except that a header
    with neither padding nor payload is refused, as the protocol requires. *)
Theorem tcp_request_roundtrip (t : TargetAddr) (now now' : Z)
    (padding payload fixed variable : bytes) :
  wf_target t -> (0 <= now < 2 ^ 64)%Z -> fresh now now' ->
  build_request_header t now padding = Ok (fixed, variable) ->
  validate_request_fixed_header fixed now' = Ok (length variable) /\
  parse_request_variable_header (variable ++ payload) =
    if bool_decide (padding = []) && bool_decide (payload = []) then Err Invalid
    else Ok (mkRequest t payload).
Proof.
  intros Hwf Hn Hf Hb.
  destruct (build_request_header_inv _ _ _ _ _ Hb) as (w & Hw & Hp & Hv & Hfx). split.
  - by apply (validate_built_header t now now' padding).
  - subst variable. rewrite <- !app_assoc. by apply parse_request_variable_header_app.
Qed.

Lemma tcp_request_roundtrip_witness :
  exists fixed variable,
    build_request_header (Domain (str "ab") 443) 1000 [x07] = Ok (fixed, variable) /\
    validate_request_fixed_header fixed 1029 = Ok (length variable) /\
    parse_request_variable_header (variable ++ str "GET") =
      Ok (mkRequest (Domain (str "ab") 443) (str "GET")).
Proof.
  do 2 eexists. split; [vm_compute; reflexivity|].
  apply (tcp_request_roundtrip (Domain (str "ab") 443) 1000 1029 [x07] (str "GET"));
    [split; vm_compute; done | lia | unfold fresh; lia | vm_compute; reflexivity].
Defined.

(** The TCP response header: the client accepts exactly the headers that
    carry the response type, a timestamp inside the window and the salt of its
    own request, and reads the length of the first chunk from them. *)
Theorem parse_response_header_iff (cipher : CipherKind) (salt pt : bytes) (now : Z) (n : nat) :
  parse_response_header cipher salt pt now = Ok n <->
  exists ts, (0 <= ts < 2 ^ 64)%Z /\ fresh ts now /\ length salt = salt_len cipher /\
    (Z.of_nat n < 65536)%Z /\
    pt = [SS2022_TCP_RESPONSE_TYPE] ++ be_bytes 8 ts ++ salt ++ be_bytes 2 (Z.of_nat n).
Proof.
  unfold parse_response_header. set (sl := salt_len cipher). split.
  - intros H. case_bool_decide as Hl; [|done]. case_bool_decide as H0; [|done]. cbn [negb] in H.
    apply bind_Ok_inv in H as (u & Hts & H). apply validate_timestamp_inv in Hts.
    case_bool_decide as Hs; [|done]. cbn [negb] in H. apply Ok_inj in H as <-.
    exists (timestamp_at pt). assert (Hl8 : length (slice pt 1 9) = 8)
      by (apply slice_length; lia).
    pose proof (u16_val_range (pt !!! (9 + sl)) (pt !!! (9 + sl + 1))).
    split_and!; [by apply u64_val_range | by apply u64_val_range | done | | lia |].
    + rewrite <- Hs. rewrite slice_length; lia.
    + unfold timestamp_at. rewrite be_bytes_u64, <- Hs, Z2Nat.id, be_bytes_u16 by (done || lia).
      rewrite <- slice_2 by lia.
      transitivity (take 1 pt ++ drop 1 pt); [by rewrite take_drop|]. f_equal.
      { destruct pt as [|b pt]; [simpl in Hl; lia|]. by rewrite <- H0. }
      rewrite (drop_slice pt 1 9), (drop_slice pt 9 (9 + sl)),
        (drop_slice pt (9 + sl) (9 + sl + 2)) by lia.
      by rewrite (drop_ge pt), app_nil_r by lia.
  - intros (ts & Hts & Hf & Hs & Hn & ->). norm_app.
    rewrite !bool_decide_eq_true_2
      by (first [done | len_simpl; simpl; lia]). cbn [negb].
    rewrite timestamp_at_cons, validate_timestamp_fresh by done. cbn [mbind result_bind].
    rd_slice (SS2022_TCP_RESPONSE_TYPE :: be_bytes 8 ts) salt (be_bytes 2 (Z.of_nat n)) 9 (9 + sl).
    rewrite bool_decide_eq_true_2 by done. cbn [negb].
    rewrite <- (app_nil_r (be_bytes 2 (Z.of_nat n))).
    rd_u16 ((SS2022_TCP_RESPONSE_TYPE :: be_bytes 8 ts) ++ salt) (Z.of_nat n) (@nil byte)
      (9 + sl) (9 + sl + 1).
    by rewrite Nat2Z.id.
Qed.

(** UDP bodies round trip on both cipher paths and in both directions: what
    one side builds, the other parses back to the same target, payload and ids;
    a response for another client session is refused. *)
Theorem udp_body_roundtrip (t : TargetAddr) (w p sid ssid : bytes) (pid now now' : Z)
    (expected : option bytes) :
  wf_target t -> to_wire_bytes t = Ok w -> (0 <= now < 2 ^ 64)%Z -> fresh now now' ->
  length sid = 8 -> length ssid = 8 -> (0 <= pid < 2 ^ 64)%Z ->
  parse_udp_request_body (build_udp_request_body None now (w ++ p)) now' = Ok (mkRequest t p) /\
  parse_chacha_udp_request_body (build_udp_request_body (Some (sid, pid)) now (w ++ p)) now' =
    Ok (mkChachaRequest (mkRequest t p) sid pid) /\
  let accepted := match expected with Some e => bool_decide (sid = e) | None => true end in
  parse_udp_response_body (write_udp_response_body [] now sid w p) expected now' =
    (if accepted then Ok (w ++ p) else Err ClientSessionMismatch) /\
  parse_chacha_udp_response_body (write_chacha_udp_response_body [] ssid pid now sid w p)
      expected now' =
    (if accepted then Ok (mkChachaResponse ssid pid (w ++ p)) else Err ClientSessionMismatch).
Proof.
  intros Hwf Hw Hn Hf Hs Hss Hpid. split_and!.
  - by apply parse_udp_request_body_built.
  - by apply parse_chacha_udp_request_body_built.
  - split; [rewrite parse_udp_response_body_built by done;
      destruct expected as [e|]; [|done]; by case_bool_decide; destruct (decide _)|].
    unfold parse_chacha_udp_response_body, write_chacha_udp_response_body.
    set (body := write_udp_response_body [] now sid w p).
    assert (write_udp_response_body ([] ++ ssid ++ be_bytes 8 pid) now sid w p =
      ssid ++ be_bytes 8 pid ++ body) as ->
      by (unfold body, write_udp_response_body; by rewrite <- !app_assoc).
    rewrite (ltb_false_ge _ (8 + 8)) by (len_simpl; lia).
    rewrite take_app_length' by done.
    rewrite (slice_app_mid ssid (be_bytes 8 pid)) by (rewrite ?be_bytes_length; lia).
    rewrite app_assoc, drop_app_length' by (rewrite length_app, be_bytes_length; lia).
    unfold body. rewrite parse_udp_response_body_built, be_val_u64 by done.
    destruct expected as [e|]; [|done]. by case_bool_decide; destruct (decide _).
Qed.

Lemma udp_body_roundtrip_witness :
  parse_udp_response_body (write_udp_response_body [] 77 (str "sessionA")
    [x01; x7f; x00; x00; x01; x00; x35] (str "reply")) (Some (str "sessionB")) 80 =
  Err ClientSessionMismatch.
Proof.
  refine (proj1 (proj2 (proj2 (udp_body_roundtrip (IpV4 [x7f; x00; x00; x01] 53)
    [x01; x7f; x00; x00; x01; x00; x35] (str "reply") (str "sessionA") (str "serverid") 5 77 80
    (Some (str "sessionB")) _ _ _ _ _ _ _))));
    (vm_compute; repeat split; reflexivity || discriminate).
Defined.

(** The replay window is enforced on every path: a header of any kind whose
    timestamp is more than thirty seconds away from the receiver's clock, in
    either direction, is never accepted. *)
Theorem stale_never_accepted (cipher : CipherKind) (salt b : bytes) (expected : option bytes)
    (now : Z) :
  (forall n, validate_request_fixed_header b now = Ok n -> fresh (timestamp_at b) now) /\
  (forall n, parse_response_header cipher salt b now = Ok n -> fresh (timestamp_at b) now) /\
  (forall r, parse_udp_request_body b now = Ok r -> fresh (timestamp_at b) now) /\
  (forall r, parse_udp_response_body b expected now = Ok r -> fresh (timestamp_at b) now) /\
  (forall r, parse_chacha_udp_request_body b now = Ok r -> fresh (timestamp_at (drop 16 b)) now) /\
  (forall r, parse_chacha_udp_response_body b expected now = Ok r ->
     fresh (timestamp_at (drop 16 b)) now).
Proof.
  assert (Hresp : forall c r, parse_udp_response_body c expected now = Ok r ->
    fresh (timestamp_at c) now).
  { intros c r H. unfold parse_udp_response_body in H. repeat split_guard.
    apply bind_Ok_inv in H as (u & H & _). by eapply validate_timestamp_inv. }
  split_and!; intros r H; [..| by eapply Hresp | |].
  all: try (unfold validate_request_fixed_header, parse_response_header, parse_udp_request_body,
    parse_chacha_udp_request_body in H; repeat split_guard;
    apply bind_Ok_inv in H as (u & H & _); by eapply validate_timestamp_inv).
  unfold parse_chacha_udp_response_body in H. split_guard.
  apply bind_Ok_inv in H as (ap & H & _). by eapply Hresp.
Qed.
