(* ===== verification/Vless.v ===== *)
(** The VLESS request header, its Addons block and UUID text
    ([crates/outline-wire/src/vless.rs]). *)
From S2P Require Import Prelude Target.

Definition VERSION : byte := x00.
Definition COMMAND_TCP : byte := x01.
Definition COMMAND_UDP : byte := x02.
Definition COMMAND_MUX : byte := x03.
Definition ATYP_IPV4 : byte := x01.
Definition ATYP_DOMAIN : byte := x02.
Definition ATYP_IPV6 : byte := x03.
Definition ADDON_TAG_RESUME_CAPABLE : byte := x10.
Definition ADDON_TAG_RESUME_ID : byte := x11.
Definition ADDON_TAG_SESSION_ID : byte := x10.
Definition ADDON_TAG_RESUME_RESULT : byte := x11.

Inductive AddonResumeResult : Type := Hit | MissUnknown.
Definition as_byte (r : AddonResumeResult) : byte :=
  match r with Hit => x00 | MissUnknown => x02 end.

Inductive VlessCommand : Type := Tcp | Udp | Mux.
#[export] Instance VlessCommand_eq_dec : EqDecision VlessCommand.
Proof. solve_decision. Defined.

Record VlessRequestAddons : Type := mkAddons {
  resume_capable : bool;
  resume_id : option bytes
}.

Record VlessRequest : Type := mkVlessRequest {
  user_id : bytes;
  command : VlessCommand;
  target : TargetAddr;
  consumed : nat;
  addons : VlessRequestAddons
}.

Inductive VlessError : Type :=
  | InvalidVersion (v : byte)
  | UnsupportedCommand (c : byte)
  | UnsupportedAddressType (a : byte)
  | InvalidDomain
  | InvalidUuid
  | DomainTooLong (n : nat)
  | AddonsTooLong (n : nat).

(** ** The Addons block

    Both walks keep an index [i] into the block; here the block is what is
    left of it from [i] on. A round consumes at least two bytes, so the length
    of the block is enough fuel. *)
Fixpoint request_addons_loop (fuel : nat) (block : bytes) (addons : VlessRequestAddons)
    : VlessRequestAddons :=
  match fuel with
  | O => addons
  | S fuel =>
    match block with
    | tag :: len :: rest =>
      let len := Z.to_nat (b2z len) in
      if (length rest <? len)%nat then addons
      else
        let value := take len rest in
        let addons :=
          if bool_decide (tag = ADDON_TAG_RESUME_CAPABLE)
          then mkAddons (bool_decide (value = [x01])) (resume_id addons)
          else if bool_decide (tag = ADDON_TAG_RESUME_ID)
          then if bool_decide (length value = 16)
               then mkAddons (resume_capable addons) (Some value) else addons
          else addons in
        request_addons_loop fuel (drop len rest) addons
    | _ => addons
    end
  end.

Definition parse_request_addons (block : bytes) : VlessRequestAddons :=
  request_addons_loop (length block) block (mkAddons false None).

Fixpoint response_addons_loop (fuel : nat) (block : bytes) : option bytes :=
  match fuel with
  | O => None
  | S fuel =>
    match block with
    | tag :: len :: rest =>
      let len := Z.to_nat (b2z len) in
      if (length rest <? len)%nat then None
      else
        let value := take len rest in
        if bool_decide (tag = ADDON_TAG_SESSION_ID) && bool_decide (length value = 16)
        then Some value
        else response_addons_loop fuel (drop len rest)
    | _ => None
    end
  end.

Definition parse_response_addons_session_id (block : bytes) : option bytes :=
  response_addons_loop (length block) block.

Definition encode_request_addons (resume_capable : bool) (resume_id : option bytes) : bytes :=
  (if resume_capable then [ADDON_TAG_RESUME_CAPABLE; x01; x01] else [])
  ++ match resume_id with
     | Some id => [ADDON_TAG_RESUME_ID; x10] ++ id
     | None => []
     end.

Definition encode_response_addons (session_id : option bytes)
    (resume_result : option AddonResumeResult) : bytes :=
  match session_id with
  | Some id => [ADDON_TAG_SESSION_ID; x10] ++ id
  | None => []
  end
  ++ match resume_result with
     | Some result => [ADDON_TAG_RESUME_RESULT; x01; as_byte result]
     | None => []
     end.

(** ** The request header

    [parse_destination] is the part of [parse_request] after the Mux return:
    port, address type and address. *)
Definition parse_destination (input user_id : bytes) (command : VlessCommand)
    (addons : VlessRequestAddons) (command_offset : nat)
    : result VlessError (option VlessRequest) :=
  let port_offset := command_offset + 1 in
  if (length input <? port_offset + 2 + 1)%nat then Ok None
  else
    let port := be_val [input !!! port_offset; input !!! (port_offset + 1)] in
    let atyp_offset := port_offset + 2 in
    let atyp := input !!! atyp_offset in
    let addr_offset := atyp_offset + 1 in
    if bool_decide (atyp = ATYP_IPV4) then
      if (length input <? addr_offset + 4)%nat then Ok None
      else
        let host := [input !!! addr_offset; input !!! (addr_offset + 1);
                     input !!! (addr_offset + 2); input !!! (addr_offset + 3)] in
        Ok (Some (mkVlessRequest user_id command (IpV4 host port) (addr_offset + 4) addons))
    else if bool_decide (atyp = ATYP_DOMAIN) then
      if (length input <? addr_offset + 1)%nat then Ok None
      else
        let len := Z.to_nat (b2z (input !!! addr_offset)) in
        let domain_offset := addr_offset + 1 in
        if (length input <? domain_offset + len)%nat then Ok None
        else
          let host := slice input domain_offset (domain_offset + len) in
          if utf8_valid host then
            Ok (Some (mkVlessRequest user_id command (Domain host port)
                        (domain_offset + len) addons))
          else Err InvalidDomain
    else if bool_decide (atyp = ATYP_IPV6) then
      if (length input <? addr_offset + 16)%nat then Ok None
      else
        let octets := slice input addr_offset (addr_offset + 16) in
        Ok (Some (mkVlessRequest user_id command (IpV6 octets port) (addr_offset + 16) addons))
    else Err (UnsupportedAddressType atyp).

Definition parse_request (input : bytes) : result VlessError (option VlessRequest) :=
  if (length input <? 1 + 16 + 1)%nat then Ok None
  else if negb (bool_decide (input !!! 0 = VERSION)) then Err (InvalidVersion (input !!! 0))
  else
    let user_id := slice input 1 17 in
    let opt_len := Z.to_nat (b2z (input !!! 17)) in
    let command_offset := 18 + opt_len in
    if (length input <? command_offset + 1)%nat then Ok None
    else
      let addons := parse_request_addons (slice input 18 (18 + opt_len)) in
      let c := input !!! command_offset in
      command ←
        (if bool_decide (c = COMMAND_TCP) then Ok Tcp
         else if bool_decide (c = COMMAND_UDP) then Ok Udp
         else if bool_decide (c = COMMAND_MUX) then Ok Mux
         else Err (UnsupportedCommand c));
      if bool_decide (command = Mux) then
        Ok (Some (mkVlessRequest user_id command (IpV4 [x00; x00; x00; x00] 0)
                    (command_offset + 1) addons))
      else parse_destination input user_id command addons command_offset.

Definition build_request_header (uuid : bytes) (command : byte) (target : TargetAddr)
    (addons : bytes) : result VlessError bytes :=
  if (255 <? length addons)%nat then Err (AddonsTooLong (length addons))
  else
    let out := [VERSION] ++ uuid ++ [u8 (Z.of_nat (length addons))] ++ addons ++ [command] in
    if bool_decide (command = COMMAND_MUX) then Ok out
    else
      match target with
      | IpV4 addr port => Ok (out ++ be_bytes 2 port ++ [ATYP_IPV4] ++ addr)
      | IpV6 addr port => Ok (out ++ be_bytes 2 port ++ [ATYP_IPV6] ++ addr)
      | Domain host port =>
        if (255 <? length host)%nat then Err (DomainTooLong (length host))
        else Ok (out ++ be_bytes 2 port ++ [ATYP_DOMAIN; u8 (Z.of_nat (length host))] ++ host)
      end.

(** ** UUID text *)
Definition is_ascii_hexdigit (b : byte) : bool :=
  in_range 48 57 b || in_range 97 102 b || in_range 65 70 b.

Definition hex_value (b : byte) : result VlessError byte :=
  if in_range 48 57 b then Ok (u8 (b2z b - 48))
  else if in_range 97 102 b then Ok (u8 (b2z b - 97 + 10))
  else if in_range 65 70 b then Ok (u8 (b2z b - 65 + 10))
  else Err InvalidUuid.

(** The first loop: [hex] holds the digits stored so far, [hex[..len]]. *)
Fixpoint uuid_digits (input hex : bytes) : result VlessError bytes :=
  match input with
  | [] => Ok hex
  | b :: input =>
    if bool_decide (b = x2d) then uuid_digits input hex
    else if bool_decide (length hex = 32) || negb (is_ascii_hexdigit b) then Err InvalidUuid
    else uuid_digits input (hex ++ [b])
  end.

(** The second loop: a pair of digits per output byte. *)
Fixpoint uuid_octets (hex : bytes) : result VlessError bytes :=
  match hex with
  | h :: l :: hex =>
    hi ← hex_value h; lo ← hex_value l; out ← uuid_octets hex;
    Ok (bor (u8 (Z.shiftl (b2z hi) 4)) lo :: out)
  | _ => Ok []
  end.

Definition parse_uuid (input : bytes) : result VlessError bytes :=
  hex ← uuid_digits input [];
  if negb (bool_decide (length hex = 32)) then Err InvalidUuid
  else uuid_octets hex.

(** [{:02x}] *)
Definition hex_digit (n : Z) : byte := u8 (if (n <? 10)%Z then 48 + n else 87 + n).
Definition lower_hex (b : byte) : bytes :=
  [hex_digit (Z.shiftr (b2z b) 4); hex_digit (Z.land (b2z b) 15)].

Definition mask_uuid (id : bytes) : bytes :=
  lower_hex (id !!! 0) ++ lower_hex (id !!! 1) ++ lower_hex (id !!! 2) ++ lower_hex (id !!! 3)
  ++ str "-...".

(** ** The Addons block as a list of items *)
Section addons_facts.

(** An item on the wire, and a tail no walk can take an item from. *)
Definition tlv (it : byte * bytes) : bytes := it.1 :: u8 (Z.of_nat (length it.2)) :: it.2.
Definition tlvs (items : list (byte * bytes)) : bytes := concat (map tlv items).
Definition wf_item (it : byte * bytes) : Prop := length it.2 <= 255.
Definition truncated (tail : bytes) : Prop :=
  match tail with
  | _ :: len :: rest => length rest < Z.to_nat (b2z len)
  | _ => True
  end.

(** What the items say: the last well-sized item of a tag counts in a request,
    the first one in a response. *)
Definition is_capable (it : byte * bytes) : Prop := it.1 = ADDON_TAG_RESUME_CAPABLE.
Definition is_resume_id (it : byte * bytes) : Prop :=
  it.1 = ADDON_TAG_RESUME_ID /\ length it.2 = 16.
Definition is_session_id (it : byte * bytes) : Prop :=
  it.1 = ADDON_TAG_SESSION_ID /\ length it.2 = 16.
#[export] Instance is_capable_dec it : Decision (is_capable it).
Proof. unfold is_capable. apply _. Defined.
#[export] Instance is_resume_id_dec it : Decision (is_resume_id it).
Proof. unfold is_resume_id. apply _. Defined.
#[export] Instance is_session_id_dec it : Decision (is_session_id it).
Proof. unfold is_session_id. apply _. Defined.

Definition addons_step (a : VlessRequestAddons) (it : byte * bytes) : VlessRequestAddons :=
  if decide (is_capable it) then mkAddons (bool_decide (it.2 = [x01])) (resume_id a)
  else if decide (is_resume_id it) then mkAddons (resume_capable a) (Some it.2) else a.

Definition items_addons (items : list (byte * bytes)) : VlessRequestAddons :=
  mkAddons
    (match last (filter is_capable items) with
     | Some it => bool_decide (it.2 = [x01])
     | None => false
     end)
    (snd <$> last (filter is_resume_id items)).

Lemma tlvs_cons it items tail : tlvs (it :: items) ++ tail =
  it.1 :: u8 (Z.of_nat (length it.2)) :: it.2 ++ tlvs items ++ tail.
Proof. unfold tlvs. cbn [map concat]. unfold tlv at 1. by rewrite <- !app_assoc. Qed.

Lemma request_addons_loop_tlvs items tail fuel a :
  Forall wf_item items -> truncated tail -> length (tlvs items ++ tail) <= fuel ->
  request_addons_loop fuel (tlvs items ++ tail) a = fold_left addons_step items a.
Proof.
  intros Hwf Ht. revert fuel a. induction Hwf as [|it items Hit Hwf IH]; intros fuel a Hf.
  - cbn [tlvs map concat app] in *. destruct fuel as [|fuel]; [done|].
    destruct tail as [|t [|l r]]; [done..|]. cbn [request_addons_loop fold_left].
    by rewrite ltb_true_lt.
  - rewrite tlvs_cons in *. destruct fuel as [|fuel]; [cbn [length] in Hf; lia|].
    cbn [length] in Hf. rewrite length_app in Hf. cbn [request_addons_loop fold_left].
    rewrite u8_of_nat_len by done. rewrite ltb_false_ge by (rewrite length_app; lia).
    rewrite take_app_length, drop_app_length, IH by lia. f_equal.
    unfold addons_step, is_capable, is_resume_id. destruct it as [t v]. cbn [fst snd].
    repeat case_bool_decide; repeat case_decide; try done; exfalso; tauto.
Qed.

Lemma fold_addons_step items a :
  fold_left addons_step items a =
  mkAddons
    (match last (filter is_capable items) with
     | Some it => bool_decide (it.2 = [x01])
     | None => resume_capable a
     end)
    (match last (filter is_resume_id items) with
     | Some it => Some it.2
     | None => resume_id a
     end).
Proof.
  induction items as [|it items IH] using rev_ind; [by destruct a|].
  rewrite fold_left_app, IH, !filter_app. cbn [fold_left].
  rewrite !filter_cons, !filter_nil. unfold addons_step at 1.
  destruct (decide (is_capable it)) as [Hc|Hc], (decide (is_resume_id it)) as [Hi|Hi];
    rewrite ?app_nil_r, ?last_snoc; try done.
  unfold is_capable, is_resume_id in *. destruct Hi as [Hi _]. by rewrite Hc in Hi.
Qed.

Lemma parse_request_addons_tlvs items tail :
  Forall wf_item items -> truncated tail ->
  parse_request_addons (tlvs items ++ tail) = items_addons items.
Proof.
  intros. unfold parse_request_addons, items_addons.
  rewrite request_addons_loop_tlvs, fold_addons_step by done. cbn [resume_capable resume_id].
  by destruct (last (filter is_resume_id items)).
Qed.

Lemma response_addons_loop_tlvs items tail fuel :
  Forall wf_item items -> truncated tail -> length (tlvs items ++ tail) <= fuel ->
  response_addons_loop fuel (tlvs items ++ tail) = snd <$> head (filter is_session_id items).
Proof.
  intros Hwf Ht. revert fuel. induction Hwf as [|it items Hit Hwf IH]; intros fuel Hf.
  - cbn [tlvs map concat app] in *. destruct fuel as [|fuel]; [done|].
    destruct tail as [|t [|l r]]; [done..|]. cbn [response_addons_loop].
    by rewrite ltb_true_lt.
  - rewrite tlvs_cons in *. destruct fuel as [|fuel]; [cbn [length] in Hf; lia|].
    cbn [length] in Hf. rewrite length_app in Hf. cbn [response_addons_loop].
    rewrite u8_of_nat_len by done. rewrite ltb_false_ge by (rewrite length_app; lia).
    rewrite take_app_length, drop_app_length, IH by lia. rewrite filter_cons.
    unfold is_session_id at 2. destruct it as [t v]. cbn [fst snd].
    repeat case_bool_decide; case_decide; try done; exfalso; tauto.
Qed.

(** Every block is a list of items and a truncated tail. *)
Lemma block_items block : exists items tail,
  block = tlvs items ++ tail /\ Forall wf_item items /\ truncated tail.
Proof.
  induction block as [block IH] using (induction_ltof1 _ length).
  destruct block as [|t [|l r]]; [by exists [], [] | by exists [], [t] |].
  destruct (decide (length r < Z.to_nat (b2z l))) as [Hr|Hr].
  - by exists [], (t :: l :: r).
  - destruct (IH (drop (Z.to_nat (b2z l)) r)) as (items & tail & Hb & Hwf & Ht).
    { unfold ltof. rewrite length_drop. cbn [length]. lia. }
    assert (Hl : length (take (Z.to_nat (b2z l)) r) = Z.to_nat (b2z l))
      by (rewrite length_take; lia).
    exists ((t, take (Z.to_nat (b2z l)) r) :: items), tail. rewrite tlvs_cons, <- Hb.
    cbn [fst snd]. rewrite Hl, u8_to_nat_len, take_drop. split_and!; [done | | done].
    constructor; [|done]. unfold wf_item. cbn [snd]. rewrite Hl. apply to_nat_b2z_lt.
Qed.

Lemma encode_request_addons_items c id :
  match id with Some i => length i = 16 | None => True end ->
  parse_request_addons (encode_request_addons c id) = mkAddons c id.
Proof.
  intros Hid.
  pose (items := (if c then [(ADDON_TAG_RESUME_CAPABLE, [x01])] else [])
    ++ match id with Some i => [(ADDON_TAG_RESUME_ID, i)] | None => [] end).
  assert (encode_request_addons c id = tlvs items ++ []) as ->.
  { unfold encode_request_addons, items. rewrite app_nil_r.
    destruct c, id as [i|]; cbn [app tlvs map concat tlv fst snd length];
      rewrite ?app_nil_r, ?Hid; reflexivity. }
  assert (Forall wf_item items) as Hwf.
  { unfold items, wf_item. destruct c, id as [i|]; cbn [app];
      repeat (apply List.Forall_cons; [cbn [snd length]; lia|]); done. }
  unfold parse_request_addons. rewrite request_addons_loop_tlvs by done. unfold items.
  destruct id as [i|]; [|by destruct c].
  assert (forall a, addons_step a (ADDON_TAG_RESUME_ID, i) = mkAddons (resume_capable a) (Some i))
    as Hs.
  { intros a. unfold addons_step. rewrite decide_False by done. by rewrite decide_True. }
  destruct c; cbn [app fold_left]; by rewrite Hs.
Qed.
End addons_facts.

(** ** The request header: round trip and stability *)
Section request_facts.

Definition command_of (c : byte) : option VlessCommand :=
  if bool_decide (c = COMMAND_TCP) then Some Tcp
  else if bool_decide (c = COMMAND_UDP) then Some Udp
  else if bool_decide (c = COMMAND_MUX) then Some Mux
  else None.
Definition command_byte (c : VlessCommand) : byte :=
  match c with Tcp => COMMAND_TCP | Udp => COMMAND_UDP | Mux => COMMAND_MUX end.

(** What a server learns about the destination: nothing on the Mux carrier. *)
Definition seen_target (c : VlessCommand) (t : TargetAddr) : TargetAddr :=
  match c with Mux => IpV4 [x00; x00; x00; x00] 0 | _ => t end.

Lemma command_of_inv c cmd : command_of c = Some cmd -> c = command_byte cmd.
Proof. unfold command_of. intros H. repeat case_bool_decide; by simplify_eq. Qed.

Lemma parse_request_head uuid c cmd a tail :
  length uuid = 16 -> command_of c = Some cmd -> length a <= 255 ->
  let input := VERSION :: uuid ++ u8 (Z.of_nat (length a)) :: a ++ c :: tail in
  parse_request input =
  match cmd with
  | Mux => Ok (Some (mkVlessRequest uuid Mux (IpV4 [x00; x00; x00; x00] 0)
                       (18 + length a + 1) (parse_request_addons a)))
  | _ => parse_destination input uuid cmd (parse_request_addons a) (18 + length a)
  end.
Proof.
  intros Hu Hc Ha input. unfold parse_request.
  assert (length input = 19 + length a + length tail) as Hl by (unfold input; len_simpl; lia).
  rewrite !(ltb_false_ge (length input)) by lia. unfold input at 1 2 4.
  rewrite bool_decide_eq_true_2 by done. cbn [negb].
  assert (input !!! 17 = u8 (Z.of_nat (length a))) as ->
    by (apply (read_at (VERSION :: uuid)); cbn [length]; lia).
  rewrite u8_of_nat_len by done. rewrite (ltb_false_ge (length input)) by lia.
  assert (input !!! (18 + length a) = c) as ->.
  { unfold input.
    rd_at (VERSION :: uuid ++ u8 (Z.of_nat (length a)) :: a) c tail (18 + length a). done. }
  assert (slice input 1 17 = uuid) as ->.
  { unfold input. rd_slice [VERSION] uuid (u8 (Z.of_nat (length a)) :: a ++ c :: tail) 1 17. done. }
  assert (slice input 18 (18 + length a) = a) as ->.
  { unfold input.
    rd_slice (VERSION :: uuid ++ [u8 (Z.of_nat (length a))]) a (c :: tail) 18 (18 + length a).
    done. }
  apply command_of_inv in Hc as ->. by destruct cmd.
Qed.

(** The destination fields of [t] as [build_request_header] writes them. *)
Definition destination (t : TargetAddr) : bytes :=
  match t with
  | IpV4 addr port => be_bytes 2 port ++ ATYP_IPV4 :: addr
  | IpV6 addr port => be_bytes 2 port ++ ATYP_IPV6 :: addr
  | Domain host port => be_bytes 2 port ++ ATYP_DOMAIN :: u8 (Z.of_nat (length host)) :: host
  end.
Definition short_domain (t : TargetAddr) : Prop :=
  match t with Domain host _ => length host <= 255 | _ => True end.

Lemma parse_destination_built pre uuid cmd ad off t rest :
  length pre = off + 1 -> wf_target t -> short_domain t ->
  parse_destination (pre ++ destination t ++ rest) uuid cmd ad off =
  Ok (Some (mkVlessRequest uuid cmd t (length (pre ++ destination t)) ad)).
Proof.
  intros Hl Hwf Hs. unfold parse_destination, destination. rewrite <- Hl.
  destruct t as [h p|h p|h p]; destruct Hwf as [Hh Hp]; unfold wf_port in Hp; norm_app;
    rewrite ltb_false_ge by (len_simpl; simpl; lia);
    rewrite read_u16 by (done || lia);
    rewrite (app_assoc pre), (read_at (pre ++ be_bytes 2 p)) by (len_simpl; lia);
    rewrite <- app_assoc; eval_eqs;
    rewrite ltb_false_ge by (len_simpl; simpl; lia).
  - do 4 (destruct h as [|? h]; [simpl in Hh; lia|]). destruct h; [|simpl in Hh; lia].
    rewrite (app_assoc pre). cbn [app].
    rewrite !(lookup_total_app_r (pre ++ be_bytes 2 p)) by (len_simpl; lia).
    rewrite (length_app pre), be_bytes_length.
    repeat match goal with |- context [length pre + 2 + 1 + ?k - (length pre + 2)] =>
      replace (length pre + 2 + 1 + k - (length pre + 2)) with (S k) by lia end.
    replace (length pre + 2 + 1 - (length pre + 2)) with 1 by lia. cbn.
    do 3 f_equal. len_simpl. simpl. lia.
  - assert (slice (pre ++ be_bytes 2 p ++ ATYP_IPV6 :: h ++ rest) (length pre + 2 + 1)
      (length pre + 2 + 1 + 16) = h) as ->.
    { rd_slice (pre ++ be_bytes 2 p ++ [ATYP_IPV6]) h rest (length pre + 2 + 1)
        (length pre + 2 + 1 + 16). done. }
    do 3 f_equal. len_simpl. simpl. lia.
  - assert ((pre ++ be_bytes 2 p ++ ATYP_DOMAIN :: u8 (Z.of_nat (length h)) :: h ++ rest)
      !!! (length pre + 2 + 1) = u8 (Z.of_nat (length h))) as ->.
    { rd_at (pre ++ be_bytes 2 p ++ [ATYP_DOMAIN]) (u8 (Z.of_nat (length h))) (h ++ rest)
        (length pre + 2 + 1). done. }
    rewrite u8_of_nat_len by done. rewrite ltb_false_ge by (len_simpl; simpl; lia).
    assert (slice (pre ++ be_bytes 2 p ++ ATYP_DOMAIN :: u8 (Z.of_nat (length h)) :: h ++ rest)
      (length pre + 2 + 1 + 1) (length pre + 2 + 1 + 1 + length h) = h) as ->.
    { rd_slice (pre ++ be_bytes 2 p ++ [ATYP_DOMAIN; u8 (Z.of_nat (length h))]) h rest
        (length pre + 2 + 1 + 1) (length pre + 2 + 1 + 1 + length h). done. }
    rewrite Hh. do 3 f_equal. len_simpl. simpl. lia.
Qed.

Lemma vless_header_inv uuid c cmd t a hdr :
  command_of c = Some cmd -> build_request_header uuid c t a = Ok hdr ->
  length a <= 255 /\ (cmd = Mux \/ short_domain t) /\
  hdr = (VERSION :: uuid ++ u8 (Z.of_nat (length a)) :: a ++ [c])
        ++ (if bool_decide (cmd = Mux) then [] else destination t).
Proof.
  intros Hc H. apply command_of_inv in Hc as ->. unfold build_request_header in H.
  split_guard. destruct cmd; [| |by apply Ok_inj in H as <-; split_and!; [lia|left|norm_app]];
    (split; [lia|]);
    (destruct t as [h p|h p|h p]; revert H; eval_eqs; intros H; try split_guard;
     apply Ok_inj in H as <-; (split; [right; simpl; (done || lia)|]); norm_app; done).
Qed.

Lemma parse_request_built uuid c cmd t a hdr rest :
  length uuid = 16 -> wf_target t -> command_of c = Some cmd ->
  build_request_header uuid c t a = Ok hdr ->
  parse_request (hdr ++ rest) =
  Ok (Some (mkVlessRequest uuid cmd (seen_target cmd t) (length hdr) (parse_request_addons a))).
Proof.
  intros Hu Hwf Hc H. destruct (vless_header_inv _ _ _ _ _ _ Hc H) as (Ha & Hs & ->).
  pose proof (parse_request_head uuid c cmd a) as Hh. cbn zeta in Hh.
  destruct (decide (cmd = Mux)) as [->|Hm].
  - rewrite bool_decide_eq_true_2 by done. rewrite app_nil_r. norm_app.
    rewrite Hh by done. do 3 f_equal. len_simpl. simpl. lia.
  - rewrite bool_decide_eq_false_2 by done. destruct Hs as [?|Hs]; [done|]. norm_app.
    rewrite Hh by done.
    pose proof (parse_destination_built (VERSION :: uuid ++ u8 (Z.of_nat (length a)) :: a ++ [c])
      uuid cmd (parse_request_addons a) (18 + length a) t rest) as Hd.
    revert Hd. norm_app. intros Hd. destruct cmd; [| |done]; apply Hd;
      (done || len_simpl; simpl; lia).
Qed.

(** More bytes never change a verdict. *)
Lemma parse_destination_stable input more uuid cmd ad off :
  parse_destination input uuid cmd ad off <> Ok None ->
  parse_destination (input ++ more) uuid cmd ad off = parse_destination input uuid cmd ad off.
Proof.
  unfold parse_destination. stable_guard. stable_reads.
  case_bool_decide; [stable_guard; by stable_reads|].
  case_bool_decide; [stable_guard; stable_reads; stable_guard; by stable_reads|].
  case_bool_decide; [stable_guard; by stable_reads|done].
Qed.

Lemma parse_request_stable input more :
  parse_request input <> Ok None -> parse_request (input ++ more) = parse_request input.
Proof.
  unfold parse_request. stable_guard. stable_reads.
  case_bool_decide; [cbn [negb]|done]. stable_guard. stable_reads.
  set (cmd := if bool_decide _ then Ok Tcp else _).
  destruct cmd as [cmd|e]; [|done]. cbn [mbind result_bind].
  case_bool_decide; [done|]. apply parse_destination_stable.
Qed.

Lemma parse_destination_consumed input uuid cmd ad off r :
  parse_destination input uuid cmd ad off = Ok (Some r) -> off < consumed r <= length input.
Proof.
  unfold parse_destination. intros H. repeat split_guard; injection H as <-; cbn [consumed]; lia.
Qed.

Lemma parse_request_consumed input r :
  parse_request input = Ok (Some r) -> 18 < consumed r <= length input.
Proof.
  unfold parse_request. intros H. repeat split_guard.
  apply bind_Ok_inv in H as (cmd & _ & H). case_bool_decide.
  - injection H as <-. cbn [consumed]. lia.
  - apply parse_destination_consumed in H. lia.
Qed.

Lemma parse_request_prefix uuid c cmd t a hdr k :
  length uuid = 16 -> wf_target t -> command_of c = Some cmd ->
  build_request_header uuid c t a = Ok hdr -> k < length hdr ->
  parse_request (take k hdr) = Ok None.
Proof.
  intros Hu Hwf Hc Hb Hk. pose proof (parse_request_built _ _ _ _ _ _ [] Hu Hwf Hc Hb) as Hp.
  rewrite app_nil_r in Hp.
  destruct (parse_request (take k hdr)) as [[r|]|e] eqn:Ed; [exfalso | done | exfalso];
    pose proof (parse_request_stable (take k hdr) (drop k hdr)) as Hs;
    rewrite take_drop, Hp, Ed in Hs; specialize (Hs ltac:(done)); [|done].
  apply parse_request_consumed in Ed. injection Hs as Hs. rewrite length_take in Ed.
  subst r. cbn [consumed] in Ed. lia.
Qed.
End request_facts.

(** The request header as a stream codec: the header a client of the resumption
    protocol sends, from its fields. *)
Record VlessHeader : Type := mkVlessHeader {
  h_uuid : bytes;
  h_command : VlessCommand;
  h_target : TargetAddr;
  h_addons : VlessRequestAddons
}.

Definition wf_header (h : VlessHeader) : Prop :=
  length (h_uuid h) = 16 /\ wf_target (h_target h) /\
  h_target h = seen_target (h_command h) (h_target h) /\
  match resume_id (h_addons h) with Some i => length i = 16 | None => True end.
Definition encode_header (h : VlessHeader) : result VlessError bytes :=
  build_request_header (h_uuid h) (command_byte (h_command h)) (h_target h)
    (encode_request_addons (resume_capable (h_addons h)) (resume_id (h_addons h))).
Definition decode_header (input : bytes) : result VlessError (option (VlessHeader * nat)) :=
  o ← parse_request input;
  match o with
  | Some r => Ok (Some (mkVlessHeader (user_id r) (command r) (target r) (addons r), consumed r))
  | None => Ok None
  end.

Lemma command_of_byte c : command_of (command_byte c) = Some c.
Proof. by destruct c. Qed.

#[export, refine] Instance vless_codec : Codec VlessHeader VlessError := {|
  cwf := wf_header;
  cenc := encode_header;
  cdec := decode_header
|}.
Proof.
  - intros [u c t [rc ri]] w rest (Hu & Ht & Hs & Hi) Hw.
    unfold decode_header, encode_header in *.
    cbn [h_uuid h_command h_target h_addons resume_capable resume_id] in *.
    rewrite (parse_request_built _ _ _ _ _ _ rest Hu Ht (command_of_byte c) Hw).
    cbn [mbind result_bind user_id command target addons consumed].
    rewrite encode_request_addons_items by done. by rewrite <- Hs.
  - intros [u c t [rc ri]] w k (Hu & Ht & Hs & Hi) Hw Hk.
    unfold decode_header, encode_header in *.
    cbn [h_uuid h_command h_target h_addons resume_capable resume_id] in *.
    by rewrite (parse_request_prefix _ _ _ _ _ _ _ Hu Ht (command_of_byte c) Hw Hk).
  - intros input a n H. unfold decode_header in H. apply bind_Ok_inv in H as (o & Hp & H).
    destruct o as [r|]; [|done]. cbn in H. injection H as _ <-.
    apply parse_request_consumed in Hp. lia.
Defined.

(** ** UUID text *)
Section uuid_facts.

(** Lower-casing a hexadecimal digit. *)
Definition lower (b : byte) : byte := if in_range 65 70 b then u8 (b2z b + 32) else b.

Definition octet_of (h l : byte) : result VlessError byte :=
  hi ← hex_value h; lo ← hex_value l; Ok (bor (u8 (Z.shiftl (b2z hi) 4)) lo).

Definition pair_check (h l : byte) : bool :=
  match octet_of h l with
  | Ok o => is_ascii_hexdigit h && is_ascii_hexdigit l
            && bool_decide (lower_hex o = [lower h; lower l])
  | Err _ => negb (is_ascii_hexdigit h && is_ascii_hexdigit l)
  end.
Lemma pair_check_all h l : pair_check h l = true.
Proof. revert h l. apply byte_forall2. vm_compute. reflexivity. Qed.

Lemma lower_hex_digit_check h b : negb (bool_decide (lower h = hex_digit (Z.land (b2z b) 15)))
  || is_ascii_hexdigit h = true.
Proof. revert h b. apply byte_forall2. vm_compute. reflexivity. Qed.

Lemma lower_hex_high_check h b : negb (bool_decide (lower h = hex_digit (Z.shiftr (b2z b) 4)))
  || is_ascii_hexdigit h = true.
Proof. revert h b. apply byte_forall2. vm_compute. reflexivity. Qed.

Lemma lower_hex_inj a b : lower_hex a = lower_hex b -> a = b.
Proof.
  assert (H : forall a b, negb (bool_decide (lower_hex a = lower_hex b)) || bool_decide (a = b) = true)
    by (apply byte_forall2; vm_compute; reflexivity).
  intros E. specialize (H a b). rewrite bool_decide_eq_true_2 in H by done. cbn in H.
  exact (bool_decide_eq_true_1 _ H).
Qed.

Lemma octet_of_iff h l o : octet_of h l = Ok o <-> lower_hex o = [lower h; lower l].
Proof.
  pose proof (pair_check_all h l) as Hc. unfold pair_check in Hc. split.
  - intros H. rewrite H in Hc. apply andb_prop in Hc as [_ Hc]. exact (bool_decide_eq_true_1 _ Hc).
  - intros H. unfold lower_hex in H. injection H as Hh Hl.
    assert (Dh : is_ascii_hexdigit h = true).
    { pose proof (lower_hex_high_check h o) as D. by rewrite bool_decide_eq_true_2 in D. }
    assert (Dl : is_ascii_hexdigit l = true).
    { pose proof (lower_hex_digit_check l o) as D. by rewrite bool_decide_eq_true_2 in D. }
    rewrite Dh, Dl in Hc. destruct (octet_of h l) as [o'|]; [|done].
    f_equal. apply lower_hex_inj.
    apply andb_prop in Hc as [_ Hc]. apply bool_decide_eq_true_1 in Hc. rewrite Hc.
    unfold lower_hex. by rewrite Hh, Hl.
Qed.

Lemma uuid_octets_cons h l hex : uuid_octets (h :: l :: hex) =
  (o ← octet_of h l; out ← uuid_octets hex; Ok (o :: out)).
Proof.
  cbn [uuid_octets]. unfold octet_of. destruct (hex_value h); [cbn|done].
  by destruct (hex_value l).
Qed.

Lemma uuid_octets_iff n hex u : length hex = 2 * n ->
  uuid_octets hex = Ok u <-> map lower hex = concat (map lower_hex u).
Proof.
  revert hex u. induction n as [|n IH]; intros hex u Hl.
  - destruct hex; [|done]. cbn. split; [by intros [= <-]|].
    destruct u; [done|]. discriminate.
  - destruct hex as [|h [|l hex]]; cbn [length] in Hl; try lia.
    rewrite uuid_octets_cons. split.
    + intros H. apply bind_Ok_inv in H as (o & Ho & H). apply bind_Ok_inv in H as (out & Hout & H).
      apply Ok_inj in H as <-. cbn [map concat]. apply octet_of_iff in Ho. rewrite Ho.
      apply IH in Hout; [|lia]. by rewrite Hout.
    + destruct u as [|o u]; [discriminate|]. cbn [map concat lower_hex app]. intros H.
      injection H as Hh Hlo Hr. apply IH in Hr; [|lia].
      assert (octet_of h l = Ok o) as -> by (apply octet_of_iff; unfold lower_hex; by rewrite Hh, Hlo).
      cbn. by rewrite Hr.
Qed.

Definition undash (s : bytes) : bytes := filter (fun b => b <> x2d) s.

Lemma uuid_digits_iff s hex out :
  length hex <= 32 ->
  uuid_digits s hex = Ok out <->
  out = hex ++ undash s /\ length out <= 32 /\ forallb is_ascii_hexdigit (undash s) = true.
Proof.
  unfold undash. revert hex. induction s as [|b s IH]; intros hex Hl.
  - cbn [uuid_digits]. rewrite filter_nil, app_nil_r. split; [by intros [= <-] | by intros [-> _]].
  - cbn [uuid_digits]. rewrite filter_cons. case_bool_decide as Hd.
    + rewrite decide_False by tauto. by apply IH.
    + rewrite decide_True by done. cbn [forallb]. case_bool_decide as H32; cbn [orb].
      * split; [done|]. intros (-> & Hlen & _). rewrite length_app in Hlen. cbn [length] in Hlen. lia.
      * destruct (is_ascii_hexdigit b); cbn [negb andb]; [|by split; [|intros (_ & _ & ?)]].
        rewrite IH by (rewrite length_app; cbn [length]; lia). by rewrite <- app_assoc.
Qed.

Lemma lower_digits u : map lower (concat (map lower_hex u)) = concat (map lower_hex u).
Proof.
  induction u as [|b u IH]; [done|]. cbn [map concat]. rewrite map_app, IH. f_equal.
  revert b. assert (H : forall b, bool_decide (map lower (lower_hex b) = lower_hex b) = true)
    by (apply byte_forall; vm_compute; reflexivity).
  intros b. exact (bool_decide_eq_true_1 _ (H b)).
Qed.

Lemma spelled_digits hex u : map lower hex = concat (map lower_hex u) ->
  forallb is_ascii_hexdigit hex = true.
Proof.
  revert hex. induction u as [|o u IH]; intros hex H.
  - by destruct hex.
  - cbn [map concat lower_hex app] in H. destruct hex as [|h [|l hex]]; try discriminate.
    cbn [map] in H. injection H as Hh Hl Hr. cbn [forallb].
    pose proof (lower_hex_high_check h o) as Dh. rewrite bool_decide_eq_true_2 in Dh by done.
    pose proof (lower_hex_digit_check l o) as Dl. rewrite bool_decide_eq_true_2 in Dl by done.
    cbn in Dh, Dl. by rewrite Dh, Dl, IH.
Qed.

Lemma concat_lower_hex_length u : length (concat (map lower_hex u)) = 2 * length u.
Proof. induction u as [|b u IH]; [done|]. cbn [map concat lower_hex app length]. lia. Qed.
End uuid_facts.

(** ** Properties *)

(** The request header round trip: whatever a client builds for a
    well-formed target with any Addons block, the server parses to the same
    user, command and target (no target on the Mux carrier), consumes exactly
    the header and leaves the rest; every strict prefix asks for more bytes. *)
Theorem vless_request_roundtrip (uuid : bytes) (c : byte) (cmd : VlessCommand)
    (t : TargetAddr) (block hdr rest : bytes) :
  length uuid = 16 -> wf_target t -> command_of c = Some cmd ->
  build_request_header uuid c t block = Ok hdr ->
  parse_request (hdr ++ rest) =
    Ok (Some (mkVlessRequest uuid cmd (seen_target cmd t) (length hdr)
                (parse_request_addons block))) /\
  forall k, k < length hdr -> parse_request (take k hdr) = Ok None.
Proof.
  intros Hu Hwf Hc Hb. split; [by apply (parse_request_built uuid c cmd t block)|].
  intros k Hk. by apply (parse_request_prefix uuid c cmd t block).
Qed.

Lemma vless_request_roundtrip_witness :
  parse_request ((VERSION :: str "0123456789abcdef" ++ [x00; COMMAND_UDP] ++ [x00; x35]
                  ++ [ATYP_DOMAIN; x02] ++ str "ab") ++ str "payload") =
  Ok (Some (mkVlessRequest (str "0123456789abcdef") Udp (Domain (str "ab") 53) 25
              (mkAddons false None))).
Proof.
  refine (proj1 (vless_request_roundtrip (str "0123456789abcdef") COMMAND_UDP Udp
    (Domain (str "ab") 53) [] _ (str "payload") _ _ _ _));
    [reflexivity | vm_compute; repeat split; reflexivity || discriminate | reflexivity
    | vm_compute; reflexivity].
Defined.

(** A server on a stream of concatenated Mux or TCP/UDP request headers
    never loses framing: draining the buffer yields exactly the headers the
    client encoded, addons included, and keeps an unfinished header buffered. *)
Theorem vless_headers_drain (hs : list VlessHeader) (ws : list bytes) (h : VlessHeader)
    (w : bytes) (k : nat) :
  Forall2 (fun h w => wf_header h /\ encode_header h = Ok w) hs ws ->
  wf_header h -> encode_header h = Ok w -> k < length w ->
  drain (concat ws ++ take k w) = Ok (hs, take k w).
Proof. intros. by apply (drain_encodings hs ws h). Qed.

Lemma vless_headers_drain_witness :
  exists h w, encode_header h = Ok w /\ drain (w ++ take 20 w) = Ok ([h], take 20 w).
Proof.
  pose (h := mkVlessHeader (str "0123456789abcdef") Tcp (IpV4 [x0a; x00; x00; x01] 443)
               (mkAddons true (Some (str "fedcba9876543210")))).
  destruct (encode_header h) as [w|e] eqn:E; [|vm_compute in E; discriminate].
  exists h, w. split; [done|].
  assert (wf_header h) by (vm_compute; repeat split; reflexivity || discriminate).
  rewrite <- (app_nil_r w) at 1.
  apply (vless_headers_drain [h] [w] h w 20); [repeat constructor; done | done | done |].
  vm_compute in E. injection E as <-. cbn. lia.
Defined.

(** The Addons walks are forward compatible: every block is a list of TLV
    items and a truncated tail, and both walks see only their own items, the
    last well-sized one in a request, the first in a response; unknown tags and
    the truncated tail change nothing. *)
Theorem addons_walk_spec (block : bytes) :
  exists items tail, block = tlvs items ++ tail /\ Forall wf_item items /\ truncated tail /\
    parse_request_addons block = items_addons items /\
    parse_response_addons_session_id block = snd <$> head (filter is_session_id items).
Proof.
  destruct (block_items block) as (items & tail & -> & Hwf & Ht).
  exists items, tail. split_and!; [done..| |].
  - by apply parse_request_addons_tlvs.
  - by apply response_addons_loop_tlvs.
Qed.

(** [parse_uuid] reads exactly the texts that, without dashes and in lower
    case, are the thirty-two hexadecimal digits of the result. *)
Theorem parse_uuid_iff (s u : bytes) :
  parse_uuid s = Ok u <->
  length u = 16 /\ map lower (undash s) = concat (map lower_hex u).
Proof.
  unfold parse_uuid. split.
  - intros H. apply bind_Ok_inv in H as (hex & Hd & H).
    apply uuid_digits_iff in Hd as (-> & _ & _); [|cbn [length]; lia]. split_guard. cbn [app] in *.
    apply negb_false_iff, bool_decide_eq_true_1 in G.
    apply (uuid_octets_iff 16) in H; [|done]. split; [|done].
    apply (f_equal length) in H. rewrite length_map, concat_lower_hex_length, G in H. lia.
  - intros [Hl H].
    assert (length (undash s) = 32) as H32.
    { rewrite <- (length_map lower), H, concat_lower_hex_length. lia. }
    assert (uuid_digits s [] = Ok (undash s)) as ->.
    { apply uuid_digits_iff; [cbn [length]; lia|]. split_and!; [done | lia |].
      by eapply spelled_digits. }
    cbn. rewrite H32. cbn. by apply (uuid_octets_iff 16).
Qed.
