(* ===== verification/VlessMux.v ===== *)
(** mux.cool frames of the VLESS Mux carrier
    ([crates/outline-wire/src/vless_mux.rs]). *)
From S2P Require Import Prelude Target Vless.

Definition SESSION_STATUS_NEW : byte := x01.
Definition SESSION_STATUS_KEEP : byte := x02.
Definition SESSION_STATUS_END : byte := x03.
Definition SESSION_STATUS_KEEPALIVE : byte := x04.
Definition OPTION_DATA : byte := x01.
Definition NETWORK_TCP : byte := x01.
Definition NETWORK_UDP : byte := x02.
Definition GLOBAL_ID_LEN : nat := 8.
Definition MAX_FRAME_DATA_SIZE : nat := 16 * 1024.

Inductive SessionStatus : Type := New | Keep | End | KeepAlive.
Inductive Network : Type := NetTcp | NetUdp.
#[export] Instance SessionStatus_eq_dec : EqDecision SessionStatus.
Proof. solve_decision. Defined.
#[export] Instance Network_eq_dec : EqDecision Network.
Proof. solve_decision. Defined.

Inductive MuxError : Type :=
  | MetaTooShort
  | MetaTrailing
  | UnknownStatus (v : byte)
  | UnknownNetwork (v : byte)
  | UnknownAddressType (v : byte)
  | InvalidDomain
  | DataTooLarge (n : nat)
  | DomainTooLong (n : nat).

Definition status_from_u8 (v : byte) : result MuxError SessionStatus :=
  if bool_decide (v = SESSION_STATUS_NEW) then Ok New
  else if bool_decide (v = SESSION_STATUS_KEEP) then Ok Keep
  else if bool_decide (v = SESSION_STATUS_END) then Ok End
  else if bool_decide (v = SESSION_STATUS_KEEPALIVE) then Ok KeepAlive
  else Err (UnknownStatus v).
Definition status_as_u8 (s : SessionStatus) : byte :=
  match s with
  | New => SESSION_STATUS_NEW
  | Keep => SESSION_STATUS_KEEP
  | End => SESSION_STATUS_END
  | KeepAlive => SESSION_STATUS_KEEPALIVE
  end.

Definition from_nibble (v : byte) : result MuxError Network :=
  if bool_decide (v = NETWORK_TCP) then Ok NetTcp
  else if bool_decide (v = NETWORK_UDP) then Ok NetUdp
  else Err (UnknownNetwork v).
Definition network_as_u8 (n : Network) : byte :=
  match n with NetTcp => NETWORK_TCP | NetUdp => NETWORK_UDP end.

Record FrameMeta : Type := mkMeta {
  session_id : Z;
  status : SessionStatus;
  option_bits : byte;
  target : option TargetAddr;
  network : option Network;
  global_id : option bytes
}.

(** [option & OPTION_DATA != 0] *)
Definition data_flag (option_bits : byte) : bool :=
  negb (bool_decide (band option_bits OPTION_DATA = x00)).
Definition has_data (m : FrameMeta) : bool := data_flag (option_bits m).

Record ParsedFrame : Type := mkParsed {
  meta : FrameMeta;
  data : option bytes;
  consumed : nat
}.

Definition parse_target (input : bytes) : result MuxError (TargetAddr * Network * nat) :=
  if (length input <? 3)%nat then Err MetaTooShort
  else
    let port := be_val [input !!! 0; input !!! 1] in
    let type_byte := input !!! 2 in
    net ← from_nibble (u8 (Z.shiftr (b2z type_byte) 4));
    let atyp := band type_byte x0f in
    let rest := drop 3 input in
    r ← (if bool_decide (atyp = ATYP_IPV4) then
           if (length rest <? 4)%nat then Err MetaTooShort
           else Ok (IpV4 [rest !!! 0; rest !!! 1; rest !!! 2; rest !!! 3] port, 4)
         else if bool_decide (atyp = ATYP_DOMAIN) then
           if bool_decide (rest = []) then Err MetaTooShort
           else
             let len := Z.to_nat (b2z (rest !!! 0)) in
             if (length rest <? 1 + len)%nat then Err MetaTooShort
             else if utf8_valid (slice rest 1 (1 + len))
             then Ok (Domain (slice rest 1 (1 + len)) port, 1 + len)
             else Err InvalidDomain
         else if bool_decide (atyp = ATYP_IPV6) then
           if (length rest <? 16)%nat then Err MetaTooShort
           else Ok (IpV6 (take 16 rest) port, 16)
         else Err (UnknownAddressType atyp));
    Ok (r.1, net, 3 + r.2).

Definition parse_meta (meta : bytes) : result MuxError (FrameMeta * nat) :=
  if (length meta <? 4)%nat then Err MetaTooShort
  else
    let sid := be_val [meta !!! 0; meta !!! 1] in
    status ← status_from_u8 (meta !!! 2);
    let option_bits := meta !!! 3 in
    match status with
    | New =>
      r ← parse_target (drop 4 meta);
      let '(addr, net, used) := r in
      let cursor := 4 + used in
      match net with
      | NetUdp =>
        if (length meta <? cursor + GLOBAL_ID_LEN)%nat then Err MetaTooShort
        else
          let gid := slice meta cursor (cursor + GLOBAL_ID_LEN) in
          Ok (mkMeta sid status option_bits (Some addr) (Some net) (Some gid),
              cursor + GLOBAL_ID_LEN)
      | NetTcp => Ok (mkMeta sid status option_bits (Some addr) (Some net) None, cursor)
      end
    | Keep =>
      if (4 <? length meta)%nat then
        r ← parse_target (drop 4 meta);
        let '(addr, _, used) := r in
        Ok (mkMeta sid status option_bits (Some addr) None None, 4 + used)
      else Ok (mkMeta sid status option_bits None None None, 4)
    | End | KeepAlive => Ok (mkMeta sid status option_bits None None None, 4)
    end.

Definition parse_frame (input : bytes) : result MuxError (option ParsedFrame) :=
  if (length input <? 2)%nat then Ok None
  else
    let meta_len := Z.to_nat (be_val [input !!! 0; input !!! 1]) in
    if (meta_len <? 4)%nat then Err MetaTooShort
    else if (length input <? 2 + meta_len)%nat then Ok None
    else
      m ← parse_meta (slice input 2 (2 + meta_len));
      let '(meta, meta_consumed) := m in
      if negb (bool_decide (meta_consumed = meta_len)) then Err MetaTrailing
      else
        let cursor := 2 + meta_len in
        if has_data meta then
          if (length input <? cursor + 2)%nat then Ok None
          else
            let data_len := Z.to_nat (be_val [input !!! cursor; input !!! (cursor + 1)]) in
            if (MAX_FRAME_DATA_SIZE <? data_len)%nat then Err (DataTooLarge data_len)
            else
              let cursor := cursor + 2 in
              if (length input <? cursor + data_len)%nat then Ok None
              else Ok (Some (mkParsed meta (Some (slice input cursor (cursor + data_len)))
                               (cursor + data_len)))
        else Ok (Some (mkParsed meta None cursor)).

Definition write_target (out : bytes) (addr : TargetAddr) (net : Network)
    : result MuxError bytes :=
  let type_byte atyp := bor (u8 (Z.shiftl (b2z (network_as_u8 net)) 4)) atyp in
  match addr with
  | IpV4 a port => Ok (out ++ be_bytes 2 port ++ [type_byte ATYP_IPV4] ++ a)
  | IpV6 a port => Ok (out ++ be_bytes 2 port ++ [type_byte ATYP_IPV6] ++ a)
  | Domain host port =>
    if (255 <? length host)%nat then Err (DomainTooLong (length host))
    else Ok (out ++ be_bytes 2 port ++ [type_byte ATYP_DOMAIN; u8 (Z.of_nat (length host))] ++ host)
  end.

(** The meta block; [None] is the panic of the two [expect]s of a [New] frame. *)
Definition encode_meta (session_id : Z) (status : SessionStatus) (option_bits : byte)
    (network : option Network) (target : option TargetAddr) : option (result MuxError bytes) :=
  let meta := be_bytes 2 session_id ++ [status_as_u8 status; option_bits] in
  match status with
  | New =>
    match network, target with
    | Some net, Some addr => Some (write_target meta addr net)
    | _, _ => None
    end
  | Keep =>
    match target with
    | Some addr => Some (write_target meta addr (default NetUdp network))
    | None => Some (Ok meta)
    end
  | End | KeepAlive => Some (Ok meta)
  end.

(** The buffer after the call and the returned [Result]; [None] for a panic. *)
Definition encode_frame (out : bytes) (session_id : Z) (status : SessionStatus)
    (option_bits : byte) (network : option Network) (target : option TargetAddr)
    (data : option bytes) : option (bytes * result MuxError unit) :=
  let data := if data_flag option_bits then data else None in
  match data with
  | Some d =>
    if (MAX_FRAME_DATA_SIZE <? length d)%nat
    then Some (out, Err (DataTooLarge (length d)))
    else
      match encode_meta session_id status option_bits network target with
      | None => None
      | Some (Err e) => Some (out, Err e)
      | Some (Ok meta) =>
        Some (out ++ be_bytes 2 (Z.of_nat (length meta)) ++ meta
                  ++ be_bytes 2 (Z.of_nat (length d)) ++ d, Ok tt)
      end
  | None =>
    match encode_meta session_id status option_bits network target with
    | None => None
    | Some (Err e) => Some (out, Err e)
    | Some (Ok meta) => Some (out ++ be_bytes 2 (Z.of_nat (length meta)) ++ meta, Ok tt)
    end
  end.

(** ** Round trip *)
Section mux_facts.

Definition type_byte (net : Network) (atyp : byte) : byte :=
  bor (u8 (Z.shiftl (b2z (network_as_u8 net)) 4)) atyp.

Lemma type_byte_net net atyp : atyp = ATYP_IPV4 \/ atyp = ATYP_DOMAIN \/ atyp = ATYP_IPV6 ->
  from_nibble (u8 (Z.shiftr (b2z (type_byte net atyp)) 4)) = Ok net /\
  band (type_byte net atyp) x0f = atyp.
Proof. destruct net; intros [->|[->| ->]]; vm_compute; done. Qed.

Definition addr_bytes (t : TargetAddr) (net : Network) : bytes :=
  match t with
  | IpV4 a port => be_bytes 2 port ++ type_byte net ATYP_IPV4 :: a
  | IpV6 a port => be_bytes 2 port ++ type_byte net ATYP_IPV6 :: a
  | Domain host port =>
    be_bytes 2 port ++ type_byte net ATYP_DOMAIN :: u8 (Z.of_nat (length host)) :: host
  end.

Lemma write_target_spec out t net :
  write_target out t net =
  match t with
  | Domain host _ => if (255 <? length host)%nat then Err (DomainTooLong (length host))
                     else Ok (out ++ addr_bytes t net)
  | _ => Ok (out ++ addr_bytes t net)
  end.
Proof. by destruct t. Qed.

Lemma write_target_inv out t net w :
  write_target out t net = Ok w -> short_domain t /\ w = out ++ addr_bytes t net.
Proof.
  rewrite write_target_spec. destruct t; intros H; try split_guard; apply Ok_inj in H as <-;
    split; try done; simpl; lia.
Qed.

Lemma addr_bytes_length t net : wf_target t -> short_domain t ->
  7 <= length (addr_bytes t net) + 3 /\ length (addr_bytes t net) <= 259.
Proof.
  destruct t; simpl; intros [Hh _] Hs; len_simpl; simpl; lia.
Qed.

Lemma parse_target_built t net rest : wf_target t -> short_domain t ->
  parse_target (addr_bytes t net ++ rest) = Ok (t, net, length (addr_bytes t net)).
Proof.
  intros Hwf Hs. unfold parse_target, addr_bytes.
  destruct t as [h p|h p|h p]; destruct Hwf as [Hh Hp]; unfold wf_port in Hp; norm_app;
    (rewrite ltb_false_ge by (len_simpl; simpl; lia));
    rewrite read_u16_head by done; rewrite be_bytes_2; cbn [app lookup_total list_lookup_total drop];
    rewrite ?drop_0.
  - destruct (type_byte_net net ATYP_IPV4) as [-> ->]; [auto|]. cbn [mbind result_bind]. eval_eqs.
    do 4 (destruct h as [|? h]; [simpl in Hh; lia|]). destruct h; [|simpl in Hh; lia]. done.
  - destruct (type_byte_net net ATYP_IPV6) as [-> ->]; [auto|]. cbn [mbind result_bind]. eval_eqs.
    rewrite ltb_false_ge by (len_simpl; lia). rewrite take_app_length' by done.
    cbn. by rewrite Hh.
  - destruct (type_byte_net net ATYP_DOMAIN) as [-> ->]; [auto|]. cbn [mbind result_bind]. eval_eqs.
    rewrite u8_of_nat_len by done. rewrite ltb_false_ge by (len_simpl; simpl; lia).
    assert (slice (u8 (Z.of_nat (length h)) :: h ++ rest) 1 (1 + length h) = h) as ->.
    { rd_slice [u8 (Z.of_nat (length h))] h rest 1 (1 + length h). done. }
    rewrite Hh. cbn. done.
Qed.

(** The frames [encode_frame] can write, as [parse_frame] reports them. *)
Definition wf_meta (m : FrameMeta) : Prop :=
  (0 <= session_id m < 65536)%Z /\ global_id m = None /\
  match status m with
  | New => network m = Some NetTcp /\ exists t, target m = Some t /\ wf_target t
  | Keep => network m = None /\ forall t, target m = Some t -> wf_target t
  | End | KeepAlive => network m = None /\ target m = None
  end.

Lemma parse_meta_built m w : wf_meta m ->
  encode_meta (session_id m) (status m) (option_bits m) (network m) (target m) = Some (Ok w) ->
  parse_meta w = Ok (m, length w) /\ 4 <= length w <= 300.
Proof.
  destruct m as [sid st ob tg nw gid]. unfold wf_meta. cbn.
  intros (Hs & -> & Hst). unfold encode_meta, parse_meta.
  set (hd := be_bytes 2 sid ++ [status_as_u8 st; ob]).
  assert (Hhd : forall l, (length (hd ++ l) <? 4)%nat = false /\
    be_val [(hd ++ l) !!! 0; (hd ++ l) !!! 1] = sid /\
    (hd ++ l) !!! 2 = status_as_u8 st /\ (hd ++ l) !!! 3 = ob /\ drop 4 (hd ++ l) = l /\
    length (hd ++ l) = 4 + length l).
  { intros l. unfold hd. norm_app. split_and!; try (rewrite be_bytes_2; done).
    by apply read_u16_head. }
  assert (Hst' : status_from_u8 (status_as_u8 st) = Ok st) by (by destruct st).
  destruct st; cbn in Hst.
  - destruct Hst as (-> & t & -> & Hwf). intros H. injection H as H.
    apply write_target_inv in H as (Hsd & ->). pose proof (addr_bytes_length t NetTcp Hwf Hsd).
    destruct (Hhd (addr_bytes t NetTcp)) as (-> & -> & -> & -> & -> & ->).
    rewrite Hst'. cbn [mbind result_bind]. rewrite <- (app_nil_r (addr_bytes t NetTcp)) at 1.
    rewrite parse_target_built by done. cbn. split; [done | lia].
  - destruct Hst as (-> & Hwf). destruct tg as [t|]; intros H.
    + injection H as H. specialize (Hwf t eq_refl).
      apply write_target_inv in H as (Hsd & ->). cbn [default].
      pose proof (addr_bytes_length t NetUdp Hwf Hsd).
      destruct (Hhd (addr_bytes t NetUdp)) as (-> & -> & -> & -> & -> & ->).
      rewrite Hst'. cbn [mbind result_bind]. rewrite ltb_true_lt by lia.
      rewrite <- (app_nil_r (addr_bytes t NetUdp)) at 1.
      rewrite parse_target_built by done. cbn. split; [done | lia].
    + injection H as <-. rewrite <- (app_nil_r hd).
      destruct (Hhd []) as (-> & -> & -> & -> & _ & ->). rewrite Hst'. split; [done|cbn; lia].
  - destruct Hst as (-> & ->). intros H. injection H as <-. rewrite <- (app_nil_r hd).
    destruct (Hhd []) as (-> & -> & -> & -> & _ & ->). rewrite Hst'. split; [done|cbn; lia].
  - destruct Hst as (-> & ->). intros H. injection H as <-. rewrite <- (app_nil_r hd).
    destruct (Hhd []) as (-> & -> & -> & -> & _ & ->). rewrite Hst'. split; [done|cbn; lia].
Qed.

(** The payload part of a frame as both sides see it. *)
Definition data_bytes (d : option bytes) : bytes :=
  match d with Some d => be_bytes 2 (Z.of_nat (length d)) ++ d | None => [] end.

(** [encode_frame] in one equation: it appends a whole frame or nothing. *)
Lemma encode_frame_spec out sid st ob nw tg d :
  let d := if data_flag ob then d else None in
  encode_frame out sid st ob nw tg d =
  match d with
  | Some b => if (MAX_FRAME_DATA_SIZE <? length b)%nat then Some (out, Err (DataTooLarge (length b)))
    else match encode_meta sid st ob nw tg with
      | None => None
      | Some (Err e) => Some (out, Err e)
      | Some (Ok m) =>
        Some (out ++ be_bytes 2 (Z.of_nat (length m)) ++ m ++ data_bytes d, Ok tt)
      end
  | None => match encode_meta sid st ob nw tg with
      | None => None
      | Some (Err e) => Some (out, Err e)
      | Some (Ok m) =>
        Some (out ++ be_bytes 2 (Z.of_nat (length m)) ++ m ++ data_bytes d, Ok tt)
      end
  end.
Proof.
  intros d'. unfold encode_frame. assert ((if data_flag ob then d' else None) = d') as ->
    by (unfold d'; by destruct (data_flag ob)).
  destruct d' as [b|]; [done|]. cbn [data_bytes].
  destruct (encode_meta sid st ob nw tg) as [[m|e]|]; [|done..]. by rewrite app_nil_r.
Qed.

Lemma parse_frame_built m d w rest : wf_meta m ->
  (data_flag (option_bits m) = true <-> is_Some d) ->
  (forall b, d = Some b -> length b <= MAX_FRAME_DATA_SIZE) ->
  encode_meta (session_id m) (status m) (option_bits m) (network m) (target m) = Some (Ok w) ->
  let frame := be_bytes 2 (Z.of_nat (length w)) ++ w ++ data_bytes d in
  parse_frame (frame ++ rest) = Ok (Some (mkParsed m d (length frame))).
Proof.
  intros Hm Hd Hmax Hw frame. destruct (parse_meta_built m w Hm Hw) as [Hp Hl].
  unfold parse_frame, frame. norm_app.
  rewrite (ltb_false_ge _ 2) by (len_simpl; lia). rewrite read_u16_head by lia. rewrite Nat2Z.id.
  rewrite (ltb_false_ge _ 4) by lia. rewrite (ltb_false_ge _ (2 + length w)) by (len_simpl; lia).
  rewrite (slice_app_mid _ w (data_bytes d ++ rest) 2 (2 + length w)) by (rewrite be_bytes_length; lia).
  rewrite Hp. cbn [mbind result_bind]. rewrite bool_decide_eq_true_2 by done. cbn [negb].
  unfold has_data. destruct d as [b|].
  - assert (data_flag (option_bits m) = true) as -> by (apply Hd; eauto).
    specialize (Hmax b eq_refl). 
    assert (Z.of_nat MAX_FRAME_DATA_SIZE = 16384%Z) by (vm_compute; reflexivity).
    cbn [data_bytes]. norm_app. rewrite (ltb_false_ge _ (2 + length w + 2)) by (len_simpl; lia).
    rd_u16 (be_bytes 2 (Z.of_nat (length w)) ++ w) (Z.of_nat (length b)) (b ++ rest)
      (2 + length w) (2 + length w + 1).
    rewrite Nat2Z.id. rewrite (ltb_false_ge MAX_FRAME_DATA_SIZE) by done.
    rewrite (ltb_false_ge _ (2 + length w + 2 + length b)) by (len_simpl; lia).
    rd_slice (be_bytes 2 (Z.of_nat (length w)) ++ w ++ be_bytes 2 (Z.of_nat (length b))) b rest
      (2 + length w + 2) (2 + length w + 2 + length b).
    do 3 f_equal. len_simpl. lia.
  - destruct (data_flag (option_bits m)) eqn:E; [destruct (proj1 Hd eq_refl); done|].
    do 3 f_equal. len_simpl. cbn [data_bytes length]. lia.
Qed.

Lemma parse_frame_stable input more :
  parse_frame input <> Ok None -> parse_frame (input ++ more) = parse_frame input.
Proof.
  unfold parse_frame. stable_guard. stable_reads.
  set (n := Z.to_nat _). destruct (n <? 4)%nat; [done|]. stable_guard. stable_reads.
  destruct (parse_meta _) as [[m c]|e]; [cbn [mbind result_bind]|done].
  case_bool_decide; [cbn [negb]|done]. destruct (has_data m); [|done].
  stable_guard. stable_reads. set (k := Z.to_nat _). destruct (_ <? k)%nat; [done|].
  stable_guard. by stable_reads.
Qed.

Lemma parse_target_sound input t net n : parse_target input = Ok (t, net, n) ->
  wf_target t /\ n <= length input.
Proof.
  unfold parse_target. intros H. split_guard. apply bind_Ok_inv in H as (nt & _ & H).
  apply bind_Ok_inv in H as ([t' k] & H & Hr). apply Ok_inj in Hr. cbn [fst snd] in Hr.
  injection Hr as <- <- <-. assert (Hd : length (drop 3 input) = length input - 3)
    by apply length_drop. pose proof (u16_val_range (input !!! 0) (input !!! 1)).
  repeat split_guard; apply Ok_inj in H; injection H as <- <-; unfold wf_target, wf_port;
    (split; [split; [|done]|lia]); [done | done | rewrite length_take; lia].
Qed.

(** What every meta block the parser accepts looks like. *)
Definition parsed_meta_ok (m : FrameMeta) : Prop :=
  (0 <= session_id m < 65536)%Z /\
  (forall t, target m = Some t -> wf_target t) /\
  (is_Some (network m) <-> status m = New) /\
  (status m = New -> is_Some (target m)) /\
  (status m = End \/ status m = KeepAlive -> target m = None) /\
  (is_Some (global_id m) <-> network m = Some NetUdp) /\
  (forall g, global_id m = Some g -> length g = GLOBAL_ID_LEN).

Ltac absent_fields :=
  match goal with H : Ok _ = Ok _ |- _ => apply Ok_inj, pair_equal_spec in H as [<- _] end;
  unfold session_id, target, network, status, global_id; split_and!; try done;
  first [lia | by intros ? [= <-] | by split; intros [? [=]] | by split; [intros [? [=]]|]
        | by intros [?|?]].

Lemma parse_meta_sound b m n : parse_meta b = Ok (m, n) -> parsed_meta_ok m.
Proof.
  unfold parse_meta, parsed_meta_ok. intros H. split_guard. apply bind_Ok_inv in H as (st & _ & H).
  pose proof (u16_val_range (b !!! 0) (b !!! 1)) as Hs. destruct st.
  - apply bind_Ok_inv in H as ([[t net] used] & Ht & H).
    apply parse_target_sound in Ht as [Hwf Hu]. rewrite length_drop in Hu.
    destruct net; [|split_guard]; apply Ok_inj, pair_equal_spec in H as [<- _];
      unfold session_id, target, network, status, global_id; split_and!; try done;
      try lia; try (intros ? [= <-]); try done; try (split; eauto; done); try (intros [?|?]; done); eauto.
    rewrite slice_length; lia.
  - split_guard; [apply bind_Ok_inv in H as ([[t net] used] & Ht & H);
      apply parse_target_sound in Ht as [Hwf _]|];
      absent_fields.
  - absent_fields.
  - absent_fields.
Qed.

Lemma parse_frame_sound input f : parse_frame input = Ok (Some f) ->
  6 <= consumed f <= length input /\ parsed_meta_ok (meta f) /\
  (has_data (meta f) = true <-> is_Some (data f)) /\
  (forall b, data f = Some b -> length b <= MAX_FRAME_DATA_SIZE).
Proof.
  unfold parse_frame. intros H. repeat split_guard.
  apply bind_Ok_inv in H as ([m c] & Hm & H). apply parse_meta_sound in Hm.
  case_bool_decide; [cbn [negb] in H|done].
  destruct (has_data m) eqn:Hd; repeat split_guard;
    apply Ok_inj, (inj Some) in H; subst f; unfold consumed, meta, data; rewrite Hd;
    split_and!; try done; try lia.
  intros b Hb. apply (inj Some) in Hb. subst b. rewrite slice_length; lia.
Qed.
End mux_facts.

(** A frame of the stream as a codec over the fields the caller gives. *)
Definition MuxFrame : Type := FrameMeta * option bytes.
Definition wf_frame (f : MuxFrame) : Prop :=
  wf_meta f.1 /\ (has_data f.1 = true <-> is_Some f.2).
Definition encode_mux (f : MuxFrame) : result MuxError bytes :=
  match encode_frame [] (session_id f.1) (status f.1) (option_bits f.1) (network f.1)
          (target f.1) f.2 with
  | Some (w, Ok _) => Ok w
  | Some (_, Err e) => Err e
  | None => Err MetaTooShort
  end.
Definition decode_mux (input : bytes) : result MuxError (option (MuxFrame * nat)) :=
  o ← parse_frame input;
  match o with
  | Some p => Ok (Some ((meta p, data p), consumed p))
  | None => Ok None
  end.

Lemma encode_mux_inv m d w : wf_frame (m, d) -> encode_mux (m, d) = Ok w ->
  exists mw, encode_meta (session_id m) (status m) (option_bits m) (network m) (target m)
    = Some (Ok mw) /\ w = be_bytes 2 (Z.of_nat (length mw)) ++ mw ++ data_bytes d /\
  (forall b, d = Some b -> length b <= MAX_FRAME_DATA_SIZE).
Proof.
  intros [_ Hd] H. unfold encode_mux in H. cbn [fst snd] in *. unfold has_data in Hd.
  assert (Hd' : (if data_flag (option_bits m) then d else None) = d).
  { destruct (data_flag (option_bits m)), d as [b|]; try done.
    assert (false = true) by (apply Hd; eauto). done. }
  rewrite <- Hd' in H at 1.
  rewrite encode_frame_spec, Hd' in H. destruct d as [b|].
  - destruct (Nat.ltb_spec MAX_FRAME_DATA_SIZE (length b)); [done|].
    destruct (encode_meta _ _ _ _ _) as [[mw|e]|]; [|done..]. apply Ok_inj in H as <-.
    exists mw. split_and!; [done..|]. intros c [= <-]. done.
  - destruct (encode_meta _ _ _ _ _) as [[mw|e]|]; [|done..]. apply Ok_inj in H as <-.
    exists mw. by split_and!.
Qed.

Lemma decode_mux_built m d w rest : wf_frame (m, d) -> encode_mux (m, d) = Ok w ->
  decode_mux (w ++ rest) = Ok (Some ((m, d), length w)).
Proof.
  intros Hwf Hw. destruct (encode_mux_inv m d w Hwf Hw) as (mw & Hm & -> & Hmax).
  destruct Hwf as [Hwm Hd]. unfold decode_mux.
  by rewrite (parse_frame_built m d mw rest Hwm Hd Hmax Hm).
Qed.

Lemma decode_mux_stable input more :
  decode_mux input <> Ok None -> decode_mux (input ++ more) = decode_mux input.
Proof.
  unfold decode_mux. intros H. rewrite parse_frame_stable; [done|]. intros E. by rewrite E in H.
Qed.

Lemma decode_mux_consumed input f n : decode_mux input = Ok (Some (f, n)) -> 0 < n <= length input.
Proof.
  unfold decode_mux. intros H. apply bind_Ok_inv in H as ([p|] & Hp & H); [|done].
  apply Ok_inj in H. injection H as _ <-. apply parse_frame_sound in Hp as [Hp _]. lia.
Qed.

#[export, refine] Instance mux_codec : Codec MuxFrame MuxError := {|
  cwf := wf_frame; cenc := encode_mux; cdec := decode_mux
|}.
Proof.
  - intros [m d] w rest. apply decode_mux_built.
  - intros [m d] w k Hwf Hw Hk. apply (stable_prefix decode_mux (m, d)); [| | |done].
    + apply decode_mux_stable.
    + intros i a n H. apply decode_mux_consumed in H. lia.
    + rewrite <- (app_nil_r w) at 1. by apply decode_mux_built.
  - apply decode_mux_consumed.
Defined.

(** ** Properties *)

(** Framing never desynchronises: a run of frames written by [encode_frame]
    (a TCP [New] frame, [Keep] frames with or without an address, [End],
    [KeepAlive]) followed by a cut-off frame is drained to exactly those
    frames, the cut-off bytes staying buffered. *)
Theorem mux_frames_drain (fs : list MuxFrame) (ws : list bytes) (f : MuxFrame) (w : bytes)
    (k : nat) :
  Forall2 (fun f w => wf_frame f /\ encode_mux f = Ok w) fs ws ->
  wf_frame f -> encode_mux f = Ok w -> k < length w ->
  drain (concat ws ++ take k w) = Ok (fs, take k w).
Proof. intros. by apply (drain_encodings fs ws f). Qed.

Lemma mux_frames_drain_witness :
  let f := (mkMeta 7 Keep OPTION_DATA (Some (IpV4 [x01; x02; x03; x04] 53)) None None,
            Some (str "ping")) in
  exists w, encode_mux f = Ok w /\ drain (w ++ take 9 w) = Ok ([f], take 9 w).
Proof.
  intros f. destruct (encode_mux f) as [w|e] eqn:E; [|vm_compute in E; discriminate].
  exists w. split; [done|].
  assert (wf_frame f).
  { split; [|split; [eauto|reflexivity]]. split_and!; [done..|].
    split; [done|]. intros t [= <-]. vm_compute. split; [done|]. split; [discriminate|done]. }
  rewrite <- (app_nil_r w) at 1.
  apply (mux_frames_drain [f] [w] f w 9); [by apply List.Forall2_cons | done | done |].
  vm_compute in E. injection E as <-. cbn. lia.
Defined.

(** What [parse_frame] accepts is always well formed: the frame lies inside
    the buffer, a payload is present exactly when the option bit says so and is
    at most 16 KiB, a network exactly on [New], a global id (of eight bytes)
    exactly on a UDP [New], a target on [New] and none on [End]. *)
Theorem parse_frame_wf (input : bytes) (f : ParsedFrame) :
  parse_frame input = Ok (Some f) ->
  6 <= consumed f <= length input /\ parsed_meta_ok (meta f) /\
  (has_data (meta f) = true <-> is_Some (data f)) /\
  (forall b, data f = Some b -> length b <= MAX_FRAME_DATA_SIZE).
Proof. apply parse_frame_sound. Qed.

Lemma parse_frame_wf_witness :
  6 <= 14 <= 14 /\ parsed_meta_ok (mkMeta 5 Keep x01 None None None).
Proof.
  destruct (parse_frame_wf ([x00; x04; x00; x05; x02; x01; x00; x06] ++ str "abcdef")
    (mkParsed (mkMeta 5 Keep x01 None None None) (Some (str "abcdef")) 14)) as (H & Hm & _).
  - vm_compute. reflexivity.
  - split; [exact H | exact Hm].
Defined.

(** On any failure [encode_frame] leaves the output buffer untouched, and it
    fails only for an oversized payload or domain; it panics exactly on a [New]
    frame without network or target. *)
Theorem encode_frame_outcome (out : bytes) (sid : Z) (st : SessionStatus) (ob : byte)
    (nw : option Network) (tg : option TargetAddr) (d : option bytes) :
  match encode_frame out sid st ob nw tg d with
  | None => st = New /\ (nw = None \/ tg = None)
  | Some (out', Err (DataTooLarge n)) =>
    out' = out /\ exists b, d = Some b /\ n = length b /\ MAX_FRAME_DATA_SIZE < n
  | Some (out', Err (DomainTooLong n)) =>
    out' = out /\ exists h p, tg = Some (Domain h p) /\ n = length h /\ 255 < n
  | Some (_, Err _) => False
  | Some (out', Ok _) => exists w, out' = out ++ w /\ 6 <= length w
  end.
Proof.
  unfold encode_frame.
  assert (Hm : forall m, encode_meta sid st ob nw tg = Some (Ok m) -> 4 <= length m).
  { intros m. unfold encode_meta. destruct st, nw, tg; try done; intros H; injection H as H;
      try (apply write_target_inv in H as [_ ->]); try subst m; len_simpl; simpl; lia. }
  destruct (encode_meta sid st ob nw tg) as [[m|e]|] eqn:Ee.
  - specialize (Hm m eq_refl).
    destruct (data_flag ob), d as [b|]; try destruct (Nat.ltb_spec MAX_FRAME_DATA_SIZE (length b));
      first [split; [done|]; by exists b | eexists; split; [done|]; len_simpl; lia].
  - assert (He : exists h p, tg = Some (Domain h p) /\ e = DomainTooLong (length h) /\ 255 < length h).
    { clear Hm. revert Ee. unfold encode_meta.
      destruct st, nw as [n|], tg as [t|]; try done; rewrite write_target_spec;
        destruct t as [h p|h p|h p]; try done;
        destruct (Nat.ltb_spec 255 (length h)); intros [= <-]; eauto. }
    destruct He as (h & p & -> & -> & Hh).
    destruct (data_flag ob), d as [b|]; try destruct (Nat.ltb_spec MAX_FRAME_DATA_SIZE (length b));
      split; try done; eauto.
  - assert (st = New /\ (nw = None \/ tg = None)).
    { revert Ee. unfold encode_meta. destruct st, nw, tg; try done; auto. }
    destruct (data_flag ob), d as [b|]; try destruct (Nat.ltb_spec MAX_FRAME_DATA_SIZE (length b));
      try done; split; try done; eauto.
Qed.

(** A UDP [New] frame is outside [wf_meta]: the parser requires the eight
    global-id bytes behind the address and the encoder never writes them. *)
Example new_udp_frame_rejected :
  let w := [x00; x0b; x00; x03; x01; x00; x00; x35; x21; x01; x01; x01; x01] in
  encode_frame [] 3 New x00 (Some NetUdp) (Some (IpV4 [x01; x01; x01; x01] 53)) None
    = Some (w, Ok tt) /\
  parse_frame w = Err MetaTooShort.
Proof. split; vm_compute; reflexivity. Qed.
