(* ===== verification/Xhttp.v ===== *)
(** XHTTP vocabulary: the submode selector, session-id validation and the
    hidden TCP/UDP discriminator ([crates/outline-wire/src/xhttp.rs]). *)
From S2P Require Import Prelude StdText.

Inductive XhttpSubmode : Type := PacketUp | StreamOne.

(** [q.split('&')] *)
Fixpoint split_amp (q cur : bytes) : list bytes :=
  match q with
  | [] => [cur]
  | b :: q => if bool_decide (b = x26) then cur :: split_amp q [] else split_amp q (cur ++ [b])
  end.

Fixpoint first_mode (pairs : list bytes) : XhttpSubmode :=
  match pairs with
  | [] => PacketUp
  | p :: pairs =>
    match strip_prefix (str "mode=") p with
    | Some value =>
      if bool_decide (value = str "stream-one") || bool_decide (value = str "stream_one")
      then StreamOne else PacketUp
    | None => first_mode pairs
    end
  end.

Definition parse_query (query : option bytes) : XhttpSubmode :=
  match query with
  | None => PacketUp
  | Some q => first_mode (split_amp q [])
  end.

Definition as_wire_str (m : XhttpSubmode) : bytes :=
  match m with PacketUp => str "packet-up" | StreamOne => str "stream-one" end.

Definition SESSION_ID_ALPHABET : bytes :=
  str "ABCDEFGHIJKLMNOPQRSTUVWXYZabcdefghijklmnopqrstuvwxyz0123456789".

Definition is_ascii_alphanumeric (b : byte) : bool :=
  in_range 48 57 b || in_range 65 90 b || in_range 97 122 b.

Definition is_valid_session_id (id : bytes) : bool :=
  negb (bool_decide (id = []))
  && (length id <=? 128)%nat
  && forallb (fun b => is_ascii_alphanumeric b
       || bool_decide (b = x2d) || bool_decide (b = x5f) || bool_decide (b = x2e)) id.

Inductive SsPathKind : Type := Tcp | Udp.
#[export] Instance SsPathKind_eq_dec : EqDecision SsPathKind.
Proof. solve_decision. Defined.
Definition bit (k : SsPathKind) : nat := match k with Tcp => 0 | Udp => 1 end.

Definition encode_kind_first_byte (rand_byte : byte) (kind : SsPathKind) : byte :=
  let half := Z.to_nat (b2z rand_byte) mod 31 in
  SESSION_ID_ALPHABET !!! (half * 2 + bit kind).

(** [iter().position(|c| c == first)] *)
Fixpoint position (c : byte) (l : bytes) : option nat :=
  match l with
  | [] => None
  | x :: l => if bool_decide (x = c) then Some 0 else S <$> position c l
  end.

Definition decode_kind (token : bytes) : SsPathKind :=
  match (c ← head token; position c SESSION_ID_ALPHABET) with
  | Some index => if bool_decide (index mod 2 = 1) then Udp else Tcp
  | None => Tcp
  end.

(** ** Correctness *)
Section xhttp_facts.

Definition kind_check (k : SsPathKind) (b : byte) : bool :=
  bool_decide (decode_kind [encode_kind_first_byte b k] = k)
  && is_ascii_alphanumeric (encode_kind_first_byte b k).

Lemma kind_check_all k b : kind_check k b = true.
Proof. revert b. apply byte_forall. destruct k; vm_compute; reflexivity. Qed.

Lemma decode_kind_head c rest : decode_kind (c :: rest) = decode_kind [c].
Proof. done. Qed.

Lemma encode_decode_kind b k rest : decode_kind (encode_kind_first_byte b k :: rest) = k /\
  is_ascii_alphanumeric (encode_kind_first_byte b k) = true.
Proof.
  rewrite decode_kind_head. pose proof (kind_check_all k b) as H. unfold kind_check in H.
  apply andb_prop in H as [H1 H2]. split; [exact (bool_decide_eq_true_1 _ H1) | exact H2].
Qed.

(** The other characters of a token. *)
Definition alphabet_char (b : byte) : byte := SESSION_ID_ALPHABET !!! (Z.to_nat (b2z b) mod 62).
Definition alphabet_check (b : byte) : bool := is_ascii_alphanumeric (alphabet_char b).

Lemma alphabet_char_check b : alphabet_check b = true.
Proof. revert b. apply byte_forall. vm_compute. reflexivity. Qed.

(** The pairs of a query string. *)
Definition no_amp (l : bytes) : Prop := Forall (fun b => b <> x26) l.
Fixpoint join_amp (pairs : list bytes) : bytes :=
  match pairs with
  | [] => []
  | [p] => p
  | p :: pairs => p ++ x26 :: join_amp pairs
  end.

Lemma split_amp_no_amp p cur rest : no_amp p ->
  split_amp (p ++ x26 :: rest) cur = (cur ++ p) :: split_amp rest [].
Proof.
  intros Hp. revert cur. induction Hp as [|b p Hb Hp IH]; intros cur; cbn [app split_amp].
  - eval_eqs. by rewrite app_nil_r.
  - rewrite bool_decide_eq_false_2 by done. by rewrite IH, <- app_assoc.
Qed.

Lemma split_amp_last p cur : no_amp p -> split_amp p cur = [cur ++ p].
Proof.
  intros Hp. revert cur. induction Hp as [|b p Hb Hp IH]; intros cur; cbn [split_amp].
  - by rewrite app_nil_r.
  - rewrite bool_decide_eq_false_2 by done. by rewrite IH, <- app_assoc.
Qed.

Lemma split_amp_join p pairs : Forall no_amp (p :: pairs) ->
  split_amp (join_amp (p :: pairs)) [] = p :: pairs.
Proof.
  revert p. induction pairs as [|q pairs IH]; intros p H; inversion H as [|? ? Hp Hr]; subst.
  - cbn [join_amp]. by rewrite split_amp_last.
  - change (join_amp (p :: q :: pairs)) with (p ++ x26 :: join_amp (q :: pairs)).
    rewrite split_amp_no_amp, IH by done. done.
Qed.

Lemma split_amp_nonempty q cur : split_amp q cur <> [].
Proof. revert cur. induction q as [|b q IH]; intros cur; cbn [split_amp]; [done|]. by case_bool_decide. Qed.

Lemma join_split_amp q cur : no_amp cur ->
  join_amp (split_amp q cur) = cur ++ q /\ Forall no_amp (split_amp q cur).
Proof.
  revert cur. induction q as [|b q IH]; intros cur Hc; cbn [split_amp].
  - rewrite app_nil_r. split; [done | by constructor].
  - case_bool_decide as Hb.
    + destruct (IH [] (Forall_nil_2 _)) as [Hj Hf]. subst b. split; [|by constructor].
      destruct (split_amp q []) as [|p ps] eqn:E; [by destruct (split_amp_nonempty q [])|].
      change (join_amp (cur :: p :: ps)) with (cur ++ x26 :: join_amp (p :: ps)).
      by rewrite Hj.
    + destruct (IH (cur ++ [b])) as [Hj Hf].
      { apply Forall_app. split; [done|]. by apply Forall_singleton. }
      by rewrite Hj, <- app_assoc.
Qed.

Definition is_mode (p : bytes) : Prop := exists v, p = str "mode=" ++ v.

Lemma first_mode_spec pairs :
  first_mode pairs = StreamOne <->
  exists pre v post, pairs = pre ++ (str "mode=" ++ v) :: post /\
    Forall (fun p => ~ is_mode p) pre /\ (v = str "stream-one" \/ v = str "stream_one").
Proof.
  induction pairs as [|p pairs IH]; cbn [first_mode].
  - split; [discriminate|]. intros (pre & v & post & H & _). by destruct pre.
  - destruct (strip_prefix (str "mode=") p) as [v|] eqn:E.
    + apply strip_prefix_spec in E as ->. split.
      * intros H. exists [], v, pairs. split; [done|]. split; [done|].
        destruct (bool_decide_reflect (v = str "stream-one")); [by left|].
        destruct (bool_decide_reflect (v = str "stream_one")); [by right|done].
      * intros (pre & v' & post & H & Hpre & Hv). destruct pre as [|p' pre].
        -- cbn [app] in H. injection H as H _. 
           destruct Hv as [-> | ->]; subst v; done.
        -- injection H as <- _. inversion Hpre as [|? ? Hp]; subst. destruct Hp. by exists v.
    + assert (Hp : ~ is_mode p).
      { intros [v ->]. rewrite (proj2 (strip_prefix_spec (str "mode=") _ v) eq_refl) in E. done. }
      rewrite IH. split; intros (pre & v & post & H & Hpre & Hv).
      * exists (p :: pre), v, post. subst pairs. split; [done|]. split; [by constructor|done].
      * destruct pre as [|p' pre]; injection H as -> H; [by destruct Hp; exists v|].
        exists pre, v, post. inversion Hpre; subst. done.
Qed.
End xhttp_facts.

(** ** Properties *)

(** The hidden discriminator survives the token: whatever random byte the
    client draws and whatever follows the first character, the server decodes
    the kind the client encoded, and the token built on it, with the remaining
    characters drawn from the alphabet, is a valid session id. *)
Theorem path_kind_roundtrip (rand : byte) (kind : SsPathKind) (more : bytes) :
  length more <= 127 ->
  let token := encode_kind_first_byte rand kind
    :: map alphabet_char more in
  decode_kind token = kind /\ is_valid_session_id token = true.
Proof.
  intros Hl token. unfold token. destruct (encode_decode_kind rand kind
    (map alphabet_char more)) as [Hk Ha].
  split; [done|]. unfold is_valid_session_id. cbn [length forallb]. rewrite length_map, Ha.
  rewrite (proj2 (Nat.leb_le _ 128)) by lia. cbn [negb andb orb bool_decide].
  apply forallb_forall. intros c Hc. apply in_map_iff in Hc as (b & <- & _).
  pose proof (alphabet_char_check b) as Hb. unfold alphabet_check in Hb. by rewrite Hb.
Qed.

Lemma path_kind_roundtrip_witness :
  length (str "0123456789") <= 127 /\
  decode_kind (encode_kind_first_byte x2a Udp ::
    map alphabet_char (str "0123456789")) = Udp.
Proof.
  split; [cbn; lia|]. refine (proj1 (path_kind_roundtrip x2a Udp (str "0123456789") _)). cbn. lia.
Defined.

(** The submode selector reads the first [mode=] pair of the query and only
    that one: stream-one is selected exactly when that pair's value is one of
    the two spellings; an absent or unknown value falls back to packet-up. *)
Theorem parse_query_iff (query : option bytes) :
  parse_query query = StreamOne <->
  exists pairs pre v post, query = Some (join_amp pairs) /\ pairs <> [] /\ Forall no_amp pairs /\
    pairs = pre ++ (str "mode=" ++ v) :: post /\
    Forall (fun p => ~ is_mode p) pre /\ (v = str "stream-one" \/ v = str "stream_one").
Proof.
  destruct query as [q|]; cbn [parse_query].
  - rewrite first_mode_spec. split.
    + intros (pre & v & post & H & Hpre & Hv). exists (split_amp q []), pre, v, post.
      destruct (join_split_amp q [] (Forall_nil_2 _)) as [Hj Hf].
      split_and!; [by rewrite Hj | apply split_amp_nonempty | done..].
    + intros (pairs & pre & v & post & [= ->] & Hne & Hf & H & Hpre & Hv).
      exists pre, v, post. destruct pairs as [|p ps]; [done|]. by rewrite split_amp_join.
  - split; [discriminate|]. intros (pairs & pre & v & post & H & _). discriminate.
Qed.
