(* ===== verification/H3Datagram.v ===== *)
(** HTTP/3 datagram framing: the quarter-stream-id varint prefix
    ([crates/outline-wire/src/h3_datagram.rs], [encode_datagram] and
    [decode_datagram]). *)
From S2P Require Import Prelude.
#[local] Open Scope Z_scope.

Definition datagram_overhead (quarter_stream_id : Z) : nat :=
  if quarter_stream_id <=? 63 then 1%nat
  else if quarter_stream_id <=? 16383 then 2%nat
  else if quarter_stream_id <=? 1073741823 then 4%nat
  else 8%nat.

(** The [as u8] / [as u16] / [as u32] casts truncate before the [or]. *)
Definition encode_datagram (quarter_stream_id : Z) (payload : bytes) : bytes :=
  match datagram_overhead quarter_stream_id with
  | 1%nat => be_bytes 1 (quarter_stream_id mod 2 ^ 8)
  | 2%nat => be_bytes 2 (Z.lor 0x4000 (quarter_stream_id mod 2 ^ 16))
  | 4%nat => be_bytes 4 (Z.lor 0x80000000 (quarter_stream_id mod 2 ^ 32))
  | _ => be_bytes 8 (Z.lor 0xc000000000000000 quarter_stream_id)
  end ++ payload.

(** [id = (id << 8) | b] on [u64]. *)
Definition push_id (id : Z) (b : byte) : Z := Z.lor (Z.shiftl id 8 mod 2 ^ 64) (b2z b).

Definition decode_datagram (datagram : bytes) : option (Z * bytes) :=
  match datagram with
  | [] => None
  | first :: _ =>
    let len := Z.to_nat (Z.shiftl 1 (Z.shiftr (b2z first) 6)) in
    if (length datagram <? len)%nat then None
    else
      let id := fold_left push_id (slice datagram 1 len) (Z.land (b2z first) 0x3f) in
      Some (id, drop len datagram)
  end.

(** ** Correctness *)
Section h3_facts.

(** The varint of RFC 9000: the top two bits of the first byte give the size,
    the remaining bits the value. *)
Definition varint_len (first : byte) : nat := Z.to_nat (2 ^ (b2z first / 64)).
Definition varint_val (w : bytes) : Z := be_val w mod 2 ^ (8 * Z.of_nat (length w) - 2).

Lemma first_fields : forall b,
  (Z.shiftl 1 (Z.shiftr (b2z b) 6) =? 2 ^ (b2z b / 64)) && (Z.land (b2z b) 0x3f =? b2z b mod 64)
  && ((varint_len b =? 1) || (varint_len b =? 2) || (varint_len b =? 4) || (varint_len b =? 8))%nat
  = true.
Proof. apply byte_forall. vm_compute. reflexivity. Qed.

Lemma push_id_small id b : 0 <= id < 2 ^ 56 -> push_id id b = 256 * id + b2z b.
Proof.
  intros Hid. unfold push_id. pose proof (b2z_range b).
  rewrite Z.shiftl_mul_pow2 by lia. rewrite Z.mod_small by lia.
  rewrite lor_disjoint by lia. lia.
Qed.

Lemma fold_push_id l id : (length l <= 7)%nat -> 0 <= id < 64 ->
  fold_left push_id l id = be_acc id l.
Proof.
  intros Hl Hid.
  assert (Hgen : forall l k id, (length l + k <= 7)%nat -> 0 <= id < 64 * 256 ^ Z.of_nat k ->
    fold_left push_id l id = be_acc id l).
  { clear. induction l as [|b l IH]; intros k id Hl Hid; cbn [fold_left be_acc]; [done|].
    cbn [length] in Hl. pose proof (b2z_range b).
    assert (256 ^ Z.of_nat k <= 256 ^ 6) by (apply Z.pow_le_mono_r; lia).
    rewrite push_id_small by lia. apply (IH (S k)); [lia|].
    rewrite Nat2Z.inj_succ, Z.pow_succ_r by lia. lia. }
  apply (Hgen l 0%nat id); [lia|]. change (256 ^ Z.of_nat 0) with 1. lia.
Qed.

Lemma decode_datagram_cons first rest :
  decode_datagram (first :: rest) =
  if (length (first :: rest) <? varint_len first)%nat then None
  else Some (varint_val (take (varint_len first) (first :: rest)),
             drop (varint_len first) (first :: rest)).
Proof.
  pose proof (first_fields first) as H. rewrite !andb_true_iff, !orb_true_iff in H.
  destruct H as [[Hs Hm] Hlen]. apply Z.eqb_eq in Hs, Hm. rewrite !Nat.eqb_eq in Hlen.
  cbn [decode_datagram]. rewrite Hs, Hm. fold (varint_len first). set (n := varint_len first) in *.
  destruct (Nat.ltb_spec (length (first :: rest)) n) as [|Hl]; [done|].
  assert (Hn : n <> 0%nat /\ (n <= 8)%nat) by lia. do 2 f_equal.
  assert (Hslice : slice (first :: rest) 1 n = take (n - 1) rest) by done.
  assert (Htake : take n (first :: rest) = first :: take (n - 1) rest).
  { destruct n as [|n']; [lia|]. cbn [take]. do 2 f_equal. lia. }
  rewrite Hslice, Htake. pose proof (Z.mod_pos_bound (b2z first) 64).
  rewrite fold_push_id by (rewrite ?length_take; lia).
  unfold varint_val. rewrite be_acc_shift, be_val_cons. cbn [length] in *.
  rewrite length_take, Nat.min_l by lia. set (k := Z.of_nat (n - 1)).
  replace (8 * Z.of_nat (S (n - 1)) - 2) with (6 + 8 * k) by lia.
  pose proof (be_val_range (take (n - 1) rest)) as Hr.
  rewrite length_take, Nat.min_l in Hr by lia. fold k in Hr.
  replace (2 ^ (6 + 8 * k)) with (256 ^ k * 64)
    by (rewrite Z.pow_add_r, Z.pow_mul_r by lia; change (2 ^ 6) with 64; change (2 ^ 8) with 256; lia).
  assert (0 < 256 ^ k) by (apply Z.pow_pos_nonneg; lia).
  rewrite Z.rem_mul_r by lia.
  rewrite (Z.add_comm (b2z first * 256 ^ k)), Z_mod_plus_full, (Z.mod_small (be_val _)) by done.
  rewrite Z.div_add by lia. rewrite Z.div_small by done. rewrite Z.add_0_l. lia.
Qed.
End h3_facts.

Lemma datagram_overhead_cases q : 0 <= q < 2 ^ 62 -> exists n tag,
  datagram_overhead q = n /\ (1 <= n <= 8)%nat /\ 0 <= tag < 4 /\ 2 ^ tag = Z.of_nat n /\
  0 <= q < 2 ^ (8 * Z.of_nat n - 2) /\
  forall p, encode_datagram q p = be_bytes n (tag * 2 ^ (8 * Z.of_nat n - 2) + q) ++ p.
Proof.
  intros Hq. unfold encode_datagram, datagram_overhead.
  destruct (Z.leb_spec q 63); [|destruct (Z.leb_spec q 16383);
    [|destruct (Z.leb_spec q 1073741823)]].
  - exists 1%nat, 0. split_and!; try done; try lia. intros p. by rewrite Z.mod_small by lia.
  - exists 2%nat, 1. split_and!; try done; try lia. intros p.
    rewrite Z.mod_small by lia. by rewrite (lor_disjoint 1 14) by lia.
  - exists 4%nat, 2. split_and!; try done; try lia. intros p.
    rewrite Z.mod_small by lia. by rewrite (lor_disjoint 2 30) by lia.
  - exists 8%nat, 3. split_and!; try done; try lia. intros p.
    by rewrite (lor_disjoint 3 62) by lia.
Qed.

(** ** Properties *)

(** [decode_datagram] reads exactly the QUIC varint at the head: it fails
    only on an empty datagram or one shorter than the size its first byte
    announces; otherwise the id is the value of that many bytes without the two
    size bits and the payload is the untouched rest. *)
Theorem decode_datagram_spec (d : bytes) :
  decode_datagram d =
  match d with
  | [] => None
  | first :: _ =>
    if (length d <? varint_len first)%nat then None
    else Some (varint_val (take (varint_len first) d), drop (varint_len first) d)
  end.
Proof. destruct d as [|first rest]; [done|]. apply decode_datagram_cons. Qed.

(** Datagram round trip: for every id in the varint range, the encoding is
    [datagram_overhead] bytes longer than the payload and decodes to the same id
    and payload. *)
Theorem datagram_roundtrip (q : Z) (payload : bytes) :
  0 <= q < 2 ^ 62 ->
  decode_datagram (encode_datagram q payload) = Some (q, payload) /\
  length (encode_datagram q payload) = (datagram_overhead q + length payload)%nat.
Proof.
  intros Hq. destruct (datagram_overhead_cases q Hq) as (n & tag & -> & Hn & Ht & Hp & Hr & ->).
  split; [|by rewrite length_app, be_bytes_length].
  set (m := 8 * Z.of_nat n - 2) in *. set (v := tag * 2 ^ m + q).
  assert (0 < 2 ^ m) by (apply Z.pow_pos_nonneg; lia).
  assert (H256 : 256 ^ Z.of_nat n = 4 * 2 ^ m).
  { change 256 with (2 ^ 8). rewrite <- Z.pow_mul_r by lia. change 4 with (2 ^ 2).
    rewrite <- Z.pow_add_r by lia. f_equal. lia. }
  assert (Hv : be_val (be_bytes n v) = v) by (apply be_val_be_bytes_small; unfold v; nia).
  assert (Hl := be_bytes_length n v).
  destruct (be_bytes n v) as [|first rest] eqn:E; [cbn [length] in Hl; lia|].
  assert (Hvl : varint_len first = n).
  { unfold varint_len. rewrite be_val_cons in Hv. cbn [length] in Hl.
    set (k := Z.of_nat (length rest)) in *. pose proof (be_val_range rest). fold k in H0.
    assert (Hm : 2 ^ m = 64 * 256 ^ k).
    { change 256 with (2 ^ 8). rewrite <- Z.pow_mul_r by lia. change 64 with (2 ^ 6).
      rewrite <- Z.pow_add_r by lia. f_equal. unfold m, k. lia. }
    assert (b2z first / 64 = tag) as ->; [|lia].
    assert (0 < 256 ^ k) by (apply Z.pow_pos_nonneg; lia).
    symmetry. apply (Z.div_unique_pos _ _ _ (b2z first - 64 * tag)); [|lia].
    unfold v in Hv. rewrite Hm in *. nia. }
  cbn [app]. rewrite decode_datagram_cons. rewrite Hvl.
  rewrite ltb_false_ge by (cbn [length] in *; rewrite length_app; lia).
  change (first :: rest ++ payload) with ((first :: rest) ++ payload).
  rewrite take_app_length', drop_app_length' by done.
  unfold varint_val. rewrite Hl, Hv. fold m. unfold v.
  rewrite Z.add_comm, Z_mod_plus_full, Z.mod_small by lia. done.
Qed.

Lemma datagram_roundtrip_witness :
  decode_datagram (encode_datagram 16384 (str "x")) = Some (16384, str "x").
Proof. refine (proj1 (datagram_roundtrip 16384 (str "x") _)). lia. Defined.
