(* ===== verification/H3Demux.v ===== *)
(** The HTTP/3 datagram demultiplexer
    ([crates/outline-wire/src/h3_datagram.rs], module [demux]): the routes with
    their generations and tombstones, the bounded queues and their byte
    accounting, and the reader task, as a labelled step relation whose steps
    are the critical sections of the code. *)
From S2P Require Import Prelude H3Datagram.

Definition REGISTRATION_QUEUE_BYTES : Z := 512 * 1024.
Definition CONNECTION_QUEUE_BYTES : Z := 4 * 1024 * 1024.
Definition DATAGRAM_QUEUE : nat := 1024.
(** Durations and instants in nanoseconds since the demux's epoch. *)
Definition QUEUE_STALL : Z := 50 * 1000000.
Definition TOMBSTONE_TTL : Z := 10 * 1000000000.

Inductive DropReason : Type :=
  | UnknownStream | ClosedStream | Malformed | QueueFull | QueueStalled.

(** The shared [Queue] of a registration together with its channel: [chan] is
    what the [mpsc] buffer holds, [rx_open] whether the receiver is alive, and
    [reg_id] the id the [DatagramRegistration] was made for. The counters are
    exact integers here; the accounting theorem keeps them within [0] and the
    budgets, so the atomics never wrap. *)
Record Queue : Type := mkQueue {
  reg_id : Z;
  q_bytes : Z;
  datagrams : nat;
  idle_since : Z;
  chan : list bytes;
  rx_open : bool
}.

Inductive Route : Type :=
  | Live (generation : nat)
  | Closed (at_ : Z).

Record Limits : Type := mkLimits {
  registration_bytes : Z;
  connection_bytes : Z;
  queue_stall : Z
}.
Definition LIMITS : Limits := mkLimits REGISTRATION_QUEUE_BYTES CONNECTION_QUEUE_BYTES QUEUE_STALL.

(** What the reader task holds between looking a route up (under the lock) and
    sending (outside it). *)
Inductive Reader : Type :=
  | Reading
  | Routed (generation : nat) (id : Z) (payload : bytes)
  | Stopped.

(** [queues] lists the queue of every registration ever made, by generation. *)
Record Demux : Type := mkDemux {
  routes : gmap Z Route;
  next_generation : nat;
  closed : bool;
  queued : Z;
  queues : list Queue;
  reader : Reader
}.

Section demux.
Variable limits : Limits.
Variable tombstone_ttl : Z.

Definition demux_new : Demux := mkDemux ∅ 0 false 0 [] Reading.

Definition mark_active (now : Z) (q : Queue) : Queue :=
  mkQueue (reg_id q) (q_bytes q) (datagrams q) now (chan q) (rx_open q).

(** [Queued::new] on the queue's own counters, and [Drop for Queued]. *)
Definition queued_new (now : Z) (payload : bytes) (q : Queue) : Queue :=
  let q' := mkQueue (reg_id q) (q_bytes q + Z.of_nat (length payload)) (S (datagrams q))
              (idle_since q) (chan q) (rx_open q) in
  if bool_decide (datagrams q = 0) then mark_active now q' else q'.
Definition queued_drop (payload : bytes) (q : Queue) : Queue :=
  mkQueue (reg_id q) (q_bytes q - Z.of_nat (length payload)) (datagrams q - 1)
    (idle_since q) (chan q) (rx_open q).
Definition with_chan (c : list bytes) (q : Queue) : Queue :=
  mkQueue (reg_id q) (q_bytes q) (datagrams q) (idle_since q) c (rx_open q).

Definition overflow_reason (q : Queue) (now : Z) : DropReason :=
  if bool_decide (datagrams q = 0) then QueueFull
  else
    let idle := Z.max 0 (now - idle_since q) in
    if (queue_stall limits <=? idle)%Z then QueueStalled else QueueFull.

Definition set_queue (g : nat) (q : Queue) (s : Demux) : Demux :=
  mkDemux (routes s) (next_generation s) (closed s) (queued s) (<[g := q]> (queues s)) (reader s).
Definition set_routes (m : gmap Z Route) (s : Demux) : Demux :=
  mkDemux m (next_generation s) (closed s) (queued s) (queues s) (reader s).
Definition add_queued (n : Z) (s : Demux) : Demux :=
  mkDemux (routes s) (next_generation s) (closed s) (queued s + n) (queues s) (reader s).
Definition set_reader (r : Reader) (s : Demux) : Demux :=
  mkDemux (routes s) (next_generation s) (closed s) (queued s) (queues s) r.

(** [Routes::prune] *)
Definition expired (now : Z) (r : Route) : bool :=
  match r with Closed at_ => (tombstone_ttl <=? Z.max 0 (now - at_))%Z | Live _ => false end.
Definition prune (now : Z) (m : gmap Z Route) : gmap Z Route :=
  filter (fun kv => expired now kv.2 = false) m.

(** [register]: the handle is the generation. *)
Definition register (now id : Z) (s : Demux) : Demux * nat :=
  let q := mark_active now (mkQueue id 0 0 0 [] true) in
  let generation := next_generation s in
  let m := if closed s then routes s else <[id := Live generation]> (routes s) in
  (mkDemux m (S generation) (closed s) (queued s) (queues s ++ [q]) (reader s), generation).

(** [Drop for DatagramRegistration]: the tombstone, then the receiver, whose
    drop releases whatever the channel still holds. *)
Definition current (g : nat) (q : Queue) (s : Demux) : bool :=
  match routes s !! reg_id q with Some (Live g') => bool_decide (g' = g) | _ => false end.
Definition close_rx (q : Queue) : Queue :=
  let q := foldl (fun q p => queued_drop p q) q (chan q) in
  mkQueue (reg_id q) (q_bytes q) (datagrams q) (idle_since q) [] false.
Definition chan_bytes (c : list bytes) : Z := Z.of_nat (sum_list_with length c).
Definition unregister (now : Z) (g : nat) (s : Demux) : option Demux :=
  q ← queues s !! g;
  if rx_open q then
    let s' := if current g q s
              then set_routes (<[reg_id q := Closed now]> (prune now (routes s))) s
              else s in
    Some (set_queue g (close_rx q) (add_queued (- chan_bytes (chan q)) s'))
  else None.

(** [recv] and [try_recv]: the head of the channel, if any. *)
Definition take_queued (now : Z) (g : nat) (s : Demux) : option (Demux * bytes) :=
  q ← queues s !! g;
  if rx_open q then
    match chan q with
    | [] => None
    | p :: c =>
      let q' := queued_drop p (mark_active now (with_chan c q)) in
      Some (set_queue g q' (add_queued (- Z.of_nat (length p)) s), p)
    end
  else None.

(** [recv] returns [None] once the channel is empty and no sender is left. *)
Definition has_sender (g : nat) (q : Queue) (s : Demux) : bool :=
  current g q s || match reader s with Routed g' _ _ => bool_decide (g' = g) | _ => false end.
Definition recv_ended (g : nat) (s : Demux) : Prop :=
  exists q, queues s !! g = Some q /\ chan q = [] /\ has_sender g q s = false.

(** The reader's critical section: find the route of the id. *)
Inductive Lookup : Type := LLive (generation : nat) | LClosed | LUnknown.
Definition lookup_route (now id : Z) (s : Demux) : Demux * Lookup :=
  match routes s !! id with
  | Some (Live g) => (s, LLive g)
  | Some (Closed at_) =>
    if (Z.max 0 (now - at_) <? tombstone_ttl)%Z then (s, LClosed)
    else (set_routes (delete id (routes s)) s, LUnknown)
  | None => (s, LUnknown)
  end.

(** Up to the send: a datagram is routed, or dropped with a reason. *)
Definition on_datagram (now : Z) (datagram : bytes) (s : Demux) : Demux * option DropReason :=
  match decode_datagram datagram with
  | None => (s, Some Malformed)
  | Some (id, payload) =>
    let '(s, l) := lookup_route now id s in
    match l with
    | LLive g => (set_reader (Routed g id payload) s, None)
    | LClosed => (s, Some ClosedStream)
    | LUnknown => (s, Some UnknownStream)
    end
  end.

(** The send: both budgets, then the channel. [TrySendError::Closed] is silent. *)
Inductive Sent : Type := Accepted | Dropped (r : DropReason) | Ignored.
Definition deliver (now : Z) (g : nat) (payload : bytes) (s : Demux) : Demux * Sent :=
  match queues s !! g with
  | None => (s, Ignored)
  | Some q =>
    let len := Z.of_nat (length payload) in
    if (registration_bytes limits <? q_bytes q + len)%Z
    then (s, Dropped (overflow_reason q now))
    else if (connection_bytes limits <? queued s + len)%Z
    then (s, Dropped (overflow_reason q now))
    else
      let q' := queued_new now payload q in
      let s' := add_queued len s in
      if negb (rx_open q) then
        (set_queue g (queued_drop payload q') (add_queued (- len) s'), Ignored)
      else if (DATAGRAM_QUEUE <=? length (chan q))%nat then
        (set_queue g (queued_drop payload q') (add_queued (- len) s'),
         Dropped (overflow_reason q' now))
      else (set_queue g (with_chan (chan q ++ [payload]) q') s', Accepted)
  end.

(** End of the reader: the connection closed. *)
Definition shutdown (s : Demux) : Demux :=
  mkDemux ∅ (next_generation s) true (queued s) (queues s) Stopped.

(** ** The step relation

    Labels record what an observer of the demux sees. *)
Inductive event : Type :=
  | ERegister (g : nat) (id : Z)
  | EUnregister (g : nat)
  | ERead (g : nat) (payload : bytes)
  | ERouted (id : Z) (payload : bytes)
  | EAccepted (g : nat) (id : Z) (payload : bytes)
  | EDropped (r : DropReason)
  | EIgnored
  | EShutdown.

Inductive step : Demux -> event -> Demux -> Prop :=
  | step_register now id s s' g :
      register now id s = (s', g) -> step s (ERegister g id) s'
  | step_unregister now g s s' :
      unregister now g s = Some s' -> step s (EUnregister g) s'
  | step_read now g s s' p :
      take_queued now g s = Some (s', p) -> step s (ERead g p) s'
  | step_routed now d s s' id p :
      reader s = Reading -> decode_datagram d = Some (id, p) ->
      on_datagram now d s = (s', None) -> step s (ERouted id p) s'
  | step_dropped now d s s' r :
      reader s = Reading -> on_datagram now d s = (s', Some r) -> step s (EDropped r) s'
  | step_send now g id p s s' o :
      reader s = Routed g id p -> deliver now g p s = (s', o) ->
      step s (match o with
              | Accepted => EAccepted g id p | Dropped r => EDropped r | Ignored => EIgnored
              end) (set_reader Reading s')
  | step_shutdown s : reader s = Reading -> step s EShutdown (shutdown s).

Inductive run : Demux -> list event -> Prop :=
  | run_new : run demux_new []
  | run_step s tr e s' : run s tr -> step s e s' -> run s' (tr ++ [e]).
End demux.

(** ** Invariants *)
Section demux_facts.
Context (limits : Limits) (tombstone_ttl : Z).
Hypothesis limits_nonneg : (0 <= registration_bytes limits)%Z /\ (0 <= connection_bytes limits)%Z.

Record queue_ok (q : Queue) : Prop := mk_queue_ok {
  qk_bytes : q_bytes q = chan_bytes (chan q);
  qk_count : datagrams q = length (chan q);
  qk_full : length (chan q) <= DATAGRAM_QUEUE;
  qk_budget : (q_bytes q <= registration_bytes limits)%Z;
  qk_closed : rx_open q = false -> chan q = []
}.

Fixpoint total (qs : list Queue) : Z :=
  match qs with [] => 0 | q :: qs => q_bytes q + total qs end.

Record demux_ok (s : Demux) : Prop := mk_demux_ok {
  dk_queues : Forall queue_ok (queues s);
  dk_total : queued s = total (queues s);
  dk_budget : (queued s <= connection_bytes limits)%Z;
  dk_gen : next_generation s = length (queues s);
  dk_live id g : routes s !! id = Some (Live g) ->
    exists q, queues s !! g = Some q /\ reg_id q = id /\ rx_open q = true;
  dk_closed : closed s = true -> routes s = ∅;
  dk_routed g id p : reader s = Routed g id p ->
    exists q, queues s !! g = Some q /\ reg_id q = id
}.

Lemma total_app a b : total (a ++ b) = (total a + total b)%Z.
Proof. induction a; cbn [app total]; lia. Qed.

Lemma total_insert qs g q q' : qs !! g = Some q ->
  total (<[g := q']> qs) = (total qs - q_bytes q + q_bytes q')%Z.
Proof.
  intros H. rewrite insert_take_drop by (by eapply lookup_lt_Some).
  assert (Hq : total qs = total (take g qs ++ q :: drop (S g) qs))
    by (by rewrite take_drop_middle).
  rewrite Hq, !total_app. cbn [total]. lia.
Qed.

Lemma chan_bytes_app a b : chan_bytes (a ++ b) = (chan_bytes a + chan_bytes b)%Z.
Proof. unfold chan_bytes. rewrite sum_list_with_app. lia. Qed.
Lemma chan_bytes_cons p c : chan_bytes (p :: c) = (Z.of_nat (length p) + chan_bytes c)%Z.
Proof. unfold chan_bytes. cbn. lia. Qed.

Lemma close_rx_spec q : close_rx q =
  mkQueue (reg_id q) (q_bytes q - chan_bytes (chan q)) (datagrams q - length (chan q))
    (idle_since q) [] false.
Proof.
  unfold close_rx.
  assert (H : forall c q, let q' := foldl (fun q p => queued_drop p q) q c in
    reg_id q' = reg_id q /\ q_bytes q' = (q_bytes q - chan_bytes c)%Z /\
    datagrams q' = datagrams q - length c /\ idle_since q' = idle_since q).
  { induction c as [|p c IH]; intros r; cbn [foldl length].
    - change (chan_bytes []) with 0%Z. split_and!; (done || lia).
    - destruct (IH (queued_drop p r)) as (-> & -> & -> & ->). rewrite chan_bytes_cons.
      cbn [queued_drop reg_id q_bytes datagrams idle_since]. split_and!; (done || lia). }
  destruct (H (chan q) q) as (-> & -> & -> & ->). done.
Qed.

(** Replacing one queue by another of the same registration. *)
Lemma set_queue_ok s g q q' n :
  demux_ok s -> queues s !! g = Some q -> queue_ok q' -> reg_id q' = reg_id q ->
  n = (q_bytes q' - q_bytes q)%Z -> (queued s + n <= connection_bytes limits)%Z ->
  (rx_open q' = true \/ rx_open q = false \/ current g q s = false) ->
  demux_ok (set_queue g q' (add_queued n s)).
Proof.
  intros [Hq Ht Hb Hg Hl Hc Hr] Hlk Hok Hid -> Hbud Hopen.
  assert (Hlt := lookup_lt_Some _ _ _ Hlk).
  constructor; cbn [set_queue add_queued queues queued routes next_generation closed reader].
  - by apply Forall_insert.
  - rewrite (total_insert _ _ _ _ Hlk), Ht. lia.
  - done.
  - by rewrite length_insert.
  - intros id h Hrt. destruct (Hl id h Hrt) as (x & Hx & Hxid & Hxo).
    destruct (decide (h = g)) as [->|Hne].
    + rewrite Hlk in Hx. injection Hx as <-. exists q'. rewrite list_lookup_insert_eq by done.
      split_and!; [done | congruence |]. destruct Hopen as [Ho|[Ho|Ho]]; [done | congruence |].
      unfold current in Ho. rewrite Hxid, Hrt in Ho. apply bool_decide_eq_false_1 in Ho. done.
    + exists x. rewrite list_lookup_insert_ne by congruence. done.
  - done.
  - intros h id p Hrd. destruct (Hr h id p Hrd) as (x & Hx & Hxid).
    destruct (decide (h = g)) as [->|Hne].
    + rewrite Hlk in Hx. injection Hx as <-. exists q'. rewrite list_lookup_insert_eq by done.
      split; congruence.
    + exists x. by rewrite list_lookup_insert_ne by congruence.
Qed.

Lemma set_routes_ok m s : demux_ok s ->
  (forall id g, m !! id = Some (Live g) -> routes s !! id = Some (Live g)) ->
  (closed s = true -> m = ∅) -> demux_ok (set_routes m s).
Proof. intros [Hq Ht Hb Hg Hl Hc Hr] Hm Hcl. by constructor; auto. Qed.

Lemma set_reader_ok r s : demux_ok s ->
  (forall g id p, r = Routed g id p -> exists q, queues s !! g = Some q /\ reg_id q = id) ->
  demux_ok (set_reader r s).
Proof. intros [Hq Ht Hb Hg Hl Hc Hr] Hm. by constructor. Qed.

Lemma prune_live now m id g :
  prune tombstone_ttl now m !! id = Some (Live g) <-> m !! id = Some (Live g).
Proof.
  unfold prune. rewrite map_lookup_filter_Some. split; [tauto|]. intros H. split; [done|].
  done.
Qed.

Lemma demux_new_ok : demux_ok demux_new.
Proof.
  constructor; cbn; try tauto; try done.
Qed.

Lemma register_ok now id s s' g : demux_ok s -> register now id s = (s', g) -> demux_ok s'.
Proof.
  intros [Hq Ht Hb Hg Hl Hc Hr] H. unfold register in H. apply pair_equal_spec in H as [<- <-].
  constructor; cbn [queues queued routes next_generation closed reader].
  - apply Forall_app. split; [done|]. apply Forall_singleton. constructor; cbn; try done; [lia|].
    destruct limits_nonneg; lia.
  - rewrite total_app. cbn. lia.
  - done.
  - rewrite length_app. cbn. lia.
  - intros id' g' Hrt.
    assert (Hold : routes s !! id' = Some (Live g') -> exists q,
      (queues s ++ [mark_active now (mkQueue id 0 0 0 [] true)]) !! g' = Some q /\
      reg_id q = id' /\ rx_open q = true).
    { intros Ho. destruct (Hl _ _ Ho) as (q & Hlk & ?). exists q.
      rewrite lookup_app_l by (by eapply lookup_lt_Some). done. }
    destruct (closed s); [by apply Hold|].
    destruct (decide (id' = id)) as [->|Hne].
    + rewrite lookup_insert_eq in Hrt. injection Hrt as <-. eexists.
      rewrite Hg, list_lookup_middle by done. done.
    + rewrite lookup_insert_ne in Hrt by done. by apply Hold.
  - intros Hcl. rewrite Hcl. by apply Hc.
  - intros h id' p Hrd. destruct (Hr _ _ _ Hrd) as (q & Hlk & ?). exists q.
    rewrite lookup_app_l by (by eapply lookup_lt_Some). done.
Qed.

Lemma queue_lookup_ok s g q : demux_ok s -> queues s !! g = Some q -> queue_ok q.
Proof. intros [Hq _ _ _ _ _ _] H. by eapply (Forall_lookup_1 _ _ _ _ Hq). Qed.

Lemma chan_bytes_nonneg c : (0 <= chan_bytes c)%Z.
Proof. unfold chan_bytes. lia. Qed.

Lemma unregister_ok now g s s' :
  demux_ok s -> unregister tombstone_ttl now g s = Some s' -> demux_ok s'.
Proof.
  intros Hok H. unfold unregister in H. destruct (queues s !! g) as [q|] eqn:Hlk; [|done].
  cbn in H. destruct (rx_open q) eqn:Hopen; [|done]. injection H as <-.
  pose proof (queue_lookup_ok _ _ _ Hok Hlk) as [Qb Qc Qf Qg Qo].
  assert (Hclose : queue_ok (close_rx q)).
  { rewrite close_rx_spec. constructor; cbn; try done; change (chan_bytes []) with 0%Z;
      destruct limits_nonneg; lia. }
  set (s1 := if current g q s then _ else s).
  assert (demux_ok s1 /\ queues s1 = queues s /\ queued s1 = queued s /\ current g q s1 = false)
    as (Hok1 & Hqs & Hqd & Hcur).
  { unfold s1. destruct (current g q s) eqn:Hcur; [|done]. split_and!; try done.
    - apply set_routes_ok; [done| |].
      + intros id h Hrt. destruct (decide (id = reg_id q)) as [->|Hne].
        * by rewrite lookup_insert_eq in Hrt.
        * rewrite lookup_insert_ne in Hrt by done. by apply prune_live in Hrt.
      + intros Hcl. unfold current in Hcur. by rewrite (dk_closed _ Hok Hcl), lookup_empty in Hcur.
    - unfold current. cbn [set_routes routes]. by rewrite lookup_insert_eq. }
  apply (set_queue_ok _ _ q); [done | by rewrite Hqs | done | by rewrite close_rx_spec | | | auto].
  - rewrite close_rx_spec. cbn. lia.
  - pose proof (chan_bytes_nonneg (chan q)). destruct Hok. lia.
Qed.

Lemma take_queued_ok now g s s' p :
  demux_ok s -> take_queued now g s = Some (s', p) -> demux_ok s'.
Proof.
  intros Hok H. unfold take_queued in H. destruct (queues s !! g) as [q|] eqn:Hlk; [|done].
  cbn in H. destruct (rx_open q) eqn:Hopen; [|done].
  destruct (chan q) as [|p' c] eqn:Hch; [done|].
  apply (inj Some), pair_equal_spec in H as [<- <-].
  pose proof (queue_lookup_ok _ _ _ Hok Hlk) as [Qb Qc Qf Qg Qo].
  rewrite Hch, ?chan_bytes_cons in *. cbn [length] in *. pose proof (chan_bytes_nonneg c).
  apply (set_queue_ok _ _ q); [done | done | | done | | | auto].
  - constructor; cbn; try done; try lia. congruence.
  - cbn. lia.
  - destruct Hok. lia.
Qed.

Lemma lookup_route_ok now id s s' l :
  demux_ok s -> lookup_route tombstone_ttl now id s = (s', l) ->
  demux_ok s' /\ queues s' = queues s /\ reader s' = reader s /\
  forall g, l = LLive g -> exists q, queues s' !! g = Some q /\ reg_id q = id.
Proof.
  intros Hok H. unfold lookup_route in H.
  destruct (routes s !! id) as [[g|at_]|] eqn:Hrt.
  - injection H as <- <-. split_and!; try done. intros h [= <-].
    destruct (dk_live _ Hok _ _ Hrt) as (q & ? & ? & _). by exists q.
  - destruct (Z.ltb_spec (Z.max 0 (now - at_)) tombstone_ttl); injection H as <- <-;
      split_and!; try done. apply set_routes_ok; [done| |].
    + intros id' g Hd. by apply lookup_delete_Some in Hd as [_ Hd].
    + intros Hcl. by rewrite (dk_closed _ Hok Hcl), lookup_empty in Hrt.
  - injection H as <- <-. by split_and!.
Qed.

Lemma on_datagram_ok now d s s' o :
  demux_ok s -> on_datagram tombstone_ttl now d s = (s', o) -> demux_ok s'.
Proof.
  intros Hok H. unfold on_datagram in H.
  destruct (decode_datagram d) as [[id p]|]; [|by injection H as <- <-].
  destruct (lookup_route tombstone_ttl now id s) as [s1 l] eqn:El.
  apply lookup_route_ok in El as (Hok1 & _ & _ & Hl); [|done].
  destruct l as [g| |]; injection H as <- <-; [|done..].
  apply set_reader_ok; [done|]. intros g' id' p' [= <- <- <-]. by apply Hl.
Qed.

Lemma queued_new_spec now p q : queued_new now p q =
  mkQueue (reg_id q) (q_bytes q + Z.of_nat (length p)) (S (datagrams q))
    (if bool_decide (datagrams q = 0) then now else idle_since q) (chan q) (rx_open q).
Proof. unfold queued_new. by case_bool_decide. Qed.

Lemma deliver_ok now g p s s' o :
  demux_ok s -> deliver limits now g p s = (s', o) -> demux_ok s'.
Proof.
  intros Hok H. unfold deliver in H. destruct (queues s !! g) as [q|] eqn:Hlk;
    [|by injection H as <- <-].
  pose proof (queue_lookup_ok _ _ _ Hok Hlk) as [Qb Qc Qf Qg Qo].
  destruct (Z.ltb_spec (registration_bytes limits) (q_bytes q + Z.of_nat (length p)));
    [by injection H as <- <-|].
  destruct (Z.ltb_spec (connection_bytes limits) (queued s + Z.of_nat (length p)));
    [by injection H as <- <-|].
  assert (Hreject : demux_ok (set_queue g (queued_drop p (queued_new now p q))
    (add_queued (- Z.of_nat (length p)) (add_queued (Z.of_nat (length p)) s)))).
  { assert (add_queued (- Z.of_nat (length p)) (add_queued (Z.of_nat (length p)) s) =
      add_queued 0 s) as -> by (unfold add_queued; cbn; f_equal; lia).
    rewrite queued_new_spec.
    apply (set_queue_ok _ _ q); [done | done | | done | cbn; lia | destruct Hok; lia |].
    - constructor; cbn; try done; lia.
    - cbn. destruct (rx_open q); auto. }
  destruct (rx_open q) eqn:Hopen; cbn [negb] in H; [|by injection H as <- <-].
  destruct (Nat.leb_spec DATAGRAM_QUEUE (length (chan q))); injection H as <- <-; [done|].
  rewrite queued_new_spec.
  apply (set_queue_ok _ _ q); [done | done | | done | cbn; lia | lia |].
  - constructor; unfold with_chan; cbn [q_bytes datagrams chan rx_open];
      rewrite ?chan_bytes_app, ?chan_bytes_cons, ?length_app; cbn [length]; try lia.
    + change (chan_bytes []) with 0%Z. lia.
    + congruence.
  - left. done.
Qed.

Lemma step_ok s e s' : demux_ok s -> step limits tombstone_ttl s e s' -> demux_ok s'.
Proof.
  intros Hok H. destruct H.
  - by eapply register_ok.
  - by eapply unregister_ok.
  - by eapply take_queued_ok.
  - by eapply on_datagram_ok.
  - by eapply on_datagram_ok.
  - apply set_reader_ok; [by eapply deliver_ok | done].
  - destruct Hok. by constructor.
Qed.

Lemma run_ok s tr : run limits tombstone_ttl s tr -> demux_ok s.
Proof. induction 1; [apply demux_new_ok | by eapply step_ok]. Qed.

(** ** Traces: what a registration was given and what it read *)
Definition acc (g : nat) (e : event) : list bytes :=
  match e with EAccepted g' _ p => if bool_decide (g' = g) then [p] else [] | _ => [] end.
Definition rd (g : nat) (e : event) : list bytes :=
  match e with ERead g' p => if bool_decide (g' = g) then [p] else [] | _ => [] end.
Definition accepted (g : nat) (tr : list event) : list bytes := tr ≫= acc g.
Definition reads (g : nat) (tr : list event) : list bytes := tr ≫= rd g.

Lemma accepted_snoc g tr e : accepted g (tr ++ [e]) = accepted g tr ++ acc g e.
Proof. unfold accepted. rewrite bind_app. cbn. by rewrite app_nil_r. Qed.
Lemma reads_snoc g tr e : reads g (tr ++ [e]) = reads g tr ++ rd g e.
Proof. unfold reads. rewrite bind_app. cbn. by rewrite app_nil_r. Qed.

(** How one step changes the channel of registration [g]. *)
Inductive chan_step (g : nat) (e : event) : option Queue -> option Queue -> Prop :=
  | cs_none : acc g e = [] -> rd g e = [] -> chan_step g e None None
  | cs_new q : acc g e = [] -> rd g e = [] -> chan q = [] -> rx_open q = true ->
      chan_step g e None (Some q)
  | cs_open q q' : reg_id q' = reg_id q -> rx_open q = true -> rx_open q' = true ->
      rd g e ++ chan q' = chan q ++ acc g e -> chan_step g e (Some q) (Some q')
  | cs_closed q q' : reg_id q' = reg_id q -> rx_open q' = false -> acc g e = [] -> rd g e = [] ->
      chan_step g e (Some q) (Some q').

Lemma chan_step_same g e o : acc g e = [] -> rd g e = [] -> chan_step g e o o.
Proof.
  intros Ha Hr. destruct o as [q|]; [|by constructor].
  destruct (rx_open q) eqn:E; [|by apply cs_closed].
  apply cs_open; [done..|]. by rewrite Ha, Hr, app_nil_r.
Qed.

Lemma chan_step_insert g h e (qs : list Queue) q q' : qs !! h = Some q ->
  (g <> h -> acc g e = [] /\ rd g e = []) ->
  chan_step h e (Some q) (Some q') ->
  chan_step g e (qs !! g) (<[h := q']> qs !! g).
Proof.
  intros Hlk Hne Hst. destruct (decide (g = h)) as [->|Hd].
  - by rewrite list_lookup_insert_eq, Hlk by (by eapply lookup_lt_Some).
  - rewrite list_lookup_insert_ne by done. destruct (Hne Hd). by apply chan_step_same.
Qed.

Lemma set_routes_queues m s : queues (set_routes m s) = queues s.
Proof. done. Qed.

Lemma step_chan s e s' g : demux_ok s -> step limits tombstone_ttl s e s' ->
  chan_step g e (queues s !! g) (queues s' !! g).
Proof.
  intros Hok H. destruct H as
    [now id s s' h H|now h s s' H|now h s s' p H|now d s s' id p Hr Hd H|now d s s' r Hr H
    |now h id p s s' o Hr H|s Hr].
  - unfold register in H. apply pair_equal_spec in H as [<- <-]. cbn [queues].
    destruct (decide (g < length (queues s))) as [Hlt|Hge].
    + rewrite lookup_app_l by done. by apply chan_step_same.
    + rewrite (lookup_ge_None_2 (queues s) g), lookup_app_r by lia.
      destruct (g - length (queues s)) as [|k] eqn:E; cbn; by constructor.
  - unfold unregister in H. destruct (queues s !! h) as [q|] eqn:Hlk; [|done]. cbn in H.
    destruct (rx_open q); [|done]. injection H as <-. cbn [set_queue queues add_queued].
    assert (queues (if current h q s then
      set_routes (<[reg_id q:=Closed now]> (prune tombstone_ttl now (routes s))) s else s) = queues s)
      as -> by (by destruct (current h q s)).
    apply (chan_step_insert _ _ _ _ q); [done..|].
    apply cs_closed; [by rewrite close_rx_spec|done..].
  - unfold take_queued in H. destruct (queues s !! h) as [q|] eqn:Hlk; [|done]. cbn in H.
    destruct (rx_open q) eqn:Ho; [|done]. destruct (chan q) as [|p' c] eqn:Hch; [done|].
    apply (inj Some), pair_equal_spec in H as [<- <-]. cbn [set_queue queues add_queued].
    apply (chan_step_insert _ _ _ _ q); [done| |].
    + intros Hne. split; [done|]. cbn. by rewrite bool_decide_eq_false_2 by done.
    + apply cs_open; [done..|]. cbn. by rewrite bool_decide_eq_true_2, Hch, app_nil_r by done.
  - unfold on_datagram in H. rewrite Hd in H.
    destruct (lookup_route tombstone_ttl now id s) as [s1 l] eqn:El.
    apply lookup_route_ok in El as (_ & Hq & _); [|done].
    destruct l; [|done..]. injection H as <-. cbn. rewrite Hq. by apply chan_step_same.
  - assert (queues s' = queues s) as ->; [|by apply chan_step_same].
    unfold on_datagram in H. destruct (decode_datagram d) as [[id p]|]; [|by injection H as <-].
    destruct (lookup_route tombstone_ttl now id s) as [s1 l] eqn:El.
    apply lookup_route_ok in El as (_ & Hq & _); [|done].
    destruct l; by simplify_eq.
  - cbn [set_reader queues]. unfold deliver in H.
    destruct (queues s !! h) as [q|] eqn:Hlk; [|injection H as <- <-; by apply chan_step_same].
    destruct (Z.ltb _ _); [injection H as <- <-; by apply chan_step_same|].
    destruct (Z.ltb _ _); [injection H as <- <-; by apply chan_step_same|].
    rewrite queued_new_spec in H. destruct (rx_open q) eqn:Ho; cbn [negb] in H.
    + destruct (Nat.leb _ _); injection H as <- <-; cbn [set_queue queues add_queued].
      * apply (chan_step_insert _ _ _ _ q); [done..|]. apply cs_open; [done..|].
        cbn. by rewrite app_nil_r.
      * apply (chan_step_insert _ _ _ _ q); [done| |].
        -- intros Hne. split; [|done]. cbn. by rewrite bool_decide_eq_false_2.
        -- apply cs_open; [done..|]. cbn. by rewrite bool_decide_eq_true_2.
    + injection H as <- <-. cbn [set_queue queues add_queued].
      apply (chan_step_insert _ _ _ _ q); [done..|]. by apply cs_closed.
  - by apply chan_step_same.
Qed.

Definition fifo (s : Demux) (tr : list event) (g : nat) : Prop :=
  match queues s !! g with
  | None => accepted g tr = [] /\ reads g tr = []
  | Some q => if rx_open q then accepted g tr = reads g tr ++ chan q
              else reads g tr `prefix_of` accepted g tr
  end.

Lemma run_fifo s tr g : run limits tombstone_ttl s tr -> fifo s tr g.
Proof.
  induction 1 as [|s tr e s' Hrun IH Hst]; [done|].
  pose proof (step_chan _ _ _ g (run_ok _ _ Hrun) Hst) as Hc. unfold fifo in *.
  rewrite accepted_snoc, reads_snoc.
  inversion Hc as [Ha Hr Ho Hn|q Ha Hr Hch Hop Ho Hn|q q' _ Hop Hop' Heq Ho Hn
    |q q' _ Hop' Ha Hr Ho Hn];
    rewrite <- Ho in IH; rewrite ?Ha, ?Hr, ?app_nil_r.
  - done.
  - rewrite Hop, Hch, app_nil_r. destruct IH as [-> ->]. done.
  - rewrite Hop in IH. rewrite Hop', IH, <- !app_assoc. by f_equal.
  - rewrite Hop'. destruct (rx_open q); [rewrite IH; by apply prefix_app_r | done].
Qed.

(** A datagram is accepted only by a registration of its own id. *)
Lemma step_accepts s g id p s' : demux_ok s ->
  step limits tombstone_ttl s (EAccepted g id p) s' ->
  exists q, queues s !! g = Some q /\ reg_id q = id.
Proof.
  intros Hok H. inversion H as [| | | | |now h i p' s0 s1 o Hr Hd|]; subst.
  destruct o; simplify_eq. by apply (dk_routed _ Hok _ _ p).
Qed.

Lemma run_accepted_id s tr g id p : run limits tombstone_ttl s tr ->
  EAccepted g id p ∈ tr -> exists q, queues s !! g = Some q /\ reg_id q = id.
Proof.
  induction 1 as [|s tr e s' Hrun IH Hst]; intros Hin; [by apply not_elem_of_nil in Hin|].
  assert (exists q, queues s !! g = Some q /\ reg_id q = id) as (q & Hlk & Hid).
  { apply elem_of_app in Hin as [Hin|Hin]; [by apply IH|].
    apply list_elem_of_singleton in Hin. subst e. by apply (step_accepts _ _ _ p _ (run_ok _ _ Hrun) Hst). }
  pose proof (step_chan _ _ _ g (run_ok _ _ Hrun) Hst) as Hc. rewrite Hlk in Hc.
  inversion Hc as [| |? q' Hi Ha Hb Hd He Hf|? q' Hi Ha Hb Hd He Hf]; subst; by exists q'.
Qed.

Lemma deliver_dropped_noop now g p s s' r : demux_ok s ->
  deliver limits now g p s = (s', Dropped r) -> s' = s.
Proof.
  intros Hok H. unfold deliver in H. destruct (queues s !! g) as [q|] eqn:Hlk; [|done].
  pose proof (queue_lookup_ok _ _ _ Hok Hlk) as [Qb Qc Qf Qg Qo].
  destruct (Z.ltb _ _); [by injection H|]. destruct (Z.ltb _ _); [by injection H|].
  destruct (rx_open q); [cbn [negb] in H|done].
  destruct (Nat.leb_spec DATAGRAM_QUEUE (length (chan q))) as [Hfull|]; [|done].
  apply pair_equal_spec in H as [<- _]. rewrite queued_new_spec.
  rewrite bool_decide_eq_false_2 by (unfold DATAGRAM_QUEUE in Hfull; lia).
  unfold queued_drop, set_queue, add_queued. cbn.
  assert (mkQueue (reg_id q) (q_bytes q + Z.of_nat (length p) - Z.of_nat (length p))
    (datagrams q - 0) (idle_since q) (chan q) (rx_open q) = q) as ->.
  { destruct q. cbn. f_equal; lia. }
  rewrite list_insert_id by done. destruct s. cbn. f_equal. lia.
Qed.
End demux_facts.

(** ** Properties *)

(** Byte accounting: in every reachable state of the demux, whatever the
    interleaving of registrations, drops, reads and datagrams, each queue's
    counters are exactly the bytes and datagrams waiting in its channel, the
    connection counter is their sum, every budget holds, and a dropped
    registration holds nothing: each datagram is released exactly once. *)
Theorem demux_accounting (s : Demux) (tr : list event) :
  run LIMITS TOMBSTONE_TTL s tr ->
  queued s = total (queues s) /\ (0 <= queued s <= CONNECTION_QUEUE_BYTES)%Z /\
  forall g q, queues s !! g = Some q ->
    q_bytes q = chan_bytes (chan q) /\ datagrams q = length (chan q) /\
    (0 <= q_bytes q <= REGISTRATION_QUEUE_BYTES)%Z /\ length (chan q) <= DATAGRAM_QUEUE /\
    (rx_open q = false -> chan q = []).
Proof.
  intros H. apply run_ok in H as [Hq Ht Hb _ _ _ _]; [|split; vm_compute; discriminate].
  assert (Hnn : forall qs, Forall (queue_ok LIMITS) qs -> (0 <= total qs)%Z).
  { induction 1 as [|q qs Hqo _ IH]; cbn [total]; [lia|].
    rewrite (qk_bytes _ _ Hqo). pose proof (chan_bytes_nonneg (chan q)). lia. }
  split_and!; [done | rewrite Ht; by apply Hnn | done |].
  intros g q Hlk. destruct (Forall_lookup_1 _ _ _ _ Hq Hlk) as [Qb Qc Qf Qg Qo].
  pose proof (chan_bytes_nonneg (chan q)). split_and!; try done; lia.
Qed.

(** A run that registers stream 5, accepts one datagram for it and reads it. *)
Example demux_run : exists s, run LIMITS TOMBSTONE_TTL s
  [ERegister 0 5; ERouted 5 (str "ping"); EAccepted 0 5 (str "ping"); ERead 0 (str "ping")].
Proof.
  assert (H1 : exists s, run LIMITS TOMBSTONE_TTL s [ERegister 0 5] /\ s = (register 7 5 demux_new).1).
  { eexists. split; [|reflexivity]. apply (run_step _ _ demux_new []); [constructor|].
    by apply (step_register _ _ 7). }
  destruct H1 as (s1 & H1 & E1).
  assert (H2 : exists s, run LIMITS TOMBSTONE_TTL s [ERegister 0 5; ERouted 5 (str "ping")]
    /\ s = (on_datagram TOMBSTONE_TTL 8 (encode_datagram 5 (str "ping")) s1).1).
  { eexists. split; [|reflexivity]. apply (run_step _ _ s1 [ERegister 0 5]); [done|].
    subst s1. by apply (step_routed _ _ 8 (encode_datagram 5 (str "ping"))). }
  destruct H2 as (s2 & H2 & E2).
  pose proof (step_send LIMITS TOMBSTONE_TTL 9 0 5 (str "ping") s2 _ _
    ltac:(subst s2 s1; reflexivity) ltac:(subst s2 s1; vm_compute; reflexivity)) as Hs.
  cbn match in Hs. pose proof (run_step _ _ _ _ _ _ H2 Hs) as H3. cbn [app] in H3.
  eexists. eapply (run_step _ _ _ [ERegister 0 5; ERouted 5 (str "ping"); EAccepted 0 5 (str "ping")]);
    [exact H3|]. apply (step_read _ _ 10). vm_compute. reflexivity.
Qed.

Lemma demux_accounting_witness :
  exists s tr, run LIMITS TOMBSTONE_TTL s tr /\ tr <> [] /\ queued s = total (queues s).
Proof.
  destruct demux_run as [s Hs]. do 2 eexists. split; [exact Hs|]. split; [done|].
  exact (proj1 (demux_accounting s _ Hs)).
Defined.

(** Delivery is FIFO per registration: in every reachable state, what a live
    registration has read followed by what waits in its channel is exactly what
    was accepted for it, in order (nothing lost, duplicated or reordered after
    acceptance), a dropped one has read a prefix, and a datagram is only ever
    accepted by a registration of its own stream id. *)
Theorem demux_fifo (s : Demux) (tr : list event) (g : nat) :
  run LIMITS TOMBSTONE_TTL s tr ->
  match queues s !! g with
  | None => accepted g tr = [] /\ reads g tr = []
  | Some q => if rx_open q then accepted g tr = reads g tr ++ chan q
              else reads g tr `prefix_of` accepted g tr
  end /\
  forall id p, EAccepted g id p ∈ tr -> exists q, queues s !! g = Some q /\ reg_id q = id.
Proof.
  intros H. assert (Hl : (0 <= registration_bytes LIMITS)%Z /\ (0 <= connection_bytes LIMITS)%Z)
    by (split; vm_compute; discriminate).
  split; [exact (run_fifo _ _ Hl s tr g H)|].
  intros id p Hin. exact (run_accepted_id _ _ Hl s tr g id p H Hin).
Qed.

Lemma demux_fifo_witness :
  exists s tr, run LIMITS TOMBSTONE_TTL s tr /\
  exists q, queues s !! 0 = Some q /\ reg_id q = 5%Z.
Proof.
  destruct demux_run as [s Hs]. do 2 eexists. split; [exact Hs|].
  apply (proj2 (demux_fifo s _ 0 Hs) 5%Z (str "ping")).
  right; right; left.
Defined.

(** Tombstones: after the current registration of an id is dropped, a
    datagram for that id within the TTL is counted as the tail of a closed
    stream and afterwards as an unknown stream, its tombstone being removed;
    dropping a registration that was replaced leaves the newer route alone. *)
Theorem tombstone_window (ttl now later : Z) (g : nat) (q : Queue) (s s' : Demux)
    (d p : bytes) :
  queues s !! g = Some q -> unregister ttl now g s = Some s' -> (now <= later)%Z ->
  decode_datagram d = Some (reg_id q, p) ->
  if current g q s
  then on_datagram ttl later d s' =
    (if (later - now <? ttl)%Z then (s', Some ClosedStream)
     else (set_routes (delete (reg_id q) (routes s')) s', Some UnknownStream))
  else routes s' = routes s.
Proof.
  intros Hlk H Ht Hd. unfold unregister in H. rewrite Hlk in H. cbn in H.
  destruct (rx_open q); [|done]. injection H as <-. destruct (current g q s); [|done].
  unfold on_datagram, lookup_route. rewrite Hd. cbn [set_queue add_queued set_routes routes].
  rewrite lookup_insert_eq, Z.max_r by lia. by destruct (later - now <? ttl)%Z.
Qed.

Lemma tombstone_window_witness :
  exists s', unregister TOMBSTONE_TTL 20 0 (register 7 5 demux_new).1 = Some s' /\
  on_datagram TOMBSTONE_TTL (20 + TOMBSTONE_TTL) (encode_datagram 5 []) s' =
    (set_routes (delete 5%Z (routes s')) s', Some UnknownStream).
Proof.
  eexists. split; [reflexivity|].
  refine (tombstone_window TOMBSTONE_TTL 20 (20 + TOMBSTONE_TTL) 0 (mkQueue 5 0 0 7 [] true)
    (register 7 5 demux_new).1 _ (encode_datagram 5 []) [] _ _ _ _);
    [reflexivity | reflexivity | unfold TOMBSTONE_TTL; lia | reflexivity].
Defined.

(** A counted drop costs nothing: in every reachable state, under any
    budgets, a send that reports an overflow leaves the whole demux exactly as it
    was, and it is reported as a stall only if datagrams are waiting and the
    consumer's clock has been idle for the stall time. *)
Theorem overflow_drop_noop (limits : Limits) (ttl now : Z) (g : nat) (p : bytes)
    (s s' : Demux) (r : DropReason) (tr : list event) :
  (0 <= registration_bytes limits)%Z /\ (0 <= connection_bytes limits)%Z ->
  (0 < queue_stall limits)%Z ->
  run limits ttl s tr -> deliver limits now g p s = (s', Dropped r) ->
  s' = s /\ (r = QueueFull \/ r = QueueStalled) /\
  (r = QueueStalled -> exists q, queues s !! g = Some q /\ 0 < datagrams q /\
     (queue_stall limits <= now - idle_since q)%Z).
Proof.
  intros Hlim Hstall Hrun H. pose proof (run_ok _ _ Hlim _ _ Hrun) as Hok.
  pose proof (deliver_dropped_noop _ _ _ _ _ _ _ Hok H) as ->. split; [done|].
  unfold deliver in H. destruct (queues s !! g) as [q|] eqn:Hlk; [|done].
  pose proof (queue_lookup_ok _ _ _ _ Hok Hlk) as Hq.
  enough (exists b, (datagrams b = datagrams q \/ 0 < datagrams q) /\
    (0 < datagrams q -> idle_since b = idle_since q) /\ r = overflow_reason limits b now)
    as (b & Hb & Hi & ->).
  { unfold overflow_reason. case_bool_decide as H0; [split; [by left|done]|].
    destruct (Z.leb_spec (queue_stall limits) (Z.max 0 (now - idle_since b))); [|split; [by left|done]].
    split; [by right|]. intros _. exists q. rewrite Hi in * by lia. split_and!; [done | lia | lia]. }
  destruct (Z.ltb _ _); [injection H as <-; exists q; auto|].
  destruct (Z.ltb _ _); [injection H as <-; exists q; auto|].
  destruct (rx_open q); cbn [negb] in H; [|done].
  destruct (Nat.leb_spec DATAGRAM_QUEUE (length (chan q))) as [Hf|]; [|done].
  apply pair_equal_spec in H as [_ H]. injection H as <-. eexists. split; [|split; [|reflexivity]].
  - right. rewrite (qk_count _ _ Hq). unfold DATAGRAM_QUEUE in Hf. lia.
  - intros H0. rewrite queued_new_spec. cbn. by rewrite bool_decide_eq_false_2 by lia.
Qed.

Lemma overflow_drop_noop_witness :
  let limits := mkLimits 3 10 50 in
  let s := (register 7 5 demux_new).1 in
  deliver limits 9 0 (str "ping") s = (s, Dropped QueueFull) /\
  (QueueFull = QueueFull \/ QueueFull = QueueStalled).
Proof.
  intros limits s. split; [reflexivity|].
  refine (proj1 (proj2 (overflow_drop_noop limits 100 9 0 (str "ping") s s QueueFull
    [ERegister 0 5] _ _ _ _))); [split; discriminate | reflexivity | | reflexivity].
  apply (run_step _ _ demux_new []); [constructor|]. by apply (step_register _ _ 7).
Defined.
