(* ===== verification/Socks5.v ===== *)
(** The SOCKS5 server handshake ([crates/socks5-proto/src/handshake.rs],
    [constants.rs], [error.rs]) over a byte-stream monad. *)
From S2P Require Import Prelude Target.

Definition SOCKS_VERSION : byte := x05.
Definition SOCKS_CMD_CONNECT : byte := x01.
Definition SOCKS_CMD_UDP_ASSOCIATE : byte := x03.
Definition SOCKS_CMD_UDP_IN_TCP : byte := x05.
Definition SOCKS_METHOD_NO_AUTH : byte := x00.
Definition SOCKS_METHOD_USERNAME_PASSWORD : byte := x02.
Definition SOCKS_METHOD_NO_ACCEPTABLE : byte := xff.
Definition SOCKS_REP_COMMAND_NOT_SUPPORTED : byte := x07.
Definition SOCKS_REP_ADDRESS_NOT_SUPPORTED : byte := x08.

(** The source of an [Io] error is the operating system's and is dropped. *)
Inductive Socks5Error : Type :=
  | Io (context : String.string)
  | UnsupportedVersion (v : byte)
  | UnsupportedCommand (c : byte)
  | UnsupportedAuthMethod
  | UnsupportedAuthVersion (v : byte)
  | InvalidCredentials
  | InvalidRequestVersion (v : byte)
  | ReservedByteNonZero
  | UdpPacketTooShort
  | InvalidUdpReservedBytes
  | InvalidUdpFragmentZero
  | OutOfOrderUdpFragment (n : byte)
  | FragmentTargetChanged
  | ReassemblyCapExceeded (projected limit : Z)
  | InvalidUdpInTcpHeaderLen (n : nat)
  | UdpInTcpHeaderMismatch
  | UdpInTcpFrameTooLarge (field : String.string)
  | SUnsupportedAddressType (a : byte)
  | SShortAddress (kind : String.string)
  | SDomainTooLong
  | SDomainNotUtf8
  | EmptyAddressBuffer.

(** [impl From<TargetAddrError> for Socks5Error] *)
Definition from_target_error (e : TargetAddrError) : Socks5Error :=
  match e with
  | EmptyBuffer => EmptyAddressBuffer
  | ShortAddress kind => SShortAddress kind
  | UnsupportedAddressType a => SUnsupportedAddressType a
  | DomainTooLong => SDomainTooLong
  | DomainNotUtf8 => SDomainNotUtf8
  end.

(** ** The stream

    What is left to read before the peer's end of stream, what has been
    written, and whether the peer still takes writes. An operation keeps the
    stream even when it fails, as the replies before an error are sent. *)
Record Stream : Type := mkStream { input : bytes; output : bytes; writable : bool }.
Definition M (A : Type) : Type := Stream -> result Socks5Error A * Stream.
#[export] Instance M_ret : MRet M := fun A a s => (Ok a, s).
#[export] Instance M_bind : MBind M := fun A B k m s =>
  match m s with (Ok a, s') => k a s' | (Err e, s') => (Err e, s') end.
Definition fail {A} (e : Socks5Error) : M A := fun s => (Err e, s).
Definition lift {A} (r : result Socks5Error A) : M A := fun s => (r, s).

(** [read_exact], which consumes the rest of a short stream before failing. *)
Definition read_exact (n : nat) (context : String.string) : M bytes := fun s =>
  if (length (input s) <? n)%nat then (Err (Io context), mkStream [] (output s) (writable s))
  else (Ok (take n (input s)), mkStream (drop n (input s)) (output s) (writable s)).
Definition write_all (b : bytes) (context : String.string) : M unit := fun s =>
  if writable s then (Ok tt, mkStream (input s) (output s ++ b) (writable s))
  else (Err (Io context), s).
(** [.await.ok()] *)
Definition ignore {A} (m : M A) : M unit := fun s => (Ok tt, (m s).2).

(** ** The handshake *)
Record Socks5AuthUserConfig : Type := mkUser { username : bytes; password : bytes }.
Definition Socks5AuthConfig : Type := list Socks5AuthUserConfig.

Inductive SocksRequest : Type :=
  | Connect (t : TargetAddr)
  | UdpAssociate (t : TargetAddr)
  | UdpInTcp (t : TargetAddr).

Definition UNSPECIFIED : TargetAddr := IpV4 [x00; x00; x00; x00] 0.

Definition constant_time_eq (a b : bytes) : bool :=
  if negb (bool_decide (length a = length b)) then false
  else bool_decide (foldl (fun diff xy => bor diff (bxor xy.1 xy.2)) x00 (zip a b) = x00).

Definition matches_socks5_user (users : Socks5AuthConfig) (u p : bytes) : bool :=
  existsb (fun user => constant_time_eq u (username user) && constant_time_eq p (password user))
    users.

Definition read_auth_field (len_context value_context : String.string) : M bytes :=
  len ← read_exact 1 len_context;
  read_exact (Z.to_nat (b2z (len !!! 0))) value_context.

Definition send_reply (status : byte) (bound_addr : TargetAddr) : M unit :=
  w ← lift (map_err from_target_error (to_wire_bytes bound_addr));
  write_all ([SOCKS_VERSION; status; x00] ++ w) "writing SOCKS reply".

Definition authenticate_username_password (auth : Socks5AuthConfig) : M unit :=
  version ← read_exact 1 "reading username/password auth version";
  if negb (bool_decide (version !!! 0 = x01)) then
    _ ← ignore (write_all [x01; x01] "");
    fail (UnsupportedAuthVersion (version !!! 0))
  else
    u ← read_auth_field "reading username length" "reading username";
    p ← read_auth_field "reading password length" "reading password";
    if negb (matches_socks5_user auth u p) then
      _ ← ignore (write_all [x01; x01] "");
      fail InvalidCredentials
    else write_all [x01; x00] "writing username/password auth response".

Definition read_port : M Z :=
  port ← read_exact 2 "reading target port";
  mret (be_val port).

Definition read_target_addr (atyp : byte) : M TargetAddr :=
  if bool_decide (atyp = SOCKS_ATYP_IPV4) then
    raw ← read_exact 4 "reading IPv4 target address";
    port ← read_port;
    mret (IpV4 raw port)
  else if bool_decide (atyp = SOCKS_ATYP_IPV6) then
    raw ← read_exact 16 "reading IPv6 target address";
    port ← read_port;
    mret (IpV6 raw port)
  else if bool_decide (atyp = SOCKS_ATYP_DOMAIN) then
    len ← read_exact 1 "reading domain length";
    raw ← read_exact (Z.to_nat (b2z (len !!! 0))) "reading domain bytes";
    port ← read_port;
    if utf8_valid raw then mret (Domain raw port) else fail SDomainNotUtf8
  else
    _ ← ignore (send_reply SOCKS_REP_ADDRESS_NOT_SUPPORTED UNSPECIFIED);
    fail (SUnsupportedAddressType atyp).

(** The method selection: what the server answers and what it then demands. *)
Definition select_method (auth : option Socks5AuthConfig) (methods : bytes) : M unit :=
  match auth with
  | Some auth =>
    if negb (bool_decide (SOCKS_METHOD_USERNAME_PASSWORD ∈ methods)) then
      _ ← ignore (write_all [SOCKS_VERSION; SOCKS_METHOD_NO_ACCEPTABLE] "");
      fail UnsupportedAuthMethod
    else
      _ ← write_all [SOCKS_VERSION; SOCKS_METHOD_USERNAME_PASSWORD] "writing method selection";
      authenticate_username_password auth
  | None =>
    if negb (bool_decide (SOCKS_METHOD_NO_AUTH ∈ methods)) then
      _ ← ignore (write_all [SOCKS_VERSION; SOCKS_METHOD_NO_ACCEPTABLE] "");
      fail UnsupportedAuthMethod
    else write_all [SOCKS_VERSION; SOCKS_METHOD_NO_AUTH] "writing method selection"
  end.

Definition negotiate (auth : option Socks5AuthConfig) : M SocksRequest :=
  header ← read_exact 2 "reading method negotiation header";
  if negb (bool_decide (header !!! 0 = SOCKS_VERSION)) then
    fail (UnsupportedVersion (header !!! 0))
  else
    methods ← read_exact (Z.to_nat (b2z (header !!! 1))) "reading authentication methods";
    _ ← select_method auth methods;
    request ← read_exact 4 "reading request header";
    if negb (bool_decide (request !!! 0 = SOCKS_VERSION)) then
      fail (InvalidRequestVersion (request !!! 0))
    else if negb (bool_decide (request !!! 2 = x00)) then fail ReservedByteNonZero
    else
      target ← read_target_addr (request !!! 3);
      if bool_decide (request !!! 1 = SOCKS_CMD_CONNECT) then mret (Connect target)
      else if bool_decide (request !!! 1 = SOCKS_CMD_UDP_ASSOCIATE) then mret (UdpAssociate target)
      else if bool_decide (request !!! 1 = SOCKS_CMD_UDP_IN_TCP) then mret (UdpInTcp target)
      else
        _ ← ignore (send_reply SOCKS_REP_COMMAND_NOT_SUPPORTED UNSPECIFIED);
        fail (UnsupportedCommand (request !!! 1)).

(** ** Successful runs

    [ran m s a s']: the operation returns [a], leaving the stream [s']. *)
Definition ran {A} (m : M A) (s : Stream) (a : A) (s' : Stream) : Prop := m s = (Ok a, s').

Section monad_facts.
Context {A B : Type}.

Lemma ran_bind (m : M A) (k : A -> M B) s b s' :
  ran (m ≫= k) s b s' <-> exists a s1, ran m s a s1 /\ ran (k a) s1 b s'.
Proof.
  unfold ran, mbind, M_bind. destruct (m s) as [[a|e] s1]; split.
  - intros H. by exists a, s1.
  - intros (a' & s2 & [= <- <-] & H). done.
  - done.
  - by intros (a' & s2 & [=] & H).
Qed.

Lemma bind_ran (m : M A) (k : A -> M B) s a s1 : ran m s a s1 -> (m ≫= k) s = k a s1.
Proof. unfold ran, mbind, M_bind. by intros ->. Qed.

Lemma ran_ret (a b : A) s s' : ran (mret a) s b s' <-> a = b /\ s = s'.
Proof. unfold ran, mret, M_ret. split; [by intros [= <- <-] | by intros [<- <-]]. Qed.

Lemma ran_fail e (a : A) s s' : ran (fail e) s a s' <-> False.
Proof. by unfold ran, fail. Qed.

Lemma ran_lift (r : result Socks5Error A) a s s' : ran (lift r) s a s' <-> r = Ok a /\ s = s'.
Proof. unfold ran, lift. split; [by intros [= -> ->] | by intros [-> ->]]. Qed.
End monad_facts.

(** What is left after reading [b], and after writing [b]. *)
Definition reads (s : Stream) (b : bytes) (s' : Stream) : Prop :=
  input s = b ++ input s' /\ output s' = output s /\ writable s' = writable s.
Definition writes (s : Stream) (b : bytes) (s' : Stream) : Prop :=
  writable s = true /\ s' = mkStream (input s) (output s ++ b) true.

Lemma ran_read n c s b s' : ran (read_exact n c) s b s' <-> length b = n /\ reads s b s'.
Proof.
  unfold ran, read_exact, reads. destruct s as [i o w], s' as [i' o' w']. cbn. split.
  - destruct (Nat.ltb_spec (length i) n); [done|]. intros [= <- <- <- <-].
    rewrite take_drop, length_take. split_and!; (done || lia).
  - intros (<- & -> & -> & ->). rewrite ltb_false_ge by (rewrite length_app; lia).
    by rewrite take_app_length, drop_app_length.
Qed.

Lemma ran_write b c s u s' : ran (write_all b c) s u s' <-> writes s b s'.
Proof.
  unfold ran, write_all, writes. destruct u. destruct s as [i o w]. cbn. destruct w; split.
  - by intros [= <-].
  - by intros [_ ->].
  - done.
  - by intros [[=] _].
Qed.

Create Rewrite HintDb socks.
#[export] Hint Rewrite @ran_bind @ran_ret @ran_fail @ran_lift ran_read ran_write : socks.

Lemma reads_app s a b s' :
  reads s (a ++ b) s' <-> exists s1, reads s a s1 /\ reads s1 b s'.
Proof.
  unfold reads. split.
  - intros (Hi & Ho & Hw). exists (mkStream (b ++ input s') (output s) (writable s)).
    cbn. rewrite app_assoc. auto.
  - intros (s1 & (Hi & Ho & Hw) & (Hi' & Ho' & Hw')). rewrite Hi, Hi', <- app_assoc.
    split_and!; congruence.
Qed.

(** ** Credentials *)
Definition or_zero_check (a b : byte) : bool :=
  Bool.eqb (bool_decide (bor a b = x00)) (bool_decide (a = x00) && bool_decide (b = x00)).
Definition xor_zero_check (a b : byte) : bool :=
  Bool.eqb (bool_decide (bxor a b = x00)) (bool_decide (a = b)).
Lemma or_zero_checked a b : or_zero_check a b = true.
Proof. revert a b. apply byte_forall2. vm_compute. reflexivity. Qed.
Lemma xor_zero_checked a b : xor_zero_check a b = true.
Proof. revert a b. apply byte_forall2. vm_compute. reflexivity. Qed.

Lemma bor_zero a b : bor a b = x00 <-> a = x00 /\ b = x00.
Proof.
  pose proof (Bool.eqb_prop _ _ (or_zero_checked a b)) as H.
  rewrite <- (bool_decide_eq_true (bor a b = x00)), H, andb_true_iff, !bool_decide_eq_true. done.
Qed.

Lemma bxor_zero a b : bxor a b = x00 <-> a = b.
Proof.
  pose proof (Bool.eqb_prop _ _ (xor_zero_checked a b)) as H.
  by rewrite <- (bool_decide_eq_true (bxor a b = x00)), H, bool_decide_eq_true.
Qed.

Lemma diff_fold l d : foldl (fun diff xy => bor diff (bxor xy.1 xy.2)) d l = x00 <->
  d = x00 /\ Forall (fun xy => xy.1 = xy.2) l.
Proof.
  revert d. induction l as [|[x y] l IH]; intros d; cbn [foldl fst snd].
  - split; [auto | tauto].
  - rewrite IH, bor_zero, bxor_zero, Forall_cons. cbn. tauto.
Qed.

Lemma constant_time_eq_spec a b : constant_time_eq a b = bool_decide (a = b).
Proof.
  unfold constant_time_eq. case_bool_decide as Hl; cbn [negb].
  - apply bool_decide_ext. rewrite diff_fold.
    revert b Hl. induction a as [|x a IH]; intros [|y b] Hl; try discriminate; [done|].
    cbn [zip zip_with length] in *. rewrite Forall_cons. cbn [fst snd].
    specialize (IH b ltac:(lia)). split.
    + intros (_ & -> & H). f_equal. apply IH. auto.
    + intros [= -> ->]. split; [done|]. split; [done|]. by apply IH.
  - rewrite bool_decide_eq_false_2; [done|]. by intros ->.
Qed.

Lemma matches_socks5_user_iff users u p :
  matches_socks5_user users u p = true <-> mkUser u p ∈ users.
Proof.
  unfold matches_socks5_user. rewrite existsb_exists. split.
  - intros ([u' p'] & Hin & H). rewrite !constant_time_eq_spec, andb_true_iff, !bool_decide_eq_true in H.
    cbn in H. destruct H as [-> ->]. by apply list_elem_of_In.
  - intros H. apply list_elem_of_In in H. eexists. split; [done|]. cbn.
    by rewrite !constant_time_eq_spec, !bool_decide_eq_true_2.
Qed.

(** ** What a successful handshake read and wrote *)
Lemma ran_length_prefixed c1 c2 s b s' :
  ran (len ← read_exact 1 c1; read_exact (Z.to_nat (b2z (len !!! 0))) c2) s b s' <->
  length b <= 255 /\ reads s (u8 (Z.of_nat (length b)) :: b) s'.
Proof.
  rewrite ran_bind. split.
  - intros (len & s1 & H1 & H2). autorewrite with socks in *.
    destruct H1 as [Hl H1], H2 as [Hb H2]. destruct len as [|x [|? ?]]; try discriminate.
    cbn [lookup_total list_lookup_total] in Hb. rewrite Hb, u8_to_nat_len.
    split; [rewrite <- Hb; pose proof (to_nat_b2z_lt x); lia|].
    apply (reads_app s [x] b). by exists s1.
  - intros [Hl H]. apply (reads_app s [_] b) in H as (s1 & H1 & H2).
    exists [u8 (Z.of_nat (length b))], s1. autorewrite with socks.
    cbn [lookup_total list_lookup_total]. by rewrite u8_of_nat_len.
Qed.

Lemma ran_read_port s p s' : ran read_port s p s' <-> wf_port p /\ reads s (be_bytes 2 p) s'.
Proof.
  unfold read_port. rewrite ran_bind. split.
  - intros (b & s1 & H1 & H2). autorewrite with socks in *. destruct H1 as [Hl H1], H2 as [<- <-].
    pose proof (be_val_range b) as Hr. rewrite Hl in Hr. split; [done|].
    by rewrite <- Hl, be_bytes_be_val.
  - intros [Hp H]. exists (be_bytes 2 p), s'. autorewrite with socks.
    rewrite be_bytes_length, be_val_u16 by done. done.
Qed.

(** A field followed by the port. *)
Lemma ran_then_port (m : M bytes) (k : bytes -> Z -> M TargetAddr) s t s' :
  ran (raw ← m; port ← read_port; k raw port) s t s' <->
  exists raw p s1 s2, ran m s raw s1 /\ wf_port p /\ reads s1 (be_bytes 2 p) s2 /\ ran (k raw p) s2 t s'.
Proof.
  rewrite ran_bind. split.
  - intros (raw & s1 & H1 & H2). apply ran_bind in H2 as (p & s2 & H2 & H3).
    apply ran_read_port in H2 as [Hp H2]. by exists raw, p, s1, s2.
  - intros (raw & p & s1 & s2 & H1 & Hp & H2 & H3). exists raw, s1. split; [done|].
    apply ran_bind. exists p, s2. split; [by apply ran_read_port|done].
Qed.

Lemma ran_read_target_addr atyp s t s' :
  ran (read_target_addr atyp) s t s' <->
  exists w, wf_target t /\ to_wire_bytes t = Ok (atyp :: w) /\ reads s w s'.
Proof.
  unfold read_target_addr.
  destruct (bool_decide_reflect (atyp = SOCKS_ATYP_IPV4)) as [->|H4];
    [|destruct (bool_decide_reflect (atyp = SOCKS_ATYP_IPV6)) as [->|H6];
      [|destruct (bool_decide_reflect (atyp = SOCKS_ATYP_DOMAIN)) as [->|Hd]]].
  - rewrite ran_then_port. split.
    + intros (raw & p & s1 & s2 & H1 & Hp & H2 & H3). autorewrite with socks in *.
      destruct H1 as [Hl H1], H3 as [<- <-]. exists (raw ++ be_bytes 2 p).
      split_and!; [done..|]. apply reads_app. by exists s1.
    + intros (w & Hwf & Hw & H). destruct t as [h p|h p|h p]; cbn in Hw; try split_guard; try discriminate.
      apply Ok_inj in Hw. injection Hw as <-. apply reads_app in H as (s1 & H1 & H2).
      destruct Hwf. exists h, p, s1, s'. by autorewrite with socks.
  - rewrite ran_then_port. split.
    + intros (raw & p & s1 & s2 & H1 & Hp & H2 & H3). autorewrite with socks in *.
      destruct H1 as [Hl H1], H3 as [<- <-]. exists (raw ++ be_bytes 2 p).
      split_and!; [done..|]. apply reads_app. by exists s1.
    + intros (w & Hwf & Hw & H). destruct t as [h p|h p|h p]; cbn in Hw; try split_guard; try discriminate.
      apply Ok_inj in Hw. injection Hw as <-. apply reads_app in H as (s1 & H1 & H2).
      destruct Hwf. exists h, p, s1, s'. by autorewrite with socks.
  - assert (Hassoc : forall A B C (m : M A) (f : A -> M B) (k : B -> M C) s a s',
      ran (x ← m; y ← f x; k y) s a s' <-> ran (y ← (x ← m; f x); k y) s a s').
    { intros. rewrite !ran_bind. split.
      - intros (x & s1 & H1 & H2). apply ran_bind in H2 as (y & s2 & H2 & H3).
        exists y, s2. split; [apply ran_bind; by exists x, s1|done].
      - intros (y & s2 & H1 & H3). apply ran_bind in H1 as (x & s1 & H1 & H2).
        exists x, s1. split; [done|]. apply ran_bind. by exists y, s2. }
    rewrite Hassoc, ran_then_port. split.
    + intros (raw & p & s1 & s2 & H1 & Hp & H2 & H3). apply ran_length_prefixed in H1 as [Hl H1].
      destruct (utf8_valid raw) eqn:Hu; autorewrite with socks in *; [|done].
      destruct H3 as [<- <-]. exists ((u8 (Z.of_nat (length raw)) :: raw) ++ be_bytes 2 p).
      split_and!; [done | | apply reads_app; by exists s1].
      cbn [to_wire_bytes]. by rewrite ltb_false_ge by done.
    + intros (w & Hwf & Hw & H). destruct t as [h p|h p|h p]; cbn in Hw; try split_guard; try discriminate.
      apply Ok_inj in Hw. injection Hw as <-. change (u8 (Z.of_nat (length h)) :: h ++ be_bytes 2 p)
        with ((u8 (Z.of_nat (length h)) :: h) ++ be_bytes 2 p) in H.
      apply reads_app in H as (s1 & H1 & H2). destruct Hwf as [Hu Hp].
      exists h, p, s1, s'. rewrite ran_length_prefixed, Hu. autorewrite with socks.
      split_and!; (done || lia).
  - rewrite ran_bind. split.
    + intros (u & s1 & _ & H). by apply ran_fail in H.
    + intros (w & _ & Hw & _). destruct t; cbn in Hw; try split_guard; apply Ok_inj in Hw; by injection Hw as <-.
Qed.

(** Reading [r] while writing [w]. *)
Definition exchange (s : Stream) (r w : bytes) (s' : Stream) : Prop :=
  input s = r ++ input s' /\ output s' = output s ++ w /\ writable s' = writable s.

Lemma reads_exchange s r s' : reads s r s' <-> exchange s r [] s'.
Proof. unfold reads, exchange. by rewrite app_nil_r. Qed.
Lemma writes_exchange s w s' : writes s w s' <-> writable s = true /\ exchange s [] w s'.
Proof.
  unfold writes, exchange. destruct s as [i o b], s' as [i' o' b']. cbn. split.
  - intros [-> H]. injection H as -> -> ->. done.
  - intros (-> & -> & -> & ->). done.
Qed.
Lemma exchange_app s r1 r2 w1 w2 s' :
  exchange s (r1 ++ r2) (w1 ++ w2) s' <->
  exists s1, exchange s r1 w1 s1 /\ exchange s1 r2 w2 s'.
Proof.
  unfold exchange. split.
  - intros (Hi & Ho & Hw). exists (mkStream (r2 ++ input s') (output s ++ w1) (writable s)).
    cbn. by rewrite app_assoc, <- (app_assoc (output s)).
  - intros (s1 & (Hi & Ho & Hw) & (Hi' & Ho' & Hw')). rewrite Hi, Hi', Ho', Ho, <- !app_assoc.
    split_and!; congruence.
Qed.
Lemma exchange_writable s r w s' : exchange s r w s' -> writable s' = writable s.
Proof. by intros (_ & _ & H). Qed.

(** The credentials message, and what a method selection reads and writes. *)
Definition auth_message (u : Socks5AuthUserConfig) : bytes :=
  [x01] ++ (u8 (Z.of_nat (length (username u))) :: username u)
  ++ (u8 (Z.of_nat (length (password u))) :: password u).
Definition short_user (u : Socks5AuthUserConfig) : Prop :=
  length (username u) <= 255 /\ length (password u) <= 255.
Definition selected (auth : option Socks5AuthConfig) (methods r w : bytes) : Prop :=
  match auth with
  | None => SOCKS_METHOD_NO_AUTH ∈ methods /\ r = [] /\ w = [SOCKS_VERSION; SOCKS_METHOD_NO_AUTH]
  | Some users => SOCKS_METHOD_USERNAME_PASSWORD ∈ methods /\
    exists u, u ∈ users /\ short_user u /\ r = auth_message u /\
      w = [SOCKS_VERSION; SOCKS_METHOD_USERNAME_PASSWORD] ++ [x01; x00]
  end.

Lemma ran_authenticate users s v s' :
  ran (authenticate_username_password users) s v s' <->
  writable s = true /\ exists u, u ∈ users /\ short_user u /\ exchange s (auth_message u) [x01; x00] s'.
Proof.
  unfold authenticate_username_password. rewrite ran_bind. split.
  - intros (ver & s1 & H1 & H). apply ran_read in H1 as [Hl H1].
    destruct ver as [|x [|? ?]]; try discriminate. cbn [lookup_total list_lookup_total] in H.
    case_bool_decide as Hx; cbn [negb] in H;
      [subst x|apply ran_bind in H as (? & ? & _ & H); by apply ran_fail in H].
    apply ran_bind in H as (u & s2 & H2 & H). apply ran_length_prefixed in H2 as [Hu H2].
    apply ran_bind in H as (p & s3 & H3 & H). apply ran_length_prefixed in H3 as [Hp H3].
    destruct (matches_socks5_user users u p) eqn:E; cbn [negb] in H;
      [|apply ran_bind in H as (? & ? & _ & H); by apply ran_fail in H].
    apply matches_socks5_user_iff in E. apply ran_write, writes_exchange in H as [Hw H4].
    rewrite reads_exchange in *.
    split; [by rewrite <- (exchange_writable _ _ _ _ H1), <- (exchange_writable _ _ _ _ H2),
      <- (exchange_writable _ _ _ _ H3)|].
    exists (mkUser u p). refine (conj E (conj (conj Hu Hp) _)).
    unfold auth_message. cbn [username password].
    change [x01; x00] with (([] ++ [] ++ []) ++ [x01; x00]).
    rewrite <- (app_nil_r ([x01] ++ _)). apply exchange_app. exists s3. split; [|done].
    apply exchange_app. exists s1. split; [done|]. apply exchange_app. by exists s2.
  - intros (Hw & [u p] & Hin & [Hu Hp] & H). unfold auth_message in H. cbn [username password] in *.
    change [x01; x00] with (([] ++ [] ++ []) ++ [x01; x00]) in H.
    rewrite <- (app_nil_r ([x01] ++ _)) in H. apply exchange_app in H as (s3 & H & H4).
    apply exchange_app in H as (s1 & H1 & H). apply exchange_app in H as (s2 & H2 & H3).
    rewrite <- reads_exchange in H1, H2, H3.
    exists [x01], s1. split; [by apply ran_read|].
    cbn [lookup_total list_lookup_total]. rewrite bool_decide_eq_true_2 by done. cbn [negb].
    apply ran_bind. exists u, s2. split; [by apply ran_length_prefixed|].
    apply ran_bind. exists p, s3. split; [by apply ran_length_prefixed|].
    rewrite (proj2 (matches_socks5_user_iff users u p) Hin). cbn [negb].
    apply ran_write, writes_exchange. split; [|done].
    destruct H1 as (_ & _ & E1), H2 as (_ & _ & E2), H3 as (_ & _ & E3). congruence.
Qed.

Lemma ran_select_method auth methods s v s' :
  ran (select_method auth methods) s v s' <->
  writable s = true /\ exists r w, selected auth methods r w /\ exchange s r w s'.
Proof.
  unfold select_method, selected. destruct auth as [users|].
  - case_bool_decide as Hm; cbn [negb].
    + rewrite ran_bind. split.
      * intros (x & s1 & H1 & H). apply ran_write, writes_exchange in H1 as [Hw H1].
        apply ran_authenticate in H as (_ & u & Hin & Hs & H). split; [done|].
        do 2 eexists.
        split; [refine (conj Hm (ex_intro _ u (conj Hin (conj Hs (conj eq_refl eq_refl)))))|].
        change (auth_message u) with ([] ++ auth_message u). apply exchange_app. by exists s1.
      * intros (Hw & r & w & (_ & u & Hin & Hs & -> & ->) & H).
        change (auth_message u) with ([] ++ auth_message u) in H.
        apply exchange_app in H as (s1 & H1 & H). exists tt, s1.
        split; [by apply ran_write, writes_exchange|]. apply ran_authenticate.
        split; [by rewrite (exchange_writable _ _ _ _ H1)|]. by exists u.
    + rewrite ran_bind. split.
      * intros (? & ? & _ & H). by apply ran_fail in H.
      * by intros (_ & r & w & [H _] & _).
  - case_bool_decide as Hm; cbn [negb].
    + rewrite ran_write, writes_exchange. split.
      * intros [Hw H]. split; [done|]. by do 2 eexists.
      * by intros (Hw & r & w & (_ & -> & ->) & H).
    + rewrite ran_bind. split.
      * intros (? & ? & _ & H). by apply ran_fail in H.
      * by intros (_ & r & w & [H _] & _).
Qed.

Definition request_of (cmd : byte) (t : TargetAddr) : option SocksRequest :=
  if bool_decide (cmd = SOCKS_CMD_CONNECT) then Some (Connect t)
  else if bool_decide (cmd = SOCKS_CMD_UDP_ASSOCIATE) then Some (UdpAssociate t)
  else if bool_decide (cmd = SOCKS_CMD_UDP_IN_TCP) then Some (UdpInTcp t)
  else None.

(** ** Properties *)

(** A handshake succeeds exactly when the client sent a well-formed one:
    [VER NMETHODS METHODS], the credentials message of a configured user if and
    only if authentication is configured, and a request for a known command and
    a well-formed address; the server then has consumed exactly those bytes and
    written exactly the method selection (and the credentials acknowledgement).
    In particular no client gets through without a configured user's name and
    password. *)
Theorem negotiate_iff (auth : option Socks5AuthConfig) (s s' : Stream) (req : SocksRequest) :
  negotiate auth s = (Ok req, s') <->
  exists methods r w cmd t tw,
    writable s = true /\ length methods <= 255 /\ selected auth methods r w /\
    wf_target t /\ to_wire_bytes t = Ok tw /\ request_of cmd t = Some req /\
    exchange s ([SOCKS_VERSION; u8 (Z.of_nat (length methods))] ++ methods ++ r
                ++ [SOCKS_VERSION; cmd; x00] ++ tw) w s'.
Proof.
  change (negotiate auth s = (Ok req, s')) with (ran (negotiate auth) s req s').
  unfold negotiate. rewrite ran_bind. split.
  - intros (hd & s1 & H1 & H). apply ran_read in H1 as [Hl H1].
    destruct hd as [|v [|n [|? ?]]]; try discriminate. cbn [lookup_total list_lookup_total] in H.
    case_bool_decide as Hv; cbn [negb] in H; [subst v|by apply ran_fail in H].
    apply ran_bind in H as (ms & s2 & H2 & H). apply ran_read in H2 as [Hm H2].
    apply ran_bind in H as (u & s3 & H3 & H). apply ran_select_method in H3 as (Hw & r & w & Hsel & H3).
    apply ran_bind in H as (rq & s4 & H4 & H). apply ran_read in H4 as [Hl4 H4].
    destruct rq as [|v [|c [|z [|at_ [|? ?]]]]]; try discriminate.
    cbn [lookup_total list_lookup_total] in H.
    case_bool_decide as Hv; cbn [negb] in H; [subst v|by apply ran_fail in H].
    case_bool_decide as Hz; cbn [negb] in H; [subst z|by apply ran_fail in H].
    apply ran_bind in H as (t & s5 & H5 & H).
    apply ran_read_target_addr in H5 as (tw & Hwf & Htw & H5).
    assert (Hreq : request_of c t = Some req /\ s5 = s').
    { unfold request_of. revert H. repeat (case_bool_decide; [rewrite ran_ret; intros [-> ->]; done|]).
      intros Hf. apply ran_bind in Hf as (? & ? & _ & Hf). by apply ran_fail in Hf. }
    destruct Hreq as [Hreq ->]. rewrite reads_exchange in *.
    exists ms, r, w, c, t, (at_ :: tw). rewrite Hm, u8_to_nat_len.
    assert (Hw0 : writable s = true)
      by (by rewrite <- (exchange_writable _ _ _ _ H1), <- (exchange_writable _ _ _ _ H2)).
    assert (Hm255 : Z.to_nat (b2z n) <= 255) by apply to_nat_b2z_lt.
    refine (conj Hw0 (conj Hm255 (conj Hsel (conj Hwf (conj Htw (conj Hreq _)))))).
    change w with ([] ++ [] ++ w). apply exchange_app. exists s1. split; [done|].
    apply exchange_app. exists s2. split; [done|]. rewrite <- (app_nil_r w).
    apply exchange_app. exists s3. split; [done|].
    change ([SOCKS_VERSION; c; x00] ++ at_ :: tw) with ([SOCKS_VERSION; c; x00; at_] ++ tw).
    change (@nil byte) with (@nil byte ++ []). apply exchange_app. by exists s4.
  - intros (ms & r & w & c & t & tw & Hw & Hm & Hsel & Hwf & Htw & Hreq & H).
    assert (exists at_ tw', tw = at_ :: tw') as (at_ & tw' & ->).
    { pose proof (to_wire_bytes_nonempty t tw Htw). destruct tw; [cbn in *; lia|eauto]. }
    change w with ([] ++ [] ++ w) in H. apply exchange_app in H as (s1 & H1 & H).
    apply exchange_app in H as (s2 & H2 & H). rewrite <- (app_nil_r w) in H.
    apply exchange_app in H as (s3 & H3 & H).
    change ([SOCKS_VERSION; c; x00] ++ at_ :: tw') with ([SOCKS_VERSION; c; x00; at_] ++ tw') in H.
    change (@nil byte) with (@nil byte ++ []) in H. apply exchange_app in H as (s4 & H4 & H5).
    assert (Hw2 : writable s2 = true).
    { by rewrite (exchange_writable _ _ _ _ H2), (exchange_writable _ _ _ _ H1). }
    rewrite <- reads_exchange in H1, H2, H4, H5.
    eexists _, s1. split; [apply ran_read; split; [|exact H1]; done|].
    cbn [lookup_total list_lookup_total]. rewrite bool_decide_eq_true_2 by done. cbn [negb].
    rewrite u8_of_nat_len by done. apply ran_bind. exists ms, s2. split; [by apply ran_read|].
    apply ran_bind. exists tt, s3. split; [apply ran_select_method; split; [done|]; by exists r, w|].
    apply ran_bind. eexists _, s4. split; [apply ran_read; split; [|exact H4]; done|].
    cbn [lookup_total list_lookup_total]. rewrite !bool_decide_eq_true_2 by done. cbn [negb].
    apply ran_bind. exists t, s'. split; [apply ran_read_target_addr; by exists tw'|].
    revert Hreq. unfold request_of. repeat (case_bool_decide; [intros [= <-]; by apply ran_ret|]). done.
Qed.

(** A client that fails the method or credential check is always told so
    before the server gives up: the last bytes written are the refusal of the
    methods, or of the credentials, and nothing past the credentials is read. *)
Theorem authentication_refused (users : Socks5AuthConfig) (s : Stream) (u p more : bytes) :
  length u <= 255 -> length p <= 255 -> mkUser u p ∉ users -> writable s = true ->
  input s = auth_message (mkUser u p) ++ more ->
  authenticate_username_password users s =
    (Err InvalidCredentials, mkStream more (output s ++ [x01; x01]) true).
Proof.
  intros Hu Hp Hn Hw Hi. set (s' := mkStream more (output s) true).
  assert (H : reads s ([x01] ++ (u8 (Z.of_nat (length u)) :: u) ++ (u8 (Z.of_nat (length p)) :: p)) s').
  { split; [|done]. rewrite Hi. unfold auth_message. cbn [username password]. by norm_app. }
  apply reads_app in H as (s1 & H1 & H). apply reads_app in H as (s2 & H2 & H3).
  unfold authenticate_username_password.
  rewrite (bind_ran _ _ _ [x01] s1) by (by apply ran_read).
  cbn [lookup_total list_lookup_total]. rewrite bool_decide_eq_true_2 by done. cbn [negb].
  rewrite (bind_ran _ _ _ u s2) by (by apply ran_length_prefixed).
  rewrite (bind_ran _ _ _ p s') by (by apply ran_length_prefixed).
  destruct (matches_socks5_user users u p) eqn:E; [by apply matches_socks5_user_iff in E|]. done.
Qed.

Lemma authentication_refused_witness :
  (authenticate_username_password [mkUser (str "bob") (str "pw")]
    (mkStream (auth_message (mkUser (str "bob") (str "no")) ++ str "rest") [] true)).1 =
  Err InvalidCredentials.
Proof.
  rewrite (authentication_refused [mkUser (str "bob") (str "pw")] (mkStream _ [] true)
    (str "bob") (str "no") (str "rest"));
    [reflexivity | cbn; lia | cbn; lia | | reflexivity | reflexivity].
  intros H. apply list_elem_of_In in H. destruct H as [H|[]]. discriminate H.
Defined.
