(* ===== verification/Socks5Udp.v ===== *)
(** SOCKS5 UDP: the datagram header, the UDP-in-TCP framing
    ([crates/socks5-proto/src/udp.rs]) and the fragment reassembler
    ([crates/socks5-proto/src/reassembly.rs]). *)
From S2P Require Import Prelude Target Socks5.

Definition SOCKS5_UDP_FRAGMENT_END : byte := x80.
Definition SOCKS5_UDP_FRAGMENT_MASK : byte := x7f.
(** Nanoseconds. *)
Definition SOCKS5_UDP_REASSEMBLY_TIMEOUT : Z := 5 * 1000000000.
Definition SOCKS5_UDP_REASSEMBLY_MAX_BYTES : Z := 256 * 1024.

Record Socks5UdpPacket : Type := mkPacket {
  fragment : byte;
  target : TargetAddr;
  body : bytes;
  payload : bytes
}.

Definition parse_udp_request (packet : bytes) : result Socks5Error Socks5UdpPacket :=
  if (length packet <? 4)%nat then Err UdpPacketTooShort
  else if negb (bool_decide (packet !!! 0 = x00)) || negb (bool_decide (packet !!! 1 = x00))
  then Err InvalidUdpReservedBytes
  else
    let fragment := packet !!! 2 in
    let body := drop 3 packet in
    r ← map_err from_target_error (from_wire_bytes body);
    Ok (mkPacket fragment r.1 body (drop r.2 body)).

Definition build_udp_packet (t : TargetAddr) (payload : bytes) : result Socks5Error bytes :=
  w ← map_err from_target_error (to_wire_bytes t);
  Ok ([x00; x00; x00] ++ w ++ payload).

(** ** UDP in TCP *)
Record Socks5UdpTcpPacket : Type := mkTcpPacket {
  t_target : TargetAddr;
  t_body : bytes;
  addr_len : nat
}.

(** [reader.read] of one byte: nothing only at the end of the stream. *)
Definition read_one : M (option byte) := fun s =>
  match input s with
  | [] => (Ok None, s)
  | b :: rest => (Ok (Some b), mkStream rest (output s) (writable s))
  end.

Definition read_udp_tcp_packet : M (option Socks5UdpTcpPacket) :=
  first ← read_one;
  match first with
  | None => mret None
  | Some hi =>
    lo ← read_exact 1 "reading UDP-in-TCP data length tail";
    let data_len := Z.to_nat (be_val [hi; lo !!! 0]) in
    header_len ← read_exact 1 "reading UDP-in-TCP header length";
    let header_len := Z.to_nat (b2z (header_len !!! 0)) in
    if (header_len <? 3)%nat then fail (InvalidUdpInTcpHeaderLen header_len)
    else
      let addr_len := header_len - 3 in
      addr ← read_exact addr_len "reading UDP-in-TCP target address";
      r ← lift (map_err from_target_error (from_wire_bytes addr));
      if negb (bool_decide (r.2 = addr_len)) then fail UdpInTcpHeaderMismatch
      else
        data ← read_exact data_len "reading UDP-in-TCP payload";
        mret (Some (mkTcpPacket r.1 (addr ++ data) addr_len))
  end.

Definition write_udp_tcp_packet (t : TargetAddr) (payload : bytes) : M unit :=
  addr ← lift (map_err from_target_error (to_wire_bytes t));
  let header_len := 3 + length addr in
  if (255 <? header_len)%nat then fail (UdpInTcpFrameTooLarge "header")
  else if (65535 <? Z.of_nat (length payload))%Z then fail (UdpInTcpFrameTooLarge "payload")
  else
    _ ← write_all (be_bytes 2 (Z.of_nat (length payload))) "writing UDP-in-TCP data length";
    _ ← write_all [u8 (Z.of_nat header_len)] "writing UDP-in-TCP header length";
    _ ← write_all addr "writing UDP-in-TCP target address";
    write_all payload "writing UDP-in-TCP payload".

(** ** Reassembly *)
Record ReassembledUdpPacket : Type := mkReassembled {
  ra_target : TargetAddr;
  ra_payload : bytes;
  ra_addr_len : nat
}.

Record UdpFragmentState : Type := mkState {
  st_target : TargetAddr;
  fragments : list bytes;
  highest_fragment : Z;
  total_bytes : Z;
  deadline : Z
}.

(** Whether the stored sequence is abandoned before the fragment is added. *)
Definition stale (state : UdpFragmentState) (t : TargetAddr) (fragment_number now : Z) : bool :=
  (deadline state <=? now)%Z || negb (bool_decide (t = st_target state))
  || (fragment_number <? highest_fragment state)%Z.

Definition push_fragment (now : Z) (packet : Socks5UdpPacket) (self : option UdpFragmentState)
    : option UdpFragmentState * result Socks5Error (option ReassembledUdpPacket) :=
  if bool_decide (fragment packet = x00) then
    (None, Ok (Some (mkReassembled (target packet) (body packet)
                       (length (body packet) - length (payload packet)))))
  else
    let fragment_number := b2z (band (fragment packet) SOCKS5_UDP_FRAGMENT_MASK) in
    if bool_decide (fragment_number = 0%Z) then (self, Err InvalidUdpFragmentZero)
    else
      let is_last := negb (bool_decide (band (fragment packet) SOCKS5_UDP_FRAGMENT_END = x00)) in
      let self := match self with
        | Some state => if stale state (target packet) fragment_number now then None else Some state
        | None => None
        end in
      let state := default (mkState (target packet) [] 0 0 (now + SOCKS5_UDP_REASSEMBLY_TIMEOUT))
                     self in
      if negb (bool_decide (target packet = st_target state))
      then (Some state, Err FragmentTargetChanged)
      else if (fragment_number <=? highest_fragment state)%Z
      then (Some state, Err (OutOfOrderUdpFragment (u8 fragment_number)))
      else
        let projected_total := (total_bytes state + Z.of_nat (length (payload packet)))%Z in
        if (SOCKS5_UDP_REASSEMBLY_MAX_BYTES <? projected_total)%Z
        then (None, Err (ReassemblyCapExceeded projected_total SOCKS5_UDP_REASSEMBLY_MAX_BYTES))
        else
          let state := mkState (st_target state) (fragments state ++ [payload packet])
            fragment_number projected_total (now + SOCKS5_UDP_REASSEMBLY_TIMEOUT) in
          if negb is_last then (Some state, Ok None)
          else
            (None,
             addr_wire ← map_err from_target_error (to_wire_bytes (st_target state));
             Ok (Some (mkReassembled (st_target state) (addr_wire ++ concat (fragments state))
                         (length addr_wire)))).

(** ** Correctness *)
Section udp_facts.

Lemma from_wire_bytes_app t w rest : wf_target t -> to_wire_bytes t = Ok w ->
  from_wire_bytes (w ++ rest) = Ok (t, length w).
Proof. intros Hwf Hw. apply from_wire_bytes_spec. by apply parse_inner_complete. Qed.

(** The stored sequence is a bounded, strictly increasing run of one target. *)
Definition state_ok (s : UdpFragmentState) : Prop :=
  (0 < highest_fragment s <= 127)%Z /\ fragments s <> [] /\
  (Z.of_nat (length (fragments s)) <= highest_fragment s)%Z /\
  total_bytes s = Z.of_nat (length (concat (fragments s))) /\
  (total_bytes s <= SOCKS5_UDP_REASSEMBLY_MAX_BYTES)%Z.
Definition self_ok (o : option UdpFragmentState) : Prop :=
  match o with Some s => state_ok s | None => True end.

Definition mask_check (b : byte) : bool := (b2z (band b SOCKS5_UDP_FRAGMENT_MASK) <=? 127)%Z.
Lemma mask_checked b : mask_check b = true.
Proof. revert b. apply byte_forall. vm_compute. reflexivity. Qed.
Lemma mask_range b : (0 <= b2z (band b SOCKS5_UDP_FRAGMENT_MASK) <= 127)%Z.
Proof.
  pose proof (b2z_range (band b SOCKS5_UDP_FRAGMENT_MASK)). pose proof (mask_checked b) as H1.
  unfold mask_check in H1. lia.
Qed.

(** The state a fragment is added to: the stored one unless it is stale. *)
Definition base (now : Z) (t : TargetAddr) (k : Z) (self : option UdpFragmentState)
    : UdpFragmentState :=
  let fresh := mkState t [] 0 0 (now + SOCKS5_UDP_REASSEMBLY_TIMEOUT) in
  match self with
  | Some st => if stale st t k now then fresh else st
  | None => fresh
  end.

Definition base_ok (s : UdpFragmentState) (k : Z) : Prop :=
  (0 <= highest_fragment s <= k)%Z /\
  (Z.of_nat (length (fragments s)) <= highest_fragment s)%Z /\
  total_bytes s = Z.of_nat (length (concat (fragments s))) /\
  (total_bytes s <= SOCKS5_UDP_REASSEMBLY_MAX_BYTES)%Z.

Lemma base_spec now t k self : self_ok self -> (0 < k)%Z ->
  base_ok (base now t k self) k /\ st_target (base now t k self) = t.
Proof.
  intros Hok Hk. unfold base.
  assert (Hfresh : base_ok (mkState t [] 0 0 (now + SOCKS5_UDP_REASSEMBLY_TIMEOUT)) k).
  { unfold base_ok, SOCKS5_UDP_REASSEMBLY_MAX_BYTES. cbn. lia. }
  destruct self as [st|]; [|done]. destruct (stale st t k now) eqn:E; [done|].
  unfold stale in E. rewrite !orb_false_iff, negb_false_iff in E. destruct E as [[_ Ht] Hh].
  apply bool_decide_eq_true_1 in Ht. apply Z.ltb_ge in Hh.
  destruct Hok as (H1 & H2 & H3 & H4 & H5). split; [|done].
  split; [split; [lia|done]|]. done.
Qed.

(** [push_fragment] on a numbered fragment, with the dead guard removed. *)
Lemma push_fragment_numbered now p self :
  self_ok self -> fragment p <> x00 ->
  let k := b2z (band (fragment p) SOCKS5_UDP_FRAGMENT_MASK) in
  let is_last := negb (bool_decide (band (fragment p) SOCKS5_UDP_FRAGMENT_END = x00)) in
  let st := base now (target p) k self in
  let total := (total_bytes st + Z.of_nat (length (payload p)))%Z in
  let st' := mkState (target p) (fragments st ++ [payload p]) k total
               (now + SOCKS5_UDP_REASSEMBLY_TIMEOUT) in
  push_fragment now p self =
  if bool_decide (k = 0%Z) then (self, Err InvalidUdpFragmentZero)
  else if (k <=? highest_fragment st)%Z then (Some st, Err (OutOfOrderUdpFragment (u8 k)))
  else if (SOCKS5_UDP_REASSEMBLY_MAX_BYTES <? total)%Z
  then (None, Err (ReassemblyCapExceeded total SOCKS5_UDP_REASSEMBLY_MAX_BYTES))
  else if negb is_last then (Some st', Ok None)
  else (None,
        w ← map_err from_target_error (to_wire_bytes (target p));
        Ok (Some (mkReassembled (target p) (w ++ concat (fragments st')) (length w)))).
Proof.
  intros Hok Hne k is_last st total st'. unfold push_fragment.
  rewrite bool_decide_eq_false_2 by done. fold k. case_bool_decide as Hk; [done|].
  pose proof (mask_range (fragment p)) as Hr. fold k in Hr.
  destruct (base_spec now (target p) k self Hok) as [_ Ht]; [lia|].
  assert (default (mkState (target p) [] 0 0 (now + SOCKS5_UDP_REASSEMBLY_TIMEOUT))
    (match self with
     | Some state => if stale state (target p) k now then None else Some state
     | None => None
     end) = st) as ->.
  { unfold st, base. destruct self as [x|]; [|done]. by destruct (stale _ _ _ _). }
  unfold st', total. fold st in Ht. rewrite Ht, bool_decide_eq_true_2 by done. done.
Qed.

Lemma push_fragment_ok now p self : self_ok self -> self_ok (push_fragment now p self).1.
Proof.
  intros Hok. destruct (decide (fragment p = x00)) as [E|Hne].
  { unfold push_fragment. by rewrite bool_decide_eq_true_2. }
  rewrite push_fragment_numbered by done. pose proof (mask_range (fragment p)) as Hr.
  set (k := b2z (band (fragment p) SOCKS5_UDP_FRAGMENT_MASK)) in *.
  case_bool_decide as Hk; [done|].
  destruct (base_spec now (target p) k self Hok) as [(Hh & Hn & Ht & Hc) _]; [lia|].
  assert (Hkeep : highest_fragment (base now (target p) k self) = 0%Z \/
    self_ok (Some (base now (target p) k self))).
  { unfold base. destruct self as [x|]; [|by left]. destruct (stale _ _ _ _); [by left|by right]. }
  set (st := base now (target p) k self) in *.
  destruct (Z.leb_spec k (highest_fragment st)); [destruct Hkeep; [lia|done]|].
  destruct (Z.ltb_spec SOCKS5_UDP_REASSEMBLY_MAX_BYTES (total_bytes st + Z.of_nat (length (payload p))));
    [done|].
  destruct (negb _); [|done]. cbn [fst self_ok].
  split_and!; cbn [highest_fragment fragments total_bytes]; try lia.
  - by destruct (fragments st).
  - rewrite length_app. cbn [length]. lia.
  - rewrite concat_app, length_app. cbn [concat]. rewrite app_nil_r. lia.
Qed.

(** ** A fragment sequence *)
Definition frag_packet (t : TargetAddr) (k : Z) (last : bool) (w p : bytes) : Socks5UdpPacket :=
  mkPacket (u8 (if last then k + 128 else k)) t (w ++ p) p.

Definition numbered_check (b : byte) : bool :=
  let k := b2z b in
  if ((0 <? k) && (k <=? 127))%Z then
    negb (bool_decide (u8 k = x00)) && negb (bool_decide (u8 (k + 128) = x00))
    && (b2z (band (u8 k) SOCKS5_UDP_FRAGMENT_MASK) =? k)%Z
    && (b2z (band (u8 (k + 128)) SOCKS5_UDP_FRAGMENT_MASK) =? k)%Z
    && bool_decide (band (u8 k) SOCKS5_UDP_FRAGMENT_END = x00)
    && negb (bool_decide (band (u8 (k + 128)) SOCKS5_UDP_FRAGMENT_END = x00))
  else true.
Lemma numbered_checked b : numbered_check b = true.
Proof. revert b. apply byte_forall. vm_compute. reflexivity. Qed.

Lemma frag_packet_fields t k last w p : (0 < k <= 127)%Z ->
  fragment (frag_packet t k last w p) <> x00 /\
  b2z (band (fragment (frag_packet t k last w p)) SOCKS5_UDP_FRAGMENT_MASK) = k /\
  negb (bool_decide (band (fragment (frag_packet t k last w p)) SOCKS5_UDP_FRAGMENT_END = x00)) = last.
Proof.
  intros Hk. pose proof (numbered_checked (u8 k)) as H. unfold numbered_check in H.
  rewrite b2z_u8_small in H by lia.
  rewrite (proj2 (andb_true_iff (0 <? k)%Z (k <=? 127)%Z)) in H by lia.
  rewrite !andb_true_iff, !negb_true_iff in H. destruct H as (((((H1 & H2) & H3) & H4) & H5) & H6).
  apply bool_decide_eq_false_1 in H1, H2. apply Z.eqb_eq in H3, H4.
  unfold frag_packet. cbn [fragment]. destruct last.
  - split_and!; [done | done |]. by rewrite H6.
  - split_and!; [done | done |]. by rewrite H5.
Qed.

(** Pushing a list of timed packets, with the results in order. *)
Fixpoint push_all (self : option UdpFragmentState) (l : list (Z * Socks5UdpPacket))
    : option UdpFragmentState * list (result Socks5Error (option ReassembledUdpPacket)) :=
  match l with
  | [] => (self, [])
  | (now, p) :: l =>
    let (s1, r) := push_fragment now p self in
    let (s2, rs) := push_all s1 l in (s2, r :: rs)
  end.

(** Numbered payloads that continue a sequence at [h] before time [d]. *)
Fixpoint continues (h d : Z) (l : list (Z * Z * bytes)) : Prop :=
  match l with
  | [] => True
  | (now, k, _) :: l =>
    (h < k <= 127)%Z /\ (now < d)%Z /\ continues k (now + SOCKS5_UDP_REASSEMBLY_TIMEOUT) l
  end.
Definition datas (l : list (Z * Z * bytes)) : list bytes := map snd l.

Lemma push_continue t w st now k p last :
  state_ok st -> st_target st = t -> (highest_fragment st < k <= 127)%Z -> (now < deadline st)%Z ->
  (total_bytes st + Z.of_nat (length p) <= SOCKS5_UDP_REASSEMBLY_MAX_BYTES)%Z ->
  to_wire_bytes t = Ok w ->
  push_fragment now (frag_packet t k last w p) (Some st) =
  if last then (None, Ok (Some (mkReassembled t (w ++ concat (fragments st ++ [p])) (length w))))
  else (Some (mkState t (fragments st ++ [p]) k (total_bytes st + Z.of_nat (length p))
                (now + SOCKS5_UDP_REASSEMBLY_TIMEOUT)), Ok None).
Proof.
  intros Hok Ht Hk Hd Hc Hw. assert (Hk0 : (0 < k <= 127)%Z) by (destruct Hok; lia).
  destruct (frag_packet_fields t k last w p Hk0) as (Hne & Hnum & Hlast).
  rewrite push_fragment_numbered by done. rewrite Hnum, Hlast.
  rewrite bool_decide_eq_false_2 by lia.
  assert (base now (target (frag_packet t k last w p)) k (Some st) = st) as ->.
  { unfold base, stale. cbn [target frag_packet].
    rewrite (proj2 (Z.leb_gt _ _)) by lia. rewrite bool_decide_eq_true_2 by done.
    by rewrite (proj2 (Z.ltb_ge k _)) by lia. }
  rewrite (proj2 (Z.leb_gt k _)) by lia. cbn [payload frag_packet].
  rewrite (proj2 (Z.ltb_ge SOCKS5_UDP_REASSEMBLY_MAX_BYTES _)) by lia.
  destruct last; cbn [negb]; [|done]. cbn [target fragments frag_packet]. by rewrite Hw.
Qed.

Lemma push_first t w now k p : (0 < k <= 127)%Z ->
  (Z.of_nat (length p) <= SOCKS5_UDP_REASSEMBLY_MAX_BYTES)%Z ->
  push_fragment now (frag_packet t k false w p) None =
  (Some (mkState t [p] k (Z.of_nat (length p)) (now + SOCKS5_UDP_REASSEMBLY_TIMEOUT)), Ok None).
Proof.
  intros Hk Hc. destruct (frag_packet_fields t k false w p Hk) as (Hne & Hnum & Hlast).
  rewrite push_fragment_numbered by done. rewrite Hnum, Hlast.
  rewrite bool_decide_eq_false_2 by lia. cbn [base highest_fragment total_bytes fragments].
  rewrite (proj2 (Z.leb_gt k _)) by lia. cbn [payload frag_packet].
  by rewrite (proj2 (Z.ltb_ge SOCKS5_UDP_REASSEMBLY_MAX_BYTES _)) by lia.
Qed.

Lemma push_all_continue t w st l now k p :
  state_ok st -> st_target st = t -> to_wire_bytes t = Ok w ->
  continues (highest_fragment st) (deadline st) (l ++ [(now, k, p)]) ->
  (total_bytes st + Z.of_nat (length (concat (datas (l ++ [(now, k, p)]))))
    <= SOCKS5_UDP_REASSEMBLY_MAX_BYTES)%Z ->
  push_all (Some st)
    (map (fun x => (x.1.1, frag_packet t x.1.2 false w x.2)) l
     ++ [(now, frag_packet t k true w p)]) =
  (None, map (fun _ => Ok None) l
    ++ [Ok (Some (mkReassembled t (w ++ concat (fragments st ++ datas l ++ [p])) (length w)))]).
Proof.
  revert st. induction l as [|[[n1 k1] p1] l IH]; intros st Hok Ht Hw Hc Hcap.
  - cbn [app map continues datas concat] in *. rewrite app_nil_r in Hcap. cbn [snd] in Hcap.
    destruct Hc as (Hk & Hd & _). cbn [push_all]. by rewrite push_continue by done.
  - cbn [app map continues datas concat fst snd] in *. destruct Hc as (Hk & Hd & Hc).
    rewrite length_app in Hcap. cbn [push_all].
    rewrite push_continue by (done || lia). 
    set (st1 := mkState t _ _ _ _).
    assert (Hst1 : state_ok st1).
    { pose proof (push_fragment_ok n1 (frag_packet t k1 false w p1) (Some st) Hok) as H.
      rewrite push_continue in H by (done || lia). exact H. }
    rewrite (IH st1); [|done|done|done|done|unfold st1, datas; cbn [total_bytes]; lia].
    unfold st1. cbn [fragments]. by rewrite <- app_assoc.
Qed.
End udp_facts.

(** ** Properties *)

(** Reassembly is concatenation: pushing an idle reassembler the numbered
    fragments of one datagram (increasing numbers up to 127, each within the
    timeout of the one before, at most 256 KiB in all) yields nothing until the
    last, then the address followed by the payloads in order, and leaves the
    reassembler idle. *)
Theorem reassembly_concat (t : TargetAddr) (w p0 p : bytes) (now0 k0 now k : Z)
    (l : list (Z * Z * bytes)) :
  to_wire_bytes t = Ok w -> (0 < k0 <= 127)%Z ->
  continues k0 (now0 + SOCKS5_UDP_REASSEMBLY_TIMEOUT) (l ++ [(now, k, p)]) ->
  (Z.of_nat (length (concat (p0 :: datas l ++ [p]))) <= SOCKS5_UDP_REASSEMBLY_MAX_BYTES)%Z ->
  push_all None
    ((now0, frag_packet t k0 false w p0)
     :: map (fun x => (x.1.1, frag_packet t x.1.2 false w x.2)) l
     ++ [(now, frag_packet t k true w p)]) =
  (None, Ok None :: map (fun _ => Ok None) l
    ++ [Ok (Some (mkReassembled t (w ++ concat (p0 :: datas l ++ [p])) (length w)))]).
Proof.
  intros Hw Hk Hc Hcap. cbn [concat] in Hcap. rewrite length_app in Hcap. cbn [push_all].
  rewrite push_first by (done || lia). set (st := mkState t _ _ _ _).
  assert (Hst : state_ok st).
  { pose proof (push_fragment_ok now0 (frag_packet t k0 false w p0) None I) as H.
    rewrite push_first in H by (done || lia). exact H. }
  rewrite (push_all_continue t w st); [done..|].
  unfold st, datas in *. cbn [total_bytes]. rewrite map_app. cbn [map snd]. lia.
Qed.

Lemma reassembly_concat_witness :
  push_all None
    [(0%Z, frag_packet (IpV4 [x01; x02; x03; x04] 53) 1 false [] (str "ab"));
     (4999999999%Z, frag_packet (IpV4 [x01; x02; x03; x04] 53) 3 true [] (str "cd"))] =
  (None, [Ok None; Ok (Some (mkReassembled (IpV4 [x01; x02; x03; x04] 53)
    ([x01; x01; x02; x03; x04; x00; x35] ++ str "abcd") 7))]).
Proof.
  change (push_all None
    [(0%Z, frag_packet (IpV4 [x01; x02; x03; x04] 53) 1 false
        [x01; x01; x02; x03; x04; x00; x35] (str "ab"));
     (4999999999%Z, frag_packet (IpV4 [x01; x02; x03; x04] 53) 3 true
        [x01; x01; x02; x03; x04; x00; x35] (str "cd"))] =
  (None, [Ok None; Ok (Some (mkReassembled (IpV4 [x01; x02; x03; x04] 53)
    ([x01; x01; x02; x03; x04; x00; x35] ++ str "abcd") 7))])).
  apply (reassembly_concat (IpV4 [x01; x02; x03; x04] 53) [x01; x01; x02; x03; x04; x00; x35]
    (str "ab") (str "cd") 0 1 4999999999 3 []);
    [reflexivity | lia | cbn; unfold SOCKS5_UDP_REASSEMBLY_TIMEOUT; lia
    | unfold SOCKS5_UDP_REASSEMBLY_MAX_BYTES; cbn; lia].
Defined.

(** A reassembler fed anything stays bounded: starting idle, after any
    packets at any times it holds one target's fragments, at most 127 of them and
    at most 256 KiB, with an exact byte count; the "target changed" error is
    never returned, since a fragment for another target restarts the sequence. *)
Theorem reassembler_bounded (l : list (Z * Socks5UdpPacket)) :
  self_ok (push_all None l).1 /\ Forall (fun r => r <> Err FragmentTargetChanged) (push_all None l).2.
Proof.
  assert (H : forall self, self_ok self -> self_ok (push_all self l).1 /\
    Forall (fun r => r <> Err FragmentTargetChanged) (push_all self l).2); [|by apply H].
  induction l as [|[now p] l IH]; intros self Hok; [done|]. cbn [push_all].
  pose proof (push_fragment_ok now p self Hok) as Hok1.
  assert (Hne : (push_fragment now p self).2 <> Err FragmentTargetChanged).
  { destruct (decide (fragment p = x00)) as [E|Hne].
    { unfold push_fragment. by rewrite bool_decide_eq_true_2. }
    rewrite push_fragment_numbered by done.
    repeat case_match; cbn [snd]; try discriminate.
    destruct (to_wire_bytes (target p)) as [w|[]]; cbn; discriminate. }
  destruct (push_fragment now p self) as [s1 r]. cbn [fst snd] in *.
  destruct (IH s1 Hok1) as [H1 H2]. destruct (push_all s1 l) as [s2 rs]. cbn [fst snd] in *.
  split; [done|]. by constructor.
Qed.

(** The SOCKS5 UDP header: a datagram parses exactly when it is two zero
    bytes, a fragment byte and the wire form of a well-formed address; the body
    keeps the address as received and the payload is all that follows it. *)
Theorem parse_udp_request_iff (d : bytes) (pkt : Socks5UdpPacket) :
  parse_udp_request d = Ok pkt <->
  exists frag t w p, d = [x00; x00; frag] ++ w ++ p /\ wf_target t /\ to_wire_bytes t = Ok w /\
    pkt = mkPacket frag t (w ++ p) p.
Proof.
  unfold parse_udp_request. split.
  - intros H. repeat split_guard. apply bind_Ok_inv in H as ([t n] & Hp & H).
    apply map_err_Ok_inv, from_wire_bytes_spec, parse_inner_sound in Hp as (Hwf & Hn & Hw).
    apply Ok_inj in H as <-. cbn [fst snd].
    rewrite orb_false_iff, !negb_false_iff in G. destruct G as [G0 G1].
    apply bool_decide_eq_true_1 in G0, G1.
    do 3 (destruct d as [|? d]; [cbn [length] in *; lia|]).
    cbn [lookup_total list_lookup_total drop] in *. subst. rewrite ?drop_0 in *.
    exists b1, t, (take n d), (drop n d). rewrite take_drop. done.
  - intros (frag & t & w & p & -> & Hwf & Hw & ->). pose proof (to_wire_bytes_nonempty t w Hw).
    rewrite ltb_false_ge by (len_simpl; simpl; lia).
    cbn [app lookup_total list_lookup_total drop]. rewrite ?drop_0.
    rewrite !bool_decide_eq_true_2 by done. cbn [negb orb].
    rewrite (from_wire_bytes_app t w p Hwf Hw). cbn. by rewrite drop_app_length.
Qed.

(** The UDP-in-TCP framing round trip: whatever a writer sends for a
    well-formed target, a reader recovers as the same target, the contiguous
    address and payload and the address length, leaving exactly the bytes after
    the frame; a target is unwritable only when its address exceeds the one-byte
    header length. *)
Theorem udp_tcp_roundtrip (t : TargetAddr) (p rest : bytes) (s s' r : Stream) (u : unit) :
  wf_target t -> ran (write_udp_tcp_packet t p) s u s' ->
  input r = drop (length (output s)) (output s') ++ rest ->
  exists w, to_wire_bytes t = Ok w /\ 3 + length w <= 255 /\
    ran read_udp_tcp_packet r (Some (mkTcpPacket t (w ++ p) (length w)))
      (mkStream rest (output r) (writable r)).
Proof.
  intros Hwf H Hi. unfold write_udp_tcp_packet in H.
  apply ran_bind in H as (w & s0 & H0 & H). apply ran_lift in H0 as [Hw <-].
  apply map_err_Ok_inv in Hw. exists w. split; [done|].
  destruct (Nat.ltb_spec 255 (3 + length w)) as [|Hhl]; [by apply ran_fail in H|]. split; [done|].
  destruct (Z.ltb_spec 65535 (Z.of_nat (length p))) as [|Hpl]; [by apply ran_fail in H|].
  apply ran_bind in H as (? & s1 & H1 & H). apply ran_bind in H as (? & s2 & H2 & H).
  apply ran_bind in H as (? & s3 & H3 & H). rewrite ran_write in *.
  destruct H1 as [_ ->], H2 as [_ ->], H3 as [_ ->], H as [_ ->].
  cbn [output] in Hi. rewrite <- !app_assoc, drop_app_length, <- !app_assoc in Hi.
  rewrite be_bytes_2 in Hi. cbn [app] in Hi.
  unfold read_udp_tcp_packet. apply ran_bind. destruct r as [i o b]. cbn [input output writable] in *.
  subst i. do 2 eexists. split; [reflexivity|].
  cbn [input output writable]. apply ran_bind.
  eexists [_], (mkStream _ o b). split; [apply ran_read; split; [done|]; by split|].
  cbn [lookup_total list_lookup_total]. rewrite <- be_bytes_2, be_val_u16, Nat2Z.id by lia.
  apply ran_bind. eexists [_], (mkStream _ o b). split; [apply ran_read; split; [done|]; by split|].
  cbn [lookup_total list_lookup_total]. rewrite u8_of_nat_len by done.
  rewrite ltb_false_ge by lia. apply ran_bind. exists w, (mkStream (p ++ rest) o b).
  split; [apply ran_read; split; [lia|]; by split|].
  apply ran_bind. exists (t, length w), (mkStream (p ++ rest) o b). split.
  { apply ran_lift. split; [|done]. pose proof (from_wire_bytes_app t w [] Hwf Hw) as Hf.
    rewrite app_nil_r in Hf. by rewrite Hf. }
  cbn [fst snd]. replace (3 + length w - 3) with (length w) by lia.
  rewrite bool_decide_eq_true_2 by done. cbn [negb]. apply ran_bind.
  exists p, (mkStream rest o b). split; [apply ran_read; split; [done|]; by split|]. done.
Qed.

Lemma udp_tcp_roundtrip_witness :
  exists w, to_wire_bytes (IpV4 [x01; x02; x03; x04] 53) = Ok w /\ 3 + length w <= 255 /\
    ran read_udp_tcp_packet
      (mkStream ([x00; x02; x0a; x01; x01; x02; x03; x04; x00; x35] ++ str "hi" ++ str "next") [] true)
      (Some (mkTcpPacket (IpV4 [x01; x02; x03; x04] 53) (w ++ str "hi") (length w)))
      (mkStream (str "next") [] true).
Proof.
  apply (udp_tcp_roundtrip (IpV4 [x01; x02; x03; x04] 53) (str "hi") (str "next")
    (mkStream [] [] true)
    (mkStream [] ([x00; x02; x0a; x01; x01; x02; x03; x04; x00; x35] ++ str "hi") true)
    (mkStream ([x00; x02; x0a; x01; x01; x02; x03; x04; x00; x35] ++ str "hi" ++ str "next") [] true) tt);
    [vm_compute; repeat split; reflexivity || discriminate | vm_compute; reflexivity | reflexivity].
Defined.
