(* ===== verification/Rings.v ===== *)
(** The two replay rings of session resumption: the server's downlink ring
    ([bins/outline-ss-rust/src/server/resumption/downlink_ring.rs], Module
    Downlink) and the client's uplink ring
    ([crates/outline-transport/src/uplink_replay.rs], Module Uplink), both
    refining one specification: the suffix of a byte stream. *)
From S2P Require Import Prelude.

(** [u64::saturating_add] *)
Definition sat_add64 (a b : Z) : Z := Z.min (a + b) (2 ^ 64 - 1).

(** Both files declare the same private [Entry]. *)
Record Entry : Type := mkEntry { offset : Z; payload : bytes }.

(** The copy loop of both [replay_from]s. *)
Fixpoint collect (from : Z) (entries : list Entry) : bytes :=
  match entries with
  | [] => []
  | e :: entries =>
    let entry_end := (offset e + zlen (payload e))%Z in
    (if (entry_end <=? from)%Z then []
     else if (from <=? offset e)%Z then payload e
     else drop (Z.to_nat (from - offset e)) (payload e))
    ++ collect from entries
  end.

(** ** The downlink ring *)
Module Downlink.

Inductive ReplayOutcome : Type :=
  | Available (b : bytes)
  | Truncated
  | OffsetAhead.

Record DownlinkRing : Type := mkRing {
  capacity_bytes : nat;
  entries : list Entry;
  current_bytes : nat;
  total_sent : Z
}.

Definition new (capacity_bytes : nat) : DownlinkRing := mkRing capacity_bytes [] 0 0.

Definition oldest_offset (r : DownlinkRing) : Z :=
  match entries r with e :: _ => offset e | [] => total_sent r end.
Definition buffered_bytes (r : DownlinkRing) : nat := current_bytes r.

Section push.
(** [buffer.capacity() <= chunk_len.saturating_mul(2)]: the capacity of a
    [Vec] is the allocator's, so the test is an arbitrary one. *)
Variable capacity_within : bytes -> nat -> bool.

Definition reusable (buffer : bytes) (chunk_len : nat) : option bytes :=
  if capacity_within buffer chunk_len then Some buffer else None.

Definition store (recycled : option bytes) (chunk : bytes) : bytes :=
  match recycled with
  | Some buffer => take 0 buffer ++ chunk
  | None => chunk
  end.

(** The eviction loop; [None] is the panic of its [expect]. *)
Fixpoint evict (capacity chunk_len current : nat) (es : list Entry) (recycled : option bytes)
    : option (nat * list Entry * option bytes) :=
  match es with
  | [] => if (capacity <? current + chunk_len)%nat then None else Some (current, [], recycled)
  | e :: es' =>
    if (capacity <? current + chunk_len)%nat then
      let recycled := match reusable (payload e) chunk_len with
                      | Some buffer => Some buffer | None => recycled end in
      evict capacity chunk_len (current - length (payload e)) es' recycled
    else Some (current, es, recycled)
  end.

Definition push (r : DownlinkRing) (chunk : bytes) : option DownlinkRing :=
  let sent := sat_add64 (total_sent r) (zlen chunk) in
  if bool_decide (chunk = []) then Some r
  else if bool_decide (capacity_bytes r = 0) then
    Some (mkRing (capacity_bytes r) (entries r) (current_bytes r) sent)
  else if (capacity_bytes r <=? length chunk)%nat then
    let drop_prefix := length chunk - capacity_bytes r in
    let kept_offset := sat_add64 (total_sent r) (Z.of_nat drop_prefix) in
    let kept_payload := drop drop_prefix chunk in
    Some (mkRing (capacity_bytes r) [mkEntry kept_offset kept_payload] (length kept_payload) sent)
  else
    match evict (capacity_bytes r) (length chunk) (current_bytes r) (entries r) None with
    | None => None
    | Some (current, es, recycled) =>
      Some (mkRing (capacity_bytes r) (es ++ [mkEntry (total_sent r) (store recycled chunk)])
              (current + length chunk) sent)
    end.
End push.

Definition replay_from (r : DownlinkRing) (from : Z) : ReplayOutcome :=
  if (total_sent r <? from)%Z then OffsetAhead
  else if bool_decide (from = total_sent r) then Available []
  else if (from <? oldest_offset r)%Z then Truncated
  else Available (collect from (entries r)).
End Downlink.

(** ** The uplink ring *)
Module Uplink.

Inductive PushError : Type := OversizedSingleChunk (chunk_len capacity_bytes : nat).
Inductive ReplayError : Type :=
  | OffsetEvicted (requested oldest_available : Z)
  | OffsetAhead (requested total_sent : Z).

Record ClientUpstreamRingBuffer : Type := mkRing {
  capacity_bytes : nat;
  entries : list Entry;
  current_bytes : nat;
  total_sent : Z
}.

Definition new (capacity_bytes : nat) : ClientUpstreamRingBuffer := mkRing capacity_bytes [] 0 0.

Definition oldest_offset (r : ClientUpstreamRingBuffer) : Z :=
  match entries r with e :: _ => offset e | [] => total_sent r end.
Definition buffered_bytes (r : ClientUpstreamRingBuffer) : nat := current_bytes r.

Fixpoint evict (capacity chunk_len current : nat) (es : list Entry) : option (nat * list Entry) :=
  match es with
  | [] => if (capacity <? current + chunk_len)%nat then None else Some (current, [])
  | e :: es' =>
    if (capacity <? current + chunk_len)%nat
    then evict capacity chunk_len (current - length (payload e)) es'
    else Some (current, es)
  end.

(** [total_sent += chunk.len()] is plain addition: [None] also stands for its
    overflow panic. *)
Definition push (r : ClientUpstreamRingBuffer) (chunk : bytes)
    : option (ClientUpstreamRingBuffer * result PushError unit) :=
  if bool_decide (chunk = []) then Some (r, Ok tt)
  else if (capacity_bytes r <? length chunk)%nat
  then Some (r, Err (OversizedSingleChunk (length chunk) (capacity_bytes r)))
  else
    match evict (capacity_bytes r) (length chunk) (current_bytes r) (entries r) with
    | None => None
    | Some (current, es) =>
      if (2 ^ 64 <=? total_sent r + zlen chunk)%Z then None
      else Some (mkRing (capacity_bytes r) (es ++ [mkEntry (total_sent r) chunk])
                   (current + length chunk) (total_sent r + zlen chunk), Ok tt)
    end.

Definition replay_from (r : ClientUpstreamRingBuffer) (from : Z) : result ReplayError bytes :=
  if (total_sent r <? from)%Z then Err (OffsetAhead from (total_sent r))
  else if bool_decide (from = total_sent r) then Ok []
  else if (from <? oldest_offset r)%Z then Err (OffsetEvicted from (oldest_offset r))
  else Ok (collect from (entries r)).
End Uplink.

(** ** The shared refinement

    [holds sent cap es cur total]: the entries are the contiguous tail of the
    byte stream [sent], within the capacity, and everything if it fits. *)
Section ring_facts.

Fixpoint contiguous (o : Z) (es : list Entry) : Prop :=
  match es with
  | [] => True
  | e :: es => offset e = o /\ payload e <> [] /\ contiguous (o + zlen (payload e)) es
  end.
Definition content (es : list Entry) : bytes := concat (map payload es).
Definition oldest (total : Z) (es : list Entry) : Z :=
  match es with e :: _ => offset e | [] => total end.

Record holds (sent : bytes) (cap : nat) (es : list Entry) (cur : nat) (total : Z) : Prop := {
  hd_total : total = zlen sent;
  hd_cur : cur = length (content es);
  hd_cap : cur <= cap;
  hd_suffix : exists lost, sent = lost ++ content es /\ contiguous (zlen lost) es
}.

Lemma content_app a b : content (a ++ b) = content a ++ content b.
Proof. unfold content. by rewrite map_app, concat_app. Qed.

Lemma contiguous_app o a b :
  contiguous o (a ++ b) <-> contiguous o a /\ contiguous (o + zlen (content a)) b.
Proof.
  revert o. induction a as [|e a IH]; intros o; cbn [app contiguous].
  - change (content []) with (@nil byte). unfold zlen. cbn. rewrite Z.add_0_r. tauto.
  - rewrite IH. change (content (e :: a)) with (payload e ++ content a).
    rewrite zlen_app, Z.add_assoc. tauto.
Qed.

Lemma collect_contiguous o es from : contiguous o es -> (o <= from)%Z ->
  collect from es = drop (Z.to_nat (from - o)) (content es).
Proof.
  revert o. induction es as [|e es IH]; intros o H Hf; cbn [collect].
  - change (content []) with (@nil byte). by rewrite drop_nil.
  - destruct H as (Ho & Hne & Hc). change (content (e :: es)) with (payload e ++ content es).
    assert (Hpos : (0 < zlen (payload e))%Z) by (unfold zlen; destruct (payload e); [done|cbn; lia]).
    rewrite Ho. destruct (Z.leb_spec (o + zlen (payload e)) from).
    + cbn [app]. rewrite (IH _ Hc) by lia. rewrite drop_app_ge by (unfold zlen in *; lia).
      f_equal. unfold zlen in *. lia.
    + assert (Hrest : collect from es = content es).
      { assert (forall es o, (from <= o)%Z -> contiguous o es -> collect from es = content es)
          as Hgen.
        { clear. induction es as [|e es IH]; intros o Hf Hc; [done|].
          destruct Hc as (Ho & Hne & Hc). cbn [collect].
          change (content (e :: es)) with (payload e ++ content es).
          assert (0 < zlen (payload e))%Z by (unfold zlen; destruct (payload e); [done|cbn; lia]).
          rewrite Ho, (proj2 (Z.leb_gt _ _)), (proj2 (Z.leb_le _ _)) by lia.
          f_equal. eapply IH; [|exact Hc]. lia. }
        apply (Hgen _ (o + zlen (payload e))%Z); [lia|done]. }
      rewrite Hrest. destruct (Z.leb_spec from o).
      * replace (Z.to_nat (from - o)) with 0 by lia. by rewrite drop_0.
      * rewrite drop_app_le; [done|]. unfold zlen in *. lia.
Qed.

(** [oldest] is where the retained suffix starts. *)
Lemma oldest_suffix sent cap es cur total lost :
  holds sent cap es cur total -> sent = lost ++ content es -> contiguous (zlen lost) es ->
  oldest total es = zlen lost.
Proof.
  intros [Ht _ _ _] Hs Hc. destruct es as [|e es]; cbn [oldest].
  - subst. change (content []) with (@nil byte). by rewrite app_nil_r.
  - by destruct Hc as (-> & _).
Qed.

(** The answer to a request for the stream from [from] on. *)
Lemma holds_collect sent cap es cur total from :
  holds sent cap es cur total -> (oldest total es <= from)%Z ->
  collect from es = drop (Z.to_nat from) sent.
Proof.
  intros H Hf. destruct (hd_suffix _ _ _ _ _ H) as (lost & Hs & Hc).
  rewrite (oldest_suffix _ _ _ _ _ _ H Hs Hc) in Hf. rewrite (collect_contiguous _ _ _ Hc Hf).
  rewrite Hs, drop_app_ge by (unfold zlen in *; lia). f_equal. unfold zlen in *. lia.
Qed.

(** Dropping the oldest entry, and appending a chunk. *)
Lemma holds_pop sent cap e es cur total :
  holds sent cap (e :: es) cur total -> holds sent cap es (cur - length (payload e)) total.
Proof.
  intros [Ht Hcur Hcap (lost & Hs & Hc)]. destruct Hc as (Ho & Hne & Hc).
  change (content (e :: es)) with (payload e ++ content es) in *. rewrite length_app in Hcur.
  constructor; [done | lia | lia |]. exists (lost ++ payload e).
  rewrite <- app_assoc, zlen_app. done.
Qed.

Lemma holds_append sent cap es cur total chunk :
  holds sent cap es cur total -> chunk <> [] -> cur + length chunk <= cap ->
  holds (sent ++ chunk) cap (es ++ [mkEntry total chunk]) (cur + length chunk) (total + zlen chunk).
Proof.
  intros [Ht Hcur Hcap (lost & Hs & Hc)] Hne Hle.
  assert (Hct : content (es ++ [mkEntry total chunk]) = content es ++ chunk)
    by (rewrite content_app; unfold content at 2; cbn; by rewrite app_nil_r).
  constructor; [by rewrite zlen_app, Ht | rewrite Hct, length_app; lia | done |].
  exists lost. rewrite Hct, app_assoc, <- Hs. split; [done|]. apply contiguous_app.
  split; [done|]. cbn. split; [|done]. rewrite Ht, Hs. by rewrite zlen_app.
Qed.
End ring_facts.

(** ** The downlink ring refines the stream suffix *)
Section downlink_facts.
Import Downlink.
Variable capacity_within : bytes -> nat -> bool.

Lemma downlink_evict sent cap n es cur total recycled :
  holds sent cap es cur total -> n <= cap ->
  exists cur' es' recycled', evict capacity_within cap n cur es recycled = Some (cur', es', recycled') /\
    holds sent cap es' cur' total /\ cur' + n <= cap /\ (cur + n <= cap -> es' = es).
Proof.
  intros H Hn. revert cur recycled H. induction es as [|e es IH]; intros cur recycled H; cbn [evict].
  - pose proof (hd_cur _ _ _ _ _ H) as Hc. change (content []) with (@nil byte) in Hc.
    cbn [length] in Hc. rewrite ltb_false_ge by lia. exists cur, [], recycled. split_and!; (done || lia).
  - destruct (Nat.ltb_spec cap (cur + n)) as [Hlt|Hge]; [|by exists cur, (e :: es), recycled].
    destruct (IH _ (match reusable capacity_within (payload e) n with
      | Some buffer => Some buffer | None => recycled end) (holds_pop _ _ _ _ _ _ H))
      as (cur' & es' & rec' & He & Hh & Hle & _).
    exists cur', es', rec'. split_and!; try done. lia.
Qed.

Lemma store_chunk recycled chunk : store recycled chunk = chunk.
Proof. by destruct recycled. Qed.

Definition represents (sent : bytes) (cap : nat) (r : DownlinkRing) : Prop :=
  capacity_bytes r = cap /\ holds sent cap (entries r) (current_bytes r) (total_sent r) /\
  (length sent <= cap -> content (entries r) = sent).

Lemma represents_new cap : represents [] cap (Downlink.new cap).
Proof. split; [done|]. split; [|done]. constructor; [done|done|cbn; lia|]. by exists []. Qed.
(** A replay off a ring that represents a stream. *)
Lemma represents_replay sent cap r : represents sent cap r ->
  Downlink.total_sent r = zlen sent /\ (0 <= Downlink.oldest_offset r <= zlen sent)%Z /\
  (zlen sent - Downlink.oldest_offset r = Z.of_nat (Downlink.buffered_bytes r))%Z /\
  forall from, (0 <= from)%Z -> Downlink.replay_from r from =
    if (zlen sent <? from)%Z then Downlink.OffsetAhead
    else if (Downlink.oldest_offset r <=? from)%Z
    then Downlink.Available (drop (Z.to_nat from) sent)
    else Downlink.Truncated.
Proof.
  intros (Hc & H & Hall). destruct (hd_suffix _ _ _ _ _ H) as (lost & Hs & Hcon).
  pose proof (oldest_suffix _ _ _ _ _ _ H Hs Hcon) as Ho.
  change (oldest _ _) with (Downlink.oldest_offset r) in Ho.
  pose proof (hd_total _ _ _ _ _ H) as Ht. pose proof (hd_cur _ _ _ _ _ H) as Hcur.
  assert (Hzs : zlen sent = (zlen lost + Z.of_nat (Downlink.current_bytes r))%Z)
    by (rewrite Hs at 1; rewrite zlen_app, Hcur; done).
  unfold Downlink.buffered_bytes. rewrite Ho.
  split_and!; try done; try (unfold zlen in *; lia).
  intros from Hf. unfold Downlink.replay_from. rewrite Ht, Ho.
  destruct (Z.ltb_spec (zlen sent) from); [done|].
  destruct (bool_decide_reflect (from = zlen sent)) as [->|Hne].
  + rewrite (proj2 (Z.leb_le _ _)) by (unfold zlen in *; lia).
    rewrite drop_ge; [done|]. unfold zlen. lia.
  + destruct (Z.leb_spec (zlen lost) from); [|by rewrite (proj2 (Z.ltb_lt _ _)) by lia].
    rewrite (proj2 (Z.ltb_ge _ _)) by lia. f_equal.
    apply (holds_collect _ _ _ _ _ _ H). change (oldest _ _) with (Downlink.oldest_offset r). lia.
Qed.

Lemma sat_add64_exact a b : (a + b < 2 ^ 64)%Z -> sat_add64 a b = (a + b)%Z.
Proof. unfold sat_add64. lia. Qed.

Lemma downlink_push sent cap r chunk :
  represents sent cap r -> (zlen (sent ++ chunk) < 2 ^ 64)%Z ->
  exists r', push capacity_within r chunk = Some r' /\ represents (sent ++ chunk) cap r'.
Proof.
  intros (Hc & H & Hall) Hlen. rewrite zlen_app in Hlen. unfold push. rewrite Hc.
  pose proof (hd_total _ _ _ _ _ H) as Ht.
  rewrite sat_add64_exact by (rewrite Ht; lia).
  destruct (bool_decide_reflect (chunk = [])) as [->|Hne].
  { exists r. rewrite app_nil_r. done. }
  assert (Hpos : 0 < length chunk) by (destruct chunk; [done|cbn; lia]).
  destruct (bool_decide_reflect (cap = 0)) as [->|Hcap].
  { eexists. split; [done|]. split; [done|]. cbn [entries current_bytes total_sent].
    destruct H as [_ Hcur H0 (lost & Hs & Hcon)].
    assert (Hnil : entries r = []).
    { destruct (entries r) as [|e es] eqn:E; [done|]. destruct Hcon as (_ & Hp & _).
      change (content (e :: es)) with (payload e ++ content es) in Hcur.
      rewrite length_app in Hcur. destruct (payload e); [done|]. cbn [length] in Hcur. lia. }
    rewrite Hnil in *. change (content []) with (@nil byte) in *. split.
    - constructor; [by rewrite zlen_app, Ht | done | lia |]. exists (sent ++ chunk).
      by rewrite app_nil_r.
    - rewrite length_app. lia. }
  destruct (Nat.leb_spec cap (length chunk)) as [Hbig|Hfit].
  - eexists. split; [done|]. split; [done|]. cbn [entries current_bytes total_sent].
    set (pre := length chunk - cap). unfold zlen in Hlen.
    rewrite sat_add64_exact by (rewrite Ht; unfold zlen; lia).
    assert (Hsplit : chunk = take pre chunk ++ drop pre chunk) by (by rewrite take_drop).
    assert (Hk : length (drop pre chunk) = cap) by (rewrite length_drop; lia).
    assert (Hcont : forall o, content [mkEntry o (drop pre chunk)] = drop pre chunk)
      by (intros o; unfold content; cbn; apply app_nil_r).
    split.
    + constructor; [by rewrite zlen_app, Ht | by rewrite Hcont | lia |].
      exists (sent ++ take pre chunk). rewrite Hcont, <- app_assoc, take_drop. split; [done|].
      cbn. split_and!; [| intros E; rewrite E in Hk; cbn in Hk; lia | done].
      rewrite zlen_app, Ht. unfold zlen. rewrite length_take. lia.
    + rewrite length_app. intros Hle. assert (length sent = 0) by lia.
      destruct sent; [|done]. rewrite Hcont. unfold pre.
      replace (length chunk - cap) with 0 by lia. by rewrite drop_0.
  - destruct (downlink_evict sent cap (length chunk) (entries r) (current_bytes r) (total_sent r) None H
      ltac:(lia)) as (cur' & es' & rec' & -> & Hh & Hle & Hkeep).
    eexists. split; [done|]. split; [done|]. cbn [entries current_bytes total_sent].
    rewrite store_chunk. split; [by apply holds_append|].
    rewrite length_app. intros Hall'. specialize (Hall ltac:(lia)).
    rewrite Hkeep, content_app, Hall.
    + unfold content. cbn. by rewrite app_nil_r.
    + rewrite (hd_cur _ _ _ _ _ H), Hall. lia.
Qed.

Fixpoint push_all (r : DownlinkRing) (chunks : list bytes) : option DownlinkRing :=
  match chunks with
  | [] => Some r
  | c :: chunks => r' ← push capacity_within r c; push_all r' chunks
  end.

Lemma downlink_push_all sent cap r chunks :
  represents sent cap r -> (zlen (sent ++ concat chunks) < 2 ^ 64)%Z ->
  exists r', push_all r chunks = Some r' /\ represents (sent ++ concat chunks) cap r'.
Proof.
  revert sent r. induction chunks as [|c chunks IH]; intros sent r Hr Hlen; cbn [concat push_all] in *.
  - rewrite app_nil_r. by exists r.
  - rewrite app_assoc in *. destruct (downlink_push sent cap r c Hr) as (r1 & -> & Hr1).
    { rewrite zlen_app in Hlen. unfold zlen in *. lia. }
    by apply IH.
Qed.
End downlink_facts.

(** ** The uplink ring refines the stream suffix *)
Section uplink_facts.
Import Uplink.

Lemma uplink_evict sent cap n es cur total :
  holds sent cap es cur total -> n <= cap ->
  exists cur' es', evict cap n cur es = Some (cur', es') /\
    holds sent cap es' cur' total /\ cur' + n <= cap /\ (cur + n <= cap -> es' = es).
Proof.
  intros H Hn. revert cur H. induction es as [|e es IH]; intros cur H; cbn [evict].
  - pose proof (hd_cur _ _ _ _ _ H) as Hc. change (content []) with (@nil byte) in Hc.
    cbn [length] in Hc. rewrite ltb_false_ge by lia. exists cur, []. split_and!; (done || lia).
  - destruct (Nat.ltb_spec cap (cur + n)) as [Hlt|Hge]; [|by exists cur, (e :: es)].
    destruct (IH _ (holds_pop _ _ _ _ _ _ H)) as (cur' & es' & He & Hh & Hle & _).
    exists cur', es'. split_and!; try done. lia.
Qed.

Definition buffers (sent : bytes) (cap : nat) (r : ClientUpstreamRingBuffer) : Prop :=
  capacity_bytes r = cap /\ holds sent cap (entries r) (current_bytes r) (total_sent r) /\
  (length sent <= cap -> content (entries r) = sent).

(** What a push contributes to the stream: nothing when it is refused. *)
Definition accepted (cap : nat) (chunk : bytes) : bytes :=
  if (cap <? length chunk)%nat then [] else chunk.
Definition verdict (cap : nat) (chunk : bytes) : result PushError unit :=
  if (cap <? length chunk)%nat then Err (OversizedSingleChunk (length chunk) cap) else Ok tt.

Lemma uplink_push sent cap r chunk :
  buffers sent cap r -> (zlen (sent ++ accepted cap chunk) < 2 ^ 64)%Z ->
  exists r', push r chunk = Some (r', verdict cap chunk) /\ buffers (sent ++ accepted cap chunk) cap r'.
Proof.
  intros (Hc & H & Hall) Hlen. unfold push, verdict, accepted in *. rewrite Hc.
  destruct (bool_decide_reflect (chunk = [])) as [->|Hne].
  { rewrite ltb_false_ge by (cbn; lia). exists r. by rewrite app_nil_r. }
  destruct (Nat.ltb_spec cap (length chunk)) as [Hbig|Hfit].
  { exists r. by rewrite app_nil_r. }
  destruct (uplink_evict sent cap (length chunk) (entries r) (current_bytes r) (total_sent r) H Hfit)
    as (cur' & es' & -> & Hh & Hle & Hkeep).
  rewrite zlen_app in Hlen. rewrite (hd_total _ _ _ _ _ H).
  rewrite (proj2 (Z.leb_gt _ _)) by lia. rewrite <- (hd_total _ _ _ _ _ H).
  eexists. split; [done|]. split; [done|]. cbn [entries current_bytes total_sent].
  split; [by apply holds_append|].
  rewrite length_app. intros Hall'. specialize (Hall ltac:(lia)).
  rewrite Hkeep, content_app, Hall.
  - unfold content. cbn. by rewrite app_nil_r.
  - rewrite (hd_cur _ _ _ _ _ H), Hall. lia.
Qed.

Fixpoint push_chunks (r : ClientUpstreamRingBuffer) (chunks : list bytes)
    : option (ClientUpstreamRingBuffer * list (result PushError unit)) :=
  match chunks with
  | [] => Some (r, [])
  | c :: chunks =>
    x ← push r c;
    y ← push_chunks x.1 chunks;
    Some (y.1, x.2 :: y.2)
  end.

Lemma uplink_push_chunks sent cap r chunks :
  buffers sent cap r -> (zlen (sent ++ concat (map (accepted cap) chunks)) < 2 ^ 64)%Z ->
  exists r', push_chunks r chunks = Some (r', map (verdict cap) chunks) /\
    buffers (sent ++ concat (map (accepted cap) chunks)) cap r'.
Proof.
  revert sent r. induction chunks as [|c chunks IH]; intros sent r Hr Hlen;
    cbn [map concat push_chunks] in *.
  - rewrite app_nil_r. by exists r.
  - rewrite app_assoc in *. destruct (uplink_push sent cap r c Hr) as (r1 & -> & Hr1).
    { rewrite zlen_app in Hlen. unfold zlen in *. lia. }
    cbn. destruct (IH _ _ Hr1 Hlen) as (r2 & -> & Hr2). cbn. by exists r2.
Qed.
End uplink_facts.

(** ** Properties *)

(** C40: the downlink ring refines the stream: whatever chunks are pushed, of any size
    and for any capacity, fewer than 2^64 bytes in all, no push panics; the lifetime
    counter is the number of bytes sent, at most the capacity is retained (and
    everything, while it fits), and a replay from an offset is the exact suffix of
    everything sent, or [Truncated] before the oldest retained byte, or
    [OffsetAhead] past the end. *)
Theorem downlink_replay_spec (capacity_within : bytes -> nat -> bool) (cap : nat)
    (chunks : list bytes) :
  let sent := concat chunks in
  (zlen sent < 2 ^ 64)%Z ->
  exists r, push_all capacity_within (Downlink.new cap) chunks = Some r /\
    Downlink.total_sent r = zlen sent /\ Downlink.buffered_bytes r <= cap /\
    (0 <= Downlink.oldest_offset r <= zlen sent)%Z /\
    (zlen sent - Downlink.oldest_offset r = Z.of_nat (Downlink.buffered_bytes r))%Z /\
    (length sent <= cap -> Downlink.oldest_offset r = 0%Z) /\
    forall from, (0 <= from)%Z -> Downlink.replay_from r from =
      if (zlen sent <? from)%Z then Downlink.OffsetAhead
      else if (Downlink.oldest_offset r <=? from)%Z
      then Downlink.Available (drop (Z.to_nat from) sent)
      else Downlink.Truncated.
Proof.
  intros sent Hlen.
  destruct (downlink_push_all capacity_within [] cap _ chunks (represents_new cap) Hlen) as (r & Hr & H).
  cbn [app] in *. fold sent in H. exists r. split; [done|].
  destruct (represents_replay _ _ _ H) as (Ht & Ho & Hb & Hf). destruct H as (Hc & H & Hall).
  pose proof (hd_cap _ _ _ _ _ H) as Hcap. pose proof (hd_cur _ _ _ _ _ H) as Hcur.
  split_and!; try done; [lia..|].
  intros Hfit. specialize (Hall Hfit). unfold Downlink.buffered_bytes, zlen in *. rewrite Hcur, Hall in Hb. lia.
Qed.

Lemma downlink_replay_spec_witness :
  exists r, push_all (fun _ _ => true) (Downlink.new 4) [str "abc"; str "de"; str "f"] = Some r /\
  Downlink.total_sent r = 6%Z.
Proof.
  destruct (downlink_replay_spec (fun _ _ => true) 4 [str "abc"; str "de"; str "f"]) as (r & Hr & Ht & _).
  - vm_compute. reflexivity.
  - exists r. split; [exact Hr | exact Ht].
Defined.

(** The uplink ring refines the stream of accepted chunks: a chunk over the
    capacity is refused and changes nothing, every other push succeeds, and a
    replay from the server's acknowledged offset completes exactly what the
    server has (prefix ++ replay is everything sent), unless the offset was
    evicted or is ahead of everything sent, which are reported as such. *)
Theorem uplink_replay_spec (cap : nat) (chunks : list bytes) :
  let sent := concat (map (accepted cap) chunks) in
  (zlen sent < 2 ^ 64)%Z ->
  exists r, push_chunks (Uplink.new cap) chunks = Some (r, map (verdict cap) chunks) /\
    Uplink.total_sent r = zlen sent /\ Uplink.buffered_bytes r <= cap /\
    (length sent <= cap -> Uplink.oldest_offset r = 0%Z) /\
    forall from, (0 <= from)%Z ->
      match Uplink.replay_from r from with
      | Ok replay => take (Z.to_nat from) sent ++ replay = sent /\
          (Uplink.oldest_offset r <= from <= zlen sent)%Z
      | Err (Uplink.OffsetEvicted q o) => q = from /\ o = Uplink.oldest_offset r /\ (from < o)%Z
      | Err (Uplink.OffsetAhead q t) => q = from /\ t = zlen sent /\ (t < from)%Z
      end.
Proof.
  intros sent Hlen.
  assert (H0 : buffers [] cap (Uplink.new cap)).
  { split; [done|]. split; [|done]. constructor; [done|done|cbn; lia|]. by exists []. }
  destruct (uplink_push_chunks [] cap _ chunks H0 Hlen) as (r & Hr & Hc & H & Hall).
  cbn [app] in *. fold sent in H, Hall. exists r. split; [done|].
  destruct (hd_suffix _ _ _ _ _ H) as (lost & Hs & Hcon).
  pose proof (oldest_suffix _ _ _ _ _ _ H Hs Hcon) as Ho.
  change (oldest _ _) with (Uplink.oldest_offset r) in Ho.
  pose proof (hd_total _ _ _ _ _ H) as Ht. pose proof (hd_cur _ _ _ _ _ H) as Hcur.
  pose proof (hd_cap _ _ _ _ _ H) as Hcap.
  assert (Hzs : zlen sent = (zlen lost + Z.of_nat (Uplink.current_bytes r))%Z)
    by (rewrite Hs at 1; rewrite zlen_app, Hcur; done).
  split_and!; [done | done | |].
  - intros Hfit. specialize (Hall Hfit). rewrite Ho. unfold zlen in *. rewrite Hcur, Hall in Hzs. lia.
  - intros from Hf. unfold Uplink.replay_from. rewrite Ht, Ho.
    destruct (Z.ltb_spec (zlen sent) from); [done|].
    destruct (bool_decide_reflect (from = zlen sent)) as [->|Hne].
    + rewrite app_nil_r, take_ge by (unfold zlen; lia). split; [done|]. unfold zlen in *. lia.
    + destruct (Z.ltb_spec from (zlen lost)); [done|].
      rewrite (holds_collect _ _ _ _ _ from H)
        by (change (oldest _ _) with (Uplink.oldest_offset r); lia).
      rewrite take_drop. split; [done|]. lia.
Qed.

Lemma uplink_replay_spec_witness :
  exists r, push_chunks (Uplink.new 4) [str "abc"; str "toolong"; str "de"] =
    Some (r, [Ok tt; Err (Uplink.OversizedSingleChunk 7 4); Ok tt]) /\ Uplink.total_sent r = 5%Z.
Proof.
  destruct (uplink_replay_spec 4 [str "abc"; str "toolong"; str "de"]) as (r & Hr & Ht & _).
  - vm_compute. reflexivity.
  - exists r. split; [exact Hr | exact Ht].
Defined.
