(* ===== verification/ReplayWindow.v ===== *)
(** The sliding anti-replay window of one client session
    ([bins/outline-ss-rust/src/server/replay.rs], [ReplayWindow]): a bitmap of
    sixteen 64-bit words, shifted as the highest packet id advances, refining
    the set of accepted ids. *)
From S2P Require Import Prelude.
#[local] Open Scope Z_scope.

Definition WINDOW_BITS : Z := 1024.
Definition BITMAP_WORDS : nat := Z.to_nat (WINDOW_BITS / 64).

Record ReplayWindow : Type := mkWindow {
  highest : Z;
  bitmap : list Z;
  initialised : bool
}.

Definition new : ReplayWindow := mkWindow 0 (replicate BITMAP_WORDS 0) false.

Definition with_bitmap (b : list Z) (w : ReplayWindow) : ReplayWindow :=
  mkWindow (highest w) b (initialised w).

(** [self.bitmap[word] |= 1u64 << bit] *)
Definition set_bit (offset : nat) (w : ReplayWindow) : ReplayWindow :=
  let word := (offset / 64)%nat in
  let bit := (offset mod 64)%nat in
  with_bitmap (<[word := Z.lor (bitmap w !!! word) (Z.shiftl 1 (Z.of_nat bit))]> (bitmap w)) w.

Definition get_bit (offset : nat) (w : ReplayWindow) : bool :=
  let word := (offset / 64)%nat in
  let bit := (offset mod 64)%nat in
  bool_decide (Z.land (Z.shiftr (bitmap w !!! word) (Z.of_nat bit)) 1 = 1).

(** One iteration of the loop of [shift_left]; the words below [word_shift] stay
    zero, since the loop stops there. *)
Definition shifted_word (bitmap : list Z) (word_shift : nat) (bit_shift : Z) (i : nat) : Z :=
  if (i <? word_shift)%nat then 0
  else
    let src := (i - word_shift)%nat in
    let v := Z.shiftl (bitmap !!! src) bit_shift mod 2 ^ 64 in
    if negb (bool_decide (bit_shift = 0)) && (1 <=? src)%nat
    then Z.lor v (Z.shiftr (bitmap !!! (src - 1)%nat) (64 - bit_shift))
    else v.

Definition shift_left (n : Z) (w : ReplayWindow) : ReplayWindow :=
  if WINDOW_BITS <=? n then with_bitmap (replicate BITMAP_WORDS 0) w
  else
    let word_shift := Z.to_nat (n / 64) in
    let bit_shift := n mod 64 in
    with_bitmap (map (shifted_word (bitmap w) word_shift bit_shift) (seq 0 BITMAP_WORDS)) w.

Definition with_highest (h : Z) (w : ReplayWindow) : ReplayWindow :=
  mkWindow h (bitmap w) true.

Definition check_and_mark (w : ReplayWindow) (packet_id : Z) : ReplayWindow * bool :=
  if negb (initialised w) then (set_bit 0 (with_highest packet_id w), true)
  else if highest w <? packet_id then
    (set_bit 0 (with_highest packet_id (shift_left (packet_id - highest w) w)), true)
  else
    let offset := highest w - packet_id in
    if WINDOW_BITS <=? offset then (w, false)
    else
      let offset := Z.to_nat offset in
      if get_bit offset w then (w, false) else (set_bit offset w, true).

(** ** The bitmap as a function of the offset *)
Section window_facts.

Definition bit_at (b : list Z) (i : nat) : bool :=
  Z.testbit (b !!! (i / 64)%nat) (Z.of_nat (i mod 64)).
Definition words_ok (b : list Z) : Prop :=
  length b = BITMAP_WORDS /\ Forall (fun x => 0 <= x < 2 ^ 64) b.

Lemma get_bit_spec i w : get_bit i w = bit_at (bitmap w) i.
Proof.
  unfold get_bit, bit_at. set (x := bitmap w !!! _). set (k := Z.of_nat _).
  assert (0 <= k) by (unfold k; lia).
  assert (Z.land (Z.shiftr x k) 1 = Z.shiftr x k mod 2) as ->
    by (apply (Z.land_ones (Z.shiftr x k) 1); lia).
  rewrite <- Z.bit0_mod, Z.shiftr_spec, Z.add_0_l by lia.
  by destruct (Z.testbit x k).
Qed.

Lemma div_mod_64 i : (i = 64 * (i / 64) + i mod 64 /\ i mod 64 < 64)%nat.
Proof. split; [apply Nat.div_mod_eq | apply Nat.mod_upper_bound; lia]. Qed.

Lemma word_bound i : (i < 1024)%nat -> (i / 64 < BITMAP_WORDS)%nat.
Proof. intros H. change BITMAP_WORDS with 16%nat. apply Nat.Div0.div_lt_upper_bound. lia. Qed.

Lemma word_range b i : words_ok b -> 0 <= b !!! i < 2 ^ 64.
Proof.
  intros [_ H]. destruct (b !! i) as [x|] eqn:E.
  - rewrite (list_lookup_total_correct _ _ _ E). by eapply (Forall_lookup_1 _ _ _ _ H).
  - rewrite list_lookup_total_alt, E. cbn. lia.
Qed.

Lemma testbit_high x k : 0 <= x < 2 ^ 64 -> 64 <= k -> Z.testbit x k = false.
Proof.
  intros Hx Hk. destruct (Z.eq_dec x 0) as [->|Hne]; [apply Z.testbit_0_l|].
  apply Z.bits_above_log2; [lia|]. apply Z.log2_lt_pow2; [lia|].
  apply (Z.lt_le_trans _ (2 ^ 64)); [lia|]. apply Z.pow_le_mono_r; lia.
Qed.

Lemma range_of_bits x : 0 <= x -> (forall k, 64 <= k -> Z.testbit x k = false) -> 0 <= x < 2 ^ 64.
Proof.
  intros Hx H. split; [done|]. assert (x mod 2 ^ 64 = x) as <-.
  { apply Z.bits_inj'. intros k Hk. destruct (Z.ltb_spec k 64).
    - by rewrite Z.mod_pow2_bits_low.
    - rewrite Z.mod_pow2_bits_high by lia. symmetry. apply H. lia. }
  apply Z.mod_pos_bound. lia.
Qed.

Lemma set_bit_ok i w : words_ok (bitmap w) -> words_ok (bitmap (set_bit i w)).
Proof.
  intros Hok. pose proof Hok as [Hl Hf]. unfold set_bit, with_bitmap. cbn [bitmap].
  split; [by rewrite length_insert|]. apply Forall_insert; [done|].
  pose proof (word_range _ (i / 64)%nat Hok) as Hx.
  apply range_of_bits.
  - apply Z.lor_nonneg. split; [lia|]. apply Z.shiftl_nonneg. lia.
  - intros k Hk. rewrite Z.lor_spec, (testbit_high _ _ Hx Hk). cbn [orb].
    pose proof (div_mod_64 i). rewrite Z.shiftl_spec by lia.
    change 1 with (2 ^ 0). apply Z.pow2_bits_false. lia.
Qed.

Lemma bit_set i j w : words_ok (bitmap w) -> (i < 1024)%nat ->
  bit_at (bitmap (set_bit i w)) j = bool_decide (j = i) || bit_at (bitmap w) j.
Proof.
  intros [Hl _] Hi. unfold set_bit, with_bitmap, bit_at. cbn [bitmap].
  pose proof (div_mod_64 i). pose proof (div_mod_64 j). pose proof (word_bound i Hi).
  destruct (decide ((j / 64)%nat = (i / 64)%nat)) as [E|E].
  - rewrite E, list_lookup_total_insert_eq by lia.
    rewrite Z.lor_spec, Z.shiftl_spec by lia. change 1 with (2 ^ 0).
    rewrite orb_comm. f_equal. case_bool_decide as Hij.
    + subst j. by rewrite Z.sub_diag.
    + apply Z.pow2_bits_false. intros Hz. apply Hij. lia.
  - rewrite list_lookup_total_insert_ne by done. case_bool_decide; [|done]. congruence.
Qed.

Lemma shifted_word_bit b ws bs i k : words_ok b -> 0 <= bs < 64 -> 0 <= k < 64 ->
  Z.testbit (shifted_word b ws bs i) k =
  let pos := Z.of_nat (64 * i) + k - (64 * Z.of_nat ws + bs) in
  if pos <? 0 then false else bit_at b (Z.to_nat pos).
Proof.
  intros Hok Hbs Hk. cbn zeta. unfold shifted_word. destruct (Nat.ltb_spec i ws).
  { rewrite (proj2 (Z.ltb_lt _ 0)) by lia. apply Z.testbit_0_l. }
  set (src := (i - ws)%nat).
  replace (Z.of_nat (64 * i) + k - (64 * Z.of_nat ws + bs)) with (64 * Z.of_nat src + k - bs) by lia.
  assert (Hlow : Z.testbit (Z.shiftl (b !!! src) bs mod 2 ^ 64) k =
    if k <? bs then false else bit_at b (Z.to_nat (64 * Z.of_nat src + k - bs))).
  { rewrite Z.mod_pow2_bits_low, Z.shiftl_spec by lia. destruct (Z.ltb_spec k bs).
    - apply Z.testbit_neg_r. lia.
    - unfold bit_at. replace (Z.to_nat (64 * Z.of_nat src + k - bs))
        with (Z.to_nat (k - bs) + src * 64)%nat by lia.
      rewrite Nat.div_add, Nat.Div0.mod_add, Nat.div_small, Nat.mod_small by lia.
      rewrite Nat.add_0_l. f_equal. lia. }
  destruct (bool_decide_reflect (bs = 0)) as [->|Hb]; cbn [negb andb].
  { rewrite Hlow, (proj2 (Z.ltb_ge k 0)), (proj2 (Z.ltb_ge _ 0)) by lia. done. }
  destruct (Nat.leb_spec 1 src).
  - rewrite Z.lor_spec, Hlow, Z.shiftr_spec by lia. destruct (Z.ltb_spec k bs).
    + cbn [orb]. rewrite (proj2 (Z.ltb_ge _ 0)) by lia. unfold bit_at.
      replace (Z.to_nat (64 * Z.of_nat src + k - bs))
        with (Z.to_nat (64 + k - bs) + (src - 1) * 64)%nat by lia.
      rewrite Nat.div_add, Nat.Div0.mod_add, Nat.div_small, Nat.mod_small by lia.
      rewrite Nat.add_0_l. f_equal. lia.
    + rewrite (testbit_high (b !!! _)) by (first [by apply word_range | lia]).
      rewrite orb_false_r, (proj2 (Z.ltb_ge _ 0)) by lia. done.
  - rewrite Hlow. replace src with 0%nat by lia. destruct (Z.ltb_spec k bs).
    + by rewrite (proj2 (Z.ltb_lt _ 0)) by lia.
    + by rewrite (proj2 (Z.ltb_ge _ 0)) by lia.
Qed.

Lemma replicate_zero_ok : words_ok (replicate BITMAP_WORDS 0).
Proof. split; [by rewrite length_replicate|]. apply Forall_replicate. lia. Qed.

Lemma bit_replicate_zero j : (j < 1024)%nat -> bit_at (replicate BITMAP_WORDS 0) j = false.
Proof.
  intros Hj. unfold bit_at. rewrite lookup_total_replicate_2 by (by apply word_bound).
  apply Z.testbit_0_l.
Qed.

Lemma shifted_word_range b ws bs i : words_ok b -> 0 <= bs < 64 ->
  0 <= shifted_word b ws bs i < 2 ^ 64.
Proof.
  intros Hok Hbs. unfold shifted_word. destruct (i <? ws)%nat; [lia|].
  pose proof (Z.mod_pos_bound (Z.shiftl (b !!! (i - ws)%nat) bs) (2 ^ 64) ltac:(lia)) as Hm.
  destruct (negb _ && _) eqn:E; [|done]. apply andb_prop in E as [E _].
  apply negb_true_iff, bool_decide_eq_false_1 in E.
  pose proof (word_range b (i - ws - 1)%nat Hok) as Hw. apply range_of_bits.
  - apply Z.lor_nonneg. split; [lia|]. apply Z.shiftr_nonneg. lia.
  - intros k Hk. rewrite Z.lor_spec, (testbit_high _ _ Hm Hk), Z.shiftr_spec by lia.
    apply (testbit_high _ _ Hw). lia.
Qed.

Lemma shift_left_ok n w : 0 < n -> words_ok (bitmap w) -> words_ok (bitmap (shift_left n w)).
Proof.
  intros Hn Hok. unfold shift_left, with_bitmap. destruct (WINDOW_BITS <=? n); cbn [bitmap].
  - apply replicate_zero_ok.
  - split; [by rewrite length_map, length_seq|].
    apply List.Forall_map, List.Forall_forall. intros i _. apply shifted_word_range; [done|].
    apply Z.mod_pos_bound. lia.
Qed.

(** Shifting moves every mark up and drops what leaves the window. *)
Lemma bit_shift n w j : 0 < n -> words_ok (bitmap w) -> (j < 1024)%nat ->
  bit_at (bitmap (shift_left n w)) j =
  if Z.of_nat j <? n then false else bit_at (bitmap w) (Z.to_nat (Z.of_nat j - n)).
Proof.
  intros Hn Hok Hj. unfold shift_left, with_bitmap, WINDOW_BITS.
  destruct (Z.leb_spec 1024 n); cbn [bitmap].
  - rewrite bit_replicate_zero by done. by rewrite (proj2 (Z.ltb_lt _ _)) by lia.
  - unfold bit_at at 1. pose proof (word_bound j Hj). pose proof (div_mod_64 j) as [Hj1 Hj2].
    set (f := shifted_word _ _ _).
    assert (map f (seq 0 BITMAP_WORDS) !!! (j / 64)%nat = f (j / 64)%nat) as ->.
    { apply list_lookup_total_correct. rewrite list_lookup_fmap, lookup_seq_lt by done. done. }
    pose proof (Z.mod_pos_bound n 64 ltac:(lia)). pose proof (Z.div_mod n 64 ltac:(lia)).
    pose proof (Z.div_pos n 64 ltac:(lia) ltac:(lia)).
    unfold f. rewrite shifted_word_bit by (done || lia). cbn zeta.
    replace (Z.of_nat (64 * (j / 64)) + Z.of_nat (j mod 64) -
      (64 * Z.of_nat (Z.to_nat (n / 64)) + n mod 64)) with (Z.of_nat j - n) by lia.
    destruct (Z.ltb_spec (Z.of_nat j - n) 0), (Z.ltb_spec (Z.of_nat j) n); (done || lia).
Qed.
End window_facts.

(** ** The specification: a set of accepted ids *)
Section refinement.

(** An id is fresh when it was not accepted before and is less than a window
    behind every accepted one. *)
Definition fresh (acc : list Z) (p : Z) : bool :=
  bool_decide (p ∉ acc) && forallb (fun q => q - p <? WINDOW_BITS) acc.

Record represents (acc : list Z) (w : ReplayWindow) : Prop := {
  rp_words : words_ok (bitmap w);
  rp_init : initialised w = false <-> acc = [];
  rp_empty : acc = [] -> bitmap w = replicate BITMAP_WORDS 0;
  rp_high : acc <> [] -> highest w ∈ acc /\ forall q, q ∈ acc -> q <= highest w;
  rp_bits : acc <> [] -> forall j, (j < 1024)%nat ->
    bit_at (bitmap w) j = bool_decide (highest w - Z.of_nat j ∈ acc)
}.

Lemma new_represents : represents [] new.
Proof.
  constructor; [apply replicate_zero_ok | split; done | done | done | done].
Qed.

(** Marking the new highest id after the older marks were moved to [old]. *)
Lemma represents_mark_highest acc p b : words_ok b ->
  (forall q, q ∈ acc -> q < p) ->
  (forall j, (0 < j < 1024)%nat -> bit_at b j = bool_decide (p - Z.of_nat j ∈ acc)) ->
  represents (p :: acc) (set_bit 0 (mkWindow p b true)).
Proof.
  intros Hb Hlt Hbits. constructor.
  - by apply set_bit_ok.
  - split; discriminate.
  - discriminate.
  - intros _. cbn [set_bit with_bitmap highest]. split; [left|].
    intros q Hq. apply elem_of_cons in Hq as [->|Hq]; [lia|]. specialize (Hlt q Hq). lia.
  - intros _ j Hj. cbn [set_bit with_bitmap highest].
    change (bitmap _) with (bitmap (set_bit 0 (mkWindow p b true))).
    rewrite bit_set by (done || lia). cbn [bitmap].
    destruct (decide (j = 0%nat)) as [->|Hne].
    + rewrite (bool_decide_eq_true_2 (0%nat = 0%nat)) by done. cbn [orb].
      rewrite bool_decide_eq_true_2; [done|]. rewrite Z.sub_0_r. left.
    + rewrite (bool_decide_eq_false_2 (j = 0%nat)) by done. cbn [orb]. rewrite Hbits by lia.
      apply bool_decide_ext. rewrite elem_of_cons. split; [auto|]. intros [E|H]; [lia|done].
Qed.

Lemma check_and_mark_spec acc w p : represents acc w ->
  let r := check_and_mark w p in
  r.2 = fresh acc p /\ represents (if fresh acc p then p :: acc else acc) r.1.
Proof.
  intros Hrep. pose proof Hrep as [Hw Hi Hz Hh Hb]. unfold check_and_mark. destruct (initialised w) eqn:Einit; cbn [negb].
  2:{ clear Hrep. rewrite (proj1 Hi eq_refl) in *. cbn [fst snd].
      assert (fresh [] p = true) as -> by done. split; [done|].
      apply represents_mark_highest; [done | intros q Hq; by apply not_elem_of_nil in Hq |].
      intros j Hj. rewrite (Hz eq_refl), bit_replicate_zero by lia.
      rewrite bool_decide_eq_false_2; [done|]. apply not_elem_of_nil. }
  assert (Hne : acc <> []) by (intros E; apply Hi in E; congruence).
  destruct (Hh Hne) as [Hin Hmax]. specialize (Hb Hne).
  destruct (Z.ltb_spec (highest w) p) as [Hgt|Hle]; cbn [fst snd].
  - assert (Hf : fresh acc p = true).
    { unfold fresh. rewrite andb_true_iff, forallb_forall. split.
      - apply bool_decide_eq_true_2. intros Hp. specialize (Hmax p Hp). lia.
      - intros q Hq. apply list_elem_of_In in Hq. specialize (Hmax q Hq).
        apply Z.ltb_lt. unfold WINDOW_BITS. lia. }
    rewrite Hf. split; [done|].
    apply represents_mark_highest; [apply shift_left_ok; [lia|done] | |].
    + intros q Hq. specialize (Hmax q Hq). lia.
    + intros j Hj. rewrite bit_shift by (done || lia). destruct (Z.ltb_spec (Z.of_nat j) (p - highest w)).
      * rewrite bool_decide_eq_false_2; [done|]. intros Hp. specialize (Hmax _ Hp). lia.
      * rewrite Hb by lia.
        replace (highest w - Z.of_nat (Z.to_nat (Z.of_nat j - (p - highest w))))
          with (p - Z.of_nat j) by lia. done.
  - destruct (Z.leb_spec WINDOW_BITS (highest w - p)) as [Hold|Hnew].
    + assert (fresh acc p = false) as ->; [|by split].
      unfold fresh. rewrite andb_false_iff. right. apply not_true_is_false. intros H.
      rewrite forallb_forall in H. apply list_elem_of_In in Hin. specialize (H _ Hin).
      apply Z.ltb_lt in H. lia.
    + set (o := Z.to_nat (highest w - p)). unfold WINDOW_BITS in *.
      rewrite get_bit_spec, Hb by lia.
      replace (highest w - Z.of_nat o) with p by lia.
      assert (Hf : fresh acc p = bool_decide (p ∉ acc)).
      { unfold fresh. replace (forallb _ acc) with true; [by rewrite andb_true_r|].
        symmetry. apply forallb_forall. intros q Hq. apply list_elem_of_In in Hq.
        specialize (Hmax q Hq). apply Z.ltb_lt. unfold WINDOW_BITS. lia. }
      rewrite Hf. destruct (decide (p ∈ acc)) as [Hp|Hp].
      * rewrite bool_decide_eq_true_2, bool_decide_eq_false_2 by tauto. by split.
      * rewrite (bool_decide_eq_false_2 (p ∈ acc)), bool_decide_eq_true_2 by done.
        split; [done|]. constructor.
        -- by apply set_bit_ok.
        -- unfold set_bit, with_bitmap. cbn [fst initialised]. rewrite Einit. split; discriminate.
        -- discriminate.
        -- intros _. cbn [fst]. change (highest (set_bit o w)) with (highest w). split; [by right|].
           intros q Hq. apply elem_of_cons in Hq as [->|Hq]; [lia|by apply Hmax].
        -- intros _ j Hj. cbn [fst]. change (highest (set_bit o w)) with (highest w).
           rewrite bit_set, Hb by (done || lia).
           apply Bool.eq_iff_eq_true. rewrite orb_true_iff, !bool_decide_eq_true, elem_of_cons.
           split; intros [H|H]; auto; left; lia.
Qed.

(** Feeding a list of ids, with the verdicts; and what the specification says. *)
Fixpoint check_all (w : ReplayWindow) (ps : list Z) : ReplayWindow * list bool :=
  match ps with
  | [] => (w, [])
  | p :: ps =>
    let (w1, r) := check_and_mark w p in
    let (w2, rs) := check_all w1 ps in (w2, r :: rs)
  end.
Fixpoint fresh_all (acc : list Z) (ps : list Z) : list bool :=
  match ps with
  | [] => []
  | p :: ps => fresh acc p :: fresh_all (if fresh acc p then p :: acc else acc) ps
  end.

Lemma check_all_spec acc w ps : represents acc w -> (check_all w ps).2 = fresh_all acc ps.
Proof.
  revert acc w. induction ps as [|p ps IH]; intros acc w H; [done|]. cbn [check_all fresh_all].
  pose proof (check_and_mark_spec acc w p H) as [Hr Hw]. cbn zeta in Hr, Hw.
  destruct (check_and_mark w p) as [w1 r]. cbn [fst snd] in *. subst r.
  specialize (IH _ _ Hw). destruct (check_all w1 ps) as [w2 rs]. cbn [snd] in *. by rewrite IH.
Qed.

(** The ids a verdict list lets through. *)
Fixpoint let_through (ps : list Z) (rs : list bool) : list Z :=
  match ps, rs with
  | p :: ps, true :: rs => p :: let_through ps rs
  | _ :: ps, false :: rs => let_through ps rs
  | _, _ => []
  end.

Lemma fresh_all_nodup acc ps : NoDup acc ->
  NoDup (let_through ps (fresh_all acc ps)) /\
  forall p, p ∈ let_through ps (fresh_all acc ps) -> p ∉ acc.
Proof.
  revert acc. induction ps as [|p ps IH]; intros acc Hn; cbn [fresh_all let_through].
  - split; [constructor|]. intros q Hq. by apply not_elem_of_nil in Hq.
  - destruct (fresh acc p) eqn:Ef; [|by apply IH].
    assert (Hp : p ∉ acc).
    { unfold fresh in Ef. apply andb_prop in Ef as [Ef _]. by apply bool_decide_eq_true_1 in Ef. }
    destruct (IH (p :: acc)) as [H1 H2]; [by constructor|]. split.
    + constructor; [|done]. intros Hin. specialize (H2 p Hin). apply H2. left.
    + intros q Hq. apply elem_of_cons in Hq as [->|Hq]; [done|].
      specialize (H2 q Hq). intros Hq'. apply H2. by right.
Qed.
End refinement.

(** ** Properties *)

(** C34: the 1024-bit sliding window is exact: fed any sequence of packet ids, it
    answers precisely as the mathematical set of accepted ids would (fresh if and
    only if never accepted and less than 1024 behind the highest), word shifts
    included, and so lets no id through twice. *)
Theorem replay_window_exact (ps : list Z) :
  let verdicts := (check_all new ps).2 in
  verdicts = fresh_all [] ps /\ NoDup (let_through ps verdicts).
Proof.
  cbn zeta. rewrite (check_all_spec [] new ps new_represents). split; [done|].
  apply fresh_all_nodup. constructor.
Qed.

(** Reordering within the window is tolerated: an id above every one seen, or
    one that was never seen and is less than a window behind the highest, is
    always accepted, whatever came before. *)
Theorem replay_window_tolerates (ps : list Z) (p : Z) :
  let acc := let_through ps (check_all new ps).2 in
  p ∉ acc -> (forall q, q ∈ acc -> q - p < WINDOW_BITS) ->
  (check_and_mark (check_all new ps).1 p).2 = true.
Proof.
  assert (H : forall ps acc w, represents acc w -> exists acc', represents acc' (check_all w ps).1 /\
    forall q, q ∈ acc' <-> q ∈ acc \/ q ∈ let_through ps (check_all w ps).2).
  { clear. induction ps as [|p ps IH]; intros acc w Hw; cbn [check_all].
    - exists acc. split; [done|]. intros q. cbn. rewrite elem_of_nil. tauto.
    - pose proof (check_and_mark_spec acc w p Hw) as [Hr Hw1]. cbn zeta in Hr, Hw1.
      destruct (check_and_mark w p) as [w1 r]. cbn [fst snd] in *.
      destruct (IH _ _ Hw1) as (acc' & Ha & Hq). destruct (check_all w1 ps) as [w2 rs].
      cbn [fst snd] in *. exists acc'. split; [done|]. intros q. rewrite Hq. subst r.
      destruct (fresh acc p); cbn [let_through]; rewrite ?elem_of_cons; tauto. }
  cbn zeta. intros Hp Hold. destruct (H ps [] new new_represents) as (acc & Ha & Hq).
  rewrite (proj1 (check_and_mark_spec _ _ p Ha)). unfold fresh.
  rewrite andb_true_iff, forallb_forall. split.
  - apply bool_decide_eq_true_2. rewrite Hq, elem_of_nil. tauto.
  - intros q Hin. apply Z.ltb_lt, Hold. apply list_elem_of_In, Hq in Hin.
    rewrite elem_of_nil in Hin. tauto.
Qed.

Lemma replay_window_tolerates_witness :
  (check_and_mark (check_all new [5; 1030; 7]).1 1029).2 = true.
Proof.
  apply (replay_window_tolerates [5; 1030; 7] 1029).
  - vm_compute. intros H. repeat (apply elem_of_cons in H as [H|H]; [discriminate|]).
    by apply not_elem_of_nil in H.
  - vm_compute. intros q H. repeat (apply elem_of_cons in H as [->|H]; [reflexivity|]).
    by apply not_elem_of_nil in H.
Defined.
