(* ===== verification/ReplayStore.v ===== *)
(** The process-wide anti-replay store
    ([bins/outline-ss-rust/src/server/replay.rs], [ReplayStore]): session
    windows, the legacy salt set, and the global and per-user caps. Each method
    is one step here: the interleavings of the concurrent maps inside a method
    (which make the global cap a soft bound) are not modelled. *)
From S2P Require Import Prelude ReplayWindow.

Abbreviation LegacySalt := bytes.
Abbreviation User := bytes.

Inductive UdpCipherMode : Type :=
  | Legacy
  | Aes2022 (client_session_id : bytes)
  | Chacha2022 (client_session_id : bytes).

Definition replay_key (session : UdpCipherMode) (packet_id : option Z) : option (bytes * Z) :=
  match session with
  | Legacy => None
  | Aes2022 csid | Chacha2022 csid => (fun pid => (csid, pid)) <$> packet_id
  end.

Record ReplayEntry : Type := mkEntry {
  window : ReplayWindow;
  last_seen_secs : Z;
  e_owner : User
}.
Record LegacySaltEntry : Type := mkSalt { s_owner : User; first_seen : Z }.

Inductive ReplayFull : Type := Global | PerUser.
Definition reason (f : ReplayFull) : bytes :=
  match f with Global => str "max_sessions" | PerUser => str "max_sessions_per_user" end.
Inductive ReplayCheck : Type := Fresh | Replay | StoreFull (f : ReplayFull).

Record ReplayStore : Type := mkStore {
  entries : gmap bytes ReplayEntry;
  legacy_salts : gmap LegacySalt LegacySaltEntry;
  per_user : gmap User nat
}.

Definition store_new : ReplayStore := mkStore ∅ ∅ ∅.

Section store.
Variable idle_timeout : Z.
Variable max_sessions : nat.
Variable max_sessions_per_user : nat.

Definition with_users (m : gmap User nat) (s : ReplayStore) : ReplayStore :=
  mkStore (entries s) (legacy_salts s) m.

Definition reserve_user_slot (user : User) (s : ReplayStore) : ReplayStore * bool :=
  if bool_decide (max_sessions_per_user = 0) then (s, true)
  else
    let count := default 0 (per_user s !! user) in
    if (max_sessions_per_user <=? count)%nat
    then (with_users (<[user := count]> (per_user s)) s, false)
    else (with_users (<[user := S count]> (per_user s)) s, true).

Definition release_user_slot (user : User) (s : ReplayStore) : ReplayStore :=
  if bool_decide (max_sessions_per_user = 0) then s
  else
    match per_user s !! user with
    | Some count =>
      let count := count - 1 in
      with_users (if bool_decide (count = 0) then delete user (per_user s)
                  else <[user := count]> (per_user s)) s
    | None => s
    end.

(** The window check on an entry found or just made, with [last_seen] stored. *)
Definition mark_entry (now : Z) (csid : bytes) (packet_id : Z) (e : ReplayEntry)
    (s : ReplayStore) : ReplayStore * ReplayCheck :=
  let (w, fresh) := ReplayWindow.check_and_mark (window e) packet_id in
  (mkStore (<[csid := mkEntry w now (e_owner e)]> (entries s)) (legacy_salts s) (per_user s),
   if fresh then Fresh else Replay).

Definition check_and_mark (now : Z) (user_id : User) (csid : bytes) (packet_id : Z)
    (s : ReplayStore) : ReplayStore * ReplayCheck :=
  match entries s !! csid with
  | Some e => mark_entry now csid packet_id e s
  | None =>
    if (0 <? max_sessions)%nat && (max_sessions <=? size (entries s))%nat
    then (s, StoreFull Global)
    else
      let (s, ok) := reserve_user_slot user_id s in
      if negb ok then (s, StoreFull PerUser)
      else mark_entry now csid packet_id (mkEntry ReplayWindow.new now user_id) s
  end.

Definition check_and_mark_legacy_salt (now : Z) (user_id : User) (salt : LegacySalt)
    (s : ReplayStore) : ReplayStore * ReplayCheck :=
  match legacy_salts s !! salt with
  | Some _ => (s, Replay)
  | None =>
    if (0 <? max_sessions)%nat && (max_sessions <=? size (legacy_salts s))%nat
    then (s, StoreFull Global)
    else
      let (s, ok) := reserve_user_slot user_id s in
      if negb ok then (s, StoreFull PerUser)
      else (mkStore (entries s) (<[salt := mkSalt user_id now]> (legacy_salts s)) (per_user s), Fresh)
  end.

(** [sweep]: the two [retain]s, then the release of every evicted owner. *)
Definition threshold (now : Z) : Z := Z.max 0 (now - idle_timeout).
Definition idle_entry (now : Z) (kv : bytes * ReplayEntry) : bool :=
  (last_seen_secs kv.2 <? threshold now)%Z.
Definition idle_salt (now : Z) (kv : bytes * LegacySaltEntry) : bool :=
  (first_seen kv.2 <? threshold now)%Z.
Definition sweep (now : Z) (s : ReplayStore) : ReplayStore * nat :=
  let kept := filter (fun kv => idle_entry now kv = false) (entries s) in
  let gone := filter (fun kv => idle_entry now kv = true) (entries s) in
  let kept_salts := filter (fun kv => idle_salt now kv = false) (legacy_salts s) in
  let gone_salts := filter (fun kv => idle_salt now kv = true) (legacy_salts s) in
  let evicted := size gone + size gone_salts in
  let released :=
    if (0 <? max_sessions_per_user)%nat
    then map (fun kv => e_owner kv.2) (map_to_list gone)
         ++ map (fun kv => s_owner kv.2) (map_to_list gone_salts)
    else [] in
  (foldl (fun s u => release_user_slot u s) (mkStore kept kept_salts (per_user s)) released,
   evicted).

Inductive op : Type :=
  | OpCheck (now : Z) (user : User) (csid : bytes) (packet_id : Z)
  | OpSalt (now : Z) (user : User) (salt : LegacySalt)
  | OpSweep (now : Z).
Definition apply (s : ReplayStore) (o : op) : ReplayStore :=
  match o with
  | OpCheck now u csid pid => (check_and_mark now u csid pid s).1
  | OpSalt now u salt => (check_and_mark_legacy_salt now u salt s).1
  | OpSweep now => (sweep now s).1
  end.
End store.

(** ** Per-user accounting *)
Section accounting.
Variable idle_timeout : Z.
Variable max_sessions : nat.
Variable cap : nat.
Hypothesis cap_on : cap <> 0.

(** How many entries a user holds across both maps. *)
Definition owned_in {A} (owner : A -> User) (u : User) (m : gmap bytes A) : nat :=
  size (filter (fun kv => owner kv.2 = u) m).
Definition owned (u : User) (s : ReplayStore) : nat :=
  owned_in e_owner u (entries s) + owned_in s_owner u (legacy_salts s).

Record accounted (s : ReplayStore) : Prop := {
  ac_count u : default 0 (per_user s !! u) = owned u s;
  ac_zero u : per_user s !! u <> Some 0;
  ac_cap u : owned u s <= cap
}.

Section owned_facts.
Context {A : Type} (owner : A -> User).

Lemma owned_insert_new (u : User) (m : gmap bytes A) k x : m !! k = None ->
  owned_in owner u (<[k := x]> m) =
  (if decide (owner x = u) then 1 else 0) + owned_in owner u m.
Proof.
  intros Hk. unfold owned_in. destruct (decide (owner x = u)).
  - rewrite map_filter_insert_True by done. rewrite map_size_insert_None; [done|].
    apply map_lookup_filter_None. by left.
  - rewrite map_filter_insert_False by done. by rewrite delete_id.
Qed.

Lemma owned_update (u : User) (m : gmap bytes A) k x y : m !! k = Some x -> owner y = owner x ->
  owned_in owner u (<[k := y]> m) = owned_in owner u m.
Proof.
  intros Hk Ho.
  rewrite <- (insert_id m k x Hk) at 2. rewrite <- !(insert_delete_eq m).
  rewrite !owned_insert_new by apply lookup_delete_eq. by rewrite Ho.
Qed.

Lemma owned_split (u : User) (m : gmap bytes A) (p : bytes * A -> bool) :
  owned_in owner u m =
  owned_in owner u (filter (fun x => p x = false) m)
  + owned_in owner u (filter (fun x => p x = true) m).
Proof.
  induction m as [|k x m Hk IH] using map_ind.
  - unfold owned_in. by rewrite !map_filter_empty.
  - rewrite owned_insert_new by done. rewrite IH.
    assert (Hn : forall b, filter (fun x => p x = b) m !! k = None)
      by (intros; apply map_lookup_filter_None; by left).
    destruct (p (k, x)) eqn:HP.
    + rewrite (map_filter_insert_True (fun x => p x = true)), owned_insert_new by (done || apply Hn).
      rewrite (map_filter_insert_False (fun x => p x = false) m) by congruence.
      rewrite (delete_id m) by done. lia.
    + rewrite (map_filter_insert_False (fun x => p x = true) m) by congruence.
      rewrite (delete_id m) by done.
      rewrite (map_filter_insert_True (fun x => p x = false)), owned_insert_new by (done || apply Hn).
      lia.
Qed.

Lemma owned_list (u : User) (m : gmap bytes A) :
  length (filter (fun v => v = u) (map (fun kv => owner kv.2) (map_to_list m))) = owned_in owner u m.
Proof.
  induction m as [|k x m Hk IH] using map_ind.
  - unfold owned_in. rewrite map_filter_empty, map_to_list_empty. done.
  - rewrite owned_insert_new by done. rewrite <- IH.
    assert (Hp : map (fun kv => owner kv.2) (map_to_list (<[k:=x]> m)) ≡ₚ
      owner x :: map (fun kv => owner kv.2) (map_to_list m)).
    { change (owner x :: _) with (map (fun kv : bytes * A => owner kv.2) ((k, x) :: map_to_list m)).
      by rewrite map_to_list_insert. }
    rewrite Hp, filter_cons. destruct (decide (owner x = u)); done.
Qed.
End owned_facts.

Lemma reserve_spec u s : accounted s ->
  let r := reserve_user_slot cap u s in
  r.2 = bool_decide (owned u s < cap) /\
  entries r.1 = entries s /\ legacy_salts r.1 = legacy_salts s /\
  forall v, per_user r.1 !! v =
    if decide (owned u s < cap) then (if decide (v = u) then Some (S (owned u s)) else per_user s !! v)
    else per_user s !! v.
Proof.
  intros [Hc Hz _]. unfold reserve_user_slot. rewrite bool_decide_eq_false_2 by done.
  rewrite Hc. destruct (Nat.leb_spec cap (owned u s)) as [Hle|Hlt]; cbn [fst snd].
  - rewrite bool_decide_eq_false_2 by lia. split_and!; try done. intros v. cbn.
    destruct (decide (owned u s < cap)) as [|_]; [lia|].
    destruct (decide (v = u)) as [->|Hne]; [|by rewrite lookup_insert_ne].
    rewrite lookup_insert_eq. specialize (Hc u).
    destruct (per_user s !! u); cbn in Hc; [by f_equal|lia].
  - rewrite bool_decide_eq_true_2 by lia. split_and!; try done. intros v. cbn.
    destruct (decide (owned u s < cap)) as [_|]; [|lia].
    destruct (decide (v = u)) as [->|Hne]; [by rewrite lookup_insert_eq|by rewrite lookup_insert_ne].
Qed.

Lemma release_spec u s v :
  per_user (release_user_slot cap u s) !! v =
  (if decide (v = u) then
     match per_user s !! u with
     | Some n => if decide (n - 1 = 0) then None else Some (n - 1)
     | None => None
     end
   else per_user s !! v) /\
  entries (release_user_slot cap u s) = entries s /\
  legacy_salts (release_user_slot cap u s) = legacy_salts s.
Proof.
  unfold release_user_slot. rewrite bool_decide_eq_false_2 by done.
  destruct (per_user s !! u) as [n|] eqn:E; cbn.
  - split; [|done]. case_bool_decide; destruct (decide (v = u)) as [->|Hne];
      rewrite ?lookup_delete_eq, ?lookup_insert_eq, ?lookup_delete_ne, ?lookup_insert_ne by done;
      destruct (decide (n - 1 = 0)); (done || lia).
  - split; [|done]. destruct (decide (v = u)) as [->|]; done.
Qed.

(** Releasing a list of owners, each as often as it is counted. *)
Lemma release_all us s :
  (forall u, length (filter (fun v => v = u) us) <= default 0 (per_user s !! u)) ->
  (forall u, per_user s !! u <> Some 0) ->
  let s' := foldl (fun s u => release_user_slot cap u s) s us in
  (forall u, default 0 (per_user s' !! u) =
     default 0 (per_user s !! u) - length (filter (fun v => v = u) us)) /\
  (forall u, per_user s' !! u <> Some 0) /\
  entries s' = entries s /\ legacy_salts s' = legacy_salts s.
Proof.
  revert s. induction us as [|w us IH]; intros s Hle Hz; cbn [foldl].
  - split_and!; try done. intros u. rewrite filter_nil. cbn. lia.
  - set (s1 := release_user_slot cap w s).
    assert (H1 : forall u, default 0 (per_user s1 !! u) =
      default 0 (per_user s !! u) - (if decide (w = u) then 1 else 0)).
    { intros u. unfold s1. rewrite (proj1 (release_spec w s u)).
      destruct (decide (u = w)) as [->|Hne].
      - rewrite decide_True by done. destruct (per_user s !! w) as [n|]; cbn; [|lia].
        destruct (decide (n - 1 = 0)); cbn; lia.
      - rewrite decide_False by congruence. lia. }
    assert (Hz1 : forall u, per_user s1 !! u <> Some 0).
    { intros u. unfold s1. rewrite (proj1 (release_spec w s u)).
      destruct (decide (u = w)); [|apply Hz]. destruct (per_user s !! w) as [n|]; [|done].
      destruct (decide (n - 1 = 0)); [done|]. intros [= E]. done. }
    destruct (release_spec w s w) as (_ & He & Hl). fold s1 in He, Hl.
    destruct (IH s1) as (Hd & Hz' & He' & Hl').
    { intros u. specialize (Hle u). rewrite filter_cons in Hle. rewrite H1.
      destruct (decide (w = u)); cbn [length] in Hle; lia. }
    { done. }
    split_and!; try congruence; try done. intros u. rewrite Hd, H1, filter_cons.
    destruct (decide (w = u)); cbn [length]; lia.
Qed.

Lemma mark_entry_owned now csid pid e s u :
  entries s !! csid = Some e -> owned u (mark_entry now csid pid e s).1 = owned u s.
Proof.
  intros Hk. unfold mark_entry, owned. destruct (ReplayWindow.check_and_mark _ _) as [w f].
  cbn [fst entries legacy_salts]. f_equal. by apply (owned_update e_owner _ _ _ e).
Qed.

Lemma mark_entry_users now csid pid e s :
  per_user (mark_entry now csid pid e s).1 = per_user s.
Proof. unfold mark_entry. by destruct (ReplayWindow.check_and_mark _ _). Qed.

Lemma mark_entry_new now csid pid e s u : entries s !! csid = None ->
  owned u (mark_entry now csid pid e s).1 =
  (if decide (e_owner e = u) then 1 else 0) + owned u s.
Proof.
  intros Hk. unfold mark_entry, owned. destruct (ReplayWindow.check_and_mark _ _) as [w f].
  cbn [fst entries legacy_salts]. rewrite owned_insert_new by done. cbn [e_owner]. lia.
Qed.

(** A new entry paid for with a reserved slot keeps the books balanced. *)
Lemma accounted_reserved s s1 s2 user : accounted s ->
  reserve_user_slot cap user s = (s1, true) ->
  per_user s2 = per_user s1 ->
  (forall u, owned u s2 = (if decide (user = u) then 1 else 0) + owned u s) ->
  accounted s2.
Proof.
  intros Ha Hr Hp Ho. pose proof (reserve_spec user s Ha) as (Hok & _ & _ & Hv).
  rewrite Hr in Hok, Hv. cbn [fst snd] in *.
  symmetry in Hok. apply bool_decide_eq_true_1 in Hok.
  assert (Hv' : forall v, per_user s2 !! v =
    if decide (v = user) then Some (S (owned user s)) else per_user s !! v).
  { intros v. rewrite Hp, Hv. by rewrite decide_True. }
  destruct Ha as [Hc Hz Hcap]. constructor; intros u; rewrite ?Hv', Ho || rewrite Hv'.
  - destruct (decide (u = user)) as [->|Hne].
    + by rewrite decide_True.
    + rewrite decide_False by congruence. apply Hc.
  - destruct (decide (u = user)); [done|apply Hz].
  - destruct (decide (user = u)) as [->|]; [lia|apply Hcap].
Qed.

(** A refused reservation changes nothing that is counted. *)
Lemma accounted_refused s s1 user : accounted s ->
  reserve_user_slot cap user s = (s1, false) -> accounted s1 /\ owned user s = cap.
Proof.
  intros Ha Hr. pose proof (reserve_spec user s Ha) as (Hok & He & Hl & Hv).
  rewrite Hr in Hok, He, Hl, Hv. cbn [fst snd] in *.
  symmetry in Hok. apply bool_decide_eq_false_1 in Hok.
  assert (Hv' : forall v, per_user s1 !! v = per_user s !! v)
    by (intros v; rewrite Hv; by rewrite decide_False).
  assert (Ho : forall u, owned u s1 = owned u s) by (intros u; unfold owned; by rewrite He, Hl).
  destruct Ha as [Hc Hz Hcap]. split; [|specialize (Hcap user); lia].
  constructor; intros u; rewrite ?Hv', ?Ho; auto.
Qed.

Lemma check_and_mark_accounted now u csid pid s :
  accounted s -> accounted (check_and_mark max_sessions cap now u csid pid s).1.
Proof.
  intros Ha. unfold check_and_mark. destruct (entries s !! csid) as [e|] eqn:E.
  - destruct Ha as [Hc Hz Hcap].
    constructor; intros v; rewrite ?mark_entry_users, ?(mark_entry_owned _ _ _ _ _ _ E); auto.
  - destruct (_ && _); [done|]. destruct (reserve_user_slot cap u s) as [s1 ok] eqn:Er.
    destruct ok; cbn [negb fst]; [|by apply (accounted_refused s s1 u)].
    pose proof (reserve_spec u s Ha) as (_ & He & Hl & _). rewrite Er in He, Hl. cbn [fst] in He, Hl.
    apply (accounted_reserved s s1 _ u); [done | done | by rewrite mark_entry_users |].
    intros v. rewrite mark_entry_new by (by rewrite He). cbn [e_owner]. unfold owned. by rewrite He, Hl.
Qed.

Lemma check_salt_accounted now u salt s :
  accounted s -> accounted (check_and_mark_legacy_salt max_sessions cap now u salt s).1.
Proof.
  intros Ha. unfold check_and_mark_legacy_salt. destruct (legacy_salts s !! salt) eqn:E; [done|].
  destruct (_ && _); [done|]. destruct (reserve_user_slot cap u s) as [s1 ok] eqn:Er.
  destruct ok; cbn [negb fst]; [|by apply (accounted_refused s s1 u)].
  pose proof (reserve_spec u s Ha) as (_ & He & Hl & _). rewrite Er in He, Hl. cbn [fst] in He, Hl.
  apply (accounted_reserved s s1 _ u); [done | done | done |].
  intros v. unfold owned. cbn [entries legacy_salts]. rewrite He, Hl.
  rewrite owned_insert_new by done. cbn [s_owner]. lia.
Qed.

Lemma sweep_accounted now s : accounted s -> accounted (sweep idle_timeout cap now s).1.
Proof.
  intros [Hc Hz Hcap]. unfold sweep. rewrite (proj2 (Nat.ltb_lt 0 cap)) by lia. cbn [fst].
  set (p := idle_entry idle_timeout now). set (q := idle_salt idle_timeout now).
  set (us := map _ (map_to_list (filter (fun x => p x = true) (entries s))) ++ map _ _).
  assert (Hus : forall u, length (filter (fun v => v = u) us) =
    owned_in e_owner u (filter (fun x => p x = true) (entries s))
    + owned_in s_owner u (filter (fun x => q x = true) (legacy_salts s))).
  { intros u. unfold us. rewrite filter_app, length_app, !owned_list. done. }
  assert (Hsplit : forall u, owned u s =
    (owned_in e_owner u (filter (fun x => p x = false) (entries s)) + owned_in s_owner u (filter (fun x => q x = false) (legacy_salts s)))
    + length (filter (fun v => v = u) us)).
  { intros u. rewrite Hus. unfold owned.
    rewrite (owned_split e_owner u (entries s) p), (owned_split s_owner u (legacy_salts s) q). lia. }
  destruct (release_all us (mkStore (filter (fun x => p x = false) (entries s)) (filter (fun x => q x = false) (legacy_salts s)) (per_user s)))
    as (Hd & Hz' & He & Hl).
  { intros u. cbn [per_user]. rewrite Hc, Hsplit. lia. }
  { done. }
  assert (Ho : forall u, owned u (foldl (fun s u => release_user_slot cap u s)
    (mkStore (filter (fun x => p x = false) (entries s)) (filter (fun x => q x = false) (legacy_salts s)) (per_user s)) us) =
    owned u s - length (filter (fun v => v = u) us)).
  { intros u. unfold owned at 1. rewrite He, Hl. cbn [entries legacy_salts]. rewrite Hsplit. lia. }
  constructor; intros u; [| apply Hz' |].
  - rewrite Hd, Ho. cbn [per_user]. by rewrite Hc.
  - rewrite Ho. specialize (Hcap u). lia.
Qed.

Lemma store_new_accounted : accounted store_new.
Proof.
  constructor; intros u; cbn; unfold owned, owned_in; cbn;
    rewrite ?lookup_empty, ?map_filter_empty, ?map_size_empty; (done || lia).
Qed.

Lemma apply_accounted s o : accounted s -> accounted (apply idle_timeout max_sessions cap s o).
Proof.
  destruct o; [apply check_and_mark_accounted | apply check_salt_accounted | apply sweep_accounted].
Qed.

Lemma run_accounted ops s : accounted s ->
  accounted (foldl (apply idle_timeout max_sessions cap) s ops).
Proof.
  revert s. induction ops as [|o ops IH]; intros s Hs; [done|]. apply IH. by apply apply_accounted.
Qed.
End accounting.

(** ** Replay protection across the store *)
Section protection.
Variable idle_timeout : Z.
Variables max_sessions cap : nat.

(** Some set of accepted ids that contains [pid] explains the session's window. *)
Definition remembers (csid : bytes) (pid : Z) (s : ReplayStore) : Prop :=
  exists e acc, entries s !! csid = Some e /\ represents acc (window e) /\ pid ∈ acc.

Definition windows_ok (s : ReplayStore) : Prop :=
  forall csid e, entries s !! csid = Some e -> exists acc, represents acc (window e).

Lemma reserve_entries u s : entries (reserve_user_slot cap u s).1 = entries s.
Proof.
  unfold reserve_user_slot. case_bool_decide; [done|]. by destruct (_ <=? _)%nat.
Qed.

Lemma release_entries u s : entries (release_user_slot cap u s) = entries s.
Proof.
  unfold release_user_slot. case_bool_decide; [done|]. by destruct (per_user s !! u).
Qed.

Lemma release_list_entries us s :
  entries (foldl (fun s u => release_user_slot cap u s) s us) = entries s.
Proof. revert s. induction us as [|u us IH]; intros s; [done|]. cbn. by rewrite IH, release_entries. Qed.

(** Either nothing happens to the session windows or one entry is marked. *)
Lemma check_and_mark_cases now u csid pid s :
  (exists f, check_and_mark max_sessions cap now u csid pid s = f /\ entries f.1 = entries s
     /\ (exists full, f.2 = StoreFull full) /\ entries s !! csid = None) \/
  exists s1 e, entries s1 = entries s /\
    (entries s !! csid = Some e \/ entries s !! csid = None /\ window e = ReplayWindow.new) /\
    check_and_mark max_sessions cap now u csid pid s = mark_entry now csid pid e s1.
Proof.
  unfold check_and_mark. destruct (entries s !! csid) as [e|] eqn:E; [right; by exists s, e; auto|].
  destruct (_ && _); [left; eexists; split_and!; eauto|].
  pose proof (reserve_entries u s) as He. destruct (reserve_user_slot cap u s) as [s1 ok].
  cbn [fst] in He. destruct ok; cbn [negb].
  - right. exists s1, (mkEntry ReplayWindow.new now u). auto.
  - left. eexists. split_and!; eauto.
Qed.

Lemma mark_entry_spec now csid pid e s acc : represents acc (window e) ->
  (mark_entry now csid pid e s).2 = (if fresh acc pid then Fresh else Replay) /\
  exists w, represents (if fresh acc pid then pid :: acc else acc) w /\
    entries (mark_entry now csid pid e s).1 = <[csid := ReplayStore.mkEntry w now (e_owner e)]> (entries s).
Proof.
  intros Hr. destruct (check_and_mark_spec acc (window e) pid Hr) as [H1 H2].
  unfold mark_entry. destruct (ReplayWindow.check_and_mark (window e) pid) as [w f].
  cbn [fst snd] in *. subst f. split; [done|]. by exists w.
Qed.

Lemma apply_windows_ok s o : windows_ok s -> windows_ok (apply idle_timeout max_sessions cap s o).
Proof.
  intros Hw. destruct o as [now u csid pid|now u salt|now]; cbn [apply]; intros c e.
  - destruct (check_and_mark_cases now u csid pid s) as [(f & -> & -> & _)|(s1 & e' & He & Hc & ->)];
      [apply Hw|].
    assert (exists acc, represents acc (window e')) as [acc Hr].
    { destruct Hc as [Hc|[_ ->]]; [by eapply Hw|]. exists []. apply new_represents. }
    destruct (mark_entry_spec now csid pid e' s1 acc Hr) as (_ & w & Hr' & ->). rewrite He.
    destruct (decide (c = csid)) as [->|Hne].
    + rewrite lookup_insert_eq. intros [= <-]. by eexists.
    + rewrite lookup_insert_ne by done. apply Hw.
  - unfold check_and_mark_legacy_salt. destruct (legacy_salts s !! salt); [apply Hw|].
    destruct (_ && _); [apply Hw|]. pose proof (reserve_entries u s) as He.
    destruct (reserve_user_slot cap u s) as [s1 ok]. cbn [fst] in He.
    destruct ok; cbn; rewrite He; apply Hw.
  - unfold sweep. cbn [fst]. rewrite release_list_entries. cbn [entries].
    intros H. apply map_lookup_filter_Some in H as [H _]. by eapply Hw.
Qed.

Definition is_sweep (o : op) : bool := match o with OpSweep _ => true | _ => false end.

Lemma apply_remembers csid pid s o : is_sweep o = false ->
  remembers csid pid s -> remembers csid pid (apply idle_timeout max_sessions cap s o).
Proof.
  intros Hs (e & acc & He & Hr & Hin). destruct o as [now u c p|now u salt|now]; [| |done]; cbn [apply].
  - destruct (check_and_mark_cases now u c p s) as [(f & -> & Hf & _)|(s1 & e' & He1 & Hc & ->)].
    { exists e, acc. by rewrite Hf. }
    destruct (decide (c = csid)) as [->|Hne].
    + destruct Hc as [Hc|[Hc _]]; [|congruence]. rewrite He in Hc. injection Hc as <-.
      destruct (mark_entry_spec now csid p e s1 acc Hr) as (_ & w & Hr' & Em).
      exists (mkEntry w now (e_owner e)), (if fresh acc p then p :: acc else acc).
      rewrite Em, lookup_insert_eq. split_and!; [done..|]. destruct (fresh acc p); [by right|done].
    + exists e, acc. unfold mark_entry. destruct (ReplayWindow.check_and_mark _ _) as [w f].
      cbn [fst entries]. rewrite lookup_insert_ne, He1 by done. done.
  - exists e, acc. unfold check_and_mark_legacy_salt. destruct (legacy_salts s !! salt); [done|].
    destruct (_ && _); [done|]. pose proof (reserve_entries u s) as He'.
    destruct (reserve_user_slot cap u s) as [s1 ok]. cbn [fst] in He'.
    destruct ok; cbn; by rewrite He'.
Qed.

Lemma run_remembers csid pid s ops : forallb (fun o => negb (is_sweep o)) ops = true ->
  remembers csid pid s -> remembers csid pid (foldl (apply idle_timeout max_sessions cap) s ops).
Proof.
  revert s. induction ops as [|o ops IH]; intros s Ho Hr; [done|]. cbn in Ho.
  apply andb_prop in Ho as [H1 H2]. apply (IH _ H2). apply apply_remembers; [|done].
  by apply negb_true_iff.
Qed.

Lemma run_windows_ok ops s : windows_ok s ->
  windows_ok (foldl (apply idle_timeout max_sessions cap) s ops).
Proof. revert s. induction ops as [|o ops IH]; intros s Hs; [done|]. apply IH. by apply apply_windows_ok. Qed.
End protection.

(** ** Properties *)

(** The per-user share is exact: from an empty store, after any operations of
    any users, a user's counter is the number of entries it holds across both
    maps, never above the cap and never stored as zero; a packet is refused with
    [PerUser] only when the sender itself holds its full share, so no other
    user's sessions can cause it. *)
Theorem per_user_share (idle_timeout : Z) (max_sessions cap : nat) (ops : list op) :
  cap <> 0 ->
  let s := foldl (apply idle_timeout max_sessions cap) store_new ops in
  (forall u, default 0 (per_user s !! u) = owned u s /\ owned u s <= cap /\
     per_user s !! u <> Some 0) /\
  forall now u csid pid,
    (check_and_mark max_sessions cap now u csid pid s).2 = StoreFull PerUser -> owned u s = cap.
Proof.
  intros Hcap s. pose proof (run_accounted idle_timeout max_sessions cap Hcap ops _
    (store_new_accounted cap Hcap)) as Ha. fold s in Ha. split.
  - intros u. destruct Ha as [Hc Hz Hb]. split_and!; auto.
  - intros now u csid pid H. unfold check_and_mark in H.
    assert (Hm : forall e s0, (mark_entry now csid pid e s0).2 <> StoreFull PerUser).
    { intros e s0. unfold mark_entry. destruct (ReplayWindow.check_and_mark _ _) as [w f].
      by destruct f. }
    destruct (entries s !! csid); [by apply Hm in H|]. destruct (_ && _); [done|].
    destruct (reserve_user_slot cap u s) as [s1 ok] eqn:Er.
    destruct ok; cbn [negb] in H; [by apply Hm in H|].
    by apply (accounted_refused cap Hcap s s1 u).
Qed.

Lemma per_user_share_witness :
  let s := foldl (apply 60 10 1) store_new [OpCheck 5 (str "ann") (str "sessionA") 1] in
  (check_and_mark 10 1 6 (str "ann") (str "sessionB") 1 s).2 = StoreFull PerUser /\
  owned (str "ann") s = 1.
Proof.
  intros s. split; [vm_compute; reflexivity|].
  apply (proj2 (per_user_share 60 10 1 [OpCheck 5 (str "ann") (str "sessionA") 1] ltac:(lia))
    6%Z (str "ann") (str "sessionB") 1%Z). vm_compute. reflexivity.
Defined.

(** C35: a packet is let through once: when the store answers [Fresh] for a
    session's packet id, then after any further packets and salts of any users
    (no idle sweep in between) the same id is answered [Replay], whatever user or
    time it arrives with. *)
Theorem store_no_replay (idle_timeout now now' pid : Z) (max_sessions cap : nat)
    (u u' : User) (csid : bytes) (before after : list op) :
  let s := foldl (apply idle_timeout max_sessions cap) store_new before in
  let r := check_and_mark max_sessions cap now u csid pid s in
  r.2 = Fresh -> forallb (fun o => negb (is_sweep o)) after = true ->
  (check_and_mark max_sessions cap now' u' csid pid
     (foldl (apply idle_timeout max_sessions cap) r.1 after)).2 = Replay.
Proof.
  intros s r Hf Ha.
  assert (Hw : windows_ok s) by (by apply run_windows_ok).
  assert (Hrem : remembers csid pid r.1).
  { unfold r in *. destruct (check_and_mark_cases max_sessions cap now u csid pid s)
      as [(f & Ef & _ & (full & E) & _)|(s1 & e & He & Hc & Em)].
    { rewrite Ef, E in Hf. done. }
    rewrite Em in Hf |- *. assert (exists acc, represents acc (window e)) as [acc Hr].
    { destruct Hc as [Hc|[_ ->]]; [by eapply Hw|]. exists []. apply new_represents. }
    destruct (mark_entry_spec now csid pid e s1 acc Hr) as (H2 & w & Hr' & H1).
    rewrite Hf in H2. destruct (fresh acc pid); [|done].
    exists (mkEntry w now (e_owner e)), (pid :: acc). rewrite H1, lookup_insert_eq.
    split_and!; [done..|left]. }
  apply (run_remembers idle_timeout max_sessions cap _ _ _ after Ha) in Hrem.
  destruct Hrem as (e & acc & He & Hr & Hin). unfold check_and_mark. rewrite He.
  destruct (mark_entry_spec now' csid pid e
    (foldl (apply idle_timeout max_sessions cap) r.1 after) acc Hr) as (-> & _).
  assert (fresh acc pid = false) as ->; [|done].
  unfold fresh. by rewrite bool_decide_eq_false_2 by tauto.
Qed.

Lemma store_no_replay_witness :
  let r := check_and_mark 10 2 5 (str "ann") (str "sessionA") 7 store_new in
  (check_and_mark 10 2 9 (str "bob") (str "sessionA") 7
     (foldl (apply 60 10 2) r.1 [OpCheck 6 (str "ann") (str "sessionA") 2000])).2 = Replay.
Proof.
  refine (store_no_replay 60 5 9 7 10 2 (str "ann") (str "bob") (str "sessionA") []
    [OpCheck 6 (str "ann") (str "sessionA") 2000] _ _); vm_compute; reflexivity.
Defined.
