(* ===== verification/NatKey.v ===== *)
(** The key of a NAT entry ([bins/outline-ss-rust/src/server/nat/entry.rs]). It
    stands alone because the resumption registry parks lists of them. *)
From S2P Require Import Prelude Target.

(** The raw bytes of a session id. *)
Definition NatScope : Type := bytes.
Record NatKey : Type := mkNatKey {
  k_user : bytes;
  k_fwmark : option Z;
  k_target : SocketAddr;
  k_scope : option NatScope
}.

#[export] Instance SocketAddr_eq_dec : EqDecision SocketAddr.
Proof. solve_decision. Defined.
#[export] Instance SocketAddr_countable : Countable SocketAddr.
Proof.
  refine (inj_countable' (fun a => match a with V4 ip p => inl (ip, p) | V6 ip p => inr (ip, p) end)
    (fun x => match x with inl (ip, p) => V4 ip p | inr (ip, p) => V6 ip p end) _).
  by intros [].
Defined.
#[export] Instance NatKey_eq_dec : EqDecision NatKey.
Proof. solve_decision. Defined.
#[export] Instance NatKey_countable : Countable NatKey.
Proof.
  refine (inj_countable' (fun k => (k_user k, k_fwmark k, k_target k, k_scope k))
    (fun '(u, m, t, s) => mkNatKey u m t s) _).
  by intros [].
Defined.
