(* ===== verification/Orphans.v ===== *)
(** The registry of parked sessions
    ([bins/outline-ss-rust/src/server/resumption/registry.rs], [parked.rs],
    [config.rs], [session_id.rs]): what a closed carrier leaves behind for the
    client's next one.

    The sockets and counters of a parked session are a handle. The order in
    which a [DashMap] is walked is an argument, [iter]. Each operation is one
    step on the registry, the locks of its parts taken together; the resume that
    waits for a park in flight is split into its steps further down. *)
From S2P Require Import Prelude Cluster Target NatKey.
Local Open Scope Z_scope.

(** ** Session ids *)
Definition SessionId : Type := bytes.
Definition HEX_LEN : nat := 32.
Definition hex_nibble (n : Z) : byte :=
  if n <=? 9 then u8 (b2z x30 + n) else if n <=? 15 then u8 (b2z x61 + n - 10) else x3f.
Definition hex_value (c : byte) : option Z :=
  if in_range (b2z x30) (b2z x39) c then Some (b2z c - b2z x30)
  else if in_range (b2z x61) (b2z x66) c then Some (b2z c - b2z x61 + 10)
  else if in_range (b2z x41) (b2z x46) c then Some (b2z c - b2z x41 + 10)
  else None.
Fixpoint to_hex (id : SessionId) : bytes :=
  match id with
  | [] => []
  | b :: id => hex_nibble (Z.shiftr (b2z b) 4) :: hex_nibble (Z.land (b2z b) 0x0f) :: to_hex id
  end.
Fixpoint parse_pairs (s : bytes) : option SessionId :=
  match s with
  | c0 :: c1 :: s =>
    hi ← hex_value c0; lo ← hex_value c1; rest ← parse_pairs s;
    Some (u8 (Z.lor (Z.shiftl hi 4 mod 256) lo) :: rest)
  | _ => Some []
  end.
Definition parse_hex (s : bytes) : option SessionId :=
  if negb (bool_decide (length s = HEX_LEN)) then None else parse_pairs s.

(** ** What is parked *)
Inductive Parked : Type :=
  | Tcp (owner : bytes) (handle : nat) (downlink_ring : option Z)
  | VlessUdpSingle (owner : bytes) (handle : nat)
  | VlessMux (owner : bytes) (handle : nat)
  | SsUdpStream (owner : bytes) (nat_keys : list NatKey).
Inductive Kind : Type := KTcp | KVlessUdpSingle | KVlessMux | KSsUdpStream.
#[export] Instance Kind_eq_dec : EqDecision Kind.
Proof. solve_decision. Defined.
Definition kind (p : Parked) : Kind :=
  match p with
  | Tcp _ _ _ => KTcp | VlessUdpSingle _ _ => KVlessUdpSingle | VlessMux _ _ => KVlessMux
  | SsUdpStream _ _ => KSsUdpStream
  end.
Definition all_kinds : list Kind := [KTcp; KVlessUdpSingle; KVlessMux; KSsUdpStream].
Definition parked_owner (p : Parked) : bytes :=
  match p with Tcp o _ _ | VlessUdpSingle o _ | VlessMux o _ | SsUdpStream o _ => o end.

Inductive ParkShape : Type := ShStream | ShDatagram | ShVlessUdpSingle | ShVlessMux.
#[export] Instance ParkShape_eq_dec : EqDecision ParkShape.
Proof. solve_decision. Defined.
Inductive ParkQuery : Type := Exact (shape : ParkShape) | AnyVless.
Definition admits (q : ParkQuery) (shape : ParkShape) : bool :=
  match q with
  | Exact want => bool_decide (want = shape)
  | AnyVless => match shape with ShStream | ShVlessUdpSingle | ShVlessMux => true | ShDatagram => false end
  end.
Definition shape_of (p : Parked) : ParkShape :=
  match p with
  | Tcp _ _ _ => ShStream | SsUdpStream _ _ => ShDatagram | VlessUdpSingle _ _ => ShVlessUdpSingle
  | VlessMux _ _ => ShVlessMux
  end.
Inductive ParkProbe : Type := Missing | Splicable (shape : option ParkShape) | OtherShape.

Inductive ResumeMiss : Type := Unknown | Expired | OwnerMismatch | Disabled.
Inductive ResumeOutcome : Type := Hit (p : Parked) | Miss (m : ResumeMiss).
(** The label of the metric; [Unknown] and [OwnerMismatch] share one. *)
Definition metric_reason (m : ResumeMiss) : bytes :=
  match m with
  | Unknown | OwnerMismatch => str "unknown"
  | Expired => str "expired"
  | Disabled => str "disabled"
  end.

Record ParkedEntry : Type := mkEntry { owner : bytes; deadline : Z; parked : Parked }.

Record ResumptionConfig : Type := mkConfig {
  enabled : bool;
  orphan_ttl_tcp : Z;
  orphan_ttl_udp : Z;
  orphan_per_user_cap : nat;
  orphan_global_cap : nat;
  downlink_buffer_bytes : Z
}.
Definition defaults_disabled : ResumptionConfig := mkConfig false 30 30 4 (Z.to_nat 10000) 0.
Definition symmetric_replay_enabled (c : ResumptionConfig) : bool :=
  enabled c && (0 <? downlink_buffer_bytes c).

(** The gauges of the metrics are kept, the counters are not. A reservation is
    the number of its [Notify]. *)
Record Gauges : Type := mkGauges { orphan_current : Kind -> nat; downlink_buf_bytes : Z }.
Record OrphanRegistry : Type := mkRegistry {
  config : ResumptionConfig;
  by_id : gmap SessionId ParkedEntry;
  reservations : gmap SessionId nat;
  next_notify : nat;
  per_user : gmap bytes (list SessionId);
  cluster : option (ObfuscationKey * ShardId);
  metrics : Gauges
}.
Definition set_by_id (r : OrphanRegistry) (m : gmap SessionId ParkedEntry) : OrphanRegistry :=
  mkRegistry (config r) m (reservations r) (next_notify r) (per_user r) (cluster r) (metrics r).
Definition set_per_user (r : OrphanRegistry) (m : gmap bytes (list SessionId)) : OrphanRegistry :=
  mkRegistry (config r) (by_id r) (reservations r) (next_notify r) m (cluster r) (metrics r).
Definition set_reservations (r : OrphanRegistry) (m : gmap SessionId nat) (next : nat) : OrphanRegistry :=
  mkRegistry (config r) (by_id r) m next (per_user r) (cluster r) (metrics r).
Definition set_metrics (r : OrphanRegistry) (g : Gauges) : OrphanRegistry :=
  mkRegistry (config r) (by_id r) (reservations r) (next_notify r) (per_user r) (cluster r) g.

Definition registry_new (c : ResumptionConfig) : OrphanRegistry :=
  mkRegistry c ∅ ∅ 0 ∅ None (mkGauges (fun _ => 0%nat) 0).
Definition with_cluster (r : OrphanRegistry) (key : ObfuscationKey) (shard : ShardId) : OrphanRegistry :=
  mkRegistry (config r) (by_id r) (reservations r) (next_notify r) (per_user r) (Some (key, shard)) (metrics r).
Definition new_disabled : OrphanRegistry := registry_new defaults_disabled.

(** [entropy] is what the random generator fills, [None] its failure. *)
Definition mint_session_id (blake3_keyed_xof : bytes -> bytes -> nat -> bytes) (r : OrphanRegistry)
    (entropy : option bytes) : option SessionId :=
  if negb (enabled (config r)) then None
  else
    match cluster r with
    | Some (key, shard) => e ← entropy; Some (encode_session_id blake3_keyed_xof key shard e)
    | None => entropy
    end.

Definition probe_park (r : OrphanRegistry) (id : SessionId) (want : ParkQuery) : ParkProbe :=
  match by_id r !! id with
  | Some entry =>
    let shape := shape_of (parked entry) in
    if admits want shape then Splicable (Some shape) else OtherShape
  | None => if bool_decide (is_Some (reservations r !! id)) then Splicable None else Missing
  end.

(** ** Reservations *)
Definition reserve_park (r : OrphanRegistry) (id : SessionId) : OrphanRegistry :=
  if enabled (config r) then
    match reservations r !! id with
    | Some _ => r
    | None => set_reservations r (<[id := next_notify r]> (reservations r)) (S (next_notify r))
    end
  else r.
(** The guard's drop: the [Notify] whose waiters are woken. *)
Definition drop_reservation (r : OrphanRegistry) (id : SessionId) : OrphanRegistry * option nat :=
  (set_reservations r (delete id (reservations r)) (next_notify r), reservations r !! id).

Section registry.
Variable iter : gmap SessionId ParkedEntry -> list (SessionId * ParkedEntry).

Definition ttl_for_kind (r : OrphanRegistry) (k : Kind) : Z :=
  match k with KTcp => orphan_ttl_tcp (config r) | _ => orphan_ttl_udp (config r) end.
Definition detach_from_per_user (r : OrphanRegistry) (owner : bytes) (id : SessionId) : OrphanRegistry :=
  match per_user r !! owner with
  | Some l => set_per_user r (<[owner := filter (fun x => x <> id) l]> (per_user r))
  | None => r
  end.

Definition ring_bytes (p : Parked) : Z :=
  match p with Tcp _ _ (Some n) => n | _ => 0 end.
Definition refresh_kind_gauge (r : OrphanRegistry) (k : Kind) : OrphanRegistry :=
  let entries := iter (by_id r) in
  let count := length (filter (fun e => kind (parked e.2) = k) entries) in
  let total := foldr (fun e acc => ring_bytes (parked e.2) + acc) 0 entries in
  set_metrics r (mkGauges (fun k' => if decide (k' = k) then count else orphan_current (metrics r) k') total).

(** The first of those with the earliest deadline. *)
Fixpoint oldest_in (entries : list (SessionId * ParkedEntry)) (oldest : option (SessionId * Z))
    : option (SessionId * Z) :=
  match entries with
  | [] => oldest
  | (id, e) :: entries =>
    oldest_in entries
      (match oldest with
       | Some (_, d) => if deadline e <? d then Some (id, deadline e) else oldest
       | None => Some (id, deadline e)
       end)
  end.
Definition find_oldest_globally (r : OrphanRegistry) : option SessionId := fst <$> oldest_in (iter (by_id r)) None.

(** The per-user half of [park]: the oldest one of the user is evicted at the cap. *)
Definition park_per_user (r : OrphanRegistry) (id : SessionId) (owner : bytes) : OrphanRegistry :=
  let list := default [] (per_user r !! owner) in
  let '(list, evicted) :=
    match list with
    | oldest :: rest => if (orphan_per_user_cap (config r) <=? length list)%nat then (rest, Some oldest) else (list, None)
    | [] => (list, None)
    end in
  let r := match evicted with Some oldest => set_by_id r (delete oldest (by_id r)) | None => r end in
  set_per_user r (<[owner := list ++ [id]]> (per_user r)).
Definition park_global (r : OrphanRegistry) : OrphanRegistry :=
  if (orphan_global_cap (config r) <=? size (by_id r))%nat then
    match find_oldest_globally r with
    | Some victim =>
      match by_id r !! victim with
      | Some e => detach_from_per_user (set_by_id r (delete victim (by_id r))) (owner e) victim
      | None => r
      end
    | None => r
    end
  else r.
Definition park (r : OrphanRegistry) (now : Z) (id : SessionId) (p : Parked) : OrphanRegistry :=
  if negb (enabled (config r)) then r
  else
    let k := kind p in
    let o := parked_owner p in
    let d := now + ttl_for_kind r k in
    let r := park_global (park_per_user r id o) in
    refresh_kind_gauge (set_by_id r (<[id := mkEntry o d p]> (by_id r))) k.

Definition try_take_committed (r : OrphanRegistry) (now : Z) (id : SessionId) (authenticated_user : bytes)
    : OrphanRegistry * option ResumeOutcome :=
  match by_id r !! id with
  | None => (r, None)
  | Some entry =>
    let removed := set_by_id r (delete id (by_id r)) in
    if deadline entry <=? now then
      (refresh_kind_gauge (detach_from_per_user removed (owner entry) id) (kind (parked entry)),
       Some (Miss Expired))
    else if negb (bool_decide (owner entry = authenticated_user)) then
      (set_by_id removed (<[id := entry]> (by_id removed)), Some (Miss OwnerMismatch))
    else
      (refresh_kind_gauge (detach_from_per_user removed (owner entry) id) (kind (parked entry)),
       Some (Hit (parked entry)))
  end.

Fixpoint sweep_ids (r : OrphanRegistry) (ids : list SessionId) : OrphanRegistry :=
  match ids with
  | [] => r
  | id :: ids =>
    let r :=
      match by_id r !! id with
      | Some entry => detach_from_per_user (set_by_id r (delete id (by_id r))) (owner entry) id
      | None => r
      end in
    sweep_ids r ids
  end.
Definition sweep_expired (r : OrphanRegistry) (now : Z) : OrphanRegistry * nat :=
  if negb (enabled (config r)) then (r, 0%nat)
  else
    let expired := (filter (fun e => deadline e.2 <= now) (iter (by_id r))).*1 in
    let r := sweep_ids r expired in
    ((if (0 <? length expired)%nat then foldl refresh_kind_gauge r all_kinds else r), length expired).
End registry.

(** ** The resume that waits for a park in flight

    [take_for_resume] suspends once, so it is a machine of its own; between any
    two of its steps the parking side and everybody else may act. A [Notified]
    remembers how often [notify_waiters] had been called when it was made. *)
Inductive TakerPc : Type :=
  | TStart
  | TLookup
  | TArm (notify : nat)
  | TRecheck (notify calls : nat)
  | TWait (notify calls : nat)
  | TFinal
  | TDone (outcome : ResumeOutcome).
(** The guard of [reserve_park], with whether its holder parked. *)
Inductive GuardPc : Type :=
  | GHeld (parked : bool)
  | GRemoved (parked : bool) (notify : option nat)
  | GDropped (parked : bool).
Record World : Type := mkWorld {
  registry : OrphanRegistry;
  calls : nat -> nat;
  taker : TakerPc;
  guard : GuardPc
}.

Section waiting.
Variable iter : gmap SessionId ParkedEntry -> list (SessionId * ParkedEntry).

Definition take_step (w : World) (now : Z) (id : SessionId) (authenticated_user : bytes) : World :=
  let goto pc := mkWorld (registry w) (calls w) pc (guard w) in
  match taker w with
  | TStart =>
    if negb (enabled (config (registry w))) then goto (TDone (Miss Disabled))
    else
      match try_take_committed iter (registry w) now id authenticated_user with
      | (r, Some outcome) => mkWorld r (calls w) (TDone outcome) (guard w)
      | (_, None) => goto TLookup
      end
  | TLookup => goto (match reservations (registry w) !! id with Some n => TArm n | None => TFinal end)
  | TArm n => goto (TRecheck n (calls w n))
  | TRecheck n c =>
    goto (if bool_decide (is_Some (reservations (registry w) !! id)) then TWait n c else TFinal)
  | TWait n c => if (c <? calls w n)%nat then goto TFinal else w
  | TFinal =>
    match try_take_committed iter (registry w) now id authenticated_user with
    | (r, Some outcome) => mkWorld r (calls w) (TDone outcome) (guard w)
    | (_, None) => goto (TDone (Miss Unknown))
    end
  | TDone _ => w
  end.
(** The bound on the wait, [RESERVATION_WAIT]. *)
Definition take_timeout (w : World) : World :=
  match taker w with
  | TWait _ _ => mkWorld (registry w) (calls w) TFinal (guard w)
  | _ => w
  end.
Definition guard_park (w : World) (now : Z) (id : SessionId) (p : Parked) : World :=
  mkWorld (park iter (registry w) now id p) (calls w) (taker w) (GHeld true).
(** The two steps of the guard's drop. *)
Definition guard_step (w : World) (id : SessionId) : World :=
  match guard w with
  | GHeld b =>
    let (r, n) := drop_reservation (registry w) id in mkWorld r (calls w) (taker w) (GRemoved b n)
  | GRemoved b (Some n) =>
    mkWorld (registry w) (fun m => if decide (m = n) then S (calls w m) else calls w m) (taker w) (GDropped b)
  | GRemoved b None => mkWorld (registry w) (calls w) (taker w) (GDropped b)
  | GDropped _ => w
  end.
End waiting.

(** ** Runs *)
Inductive RegistryOp : Type :=
  | OpPark (now : Z) (id : SessionId) (p : Parked)
  | OpTake (now : Z) (id : SessionId) (user : bytes)
  | OpSweep (now : Z)
  | OpReserve (id : SessionId)
  | OpRelease (id : SessionId).

Section facts.
Context (iter : gmap SessionId ParkedEntry -> list (SessionId * ParkedEntry)).
Context (iter_perm : forall m, iter m ≡ₚ map_to_list m).

(** The registry after the operations, and what the takes handed out, oldest
    first: to whom, under which id, when, and what. *)
Record Given : Type := mkGiven { g_user : bytes; g_id : SessionId; g_now : Z; g_parked : Parked }.
Fixpoint run (r : OrphanRegistry) (ops : list RegistryOp) : OrphanRegistry * list Given :=
  match ops with
  | [] => (r, [])
  | o :: ops =>
    let '(r, given) :=
      match o with
      | OpPark now id p => (park iter r now id p, [])
      | OpTake now id user =>
        let (r, outcome) := try_take_committed iter r now id user in
        (r, match outcome with Some (Hit p) => [mkGiven user id now p] | _ => [] end)
      | OpSweep now => ((sweep_expired iter r now).1, [])
      | OpReserve id => (reserve_park r id, [])
      | OpRelease id => ((drop_reservation r id).1, [])
      end in
    let (r, later) := run r ops in (r, given ++ later)
  end.
Definition parks (ops : list RegistryOp) : list (SessionId * Parked) :=
  omap (fun o => match o with OpPark _ id p => Some (id, p) | _ => None end) ops.

Lemma by_id_detach r o id : by_id (detach_from_per_user r o id) = by_id r.
Proof. unfold detach_from_per_user. by destruct (per_user r !! o). Qed.
Lemma config_detach r o id : config (detach_from_per_user r o id) = config r.
Proof. unfold detach_from_per_user. by destruct (per_user r !! o). Qed.
Lemma lookup_detach r o id o' : per_user (detach_from_per_user r o id) !! o' =
  (if decide (o' = o) then filter (fun x => x <> id) <$> per_user r !! o else per_user r !! o').
Proof.
  unfold detach_from_per_user. destruct (decide (o' = o)) as [->|Hne].
  - destruct (per_user r !! o) eqn:E; [cbn; by rewrite lookup_insert_eq|by rewrite E].
  - destruct (per_user r !! o) eqn:E; [cbn; by rewrite lookup_insert_ne|done].
Qed.

(** *** The caps *)
Record registry_inv (r : OrphanRegistry) : Prop := {
  inv_listed : forall id e, by_id r !! id = Some e -> exists l, per_user r !! owner e = Some l /\ id ∈ l;
  inv_user_cap : forall o l, per_user r !! o = Some l -> (length l <= Nat.max 1 (orphan_per_user_cap (config r)))%nat;
  inv_global_cap : (size (by_id r) <= Nat.max 1 (orphan_global_cap (config r)))%nat
}.

Lemma inv_metrics r g : registry_inv r -> registry_inv (set_metrics r g).
Proof. intros []. by split. Qed.
Lemma size_delete_le (m : gmap SessionId ParkedEntry) id : (size (delete id m) <= size m)%nat.
Proof. apply map_subseteq_size, delete_subseteq. Qed.
Lemma inv_remove r id e : registry_inv r -> by_id r !! id = Some e ->
  registry_inv (detach_from_per_user (set_by_id r (delete id (by_id r))) (owner e) id).
Proof.
  intros [H1 H2 H3] He. set (r1 := set_by_id r _). split.
  - intros id' e' He'. rewrite by_id_detach in He'. cbn in He'.
    apply lookup_delete_Some in He' as [Hne He']. destruct (H1 id' e' He') as (l & Hl & Hin).
    rewrite lookup_detach. cbn [per_user r1 set_by_id]. destruct (decide (owner e' = owner e)) as [Ho|Ho].
    + rewrite <- Ho, Hl. cbn. eexists. split; [done|]. apply list_elem_of_filter. by split.
    + eauto.
  - intros o l Hl. rewrite config_detach. rewrite lookup_detach in Hl. cbn [per_user r1 set_by_id] in Hl.
    destruct (decide (o = owner e)) as [->|]; [|by apply (H2 o)].
    destruct (per_user r !! owner e) as [l0|] eqn:El; [|done]. cbn in Hl. injection Hl as <-.
    specialize (H2 _ _ El). cbn. pose proof (length_filter (fun x => x <> id) l0). lia.
  - rewrite by_id_detach, config_detach. cbn. pose proof (size_delete_le (by_id r) id). lia.
Qed.

Lemma oldest_in_spec entries : forall i0 d0, exists id d, oldest_in entries (Some (i0, d0)) = Some (id, d)
  /\ ((id, d) = (i0, d0) \/ exists e, (id, e) ∈ entries /\ deadline e = d)
  /\ d <= d0 /\ Forall (fun x => d <= deadline x.2) entries.
Proof.
  induction entries as [|[i e] entries IH]; intros i0 d0; cbn [oldest_in].
  { exists i0, d0. split_and!; try done; by left. }
  assert (Hw : exists i1 d1, (if deadline e <? d0 then Some (i, deadline e) else Some (i0, d0)) = Some (i1, d1)
    /\ ((i1, d1) = (i0, d0) \/ (i1, d1) = (i, deadline e)) /\ d1 <= d0 /\ d1 <= deadline e).
  { destruct (Z.ltb_spec (deadline e) d0); do 2 eexists; (split; [done|]); split_and!; try lia; auto. }
  destruct Hw as (i1 & d1 & -> & Hor & Hle0 & Hle). destruct (IH i1 d1) as (id & d & -> & Hid & Hd & Hall).
  exists id, d. split; [done|]. split; [|split; [lia|constructor; [cbn; lia|done]]].
  destruct Hid as [Heq|(e' & Hin & He')].
  - injection Heq as -> ->. destruct Hor as [Ho|Ho]; [by left|right]. injection Ho as -> ->. exists e. split; [|done].
    apply list_elem_of_here.
  - right. exists e'. split; [|done]. by apply list_elem_of_further.
Qed.
Lemma elem_iter m id e : (id, e) ∈ iter m <-> m !! id = Some e.
Proof. rewrite iter_perm. apply elem_of_map_to_list. Qed.
(** What the global cap evicts is the entry that expires first. *)
Lemma find_oldest_ok r : match find_oldest_globally iter r with
  | Some id => exists e, by_id r !! id = Some e
      /\ forall id' e', by_id r !! id' = Some e' -> deadline e <= deadline e'
  | None => by_id r = ∅
  end.
Proof.
  unfold find_oldest_globally. pose proof (elem_iter (by_id r)) as Hel.
  destruct (iter (by_id r)) as [|[i e] entries] eqn:E; cbn [oldest_in fmap option_fmap option_map].
  - apply map_empty. intros i. apply eq_None_not_Some. intros [e He]. apply Hel in He. by apply not_elem_of_nil in He.
  - destruct (oldest_in_spec entries i (deadline e)) as (id & d & -> & Hid & Hd & Hall). cbn [fst fmap option_fmap option_map].
    assert (Hmin : forall id' e', by_id r !! id' = Some e' -> d <= deadline e').
    { intros id' e' He'. apply Hel, elem_of_cons in He' as [Heq|He']; [injection Heq as -> ->; done|].
      rewrite Forall_forall in Hall. by apply (Hall (id', e')). }
    destruct Hid as [Heq|(e1 & Hin & He1)].
    + injection Heq as -> ->. exists e. split; [apply Hel, list_elem_of_here|done].
    + exists e1. split; [apply Hel; by apply list_elem_of_further|]. by rewrite He1.
Qed.

Lemma inv_park_per_user r id o : registry_inv r ->
  let r' := park_per_user r id o in
  (forall id' e, by_id r' !! id' = Some e -> exists l, per_user r' !! owner e = Some l /\ id' ∈ l)
  /\ (exists l, per_user r' !! o = Some l /\ id ∈ l) /\ config r' = config r
  /\ (forall o' l, per_user r' !! o' = Some l -> (length l <= Nat.max 1 (orphan_per_user_cap (config r)))%nat)
  /\ (size (by_id r') <= size (by_id r))%nat.
Proof.
  intros [H1 H2 H3]. unfold park_per_user. set (l0 := default [] (per_user r !! o)).
  assert (Hl0 : (length l0 <= Nat.max 1 (orphan_per_user_cap (config r)))%nat).
  { unfold l0. destruct (per_user r !! o) eqn:E; [by apply (H2 o)|cbn; lia]. }
  assert (Hin0 : forall id' e, by_id r !! id' = Some e -> owner e = o -> id' ∈ l0).
  { intros id' e He <-. destruct (H1 id' e He) as (l & Hl & Hin). unfold l0. by rewrite Hl. }
  assert (Hgen : forall m l, (forall id' e, m !! id' = Some e -> by_id r !! id' = Some e /\ (owner e = o -> id' ∈ l)) ->
    (length l < Nat.max 1 (orphan_per_user_cap (config r)))%nat -> (size m <= size (by_id r))%nat ->
    let r' := set_per_user (set_by_id r m) (<[o := l ++ [id]]> (per_user r)) in
    (forall id' e, by_id r' !! id' = Some e -> exists l, per_user r' !! owner e = Some l /\ id' ∈ l)
    /\ (exists l, per_user r' !! o = Some l /\ id ∈ l) /\ config r' = config r
    /\ (forall o' l, per_user r' !! o' = Some l -> (length l <= Nat.max 1 (orphan_per_user_cap (config r)))%nat)
    /\ (size (by_id r') <= size (by_id r))%nat).
  { intros m l Hm Hlen Hsz. cbn. split_and!; try done.
    - intros id' e He. destruct (Hm _ _ He) as [He0 Hin]. destruct (decide (owner e = o)) as [<-|Hne].
      + rewrite lookup_insert_eq. eexists. split; [done|]. apply elem_of_app. left. by apply Hin.
      + rewrite lookup_insert_ne by done. by apply H1.
    - rewrite lookup_insert_eq. eexists. split; [done|]. apply elem_of_app. right. by apply list_elem_of_singleton.
    - intros o' l' Hl'. destruct (decide (o' = o)) as [->|Hne].
      + rewrite lookup_insert_eq in Hl'. injection Hl' as <-. rewrite length_app. cbn. lia.
      + rewrite lookup_insert_ne in Hl' by done. by apply (H2 o'). }
  destruct l0 as [|oldest rest] eqn:El0.
  - specialize (Hgen (by_id r) []). destruct r. apply Hgen; [|cbn; lia|done]. intros id' e He. split; [done|].
    intros Ho. by apply (Hin0 _ _ He).
  - destruct (Nat.leb_spec (orphan_per_user_cap (config r)) (length (oldest :: rest))).
    + apply (Hgen (delete oldest (by_id r)) rest); [|cbn in Hl0; lia|apply size_delete_le].
      intros id' e He. apply lookup_delete_Some in He as [Hne He]. split; [done|]. intros Ho.
      specialize (Hin0 _ _ He Ho). apply elem_of_cons in Hin0 as [->|]; done.
    + specialize (Hgen (by_id r) (oldest :: rest)). destruct r. apply Hgen; [|lia|done].
      intros id' e He. split; [done|]. intros Ho. by apply (Hin0 _ _ He).
Qed.

(** [park_global] keeps what the per-user half left, the slot of [id] among it,
    and makes room for one more. *)
Lemma park_global_ok r id o : (size (by_id r) <= Nat.max 1 (orphan_global_cap (config r)))%nat ->
  (forall id' e, by_id r !! id' = Some e -> exists l, per_user r !! owner e = Some l /\ id' ∈ l) ->
  (exists l, per_user r !! o = Some l /\ id ∈ l) -> by_id r !! id = None ->
  (forall o' l, per_user r !! o' = Some l -> (length l <= Nat.max 1 (orphan_per_user_cap (config r)))%nat) ->
  let r' := park_global iter r in
  config r' = config r /\ by_id r' ⊆ by_id r /\ (size (by_id r') < Nat.max 1 (orphan_global_cap (config r)))%nat
  /\ (forall id' e, by_id r' !! id' = Some e -> exists l, per_user r' !! owner e = Some l /\ id' ∈ l)
  /\ (exists l, per_user r' !! o = Some l /\ id ∈ l)
  /\ (forall o' l, per_user r' !! o' = Some l -> (length l <= Nat.max 1 (orphan_per_user_cap (config r)))%nat).
Proof.
  intros Hsz H1 Hin Hnone H2. unfold park_global.
  destruct (Nat.leb_spec (orphan_global_cap (config r)) (size (by_id r)));
    [|split_and!; [done|reflexivity|lia|done..]].
  pose proof (find_oldest_ok r) as Hold. destruct (find_oldest_globally iter r) as [v|].
  2:{ split_and!; [done|reflexivity|rewrite Hold, map_size_empty; lia|done..]. }
  destruct Hold as (e & He & _). rewrite He.
  assert (Hinv : registry_inv r) by by split.
  destruct (inv_remove r v e Hinv He) as [G1 G2 G3]. rewrite config_detach in *. rewrite by_id_detach in *.
  split; [done|]. split; [apply delete_subseteq|]. split.
  { cbn. rewrite map_size_delete_Some by eauto. assert (size (by_id r) <> 0%nat); [|lia].
    intros H0. apply map_size_empty_iff in H0. by rewrite H0, lookup_empty in He. }
  split; [|split; [|done]].
  - exact G1.
  - destruct Hin as (l & Hl & Hin). rewrite lookup_detach. cbn [per_user set_by_id].
    destruct (decide (o = owner e)) as [->|]; [|eauto]. rewrite Hl. cbn.
    eexists. split; [done|]. apply list_elem_of_filter. split; [congruence|done].
Qed.

Lemma by_id_park_per_user r id o : by_id (park_per_user r id o) ⊆ by_id r.
Proof.
  unfold park_per_user. destruct (default [] (per_user r !! o)); [done|].
  destruct (_ <=? _)%nat; [apply delete_subseteq|done].
Qed.
Lemma by_id_refresh r k : by_id (refresh_kind_gauge iter r k) = by_id r.
Proof. done. Qed.

Lemma inv_park r now id p : registry_inv r -> by_id r !! id = None -> registry_inv (park iter r now id p).
Proof.
  intros Hinv Hnone. unfold park. destruct (enabled (config r)); [|done]. cbn [negb]. apply inv_metrics.
  destruct (inv_park_per_user r id (parked_owner p) Hinv) as (H1 & Hin & Hc & H2 & Hsz).
  assert (Hn1 : by_id (park_per_user r id (parked_owner p)) !! id = None)
    by (eapply lookup_weaken_None; [done|apply by_id_park_per_user]).
  set (r1 := park_per_user r id (parked_owner p)) in *. pose proof (inv_global_cap r Hinv) as H3.
  destruct (park_global_ok r1 id (parked_owner p)) as (Gc & Gsub & Gsz & G1 & Gin & G2); rewrite ?Hc; try done; [lia|].
  rewrite Hc in *. split; cbn [by_id per_user config set_by_id].
  - intros id' e He. destruct (decide (id' = id)) as [->|Hne].
    + rewrite lookup_insert_eq in He. injection He as <-. done.
    + rewrite lookup_insert_ne in He by done. by apply G1.
  - intros o l Hl. rewrite Gc. by apply (G2 o).
  - rewrite Gc, map_size_insert_None by (by eapply lookup_weaken_None). lia.
Qed.
Lemma inv_take r now id user : registry_inv r -> registry_inv (try_take_committed iter r now id user).1.
Proof.
  intros Hinv. unfold try_take_committed. destruct (by_id r !! id) as [e|] eqn:He; [|done].
  destruct (_ <=? _); [by apply inv_metrics, inv_remove|]. case_bool_decide; cbn [negb fst].
  - by apply inv_metrics, inv_remove.
  - cbn. rewrite insert_delete_id by done. by destruct r.
Qed.
Lemma inv_sweep_ids ids : forall r, registry_inv r -> registry_inv (sweep_ids r ids).
Proof.
  induction ids as [|id ids IH]; intros r Hinv; [done|]. cbn [sweep_ids]. apply IH.
  destruct (by_id r !! id) eqn:E; [by apply inv_remove|done].
Qed.
Lemma inv_sweep r now : registry_inv r -> registry_inv (sweep_expired iter r now).1.
Proof.
  intros Hinv. unfold sweep_expired. destruct (enabled _); [|done]. cbn [negb fst].
  pose proof (inv_sweep_ids ((filter (fun e => deadline e.2 <= now) (iter (by_id r))).*1) r Hinv) as H.
  revert H. generalize (sweep_ids r (filter (fun e => deadline e.2 <= now) (iter (by_id r))).*1). intros r1 H.
  destruct (_ <? _)%nat; [|done]. cbn [foldl all_kinds]. by do 4 apply inv_metrics.
Qed.

(** Every park uses an id that is not parked, as a minted one is. *)
Definition op_step (r : OrphanRegistry) (o : RegistryOp) : OrphanRegistry := (run r [o]).1.
Fixpoint fresh_ids (r : OrphanRegistry) (ops : list RegistryOp) : Prop :=
  match ops with
  | [] => True
  | o :: ops => match o with OpPark _ id _ => by_id r !! id = None | _ => True end /\ fresh_ids (op_step r o) ops
  end.
Lemma run_cons r o ops : (run r (o :: ops)).1 = (run (op_step r o) ops).1.
Proof.
  unfold op_step. cbn [run]. destruct (match o with OpPark _ _ _ => _ | _ => _ end) as [r1 g].
  cbn [fst]. by destruct (run r1 ops).
Qed.
Lemma inv_step r o : registry_inv r -> match o with OpPark _ id _ => by_id r !! id = None | _ => True end ->
  registry_inv (op_step r o).
Proof.
  intros Hinv Hf. unfold op_step. cbn [run]. destruct o as [now id p|now id user|now|id|id]; cbn [fst].
  - by apply inv_park.
  - pose proof (inv_take r now id user Hinv). by destruct (try_take_committed iter r now id user).
  - by apply inv_sweep.
  - unfold reserve_park. destruct (enabled _); [|done]. destruct (reservations r !! id); [done|]. by destruct Hinv; split.
  - by destruct Hinv; split.
Qed.
Lemma inv_run ops : forall r, registry_inv r -> fresh_ids r ops -> registry_inv (run r ops).1.
Proof.
  induction ops as [|o ops IH]; intros r Hinv Hf; [done|]. destruct Hf as [Ho Hf]. rewrite run_cons.
  apply IH; [by apply inv_step|done].
Qed.

(** The ids a user's entries have. *)
Definition user_ids (r : OrphanRegistry) (user : bytes) : list SessionId :=
  (map_to_list (filter (fun kv => owner kv.2 = user) (by_id r))).*1.
Lemma user_ids_bound r user : registry_inv r ->
  (length (user_ids r user) <= Nat.max 1 (orphan_per_user_cap (config r)))%nat.
Proof.
  intros [H1 H2 _]. assert (Hmem : forall id, id ∈ user_ids r user -> exists l, per_user r !! user = Some l /\ id ∈ l).
  { intros id Hid. apply list_elem_of_fmap in Hid as ([id' e] & -> & Hin). apply elem_of_map_to_list in Hin.
    apply map_lookup_filter_Some in Hin as [Hin <-]. by apply H1. }
  assert (Hnd : NoDup (user_ids r user)) by apply NoDup_fst_map_to_list.
  destruct (per_user r !! user) as [l|] eqn:El.
  - transitivity (length l); [|by apply (H2 user)]. apply submseteq_length, NoDup_submseteq; [done|].
    intros id Hid. destruct (Hmem id Hid) as (l' & Hl' & ?). by injection Hl' as ->.
  - destruct (user_ids r user) as [|id ids]; [cbn; lia|]. destruct (Hmem id) as (l & ? & _); [apply list_elem_of_here|done].
Qed.

(** *** Who gets what *)
Definition listed (m : gmap SessionId ParkedEntry) : list (SessionId * Parked) :=
  (fun kv => (kv.1, parked kv.2)) <$> map_to_list m.
Definition stored (r : OrphanRegistry) : list (SessionId * Parked) := listed (by_id r).

Lemma stored_subset (m1 m2 : gmap SessionId ParkedEntry) : m1 ⊆ m2 -> listed m1 ⊆+ listed m2.
Proof. intros H. apply fmap_submseteq. by apply map_to_list_submseteq. Qed.
Lemma stored_insert (m : gmap SessionId ParkedEntry) id e : listed (<[id := e]> m) ⊆+ (id, parked e) :: listed m.
Proof.
  unfold listed. rewrite <- insert_delete_eq, map_to_list_insert by apply lookup_delete_eq. cbn.
  apply submseteq_skip, (stored_subset (delete id m) m), delete_subseteq.
Qed.
Lemma by_id_park_global r : by_id (park_global iter r) ⊆ by_id r.
Proof.
  unfold park_global. destruct (_ <=? _)%nat; [|done]. destruct (find_oldest_globally iter r) as [v|]; [|done].
  destruct (by_id r !! v); [|done]. rewrite by_id_detach. apply delete_subseteq.
Qed.
Lemma by_id_sweep_ids ids : forall r, by_id (sweep_ids r ids) ⊆ by_id r.
Proof.
  induction ids as [|id ids IH]; intros r; [done|]. cbn [sweep_ids]. etrans; [apply IH|].
  destruct (by_id r !! id); [|done]. rewrite by_id_detach. apply delete_subseteq.
Qed.
Lemma by_id_sweep r now : by_id (sweep_expired iter r now).1 ⊆ by_id r.
Proof.
  unfold sweep_expired. destruct (enabled _); [|done]. cbn [negb fst].
  destruct (_ <? _)%nat; cbn [foldl all_kinds]; rewrite ?by_id_refresh; apply by_id_sweep_ids.
Qed.
Lemma by_id_take r now id user : by_id (try_take_committed iter r now id user).1 ⊆ by_id r.
Proof.
  unfold try_take_committed. destruct (by_id r !! id) as [e|] eqn:E; [|done].
  destruct (_ <=? _); [|case_bool_decide]; cbn [negb fst]; rewrite ?by_id_refresh, ?by_id_detach; try apply delete_subseteq.
  cbn. by rewrite insert_delete_id.
Qed.

Definition given_of (res : OrphanRegistry * list Given) : list (SessionId * Parked) :=
  (fun g => (g_id g, g_parked g)) <$> res.2.
Lemma given_step r o : (given_of (run r [o])) ++ stored (run r [o]).1 ⊆+ stored r ++ parks [o].
Proof.
  unfold given_of, stored. cbn [run]. destruct o as [now id p|now id user|now|id|id]; cbn [fst snd app fmap list_fmap parks omap list_omap];
    rewrite ?app_nil_r.
  - unfold park. destruct (enabled _); cbn [negb].
    + rewrite by_id_refresh. cbn [by_id set_by_id]. etrans; [apply stored_insert|]. cbn [parked].
      rewrite <- Permutation_cons_append. apply submseteq_skip, stored_subset.
      etrans; [apply by_id_park_global|apply by_id_park_per_user].
    + apply submseteq_inserts_r. done.
  - pose proof (by_id_take r now id user) as Hsub. unfold try_take_committed in *.
    destruct (by_id r !! id) as [e|] eqn:E; [|done].
    destruct (_ <=? _); [cbn [fst snd app] in *; by apply stored_subset|].
    case_bool_decide; cbn [negb fst snd app] in *; [|by apply stored_subset].
    rewrite by_id_refresh, by_id_detach. cbn. unfold listed. rewrite <- (map_to_list_delete (by_id r) id e E). done.
  - apply stored_subset, by_id_sweep.
  - unfold reserve_park. destruct (enabled _); [|done]. by destruct (reservations r !! id).
  - done.
Qed.
Lemma run_snd r o ops : (run r (o :: ops)).2 = (run r [o]).2 ++ (run (op_step r o) ops).2.
Proof.
  unfold op_step. cbn [run]. destruct (match o with OpPark _ _ _ => _ | _ => _ end) as [r1 g].
  cbn [fst snd]. destruct (run r1 ops). cbn. by rewrite app_nil_r.
Qed.
Lemma given_run ops : forall r, given_of (run r ops) ++ stored (run r ops).1 ⊆+ stored r ++ parks ops.
Proof.
  induction ops as [|o ops IH]; intros r; [cbn; by rewrite app_nil_r|].
  unfold given_of in *. rewrite run_snd, run_cons, fmap_app, <- app_assoc.
  etrans; [apply submseteq_skips_l, IH|]. rewrite app_assoc.
  replace (parks (o :: ops)) with (parks [o] ++ parks ops) by (unfold parks; by rewrite <- omap_app).
  rewrite app_assoc. apply submseteq_skips_r, given_step.
Qed.

(** Where every entry comes from. *)
Definition park_ttl (c : ResumptionConfig) (p : Parked) : Z :=
  match kind p with KTcp => orphan_ttl_tcp c | _ => orphan_ttl_udp c end.
Definition provenance (c : ResumptionConfig) (hist : list RegistryOp) (r : OrphanRegistry) : Prop :=
  config r = c /\ forall id e, by_id r !! id = Some e -> owner e = parked_owner (parked e)
    /\ exists t, OpPark t id (parked e) ∈ hist /\ deadline e = t + park_ttl c (parked e).
(** A rightful hand-over: to the owner, of what was parked, before it expired. *)
Definition rightful (c : ResumptionConfig) (hist : list RegistryOp) (g : Given) : Prop :=
  parked_owner (g_parked g) = g_user g
  /\ exists t, OpPark t (g_id g) (g_parked g) ∈ hist /\ g_now g < t + park_ttl c (g_parked g).
Lemma config_step r o : config (op_step r o) = config r.
Proof.
  unfold op_step. cbn [run]. destruct o as [now id p|now id user|now|id|id]; cbn [fst].
  - unfold park. destruct (enabled _); [|done]. cbn. unfold park_global.
    assert (H : config (park_per_user r id (parked_owner p)) = config r).
    { unfold park_per_user. destruct (default [] _); [done|]. by destruct (_ <=? _)%nat. }
    destruct (_ <=? _)%nat; [|done]. destruct (find_oldest_globally iter _); [|done].
    destruct (by_id _ !! _); [|done]. by rewrite config_detach.
  - assert (H : config (try_take_committed iter r now id user).1 = config r).
    { unfold try_take_committed. destruct (by_id r !! id); [|done].
      destruct (_ <=? _); [|case_bool_decide]; cbn [negb fst]; unfold refresh_kind_gauge; cbn [config set_metrics];
        by rewrite ?config_detach. }
    by destruct (try_take_committed iter r now id user).
  - assert (H : forall ids r, config (sweep_ids r ids) = config r).
    { induction ids as [|id ids IH]; intros r0; [done|]. cbn [sweep_ids]. rewrite IH.
      destruct (by_id r0 !! id); [|done]. by rewrite config_detach. }
    unfold sweep_expired. destruct (enabled _); [|done]. cbn [negb fst].
    destruct (_ <? _)%nat; cbn [foldl all_kinds]; unfold refresh_kind_gauge; cbn [config set_metrics]; apply H.
  - unfold reserve_park. destruct (enabled _); [|done]. by destruct (reservations r !! id).
  - done.
Qed.
Lemma by_id_step r o id e : by_id (op_step r o) !! id = Some e -> by_id r !! id = Some e
  \/ exists t p, o = OpPark t id p /\ e = mkEntry (parked_owner p) (t + park_ttl (config r) p) p.
Proof.
  intros He. unfold op_step in He. cbn [run] in He. destruct o as [now id' p|now id' user|now|id'|id']; cbn [fst] in He.
  - unfold park in He. destruct (enabled _); cbn [negb] in He; [|by left]. rewrite by_id_refresh in He. cbn in He.
    apply lookup_insert_Some in He as [[-> <-]|[Hne He]]; [right; eauto|left].
    eapply lookup_weaken; [exact He|]. etrans; [apply by_id_park_global|apply by_id_park_per_user].
  - left. pose proof (by_id_take r now id' user) as Hs. destruct (try_take_committed iter r now id' user).
    eapply lookup_weaken; [exact He|exact Hs].
  - left. eapply lookup_weaken; [exact He|apply by_id_sweep].
  - left. unfold reserve_park in He. destruct (enabled _); [|done]. by destruct (reservations r !! id').
  - by left.
Qed.
Lemma run_rightful c ops : forall hist r, provenance c hist r -> Forall (rightful c (hist ++ ops)) (run r ops).2.
Proof.
  induction ops as [|o ops IH]; intros hist r [Hc Hp]; [constructor|]. rewrite run_snd. apply Forall_app. split.
  - cbn [run]. destruct o as [now id p|now id user|now|id|id]; cbn [snd app]; try constructor.
    unfold try_take_committed. destruct (by_id r !! id) as [e|] eqn:E; [|constructor].
    destruct (Z.leb_spec (deadline e) now); [constructor|]. case_bool_decide as Hu; cbn [negb]; [|constructor].
    cbn [fst snd app]. constructor; [|constructor]. destruct (Hp id e E) as (Ho & t & Hin & Hd). split; [cbn; congruence|].
    exists t. split; [by apply elem_of_app; left|]. cbn. lia.
  - replace (hist ++ o :: ops) with ((hist ++ [o]) ++ ops) by (by rewrite <- app_assoc). apply IH. split.
    + by rewrite config_step.
    + intros id e He. apply by_id_step in He as [He|(t & p & -> & ->)].
      * destruct (Hp id e He) as (Ho & t & Hin & Hd). split; [done|]. exists t. split; [by apply elem_of_app; left|done].
      * cbn. split; [done|]. exists t. split; [|by rewrite Hc]. apply elem_of_app. right. by apply list_elem_of_singleton.
Qed.
End facts.

(** ** One taker against one guard *)
Section race.
Context (iter : gmap SessionId ParkedEntry -> list (SessionId * ParkedEntry)).
Context (iter_perm : forall m, iter m ≡ₚ map_to_list m).
Context (id : SessionId) (p : Parked) (n : nat).

(** What may happen while a resume of the park's owner and the guard's holder
    run: their steps, the timeout of the resume's wait, and whatever others do
    to the registry, the drop of another guard of the id included, whose wake
    comes after it ([LNotify]). *)
Inductive RaceLabel : Type :=
  | LTake (now : Z)
  | LTimeout
  | LPark (now : Z)
  | LGuard
  | LOther (o : RegistryOp)
  | LNotify (m : nat).
Definition race_step (w : World) (l : RaceLabel) : World :=
  match l with
  | LTake now => take_step iter w now id (parked_owner p)
  | LTimeout => take_timeout w
  | LPark now => match guard w with GHeld false => guard_park iter w now id p | _ => w end
  | LGuard => guard_step w id
  | LOther o => mkWorld (op_step iter (registry w) o) (calls w) (taker w) (guard w)
  | LNotify m =>
    mkWorld (registry w) (fun k => if decide (k = m) then S (calls w k) else calls w k) (taker w) (guard w)
  end.
Definition race_run (w : World) (ls : list RaceLabel) : World := foldl race_step w ls.

Definition did_park (g : GuardPc) : bool := match g with GHeld b | GRemoved b _ | GDropped b => b end.
(** The guard was let go of without a park. *)
Definition abandoned (w : World) : Prop := did_park (guard w) = false /\ forall b, guard w <> GHeld b.

(** What takes an entry out of the registry. *)
Definition removes (r : OrphanRegistry) (e : ParkedEntry) (o : RegistryOp) : Prop :=
  match o with
  | OpPark _ _ q => (orphan_per_user_cap (config r) <= length (default [] (per_user r !! parked_owner q)))%nat
      \/ (orphan_global_cap (config r) <= size (by_id r))%nat
  | OpTake now id' user => id' = id /\ (deadline e <= now \/ user = owner e)
  | OpSweep now => deadline e <= now
  | _ => False
  end.
(** What may cost the resume its park: its wait times out; another guard of the
    id is dropped; the park is evicted at a cap, expires, or is given to another
    resume of its owner. *)
Inductive costs (w : World) : RaceLabel -> Prop :=
  | co_timeout m c : taker w = TWait m c -> costs w LTimeout
  | co_release : costs w (LOther (OpRelease id))
  | co_notify : costs w (LNotify n)
  | co_removed e o : by_id (registry w) !! id = Some e -> removes (registry w) e o -> costs w (LOther o)
  | co_expired e now : by_id (registry w) !! id = Some e -> deadline e <= now -> costs w (LTake now).
Definition has_reason (w : World) (ls : list RaceLabel) : Prop :=
  exists pre l post, ls = pre ++ l :: post /\ costs (race_run w pre) l.
(** Only the guard's holder parks under the id. *)
Definition own_id (l : RaceLabel) : Prop := forall t q, l <> LOther (OpPark t id q).

Lemma reservations_take r now i user : reservations (try_take_committed iter r now i user).1 = reservations r
  /\ config (try_take_committed iter r now i user).1 = config r.
Proof.
  assert (Hd : forall r o i, reservations (detach_from_per_user r o i) = reservations r)
    by (intros; unfold detach_from_per_user; by destruct (per_user _ !! _)).
  unfold try_take_committed. destruct (by_id r !! i); [|done].
  destruct (_ <=? _); [|case_bool_decide]; cbn [negb fst]; unfold refresh_kind_gauge; cbn [reservations config set_metrics];
    by rewrite ?Hd, ?config_detach.
Qed.
Lemma reservations_park r now i q : reservations (park iter r now i q) = reservations r /\ config (park iter r now i q) = config r.
Proof.
  assert (Hd : forall r o i, reservations (detach_from_per_user r o i) = reservations r)
    by (intros; unfold detach_from_per_user; by destruct (per_user _ !! _)).
  assert (Hu : forall o, reservations (park_per_user r i o) = reservations r /\ config (park_per_user r i o) = config r)
    by (intros; unfold park_per_user; destruct (default [] _); [done|]; by destruct (_ <=? _)%nat).
  unfold park. destruct (enabled _); [|done]. cbn. unfold park_global. destruct (_ <=? _)%nat; [|apply Hu].
  destruct (find_oldest_globally iter _); [|apply Hu]. destruct (by_id _ !! _); [|apply Hu].
  rewrite Hd, config_detach. apply Hu.
Qed.
Lemma reservations_sweep r now : reservations (sweep_expired iter r now).1 = reservations r.
Proof.
  assert (Hd : forall r o i, reservations (detach_from_per_user r o i) = reservations r)
    by (intros; unfold detach_from_per_user; by destruct (per_user _ !! _)).
  assert (Hs : forall ids r, reservations (sweep_ids r ids) = reservations r).
  { induction ids as [|i ids IH]; intros r0; [done|]. cbn [sweep_ids]. rewrite IH. destruct (by_id r0 !! i); [|done]. by rewrite Hd. }
  unfold sweep_expired. destruct (enabled _); [|done]. cbn [negb fst].
  destruct (_ <? _)%nat; cbn [foldl all_kinds]; unfold refresh_kind_gauge; cbn [reservations set_metrics]; apply Hs.
Qed.
(** A reservation that is there stays, short of a release. *)
Lemma reservations_op r o m : reservations r !! id = Some m -> o <> OpRelease id ->
  reservations (op_step iter r o) !! id = Some m.
Proof.
  intros Hr Ho. unfold op_step. cbn [run]. destruct o as [now i q|now i user|now|i|i]; cbn [fst].
  - by rewrite (proj1 (reservations_park r now i q)).
  - pose proof (proj1 (reservations_take r now i user)) as H. destruct (try_take_committed iter r now i user).
    cbn [fst] in *. by rewrite H.
  - by rewrite reservations_sweep.
  - unfold reserve_park. destruct (enabled _); [|done]. destruct (reservations r !! i) eqn:E; [done|]. cbn.
    rewrite lookup_insert_ne; [done|congruence].
  - cbn. rewrite lookup_delete_ne; [done|congruence].
Qed.

Lemma evicts_at_a_cap r now i q e : i <> id -> by_id r !! id = Some e ->
  by_id (park iter r now i q) !! id = Some e \/ removes r e (OpPark now i q).
Proof.
  intros Hne He. unfold park. destruct (enabled _); [|by left]. cbn [negb]. rewrite by_id_refresh. cbn [by_id set_by_id].
  rewrite lookup_insert_ne by done. cbn [removes].
  assert (Hu : by_id (park_per_user r i (parked_owner q)) !! id = Some e
    \/ (orphan_per_user_cap (config r) <= length (default [] (per_user r !! parked_owner q)))%nat).
  { unfold park_per_user. destruct (default [] (per_user r !! parked_owner q)); [by left|].
    destruct (Nat.leb_spec (orphan_per_user_cap (config r)) (length (s :: l))); [by right|by left]. }
  destruct Hu as [Hu|]; [|by right; left]. unfold park_global.
  assert (Hc : config (park_per_user r i (parked_owner q)) = config r)
    by (unfold park_per_user; destruct (default [] _); [done|]; by destruct (_ <=? _)%nat).
  rewrite Hc. destruct (Nat.leb_spec (orphan_global_cap (config r)) (size (by_id (park_per_user r i (parked_owner q))))) as [Hs|];
    [right; right|by left].
  etrans; [exact Hs|]. apply map_subseteq_size, by_id_park_per_user.
Qed.
Lemma sweep_ids_keeps ids : forall r, id ∉ ids -> by_id (sweep_ids r ids) !! id = by_id r !! id.
Proof.
  induction ids as [|i ids IH]; intros r Hin; [done|]. cbn [sweep_ids]. apply not_elem_of_cons in Hin as [Hne Hin].
  rewrite IH by done. destruct (by_id r !! i); [|done]. rewrite by_id_detach. cbn. by rewrite lookup_delete_ne.
Qed.
Lemma op_keeps_entry r o e : by_id r !! id = Some e -> (forall t q, o <> OpPark t id q) ->
  by_id (op_step iter r o) !! id = Some e \/ removes r e o.
Proof.
  intros He Ho. unfold op_step. cbn [run]. destruct o as [now i q|now i user|now|i|i]; cbn [fst].
  - apply evicts_at_a_cap; [|done]. intros ->. by apply (Ho now q).
  - assert (Hk : by_id (try_take_committed iter r now i user).1 !! id = Some e \/ removes r e (OpTake now i user)).
    { unfold try_take_committed. destruct (decide (i = id)) as [->|Hne].
      - rewrite He. destruct (Z.leb_spec (deadline e) now); [by right; split; [|left]|].
        case_bool_decide as Hu; cbn [negb fst]; [by right; split; [|right]|]. left. cbn. by rewrite lookup_insert_eq.
      - left. destruct (by_id r !! i) as [e'|] eqn:Ei; [|done].
        destruct (_ <=? _); [|case_bool_decide]; cbn [negb fst]; rewrite ?by_id_refresh, ?by_id_detach; cbn.
        + by rewrite lookup_delete_ne.
        + by rewrite lookup_delete_ne.
        + by rewrite insert_delete_id. }
    by destruct (try_take_committed iter r now i user).
  - unfold sweep_expired. destruct (enabled _); [|by left]. cbn [negb fst removes].
    set (ids := (filter _ _).*1). destruct (decide (id ∈ ids)) as [Hin|Hin].
    + right. apply list_elem_of_fmap in Hin as ([i e'] & -> & Hin). apply list_elem_of_filter in Hin as [Hd Hin].
      rewrite iter_perm in Hin. apply elem_of_map_to_list in Hin. cbn in Hd, He. rewrite He in Hin. by injection Hin as <-.
    + left. destruct (_ <? _)%nat; cbn [foldl all_kinds]; rewrite ?by_id_refresh; by rewrite sweep_ids_keeps.
  - left. unfold reserve_park. destruct (enabled _); [|done]. by destruct (reservations r !! i).
  - by left.
Qed.

(** What always holds. *)
Record race_sane (w : World) : Prop := {
  rs_enabled : enabled (config (registry w)) = true;
  rs_entry : forall e, by_id (registry w) !! id = Some e ->
    parked e = p /\ owner e = parked_owner p /\ did_park (guard w) = true;
  rs_done : forall o, taker w = TDone o ->
    o = Hit p /\ did_park (guard w) = true \/ o = Miss Unknown \/ o = Miss Expired
}.
(** What holds as long as nothing has cost the resume its park; [c0] is how
    often the [Notify] had been used before. *)
Record race_inv (c0 : nat) (w : World) : Prop := {
  ri_entry : did_park (guard w) = true -> (exists o, taker w = TDone o) \/ is_Some (by_id (registry w) !! id);
  ri_done : forall o, taker w = TDone o -> o = Hit p \/ abandoned w;
  ri_guard : forall b, guard w = GHeld b -> reservations (registry w) !! id = Some n /\ calls w n = c0;
  ri_taker : match taker w with
    | TArm m => m = n \/ forall b, guard w <> GHeld b
    | TRecheck m c | TWait m c => m = n /\ (c0 <= c)%nat \/ forall b, guard w <> GHeld b
    | TFinal => forall b, guard w <> GHeld b
    | _ => True
    end;
  ri_calls : (c0 <= calls w n)%nat
}.

Lemma take_cases r now user : (by_id r !! id = None /\ try_take_committed iter r now id user = (r, None))
  \/ exists r' e, by_id r !! id = Some e /\ reservations r' = reservations r /\ config r' = config r
     /\ by_id r' ⊆ by_id r
     /\ try_take_committed iter r now id user
        = (r', Some (if deadline e <=? now then Miss Expired
                     else if bool_decide (owner e = user) then Hit (parked e) else Miss OwnerMismatch)).
Proof.
  pose proof (reservations_take r now id user) as [Hr Hc]. pose proof (by_id_take iter r now id user) as Hs.
  destruct (by_id r !! id) as [e|] eqn:E; [right|left].
  - destruct (try_take_committed iter r now id user) as [r' o] eqn:Et. exists r', e. split_and!; try done.
    unfold try_take_committed in Et. rewrite E in Et. destruct (_ <=? _); [|case_bool_decide]; cbn [negb] in Et; by injection Et as <- <-.
  - unfold try_take_committed. by rewrite E.
Qed.

(** One look at the registry by the owner's resume. *)
Lemma look_sane w now pc : race_sane w -> (forall o, pc = TDone o -> o = Miss Unknown) ->
  race_sane (match try_take_committed iter (registry w) now id (parked_owner p) with
    | (r, Some o) => mkWorld r (calls w) (TDone o) (guard w)
    | (_, None) => mkWorld (registry w) (calls w) pc (guard w) end).
Proof.
  intros [He Hent Hd] Hpc. destruct (take_cases (registry w) now (parked_owner p)) as [[Hn ->]|(r' & e & Hb & Hr & Hc & Hs & ->)].
  - split; cbn; [done|done|]. intros o ->. right. left. by apply Hpc.
  - destruct (Hent e Hb) as (Hp & Ho & Hg). split; cbn; [by rewrite Hc| |].
    + intros e' He'. apply Hent. eapply lookup_weaken; [exact He'|exact Hs].
    + intros o [= <-]. rewrite Hp, Ho. destruct (_ <=? _); [by right; right|].
      rewrite bool_decide_eq_true_2 by done. by left.
Qed.
Lemma take_sane w now : race_sane w -> race_sane (take_step iter w now id (parked_owner p)).
Proof.
  intros H. assert (Hgo : forall pc, (forall o, pc <> TDone o) -> race_sane (mkWorld (registry w) (calls w) pc (guard w))).
  { intros pc Hpc. destruct H as [He Hent Hd]. split; cbn; [done|done|]. intros o Ho. by apply Hpc in Ho. }
  unfold take_step. destruct (taker w) as [| |m|m c|m c| |o] eqn:Et.
  - rewrite (rs_enabled w H). cbn [negb]. by apply look_sane.
  - apply Hgo. by destruct (reservations _ !! id).
  - by apply Hgo.
  - apply Hgo. by case_bool_decide.
  - destruct (_ <? _)%nat; [by apply Hgo|done].
  - apply look_sane; [done|]. by intros o [= <-].
  - done.
Qed.
Lemma race_step_sane w l : own_id l -> race_sane w -> race_sane (race_step w l).
Proof.
  intros Hl H. destruct l as [now| |now| |o|m]; cbn [race_step].
  - by apply take_sane.
  - unfold take_timeout. destruct (taker w) eqn:Et; try done. destruct H. split; cbn; (done || by intros o).
  - destruct H as [He Hent Hd]. destruct (guard w) as [[]| |] eqn:Eg; try by split; rewrite ?Eg.
    unfold guard_park. split; cbn.
    + by rewrite (proj2 (reservations_park (registry w) now id p)).
    + intros e. unfold park. rewrite He. cbn [negb]. rewrite by_id_refresh. cbn. rewrite lookup_insert_eq. by intros [= <-].
    + intros o Ho. destruct (Hd o Ho) as [[_ ?]|?]; [done|by right].
  - destruct H as [He Hent Hd]. unfold guard_step, drop_reservation.
    destruct (guard w) as [b|b [m|]|b] eqn:Eg; split; cbn; rewrite ?Eg; done.
  - destruct H as [He Hent Hd]. split; cbn; [by rewrite config_step| |done]. intros e Hb. apply Hent.
    apply by_id_step in Hb as [Hb|(t & q & -> & _)]; [done|]. by destruct (Hl t q).
  - by destruct H; split.
Qed.

Lemma look_inv c0 w now pc : race_sane w -> race_inv c0 w -> (forall b, guard w <> GHeld b) \/ pc = TLookup ->
  pc = TLookup \/ pc = TDone (Miss Unknown) -> (forall o, taker w <> TDone o) ->
  race_inv c0 (match try_take_committed iter (registry w) now id (parked_owner p) with
    | (r, Some o) => mkWorld r (calls w) (TDone o) (guard w)
    | (_, None) => mkWorld (registry w) (calls w) pc (guard w) end) \/ costs w (LTake now).
Proof.
  intros Hs [Hent Hd Hg Ht Hc] Hh Hpc Hnd.
  destruct (take_cases (registry w) now (parked_owner p)) as [[Hn ->]|(r' & e & Hb & Hr & Hcf & Hsub & ->)].
  - left. assert (Hna : did_park (guard w) = false).
    { destruct (did_park (guard w)); [|done]. destruct Hent as [[o Ho]|[e He]]; [done|by destruct (Hnd o)|congruence]. }
    split; cbn; [congruence| |done| |done].
    + intros o Ho. destruct Hh as [Hh|Hh]; [by right|subst pc; done].
    + by destruct Hpc as [-> | ->].
  - destruct (Z.leb_spec (deadline e) now); [right; by econstructor|left]. destruct (rs_entry w Hs e Hb) as (Hp & Ho & _).
    rewrite bool_decide_eq_true_2, Hp by done. split; cbn; [intros _; left; eauto| |intros b Hgb; rewrite Hr; by apply (Hg b)|done|done].
    intros o [= <-]. by left.
Qed.
Lemma take_inv c0 w now : race_sane w -> race_inv c0 w ->
  race_inv c0 (take_step iter w now id (parked_owner p)) \/ costs w (LTake now).
Proof.
  intros Hs Hi. unfold take_step. destruct (taker w) as [| |m|m c|m c| |o] eqn:Et.
  - rewrite (rs_enabled w Hs). cbn [negb]. apply look_inv; try done; [by right|by left|by rewrite Et].
  - left. destruct Hi as [Hent Hd Hg Ht Hc]. rewrite Et in *.
    assert (Hnd : did_park (guard w) = true -> is_Some (by_id (registry w) !! id))
      by (intros Hp; destruct (Hent Hp) as [[o Ho]|?]; done).
    destruct (reservations (registry w) !! id) as [m|] eqn:Er; split; cbn; rewrite ?Er; try done; auto.
    + destruct (guard w) as [b|b ?|b] eqn:Eg; [left|right|right]; try done. destruct (Hg b eq_refl). congruence.
    + intros b Hb. by destruct (Hg b Hb).
  - left. destruct Hi as [Hent Hd Hg Ht Hc]. rewrite Et in *.
    split; cbn; try done; [intros Hp; destruct (Hent Hp) as [[o Ho]|?]; [done|by right]|].
    destruct Ht as [->|Ht]; [by left|by right].
  - left. destruct Hi as [Hent Hd Hg Ht Hc]. rewrite Et in *.
    split; cbn; try done; [intros Hp; destruct (Hent Hp) as [[o Ho]|?]; [done|by right]|by case_bool_decide|].
    case_bool_decide as Hr; [done|]. intros b Hb. destruct (Hg b Hb) as [Hr' _]. apply Hr. by rewrite Hr'.
  - destruct (Nat.ltb_spec c (calls w m)); [left|by left]. destruct Hi as [Hent Hd Hg Ht Hc]. rewrite Et in *.
    split; cbn; try done; [intros Hp; destruct (Hent Hp) as [[o Ho]|?]; [done|by right]|].
    intros b Hb. destruct Ht as [[-> Hle]|Ht]; [|by apply (Ht b)]. destruct (Hg b Hb). lia.
  - pose proof (ri_taker c0 w Hi) as Ht. rewrite Et in Ht. apply look_inv; try done; [by left|by right|by rewrite Et].
  - by left.
Qed.
Lemma race_step_inv c0 w l : own_id l -> race_sane w -> race_inv c0 w ->
  race_inv c0 (race_step w l) \/ costs w l.
Proof.
  intros Hl Hs Hi. destruct l as [now| |now| |o|m]; cbn [race_step].
  - by apply take_inv.
  - unfold take_timeout. destruct (taker w) eqn:Et; try by left. right. by econstructor.
  - left. destruct (guard w) as [[]| |] eqn:Eg; try done. destruct Hi as [Hent Hd Hg Ht Hc].
    destruct (reservations_park (registry w) now id p) as [Hr Hcf]. unfold guard_park. split; cbn.
    + intros _. right. unfold park. rewrite (rs_enabled w Hs). cbn [negb]. rewrite by_id_refresh. cbn. by rewrite lookup_insert_eq.
    + intros o Ho. destruct (Hd o Ho) as [?|[_ Hn]]; [by left|]. by destruct (Hn false).
    + intros b _. rewrite Hr. by apply (Hg false).
    + rewrite Eg in Ht. destruct (taker w); try done; try (destruct Ht as [?|Ht]; [by left|]); exfalso; by apply (Ht false).
    + done.
  - left. unfold guard_step, drop_reservation. destruct (guard w) as [b|b [m|]|b] eqn:Eg; [..|done];
      destruct Hi as [Hent Hd Hg Ht Hc]; unfold abandoned in *; rewrite Eg in *; split; cbn; try done.
    + intros o Ho. destruct (Hd o Ho) as [?|[_ Hn]]; [by left|]. by destruct (Hn b).
    + destruct (taker w); try done; by right.
    + intros o Ho. destruct (Hd o Ho) as [?|[? _]]; [by left|by right].
    + destruct (taker w); try done; by right.
    + destruct (decide (n = m)); lia.
    + intros o Ho. destruct (Hd o Ho) as [?|[? _]]; [by left|by right].
    + destruct (taker w); try done; by right.
  - assert (Hor : o = OpRelease id \/ o <> OpRelease id).
    { destruct o as [| | | |i]; try by right. destruct (decide (i = id)) as [->|]; [by left|right; congruence]. }
    destruct Hor as [->|Hne]; [right; constructor|].
    destruct Hi as [Hent Hd Hg Ht Hc].
    assert (Hk : forall e, by_id (registry w) !! id = Some e ->
      by_id (op_step iter (registry w) o) !! id = Some e \/ costs w (LOther o)).
    { intros e He. destruct (op_keeps_entry (registry w) o e He) as [?|Hrm]; [|by left|right; by econstructor].
      intros t q ->. by apply (Hl t q). }
    destruct (by_id (registry w) !! id) as [e|] eqn:Eb.
    + destruct (Hk e eq_refl) as [Hk'|]; [left|by right]. split; cbn; try done; [intros _; right; by eexists|].
      intros b Hb. destruct (Hg b Hb). by split; [apply reservations_op|].
    + left. split; cbn; try done; [intros Hp; destruct (Hent Hp) as [?|[? ?]]; [by left|done]|].
      intros b Hb. destruct (Hg b Hb). by split; [apply reservations_op|].
  - destruct (decide (m = n)) as [->|Hne]; [right; constructor|left]. destruct Hi as [Hent Hd Hg Ht Hc].
    split; cbn; try done; [|destruct (decide (n = m)); [congruence|done]]. intros b Hb. destruct (Hg b Hb).
    split; [done|]. by destruct (decide (n = m)).
Qed.

Lemma race_run_ok w ls : by_id (registry w) !! id = None -> enabled (config (registry w)) = true ->
  reservations (registry w) !! id = Some n -> taker w = TStart -> guard w = GHeld false -> Forall own_id ls ->
  race_sane (race_run w ls) /\ (race_inv (calls w n) (race_run w ls) \/ has_reason w ls).
Proof.
  intros Hb He Hr Ht Hg. induction ls as [|l ls IH] using rev_ind; intros Hl.
  - split; [|left]; split; cbn; rewrite ?Ht, ?Hg, ?Hb; done.
  - apply Forall_app in Hl as [Hl Hl1]. apply Forall_cons in Hl1 as [Hl1 _]. destruct (IH Hl) as [Hs Hi].
    unfold race_run. rewrite foldl_app. cbn [foldl]. split; [by apply race_step_sane|].
    destruct Hi as [Hi|(pre & l' & post & -> & Hco)].
    + destruct (race_step_inv _ _ l Hl1 Hs Hi) as [?|Hco]; [by left|right]. by exists ls, l, [].
    + right. exists pre, l', (post ++ [l]). split; [by rewrite <- app_assoc|done].
Qed.

(** The wake: with one guard of the id only. *)
Definition alone (l : RaceLabel) : Prop := l <> LOther (OpReserve id) /\ l <> LOther (OpRelease id) /\ l <> LNotify n.
Record wake_inv (c0 : nat) (w : World) : Prop := {
  wi_guard : match guard w with
    | GHeld _ => reservations (registry w) !! id = Some n /\ calls w n = c0
    | GRemoved _ m => m = Some n /\ reservations (registry w) !! id = None /\ calls w n = c0
    | GDropped _ => reservations (registry w) !! id = None /\ (c0 < calls w n)%nat
    end;
  wi_taker : match taker w with
    | TArm m => m = n
    | TRecheck m c => m = n /\ (c = c0 \/ exists b, guard w = GDropped b)
    | TWait m c => m = n /\ c = c0
    | _ => True
    end
}.
Lemma reservations_op_same r o : o <> OpReserve id -> o <> OpRelease id ->
  reservations (op_step iter r o) !! id = reservations r !! id.
Proof.
  intros H1 H2. unfold op_step. cbn [run]. destruct o as [now i q|now i user|now|i|i]; cbn [fst].
  - by rewrite (proj1 (reservations_park r now i q)).
  - pose proof (proj1 (reservations_take r now i user)) as H. destruct (try_take_committed iter r now i user).
    cbn [fst] in *. by rewrite H.
  - by rewrite reservations_sweep.
  - unfold reserve_park. destruct (enabled _); [|done]. destruct (reservations r !! i) eqn:E; [done|]. cbn.
    rewrite lookup_insert_ne; [done|congruence].
  - cbn. rewrite lookup_delete_ne; [done|congruence].
Qed.
Lemma wake_step c0 w l : alone l -> wake_inv c0 w -> wake_inv c0 (race_step w l).
Proof.
  intros (H1 & H2 & H3) [Hg Ht]. destruct l as [now| |now| |o|m]; cbn [race_step].
  - assert (Hr : forall r pc, reservations r = reservations (registry w) ->
      match pc with TArm m => m = n | TRecheck m c => m = n /\ (c = c0 \/ exists b, guard w = GDropped b)
        | TWait m c => m = n /\ c = c0 | _ => True end ->
      wake_inv c0 (mkWorld r (calls w) pc (guard w))) by (intros r pc Hr Hpc; split; cbn; rewrite ?Hr; done).
    unfold take_step. destruct (taker w) as [| |m|m c|m c| |o] eqn:Et.
    + destruct (negb _); [by apply Hr|]. pose proof (proj1 (reservations_take (registry w) now id (parked_owner p))) as Hk.
      destruct (try_take_committed iter (registry w) now id (parked_owner p)) as [r [o|]]; by apply Hr.
    + apply Hr; [done|]. destruct (reservations (registry w) !! id) as [m|] eqn:E; [|done]. destruct (guard w); naive_solver.
    + apply Hr; [done|]. subst m. split; [done|]. destruct (guard w); [left|left|right; eauto]; naive_solver.
    + apply Hr; [done|]. case_bool_decide as Hs; [|done]. destruct Ht as [-> [->|[b Hb]]]; [done|]. rewrite Hb in Hg.
      destruct Hg as [Hg _]. rewrite Hg in Hs. by destruct Hs.
    + destruct (_ <? _)%nat; [by apply Hr|by split; rewrite ?Et].
    + pose proof (proj1 (reservations_take (registry w) now id (parked_owner p))) as Hk.
      destruct (try_take_committed iter (registry w) now id (parked_owner p)) as [r [o|]]; by apply Hr.
    + by split; rewrite ?Et.
  - unfold take_timeout. destruct (taker w) eqn:Et; split; cbn; rewrite ?Et; done.
  - destruct (guard w) as [[]| |] eqn:Eg; try by split; rewrite ?Eg. unfold guard_park. split; cbn.
    + by rewrite (proj1 (reservations_park (registry w) now id p)).
    + destruct (taker w); try done. destruct Ht as [-> [?|[b Hb]]]; [by split; [|left]|done].
  - unfold guard_step, drop_reservation. destruct (guard w) as [b|b m|b] eqn:Eg.
    + destruct Hg as [Hr Hc]. split; cbn; [rewrite Hr; split_and!; try done; apply lookup_delete_eq|].
      destruct (taker w); naive_solver.
    + destruct Hg as (-> & Hr & Hc). split; cbn; [split; [done|]; destruct (decide (n = n)); [lia|done]|].
      destruct (taker w); naive_solver.
    + by split; rewrite ?Eg.
  - split; cbn; [|done]. rewrite reservations_op_same by congruence. done.
  - assert (m <> n) by congruence. split; cbn; [|done]. by rewrite decide_False by done.
Qed.
Lemma wake_run w ls : reservations (registry w) !! id = Some n -> taker w = TStart -> guard w = GHeld false ->
  Forall alone ls -> wake_inv (calls w n) (race_run w ls).
Proof.
  intros Hr Ht Hg. induction ls as [|l ls IH] using rev_ind; intros Hl.
  - split; cbn; by rewrite ?Hg, ?Ht.
  - apply Forall_app in Hl as [Hl Hl1]. apply Forall_cons in Hl1 as [Hl1 _]. unfold race_run. rewrite foldl_app.
    by apply wake_step; [|apply IH].
Qed.
End race.

(** ** Properties *)

(** The registry stays within its caps. Whatever is parked, resumed, swept and
    reserved, the entries are never more than the global cap and no user has
    more than the per-user cap (a cap of zero acts as one); every park uses an
    id that is not parked, as a minted one is. *)
Theorem orphans_bounded iter (iter_perm : forall m, iter m ≡ₚ map_to_list m) (c : ResumptionConfig)
    (ops : list RegistryOp) (user : bytes) :
  fresh_ids iter (registry_new c) ops ->
  let r := (run iter (registry_new c) ops).1 in
  (size (by_id r) <= Nat.max 1 (orphan_global_cap c))%nat
  /\ (length (user_ids r user) <= Nat.max 1 (orphan_per_user_cap c))%nat.
Proof.
  intros Hf r. assert (Hinv : registry_inv r).
  { apply inv_run; [done| |done]. split; [intros id e He; cbn in He; by rewrite lookup_empty in He
      |intros o l Hl; cbn in Hl; by rewrite lookup_empty in Hl|cbn [by_id config registry_new]; rewrite map_size_empty; lia]. }
  assert (Hc : config r = c).
  { unfold r. assert (H : forall ops r, config (run iter r ops).1 = config r); [|by rewrite H].
    induction ops0 as [|o ops' IH]; intros r0; [done|]. rewrite run_cons, IH. by apply config_step. }
  rewrite <- Hc. split; [apply (inv_global_cap r Hinv)|by apply user_ids_bound].
Qed.

(** C7: a parked session is handed out at most once, under its id, and only to
    its owner. In any run, what resumes were given, each under the id it was
    asked for, together with what is still parked under its id, is drawn from
    what was parked under that id, without repetition; and each of them went to
    the user who owned it, before the time of a park under that very id ran
    out. *)
Theorem parked_given_once iter (iter_perm : forall m, iter m ≡ₚ map_to_list m) (c : ResumptionConfig)
    (ops : list RegistryOp) :
  let res := run iter (registry_new c) ops in
  given_of res ++ stored res.1 ⊆+ parks ops /\ Forall (rightful c ops) res.2.
Proof.
  intros res. split.
  - etrans; [apply (given_run iter)|]. cbn. unfold stored, listed. cbn. by rewrite map_to_list_empty.
  - apply (run_rightful iter c ops [] (registry_new c)). split; [done|]. intros id e He. cbn in He. by rewrite lookup_empty in He.
Qed.


(** Session ids in headers: the 32 hex characters a server writes for an id
    are read back as that id. *)
Theorem session_id_hex_roundtrip (id : SessionId) : length id = 16%nat -> parse_hex (to_hex id) = Some id.
Proof.
  intros Hl. assert (Hlen : forall id, length (to_hex id) = (2 * length id)%nat)
    by (induction id0 as [|b l IH]; cbn [to_hex length]; [done|rewrite IH; lia]).
  assert (Hb : forall b, bool_decide (hex_value (hex_nibble (Z.shiftr (b2z b) 4)) = Some (Z.shiftr (b2z b) 4)
      /\ hex_value (hex_nibble (Z.land (b2z b) 0x0f)) = Some (Z.land (b2z b) 0x0f)
      /\ u8 (Z.lor (Z.shiftl (Z.shiftr (b2z b) 4) 4 mod 256) (Z.land (b2z b) 0x0f)) = b) = true)
    by (apply byte_forall; vm_compute; reflexivity).
  unfold parse_hex. rewrite bool_decide_eq_true_2 by (rewrite Hlen, Hl; done). cbn [negb]. clear Hl.
  induction id as [|b id IH]; [done|]. destruct (bool_decide_eq_true_1 _ (Hb b)) as (H1 & H2 & H3).
  cbn [to_hex parse_pairs]. rewrite H1, H2. cbn [mbind option_bind]. rewrite IH. cbn [mbind option_bind]. by rewrite H3.
Qed.
Lemma session_id_hex_roundtrip_witness : parse_hex (to_hex (replicate 16 xaf)) = Some (replicate 16 xaf).
Proof. apply (session_id_hex_roundtrip (replicate 16 xaf)). reflexivity. Defined.

(** ** Examples *)
Definition sample_config : ResumptionConfig := mkConfig true 30 60 1 2 0.
Definition sample_iter (m : gmap SessionId ParkedEntry) : list (SessionId * ParkedEntry) := map_to_list m.
Definition id_a : SessionId := replicate 16 x01.
Definition id_b : SessionId := replicate 16 x02.
Definition sample_nat_key : NatKey := mkNatKey (str "al") None (V4 [x01; x01; x01; x01] 53) None.
Definition sample_ops : list RegistryOp :=
  [OpPark 0 id_a (Tcp (str "al") 1 None); OpTake 1 id_a (str "bo"); OpTake 2 id_a (str "al");
   OpPark 3 id_a (Tcp (str "al") 2 None); OpPark 4 id_b (SsUdpStream (str "al") [sample_nat_key]); OpTake 5 id_a (str "al")].

Lemma orphans_bounded_witness :
  let r := (run sample_iter (registry_new sample_config) sample_ops).1 in
  (size (by_id r) <= 2)%nat /\ (length (user_ids r (str "al")) <= 1)%nat.
Proof.
  apply (orphans_bounded sample_iter (fun m => reflexivity _) sample_config sample_ops (str "al")).
  cbn [fresh_ids sample_ops]. split_and!; vm_compute; done.
Defined.
Lemma parked_given_once_witness :
  (run sample_iter (registry_new sample_config) sample_ops).2 = [mkGiven (str "al") id_a 2 (Tcp (str "al") 1 None)]
  /\ Forall (rightful sample_config sample_ops) (run sample_iter (registry_new sample_config) sample_ops).2.
Proof.
  split; [vm_compute; reflexivity|]. apply (parked_given_once sample_iter (fun m => reflexivity _)).
Defined.


(** Each of the reasons does cost a resume its park: a second guard dropped
    early, a timeout, an eviction. *)
Definition race_start : World :=
  mkWorld (reserve_park (registry_new sample_config) id_a) (fun _ => 0%nat) TStart (GHeld false).
Example second_guard_costs_the_park :
  taker (race_run sample_iter id_a (Tcp (str "al") 1 None) race_start
    [LTake 3; LOther (OpRelease id_a); LTake 3; LTake 3; LPark 3]) = TDone (Miss Unknown).
Proof. vm_compute. reflexivity. Qed.
Example timeout_costs_the_park :
  taker (race_run sample_iter id_a (Tcp (str "al") 1 None) race_start
    [LTake 3; LTake 3; LTake 3; LTake 3; LTimeout; LTake 3; LPark 3]) = TDone (Miss Unknown).
Proof. vm_compute. reflexivity. Qed.
Example eviction_costs_the_park :
  taker (race_run sample_iter id_a (Tcp (str "al") 1 None) race_start
    [LPark 3; LOther (OpPark 4 id_b (Tcp (str "al") 2 None)); LGuard; LGuard; LTake 5; LTake 5; LTake 5]) = TDone (Miss Unknown).
Proof. vm_compute. reflexivity. Qed.

(** Two guards of one id: the first one dropped clears the reservation both
    hold. *)
Example first_guard_clears :
  let r := reserve_park (reserve_park (registry_new sample_config) id_a) id_a in
  probe_park r id_a AnyVless = Splicable None
  /\ probe_park (drop_reservation r id_a).1 id_a AnyVless = Missing.
Proof. split; vm_compute; reflexivity. Qed.

(** A park that evicts an entry of another kind leaves that kind's gauge as it
    was. *)
Example evicted_kind_gauge_stale :
  let r := (run sample_iter (registry_new sample_config)
              [OpPark 0 id_a (Tcp (str "al") 1 None); OpPark 1 id_b (SsUdpStream (str "al") [])]).1 in
  by_id r !! id_a = None /\ orphan_current (metrics r) KTcp = 1%nat.
Proof. split; vm_compute; reflexivity. Qed.

(** A park under an id that is still parked can leave its entry outside the
    user's list, so that the user's cap no longer sees it. *)
Example repark_escapes_user_cap :
  let r := (run sample_iter (registry_new (mkConfig true 30 60 2 1 0))
              [OpPark 0 id_a (Tcp (str "al") 1 None); OpPark 1 id_a (Tcp (str "al") 2 None)]).1 in
  is_Some (by_id r !! id_a) /\ per_user r !! str "al" = Some [].
Proof. split; [eexists|]; vm_compute; reflexivity. Qed.
