(* ===== verification/MeshFrame.v ===== *)
(** The frames of a cluster relay stream
    ([bins/outline-ss-rust/src/server/cluster/mesh/frame.rs], [datagram.rs],
    [endpoint.rs]) and the routing decision ([cluster/mod.rs]).

    The message of an [anyhow] error is the constructor of [MeshError]. A QUIC
    stream is the list of what its reads return: [Data], a failure, and the end
    of the stream where the list ends. *)
From S2P Require Import Prelude StdText Target Cluster.
Local Open Scope Z_scope.

Inductive MeshError : Type :=
  | TruncatedFrame
  | UnsupportedVersion (version : Z)
  | UnknownFraming (v : Z)
  | UnknownShape (v : Z)
  | UnknownFamily (fam : Z)
  | UnexpectedAck (b : Z)
  | EmptyUser
  | UserTooLong (len : Z)
  | UserNotUtf8
  | OpenTooLong (len : Z)
  | DatagramTooLarge (len : Z)
  | DatagramLengthExceedsMax (len : Z)
  | TruncatedLength (got : Z)
  | TruncatedPayload (got len : Z)
  | StreamFailed
  | StreamEnded.

(** ** The reader *)
Record Reader : Type := mkReader { buf : bytes; pos : nat }.
Definition Reader_new (b : bytes) : Reader := mkReader b 0.
Definition r_bytes (r : Reader) (n : nat) : result MeshError (bytes * Reader) :=
  let fin := (pos r + n)%nat in
  if (fin <=? length (buf r))%nat then Ok (slice (buf r) (pos r) fin, mkReader (buf r) fin)
  else Err TruncatedFrame.
Definition r_u8 (r : Reader) : result MeshError (Z * Reader) :=
  x ← r_bytes r 1; Ok (b2z (x.1 !!! 0%nat), x.2).
Definition r_u16 (r : Reader) : result MeshError (Z * Reader) :=
  x ← r_bytes r 2; Ok (be_val x.1, x.2).
Definition r_u64 (r : Reader) : result MeshError (Z * Reader) :=
  x ← r_bytes r 8; Ok (be_val x.1, x.2).
Definition r_array4 (r : Reader) : result MeshError (bytes * Reader) := r_bytes r 4.
Definition r_array16 (r : Reader) : result MeshError (bytes * Reader) := r_bytes r 16.

(** ** Shapes, framings, protocols *)
Inductive MeshFraming : Type := FTcp | FUdp.
Inductive MeshProtocol : Type := PSs | PVless.
Inductive MeshShape : Type := MStream | MDatagram | MVlessUdpSingle | MVlessMux.
#[export] Instance MeshFraming_eq_dec : EqDecision MeshFraming.
Proof. solve_decision. Defined.
#[export] Instance MeshProtocol_eq_dec : EqDecision MeshProtocol.
Proof. solve_decision. Defined.
#[export] Instance MeshShape_eq_dec : EqDecision MeshShape.
Proof. solve_decision. Defined.

Definition OPEN_VERSION : Z := 5.
Definition OPEN_ACK_ACCEPTED : Z := 1.
Definition framing_to_u8 (f : MeshFraming) : Z := match f with FTcp => 0 | FUdp => 1 end.
Definition framing_from_u8 (v : Z) : result MeshError MeshFraming :=
  if v =? 0 then Ok FTcp else if v =? 1 then Ok FUdp else Err (UnknownFraming v).
Definition shape_to_u8 (s : MeshShape) : Z :=
  match s with MStream => OPEN_ACK_ACCEPTED | MDatagram => 2 | MVlessUdpSingle => 3 | MVlessMux => 4 end.
Definition shape_from_u8 (v : Z) : result MeshError MeshShape :=
  if v =? OPEN_ACK_ACCEPTED then Ok MStream else if v =? 2 then Ok MDatagram
  else if v =? 3 then Ok MVlessUdpSingle else if v =? 4 then Ok MVlessMux else Err (UnknownShape v).
Definition framing_of (s : MeshShape) : option MeshFraming :=
  match s with
  | MStream => Some FTcp
  | MDatagram | MVlessUdpSingle => Some FUdp
  | MVlessMux => Some FTcp
  end.
Definition protocol_label (p : MeshProtocol) : bytes :=
  match p with PSs => str "ss" | PVless => str "vless" end.

Definition open_ack_byte (committed : option MeshShape) (parked : MeshShape) : Z :=
  match committed with Some _ => OPEN_ACK_ACCEPTED | None => shape_to_u8 parked end.
Definition parse_open_ack (b : Z) (committed : option MeshShape) : result MeshError MeshShape :=
  match committed with
  | Some shape => if negb (b =? OPEN_ACK_ACCEPTED) then Err (UnexpectedAck b) else Ok shape
  | None => shape_from_u8 b
  end.

(** ** The OPEN *)
Definition FLAG_RESUME_CAPABLE : Z := 0x01.
Definition FLAG_ACK_PREFIX : Z := 0x02.
Definition FLAG_SYMMETRIC_REPLAY : Z := 0x04.
Definition FLAG_HAS_PEER_ADDR : Z := 0x08.
Definition FLAG_VLESS : Z := 0x10.

Record OpenHeader : Type := mkOpen {
  framing : MeshFraming;
  protocol : MeshProtocol;
  session_id : bytes;
  resume_capable : bool;
  ack_prefix : bool;
  symmetric_replay : bool;
  client_down_acked : Z;
  peer_addr : option SocketAddr
}.
Definition committed_shape (h : OpenHeader) : option MeshShape :=
  match protocol h with
  | PSs => Some (match framing h with FTcp => MStream | FUdp => MDatagram end)
  | PVless => None
  end.

Definition open_flags (h : OpenHeader) : Z :=
  let flags := 0 in
  let flags := if resume_capable h then Z.lor flags FLAG_RESUME_CAPABLE else flags in
  let flags := if ack_prefix h then Z.lor flags FLAG_ACK_PREFIX else flags in
  let flags := if symmetric_replay h then Z.lor flags FLAG_SYMMETRIC_REPLAY else flags in
  let flags := match peer_addr h with Some _ => Z.lor flags FLAG_HAS_PEER_ADDR | None => flags end in
  if bool_decide (protocol h = PVless) then Z.lor flags FLAG_VLESS else flags.
Definition open_encode (h : OpenHeader) : bytes :=
  [u8 OPEN_VERSION; u8 (framing_to_u8 (framing h)); u8 (open_flags h)]
  ++ be_bytes 8 (client_down_acked h) ++ session_id h
  ++ match peer_addr h with
     | Some (V4 ip port) => [u8 4] ++ ip ++ be_bytes 2 port
     | Some (V6 ip port) => [u8 6] ++ ip ++ be_bytes 2 port
     | None => []
     end.

(** The optional address of the OPEN. *)
Definition parse_peer_addr (r : Reader) : result MeshError (SocketAddr * Reader) :=
  '(fam, r) ← r_u8 r;
  if fam =? 4 then '(ip, r) ← r_array4 r; '(port, r) ← r_u16 r; Ok (V4 ip port, r)
  else if fam =? 6 then '(ip, r) ← r_array16 r; '(port, r) ← r_u16 r; Ok (V6 ip port, r)
  else Err (UnknownFamily fam).
Definition open_parse (b : bytes) : result MeshError OpenHeader :=
  '(version, r) ← r_u8 (Reader_new b);
  if negb (version =? OPEN_VERSION) then Err (UnsupportedVersion version)
  else
    '(f, r) ← r_u8 r;
    f ← framing_from_u8 f;
    '(flags, r) ← r_u8 r;
    '(down, r) ← r_u64 r;
    '(id, r) ← r_array16 r;
    addr ← (if negb (Z.land flags FLAG_HAS_PEER_ADDR =? 0)
            then '(a, _) ← parse_peer_addr r; Ok (Some a) else Ok None);
    Ok (mkOpen f (if negb (Z.land flags FLAG_VLESS =? 0) then PVless else PSs) id
          (negb (Z.land flags FLAG_RESUME_CAPABLE =? 0)) (negb (Z.land flags FLAG_ACK_PREFIX =? 0))
          (negb (Z.land flags FLAG_SYMMETRIC_REPLAY =? 0)) down addr).

(** ** USER and UPSTREAM-ACK *)
Definition MAX_USER_LEN : Z := 64.
Record UserFrame : Type := mkUser { user : bytes }.
Definition user_encode (f : UserFrame) : bytes := u8 (zlen (user f)) :: user f.
Definition user_parse (b : bytes) : result MeshError UserFrame :=
  '(len, r) ← r_u8 (Reader_new b);
  if len =? 0 then Err EmptyUser
  else if MAX_USER_LEN <? len then Err (UserTooLong len)
  else
    '(name, _) ← r_bytes r (Z.to_nat len);
    if utf8_valid name then Ok (mkUser name) else Err UserNotUtf8.

Definition UPSTREAM_ACK_FRAME_LEN : nat := 8.
Record UpstreamAckFrame : Type := mkUpstreamAck { upstream_acked : Z }.
Definition upstream_ack_encode (f : UpstreamAckFrame) : bytes := be_bytes UPSTREAM_ACK_FRAME_LEN (upstream_acked f).
Definition upstream_ack_parse (b : bytes) : result MeshError UpstreamAckFrame :=
  x ← r_u64 (Reader_new b); Ok (mkUpstreamAck x.1).

(** ** Close codes *)
Inductive CloseReason : Type := RFin | RAbort | RBudget | RCapacity | RNoSession.
Definition reason_code (r : CloseReason) : Z :=
  match r with RFin => 0 | RAbort => 1 | RBudget => 2 | RCapacity => 3 | RNoSession => 5 end.
Definition reason_from_code (code : Z) : CloseReason :=
  if code =? 0 then RFin else if code =? 2 then RBudget else if code =? 3 then RCapacity
  else if code =? 5 then RNoSession else RAbort.
Inductive CloseIntent : Type := CarrierEnded | ClientDone.
#[export] Instance CloseReason_eq_dec : EqDecision CloseReason.
Proof. solve_decision. Defined.
#[export] Instance CloseIntent_eq_dec : EqDecision CloseIntent.
Proof. solve_decision. Defined.
Definition CLOSE_INTENT_CARRIER_ENDED : Z := 0x5001.
Definition CLOSE_INTENT_CLIENT_DONE : Z := 0x5002.
Definition intent_code (i : CloseIntent) : Z :=
  match i with CarrierEnded => CLOSE_INTENT_CARRIER_ENDED | ClientDone => CLOSE_INTENT_CLIENT_DONE end.
(** [code] is a [u64]; [u32::try_from] refuses what the test cannot match. *)
Definition intent_from_code (code : Z) : CloseIntent :=
  if code =? CLOSE_INTENT_CLIENT_DONE then ClientDone else CarrierEnded.

(** ** Reading a stream *)
Inductive ReadEvent : Type := Data (d : bytes) | Failed.
(** One [read] into a buffer of [cap] bytes. *)
Definition read (cap : nat) (s : list ReadEvent) : result MeshError bytes * list ReadEvent :=
  match s with
  | [] => (Ok [], [])
  | Failed :: s => (Err StreamFailed, s)
  | Data d :: s => if (length d <=? cap)%nat then (Ok d, s) else (Ok (take cap d), Data (drop cap d) :: s)
  end.
(** [take(limit).read_to_end] and the loop of [read_exact]: reads until [limit]
    bytes are there or a read returns none. *)
Fixpoint read_limit (fuel limit : nat) (s : list ReadEvent) : result MeshError bytes * list ReadEvent :=
  match fuel, limit with
  | S fuel, S _ =>
    match read limit s with
    | (Ok [], s) => (Ok [], s)
    | (Ok d, s) =>
      let (r, s) := read_limit fuel (limit - length d) s in (r ← r; Ok (d ++ r), s)
    | (Err e, s) => (Err e, s)
    end
  | _, _ => (Ok [], s)
  end.
Definition read_exactly (n : nat) (s : list ReadEvent) : result MeshError bytes * list ReadEvent :=
  let (r, s) := read_limit n n s in
  (d ← r; if (length d <? n)%nat then Err StreamEnded else Ok d, s).

(** *** The setup frames over the stream *)
Definition MAX_OPEN_HEADER_LEN : Z := 4096.
Definition open_relay_stream (h : OpenHeader) : bytes :=
  be_bytes 4 (zlen (open_encode h)) ++ open_encode h.
Definition read_open_header (s : list ReadEvent) : result MeshError OpenHeader * list ReadEvent :=
  match read_exactly 4 s with
  | (Err e, s) => (Err e, s)
  | (Ok len_buf, s) =>
    let len := be_val len_buf in
    if MAX_OPEN_HEADER_LEN <? len then (Err (OpenTooLong len), s)
    else let (b, s) := read_exactly (Z.to_nat len) s in (b ← b; open_parse b, s)
  end.
Definition read_open_ack (s : list ReadEvent) (committed : option MeshShape)
    : result MeshError MeshShape * list ReadEvent :=
  let (a, s) := read_exactly 1 s in (a ← a; parse_open_ack (b2z (a !!! 0%nat)) committed, s).
(** Of [transport/mesh_relay.rs]. *)
Definition read_user_frame (s : list ReadEvent) : result MeshError UserFrame * list ReadEvent :=
  match read_exactly 1 s with
  | (Err e, s) => (Err e, s)
  | (Ok len, s) =>
    let claimed := b2z (len !!! 0%nat) in
    if MAX_USER_LEN <? claimed then (Err (UserTooLong claimed), s)
    else let (b, s) := read_exactly (Z.to_nat claimed) s in (b ← b; user_parse (len ++ b), s)
  end.

(** *** Datagrams *)
Definition MAX_UDP_DATAGRAM : Z := 128 * 1024.
Definition LEN_PREFIX : nat := 4.
(** What is written, all of it or nothing. *)
Definition write_datagram (payload : bytes) : result MeshError bytes :=
  if MAX_UDP_DATAGRAM <? zlen payload then Err (DatagramTooLarge (zlen payload))
  else Ok (be_bytes 4 (zlen payload) ++ payload).
(** The loop that fills the length; [None] is the clean end. *)
Fixpoint read_prefix (fuel : nat) (len_buf : bytes) (s : list ReadEvent)
    : result MeshError (option bytes) * list ReadEvent :=
  match fuel with
  | O => (Ok (Some len_buf), s)
  | S fuel =>
    if (length len_buf <? LEN_PREFIX)%nat then
      match read (LEN_PREFIX - length len_buf) s with
      | (Err e, s) => (Err e, s)
      | (Ok [], s) =>
        if bool_decide (len_buf = []) then (Ok None, s) else (Err (TruncatedLength (zlen len_buf)), s)
      | (Ok d, s) => read_prefix fuel (len_buf ++ d) s
      end
    else (Ok (Some len_buf), s)
  end.
Definition read_datagram (s : list ReadEvent) : result MeshError (option bytes) * list ReadEvent :=
  match read_prefix LEN_PREFIX [] s with
  | (Err e, s) => (Err e, s)
  | (Ok None, s) => (Ok None, s)
  | (Ok (Some len_buf), s) =>
    let len := be_val len_buf in
    if MAX_UDP_DATAGRAM <? len then (Err (DatagramLengthExceedsMax len), s)
    else
      match read_limit (Z.to_nat len) (Z.to_nat len) s with
      | (Err e, s) => (Err e, s)
      | (Ok d, s) => if negb (zlen d =? len) then (Err (TruncatedPayload (zlen d) len), s) else (Ok (Some d), s)
      end
  end.

(** ** Routing *)
Inductive RouteDecision : Type := Local | Relay (shard : ShardId).
Record ClusterIdentity : Type := mkIdentity { key : ObfuscationKey; shard : ShardId }.
#[export] Instance ShardId_eq_dec : EqDecision ShardId.
Proof. solve_decision. Defined.
Section blake3.
Variable blake3_keyed_xof : bytes -> bytes -> nat -> bytes.
(** [None] is the panic of [decode_shard]'s [expect]. *)
Definition decide_route (identity : option ClusterIdentity) (resume_id : option bytes) : option RouteDecision :=
  match identity, resume_id with
  | Some identity, Some id =>
    s ← decode_shard blake3_keyed_xof (key identity) id;
    Some (if bool_decide (s = shard identity) then Local else Relay s)
  | _, _ => Some Local
  end.
End blake3.

(** ** What the stream carries *)
Inductive carries : list ReadEvent -> bytes -> Prop :=
  | carries_end : carries [] []
  | carries_data d s w : d <> [] -> carries s w -> carries (Data d :: s) (d ++ w).

(** One read of a stream with bytes left: some of them, at least one. *)
Lemma read_carries cap s w : (0 < cap)%nat -> carries s w -> w <> [] ->
  exists d s', read cap s = (Ok d, s') /\ d <> [] /\ (length d <= cap)%nat
    /\ exists w', w = d ++ w' /\ carries s' w'.
Proof.
  intros Hc H Hw. destruct H as [|d s w Hd H]; [done|]. cbn [read].
  destruct (Nat.leb_spec (length d) cap) as [Hl|Hl].
  - by exists d, s; split_and!; eauto.
  - exists (take cap d), (Data (drop cap d) :: s). split_and!; [done| |rewrite length_take; lia|].
    + destruct d; [done|]. by destruct cap; [lia|].
    + exists (drop cap d ++ w). rewrite app_assoc, take_drop. split; [done|]. constructor; [|done].
      intros E. apply (f_equal length) in E. rewrite length_drop in E. cbn in E. lia.
Qed.
Lemma carries_nil s : carries s [] -> s = [].
Proof. intros H. inversion H as [|d s' w Hd Hs E1 E2]; [done|]. by destruct d. Qed.

Lemma read_limit_carries fuel : forall n s w, (n <= fuel)%nat -> carries s w ->
  exists s', read_limit fuel n s = (Ok (take n w), s') /\ carries s' (drop n w).
Proof.
  induction fuel as [|fuel IH]; intros n s w Hn H.
  { replace n with 0%nat by lia. by exists s. }
  destruct n as [|n]; [by exists s|]. cbn [read_limit].
  destruct (decide (w = [])) as [->|Hw].
  { apply carries_nil in H as ->. exists []. rewrite take_nil, drop_nil. split; [done|constructor]. }
  destruct (read_carries (S n) s w ltac:(lia) H Hw) as (d & s' & -> & Hd & Hl & w' & -> & H').
  destruct d as [|x d]; [done|].
  destruct (IH (S n - length (x :: d))%nat s' w') as (s2 & -> & H2); [cbn [length]; lia|done|].
  exists s2. rewrite take_app_ge, drop_app_ge by done. done.
Qed.
Lemma read_exactly_carries s a w : carries s (a ++ w) ->
  exists s', read_exactly (length a) s = (Ok a, s') /\ carries s' w.
Proof.
  intros H. unfold read_exactly.
  destruct (read_limit_carries (length a) (length a) s _ ltac:(lia) H) as (s' & -> & H').
  exists s'. rewrite take_app_length in *. rewrite drop_app_length in H'. split; [|done].
  cbn. by rewrite Nat.ltb_irrefl.
Qed.

(** ** The frames *)
Definition rest (r : Reader) : bytes := drop (pos r) (buf r).
Lemma r_bytes_rest r a w : a <> [] -> rest r = a ++ w ->
  exists r', r_bytes r (length a) = Ok (a, r') /\ rest r' = w.
Proof.
  unfold rest, r_bytes. intros Ha H.
  assert (Hl : length (drop (pos r) (buf r)) = (length a + length w)%nat) by by rewrite H, length_app.
  rewrite length_drop in Hl. assert (0 < length a)%nat by by destruct a; cbn; [|lia].
  replace (_ <=? _)%nat with true by (symmetry; apply Nat.leb_le; lia).
  exists (mkReader (buf r) (pos r + length a)).
  split; [|cbn [pos buf]; by rewrite <- drop_drop, H, drop_app_length].
  unfold slice. by rewrite H, Nat.add_comm, Nat.add_sub, take_app_length.
Qed.
Lemma r_u8_rest r b w : rest r = b :: w -> exists r', r_u8 r = Ok (b2z b, r') /\ rest r' = w.
Proof.
  intros H. destruct (r_bytes_rest r [b] w ltac:(done) H) as (r' & E & Hr). exists r'.
  unfold r_u8. change 1%nat with (length [b]). by rewrite E.
Qed.
Lemma r_u16_rest r p w : 0 <= p < 65536 -> rest r = be_bytes 2 p ++ w ->
  exists r', r_u16 r = Ok (p, r') /\ rest r' = w.
Proof.
  intros Hp H. destruct (r_bytes_rest r (be_bytes 2 p) w ltac:(done) H) as (r' & E & Hr). exists r'.
  unfold r_u16. rewrite be_bytes_length in E. rewrite E. cbn. by rewrite be_val_u16.
Qed.
Lemma r_u64_rest r n w : 0 <= n < 2 ^ 64 -> rest r = be_bytes 8 n ++ w ->
  exists r', r_u64 r = Ok (n, r') /\ rest r' = w.
Proof.
  intros Hp H. destruct (r_bytes_rest r (be_bytes 8 n) w ltac:(done) H) as (r' & E & Hr). exists r'.
  unfold r_u64. rewrite be_bytes_length in E. rewrite E. cbn. by rewrite be_val_u64.
Qed.
Lemma r_array_rest n r a w : length a = S n -> rest r = a ++ w ->
  exists r', r_bytes r (S n) = Ok (a, r') /\ rest r' = w.
Proof. intros Ha H. rewrite <- Ha. apply r_bytes_rest; [by destruct a|done]. Qed.

Definition wf_addr (a : SocketAddr) : Prop :=
  match a with
  | V4 ip port => length ip = 4%nat /\ wf_port port
  | V6 ip port => length ip = 16%nat /\ wf_port port
  end.
Definition wf_open (h : OpenHeader) : Prop :=
  length (session_id h) = 16%nat /\ 0 <= client_down_acked h < 2 ^ 64
  /\ match peer_addr h with Some a => wf_addr a | None => True end.
Definition wf_user (f : UserFrame) : Prop := 1 <= zlen (user f) <= MAX_USER_LEN /\ utf8_valid (user f) = true.

Lemma open_flags_bits h :
  0 <= open_flags h < 256
  /\ negb (Z.land (open_flags h) FLAG_HAS_PEER_ADDR =? 0) = bool_decide (is_Some (peer_addr h))
  /\ (if negb (Z.land (open_flags h) FLAG_VLESS =? 0) then PVless else PSs) = protocol h
  /\ negb (Z.land (open_flags h) FLAG_RESUME_CAPABLE =? 0) = resume_capable h
  /\ negb (Z.land (open_flags h) FLAG_ACK_PREFIX =? 0) = ack_prefix h
  /\ negb (Z.land (open_flags h) FLAG_SYMMETRIC_REPLAY =? 0) = symmetric_replay h.
Proof. destruct h as [? [] ? [] [] [] ? []]; by vm_compute. Qed.
Lemma framing_codes f : b2z (u8 (framing_to_u8 f)) = framing_to_u8 f /\ framing_from_u8 (framing_to_u8 f) = Ok f.
Proof. by destruct f. Qed.

Ltac next_field :=
  match goal with
  | H : rest ?r = ?b :: _ |- context [r_u8 ?r] => destruct (r_u8_rest r b _ H) as (? & -> & ?)
  | H : rest ?r = be_bytes 8 _ ++ _ |- context [r_u64 ?r] =>
    destruct (r_u64_rest r _ _ ltac:(eassumption) H) as (? & -> & ?)
  | H : rest ?r = be_bytes 2 _ ++ _ |- context [r_u16 ?r] =>
    destruct (r_u16_rest r _ _ ltac:(eassumption) H) as (? & -> & ?)
  | H : rest ?r = ?a ++ _, L : length ?a = _ |- context [r_bytes ?r _] =>
    destruct (r_array_rest _ r a _ L H) as (? & -> & ?)
  end.

Lemma parse_peer_addr_ok r a w : wf_addr a ->
  rest r = (match a with V4 ip port => [u8 4] ++ ip ++ be_bytes 2 port | V6 ip port => [u8 6] ++ ip ++ be_bytes 2 port end) ++ w ->
  exists r', parse_peer_addr r = Ok (a, r') /\ rest r' = w.
Proof.
  unfold parse_peer_addr, r_array4, r_array16. intros Ha H.
  destruct a as [ip port|ip port]; destruct Ha as [Hl Hp]; unfold wf_port in Hp; rewrite <- !app_assoc in H;
    change (rest r = ?x ++ ?y) with (rest r = x ++ y) in H; cbn [app] in H; next_field; cbn -[r_bytes r_u16];
    next_field; cbn -[r_u16]; next_field; cbn; eauto.
Qed.
Lemma open_parse_encode h w : wf_open h -> open_parse (open_encode h ++ w) = Ok h.
Proof.
  intros (Hid & Hd & Ha). destruct (open_flags_bits h) as (Hf & Haddr & Hp & Hr & Hk & Hs).
  destruct (framing_codes (framing h)) as [Hc Hc'].
  unfold open_parse, r_array16.
  assert (H : rest (Reader_new (open_encode h ++ w)) = open_encode h ++ w) by done.
  revert H. generalize (Reader_new (open_encode h ++ w)). unfold open_encode. intros r H.
  rewrite <- !app_assoc in H. cbn [app] in H.
  next_field. rewrite b2z_u8_small by done. cbn [mbind result_bind].
  change (negb (OPEN_VERSION =? OPEN_VERSION)) with false. cbv iota.
  next_field. rewrite Hc. cbn [mbind result_bind]. rewrite Hc'. cbn [mbind result_bind].
  next_field. rewrite b2z_u8_small by done. cbn [mbind result_bind].
  next_field. cbn [mbind result_bind]. next_field. cbn [mbind result_bind].
  rewrite Haddr, Hp, Hr, Hk, Hs. clear Haddr Hp Hr Hk Hs Hc Hc' Hf.
  destruct h as [f p id rc ap sr da [a|]]; cbn -[parse_peer_addr] in *; [|done].
  match goal with |- context [parse_peer_addr ?r] =>
    destruct (parse_peer_addr_ok r a w Ha) as (r' & -> & _); [by destruct a|done] end.
Qed.
Lemma user_parse_encode f w : wf_user f -> user_parse (user_encode f ++ w) = Ok f.
Proof.
  intros [Hl Hu]. unfold user_parse.
  assert (H : rest (Reader_new (user_encode f ++ w)) = user_encode f ++ w) by done.
  revert H. generalize (Reader_new (user_encode f ++ w)). unfold user_encode. intros r H. cbn [app] in H.
  unfold MAX_USER_LEN in *. next_field. rewrite b2z_u8_small by lia. cbn [mbind result_bind].
  replace (zlen (user f) =? 0) with false by lia. replace (64 <? zlen (user f)) with false by lia.
  unfold zlen. rewrite Nat2Z.id.
  match goal with H : rest ?r = user f ++ w |- _ => destruct (r_bytes_rest r (user f) w) as (r' & -> & _) end;
    [intros E; rewrite E, zlen_nil in Hl; clear -Hl; lia|done|].
  cbn. rewrite Hu. by destruct f.
Qed.
Lemma open_encode_len h : wf_open h -> 27 <= zlen (open_encode h) <= 46.
Proof.
  intros (Hid & Hd & Ha). unfold open_encode.
  destruct (peer_addr h) as [[ip p|ip p]|]; repeat rewrite ?zlen_app, ?zlen_cons, ?zlen_nil, ?zlen_be_bytes;
    unfold zlen; cbn in Ha; lia.
Qed.

(** ** Datagrams over the stream *)
Lemma read_prefix_carries fuel : forall need acc s w, (length acc + need = LEN_PREFIX)%nat -> (need <= fuel)%nat ->
  carries s w -> exists s', carries s' (drop need w) /\ read_prefix fuel acc s
  = (if (need <=? length w)%nat then Ok (Some (acc ++ take need w))
     else if bool_decide (acc ++ w = []) then Ok None else Err (TruncatedLength (zlen (acc ++ w))), s').
Proof.
  induction fuel as [|fuel IH]; intros need acc s w Ha Hf H.
  { replace need with 0%nat by lia. exists s. by rewrite app_nil_r. }
  cbn [read_prefix]. destruct need as [|need].
  { rewrite ltb_false_ge by lia. exists s. by rewrite app_nil_r. }
  rewrite ltb_true_lt by lia. replace (LEN_PREFIX - length acc)%nat with (S need) by lia.
  destruct (decide (w = [])) as [->|Hw].
  { apply carries_nil in H as ->. exists []. split; [constructor|]. cbn [read length Nat.leb].
    change (S need <=? 0)%nat with false; cbv iota; rewrite app_nil_r. by case_bool_decide. }
  destruct (read_carries (S need) s w ltac:(lia) H Hw) as (d & s' & -> & Hd & Hl & w' & -> & H').
  destruct d as [|x d]; [done|].
  destruct (IH (S need - length (x :: d))%nat (acc ++ x :: d) s' w') as (s2 & H2 & ->);
    [rewrite length_app; lia|cbn [length]; lia|done|].
  exists s2. rewrite drop_app_ge, take_app_ge, length_app, <- !app_assoc by done. split; [done|].
  replace (S need <=? length (x :: d) + length w')%nat with (S need - length (x :: d) <=? length w')%nat; [done|].
  apply eq_true_iff_eq. rewrite !Nat.leb_le. lia.
Qed.
(** One datagram, whole or cut short. *)
Lemma frame_len d w : write_datagram d = Ok w -> w = be_bytes 4 (zlen d) ++ d /\ zlen d <= MAX_UDP_DATAGRAM.
Proof. unfold write_datagram. intros H. split_guard. by injection H as <-. Qed.
Lemma datagram_body (d : bytes) s (w : bytes) : zlen d <= MAX_UDP_DATAGRAM -> (4 <= length w)%nat -> take 4 w = be_bytes 4 (zlen d) ->
  carries s w -> exists s', carries s' (drop (length d) (drop 4 w)) /\
  read_datagram s = ((let got := take (length d) (drop 4 w) in
    if negb (zlen got =? zlen d) then Err (TruncatedPayload (zlen got) (zlen d)) else Ok (Some got)), s').
Proof.
  intros Hd Hw Ht H. unfold read_datagram.
  destruct (read_prefix_carries LEN_PREFIX 4 [] s w ltac:(done) ltac:(done) H) as (s1 & H1 & ->).
  rewrite (proj2 (Nat.leb_le _ _) Hw). cbn [app]. rewrite Ht.
  unfold MAX_UDP_DATAGRAM in *. rewrite be_val_be_bytes_small by (change (256 ^ Z.of_nat 4) with 4294967296; pose proof (zlen_nonneg d); lia).
  rewrite (proj2 (Z.ltb_ge _ _) Hd). unfold zlen at 1 2. rewrite Nat2Z.id.
  destruct (read_limit_carries (length d) (length d) s1 _ ltac:(lia) H1) as (s2 & -> & H2).
  exists s2. split; [done|]. cbv zeta. by case (negb _).
Qed.
Lemma read_datagram_whole d w0 s w : write_datagram d = Ok w0 -> carries s (w0 ++ w) ->
  exists s', read_datagram s = (Ok (Some d), s') /\ carries s' w.
Proof.
  intros (-> & Hd)%frame_len H.
  assert (Hw : (4 <= length ((be_bytes 4 (zlen d) ++ d) ++ w))%nat) by (rewrite !length_app, be_bytes_length; lia).
  destruct (datagram_body d s _ Hd Hw) as (s' & H' & ->); [by rewrite <- app_assoc, take_app_length' by done|done|].
  exists s'. rewrite <- !app_assoc, drop_app_length' in * by done. rewrite take_app_length, drop_app_length in *.
  cbv zeta. by rewrite Z.eqb_refl.
Qed.
Lemma read_datagram_cut d tail more s : write_datagram d = Ok (tail ++ more) -> more <> [] -> carries s tail ->
  exists s' e, read_datagram s = (if bool_decide (tail = []) then Ok None else Err e, s').
Proof.
  intros (E & Hd)%frame_len Hm H. assert (Hl : (length tail < 4 + length d)%nat).
  { apply (f_equal length) in E. rewrite !length_app, be_bytes_length in E. destruct more; [done|]. cbn in E. lia. }
  destruct (Nat.lt_ge_cases (length tail) 4) as [Hs|Hs].
  - unfold read_datagram.
    destruct (read_prefix_carries LEN_PREFIX 4 [] s tail ltac:(done) ltac:(done) H) as (s1 & _ & ->).
    rewrite (proj2 (Nat.leb_gt _ _) Hs). cbn [app]. exists s1, (TruncatedLength (zlen tail)). by case_bool_decide.
  - assert (Ht : take 4 tail = be_bytes 4 (zlen d)).
    { apply (f_equal (take 4)) in E. rewrite take_app_le in E by done. by rewrite E, take_app_length'. }
    destruct (datagram_body d s tail Hd Hs Ht H) as (s' & _ & ->).
    rewrite take_ge by (rewrite length_drop; lia). eexists s', _. rewrite bool_decide_eq_false_2 by (by destruct tail).
    cbv zeta. rewrite (proj2 (Z.eqb_neq _ _)); [done|]. unfold zlen. rewrite length_drop. lia.
Qed.

(** The loop of a datagram relay: to the end of the stream or its first error. *)
Fixpoint drain_datagrams (fuel : nat) (s : list ReadEvent) : list bytes * result MeshError unit :=
  match fuel with
  | O => ([], Ok tt)
  | S fuel =>
    match read_datagram s with
    | (Ok (Some d), s) => let (ds, r) := drain_datagrams fuel s in (d :: ds, r)
    | (Ok None, _) => ([], Ok tt)
    | (Err e, _) => ([], Err e)
    end
  end.

(** ** Properties *)

(** The setup frames of a relay survive the stream however QUIC cuts it:
    the home reads back the OPEN and then the USER frame, the edge learns from
    the ack the shape both nodes use, and the offset of the UPSTREAM-ACK frame
    is the home's. *)
Theorem mesh_setup_roundtrip (h : OpenHeader) (u : UserFrame) (parked : MeshShape) (acked : Z) (s s_ack : list ReadEvent) (body : bytes) :
  wf_open h -> wf_user u -> 0 <= acked < 2 ^ 64 ->
  carries s (open_relay_stream h ++ user_encode u ++ body) ->
  carries s_ack (u8 (open_ack_byte (committed_shape h) parked) :: body) ->
  (exists s1 s2, read_open_header s = (Ok h, s1) /\ read_user_frame s1 = (Ok u, s2) /\ carries s2 body)
  /\ (exists s3, read_open_ack s_ack (committed_shape h) = (Ok (default parked (committed_shape h)), s3) /\ carries s3 body)
  /\ upstream_ack_parse (upstream_ack_encode (mkUpstreamAck acked) ++ body) = Ok (mkUpstreamAck acked).
Proof.
  intros Hh Hu Hk Hs Hsa. split_and!.
  - unfold open_relay_stream in Hs. rewrite <- !app_assoc in Hs. pose proof (open_encode_len h Hh) as Hl.
    apply read_exactly_carries in Hs as (s1 & E1 & Hs). rewrite be_bytes_length in E1.
    apply read_exactly_carries in Hs as (s2 & E2 & Hs).
    unfold user_encode in Hs. change (u8 (zlen (user u)) :: ?l) with ([u8 (zlen (user u))] ++ l) in Hs.
    rewrite <- app_assoc in Hs. apply read_exactly_carries in Hs as (s3 & E3 & Hs).
    apply read_exactly_carries in Hs as (s4 & E4 & Hs).
    exists s2, s4. unfold read_open_header. rewrite E1. rewrite be_val_be_bytes_small by (change (256 ^ Z.of_nat 4) with 4294967296; lia).
    replace (MAX_OPEN_HEADER_LEN <? zlen (open_encode h)) with false by (unfold MAX_OPEN_HEADER_LEN; lia).
    unfold zlen at 1. rewrite Nat2Z.id, E2. cbn [mbind result_bind].
    rewrite <- (app_nil_r (open_encode h)), open_parse_encode by done. split; [done|]. split; [|done].
    unfold read_user_frame. cbn [length] in E3. rewrite E3. cbn [lookup_total list_lookup_total].
    destruct Hu as [Hul Huu]. rewrite b2z_u8_small by (unfold MAX_USER_LEN in Hul; lia).
    replace (MAX_USER_LEN <? zlen (user u)) with false by lia. unfold zlen at 1. rewrite Nat2Z.id, E4.
    cbn [mbind result_bind]. cbn [app]. change (u8 (zlen (user u)) :: user u) with (user_encode u).
    by rewrite <- (app_nil_r (user_encode u)), user_parse_encode.
  - change (u8 ?x :: body) with ([u8 x] ++ body) in Hsa.
    apply read_exactly_carries in Hsa as (s1 & E1 & Hsa). exists s1. split; [|done].
    unfold read_open_ack. cbn [length] in E1. rewrite E1.
    by destruct h as [[] [] ? ? ? ? ? ?], parked.
  - unfold upstream_ack_parse. 
    destruct (r_u64_rest (Reader_new (upstream_ack_encode (mkUpstreamAck acked) ++ body)) acked body Hk) as (r & -> & _); done.
Qed.

(** Datagrams keep their boundaries over the relay stream however QUIC cuts
    it, and a stream that ends inside one gives exactly the complete ones and
    then an error; only an end between two of them is a clean one. *)
Theorem mesh_datagrams_survive (ds ws : list bytes) (d tail more : bytes) (s : list ReadEvent) :
  Forall2 (fun d w => write_datagram d = Ok w) ds ws ->
  write_datagram d = Ok (tail ++ more) -> more <> [] ->
  carries s (concat ws ++ tail) ->
  exists e, drain_datagrams (S (length ds)) s = (ds, if bool_decide (tail = []) then Ok tt else Err e).
Proof.
  intros Hds Hd Hm. revert s. induction Hds as [|d0 w0 ds ws H0 _ IH]; intros s H.
  - destruct (read_datagram_cut d tail more s Hd Hm H) as (s' & e & E). exists e.
    cbn [drain_datagrams length]. rewrite E. by case_bool_decide.
  - cbn [concat] in H. rewrite <- app_assoc in H.
    destruct (read_datagram_whole d0 w0 s _ H0 H) as (s' & E & H'). destruct (IH s' H') as (e & E').
    exists e. cbn [length]. change (S (S (length ds))) with (S (S (length ds))).
    cbn [drain_datagrams]. rewrite E. cbn [drain_datagrams] in E'. by rewrite E'.
Qed.

(** A client goes to the node its resume id names. *)
Lemma resume_id_routes_home (xof : bytes -> bytes -> nat -> bytes)
    (xof_length : forall k d n, length (xof k d n) = n)
    (k : ObfuscationKey) (home edge : ShardId) (entropy : bytes) :
  wf_shard home -> length entropy = SESSION_ID_LEN ->
  decide_route xof (Some (mkIdentity k edge)) (Some (encode_session_id xof k home entropy))
  = Some (if bool_decide (home = edge) then Local else Relay home).
Proof.
  intros Hs Hl. unfold decide_route. cbn [key shard]. rewrite (decode_encode xof xof_length) by done. cbn.
  by case_bool_decide.
Qed.

Definition toy_header : OpenHeader :=
  mkOpen FUdp PSs (replicate 16 x07) true true false 77 (Some (V4 [x0a; x00; x00; x01] 4433)).
Lemma mesh_setup_roundtrip_witness :
  let w := open_relay_stream toy_header ++ user_encode (mkUser (str "bob")) ++ str "body" in
  exists s1 s2, read_open_header [Data (take 9 w); Data (drop 9 w)] = (Ok toy_header, s1)
    /\ read_user_frame s1 = (Ok (mkUser (str "bob")), s2) /\ carries s2 (str "body").
Proof.
  cbv zeta. set (w := open_relay_stream toy_header ++ user_encode (mkUser (str "bob")) ++ str "body").
  assert (Hs : carries [Data (take 9 w); Data (drop 9 w)] w).
  { rewrite <- (take_drop 9 w) at 3. rewrite <- (app_nil_r (drop 9 w)) at 2. by repeat constructor. }
  assert (Ha : carries [Data (u8 1 :: str "body")] (u8 (open_ack_byte (committed_shape toy_header) MDatagram) :: str "body")).
  { apply (carries_data (u8 1 :: str "body") [] []); [done|constructor]. }
  apply (mesh_setup_roundtrip toy_header (mkUser (str "bob")) MDatagram 5
    [Data (take 9 w); Data (drop 9 w)] [Data (u8 1 :: str "body")] (str "body"));
    [by repeat split|by repeat split|lia|exact Hs|exact Ha].
Defined.
Lemma mesh_datagrams_survive_witness :
  exists e, drain_datagrams 2 [Data [x00; x00]; Data [x00; x01; x61; x00]] = ([[x61]], Err e).
Proof.
  apply (mesh_datagrams_survive [[x61]] [[x00; x00; x00; x01; x61]] [x62] [x00] [x00; x00; x01; x62]);
    [by repeat constructor|done|done|].
  change (concat [[x00; x00; x00; x01; x61]] ++ [x00]) with ([x00; x00] ++ ([x00; x01; x61; x00] ++ [])).
  by repeat constructor.
Defined.
