(* ===== verification/MeshHome.v ===== *)
(** The home of a relayed session
    ([bins/outline-ss-rust/src/server/transport/mesh_relay.rs], [serve_relayed]
    up to the splice) and the edge's half of the shape hand-off
    ([transport/vless/mod.rs], [keep_mesh_upstream_for]).

    [serve_relayed] suspends at the ack, at the USER frame and inside
    [take_for_resume]; the machine below takes one step between two suspensions,
    and the registry may change arbitrarily in between. Metrics and logs are
    left out, save the label of a refusal. *)
From S2P Require Import Prelude Cluster Orphans MeshFrame.
Local Open Scope Z_scope.

Definition mesh_shape (s : ParkShape) : MeshShape :=
  match s with
  | ShStream => MStream | ShDatagram => MDatagram | ShVlessUdpSingle => MVlessUdpSingle | ShVlessMux => MVlessMux
  end.
Definition park_query (h : OpenHeader) : option ParkQuery :=
  match framing h, protocol h with
  | FTcp, PSs => Some (Exact ShStream)
  | FUdp, PSs => Some (Exact ShDatagram)
  | FTcp, PVless => Some AnyVless
  | FUdp, PVless => None
  end.

(** The labels of [record_mesh_relay_rejected]. *)
Inductive Rejection : Type :=
  | BadSetup | NoSession | OtherParkShape | UnknownUser | FramingMismatch | ProtocolMismatch.
(** How [serve_relayed] ends: a refusal that leaves the registry alone, one that
    parks the session again, one that drops it, an unwritable ack, the splice. *)
Inductive RelayEnd : Type :=
  | Refused (code : CloseReason) (why : Rejection)
  | PutBack (code : CloseReason) (why : Rejection) (p : Parked)
  | Dropped (code : CloseReason) (why : Rejection) (p : Parked)
  | AckFailed
  | Spliced (p : Parked).

Inductive HomePc : Type :=
  | HStart
  | HAck (shape : ParkShape)
  | HUser (shape : ParkShape)
  | HProbe (shape : ParkShape) (user : bytes)
  | HTake (shape : ParkShape) (user : bytes)
  | HDone (e : RelayEnd).
Record Home : Type := mkHome { world : World; pc : HomePc }.

Definition set_registry (w : World) (r : OrphanRegistry) : World := mkWorld r (calls w) (taker w) (guard w).
(** What the relay's stream answers at the step that asks it. *)
Record HomeInput : Type := mkInput {
  now : Z;
  ack_written : bool;
  user_frame : option (result MeshError UserFrame)
}.

Section home.
Variable iter : gmap SessionId ParkedEntry -> list (SessionId * ParkedEntry).
Variable header : OpenHeader.

Definition first_probe (r : OrphanRegistry) : HomePc :=
  match park_query header with
  | None => HDone (Refused RAbort BadSetup)
  | Some query =>
    match probe_park r (session_id header) query with
    | Splicable (Some shape) => HAck shape
    | Splicable None => HAck (match query with Exact shape => shape | AnyVless => ShStream end)
    | Missing => HDone (Refused RNoSession NoSession)
    | OtherShape => HDone (Refused RNoSession OtherParkShape)
    end
  end.
Definition second_probe (r : OrphanRegistry) (shape : ParkShape) (user : bytes) : HomePc :=
  match probe_park r (session_id header) (Exact shape) with
  | Splicable _ => HTake shape user
  | Missing => HDone (Refused RNoSession NoSession)
  | OtherShape => HDone (Refused RNoSession OtherParkShape)
  end.

(** [registry.park] behind [registry.enabled()]. *)
Definition put_back (r : OrphanRegistry) (t : Z) (p : Parked) : OrphanRegistry :=
  if enabled (config r) then park iter r t (session_id header) p else r.
(** What is done with the outcome of [take_for_resume]. *)
Definition after_take (r : OrphanRegistry) (t : Z) (shape : ParkShape) (o : ResumeOutcome)
    : OrphanRegistry * RelayEnd :=
  match o with
  | Miss OwnerMismatch => (r, Refused RNoSession UnknownUser)
  | Miss _ => (r, Refused RNoSession NoSession)
  | Hit p =>
    match shape, p with
    | ShStream, Tcp _ _ _ => (r, Spliced p)
    | ShVlessMux, VlessMux _ _ =>
      if negb (bool_decide (protocol header = PVless))
      then (put_back r t p, PutBack RAbort ProtocolMismatch p) else (r, Spliced p)
    | ShVlessUdpSingle, VlessUdpSingle _ _ =>
      if negb (bool_decide (protocol header = PVless))
      then (r, Dropped RAbort ProtocolMismatch p) else (r, Spliced p)
    | ShDatagram, SsUdpStream _ _ =>
      if negb (bool_decide (protocol header = PSs))
      then (r, Dropped RAbort ProtocolMismatch p) else (r, Spliced p)
    | _, _ => (put_back r t p, PutBack RAbort FramingMismatch p)
    end
  end.

Definition home_step (i : HomeInput) (h : Home) : Home :=
  let w := world h in
  match pc h with
  | HStart => mkHome w (first_probe (registry w))
  | HAck shape => mkHome w (if ack_written i then HUser shape else HDone AckFailed)
  | HUser shape =>
    mkHome w (match user_frame i with
              | Some (Ok f) => HProbe shape (user f)
              | Some (Err _) => HDone (Refused RAbort BadSetup)
              | None => HDone (Refused RAbort BadSetup)
              end)
  | HProbe shape user => mkHome w (second_probe (registry w) shape user)
  | HTake shape user =>
    match taker w with
    | TDone o =>
      let (r, e) := after_take (registry w) (now i) shape o in mkHome (set_registry w r) (HDone e)
    | _ => mkHome (take_step iter w (now i) (session_id header) user) (HTake shape user)
    end
  | HDone _ => h
  end.

(** A registry whose entries carry the owner of what is parked. *)
Definition owned (r : OrphanRegistry) : Prop :=
  forall id e, by_id r !! id = Some e -> owner e = parked_owner (parked e).
(** What happens around one relay: its own steps, the bound on the wait, and
    anything at all the other sessions do to the registry, whose configuration is
    fixed. *)
Inductive relay_step : Home -> Home -> Prop :=
  | relay_home i h : relay_step h (home_step i h)
  | relay_timeout h : relay_step h (mkHome (take_timeout (world h)) (pc h))
  | relay_others h r c : owned r -> config r = config (registry (world h)) ->
      relay_step h (mkHome (mkWorld r c (taker (world h)) (guard (world h))) (pc h)).
Definition home_start (r : OrphanRegistry) : Home :=
  mkHome (mkWorld r (fun _ => 0%nat) TStart (GDropped false)) HStart.

Fixpoint run_home (fuel : nat) (i : HomeInput) (h : Home) : Home :=
  match fuel with O => h | S fuel => run_home fuel i (home_step i h) end.
End home.

(** ** The edge *)
(** [Some] when the relay is kept: the edge attests the user over it. *)
Definition keep_mesh_upstream_for (relay : option MeshShape) (want : MeshShape) : option MeshShape :=
  match relay with
  | Some shape => if negb (bool_decide (shape = want)) then None else Some shape
  | None => None
  end.

Section facts.
Context (iter : gmap SessionId ParkedEntry -> list (SessionId * ParkedEntry)) (header : OpenHeader).
Abbreviation id := (session_id header : SessionId).

(** What a take does to the parked sessions. *)
Lemma take_effect r t (i : SessionId) user : match try_take_committed iter r t i user with
  | (r', None) => r' = r
  | (r', Some (Hit p)) => exists e, by_id r !! i = Some e /\ p = parked e /\ owner e = user /\ t < deadline e
      /\ by_id r' = delete i (by_id r)
  | (r', Some (Miss Expired)) => exists e, by_id r !! i = Some e /\ deadline e <= t /\ by_id r' = delete i (by_id r)
  | (r', Some (Miss _)) => by_id r' = by_id r
  end.
Proof.
  unfold try_take_committed. destruct (by_id r !! i) as [e|] eqn:E; [|by cbn].
  destruct (Z.leb_spec (deadline e) t).
  - exists e. by rewrite by_id_refresh, by_id_detach.
  - case_bool_decide; cbn [negb]; [|cbn; by apply insert_delete_id].
    exists e. by rewrite by_id_refresh, by_id_detach.
Qed.

(** A session that is parked again: under its id, for its owner, with a new
    deadline; the others are there as before, but those the caps evict for it. *)
Definition parks_again (r r' : OrphanRegistry) (t : Z) (p : Parked) : Prop :=
  by_id r' !! id = Some (mkEntry (parked_owner p) (t + ttl_for_kind r (kind p)) p) /\ delete id (by_id r') ⊆ by_id r.
Lemma put_back_parks r t p : enabled (config r) = true -> parks_again r (put_back iter header r t p) t p.
Proof.
  intros He. unfold parks_again, put_back, park. rewrite He. cbn [negb]. rewrite by_id_refresh. cbn [by_id set_by_id].
  split; [apply lookup_insert_eq|]. rewrite delete_insert_eq. etrans; [apply delete_subseteq|].
  etrans; [apply by_id_park_global|apply by_id_park_per_user].
Qed.
(** Whoever waits in [take_for_resume] has found the registry on. *)
Definition on (w : World) : Prop :=
  match taker w with TStart | TDone (Miss _) => True | _ => enabled (config (registry w)) = true end.
Lemma on_take_step w t user : on w -> on (take_step iter w t id user).
Proof.
  unfold on. intros Hon. pose proof (reservations_take iter (registry w) t id user) as [_ Hc]. unfold take_step.
  destruct (taker w) as [| |m|m c|m c| |o] eqn:Et.
  - destruct (enabled (config (registry w))) eqn:He; cbn [negb]; [|done].
    destruct (try_take_committed _ _ _ _ _) as [r' [[p|[]]|]]; cbn in *; first [done|congruence].
  - cbn. by destruct (reservations _ !! _).
  - done.
  - cbn. by case_bool_decide.
  - destruct (_ <? _)%nat; cbn; [done|]. by rewrite Et.
  - destruct (try_take_committed _ _ _ _ _) as [r' [[p|[]]|]]; cbn in *; first [done|congruence].
  - by rewrite Et.
Qed.

(** The shapes an OPEN may splice. *)
Definition admitted (shape : ParkShape) : Prop :=
  match park_query header with Some q => admits q shape = true | None => False end.
Lemma first_probe_admitted r : match first_probe header r with
  | HAck shape => admitted shape
  | HDone (Refused _ _) => True
  | _ => False
  end.
Proof.
  unfold first_probe, admitted, probe_park. destruct (park_query header) as [q|]; [|done].
  destruct (by_id r !! id) as [e|].
  - by destruct (admits q (shape_of (parked e))) eqn:E.
  - case_bool_decide; [|done]. by destruct q as [[]|].
Qed.
(** The shape the edge reads off the ack is the one the home took. *)
Lemma ack_names_shape shape : admitted shape ->
  parse_open_ack (open_ack_byte (committed_shape header) (mesh_shape shape)) (committed_shape header)
  = Ok (mesh_shape shape).
Proof.
  unfold admitted, park_query, committed_shape. destruct (framing header), (protocol header), shape; try done.
Qed.

Definition home_inv (h : Home) : Prop :=
  match pc h with
  | HStart => taker (world h) = TStart /\ owned (registry (world h))
  | HAck shape | HUser shape | HProbe shape _ =>
    taker (world h) = TStart /\ owned (registry (world h)) /\ admitted shape
  | HTake shape user =>
    owned (registry (world h)) /\ admitted shape
    /\ match taker (world h) with TDone (Hit p) => parked_owner p = user | _ => True end
    /\ on (world h)
  | HDone _ => True
  end.
Lemma owned_delete r r' i : owned r -> by_id r' = delete i (by_id r) -> owned r'.
Proof. intros H E i' e. rewrite E, lookup_delete_Some. intros [_ ?]. by apply (H i'). Qed.
Lemma owned_same r r' : owned r -> by_id r' = by_id r -> owned r'.
Proof. intros H E i e. rewrite E. apply H. Qed.

(** A take of the waiting machine: its registry changes only by [try_take_committed]. *)
Lemma take_step_effect w t user : (forall p, taker w <> TDone (Hit p)) ->
  let w' := take_step iter w t id user in
  (by_id (registry w') = by_id (registry w) /\ forall p, taker w' <> TDone (Hit p))
  \/ exists e, by_id (registry w) !! id = Some e /\ by_id (registry w') = delete id (by_id (registry w))
     /\ ((deadline e <= t /\ taker w' = TDone (Miss Expired))
         \/ (owner e = user /\ t < deadline e /\ taker w' = TDone (Hit (parked e)))).
Proof.
  intros Hn w'. pose proof (take_effect (registry w) t id user) as H. subst w'. unfold take_step.
  destruct (taker w) as [| |m|m c|m c| |o] eqn:Et.
  - destruct (negb _); [by left|]. destruct (try_take_committed _ _ _ _ _) as [r' [[p|[]]|]]; cbn; naive_solver.
  - left. cbn. split; [done|]. by destruct (reservations _ !! _).
  - by left.
  - left. cbn. split; [done|]. by case_bool_decide.
  - left. destruct (_ <? _)%nat; cbn; split; try done. by rewrite Et.
  - destruct (try_take_committed _ _ _ _ _) as [r' [[p|[]]|]]; cbn; naive_solver.
  - left. by rewrite Et.
Qed.

Lemma home_inv_step i h : home_inv h -> home_inv (home_step iter header i h).
Proof.
  unfold home_inv, home_step. destruct (pc h) as [|shape|shape|shape u|shape u|e] eqn:Ep; cbn [pc world].
  - intros [Ht Ho]. pose proof (first_probe_admitted (registry (world h))) as Hf.
    by destruct (first_probe header (registry (world h))).
  - intros (Ht & Ho & Ha). by destruct (ack_written i).
  - intros (Ht & Ho & Ha). by destruct (user_frame i) as [[f|]|].
  - intros (Ht & Ho & Ha). unfold second_probe. destruct (probe_park _ _ _); [done| |done]. unfold on. by rewrite Ht.
  - intros (Ho & Ha & Ht & Hon). pose proof (on_take_step (world h) (now i) u Hon) as Hon'.
    assert (Hw : (exists o, taker (world h) = TDone o) \/ forall p, taker (world h) <> TDone (Hit p))
      by (destruct (taker (world h)); eauto).
    destruct Hw as [[o Hw]|Hw].
    { rewrite Hw. by destruct (after_take _ _ _ _ _). }
    destruct (take_step_effect (world h) (now i) u Hw) as [[Hb Hp]|(e & He & Hb & Hc)].
    + destruct (taker (world h)); try (by destruct (after_take _ _ _ _ _)); cbn [pc world];
        (split; [by eapply owned_same|]; split; [done|]; split; [|done];
         by destruct (taker (take_step _ _ _ _ _)) as [| | | | | |[]]; try done; edestruct Hp).
    + assert (Hd : owned (registry (take_step iter (world h) (now i) id u))) by by eapply owned_delete.
      destruct (taker (world h)); try (by destruct (after_take _ _ _ _ _)); cbn [pc world];
        (split; [done|]; split; [done|]; split; [|done]; destruct Hc as [[_ ->]|(Hu & _ & ->)]; [done|]; by rewrite <- Hu, (Ho id e He)).
  - by rewrite Ep.
Qed.
Lemma after_take_ends r t shape o : admitted shape ->
  (match o with Hit p => (shape_of p = shape /\ after_take iter header r t shape o = (r, Spliced p))
                        \/ exists code, after_take iter header r t shape o = (put_back iter header r t p, PutBack code FramingMismatch p)
   | Miss _ => exists code why, after_take iter header r t shape o = (r, Refused code why)
   end).
Proof.
  unfold admitted, park_query, after_take. destruct o as [p|[]]; [|by eauto..].
  destruct (framing header), (protocol header), shape, p; cbn; intros; try discriminate; try done; eauto.
Qed.
Lemma home_step_parks i h : home_inv h ->
  let h' := home_step iter header i h in
  by_id (registry (world h')) = by_id (registry (world h))
  \/ (exists e, by_id (registry (world h)) !! id = Some e
      /\ by_id (registry (world h')) = delete id (by_id (registry (world h)))
      /\ (deadline e <= now i \/ taker (world h') = TDone (Hit (parked e))))
  \/ exists code p, taker (world h) = TDone (Hit p) /\ pc h' = HDone (PutBack code FramingMismatch p)
     /\ parks_again (registry (world h)) (registry (world h')) (now i) p.
Proof.
  unfold home_inv, home_step. destruct (pc h) as [|shape|shape|shape u|shape u|e]; cbn; try by left.
  intros (_ & Ha & _ & Hon). destruct (taker (world h)) as [| | | | | |o] eqn:Et.
  7: { pose proof (after_take_ends (registry (world h)) (now i) shape o Ha) as H. destruct o.
       - destruct H as [[_ ->]|(code & ->)]; [by left|]. right. right. exists code, p. split_and!; [done..|].
         apply put_back_parks. unfold on in Hon. by rewrite Et in Hon.
       - destruct H as (code & why & ->). by left. }
  all: cbn; destruct (take_step_effect (world h) (now i) u) as [[Hb _]|(e & He & Hb & Hc)];
    [by rewrite Et|by left|]; right; left; exists e; naive_solver.
Qed.
Lemma home_step_ends i h : home_inv h ->
  match pc h, pc (home_step iter header i h) with
  | HDone _, _ => True
  | _, HDone (Spliced p) =>
    taker (world h) = TDone (Hit p)
    /\ pc h = HTake (shape_of p) (parked_owner p)
    /\ parse_open_ack (open_ack_byte (committed_shape header) (mesh_shape (shape_of p))) (committed_shape header)
       = Ok (mesh_shape (shape_of p))
  | _, HDone (Dropped _ _ _) => False
  | HTake shape user, HDone (PutBack _ why p) => why = FramingMismatch /\ taker (world h) = TDone (Hit p) /\ parked_owner p = user
     /\ parks_again (registry (world h)) (registry (world (home_step iter header i h))) (now i) p
  | _, HDone _ => forall p, taker (world h) <> TDone (Hit p)
  | _, _ => True
  end.
Proof.
  unfold home_inv, home_step. destruct (pc h) as [|shape|shape|shape u|shape u|e]; cbn [pc world]; [..|done].
  - intros [Ht _]. unfold first_probe. destruct (park_query header); [|by rewrite Ht].
    destruct (probe_park _ _ _) as [|[]|]; by rewrite ?Ht.
  - intros [Ht _]. destruct (ack_written i); by rewrite ?Ht.
  - intros [Ht _]. destruct (user_frame i) as [[]|]; by rewrite ?Ht.
  - intros [Ht _]. unfold second_probe. destruct (probe_park _ _ _); by rewrite ?Ht.
  - intros (_ & Ha & Hu & Hon). unfold on in Hon. destruct (taker (world h)) as [| | | | | |o]; try done.
    pose proof (after_take_ends (registry (world h)) (now i) shape o Ha) as H. destruct o.
    + destruct H as [[<- ->]|(code & ->)]; cbn; [|split_and!; [done..|by apply put_back_parks]].
      split_and!; [done|by rewrite Hu|]. by apply ack_names_shape.
    + destruct H as (code & why & ->). cbn. done.
Qed.
Lemma home_inv_relay h h' : relay_step iter header h h' -> home_inv h -> home_inv h'.
Proof.
  intros [i h1|h1|h1 r c Hr Hc] H; [by apply home_inv_step| |].
  - unfold home_inv in *. cbn [pc world]. destruct h1 as [[r c tk g] p]; cbn in *. unfold take_timeout, on in *. cbn in *.
    destruct p, tk; naive_solver.
  - unfold home_inv, on in *. cbn [pc world registry taker]. destruct (pc h1); rewrite ?Hc; naive_solver.
Qed.
End facts.

(** ** Properties *)


(** What a relay comes to when nobody interferes. *)
Definition relay_verdict (header : OpenHeader) (r : OrphanRegistry) (user : bytes) (t : Z) : RelayEnd :=
  match park_query header, by_id r !! (session_id header : SessionId) with
  | None, _ => Refused RAbort BadSetup
  | Some _, None => Refused RNoSession NoSession
  | Some q, Some e =>
    if negb (admits q (shape_of (parked e))) then Refused RNoSession OtherParkShape
    else if negb (enabled (config r)) || (deadline e <=? t) then Refused RNoSession NoSession
    else if bool_decide (owner e = user) then Spliced (parked e) else Refused RNoSession UnknownUser
  end.

Lemma take_entry iter r t (i : SessionId) user e : by_id r !! i = Some e ->
  exists r', try_take_committed iter r t i user
    = (r', Some (if deadline e <=? t then Miss Expired
                 else if bool_decide (owner e = user) then Hit (parked e) else Miss OwnerMismatch))
  /\ by_id r' = (if (deadline e <=? t) || bool_decide (owner e = user) then delete i (by_id r) else by_id r).
Proof.
  intros He. pose proof (take_effect iter r t i user) as H. unfold try_take_committed in *. rewrite He in *.
  destruct (deadline e <=? t); [|case_bool_decide]; cbn [negb orb] in *; eexists; split; try done.
  - by destruct H as (? & _ & _ & ?).
  - by destruct H as (? & _ & _ & _ & _ & ?).
Qed.
Lemma run_home_start iter (header : OpenHeader) t user (r : OrphanRegistry) :
  let id : SessionId := session_id header in
  reservations r !! id = None ->
  let i := mkInput t true (Some (Ok (mkUser user))) in
  run_home iter header 6 i (home_start r)
  = match park_query header, by_id r !! id with
    | None, _ => mkHome (world (home_start r)) (HDone (Refused RAbort BadSetup))
    | Some _, None => mkHome (world (home_start r)) (HDone (Refused RNoSession NoSession))
    | Some q, Some e =>
      if admits q (shape_of (parked e))
      then run_home iter header 2 i (mkHome (world (home_start r)) (HTake (shape_of (parked e)) user))
      else mkHome (world (home_start r)) (HDone (Refused RNoSession OtherParkShape))
    end.
Proof.
  intros id Hr i. change 6%nat with (4 + 2)%nat. cbn [Nat.add]. generalize 2%nat as n. intros n.
  assert (Hd : forall n h e, pc h = HDone e -> run_home iter header n i h = h).
  { clear. induction n as [|n IH]; intros h e He; [done|]. cbn [run_home].
    replace (home_step iter header i h) with h by (unfold home_step; by rewrite He). by eapply IH. }
  cbn [run_home]. unfold home_step at 4. cbn [home_start pc world registry]. unfold first_probe, probe_park.
  fold id. rewrite Hr. destruct (park_query header) as [q|]; [|by eapply (Hd (S (S (S n))))].
  destruct (by_id r !! id) as [e|] eqn:He; [|by eapply (Hd (S (S (S n))))].
  destruct (admits q (shape_of (parked e))); [|by eapply (Hd (S (S (S n))))].
  cbn [home_step pc world ack_written user_frame i MeshFrame.user]. unfold second_probe, probe_park. fold id.
  cbn [registry home_start world]. rewrite He. cbn [admits]. by rewrite bool_decide_eq_true_2 by done.
Qed.

(** Whether the park is taken out, to be served or as expired. *)
Definition relay_takes (header : OpenHeader) (r : OrphanRegistry) (user : bytes) (t : Z) : bool :=
  match park_query header, by_id r !! (session_id header : SessionId) with
  | Some q, Some e =>
    admits q (shape_of (parked e)) && enabled (config r) && ((deadline e <=? t) || bool_decide (owner e = user))
  | _, _ => false
  end.

(** Left alone, six steps bring the home to its verdict: an OPEN that names
    no shape is aborted; an absent or expired park, one of another shape and one
    of another user are refused, and only the expired one is gone afterwards;
    the attested user's own park is taken out and spliced. *)
Theorem relay_serves_verdict iter (header : OpenHeader) (r : OrphanRegistry) (user : bytes) (t : Z) :
  let id : SessionId := session_id header in
  reservations r !! id = None ->
  let h := run_home iter header 6 (mkInput t true (Some (Ok (mkUser user)))) (home_start r) in
  pc h = HDone (relay_verdict header r user t)
  /\ by_id (registry (world h)) = (if relay_takes header r user t then delete id (by_id r) else by_id r).
Proof.
  intros id Hr. pose proof (run_home_start iter header t user r Hr) as Hs. cbv zeta. rewrite Hs. clear Hs.
  unfold relay_verdict, relay_takes. fold id. destruct (park_query header) as [q|] eqn:Hq; [|done].
  destruct (by_id r !! id) as [e|] eqn:He; [|done]. destruct (admits q (shape_of (parked e))) eqn:Ha; [|done].
  cbn [negb andb]. assert (Had : admitted header (shape_of (parked e))) by by unfold admitted; rewrite Hq.
  cbn [run_home home_step pc world taker now]. unfold take_step. cbn [taker registry home_start world].
  destruct (enabled (config r)); cbn [negb orb andb]; [|done].
  destruct (take_entry iter r t id user e He) as (r' & E & Hb). fold id. rewrite E. cbn [home_step pc world taker registry now].
  pose proof (after_take_ends iter header r' t _ (Hit (parked e)) Had) as Hh.
  destruct (deadline e <=? t); cbn [orb] in *; [done|]. case_bool_decide; [|done].
  destruct Hh as [[_ Hh]|(code & Hh)]; [by rewrite Hh|].
  exfalso. unfold after_take in Hh. by destruct (parked e); cbn in Hh; repeat case_bool_decide.
Qed.

Definition toy_id : SessionId := replicate 16 x07.
Definition toy_open (f : MeshFraming) (p : MeshProtocol) : OpenHeader :=
  mkOpen f p toy_id true true false 0 None.
Definition toy_registry (p : Parked) : OrphanRegistry :=
  park (fun m => map_to_list m) (registry_new (mkConfig true 30 30 4 100 0)) 0 toy_id p.

Lemma run_home_reach iter header n i h : rtc (relay_step iter header) h (run_home iter header n i h).
Proof. revert h. induction n as [|n IH]; intros h; [done|]. eapply rtc_l; [apply (relay_home iter header i)|apply IH]. Qed.

(** An edge whose client turned out to want another shape resets the stream, so
    no USER frame comes. *)
Definition edge_answer (shape want : MeshShape) (name : bytes) : option (result MeshError UserFrame) :=
  match keep_mesh_upstream_for (Some shape) want with
  | Some _ => Some (Ok (mkUser name))
  | None => Some (Err StreamFailed)
  end.

(** A [Mux] client released by a [Tcp] command: the park is still there. *)
Example released_relay_keeps_the_park :
  let it := fun m : gmap SessionId ParkedEntry => map_to_list m in
  let h := run_home it (toy_open FTcp PVless) 6 (mkInput 5 true (edge_answer MVlessMux MStream (str "bob")))
             (home_start (toy_registry (VlessMux (str "bob") 3))) in
  pc h = HDone (Refused RAbort BadSetup)
  /\ by_id (registry (world h)) !! toy_id = Some (mkEntry (str "bob") 30 (VlessMux (str "bob") 3)).
Proof. vm_compute. auto. Qed.
(** The window of a reservation: acked as a byte stream, parked as a mux, taken
    and put back. *)
Example window_parks_again :
  let it := fun m : gmap SessionId ParkedEntry => map_to_list m in
  let header := toy_open FTcp PVless in
  let i := mkInput 5 true (Some (Ok (mkUser (str "bob")))) in
  let h := run_home it header 3 i (home_start (reserve_park (registry_new (mkConfig true 30 30 4 100 0)) toy_id)) in
  let w := world h in
  let parked_now := park it (registry w) 1 toy_id (VlessMux (str "bob") 3) in
  pc h = HProbe ShStream (str "bob")
  /\ pc (run_home it header 3 i (mkHome (mkWorld parked_now (calls w) TStart (guard w)) (HTake ShStream (str "bob"))))
     = HDone (PutBack RAbort FramingMismatch (VlessMux (str "bob") 3))
  /\ by_id (registry (world (run_home it header 3 i
        (mkHome (mkWorld parked_now (calls w) TStart (guard w)) (HTake ShStream (str "bob")))))) !! toy_id
     = Some (mkEntry (str "bob") 35 (VlessMux (str "bob") 3)).
Proof. vm_compute. auto. Qed.

Lemma relay_serves_verdict_witness :
  relay_verdict (toy_open FTcp PSs) (toy_registry (Tcp (str "bob") 3 None)) (str "eve") 5
  = Refused RNoSession UnknownUser
  /\ pc (run_home (fun m => map_to_list m) (toy_open FTcp PSs) 6 (mkInput 5 true (Some (Ok (mkUser (str "eve")))))
        (home_start (toy_registry (Tcp (str "bob") 3 None)))) = HDone (Refused RNoSession UnknownUser).
Proof.
  assert (E : relay_verdict (toy_open FTcp PSs) (toy_registry (Tcp (str "bob") 3 None)) (str "eve") 5
    = Refused RNoSession UnknownUser) by (vm_compute; reflexivity).
  split; [exact E|]. rewrite <- E.
  apply (relay_serves_verdict (fun m => map_to_list m) (toy_open FTcp PSs) (toy_registry (Tcp (str "bob") 3 None))
    (str "eve") 5). vm_compute. reflexivity.
Defined.
