(* ===== verification/MeshSplice.v ===== *)
(** The splice of a byte-stream park onto a relay stream
    ([bins/outline-ss-rust/src/server/transport/mesh_relay.rs],
    [splice_plaintext_tcp] and the decisions of its end).

    The two halves of the splice run concurrently; a run is a list of the events
    they see, in any order the machine allows. What the upstream socket has
    taken and given over its life is kept beside the counters that stand for it.
    The texts of errors, metrics and logs are left out. *)
From S2P Require Import Prelude Rings MeshFrame.
Local Open Scope Z_scope.

(** ** How a half ends *)
Record SpliceFault : Type := mkFault { reset : CloseReason; fault_healthy : bool }.
Definition fault_mesh : SpliceFault := mkFault RAbort true.
Definition fault_upstream : SpliceFault := mkFault RAbort false.
Definition fault_stalled_upstream : SpliceFault := mkFault RBudget false.
Definition fault_stalled_mesh : SpliceFault := mkFault RBudget true.

Inductive SpliceEnd : Type :=
  | Graceful (upstream_healthy : bool)
  | Faulted (reset : CloseReason) (upstream_healthy : bool).
Definition into_end (f : SpliceFault) : SpliceEnd := Faulted (reset f) (fault_healthy f).
Inductive StreamClose : Type := Finish | Reset (r : CloseReason).
Definition stream_close (e : SpliceEnd) (stream_finished : bool) (intent : CloseIntent) : StreamClose :=
  if stream_finished then Finish
  else
    match e with
    | Faulted reset _ => Reset reset
    | Graceful _ => match intent with ClientDone => Reset RFin | CarrierEnded => Finish end
    end.
Definition upstream_healthy (e : SpliceEnd) : bool := match e with Graceful h | Faulted _ h => h end.
Definition reparks (e : SpliceEnd) (intent : CloseIntent) : bool :=
  bool_decide (intent = CarrierEnded) && upstream_healthy e.
Definition deny_park (e : SpliceEnd) : SpliceEnd :=
  match e with Graceful _ => Graceful false | Faulted reset _ => Faulted reset false end.

Inductive DownlinkEnd : Type := UpstreamEof | Stopped | DownClientDone.
Record SpliceOutcome : Type := mkOutcome {
  fin : SpliceEnd;
  stream_finished : bool;
  observed_intent : CloseIntent
}.
Definition needs_stopped_poll (e : SpliceEnd) (observed : CloseIntent) : bool :=
  bool_decide (observed = CarrierEnded)
  && match e with Graceful true => true | _ => false end.
(** [stopped]: the code of a [STOP_SENDING] that has already arrived. *)
Definition poll_close_intent (stopped : option Z) : CloseIntent :=
  match stopped with Some code => intent_from_code code | None => CarrierEnded end.
Definition resolve_close_intent (e : SpliceEnd) (observed : CloseIntent) (stopped : option Z) : CloseIntent :=
  if needs_stopped_poll e observed then poll_close_intent stopped else observed.
Definition splice_end (uplink : result SpliceFault unit) (downlink : result SpliceFault DownlinkEnd) : SpliceOutcome :=
  let stream_finished := match downlink with Ok UpstreamEof => true | _ => false end in
  let observed_intent := match downlink with Ok DownClientDone => ClientDone | _ => CarrierEnded end in
  let downlink_healthy :=
    match downlink with
    | Ok (Stopped | DownClientDone) => true
    | Ok UpstreamEof => false
    | Err fault => fault_healthy fault
    end in
  let e :=
    match uplink with
    | Ok _ => match downlink with Ok _ => Graceful true | Err fault => into_end fault end
    | Err fault => into_end fault
    end in
  mkOutcome (if downlink_healthy then e else deny_park e) stream_finished observed_intent.

(** ** The bundle *)
Definition wrap64 (n : Z) : Z := n mod 2 ^ 64.
Record ParkedTcp : Type := mkParked {
  taken : bytes;
  given : bytes;
  upstream_bytes_acked : Z;
  downlink_ring : option Downlink.DownlinkRing
}.

(** ** The machine *)
Inductive UpPc : Type := UReading | UWriting (todo : bytes) | UEnded (r : result SpliceFault unit).
Inductive DownPc : Type := DReading | DWriting (todo : bytes) | DEnded (r : result SpliceFault DownlinkEnd).
(** [relayed] is what has been written to the relay stream; [arrived] what has
    been read off it. *)
Record Splice : Type := mkSplice {
  bundle : ParkedTcp;
  up : UpPc;
  down : DownPc;
  arrived : bytes;
  relayed : bytes;
  outcome : option SpliceOutcome
}.

#[export] Instance SpliceFault_eq_dec : EqDecision SpliceFault.
Proof. solve_decision. Defined.
#[export] Instance DownlinkEnd_eq_dec : EqDecision DownlinkEnd.
Proof. solve_decision. Defined.
#[export] Instance UpPc_eq_dec : EqDecision UpPc.
Proof. solve_decision. Defined.
#[export] Instance DownPc_eq_dec : EqDecision DownPc.
Proof. solve_decision. Defined.

Inductive Event : Type :=
  | MeshChunk (c : bytes) | MeshEof | MeshReadFailed
  | Accepted (n : nat) | UpstreamWriteFailed | UpstreamStalled
  | StopSeen
  | UpstreamChunk (c : bytes) | UpstreamEnd | UpstreamReadFailed
  | Written (n : nat) | StoppedBy (code : Z) | MeshWriteFailed | MeshStalled.

Section ring.
Variable capacity_within : bytes -> nat -> bool.

Definition with_up (s : Splice) (u : UpPc) : Splice :=
  mkSplice (bundle s) u (down s) (arrived s) (relayed s) (outcome s).
Definition with_down (s : Splice) (d : DownPc) : Splice :=
  mkSplice (bundle s) (up s) d (arrived s) (relayed s) (outcome s).

(** The uplink half: [read_chunk] and, inside [write_uplink_chunk], one write
    after the other. [None]: the event cannot happen here. *)
Definition up_step (s : Splice) (e : Event) : option Splice :=
  match up s, e with
  | UReading, MeshChunk c =>
    Some (mkSplice (bundle s) (match c with [] => UReading | _ => UWriting c end) (down s) (arrived s ++ c)
            (relayed s) (outcome s))
  | UReading, MeshEof => Some (with_up s (UEnded (Ok tt)))
  | UReading, MeshReadFailed => Some (with_up s (UEnded (Err fault_mesh)))
  | UWriting todo, Accepted n =>
    if (length todo <? n)%nat then None
    else if bool_decide (n = 0%nat) then Some (with_up s (UEnded (Err fault_upstream)))
    else
      let b := bundle s in
      let b := mkParked (taken b ++ take n todo) (given b) (wrap64 (upstream_bytes_acked b + Z.of_nat n)) (downlink_ring b) in
      Some (mkSplice b (match drop n todo with [] => UReading | todo => UWriting todo end) (down s) (arrived s)
              (relayed s) (outcome s))
  | UWriting _, UpstreamWriteFailed => Some (with_up s (UEnded (Err fault_upstream)))
  | UWriting _, UpstreamStalled => Some (with_up s (UEnded (Err fault_stalled_upstream)))
  | _, _ => None
  end.

(** The downlink half. The stop is notified once the uplink has ended and is
    looked at before every read. *)
Definition stop_notified (s : Splice) : bool := match up s with UEnded _ => true | _ => false end.
Definition down_step (s : Splice) (e : Event) : option Splice :=
  match down s, e with
  | DReading, StopSeen => if stop_notified s then Some (with_down s (DEnded (Ok Stopped))) else None
  | DReading, UpstreamChunk c =>
    if stop_notified s || bool_decide (c = []) then None
    else
      let b := bundle s in
      ring ← match downlink_ring b with
             | Some r => Some <$> Downlink.push capacity_within r c
             | None => Some None
             end;
      Some (mkSplice (mkParked (taken b) (given b ++ c) (upstream_bytes_acked b) ring) (up s) (DWriting c)
              (arrived s) (relayed s) (outcome s))
  | DReading, UpstreamEnd => if stop_notified s then None else Some (with_down s (DEnded (Ok UpstreamEof)))
  | DReading, UpstreamReadFailed => if stop_notified s then None else Some (with_down s (DEnded (Err fault_upstream)))
  | DWriting todo, Written n =>
    if (length todo <? n)%nat || bool_decide (n = 0%nat) then None
    else
      Some (mkSplice (bundle s) (up s) (match drop n todo with [] => DReading | todo => DWriting todo end)
              (arrived s) (relayed s ++ take n todo) (outcome s))
  | DWriting _, StoppedBy code =>
    Some (with_down s (DEnded (if bool_decide (intent_from_code code = ClientDone) then Ok DownClientDone
                               else Err fault_mesh)))
  | DWriting _, MeshWriteFailed => Some (with_down s (DEnded (Err fault_mesh)))
  | DWriting _, MeshStalled => Some (with_down s (DEnded (Err fault_stalled_mesh)))
  | _, _ => None
  end.

(** The loop around the two: it breaks once the uplink has ended and the
    downlink with it, or at once on a downlink that failed. *)
Definition conclude (s : Splice) : Splice :=
  let o :=
    match up s, down s with
    | UEnded u, DEnded d => Some (splice_end u d)
    | _, DEnded (Err fault) => Some (mkOutcome (into_end fault) false CarrierEnded)
    | _, _ => None
    end in
  mkSplice (bundle s) (up s) (down s) (arrived s) (relayed s) o.
Definition splice_step (s : Splice) (e : Event) : option Splice :=
  match outcome s with
  | Some _ => None
  | None =>
    match up_step s e with
    | Some s => Some (conclude s)
    | None => conclude <$> down_step s e
    end
  end.
Fixpoint splice_run (s : Splice) (es : list Event) : option Splice :=
  match es with [] => Some s | e :: es => s ← splice_step s e; splice_run s es end.

(** ** The head of a relayed session *)
Inductive Prologue : Type := Intact | Splicing (s : Splice).
(** [ack_out] and [replay_out]: whether the two writes go through. *)
Definition prologue (h : OpenHeader) (p : ParkedTcp) (ack_out replay_out : bool) : Prologue :=
  if ack_prefix h && negb ack_out then Intact
  else
    let head := if ack_prefix h then upstream_ack_encode (mkUpstreamAck (upstream_bytes_acked p)) else [] in
    let replay :=
      match symmetric_replay h, downlink_ring p with
      | true, Some ring => Some (Downlink.replay_from ring (client_down_acked h))
      | _, _ => None
      end in
    match replay with
    | Some (Downlink.Available b) =>
      if negb (bool_decide (b = [])) && negb replay_out then Intact
      else Splicing (mkSplice p UReading DReading [] (head ++ b) None)
    | _ => Splicing (mkSplice p UReading DReading [] head None)
    end.

(** ** The end of it: what is parked again, and how the stream is closed *)
Definition splice_close (s : Splice) (stopped : option Z) (registry_enabled : bool)
    : option (option ParkedTcp * StreamClose) :=
  o ← outcome s;
  let intent := resolve_close_intent (fin o) (observed_intent o) stopped in
  Some (if reparks (fin o) intent && registry_enabled then Some (bundle s) else None,
        stream_close (fin o) (stream_finished o) intent).
End ring.

Section facts.
Context (capacity_within : bytes -> nat -> bool).
Abbreviation step := (splice_step capacity_within).
Abbreviation run := (splice_run capacity_within).

(** A bundle whose counter and ring stand for the life of its socket. *)
Definition stands_for (cap : nat) (p : ParkedTcp) : Prop :=
  upstream_bytes_acked p = wrap64 (zlen (taken p))
  /\ match downlink_ring p with
     | Some r => zlen (given p) < 2 ^ 64 -> represents (given p) cap r
     | None => True
     end.

Definition up_lost (u : UpPc) (lost : bytes) : Prop :=
  match u with
  | UReading => lost = []
  | UWriting todo => todo <> [] /\ lost = todo
  | UEnded (Ok _) => lost = []
  | UEnded (Err f) => fault_healthy f = true -> lost = []
  end.
Definition down_unsent (d : DownPc) (unsent : bytes) : Prop :=
  match d with
  | DReading | DEnded (Ok UpstreamEof) | DEnded (Ok Stopped) => unsent = []
  | DWriting todo => todo <> [] /\ unsent = todo
  | DEnded _ => True
  end.
Definition broken_upstream (e : Event) : bool :=
  match e with
  | UpstreamWriteFailed | UpstreamStalled | Accepted 0 | UpstreamReadFailed => true
  | _ => false
  end.
Definition unhealthy_up (u : UpPc) : bool := match u with UEnded (Err f) => negb (fault_healthy f) | _ => false end.
Definition unhealthy_down (d : DownPc) : bool := match d with DEnded (Err f) => negb (fault_healthy f) | _ => false end.
Definition ended_by_target (d : DownPc) : bool := match d with DEnded (Ok UpstreamEof) => true | _ => false end.

(** The outcome the loop has come to, if any. *)
Definition concluded (u : UpPc) (d : DownPc) : option SpliceOutcome :=
  match u, d with
  | UEnded u, DEnded d => Some (splice_end u d)
  | _, DEnded (Err fault) => Some (mkOutcome (into_end fault) false CarrierEnded)
  | _, _ => None
  end.

Record splice_inv (cap : nat) (p : ParkedTcp) (head : bytes) (es : list Event) (s : Splice) : Prop := {
  si_stands : stands_for cap (bundle s);
  si_up : exists t lost, taken (bundle s) = taken p ++ t /\ arrived s = t ++ lost /\ up_lost (up s) lost;
  si_down : exists g unsent, given (bundle s) = given p ++ g /\ head ++ g = relayed s ++ unsent /\ down_unsent (down s) unsent;
  si_ring : is_Some (downlink_ring p) <-> is_Some (downlink_ring (bundle s));
  si_broken : existsb broken_upstream es = unhealthy_up (up s) || unhealthy_down (down s);
  si_eof : UpstreamEnd ∈ es <-> ended_by_target (down s) = true;
  si_outcome : outcome s = concluded (up s) (down s)
}.

Lemma up_step_inv cap p head es s e s' : splice_inv cap p head es s -> outcome s = None ->
  up_step s e = Some s' -> splice_inv cap p head (es ++ [e]) (conclude s').
Proof.
  intros [[Hk Hr] (t & lost & Ht & Ha & Hl) (g & un & Hg & Hrel & Hu) Hring Hb Hee Ho] Hnone H.
  assert (Hsnoc : forall e, UpstreamEnd ∈ es ++ [e] <-> UpstreamEnd ∈ es \/ UpstreamEnd = e)
    by (intros; set_solver).
  unfold up_step, with_up in H.
  destruct (up s) as [|todo|] eqn:Eu; [| |done].
  - cbn in Hl. subst lost. rewrite app_nil_r in Ha. destruct e; try done; injection H as <-; cbn in *;
      (split; cbn; [done| |by exists g, un|done|rewrite existsb_app, Hb; cbn; rewrite ?orb_false_r; first [done|by destruct c]
       |rewrite Hsnoc, Hee; naive_solver|done]).
    + exists t, c. split; [done|]. split; [by rewrite Ha|]. by destruct c.
    + exists t, []. by rewrite app_nil_r.
    + exists t, []. by rewrite app_nil_r.
  - destruct Hl as [Htodo ->]. destruct e; try done.
    + destruct (length todo <? n)%nat eqn:En; [done|]. apply Nat.ltb_ge in En. case_bool_decide as Hn; injection H as <-.
      * subst n. split; cbn; [done| |by exists g, un|done|rewrite existsb_app, Hb; cbn; by rewrite ?orb_true_r
       |rewrite Hsnoc, Hee; naive_solver|done]. by exists t, todo.
      * split; cbn; [split; [|done]| |by exists g, un|done|rewrite existsb_app, Hb; cbn|rewrite Hsnoc, Hee; naive_solver|].
        -- cbn [taken upstream_bytes_acked]. rewrite Hk. unfold wrap64. rewrite Zplus_mod_idemp_l. f_equal. unfold zlen. rewrite length_app, length_take. lia.
        -- exists (t ++ take n todo), (drop n todo). rewrite Ht, <- !app_assoc, take_drop. split; [done|]. split; [done|].
           by destruct (drop n todo).
        -- destruct n; [done|]. by destruct (drop _ _); rewrite ?orb_false_r.
        -- by destruct (drop _ _).
    + injection H as <-. split; cbn; [done| |by exists g, un|done|rewrite existsb_app, Hb; cbn; by rewrite ?orb_true_r
       |rewrite Hsnoc, Hee; naive_solver|done]. by exists t, todo.
    + injection H as <-. split; cbn; [done| |by exists g, un|done|rewrite existsb_app, Hb; cbn; by rewrite ?orb_true_r
       |rewrite Hsnoc, Hee; naive_solver|done]. by exists t, todo.
Qed.

Lemma down_step_inv cap p head es s e s' : splice_inv cap p head es s -> up_step s e = None ->
  down_step capacity_within s e = Some s' -> splice_inv cap p head (es ++ [e]) (conclude s').
Proof.
  intros [[Hk Hr] (t & lost & Ht & Ha & Hl) (g & un & Hg & Hrel & Hu) Hring Hb Hee Ho] Hup H.
  assert (Hsnoc : forall e, UpstreamEnd ∈ es ++ [e] <-> UpstreamEnd ∈ es \/ UpstreamEnd = e)
    by (intros; set_solver).
  assert (Hacc : forall n, e <> Accepted n) by (intros n ->; by unfold down_step in H; destruct (down s)).
  unfold down_step, with_down in H.
  destruct (down s) as [|todo|] eqn:Ed; [| |done].
  - cbn in Hu. subst un. rewrite app_nil_r in Hrel. cbn in Hb, Hee. rewrite orb_false_r in Hb.
    destruct e as [| | | | | | |c| | | | | |]; try done.
    + destruct (stop_notified s); [|done]. injection H as <-. split; cbn;
        [done|by exists t, lost|exists g, []; by rewrite app_nil_r|done|rewrite existsb_app, Hb; cbn; done|rewrite Hsnoc, Hee; naive_solver|done].
    + destruct (stop_notified s); [done|]. case_bool_decide as Hc; [done|]. cbn [orb] in H.
      assert (Hx : exists ring, match downlink_ring (bundle s) with
             | Some r => Some <$> Downlink.push capacity_within r c
             | None => Some None
             end = Some ring /\ (is_Some (downlink_ring (bundle s)) <-> is_Some ring) /\
             match ring with Some r => zlen (given (bundle s) ++ c) < 2 ^ 64 -> represents (given (bundle s) ++ c) cap r | None => True end).
      { destruct (downlink_ring (bundle s)) as [r|]; [|by exists None].
        destruct (Downlink.push capacity_within r c) as [r'|] eqn:Ep; cbn in *; [|done].
        exists (Some r'). split_and!; [done|by split; eexists|]. intros Hz.
        rewrite zlen_app in Hz. pose proof (zlen_nonneg c).
        destruct (downlink_push capacity_within (given (bundle s)) cap r c) as (r2 & E2 & Hr2); [apply Hr; lia|by rewrite zlen_app|].
        congruence. }
      destruct Hx as (ring & E & Hri & Hrep). rewrite E in H. cbn in H. injection H as <-.
      split; cbn; [split; [done|by cbn]|by exists t, lost|exists (g ++ c), c; by rewrite Hg, !app_assoc, Hrel
        |by rewrite Hring|rewrite existsb_app, Hb; cbn; by rewrite ?orb_false_r|rewrite Hsnoc, Hee; naive_solver|by destruct (up s)].
    + destruct (stop_notified s); [done|]. injection H as <-. split; cbn;
        [done|by exists t, lost|exists g, []; by rewrite app_nil_r|done|rewrite existsb_app, Hb; cbn; done|rewrite Hsnoc, Hee; naive_solver|done].
    + destruct (stop_notified s); [done|]. injection H as <-. split; cbn;
        [done|by exists t, lost|exists g, []; by rewrite app_nil_r|done|rewrite existsb_app, Hb; cbn; by rewrite ?orb_true_r
         |rewrite Hsnoc, Hee; naive_solver|done].
  - destruct Hu as [Htodo ->]. cbn in Hb, Hee. rewrite orb_false_r in Hb.
    destruct e; try done.
    + destruct (length todo <? n)%nat; [done|]. case_bool_decide; [done|]. injection H as <-. cbn [orb].
      split; cbn; [done|by exists t, lost| |done|rewrite existsb_app, Hb; cbn; by destruct (drop _ _); rewrite ?orb_false_r
        |rewrite Hsnoc, Hee; destruct (drop _ _); naive_solver|by destruct (drop _ _), (up s)].
      exists g, (drop n todo). rewrite <- app_assoc, take_drop. split; [done|]. split; [done|]. by destruct (drop n todo).
    + injection H as <-. split; cbn; [done|by exists t, lost| |done|rewrite existsb_app, Hb; cbn; by case_bool_decide; rewrite ?orb_false_r
        |rewrite Hsnoc, Hee; case_bool_decide; naive_solver|done].
      exists g, todo. split; [done|]. split; [done|]. by case_bool_decide.
    + injection H as <-. split; cbn; [done|by exists t, lost|by exists g, todo|done|rewrite existsb_app, Hb; cbn; by rewrite ?orb_false_r
        |rewrite Hsnoc, Hee; naive_solver|done].
    + injection H as <-. split; cbn; [done|by exists t, lost|by exists g, todo|done|rewrite existsb_app, Hb; cbn; by rewrite ?orb_false_r
        |rewrite Hsnoc, Hee; naive_solver|done].
Qed.
Lemma run_inv cap p head es : forall s0 es0 s, splice_inv cap p head es0 s0 -> run s0 es = Some s ->
  splice_inv cap p head (es0 ++ es) s.
Proof.
  induction es as [|e es IH]; intros s0 es0 s Hi H; cbn in H.
  - injection H as <-. by rewrite app_nil_r.
  - unfold splice_step in H. destruct (outcome s0) eqn:Eo; [done|].
    change (e :: es) with ([e] ++ es). rewrite app_assoc.
    destruct (up_step s0 e) as [s1|] eqn:E1; cbn in H.
    + apply (IH (conclude s1)); [|done]. by eapply up_step_inv.
    + destruct (down_step capacity_within s0 e) as [s1|] eqn:E2; cbn in H; [|done].
      apply (IH (conclude s1)); [|done]. by eapply down_step_inv.
Qed.

Lemma prologue_inv cap h p ao ro s0 : stands_for cap p -> prologue h p ao ro = Splicing s0 ->
  splice_inv cap p (relayed s0) [] s0 /\ bundle s0 = p /\ arrived s0 = [].
Proof.
  intros Hp H. assert (E : s0 = mkSplice p UReading DReading [] (relayed s0) None).
  { unfold prologue in H. destruct (ack_prefix h && negb ao); [done|].
    destruct (match symmetric_replay h, downlink_ring p with true, Some ring => _ | _, _ => _ end) as [[b| |]|];
      [destruct (negb (bool_decide (b = [])) && negb ro)|..]; by simplify_eq. }
  rewrite E. split; [|done]. cbn. split; cbn; try done.
  - exists [], []. by rewrite app_nil_r.
  - exists [], []. by rewrite !app_nil_r.
  - split; [|done]. set_solver.
Qed.
(** Whether the ring still holds what the client misses. *)
Definition replayable (h : OpenHeader) (p : ParkedTcp) : bool :=
  symmetric_replay h
  && match downlink_ring p with
     | Some r => (Downlink.oldest_offset r <=? client_down_acked h) && (client_down_acked h <=? zlen (given p))
     | None => false
     end.
Lemma prologue_head cap h p s0 : stands_for cap p -> zlen (given p) < 2 ^ 64 -> 0 <= client_down_acked h ->
  prologue h p true true = Splicing s0 ->
  relayed s0 = (if ack_prefix h then upstream_ack_encode (mkUpstreamAck (upstream_bytes_acked p)) else [])
    ++ (if replayable h p then drop (Z.to_nat (client_down_acked h)) (given p) else []).
Proof.
  intros [_ Hr] Hg Hd. unfold prologue, replayable. rewrite andb_false_r.
  destruct (symmetric_replay h); [|intros [= <-]; by rewrite app_nil_r].
  destruct (downlink_ring p) as [r|]; [|intros [= <-]; by rewrite app_nil_r].
  destruct (represents_replay _ _ _ (Hr Hg)) as (_ & _ & _ & Hf). rewrite Hf by done.
  rewrite (Z.ltb_antisym (client_down_acked h) (zlen (given p))).
  destruct (client_down_acked h <=? zlen (given p)); cbn [negb andb]; rewrite ?andb_true_r, ?andb_false_r, ?app_nil_r;
    [|by intros [= <-]].
  destruct (Downlink.oldest_offset r <=? client_down_acked h); rewrite ?andb_false_r, ?app_nil_r; by intros [= <-].
Qed.

(** The life of a parked upstream over any number of relays: each begins where
    the UPSTREAM-ACK frame of the home said, and ends in a park. [sent] is all
    the client ever sends. *)
Inductive life (sent : bytes) (cap : nat) : ParkedTcp -> Prop :=
  | life_new : life sent cap (mkParked [] [] 0 (Some (Downlink.new cap)))
  | life_relay p h ao ro s0 es s stopped p' close more : life sent cap p ->
      prologue h p ao ro = Splicing s0 -> run s0 es = Some s ->
      drop (Z.to_nat (upstream_bytes_acked p)) sent = arrived s ++ more ->
      splice_close s stopped true = Some (Some p', close) -> life sent cap p'.

Lemma close_bundle s stopped en p' close : splice_close s stopped en = Some (Some p', close) -> p' = bundle s.
Proof. unfold splice_close. destruct (outcome s); [|done]. cbn. destruct (_ && en); naive_solver. Qed.
Lemma life_ok sent cap p : zlen sent < 2 ^ 64 -> life sent cap p ->
  stands_for cap p /\ exists more, sent = taken p ++ more.
Proof.
  intros Hs. induction 1 as [|p h ao ro s0 es s stopped p' close more _ [Hp (m & Hm)] Hpro Hrun Harr Hc].
  - split; [split; [done|intros _; apply represents_new]|by exists sent].
  - apply close_bundle in Hc as ->. destruct (prologue_inv cap h p ao ro s0 Hp Hpro) as (Hi & _ & _).
    destruct (run_inv cap p (relayed s0) es s0 [] s Hi Hrun) as [Hst (t & lost & Ht & Ha & _) _ _ _ _ _].
    split; [done|]. rewrite Ht. exists (lost ++ more). rewrite Hm at 1. rewrite <- app_assoc. f_equal.
    destruct Hp as [Hk _]. rewrite Hk, Hm in Harr. unfold wrap64 in Harr.
    rewrite Z.mod_small in Harr by (rewrite Hm, zlen_app in Hs; pose proof (zlen_nonneg m); unfold zlen in *; lia).
    unfold zlen in Harr. rewrite Nat2Z.id, drop_app_length, Ha in Harr. by rewrite app_assoc.
Qed.
Lemma reparks_table u d o stopped : concluded u d = Some o ->
  reparks (fin o) (resolve_close_intent (fin o) (observed_intent o) stopped)
  = negb (unhealthy_up u || unhealthy_down d) && (negb (ended_by_target d)
    && (negb (bool_decide (d = DEnded (Ok DownClientDone)))
    && negb (bool_decide (u = UEnded (Ok tt) /\ d = DEnded (Ok Stopped) /\ poll_close_intent stopped = ClientDone)))).
Proof.
  destruct u as [|todo|[[]|[r []]]], d as [|todo'|[[]|[r' []]]]; try done; intros [= <-]; cbn;
    unfold resolve_close_intent; cbn; try done; by destruct (poll_close_intent stopped).
Qed.
End facts.

(** ** Properties *)

Section life.
Context (capacity_within : bytes -> nat -> bool).
(** A ring that has evicted nothing can replay from any byte. *)
Lemma life_ring sent cap p : zlen sent < 2 ^ 64 -> life capacity_within sent cap p -> is_Some (downlink_ring p).
Proof.
  intros Hs. induction 1 as [|p h ao ro s0 es s stopped p' close more Hl IH Hpro Hrun Harr Hc]; [done|].
  apply close_bundle in Hc as ->. destruct (life_ok _ _ _ _ Hs Hl) as [Hp _].
  destruct (prologue_inv cap h p ao ro s0 Hp Hpro) as (Hi & _ & _).
  by apply (si_ring _ _ _ _ _ (run_inv capacity_within cap p (relayed s0) es s0 [] s Hi Hrun)).
Qed.
Lemma life_replayable sent cap p h : life capacity_within sent cap p -> zlen sent < 2 ^ 64 -> zlen (given p) < 2 ^ 64 ->
  symmetric_replay h = true -> 0 <= client_down_acked h <= zlen (given p) -> (length (given p) <= cap)%nat -> replayable h p = true.
Proof.
  intros Hl Hs Hg Hsym Hd Hcap. destruct (life_ring _ _ _ Hs Hl) as [r Hr]. destruct (life_ok _ _ _ _ Hs Hl) as [[_ Hst] _].
  unfold replayable. rewrite Hsym, Hr in *. destruct (represents_replay _ _ _ (Hst Hg)) as (_ & _ & Hb & _).
  destruct (Hst Hg) as (_ & H & Hall). specialize (Hall Hcap). pose proof (hd_cur _ _ _ _ _ H) as Hcur.
  unfold Downlink.buffered_bytes in Hb. rewrite Hcur, Hall in Hb. unfold zlen in *. cbn [andb].
  by rewrite (proj2 (Z.leb_le _ _)), (proj2 (Z.leb_le _ _)) by lia.
Qed.
End life.

(** C16: what a session keeps that is relayed any number of times, if each time its
    uplink goes on at the byte the home has reported, as the client does that asked
    for the ack prefix. The target has taken a prefix of what the client sends, and
    its length is the offset the next relay reports, so that nothing of the uplink
    is lost or repeated. What the next relay sends down is that offset if asked
    for, and then the target's stream without a hole: from the byte the client
    asked for, if it asked for a replay and the ring reaches back to that byte - as
    it does while the target has given no more than the ring holds - and else from
    where the park left off, when what the client has not got of the bytes before
    is lost to it, the gap the code accepts. *)
Theorem mesh_resume_lossless (capacity_within : bytes -> nat -> bool) (sent : bytes) (cap : nat)
    (p : ParkedTcp) (h : OpenHeader) (s0 s : Splice) (es : list Event) :
  life capacity_within sent cap p -> zlen sent < 2 ^ 64 -> 0 <= client_down_acked h ->
  prologue h p true true = Splicing s0 -> splice_run capacity_within s0 es = Some s ->
  zlen (given (bundle s)) < 2 ^ 64 ->
  (exists more, sent = taken p ++ more)
  /\ upstream_bytes_acked p = zlen (taken p)
  /\ (exists unsent, relayed s ++ unsent
     = (if ack_prefix h then upstream_ack_encode (mkUpstreamAck (zlen (taken p))) else [])
       ++ (if replayable h p then drop (Z.to_nat (client_down_acked h)) (given (bundle s))
           else drop (length (given p)) (given (bundle s)))
     /\ (down s = DReading -> unsent = []))
  /\ (symmetric_replay h = true -> client_down_acked h <= zlen (given p) -> (length (given p) <= cap)%nat -> replayable h p = true).
Proof.
  intros Hl Hs Hd Hpro Hrun Hg. destruct (life_ok _ _ _ _ Hs Hl) as (Hp & more & Hm).
  assert (Hk : upstream_bytes_acked p = zlen (taken p)).
  { destruct Hp as [-> _]. unfold wrap64. apply Z.mod_small. rewrite Hm, zlen_app in Hs.
    pose proof (zlen_nonneg more). unfold zlen in *. lia. }
  split; [by exists more|]. split; [done|].
  destruct (prologue_inv cap h p true true s0 Hp Hpro) as (Hi & _ & _).
  destruct (run_inv _ cap p (relayed s0) es s0 [] s Hi Hrun) as [_ _ (g & un & Hgs & Hrel & Hu) _ _ _ _].
  rewrite Hgs, zlen_app in Hg. pose proof (zlen_nonneg g).
  split; [|intros Hsym Hle Hcap; by apply (life_replayable capacity_within sent cap); [..|lia| |lia|]]. exists un. rewrite <- Hrel.
  rewrite (prologue_head cap h p s0 Hp ltac:(lia) Hd Hpro), Hk, Hgs, drop_app_length, <- app_assoc.
  split; [|intros E; by rewrite E in Hu]. f_equal. destruct (replayable h p) eqn:Er; [|done].
  rewrite drop_app_le; [done|]. unfold replayable in Er. destruct (symmetric_replay h); [|done]. cbn in Er.
  destruct (downlink_ring p); [|done]. apply andb_prop in Er as [_ Er]. apply Z.leb_le in Er. unfold zlen in Er. lia.
Qed.

(** The end of a splice. A target that ended its stream is closed, never
    parked, and the relay stream then finishes behind every byte it gave. The
    upstream is parked again exactly when neither half of it failed, the target
    did not end and the client is not known to be done; and a request body that
    came to its end over the mesh is with the target whole, unless a write to it
    failed. *)
Theorem splice_verdict (capacity_within : bytes -> nat -> bool) (cap : nat) (p : ParkedTcp) (h : OpenHeader)
    (ack_out replay_out : bool) (s0 s : Splice) (es : list Event) (stopped : option Z) (back : option ParkedTcp) (close : StreamClose) :
  stands_for cap p -> prologue h p ack_out replay_out = Splicing s0 ->
  splice_run capacity_within s0 es = Some s -> splice_close s stopped true = Some (back, close) ->
  (UpstreamEnd ∈ es -> close = Finish /\ exists g, given (bundle s) = given p ++ g /\ relayed s = relayed s0 ++ g)
  /\ (back = Some (bundle s) <->
      existsb broken_upstream es = false /\ ~ (UpstreamEnd ∈ es) /\ down s <> DEnded (Ok DownClientDone)
      /\ ~ (up s = UEnded (Ok tt) /\ down s = DEnded (Ok Stopped) /\ poll_close_intent stopped = ClientDone))
  /\ (back = None \/ back = Some (bundle s))
  /\ (up s = UEnded (Ok tt) -> taken (bundle s) = taken p ++ arrived s).
Proof.
  intros Hp Hpro Hrun Hc. destruct (prologue_inv cap h p ack_out replay_out s0 Hp Hpro) as (Hi & _ & _).
  destruct (run_inv _ cap p (relayed s0) es s0 [] s Hi Hrun) as [_ (t & lost & Ht & Ha & Hlost) (g & un & Hgs & Hrel & Hu) _ Hb Hee Ho].
  cbn [app] in *. rewrite Hb, Hee. unfold splice_close in Hc. rewrite Ho in Hc. clear Ho Hb Hee.
  split_and!.
  - intros He. destruct (down s) as [| |[[]|]]; try done. cbn in Hu. subst un. rewrite app_nil_r in Hrel.
    split; [|by exists g]. destruct (up s) as [| |u]; try done. cbn in Hc. by injection Hc as _ <-.
  - destruct (concluded (up s) (down s)) as [o|] eqn:Eo; [|done]. cbn in Hc. rewrite (reparks_table _ _ _ stopped Eo) in Hc.
    rewrite andb_true_r in Hc. injection Hc as <- _.
    destruct (unhealthy_up (up s) || unhealthy_down (down s)); [by split; [|intros []]|].
    destruct (ended_by_target (down s)); [by split; [|intros (_ & [] & _)]|]. cbn [negb andb].
    assert (Hq : forall b : bool, (if b then Some (bundle s) else None) = Some (bundle s) <-> b = true) by by intros [].
    rewrite Hq, andb_true_iff, !negb_true_iff, !bool_decide_eq_false. naive_solver.
  - destruct (concluded _ _); [|done]. cbn in Hc. destruct (reparks _ _); naive_solver.
  - intros Hu'. rewrite Hu' in Hlost. cbn in Hlost. by rewrite Ht, Ha, Hlost, app_nil_r.
Qed.

(** A session of two relays: the first carrier dies with an accepted byte behind
    and one on its way, the second begins at the reported offset. *)
Definition toy_within (_ : bytes) (_ : nat) : bool := true.
Definition toy_resume (acked : Z) : OpenHeader := mkOpen FTcp PSs (replicate 16 x07) true true true acked None.
Definition toy_fresh : ParkedTcp := mkParked [] [] 0 (Some (Downlink.new 8)).
Definition toy_events : list Event :=
  [MeshChunk (str "abc"); Accepted 2; UpstreamChunk (str "xyz"); Written 1; MeshWriteFailed].
Definition toy_start (p : ParkedTcp) (acked : Z) : Splice :=
  match prologue (toy_resume acked) p true true with Splicing s => s | Intact => mkSplice p UReading DReading [] [] None end.
Definition toy_parked : ParkedTcp :=
  match splice_run toy_within (toy_start toy_fresh 0) toy_events with Some s => bundle s | None => toy_fresh end.
Lemma toy_life : life toy_within (str "abcdef") 8 toy_parked.
Proof.
  apply (life_relay _ _ _ toy_fresh (toy_resume 0) true true (toy_start toy_fresh 0) toy_events
    (default (toy_start toy_fresh 0) (splice_run toy_within (toy_start toy_fresh 0) toy_events)) None _ (Reset RAbort) (str "def"));
    [constructor|by vm_compute..].
Qed.

Lemma mesh_resume_lossless_witness :
  exists s, splice_run toy_within (toy_start toy_parked 1) [UpstreamChunk (str "w"); Written 1] = Some s
  /\ (exists more, str "abcdef" = taken toy_parked ++ more) /\ taken toy_parked = str "ab"
  /\ relayed s = upstream_ack_encode (mkUpstreamAck 2) ++ str "yzw".
Proof.
  destruct (splice_run toy_within (toy_start toy_parked 1) [UpstreamChunk (str "w"); Written 1]) as [s|] eqn:E;
    [|by vm_compute in E].
  exists s. split; [done|].
  pose proof (mesh_resume_lossless toy_within (str "abcdef") 8 toy_parked (toy_resume 1) (toy_start toy_parked 1) s
    [UpstreamChunk (str "w"); Written 1] toy_life) as H.
  vm_compute in E. injection E as <-.
  destruct H as (Hm & _ & (unsent & Hr & Hu) & _); [by vm_compute..|].
  split; [exact Hm|]. split; [by vm_compute|]. rewrite (Hu eq_refl), app_nil_r in Hr. rewrite Hr. by vm_compute.
Defined.
Lemma splice_verdict_witness :
  exists s, splice_run toy_within (toy_start toy_fresh 0)
      [UpstreamChunk (str "xy"); Written 2; UpstreamEnd; MeshChunk (str "a"); Accepted 1; MeshEof] = Some s
  /\ splice_close s None true = Some (None, Finish)
  /\ taken (bundle s) = str "a".
Proof.
  destruct (splice_run toy_within (toy_start toy_fresh 0)
    [UpstreamChunk (str "xy"); Written 2; UpstreamEnd; MeshChunk (str "a"); Accepted 1; MeshEof]) as [s|] eqn:E;
    [|by vm_compute in E].
  exists s. split; [done|].
  pose proof (splice_verdict toy_within 8 toy_fresh (toy_resume 0) true true (toy_start toy_fresh 0) s
    [UpstreamChunk (str "xy"); Written 2; UpstreamEnd; MeshChunk (str "a"); Accepted 1; MeshEof] None None Finish) as H.
  vm_compute in E. injection E as <-.
  destruct H as (_ & _ & _ & H); [split; [done|intros _; apply represents_new]|by vm_compute..|].
  split; [by vm_compute|]. rewrite (H eq_refl). by vm_compute.
Defined.
