(* ===== verification/MeshEdge.v ===== *)
(** The edge of a relayed session: the resume headers of an upgrade request
    ([bins/outline-ss-rust/src/server/transport/resume_headers.rs]), what the
    edge offers and echoes ([transport/mesh_relay.rs]) and its reading half of
    the relay ([transport/upstream_source.rs]).

    The HTTP library's header map is a finite map from lower-case names;
    [to_str] is its test that a value is text. *)
From S2P Require Import Prelude StdText Target Cluster Orphans MeshFrame MeshHome.
Local Open Scope Z_scope.

(** ** [outline-wire]'s header names *)
Definition RESUME_REQUEST_HEADER : bytes := str "x-outline-resume".
Definition RESUME_CAPABLE_HEADER : bytes := str "x-outline-resume-capable".
Definition SESSION_RESPONSE_HEADER : bytes := str "x-outline-session".
Definition ACK_PREFIX_HEADER : bytes := str "x-outline-resume-ack-prefix".
Definition SYMMETRIC_REPLAY_HEADER : bytes := str "x-outline-resume-symmetric-replay".
Definition DOWN_ACKED_HEADER : bytes := str "x-outline-resume-down-acked".

(** [s.parse::<u64>()] *)
Fixpoint parse_digits_u64 (acc : Z) (l : bytes) : option Z :=
  match l with
  | [] => Some acc
  | b :: l =>
    d ← to_digit 10 b;
    let acc := acc * 10 + d in
    if 2 ^ 64 - 1 <? acc then None else parse_digits_u64 acc l
  end.
Definition parse_u64 (l : bytes) : option Z :=
  match l with
  | [] => None
  | b :: rest =>
    if bool_decide (b = x2b) then match rest with [] => None | _ => parse_digits_u64 0 rest end
    else parse_digits_u64 0 l
  end.

Definition HeaderMap : Type := gmap bytes bytes.
Record ResumeResponseEcho : Type := mkEcho { echo_session_id : option SessionId; echo_ack_prefix : bool; echo_symmetric_replay : bool }.
Record ResumeContext : Type := mkContext {
  requested_resume : option SessionId;
  issued_session_id : option SessionId;
  ack_prefix_requested : bool;
  symmetric_replay_requested : bool;
  client_acked_offset : Z
}.
Record EdgeResumeAdvert : Type := mkAdvert {
  advert_session_id : SessionId;
  advert_resume_capable : bool;
  advert_ack_prefix : bool;
  advert_symmetric_replay : bool;
  down_acked : Z
}.

Section headers.
Variable to_str : bytes -> option bytes.
Variable blake3_keyed_xof : bytes -> bytes -> nat -> bytes.

Definition header_is_one (headers : HeaderMap) (name : bytes) : bool :=
  match v ← headers !! name; to_str v with Some v => bool_decide (trim v = str "1") | None => false end.
(** The presented resume id, whoever minted it. *)
Definition requested_id (headers : HeaderMap) : option SessionId :=
  v ← headers !! RESUME_REQUEST_HEADER; v ← to_str v; parse_hex v.
Definition identity_of (r : OrphanRegistry) : option ClusterIdentity :=
  match cluster r with Some (k, s) => Some (mkIdentity k s) | None => None end.

(** [entropy] as in [mint_session_id]; [None] is the panic of [decode_shard]. *)
Definition from_request_headers (headers : HeaderMap) (registry : OrphanRegistry) (entropy : option bytes)
    : option ResumeContext :=
  let requested_resume_raw := requested_id headers in
  let resume_capable := header_is_one headers RESUME_CAPABLE_HEADER in
  route ← decide_route blake3_keyed_xof (identity_of registry) requested_resume_raw;
  let requested_resume := match route with Relay _ => None | Local => requested_resume_raw end in
  let issued_session_id :=
    if enabled (config registry) && (resume_capable || bool_decide (is_Some requested_resume_raw))
    then mint_session_id blake3_keyed_xof registry entropy else None in
  let ack_prefix_requested := enabled (config registry) && header_is_one headers ACK_PREFIX_HEADER in
  let symmetric_replay_requested :=
    ack_prefix_requested && symmetric_replay_enabled (config registry) && header_is_one headers SYMMETRIC_REPLAY_HEADER in
  let client_acked_offset :=
    if symmetric_replay_requested && bool_decide (is_Some requested_resume) then
      match trim <$> (v ← headers !! DOWN_ACKED_HEADER; to_str v) with
      | Some [] => 0
      | Some value => default 0 (parse_u64 value)
      | None => 0
      end
    else 0 in
  Some (mkContext requested_resume issued_session_id ack_prefix_requested symmetric_replay_requested client_acked_offset).
Definition response_echo (c : ResumeContext) : ResumeResponseEcho :=
  mkEcho (issued_session_id c) (ack_prefix_requested c) (symmetric_replay_requested c).

Definition edge_route (headers : HeaderMap) (identity : option ClusterIdentity)
    : option (RouteDecision * option EdgeResumeAdvert) :=
  let requested := requested_id headers in
  route ← decide_route blake3_keyed_xof identity requested;
  match route with
  | Relay shard =>
    session_id ← requested;
    let down_acked :=
      match trim <$> (v ← headers !! DOWN_ACKED_HEADER; to_str v) with
      | Some [] => 0
      | Some value => default 0 (parse_u64 value)
      | None => 0
      end in
    Some (Relay shard,
      Some (mkAdvert session_id (header_is_one headers RESUME_CAPABLE_HEADER) (header_is_one headers ACK_PREFIX_HEADER)
              (header_is_one headers SYMMETRIC_REPLAY_HEADER) down_acked))
  | Local => Some (Local, None)
  end.

Definition apply_echo (e : ResumeResponseEcho) (headers : HeaderMap) : HeaderMap :=
  let headers := match echo_session_id e with Some id => <[SESSION_RESPONSE_HEADER := to_hex id]> headers | None => headers end in
  let headers := if echo_ack_prefix e then <[ACK_PREFIX_HEADER := str "1"]> headers else headers in
  if echo_symmetric_replay e then <[SYMMETRIC_REPLAY_HEADER := str "1"]> headers else headers.
End headers.

(** ** What the edge offers and echoes *)
Definition edge_open (a : EdgeResumeAdvert) (f : MeshFraming) (p : MeshProtocol) (peer : SocketAddr) : OpenHeader :=
  mkOpen f p (advert_session_id a) (advert_resume_capable a) (advert_ack_prefix a) (advert_symmetric_replay a)
    (down_acked a) (Some peer).
(** What opening the relay comes to: [None] serves the client locally. *)
Definition open_edge_relay (h : OpenHeader) (opened : bool) (ack : result MeshError Z) : option MeshShape :=
  if negb opened then None
  else match ack with
       | Ok b => match parse_open_ack b (committed_shape h) with Ok shape => Some shape | Err _ => None end
       | Err _ => None
       end.
Record EdgeUpstream : Type := mkEdge { setup_ack_prefix : bool; setup_shape : MeshShape; resume : ResumeContext; echo : ResumeResponseEcho }.
Definition edge_upstream (shape : MeshShape) (a : EdgeResumeAdvert) (registry : OrphanRegistry) : EdgeUpstream :=
  let ack_prefix := advert_ack_prefix a && enabled (config registry) in
  mkEdge (advert_ack_prefix a) shape (mkContext None None ack_prefix false 0)
    (mkEcho (Some (advert_session_id a)) ack_prefix false).
Definition edge_session_id (edge : option EdgeUpstream) (local : ResumeContext) : option SessionId :=
  match edge with Some edge => echo_session_id (echo edge) | None => issued_session_id local end.
Definition edge_echo (edge : option EdgeUpstream) (local : ResumeContext) : ResumeResponseEcho :=
  match edge with Some edge => echo edge | None => response_echo local end.
Definition edge_udp_echo (edge : option EdgeUpstream) (local : ResumeContext) : ResumeResponseEcho :=
  mkEcho (edge_session_id edge local) false false.

(** [MeshUpstreamSetup::exchange]: what is written, and the offset read back. *)
Definition exchange (name : bytes) (ack_prefix : bool) (s : list ReadEvent)
    : result MeshError (bytes * Z) * list ReadEvent :=
  if MAX_USER_LEN <? zlen name then (Err (UserTooLong (zlen name)), s)
  else
    let frame := user_encode (mkUser name) in
    if negb ack_prefix then (Ok (frame, 0), s)
    else
      match read_exactly UPSTREAM_ACK_FRAME_LEN s with
      | (Ok b, s) => (f ← upstream_ack_parse b; Ok (frame, upstream_acked f), s)
      | (Err e, s) => (Err e, s)
      end.

(** ** The reading half *)
Definition MESH_UPSTREAM_CHUNK : Z := 0xFFFF.
Record MeshUpstream : Type := mkUpstream { recv : list ReadEvent; pending : option bytes; eof : bool }.
Inductive IoError : Type := WouldBlock | IoFailed (e : MeshError).
Definition readable (u : MeshUpstream) : MeshUpstream * result IoError unit :=
  if bool_decide (is_Some (pending u)) || eof u then (u, Ok tt)
  else
    match recv u with
    | [] => (mkUpstream [] (pending u) true, Ok tt)
    | _ =>
      match read (Z.to_nat MESH_UPSTREAM_CHUNK) (recv u) with
      | (Ok chunk, s) => (mkUpstream s (Some chunk) (eof u), Ok tt)
      | (Err e, s) => (mkUpstream s (pending u) (eof u), Err (IoFailed e))
      end
    end.
(** [remaining]: the room of the caller's buffer. *)
Definition try_read_buf (u : MeshUpstream) (remaining : nat) : MeshUpstream * result IoError bytes :=
  match pending u with
  | Some b =>
    let n := Nat.min (length b) remaining in
    let rest := drop n b in
    (mkUpstream (recv u) (if bool_decide (rest = []) then None else Some rest) (eof u), Ok (take n b))
  | None => (u, if eof u then Ok [] else Err WouldBlock)
  end.

(** ** Reading on, [n] bytes of room at a time *)
Fixpoint read_on (u : MeshUpstream) (rooms : list nat) : MeshUpstream * result IoError (list bytes) :=
  match rooms with
  | [] => (u, Ok [])
  | n :: rooms =>
    match readable u with
    | (u, Err e) => (u, Err e)
    | (u, Ok _) =>
      match try_read_buf u n with
      | (u, Err e) => (u, Err e)
      | (u, Ok b) => let (u, r) := read_on u rooms in (u, r ← r; Ok (b :: r))
      end
    end
  end.
(** What is still to come. *)
Definition ahead (u : MeshUpstream) (w : bytes) : Prop :=
  exists w', carries (recv u) w' /\ w = default [] (pending u) ++ w'
    /\ (forall b, pending u = Some b -> b <> [] /\ zlen b <= MESH_UPSTREAM_CHUNK) /\ (eof u = true -> w' = [] /\ pending u = None).

Lemma readable_ahead u w : ahead u w -> exists u', readable u = (u', Ok tt) /\ ahead u' w
  /\ (pending u' = None -> w = [] /\ eof u' = true).
Proof.
  intros (w' & Hc & -> & Hp & He). unfold readable. case_bool_decide as Hs; cbn [orb].
  { exists u. split; [done|]. split; [by exists w'|]. intros E. rewrite E in Hs. by destruct Hs. }
  assert (Hn : pending u = None) by (destruct (pending u); [destruct Hs; eauto|done]).
  destruct (eof u) eqn:Ee.
  { exists u. destruct (He eq_refl) as [-> _]. rewrite Hn. split; [done|]. split; [|done].
    exists []. by rewrite Hn, Ee. }
  rewrite Hn. destruct Hc as [|d s w' Hd Hc].
  { exists (mkUpstream [] None true). split; [done|]. split; [|done]. exists []. split; [constructor|]. done. }
  assert (Hw : d ++ w' <> []) by by destruct d.
  destruct (read_carries (Z.to_nat MESH_UPSTREAM_CHUNK) (Data d :: s) (d ++ w')) as (c & s' & -> & Hcn & Hl & w2 & Hw2 & Hc2);
    [unfold MESH_UPSTREAM_CHUNK; lia|by constructor|done|].
  exists (mkUpstream s' (Some c) false). split; [done|]. split; [|done]. exists w2. cbn. split_and!; try done.
  intros b [= <-]. split; [done|]. unfold zlen, MESH_UPSTREAM_CHUNK in *. lia.
Qed.
Lemma try_read_ahead u w n : (0 < n)%nat -> ahead u w -> (pending u = None -> w = [] /\ eof u = true) ->
  exists u' b w', try_read_buf u n = (u', Ok b) /\ w = b ++ w' /\ ahead u' w'
    /\ (length b <= n)%nat /\ zlen b <= MESH_UPSTREAM_CHUNK /\ (b = [] -> w = []).
Proof.
  intros Hn (w' & Hc & -> & Hp & He) Hempty. unfold try_read_buf. destruct (pending u) as [b|] eqn:Ep.
  - destruct (Hp b eq_refl) as [Hb Hl]. set (k := Nat.min (length b) n).
    eexists _, (take k b), (drop k b ++ w'). split; [done|]. cbn [default].
    split; [by rewrite app_assoc, take_drop|]. split_and!.
    + exists w'. cbn. case_bool_decide as Hd.
      * rewrite Hd. split_and!; try done. intros E. by destruct (He E).
      * split_and!; try done; [|intros E; by destruct (He E)].
        intros b' [= <-]. split; [done|]. unfold zlen in *. rewrite length_drop. lia.
    + rewrite length_take. lia.
    + unfold zlen in *. rewrite length_take. lia.
    + intros E. apply (f_equal length) in E. rewrite length_take in E. assert (0 < length b)%nat by by destruct b; cbn; [|lia].
      cbn [length] in E. lia.
  - destruct (Hempty eq_refl) as [Hw Hf]. rewrite Hf. exists u, [], []. cbn in Hw |- *. subst w'.
    split_and!; try done; [|cbn; lia]. exists []. rewrite Ep. split_and!; try done.
Qed.

(** ** Routing by the headers *)
Section routing.
Context (to_str : bytes -> option bytes) (xof : bytes -> bytes -> nat -> bytes).
Context (xof_length : forall k d n, length (xof k d n) = n).

Lemma requested_hex headers v id : length id = 16%nat -> headers !! RESUME_REQUEST_HEADER = Some v -> to_str v = Some (to_hex id) ->
  requested_id to_str headers = Some id.
Proof. intros Hl Hv Ht. unfold requested_id. rewrite Hv. cbn. rewrite Ht. by apply session_id_hex_roundtrip. Qed.
End routing.

(** ** Properties *)

(** The relay's reading half gives the stream of the home as it was sent:
    however QUIC cuts it and whatever room each read has, the reads are
    consecutive, each within its room and the size the cipher allows, and empty
    only at the end. *)
Theorem edge_reader_exact (s : list ReadEvent) (w : bytes) (rooms : list nat) :
  carries s w -> Forall (fun n => 0 < n)%nat rooms ->
  exists u bs later, read_on (mkUpstream s None false) rooms = (u, Ok bs)
    /\ w = concat bs ++ later
    /\ Forall2 (fun n b => (length b <= n)%nat /\ zlen b <= MESH_UPSTREAM_CHUNK /\ (b = [] -> later = [])) rooms bs.
Proof.
  intros Hc Hr. assert (Ha : ahead (mkUpstream s None false) w) by by exists w.
  clear Hc. revert Ha. generalize (mkUpstream s None false). revert w.
  induction Hr as [|n rooms Hn Hr IH]; intros w u Ha.
  - exists u, [], w. by split_and!.
  - cbn [read_on]. destruct (readable_ahead u w Ha) as (u1 & -> & Ha1 & Hp).
    destruct (try_read_ahead u1 w n Hn Ha1 Hp) as (u2 & b & w' & -> & -> & Ha2 & Hl & Hz & He).
    destruct (IH w' u2 Ha2) as (u3 & bs & later & -> & -> & Hf).
    exists u3, (b :: bs), later. split; [done|]. split; [cbn; by rewrite app_assoc|].
    constructor; [|done]. split_and!; try done. intros ->. specialize (He eq_refl). cbn in He.
    by apply app_eq_nil in He as [_ ->].
Qed.

(** C30: a session id finds its way home. What a node issued in one response leads
    back to it in the next request: from every other node of the cluster to a
    relay whose OPEN carries the id and whose echo repeats it, and on the node
    itself to its own registry; and a node never looks up an id of another. *)
Theorem issued_id_routes_home (to_str : bytes -> option bytes) (xof : bytes -> bytes -> nat -> bytes)
    (xof_length : forall k d n, length (xof k d n) = n)
    (headers headers' : HeaderMap) (home edge : OrphanRegistry) (k : ObfuscationKey) (a b : ShardId)
    (entropy v : bytes) (entropy' : option bytes) (ctx ctx' : ResumeContext) (id : SessionId) :
  cluster home = Some (k, a) -> cluster edge = Some (k, b) -> wf_shard a ->
  length entropy = SESSION_ID_LEN ->
  from_request_headers to_str xof headers home (Some entropy) = Some ctx -> issued_session_id ctx = Some id ->
  headers' !! RESUME_REQUEST_HEADER = Some v -> to_str v = Some (to_hex id) ->
  from_request_headers to_str xof headers' edge entropy' = Some ctx' ->
  (a = b -> edge_route to_str xof headers' (identity_of edge) = Some (Local, None) /\ requested_resume ctx' = Some id)
  /\ (a <> b -> requested_resume ctx' = None /\ exists advert,
        edge_route to_str xof headers' (identity_of edge) = Some (Relay a, Some advert)
        /\ (forall f p peer, session_id (edge_open advert f p peer) = id)
        /\ forall shape local, edge_session_id (Some (edge_upstream shape advert edge)) local = Some id).
Proof.
  intros Hh He Ha Hl Hctx Hid Hv Ht Hctx'.
  assert (Hen : id = encode_session_id xof k a entropy).
  { unfold from_request_headers in Hctx. destruct (decide_route _ _ _); [|done]. cbn in Hctx. injection Hctx as <-.
    cbn in Hid. destruct (enabled (config home)) eqn:Ee; [|done]. destruct (_ || _); [|done]. cbn in Hid.
    unfold mint_session_id in Hid. rewrite Ee, Hh in Hid. cbn in Hid. by injection Hid as <-. }
  assert (Hd : decode_shard xof k id = Some a) by by rewrite Hen; apply (decode_encode xof xof_length).
  assert (Hr : requested_id to_str headers' = Some id).
  { eapply requested_hex; [|done..]. rewrite Hen. by rewrite (encode_length xof xof_length). }
  assert (Hroute : decide_route xof (identity_of edge) (Some id) = Some (if bool_decide (a = b) then Local else Relay a)).
  { unfold identity_of, decide_route. rewrite He. cbn. by rewrite Hd. }
  unfold from_request_headers, edge_route in *. rewrite Hr, Hroute in Hctx' |- *. cbn in Hctx' |- *. injection Hctx' as <-.
  split; intros Hab.
  - by rewrite bool_decide_eq_true_2 by done.
  - rewrite bool_decide_eq_false_2 by done. cbn. split; [done|]. eexists. split; [done|]. done.
Qed.

Lemma edge_reader_exact_witness : exists u bs later,
  read_on (mkUpstream [Data (str "abc"); Data (str "de")] None false) [2; 9; 1; 4; 4]%nat = (u, Ok bs)
  /\ str "abcde" = concat bs ++ later.
Proof.
  destruct (edge_reader_exact [Data (str "abc"); Data (str "de")] (str "abcde") [2; 9; 1; 4; 4]%nat) as (u & bs & later & H & Hw & _);
    [|repeat constructor; lia|by exists u, bs, later].
  apply (carries_data (str "abc") _ (str "de")); [done|]. apply (carries_data (str "de") _ []); [done|constructor].
Defined.

(** A text test that accepts everything, and a keystream of zeros. *)
Definition toy_str (v : bytes) : option bytes := Some v.
Definition toy_xof (_ _ : bytes) (n : nat) : bytes := replicate n x00.
Definition toy_node (n : byte) : OrphanRegistry :=
  with_cluster (registry_new (mkConfig true 30 30 4 100 8)) (mkObfuscationKey []) (mkShardId n).
Definition toy_request : HeaderMap := <[RESUME_CAPABLE_HEADER := str "1"]> ∅.
Definition toy_minted : bytes := encode_session_id toy_xof (mkObfuscationKey []) (mkShardId x03) (replicate 16 x09).
Definition toy_resumed : HeaderMap := <[RESUME_REQUEST_HEADER := to_hex toy_minted]> ∅.
Lemma issued_id_routes_home_witness : exists advert,
  edge_route toy_str toy_xof toy_resumed (identity_of (toy_node x05)) = Some (Relay (mkShardId x03), Some advert)
  /\ forall f p peer, session_id (edge_open advert f p peer) = toy_minted.
Proof.
  destruct (issued_id_routes_home toy_str toy_xof (fun _ _ n => length_replicate n x00) toy_request toy_resumed
    (toy_node x03) (toy_node x05) (mkObfuscationKey []) (mkShardId x03) (mkShardId x05) (replicate 16 x09)
    (to_hex toy_minted) None (mkContext None (Some toy_minted) false false 0) (mkContext None None false false 0) toy_minted)
    as [_ H]; [vm_compute; reflexivity..|].
  destruct H as (_ & advert & H1 & H2 & _); [discriminate|]. exists advert. split; [exact H1|exact H2].
Defined.
