(* ===== verification/UplinkDescent.v ===== *)
(** The carrier-descent ladder of the client's uplinks
    ([crates/outline-uplink/src/manager/carrier_descent.rs]) and the state of
    one descent slot ([carrier_descent_state.rs]).

    An [Instant] is a [Z]; [duration_since] saturates at zero. The saturation of
    a doubled [Duration] at 2^64 seconds is left out. *)
From S2P Require Import Prelude.
Local Open Scope Z_scope.

(** ** The ladder *)
Inductive TransportMode : Type := WsH1 | WsH2 | WsH3 | XhttpH1 | XhttpH2 | XhttpH3.
Inductive Family : Type := Ws | Xhttp.
#[export] Instance TransportMode_eq_dec : EqDecision TransportMode.
Proof. solve_decision. Defined.
#[export] Instance Family_eq_dec : EqDecision Family.
Proof. solve_decision. Defined.
Definition family (mode : TransportMode) : Family :=
  match mode with WsH1 | WsH2 | WsH3 => Ws | XhttpH1 | XhttpH2 | XhttpH3 => Xhttp end.
Definition rank (mode : TransportMode) : Z :=
  match mode with WsH1 => 0 | WsH2 => 1 | WsH3 => 2 | XhttpH1 => 0 | XhttpH2 => 1 | XhttpH3 => 2 end.
Definition one_step_down (failed : TransportMode) : option TransportMode :=
  match failed with
  | WsH3 => Some WsH2 | WsH2 => Some WsH1 | XhttpH3 => Some XhttpH2 | XhttpH2 => Some XhttpH1
  | WsH1 | XhttpH1 => None
  end.
Definition one_step_up (capped : TransportMode) : option TransportMode :=
  match capped with
  | WsH1 => Some WsH2 | WsH2 => Some WsH3 | XhttpH1 => Some XhttpH2 | XhttpH2 => Some XhttpH3
  | WsH3 | XhttpH3 => None
  end.
Definition is_carrier_floor_mode (mode : TransportMode) : bool :=
  match one_step_down mode with None => true | Some _ => false end.

(** ** The standard library's counters and clocks *)
Definition saturating_inc (n : Z) : Z := Z.min (n + 1) (2 ^ 32 - 1).
Definition duration_since (now t : Z) : Z := Z.max 0 (now - t).
(** [o.is_some_and(|t| t > now)] *)
Definition later_than (o : option Z) (now : Z) : bool := match o with Some t => now <? t | None => false end.
(** [o.is_some_and(|t| now.duration_since(t) < w)] *)
Definition within (o : option Z) (now w : Z) : bool :=
  match o with Some t => duration_since now t <? w | None => false end.

(** ** One slot *)
Record CarrierDescentState : Type := mkDescent {
  until : option Z;
  capped_to : option TransportMode;
  window_started_at : option Z;
  recovery_probe_cooldown_until : option Z;
  last_recovery_success_at : option Z;
  post_recovery_grace_descent_attempts : Z;
  recovery_probe_success_streak : Z
}.
Definition descent_default : CarrierDescentState := mkDescent None None None None None 0 0.

Record DescentTrigger : Type := mkTrigger {
  t_now : Z;
  t_duration : Z;
  t_new_cap : TransportMode;
  t_failed_mode : TransportMode;
  t_probe_trigger : bool;
  t_is_recovery_fail : bool;
  t_probe_min_failures : Z;
  t_probe_consecutive_failures : Z
}.
Record DescentApplied : Type := mkApplied {
  newly_started : bool;
  advances_deadline : bool;
  cap_changed : bool;
  updated_cap : TransportMode
}.
Inductive DescentDecision : Type := AbsorbedByGrace | Applied (a : DescentApplied).
Inductive WalkUpOutcome : Type :=
  | NoOp
  | Cleared (from : TransportMode)
  | SteppedUp (from to : TransportMode).

Definition window_active (s : CarrierDescentState) (now : Z) : bool := later_than (until s) now.
Definition active_cap (s : CarrierDescentState) (now : Z) : option TransportMode :=
  match until s, capped_to s with
  | Some until, Some cap => if now <? until then Some cap else None
  | _, _ => None
  end.
Definition recovery_cooldown_active (s : CarrierDescentState) (now : Z) : bool :=
  later_than (recovery_probe_cooldown_until s) now.

(** Whether a probe failed at the carrier in force. *)
Definition probe_at_or_below_cap (s : CarrierDescentState) (t : DescentTrigger) : bool :=
  match capped_to s with
  | Some prev =>
    later_than (until s) (t_now t) && bool_decide (family prev = family (t_failed_mode t))
    && (rank (t_failed_mode t) <=? rank prev)
  | None => false
  end.
Definition grace_gate_active (s : CarrierDescentState) (t : DescentTrigger) : bool :=
  let grace_window := t_duration t * 2 in
  let in_post_recovery_grace := within (last_recovery_success_at s) (t_now t) grace_window in
  bool_decide (capped_to s = None) && in_post_recovery_grace
  && (post_recovery_grace_descent_attempts s <? t_probe_min_failures t).
Definition next_cap (s : CarrierDescentState) (t : DescentTrigger) : TransportMode :=
  let window_active := later_than (until s) (t_now t) in
  let descent_gated_at_cap :=
    t_probe_trigger t && (t_probe_consecutive_failures t <? t_probe_min_failures t) && probe_at_or_below_cap s t in
  match capped_to s with
  | Some prev =>
    if descent_gated_at_cap then prev
    else if window_active && bool_decide (family prev = family (t_new_cap t)) && (rank prev <? rank (t_new_cap t))
    then prev else t_new_cap t
  | None => t_new_cap t
  end.
Definition apply_descent_trigger (s : CarrierDescentState) (t : DescentTrigger)
    : CarrierDescentState * DescentDecision :=
  let new_until := t_now t + t_duration t in
  let newly_started := match until s with None => true | Some u => u <? t_now t end in
  let advances_deadline := match until s with None => true | Some u => u <? new_until end in
  if grace_gate_active s t then
    (mkDescent (until s) (capped_to s) (window_started_at s) (recovery_probe_cooldown_until s) (Some (t_now t))
       (saturating_inc (post_recovery_grace_descent_attempts s)) (recovery_probe_success_streak s), AbsorbedByGrace)
  else
    let updated_cap := next_cap s t in
    let cap_changed := negb (bool_decide (capped_to s = Some updated_cap)) in
    let s :=
      if advances_deadline || cap_changed || t_is_recovery_fail t then
        let streak := if cap_changed then 0 else recovery_probe_success_streak s in
        mkDescent (if advances_deadline then Some new_until else until s) (Some updated_cap)
          (if newly_started then Some (t_now t) else window_started_at s)
          (if t_is_recovery_fail t then Some new_until else recovery_probe_cooldown_until s)
          (last_recovery_success_at s)
          (if cap_changed then 0 else post_recovery_grace_descent_attempts s)
          (if t_is_recovery_fail t then 0 else streak)
      else s in
    (s, Applied (mkApplied newly_started advances_deadline cap_changed updated_cap)).

Definition clear_window_keep_grace_anchor (s : CarrierDescentState) : CarrierDescentState :=
  mkDescent None None None None (last_recovery_success_at s) 0 (recovery_probe_success_streak s).
Definition walk_up (s : CarrierDescentState) (now duration : Z) (configured_mode : TransportMode)
    (min_successes consecutive_successes : Z) : CarrierDescentState * WalkUpOutcome :=
  match capped_to s with
  | None => (s, NoOp)
  | Some prev_cap =>
    if match until s with None => true | Some t => t <=? now end then (s, NoOp)
    else if consecutive_successes <? min_successes then (s, NoOp)
    else if negb (bool_decide (family prev_cap = family configured_mode)) then
      (clear_window_keep_grace_anchor s, Cleared prev_cap)
    else
      match one_step_up prev_cap with
      | None => (clear_window_keep_grace_anchor s, Cleared prev_cap)
      | Some next =>
        if rank configured_mode <=? rank next then (s, NoOp)
        else
          (mkDescent (Some (now + duration)) (Some next) (window_started_at s) (recovery_probe_cooldown_until s)
             (last_recovery_success_at s) (post_recovery_grace_descent_attempts s) (recovery_probe_success_streak s),
           SteppedUp prev_cap next)
      end
  end.
Definition clear_and_open_grace (s : CarrierDescentState) (now : Z) : CarrierDescentState :=
  mkDescent None None None None (Some now) 0 0.
Definition reset_window_for_wire_change (s : CarrierDescentState) : CarrierDescentState :=
  mkDescent None None None None (last_recovery_success_at s) (post_recovery_grace_descent_attempts s) 0.
Definition renew_grace_if_active (s : CarrierDescentState) (now grace_window : Z) : CarrierDescentState :=
  if within (last_recovery_success_at s) now grace_window then
    mkDescent (until s) (capped_to s) (window_started_at s) (recovery_probe_cooldown_until s) (Some now) 0
      (recovery_probe_success_streak s)
  else s.
Definition note_recovery_success_streak (s : CarrierDescentState) : CarrierDescentState * Z :=
  if bool_decide (capped_to s = None) && bool_decide (until s = None) then
    (mkDescent (until s) (capped_to s) (window_started_at s) (recovery_probe_cooldown_until s)
       (last_recovery_success_at s) (post_recovery_grace_descent_attempts s) 0, 0)
  else
    let n := saturating_inc (recovery_probe_success_streak s) in
    (mkDescent (until s) (capped_to s) (window_started_at s) (recovery_probe_cooldown_until s)
       (last_recovery_success_at s) (post_recovery_grace_descent_attempts s) n, n).

(** ** The invariant of a slot *)
Definition below (configured cap : TransportMode) : Prop := family cap = family configured /\ rank cap < rank configured.
(** A deadline and a cap are set and cleared together, and a cap is a real
    descent inside the configured family. *)
Definition slot_ok (configured : TransportMode) (s : CarrierDescentState) : Prop :=
  match until s, capped_to s with
  | None, None => True
  | Some _, Some cap => below configured cap
  | _, _ => False
  end.
Definition effective (configured : TransportMode) (s : CarrierDescentState) (now : Z) : TransportMode :=
  default configured (active_cap s now).

Lemma below_dec configured cap :
  negb (bool_decide (family cap = family configured)) || (rank configured <=? rank cap) = false <-> below configured cap.
Proof.
  rewrite orb_false_iff, negb_false_iff, bool_decide_eq_true, Z.leb_gt. done.
Qed.
Lemma slot_ok_default configured : slot_ok configured descent_default.
Proof. done. Qed.
Lemma slot_ok_cap configured s cap : slot_ok configured s -> capped_to s = Some cap -> below configured cap.
Proof. unfold slot_ok. destruct (until s), (capped_to s); naive_solver. Qed.
Lemma slot_ok_effective configured s now :
  slot_ok configured s ->
  family (effective configured s now) = family configured /\ rank (effective configured s now) <= rank configured.
Proof.
  unfold slot_ok, effective, active_cap. destruct (until s), (capped_to s) as [cap|]; try done.
  intros [H1 H2]. case_match; cbn; split; (done || lia).
Qed.
Lemma next_cap_cases s t : next_cap s t = t_new_cap t \/ capped_to s = Some (next_cap s t).
Proof. unfold next_cap. repeat case_match; auto. Qed.

(** Inside its window a cap is never raised. *)
Lemma next_cap_down s t prev :
  capped_to s = Some prev -> later_than (until s) (t_now t) = true -> family prev = family (t_new_cap t) ->
  family (next_cap s t) = family prev /\ rank (next_cap s t) <= rank prev.
Proof.
  intros Hc Hw Hf. unfold next_cap. rewrite Hc, Hw, (bool_decide_true _ Hf). cbn [andb].
  case_match; [split; done || lia|]. case_match eqn:E; [split; done || lia|]. apply Z.ltb_ge in E. by rewrite Hf.
Qed.

(** What a trigger makes of a slot, when the grace window does not absorb it. *)
Lemma apply_descent_trigger_cases s t :
  (grace_gate_active s t = true /\ capped_to s = None /\ (apply_descent_trigger s t).1 =
     mkDescent (until s) (capped_to s) (window_started_at s) (recovery_probe_cooldown_until s) (Some (t_now t))
       (saturating_inc (post_recovery_grace_descent_attempts s)) (recovery_probe_success_streak s)
   /\ (apply_descent_trigger s t).2 = AbsorbedByGrace) \/
  (grace_gate_active s t = false /\
   exists a, (apply_descent_trigger s t).2 = Applied a /\ updated_cap a = next_cap s t /\
     (cap_changed a = negb (bool_decide (capped_to s = Some (next_cap s t)))) /\
     let s' := (apply_descent_trigger s t).1 in
     capped_to s' = Some (next_cap s t) /\
     until s' = (if match until s with None => true | Some u => u <? t_now t + t_duration t end
                 then Some (t_now t + t_duration t) else until s) /\
     last_recovery_success_at s' = last_recovery_success_at s).
Proof.
  unfold apply_descent_trigger. destruct (grace_gate_active s t) eqn:Hg.
  - left. unfold grace_gate_active in Hg. rewrite !andb_true_iff, bool_decide_eq_true in Hg. naive_solver.
  - right. split; [done|]. eexists. split; [reflexivity|].
    split; [done|]. split; [done|]. cbn [fst snd cap_changed updated_cap].
    set (adv := match until s with None => true | Some u => u <? t_now t + t_duration t end).
    destruct adv; cbn; [done|]. case_bool_decide as Hc; cbn; [|done]. by destruct (t_is_recovery_fail t).
Qed.
Lemma apply_descent_trigger_ok configured s t :
  slot_ok configured s -> below configured (t_new_cap t) -> slot_ok configured (apply_descent_trigger s t).1.
Proof.
  intros Hs Ht. destruct (apply_descent_trigger_cases s t) as [(_ & _ & -> & _)|(_ & a & _ & _ & _ & Hc & Hu & _)];
    [done|].
  unfold slot_ok. rewrite Hc, Hu. destruct (until s) as [u|] eqn:Eu; [case_match|]; cbn;
    (destruct (next_cap_cases s t) as [->|Hn]; [done|]; by eapply slot_ok_cap).
Qed.
Lemma clear_window_ok configured s : slot_ok configured (clear_window_keep_grace_anchor s).
Proof. done. Qed.
Lemma one_step_up_rank m m' : one_step_up m = Some m' -> family m' = family m /\ rank m' = rank m + 1.
Proof. destruct m; cbn; intros [= <-]; done. Qed.
Lemma one_step_down_rank m m' : one_step_down m = Some m' -> family m' = family m /\ rank m' = rank m - 1.
Proof. destruct m; cbn; intros [= <-]; done. Qed.
Lemma walk_up_ok configured s now duration min_s cons_s :
  slot_ok configured s -> slot_ok configured (walk_up s now duration configured min_s cons_s).1.
Proof.
  intros Hs. unfold walk_up. destruct (capped_to s) as [cap|] eqn:Ec; [|done].
  pose proof (slot_ok_cap _ _ _ Hs Ec) as [Hf Hr].
  repeat case_match; cbn; try done; simplify_eq;
    try (unfold slot_ok; cbn; split; [by destruct (one_step_up_rank cap t) as [-> _]|by apply Z.leb_gt]).
Qed.
Lemma reset_window_ok configured s : slot_ok configured (reset_window_for_wire_change s).
Proof. done. Qed.
Lemma renew_grace_ok configured s now w : slot_ok configured s -> slot_ok configured (renew_grace_if_active s now w).
Proof. unfold renew_grace_if_active. by case_match. Qed.
Lemma note_streak_ok configured s : slot_ok configured s -> slot_ok configured (note_recovery_success_streak s).1.
Proof. unfold note_recovery_success_streak. by case_match. Qed.
Create HintDb slot.
#[export] Hint Resolve slot_ok_default apply_descent_trigger_ok clear_window_ok walk_up_ok reset_window_ok
  renew_grace_ok note_streak_ok : slot.

(** ** A slot over time *)
Inductive SlotOp : Type :=
  | STrigger (t : DescentTrigger)
  | SWalkUp (now duration : Z) (configured : TransportMode) (min_successes consecutive_successes : Z)
  | SClear (now : Z)
  | SReset
  | SRenew (now grace_window : Z)
  | SNote.
Definition slot_step (s : CarrierDescentState) (op : SlotOp) : CarrierDescentState :=
  match op with
  | STrigger t => (apply_descent_trigger s t).1
  | SWalkUp now duration configured m k => (walk_up s now duration configured m k).1
  | SClear now => clear_and_open_grace s now
  | SReset => reset_window_for_wire_change s
  | SRenew now w => renew_grace_if_active s now w
  | SNote => (note_recovery_success_streak s).1
  end.
(** The deadline an operation can set. *)
Definition slot_op_deadline (op : SlotOp) : option Z :=
  match op with
  | STrigger t => Some (t_now t + t_duration t)
  | SWalkUp now duration _ _ _ => Some (now + duration)
  | _ => None
  end.
Definition until_by (limit : Z) (s : CarrierDescentState) : Prop :=
  match until s with Some u => u <= limit | None => True end.
Lemma slot_step_until s op limit :
  until_by limit s -> match slot_op_deadline op with Some u => u <= limit | None => True end ->
  until_by limit (slot_step s op).
Proof.
  unfold until_by. destruct op; cbn [slot_step slot_op_deadline]; intros Hs Ho.
  - destruct (apply_descent_trigger_cases s t) as [(_ & _ & -> & _)|(_ & a & _ & _ & _ & _ & Hu & _)]; [done|].
    rewrite Hu. by destruct (until s); [destruct (_ <? _)|].
  - unfold walk_up. repeat case_match; cbn in *; simplify_eq; done.
  - done.
  - done.
  - unfold renew_grace_if_active. destruct (within _ _ _); done.
  - unfold note_recovery_success_streak. by destruct (_ && _).
Qed.

(** No cap outlives its window: whatever happens to a slot, once the last
    deadline its triggers and walk-ups could set has passed the wire dials its
    configured carrier again, with or without a recovery probe. *)
Theorem caps_expire configured ops now :
  Forall (fun op => match slot_op_deadline op with Some u => u <= now | None => True end) ops ->
  effective configured (foldl slot_step descent_default ops) now = configured.
Proof.
  intros Hops. assert (until_by now (foldl slot_step descent_default ops)) as H.
  { assert (until_by now descent_default) as H0 by done. revert H0. generalize descent_default.
    induction Hops as [|op ops Ho Hops IH]; intros s Hs; [done|]. cbn. by apply IH, slot_step_until. }
  revert H. generalize (foldl slot_step descent_default ops) as s. intros s. unfold until_by, effective, active_cap.
  destruct (until s), (capped_to s); try done. intros Hu. by rewrite (proj2 (Z.ltb_ge _ _) Hu).
Qed.

(** ** The grace window *)
(** A run of triggers that each arrive within the grace window of the one
    before. *)
Fixpoint in_grace (last : Z) (ts : list DescentTrigger) : Prop :=
  match ts with
  | [] => True
  | t :: ts => duration_since (t_now t) last < t_duration t * 2 /\ in_grace (t_now t) ts
  end.
Definition absorbed_n (s : CarrierDescentState) (last n : Z) : Prop :=
  until s = None /\ capped_to s = None /\ last_recovery_success_at s = Some last /\
  post_recovery_grace_descent_attempts s = n.
Lemma grace_absorbs s last n t :
  absorbed_n s last n -> duration_since (t_now t) last < t_duration t * 2 -> n < t_probe_min_failures t < 2 ^ 32 ->
  (apply_descent_trigger s t).2 = AbsorbedByGrace /\ absorbed_n (apply_descent_trigger s t).1 (t_now t) (n + 1).
Proof.
  intros (Hu & Hc & Hl & Hn) Hd Hm. unfold apply_descent_trigger.
  assert (grace_gate_active s t = true) as ->.
  { unfold grace_gate_active, within. rewrite Hc, Hl, Hn. cbn [andb].
    rewrite bool_decide_true by done. cbn [andb]. apply andb_true_iff. split; apply Z.ltb_lt; lia. }
  split; [done|]. unfold absorbed_n. cbn. split_and!; try done. rewrite Hn. unfold saturating_inc. lia.
Qed.
Lemma grace_absorbs_all m ts : forall s last n,
  absorbed_n s last n -> in_grace last ts -> Forall (fun t => t_probe_min_failures t = m) ts ->
  n + zlen ts <= m < 2 ^ 32 ->
  exists last', absorbed_n (foldl (fun s t => (apply_descent_trigger s t).1) s ts) last' (n + zlen ts).
Proof.
  induction ts as [|t ts IH]; intros s last n Hs Hg Hm Hn; cbn [foldl].
  - exists last. unfold zlen. cbn. by rewrite Z.add_0_r.
  - destruct Hg as [Hd Hg]. apply Forall_cons in Hm as [Hm Hms]. rewrite zlen_cons in *. pose proof (zlen_nonneg ts).
    destruct (grace_absorbs s last n t Hs Hd) as [_ H1]; [lia|].
    replace (n + (1 + zlen ts)) with ((n + 1) + zlen ts) by lia. eapply IH; [done|done|done|lia].
Qed.

(** After a recovery the carrier survives [min_failures] isolated descent
    triggers and no more: that many triggers, each within twice the downgrade
    duration of the one before, leave the slot without a cap, and the next one
    installs its cap for the full duration. *)
Theorem grace_budget s t0 ts t m :
  in_grace t0 ts -> Forall (fun t => t_probe_min_failures t = m) (ts ++ [t]) -> zlen ts = m -> m < 2 ^ 32 ->
  let s' := foldl (fun s t => (apply_descent_trigger s t).1) (clear_and_open_grace s t0) ts in
  (forall now, active_cap s' now = None) /\
  capped_to (apply_descent_trigger s' t).1 = Some (t_new_cap t) /\
  until (apply_descent_trigger s' t).1 = Some (t_now t + t_duration t).
Proof.
  intros Hg [Hms [Hm _]%Forall_cons]%Forall_app Hl Hb. cbn zeta.
  destruct (grace_absorbs_all m ts (clear_and_open_grace s t0) t0 0) as (last & Hu & Hc & Hla & Hn); [done..|lia|].
  split; [intros now; unfold active_cap; by rewrite Hu|].
  destruct (apply_descent_trigger_cases (foldl (fun s t => (apply_descent_trigger s t).1) (clear_and_open_grace s t0) ts) t)
    as [(Hga & _)|(_ & a & _ & _ & _ & Hcap & Hun & _)].
  - unfold grace_gate_active in Hga. rewrite Hn, Hm, !andb_true_iff, Z.ltb_lt in Hga. lia.
  - rewrite Hcap, Hun, Hu. split; [|done]. f_equal. unfold next_cap. by rewrite Hc.
Qed.
