(* ===== verification/UplinkWires.v ===== *)
(** The wires of one uplink
    ([crates/outline-uplink/src/manager/status.rs], [mode_downgrade.rs],
    [active_wire.rs], [failures.rs], [probe/outcome.rs]): which of its wires an
    uplink dials, how far each wire's carrier has descended, and whether the
    uplink counts as healthy.

    A penalty is an [f64] that decays: its type is an argument, its empty value and
    its addition are part of [Env], and the draws of the random generator and the
    tests of a weight are arguments of the operations. Latencies, loss, metrics, logs, the warm-standby pools and the
    probe's cached transports are left out. An operation under the lock of a
    status is one step. *)
From S2P Require Import Prelude UplinkDescent.
Local Open Scope Z_scope.

(** ** Configuration *)
Inductive UplinkTransport : Type := Ss | Vless.
Inductive TransportKind : Type := Tcp | Udp.
(** The fields a fallback wire shares with the uplink itself; of the URLs only
    whether they are set. *)
Record WireConfig : Type := mkWire {
  transport : UplinkTransport;
  tcp_mode : TransportMode;
  udp_mode : TransportMode;
  vless_mode : TransportMode;
  ss_mode : option TransportMode;
  ss_xhttp_url : bool;
  ss_ws_url : bool
}.
Record UplinkConfig : Type := mkUplink {
  primary : WireConfig;
  fallbacks : list WireConfig;
  carrier_downgrade : bool;
  shuffle_wires : bool;
  shuffle_timer : option Z
}.
Definition is_combined_ss (w : WireConfig) : bool :=
  match transport w with Ss => ss_xhttp_url w || ss_ws_url w | Vless => false end.
Definition tcp_dial_mode (w : WireConfig) : TransportMode :=
  match transport w with
  | Vless => vless_mode w
  | Ss => if is_combined_ss w then default (tcp_mode w) (ss_mode w) else tcp_mode w
  end.
Definition udp_dial_mode (w : WireConfig) : TransportMode :=
  match transport w with
  | Vless => vless_mode w
  | Ss => if is_combined_ss w then default (udp_mode w) (ss_mode w) else udp_mode w
  end.
Definition dial_mode (k : TransportKind) (w : WireConfig) : TransportMode :=
  match k with Tcp => tcp_dial_mode w | Udp => udp_dial_mode w end.
(** [matches!(transport, Ss | Vless)] *)
Definition has_carrier_ladder (t : UplinkTransport) : bool := match t with Ss | Vless => true end.

Record LoadBalancingConfig : Type := mkBalancing {
  mode_downgrade_duration : Z;
  failure_cooldown : Z;
  runtime_failure_window : Z;
  chunk0_failure_window : Z;
  health_weighted_selection : bool;
  strict_global : bool
}.
Record ProbeConfig : Type := mkProbe { min_failures : Z; probe_enabled : bool }.
Definition clamped_min_failures (p : ProbeConfig) : Z := Z.max (min_failures p) 1.
Definition total_wires (u : UplinkConfig) : nat := 1 + length (fallbacks u).
Arguments total_wires : simpl never.
Arguments clamped_min_failures : simpl never.

Record ModeDowngradeSlot : Type := mkSlot {
  slot_descent : CarrierDescentState;
  probe_failures : Z;
  probe_successes : Z
}.
Definition slot_default : ModeDowngradeSlot := mkSlot descent_default 0 0.

Inductive ModeDowngradeTrigger : Type :=
  | RuntimeFailure
  | ProbeTransportFailure (attempted : TransportMode)
  | ProbeConnectFailure (attempted : TransportMode)
  | RecoveryReprobeFail
  | SilentTransportFallback (requested : TransportMode).
Definition is_probe_trigger (t : ModeDowngradeTrigger) : bool :=
  match t with ProbeTransportFailure _ | ProbeConnectFailure _ => true | _ => false end.
Definition is_recovery_fail (t : ModeDowngradeTrigger) : bool :=
  match t with RecoveryReprobeFail => true | _ => false end.
Definition carried_mode (t : ModeDowngradeTrigger) : option TransportMode :=
  match t with
  | SilentTransportFallback m | ProbeTransportFailure m | ProbeConnectFailure m => Some m
  | RuntimeFailure | RecoveryReprobeFail => None
  end.

(** [with_status_mut] on one element of a vector that grows on demand. *)
Fixpoint grow_update {A} (d : A) (l : list A) (i : nat) (f : A -> A) : list A :=
  match i, l with
  | O, [] => [f d]
  | O, x :: l => f x :: l
  | S i, [] => d :: grow_update d [] i f
  | S i, x :: l => x :: grow_update d l i f
  end.

(** What a status is kept for: one transport of one uplink, the configuration,
    and the penalties as arguments ([add_penalty] at an instant). *)
Class Env (Penalty : Type) : Type := mkEnv {
  uplink : UplinkConfig;
  kind : TransportKind;
  lb : LoadBalancingConfig;
  probe : ProbeConfig;
  no_penalty : Penalty;
  add_penalty : Penalty -> Z -> Penalty
}.

Section status.
Context {Penalty : Type}.

Record PerTransportStatus : Type := mkStatus {
  healthy : option bool;
  penalty : Penalty;
  cooldown_until : option Z;
  consecutive_failures : Z;
  consecutive_successes : Z;
  consecutive_runtime_failures : Z;
  last_runtime_failure_at : option Z;
  chunk0_consecutive_failures : Z;
  last_chunk0_failure_at : option Z;
  descent : CarrierDescentState;
  fallback_mode_downgrades : list ModeDowngradeSlot;
  wire_penalty : list Penalty;
  last_active : option Z;
  last_probe_wakeup : option Z;
  active_wire : Z;
  active_wire_pinned_until : option Z;
  active_wire_streak : Z;
  last_any_wire_success : option Z;
  wires_failed_in_round : Z;
  downstream_throttle_count : Z;
  last_downstream_throttle_at : option Z;
  reroll_no_live_alt : bool
}.
Definition set_healthy (s : PerTransportStatus) (v : option bool) : PerTransportStatus :=
  mkStatus v (penalty s) (cooldown_until s) (consecutive_failures s) (consecutive_successes s)
    (consecutive_runtime_failures s) (last_runtime_failure_at s) (chunk0_consecutive_failures s)
    (last_chunk0_failure_at s) (descent s) (fallback_mode_downgrades s) (wire_penalty s) (last_active s)
    (last_probe_wakeup s) (active_wire s) (active_wire_pinned_until s) (active_wire_streak s)
    (last_any_wire_success s) (wires_failed_in_round s) (downstream_throttle_count s)
    (last_downstream_throttle_at s) (reroll_no_live_alt s).
Definition set_penalty (s : PerTransportStatus) (v : Penalty) : PerTransportStatus :=
  mkStatus (healthy s) v (cooldown_until s) (consecutive_failures s) (consecutive_successes s)
    (consecutive_runtime_failures s) (last_runtime_failure_at s) (chunk0_consecutive_failures s)
    (last_chunk0_failure_at s) (descent s) (fallback_mode_downgrades s) (wire_penalty s) (last_active s)
    (last_probe_wakeup s) (active_wire s) (active_wire_pinned_until s) (active_wire_streak s)
    (last_any_wire_success s) (wires_failed_in_round s) (downstream_throttle_count s)
    (last_downstream_throttle_at s) (reroll_no_live_alt s).
Definition set_cooldown_until (s : PerTransportStatus) (v : option Z) : PerTransportStatus :=
  mkStatus (healthy s) (penalty s) v (consecutive_failures s) (consecutive_successes s)
    (consecutive_runtime_failures s) (last_runtime_failure_at s) (chunk0_consecutive_failures s)
    (last_chunk0_failure_at s) (descent s) (fallback_mode_downgrades s) (wire_penalty s) (last_active s)
    (last_probe_wakeup s) (active_wire s) (active_wire_pinned_until s) (active_wire_streak s)
    (last_any_wire_success s) (wires_failed_in_round s) (downstream_throttle_count s)
    (last_downstream_throttle_at s) (reroll_no_live_alt s).
Definition set_consecutive_failures (s : PerTransportStatus) (v : Z) : PerTransportStatus :=
  mkStatus (healthy s) (penalty s) (cooldown_until s) v (consecutive_successes s)
    (consecutive_runtime_failures s) (last_runtime_failure_at s) (chunk0_consecutive_failures s)
    (last_chunk0_failure_at s) (descent s) (fallback_mode_downgrades s) (wire_penalty s) (last_active s)
    (last_probe_wakeup s) (active_wire s) (active_wire_pinned_until s) (active_wire_streak s)
    (last_any_wire_success s) (wires_failed_in_round s) (downstream_throttle_count s)
    (last_downstream_throttle_at s) (reroll_no_live_alt s).
Definition set_consecutive_successes (s : PerTransportStatus) (v : Z) : PerTransportStatus :=
  mkStatus (healthy s) (penalty s) (cooldown_until s) (consecutive_failures s) v (consecutive_runtime_failures s)
    (last_runtime_failure_at s) (chunk0_consecutive_failures s) (last_chunk0_failure_at s) (descent s)
    (fallback_mode_downgrades s) (wire_penalty s) (last_active s) (last_probe_wakeup s) (active_wire s)
    (active_wire_pinned_until s) (active_wire_streak s) (last_any_wire_success s) (wires_failed_in_round s)
    (downstream_throttle_count s) (last_downstream_throttle_at s) (reroll_no_live_alt s).
Definition set_consecutive_runtime_failures (s : PerTransportStatus) (v : Z) : PerTransportStatus :=
  mkStatus (healthy s) (penalty s) (cooldown_until s) (consecutive_failures s) (consecutive_successes s) v
    (last_runtime_failure_at s) (chunk0_consecutive_failures s) (last_chunk0_failure_at s) (descent s)
    (fallback_mode_downgrades s) (wire_penalty s) (last_active s) (last_probe_wakeup s) (active_wire s)
    (active_wire_pinned_until s) (active_wire_streak s) (last_any_wire_success s) (wires_failed_in_round s)
    (downstream_throttle_count s) (last_downstream_throttle_at s) (reroll_no_live_alt s).
Definition set_last_runtime_failure_at (s : PerTransportStatus) (v : option Z) : PerTransportStatus :=
  mkStatus (healthy s) (penalty s) (cooldown_until s) (consecutive_failures s) (consecutive_successes s)
    (consecutive_runtime_failures s) v (chunk0_consecutive_failures s) (last_chunk0_failure_at s) (descent s)
    (fallback_mode_downgrades s) (wire_penalty s) (last_active s) (last_probe_wakeup s) (active_wire s)
    (active_wire_pinned_until s) (active_wire_streak s) (last_any_wire_success s) (wires_failed_in_round s)
    (downstream_throttle_count s) (last_downstream_throttle_at s) (reroll_no_live_alt s).
Definition set_chunk0_consecutive_failures (s : PerTransportStatus) (v : Z) : PerTransportStatus :=
  mkStatus (healthy s) (penalty s) (cooldown_until s) (consecutive_failures s) (consecutive_successes s)
    (consecutive_runtime_failures s) (last_runtime_failure_at s) v (last_chunk0_failure_at s) (descent s)
    (fallback_mode_downgrades s) (wire_penalty s) (last_active s) (last_probe_wakeup s) (active_wire s)
    (active_wire_pinned_until s) (active_wire_streak s) (last_any_wire_success s) (wires_failed_in_round s)
    (downstream_throttle_count s) (last_downstream_throttle_at s) (reroll_no_live_alt s).
Definition set_last_chunk0_failure_at (s : PerTransportStatus) (v : option Z) : PerTransportStatus :=
  mkStatus (healthy s) (penalty s) (cooldown_until s) (consecutive_failures s) (consecutive_successes s)
    (consecutive_runtime_failures s) (last_runtime_failure_at s) (chunk0_consecutive_failures s) v (descent s)
    (fallback_mode_downgrades s) (wire_penalty s) (last_active s) (last_probe_wakeup s) (active_wire s)
    (active_wire_pinned_until s) (active_wire_streak s) (last_any_wire_success s) (wires_failed_in_round s)
    (downstream_throttle_count s) (last_downstream_throttle_at s) (reroll_no_live_alt s).
Definition set_descent (s : PerTransportStatus) (v : CarrierDescentState) : PerTransportStatus :=
  mkStatus (healthy s) (penalty s) (cooldown_until s) (consecutive_failures s) (consecutive_successes s)
    (consecutive_runtime_failures s) (last_runtime_failure_at s) (chunk0_consecutive_failures s)
    (last_chunk0_failure_at s) v (fallback_mode_downgrades s) (wire_penalty s) (last_active s)
    (last_probe_wakeup s) (active_wire s) (active_wire_pinned_until s) (active_wire_streak s)
    (last_any_wire_success s) (wires_failed_in_round s) (downstream_throttle_count s)
    (last_downstream_throttle_at s) (reroll_no_live_alt s).
Definition set_fallback_mode_downgrades (s : PerTransportStatus) (v : list ModeDowngradeSlot) : PerTransportStatus :=
  mkStatus (healthy s) (penalty s) (cooldown_until s) (consecutive_failures s) (consecutive_successes s)
    (consecutive_runtime_failures s) (last_runtime_failure_at s) (chunk0_consecutive_failures s)
    (last_chunk0_failure_at s) (descent s) v (wire_penalty s) (last_active s) (last_probe_wakeup s)
    (active_wire s) (active_wire_pinned_until s) (active_wire_streak s) (last_any_wire_success s)
    (wires_failed_in_round s) (downstream_throttle_count s) (last_downstream_throttle_at s)
    (reroll_no_live_alt s).
Definition set_wire_penalty (s : PerTransportStatus) (v : list Penalty) : PerTransportStatus :=
  mkStatus (healthy s) (penalty s) (cooldown_until s) (consecutive_failures s) (consecutive_successes s)
    (consecutive_runtime_failures s) (last_runtime_failure_at s) (chunk0_consecutive_failures s)
    (last_chunk0_failure_at s) (descent s) (fallback_mode_downgrades s) v (last_active s) (last_probe_wakeup s)
    (active_wire s) (active_wire_pinned_until s) (active_wire_streak s) (last_any_wire_success s)
    (wires_failed_in_round s) (downstream_throttle_count s) (last_downstream_throttle_at s)
    (reroll_no_live_alt s).
Definition set_last_active (s : PerTransportStatus) (v : option Z) : PerTransportStatus :=
  mkStatus (healthy s) (penalty s) (cooldown_until s) (consecutive_failures s) (consecutive_successes s)
    (consecutive_runtime_failures s) (last_runtime_failure_at s) (chunk0_consecutive_failures s)
    (last_chunk0_failure_at s) (descent s) (fallback_mode_downgrades s) (wire_penalty s) v (last_probe_wakeup s)
    (active_wire s) (active_wire_pinned_until s) (active_wire_streak s) (last_any_wire_success s)
    (wires_failed_in_round s) (downstream_throttle_count s) (last_downstream_throttle_at s)
    (reroll_no_live_alt s).
Definition set_last_probe_wakeup (s : PerTransportStatus) (v : option Z) : PerTransportStatus :=
  mkStatus (healthy s) (penalty s) (cooldown_until s) (consecutive_failures s) (consecutive_successes s)
    (consecutive_runtime_failures s) (last_runtime_failure_at s) (chunk0_consecutive_failures s)
    (last_chunk0_failure_at s) (descent s) (fallback_mode_downgrades s) (wire_penalty s) (last_active s) v
    (active_wire s) (active_wire_pinned_until s) (active_wire_streak s) (last_any_wire_success s)
    (wires_failed_in_round s) (downstream_throttle_count s) (last_downstream_throttle_at s)
    (reroll_no_live_alt s).
Definition set_active_wire (s : PerTransportStatus) (v : Z) : PerTransportStatus :=
  mkStatus (healthy s) (penalty s) (cooldown_until s) (consecutive_failures s) (consecutive_successes s)
    (consecutive_runtime_failures s) (last_runtime_failure_at s) (chunk0_consecutive_failures s)
    (last_chunk0_failure_at s) (descent s) (fallback_mode_downgrades s) (wire_penalty s) (last_active s)
    (last_probe_wakeup s) v (active_wire_pinned_until s) (active_wire_streak s) (last_any_wire_success s)
    (wires_failed_in_round s) (downstream_throttle_count s) (last_downstream_throttle_at s)
    (reroll_no_live_alt s).
Definition set_active_wire_pinned_until (s : PerTransportStatus) (v : option Z) : PerTransportStatus :=
  mkStatus (healthy s) (penalty s) (cooldown_until s) (consecutive_failures s) (consecutive_successes s)
    (consecutive_runtime_failures s) (last_runtime_failure_at s) (chunk0_consecutive_failures s)
    (last_chunk0_failure_at s) (descent s) (fallback_mode_downgrades s) (wire_penalty s) (last_active s)
    (last_probe_wakeup s) (active_wire s) v (active_wire_streak s) (last_any_wire_success s)
    (wires_failed_in_round s) (downstream_throttle_count s) (last_downstream_throttle_at s)
    (reroll_no_live_alt s).
Definition set_active_wire_streak (s : PerTransportStatus) (v : Z) : PerTransportStatus :=
  mkStatus (healthy s) (penalty s) (cooldown_until s) (consecutive_failures s) (consecutive_successes s)
    (consecutive_runtime_failures s) (last_runtime_failure_at s) (chunk0_consecutive_failures s)
    (last_chunk0_failure_at s) (descent s) (fallback_mode_downgrades s) (wire_penalty s) (last_active s)
    (last_probe_wakeup s) (active_wire s) (active_wire_pinned_until s) v (last_any_wire_success s)
    (wires_failed_in_round s) (downstream_throttle_count s) (last_downstream_throttle_at s)
    (reroll_no_live_alt s).
Definition set_last_any_wire_success (s : PerTransportStatus) (v : option Z) : PerTransportStatus :=
  mkStatus (healthy s) (penalty s) (cooldown_until s) (consecutive_failures s) (consecutive_successes s)
    (consecutive_runtime_failures s) (last_runtime_failure_at s) (chunk0_consecutive_failures s)
    (last_chunk0_failure_at s) (descent s) (fallback_mode_downgrades s) (wire_penalty s) (last_active s)
    (last_probe_wakeup s) (active_wire s) (active_wire_pinned_until s) (active_wire_streak s) v
    (wires_failed_in_round s) (downstream_throttle_count s) (last_downstream_throttle_at s)
    (reroll_no_live_alt s).
Definition set_wires_failed_in_round (s : PerTransportStatus) (v : Z) : PerTransportStatus :=
  mkStatus (healthy s) (penalty s) (cooldown_until s) (consecutive_failures s) (consecutive_successes s)
    (consecutive_runtime_failures s) (last_runtime_failure_at s) (chunk0_consecutive_failures s)
    (last_chunk0_failure_at s) (descent s) (fallback_mode_downgrades s) (wire_penalty s) (last_active s)
    (last_probe_wakeup s) (active_wire s) (active_wire_pinned_until s) (active_wire_streak s)
    (last_any_wire_success s) v (downstream_throttle_count s) (last_downstream_throttle_at s)
    (reroll_no_live_alt s).
Definition set_downstream_throttle_count (s : PerTransportStatus) (v : Z) : PerTransportStatus :=
  mkStatus (healthy s) (penalty s) (cooldown_until s) (consecutive_failures s) (consecutive_successes s)
    (consecutive_runtime_failures s) (last_runtime_failure_at s) (chunk0_consecutive_failures s)
    (last_chunk0_failure_at s) (descent s) (fallback_mode_downgrades s) (wire_penalty s) (last_active s)
    (last_probe_wakeup s) (active_wire s) (active_wire_pinned_until s) (active_wire_streak s)
    (last_any_wire_success s) (wires_failed_in_round s) v (last_downstream_throttle_at s) (reroll_no_live_alt s).
Definition set_last_downstream_throttle_at (s : PerTransportStatus) (v : option Z) : PerTransportStatus :=
  mkStatus (healthy s) (penalty s) (cooldown_until s) (consecutive_failures s) (consecutive_successes s)
    (consecutive_runtime_failures s) (last_runtime_failure_at s) (chunk0_consecutive_failures s)
    (last_chunk0_failure_at s) (descent s) (fallback_mode_downgrades s) (wire_penalty s) (last_active s)
    (last_probe_wakeup s) (active_wire s) (active_wire_pinned_until s) (active_wire_streak s)
    (last_any_wire_success s) (wires_failed_in_round s) (downstream_throttle_count s) v (reroll_no_live_alt s).
Definition set_reroll_no_live_alt (s : PerTransportStatus) (v : bool) : PerTransportStatus :=
  mkStatus (healthy s) (penalty s) (cooldown_until s) (consecutive_failures s) (consecutive_successes s)
    (consecutive_runtime_failures s) (last_runtime_failure_at s) (chunk0_consecutive_failures s)
    (last_chunk0_failure_at s) (descent s) (fallback_mode_downgrades s) (wire_penalty s) (last_active s)
    (last_probe_wakeup s) (active_wire s) (active_wire_pinned_until s) (active_wire_streak s)
    (last_any_wire_success s) (wires_failed_in_round s) (downstream_throttle_count s)
    (last_downstream_throttle_at s) v.
Context `{env : Env Penalty}.
Definition status_default : PerTransportStatus :=
  mkStatus None no_penalty None 0 0 0 None 0 None descent_default [] [] None None 0 None 0 None 0 0 None false.

(** ** Modes in force *)
Definition capped_or_configured (s : PerTransportStatus) (configured : TransportMode) (now : Z) : TransportMode :=
  default configured (active_cap (descent s) now).
Definition wire_capped_or_configured (s : PerTransportStatus) (slot_idx : nat) (configured : TransportMode) (now : Z)
    : TransportMode :=
  match fallback_mode_downgrades s !! slot_idx with
  | None => configured
  | Some slot => default configured (active_cap (slot_descent slot) now)
  end.
Definition effective_mode (s : PerTransportStatus) (now : Z) : TransportMode :=
  let configured := dial_mode kind (primary uplink) in
  if negb (has_carrier_ladder (transport (primary uplink))) then configured
  else capped_or_configured s configured now.
Definition effective_mode_for_wire (s : PerTransportStatus) (wire_index : nat) (now : Z) : TransportMode :=
  match wire_index with
  | O => effective_mode s now
  | S slot_idx =>
    match fallbacks uplink !! slot_idx with
    | None => dial_mode kind (primary uplink)
    | Some fallback =>
      let configured := dial_mode kind fallback in
      if negb (has_carrier_ladder (transport fallback)) then configured
      else wire_capped_or_configured s slot_idx configured now
    end
  end.
Definition wire_is_at_carrier_floor (s : PerTransportStatus) (wire_index : nat) (now : Z) : bool :=
  if negb (carrier_downgrade uplink) then true
  else
    match wire_index with
    | O =>
      if negb (has_carrier_ladder (transport (primary uplink))) then true
      else is_carrier_floor_mode (default (dial_mode kind (primary uplink)) (active_cap (descent s) now))
    | S slot_idx =>
      match fallbacks uplink !! slot_idx with
      | None => true
      | Some fallback =>
        if negb (has_carrier_ladder (transport fallback)) then true
        else is_carrier_floor_mode (wire_capped_or_configured s slot_idx (dial_mode kind fallback) now)
      end
    end.

(** ** Descent *)
(** The guards both [extend_mode_downgrade]s share: the cap one step below the
    failed mode, if it is below the configured one in its family. *)
Definition descent_cap (configured failed : TransportMode) : option TransportMode :=
  new_cap ← one_step_down failed;
  if negb (bool_decide (family new_cap = family configured)) || (rank configured <=? rank new_cap) then None
  else Some new_cap.
Definition extend_mode_downgrade (s : PerTransportStatus) (trigger : ModeDowngradeTrigger) (now : Z)
    : PerTransportStatus :=
  if negb (has_carrier_ladder (transport (primary uplink))) then s
  else if negb (carrier_downgrade uplink) then s
  else
    let configured := dial_mode kind (primary uplink) in
    let failed := default configured (carried_mode trigger) in
    match descent_cap configured failed with
    | None => s
    | Some new_cap =>
      let (d, decision) :=
        apply_descent_trigger (descent s)
          (mkTrigger now (mode_downgrade_duration lb) new_cap failed (is_probe_trigger trigger) (is_recovery_fail trigger)
             (clamped_min_failures probe) (consecutive_failures s)) in
      let s := set_descent s d in
      match decision with
      | Applied a => if cap_changed a then set_consecutive_successes s 0 else s
      | AbsorbedByGrace => s
      end
    end.
Definition extend_slot (slot : ModeDowngradeSlot) (configured : TransportMode) (trigger : ModeDowngradeTrigger) (now : Z)
    : ModeDowngradeSlot :=
  let failed := default (default configured (active_cap (slot_descent slot) now)) (carried_mode trigger) in
  match descent_cap configured failed with
  | None => slot
  | Some new_cap =>
    let (d, decision) :=
      apply_descent_trigger (slot_descent slot)
        (mkTrigger now (mode_downgrade_duration lb) new_cap failed (is_probe_trigger trigger) (is_recovery_fail trigger)
           (clamped_min_failures probe) (probe_failures slot)) in
    match decision with
    | Applied a => mkSlot d (probe_failures slot) (if cap_changed a then 0 else probe_successes slot)
    | AbsorbedByGrace => mkSlot d (probe_failures slot) (probe_successes slot)
    end
  end.
Definition extend_mode_downgrade_for_wire (s : PerTransportStatus) (wire_index : nat) (trigger : ModeDowngradeTrigger)
    (now : Z) : PerTransportStatus :=
  match wire_index with
  | O => extend_mode_downgrade s trigger now
  | S slot_idx =>
    if negb (carrier_downgrade uplink) then s
    else
      match fallbacks uplink !! slot_idx with
      | None => s
      | Some fallback =>
        if negb (has_carrier_ladder (transport fallback)) then s
        else
          set_fallback_mode_downgrades s
            (grow_update slot_default (fallback_mode_downgrades s) slot_idx
               (fun slot => extend_slot slot (dial_mode kind fallback) trigger now))
      end
  end.

Definition walk_up_mode_downgrade (s : PerTransportStatus) (now : Z) : PerTransportStatus :=
  if negb (has_carrier_ladder (transport (primary uplink))) then s
  else
    let (d, outcome) :=
      walk_up (descent s) now (mode_downgrade_duration lb) (dial_mode kind (primary uplink))
        (clamped_min_failures probe) (consecutive_successes s) in
    let s := set_descent s d in
    match outcome with NoOp => s | _ => set_consecutive_successes s 0 end.
Definition walk_up_slot (slot : ModeDowngradeSlot) (configured : TransportMode) (now : Z) : ModeDowngradeSlot :=
  let (d, outcome) :=
    walk_up (slot_descent slot) now (mode_downgrade_duration lb) configured (clamped_min_failures probe)
      (probe_successes slot) in
  mkSlot d (probe_failures slot) (match outcome with NoOp => probe_successes slot | _ => 0 end).
Definition walk_up_mode_downgrade_for_wire (s : PerTransportStatus) (wire_index : nat) (now : Z) : PerTransportStatus :=
  match wire_index with
  | O => walk_up_mode_downgrade s now
  | S slot_idx =>
    match fallbacks uplink !! slot_idx, fallback_mode_downgrades s !! slot_idx with
    | Some fallback, Some slot =>
      set_fallback_mode_downgrades s
        (<[slot_idx := walk_up_slot slot (dial_mode kind fallback) now]> (fallback_mode_downgrades s))
    | _, _ => s
    end
  end.
Definition clear_mode_downgrade (s : PerTransportStatus) (now : Z) : PerTransportStatus :=
  set_descent s (clear_and_open_grace (descent s) now).
Definition RECOVERY_SUCCESS_STREAK_THRESHOLD : Z := 2.
Definition note_recovery_probe_success (s : PerTransportStatus) (now : Z) : PerTransportStatus :=
  let (d, new_streak) := note_recovery_success_streak (descent s) in
  let s := set_descent s d in
  if (RECOVERY_SUCCESS_STREAK_THRESHOLD <=? new_streak) && negb (shuffle_wires uplink) then clear_mode_downgrade s now
  else s.

(** ** The active wire *)
(** The read of the active wire, which lets an expired pin go. *)
Definition active_wire_now (s : PerTransportStatus) (now : Z) : PerTransportStatus * Z :=
  let s :=
    match active_wire_pinned_until s with
    | Some until => if until <=? now then set_active_wire_streak (set_active_wire_pinned_until s None) 0 else s
    | None => s
    end in
  (s, active_wire s).

(** The first position of a wire in an order. *)
Fixpoint position (w : Z) (l : list Z) : option nat :=
  match l with
  | [] => None
  | x :: l => if x =? w then Some 0%nat else S <$> position w l
  end.
(** [order[..=pos].rotate_right(1)] *)
Definition move_to_front (pos : nat) (l : list Z) : list Z :=
  match l !! pos with Some x => x :: take pos l ++ drop (S pos) l | None => l end.
(** [permuted]: the weighted permutation drawn; [unpenalised]: the test
    [weight >= 1] of a wire. *)
Definition wire_dial_order (s : PerTransportStatus) (permuted : list Z) (unpenalised : Z -> bool) (now : Z)
    : PerTransportStatus * list Z :=
  let total := total_wires uplink in
  if (total <=? 1)%nat then (s, [0])
  else if health_weighted_selection lb then
    let (s, active) := active_wire_now s now in
    let active_unpenalised := (Z.to_nat active <? total)%nat && unpenalised active in
    (s, if active_unpenalised then
          match position active permuted with Some pos => move_to_front pos permuted | None => permuted end
        else permuted)
  else
    let (s, active) := active_wire_now s now in
    let active := Nat.min (Z.to_nat active) (total - 1) in
    (s, map (fun offset => Z.of_nat ((active + offset) mod total)) (seq 0 total)).

Definition add_wire_penalty (s : PerTransportStatus) (wire now : Z) : PerTransportStatus :=
  set_wire_penalty s (grow_update no_penalty (wire_penalty s) (Z.to_nat wire) (fun p => add_penalty p now)).
(** The round of [shuffle_wires]: one more of its wires has failed. *)
Definition count_round (s : PerTransportStatus) (total now : Z) : PerTransportStatus :=
  let s := set_consecutive_failures s 0 in
  let s := set_consecutive_runtime_failures s 0 in
  let s := set_wires_failed_in_round s (saturating_inc (wires_failed_in_round s)) in
  if total <=? wires_failed_in_round s then
    let s := set_wires_failed_in_round s 0 in
    let s := set_healthy s (Some false) in
    set_cooldown_until s (Some (now + failure_cooldown lb))
  else s.
(** [total_wires as u8]; the remainder by zero that 256 wires would panic on is
    the remainder of [Z]. *)
Definition record_wire_outcome (s : PerTransportStatus) (attempted_wire : Z) (success : bool) (total : Z) (now : Z)
    : PerTransportStatus :=
  if total <=? 1 then s
  else if success then
    if attempted_wire =? active_wire s then set_active_wire_streak s 0 else s
  else
    let s := add_wire_penalty s attempted_wire now in
    if negb (attempted_wire =? active_wire s) then s
    else
      let s := set_active_wire_streak s (saturating_inc (active_wire_streak s)) in
      if active_wire_streak s <? clamped_min_failures probe then s
      else if shuffle_wires uplink && negb (wire_is_at_carrier_floor s (Z.to_nat attempted_wire) now) then
        set_active_wire_streak s 0
      else
        let next := (active_wire s + 1) mod (total mod 256) in
        let s := set_active_wire s next in
        let s := set_active_wire_streak s 0 in
        let s := set_active_wire_pinned_until s (if next =? 0 then None else Some (now + mode_downgrade_duration lb)) in
        if shuffle_wires uplink then count_round s total now else s.

Definition mark_wire_data_proven (s : PerTransportStatus) (now : Z) : PerTransportStatus :=
  let s := set_last_any_wire_success s (Some now) in
  let s := set_active_wire_streak s 0 in
  let s := set_wires_failed_in_round s 0 in
  set_wire_penalty s (grow_update no_penalty (wire_penalty s) (Z.to_nat (active_wire s)) (fun _ => no_penalty)).

(** [above_floor]: whether a wire's weight exceeds the floor; [draw] picks a
    position among that many candidates. *)
Definition draw_reroll_wire (above_floor : Z -> bool) (total active : Z) (floor_discriminates : bool) (draw : nat -> nat)
    : option Z :=
  let candidates :=
    filter (fun idx => negb (idx =? active) && (negb floor_discriminates || above_floor idx) = true)
      (map Z.of_nat (seq 0 (Z.to_nat total))) in
  match candidates with [] => None | _ => candidates !! draw (length candidates) end.
Definition move_to_wire (s : PerTransportStatus) (new_wire now : Z) : PerTransportStatus :=
  let recently_proven :=
    negb (runtime_failure_window lb =? 0) && within (last_any_wire_success s) now (runtime_failure_window lb) in
  let s := set_active_wire s new_wire in
  let s :=
    if recently_proven then
      let s := set_active_wire_streak s 0 in
      let s := set_wires_failed_in_round s 0 in
      let s := set_consecutive_failures s 0 in
      let s := set_consecutive_runtime_failures s 0 in
      let s := set_chunk0_consecutive_failures s 0 in
      let s := set_descent s (reset_window_for_wire_change (descent s)) in
      set_fallback_mode_downgrades s []
    else s in
  set_active_wire_pinned_until s (if new_wire =? 0 then None else Some (now + mode_downgrade_duration lb)).
(** One transport's half of [rotate_active_wire]. *)
Definition reroll (s : PerTransportStatus) (above_floor : Z -> bool) (floor_discriminates : bool) (draw : nat -> nat)
    (now : Z) : PerTransportStatus * option Z :=
  if (total_wires uplink <=? 1)%nat then (s, None)
  else
    let total := Z.of_nat (total_wires uplink) mod 256 in
    let pick := draw_reroll_wire above_floor total (active_wire s) floor_discriminates draw in
    let s := set_reroll_no_live_alt s (match pick with None => true | Some _ => false end) in
    (match pick with Some new_wire => move_to_wire s new_wire now | None => s end, pick).

(** ** The probe's verdicts *)
Definition round_active (s : PerTransportStatus) : bool :=
  shuffle_wires uplink && (1 <? total_wires uplink)%nat && (wires_failed_in_round s <? Z.of_nat (total_wires uplink)).
Definition record_transport_failure (s : PerTransportStatus) (now : Z) : PerTransportStatus :=
  let s := set_consecutive_successes s 0 in
  let s := set_consecutive_failures s (saturating_inc (consecutive_failures s)) in
  if (min_failures probe <=? consecutive_failures s) && negb (round_active s) then
    set_penalty (set_healthy s (Some false)) (add_penalty (penalty s) now)
  else s.
Definition should_skip_primary_probe_escalation (s : PerTransportStatus) (now : Z) : bool :=
  if active_wire s =? 0 then false
  else if runtime_failure_window lb =? 0 then false
  else within (last_any_wire_success s) now (runtime_failure_window lb).
Definition advance_active_wire_on_probe_failure (s : PerTransportStatus) (now : Z) : PerTransportStatus * bool :=
  if (total_wires uplink <=? 1)%nat then (s, false)
  else
    let s := (active_wire_now s now).1 in
    if negb (active_wire s =? 0) then (s, false)
    else if consecutive_failures s <? clamped_min_failures probe then (s, false)
    else if shuffle_wires uplink && negb (wire_is_at_carrier_floor s 0 now) then (s, false)
    else
      let s := set_active_wire s 1 in
      let s := set_active_wire_pinned_until s (Some (now + mode_downgrade_duration lb)) in
      let s := set_active_wire_streak s 0 in
      (if shuffle_wires uplink then count_round s (Z.of_nat (total_wires uplink)) now else s, true).
Definition record_transport_success (s : PerTransportStatus) (now : Z) : PerTransportStatus :=
  let s := set_consecutive_failures s 0 in
  let s := set_consecutive_successes s (saturating_inc (consecutive_successes s)) in
  if negb (runtime_failure_window lb =? 0) && within (last_runtime_failure_at s) now (runtime_failure_window lb) then s
  else
    let s := set_healthy s (Some true) in
    let s := set_consecutive_runtime_failures s 0 in
    let s := set_wires_failed_in_round s 0 in
    let s := set_cooldown_until s None in
    let s := set_descent s (renew_grace_if_active (descent s) now (mode_downgrade_duration lb * 2)) in
    if bool_decide (shuffle_timer uplink = None) && negb (active_wire s =? 0)
       && (clamped_min_failures probe <=? consecutive_successes s)
    then set_active_wire_streak (set_active_wire_pinned_until (set_active_wire s 0) None) 0
    else s.
Definition needs_carrier_recovery (s : PerTransportStatus) (effective : TransportMode) (now : Z) : bool :=
  if negb (window_active (descent s) now) then false
  else if recovery_cooldown_active (descent s) now then false
  else
    match transport (primary uplink), dial_mode kind (primary uplink) with
    | Ss, WsH3 => match effective with WsH2 | WsH1 => true | _ => false end
    | Ss, WsH2 => bool_decide (effective = WsH1)
    | Vless, XhttpH3 => match effective with XhttpH2 | XhttpH1 => true | _ => false end
    | Vless, XhttpH2 => bool_decide (effective = XhttpH1)
    | _, _ => false
    end.

(** What one probe found of one transport. *)
Record ProbeVerdict : Type := mkVerdict {
  applicable : bool;
  ok : bool;
  carrier_ok : bool;
  downgraded_from : option TransportMode
}.
(** One transport's part of [process_probe_ok]; the second component is the
    request for a recovery probe. *)
Definition process_probe_ok (s : PerTransportStatus) (v : ProbeVerdict) (effective : TransportMode) (now : Z)
    : PerTransportStatus * bool :=
  let skip := should_skip_primary_probe_escalation s now in
  let s :=
    if negb (applicable v) then s
    else if negb (ok v) then
      if negb skip then (advance_active_wire_on_probe_failure (record_transport_failure s now) now).1 else s
    else record_transport_success s now in
  let s := if applicable v && carrier_ok v then walk_up_mode_downgrade s now else s in
  let recovery := applicable v && carrier_ok v && needs_carrier_recovery s effective now in
  let s :=
    if applicable v && negb (carrier_ok v) && negb skip
    then extend_mode_downgrade s (ProbeTransportFailure effective) now else s in
  let s :=
    match downgraded_from v with
    | Some requested => extend_mode_downgrade s (SilentTransportFallback requested) now
    | None => s
    end in
  (s, recovery).
(** One transport's part of [process_probe_err]. *)
Definition process_probe_err (s : PerTransportStatus) (supported : bool) (effective : TransportMode) (now : Z)
    : PerTransportStatus :=
  let skip := should_skip_primary_probe_escalation s now in
  if supported && negb skip then
    let s := (advance_active_wire_on_probe_failure (record_transport_failure s now) now).1 in
    extend_mode_downgrade s (ProbeConnectFailure effective) now
  else s.

(** ** Failures of real traffic *)
(** What the classification of an error says about it. *)
Record FailureClass : Type := mkFailure {
  payload_integrity : bool;
  downstream_throttle : bool;
  try_again : bool;
  chunk0_timeout : bool
}.
Definition PROBE_WAKEUP_MIN_INTERVAL : Z := 15.
Definition mark_probe_wakeup (last_wakeup : option Z) (now min_interval : Z) : option Z * bool :=
  if within last_wakeup now min_interval then (last_wakeup, false) else (Some now, true).
(** [now.saturating_duration_since(t) > window] *)
Definition stale_since (o : option Z) (now w : Z) : bool :=
  match o with Some t => w <? duration_since now t | None => false end.
Definition charge_runtime_failure (s : PerTransportStatus) (f : FailureClass) (now : Z) : PerTransportStatus :=
  let already_in_cooldown := later_than (cooldown_until s) now in
  let escalation := probe_enabled probe && strict_global lb in
  let threshold := clamped_min_failures probe in
  let s :=
    if downstream_throttle f then
      set_last_downstream_throttle_at
        (set_downstream_throttle_count s (Z.min (downstream_throttle_count s + 1) (2 ^ 64 - 1))) (Some now)
    else s in
  let s :=
    if negb already_in_cooldown && negb (try_again f) then
      let s := if negb (probe_enabled probe) then set_penalty s (add_penalty (penalty s) now) else s in
      set_cooldown_until s (Some (now + failure_cooldown lb))
    else s in
  let s := if negb (probe_enabled probe) then set_healthy s (Some false) else s in
  let stale_streak :=
    negb (runtime_failure_window lb =? 0) && stale_since (last_runtime_failure_at s) now (runtime_failure_window lb) in
  let s :=
    set_consecutive_runtime_failures s (if stale_streak then 1 else saturating_inc (consecutive_runtime_failures s)) in
  let s := set_last_runtime_failure_at s (Some now) in
  let round := round_active s in
  let s :=
    if escalation && (threshold <=? consecutive_runtime_failures s) && negb round then set_healthy s (Some false) else s in
  let s :=
    match kind with
    | Tcp =>
      if chunk0_timeout f && negb (chunk0_failure_window lb =? 0) then
        let stale_chunk0 := stale_since (last_chunk0_failure_at s) now (chunk0_failure_window lb) in
        let s :=
          set_chunk0_consecutive_failures s (if stale_chunk0 then 1 else saturating_inc (chunk0_consecutive_failures s)) in
        let s := set_last_chunk0_failure_at s (Some now) in
        if escalation && (threshold <=? chunk0_consecutive_failures s) && negb round then set_healthy s (Some false) else s
      else s
    | Udp => s
    end in
  if probe_enabled probe && negb already_in_cooldown
  then set_last_probe_wakeup s (mark_probe_wakeup (last_probe_wakeup s) now PROBE_WAKEUP_MIN_INTERVAL).1
  else s.
(** The descent of the wire a failure is attributed to. *)
Definition descend_on_failure (s : PerTransportStatus) (attempted_wire : option Z) (now : Z) : PerTransportStatus :=
  match attempted_wire with
  | Some wire =>
    if (1 <? total_wires uplink)%nat then extend_mode_downgrade_for_wire s (Z.to_nat wire) RuntimeFailure now
    else extend_mode_downgrade s RuntimeFailure now
  | None => extend_mode_downgrade s RuntimeFailure now
  end.
(** The failure once it is known to be one of the active wire's. *)
Definition attributed_failure (s : PerTransportStatus) (attempted_wire : option Z) (f : FailureClass) (now : Z)
    : PerTransportStatus :=
  if payload_integrity f then s
  else
    let s := charge_runtime_failure s f now in
    let s := if try_again f then s else descend_on_failure s attempted_wire now in
    if shuffle_wires uplink && (1 <? total_wires uplink)%nat then
      let (s, active) := active_wire_now s now in
      record_wire_outcome s (default active attempted_wire) false (Z.of_nat (total_wires uplink)) now
    else s.
Definition report_runtime_failure (s : PerTransportStatus) (attempted_wire : option Z) (f : FailureClass) (now : Z)
    : PerTransportStatus :=
  match attempted_wire with
  | Some wire =>
    if (1 <? total_wires uplink)%nat then
      let (s, active) := active_wire_now s now in
      if negb (wire =? active) then s else attributed_failure s attempted_wire f now
    else attributed_failure s attempted_wire f now
  | None => attributed_failure s attempted_wire f now
  end.

Inductive LivenessScope : Type := Session | Delivery.
Definition LIVENESS_INTERVAL : Z := 5.
Definition report_liveness (s : PerTransportStatus) (scope : LivenessScope) (now : Z) : PerTransportStatus :=
  let needs_repair := bool_decide (healthy s = Some false) in
  if negb needs_repair && within (last_active s) now LIVENESS_INTERVAL then s
  else
    let s := set_last_active s (Some now) in
    match scope with
    | Session =>
      let s := set_consecutive_runtime_failures s 0 in
      let s := match kind with Tcp => set_chunk0_consecutive_failures s 0 | Udp => s end in
      if negb (probe_enabled probe) then
        set_cooldown_until (set_consecutive_failures (set_healthy s (Some true)) 0) None
      else s
    | Delivery => if negb (probe_enabled probe) then set_healthy s (Some true) else s
    end.
Definition report_upstream_close (s : PerTransportStatus) (now : Z) : PerTransportStatus :=
  if within (last_active s) now (failure_cooldown lb) then s else set_last_active s None.
End status.
Arguments PerTransportStatus : clear implicits.
