(* ===== verification/UplinkProbe.v ===== *)
(** The probes of the fallback wires and of the endpoints
    ([crates/outline-uplink/src/manager/probe/wire.rs], [endpoint.rs],
    [h3_recovery.rs]), and the operations on one transport's status as steps. *)
From S2P Require Import Prelude UplinkDescent UplinkWires.
Local Open Scope Z_scope.

(** What a probe found of one plane of a fallback wire. *)
Record WireProbePlane : Type := mkPlane {
  dialed_mode : TransportMode;
  plane_carrier_ok : bool;
  site_ok : bool;
  plane_downgraded_from : option TransportMode
}.

Section probes.
Context {Penalty : Type} `{env : Env Penalty}.
Implicit Types s : PerTransportStatus Penalty.

Definition bump_slot (success : bool) (slot : ModeDowngradeSlot) : ModeDowngradeSlot :=
  if success then mkSlot (slot_descent slot) 0 (saturating_inc (probe_successes slot))
  else mkSlot (slot_descent slot) (saturating_inc (probe_failures slot)) 0.
Definition bump_wire_probe_streak s (wire_index : nat) (success : bool) : PerTransportStatus Penalty :=
  match wire_index with
  | O => s
  | S slot_idx =>
    set_fallback_mode_downgrades s
      (grow_update slot_default (fallback_mode_downgrades s) slot_idx (bump_slot success))
  end.
Definition note_fallback_wire_carrier_outcome s (wire_index : nat) (plane : WireProbePlane) (now : Z)
    : PerTransportStatus Penalty :=
  match plane_downgraded_from plane with
  | Some requested =>
    extend_mode_downgrade_for_wire (bump_wire_probe_streak s wire_index false) wire_index
      (SilentTransportFallback requested) now
  | None =>
    if negb (plane_carrier_ok plane) then
      extend_mode_downgrade_for_wire (bump_wire_probe_streak s wire_index false) wire_index
        (ProbeTransportFailure (dialed_mode plane)) now
    else if site_ok plane then
      walk_up_mode_downgrade_for_wire (bump_wire_probe_streak s wire_index true) wire_index now
    else s
  end.
Definition target_wire_for_fallback_probe (u : UplinkConfig) (active_wire_tcp active_wire_udp : Z) : option nat :=
  match fallbacks u with
  | [] => None
  | _ =>
    let target := Z.to_nat (Z.max (Z.max active_wire_tcp active_wire_udp) 1) in
    if (length (fallbacks u) <? target)%nat then None else Some target
  end.
(** One plane of [run_fallback_wire_probe]: the probe came back, or it failed
    outright or timed out ([None]). *)
Definition fallback_wire_probe s (wire_index : nat) (result : option WireProbePlane) (now : Z)
    : PerTransportStatus Penalty :=
  let total := Z.of_nat (total_wires uplink) in
  match result with
  | None => record_wire_outcome s (Z.of_nat wire_index) false total now
  | Some plane =>
    let s := note_fallback_wire_carrier_outcome s wire_index plane now in
    if site_ok plane then mark_wire_data_proven s now
    else record_wire_outcome s (Z.of_nat wire_index) false total now
  end.
(** One outcome of [run_h3_recovery_probes]. *)
Definition recovery_probe s (recovered : bool) (now : Z) : PerTransportStatus Penalty :=
  if recovered then note_recovery_probe_success s now else extend_mode_downgrade s RecoveryReprobeFail now.

Definition condemn_plane s (now : Z) : PerTransportStatus Penalty :=
  let s := set_healthy s (Some false) in
  let s := set_consecutive_successes s 0 in
  let s := set_consecutive_failures s (saturating_inc (consecutive_failures s)) in
  let s := set_cooldown_until s (Some (now + failure_cooldown lb)) in
  let s := set_wires_failed_in_round s 0 in
  let s := set_penalty s (add_penalty (penalty s) now) in
  if within (last_any_wire_success s) now (runtime_failure_window lb)
  then set_last_any_wire_success s (Some (now - runtime_failure_window lb)) else s.
(** The streak, the two planes, and whether the uplink was condemned. *)
Definition note_endpoint_unreachable (streak : Z) (tcp udp : PerTransportStatus Penalty) (supports_udp : bool) (now : Z)
    : Z * PerTransportStatus Penalty * PerTransportStatus Penalty * bool :=
  let streak := saturating_inc streak in
  if clamped_min_failures probe <=? streak
  then (streak, condemn_plane tcp now, (if supports_udp then condemn_plane udp now else udp), true)
  else (streak, tcp, udp, false).
(** The status part of [confirm_selected_uplink_for]. *)
Definition confirm_selected_uplink s : PerTransportStatus Penalty :=
  match kind with Tcp => set_chunk0_consecutive_failures s 0 | Udp => s end.

(** ** The operations as steps *)
Inductive WireOp : Type :=
  | OpReadActive
  | OpDialOrder (permuted : list Z) (unpenalised : Z -> bool)
  | OpDialOutcome (wire : Z) (success : bool)
  | OpDataProven
  | OpReroll (above_floor : Z -> bool) (floor_discriminates : bool) (draw : nat -> nat)
  | OpProbeOk (v : ProbeVerdict) (effective : TransportMode)
  | OpProbeErr (supported : bool) (effective : TransportMode)
  | OpRecovery (recovered : bool)
  | OpFallbackProbe (wire : nat) (result : option WireProbePlane)
  | OpCondemn
  | OpSilentFallback (wire : nat) (requested : TransportMode)
  | OpRuntimeFailure (wire : option Z) (f : FailureClass)
  | OpLiveness (scope : LivenessScope)
  | OpUpstreamClose
  | OpConfirm.
Definition apply_op s (op : WireOp) (now : Z) : PerTransportStatus Penalty :=
  match op with
  | OpReadActive => (active_wire_now s now).1
  | OpDialOrder permuted unpenalised => (wire_dial_order s permuted unpenalised now).1
  | OpDialOutcome wire success => record_wire_outcome s wire success (Z.of_nat (total_wires uplink)) now
  | OpDataProven => mark_wire_data_proven s now
  | OpReroll above_floor fd draw => (reroll s above_floor fd draw now).1
  | OpProbeOk v effective => (process_probe_ok s v effective now).1
  | OpProbeErr supported effective => process_probe_err s supported effective now
  | OpRecovery recovered => recovery_probe s recovered now
  | OpFallbackProbe wire result => fallback_wire_probe s wire result now
  | OpCondemn => condemn_plane s now
  | OpSilentFallback wire requested => extend_mode_downgrade_for_wire s wire (SilentTransportFallback requested) now
  | OpRuntimeFailure wire f => report_runtime_failure s wire f now
  | OpLiveness scope => report_liveness s scope now
  | OpUpstreamClose => report_upstream_close s now
  | OpConfirm => confirm_selected_uplink s
  end.
Definition run_ops s (ops : list (WireOp * Z)) : PerTransportStatus Penalty :=
  foldl (fun s '(op, now) => apply_op s op now) s ops.
End probes.
