(* ===== verification/UplinkRun.v ===== *)
(** What holds of a transport's wires after any run of its operations: every
    wire's carrier stays inside its configured family and at or below its
    configured rank, the active wire exists, and the failure streak and the
    round stay below their thresholds. *)
From S2P Require Import Prelude UplinkDescent UplinkWires UplinkProbe.
Local Open Scope Z_scope.

Lemma lookup_grow_update {A} (d : A) l i j f :
  grow_update d l i f !! j =
    if decide (j = i) then Some (f (default d (l !! i)))
    else match l !! j with Some x => Some x | None => if decide (j < i)%nat then Some d else None end.
Proof.
  revert l j. induction i as [|i IH]; intros [|x l] [|j]; try done; cbn [grow_update].
  - rewrite !lookup_cons, (decide_False (P := S j = 0%nat)) by lia.
    destruct (l !! j); [done|]. by rewrite decide_False by lia.
  - rewrite !lookup_cons, IH, !lookup_nil. cbn. repeat case_decide; (done || lia).
  - rewrite !lookup_cons, IH. repeat case_decide; (done || lia || (destruct (l !! j); done || lia)).
Qed.

Section run.
Context {Penalty : Type} `{env : Env Penalty}.
Implicit Types s : PerTransportStatus Penalty.

(** ** The invariant *)
(** A fallback wire's slot never opens a grace window. *)
Definition fallback_ok (fallback : WireConfig) (slot : ModeDowngradeSlot) : Prop :=
  slot_ok (dial_mode kind fallback) (slot_descent slot) /\ last_recovery_success_at (slot_descent slot) = None.
Definition caps_ok s : Prop :=
  slot_ok (dial_mode kind (primary uplink)) (descent s) /\
  forall i fallback slot, fallbacks uplink !! i = Some fallback -> fallback_mode_downgrades s !! i = Some slot ->
    fallback_ok fallback slot.
Definition wires_ok s : Prop :=
  0 <= active_wire s < Z.of_nat (total_wires uplink) /\
  0 <= active_wire_streak s < clamped_min_failures probe /\
  0 <= wires_failed_in_round s < Z.of_nat (total_wires uplink).
Definition status_ok s : Prop := caps_ok s /\ wires_ok s.

(** Operations that leave the wires or the caps alone. *)
Definition same_caps s s' : Prop :=
  descent s' = descent s /\ fallback_mode_downgrades s' = fallback_mode_downgrades s.
Definition same_wires s s' : Prop :=
  active_wire s' = active_wire s /\ active_wire_streak s' = active_wire_streak s /\
  wires_failed_in_round s' = wires_failed_in_round s.
Lemma caps_ok_same s s' : same_caps s s' -> caps_ok s -> caps_ok s'.
Proof. unfold caps_ok. by intros [-> ->]. Qed.
Lemma wires_ok_same s s' : same_wires s s' -> wires_ok s -> wires_ok s'.
Proof. unfold wires_ok. by intros (-> & -> & ->). Qed.
Lemma same_caps_trans s1 s2 s3 : same_caps s1 s2 -> same_caps s2 s3 -> same_caps s1 s3.
Proof. unfold same_caps. naive_solver congruence. Qed.
Lemma same_wires_trans s1 s2 s3 : same_wires s1 s2 -> same_wires s2 s3 -> same_wires s1 s3.
Proof. unfold same_wires. naive_solver congruence. Qed.

Lemma clamped_pos : 1 <= clamped_min_failures probe.
Proof. unfold clamped_min_failures. lia. Qed.
Lemma saturating_inc_le n : saturating_inc n <= n + 1.
Proof. unfold saturating_inc. lia. Qed.
Lemma saturating_inc_nonneg n : 0 <= n -> 0 <= saturating_inc n.
Proof. unfold saturating_inc. lia. Qed.

Lemma fallback_ok_default fallback : fallback_ok fallback slot_default.
Proof. done. Qed.
Lemma caps_ok_grow s i f :
  caps_ok s ->
  (forall fallback slot, fallbacks uplink !! i = Some fallback -> fallback_ok fallback slot -> fallback_ok fallback (f slot)) ->
  caps_ok (set_fallback_mode_downgrades s (grow_update slot_default (fallback_mode_downgrades s) i f)).
Proof.
  intros [Hp Hf] Hi. split; [done|]. intros j fallback slot Hj. cbn.
  rewrite lookup_grow_update. destruct (decide (j = i)) as [->|].
  - intros [= <-]. apply Hi; [done|]. destruct (fallback_mode_downgrades s !! i) eqn:E; [by eapply Hf|done].
  - destruct (fallback_mode_downgrades s !! j) eqn:E; [intros [= <-]; by eapply Hf|].
    case_decide; intros [= <-]. done.
Qed.
Lemma caps_ok_descent s d :
  caps_ok s -> slot_ok (dial_mode kind (primary uplink)) d -> caps_ok (set_descent s d).
Proof. intros [_ Hf] Hd. by split. Qed.

(** ** Descent and walk-up *)
Lemma descent_cap_below configured failed cap : descent_cap configured failed = Some cap -> below configured cap.
Proof.
  unfold descent_cap. destruct (one_step_down failed) as [c|]; [|done]. cbn.
  case_match eqn:E; [done|]. intros [= <-]. by apply below_dec.
Qed.
Lemma extend_caps s trigger now : caps_ok s -> caps_ok (extend_mode_downgrade s trigger now).
Proof.
  intros Hs. unfold extend_mode_downgrade. do 2 (case_match; [done|]). case_match eqn:Hc; [|done].
  apply descent_cap_below in Hc.
  match goal with |- context [apply_descent_trigger ?d ?t] =>
    pose proof (apply_descent_trigger_ok _ d t (proj1 Hs) Hc); destruct (apply_descent_trigger d t) as [d' []] end;
    [by apply caps_ok_descent|].
  case_match; by apply (caps_ok_descent s d').
Qed.
Lemma extend_wires s trigger now : same_wires s (extend_mode_downgrade s trigger now).
Proof. unfold extend_mode_downgrade. by repeat case_match. Qed.
Lemma apply_keeps_anchor d t :
  last_recovery_success_at d = None -> last_recovery_success_at (apply_descent_trigger d t).1 = None.
Proof.
  intros H. destruct (apply_descent_trigger_cases d t) as [(Hg & _)|(_ & a & _ & _ & _ & _ & _ & ->)]; [|done].
  unfold grace_gate_active, within in Hg. rewrite H in Hg. rewrite !andb_true_iff in Hg. naive_solver.
Qed.
Lemma extend_slot_ok fallback slot trigger now :
  fallback_ok fallback slot -> fallback_ok fallback (extend_slot slot (dial_mode kind fallback) trigger now).
Proof.
  intros [Hs Hl]. unfold extend_slot.
  case_match eqn:Hc; [|done]. apply descent_cap_below in Hc.
  match goal with |- context [apply_descent_trigger ?d ?t] =>
    pose proof (apply_descent_trigger_ok _ d t Hs Hc); pose proof (apply_keeps_anchor d t Hl);
    destruct (apply_descent_trigger d t) as [d' []] end; by split.
Qed.
Lemma extend_wire_caps s w trigger now : caps_ok s -> caps_ok (extend_mode_downgrade_for_wire s w trigger now).
Proof.
  intros Hs. destruct w as [|i]; [by apply extend_caps|]. cbn.
  repeat case_match; try done. apply caps_ok_grow; [done|]. intros fallback slot Hfb Hok.
  simplify_eq. by apply extend_slot_ok.
Qed.
Lemma extend_wire_wires s w trigger now : same_wires s (extend_mode_downgrade_for_wire s w trigger now).
Proof. destruct w as [|i]; [apply extend_wires|]. cbn. by repeat case_match. Qed.
Lemma walk_up_caps s now : caps_ok s -> caps_ok (walk_up_mode_downgrade s now).
Proof.
  intros Hs. unfold walk_up_mode_downgrade. case_match; [done|].
  match goal with |- context [walk_up ?d ?n ?du ?c ?m ?k] =>
    pose proof (walk_up_ok c d n du m k (proj1 Hs)); destruct (walk_up d n du c m k) as [d' []] end;
    by apply (caps_ok_descent s d').
Qed.
Lemma walk_up_wires s now : same_wires s (walk_up_mode_downgrade s now).
Proof. unfold walk_up_mode_downgrade. by repeat case_match. Qed.
Lemma walk_up_keeps_anchor d now du c m k :
  last_recovery_success_at (walk_up d now du c m k).1 = last_recovery_success_at d.
Proof. unfold walk_up. by repeat case_match. Qed.
Lemma walk_up_slot_ok fallback slot now :
  fallback_ok fallback slot -> fallback_ok fallback (walk_up_slot slot (dial_mode kind fallback) now).
Proof.
  intros [Hs Hl]. unfold walk_up_slot.
  match goal with |- context [walk_up ?d ?n ?du ?c ?m ?k] =>
    pose proof (walk_up_ok c d n du m k Hs); pose proof (walk_up_keeps_anchor d n du c m k);
    destruct (walk_up d n du c m k) as [d' o] end.
  cbn in *. split; [done|]. cbn. congruence.
Qed.
Lemma walk_up_wire_caps s w now : caps_ok s -> caps_ok (walk_up_mode_downgrade_for_wire s w now).
Proof.
  intros Hs. destruct w as [|i]; [by apply walk_up_caps|]. cbn. repeat case_match; try done.
  destruct Hs as [Hp Hf]. split; [done|]. intros j fallback slot Hj. cbn.
  destruct (decide (i = j)) as [<-|].
  - rewrite list_lookup_insert_eq by (by eapply lookup_lt_Some). intros [= <-]. simplify_eq.
    apply walk_up_slot_ok. by eapply Hf.
  - rewrite list_lookup_insert_ne by done. by apply Hf.
Qed.
Lemma walk_up_wire_wires s w now : same_wires s (walk_up_mode_downgrade_for_wire s w now).
Proof. destruct w as [|i]; [apply walk_up_wires|]. cbn. by repeat case_match. Qed.
Lemma note_recovery_caps s now : caps_ok s -> caps_ok (note_recovery_probe_success s now).
Proof.
  intros Hs. unfold note_recovery_probe_success.
  pose proof (note_streak_ok _ (descent s) (proj1 Hs)) as Hn.
  destruct (note_recovery_success_streak (descent s)) as [d n].
  case_match; [|by apply caps_ok_descent]. destruct Hs. by split.
Qed.
Lemma note_recovery_wires s now : same_wires s (note_recovery_probe_success s now).
Proof. unfold note_recovery_probe_success. by repeat case_match. Qed.
Lemma bump_caps s w success : caps_ok s -> caps_ok (bump_wire_probe_streak s w success).
Proof.
  intros Hs. destruct w as [|i]; [done|]. apply caps_ok_grow; [done|].
  intros fallback slot _ [H1 H2]. destruct success; by split.
Qed.
Lemma bump_wires s w success : same_wires s (bump_wire_probe_streak s w success).
Proof. by destruct w. Qed.

(** ** The active wire *)
Lemma active_wire_now_caps s now : same_caps s (active_wire_now s now).1.
Proof. unfold active_wire_now. by repeat case_match. Qed.
Lemma active_wire_now_wires s now : wires_ok s -> wires_ok (active_wire_now s now).1.
Proof.
  pose proof clamped_pos. unfold active_wire_now, wires_ok. repeat case_match; cbn; (done || lia).
Qed.
Lemma active_wire_now_active s now : active_wire (active_wire_now s now).1 = active_wire s.
Proof. unfold active_wire_now. by repeat case_match. Qed.
Lemma active_wire_now_snd s now : (active_wire_now s now).2 = active_wire s.
Proof. unfold active_wire_now. by repeat case_match. Qed.
Lemma count_round_caps s total now : same_caps s (count_round s total now).
Proof. unfold count_round. by case_match. Qed.
Lemma count_round_wires s now :
  (1 < total_wires uplink)%nat -> wires_ok s -> wires_ok (count_round s (Z.of_nat (total_wires uplink)) now).
Proof.
  intros Ht (Ha & Hs & Hr). pose proof (saturating_inc_nonneg (wires_failed_in_round s)) as Hi.
  unfold count_round, wires_ok. cbn. case_match eqn:E; cbn; [lia|]. apply Z.leb_gt in E. lia.
Qed.
Lemma record_wire_outcome_caps s wire success total now : same_caps s (record_wire_outcome s wire success total now).
Proof.
  unfold record_wire_outcome. repeat case_match; try done; (eapply same_caps_trans; [|apply count_round_caps]; done).
Qed.
Lemma record_wire_outcome_wires s wire success now :
  (total_wires uplink <= 255)%nat -> wires_ok s ->
  wires_ok (record_wire_outcome s wire success (Z.of_nat (total_wires uplink)) now).
Proof.
  intros Ht Hs. pose proof Hs as (Ha & Hk & Hr). pose proof clamped_pos.
  pose proof (saturating_inc_nonneg (active_wire_streak s)).
  unfold record_wire_outcome. case_match eqn:Et; [done|]. apply Z.leb_gt in Et.
  case_match; [case_match; [|done]; unfold wires_ok; cbn; lia|].
  case_match; [done|]. case_match eqn:Em.
  { cbn in Em. apply Z.ltb_lt in Em. unfold wires_ok. cbn. lia. }
  case_match; [unfold wires_ok; cbn; lia|].
  assert (0 <= (active_wire s + 1) mod (Z.of_nat (total_wires uplink) mod 256) < Z.of_nat (total_wires uplink)).
  { rewrite (Z.mod_small _ 256) by lia. apply Z.mod_pos_bound. lia. }
  case_match; [apply count_round_wires; [lia|]|]; unfold wires_ok; cbn; lia.
Qed.
Lemma mark_wire_data_proven_caps s now : same_caps s (mark_wire_data_proven s now).
Proof. done. Qed.
Lemma mark_wire_data_proven_wires s now : wires_ok s -> wires_ok (mark_wire_data_proven s now).
Proof. intros (Ha & Hk & Hr). pose proof clamped_pos. unfold wires_ok. cbn. lia. Qed.
Lemma draw_reroll_wire_range above_floor total active fd draw w :
  draw_reroll_wire above_floor total active fd draw = Some w -> 0 <= w < total /\ w <> active.
Proof.
  unfold draw_reroll_wire. set (f := filter _ _).
  assert (forall x, x ∈ f -> 0 <= x < total /\ x <> active) as Hf.
  { intros x. unfold f. rewrite list_elem_of_filter, list_elem_of_fmap.
    intros [H (y & -> & Hy%elem_of_seq)]. rewrite andb_true_iff, negb_true_iff, Z.eqb_neq in H. lia. }
  intros H. apply Hf. destruct f; [done|]. by apply list_elem_of_lookup_2 in H.
Qed.
Lemma move_to_wire_caps s w now : caps_ok s -> caps_ok (move_to_wire s w now).
Proof.
  intros [Hp Hf]. unfold move_to_wire. case_match; [|by split]. split; [done|]. intros i fb slot _. cbn.
  by rewrite lookup_nil.
Qed.
Lemma move_to_wire_wires s w now :
  0 <= w < Z.of_nat (total_wires uplink) -> wires_ok s -> wires_ok (move_to_wire s w now).
Proof.
  intros Hw (Ha & Hk & Hr). pose proof clamped_pos. unfold move_to_wire, wires_ok. case_match; cbn; lia.
Qed.
Lemma reroll_caps s above_floor fd draw now : caps_ok s -> caps_ok (reroll s above_floor fd draw now).1.
Proof. intros Hs. unfold reroll. case_match; [done|]. cbn. case_match; [|done]. by apply move_to_wire_caps. Qed.
Lemma reroll_wires s above_floor fd draw now :
  (total_wires uplink <= 255)%nat -> wires_ok s -> wires_ok (reroll s above_floor fd draw now).1.
Proof.
  intros Ht Hs. unfold reroll. case_match; [done|]. cbn [fst].
  case_match eqn:E; [|done]. apply draw_reroll_wire_range in E.
  rewrite Z.mod_small in E by lia. apply move_to_wire_wires; [lia|done].
Qed.

(** ** The probe *)
Lemma record_failure_caps s now : same_caps s (record_transport_failure s now).
Proof. unfold record_transport_failure. by case_match. Qed.
Lemma record_failure_wires s now : same_wires s (record_transport_failure s now).
Proof. unfold record_transport_failure. by case_match. Qed.
Lemma advance_caps s now : same_caps s (advance_active_wire_on_probe_failure s now).1.
Proof.
  unfold advance_active_wire_on_probe_failure. pose proof (active_wire_now_caps s now) as H.
  repeat case_match; try done; cbn [fst]; (eapply same_caps_trans; [|apply count_round_caps]; done).
Qed.
Lemma advance_wires s now : wires_ok s -> wires_ok (advance_active_wire_on_probe_failure s now).1.
Proof.
  intros Hs. unfold advance_active_wire_on_probe_failure. pose proof (active_wire_now_wires s now Hs) as H.
  set (s0 := (active_wire_now s now).1) in *. clearbody s0. pose proof clamped_pos. case_match eqn:Et; [done|]. apply Nat.leb_gt in Et.
  repeat (case_match; [done|]). cbn [fst]. destruct H as (? & ? & ?).
  case_match; [apply count_round_wires; [lia|]|]; unfold wires_ok; cbn; lia.
Qed.
Lemma success_caps s now : caps_ok s -> caps_ok (record_transport_success s now).
Proof.
  intros [Hp Hf]. unfold record_transport_success. case_match; [by split|].
  pose proof (renew_grace_ok _ (descent s) now (mode_downgrade_duration lb * 2) Hp).
  case_match; by split.
Qed.
Lemma success_wires s now : wires_ok s -> wires_ok (record_transport_success s now).
Proof.
  intros (Ha & Hk & Hr). pose proof clamped_pos. unfold record_transport_success.
  case_match; [done|]. case_match; unfold wires_ok; cbn; lia.
Qed.
Lemma process_probe_ok_status s v effective now : status_ok s -> status_ok (process_probe_ok s v effective now).1.
Proof.
  intros [Hc Hw]. unfold process_probe_ok. cbn [fst].
  set (s1 := if negb (applicable v) then s else _).
  assert (status_ok s1) as [Hc1 Hw1].
  { unfold s1. repeat case_match; try done.
    - split; [eapply caps_ok_same, caps_ok_same, Hc; [apply advance_caps|apply record_failure_caps]|].
      apply advance_wires. by eapply wires_ok_same; [apply record_failure_wires|].
    - split; [by apply success_caps|by apply success_wires]. }
  clearbody s1. set (s2 := if _ && carrier_ok v then _ else s1).
  assert (status_ok s2) as [Hc2 Hw2].
  { unfold s2. case_match; [|done]. split; [by apply walk_up_caps|].
    by eapply wires_ok_same; [apply walk_up_wires|]. }
  clearbody s2. set (s3 := if _ && _ && _ then _ else s2).
  assert (status_ok s3) as [Hc3 Hw3].
  { unfold s3. case_match; [|done]. split; [by apply extend_caps|].
    by eapply wires_ok_same; [apply extend_wires|]. }
  clearbody s3. case_match; [|done]. split; [by apply extend_caps|].
  by eapply wires_ok_same; [apply extend_wires|].
Qed.
Lemma process_probe_err_status s supported effective now :
  status_ok s -> status_ok (process_probe_err s supported effective now).
Proof.
  intros [Hc Hw]. unfold process_probe_err. case_match; [|done].
  split.
  - apply extend_caps. eapply caps_ok_same, caps_ok_same, Hc; [apply advance_caps|apply record_failure_caps].
  - eapply wires_ok_same; [apply extend_wires|]. apply advance_wires.
    by eapply wires_ok_same; [apply record_failure_wires|].
Qed.

(** ** Real traffic *)
Lemma charge_same s f now :
  same_caps s (charge_runtime_failure s f now) /\ same_wires s (charge_runtime_failure s f now).
Proof. unfold charge_runtime_failure. split; repeat case_match; done. Qed.
Lemma descend_status s wire now : caps_ok s -> caps_ok (descend_on_failure s wire now) /\ same_wires s (descend_on_failure s wire now).
Proof.
  intros Hs. unfold descend_on_failure. repeat case_match;
    (split; [by (apply extend_wire_caps || apply extend_caps)|apply extend_wire_wires || apply extend_wires]).
Qed.
Lemma attributed_status s wire f now :
  (total_wires uplink <= 255)%nat -> status_ok s -> status_ok (attributed_failure s wire f now).
Proof.
  intros Ht [Hc Hw]. unfold attributed_failure. case_match; [done|].
  destruct (charge_same s f now) as [Hc1 Hw1]. set (s1 := charge_runtime_failure s f now) in *. clearbody s1.
  pose proof (caps_ok_same _ _ Hc1 Hc) as Hc2. pose proof (wires_ok_same _ _ Hw1 Hw) as Hw2.
  set (s2 := if try_again f then s1 else _).
  assert (status_ok s2) as [Hc3 Hw3].
  { unfold s2. case_match; [done|]. destruct (descend_status s1 wire now Hc2) as [? ?].
    split; [done|]. by eapply wires_ok_same. }
  clearbody s2. case_match; [|done].
  pose proof (active_wire_now_caps s2 now) as Hca. pose proof (active_wire_now_wires s2 now Hw3) as Hwa.
  destruct (active_wire_now s2 now) as [s3 active]. cbn [fst] in *. split.
  - eapply caps_ok_same, caps_ok_same, Hc3; [apply record_wire_outcome_caps|done].
  - by apply record_wire_outcome_wires.
Qed.
Lemma report_runtime_failure_status s wire f now :
  (total_wires uplink <= 255)%nat -> status_ok s -> status_ok (report_runtime_failure s wire f now).
Proof.
  intros Ht Hs. unfold report_runtime_failure.
  pose proof (active_wire_now_caps s now) as Hca. pose proof (active_wire_now_wires s now (proj2 Hs)) as Hwa.
  destruct (active_wire_now s now) as [s0 active]. cbn [fst] in *.
  assert (status_ok s0) by (split; [by eapply caps_ok_same, Hs|done]).
  repeat case_match; try done; by apply attributed_status.
Qed.

(** ** The other operations *)
Lemma fallback_probe_status s w result now :
  (total_wires uplink <= 255)%nat -> status_ok s -> status_ok (fallback_wire_probe s w result now).
Proof.
  intros Ht [Hc Hw]. unfold fallback_wire_probe. destruct result as [plane|].
  - set (s1 := note_fallback_wire_carrier_outcome s w plane now).
    assert (status_ok s1) as [Hc1 Hw1].
    { unfold s1, note_fallback_wire_carrier_outcome. repeat case_match; try done; (split;
        [(apply extend_wire_caps || apply walk_up_wire_caps); by apply bump_caps
        |eapply wires_ok_same, wires_ok_same, Hw; [apply extend_wire_wires || apply walk_up_wire_wires|apply bump_wires]]). }
    clearbody s1. case_match; [split; [done|by apply mark_wire_data_proven_wires]|].
    split; [by eapply caps_ok_same; [apply record_wire_outcome_caps|]|by apply record_wire_outcome_wires].
  - split; [by eapply caps_ok_same; [apply record_wire_outcome_caps|]|by apply record_wire_outcome_wires].
Qed.
Lemma condemn_status s now : status_ok s -> status_ok (condemn_plane s now).
Proof.
  intros [Hc (Ha & Hk & Hr)]. unfold condemn_plane. repeat case_match; (split; [done|]); unfold wires_ok; cbn; lia.
Qed.
Lemma recovery_status s recovered now : status_ok s -> status_ok (recovery_probe s recovered now).
Proof.
  intros [Hc Hw]. destruct recovered; cbn.
  - split; [by apply note_recovery_caps|]. by eapply wires_ok_same; [apply note_recovery_wires|].
  - split; [by apply extend_caps|]. by eapply wires_ok_same; [apply extend_wires|].
Qed.
Lemma dial_order_status s permuted unp now : status_ok s -> status_ok (wire_dial_order s permuted unp now).1.
Proof.
  intros [Hc Hw]. unfold wire_dial_order.
  pose proof (active_wire_now_caps s now) as Hca. pose proof (active_wire_now_wires s now Hw) as Hwa.
  destruct (active_wire_now s now) as [s0 active]. cbn [fst] in *.
  repeat case_match; cbn; (done || (split; [by eapply caps_ok_same|done])).
Qed.
Lemma liveness_status s scope now : status_ok s -> status_ok (report_liveness s scope now).
Proof. intros [Hc Hw]. unfold report_liveness. by repeat case_match. Qed.

Lemma apply_op_status s op now :
  (total_wires uplink <= 255)%nat -> status_ok s -> status_ok (apply_op s op now).
Proof.
  intros Ht Hs. pose proof Hs as [Hc Hw]. destruct op; cbn [apply_op].
  - split; [by eapply caps_ok_same; [apply active_wire_now_caps|]|by apply active_wire_now_wires].
  - by apply dial_order_status.
  - split; [by eapply caps_ok_same; [apply record_wire_outcome_caps|]|by apply record_wire_outcome_wires].
  - split; [done|by apply mark_wire_data_proven_wires].
  - split; [by apply reroll_caps|by apply reroll_wires].
  - by apply process_probe_ok_status.
  - by apply process_probe_err_status.
  - by apply recovery_status.
  - by apply fallback_probe_status.
  - by apply condemn_status.
  - split; [by apply extend_wire_caps|]. by eapply wires_ok_same; [apply extend_wire_wires|].
  - by apply report_runtime_failure_status.
  - by apply liveness_status.
  - unfold report_upstream_close. by case_match.
  - unfold confirm_selected_uplink. by case_match.
Qed.
Lemma run_ops_status s ops : (total_wires uplink <= 255)%nat -> status_ok s -> status_ok (run_ops s ops).
Proof.
  intros Ht. revert s. induction ops as [|[op now] ops IH]; intros s Hs; [done|]. cbn. by apply IH, apply_op_status.
Qed.
Lemma status_default_ok : status_ok status_default.
Proof.
  split; [split; [done|]; intros i fb slot _; cbn; by rewrite lookup_nil|].
  pose proof clamped_pos. unfold wires_ok. cbn. unfold total_wires. lia.
Qed.

(** The carrier a wire is configured for. *)
Definition configured_mode (wire : nat) : TransportMode :=
  match wire with
  | O => dial_mode kind (primary uplink)
  | S i => match fallbacks uplink !! i with Some fb => dial_mode kind fb | None => dial_mode kind (primary uplink) end
  end.
Lemma effective_mode_ok s wire now :
  caps_ok s -> family (effective_mode_for_wire s wire now) = family (configured_mode wire) /\
               rank (effective_mode_for_wire s wire now) <= rank (configured_mode wire).
Proof.
  intros [Hp Hf]. destruct wire as [|i]; cbn [effective_mode_for_wire configured_mode].
  - unfold effective_mode, capped_or_configured. case_match; [split; done || lia|]. by apply slot_ok_effective.
  - case_match eqn:Efb; [|split; done || lia]. case_match; [split; done || lia|].
    unfold wire_capped_or_configured. case_match eqn:Es; [|split; done || lia].
    apply slot_ok_effective. by apply (Hf _ _ _ Efb Es).
Qed.

(** Whatever sequence of dials, traffic failures, probe verdicts, recovery
    probes and shuffles a transport of an uplink of at most 255 wires goes
    through, the active wire is one of its wires, the failure streak is below
    the threshold, fewer wires than it has have failed in the round, and no wire
    dials a carrier outside the family it is configured for or above the
    configured one. *)
Theorem wires_stay_in_bounds ops s :
  (total_wires uplink <= 255)%nat -> s = run_ops status_default ops ->
  0 <= active_wire s < Z.of_nat (total_wires uplink) /\
  0 <= active_wire_streak s < clamped_min_failures probe /\
  0 <= wires_failed_in_round s < Z.of_nat (total_wires uplink) /\
  forall wire now, family (effective_mode_for_wire s wire now) = family (configured_mode wire) /\
                   rank (effective_mode_for_wire s wire now) <= rank (configured_mode wire).
Proof.
  intros Ht ->. destruct (run_ops_status _ ops Ht status_default_ok) as [Hc (Ha & Hk & Hr)].
  split_and!; try lia. intros wire now. by apply effective_mode_ok.
Qed.
End run.

(** * When an uplink leaves one of its wires

    Never before the wire's carrier has reached its floor (under [shuffle_wires]),
    after a known number of failures; the uplink is given up after a full round. *)
Local Open Scope Z_scope.

Section rotate.
Context {Penalty : Type} `{env : Env Penalty}.
Implicit Types s : PerTransportStatus Penalty.

(** ** The floor of a wire *)
Lemma floor_same s s' w now : same_caps s s' -> wire_is_at_carrier_floor s' w now = wire_is_at_carrier_floor s w now.
Proof. unfold wire_is_at_carrier_floor, wire_capped_or_configured. by intros [-> ->]. Qed.
Lemma floor_mode_rank mode : is_carrier_floor_mode mode = true <-> rank mode = 0.
Proof. by destruct mode. Qed.
Lemma rank_nonneg mode : 0 <= rank mode.
Proof. by destruct mode. Qed.
Lemma mode_ext m m' : family m = family m' -> rank m = rank m' -> m = m'.
Proof. by destruct m, m'. Qed.
(** A cap at the floor is not lifted by a trigger. *)
Lemma apply_trigger_keeps_floor configured d t :
  slot_ok configured d -> below configured (t_new_cap t) -> 0 <= t_duration t ->
  rank (effective configured d (t_now t)) = 0 ->
  rank (effective configured (apply_descent_trigger d t).1 (t_now t)) = 0.
Proof.
  intros Hok [Hf Hr] Hd Hrank. pose proof (rank_nonneg (t_new_cap t)).
  destruct (apply_descent_trigger_cases d t) as [(_ & _ & -> & _)|(_ & a & _ & _ & _ & Hc & Hu & _)]; [done|].
  revert Hrank. unfold effective, active_cap. rewrite Hc, Hu.
  unfold slot_ok in Hok. destruct (until d) as [u|] eqn:Eu, (capped_to d) as [cap|] eqn:Ec; try done; cbn; [|lia].
  destruct (t_now t <? u) eqn:Ew; cbn; [|lia]. intros Hz. destruct Hok as [Hfc Hrc].
  assert (rank (next_cap d t) = 0) as Hn.
  { destruct (next_cap_down d t cap Ec) as [_ Hle]; [by rewrite Eu|congruence|].
    pose proof (rank_nonneg (next_cap d t)). lia. }
  apply Z.ltb_lt in Ew. case_match eqn:Eadv; [apply Z.ltb_lt in Eadv|]; rewrite (proj2 (Z.ltb_lt _ _)) by lia; done.
Qed.
Lemma floor_primary s now :
  wire_is_at_carrier_floor s 0 now = true <->
  carrier_downgrade uplink = false \/ rank (effective (dial_mode kind (primary uplink)) (descent s) now) = 0.
Proof.
  unfold wire_is_at_carrier_floor. destruct (carrier_downgrade uplink); cbn [negb]; [|naive_solver].
  destruct (has_carrier_ladder _) eqn:E; [cbn [negb]|by destruct (transport (primary uplink))].
  rewrite floor_mode_rank. unfold effective. naive_solver.
Qed.
Lemma extend_keeps_floor s trigger now :
  0 <= mode_downgrade_duration lb -> caps_ok s -> wire_is_at_carrier_floor s 0 now = true ->
  wire_is_at_carrier_floor (extend_mode_downgrade s trigger now) 0 now = true.
Proof.
  intros Hd [Hp _]. rewrite !floor_primary. intros [H|H]; [by left|].
  unfold extend_mode_downgrade. case_match; [by right|]. case_match; [by right|]. right. case_match eqn:Hc; [|done].
  apply descent_cap_below in Hc.
  match goal with |- context [apply_descent_trigger ?d ?t] =>
    pose proof (apply_trigger_keeps_floor _ d t Hp Hc Hd H); destruct (apply_descent_trigger d t) as [d' []] end;
    [done|]. by case_match.
Qed.

(** ** Rotation waits for the floor *)
Lemma count_round_active s total now : active_wire (count_round s total now) = active_wire s.
Proof. unfold count_round. by case_match. Qed.
Lemma outcome_moves s wire success total now :
  shuffle_wires uplink = true -> active_wire (record_wire_outcome s wire success total now) <> active_wire s ->
  wire = active_wire s /\ wire_is_at_carrier_floor (record_wire_outcome s wire success total now) (Z.to_nat wire) now = true.
Proof.
  intros Hsh Hm. rewrite (floor_same s) by apply record_wire_outcome_caps. revert Hm.
  unfold record_wire_outcome. rewrite Hsh. do 2 (case_match; [by try case_match|]).
  case_match eqn:Ea; [done|]. apply negb_false_iff, Z.eqb_eq in Ea. case_match; [done|].
  case_match eqn:Ef; [done|]. intros _. cbn in Ef. apply negb_false_iff in Ef. split; [done|].
  by rewrite <-Ef; symmetry; apply floor_same.
Qed.
Lemma advance_moves s now :
  shuffle_wires uplink = true -> active_wire (advance_active_wire_on_probe_failure s now).1 <> active_wire s ->
  active_wire s = 0 /\ wire_is_at_carrier_floor (advance_active_wire_on_probe_failure s now).1 0 now = true.
Proof.
  intros Hsh Hm. rewrite (floor_same s) by apply advance_caps. revert Hm.
  unfold advance_active_wire_on_probe_failure. case_match; [done|].
  pose proof (active_wire_now_active s now) as Ha. pose proof (active_wire_now_caps s now) as Hc.
  set (s0 := (active_wire_now s now).1) in *. clearbody s0. rewrite Hsh. cbn [andb].
  case_match eqn:E0; [by intros; cbn in *|]. case_match; [by intros; cbn in *|].
  case_match eqn:Ef; [by intros; cbn in *|]. intros _. apply negb_false_iff in E0, Ef. apply Z.eqb_eq in E0.
  split; [congruence|]. by rewrite <-(floor_same s s0).
Qed.
Lemma probe_failure_moves s now :
  let s' := (advance_active_wire_on_probe_failure (record_transport_failure s now) now).1 in
  shuffle_wires uplink = true -> active_wire s' <> active_wire s ->
  active_wire s = 0 /\ wire_is_at_carrier_floor s' 0 now = true.
Proof.
  intros s' Hsh. destruct (record_failure_wires s now) as [<- _]. by apply advance_moves.
Qed.
Lemma probe_failure_successes s now :
  consecutive_successes (advance_active_wire_on_probe_failure (record_transport_failure s now) now).1 = 0.
Proof.
  assert (consecutive_successes (record_transport_failure s now) = 0) as H.
  { unfold record_transport_failure. by case_match. }
  unfold advance_active_wire_on_probe_failure, active_wire_now, count_round. repeat case_match; done.
Qed.
Lemma walk_up_floor s now :
  consecutive_successes s = 0 -> wire_is_at_carrier_floor (walk_up_mode_downgrade s now) 0 now = wire_is_at_carrier_floor s 0 now.
Proof.
  intros Hz. apply floor_same. unfold walk_up_mode_downgrade. case_match; [done|].
  assert ((0 <? clamped_min_failures probe) = true) as Hlt by (apply Z.ltb_lt; pose proof clamped_pos; lia).
  unfold walk_up. rewrite Hz, Hlt. destruct (capped_to (descent s)); [|done]. by destruct (until (descent s)) as [u|]; [destruct (u <=? now)|].
Qed.
Lemma process_probe_ok_moves s v effective now :
  shuffle_wires uplink = true -> 0 <= mode_downgrade_duration lb -> caps_ok s ->
  let s' := (process_probe_ok s v effective now).1 in
  active_wire s' <> active_wire s ->
  (ok v = true /\ active_wire s' = 0) \/
  (active_wire s = 0 /\ wire_is_at_carrier_floor s' 0 now = true).
Proof.
  intros Hsh Hd Hcaps s'. unfold s', process_probe_ok. cbn [fst].
  set (skip := should_skip_primary_probe_escalation s now). clearbody skip.
  set (s1 := if negb (applicable v) then s else _).
  assert (caps_ok s1) as Hc1.
  { unfold s1. repeat case_match; try done; [|by apply success_caps].
    eapply caps_ok_same, caps_ok_same, Hcaps; [apply advance_caps|apply record_failure_caps]. }
  assert (active_wire s1 = active_wire s \/ (ok v = true /\ active_wire s1 = 0) \/
    (active_wire s = 0 /\ wire_is_at_carrier_floor s1 0 now = true /\ consecutive_successes s1 = 0)) as H1.
  { unfold s1. case_match; [by left|]. destruct (ok v); cbn [negb].
    - unfold record_transport_success. case_match; [by left|]. case_match; cbn; [right; left; done|by left].
    - case_match; [|by left]. 
      destruct (decide (active_wire (advance_active_wire_on_probe_failure (record_transport_failure s now) now).1
                        = active_wire s)) as [|Hne]; [by left|].
      destruct (probe_failure_moves s now Hsh Hne). right; right. split_and!; [done..|]. apply probe_failure_successes. }
  clearbody s1.
  set (s2 := if _ && carrier_ok v then _ else s1).
  assert (caps_ok s2 /\ active_wire s2 = active_wire s1 /\
          (consecutive_successes s1 = 0 -> wire_is_at_carrier_floor s1 0 now = true -> wire_is_at_carrier_floor s2 0 now = true))
    as (Hc2 & Ha2 & Hf2).
  { unfold s2. case_match; [|done]. split; [by apply walk_up_caps|]. split; [apply walk_up_wires|].
    intros. by rewrite walk_up_floor. }
  clearbody s2.
  assert (forall x (b : bool) tr, caps_ok x ->
    caps_ok (if b then extend_mode_downgrade x tr now else x) /\
    active_wire (if b then extend_mode_downgrade x tr now else x) = active_wire x /\
    (wire_is_at_carrier_floor x 0 now = true ->
     wire_is_at_carrier_floor (if b then extend_mode_downgrade x tr now else x) 0 now = true)) as Hext.
  { intros x [] tr Hx; [|done]. split; [by apply extend_caps|]. split; [apply extend_wires|by apply extend_keeps_floor]. }
  destruct (Hext s2 (applicable v && negb (carrier_ok v) && negb skip) (ProbeTransportFailure effective) Hc2) as (Hc3 & Ha3 & Hf3).
  set (s3 := if _ && negb skip then _ else s2) in *. clearbody s3.
  destruct (Hext s3 true (SilentTransportFallback (default effective (downgraded_from v))) Hc3) as (_ & Ha4 & Hf4).
  destruct (downgraded_from v); cbn [default id] in *; intros Hne; destruct H1 as [H1|[[H1 H1']|(H1 & H1' & H1'')]];
    first [congruence|left; split; congruence|right; split; auto].
Qed.
Lemma attributed_moves s wire f now :
  shuffle_wires uplink = true -> active_wire (attributed_failure s wire f now) <> active_wire s ->
  wire_is_at_carrier_floor (attributed_failure s wire f now) (Z.to_nat (active_wire s)) now = true.
Proof.
  intros Hsh. unfold attributed_failure. case_match; [done|].
  destruct (charge_same s f now) as [_ (Ha & _)]. set (s1 := charge_runtime_failure s f now) in *. clearbody s1.
  set (s2 := if try_again f then s1 else _).
  assert (active_wire s2 = active_wire s) as Ha2.
  { rewrite <-Ha. unfold s2, descend_on_failure. repeat case_match; (done || apply extend_wire_wires || apply extend_wires). }
  clearbody s2. rewrite Hsh. cbn [andb]. case_match; [|done].
  pose proof (active_wire_now_active s2 now) as Ha3. destruct (active_wire_now s2 now) as [s3 active]. cbn [fst] in Ha3.
  intros Hne. rewrite <-Ha2, <-Ha3 in Hne.
  destruct (outcome_moves s3 _ _ _ _ Hsh Hne) as [Hw Hfl]. congruence.
Qed.

Definition failback (op : WireOp) : bool := match op with OpProbeOk v _ => ok v | _ => false end.
Definition is_reroll (op : WireOp) : bool := match op with OpReroll _ _ _ => true | _ => false end.
(** Under [shuffle_wires], and whichever operation it is, a transport leaves
    its active wire only by the shuffle timer's draw, by a successful probe that
    brings it back to the primary wire, or once the wire it leaves is dialled at
    the floor of its carrier ladder (or does not descend at all). *)
Theorem rotation_waits_for_floor s op now :
  shuffle_wires uplink = true -> 0 <= mode_downgrade_duration lb -> caps_ok s ->
  let s' := apply_op s op now in
  active_wire s' <> active_wire s ->
  is_reroll op = true \/ (failback op = true /\ active_wire s' = 0) \/
  wire_is_at_carrier_floor s' (Z.to_nat (active_wire s)) now = true.
Proof.
  intros Hsh Hd Hc s'. unfold s'. clear s'.
  destruct op; cbn [apply_op is_reroll failback]; intros Hne; try (by left); right.
  - by rewrite active_wire_now_active in Hne.
  - exfalso. apply Hne. pose proof (active_wire_now_active s now) as Ha. unfold wire_dial_order.
    destruct (active_wire_now s now). by repeat case_match.
  - right. by destruct (outcome_moves _ _ _ _ _ Hsh Hne) as [-> ?].
  - destruct (process_probe_ok_moves s v effective now Hsh Hd Hc Hne) as [?|[-> ?]]; auto.
  - right. revert Hne. unfold process_probe_err. case_match; [|done].
    set (s1 := (advance_active_wire_on_probe_failure (record_transport_failure s now) now).1).
    rewrite (proj1 (extend_wires s1 _ _)). intros Hne.
    destruct (probe_failure_moves s now Hsh Hne) as [-> Hf]. apply extend_keeps_floor; [done| |done].
    eapply caps_ok_same, caps_ok_same, Hc; [apply advance_caps|apply record_failure_caps].
  - destruct recovered; cbn in Hne; [by rewrite (proj1 (note_recovery_wires s now)) in Hne|].
    by rewrite (proj1 (extend_wires s _ _)) in Hne.
  - right. revert Hne. unfold fallback_wire_probe. destruct result as [plane|].
    + set (s1 := note_fallback_wire_carrier_outcome s wire plane now).
      assert (active_wire s1 = active_wire s) as Ha.
      { unfold s1, note_fallback_wire_carrier_outcome. repeat case_match; try done;
          (etransitivity; [apply extend_wire_wires || apply walk_up_wire_wires|apply bump_wires]). }
      clearbody s1. rewrite <-Ha. case_match; [done|]. intros Hne. by destruct (outcome_moves _ _ _ _ _ Hsh Hne) as [<- ?].
    + intros Hne. by destruct (outcome_moves _ _ _ _ _ Hsh Hne) as [<- ?].
  - exfalso. apply Hne. unfold condemn_plane. by case_match.
  - by rewrite (proj1 (extend_wire_wires s _ _ _)) in Hne.
  - right. revert Hne. unfold report_runtime_failure. pose proof (active_wire_now_active s now) as Ha.
    destruct (active_wire_now s now) as [s0 active]. cbn [fst] in Ha.
    repeat case_match; intros Hne; try (by apply attributed_moves); [done|]. rewrite <-Ha in *. by apply attributed_moves.
  - exfalso. apply Hne. unfold report_liveness. by repeat case_match.
  - exfalso. apply Hne. unfold report_upstream_close. by case_match.
  - exfalso. apply Hne. unfold confirm_selected_uplink. by case_match.
Qed.
End rotate.
