(* ===== verification/UplinkRound.v ===== *)
(** How many failures it takes to leave a wire and to give up an uplink, what
    keeps a primary wire from being left, and the order wires are dialled in. *)
From S2P Require Import Prelude UplinkDescent UplinkWires UplinkProbe UplinkRun.
Local Open Scope Z_scope.

Section round.
Context {Penalty : Type} `{env : Env Penalty}.
Implicit Types s : PerTransportStatus Penalty.

Definition pin_live s (now : Z) : Prop :=
  match active_wire_pinned_until s with Some u => now < u | None => True end.
Lemma active_wire_now_live s now : pin_live s now -> active_wire_now s now = (s, active_wire s).
Proof.
  unfold pin_live, active_wire_now. case_match; [|done]. intros H'. by rewrite (proj2 (Z.leb_gt _ _) H').
Qed.
Lemma charge_pin s f now : active_wire_pinned_until (charge_runtime_failure s f now) = active_wire_pinned_until s.
Proof. unfold charge_runtime_failure. repeat case_match; done. Qed.
Lemma extend_wire_pin s w trigger now :
  active_wire_pinned_until (extend_mode_downgrade_for_wire s w trigger now) = active_wire_pinned_until s.
Proof. destruct w; cbn; unfold extend_mode_downgrade; by repeat case_match. Qed.

(** A failure of real traffic on the active wire: charged, the wire's carrier
    lowered, then counted. *)
Definition fail_active s (x : FailureClass * Z) : PerTransportStatus Penalty :=
  report_runtime_failure s (Some (active_wire s)) x.1 x.2.
Definition descended s (f : FailureClass) (now : Z) : PerTransportStatus Penalty :=
  if try_again f then charge_runtime_failure s f now
  else extend_mode_downgrade_for_wire (charge_runtime_failure s f now) (Z.to_nat (active_wire s)) RuntimeFailure now.
Lemma descended_wires s f now : same_wires s (descended s f now).
Proof.
  destruct (charge_same s f now) as [_ H]. unfold descended. case_match; [done|].
  eapply same_wires_trans; [done|apply extend_wire_wires].
Qed.
Lemma descended_pin s f now : active_wire_pinned_until (descended s f now) = active_wire_pinned_until s.
Proof. unfold descended. case_match; [|rewrite extend_wire_pin]; apply charge_pin. Qed.
Lemma fail_active_eq s f now :
  shuffle_wires uplink = true -> (1 < total_wires uplink)%nat -> pin_live s now -> payload_integrity f = false ->
  fail_active s (f, now) =
    record_wire_outcome (descended s f now) (active_wire s) false (Z.of_nat (total_wires uplink)) now.
Proof.
  intros Hsh Ht Hp Hf. unfold fail_active, report_runtime_failure. cbn [fst snd].
  rewrite (proj2 (Nat.ltb_lt _ _) Ht), (active_wire_now_live _ _ Hp), Z.eqb_refl. cbn [negb].
  unfold attributed_failure, descend_on_failure. rewrite Hf, Hsh, (proj2 (Nat.ltb_lt _ _) Ht). cbn [andb default].
  fold (descended s f now). rewrite active_wire_now_live; [done|]. unfold pin_live. by rewrite descended_pin.
Qed.

(** ** A round *)
(** Failures counted in the round so far. *)
Definition progress s : Z := wires_failed_in_round s * clamped_min_failures probe + active_wire_streak s.
Definition pinned_past s (deadline : Z) : Prop :=
  match active_wire_pinned_until s with Some u => deadline <= u | None => True end.
Definition given_up s (now : Z) : Prop :=
  healthy s = Some false /\ cooldown_until s = Some (now + failure_cooldown lb) /\ progress s = 0.
(** One failure of the active wire when its carrier is at the floor. *)
Lemma outcome_progress s now deadline :
  shuffle_wires uplink = true -> (1 < total_wires uplink <= 255)%nat -> clamped_min_failures probe < 2 ^ 32 ->
  wires_ok s -> wire_is_at_carrier_floor s (Z.to_nat (active_wire s)) now = true ->
  pinned_past s deadline -> deadline <= now + mode_downgrade_duration lb ->
  let s' := record_wire_outcome s (active_wire s) false (Z.of_nat (total_wires uplink)) now in
  let m := clamped_min_failures probe in
  let T := Z.of_nat (total_wires uplink) in
  pinned_past s' deadline /\
  ((progress s + 1 < T * m /\ progress s' = progress s + 1) \/ (progress s + 1 = T * m /\ given_up s' now)).
Proof.
  intros Hsh Ht Hm (Ha & Hk & Hr) Hf Hp Hd. cbn zeta. pose proof clamped_pos.
  assert (saturating_inc (active_wire_streak s) = active_wire_streak s + 1) as Hi by (unfold saturating_inc; lia).
  assert (saturating_inc (wires_failed_in_round s) = wires_failed_in_round s + 1) as Hj by (unfold saturating_inc; lia).
  unfold record_wire_outcome. rewrite (proj2 (Z.leb_gt _ _)) by lia. rewrite Z.eqb_refl. cbn [negb].
  set (s1 := add_wire_penalty s (active_wire s) now).
  change (active_wire_streak s1) with (active_wire_streak s). rewrite Hi.
  set (s2 := set_active_wire_streak s1 _).
  assert (wire_is_at_carrier_floor s2 (Z.to_nat (active_wire s)) now = true) as Hf2
    by (rewrite <-Hf; by apply floor_same).
  change (active_wire_streak s2) with (active_wire_streak s + 1). unfold progress.
  case_match eqn:Em; [apply Z.ltb_lt in Em|apply Z.ltb_ge in Em].
  { split; [done|]. left. cbn. nia. }
  rewrite Hsh, Hf2. cbn [negb andb]. unfold count_round.
  set (s3 := set_wires_failed_in_round _ _).
  change (wires_failed_in_round s3) with (saturating_inc (wires_failed_in_round s)). rewrite Hj.
  assert (pinned_past s3 deadline) as Hp3.
  { unfold pinned_past. cbn. case_match eqn:E; [|done]. case_match; simplify_eq. lia. }
  case_match eqn:Er; [apply Z.leb_le in Er|apply Z.leb_gt in Er].
  - split; [done|]. right. split; [nia|]. split; [done|]. split; [done|]. unfold progress. cbn. lia.
  - split; [done|]. left. cbn. rewrite Hj. nia.
Qed.
Lemma fail_active_progress s f now deadline :
  shuffle_wires uplink = true -> carrier_downgrade uplink = false ->
  (1 < total_wires uplink <= 255)%nat -> clamped_min_failures probe < 2 ^ 32 ->
  wires_ok s -> payload_integrity f = false ->
  pinned_past s deadline -> now < deadline <= now + mode_downgrade_duration lb ->
  let s' := fail_active s (f, now) in
  let m := clamped_min_failures probe in
  let T := Z.of_nat (total_wires uplink) in
  wires_ok s' /\ pinned_past s' deadline /\
  ((progress s + 1 < T * m /\ progress s' = progress s + 1) \/ (progress s + 1 = T * m /\ given_up s' now)).
Proof.
  intros Hsh Hcd Ht Hm Hw Hf Hp Hd. cbn zeta.
  rewrite fail_active_eq; [|done|lia|unfold pin_live; unfold pinned_past in Hp; case_match; [lia|done]|done].
  destruct (descended_wires s f now) as (Ha & Hk & Hr).
  assert (wires_ok (descended s f now)) as Hw' by (by apply (wires_ok_same s)).
  split; [apply record_wire_outcome_wires; [lia|done]|].
  rewrite <-Ha. replace (progress s) with (progress (descended s f now)) by (unfold progress; congruence).
  apply outcome_progress; try done; try lia.
  - unfold wire_is_at_carrier_floor. by rewrite Hcd.
  - unfold pinned_past. by rewrite descended_pin.
Qed.
Lemma failures_progress fs s t0 :
  shuffle_wires uplink = true -> carrier_downgrade uplink = false ->
  (1 < total_wires uplink <= 255)%nat -> clamped_min_failures probe < 2 ^ 32 ->
  wires_ok s -> pinned_past s (t0 + mode_downgrade_duration lb) ->
  Forall (fun x => payload_integrity x.1 = false /\ t0 <= x.2 < t0 + mode_downgrade_duration lb) fs ->
  progress s + zlen fs < Z.of_nat (total_wires uplink) * clamped_min_failures probe ->
  let s' := foldl fail_active s fs in
  wires_ok s' /\ pinned_past s' (t0 + mode_downgrade_duration lb) /\ progress s' = progress s + zlen fs.
Proof.
  intros Hsh Hcd Ht Hm Hw Hp Hfs. revert s Hw Hp. induction Hfs as [|[f now] fs [Hf Hn] Hfs IH]; intros s Hw Hp Hlt.
  - cbn. unfold zlen. cbn. split_and!; [done..|lia].
  - cbn [fst snd] in *. rewrite zlen_cons in *. pose proof (zlen_nonneg fs). cbn [foldl].
    destruct (fail_active_progress s f now (t0 + mode_downgrade_duration lb)) as (Hw1 & Hp1 & [[H1 H2]|[H1 _]]);
      try done; try lia.
    destruct (IH (fail_active s (f, now))) as (? & ? & ?); [done..|lia|]. split_and!; [done..|lia].
Qed.

(** C29: a dead uplink is given up. For an uplink of 2 to 255 wires under
    [shuffle_wires] that do not descend to another carrier, at the start of a round
    and with no pin that ends before the last failure: traffic fails, and nothing
    else happens - no success, no probe, no re-roll -, each failure charged to the
    wire that is active then, none of them for payload integrity, all within one
    pin. The failure that makes [min_failures] for each of the wires, whatever the
    failures are and whether or not the group probes, marks the uplink unhealthy,
    puts it into cooldown from that moment, and starts the round over. (With a
    single wire, or without [shuffle_wires], there is no round and nothing here is
    claimed.) *)
Theorem dead_uplink_is_given_up s fs f now t0 :
  shuffle_wires uplink = true -> carrier_downgrade uplink = false ->
  (1 < total_wires uplink <= 255)%nat -> clamped_min_failures probe < 2 ^ 32 ->
  wires_ok s -> progress s = 0 -> pinned_past s (t0 + mode_downgrade_duration lb) ->
  Forall (fun x => payload_integrity x.1 = false /\ t0 <= x.2 < t0 + mode_downgrade_duration lb) (fs ++ [(f, now)]) ->
  zlen (fs ++ [(f, now)]) = Z.of_nat (total_wires uplink) * clamped_min_failures probe ->
  given_up (foldl fail_active s (fs ++ [(f, now)])) now.
Proof.
  intros Hsh Hcd Ht Hm Hw H0 Hp [Hfs [[Hf Hn] _]%Forall_cons]%Forall_app Hl. rewrite zlen_app in Hl.
  change (zlen [(f, now)]) with 1 in Hl. cbn [fst snd] in *.
  destruct (failures_progress fs s t0) as (Hw1 & Hp1 & Hpr); try done; [lia|].
  rewrite foldl_app. cbn [foldl].
  destruct (fail_active_progress (foldl fail_active s fs) f now (t0 + mode_downgrade_duration lb))
    as (_ & _ & [[H1 _]|[_ ?]]); try done; lia.
Qed.

(** ** The primary wire under traffic failures *)
Definition mild s : Prop := match capped_to (descent s) with Some cap => 1 <= rank cap | None => True end.
Lemma mild_extend s now :
  rank (dial_mode kind (primary uplink)) = 2 -> mild s -> mild (extend_mode_downgrade s RuntimeFailure now).
Proof.
  intros H2 Hm. unfold extend_mode_downgrade. do 2 (case_match; [done|]). case_match eqn:Hc; [|done].
  assert (rank t = 1) as Ht.
  { unfold descent_cap in Hc. cbn in Hc. destruct (one_step_down _) eqn:E in Hc; [|done]. cbn in Hc.
    apply one_step_down_rank in E. case_match; [done|]. simplify_eq. lia. }
  match goal with |- context [apply_descent_trigger ?d ?t] =>
    assert (match capped_to (apply_descent_trigger d t).1 with Some cap => 1 <= rank cap | None => True end) as Hd;
    [destruct (apply_descent_trigger_cases d t) as [(_ & _ & -> & _)|(_ & a & _ & _ & _ & Hcap & _)]; [done|];
     rewrite Hcap; destruct (next_cap_cases d t) as [->|Hn]; [cbn; lia|]; unfold mild in Hm; by rewrite Hn in Hm
    |destruct (apply_descent_trigger d t) as [d' []]] end; [exact Hd|]. destruct (cap_changed a); exact Hd.
Qed.
Lemma charge_health s f now :
  probe_enabled probe = true -> shuffle_wires uplink = true -> (1 < total_wires uplink)%nat -> wires_ok s ->
  healthy (charge_runtime_failure s f now) = healthy s.
Proof.
  intros Hp Hsh Ht (_ & _ & Hr). 
  assert (forall x, wires_failed_in_round x = wires_failed_in_round s -> round_active x = true) as Hra.
  { intros x Hx. unfold round_active. rewrite Hx, Hsh, (proj2 (Nat.ltb_lt _ _) Ht). cbn. apply Z.ltb_lt. lia. }
  unfold charge_runtime_failure. rewrite Hp. cbn [negb].
  repeat case_match; try done;
    match goal with H : _ && negb (round_active _) = true |- _ =>
      rewrite andb_true_iff, negb_true_iff in H; destruct H as [_ H]; by rewrite Hra in H end.
Qed.

Lemma mild_floor s now :
  carrier_downgrade uplink = true -> rank (dial_mode kind (primary uplink)) = 2 -> mild s ->
  wire_is_at_carrier_floor s 0 now = false.
Proof.
  intros Hcd H2 Hm. apply not_true_is_false. rewrite floor_primary, Hcd. intros [|H]; [done|].
  revert H. unfold effective, active_cap. unfold mild in Hm.
  destruct (until (descent s)), (capped_to (descent s)); cbn; [case_match|..]; cbn; lia.
Qed.
Lemma primary_outcome s wire now :
  shuffle_wires uplink = true -> active_wire s = 0 -> wire_is_at_carrier_floor s 0 now = false ->
  let s' := record_wire_outcome s wire false (Z.of_nat (total_wires uplink)) now in
  active_wire s' = 0 /\ wires_failed_in_round s' = wires_failed_in_round s /\ healthy s' = healthy s.
Proof.
  intros Hsh H0 Hf. cbn zeta. unfold record_wire_outcome. case_match; [done|].
  case_match eqn:Ew; [done|]. apply negb_false_iff, Z.eqb_eq in Ew.
  case_match; [done|]. rewrite Hsh. set (s2 := set_active_wire_streak _ _).
  assert (wire_is_at_carrier_floor s2 (Z.to_nat wire) now = false) as Hf2.
  { replace (Z.to_nat wire) with 0%nat; [rewrite <-Hf; by apply floor_same|]. cbn in Ew. by rewrite Ew, H0. }
  by rewrite Hf2.
Qed.
(** A status the failures of the primary have left as it was. *)
Definition unmoved s x : Prop :=
  wires_ok x /\ active_wire x = 0 /\ mild x /\ wires_failed_in_round x = wires_failed_in_round s /\ healthy x = healthy s.
Lemma unmoved_read s x now : unmoved s x -> unmoved s (active_wire_now x now).1.
Proof.
  intros (Hw & Ha & Hm & Hr & Hh). split; [by apply active_wire_now_wires|]. rewrite active_wire_now_active.
  split; [done|]. split; [unfold mild; by rewrite (proj1 (active_wire_now_caps x now))|].
  rewrite <-Hr, <-Hh. unfold active_wire_now. by repeat case_match.
Qed.
Section primary.
Context (Hsh : shuffle_wires uplink = true) (Hcd : carrier_downgrade uplink = true)
  (Hp : probe_enabled probe = true) (Ht : (1 < total_wires uplink <= 255)%nat)
  (H2 : rank (dial_mode kind (primary uplink)) = 2).
Lemma unmoved_charge s x f now : unmoved s x -> unmoved s (charge_runtime_failure x f now).
Proof.
  intros (Hw & Ha & Hm & Hr & Hh). destruct (charge_same x f now) as [(Hd1 & _) Hs1].
  split; [by apply (wires_ok_same x)|]. destruct Hs1 as (Ha1 & _ & Hr1).
  split; [congruence|]. split; [unfold mild; by rewrite Hd1|]. split; [congruence|].
  rewrite <-Hh. by apply charge_health; [| |lia|].
Qed.
Lemma unmoved_descend s x w now : unmoved s x -> default 0 w = 0 -> unmoved s (descend_on_failure x w now).
Proof.
  intros (Hw & Ha & Hm & Hr & Hh) Hw0.
  assert (descend_on_failure x w now = extend_mode_downgrade x RuntimeFailure now) as ->.
  { unfold descend_on_failure. destruct w as [w|]; [|done]. cbn in Hw0. subst w. by case_match. }
  split; [by apply (wires_ok_same x); [apply extend_wires|]|].
  destruct (extend_wires x RuntimeFailure now) as (-> & _ & ->).
  split; [done|]. split; [by apply mild_extend|]. split; [done|].
  rewrite <-Hh. unfold extend_mode_downgrade. by repeat case_match.
Qed.
Lemma unmoved_outcome s x w now :
  unmoved s x -> unmoved s (record_wire_outcome x w false (Z.of_nat (total_wires uplink)) now).
Proof.
  intros (Hw & Ha & Hm & Hr & Hh).
  destruct (primary_outcome x w now Hsh Ha (mild_floor _ _ Hcd H2 Hm)) as (Ha4 & Hr4 & Hh4).
  split; [by apply record_wire_outcome_wires; [lia|]|]. split; [done|].
  split; [unfold mild; by rewrite (proj1 (record_wire_outcome_caps x w false _ now))|]. split; congruence.
Qed.
Lemma unmoved_attributed s x w f now : unmoved s x -> default 0 w = 0 -> unmoved s (attributed_failure x w f now).
Proof.
  intros Hx Hw. unfold attributed_failure. case_match; [done|].
  set (x1 := if try_again f then _ else _).
  assert (unmoved s x1) as Hx1.
  { unfold x1. case_match; [by apply unmoved_charge|]. by apply unmoved_descend; [apply unmoved_charge|]. }
  clearbody x1. case_match; [|done]. pose proof (unmoved_read s x1 now Hx1) as Hx2.
  destruct (active_wire_now x1 now). by apply unmoved_outcome.
Qed.
Lemma unmoved_report s x w f now : unmoved s x -> unmoved s (report_runtime_failure x w f now).
Proof.
  intros Hx. unfold report_runtime_failure. destruct w as [w|]; [|by apply unmoved_attributed].
  pose proof (unmoved_read s x now Hx) as Hx0. pose proof (active_wire_now_snd x now) as Hact.
  destruct (active_wire_now x now) as [x0 active]. cbn [fst snd] in *.
  rewrite (proj2 (Nat.ltb_lt _ _)) by lia. case_match eqn:Ew; [done|]. apply negb_false_iff, Z.eqb_eq in Ew.
  apply unmoved_attributed; [done|]. cbn. destruct Hx as (_ & Ha & _). congruence.
Qed.
End primary.

(** Traffic failures alone never take an uplink off a primary wire that is
    configured at the top of its ladder: a failure charges the primary's
    configured carrier and not the one in force, so its cap stays one step down,
    above the floor the rotation waits for. However many failures are reported,
    the active wire and the round do not move, nor, with probes on, the health
    verdict. *)
Theorem primary_kept_by_traffic_failures s (fs : list (option Z * FailureClass * Z)) :
  shuffle_wires uplink = true -> carrier_downgrade uplink = true -> probe_enabled probe = true ->
  (1 < total_wires uplink <= 255)%nat ->
  rank (dial_mode kind (primary uplink)) = 2 -> status_ok s -> active_wire s = 0 -> mild s ->
  let s' := foldl (fun s '(wire, f, now) => report_runtime_failure s wire f now) s fs in
  active_wire s' = 0 /\ wires_failed_in_round s' = wires_failed_in_round s /\ healthy s' = healthy s.
Proof.
  intros Hsh Hcd Hp Ht H2 Hs H0 Hm. cbn zeta.
  assert (unmoved s s) as Hu by (destruct Hs; by split_and!).
  enough (unmoved s (foldl (fun s '(wire, f, now) => report_runtime_failure s wire f now) s fs)) as (? & ? & ? & ? & ?) by done.
  revert Hu. generalize s at 2 4. induction fs as [|[[wire f] now] fs IH]; intros x Hx; [done|].
  cbn [foldl]. by apply IH, unmoved_report.
Qed.

(** ** A fallback wire under traffic failures *)
(** In the window [t0, t0 + duration) the slot dials [k] ranks below what it is
    configured for. *)
Definition lowered (fallback : WireConfig) (t0 k : Z) (slot : ModeDowngradeSlot) : Prop :=
  let configured := dial_mode kind fallback in
  fallback_ok fallback slot /\
  forall now, t0 <= now < t0 + mode_downgrade_duration lb ->
    rank (effective configured (slot_descent slot) now) = Z.max 0 (rank configured - k).
Lemma lowered_step fallback t0 k now slot :
  0 <= k -> t0 <= now < t0 + mode_downgrade_duration lb -> lowered fallback t0 k slot ->
  lowered fallback t0 (k + 1) (extend_slot slot (dial_mode kind fallback) RuntimeFailure now).
Proof.
  intros Hk Hn [Hok Hl]. split; [by apply extend_slot_ok|]. intros now' Hn'.
  set (configured := dial_mode kind fallback) in *. pose proof (Hl now Hn) as He.
  destruct (slot_ok_effective configured _ now (proj1 Hok)) as [Hef Her]. pose proof (rank_nonneg configured).
  unfold extend_slot. cbn [carried_mode default]. fold (effective configured (slot_descent slot) now).
  set (e := effective configured (slot_descent slot) now) in *.
  unfold descent_cap. destruct (one_step_down e) as [c|] eqn:Ec.
  2:{ cbn. rewrite (Hl now' Hn'). assert (rank e = 0) by (apply floor_mode_rank; unfold is_carrier_floor_mode; by rewrite Ec). lia. }
  apply one_step_down_rank in Ec as [Hcf Hcr]. cbn [mbind option_bind].
  assert (negb (bool_decide (family c = family configured)) || (rank configured <=? rank c) = false) as ->
    by (apply below_dec; split; [congruence|lia]).
  match goal with |- context [apply_descent_trigger ?d ?t] =>
    destruct (apply_descent_trigger_cases d t) as [(_ & _ & Hx & Hy)|(_ & a & Hx & _ & _ & Hcap & Hu & _)];
    [|destruct (apply_descent_trigger d t) as [d' dec]; cbn [fst snd] in *; subst dec] end.
  - exfalso. revert Hy. destruct Hok as [_ Hanchor].
    match goal with |- context [apply_descent_trigger ?d ?t] =>
      destruct (apply_descent_trigger_cases d t) as [(Hg & _)|(_ & a & -> & _)]; [|done] end.
    unfold grace_gate_active, within in Hg. rewrite Hanchor, !andb_true_iff in Hg. naive_solver.
  - cbn [slot_descent]. unfold effective, active_cap. rewrite Hcap, Hu. cbn [t_now t_duration].
    assert (forall u, (now' <? u) = true -> forall m, rank m = Z.max 0 (rank configured - (k + 1)) ->
      rank (default configured (if now' <? u then Some m else None)) = Z.max 0 (rank configured - (k + 1))) as Hd
      by (intros u -> m; done).
    assert (rank c = Z.max 0 (rank configured - (k + 1))) as Hrc by (pose proof (rank_nonneg c); lia).
    match goal with |- context [next_cap ?d ?t] => assert (next_cap d t = c) as -> end.
    { unfold next_cap. cbn. unfold e, effective, active_cap in Hcr.
      destruct (until (slot_descent slot)) as [u|], (capped_to (slot_descent slot)) as [cap|]; try done. cbn in *.
      destruct (now <? u); [cbn in *|done]. rewrite (proj2 (Z.ltb_ge _ _)) by lia. by rewrite andb_false_r. }
    destruct (until (slot_descent slot)) as [u|];
      [destruct (u <? now + mode_downgrade_duration lb) eqn:Eadv; [|apply Z.ltb_ge in Eadv]|];
      (apply Hd; [apply Z.ltb_lt; lia|done]).
Qed.
Definition slot_of s (i : nat) : ModeDowngradeSlot := default slot_default (fallback_mode_downgrades s !! i).
Lemma floor_fallback s i fallback now :
  carrier_downgrade uplink = true -> fallbacks uplink !! i = Some fallback ->
  wire_is_at_carrier_floor s (S i) now = (rank (effective (dial_mode kind fallback) (slot_descent (slot_of s i)) now) =? 0).
Proof.
  intros Hcd Hfb. unfold wire_is_at_carrier_floor. rewrite Hcd, Hfb. cbn [negb].
  assert (has_carrier_ladder (transport fallback) = true) as -> by (by destruct (transport fallback)). cbn [negb].
  unfold wire_capped_or_configured, slot_of, effective. apply eq_true_iff_eq. rewrite floor_mode_rank, Z.eqb_eq.
  by destruct (fallback_mode_downgrades s !! i).
Qed.
Lemma descended_slot s i fallback f now :
  carrier_downgrade uplink = true -> fallbacks uplink !! i = Some fallback -> try_again f = false ->
  active_wire s = Z.of_nat (S i) ->
  slot_of (descended s f now) i = extend_slot (slot_of s i) (dial_mode kind fallback) RuntimeFailure now.
Proof.
  intros Hcd Hfb Hf Ha. unfold descended. rewrite Hf, Ha, Nat2Z.id.
  destruct (charge_same s f now) as [[_ Hs] _]. cbn [extend_mode_downgrade_for_wire]. rewrite Hcd, Hfb. cbn [negb].
  assert (has_carrier_ladder (transport fallback) = true) as -> by (by destruct (transport fallback)). cbn [negb].
  unfold slot_of. cbn. rewrite lookup_grow_update, decide_True by done. cbn. by rewrite Hs.
Qed.

Section fallback.
Context (Hsh : shuffle_wires uplink = true) (Hcd : carrier_downgrade uplink = true)
  (Ht : (1 < total_wires uplink <= 255)%nat) (Hm : clamped_min_failures probe < 2 ^ 32).
Context (i : nat) (fallback : WireConfig) (Hfb : fallbacks uplink !! i = Some fallback).
(** The failures the wire survives: [min_failures] of them, or as many as its
    ladder has steps. *)
Definition patience : Z := Z.max (clamped_min_failures probe) (rank (dial_mode kind fallback)).
(** After [k] failures on the wire. *)
Definition failing s (t0 k : Z) : Prop :=
  active_wire s = Z.of_nat (S i) /\
  active_wire_streak s = (if k <? clamped_min_failures probe then k else 0) /\
  lowered fallback t0 k (slot_of s i) /\ pinned_past s (t0 + mode_downgrade_duration lb).
Lemma failing_step s t0 k f now :
  0 <= k < patience -> failing s t0 k ->
  payload_integrity f = false -> try_again f = false -> t0 <= now < t0 + mode_downgrade_duration lb ->
  let s' := fail_active s (f, now) in
  (k + 1 < patience /\ failing s' t0 (k + 1)) \/
  (k + 1 = patience /\ active_wire s' = (Z.of_nat (S i) + 1) mod Z.of_nat (total_wires uplink)).
Proof.
  intros Hk (Ha & Hs & Hl & Hp) Hf1 Hf2 Hn. cbn zeta.
  rewrite fail_active_eq; [|done|lia|unfold pin_live; unfold pinned_past in Hp; case_match; [lia|done]|done].
  pose proof (descended_slot s i fallback f now Hcd Hfb Hf2 Ha) as Hsl.
  pose proof (descended_pin s f now) as Hpin. destruct (descended_wires s f now) as (Ha' & Hs' & _).
  pose proof (lowered_step fallback t0 k now _ (proj1 Hk) Hn Hl) as Hl'. rewrite <-Hsl in Hl'.
  set (s1 := descended s f now) in *. clearbody s1. rewrite Ha in *. rewrite Hs in Hs'. clear Hs Hsl Hl.
  pose proof clamped_pos. pose proof (rank_nonneg (dial_mode kind fallback)) as Hr0.
  assert (rank (dial_mode kind fallback) <= 2) as Hr2 by (by destruct (dial_mode kind fallback)).
  unfold patience in *. set (m := clamped_min_failures probe) in *. set (r := rank (dial_mode kind fallback)) in *.
  unfold record_wire_outcome. rewrite (proj2 (Z.leb_gt _ _)) by lia.
  set (s2 := add_wire_penalty s1 _ now). change (active_wire_streak s2) with (active_wire_streak s1).
  change (active_wire s2) with (active_wire s1). rewrite Ha', Z.eqb_refl. cbn [negb].
  assert (saturating_inc (active_wire_streak s1) = active_wire_streak s1 + 1) as ->.
  { unfold saturating_inc. rewrite Hs'. case_match; lia. }
  set (s3 := set_active_wire_streak s2 _). change (active_wire_streak s3) with (active_wire_streak s1 + 1).
  fold m. assert (wire_is_at_carrier_floor s3 (Z.to_nat (Z.of_nat (S i))) now = (Z.max 0 (r - (k + 1)) =? 0)) as Hfl.
  { rewrite Nat2Z.id, (floor_fallback _ _ _ _ Hcd Hfb). change (slot_of s3 i) with (slot_of s1 i).
    by rewrite (proj2 Hl' now Hn). }
  assert (pinned_past s1 (t0 + mode_downgrade_duration lb)) as Hp1 by (unfold pinned_past; by rewrite Hpin).
  destruct (active_wire_streak s1 + 1 <? m) eqn:Em; [apply Z.ltb_lt in Em|apply Z.ltb_ge in Em].
  { left. split; [destruct (k <? m) eqn:E in Hs'; [|apply Z.ltb_ge in E]; lia|]. split_and!; [done| |done|done].
    cbn. rewrite Hs' in *. destruct (k <? m) eqn:E; [|apply Z.ltb_ge in E; lia].
    fold m. by rewrite (proj2 (Z.ltb_lt (k + 1) m)) by lia. }
  rewrite Hsh, Hfl. cbn [andb].
  destruct (Z.max 0 (r - (k + 1)) =? 0) eqn:Ef; cbn [negb]; [apply Z.eqb_eq in Ef|apply Z.eqb_neq in Ef].
  - right. rewrite count_round_active. cbn. rewrite Ha', (Z.mod_small (Z.of_nat (total_wires uplink)) 256) by lia.
    split; [|done]. destruct (k <? m) eqn:E in Hs'; [apply Z.ltb_lt in E|apply Z.ltb_ge in E]; lia.
  - left. split; [lia|]. split_and!; [done| |done|done]. cbn. fold m.
    destruct (k + 1 <? m) eqn:E; [apply Z.ltb_lt in E|done].
    destruct (k <? m) eqn:E' in Hs'; [|apply Z.ltb_ge in E']; lia.
Qed.
Lemma failing_steps s t0 fs :
  Forall (fun x => payload_integrity x.1 = false /\ try_again x.1 = false /\ t0 <= x.2 < t0 + mode_downgrade_duration lb) fs ->
  forall k, 0 <= k -> k + zlen fs < patience -> failing s t0 k -> failing (foldl fail_active s fs) t0 (k + zlen fs).
Proof.
  intros Hfs. revert s. induction Hfs as [|[f now] fs (Hf1 & Hf2 & Hn) Hfs IH]; intros s k Hk Hlt Hs.
  - cbn. unfold zlen. cbn. by rewrite Z.add_0_r.
  - cbn [fst snd foldl] in *. rewrite zlen_cons in *. pose proof (zlen_nonneg fs).
    destruct (failing_step s t0 k f now) as [[H1 H2]|[H1 _]]; try done; [lia| |lia].
    replace (k + (1 + zlen fs)) with ((k + 1) + zlen fs) by lia. apply IH; [lia|lia|done].
Qed.
End fallback.

(** A fallback wire on which traffic keeps failing is left exactly when its
    [max(min_failures, rank)]-th failure is reported: until then it stays the
    active wire while its carrier goes down a rank with every failure, and that
    failure, which finds the carrier at its floor, makes the next wire active. *)
Theorem broken_fallback_is_left s i fallback fs f now t0 :
  shuffle_wires uplink = true -> carrier_downgrade uplink = true ->
  (1 < total_wires uplink <= 255)%nat -> clamped_min_failures probe < 2 ^ 32 ->
  fallbacks uplink !! i = Some fallback -> failing i fallback s t0 0 ->
  Forall (fun x => payload_integrity x.1 = false /\ try_again x.1 = false /\ t0 <= x.2 < t0 + mode_downgrade_duration lb)
    (fs ++ [(f, now)]) ->
  zlen (fs ++ [(f, now)]) = patience fallback ->
  active_wire (foldl fail_active s fs) = Z.of_nat (S i) /\
  active_wire (foldl fail_active s (fs ++ [(f, now)])) = (Z.of_nat (S i) + 1) mod Z.of_nat (total_wires uplink).
Proof.
  intros Hsh Hcd Ht Hm Hfb H0 [Hfs [(Hf1 & Hf2 & Hn) _]%Forall_cons]%Forall_app Hl. rewrite zlen_app in Hl.
  change (zlen [(f, now)]) with 1 in Hl. pose proof (zlen_nonneg fs).
  pose proof (failing_steps Hsh Hcd Ht Hm i fallback Hfb s t0 fs Hfs 0 ltac:(lia) ltac:(lia) H0) as Hk.
  rewrite Z.add_0_l in Hk. split; [apply Hk|]. rewrite foldl_app. cbn [foldl].
  destruct (failing_step Hsh Hcd Ht Hm i fallback Hfb (foldl fail_active s fs) t0 (zlen fs) f now) as [[H1 _]|[_ ?]]; try done; lia.
Qed.

(** ** The order wires are dialled in *)
Definition all_wires (u : UplinkConfig) : list Z := map Z.of_nat (seq 0 (total_wires u)).
Lemma position_front w l pos : position w l = Some pos -> exists l', move_to_front pos l = w :: l' /\ w :: l' ≡ₚ l.
Proof.
  intros Hp. assert (l !! pos = Some w) as Hw.
  { revert pos Hp. induction l as [|x l IH]; intros pos Hp; [done|]. cbn in Hp.
    case_match eqn:E; [apply Z.eqb_eq in E; naive_solver|].
    destruct (position w l); cbn in Hp; [|done]. simplify_eq. cbn. by apply IH. }
  unfold move_to_front. rewrite Hw. eexists. split; [done|].
  etransitivity; [apply Permutation_middle|]. by rewrite take_drop_middle.
Qed.
Lemma position_none w l : position w l = None -> ~ (w ∈ l).
Proof.
  induction l as [|x l IH]; cbn; [intros _; apply not_elem_of_nil|]. case_match eqn:E; [done|]. apply Z.eqb_neq in E.
  destruct (position w l); [done|]. rewrite elem_of_cons. naive_solver.
Qed.
Lemma rotation_permutation a total :
  (a < total)%nat ->
  map (fun offset => Z.of_nat ((a + offset) mod total)) (seq 0 total) ≡ₚ map Z.of_nat (seq 0 total).
Proof.
  intros Ha. symmetry. apply NoDup_Permutation_bis.
  - apply NoDup_ListNoDup, (NoDup_fmap_2 Z.of_nat), NoDup_seq.
  - by rewrite !length_map.
  - intros x (y & <- & Hy%in_seq)%in_map_iff. apply in_map_iff.
    assert ((a + (if a <=? y then y - a else y + total - a)) mod total = y)%nat as He.
    { destruct (Nat.leb_spec a y); [rewrite Nat.mod_small; lia|].
      replace (a + (y + total - a))%nat with (y + 1 * total)%nat by lia. rewrite Nat.Div0.mod_add. apply Nat.mod_small. lia. }
    exists (if (a <=? y)%nat then y - a else y + total - a)%nat. split; [by rewrite He|]. apply in_seq.
    destruct (Nat.leb_spec a y); lia.
Qed.

(** The order a session dials the wires in has every wire exactly once and,
    unless the active wire is penalised and the selection weighted, the active
    wire first; so no wire that could serve the session is skipped and none is
    dialled twice. *)
Theorem dial_order_complete s permuted unpenalised now :
  wires_ok s -> permuted ≡ₚ all_wires uplink ->
  let order := (wire_dial_order s permuted unpenalised now).2 in
  order ≡ₚ all_wires uplink /\
  (health_weighted_selection lb = false \/ unpenalised (active_wire s) = true -> head order = Some (active_wire s)).
Proof.
  intros (Ha & _ & _) Hp. unfold wire_dial_order, all_wires in *. set (total := total_wires uplink) in *.
  case_match eqn:Et.
  { apply Nat.leb_le in Et. cbn. replace total with 1%nat in * by lia. cbn. split; [done|]. intros _. f_equal. lia. }
  pose proof (active_wire_now_snd s now) as Hact. destruct (active_wire_now s now) as [s0 active]. cbn in Hact. subst active.
  assert (Z.of_nat (Z.to_nat (active_wire s)) = active_wire s) as Hz by lia.
  case_match; cbn [snd].
  - rewrite (proj2 (Nat.ltb_lt _ _)) by lia. cbn [andb].
    assert (active_wire s ∈ permuted) as Hin.
    { rewrite Hp. apply list_elem_of_fmap. exists (Z.to_nat (active_wire s)). split; [lia|]. apply elem_of_seq. lia. }
    case_match eqn:Eu; [|split; [done|naive_solver congruence]].
    case_match eqn:Epos.
    + destruct (position_front _ _ _ Epos) as (l' & -> & Hl'). split; [by rewrite Hl'|done].
    + exfalso. by apply position_none in Epos.
  - rewrite Nat.min_l by lia. split; [apply rotation_permutation; lia|]. intros _.
    destruct total as [|n]; [lia|]. cbn [seq map head]. rewrite Nat.add_0_r, Nat.mod_small by lia. by rewrite Hz.
Qed.
End round.

(** * Concrete uplinks on which the theorems about wires and carriers apply *)
Local Open Scope Z_scope.

Definition vless_wire : WireConfig := mkWire Vless WsH3 WsH3 XhttpH3 None false false.
Definition ss_wire : WireConfig := mkWire Ss WsH3 WsH2 XhttpH3 None false false.
Definition demo_uplink (carrier : bool) : UplinkConfig := mkUplink vless_wire [ss_wire] carrier true None.
Definition demo_balancing : LoadBalancingConfig := mkBalancing 60 10 30 0 false false.
Definition demo_env (carrier : bool) : Env unit :=
  mkEnv unit (demo_uplink carrier) Tcp demo_balancing (mkProbe 2 true) tt (fun _ _ => tt).
Definition reset_failure : FailureClass := mkFailure false false false false.
#[local] Instance demo : Env unit := demo_env true.
Definition at_wire (w : Z) : PerTransportStatus unit := set_active_wire status_default w.

Definition demo_ops : list (WireOp * Z) :=
  [(OpRuntimeFailure None reset_failure, 1); (OpProbeErr true XhttpH3, 2); (OpProbeErr true XhttpH2, 3);
   (OpProbeErr true XhttpH2, 4); (OpRuntimeFailure (Some 0) reset_failure, 5)].
Lemma wires_stay_in_bounds_witness :
  let s := run_ops status_default demo_ops in
  effective_mode_for_wire s 0 6 = XhttpH1 /\ active_wire s = 1 /\ 0 <= active_wire s < Z.of_nat (total_wires uplink).
Proof.
  cbn zeta. split; [vm_compute; reflexivity|]. split; [vm_compute; reflexivity|].
  destruct (wires_stay_in_bounds demo_ops (run_ops status_default demo_ops)) as [H _]; [vm_compute; lia|reflexivity|].
  exact H.
Defined.
Lemma rotation_waits_for_floor_witness :
  let s := run_ops (at_wire 1) [(OpRuntimeFailure (Some 1) reset_failure, 1)] in
  let s' := apply_op s (OpRuntimeFailure (Some 1) reset_failure) 2 in
  active_wire s' = 0 /\ wire_is_at_carrier_floor s' 1 2 = true.
Proof.
  split; [vm_compute; reflexivity|].
  assert (caps_ok (run_ops (at_wire 1) [(OpRuntimeFailure (Some 1) reset_failure, 1)])) as Hc.
  { apply run_ops_status; [vm_compute; lia|]. split; [|vm_compute; split_and!; congruence].
    apply (caps_ok_same status_default); [done|]. apply status_default_ok. }
  destruct (rotation_waits_for_floor (run_ops (at_wire 1) [(OpRuntimeFailure (Some 1) reset_failure, 1)])
    (OpRuntimeFailure (Some 1) reset_failure) 2) as [H|[[H _]|H]];
    [reflexivity|vm_compute; congruence|exact Hc|vm_compute; congruence|discriminate H|discriminate H|exact H].
Defined.
Lemma broken_fallback_is_left_witness :
  active_wire (foldl fail_active (at_wire 1) [(reset_failure, 5)]) = 1 /\
  active_wire (foldl fail_active (at_wire 1) ([(reset_failure, 5)] ++ [(reset_failure, 9)])) = 0.
Proof.
  change 1 with (Z.of_nat 1) at 1. change 0 with ((Z.of_nat 1 + 1) mod Z.of_nat (total_wires uplink)) at 1.
  apply (broken_fallback_is_left (at_wire 1) 0 ss_wire [(reset_failure, 5)] reset_failure 9 5); try reflexivity.
  - vm_compute. lia.
  - split_and!; try reflexivity. split; [apply fallback_ok_default|]. intros now _. reflexivity.
  - repeat constructor; vm_compute; congruence.
Defined.
Lemma primary_kept_by_traffic_failures_witness :
  let fs := replicate 20 (Some 0, reset_failure, 1) ++ replicate 20 (None, reset_failure, 50) in
  let s' := foldl (fun s '(wire, f, now) => report_runtime_failure s wire f now) status_default fs in
  active_wire s' = 0 /\ wires_failed_in_round s' = 0 /\ healthy s' = None.
Proof.
  apply primary_kept_by_traffic_failures; try reflexivity; [vm_compute; lia|apply status_default_ok].
Defined.
Lemma dial_order_complete_witness :
  let order := (wire_dial_order (at_wire 1) [1; 0] (fun _ => true) 5).2 in
  order = [1; 0] /\ order ≡ₚ all_wires uplink.
Proof.
  split; [reflexivity|].
  apply (dial_order_complete (at_wire 1) [1; 0] (fun _ => true) 5).
  - vm_compute. split_and!; congruence.
  - vm_compute. constructor.
Defined.
Lemma caps_expire_witness :
  let t := mkTrigger 5 60 WsH2 WsH3 false false 2 0 in
  let s := foldl slot_step descent_default [STrigger t] in
  effective WsH3 s 64 = WsH2 /\ effective WsH3 s 65 = WsH3.
Proof.
  split; [reflexivity|]. apply (caps_expire WsH3 [STrigger (mkTrigger 5 60 WsH2 WsH3 false false 2 0)] 65).
  repeat constructor. vm_compute. congruence.
Defined.
Lemma grace_budget_witness :
  let t n := mkTrigger n 60 WsH2 WsH3 false false 2 0 in
  let s' := foldl (fun s t => (apply_descent_trigger s t).1) (clear_and_open_grace descent_default 0) [t 100; t 200] in
  active_cap s' 201 = None /\ capped_to (apply_descent_trigger s' (t 210)).1 = Some WsH2.
Proof.
  cbn zeta.
  destruct (grace_budget descent_default 0
    [mkTrigger 100 60 WsH2 WsH3 false false 2 0; mkTrigger 200 60 WsH2 WsH3 false false 2 0]
    (mkTrigger 210 60 WsH2 WsH3 false false 2 0) 2) as (H1 & H2 & _);
    [vm_compute; split_and!; reflexivity|repeat constructor|reflexivity|lia|split; [apply H1|apply H2]].
Defined.
Lemma dead_uplink_is_given_up_witness :
  let env := demo_env false in
  let fs := [(reset_failure, 1); (reset_failure, 2); (reset_failure, 3)] in
  let s' := foldl (fail_active (env := env)) (status_default (env := env)) (fs ++ [(reset_failure, 4)]) in
  healthy s' = Some false /\ cooldown_until s' = Some 14.
Proof.
  cbn zeta.
  destruct (dead_uplink_is_given_up (env := demo_env false) (status_default (env := demo_env false))
    [(reset_failure, 1); (reset_failure, 2); (reset_failure, 3)] reset_failure 4 1) as (H1 & H2 & _);
    [reflexivity|reflexivity|vm_compute; lia|vm_compute; reflexivity|vm_compute; split_and!; congruence|reflexivity
    |exact I|repeat constructor; vm_compute; congruence|reflexivity|exact (conj H1 H2)].
Defined.
