(* ===== verification/SortBy.v ===== *)
(** [slice::sort_by] and [Iterator::max_by] of Rust's standard library, for the
    comparators of the uplink manager: a stable insertion sort, and what a
    comparator that is a total preorder makes of it. *)
From stdpp Require Import sorting.
From S2P Require Import Prelude.
Local Open Scope Z_scope.

(** A stable sort by a comparison; [Ordering] is [comparison]. *)
Definition then_with (o next : comparison) : comparison := match o with Eq => next | _ => o end.
Fixpoint insert_by {A} (cmp : A -> A -> comparison) (x : A) (l : list A) : list A :=
  match l with
  | [] => [x]
  | y :: l' => match cmp x y with Gt => y :: insert_by cmp x l' | _ => x :: l end
  end.
Definition sort_by {A} (cmp : A -> A -> comparison) (l : list A) : list A := foldr (insert_by cmp) [] l.
(** [iter().max_by(cmp)]: the last of the greatest. *)
Definition max_by {A} (cmp : A -> A -> comparison) (l : list A) : option A :=
  foldl (fun best x => match best with
                       | None => Some x
                       | Some y => match cmp y x with Gt => Some y | _ => Some x end
                       end) None l.

Class TotalPreorder {A} (cmp : A -> A -> comparison) : Prop := mkPreorder {
  cmp_anti x y : cmp y x = CompOpp (cmp x y);
  cmp_trans r x y z : cmp x y = r -> cmp y z = r -> cmp x z = r
}.
Section preorder.
Context {A : Type}.
Implicit Types cmp c d : A -> A -> comparison.

Lemma cmp_refl cmp `{!TotalPreorder cmp} x : cmp x x = Eq.
Proof. pose proof (cmp_anti x x) as H. by destruct (cmp x x). Qed.
Lemma cmp_eq_l cmp `{!TotalPreorder cmp} x y z : cmp x y = Eq -> cmp x z = cmp y z.
Proof.
  intros E. pose proof (cmp_anti x y) as E'. rewrite E in E'. cbn in E'.
  destruct (cmp x z) eqn:Ex, (cmp y z) eqn:Ey; try done; exfalso.
  - pose proof (cmp_trans Eq y x z E' Ex). congruence.
  - pose proof (cmp_trans Eq y x z E' Ex). congruence.
  - pose proof (cmp_trans Eq x y z E Ey). congruence.
  - pose proof (cmp_anti y z) as Ez. rewrite Ey in Ez. cbn in Ez.
    pose proof (cmp_trans Lt x z y Ex Ez). congruence.
  - pose proof (cmp_trans Eq x y z E Ey). congruence.
  - pose proof (cmp_anti x z) as Ez. rewrite Ex in Ez. cbn in Ez.
    pose proof (cmp_trans Lt y z x Ey Ez). congruence.
Qed.
Lemma then_with_preorder c d :
  TotalPreorder c -> TotalPreorder d -> TotalPreorder (fun x y => then_with (c x y) (d x y)).
Proof.
  intros Hc Hd. split.
  - intros x y. rewrite (cmp_anti (cmp := c) x y). destruct (c x y); cbn; auto. by rewrite (cmp_anti (cmp := d) x y).
  - intros r x y z. destruct (c x y) eqn:E.
    + rewrite (cmp_eq_l c x y z E). cbn. destruct (c y z); cbn; try congruence. apply cmp_trans.
    + destruct (c y z) eqn:E2; cbn; intros Hr Hs; subst r.
      * pose proof (cmp_anti (cmp := c) y z) as E3. rewrite E2 in E3. cbn in E3.
        pose proof (cmp_eq_l c z y x E3) as E4. pose proof (cmp_anti (cmp := c) x y) as E5.
        rewrite E in E5. cbn in E5. pose proof (cmp_anti (cmp := c) z x) as E6. rewrite E4, E5 in E6. by rewrite E6.
      * by rewrite (cmp_trans Lt x y z E E2).
      * done.
    + destruct (c y z) eqn:E2; cbn; intros Hr Hs; subst r.
      * pose proof (cmp_anti (cmp := c) y z) as E3. rewrite E2 in E3. cbn in E3.
        pose proof (cmp_eq_l c z y x E3) as E4. pose proof (cmp_anti (cmp := c) x y) as E5.
        rewrite E in E5. cbn in E5. pose proof (cmp_anti (cmp := c) z x) as E6. rewrite E4, E5 in E6. by rewrite E6.
      * done.
      * by rewrite (cmp_trans Gt x y z E E2).
Qed.
Lemma by_key_preorder (f : A -> Z) : TotalPreorder (fun x y => f x ?= f y).
Proof.
  split; [intros x y; apply Z.compare_antisym|].
  intros [] x y z; rewrite ?Z.compare_eq_iff, ?Z.compare_lt_iff, ?Z.compare_gt_iff; lia.
Qed.
Lemma flip_preorder c : TotalPreorder c -> TotalPreorder (fun x y => CompOpp (c x y)).
Proof.
  intros H. split; [intros x y; by rewrite (cmp_anti (cmp := c) x y)|].
  intros r x y z Hx Hy. destruct (c x y) eqn:E1, (c y z) eqn:E2; subst r; try done; by rewrite (cmp_trans _ _ _ _ E1 E2).
Qed.

(** What [cmp] puts no later. *)
Definition no_later cmp x y : Prop := cmp x y <> Gt.
Lemma no_later_trans cmp `{!TotalPreorder cmp} x y z : no_later cmp x y -> no_later cmp y z -> no_later cmp x z.
Proof.
  unfold no_later. intros H1 H2.
  destruct (cmp x y) eqn:E1; [by rewrite (cmp_eq_l cmp x y z E1)| |done].
  destruct (cmp y z) eqn:E2; [|by rewrite (cmp_trans Lt x y z E1 E2)|done].
  pose proof (cmp_anti (cmp := cmp) y z) as E3. rewrite E2 in E3. cbn in E3.
  rewrite (cmp_anti (cmp := cmp) z x), (cmp_eq_l cmp z y x E3), (cmp_anti (cmp := cmp) x y), E1. done.
Qed.

Lemma insert_ordered_perm cmp x l : insert_by cmp x l ≡ₚ x :: l.
Proof.
  induction l as [|y l IH]; [done|]. cbn. destruct (cmp x y); [done|done|]. rewrite IH. apply Permutation_swap.
Qed.
Lemma sort_ordered_perm cmp l : sort_by cmp l ≡ₚ l.
Proof. induction l as [|x l IH]; [done|]. cbn. by rewrite insert_ordered_perm, IH. Qed.
Lemma elem_of_sort_by cmp x l : x ∈ sort_by cmp l <-> x ∈ l.
Proof. by rewrite sort_ordered_perm. Qed.
Lemma insert_by_sorted cmp `{!TotalPreorder cmp} x l :
  StronglySorted (no_later cmp) l -> StronglySorted (no_later cmp) (insert_by cmp x l).
Proof.
  induction l as [|y l IH]; cbn; intros Hs; [repeat constructor|].
  apply StronglySorted_cons in Hs as [Hy Hl].
  destruct (cmp x y) eqn:E.
  3: { apply StronglySorted_cons. split; [|by apply IH]. rewrite insert_ordered_perm. apply Forall_cons. split; [|done].
       unfold no_later. rewrite (cmp_anti x y), E. done. }
  all: apply StronglySorted_cons; split; [|by apply StronglySorted_cons];
    (assert (no_later cmp x y) as Hxy by (unfold no_later; congruence));
    apply Forall_cons; split; [done|]; eapply Forall_impl; [exact Hy|];
    intros z Hz; by apply (no_later_trans cmp x y z).
Qed.
Lemma sort_ordered_sorted cmp `{!TotalPreorder cmp} l : StronglySorted (no_later cmp) (sort_by cmp l).
Proof. induction l as [|x l IH]; [constructor|]. cbn. by apply insert_by_sorted. Qed.

(** The first of a sorted list is no later than any other. *)
Lemma sort_by_head cmp `{!TotalPreorder cmp} l x r : sort_by cmp l = x :: r -> x ∈ l /\ forall y, y ∈ l -> no_later cmp x y.
Proof.
  intros E. pose proof (sort_ordered_sorted cmp l) as Hs. rewrite E in Hs.
  apply StronglySorted_cons in Hs as [Hx _]. split.
  - rewrite <- (elem_of_sort_by cmp), E. apply list_elem_of_here.
  - intros y Hy. rewrite <- (elem_of_sort_by cmp), E in Hy. apply elem_of_cons in Hy as [->|Hy].
    + unfold no_later. by rewrite cmp_refl.
    + rewrite Forall_forall in Hx. by apply Hx.
Qed.
End preorder.
(** A sort whose ties are never between different elements depends on the set
    only. *)
Lemma sort_by_unique {A} (cmp : A -> A -> comparison) `{!TotalPreorder cmp} l l' :
  (forall x y, x ∈ l -> y ∈ l -> cmp x y = Eq -> x = y) -> l ≡ₚ l' -> sort_by cmp l = sort_by cmp l'.
Proof.
  intros Htie Hp. apply (StronglySorted_unique_strong (no_later cmp)).
  - intros x y Hx Hy H1 H2. rewrite elem_of_sort_by in Hx, Hy. rewrite <- Hp in Hy. apply Htie; [done..|].
    unfold no_later in *. rewrite (cmp_anti x y) in H2. by destruct (cmp x y).
  - by apply sort_ordered_sorted.
  - by apply sort_ordered_sorted.
  - by rewrite !sort_ordered_perm.
Qed.
#[export] Hint Resolve by_key_preorder flip_preorder then_with_preorder : core.
