(* ===== verification/Selection.v ===== *)
(** How one uplink is judged ([crates/outline-uplink/src/selection.rs],
    [manager/status.rs], [config.rs]) and where its choice is kept
    ([routing_key.rs]): its health under a routing scope, the score it is ranked
    by, the keys of the sticky routes.

    Latencies, penalties and weights are [f64]s in the code. Only the order of
    the weights and of the loss ratios is used, so they are integers here; the
    float arithmetic that makes a latency out of a measurement, a decayed penalty
    and a weight is the class [Scoring]. A [Duration] is a number of nanoseconds,
    and saturates. An instant passed once stands for the readings of the clock
    one operation makes. *)
From S2P Require Import Prelude Target UplinkDescent UplinkWires.
Local Open Scope Z_scope.

(** ** Configuration *)
Inductive LoadBalancingMode : Type := ActiveActive | ActivePassive.
Inductive RoutingScope : Type := PerFlow | PerUplink | PerClient | Global.
#[export] Instance LoadBalancingMode_eq_dec : EqDecision LoadBalancingMode.
Proof. solve_decision. Defined.
#[export] Instance RoutingScope_eq_dec : EqDecision RoutingScope.
Proof. solve_decision. Defined.
#[export] Instance TransportKind_eq_dec : EqDecision TransportKind.
Proof. solve_decision. Defined.
#[export] Instance UplinkTransport_eq_dec : EqDecision UplinkTransport.
Proof. solve_decision. Defined.

(** The fields of [LoadBalancingConfig] the selection reads, with
    [probe.enabled()] and [probe.min_failures]. *)
Record BalancingConfig : Type := mkBalancingConfig {
  mode : LoadBalancingMode;
  routing_scope : RoutingScope;
  shared_resume : bool;
  sticky_ttl : Z;
  hysteresis : Z;
  failure_penalty_max : Z;
  balancing_failure_window : Z;
  global_udp_strict_health : bool;
  auto_failback : bool;
  carrier_degraded_failover : option Z;
  loss_failover_ratio : Z;
  loss_failover_duration : option Z;
  loss_max_staleness : Z;
  reselect_at : list (Z * Z);
  reselect_sync : bool;
  probes : bool;
  probe_min_failures : Z
}.

(** The URLs of one wire: only whether they are set. *)
Record WireUrls : Type := mkUrls {
  udp_ws_url : bool;
  udp_xhttp_url : bool;
  vless_ws_url : bool;
  vless_xhttp_url : bool
}.
Definition is_xhttp (m : TransportMode) : bool := match m with XhttpH1 | XhttpH2 | XhttpH3 => true | _ => false end.
Definition combined_ss_url (w : WireConfig) : bool := ss_xhttp_url w || ss_ws_url w.
Definition vless_dial_url (w : WireConfig) (urls : WireUrls) : bool :=
  if is_xhttp (vless_mode w) then vless_xhttp_url urls else vless_ws_url urls.
(** [udp_dial_url().is_some()] *)
Definition udp_dial_url (w : WireConfig) (urls : WireUrls) : bool :=
  match transport w with
  | Vless => vless_dial_url w urls
  | Ss =>
    if is_combined_ss w then combined_ss_url w
    else if is_xhttp (udp_mode w) then udp_xhttp_url urls else udp_ws_url urls
  end.
Record Uplink : Type := mkUplinkEntry {
  name : String.string;
  weight : Z;
  own_wire : WireConfig * WireUrls;
  fallback_wires : list (WireConfig * WireUrls)
}.
Definition supports_udp (u : Uplink) : bool := udp_dial_url (own_wire u).1 (own_wire u).2.
Definition supports_udp_any (u : Uplink) : bool :=
  supports_udp u || existsb (fun fb => udp_dial_url fb.1 fb.2) (fallback_wires u).
Definition supports_transport_for_scope (u : Uplink) (k : TransportKind) (scope : RoutingScope) : bool :=
  match k with Tcp => true | Udp => supports_udp_any u end.

(** ** Durations *)
Definition DURATION_MAX : Z := 2 ^ 64 * 10 ^ 9 - 1.
Definition dur_add (a b : Z) : Z := Z.min (a + b) DURATION_MAX.
Arguments DURATION_MAX : simpl never.
Arguments dur_add : simpl never.

(** What the scoring computes in floats: the decayed penalty, the blended
    latency of the active wire, its loss ratio, [latency / weight], and the UDP
    tie-breaker of the global score. *)
Class Scoring (Penalty Measure : Type) : Type := mkScoring {
  fresh_penalty : Penalty;
  fresh_measure : Measure;
  current_penalty : Penalty -> Z -> option Z;
  base_latency_with : Measure -> Z -> Z -> option Z;
  wire_loss_ratio : Measure -> Z -> option Z;
  weighted_latency : Z -> Z -> Z;
  udp_tie_break : Z -> Z -> Z
}.

Section selection.
Context {Penalty Measure : Type} `{sc : !Scoring Penalty Measure}.

(** ** Statuses *)
(** [PerTransportStatus]: the wires of [UplinkWires], and what is measured on
    them. *)
Record TransportStatus : Type := mkTransportStatus {
  wires : PerTransportStatus Penalty;
  measured : Measure;
  loss_elevated_since : option Z;
  loss_last_qualifying_at : option (Z * Z)
}.
Record UplinkStatus : Type := mkUplinkStatus {
  status_tcp : TransportStatus;
  status_udp : TransportStatus;
  last_checked : option Z
}.
Definition transport_status_default : TransportStatus :=
  mkTransportStatus (mkStatus None fresh_penalty None 0 0 0 None 0 None descent_default [] [] None None 0 None 0 None 0 0 None false)
    fresh_measure None None.
Definition uplink_status_default : UplinkStatus :=
  mkUplinkStatus transport_status_default transport_status_default None.
Definition leg (s : UplinkStatus) (k : TransportKind) : TransportStatus :=
  match k with Tcp => status_tcp s | Udp => status_udp s end.

Record TransportSelectionView : Type := mkView {
  view_healthy : option bool;
  view_cooldown_until : option Z;
  view_consecutive_successes : Z;
  view_penalty : Penalty;
  view_descent_until : option Z;
  view_descent_started_at : option Z;
  view_base_latency : option Z;
  view_loss_elevated_since : option Z;
  view_loss_ratio : option Z;
  view_loss_fresh : bool
}.
Record SelectionView : Type := mkSelectionView { view_tcp : TransportSelectionView; view_udp : TransportSelectionView }.
Definition view_of (v : SelectionView) (k : TransportKind) : TransportSelectionView :=
  match k with Tcp => view_tcp v | Udp => view_udp v end.

(** Whether the stamp of the last qualifying window vouches for the ratio. *)
Definition loss_is_fresh (s : TransportStatus) (max_staleness now : Z) : bool :=
  match loss_last_qualifying_at s with
  | Some (wire, t) => (wire =? active_wire (wires s)) && (duration_since now t <=? max_staleness)
  | None => false
  end.
Definition update_loss_elevated_since (s : TransportStatus) (threshold now max_staleness : Z) : TransportStatus :=
  if threshold <=? 0 then mkTransportStatus (wires s) (measured s) None (loss_last_qualifying_at s)
  else
    let elevated :=
      loss_is_fresh s max_staleness now
      && match wire_loss_ratio (measured s) (active_wire (wires s)) with Some ratio => threshold <? ratio | None => false end in
    mkTransportStatus (wires s) (measured s)
      (if elevated then match loss_elevated_since s with Some t => Some t | None => Some now end else None)
      (loss_last_qualifying_at s).
Definition transport_selection_view (c : BalancingConfig) (s : TransportStatus) (now : Z) : TransportSelectionView :=
  mkView (healthy (wires s)) (cooldown_until (wires s)) (consecutive_successes (wires s)) (penalty (wires s))
    (until (descent (wires s))) (window_started_at (descent (wires s)))
    (base_latency_with (measured s) (active_wire (wires s)) now)
    (loss_elevated_since s) (wire_loss_ratio (measured s) (active_wire (wires s)))
    (loss_is_fresh s (loss_max_staleness c) now).
Definition selection_view (c : BalancingConfig) (s : UplinkStatus) (now : Z) : SelectionView :=
  mkSelectionView (transport_selection_view c (status_tcp s) now) (transport_selection_view c (status_udp s) now).

(** [trait TransportStatusView], implemented by the status and by its
    projection. *)
Class StatusHalf (T : Type) : Type := mkHalf {
  half_healthy : T -> option bool;
  half_cooldown_until : T -> option Z;
  half_penalty : T -> Penalty;
  half_descent_until : T -> option Z;
  half_descent_started_at : T -> option Z
}.
#[global] Instance status_half : StatusHalf TransportStatus :=
  mkHalf _ (fun s => healthy (wires s)) (fun s => cooldown_until (wires s)) (fun s => penalty (wires s))
    (fun s => until (descent (wires s))) (fun s => window_started_at (descent (wires s))).
#[global] Instance view_half : StatusHalf TransportSelectionView :=
  mkHalf _ view_healthy view_cooldown_until view_penalty view_descent_until view_descent_started_at.

Definition cooldown_active {T} `{!StatusHalf T} (t : T) (now : Z) : bool := later_than (half_cooldown_until t) now.
Definition cooldown_remaining {T} `{!StatusHalf T} (t : T) (now : Z) : Z :=
  match half_cooldown_until t with Some until => duration_since until now | None => 0 end.
Definition effective_health {T} `{!StatusHalf T} (t : T) (now : Z) : bool :=
  bool_decide (half_healthy t = Some true) && negb (cooldown_active t now).
Definition carrier_degraded_since {T} `{!StatusHalf T} (t : T) (now : Z) : option Z :=
  if later_than (half_descent_until t) now then half_descent_started_at t else None.

(** ** Health *)
Definition any_wire_recent_success (c : BalancingConfig) (u : Uplink) (t : TransportStatus) (now : Z) : bool :=
  match fallback_wires u, last_any_wire_success (wires t) with
  | [], _ | _, None => false
  | _, Some last => duration_since now last <=? balancing_failure_window c
  end.
Definition fallback_bootstrap_allowed (u : Uplink) (t : TransportStatus) (now : Z) : bool :=
  match fallback_wires u with
  | [] => false
  | _ => negb (cooldown_active t now) && bool_decide (last_any_wire_success (wires t) = None)
  end.
Definition leg_health (c : BalancingConfig) (u : Uplink) (t : TransportStatus) (now : Z) : bool :=
  effective_health t now || any_wire_recent_success c u t now || fallback_bootstrap_allowed u t now.
Definition selection_health (c : BalancingConfig) (u : Uplink) (s : UplinkStatus) (k : TransportKind) (now : Z) : bool :=
  match routing_scope c with
  | Global =>
    leg_health c u (status_tcp s) now
    && (negb (global_udp_strict_health c)
        || negb (supports_udp u)
        || negb (bool_decide (healthy (wires (status_udp s)) = Some false)) && negb (cooldown_active (status_udp s) now))
  | _ => leg_health c u (leg s k) now
  end.
Definition strict_gate_transport (scope : RoutingScope) (k : TransportKind) : TransportKind :=
  match scope with Global => Tcp | _ => k end.

(** ** Scores *)
Definition effective_latency (c : BalancingConfig) (v : TransportSelectionView) (now : Z) : option Z :=
  let penalty := current_penalty (view_penalty v) now in
  let penalty :=
    if later_than (view_descent_until v) now
    then Some (dur_add (match penalty with Some p => p | None => 0 end) (failure_penalty_max c))
    else penalty in
  match view_base_latency v, penalty with
  | Some base, Some penalty => Some (dur_add base penalty)
  | Some base, None => Some base
  | None, penalty => penalty
  end.
Definition weighted_latency_score (base : option Z) (weight : Z) : option Z :=
  match base with Some base => Some (weighted_latency base weight) | None => None end.
Definition score_latency (c : BalancingConfig) (v : SelectionView) (weight : Z) (k : TransportKind) (now : Z) : option Z :=
  weighted_latency_score (effective_latency c (view_of v k) now) weight.
Definition base_score_latency (v : SelectionView) (weight : Z) (k : TransportKind) : option Z :=
  weighted_latency_score (view_base_latency (view_of v k)) weight.
Definition global_selection_score_latency (c : BalancingConfig) (v : SelectionView) (weight now : Z) : option Z :=
  let score k := if auto_failback c then base_score_latency v weight k else score_latency c v weight k now in
  match score Tcp, score Udp with
  | Some tcp, Some udp => Some (udp_tie_break tcp udp)
  | Some tcp, None => Some tcp
  | None, udp => udp
  end.
Definition selection_score (c : BalancingConfig) (v : SelectionView) (weight : Z) (k : TransportKind) (now : Z) : option Z :=
  match routing_scope c with
  | Global => global_selection_score_latency c v weight now
  | PerUplink => base_score_latency v weight k
  | PerFlow | PerClient => score_latency c v weight k now
  end.
End selection.

(** ** Routing keys *)
Inductive RoutingKey : Type :=
  | GlobalKey
  | TransportGlobal (k : TransportKind)
  | TargetKey (k : TransportKind) (target : TargetAddr)
  | ClientKey (k : TransportKind) (client : String.string)
  | DefaultKey (k : TransportKind).
#[export] Instance RoutingKey_eq_dec : EqDecision RoutingKey.
Proof. solve_decision. Defined.
#[export] Instance TransportKind_countable : Countable TransportKind.
Proof.
  refine (inj_countable' (fun k => match k with Tcp => true | Udp => false end) (fun b => if b : bool then Tcp else Udp) _).
  by intros [].
Defined.
#[export] Instance TargetAddr_countable : Countable TargetAddr.
Proof.
  refine (inj_countable'
    (fun a => match a with IpV4 h p => (0%nat, h, p) | IpV6 h p => (1%nat, h, p) | Domain h p => (2%nat, h, p) end)
    (fun '(tag, h, p) => match tag with 0%nat => IpV4 h p | 1%nat => IpV6 h p | _ => Domain h p end) _).
  by intros [].
Defined.
#[export] Instance RoutingKey_countable : Countable RoutingKey.
Proof.
  refine (inj_countable'
    (fun key => match key with
                | GlobalKey => inl None
                | TransportGlobal k => inl (Some (true, k))
                | DefaultKey k => inl (Some (false, k))
                | TargetKey k t => inr (k, inl t)
                | ClientKey k s => inr (k, inr s)
                end)
    (fun e => match e with
              | inl None => GlobalKey
              | inl (Some (true, k)) => TransportGlobal k
              | inl (Some (false, k)) => DefaultKey k
              | inr (k, inl t) => TargetKey k t
              | inr (k, inr s) => ClientKey k s
              end) _).
  by intros [].
Defined.

Definition routing_key (k : TransportKind) (target : option TargetAddr) (client : option String.string)
    (scope : RoutingScope) : RoutingKey :=
  match scope with
  | Global => GlobalKey
  | PerUplink => TransportGlobal k
  | PerClient => match client with Some client => ClientKey k client | None => DefaultKey k end
  | PerFlow => match target with Some target => TargetKey k target | None => DefaultKey k end
  end.
Definition strict_route_key (k : TransportKind) (scope : RoutingScope) : RoutingKey :=
  match scope with
  | Global => GlobalKey
  | PerUplink => TransportGlobal k
  | PerFlow | PerClient => DefaultKey k
  end.

Arguments TransportStatus : clear implicits.
Arguments UplinkStatus : clear implicits.
Arguments TransportSelectionView : clear implicits.
Arguments SelectionView : clear implicits.
