(* ===== verification/Candidates.v ===== *)
(** Which uplink of a group new sessions use
    ([crates/outline-uplink/src/manager/candidates.rs], [manager/sticky.rs],
    [manager/state.rs], [state.rs]): the candidates and their orders, the strict
    active slot and when it moves, sticky routes, the operator's switches.

    [Manager] is the mutable part of [UplinkManagerInner], an operation one step
    on it. A vector of uplinks is indexed by positions the code takes from that
    same vector. A reason is a constructor where the code formats a string; logs
    and metrics are left out. *)
From S2P Require Import Prelude Target UplinkDescent UplinkWires SortBy Selection.
Local Open Scope Z_scope.

(** ** State *)
Inductive Detail : Type := ProbeUnhealthy (k : TransportKind) | CooldownActive (k : TransportKind).
Inductive FailoverCause : Type := RuntimeFailed | Because (d : Detail) | GateRejected.
Inductive Reason : Type :=
  | SuccessfulSelection | InitialSelection | AutoFailback | ManualSwitch | RestoredFromState
  | CarrierDegraded (from to : nat)
  | LossDriven (from to : nat)
  | Failover (cause : FailoverCause) (more : list Detail)
  | NoLongerSupports (k : TransportKind)
  | OtherReason (text : String.string).
(** [reason == "manual switch"] *)
Definition is_manual (r : Reason) : bool :=
  match r with
  | ManualSwitch => true
  | OtherReason text => bool_decide (text = "manual switch"%string)
  | _ => false
  end.
Inductive SwitchIntent : Type := OperatorHard | OperatorSoft | MachineFailover.
#[export] Instance SwitchIntent_eq_dec : EqDecision SwitchIntent.
Proof. solve_decision. Defined.
Definition migrates_live_flows (i : SwitchIntent) (shared_resume : bool) : bool :=
  match i with OperatorHard => false | OperatorSoft | MachineFailover => shared_resume end.
Definition from_operator_soft (applied_soft : bool) : SwitchIntent := if applied_soft then OperatorSoft else OperatorHard.

Record Slot : Type := mkSlot { slot_index : option nat; slot_reason : option Reason }.
Record ActiveUplinks : Type := mkActive { global : Slot; tcp : Slot; udp : Slot }.
Record ActiveUplinksSnapshot : Type := mkSnapshot {
  snap_global : option nat;
  snap_tcp : option nat;
  snap_udp : option nat;
  snap_intent : SwitchIntent
}.
#[export] Instance ActiveUplinksSnapshot_eq_dec : EqDecision ActiveUplinksSnapshot.
Proof. solve_decision. Defined.
Record StickyRoute : Type := mkSticky { uplink_index : nat; expires_at : Z }.
Record PersistedGroupState : Type := mkPersisted {
  global_active : option String.string;
  tcp_active : option String.string;
  udp_active : option String.string;
  disabled_uplinks : list String.string
}.
Record UplinkCandidate : Type := mkUplinkCandidate { index : nat; uplink_of : Uplink }.

Definition update_active (g : PersistedGroupState) (global tcp udp : option (option String.string)) : PersistedGroupState :=
  mkPersisted (match global with Some v => v | None => global_active g end)
    (match tcp with Some v => v | None => tcp_active g end)
    (match udp with Some v => v | None => udp_active g end) (disabled_uplinks g).
Fixpoint remove_first (n : String.string) (l : list String.string) : list String.string :=
  match l with [] => [] | x :: l => if bool_decide (x = n) then l else x :: remove_first n l end.
Definition update_uplink_enabled (g : PersistedGroupState) (n : String.string) (enabled : bool) : PersistedGroupState :=
  mkPersisted (global_active g) (tcp_active g) (udp_active g)
    (if enabled then remove_first n (disabled_uplinks g)
     else if bool_decide (n ∈ disabled_uplinks g) then disabled_uplinks g else disabled_uplinks g ++ [n]).

(** The rule both slots follow when the index moves. *)
Definition move_slot (s : Slot) (i : nat) (reason : Reason) : Slot :=
  let changed := negb (bool_decide (slot_index s = Some i)) in
  mkSlot (Some i)
    (if changed || match slot_reason s with None => true | Some _ => false end || is_manual reason
     then Some reason else slot_reason s).

Definition MAX_STICKY_ROUTES : nat := Z.to_nat 100000.
Arguments MAX_STICKY_ROUTES : simpl never.

(** [Ordering] of two optional scores, an absent one being [Duration::MAX]. *)
Definition score_or_max (score : option Z) : Z := match score with Some d => d | None => DURATION_MAX end.
Definition healthy_first (value : bool) : Z := if value then 1 else 0.
Definition higher_weight_first (left_weight right_weight : Z) : comparison := right_weight ?= left_weight.

Section manager.
Context {Penalty Measure : Type} `{sc : !Scoring Penalty Measure}.
Context (c : BalancingConfig) (us : list Uplink).

Record Manager : Type := mkManager {
  statuses : list (UplinkStatus Penalty Measure);
  admin_flags : list bool;
  active : ActiveUplinks;
  published : ActiveUplinksSnapshot;
  publications : nat;
  sticky_routes : gmap RoutingKey StickyRoute;
  persisted : option PersistedGroupState;
  probe_wakeup : bool
}.
Definition set_statuses (m : Manager) v := mkManager v (admin_flags m) (active m) (published m) (publications m) (sticky_routes m) (persisted m) (probe_wakeup m).
Definition set_flags (m : Manager) v := mkManager (statuses m) v (active m) (published m) (publications m) (sticky_routes m) (persisted m) (probe_wakeup m).
Definition set_active (m : Manager) v := mkManager (statuses m) (admin_flags m) v (published m) (publications m) (sticky_routes m) (persisted m) (probe_wakeup m).
Definition set_published (m : Manager) v n := mkManager (statuses m) (admin_flags m) (active m) v n (sticky_routes m) (persisted m) (probe_wakeup m).
Definition set_sticky (m : Manager) v := mkManager (statuses m) (admin_flags m) (active m) (published m) (publications m) v (persisted m) (probe_wakeup m).
Definition set_persisted (m : Manager) v := mkManager (statuses m) (admin_flags m) (active m) (published m) (publications m) (sticky_routes m) v (probe_wakeup m).
Definition wake_probes (m : Manager) := mkManager (statuses m) (admin_flags m) (active m) (published m) (publications m) (sticky_routes m) (persisted m) true.

Definition status_at (m : Manager) (i : nat) : UplinkStatus Penalty Measure :=
  match statuses m !! i with Some s => s | None => uplink_status_default end.
Definition weight_at (i : nat) : Z := match us !! i with Some u => weight u | None => 0 end.
Definition name_at (i : nat) : String.string := match us !! i with Some u => name u | None => EmptyString end.
Definition admin_enabled (m : Manager) (i : nat) : bool :=
  match admin_flags m !! i with Some flag => flag | None => true end.
Definition position_by_name (n : String.string) : option nat := fst <$> list_find (fun u => name u = n) us.

(** ** Modes *)
Definition strict_global_active_uplink : bool :=
  bool_decide (mode c = ActivePassive) && bool_decide (routing_scope c = Global).
Definition strict_per_uplink_active_uplink : bool :=
  bool_decide (mode c = ActivePassive) && bool_decide (routing_scope c = PerUplink).
Definition strict_active_uplink_for : bool := strict_global_active_uplink || strict_per_uplink_active_uplink.
Definition active_uplink_index_for_transport (m : Manager) (k : TransportKind) : option nat :=
  if strict_global_active_uplink then slot_index (global (active m))
  else if strict_per_uplink_active_uplink
  then match k with Tcp => slot_index (tcp (active m)) | Udp => slot_index (udp (active m)) end
  else None.

(** ** Candidates *)
Record CandidateState : Type := mkCandidate {
  cand_index : nat;
  cand_uplink : Uplink;
  cand_healthy : bool;
  cand_score : option Z;
  cand_status : SelectionView Penalty
}.
(** The uplinks an operator has left on that carry the transport. *)
Definition usable_uplinks (m : Manager) (k : TransportKind) : list (nat * Uplink) :=
  filter (fun p => supports_transport_for_scope p.2 k (routing_scope c))
    (filter (fun p => admin_enabled m p.1) (imap pair us)).
Definition candidate_state (m : Manager) (k : TransportKind) (now : Z) (p : nat * Uplink) : CandidateState :=
  let status := status_at m p.1 in
  let view := selection_view c status now in
  mkCandidate p.1 p.2 (selection_health c p.2 status k now) (selection_score c view (weight p.2) k now) view.
Definition build_candidate_states (m : Manager) (k : TransportKind) (now : Z) : list CandidateState :=
  candidate_state m k now <$> usable_uplinks m k.
Definition to_candidate (x : CandidateState) : UplinkCandidate := mkUplinkCandidate (cand_index x) (cand_uplink x).

Definition has_any_healthy (m : Manager) (k : TransportKind) (now : Z) : bool :=
  existsb (fun p => selection_health c p.2 (status_at m p.1) k now) (usable_uplinks m k).
Definition link_confirmed_down (m : Manager) (k : TransportKind) : bool :=
  match usable_uplinks m k with
  | [] => false
  | l => forallb (fun p => bool_decide (healthy (wires (leg (status_at m p.1) k)) = Some false)) l
  end.
Definition fresh (stamp : option Z) (now window : Z) : bool :=
  match stamp with Some t => duration_since now t <=? window | None => false end.
Definition has_recent_liveness_evidence (m : Manager) (k : TransportKind) (created_at now window : Z) : bool :=
  if duration_since now created_at <? window then true
  else existsb (fun p =>
         selection_health c p.2 (status_at m p.1) k now
         && (fresh (last_active (wires (leg (status_at m p.1) k))) now window
             || fresh (last_checked (status_at m p.1)) now window)) (usable_uplinks m k).

(** ** Orders *)
Definition primary_order (l r : CandidateState) : comparison :=
  then_with (CompOpp (healthy_first (cand_healthy l) ?= healthy_first (cand_healthy r)))
  (then_with (higher_weight_first (weight_at (cand_index l)) (weight_at (cand_index r)))
  (then_with (score_or_max (cand_score l) ?= score_or_max (cand_score r))
     (Z.of_nat (cand_index l) ?= Z.of_nat (cand_index r)))).
Definition initial_strict_order (l r : CandidateState) : comparison :=
  then_with (CompOpp (healthy_first (cand_healthy l) ?= healthy_first (cand_healthy r)))
  (then_with (higher_weight_first (weight_at (cand_index l)) (weight_at (cand_index r)))
  (then_with (score_or_max (cand_score l) ?= score_or_max (cand_score r))
     (Z.of_nat (cand_index l) ?= Z.of_nat (cand_index r)))).
Definition failover_order (gate : TransportKind) (now : Z) (l r : CandidateState) : comparison :=
  let remaining x := cooldown_remaining (view_of (cand_status x) gate) now in
  let score x := score_latency c (cand_status x) (weight_at (cand_index x)) gate now in
  then_with (CompOpp (healthy_first (cand_healthy l) ?= healthy_first (cand_healthy r)))
  (then_with (remaining l ?= remaining r)
  (then_with (higher_weight_first (weight_at (cand_index l)) (weight_at (cand_index r)))
  (then_with (score_or_max (score l) ?= score_or_max (score r))
     (Z.of_nat (cand_index l) ?= Z.of_nat (cand_index r))))).

(** ** When a healthy active yields *)
Definition find_index (l : list CandidateState) (i : nat) : option CandidateState :=
  List.find (fun x => bool_decide (cand_index x = i)) l.
Definition carrier_clean (x : CandidateState) (active_index : nat) (gate : TransportKind) (now : Z) : bool :=
  negb (bool_decide (cand_index x = active_index)) && cand_healthy x
  && (weight_at active_index <=? weight_at (cand_index x))
  && bool_decide (carrier_degraded_since (view_of (cand_status x) gate) now = None)
  && (probe_min_failures c <=? view_consecutive_successes (view_of (cand_status x) gate)).
Definition carrier_degraded_switch_target (l : list CandidateState) (active_index : nat) (gate : TransportKind) (now : Z)
    : option CandidateState :=
  match carrier_degraded_failover c, find_index l active_index with
  | Some threshold, Some act =>
    match carrier_degraded_since (view_of (cand_status act) gate) now with
    | Some since =>
      if duration_since now since <? threshold then None
      else List.find (fun x => carrier_clean x active_index gate now) l
    | None => None
    end
  | _, _ => None
  end.
Definition loss_clean (x : CandidateState) (active_index : nat) (gate : TransportKind) : bool :=
  let v := view_of (cand_status x) gate in
  negb (bool_decide (cand_index x = active_index)) && cand_healthy x
  && (weight_at active_index <=? weight_at (cand_index x))
  && (probe_min_failures c <=? view_consecutive_successes v)
  && match view_loss_ratio v with None => true | Some ratio => view_loss_fresh v && (ratio <=? loss_failover_ratio c) end.
Definition loss_failover_switch_target (l : list CandidateState) (active_index : nat) (gate : TransportKind) (now : Z)
    : option CandidateState :=
  if loss_failover_ratio c <=? 0 then None
  else
    match loss_failover_duration c, find_index l active_index with
    | Some threshold, Some act =>
      match view_loss_elevated_since (view_of (cand_status act) gate) with
      | Some since =>
        if duration_since now since <? threshold then None
        else List.find (fun x => loss_clean x active_index gate) l
      | None => None
      end
    | _, _ => None
    end.

(** The candidate [auto_failback] looks for. *)
Definition higher_priority (active_index : nat) (x : CandidateState) : bool :=
  (weight_at active_index <? weight_at (cand_index x))
  || (weight_at (cand_index x) =? weight_at active_index) && (cand_index x <? active_index)%nat.
Definition failback_best (l : list CandidateState) (active_index : nat) (gate : TransportKind) : option CandidateState :=
  max_by (fun a b => then_with (weight_at (cand_index a) ?= weight_at (cand_index b))
                       (Z.of_nat (cand_index b) ?= Z.of_nat (cand_index a)))
    (filter (fun x => higher_priority active_index x
                      && bool_decide (view_healthy (view_of (cand_status x) gate) = Some true)) l).
Definition best_is_stable (best : CandidateState) (gate : TransportKind) : bool :=
  probe_min_failures c <=? view_consecutive_successes (view_of (cand_status best) gate).

Definition transport_failover_detail (v : SelectionView Penalty) (k : TransportKind) (now : Z) (include_probe : bool)
    : option Detail :=
  if include_probe && bool_decide (view_healthy (view_of v k) = Some false) then Some (ProbeUnhealthy k)
  else if cooldown_active (view_of v k) now then Some (CooldownActive k)
  else None.
Definition strict_active_failure_details (x : CandidateState) (gate : TransportKind) (now : Z) : list Detail :=
  let transports :=
    if bool_decide (routing_scope c = Global) && supports_udp (cand_uplink x) && negb (bool_decide (gate = Udp))
    then [gate; Udp] else [gate] in
  omap (fun k => transport_failover_detail (cand_status x) k now (probes c)) transports.
Definition is_probe_detail (d : Detail) : bool := match d with ProbeUnhealthy _ => true | CooldownActive _ => false end.
Definition should_keep (details : list Detail) : bool :=
  let probe_healthy := if probes c then negb (existsb is_probe_detail details) else true in
  if bool_decide (routing_scope c = Global) && probes c then probe_healthy
  else probe_healthy && match details with [] => true | _ => false end.

(** What the strict selection makes of its active uplink. *)
Inductive Verdict : Type :=
  | Keep (x : CandidateState)
  | SwitchTo (x : CandidateState) (reason : Reason)
  | Failback
  | Reselect (reason : Reason).
Definition keep_or_failback (l : list CandidateState) (act : CandidateState) (gate : TransportKind) : Verdict :=
  if negb (auto_failback c) then Keep act
  else match failback_best l (cand_index act) gate with
       | Some best => if best_is_stable best gate then Failback else Keep act
       | None => Keep act
       end.
Definition judge_active (l : list CandidateState) (active_index : nat) (active_failed : bool) (gate : TransportKind)
    (now : Z) : Verdict :=
  match find_index l active_index with
  | Some act =>
    let details := strict_active_failure_details act gate now in
    if should_keep details && negb active_failed then
      match carrier_degraded_switch_target l active_index gate now with
      | Some target => SwitchTo target (CarrierDegraded active_index (cand_index target))
      | None =>
        match loss_failover_switch_target l active_index gate now with
        | Some target => SwitchTo target (LossDriven active_index (cand_index target))
        | None => keep_or_failback l act gate
        end
      end
    else
      Reselect (Failover (if active_failed then RuntimeFailed
                          else match details with d :: _ => Because d | [] => GateRejected end) (tail details))
  | None => Reselect (NoLongerSupports gate)
  end.

(** ** Sticky routes *)
Definition strict_pinned_route_key (key : RoutingKey) : bool :=
  match routing_scope c with
  | Global => strict_global_active_uplink && bool_decide (key = GlobalKey)
  | PerUplink => strict_per_uplink_active_uplink && match key with TransportGlobal _ => true | _ => false end
  | PerFlow | PerClient => false
  end.
Definition NANOS : Z := 10 ^ 9.
Arguments NANOS : simpl never.
Definition store_sticky_route (m : Manager) (key : RoutingKey) (i : nat) (now : Z) : Manager :=
  let pinned := strict_pinned_route_key key in
  if negb pinned && (MAX_STICKY_ROUTES <=? size (sticky_routes m))%nat && bool_decide (sticky_routes m !! key = None) then m
  else set_sticky m (<[key := mkSticky i (if pinned then now + 365 * 24 * 60 * 60 * NANOS else now + sticky_ttl c)]> (sticky_routes m)).
Definition refresh_sticky_route (m : Manager) (key : RoutingKey) (i : nat) (now : Z) : Manager :=
  let refresh_from := now + sticky_ttl c / 2 in
  match sticky_routes m !! key with
  | Some route =>
    if bool_decide (uplink_index route = i) && (refresh_from <? expires_at route) then m else store_sticky_route m key i now
  | None => store_sticky_route m key i now
  end.
Definition prune_sticky_routes (m : Manager) (now : Z) : Manager :=
  set_sticky m (filter (fun e => strict_pinned_route_key e.1 || (now <? expires_at e.2)) (sticky_routes m)).

(** The uplink an entry of the map leads to, [l] being the ordered candidates
    with [first] in front. *)
Definition sticky_choice (first : CandidateState) (l : list CandidateState) (sticky : CandidateState) (k : TransportKind) (now : Z)
    : nat :=
  if negb (cand_healthy sticky) then cand_index first
  else if bool_decide (mode c = ActivePassive) then cand_index sticky
  else
    let fastest := match List.find cand_healthy l with Some x => x | None => sticky end in
    let score x := score_latency c (cand_status x) (weight_at (cand_index x)) k now in
    match score sticky, score fastest with
    | Some sticky_score, Some fastest_score =>
      if negb (bool_decide (cand_index sticky = cand_index fastest)) && (fastest_score + hysteresis c <? sticky_score)
      then cand_index fastest else cand_index sticky
    | _, _ => cand_index sticky
    end.
Definition preferred_sticky_index (m : Manager) (key : RoutingKey) (k : TransportKind) (first : CandidateState)
    (l : list CandidateState) (now : Z) : Manager * option nat :=
  match sticky_routes m !! key with
  | Some route =>
    match find_index l (uplink_index route) with
    | Some sticky =>
      let i := sticky_choice first l sticky k now in
      (refresh_sticky_route m key i now, Some i)
    | None => (m, None)
    end
  | None => (m, None)
  end.
(** [position], [remove], [insert(0, ..)] *)
Definition bring_forward (i : nat) (l : list CandidateState) : list CandidateState :=
  match list_find (fun x => cand_index x = i) l with
  | Some (pos, x) => x :: take pos l ++ drop (S pos) l
  | None => l
  end.
Definition ordered_candidates (m : Manager) (k : TransportKind) (target : option TargetAddr) (client : option String.string)
    (now : Z) : Manager * list UplinkCandidate :=
  let key := routing_key k target client (routing_scope c) in
  match sort_by primary_order (build_candidate_states m k now) with
  | [] => (m, [])
  | (first :: _) as l =>
    match preferred_sticky_index m key k first l now with
    | (m, Some i) => (m, to_candidate <$> bring_forward i l)
    | (m, None) => (store_sticky_route m key (cand_index first) now, to_candidate <$> l)
    end
  end.

(** ** The active slot *)
Definition publish (m : Manager) (intent : SwitchIntent) : Manager :=
  let snapshot := mkSnapshot (slot_index (global (active m))) (slot_index (tcp (active m))) (slot_index (udp (active m))) intent in
  if bool_decide (published m = snapshot) then m else set_published m snapshot (S (publications m)).
Definition set_active_uplink_index_for_transport (m : Manager) (k : TransportKind) (i : nat) (reason : Reason)
    (intent : SwitchIntent) : Manager :=
  let a := active m in
  let m := set_active m
    (if strict_global_active_uplink then mkActive (move_slot (global a) i reason) (tcp a) (udp a)
     else if strict_per_uplink_active_uplink
     then match k with
          | Tcp => mkActive (global a) (move_slot (tcp a) i reason) (udp a)
          | Udp => mkActive (global a) (tcp a) (move_slot (udp a) i reason)
          end
     else a) in
  let chosen := Some (Some (name_at i)) in
  let m := set_persisted m
    (match persisted m with
     | Some g =>
       Some (if strict_global_active_uplink then update_active g chosen None None
             else match k with Tcp => update_active g None chosen None | Udp => update_active g None None chosen end)
     | None => None
     end) in
  publish m intent.

(** ** Strict selection *)
Definition commit_strict (m : Manager) (k : TransportKind) (x : CandidateState) (reason : Reason) (now : Z) : Manager :=
  store_sticky_route (set_active_uplink_index_for_transport m k (cand_index x) reason MachineFailover)
    (strict_route_key k (routing_scope c)) (cand_index x) now.
Definition strict_transport_candidates (m : Manager) (k : TransportKind) (failed_active_index : option nat)
    (commit_selection : bool) (now : Z) : Manager * list UplinkCandidate :=
  let current_active := active_uplink_index_for_transport m k in
  let gate := strict_gate_transport (routing_scope c) k in
  let order := match current_active with None => initial_strict_order | Some _ => primary_order end in
  let candidates := sort_by order (build_candidate_states m k now) in
  let finish (l : list CandidateState) (reason : Reason) :=
    if commit_selection then
      match l with x :: _ => (commit_strict m k x reason now, [to_candidate x]) | [] => (m, []) end
    else (m, to_candidate <$> l) in
  match candidates with
  | [] => (m, [])
  | _ =>
    match current_active with
    | None => finish candidates InitialSelection
    | Some active_index =>
      match judge_active candidates active_index (bool_decide (failed_active_index = Some active_index)) gate now with
      | Keep x =>
        (if commit_selection then store_sticky_route m (strict_route_key k (routing_scope c)) (cand_index x) now else m,
         [to_candidate x])
      | SwitchTo x reason => (if commit_selection then commit_strict m k x reason now else m, [to_candidate x])
      | Failback => finish candidates AutoFailback
      | Reselect reason => finish (sort_by (failover_order gate now) candidates) reason
      end
    end
  end.

(** ** The candidates of a session *)
Fixpoint push_group (x : UplinkCandidate) (groups : list (UplinkTransport * list UplinkCandidate))
    : list (UplinkTransport * list UplinkCandidate) :=
  let t := transport (own_wire (uplink_of x)).1 in
  match groups with
  | [] => [(t, [x])]
  | (kind, group) :: groups =>
    if bool_decide (kind = t) then (kind, group ++ [x]) :: groups else (kind, group) :: push_group x groups
  end.
Definition group_candidates_by_transport (l : list UplinkCandidate) : list UplinkCandidate :=
  concat (snd <$> foldl (fun groups x => push_group x groups) [] l).
Definition candidates_for (m : Manager) (k : TransportKind) (target : option TargetAddr) (client : option String.string) (now : Z)
    : Manager * list UplinkCandidate :=
  let '(m, l) :=
    if strict_active_uplink_for then strict_transport_candidates m k None true now
    else ordered_candidates m k target client now in
  (m, group_candidates_by_transport l).
Definition tcp_failover_candidates_for (m : Manager) (target : TargetAddr) (failed_active_index : nat)
    (client : option String.string) (now : Z) : Manager * list UplinkCandidate :=
  let '(m, l) :=
    if strict_active_uplink_for then strict_transport_candidates m Tcp (Some failed_active_index) false now
    else ordered_candidates m Tcp (Some target) client now in
  (m, group_candidates_by_transport l).

Definition clear_chunk0 (s : UplinkStatus Penalty Measure) : UplinkStatus Penalty Measure :=
  let t := status_tcp s in
  mkUplinkStatus (mkTransportStatus (set_chunk0_consecutive_failures (wires t) 0) (measured t) (loss_elevated_since t)
                    (loss_last_qualifying_at t)) (status_udp s) (last_checked s).
Definition confirm_selected_uplink_for (m : Manager) (k : TransportKind) (target : option TargetAddr)
    (client : option String.string) (i : nat) (now : Z) : Manager :=
  let key := routing_key k target client (routing_scope c) in
  let owns_active := negb (strict_global_active_uplink && probes c) in
  let m := if owns_active then set_active_uplink_index_for_transport m k i SuccessfulSelection MachineFailover else m in
  let m := store_sticky_route m key i now in
  match k with Tcp => set_statuses m (alter clear_chunk0 i (statuses m)) | Udp => m end.
Definition confirm_runtime_failover_uplink_for (m : Manager) (k : TransportKind) (target : option TargetAddr)
    (client : option String.string) (i : nat) (now : Z) : Manager :=
  if strict_global_active_uplink && probes c then m else confirm_selected_uplink_for m k target client i now.

(** ** The operator *)
Inductive OperatorError : Type := NotActivePassive | UnknownUplink.
Definition set_admin_enabled (m : Manager) (i : nat) (enabled : bool) : Manager * bool :=
  match admin_flags m !! i with
  | Some previous => (set_flags m (<[i := enabled]> (admin_flags m)), previous)
  | None => (m, true)
  end.
Definition reselect_both (m : Manager) (now : Z) : Manager :=
  let m := (strict_transport_candidates m Tcp None true now).1 in
  (strict_transport_candidates m Udp None true now).1.
Definition set_uplink_enabled_by_name (m : Manager) (n : String.string) (enabled : bool) (now : Z)
    : Manager * result OperatorError nat :=
  match position_by_name n with
  | None => (m, Err UnknownUplink)
  | Some i =>
    let '(m, previous) := set_admin_enabled m i enabled in
    if bool_decide (previous = enabled) then (m, Ok i)
    else
      let m := set_persisted m
        (match persisted m with Some g => Some (update_uplink_enabled g n enabled) | None => None end) in
      let m :=
        if enabled then m
        else
          let m := set_sticky m ∅ in
          if strict_active_uplink_for then reselect_both m now else m in
      (wake_probes m, Ok i)
  end.
Definition reset_all_uplink_statuses (m : Manager) : Manager :=
  set_statuses m ((fun _ => uplink_status_default) <$> statuses m).
Definition set_active_uplink_by_name (m : Manager) (n : String.string) (k : option TransportKind) (soft : bool) (now : Z)
    : Manager * result OperatorError (nat * bool) :=
  if negb (bool_decide (mode c = ActivePassive)) then (m, Err NotActivePassive)
  else
    let applied_soft := soft && shared_resume c in
    match position_by_name n with
    | None => (m, Err UnknownUplink)
    | Some i =>
      let intent := from_operator_soft applied_soft in
      let m := set_sticky (reset_all_uplink_statuses m) ∅ in
      let switch k m := set_active_uplink_index_for_transport m k i ManualSwitch intent in
      let m :=
        if strict_global_active_uplink then switch Tcp m
        else if strict_per_uplink_active_uplink
        then match k with Some k => switch k m | None => switch Udp (switch Tcp m) end
        else m in
      let seed k m := store_sticky_route m (strict_route_key k (routing_scope c)) i now in
      let m :=
        match routing_scope c with
        | Global => seed Tcp m
        | PerUplink => match k with Some k => seed k m | None => seed Udp (seed Tcp m) end
        | PerFlow | PerClient => m
        end in
      (wake_probes m, Ok (i, applied_soft))
    end.

(** The manager of a freshly loaded group, with what a previous run persisted. *)
Definition restored (n : option String.string) : Slot :=
  let i := match n with Some n => position_by_name n | None => None end in
  mkSlot i (match i with Some _ => Some RestoredFromState | None => None end).
Definition new_with_state (saved : option PersistedGroupState) : Manager :=
  let g := match saved with Some g => g | None => mkPersisted None None None [] end in
  let a := mkActive (restored (global_active g)) (restored (tcp_active g)) (restored (udp_active g)) in
  mkManager ((fun _ => uplink_status_default) <$> us)
    ((fun u => negb (bool_decide (name u ∈ disabled_uplinks g))) <$> us) a
    (mkSnapshot (slot_index (global a)) (slot_index (tcp a)) (slot_index (udp a)) OperatorHard) 0 ∅ saved false.
End manager.

Arguments Manager : clear implicits.
Arguments CandidateState : clear implicits.
