(* ===== verification/CandidatesFacts.v ===== *)
(** What the selection of an uplink guarantees: the candidates are the uplinks
    that may be used, what is returned is what is committed, a switch has a cause
    and lands on the best candidate, and a dispatch repeated changes nothing. *)
From stdpp Require Import sorting.
From S2P Require Import Prelude Target UplinkDescent UplinkWires SortBy Selection Candidates.
Local Open Scope Z_scope.

Section facts.
Context {Penalty Measure : Type} `{sc : !Scoring Penalty Measure}.
Context (c : BalancingConfig) (us : list Uplink).
Local Abbreviation Mgr := (Manager Penalty Measure).
Local Abbreviation Cand := (CandidateState Penalty).
Implicit Types (m : Mgr) (x y : Cand) (l : list Cand) (k : TransportKind).

(** ** The candidates *)
(** Left on by the operator, and able to carry the transport. *)
Definition may_use m k i u : Prop :=
  us !! i = Some u /\ admin_enabled m i = true /\ supports_transport_for_scope u k (routing_scope c) = true.

Lemma elem_of_usable m k i u : (i, u) ∈ usable_uplinks c us m k <-> may_use m k i u.
Proof.
  unfold usable_uplinks, may_use. rewrite !list_elem_of_filter, list_elem_of_lookup. cbn.
  rewrite <- !Is_true_true. setoid_rewrite list_lookup_imap. split.
  - intros (H1 & H2 & j & Hj). destruct (us !! j) eqn:E; [|done]. by simplify_eq/=.
  - intros (H1 & H2 & H3). split_and!; try done. exists i. by rewrite H1.
Qed.
Lemma elem_of_build m k now x :
  x ∈ build_candidate_states c us m k now <->
  exists i u, may_use m k i u /\ x = candidate_state c m k now (i, u).
Proof.
  unfold build_candidate_states. rewrite list_elem_of_fmap. split.
  - intros ([i u] & -> & H%elem_of_usable). eauto.
  - intros (i & u & H%elem_of_usable & ->). eauto.
Qed.
Lemma build_may_use m k now x : x ∈ build_candidate_states c us m k now -> may_use m k (cand_index x) (cand_uplink x).
Proof. intros (i & u & H & ->)%elem_of_build. exact H. Qed.
Lemma build_distinct m k now x y :
  x ∈ build_candidate_states c us m k now -> y ∈ build_candidate_states c us m k now -> cand_index x = cand_index y -> x = y.
Proof.
  intros (i & u & (Hu & _) & ->)%elem_of_build (j & v & (Hv & _) & ->)%elem_of_build. cbn. intros ->. by simplify_eq.
Qed.

(** ** The orders *)
#[global] Instance primary_order_total : TotalPreorder (primary_order (Penalty := Penalty) us).
Proof.
  unfold primary_order, higher_weight_first.
  apply then_with_preorder; [apply flip_preorder, (by_key_preorder (fun x => healthy_first (cand_healthy x)))|].
  apply then_with_preorder.
  { split; [intros x y; apply Z.compare_antisym|].
    intros [] x y z; rewrite ?Z.compare_eq_iff, ?Z.compare_lt_iff, ?Z.compare_gt_iff; lia. }
  apply then_with_preorder; [apply (by_key_preorder (fun x => score_or_max (cand_score x)))|].
  apply (by_key_preorder (fun x => Z.of_nat (cand_index x))).
Qed.
#[global] Instance failover_order_total gate now : TotalPreorder (failover_order c us gate now).
Proof.
  unfold failover_order, higher_weight_first.
  apply then_with_preorder; [apply flip_preorder, (by_key_preorder (fun x => healthy_first (cand_healthy x)))|].
  apply then_with_preorder; [apply (by_key_preorder (fun x => cooldown_remaining (view_of (cand_status x) gate) now))|].
  apply then_with_preorder.
  { split; [intros x y; apply Z.compare_antisym|].
    intros [] x y z; rewrite ?Z.compare_eq_iff, ?Z.compare_lt_iff, ?Z.compare_gt_iff; lia. }
  apply then_with_preorder; [|apply (by_key_preorder (fun x => Z.of_nat (cand_index x)))].
  apply (by_key_preorder (fun x => score_or_max (score_latency c (cand_status x) (weight_at us (cand_index x)) gate now))).
Qed.
Lemma then_with_eq o o' : then_with o o' = Eq <-> o = Eq /\ o' = Eq.
Proof. destruct o, o'; naive_solver. Qed.
Lemma primary_order_tie x y : primary_order us x y = Eq -> cand_index x = cand_index y.
Proof. unfold primary_order. rewrite !then_with_eq, !Z.compare_eq_iff. lia. Qed.
Lemma failover_order_tie gate now x y : failover_order c us gate now x y = Eq -> cand_index x = cand_index y.
Proof. unfold failover_order. rewrite !then_with_eq, !Z.compare_eq_iff. lia. Qed.

(** ** Lookups in a list of candidates *)
Lemma find_index_Some l i x : find_index l i = Some x -> x ∈ l /\ cand_index x = i.
Proof.
  unfold find_index. intros [H1 H2]%List.find_some. by rewrite bool_decide_eq_true in H2; rewrite list_elem_of_In.
Qed.
Lemma find_index_is_Some l x : x ∈ l -> is_Some (find_index l (cand_index x)).
Proof.
  unfold find_index. intros H%list_elem_of_In. destruct (List.find _ l) eqn:E; [by eauto|].
  pose proof (List.find_none _ _ E x H) as Hn. by rewrite bool_decide_eq_false in Hn.
Qed.
Lemma find_elem (P : Cand -> bool) l x : List.find P l = Some x -> x ∈ l /\ P x = true.
Proof. intros [H1 H2]%List.find_some. by rewrite list_elem_of_In. Qed.

(** The sorted candidates, however they are ordered, are the candidates. *)
Lemma find_index_sorted cmp m k now i x :
  find_index (sort_by cmp (build_candidate_states c us m k now)) i = Some x <->
  x ∈ build_candidate_states c us m k now /\ cand_index x = i.
Proof.
  split.
  - intros [H1 H2]%find_index_Some. by rewrite elem_of_sort_by in H1.
  - intros [H1 H2]. pose proof H1 as H3. rewrite <- (elem_of_sort_by cmp) in H3.
    apply find_index_is_Some in H3 as [y Hy]. rewrite H2 in Hy. rewrite Hy. f_equal.
    apply find_index_Some in Hy as [H4 H5]. rewrite elem_of_sort_by in H4. apply (build_distinct m k now); [done..|lia].
Qed.

(** ** Committing a choice *)
Lemma strict_cases : strict_active_uplink_for c = true ->
  (routing_scope c = Global /\ strict_global_active_uplink c = true) \/
  (routing_scope c = PerUplink /\ strict_global_active_uplink c = false /\ strict_per_uplink_active_uplink c = true).
Proof.
  unfold strict_active_uplink_for, strict_global_active_uplink, strict_per_uplink_active_uplink.
  destruct (mode c), (routing_scope c); cbn; intros; try done; auto.
Qed.
Ltac strict H := let E := fresh "Escope" in let E2 := fresh "Estrict" in
  destruct (strict_cases H) as [[E E2]|(E & E2 & ?)].

Lemma move_slot_index s i r : slot_index (move_slot s i r) = Some i.
Proof. done. Qed.
Lemma move_slot_again s i r r' : is_manual r' = false -> move_slot (move_slot s i r) i r' = move_slot s i r.
Proof.
  intros Hm. unfold move_slot. cbn. rewrite bool_decide_true by done. cbn. rewrite Hm, orb_false_r.
  destruct (slot_reason s) eqn:E; cbn; [|by rewrite orb_true_r].
  rewrite orb_false_r. by destruct (negb _ || is_manual r).
Qed.
Lemma pinned_strict k : strict_active_uplink_for c = true -> strict_pinned_route_key c (strict_route_key k (routing_scope c)) = true.
Proof. intros H. unfold strict_pinned_route_key. strict H; rewrite Escope; cbn; by rewrite ?Estrict, ?H0. Qed.
Definition pinned_until now : Z := now + 365 * 24 * 60 * 60 * NANOS.
Lemma store_pinned m key i now : strict_pinned_route_key c key = true ->
  store_sticky_route c m key i now = set_sticky m (<[key := mkSticky i (pinned_until now)]> (sticky_routes m)).
Proof. intros H. unfold store_sticky_route. by rewrite H. Qed.

(** What decides who the candidates are: the statuses and the operator's flags. *)
Definition same_inputs m m' : Prop := statuses m' = statuses m /\ admin_flags m' = admin_flags m.
Lemma build_same m m' k now : same_inputs m m' -> build_candidate_states c us m' k now = build_candidate_states c us m k now.
Proof.
  intros [H1 H2]. unfold build_candidate_states, usable_uplinks, candidate_state, status_at, admin_enabled. by rewrite H1, H2.
Qed.
Lemma publish_inputs m intent : same_inputs m (publish m intent).
Proof. unfold publish. by case_bool_decide. Qed.
Lemma publish_active m intent : active (publish m intent) = active m.
Proof. unfold publish. by case_bool_decide. Qed.
Lemma publish_sticky m intent : sticky_routes (publish m intent) = sticky_routes m.
Proof. unfold publish. by case_bool_decide. Qed.
Lemma store_inputs m key i now : same_inputs m (store_sticky_route c m key i now).
Proof. unfold store_sticky_route. by destruct (_ && _ && _). Qed.
Lemma store_active m key i now : active (store_sticky_route c m key i now) = active m.
Proof. unfold store_sticky_route. by destruct (_ && _ && _). Qed.
Lemma set_active_inputs m k i r intent : same_inputs m (set_active_uplink_index_for_transport c us m k i r intent).
Proof. unfold set_active_uplink_index_for_transport, same_inputs, publish. by case_bool_decide. Qed.
Lemma set_active_sticky m k i r intent :
  sticky_routes (set_active_uplink_index_for_transport c us m k i r intent) = sticky_routes m.
Proof. unfold set_active_uplink_index_for_transport. by rewrite publish_sticky. Qed.
Lemma set_active_index m k i r intent : strict_active_uplink_for c = true ->
  active_uplink_index_for_transport c (set_active_uplink_index_for_transport c us m k i r intent) k = Some i.
Proof.
  intros H. unfold active_uplink_index_for_transport, set_active_uplink_index_for_transport. rewrite publish_active.
  strict H; rewrite Estrict; [done|]. rewrite H0. by destruct k.
Qed.
Lemma same_inputs_trans m1 m2 m3 : same_inputs m1 m2 -> same_inputs m2 m3 -> same_inputs m1 m3.
Proof. unfold same_inputs. naive_solver congruence. Qed.
Lemma commit_strict_inputs m k x r now : same_inputs m (commit_strict c us m k x r now).
Proof. eapply same_inputs_trans; [apply set_active_inputs|apply store_inputs]. Qed.
Lemma commit_strict_index m k x r now : strict_active_uplink_for c = true ->
  active_uplink_index_for_transport c (commit_strict c us m k x r now) k = Some (cand_index x).
Proof.
  intros H. unfold commit_strict, active_uplink_index_for_transport. rewrite !store_active. by apply (set_active_index _ _ _ _ _ H).
Qed.
Lemma commit_strict_sticky m k x r now : strict_active_uplink_for c = true ->
  sticky_routes (commit_strict c us m k x r now) =
    <[strict_route_key k (routing_scope c) := mkSticky (cand_index x) (pinned_until now)]> (sticky_routes m).
Proof. intros H. unfold commit_strict. rewrite store_pinned by (by apply pinned_strict). cbn. by rewrite set_active_sticky. Qed.
Lemma publish_again m intent : publish (publish m intent) intent = publish m intent.
Proof.
  unfold publish at 1. rewrite publish_active. rewrite bool_decide_true; [done|].
  unfold publish. case_bool_decide as E; [exact E|done].
Qed.

Definition active_after (a : ActiveUplinks) k i r : ActiveUplinks :=
  if strict_global_active_uplink c then mkActive (move_slot (global a) i r) (tcp a) (udp a)
  else if strict_per_uplink_active_uplink c
  then match k with
       | Tcp => mkActive (global a) (move_slot (tcp a) i r) (udp a)
       | Udp => mkActive (global a) (tcp a) (move_slot (udp a) i r)
       end
  else a.
Definition persisted_after (p : option PersistedGroupState) k i : option PersistedGroupState :=
  let chosen := Some (Some (name_at us i)) in
  match p with
  | Some g =>
    Some (if strict_global_active_uplink c then update_active g chosen None None
          else match k with Tcp => update_active g None chosen None | Udp => update_active g None None chosen end)
  | None => None
  end.
Lemma set_active_form m k i r intent :
  set_active_uplink_index_for_transport c us m k i r intent =
  publish (set_persisted (set_active m (active_after (active m) k i r)) (persisted_after (persisted m) k i)) intent.
Proof. done. Qed.
Lemma active_after_again a k i r r' : is_manual r' = false -> active_after (active_after a k i r) k i r' = active_after a k i r.
Proof.
  intros Hr. unfold active_after. destruct (strict_global_active_uplink c); cbn; [by rewrite move_slot_again|].
  destruct (strict_per_uplink_active_uplink c), k; cbn; by rewrite ?move_slot_again.
Qed.
Lemma persisted_after_again p k i : persisted_after (persisted_after p k i) k i = persisted_after p k i.
Proof. destruct p; [|done]. unfold persisted_after. by destruct (strict_global_active_uplink c), k. Qed.
Lemma publish_persisted m intent : persisted (publish m intent) = persisted m.
Proof. unfold publish. by case_bool_decide. Qed.
Lemma set_same m : set_persisted (set_active m (active m)) (persisted m) = m.
Proof. by destruct m. Qed.
Lemma set_active_again m k i r r' intent : is_manual r' = false ->
  let m1 := set_active_uplink_index_for_transport c us m k i r intent in
  set_active_uplink_index_for_transport c us m1 k i r' intent = m1.
Proof.
  intros Hr. cbn zeta. rewrite !set_active_form.
  set (m1 := publish (set_persisted (set_active m (active_after (active m) k i r)) (persisted_after (persisted m) k i)) intent).
  assert (active m1 = active_after (active m) k i r) as E1 by (unfold m1; by rewrite publish_active).
  assert (persisted m1 = persisted_after (persisted m) k i) as E2 by (unfold m1; by rewrite publish_persisted).
  assert (active_after (active m1) k i r' = active m1) as -> by (rewrite E1; by apply active_after_again).
  assert (persisted_after (persisted m1) k i = persisted m1) as -> by (rewrite E2; apply persisted_after_again).
  rewrite set_same. apply publish_again.
Qed.
Lemma set_sticky_active m v k i r intent :
  set_active_uplink_index_for_transport c us (set_sticky m v) k i r intent =
  set_sticky (set_active_uplink_index_for_transport c us m k i r intent) v.
Proof. rewrite !set_active_form. unfold publish. cbn. by case_bool_decide. Qed.
(** Committing what is committed changes nothing. *)
Lemma commit_strict_again m k x r r' now : strict_active_uplink_for c = true -> is_manual r' = false ->
  commit_strict c us (commit_strict c us m k x r now) k x r' now = commit_strict c us m k x r now.
Proof.
  intros H Hr. unfold commit_strict. rewrite !store_pinned by (by apply pinned_strict).
  rewrite set_sticky_active, set_active_again by done. unfold set_sticky. cbn. by rewrite insert_insert_eq.
Qed.
End facts.
