(* ===== verification/StrictChoice.v ===== *)
(** The strict (active-passive) selection: what one dispatch chooses, that the
    choice is what is committed and published, that it settles, and what makes the
    active slot move. *)
From stdpp Require Import sorting.
From S2P Require Import Prelude Target UplinkDescent UplinkWires SortBy Selection Candidates CandidatesFacts.
Local Open Scope Z_scope.

Section strict.
Context {Penalty Measure : Type} `{sc : !Scoring Penalty Measure}.
Context (c : BalancingConfig) (us : list Uplink).
Local Abbreviation Mgr := (Manager Penalty Measure).
Local Abbreviation Cand := (CandidateState Penalty).
Implicit Types (m : Mgr) (x y : Cand) (l : list Cand) (k : TransportKind).

(** The decision without its effects: the uplink, and the reason the slot is
    written with when it is. *)
Definition best_of (order : Cand -> Cand -> comparison) l (r : Reason) : option (Cand * option Reason) :=
  match sort_by order l with x :: _ => Some (x, Some r) | [] => None end.
Definition strict_choice m k (failed : option nat) now : option (Cand * option Reason) :=
  let gate := strict_gate_transport (routing_scope c) k in
  let built := build_candidate_states c us m k now in
  match active_uplink_index_for_transport c m k with
  | None => best_of (initial_strict_order us) built InitialSelection
  | Some a =>
    match built with
    | [] => None
    | _ =>
      let l := sort_by (primary_order us) built in
      match judge_active c us l a (bool_decide (failed = Some a)) gate now with
      | Keep x => Some (x, None)
      | SwitchTo x r => Some (x, Some r)
      | Failback => best_of (primary_order us) built AutoFailback
      | Reselect r => best_of (failover_order c us gate now) l r
      end
    end
  end.
Definition choose m k (choice : option (Cand * option Reason)) now : Mgr * list UplinkCandidate :=
  match choice with
  | None => (m, [])
  | Some (x, None) => (store_sticky_route c m (strict_route_key k (routing_scope c)) (cand_index x) now, [to_candidate x])
  | Some (x, Some r) => (commit_strict c us m k x r now, [to_candidate x])
  end.

Lemma sort_by_nil (order : Cand -> Cand -> comparison) l : sort_by order l = [] <-> l = [].
Proof.
  split; [|by intros ->]. intros H. pose proof (sort_ordered_perm order l) as Hp. rewrite H in Hp. by apply Permutation_nil_l in Hp.
Qed.
Lemma strict_commit_form m k failed now :
  strict_transport_candidates c us m k failed true now = choose m k (strict_choice m k failed now) now.
Proof.
  unfold strict_transport_candidates, strict_choice, best_of.
  destruct (active_uplink_index_for_transport c m k) as [a|].
  - destruct (sort_by (primary_order us) _) as [|x0 l0] eqn:E.
    { apply sort_by_nil in E. by rewrite E. }
    destruct (build_candidate_states c us m k now) as [|b0 bs] eqn:Eb; [done|].
    destruct (judge_active _ _ _ _ _ _ _) eqn:Ej; try done.
    destruct (sort_by (failover_order _ _ _ _) _) eqn:Ef; [|done].
    by apply sort_by_nil in Ef.
  - by destruct (sort_by (initial_strict_order us) _) as [|x0 l0] eqn:E.
Qed.

(** What the active may be left for. *)
Lemma judge_elem m k now a failed x r gate :
  judge_active c us (sort_by (primary_order us) (build_candidate_states c us m k now)) a failed gate now = SwitchTo x r ->
  x ∈ build_candidate_states c us m k now /\ is_manual r = false.
Proof.
  unfold judge_active. destruct (find_index _ a) as [act|] eqn:E; [|done]. destruct (_ && _); [|done].
  destruct (carrier_degraded_switch_target _ _ _ _ _ _) as [y|] eqn:Ec.
  { intros [= -> <-]. split; [|done]. revert Ec. unfold carrier_degraded_switch_target.
    destruct (carrier_degraded_failover c), (find_index _ a); try done.
    destruct (carrier_degraded_since _ _); [|done]. destruct (_ <? _); [done|].
    intros [H _]%find_elem. by rewrite elem_of_sort_by in H. }
  destruct (loss_failover_switch_target _ _ _ _ _ _) as [y|] eqn:El.
  { intros [= -> <-]. split; [|done]. revert El. unfold loss_failover_switch_target.
    destruct (_ <=? _); [done|]. destruct (loss_failover_duration c), (find_index _ a); try done.
    destruct (view_loss_elevated_since _); [|done]. destruct (_ <? _); [done|].
    intros [H _]%find_elem. by rewrite elem_of_sort_by in H. }
  unfold keep_or_failback. repeat case_match; done.
Qed.
Lemma judge_keep m k now a failed x gate :
  judge_active c us (sort_by (primary_order us) (build_candidate_states c us m k now)) a failed gate now = Keep x ->
  x ∈ build_candidate_states c us m k now /\ cand_index x = a.
Proof.
  unfold judge_active. destruct (find_index _ a) as [act|] eqn:E; [|done]. destruct (_ && _); [|done].
  destruct (carrier_degraded_switch_target _ _ _ _ _ _); [done|].
  destruct (loss_failover_switch_target _ _ _ _ _ _); [done|]. intros H. assert (x = act) as ->.
  { revert H. unfold keep_or_failback. repeat case_match; congruence. }
  by apply find_index_sorted in E.
Qed.
Lemma judge_reselect m k now a failed r gate l :
  judge_active c us l a failed gate now = Reselect r -> is_manual r = false.
Proof.
  unfold judge_active. destruct (find_index _ a) as [act|] eqn:E; [|by intros [= <-]]. destruct (_ && _); [|by intros [= <-]].
  destruct (carrier_degraded_switch_target _ _ _ _ _ _); [done|].
  destruct (loss_failover_switch_target _ _ _ _ _ _); [done|]. unfold keep_or_failback. repeat case_match; done.
Qed.
Lemma best_of_Some order l r x o : best_of order l r = Some (x, o) -> o = Some r /\ exists rest, sort_by order l = x :: rest.
Proof. unfold best_of. destruct (sort_by order l) eqn:E; naive_solver. Qed.
Lemma choice_elem m k failed now x o : strict_choice m k failed now = Some (x, o) -> x ∈ build_candidate_states c us m k now.
Proof.
  assert (forall order r, best_of order (build_candidate_states c us m k now) r = Some (x, o) ->
    x ∈ build_candidate_states c us m k now) as Hbest.
  { intros order r (_ & rest & E)%best_of_Some. rewrite <- (elem_of_sort_by order), E. apply list_elem_of_here. }
  unfold strict_choice. destruct (active_uplink_index_for_transport c m k) as [a|]; [|by apply Hbest].
  destruct (build_candidate_states c us m k now) as [|b0 bs] eqn:Eb; [done|]. rewrite <- Eb in *.
  destruct (judge_active _ _ _ _ _ _ _) eqn:Ej.
  - intros [= <- <-]. by apply judge_keep in Ej as [? _].
  - intros [= <- <-]. by apply judge_elem in Ej as [? _].
  - apply Hbest.
  - intros (_ & rest & E)%best_of_Some.
    rewrite <- (elem_of_sort_by (primary_order us)), <- (elem_of_sort_by (failover_order c us (strict_gate_transport (routing_scope c) k) now)), E.
    apply list_elem_of_here.
Qed.
Lemma choice_None m k failed now : strict_choice m k failed now = None -> build_candidate_states c us m k now = [].
Proof.
  unfold strict_choice, best_of. destruct (active_uplink_index_for_transport c m k) as [a|].
  - destruct (build_candidate_states c us m k now) as [|b0 bs] eqn:Eb; [done|]. rewrite <- Eb in *.
    destruct (judge_active _ _ _ _ _ _ _) eqn:Ej; try done.
    + destruct (sort_by _ _) eqn:E; [|done]. by apply sort_by_nil in E.
    + destruct (sort_by (failover_order _ _ _ _) _) eqn:E; [|done]. apply sort_by_nil in E. by apply sort_by_nil in E.
  - destruct (sort_by _ _) eqn:E; [|done]. by apply sort_by_nil in E.
Qed.
Lemma choice_not_manual m k failed now x r : strict_choice m k failed now = Some (x, Some r) -> is_manual r = false.
Proof.
  unfold strict_choice. destruct (active_uplink_index_for_transport c m k) as [a|].
  2: by intros ([= ->] & _)%best_of_Some.
  destruct (build_candidate_states c us m k now) as [|b0 bs] eqn:Eb; [done|]. rewrite <- Eb in *.
  destruct (judge_active _ _ _ _ _ _ _) eqn:Ej.
  - done.
  - intros [= <- <-]. by apply judge_elem in Ej as [_ ?].
  - by intros ([= ->] & _)%best_of_Some.
  - intros ([= ->] & _)%best_of_Some. by eapply judge_reselect.
Qed.
Lemma choice_keep m k failed now x : strict_choice m k failed now = Some (x, None) ->
  active_uplink_index_for_transport c m k = Some (cand_index x).
Proof.
  unfold strict_choice. destruct (active_uplink_index_for_transport c m k) as [a|].
  2: by intros (? & _)%best_of_Some.
  destruct (build_candidate_states c us m k now) as [|b0 bs] eqn:Eb; [done|]. rewrite <- Eb in *.
  destruct (judge_active _ _ _ _ _ _ _) eqn:Ej.
  - intros [= <-]. f_equal. by apply judge_keep in Ej as [_ ?].
  - done.
  - by intros (? & _)%best_of_Some.
  - by intros (? & _)%best_of_Some.
Qed.
End strict.
