(* ===== verification/StrictMoves.v ===== *)
(** When the strict active slot moves: repeated dispatches of a transport settle, a
    failover takes the best candidate, and an active that has not failed is left for
    the quality knobs only. *)
From stdpp Require Import sorting.
From S2P Require Import Prelude Target UplinkDescent UplinkWires SortBy Selection Candidates CandidatesFacts StrictChoice.
Local Open Scope Z_scope.

Section moves.
Context {Penalty Measure : Type} `{sc : !Scoring Penalty Measure}.
Context (c : BalancingConfig) (us : list Uplink).
Local Abbreviation Mgr := (Manager Penalty Measure).
Local Abbreviation Cand := (CandidateState Penalty).
Implicit Types (m : Mgr) (x y : Cand) (l : list Cand) (k : TransportKind).
Local Abbreviation dispatch m k now := (strict_transport_candidates c us m k None true now).
Local Abbreviation built m k now := (build_candidate_states c us m k now).
Local Abbreviation gate k := (strict_gate_transport (routing_scope c) k).

(** The knobs that let an active that has not failed be left. *)
Definition only_failures : Prop :=
  auto_failback c = false /\ carrier_degraded_failover c = None /\ loss_failover_ratio c <= 0.

Lemma judge_only_failures l a x failed g now : only_failures -> find_index l a = Some x ->
  judge_active c us l a failed g now =
    let details := strict_active_failure_details c x g now in
    if should_keep c details && negb failed then Keep x
    else Reselect (Failover (if failed then RuntimeFailed else match details with d :: _ => Because d | [] => GateRejected end)
                     (tail details)).
Proof.
  intros (H1 & H2 & H3) Hx. unfold judge_active. rewrite Hx. cbn zeta. destruct (_ && negb failed); [|done].
  unfold carrier_degraded_switch_target, loss_failover_switch_target, keep_or_failback.
  rewrite H1, H2. by rewrite (proj2 (Z.leb_le _ _) H3).
Qed.
Lemma judge_gone l a failed g now : find_index l a = None -> judge_active c us l a failed g now = Reselect (NoLongerSupports g).
Proof. intros H. unfold judge_active. by rewrite H. Qed.
Lemma find_built m k now x order : x ∈ built m k now -> find_index (sort_by order (built m k now)) (cand_index x) = Some x.
Proof. intros H. by apply find_index_sorted. Qed.

(** The order a failover ends up with does not depend on the one it starts
    from. *)
Lemma choice_of_active m k now a : only_failures -> active_uplink_index_for_transport c m k = Some a ->
  strict_choice c us m k None now =
    match built m k now with
    | [] => None
    | _ =>
      match find_index (sort_by (primary_order us) (built m k now)) a with
      | Some x =>
        let details := strict_active_failure_details c x (gate k) now in
        if should_keep c details then Some (x, None)
        else best_of (failover_order c us (gate k) now) (sort_by (primary_order us) (built m k now))
               (Failover (match details with d :: _ => Because d | [] => GateRejected end) (tail details))
      | None => best_of (failover_order c us (gate k) now) (sort_by (primary_order us) (built m k now)) (NoLongerSupports (gate k))
      end
    end.
Proof.
  intros H Ha. unfold strict_choice. rewrite Ha. destruct (built m k now) as [|b0 bs] eqn:Eb; [done|]. rewrite <- Eb.
  rewrite bool_decide_false by done.
  destruct (find_index _ a) as [x|] eqn:Ex.
  - rewrite (judge_only_failures _ _ x) by done. cbn zeta. rewrite andb_true_r. by destruct (should_keep _ _).
  - by rewrite judge_gone.
Qed.
Lemma choice_again m m' k now a x o : strict_active_uplink_for c = true -> only_failures -> same_inputs m m' ->
  active_uplink_index_for_transport c m k = Some a -> strict_choice c us m k None now = Some (x, o) ->
  active_uplink_index_for_transport c m' k = Some (cand_index x) ->
  exists o', strict_choice c us m' k None now = Some (x, o') /\ (o = None -> o' = None).
Proof.
  intros Hstrict Hk Hs Ha Hx Ha'. pose proof (choice_elem c us _ _ _ _ _ _ Hx) as Hin.
  rewrite (choice_of_active _ _ _ _ Hk Ha) in Hx. rewrite (choice_of_active _ _ _ _ Hk Ha'), (build_same c us _ _ _ _ Hs).
  rewrite (find_built _ _ _ _ _ Hin). cbn zeta.
  destruct (built m k now) as [|b0 bs] eqn:Eb; [done|]. rewrite <- Eb in *.
  destruct (find_index _ a) as [y|] eqn:Ey; cbn zeta in Hx.
  - destruct (should_keep c (strict_active_failure_details c y (gate k) now)) eqn:Eky.
    + injection Hx as -> <-. rewrite Eky. eauto.
    + apply best_of_Some in Hx as (-> & rest & E). unfold best_of. rewrite E.
      destruct (should_keep c (strict_active_failure_details c x (gate k) now)); (eexists; split; [done|by intros]).
  - apply best_of_Some in Hx as (-> & rest & E). unfold best_of. rewrite E.
    destruct (should_keep c (strict_active_failure_details c x (gate k) now)); (eexists; split; [done|by intros]).
Qed.
Lemma choose_sticky m k x o now : strict_active_uplink_for c = true ->
  sticky_routes (choose c us m k (Some (x, o)) now).1 =
    <[strict_route_key k (routing_scope c) := mkSticky (cand_index x) (pinned_until now)]> (sticky_routes m).
Proof.
  intros H. destruct o as [r|]; cbn; [by apply commit_strict_sticky|]. by rewrite store_pinned by (by apply pinned_strict).
Qed.
Lemma choose_index m k failed x o now : strict_active_uplink_for c = true -> strict_choice c us m k failed now = Some (x, o) ->
  active_uplink_index_for_transport c (choose c us m k (Some (x, o)) now).1 k = Some (cand_index x).
Proof.
  intros H Hx. destruct o as [r|]; cbn; [by apply commit_strict_index|].
  apply choice_keep in Hx. revert Hx. unfold active_uplink_index_for_transport. by rewrite !store_active.
Qed.
Lemma choose_inputs m k choice now : same_inputs m (choose c us m k choice now).1.
Proof. destruct choice as [[x [r|]]|]; cbn; [apply commit_strict_inputs|apply store_inputs|done]. Qed.
Lemma set_sticky_same m : set_sticky m (sticky_routes m) = m.
Proof. by destruct m. Qed.
Lemma store_again m k x now : strict_active_uplink_for c = true ->
  sticky_routes m !! strict_route_key k (routing_scope c) = Some (mkSticky (cand_index x) (pinned_until now)) ->
  store_sticky_route c m (strict_route_key k (routing_scope c)) (cand_index x) now = m.
Proof. intros H E. rewrite store_pinned by (by apply pinned_strict). by rewrite insert_id, set_sticky_same. Qed.

Lemma settle_from_active m k now a : strict_active_uplink_for c = true -> only_failures ->
  active_uplink_index_for_transport c m k = Some a ->
  dispatch (dispatch m k now).1 k now = dispatch m k now.
Proof.
  intros Hs Hk Ha. rewrite !strict_commit_form.
  destruct (strict_choice c us m k None now) as [[x o]|] eqn:Ex.
  2: { cbn [choose fst]. by rewrite Ex. }
  set (m1 := (choose c us m k (Some (x, o)) now).1).
  assert (active_uplink_index_for_transport c m1 k = Some (cand_index x)) as Hi by (by eapply choose_index).
  destruct (choice_again m m1 k now a x o Hs Hk (choose_inputs _ _ _ _) Ha Ex Hi) as (o' & Ex' & Ho).
  fold m1. rewrite Ex'.
  assert (sticky_routes m1 !! strict_route_key k (routing_scope c) = Some (mkSticky (cand_index x) (pinned_until now))) as Hst
    by (unfold m1; rewrite choose_sticky by done; apply lookup_insert_eq).
  destruct o' as [r'|]; cbn.
  - destruct o as [r|]; [|by specialize (Ho eq_refl)]. unfold m1; cbn.
    rewrite commit_strict_again; [done..|]. eapply choice_not_manual, Ex'.
  - rewrite store_again by done. unfold m1. by destruct o.
Qed.

(** C25: Selection settles for a transport. With the quality knobs and
    [auto_failback] off, two dispatches of one transport in a strict group bring the
    active slot, its sticky route, what is published and what is persisted to a
    state that further dispatches of that transport at that time do not change,
    whatever the health of the uplinks: a group whose uplinks all fail does not
    spin. (Of one transport only: the global scope has one slot for both, and
    dispatches of TCP and UDP in turn can move it to and fro.) *)
Theorem strict_selection_settles m k now : strict_active_uplink_for c = true -> only_failures ->
  let m2 := (dispatch (dispatch m k now).1 k now).1 in
  dispatch m2 k now = dispatch (dispatch m k now).1 k now /\
  forall n, Nat.iter n (fun m => (dispatch m k now).1) m2 = m2.
Proof.
  intros Hs Hk m2.
  assert (dispatch m2 k now = dispatch (dispatch m k now).1 k now) as E.
  { unfold m2. destruct (strict_choice c us m k None now) as [[x o]|] eqn:Ex.
    - pose proof (choose_index m k None x o now Hs Ex) as Hi.
      assert (Hd : dispatch m k now = choose c us m k (Some (x, o)) now) by (by rewrite strict_commit_form, Ex).
      rewrite Hd. by eapply settle_from_active.
    - assert (dispatch m k now = (m, [])) as Hd by (by rewrite strict_commit_form, Ex). by rewrite Hd; cbn; rewrite Hd; cbn; rewrite Hd. }
  split; [done|]. induction n as [|n IH]; [done|]. by rewrite Nat.iter_succ, IH, E.
Qed.

(** ** Failover *)
Definition remaining k now x : Z := cooldown_remaining (view_of (cand_status x) (gate k)) now.
(** No candidate is preferred to [x]: health first, then the cooldown that ends
    soonest, then the configured weight. *)
Definition best_candidate m k now x : Prop :=
  x ∈ built m k now /\
  forall y, y ∈ built m k now ->
    (cand_healthy y = true -> cand_healthy x = true) /\
    (cand_healthy y = cand_healthy x -> remaining k now x <= remaining k now y) /\
    (cand_healthy y = cand_healthy x -> remaining k now y = remaining k now x ->
     weight_at us (cand_index y) <= weight_at us (cand_index x)).
Lemma failover_no_later g now x y : no_later (failover_order c us g now) x y ->
  let rem z := cooldown_remaining (view_of (cand_status z) g) now in
  (cand_healthy y = true -> cand_healthy x = true) /\
  (cand_healthy y = cand_healthy x -> rem x <= rem y) /\
  (cand_healthy y = cand_healthy x -> rem y = rem x -> weight_at us (cand_index y) <= weight_at us (cand_index x)).
Proof.
  unfold no_later, failover_order, higher_weight_first. intros H. cbn zeta.
  destruct (cand_healthy x), (cand_healthy y); cbn in H; try done; split_and!; try done; intros; destruct (Z.compare_spec (cooldown_remaining (view_of (cand_status x) g) now) (cooldown_remaining (view_of (cand_status y) g) now)) as [E|E|E];
    cbn in H; try lia; try done.
  all: destruct (Z.compare_spec (weight_at us (cand_index y)) (weight_at us (cand_index x))); cbn in H; try lia; done.
Qed.
Lemma best_of_failover m k now l r x o : l ≡ₚ built m k now ->
  best_of (failover_order c us (gate k) now) l r = Some (x, o) -> best_candidate m k now x.
Proof.
  intros Hp (_ & rest & E)%best_of_Some. apply sort_by_head in E as [Hx Hy]; [|apply _].
  split; [by rewrite <- Hp|]. intros y Hin. rewrite <- Hp in Hin. by apply failover_no_later, Hy.
Qed.

(** A dispatch by what the gate makes of the active. *)
Lemma failover_cases m k now a m' (l : list UplinkCandidate) : strict_active_uplink_for c = true -> only_failures ->
  active_uplink_index_for_transport c m k = Some a -> dispatch m k now = (m', l) ->
  match find_index (built m k now) a with
  | Some act =>
    if should_keep c (strict_active_failure_details c act (gate k) now)
    then l = [to_candidate act] /\ active m' = active m /\ published m' = published m /\ persisted m' = persisted m
    else exists x r, best_candidate m k now x /\ l = [to_candidate x] /\ is_manual r = false /\ m' = commit_strict c us m k x r now
  | None =>
    if decide (built m k now = []) then l = [] /\ m' = m
    else exists x r, best_candidate m k now x /\ l = [to_candidate x] /\ is_manual r = false /\ m' = commit_strict c us m k x r now
  end.
Proof.
  intros Hs Hk Ha Hd. rewrite strict_commit_form in Hd. pose proof (choice_not_manual c us m k None now) as Hman.
  rewrite (choice_of_active _ _ _ _ Hk Ha) in Hd, Hman.
  assert (find_index (sort_by (primary_order us) (built m k now)) a = find_index (built m k now) a) as Hf.
  { destruct (find_index (built m k now) a) as [y|] eqn:E.
    - apply find_index_sorted. by apply find_index_Some in E.
    - destruct (find_index (sort_by _ _) a) as [y|] eqn:E2; [|done]. apply find_index_sorted in E2 as [E2 <-].
      apply find_index_is_Some in E2 as [z E2]. congruence. }
  rewrite Hf in Hd, Hman. clear Hf. destruct (built m k now) as [|b0 bs] eqn:Eb.
  { cbn. injection Hd as <- <-. done. }
  rewrite <- Eb in *.
  assert (sort_by (primary_order us) (built m k now) ≡ₚ built m k now) as Hp by apply sort_ordered_perm.
  assert (forall r, match best_of (failover_order c us (gate k) now) (sort_by (primary_order us) (built m k now)) r with
                    | Some _ => True | None => False end) as Hsome.
  { intros r. unfold best_of. destruct (sort_by (failover_order _ _ _ _) _) eqn:E; [|done].
    apply sort_by_nil in E. apply sort_by_nil in E. congruence. }
  destruct (find_index (built m k now) a) as [act|] eqn:Ef; cbn zeta in *.
  - destruct (should_keep _ _) in *.
    + cbn in Hd. injection Hd as <- <-. rewrite store_pinned by (by apply pinned_strict). done.
    + specialize (Hsome (Failover match strict_active_failure_details c act (gate k) now with [] => GateRejected | d :: _ => Because d end
                          (tail (strict_active_failure_details c act (gate k) now)))).
      destruct (best_of _ _ _) as [[x o]|] eqn:Eo; [|done]. pose proof Eo as (-> & _)%best_of_Some.
      cbn in Hd. injection Hd as <- <-.
      eexists x, _. split_and!; [by eapply best_of_failover|done|by eapply Hman|done].
  - rewrite decide_False by (rewrite Eb; done). specialize (Hsome (NoLongerSupports (gate k))).
    destruct (best_of _ _ _) as [[x o]|] eqn:Eo; [|done]. pose proof Eo as (-> & _)%best_of_Some.
    cbn in Hd. injection Hd as <- <-.
      eexists x, _. split_and!; [by eapply best_of_failover|done|by eapply Hman|done].
Qed.

(** What counts as a failure. A probe that marked a leg unhealthy does; a cooldown
    does too, but under the global scope only where there are no probes. *)
Definition leg_failed m (a : nat) (k : TransportKind) now : bool :=
  let t := wires (leg (status_at m a) k) in
  (probes c && bool_decide (healthy t = Some false))
  || (negb (bool_decide (routing_scope c = Global) && probes c) && later_than (cooldown_until t) now).
Definition active_failed m k now (a : nat) (u : Uplink) : bool :=
  leg_failed m a (gate k) now || (bool_decide (routing_scope c = Global) && supports_udp u && leg_failed m a Udp now).
Lemma detail_of m (i : nat) k now :
  transport_failover_detail (selection_view c (status_at m i) now) k now (probes c) =
    let t := wires (leg (status_at m i) k) in
    if probes c && bool_decide (healthy t = Some false) then Some (ProbeUnhealthy k)
    else if later_than (cooldown_until t) now then Some (CooldownActive k) else None.
Proof. unfold transport_failover_detail. by destruct k. Qed.
Lemma keep_unless_failed m k now a u :
  should_keep c (strict_active_failure_details c (candidate_state c m k now (a, u)) (gate k) now) = negb (active_failed m k now a u).
Proof.
  assert (forall g, routing_scope c = Global -> gate g = Tcp) as Hgate by (intros g E; by rewrite E).
  unfold active_failed, leg_failed, should_keep, strict_active_failure_details.
  cbn [cand_status candidate_state cand_uplink fst snd].
  destruct (bool_decide (routing_scope c = Global)) eqn:Eg; cbn [andb].
  - apply bool_decide_eq_true in Eg. rewrite (Hgate k Eg). rewrite (bool_decide_false (Tcp = Udp)) by done. cbn [negb]. rewrite andb_true_r.
    destruct (supports_udp u); cbn [omap list_omap]; rewrite !detail_of; cbn zeta; destruct (probes c); cbn [andb orb negb];
      repeat case_bool_decide; repeat (destruct (later_than _ _)); done.
  - cbn [omap list_omap]. rewrite detail_of. cbn zeta. destruct (probes c); cbn [andb orb negb];
      repeat case_bool_decide; repeat (destruct (later_than _ _)); done.
Qed.


(** ** A healthy active *)
Definition view k x : TransportSelectionView Penalty := view_of (cand_status x) (gate k).
Definition steady k x : Prop := probe_min_failures c <= view_consecutive_successes (view k x).
(** Selectable, of no smaller weight, proven by the probe. *)
Definition worthy k (a : nat) x : Prop :=
  cand_healthy x = true /\ weight_at us a <= weight_at us (cand_index x) /\ steady k x.
Definition carrier_cause k now act x : Prop :=
  exists threshold since, carrier_degraded_failover c = Some threshold /\ carrier_degraded_since (view k act) now = Some since /\
    threshold <= duration_since now since /\ carrier_degraded_since (view k x) now = None.
Definition loss_cause k now act x : Prop :=
  exists threshold since, loss_failover_duration c = Some threshold /\ 0 < loss_failover_ratio c /\
    view_loss_elevated_since (view k act) = Some since /\ threshold <= duration_since now since /\
    forall ratio, view_loss_ratio (view k x) = Some ratio -> view_loss_fresh (view k x) = true /\ ratio <= loss_failover_ratio c.
Lemma carrier_target_sound l a act k now x : find_index l a = Some act ->
  carrier_degraded_switch_target c us l a (gate k) now = Some x -> worthy k a x /\ carrier_cause k now act x.
Proof.
  intros Hact. unfold carrier_degraded_switch_target, worthy, carrier_cause. rewrite Hact.
  destruct (carrier_degraded_failover c) as [threshold|]; [|done].
  destruct (carrier_degraded_since _ _) as [since|] eqn:Es; [|done].
  destruct (Z.ltb_spec (duration_since now since) threshold); [done|].
  intros [_ Hc]%find_elem. unfold carrier_clean in Hc. rewrite !andb_true_iff, !Z.leb_le, bool_decide_eq_true in Hc.
  destruct Hc as [[[[_ ?] ?] ?] ?]. split; [done|]. by exists threshold, since.
Qed.
Lemma loss_target_sound l a act k now x : find_index l a = Some act ->
  loss_failover_switch_target c us l a (gate k) now = Some x -> worthy k a x /\ loss_cause k now act x.
Proof.
  intros Hact. unfold loss_failover_switch_target, worthy, loss_cause. rewrite Hact.
  destruct (Z.leb_spec (loss_failover_ratio c) 0); [done|].
  destruct (loss_failover_duration c) as [threshold|]; [|done].
  destruct (view_loss_elevated_since _) as [since|] eqn:Es; [|done].
  destruct (Z.ltb_spec (duration_since now since) threshold); [done|].
  intros [_ Hc]%find_elem. unfold loss_clean in Hc. rewrite !andb_true_iff, !Z.leb_le in Hc.
  destruct Hc as [[[[_ ?] ?] ?] Hl]. split; [done|]. exists threshold, since. split_and!; [done..|].
  intros ratio E. unfold view in *. rewrite E, andb_true_iff, Z.leb_le in Hl. done.
Qed.
Lemma carrier_target_other l a g now x : carrier_degraded_switch_target c us l a g now = Some x -> cand_index x <> a.
Proof.
  unfold carrier_degraded_switch_target. repeat case_match; try done. intros [_ Hc]%find_elem. unfold carrier_clean in Hc.
  rewrite !andb_true_iff, negb_true_iff, bool_decide_eq_false in Hc. by destruct Hc as [[[[? _] _] _] _].
Qed.
Lemma loss_target_other l a g now x : loss_failover_switch_target c us l a g now = Some x -> cand_index x <> a.
Proof.
  unfold loss_failover_switch_target. repeat case_match; try done. intros [_ Hc]%find_elem. unfold loss_clean in Hc.
  rewrite !andb_true_iff, negb_true_iff, bool_decide_eq_false in Hc. by destruct Hc as [[[[? _] _] _] _].
Qed.
Lemma find_none (f : Cand -> bool) l x : List.find f l = None -> x ∈ l -> f x = false.
Proof. intros H Hx. eapply List.find_none; [exact H|by apply list_elem_of_In]. Qed.
Lemma carrier_target_complete l a act k now x : find_index l a = Some act -> x ∈ l -> cand_index x <> a ->
  worthy k a x -> carrier_cause k now act x -> carrier_degraded_switch_target c us l a (gate k) now <> None.
Proof.
  intros Hact Hx Hne (H1 & H2 & H3) (threshold & since & Hc & Hs & Hd & Hcl). unfold carrier_degraded_switch_target.
  rewrite Hc, Hact. unfold view in *. rewrite Hs. destruct (Z.ltb_spec (duration_since now since) threshold); [lia|]. intros H0.
  pose proof (find_none _ _ x H0 Hx) as Hf. unfold carrier_clean in Hf. rewrite bool_decide_false, H1, (proj2 (Z.leb_le _ _) H2), bool_decide_true in Hf by done.
  unfold steady, view in H3. by rewrite (proj2 (Z.leb_le _ _) H3) in Hf.
Qed.
Lemma loss_target_complete l a act k now x : find_index l a = Some act -> x ∈ l -> cand_index x <> a ->
  worthy k a x -> loss_cause k now act x -> loss_failover_switch_target c us l a (gate k) now <> None.
Proof.
  intros Hact Hx Hne (H1 & H2 & H3) (threshold & since & Hc & Hpos & Hs & Hd & Hcl). unfold loss_failover_switch_target.
  rewrite (proj2 (Z.leb_gt _ _)), Hc, Hact by lia. unfold view in *. rewrite Hs. destruct (Z.ltb_spec (duration_since now since) threshold); [lia|]. intros H0.
  pose proof (find_none _ _ x H0 Hx) as Hf. unfold loss_clean in Hf. rewrite bool_decide_false, H1, (proj2 (Z.leb_le _ _) H2) in Hf by done.
  unfold steady, view in H3. rewrite (proj2 (Z.leb_le _ _) H3) in Hf. cbn in Hf.
  destruct (view_loss_ratio _) as [ratio|]; [|done]. destruct (Hcl ratio eq_refl) as [Hfr Hle]. by rewrite Hfr, (proj2 (Z.leb_le _ _) Hle) in Hf.
Qed.

(** C24: An active that has not failed is left for the quality knobs only. In a
    strict group without [auto_failback], a dispatch whose active uplink passes its
    gate returns that uplink, unless a quality knob is on, the active has had the
    knob's defect - a carrier below the configured one, or packet loss - for the
    configured time, and there is another candidate that is selectable, of no
    smaller weight, probed successfully [min_failures] times in a row and free of
    the defect; then and only then it returns another uplink, and that is such a
    candidate. *)
Theorem healthy_active_yields_to_clean m k now a act m' (l : list UplinkCandidate) :
  auto_failback c = false ->
  active_uplink_index_for_transport c m k = Some a -> find_index (built m k now) a = Some act ->
  should_keep c (strict_active_failure_details c act (gate k) now) = true ->
  dispatch m k now = (m', l) ->
  let better x := x ∈ built m k now /\ cand_index x <> a /\ worthy k a x /\ (carrier_cause k now act x \/ loss_cause k now act x) in
  (l = [to_candidate act] /\ active m' = active m /\ forall x, ~ better x)
  \/ exists x, l = [to_candidate x] /\ better x.
Proof.
  intros Hfb Ha Hact Hkeep Hd better. rewrite strict_commit_form in Hd.
  assert (find_index (sort_by (primary_order us) (built m k now)) a = Some act) as Hact'
    by (apply find_index_sorted; by apply find_index_Some in Hact).
  assert (forall x, x ∈ built m k now -> x ∈ sort_by (primary_order us) (built m k now)) as Hsorted by (intros x; by rewrite elem_of_sort_by).
  assert (strict_choice c us m k None now =
    match carrier_degraded_switch_target c us (sort_by (primary_order us) (built m k now)) a (gate k) now with
    | Some y => Some (y, Some (CarrierDegraded a (cand_index y)))
    | None =>
      match loss_failover_switch_target c us (sort_by (primary_order us) (built m k now)) a (gate k) now with
      | Some y => Some (y, Some (LossDriven a (cand_index y)))
      | None => Some (act, None)
      end
    end) as Hc.
  { unfold strict_choice. rewrite Ha. destruct (built m k now) as [|b0 bs] eqn:Eb; [done|]. rewrite <- Eb in *.
    rewrite bool_decide_false by done. unfold judge_active. rewrite Hact'. cbn zeta. rewrite Hkeep. cbn [negb andb].
    destruct (carrier_degraded_switch_target _ _ _ _ _ _); [done|]. destruct (loss_failover_switch_target _ _ _ _ _ _); [done|].
    unfold keep_or_failback. by rewrite Hfb. }
  assert (Hin : forall y o, strict_choice c us m k None now = Some (y, o) -> y ∈ built m k now) by (intros y o; apply choice_elem).
  rewrite Hc in Hd, Hin. clear Hc.
  destruct (carrier_degraded_switch_target _ _ _ _ _ _) as [y|] eqn:Ec.
  { injection Hd as _ <-. right. exists y. pose proof (carrier_target_sound _ _ _ _ _ _ Hact' Ec) as [Hw Hcause].
    pose proof (carrier_target_other _ _ _ _ _ Ec). unfold better. split; [done|]. split_and!; [by eapply Hin|done|done|by left]. }
  destruct (loss_failover_switch_target _ _ _ _ _ _) as [y|] eqn:El.
  { injection Hd as _ <-. right. exists y. pose proof (loss_target_sound _ _ _ _ _ _ Hact' El) as [Hw Hcause].
    pose proof (loss_target_other _ _ _ _ _ El). unfold better. split; [done|]. split_and!; [by eapply Hin|done|done|by right]. }
  injection Hd as <- <-. left. split; [done|]. split; [apply store_active|]. intros x (Hx & Hne & Hw & [Hcause|Hcause]).
  - by apply (carrier_target_complete _ _ _ _ _ _ Hact' (Hsorted x Hx) Hne Hw Hcause).
  - by apply (loss_target_complete _ _ _ _ _ _ Hact' (Hsorted x Hx) Hne Hw Hcause).
Qed.
End moves.
