(* ===== verification/Operator.v ===== *)
(** The operator's hand on the selection: a manual switch holds until something
    fails, and an uplink that is switched off carries nothing more. *)
From S2P Require Import Prelude Target UplinkDescent UplinkWires SortBy Selection Candidates CandidatesFacts StrictChoice StrictMoves.
Local Open Scope Z_scope.

Section operator.
Context {Penalty Measure : Type} `{sc : !Scoring Penalty Measure}.
Context (c : BalancingConfig) (us : list Uplink).
Local Abbreviation Mgr := (Manager Penalty Measure).
Local Abbreviation Cand := (CandidateState Penalty).
Implicit Types (m : Mgr) (x y : Cand) (l : list Cand) (k : TransportKind).
Local Abbreviation dispatch m k now := (strict_transport_candidates c us m k None true now).
Local Abbreviation built m k now := (build_candidate_states c us m k now).

(** ** Statuses wiped by a manual switch *)
Definition pristine m : Prop := forall j, status_at m j = uplink_status_default.
Lemma reset_pristine m : pristine (reset_all_uplink_statuses m).
Proof.
  intros j. unfold status_at, reset_all_uplink_statuses. cbn. rewrite list_lookup_fmap. by destruct (statuses m !! j).
Qed.
Lemma pristine_view m k now x : pristine m -> x ∈ built m k now -> cand_status x = selection_view c uplink_status_default now.
Proof. intros Hp (i & u & _ & ->)%elem_of_build. cbn. by rewrite Hp. Qed.
Lemma pristine_details m k now x g : pristine m -> x ∈ built m k now -> strict_active_failure_details c x g now = [].
Proof.
  intros Hp Hx. unfold strict_active_failure_details, transport_failover_detail. rewrite (pristine_view _ _ _ _ Hp Hx).
  destruct (probes c), g; repeat case_match; done.
Qed.
Lemma filter_none (P : Cand -> bool) l : (forall x, x ∈ l -> P x = false) -> filter P l = [].
Proof.
  induction l as [|x l IH]; intros H; [done|]. rewrite filter_cons_False.
  - apply IH. intros y Hy. apply H. by apply list_elem_of_further.
  - rewrite (H x) by apply list_elem_of_here. auto.
Qed.
Lemma pristine_keeps m k now a x : pristine m -> x ∈ built m k now -> cand_index x = a ->
  judge_active c us (sort_by (primary_order us) (built m k now)) a false (strict_gate_transport (routing_scope c) k) now = Keep x.
Proof.
  intros Hp Hx Ha. set (g := strict_gate_transport _ _).
  assert (find_index (sort_by (primary_order us) (built m k now)) a = Some x) as Hf by (by apply find_index_sorted).
  unfold judge_active. rewrite Hf, (pristine_details m k now x g Hp Hx). cbn zeta.
  assert (should_keep c [] = true) as -> by (unfold should_keep; cbn; by repeat case_match).
  cbn [negb andb]. pose proof (pristine_view m k now x Hp Hx) as Hv.
  assert (carrier_degraded_switch_target c us (sort_by (primary_order us) (built m k now)) a g now = None) as ->.
  { unfold carrier_degraded_switch_target. rewrite Hf, Hv. destruct (carrier_degraded_failover c); [|done]. by destruct g. }
  assert (loss_failover_switch_target c us (sort_by (primary_order us) (built m k now)) a g now = None) as ->.
  { unfold loss_failover_switch_target. rewrite Hf, Hv. destruct (_ <=? 0), (loss_failover_duration c); try done. by destruct g. }
  unfold keep_or_failback. destruct (auto_failback c); [|done]. cbn.
  unfold failback_best. rewrite filter_none; [done|].
  intros y Hy. rewrite elem_of_sort_by in Hy. rewrite (pristine_view _ _ _ _ Hp Hy). rewrite andb_false_iff. right. by destruct g.
Qed.
Lemma dispatch_keep m k now x : active_uplink_index_for_transport c m k = Some (cand_index x) -> x ∈ built m k now ->
  judge_active c us (sort_by (primary_order us) (built m k now)) (cand_index x) false (strict_gate_transport (routing_scope c) k) now
    = Keep x ->
  dispatch m k now = (store_sticky_route c m (strict_route_key k (routing_scope c)) (cand_index x) now, [to_candidate x]).
Proof.
  intros Ha Hx Hj. rewrite strict_commit_form. unfold strict_choice. rewrite Ha, bool_decide_false by done. rewrite Hj.
  destruct (built m k now) eqn:E; [by apply elem_of_nil in Hx|done].
Qed.

(** What a switch by name does to the two slots. *)
Definition switched m (i : nat) (intent : SwitchIntent) now : Mgr :=
  let m := set_sticky (reset_all_uplink_statuses m) ∅ in
  let switch k m := set_active_uplink_index_for_transport c us m k i ManualSwitch intent in
  let seed k m := store_sticky_route c m (strict_route_key k (routing_scope c)) i now in
  if strict_global_active_uplink c then seed Tcp (switch Tcp m) else seed Udp (seed Tcp (switch Udp (switch Tcp m))).
Lemma switch_by_name_form m n soft now m' i applied : strict_active_uplink_for c = true ->
  set_active_uplink_by_name c us m n None soft now = (m', Ok (i, applied)) ->
  applied = (soft && shared_resume c)%bool /\ m' = wake_probes (switched m i (from_operator_soft applied) now).
Proof.
  intros Hs. unfold set_active_uplink_by_name.
  assert (mode c = ActivePassive) as Hmode.
  { revert Hs. unfold strict_active_uplink_for, strict_global_active_uplink, strict_per_uplink_active_uplink.
    by destruct (mode c). }
  rewrite bool_decide_true by done. cbn [negb]. destruct (position_by_name us n) as [j|]; [|done].
  intros H. injection H as <- <- <-. split; [done|]. unfold switched.
  destruct (strict_cases _ Hs) as [[E E2]|(E & E2 & E3)]; rewrite E2, E; [done|]. by rewrite E3.
Qed.
Lemma store_published m key i now : published (store_sticky_route c m key i now) = published m.
Proof. unfold store_sticky_route. by destruct (_ && _ && _). Qed.
Lemma store_statuses m key i now : statuses (store_sticky_route c m key i now) = statuses m.
Proof. apply (store_inputs c m). Qed.
Lemma set_active_statuses m k i r intent : statuses (set_active_uplink_index_for_transport c us m k i r intent) = statuses m.
Proof. apply (set_active_inputs c us m). Qed.
Lemma switched_inputs m i intent now :
  statuses (switched m i intent now) = statuses (reset_all_uplink_statuses m) /\
  admin_flags (switched m i intent now) = admin_flags m.
Proof.
  unfold switched. destruct (strict_global_active_uplink c).
  - split; [by rewrite store_statuses, set_active_statuses|].
    rewrite (proj2 (store_inputs c _ _ _ _)). by rewrite (proj2 (set_active_inputs c us _ _ _ _ _)).
  - split; [by rewrite !store_statuses, !set_active_statuses|].
    rewrite !(proj2 (store_inputs c _ _ _ _)). by rewrite !(proj2 (set_active_inputs c us _ _ _ _ _)).
Qed.
Lemma active_index_ext m m' k : active m' = active m -> active_uplink_index_for_transport c m' k = active_uplink_index_for_transport c m k.
Proof. intros E. unfold active_uplink_index_for_transport. by rewrite E. Qed.
Lemma set_active_other m k k' i r intent : strict_active_uplink_for c = true -> k <> k' ->
  active_uplink_index_for_transport c (set_active_uplink_index_for_transport c us m k' i r intent) k =
    if strict_global_active_uplink c then Some i else active_uplink_index_for_transport c m k.
Proof.
  intros Hs Hk. rewrite set_active_form. unfold active_uplink_index_for_transport. rewrite publish_active. cbn.
  unfold active_after. destruct (strict_cases _ Hs) as [[E E2]|(E & E2 & E3)]; rewrite E2; [done|]. rewrite E3. by destruct k, k'.
Qed.
Lemma switched_index m i intent now k : strict_active_uplink_for c = true ->
  active_uplink_index_for_transport c (switched m i intent now) k = Some i.
Proof.
  intros Hs. unfold switched. destruct (strict_global_active_uplink c) eqn:E.
  - rewrite (active_index_ext _ _ k (store_active c _ _ _ _)). destruct k; [by apply set_active_index|].
    rewrite set_active_other by done. by rewrite E.
  - rewrite (active_index_ext _ _ k (store_active c _ _ _ _)), (active_index_ext _ _ k (store_active c _ _ _ _)).
    destruct k; [|by apply set_active_index]. rewrite set_active_other by done. rewrite E. by apply set_active_index.
Qed.

(** Both transports' slots are on uplink [i]. *)
Definition slots_on m i : Prop := forall k, active_uplink_index_for_transport c m k = Some i.

(** The group after a switch to uplink [i], and after sessions it has served. *)
Record held m0 (i : nat) m : Prop := {
  hd_slots : slots_on m i;
  hd_pristine : pristine m;
  hd_flags : admin_flags m = admin_flags m0
}.
Lemma held_switched m i intent now : strict_active_uplink_for c = true -> held m i (wake_probes (switched m i intent now)).
Proof.
  intros Hs. destruct (switched_inputs m i intent now) as [Hst Hfl]. split; [|intros j; unfold status_at; cbn; rewrite Hst; apply (reset_pristine m)|done].
  intros k. by apply (switched_index m i intent now k).
Qed.
Lemma held_dispatch m0 m i k u now : held m0 i m -> may_use c us m0 k i u ->
  let r := dispatch m k now in held m0 i r.1 /\ r.2 = [mkUplinkCandidate i u] /\ active r.1 = active m /\ published r.1 = published m.
Proof.
  intros [Hi Hp Hf] (H1 & H2 & H3). set (x := candidate_state c m k now (i, u)).
  assert (x ∈ built m k now) as Hx.
  { apply elem_of_build. exists i, u. split; [|done]. split_and!; [done| |done]. unfold admin_enabled in *. by rewrite Hf. }
  cbn zeta. rewrite (dispatch_keep m k now x) by (first [exact (Hi k)|exact Hx|by apply pristine_keeps]). cbn [fst snd].
  split_and!; [|done|apply store_active|apply store_published].
  destruct (store_inputs c m (strict_route_key k (routing_scope c)) (cand_index x) now) as [Hst Hfl]. split.
  - intros k'. rewrite (active_index_ext _ _ k' (store_active c _ _ _ _)). apply Hi.
  - intros j. unfold status_at. rewrite Hst. apply Hp.
  - by rewrite Hfl.
Qed.
(** Dispatches one after the other, each of a transport and at a time. *)
Fixpoint dispatches m (ds : list (TransportKind * Z)) : Mgr * list (list UplinkCandidate) :=
  match ds with
  | [] => (m, [])
  | (k, now) :: ds => let (m, l) := dispatch m k now in let (m, ls) := dispatches m ds in (m, l :: ls)
  end.

(** C26: A manual switch holds. In a strict group it puts both transports on the
    named uplink, whatever the health of that uplink was; the soft flag it reports
    is the one it publishes. If the uplink is on, the dispatches that follow, any
    number of them, at any times and each of a transport that the uplink carries,
    all return it and leave the slots and the published snapshot alone, with
    [auto_failback] and the quality knobs on or off; as long as nothing else
    happens in between: no status changes, no session dialled elsewhere is
    confirmed, and no dispatch of a transport that the uplink does not carry, which
    under the global scope would move the one slot. *)
Theorem manual_switch_holds m n soft now m' i applied u (ds : list (TransportKind * Z)) :
  strict_active_uplink_for c = true -> set_active_uplink_by_name c us m n None soft now = (m', Ok (i, applied)) ->
  Forall (fun d => may_use c us m d.1 i u) ds ->
  slots_on m' i /\ snap_intent (published m') = from_operator_soft applied /\ applied = (soft && shared_resume c)%bool /\
  let (m'', ls) := dispatches m' ds in
  ls = replicate (length ds) [mkUplinkCandidate i u] /\ active m'' = active m' /\ published m'' = published m'.
Proof.
  intros Hs Hsw Hds. apply switch_by_name_form in Hsw as [Happ ->]; [|done].
  set (m' := wake_probes (switched m i (from_operator_soft applied) now)) in *.
  assert (held m i m') as Hh by (by apply held_switched).
  split; [apply Hh|]. split.
  { unfold m'; cbn. unfold switched. destruct (strict_global_active_uplink c); rewrite !store_published, set_active_form;
      unfold publish; case_bool_decide as E; [by rewrite E|done|by rewrite E|done]. }
  split; [done|]. clear Happ. clearbody m'. revert m' Hh. induction Hds as [|[k t] ds Hu _ IH]; intros m' Hh; [done|]. cbn [dispatches].
  destruct (held_dispatch m m' i k u t Hh Hu) as (Hh' & Hl & Ha & Hp). destruct (dispatch m' k t) as [m1 l]. cbn [fst snd] in *. subst l.
  specialize (IH m1 Hh'). destruct (dispatches m1 ds) as [m2 ls]. destruct IH as (-> & IHa & IHp). by split_and!; [|congruence..].
Qed.

(** ** Switching an uplink off *)
(** A choice for one transport under [Global] is one for both. *)
Lemma dispatch_other m k k' now x o : strict_active_uplink_for c = true -> k <> k' ->
  strict_choice c us m k' None now = Some (x, o) ->
  active_uplink_index_for_transport c (dispatch m k' now).1 k =
    if strict_global_active_uplink c then Some (cand_index x) else active_uplink_index_for_transport c m k.
Proof.
  intros Hs Hk Hx. rewrite strict_commit_form, Hx. destruct o as [r|]; cbn.
  - unfold commit_strict. rewrite (active_index_ext _ _ k (store_active c _ _ _ _)). by apply set_active_other.
  - rewrite (active_index_ext _ _ k (store_active c _ _ _ _)). apply choice_keep in Hx.
    destruct (strict_cases _ Hs) as [[E E2]|(E & E2 & E3)]; rewrite E2; [|done].
    revert Hx. unfold active_uplink_index_for_transport. by rewrite E2.
Qed.
Definition off m (i : nat) : Prop := admin_enabled m i = false.
(** No route and no slot leads to [i], where there is anywhere else to go. *)
Definition no_route m (i : nat) : Prop := forall key route, sticky_routes m !! key = Some route -> uplink_index route <> i.
Lemma off_not_candidate m k now i x : off m i -> x ∈ built m k now -> cand_index x <> i.
Proof. intros Hoff (_ & H & _)%build_may_use E. rewrite E in H. unfold off in Hoff. congruence. Qed.
Lemma off_same m m' i : same_inputs m m' -> off m i -> off m' i.
Proof. intros [_ E]. unfold off, admin_enabled. by rewrite E. Qed.
Lemma dispatch_inputs m k now : same_inputs m (dispatch m k now).1.
Proof. rewrite strict_commit_form. apply choose_inputs. Qed.
Lemma dispatch_off m k now i : strict_active_uplink_for c = true -> off m i -> no_route m i ->
  no_route (dispatch m k now).1 i /\
  (built m k now <> [] -> active_uplink_index_for_transport c (dispatch m k now).1 k <> Some i).
Proof.
  intros Hs Hoff Hr. rewrite strict_commit_form.
  destruct (strict_choice c us m k None now) as [[x o]|] eqn:Ex.
  - pose proof (choice_elem c us _ _ _ _ _ _ Ex) as Hin. pose proof (off_not_candidate _ _ _ _ _ Hoff Hin) as Hne. split.
    + intros key route. rewrite choose_sticky by done. rewrite lookup_insert_Some.
      intros [[_ <-]|[_ Hl]]; [done|by eapply Hr].
    + intros _. rewrite (choose_index c us m k None x o now Hs Ex). congruence.
  - split; [done|]. intros Hb. by apply choice_None in Ex.
Qed.

(** C27: An uplink that is switched off is drained at once. After an operator
    turns off an uplink that was on, in a strict group, no sticky route leads to
    it, it is a candidate for no session, and neither transport's slot is on it if
    any other uplink is left that carries the transport. *)
Theorem disabled_uplink_is_drained m n i now m' k now' :
  strict_active_uplink_for c = true -> (i < length (admin_flags m))%nat -> admin_enabled m i = true ->
  set_uplink_enabled_by_name c us m n false now = (m', Ok i) ->
  no_route m' i /\
  (forall x, x ∈ built m' k now' -> cand_index x <> i) /\
  (built m' k now' <> [] -> active_uplink_index_for_transport c m' k <> Some i).
Proof.
  intros Hs Hlen Hon. unfold set_uplink_enabled_by_name. destruct (position_by_name us n) as [j|]; [|done].
  destruct (set_admin_enabled m j false) as [m1 previous] eqn:Eset.
  destruct (bool_decide (previous = false)) eqn:Ep.
  { intros H. injection H as <- <-. exfalso. apply bool_decide_eq_true in Ep. subst. revert Eset.
    unfold set_admin_enabled. unfold admin_enabled in Hon. destruct (admin_flags m !! j); [|done].
    intros H. injection H as _ Hb. congruence. }
  rewrite Hs. intros H. injection H as <- <-.
  set (m2 := set_sticky (set_persisted m1 match persisted m1 with Some g => Some (update_uplink_enabled g n false) | None => None end) ∅).
  assert (off m2 j) as Hoff.
  { revert Eset. unfold set_admin_enabled, off, admin_enabled, m2. cbn.
    destruct (lookup_lt_is_Some_2 _ _ Hlen) as [v Hv]. rewrite Hv. intros H. injection H as <- _. cbn.
    by rewrite list_lookup_insert_eq. }
  assert (no_route m2 j) as Hr by (intros key route; unfold m2; cbn; by rewrite lookup_empty).
  unfold reselect_both. set (m3 := (dispatch m2 Tcp now).1).
  destruct (dispatch_off m2 Tcp now j Hs Hoff Hr) as [Hr3 Ht3]. fold m3 in Hr3, Ht3.
  pose proof (dispatch_inputs m2 Tcp now) as Hi3. fold m3 in Hi3.
  destruct (dispatch_off m3 Udp now j Hs (off_same _ _ _ Hi3 Hoff) Hr3) as [Hr4 Hu4].
  pose proof (dispatch_inputs m3 Udp now) as Hi4. set (m4 := (dispatch m3 Udp now).1) in *.
  assert (off m4 j) as Hoff4 by (eapply off_same; [exact Hi4|]; by eapply off_same).
  split; [exact Hr4|]. split; [intros x Hx; by apply (off_not_candidate (wake_probes m4) k now')|].
  intros Hb. change (built m4 k now' <> []) in Hb. change (active_uplink_index_for_transport c m4 k <> Some j).
  assert (forall m1' m2' k1 t1 t2, same_inputs m1' m2' -> built m2' k1 t1 = [] <-> built m1' k1 t2 = []) as Hempty.
  { intros m1' m2' k1 t1 t2 E. rewrite (build_same c us m1' m2' k1 t1 E). unfold build_candidate_states. unfold usable_uplinks. by destruct (filter _ _). }
  destruct k.
  - assert (built m2 Tcp now <> []) as Hb2.
    { intros E. apply Hb. apply (Hempty m2 m4 Tcp now' now); [by eapply same_inputs_trans|done]. }
    destruct (strict_choice c us m3 Udp None now) as [[x o]|] eqn:Ex.
    + unfold m4. rewrite (dispatch_other m3 Tcp Udp now x o Hs) by done. destruct (strict_global_active_uplink c); [|by apply Ht3].
      pose proof (choice_elem c us _ _ _ _ _ _ Ex) as Hin.
      pose proof (off_not_candidate _ _ _ _ _ (off_same _ _ _ Hi3 Hoff) Hin). congruence.
    + unfold m4. rewrite strict_commit_form, Ex. by apply Ht3.
  - apply Hu4. intros E. apply Hb. by apply (Hempty m3 m4 Udp now' now).
Qed.
End operator.
