(* ===== verification/StickyFacts.v ===== *)
(** Active-active dispatch: the order in which a session tries the uplinks of a
    group, the sticky route that pins the first of them, and the grouping by
    transport every list of candidates goes through. *)
From stdpp Require Import sorting.
From S2P Require Import Prelude Target UplinkDescent UplinkWires SortBy Selection Candidates CandidatesFacts.
Local Open Scope Z_scope.

(** ** Grouping *)
Definition transport_of (x : UplinkCandidate) : UplinkTransport := transport (own_wire (uplink_of x)).1.
Definition of_transport (t : UplinkTransport) (l : list UplinkCandidate) : list UplinkCandidate :=
  filter (fun x => transport_of x = t) l.
(** The transports of a list, in the order they first appear. *)
Fixpoint first_seen (l : list UplinkTransport) : list UplinkTransport :=
  match l with [] => [] | t :: l => t :: filter (fun t' => t' <> t) (first_seen l) end.
Definition grouped (l : list UplinkCandidate) : list (UplinkTransport * list UplinkCandidate) :=
  (fun t => (t, of_transport t l)) <$> first_seen (transport_of <$> l).

Lemma elem_of_first_seen t l : t ∈ first_seen l <-> t ∈ l.
Proof.
  induction l as [|u l IH]; cbn; [done|]. rewrite !elem_of_cons, list_elem_of_filter, IH.
  destruct (decide (t = u)); naive_solver.
Qed.
Lemma first_seen_snoc l t : first_seen (l ++ [t]) = if decide (t ∈ l) then first_seen l else first_seen l ++ [t].
Proof.
  induction l as [|u l IH]; cbn.
  { by rewrite decide_False by apply not_elem_of_nil. }
  rewrite IH. destruct (decide (t = u)) as [->|Hne].
  - rewrite (decide_True (P := u ∈ u :: l)) by apply list_elem_of_here. destruct (decide (u ∈ l)); [done|].
    rewrite filter_app. cbn. rewrite decide_False by (intros H; by apply H). by rewrite app_nil_r.
  - destruct (decide (t ∈ l)) as [Hin|Hout].
    + by rewrite (decide_True (P := t ∈ u :: l)) by (by apply list_elem_of_further).
    + rewrite (decide_False (P := t ∈ u :: l)) by (rewrite elem_of_cons; naive_solver).
      rewrite filter_app. cbn. by rewrite decide_True.
Qed.
Lemma push_group_spec x (f : UplinkTransport -> list UplinkCandidate) ts : NoDup ts ->
  push_group x ((fun t => (t, f t)) <$> ts) =
    if decide (transport_of x ∈ ts)
    then (fun t => (t, if decide (t = transport_of x) then f t ++ [x] else f t)) <$> ts
    else ((fun t => (t, f t)) <$> ts) ++ [(transport_of x, [x])].
Proof.
  fold (transport_of x). induction ts as [|t ts IH]; intros Hnd; cbn [fmap list_fmap push_group].
  { by rewrite decide_False by apply not_elem_of_nil. }
  apply NoDup_cons in Hnd as [Hnin Hnd]. fold (transport_of x). destruct (decide (t = transport_of x)) as [E|E].
  - rewrite bool_decide_true, decide_True by (done || (rewrite E; apply list_elem_of_here)). cbn.
    f_equal.
    apply list_fmap_ext. intros i t' Ht'. rewrite decide_False; [done|]. intros ->. apply Hnin. rewrite E. by eapply list_elem_of_lookup_2.
  - rewrite bool_decide_false by done. rewrite IH by done.
    destruct (decide (transport_of x ∈ ts)) as [Hin|Hout].
    + rewrite (decide_True (P := transport_of x ∈ t :: ts)) by (by apply list_elem_of_further). cbn.
      done.
    + rewrite (decide_False (P := transport_of x ∈ t :: ts)); [done|]. rewrite elem_of_cons. naive_solver.
Qed.
Lemma first_seen_NoDup l : NoDup (first_seen l).
Proof.
  induction l as [|t l IH]; cbn; [constructor|]. apply NoDup_cons. split; [|by apply NoDup_filter].
  rewrite list_elem_of_filter. naive_solver.
Qed.
Lemma of_transport_snoc t l x : of_transport t (l ++ [x]) = if decide (t = transport_of x) then of_transport t l ++ [x] else of_transport t l.
Proof.
  unfold of_transport. rewrite filter_app. destruct (decide (t = transport_of x)) as [->|E].
  - by rewrite filter_cons_True.
  - rewrite filter_cons_False by done. by rewrite app_nil_r.
Qed.
Lemma grouped_snoc l x : grouped (l ++ [x]) = push_group x (grouped l).
Proof.
  unfold grouped. rewrite fmap_app. cbn [fmap list_fmap]. rewrite first_seen_snoc, push_group_spec by apply first_seen_NoDup.
  destruct (decide (transport_of x ∈ transport_of <$> l)) as [Hin|Hout].
  - rewrite decide_True by (by rewrite elem_of_first_seen). apply list_fmap_ext. intros i t _. by rewrite of_transport_snoc.
  - rewrite decide_False by (by rewrite elem_of_first_seen). rewrite fmap_app. cbn. f_equal.
    + apply list_fmap_ext. intros i t Ht%list_elem_of_lookup_2. rewrite elem_of_first_seen in Ht.
      rewrite of_transport_snoc, decide_False; [done|]. congruence.
    + rewrite of_transport_snoc, decide_True by done. f_equal. f_equal.
      assert (of_transport (transport_of x) l = []) as ->; [|done].
      apply elem_of_nil_inv. intros y [E Hy]%list_elem_of_filter. apply Hout. rewrite <- E. by apply list_elem_of_fmap_2.
Qed.
Lemma foldl_groups l : foldl (fun groups x => push_group x groups) [] l = grouped l.
Proof.
  induction l as [|x l IH] using rev_ind; [done|]. by rewrite foldl_app, IH, grouped_snoc.
Qed.
Lemma group_form l :
  group_candidates_by_transport l = concat ((fun t => of_transport t l) <$> first_seen (transport_of <$> l)).
Proof. unfold group_candidates_by_transport. rewrite foldl_groups. unfold grouped. by rewrite <- list_fmap_compose. Qed.
Lemma concat_of_transport ts l : NoDup ts -> (forall x, x ∈ l -> transport_of x ∈ ts) ->
  concat ((fun t => of_transport t l) <$> ts) ≡ₚ l.
Proof.
  revert l. induction ts as [|t ts IH]; intros l Hnd Hl; cbn.
  { destruct l as [|x l]; [done|]. specialize (Hl x (list_elem_of_here _ _)). by apply elem_of_nil in Hl. }
  apply NoDup_cons in Hnd as [Hnin Hnd].
  etrans; [|apply (filter_app_complement (fun x => transport_of x = t) l)]. apply Permutation_app_head.
  etrans; [|apply (IH (filter (fun x => ~ transport_of x = t) l) Hnd)].
  - match goal with |- ?a ≡ₚ ?b => assert (a = b) as ->; [|done] end. f_equal. apply list_fmap_ext. intros i t' Ht'%list_elem_of_lookup_2. unfold of_transport.
    rewrite list_filter_filter. apply list_filter_iff. intros x. split; [|by intros []]. intros ->. naive_solver.
  - intros x [Hx Hin]%list_elem_of_filter. specialize (Hl x Hin). apply elem_of_cons in Hl as [?|?]; done.
Qed.

(** Every list of candidates is grouped by transport: it is the
    concatenation, for each transport in the order of its first appearance, of the
    candidates of that transport in the order they had. No candidate is lost or
    repeated and the first stays first, so a session exhausts the transport it
    starts with before it turns to another. *)
Theorem grouping_is_stable l :
  group_candidates_by_transport l = concat ((fun t => of_transport t l) <$> first_seen (transport_of <$> l)) /\
  group_candidates_by_transport l ≡ₚ l /\ head (group_candidates_by_transport l) = head l.
Proof.
  split_and!; [apply group_form| |].
  - rewrite group_form. apply concat_of_transport; [apply first_seen_NoDup|].
    intros x Hx. rewrite elem_of_first_seen. by apply list_elem_of_fmap_2.
  - rewrite group_form. destruct l as [|x l]; [done|]. cbn. by rewrite decide_True.
Qed.

Section sticky.
Context {Penalty Measure : Type} `{sc : !Scoring Penalty Measure}.
Context (c : BalancingConfig) (us : list Uplink).
Local Abbreviation Mgr := (Manager Penalty Measure).
Local Abbreviation Cand := (CandidateState Penalty).
Implicit Types (m : Mgr) (x y : Cand) (l : list Cand) (k : TransportKind).
Local Abbreviation built m k now := (build_candidate_states c us m k now).
Local Abbreviation ordered m k now := (sort_by (primary_order us) (built m k now)).

(** ** Bringing one candidate to the front *)
Lemma bring_forward_spec l x : find_index l (cand_index x) = Some x -> exists rest, bring_forward (cand_index x) l = x :: rest /\ x :: rest ≡ₚ l.
Proof.
  intros Hf. unfold bring_forward. destruct (list_find _ l) as [[pos y]|] eqn:E.
  - apply list_find_Some in E as (Hy & Hi & Hmin). assert (y = x) as ->.
    { revert Hf. unfold find_index. clear -Hy Hi Hmin. revert pos Hy Hmin. induction l as [|z l IH]; intros pos Hy Hmin; [done|]. cbn.
      case_bool_decide as Ez.
      - intros [= ->]. destruct pos as [|pos]; [by simplify_eq/=|]. by specialize (Hmin 0%nat x eq_refl ltac:(lia)).
      - destruct pos as [|pos]; [by simplify_eq/=|]. apply (IH pos Hy). intros j z' Hj Hlt. apply (Hmin (S j) z' Hj). lia. }
    eexists. split; [done|]. by etrans; [apply Permutation_middle|]; rewrite take_drop_middle.
  - apply list_find_None in E. rewrite Forall_forall in E. apply find_index_Some in Hf as [Hin _]. by specialize (E x Hin).
Qed.
Lemma bring_first_forward x l : bring_forward (cand_index x) (x :: l) = x :: l.
Proof. unfold bring_forward. cbn. by rewrite decide_True. Qed.

(** ** The decision *)
(** The route kept for a session leads to a candidate. *)
Definition pinned_to m key k now : option Cand :=
  match sticky_routes m !! key with Some route => find_index (ordered m k now) (uplink_index route) | None => None end.
Definition fastest l (s : Cand) : Cand := match List.find cand_healthy l with Some x => x | None => s end.
(** [s] is slower than the fastest healthy candidate by more than the
    hysteresis. *)
Definition beaten m k now (s : Cand) : Prop :=
  mode c = ActiveActive /\
  let f := fastest (ordered m k now) s in
  exists a b, score_latency c (cand_status s) (weight_at us (cand_index s)) k now = Some a /\
    score_latency c (cand_status f) (weight_at us (cand_index f)) k now = Some b /\ b + hysteresis c < a /\ cand_index f <> cand_index s.

Lemma find_head l first rest (P : Cand -> bool) : l = first :: rest -> P first = true -> List.find P l = Some first.
Proof. intros -> H. cbn. by rewrite H. Qed.
Lemma ordered_find m k now x : x ∈ built m k now -> find_index (ordered m k now) (cand_index x) = Some x.
Proof. intros H. by apply find_index_sorted. Qed.
Lemma ordered_head_healthy m k now first rest y : ordered m k now = first :: rest -> y ∈ built m k now ->
  cand_healthy y = true -> cand_healthy first = true.
Proof.
  intros E Hy Hh. apply sort_by_head in E as [_ E]; [|apply _]. specialize (E y Hy). revert E.
  unfold no_later, primary_order. rewrite Hh. by destruct (cand_healthy first).
Qed.
Lemma ordered_find_healthy m k now first rest y : ordered m k now = first :: rest -> y ∈ built m k now ->
  cand_healthy y = true -> List.find cand_healthy (ordered m k now) = Some first.
Proof. intros E Hy Hh. apply (find_head _ first rest); [done|]. exact (ordered_head_healthy m k now first rest y E Hy Hh). Qed.
Lemma ordered_head_elem m k now first rest : ordered m k now = first :: rest -> first ∈ built m k now.
Proof. intros E. rewrite <- (elem_of_sort_by (primary_order us)), E. apply list_elem_of_here. Qed.
Lemma sticky_choice_first m k now first rest : ordered m k now = first :: rest ->
  sticky_choice c us first (ordered m k now) first k now = cand_index first.
Proof.
  intros E. pose proof (ordered_head_elem _ _ _ _ _ E) as Hf. unfold sticky_choice.
  destruct (cand_healthy first) eqn:Eh; [|done]. cbn [negb]. case_bool_decide; [done|].
  rewrite (ordered_find_healthy _ _ _ _ _ _ E Hf Eh). rewrite bool_decide_true by done. cbn. by repeat case_match.
Qed.
(** The choice is a candidate, healthy if any is, and is the choice again. *)
Lemma sticky_choice_stable m k now first rest s : ordered m k now = first :: rest -> s ∈ built m k now ->
  exists y, y ∈ built m k now /\ sticky_choice c us first (ordered m k now) s k now = cand_index y /\
    sticky_choice c us first (ordered m k now) y k now = cand_index y /\
    (forall z, z ∈ built m k now -> cand_healthy z = true -> cand_healthy y = true) /\
    (cand_healthy s = true -> y = s \/ beaten m k now s).
Proof.
  intros E Hs. pose proof (ordered_head_elem _ _ _ _ _ E) as Hf. pose proof (sticky_choice_first _ _ _ _ _ E) as Hfirst.
  destruct (cand_healthy s) eqn:Eh.
  2: { exists first. split_and!; try done; [unfold sticky_choice; by rewrite Eh|].
       intros z Hz Hh. by eapply ordered_head_healthy. }
  assert (cand_healthy first = true) as Ehf by exact (ordered_head_healthy m k now first rest s E Hs Eh).
  destruct (decide (sticky_choice c us first (ordered m k now) s k now = cand_index s)) as [Ec|Ec].
  { exists s. split_and!; auto. }
  exists first. revert Ec. unfold sticky_choice at 1 2. rewrite Eh. cbn [negb]. case_bool_decide as Ea; [done|].
  rewrite (ordered_find_healthy _ _ _ _ _ _ E Hs Eh).
  destruct (score_latency _ (cand_status s) _ _ _) as [a|] eqn:Esa; [|done].
  destruct (score_latency _ (cand_status first) _ _ _) as [b|] eqn:Esb; [|done].
  destruct (negb _ && _) eqn:Eb; [|done]. apply andb_true_iff in Eb as [Hne%negb_true_iff%bool_decide_eq_false Hlt%Z.ltb_lt].
  intros _. split_and!; try done. intros _. right. split; [by destruct (mode c)|]. cbn zeta. unfold fastest.
  rewrite (ordered_find_healthy _ _ _ _ _ _ E Hs Eh). exists a, b. split_and!; done.
Qed.
(** Storing or refreshing what was just stored or refreshed changes nothing. *)
Lemma store_key_again m key i now route : sticky_routes m !! key = Some route ->
  let m1 := store_sticky_route c m key i now in
  (exists e, sticky_routes m1 !! key = Some (mkSticky i e)) /\ store_sticky_route c m1 key i now = m1.
Proof.
  intros Hk. assert (forall m, is_Some (sticky_routes m !! key) -> store_sticky_route c m key i now =
    set_sticky m (<[key := mkSticky i (if strict_pinned_route_key c key then pinned_until now else now + sticky_ttl c)]> (sticky_routes m))) as Hst.
  { intros m0 [r Hr]. unfold store_sticky_route. rewrite Hr, (bool_decide_false (Some r = None)) by done. by rewrite andb_false_r. }
  cbn zeta. rewrite (Hst m) by eauto. split; [cbn; rewrite lookup_insert_eq; eauto|].
  rewrite Hst by (cbn; rewrite lookup_insert_eq; eauto). cbn. by rewrite insert_insert_eq.
Qed.
Lemma refresh_again m key i now route : sticky_routes m !! key = Some route ->
  let m1 := refresh_sticky_route c m key i now in
  (exists e, sticky_routes m1 !! key = Some (mkSticky i e)) /\ refresh_sticky_route c m1 key i now = m1.
Proof.
  intros Hk. cbn zeta. destruct (store_key_again m key i now route Hk) as [[e He] Hs].
  assert (refresh_sticky_route c m key i now =
    if bool_decide (uplink_index route = i) && (now + sticky_ttl c / 2 <? expires_at route) then m
    else store_sticky_route c m key i now) as -> by (unfold refresh_sticky_route; by rewrite Hk).
  destruct (_ && _) eqn:Eb.
  - split; [|unfold refresh_sticky_route; by rewrite Hk, Eb].
    apply andb_true_iff in Eb as [<-%bool_decide_eq_true _]. exists (expires_at route). by destruct route.
  - split; [by exists e|]. unfold refresh_sticky_route. rewrite He. by case_match.
Qed.
Lemma store_inputs_built m key i now k t : built (store_sticky_route c m key i now) k t = built m k t.
Proof. apply build_same, store_inputs. Qed.
Lemma refresh_built m key i now k t : built (refresh_sticky_route c m key i now) k t = built m k t.
Proof.
  unfold refresh_sticky_route. destruct (_ !! key) as [r|]; [destruct (_ && _); [done|]|]; apply store_inputs_built.
Qed.

Lemma store_cases m key i now :
  let m1 := store_sticky_route c m key i now in
  m1 = m \/ (exists e, sticky_routes m1 !! key = Some (mkSticky i e)) /\ store_sticky_route c m1 key i now = m1.
Proof.
  cbn zeta. destruct (sticky_routes m !! key) as [route|] eqn:Hk; [right; by eapply store_key_again|].
  assert (store_sticky_route c m key i now = m \/
    store_sticky_route c m key i now =
    set_sticky m (<[key := mkSticky i (if strict_pinned_route_key c key then pinned_until now else now + sticky_ttl c)]> (sticky_routes m)))
    as [E|E] by (unfold store_sticky_route; case_match; auto); [by left|right].
  rewrite E. split; [cbn; rewrite lookup_insert_eq; eauto|].
  unfold store_sticky_route. cbn. rewrite lookup_insert_eq, (bool_decide_false (Some _ = None)), andb_false_r by done.
  by rewrite insert_insert_eq.
Qed.
Lemma ordered_pinned m k target client now first rest s :
  let key := routing_key k target client (routing_scope c) in
  ordered m k now = first :: rest -> pinned_to m key k now = Some s ->
  let i := sticky_choice c us first (ordered m k now) s k now in
  ordered_candidates c us m k target client now = (refresh_sticky_route c m key i now, to_candidate <$> bring_forward i (ordered m k now)).
Proof.
  cbn zeta. unfold pinned_to, ordered_candidates, preferred_sticky_index. intros E. rewrite E.
  destruct (sticky_routes m !! _) as [route|]; [|done]. by intros ->.
Qed.
Lemma ordered_fresh m k target client now first rest :
  let key := routing_key k target client (routing_scope c) in
  ordered m k now = first :: rest -> pinned_to m key k now = None ->
  ordered_candidates c us m k target client now = (store_sticky_route c m key (cand_index first) now, to_candidate <$> ordered m k now).
Proof.
  cbn zeta. unfold pinned_to, ordered_candidates, preferred_sticky_index. intros E. rewrite E.
  destruct (sticky_routes m !! _) as [route|]; [|done]. by intros ->.
Qed.
Lemma pinned_to_elem m key k now s : pinned_to m key k now = Some s -> s ∈ built m k now.
Proof.
  unfold pinned_to. destruct (_ !! _); [|done]. intros [H _]%find_index_Some. by rewrite elem_of_sort_by in H.
Qed.

(** C28: A session keeps its uplink. A dispatch of an active-active group returns
    every usable uplink once, and first a selectable one if there is any; a
    selectable uplink its sticky route leads to stays first unless the fastest
    selectable one beats its penalised score by more than the hysteresis; and the
    same dispatch made again returns the same list and changes nothing, so that
    two uplinks of close latency do not make a session alternate. *)
Theorem sticky_dispatch_settles m k target client now m1 (l : list UplinkCandidate) :
  ordered_candidates c us m k target client now = (m1, l) ->
  let key := routing_key k target client (routing_scope c) in
  ordered_candidates c us m1 k target client now = (m1, l) /\
  l ≡ₚ to_candidate <$> built m k now /\
  forall x, x ∈ built m k now ->
    exists y rest, y ∈ built m k now /\ l = to_candidate y :: rest /\ (cand_healthy x = true -> cand_healthy y = true) /\
      (pinned_to m key k now = Some x -> cand_healthy x = true -> y = x \/ beaten m k now x).
Proof.
  intros Hd key. destruct (ordered m k now) as [|first rest] eqn:E.
  { assert (built m k now = []) as Hb.
    { pose proof (sort_ordered_perm (primary_order us) (built m k now)) as Hp. rewrite E in Hp. by apply Permutation_nil_l in Hp. }
    assert (ordered_candidates c us m k target client now = (m, [])) as Hd' by (unfold ordered_candidates; by rewrite E).
    rewrite Hd' in Hd. injection Hd as <- <-. rewrite Hb. split_and!; [done|done|]. intros x Hx. by apply elem_of_nil in Hx. }
  pose proof (sort_ordered_perm (primary_order us) (built m k now)) as Hp.
  destruct (pinned_to m key k now) as [s|] eqn:Epin.
  - pose proof (pinned_to_elem _ _ _ _ _ Epin) as Hs.
    destruct (sticky_choice_stable m k now first rest s E Hs) as (y & Hy & Ey & Eyy & Hh & Hb).
    rewrite (ordered_pinned m k target client now first rest s E Epin), Ey in Hd. fold key in Hd. injection Hd as <- <-.
    destruct (bring_forward_spec (ordered m k now) y (ordered_find _ _ _ _ Hy)) as (rest' & Ebf & Hp').
    assert (exists route, sticky_routes m !! key = Some route) as [route Hroute]
      by (unfold pinned_to in Epin; destruct (_ !! key); naive_solver).
    destruct (refresh_again m key (cand_index y) now route Hroute) as [[e He] Hr]. cbn zeta in *.
    pose proof (refresh_built m key (cand_index y) now k now) as Hb1. split_and!.
    + rewrite (ordered_pinned _ k target client now first rest y); rewrite ?Hb1; [|done|].
      * rewrite Eyy. fold key. by rewrite Hr.
      * unfold pinned_to. fold key. rewrite He, Hb1. by apply ordered_find.
    + rewrite Ebf. apply fmap_Permutation. by rewrite Hp'.
    + intros x Hx. exists y, (to_candidate <$> rest'). rewrite Ebf. split_and!; [done|done|by apply Hh|].
      intros [= ->]. done.
  - rewrite (ordered_fresh m k target client now first rest E Epin) in Hd. fold key in Hd. injection Hd as <- <-.
    pose proof (store_inputs_built m key (cand_index first) now k now) as Hb1.
    pose proof (ordered_head_elem _ _ _ _ _ E) as Hf. split_and!.
    + destruct (store_cases m key (cand_index first) now) as [Hsame|[[e He] Hr]].
      { cbn zeta in Hsame. rewrite Hsame. rewrite (ordered_fresh m k target client now first rest E Epin). fold key. by rewrite Hsame. }
      rewrite (ordered_pinned _ k target client now first rest first); rewrite ?Hb1; [|done|].
      * rewrite (sticky_choice_first _ _ _ _ _ E). fold key. f_equal; [|by rewrite E, bring_first_forward].
        unfold refresh_sticky_route. rewrite He. by case_match.
      * unfold pinned_to. fold key. rewrite He, Hb1. by apply ordered_find.
    + by apply fmap_Permutation.
    + intros x Hx. exists first, (to_candidate <$> rest). rewrite E. split_and!; [done|done| |done].
      exact (ordered_head_healthy m k now first rest x E Hx).
Qed.
End sticky.
