(* ===== verification/Reselect.v ===== *)
(** Scheduled re-selection of the strict active uplink
    ([crates/outline-uplink/src/manager/reselect.rs], [manager/sync_order.rs],
    the start-up path of [manager/mod.rs]).

    The weighted draw and the seeded permutation are arguments: [pick] chooses a
    position among the candidates drawn from, [sync_order] is the preference order
    of a slot, which every node of a group computes from the same data. The local
    clock is an argument: a day and the seconds since its midnight, or nothing
    when it cannot be read. *)
From stdpp Require Import sorting.
From S2P Require Import Prelude Target UplinkDescent UplinkWires SortBy Selection Candidates CandidatesFacts StrictChoice Operator.
Local Open Scope Z_scope.

(** ** The schedule *)
Definition RESELECT_SLOT_TOLERANCE_SECS : Z := 90.
Definition WALL_CLOCK_TICK : Z := 30.
Definition slot_secs (hm : Z * Z) : Z := hm.1 * 3600 + hm.2 * 60.
Definition slot_due (day_key secs_of_day : Z) (last_fired : option (Z * nat)) (i : nat) (hm : Z * Z) : bool :=
  (slot_secs hm <=? secs_of_day) && (secs_of_day - slot_secs hm <=? RESELECT_SLOT_TOLERANCE_SECS)
  && negb (bool_decide (last_fired = Some (day_key, i))).
Fixpoint due_slot_from (i : nat) (day_key secs_of_day : Z) (slots : list (Z * Z)) (last_fired : option (Z * nat)) : option nat :=
  match slots with
  | [] => None
  | hm :: slots =>
    if slot_due day_key secs_of_day last_fired i hm then Some i
    else due_slot_from (S i) day_key secs_of_day slots last_fired
  end.
Definition due_slot (day_key secs_of_day : Z) (slots : list (Z * Z)) (last_fired : option (Z * nat)) : option nat :=
  due_slot_from 0 day_key secs_of_day slots last_fired.
Definition initial_last_fired (day_key secs_of_day : Z) (slots : list (Z * Z)) : option (Z * nat) :=
  match due_slot day_key secs_of_day slots None with Some slot => Some (day_key, slot) | None => None end.
(** One turn of the wall-clock loop: the guard, and the slot that fires. *)
Definition wall_clock_tick (slots : list (Z * Z)) (last_fired : option (Z * nat)) (clock : option (Z * Z))
    : option (Z * nat) * option nat :=
  match clock with
  | None => (last_fired, None)
  | Some (day_key, secs) =>
    match due_slot day_key secs slots last_fired with
    | Some slot => (Some (day_key, slot), Some slot)
    | None => (last_fired, None)
    end
  end.

Record SlotKey : Type := mkSlotKey { day_key : Z; key_slot : nat }.
Definition current_slot_key (day secs_of_day : Z) (slots : list (Z * Z)) : option SlotKey :=
  match slots with
  | [] => None
  | _ =>
    match last (filter (fun p => slot_secs p.2 <=? secs_of_day) (imap pair slots)) with
    | Some (slot, _) => Some (mkSlotKey day slot)
    | None => Some (mkSlotKey (day - 1) (length slots - 1))
    end
  end.
Definition previous_slot_key (key : SlotKey) (slots : list (Z * Z)) : SlotKey :=
  match key_slot key with
  | S slot => mkSlotKey (day_key key) slot
  | O => mkSlotKey (day_key key - 1) (length slots - 1)
  end.

Inductive ReselectOutcome : Type :=
  | Switched (from : option String.string) (to : String.string) (soft : bool)
  | NoCandidate
  | Skipped.

Section reselect.
Context {Penalty Measure : Type} `{sc : !Scoring Penalty Measure}.
Context (c : BalancingConfig) (us : list Uplink).
(** [weighted_pick_with_rng] on the weights of the candidates. *)
Context (pick : list (Penalty * Z) -> option nat) (sync_order : SlotKey -> list nat).
Local Abbreviation Mgr := (Manager Penalty Measure).

Definition eligible (m : Mgr) (gate : TransportKind) (now : Z) (exclude : option nat) (i : nat) (u : Uplink) : bool :=
  negb (bool_decide (exclude = Some i)) && admin_enabled m i
  && supports_transport_for_scope u gate (routing_scope c)
  && selection_health c u (status_at m i) gate now
  && negb (cooldown_active (leg (status_at m i) gate) now).
Definition draw_reselect_candidate (m : Mgr) (gate : TransportKind) (exclude : option nat) (now : Z) : option nat :=
  let candidates := filter (fun p => eligible m gate now exclude p.1 p.2) (imap pair us) in
  match pick ((fun p => (penalty (wires (leg (status_at m p.1) gate)), Z.max (weight p.2) 0)) <$> candidates) with
  | Some pos => fst <$> candidates !! pos
  | None => None
  end.
Definition first_eligible (m : Mgr) (order : list nat) (gate : TransportKind) (now : Z) (exclude : option nat) : option nat :=
  List.find (fun i => match us !! i with Some u => eligible m gate now exclude i u | None => false end) order.
Definition sync_pick (m : Mgr) (key : SlotKey) (gate : TransportKind) (now : Z) : option nat :=
  let order := sync_order key in
  let excluded := head (sync_order (previous_slot_key key (reselect_at c))) in
  match first_eligible m order gate now excluded with
  | Some i => Some i
  | None => first_eligible m order gate now None
  end.
Definition sync_target (m : Mgr) (gate : TransportKind) (clock : option (Z * Z)) (now : Z) : option nat :=
  match clock with
  | None => None
  | Some (day, secs) =>
    match current_slot_key day secs (reselect_at c) with
    | Some key => sync_pick m key gate now
    | None => None
    end
  end.

Definition move_active (m : Mgr) (k : TransportKind) (target : nat) (reason : Reason) (intent : SwitchIntent) (now : Z) : Mgr :=
  store_sticky_route c (set_active_uplink_index_for_transport c us m k target reason intent)
    (strict_route_key k (routing_scope c)) target now.
Definition reselect_global (m : Mgr) (reason : Reason) (soft : bool) (clock : option (Z * Z)) (now : Z) : Mgr * ReselectOutcome :=
  let intent := from_operator_soft soft in
  let gate := strict_gate_transport (routing_scope c) Tcp in
  let current := slot_index (global (active m)) in
  let switch target :=
    (move_active m Tcp target reason intent now, Switched (name_at us <$> current) (name_at us target) soft) in
  if reselect_sync c then
    match sync_target m gate clock now with
    | None => (m, NoCandidate)
    | Some target => if bool_decide (current = Some target) then (m, Skipped) else switch target
    end
  else
    match draw_reselect_candidate m gate current now with
    | None => (m, NoCandidate)
    | Some target => switch target
    end.
Definition reselect_target (m : Mgr) (k : TransportKind) (current : option nat) (clock : option (Z * Z)) (now : Z) : option nat :=
  let gate := strict_gate_transport (routing_scope c) k in
  if reselect_sync c then
    match sync_target m gate clock now with
    | Some t => if bool_decide (current = Some t) then None else Some t
    | None => None
    end
  else draw_reselect_candidate m gate current now.
Definition reselect_per_uplink (m : Mgr) (reason : Reason) (soft : bool) (clock : option (Z * Z)) (now : Z) : Mgr * ReselectOutcome :=
  let intent := from_operator_soft soft in
  let cur_tcp := slot_index (tcp (active m)) in
  let cur_udp := slot_index (udp (active m)) in
  let tcp_target := reselect_target m Tcp cur_tcp clock now in
  let udp_target := reselect_target m Udp cur_udp clock now in
  let m1 := match tcp_target with Some t => move_active m Tcp t reason intent now | None => m end in
  let m2 := match udp_target with Some t => move_active m1 Udp t reason intent now | None => m1 end in
  match tcp_target, udp_target with
  | None, None => (m, NoCandidate)
  | Some t, _ => (m2, Switched (name_at us <$> cur_tcp) (name_at us t) soft)
  | None, Some t => (m2, Switched (name_at us <$> cur_udp) (name_at us t) soft)
  end.
Definition reselect_active_uplink (m : Mgr) (reason : Reason) (soft : bool) (clock : option (Z * Z)) (now : Z)
    : Mgr * ReselectOutcome :=
  if negb (bool_decide (mode c = ActivePassive)) then (m, Skipped)
  else
    let applied_soft := soft && shared_resume c in
    if strict_global_active_uplink c then reselect_global m reason applied_soft clock now
    else if strict_per_uplink_active_uplink c then reselect_per_uplink m reason applied_soft clock now
    else (m, Skipped).

(** ** Start-up and the probe loop *)
Definition initialize_strict_active_selection (probe_all : Mgr -> Mgr) (m : Mgr) (clock : option (Z * Z)) (now : Z) : Mgr :=
  if negb (strict_active_uplink_for c) then m
  else if reselect_sync c then
    let m := if probes c then probe_all m else m in
    (reselect_active_uplink m (OtherReason "startup_sync") true clock now).1
  else
    let select k m :=
      match active_uplink_index_for_transport c m k with
      | Some _ => m
      | None => (strict_transport_candidates c us m k None true now).1
      end in
    let already_selected :=
      match active_uplink_index_for_transport c m Tcp with
      | Some _ => true
      | None => match active_uplink_index_for_transport c m Udp with Some _ => true | None => false end
      end in
    let m := if probes c && negb already_selected then probe_all m else m in
    if strict_global_active_uplink c then select Tcp m else select Udp (select Tcp m).
Definition reselect_strict_active_after_probe (m : Mgr) (now : Z) : Mgr :=
  if strict_global_active_uplink c then (strict_transport_candidates c us m Tcp None true now).1
  else if strict_per_uplink_active_uplink c then reselect_both c us m now
  else m.
End reselect.

(** * The schedule fires every slot once a day, and a re-selection moves the active
    slot to an eligible uplink or not at all *)
Local Open Scope Z_scope.

(** ** One day of the wall-clock loop *)
Definition in_window (slots : list (Z * Z)) (i : nat) (t : Z) : Prop :=
  exists hm, slots !! i = Some hm /\ slot_secs hm <= t <= slot_secs hm + RESELECT_SLOT_TOLERANCE_SECS.
(** Slots further apart than the tolerance. *)
Definition spaced (slots : list (Z * Z)) : Prop :=
  forall i j a b, slots !! i = Some a -> slots !! j = Some b -> (i < j)%nat -> slot_secs a + RESELECT_SLOT_TOLERANCE_SECS < slot_secs b.
(** The slots that fire at the readings [ts] of the clock. *)
Fixpoint fired (slots : list (Z * Z)) (day : Z) (last_fired : option (Z * nat)) (ts : list Z) : list nat :=
  match ts with
  | [] => []
  | t :: ts =>
    let '(guard, slot) := wall_clock_tick slots last_fired (Some (day, t)) in
    match slot with Some i => [i] | None => [] end ++ fired slots day guard ts
  end.

Lemma due_slot_from_spec n day t slots guard i :
  due_slot_from n day t slots guard = Some i ->
  exists j hm, i = (n + j)%nat /\ slots !! j = Some hm /\ slot_due day t guard i hm = true.
Proof.
  revert n. induction slots as [|hm slots IH]; intros n; cbn; [done|].
  destruct (slot_due day t guard n hm) eqn:E.
  - intros [= <-]. exists 0%nat, hm. split_and!; [lia|done|done].
  - intros (j & hm' & -> & H1 & H2)%IH. exists (S j), hm'. split_and!; [lia|done|done].
Qed.
Lemma due_slot_from_None n day t slots guard j hm :
  due_slot_from n day t slots guard = None -> slots !! j = Some hm -> slot_due day t guard (n + j) hm = false.
Proof.
  revert n j. induction slots as [|hm0 slots IH]; intros n j; cbn; [done|].
  destruct (slot_due day t guard n hm0) eqn:E; [done|]. intros Hn Hj. destruct j as [|j]; cbn in Hj.
  - injection Hj as ->. by rewrite Nat.add_0_r.
  - rewrite Nat.add_succ_r, <- Nat.add_succ_l. by apply IH.
Qed.
Lemma slot_due_true day t guard i hm : slot_due day t guard i hm = true <->
  slot_secs hm <= t <= slot_secs hm + RESELECT_SLOT_TOLERANCE_SECS /\ guard <> Some (day, i).
Proof.
  unfold slot_due. rewrite !andb_true_iff, !Z.leb_le, negb_true_iff, bool_decide_eq_false. intuition lia.
Qed.
Lemma due_slot_Some day t slots guard i : due_slot day t slots guard = Some i -> in_window slots i t /\ guard <> Some (day, i).
Proof. intros (j & hm & -> & H1 & [H2 H3]%slot_due_true)%due_slot_from_spec. split; [by exists hm|done]. Qed.
Lemma due_slot_None day t slots guard i : due_slot day t slots guard = None -> in_window slots i t -> guard = Some (day, i).
Proof.
  intros Hd (hm & Hi & Hw). apply (due_slot_from_None _ _ _ _ _ _ _ Hd) in Hi. cbn in Hi.
  destruct (decide (guard = Some (day, i))) as [|Hg]; [done|]. by rewrite (proj2 (slot_due_true day t guard i hm)) in Hi.
Qed.
Lemma window_unique slots i j t : spaced slots -> in_window slots i t -> in_window slots j t -> i = j.
Proof.
  intros Hs (a & Ha & Hwa) (b & Hb & Hwb). destruct (lt_eq_lt_dec i j) as [[H| ->]|H]; [|done|].
  - specialize (Hs _ _ _ _ Ha Hb H). lia.
  - specialize (Hs _ _ _ _ Hb Ha H). lia.
Qed.

(** The schedule fires every slot once. With slots further apart than the
    tolerance, over any increasing readings of one day's clock, the slots that
    fire are, without repetition, those some reading falls into the window of -
    less the one the guard holds, which fired before the first reading or was
    suppressed at start-up because the loop started inside its window. *)
Theorem scheduled_slots_fire_once slots day guard t0 ts : spaced slots ->
  (forall i, guard = Some (day, i) -> in_window slots i t0) -> StronglySorted Z.lt (t0 :: ts) ->
  NoDup (fired slots day guard ts) /\
  forall i, i ∈ fired slots day guard ts <-> (exists t, t ∈ ts /\ in_window slots i t) /\ guard <> Some (day, i).
Proof.
  intros Hsp. revert guard t0. induction ts as [|t ts IH]; intros guard t0 Hg Hsort.
  { cbn. split; [constructor|]. intros i. rewrite elem_of_nil. split; [done|]. intros ((t & Ht & _) & _). by apply elem_of_nil in Ht. }
  apply StronglySorted_inv in Hsort as [Hsort Hall]. pose proof Hsort as Hsort'. apply StronglySorted_inv in Hsort as [Hss Hall'].
  rewrite Forall_cons in Hall. rewrite Forall_forall in Hall'. destruct Hall as [Hlt Hall]. rewrite Forall_forall in Hall.
  cbn [fired wall_clock_tick]. destruct (due_slot day t slots guard) as [j|] eqn:Ed.
  - apply due_slot_Some in Ed as [Hwj Hgj].
    destruct (IH (Some (day, j)) t) as [Hnd Hiff]; [intros i; by intros [= <-]|done|]. cbn [app]. split.
    + constructor; [|done]. rewrite Hiff. intros [_ H]. by apply H.
    + intros i. rewrite elem_of_cons, Hiff. split.
      * intros [->|[(t' & Ht' & Hw) Hne]]; [split; [exists t; split; [apply list_elem_of_here|done]|done]|].
        split; [exists t'; split; [by apply list_elem_of_further|done]|]. intros ->.
        destruct (Hg i eq_refl) as (a & Ha & Hwa). destruct Hw as (a' & Ha' & Hwa'). simplify_eq.
        assert (i = j) as ->; [|done]. apply (window_unique slots i j t Hsp); [|done]. eexists. split; [done|].
        specialize (Hall' t' Ht'). lia.
      * intros [(t' & Ht' & Hw) Hne]. destruct (decide (i = j)) as [->|Hij]; [by left|right]. split; [|congruence].
        apply elem_of_cons in Ht' as [->|Ht']; [|by exists t']. destruct Hij. by apply (window_unique slots i j t).
  - destruct (IH guard t0) as [Hnd Hiff]; [done| |].
    { constructor; [exact Hss|]. by apply Forall_forall. }
    cbn [app]. split; [done|]. intros i. rewrite Hiff. split; intros [(t' & Ht' & Hw) Hne]; (split; [|done]).
    + exists t'. split; [by apply list_elem_of_further|done].
    + apply elem_of_cons in Ht' as [->|Ht']; [|by exists t']. destruct Hne. by eapply due_slot_None.
Qed.

(** Slots one minute apart, which the configuration allows, each fire twice: the
    guard remembers only the last slot that fired, while both windows are open. *)
Example adjacent_slots_fire_twice :
  fired [(12, 0); (12, 1)] 1 None [43200; 43230; 43260; 43290; 43320; 43350] = [0; 1; 0; 1]%nat.
Proof. reflexivity. Qed.
Example scheduled_slots_fire_once_witness :
  let slots := [(4, 0); (12, 30)] in
  let ts := [14370; 14400; 14430; 14460; 45000; 45030] in
  spaced slots /\ fired slots 7 None ts = [0; 1]%nat /\
  (NoDup (fired slots 7 None ts) /\
   forall i, i ∈ fired slots 7 None ts <-> (exists t, t ∈ ts /\ in_window slots i t) /\ None <> Some (7, i)).
Proof.
  assert (spaced [(4, 0); (12, 30)]) as Hs.
  { intros [|[|i]] [|[|j]] a b Ha Hb Hij; cbn in Ha, Hb; try done; try lia; simplify_eq. vm_compute; done. }
  split; [exact Hs|]. split; [reflexivity|].
  apply (scheduled_slots_fire_once [(4, 0); (12, 30)] 7 None 0); [exact Hs|by intros i [=]|].
  repeat constructor.
Defined.

(** ** Where a re-selection lands *)
Section reselect.
Context {Penalty Measure : Type} `{sc : !Scoring Penalty Measure}.
Context (c : BalancingConfig) (us : list Uplink).
Context (pick : list (Penalty * Z) -> option nat) (sync_order : SlotKey -> list nat).
Local Abbreviation Mgr := (Manager Penalty Measure).
Implicit Types (m : Mgr) (k : TransportKind).
Local Abbreviation gate k := (strict_gate_transport (routing_scope c) k).

(** On, able to carry the transport, selectable and not cooling down. *)
Definition fit m k now (i : nat) : Prop := exists u, us !! i = Some u /\ eligible c m (gate k) now None i u = true.
Lemma eligible_fit m k now exclude i u : us !! i = Some u -> eligible c m (gate k) now exclude i u = true ->
  fit m k now i /\ exclude <> Some i.
Proof.
  intros Hu. unfold eligible. rewrite !andb_true_iff, !negb_true_iff, bool_decide_eq_false. intros ((((H1 & H2) & H3) & H4) & H5).
  split; [|done]. exists u. split; [done|]. unfold eligible. rewrite H2, H3, H4, H5. by rewrite bool_decide_false.
Qed.
Lemma draw_fit m k now exclude t : draw_reselect_candidate c us pick m (gate k) exclude now = Some t -> fit m k now t /\ exclude <> Some t.
Proof.
  unfold draw_reselect_candidate. destruct (pick _) as [pos|]; [|done].
  destruct (_ !! pos) as [[i u]|] eqn:E; [|done]. intros [= <-].
  apply list_elem_of_lookup_2, list_elem_of_filter in E as [He%Is_true_true Hin].
  apply list_elem_of_lookup in Hin as [j Hj]. rewrite list_lookup_imap in Hj.
  destruct (us !! j) as [v|] eqn:Ev; [|done]. cbn in Hj. simplify_eq. by eapply eligible_fit.
Qed.
Lemma first_eligible_fit m k now order exclude t : first_eligible c us m order (gate k) now exclude = Some t ->
  fit m k now t /\ exclude <> Some t.
Proof.
  unfold first_eligible. intros [_ H]%List.find_some. destruct (us !! t) as [u|] eqn:Eu; [|done]. by eapply eligible_fit.
Qed.
Lemma sync_target_fit m k clock now t : sync_target c us sync_order m (gate k) clock now = Some t -> fit m k now t.
Proof.
  unfold sync_target, sync_pick. destruct clock as [[day secs]|]; [|done]. destruct (current_slot_key _ _ _) as [key|]; [|done].
  destruct (first_eligible _ _ _ _ _ _ (head _)) eqn:E; [intros [= <-]; by apply first_eligible_fit in E as [? _]|].
  intros [? _]%first_eligible_fit. done.
Qed.
Lemma target_fit m k clock now t : reselect_target c us pick sync_order m k (active_uplink_index_for_transport c m k) clock now = Some t ->
  fit m k now t /\ active_uplink_index_for_transport c m k <> Some t.
Proof.
  unfold reselect_target. destruct (reselect_sync c).
  - destruct (sync_target _ _ _ _ _ _ _) eqn:E; [|done]. case_bool_decide; [done|]. intros [= <-]. split; [|done]. by eapply sync_target_fit.
  - apply draw_fit.
Qed.
Lemma move_active_inputs m k t reason intent now : same_inputs m (move_active c us m k t reason intent now).
Proof. unfold move_active. eapply same_inputs_trans; [apply (set_active_inputs c us)|apply store_inputs]. Qed.
Lemma move_active_index m k k' t reason intent now : strict_active_uplink_for c = true ->
  active_uplink_index_for_transport c (move_active c us m k t reason intent now) k' =
    if decide (k = k') then Some t else if strict_global_active_uplink c then Some t else active_uplink_index_for_transport c m k'.
Proof.
  intros Hs. unfold move_active. rewrite (active_index_ext _ _ _ k' (store_active c _ _ _ _)). destruct (decide (k = k')) as [<-|Hk].
  - by apply set_active_index.
  - by apply set_active_other.
Qed.

(** A slot that moved is on a fit uplink; a switch is reported iff one moved. *)
Definition landed m (soft : bool) now (r : Mgr * ReselectOutcome) : Prop :=
  let moved k := active_uplink_index_for_transport c r.1 k <> active_uplink_index_for_transport c m k in
  same_inputs m r.1 /\
  (forall k, moved k -> exists t, active_uplink_index_for_transport c r.1 k = Some t /\ fit m k now t) /\
  match r.2 with
  | Switched _ _ s => s = (soft && shared_resume c)%bool /\ exists k, moved k
  | NoCandidate | Skipped => r.1 = m
  end.
Lemma landed_stay m soft now out : match out with Switched _ _ _ => False | _ => True end -> landed m soft now (m, out).
Proof. intros H. split_and!; [done|by intros k []|]. by destruct out. Qed.
Lemma landed_global m t reason soft now from to : strict_active_uplink_for c = true -> routing_scope c = Global ->
  active_uplink_index_for_transport c m Tcp <> Some t -> fit m Tcp now t ->
  let applied := (soft && shared_resume c)%bool in
  landed m soft now (move_active c us m Tcp t reason (from_operator_soft applied) now, Switched from to applied).
Proof.
  intros Hs Esc Hne Hfit applied. destruct (strict_cases _ Hs) as [[_ Eg]|(E & _)]; [|congruence].
  assert (forall k, active_uplink_index_for_transport c (move_active c us m Tcp t reason (from_operator_soft applied) now) k = Some t) as Hall.
  { intros k. rewrite move_active_index by done. rewrite Eg. by destruct (decide _). }
  unfold landed; cbn zeta; cbn [fst snd]. split_and!; [apply move_active_inputs| |done|exists Tcp; rewrite Hall; congruence].
  intros k _. exists t. split; [apply Hall|]. destruct Hfit as (u & Hu & He). exists u. split; [done|]. by rewrite Esc in *.
Qed.
Lemma reselect_global_landed m reason soft clock now : strict_active_uplink_for c = true -> routing_scope c = Global ->
  landed m soft now (reselect_global c us pick sync_order m reason (soft && shared_resume c) clock now).
Proof.
  intros Hs Esc. destruct (strict_cases _ Hs) as [[_ Eg]|(E & _)]; [|congruence].
  assert (active_uplink_index_for_transport c m Tcp = slot_index (global (active m))) as Ea
    by (unfold active_uplink_index_for_transport; by rewrite Eg).
  unfold reselect_global. destruct (reselect_sync c).
  - destruct (sync_target _ _ _ _ _ _ _) as [t|] eqn:Et; [|by apply landed_stay]. case_bool_decide; [by apply landed_stay|].
    apply landed_global; [done|done|congruence|]. by eapply sync_target_fit.
  - destruct (draw_reselect_candidate _ _ _ _ _ _ _) as [t|] eqn:Et; [|by apply landed_stay].
    apply draw_fit in Et as [Hfit Hne]. apply landed_global; [done|done|congruence|done].
Qed.
Lemma fit_same m m' k now t : same_inputs m m' -> fit m' k now t <-> fit m k now t.
Proof. intros [E1 E2]. unfold fit, eligible, admin_enabled, status_at. by rewrite E1, E2. Qed.
Lemma reselect_per_uplink_landed m reason soft clock now : strict_active_uplink_for c = true -> routing_scope c = PerUplink ->
  landed m soft now (reselect_per_uplink c us pick sync_order m reason (soft && shared_resume c) clock now).
Proof.
  intros Hs Esc. destruct (strict_cases _ Hs) as [[E _]|(_ & Eg & Ep)]; [congruence|].
  assert (active_uplink_index_for_transport c m Tcp = slot_index (tcp (active m))) as Et
    by (unfold active_uplink_index_for_transport; by rewrite Eg, Ep).
  assert (active_uplink_index_for_transport c m Udp = slot_index (udp (active m))) as Eu
    by (unfold active_uplink_index_for_transport; by rewrite Eg, Ep).
  pose proof (target_fit m Tcp clock now) as Hft. pose proof (target_fit m Udp clock now) as Hfu. rewrite Et in Hft. rewrite Eu in Hfu.
  unfold reselect_per_uplink. set (intent := from_operator_soft _).
  assert (forall m0 k k' t, active_uplink_index_for_transport c (move_active c us m0 k t reason intent now) k' =
            if decide (k = k') then Some t else active_uplink_index_for_transport c m0 k') as Hidx
    by (intros; rewrite move_active_index by done; by rewrite Eg).
  destruct (reselect_target _ _ _ _ _ Tcp _ _ _) as [t|]; destruct (reselect_target _ _ _ _ _ Udp _ _ _) as [u|].
  4: by apply landed_stay.
  - destruct (Hft t eq_refl) as [Hfit Hne], (Hfu u eq_refl) as [Hfit' Hne']. unfold landed; cbn zeta; cbn [fst snd]; split_and!.
    + eapply same_inputs_trans; apply move_active_inputs.
    + intros [] _; rewrite !Hidx; cbn; eauto.
    + done.
    + exists Tcp. rewrite !Hidx. repeat case_decide; congruence.
  - destruct (Hft t eq_refl) as [Hfit Hne]. unfold landed; cbn zeta; cbn [fst snd]; split_and!; [apply move_active_inputs| |done|].
    + intros []; rewrite !Hidx; cbn; eauto. by intros [].
    + exists Tcp. rewrite !Hidx. repeat case_decide; congruence.
  - destruct (Hfu u eq_refl) as [Hfit Hne]. unfold landed; cbn zeta; cbn [fst snd]; split_and!; [apply move_active_inputs| |done|].
    + intros []; rewrite !Hidx; cbn; eauto. by intros [].
    + exists Udp. rewrite !Hidx. repeat case_decide; congruence.
Qed.

(** A re-selection lands on a fit uplink or changes nothing. In a strict
    group, whether the target is drawn or is the decision of the slot every node
    shares, it touches no status; a slot it moves goes to an uplink that is on,
    carries the transport, is selectable and not cooling down; it reports a switch
    exactly if a slot moved, a soft one only if asked and on a group that shares
    resumption. *)
Theorem reselect_lands_on_fit m reason soft clock now : strict_active_uplink_for c = true ->
  landed m soft now (reselect_active_uplink c us pick sync_order m reason soft clock now).
Proof.
  intros Hs. unfold reselect_active_uplink. rewrite bool_decide_true.
  2: { revert Hs. unfold strict_active_uplink_for, strict_global_active_uplink, strict_per_uplink_active_uplink. by destruct (mode c). }
  cbn [negb]. destruct (strict_cases _ Hs) as [[Esc Eg]|(Esc & Eg & Ep)]; rewrite Eg.
  - by apply reselect_global_landed.
  - rewrite Ep. by apply reselect_per_uplink_landed.
Qed.
End reselect.
