(* ===== verification/SelectionRun.v ===== *)
(** Every operation on the manager of a group, in any order and at any times,
    keeps its state consistent. *)
From S2P Require Import Prelude Target UplinkDescent UplinkWires SortBy Selection Candidates CandidatesFacts StrictChoice StrictMoves Operator StickyFacts Reselect.
Local Open Scope Z_scope.

Section run.
Context {Penalty Measure : Type} `{sc : !Scoring Penalty Measure}.
Context (c : BalancingConfig) (us : list Uplink).
Context (pick : list (Penalty * Z) -> option nat) (sync_order : SlotKey -> list nat).
Local Abbreviation Mgr := (Manager Penalty Measure).
Implicit Types (m : Mgr) (k : TransportKind).

(** ** The invariant *)
Definition slot_ok (s : Slot) : Prop :=
  (slot_index s = None <-> slot_reason s = None) /\ forall i, slot_index s = Some i -> (i < length us)%nat.
Definition snapshot_ok m : Prop :=
  snap_global (published m) = slot_index (global (active m)) /\ snap_tcp (published m) = slot_index (tcp (active m)) /\
  snap_udp (published m) = slot_index (udp (active m)).
Definition unpinned (r : gmap RoutingKey StickyRoute) : gmap RoutingKey StickyRoute :=
  filter (fun e => strict_pinned_route_key c e.1 = false) r.
Definition sticky_ok m : Prop :=
  (forall key route, sticky_routes m !! key = Some route -> (uplink_index route < length us)%nat) /\
  (size (unpinned (sticky_routes m)) <= MAX_STICKY_ROUTES)%nat.
Definition manager_ok m : Prop :=
  length (statuses m) = length us /\ length (admin_flags m) = length us /\
  (slot_ok (global (active m)) /\ slot_ok (tcp (active m)) /\ slot_ok (udp (active m))) /\ snapshot_ok m /\ sticky_ok m.

(** ** The operations *)
Inductive Op : Type :=
  | Dispatch (k : TransportKind) (target : option TargetAddr) (client : option String.string)
  | FailoverDispatch (target : TargetAddr) (failed : nat) (client : option String.string)
  | Confirm (k : TransportKind) (target : option TargetAddr) (client : option String.string) (i : nat)
  | ConfirmFailover (k : TransportKind) (target : option TargetAddr) (client : option String.string) (i : nat)
  | Prune
  | SetEnabled (n : String.string) (enabled : bool)
  | SetActive (n : String.string) (k : option TransportKind) (soft : bool)
  | ReselectNow (reason : Reason) (soft : bool) (clock : option (Z * Z))
  | AfterProbe
  | NewStatuses (v : list (UplinkStatus Penalty Measure)).
Definition run_op m (op : Op) (now : Z) : Mgr :=
  match op with
  | Dispatch k target client => (candidates_for c us m k target client now).1
  | FailoverDispatch target failed client => (tcp_failover_candidates_for c us m target failed client now).1
  | Confirm k target client i => confirm_selected_uplink_for c us m k target client i now
  | ConfirmFailover k target client i => confirm_runtime_failover_uplink_for c us m k target client i now
  | Prune => prune_sticky_routes c m now
  | SetEnabled n enabled => (set_uplink_enabled_by_name c us m n enabled now).1
  | SetActive n k soft => (set_active_uplink_by_name c us m n k soft now).1
  | ReselectNow reason soft clock => (reselect_active_uplink c us pick sync_order m reason soft clock now).1
  | AfterProbe => reselect_strict_active_after_probe c us m now
  | NewStatuses v => set_statuses m v
  end.
(** A session confirms an uplink of the group; probes and traffic change
    statuses, never their number. *)
Definition op_ok (op : Op) : Prop :=
  match op with
  | Confirm _ _ _ i | ConfirmFailover _ _ _ i => (i < length us)%nat
  | NewStatuses v => length v = length us
  | _ => True
  end.

(** ** The writes they are made of *)
Lemma ok_ext m m' : length (statuses m') = length (statuses m) -> length (admin_flags m') = length (admin_flags m) ->
  active m' = active m -> published m' = published m -> sticky_routes m' = sticky_routes m -> manager_ok m -> manager_ok m'.
Proof. unfold manager_ok, snapshot_ok, sticky_ok. intros -> -> -> -> ->. done. Qed.
Lemma unpinned_insert key route r :
  unpinned (<[key := route]> r) = if strict_pinned_route_key c key then delete key (unpinned r) else <[key := route]> (unpinned r).
Proof.
  unfold unpinned. destruct (strict_pinned_route_key c key) eqn:E.
  - rewrite map_filter_insert_False by (cbn; congruence). by rewrite map_filter_delete.
  - by rewrite map_filter_insert_True.
Qed.
Lemma ok_store m key i now : manager_ok m -> (i < length us)%nat -> manager_ok (store_sticky_route c m key i now).
Proof.
  intros Hok Hi. pose proof Hok as (H1 & H2 & H3 & H4 & H5 & H6). unfold store_sticky_route.
  destruct (negb (strict_pinned_route_key c key) && _ && _) eqn:E; [exact Hok|].
  unfold manager_ok. split; [done|]. split; [done|]. split; [done|]. split; [exact H4|]. split; cbn.
  - intros key' route. rewrite lookup_insert_Some. intros [[_ <-]|[_ Hl]]; [done|by eapply H5].
  - rewrite unpinned_insert. destruct (strict_pinned_route_key c key) eqn:Ep.
    + etrans; [|exact H6]. apply map_subseteq_size, delete_subseteq.
    + cbn in E. rewrite map_size_insert. destruct (unpinned (sticky_routes m) !! key) eqn:Eu; [done|].
      apply andb_false_iff in E as [E|E].
      * apply Nat.leb_gt in E. assert (size (unpinned (sticky_routes m)) <= size (sticky_routes m))%nat; [|lia].
        apply map_size_filter.
      * apply bool_decide_eq_false in E. exfalso. apply E. destruct (sticky_routes m !! key) eqn:El; [|done].
        exfalso. revert Eu. unfold unpinned. rewrite (map_lookup_filter_Some_2 _ _ _ s); done.
Qed.
Lemma move_slot_ok s i r : (i < length us)%nat -> slot_ok s -> slot_ok (move_slot s i r).
Proof.
  intros Hi [Hr Hs]. split.
  - cbn. split; [done|]. by destruct (slot_reason s), (negb (bool_decide (slot_index s = Some i))), (is_manual r).
  - cbn. by intros j [= <-].
Qed.
Lemma ok_publish m intent : length (statuses m) = length us -> length (admin_flags m) = length us ->
  slot_ok (global (active m)) /\ slot_ok (tcp (active m)) /\ slot_ok (udp (active m)) -> sticky_ok m -> manager_ok (publish m intent).
Proof.
  intros H1 H2 H3 H4. unfold publish. case_bool_decide as E; [|unfold manager_ok, snapshot_ok, sticky_ok in *; naive_solver].
  unfold manager_ok, snapshot_ok. by rewrite E.
Qed.
Lemma ok_set_active m k i r intent : manager_ok m -> (i < length us)%nat ->
  manager_ok (set_active_uplink_index_for_transport c us m k i r intent).
Proof.
  intros (H1 & H2 & (Ha & Hb & Hc) & _ & H5) Hi. rewrite set_active_form. apply ok_publish; [done|done| |done].
  cbn. unfold active_after. destruct (strict_global_active_uplink c); cbn; [split_and!; auto using move_slot_ok|].
  destruct (strict_per_uplink_active_uplink c), k; cbn; split_and!; auto using move_slot_ok.
Qed.
Lemma ok_sticky m r : manager_ok m -> r ⊆ sticky_routes m -> manager_ok (set_sticky m r).
Proof.
  intros (H1 & H2 & H3 & H4 & H5 & H6) Hr. unfold manager_ok.
  split; [done|]. split; [done|]. split; [exact H3|]. split; [exact H4|]. split; cbn.
  - intros key route Hk. apply (H5 key). by eapply lookup_weaken.
  - etrans; [|exact H6]. apply map_subseteq_size. by apply map_filter_subseteq_mono.
Qed.
Lemma ok_refresh m key i now : manager_ok m -> (i < length us)%nat -> manager_ok (refresh_sticky_route c m key i now).
Proof.
  intros Hm Hi. unfold refresh_sticky_route. destruct (_ !! key) as [r|]; [destruct (_ && _); [done|]|]; by apply ok_store.
Qed.
Lemma built_bound m k now (x : CandidateState Penalty) : x ∈ build_candidate_states c us m k now -> (cand_index x < length us)%nat.
Proof. intros [Hu _]%build_may_use. by eapply lookup_lt_Some. Qed.
Lemma ok_commit m k (x : CandidateState Penalty) r now : manager_ok m -> (cand_index x < length us)%nat ->
  manager_ok (commit_strict c us m k x r now).
Proof. intros Hm Hx. unfold commit_strict. apply ok_store; [by apply ok_set_active|done]. Qed.
Lemma ok_dispatch m k failed now : manager_ok m -> manager_ok (strict_transport_candidates c us m k failed true now).1.
Proof.
  intros Hm. rewrite strict_commit_form. destruct (strict_choice c us m k failed now) as [[x o]|] eqn:Ex; [|done].
  apply choice_elem, built_bound in Ex. destruct o; cbn; [by apply ok_commit|by apply ok_store].
Qed.
Lemma failover_query_silent m k failed now : (strict_transport_candidates c us m k failed false now).1 = m.
Proof.
  unfold strict_transport_candidates. destruct (sort_by _ _); [done|].
  destruct (active_uplink_index_for_transport c m k); [|done]. by destruct (judge_active _ _ _ _ _ _ _).
Qed.
Lemma ok_ordered m k target client now : manager_ok m -> manager_ok (ordered_candidates c us m k target client now).1.
Proof.
  intros Hm. destruct (sort_by (primary_order us) (build_candidate_states c us m k now)) as [|first rest] eqn:E.
  { unfold ordered_candidates. by rewrite E. }
  pose proof (ordered_head_elem c us m k now first rest E) as Hf%built_bound.
  destruct (pinned_to c us m (routing_key k target client (routing_scope c)) k now) as [s|] eqn:Ep.
  - rewrite (ordered_pinned c us m k target client now first rest s E Ep). cbn. apply ok_refresh; [done|].
    apply pinned_to_elem in Ep. destruct (sticky_choice_stable c us m k now first rest s E Ep) as (y & Hy & -> & _).
    by eapply built_bound.
  - rewrite (ordered_fresh c us m k target client now first rest E Ep). cbn. by apply ok_store.
Qed.
Lemma ok_candidates_for m k target client now : manager_ok m -> manager_ok (candidates_for c us m k target client now).1.
Proof.
  intros Hm. unfold candidates_for. destruct (strict_active_uplink_for c).
  - pose proof (ok_dispatch m k None now Hm). by destruct (strict_transport_candidates _ _ _ _ _ _ _).
  - pose proof (ok_ordered m k target client now Hm). by destruct (ordered_candidates _ _ _ _ _ _ _).
Qed.
Lemma ok_confirm m k target client i now : manager_ok m -> (i < length us)%nat ->
  manager_ok (confirm_selected_uplink_for c us m k target client i now).
Proof.
  intros Hm Hi. unfold confirm_selected_uplink_for.
  set (m1 := if negb _ then _ else m). assert (manager_ok m1) as H1 by (unfold m1; case_match; [by apply ok_set_active|done]).
  assert (manager_ok (store_sticky_route c m1 (routing_key k target client (routing_scope c)) i now)) as H2 by (by apply ok_store).
  destruct k; [|exact H2]. eapply ok_ext; [..|exact H2]; try done. cbn. by rewrite length_alter.
Qed.
Lemma ok_wake m : manager_ok m -> manager_ok (wake_probes m).
Proof. by apply ok_ext. Qed.
Lemma ok_both m now : manager_ok m -> manager_ok (reselect_both c us m now).
Proof. intros Hm. unfold reselect_both. by apply ok_dispatch, ok_dispatch. Qed.
Lemma ok_set_enabled m n enabled now : manager_ok m -> manager_ok (set_uplink_enabled_by_name c us m n enabled now).1.
Proof.
  intros Hm. unfold set_uplink_enabled_by_name. destruct (position_by_name us n) as [i|]; [|done].
  assert (manager_ok (set_admin_enabled m i enabled).1) as H1.
  { unfold set_admin_enabled. destruct (admin_flags m !! i); [|done]. eapply ok_ext; [..|exact Hm]; try done. cbn. by rewrite length_insert. }
  destruct (set_admin_enabled m i enabled) as [m1 previous]. cbn in H1. case_bool_decide; [done|].
  apply ok_wake. set (m2 := set_persisted m1 _). assert (manager_ok m2) as H2 by (eapply ok_ext; [..|exact H1]; done).
  destruct enabled; [done|]. assert (manager_ok (set_sticky m2 ∅)) as H3 by (apply ok_sticky; [done|apply map_empty_subseteq]).
  destruct (strict_active_uplink_for c); [by apply ok_both|done].
Qed.
Lemma position_bound n i : position_by_name us n = Some i -> (i < length us)%nat.
Proof.
  unfold position_by_name. destruct (list_find _ us) as [[j u]|] eqn:E; [|done]. intros [= <-].
  apply list_find_Some in E as [H _]. by eapply lookup_lt_Some.
Qed.
Lemma ok_set_active_by_name m n (k : option TransportKind) soft now : manager_ok m -> manager_ok (set_active_uplink_by_name c us m n k soft now).1.
Proof.
  intros Hm. unfold set_active_uplink_by_name. destruct (negb _); [done|].
  destruct (position_by_name us n) as [i|] eqn:Ei; [|done]. apply position_bound in Ei. cbn [fst]. apply ok_wake.
  set (intent := from_operator_soft _). set (m1 := set_sticky (reset_all_uplink_statuses m) ∅).
  assert (manager_ok m1) as H1.
  { apply ok_sticky; [|apply map_empty_subseteq]. eapply ok_ext; [..|exact Hm]; try done. cbn. by rewrite length_fmap. }
  set (m2 := if strict_global_active_uplink c then _ else _). assert (manager_ok m2) as H2.
  { unfold m2. destruct (strict_global_active_uplink c); [by apply ok_set_active|].
    destruct (strict_per_uplink_active_uplink c); [|done]. destruct k; [by apply ok_set_active|]. apply ok_set_active; [by apply ok_set_active|done]. }
  destruct (routing_scope c); try done; [|by apply ok_store].
  destruct k; [by apply ok_store|]. apply ok_store; [by apply ok_store|done].
Qed.
Lemma ok_move m k t r intent now : manager_ok m -> (t < length us)%nat -> manager_ok (move_active c us m k t r intent now).
Proof. intros Hm Ht. unfold move_active. apply ok_store; [by apply ok_set_active|done]. Qed.
Lemma fit_bound m k now t : fit c us m k now t -> (t < length us)%nat.
Proof. intros (u & Hu & _). by eapply lookup_lt_Some. Qed.
Lemma ok_reselect m reason soft clock now : manager_ok m ->
  manager_ok (reselect_active_uplink c us pick sync_order m reason soft clock now).1.
Proof.
  intros Hm. unfold reselect_active_uplink. destruct (negb _); [done|].
  destruct (strict_global_active_uplink c) eqn:Eg.
  { unfold reselect_global. destruct (reselect_sync c).
    - destruct (sync_target _ _ _ _ _ _ _) eqn:Et; [|done]. case_bool_decide; [done|].
      apply ok_move; [done|]. by eapply fit_bound, sync_target_fit.
    - destruct (draw_reselect_candidate _ _ _ _ _ _ _) eqn:Et; [|done].
      apply ok_move; [done|]. by eapply fit_bound, draw_fit. }
  destruct (strict_per_uplink_active_uplink c) eqn:Ep; [|done].
  assert (forall k t, reselect_target c us pick sync_order m k (active_uplink_index_for_transport c m k) clock now = Some t -> (t < length us)%nat) as Hb
    by (intros k t [H _]%target_fit; by eapply fit_bound).
  pose proof (Hb Tcp) as Ht. pose proof (Hb Udp) as Hu. unfold active_uplink_index_for_transport in Ht, Hu. rewrite Eg, Ep in Ht, Hu.
  unfold reselect_per_uplink.
  destruct (reselect_target _ _ _ _ _ Tcp _ _ _); destruct (reselect_target _ _ _ _ _ Udp _ _ _); cbn; auto using ok_move.
Qed.
Lemma ok_op m op now : op_ok op -> manager_ok m -> manager_ok (run_op m op now).
Proof.
  intros Ho Hm. destruct op; cbn.
  - by apply ok_candidates_for.
  - unfold tcp_failover_candidates_for. destruct (strict_active_uplink_for c).
    + pose proof (failover_query_silent m Tcp (Some failed) now) as E. destruct (strict_transport_candidates _ _ _ _ _ _ _). cbn in *. by subst.
    + pose proof (ok_ordered m Tcp (Some target) client now Hm). by destruct (ordered_candidates _ _ _ _ _ _ _).
  - by apply ok_confirm.
  - unfold confirm_runtime_failover_uplink_for. destruct (_ && _); [done|]. by apply ok_confirm.
  - unfold prune_sticky_routes. apply ok_sticky; [done|]. apply map_filter_subseteq.
  - by apply ok_set_enabled.
  - by apply ok_set_active_by_name.
  - by apply ok_reselect.
  - unfold reselect_strict_active_after_probe. destruct (strict_global_active_uplink c); [by apply ok_dispatch|].
    destruct (strict_per_uplink_active_uplink c); [by apply ok_both|done].
  - destruct Hm as (H1 & H2 & H3). by split_and!; try done; apply H3.
Qed.
Lemma restored_ok n : slot_ok (restored us n).
Proof.
  unfold restored. destruct n as [n|]; [|by split]. destruct (position_by_name us n) as [i|] eqn:E; [|by split].
  split; [done|]. cbn. intros j [= <-]. by eapply position_bound.
Qed.
Lemma ok_new saved : manager_ok (new_with_state us saved).
Proof.
  unfold manager_ok, new_with_state. cbn. rewrite !length_fmap. split_and!; try done; try apply restored_ok.
  split; cbn; [by intros ? ?; rewrite lookup_empty|]. unfold unpinned. rewrite map_filter_empty, map_size_empty. lia.
Qed.

(** The state of a group stays consistent. From the state a previous run
    persisted, whatever it was, and through any sequence of dispatches, failovers,
    confirmations, prunes, operator commands, re-selections, probe rounds and
    status changes, at any times: there is one status and one flag per uplink; a
    slot has a reason exactly if it has an uplink, which exists; what watchers see
    is what the slots hold; a sticky route leads to an uplink that exists; and the
    routes that are not pinned number at most [MAX_STICKY_ROUTES]. *)
Theorem selection_state_consistent saved (ops : list (Op * Z)) : Forall (fun o => op_ok o.1) ops ->
  manager_ok (foldl (fun m o => run_op m o.1 o.2) (new_with_state us saved) ops).
Proof.
  intros Hops. assert (forall m, manager_ok m -> manager_ok (foldl (fun m o => run_op m o.1 o.2) m ops)) as H; [|apply H, ok_new].
  induction ops as [|[op now] ops IH]; intros m Hm; [done|]. apply Forall_cons in Hops as [Ho Hops]. apply IH; [done|]. by apply ok_op.
Qed.

(** ** What a strict dispatch does *)
Definition watched m k : option nat :=
  if strict_global_active_uplink c then snap_global (published m)
  else match k with Tcp => snap_tcp (published m) | Udp => snap_udp (published m) end.
Lemma watched_active m k : strict_active_uplink_for c = true -> snapshot_ok m -> watched m k = active_uplink_index_for_transport c m k.
Proof.
  intros Hs (E1 & E2 & E3). unfold watched, active_uplink_index_for_transport.
  destruct (strict_cases _ Hs) as [[_ Eg]|(_ & Eg & Ep)]; rewrite Eg; [done|]. rewrite Ep. by destruct k.
Qed.
Lemma group_singleton x : group_candidates_by_transport [x] = [x].
Proof. done. Qed.

(** What a strict group returns is what it commits. A dispatch returns
    nothing, and changes nothing, exactly if no uplink may be used; otherwise it
    returns one uplink, which is on and carries the transport, and which the
    active slot, the watchers' snapshot and the pinned sticky route then name. *)
Theorem strict_dispatch_commits m k target client now m' (l : list UplinkCandidate) :
  strict_active_uplink_for c = true -> manager_ok m -> candidates_for c us m k target client now = (m', l) ->
  (m' = m /\ l = [] /\ forall i u, ~ may_use c us m k i u) \/
  (exists i u, may_use c us m k i u /\ l = [mkUplinkCandidate i u] /\ active_uplink_index_for_transport c m' k = Some i /\
     watched m' k = Some i /\
     sticky_routes m' !! strict_route_key k (routing_scope c) = Some (mkSticky i (pinned_until now))).
Proof.
  intros Hs Hm. unfold candidates_for. rewrite Hs. rewrite strict_commit_form.
  destruct (strict_choice c us m k None now) as [[x o]|] eqn:Ex.
  - pose proof (choice_elem _ _ _ _ _ _ _ _ Ex) as Hin. pose proof (build_may_use _ _ _ _ _ _ Hin) as Hu.
    pose proof (choose_index c us m k None x o now Hs Ex) as Hi.
    assert (sticky_routes (choose c us m k (Some (x, o)) now).1 !! strict_route_key k (routing_scope c) =
      Some (mkSticky (cand_index x) (pinned_until now))) as Hst by (rewrite choose_sticky by done; apply lookup_insert_eq).
    pose proof (ok_dispatch m k None now Hm) as (_ & _ & _ & Hsn & _). rewrite strict_commit_form, Ex in Hsn.
    assert (choose c us m k (Some (x, o)) now = ((choose c us m k (Some (x, o)) now).1, [to_candidate x])) as Ec by (by destruct o).
    rewrite Ec, group_singleton. intros H. injection H as <- <-. right. exists (cand_index x), (cand_uplink x).
    split_and!; [apply Hu..|done|done|by rewrite watched_active|exact Hst].
  - intros [= <- <-]. left. split_and!; [done|done|]. intros i u Hu. apply choice_None in Ex.
    assert (candidate_state c m k now (i, u) ∈ build_candidate_states c us m k now) as Hin by (apply elem_of_build; eauto).
    rewrite Ex in Hin. by apply elem_of_nil in Hin.
Qed.
End run.

(** * Concrete groups

    The theorems of the selection at inputs where their hypotheses hold, and runs
    that show what the code does where a comment says otherwise. *)
Local Open Scope Z_scope.

(** ** A scoring in whole numbers *)
Local Abbreviation Measure := (option Z * option Z)%type.
Definition toy_scoring : Scoring Z Measure := {|
  fresh_penalty := 0;
  fresh_measure := (None, None);
  current_penalty p _ := if 0 <? p then Some p else None;
  base_latency_with m _ _ := m.1;
  wire_loss_ratio m _ := m.2;
  weighted_latency d w := d / Z.max 1 w;
  udp_tie_break tcp udp := tcp + udp / 20
|}.
Local Existing Instance toy_scoring.
Local Abbreviation Status := (TransportStatus Z Measure).
Definition leg_status (h : option bool) (cooldown : option Z) (successes : Z) (d : CarrierDescentState)
    (latency loss elevated : option Z) : Status :=
  mkTransportStatus (mkStatus h 0 cooldown 0 successes 0 None 0 None d [] [] None None 0 None 0 None 0 0 None false)
    (latency, loss) elevated (match loss with Some _ => Some (0, 1000) | None => None end).
Definition up : Status := leg_status (Some true) None 9 descent_default (Some 50) None None.
Definition down : Status := leg_status (Some false) None 0 descent_default (Some 50) None None.
Definition cooling : Status := leg_status (Some true) (Some 2000) 9 descent_default (Some 50) None None.
Definition capped : Status := leg_status (Some true) None 9 (mkDescent (Some 2000) (Some WsH2) (Some 0) None None 0 0) (Some 50) None None.
Definition lossy : Status := leg_status (Some true) None 9 descent_default (Some 50) (Some 30) (Some 0).
Definition both_legs (s : Status) : UplinkStatus Z Measure := mkUplinkStatus s s None.

Definition ss_wire : WireConfig := mkWire Ss WsH3 WsH3 WsH3 None false false.
Definition vless_wire : WireConfig := mkWire Vless WsH3 WsH3 WsH3 None false false.
Definition node (n : String.string) (w : Z) (wire : WireConfig) (udp : bool) : Uplink :=
  mkUplinkEntry n w (wire, mkUrls udp false true false) [].
Definition config (mode : LoadBalancingMode) (scope : RoutingScope) (failback : bool) (carrier : option Z) (loss : Z) (probes : bool)
    : BalancingConfig :=
  mkBalancingConfig mode scope true 300 10 100 60 false failback carrier loss (Some 100) 500 [] false probes 2.
Definition group_of (us : list Uplink) (ss : list (UplinkStatus Z Measure)) : Manager Z Measure := set_statuses (new_with_state us None) ss.
Local Abbreviation dispatch c us m k now := (strict_transport_candidates c us m k None true now).
Definition on (c : BalancingConfig) (us : list Uplink) (m : Manager Z Measure) (k : TransportKind) (i : nat) : Manager Z Measure :=
  set_active_uplink_index_for_transport c us m k i InitialSelection MachineFailover.

Definition abc : list Uplink := [node "a" 2 ss_wire true; node "b" 3 ss_wire true; node "c" 1 vless_wire true].
Definition strict_c : BalancingConfig := config ActivePassive PerUplink false None 0 true.
Definition demo : Manager Z Measure := group_of abc [both_legs cooling; both_legs cooling; both_legs down].

(** A group all of whose uplinks fail settles on the second dispatch. *)
Example strict_selection_settles_witness :
  strict_active_uplink_for strict_c = true /\ only_failures strict_c /\
  let m2 := (dispatch strict_c abc (dispatch strict_c abc demo Tcp 1000).1 Tcp 1000).1 in
  dispatch strict_c abc m2 Tcp 1000 = dispatch strict_c abc (dispatch strict_c abc demo Tcp 1000).1 Tcp 1000 /\
  forall n, Nat.iter n (fun m => (dispatch strict_c abc m Tcp 1000).1) m2 = m2.
Proof.
  assert (only_failures strict_c) as Hk by (split_and!; [reflexivity|reflexivity|vm_compute; done]).
  split; [reflexivity|]. split; [exact Hk|]. apply (strict_selection_settles strict_c abc demo Tcp 1000 eq_refl Hk).
Defined.

Definition failing : Manager Z Measure := on strict_c abc (group_of abc [both_legs cooling; both_legs down; both_legs up]) Tcp 0.

(** ** A healthy active that yields *)
Definition quality_c : BalancingConfig := config ActivePassive Global false (Some 100) 10 true.
Definition pair_ab : list Uplink := [node "a" 2 ss_wire true; node "b" 2 ss_wire true].
Definition degraded : Manager Z Measure := on quality_c pair_ab (group_of pair_ab [both_legs capped; both_legs up]) Tcp 0.
Example healthy_active_yields_to_clean_witness :
  exists act m' l,
    find_index (build_candidate_states quality_c pair_ab degraded Tcp 1000) 0 = Some act /\
    dispatch quality_c pair_ab degraded Tcp 1000 = (m', l) /\ index <$> l = [1%nat] /\
    let better x := x ∈ build_candidate_states quality_c pair_ab degraded Tcp 1000 /\ cand_index x <> 0%nat /\
      worthy quality_c pair_ab Tcp 0 x /\ (carrier_cause quality_c Tcp 1000 act x \/ loss_cause quality_c Tcp 1000 act x) in
    (l = [to_candidate act] /\ active m' = active degraded /\ forall x, ~ better x) \/ exists x, l = [to_candidate x] /\ better x.
Proof.
  eexists _, _, _. split; [vm_compute; reflexivity|]. split; [apply surjective_pairing|].
  split; [vm_compute; reflexivity|].
  apply (healthy_active_yields_to_clean quality_c pair_ab degraded Tcp 1000 0); [reflexivity..|apply surjective_pairing].
Defined.

(** ** The operator *)
Definition hand_over : list (TransportKind * Z) := [(Udp, 5000); (Tcp, 5001); (Udp, 90000)].
Example manual_switch_holds_witness :
  exists m',
    set_active_uplink_by_name strict_c abc failing "b" None true 1000 = (m', Ok (1%nat, true)) /\
    (slots_on strict_c m' 1 /\ snap_intent (published m') = from_operator_soft true /\ true = (true && shared_resume strict_c)%bool /\
     let (m'', ls) := dispatches strict_c abc m' hand_over in
     ls = replicate 3 [mkUplinkCandidate 1 (node "b" 3 ss_wire true)] /\ active m'' = active m' /\ published m'' = published m').
Proof.
  assert (exists m', set_active_uplink_by_name strict_c abc failing "b" None true 1000 = (m', Ok (1%nat, true))) as [m' Hm']
    by (eexists; vm_compute; reflexivity).
  exists m'. split; [exact Hm'|].
  apply (manual_switch_holds strict_c abc failing "b" true 1000 m' 1 true (node "b" 3 ss_wire true) hand_over);
    [reflexivity|exact Hm'|by repeat constructor].
Defined.
Definition serving : Manager Z Measure := on strict_c abc (group_of abc [both_legs up; both_legs up; both_legs up]) Tcp 1.
Example disabled_uplink_is_drained_witness :
  exists m', set_uplink_enabled_by_name strict_c abc serving "b" false 1000 = (m', Ok 1%nat) /\
    build_candidate_states strict_c abc m' Tcp 1000 <> [] /\
    (no_route m' 1 /\ (forall x, x ∈ build_candidate_states strict_c abc m' Tcp 1000 -> cand_index x <> 1%nat) /\
     (build_candidate_states strict_c abc m' Tcp 1000 <> [] -> active_uplink_index_for_transport strict_c m' Tcp <> Some 1%nat)).
Proof.
  assert (exists m', set_uplink_enabled_by_name strict_c abc serving "b" false 1000 = (m', Ok 1%nat) /\
    build_candidate_states strict_c abc m' Tcp 1000 <> []) as (m' & Hm' & Hb) by (eexists; split; [vm_compute; reflexivity|vm_compute; done]).
  exists m'. split; [exact Hm'|]. split; [exact Hb|].
  apply (disabled_uplink_is_drained strict_c abc serving "b" 1 1000 m' Tcp 1000);
    [reflexivity|vm_compute; lia|reflexivity|exact Hm'].
Defined.

(** ** Sessions *)
Definition active_c : BalancingConfig := config ActiveActive PerFlow false None 0 true.
Definition pooled : Manager Z Measure := group_of abc [both_legs up; both_legs cooling; both_legs up].
Definition session : option TargetAddr := Some (IpV4 [Byte.x01; Byte.x02; Byte.x03; Byte.x04] 443).
Example sticky_dispatch_settles_witness :
  exists m1 l, ordered_candidates active_c abc pooled Tcp session None 1000 = (m1, l) /\ index <$> l = [0; 2; 1]%nat /\
  let key := routing_key Tcp session None (routing_scope active_c) in
  ordered_candidates active_c abc m1 Tcp session None 1000 = (m1, l) /\
  l ≡ₚ to_candidate <$> build_candidate_states active_c abc pooled Tcp 1000 /\
  forall x, x ∈ build_candidate_states active_c abc pooled Tcp 1000 ->
    exists y rest, y ∈ build_candidate_states active_c abc pooled Tcp 1000 /\ l = to_candidate y :: rest /\
      (cand_healthy x = true -> cand_healthy y = true) /\
      (pinned_to active_c abc pooled key Tcp 1000 = Some x -> cand_healthy x = true -> y = x \/ beaten active_c abc pooled Tcp 1000 x).
Proof.
  eexists _, _. split; [apply surjective_pairing|]. split; [vm_compute; reflexivity|].
  apply (sticky_dispatch_settles active_c abc pooled Tcp session None 1000), surjective_pairing.
Defined.
Example strict_dispatch_commits_witness :
  exists m' l, candidates_for strict_c abc failing Tcp session None 1000 = (m', l) /\ index <$> l = [2%nat] /\
  ((m' = failing /\ l = [] /\ forall i u, ~ may_use strict_c abc failing Tcp i u) \/
   (exists i u, may_use strict_c abc failing Tcp i u /\ l = [mkUplinkCandidate i u] /\
     active_uplink_index_for_transport strict_c m' Tcp = Some i /\ watched strict_c m' Tcp = Some i /\
     sticky_routes m' !! strict_route_key Tcp (routing_scope strict_c) = Some (mkSticky i (pinned_until 1000)))).
Proof.
  eexists _, _. split; [apply surjective_pairing|]. split; [vm_compute; reflexivity|].
  apply (strict_dispatch_commits strict_c abc failing Tcp session None 1000); [reflexivity| |apply surjective_pairing].
  unfold failing, on. apply ok_set_active; [|vm_compute; lia].
  apply (ok_ext _ _ (new_with_state abc None)); try reflexivity. apply ok_new.
Defined.
Local Abbreviation ZOp := (Op (Penalty := Z) (Measure := Measure)).
Definition any_pick (weights : list (Z * Z)) : option nat := match weights with [] => None | _ => Some 0%nat end.
Definition slot_order (key : SlotKey) : list nat := if Nat.even (key_slot key) then [0; 1; 2]%nat else [2; 1; 0]%nat.
Example selection_state_consistent_witness :
  let ops := [(Dispatch Tcp session None, 1); (Confirm Udp session None 2, 2); (SetEnabled "a" false, 3);
              (SetActive "b" None true, 4); (ReselectNow AutoFailback true None, 5); (AfterProbe, 6); (Prune, 7)] in
  Forall (fun o : ZOp * Z => op_ok abc o.1) ops /\
  manager_ok strict_c abc
    (foldl (fun m (o : ZOp * Z) => run_op strict_c abc any_pick slot_order m o.1 o.2) (new_with_state abc None) ops).
Proof.
  assert (Forall (fun o : ZOp * Z => op_ok abc o.1)
    [(Dispatch Tcp session None, 1); (Confirm Udp session None 2, 2); (SetEnabled "a" false, 3);
     (SetActive "b" None true, 4); (ReselectNow AutoFailback true None, 5); (AfterProbe, 6); (Prune, 7)]) as H
    by (repeat (apply Forall_cons; split; [vm_compute; (exact I || lia)|]); apply Forall_nil; exact I).
  split; [exact H|]. apply (selection_state_consistent strict_c abc any_pick slot_order None _ H).
Defined.
Example reselect_lands_on_fit_witness :
  strict_active_uplink_for strict_c = true /\
  (reselect_active_uplink strict_c abc any_pick slot_order serving AutoFailback true None 1000).2 = Switched (Some "b"%string) "a" true /\
  landed strict_c abc serving true 1000 (reselect_active_uplink strict_c abc any_pick slot_order serving AutoFailback true None 1000).
Proof.
  split; [reflexivity|]. split; [vm_compute; reflexivity|].
  apply (reselect_lands_on_fit strict_c abc any_pick slot_order serving AutoFailback true None 1000 eq_refl).
Defined.

(** ** Where the code departs from its comments *)
Definition failback_c : BalancingConfig := config ActivePassive Global true None 0 true.
Definition cooled_pair : Manager Z Measure := on failback_c abc (group_of abc [both_legs cooling; both_legs cooling; both_legs up]) Tcp 0.
(** The active "a" (weight 2) is healthy by the probe and "b" (weight 3) stable,
    both cooling down after traffic failures; the failback that "b" justifies lands
    on "c" (weight 1), the first of the primary order. *)
Example failback_demotes :
  let '(m, l) := dispatch failback_c abc cooled_pair Tcp 1000 in
  index <$> l = [2%nat] /\ slot_reason (global (active m)) = Some AutoFailback.
Proof. vm_compute. done. Qed.
Definition flip : Manager Z Measure := on quality_c pair_ab (group_of pair_ab [both_legs capped; both_legs lossy]) Tcp 0.
(** One uplink below its carrier, the other losing packets: each knob sends the
    session to the uplink the other one leaves. *)
Example quality_knobs_alternate :
  let next m := (dispatch quality_c pair_ab m Tcp 1000).1 in
  (fun n => slot_index (global (active (Nat.iter n next flip)))) <$> [0; 1; 2; 3; 4]%nat = Some <$> [0; 1; 0; 1; 0]%nat.
Proof. vm_compute. done. Qed.
Definition global_c : BalancingConfig := config ActivePassive Global false None 0 true.
Definition udp_less : list Uplink := [node "tcp-only" 5 ss_wire false; node "full" 1 ss_wire true].
(** Under the global scope a UDP dispatch moves the one slot off an uplink that
    carries no UDP, a manual switch to it notwithstanding. *)
Example udp_dispatch_moves_the_global_slot :
  let m := (set_active_uplink_by_name global_c udp_less (group_of udp_less [both_legs up; both_legs up]) "tcp-only" None false 1).1 in
  slot_index (global (active m)) = Some 0%nat /\
  slot_index (global (active (dispatch global_c udp_less m Udp 2).1)) = Some 1%nat.
Proof. vm_compute. done. Qed.
Definition flaky_udp : Manager Z Measure :=
  on global_c pair_ab (group_of pair_ab [mkUplinkStatus up down None; mkUplinkStatus (leg_status (Some true) None 9 descent_default (Some 10) None None) up None])
    Tcp 0.
(** The global scope gates on TCP alone unless told otherwise, yet an active whose
    UDP probe fails is left. *)
Example udp_probe_moves_the_global_slot :
  global_udp_strict_health global_c = false /\
  slot_index (global (active (dispatch global_c pair_ab flaky_udp Tcp 1000).1)) = Some 1%nat.
Proof. vm_compute. done. Qed.
Definition no_quality : Manager Z Measure := group_of udp_less [both_legs up; both_legs down].
(** One slot for two transports: an active that is up carries no UDP, the other
    carries both and is down. UDP dispatches move the slot to the second, TCP
    dispatches back, with every knob off, as long as they alternate. *)
Example transports_alternate :
  only_failures global_c /\
  let next m := (dispatch global_c udp_less (dispatch global_c udp_less m Udp 1000).1 Tcp 1000).1 in
  let start := (dispatch global_c udp_less no_quality Tcp 1000).1 in
  (fun n => (slot_index (global (active (Nat.iter n next start))),
             slot_index (global (active (dispatch global_c udp_less (Nat.iter n next start) Udp 1000).1)))) <$> [0; 1; 2; 3]%nat
  = replicate 4 (Some 0%nat, Some 1%nat).
Proof. split; [split_and!; [reflexivity|reflexivity|vm_compute; done]|vm_compute; reflexivity]. Qed.
