(* ===== verification/Cidr.v ===== *)
(** CIDR sets of the policy router ([crates/outline-routing/src/cidr.rs]): the
    prefixes of a rule become sorted, merged ranges, and membership is a binary
    search. The IPv4 and the IPv6 copies of a routine differ in the width only;
    both are the width-[w] definition at 32 and at 128. *)
From S2P Require Import Prelude StdText Target.
From Stdlib Require Import Sorted.
From stdpp Require Import sorting.
Local Open Scope Z_scope.

(** [uN::MAX] and [a.saturating_add(1)] at width [w] *)
Definition umax (w : Z) : Z := 2 ^ w - 1.
Definition saturating_succ (w a : Z) : Z := Z.min (a + 1) (umax w).

(** A range is the pair [[start, end]]. *)
Abbreviation range := (Z * Z)%type.

Record CidrSet : Type := mkCidrSet { v4 : list range; v6 : list range }.

(** The errors of [parse], by the text they carry. *)
Inductive CidrError : Type :=
  | InvalidAddress (s : bytes)
  | InvalidPrefixLen (s : bytes)
  | PrefixTooLong (n max : Z) (s : bytes).

(** [sort_unstable_by_key(|r| r[0])] promises a permutation sorted on the key
    and nothing about the order of equal keys; any such function will do. *)
Class UnstableSort : Type := {
  sort_by_start : list range -> list range;
  sort_perm l : sort_by_start l ≡ₚ l;
  sort_sorted l : StronglySorted (fun a b : range => a.1 <= b.1) (sort_by_start l)
}.

(** ** Ranges *)
Definition cidr_to_range (w addr prefix_len : Z) : range :=
  if prefix_len =? 0 then (0, umax w)
  else
    let mask := Z.land (Z.shiftl (umax w) (w - prefix_len)) (umax w) in
    let start := Z.land addr mask in
    (start, Z.lor start (Z.lxor mask (umax w))).
Definition cidr_to_range_v4 (addr : bytes) (prefix_len : Z) : range :=
  cidr_to_range 32 (be_val addr) prefix_len.
Definition cidr_to_range_v6 (addr : bytes) (prefix_len : Z) : range :=
  cidr_to_range 128 (be_val addr) prefix_len.

(** The merge loop. [out] is the output vector with its last element first. *)
Fixpoint merge_loop (w : Z) (ranges out : list range) : list range :=
  match ranges with
  | [] => reverse out
  | (start, end_) :: ranges =>
    match out with
    | last :: out' =>
      if start <=? saturating_succ w last.2 then
        merge_loop w ranges ((last.1, if last.2 <? end_ then end_ else last.2) :: out')
      else merge_loop w ranges ((start, end_) :: out)
    | [] => merge_loop w ranges [(start, end_)]
    end
  end.
Definition merge `{UnstableSort} (w : Z) (ranges : list range) : list range :=
  merge_loop w (sort_by_start ranges) [].
Definition merge_v4 `{UnstableSort} : list range -> list range := merge 32.
Definition merge_v6 `{UnstableSort} : list range -> list range := merge 128.

(** [ranges.partition_point(|r| r[0] <= ip)], the standard library's binary
    search: [size] halves until one candidate is left. *)
Fixpoint search (fuel : nat) (ip : Z) (ranges : list range) (size base : nat) : nat :=
  match fuel with
  | O => base
  | S fuel =>
    if (size <=? 1)%nat then base
    else
      let half := (size / 2)%nat in
      let mid := (base + half)%nat in
      search fuel ip ranges (size - half)
        (if (ranges !!! mid).1 <=? ip then mid else base)
  end.
Definition partition_point (ip : Z) (ranges : list range) : nat :=
  match ranges with
  | [] => 0%nat
  | _ =>
    let base := search (length ranges) ip ranges (length ranges) 0 in
    if (ranges !!! base).1 <=? ip then S base else base
  end.

Definition contains_ip (ranges : list range) (ip : Z) : bool :=
  let i := partition_point ip ranges in
  (0 <? i)%nat && (ip <=? (ranges !!! (i - 1)%nat).2).
Definition contains_v4 : list range -> Z -> bool := contains_ip.
Definition contains_v6 : list range -> Z -> bool := contains_ip.

(** ** The set *)
Definition parse_prefix_len (s : option bytes) (max : Z) (context : bytes) : result CidrError Z :=
  match s with
  | None => Ok max
  | Some s =>
    n ← ok_or (InvalidPrefixLen context) (parse_u8 s);
    if max <? n then Err (PrefixTooLong n max context) else Ok n
  end.

(** [s.split_once('/')] with the whole text when there is no slash. *)
Definition split_prefix (s : bytes) : bytes * option bytes :=
  match split_once x2f s with
  | Some (a, l) => (a, Some l)
  | None => (s, None)
  end.

(** The parse loop, pushing onto the two vectors. *)
Fixpoint parse_loop (prefixes : list bytes) (v4 v6 : list range)
    : result CidrError (list range * list range) :=
  match prefixes with
  | [] => Ok (v4, v6)
  | s :: prefixes =>
    let '(addr_str, len_str) := split_prefix s in
    addr ← ok_or (InvalidAddress s) (parse_ip addr_str);
    match addr with
    | IpAddrV4 ip =>
      prefix_len ← parse_prefix_len len_str 32 s;
      parse_loop prefixes (v4 ++ [cidr_to_range_v4 ip prefix_len]) v6
    | IpAddrV6 ip =>
      prefix_len ← parse_prefix_len len_str 128 s;
      parse_loop prefixes v4 (v6 ++ [cidr_to_range_v6 ip prefix_len])
    end
  end.
Definition parse `{UnstableSort} (prefixes : list bytes) : result CidrError CidrSet :=
  r ← parse_loop prefixes [] [];
  Ok (mkCidrSet (merge_v4 r.1) (merge_v6 r.2)).

Definition contains (s : CidrSet) (target : TargetAddr) : bool :=
  match target with
  | IpV4 ip _ => contains_v4 (v4 s) (be_val ip)
  | IpV6 ip _ => contains_v6 (v6 s) (be_val ip)
  | Domain _ _ => false
  end.

Definition is_empty (s : CidrSet) : bool :=
  bool_decide (v4 s = []) && bool_decide (v6 s = []).
Definition v4_range_count (s : CidrSet) : nat := length (v4 s).
Definition v6_range_count (s : CidrSet) : nat := length (v6 s).

(** The entries of a prefix or domain file: trimmed lines, blank ones and [#]
    comments dropped. *)
Definition file_entries (content : bytes) : list bytes :=
  List.filter (fun l => negb (bool_decide (l = [])) && negb (bool_decide (head l = Some x23)))
    (trim <$> lines content).
(** [read_to_string] is the [content] argument, [None] when it fails. *)
Definition read_prefixes_from_file (content : option bytes) : option (list bytes) :=
  file_entries <$> content.

(** ** Correctness *)
Definition in_range_of (ip : Z) (r : range) : Prop := r.1 <= ip <= r.2.
Definition covered (ranges : list range) (ip : Z) : Prop := Exists (in_range_of ip) ranges.
Definition valid_range (w : Z) (r : range) : Prop := 0 <= r.1 <= r.2 /\ r.2 <= umax w.

(** The normal form of [merge]: ranges in order, at least one address apart. *)
Fixpoint separated (w lo : Z) (ranges : list range) : Prop :=
  match ranges with
  | [] => True
  | r :: ranges => lo <= r.1 <= r.2 /\ r.2 <= umax w /\ separated w (r.2 + 2) ranges
  end.

Lemma umax_ones w : umax w = Z.ones w.
Proof. rewrite Z.ones_equiv. unfold umax. lia. Qed.

Lemma network_mask w h : 0 <= h <= w ->
  Z.land (Z.shiftl (umax w) h) (umax w) = Z.shiftl (Z.ones (w - h)) h.
Proof.
  intros Hh. rewrite umax_ones. apply Z.bits_inj'. intros i Hi.
  rewrite Z.land_spec, !Z.shiftl_spec, !Z.testbit_ones by lia. lia.
Qed.

Lemma network_start w h addr : 0 <= h <= w -> 0 <= addr < 2 ^ w ->
  Z.land addr (Z.shiftl (Z.ones (w - h)) h) = addr / 2 ^ h * 2 ^ h.
Proof.
  intros Hh Ha. rewrite <- Z.shiftr_div_pow2, <- Z.shiftl_mul_pow2 by lia.
  apply Z.bits_inj'. intros i Hi. rewrite Z.land_spec, !Z.shiftl_spec by done.
  destruct (Z.ltb_spec i h) as [Hlt|Hge].
  - rewrite !(Z.testbit_neg_r _ (i - h)) by lia. apply andb_false_r.
  - rewrite Z.shiftr_spec, Z.testbit_ones by lia. replace (i - h + h) with i by lia.
    destruct (Z.ltb_spec i w).
    + destruct (Z.leb_spec 0 (i - h)); [|lia]. destruct (Z.ltb_spec (i - h) (w - h)); [|lia].
      apply andb_true_r.
    + rewrite (testbit_above addr w) by lia. done.
Qed.

Lemma host_mask w h : 0 <= h <= w ->
  Z.lxor (Z.shiftl (Z.ones (w - h)) h) (umax w) = 2 ^ h - 1.
Proof.
  intros Hh. replace (2 ^ h - 1) with (Z.ones h) by (rewrite Z.ones_equiv; lia).
  rewrite umax_ones. apply Z.bits_inj'. intros i Hi.
  rewrite Z.lxor_spec, !Z.shiftl_spec, !Z.testbit_ones by lia.
  destruct (Z.ltb_spec i h); [rewrite (proj2 (Z.leb_gt 0 (i - h))) by lia|
    rewrite (proj2 (Z.leb_le 0 (i - h))) by lia]; destruct (Z.ltb_spec (i - h) (w - h)),
    (Z.ltb_spec i w), (Z.leb_spec 0 i); done || lia.
Qed.

(** A prefix's range holds exactly the addresses that share its network bits. *)
Lemma cidr_to_range_spec w addr len ip :
  0 <= len <= w -> 0 <= addr < 2 ^ w -> 0 <= ip < 2 ^ w ->
  in_range_of ip (cidr_to_range w addr len) <->
  Z.shiftr ip (w - len) = Z.shiftr addr (w - len).
Proof.
  intros Hl Ha Hi. unfold cidr_to_range, in_range_of.
  assert (0 < 2 ^ (w - len)) by (apply Z.pow_pos_nonneg; lia).
  rewrite !Z.shiftr_div_pow2 by lia. destruct (Z.eqb_spec len 0) as [->|Hn].
  - rewrite Z.sub_0_r, !Z.div_small by done. unfold umax. simpl. lia.
  - rewrite network_mask, network_start, host_mask by lia. cbn [fst snd].
    rewrite lor_disjoint by lia. split; [|intros <-]; intros.
    + symmetry. apply (Z.div_unique ip (2 ^ (w - len)) (addr / 2 ^ (w - len))
        (ip - addr / 2 ^ (w - len) * 2 ^ (w - len))); lia.
    + pose proof (Z.div_mod ip (2 ^ (w - len)) ltac:(lia)).
      pose proof (Z.mod_pos_bound ip (2 ^ (w - len)) ltac:(lia)). lia.
Qed.

Lemma cidr_to_range_valid w addr len :
  0 <= len <= w -> 0 <= addr < 2 ^ w -> valid_range w (cidr_to_range w addr len).
Proof.
  intros Hl Ha. unfold cidr_to_range, valid_range.
  assert (0 < 2 ^ (w - len)) by (apply Z.pow_pos_nonneg; lia).
  destruct (Z.eqb_spec len 0) as [->|Hn].
  - unfold umax. simpl. lia.
  - rewrite network_mask, network_start, host_mask by lia. cbn [fst snd].
    rewrite lor_disjoint by lia.
    assert (0 <= addr / 2 ^ (w - len) < 2 ^ len).
    { split; [apply Z.div_pos; lia|]. apply Z.div_lt_upper_bound; [lia|].
      rewrite <- Z.pow_add_r by lia. replace (w - len + len) with w by lia. lia. }
    unfold umax. replace (2 ^ w) with (2 ^ len * 2 ^ (w - len))
      by (rewrite <- Z.pow_add_r by lia; f_equal; lia). nia.
Qed.

(** *** Merging *)

(** The merge loop read forwards: [cur] is the range still open. *)
Fixpoint merge_from (w : Z) (cur : range) (ranges : list range) : list range :=
  match ranges with
  | [] => [cur]
  | (start, end_) :: ranges =>
    if start <=? saturating_succ w cur.2 then
      merge_from w (cur.1, if cur.2 <? end_ then end_ else cur.2) ranges
    else cur :: merge_from w (start, end_) ranges
  end.

Lemma merge_loop_from w ranges cur out :
  merge_loop w ranges (cur :: out) = reverse out ++ merge_from w cur ranges.
Proof.
  revert cur out; induction ranges as [|[s e] ranges IH]; intros cur out; cbn [merge_loop merge_from].
  - apply reverse_cons.
  - destruct (s <=? saturating_succ w cur.2); rewrite IH; [done|].
    by rewrite reverse_cons, <- app_assoc.
Qed.

Lemma merge_loop_nil w ranges :
  merge_loop w ranges [] = match ranges with [] => [] | r :: ranges => merge_from w r ranges end.
Proof. destruct ranges as [|[s e] ranges]; [done|]. cbn [merge_loop]. by rewrite merge_loop_from. Qed.

Definition by_start (a b : range) : Prop := a.1 <= b.1.

Lemma separated_weaken w lo lo' ranges : lo' <= lo -> separated w lo ranges -> separated w lo' ranges.
Proof. destruct ranges as [|r l]; simpl; [done|]. intros ? (? & ? & ?). split; [lia|done]. Qed.

Lemma joined c d s e ip : c <= s -> s <= d + 1 ->
  c <= ip <= (if d <? e then e else d) <-> c <= ip <= d \/ s <= ip <= e.
Proof. intros. destruct (Z.ltb_spec d e); lia. Qed.

Lemma covered_cons r l ip : covered (r :: l) ip <-> in_range_of ip r \/ covered l ip.
Proof. apply Exists_cons. Qed.

Lemma merge_from_spec w cur ranges :
  valid_range w cur -> Forall (valid_range w) ranges -> StronglySorted by_start (cur :: ranges) ->
  separated w cur.1 (merge_from w cur ranges) /\
  forall ip, covered (merge_from w cur ranges) ip <-> in_range_of ip cur \/ covered ranges ip.
Proof.
  revert cur; induction ranges as [|[s e] ranges IH]; intros [c d] Hc Hv Hs; cbn [merge_from fst snd].
  - unfold valid_range in Hc. simpl in *. split; [lia|]. intros ip. unfold covered.
    rewrite Exists_cons, !Exists_nil. tauto.
  - apply Forall_cons in Hv as [He Hv]. apply StronglySorted_inv in Hs as [Hs Hle].
    apply Forall_cons in Hle as [Hcs Hle]. apply StronglySorted_inv in Hs as [Hs Hse].
    unfold by_start, valid_range, saturating_succ in *. cbn [fst snd] in *.
    destruct (Z.leb_spec s (Z.min (d + 1) (umax w))) as [Hj|Hj].
    + destruct (IH (c, if d <? e then e else d)) as [Hsep Hcov]; cbn [fst snd].
      * destruct (d <? e); lia.
      * done.
      * constructor; [done|]. eapply Forall_impl; [exact Hse|]. simpl. lia.
      * split; [done|]. intros ip. rewrite Hcov, covered_cons. unfold in_range_of. cbn [fst snd].
        rewrite (joined c d s e ip) by lia. tauto.
    + destruct (IH (s, e)) as [Hsep Hcov]; cbn [fst snd]; [lia | done | by constructor |].
      split.
      * cbn [separated fst snd] in *. split; [lia|]. split; [lia|].
        eapply separated_weaken; [|exact Hsep]. lia.
      * intros ip. rewrite !covered_cons, Hcov. tauto.
Qed.

Lemma covered_perm l l' ip : l ≡ₚ l' -> covered l ip <-> covered l' ip.
Proof. intros H. unfold covered. by rewrite H. Qed.

Lemma merge_spec `{UnstableSort} w ranges :
  Forall (valid_range w) ranges ->
  separated w 0 (merge w ranges) /\ forall ip, covered (merge w ranges) ip <-> covered ranges ip.
Proof.
  intros Hv. unfold merge. rewrite merge_loop_nil.
  pose proof (sort_perm ranges) as Hp. pose proof (sort_sorted ranges) as Hs.
  assert (Hv' : Forall (valid_range w) (sort_by_start ranges)) by (by rewrite Hp).
  destruct (sort_by_start ranges) as [|r l].
  - apply Permutation_nil_l in Hp as <-. by split.
  - apply Forall_cons in Hv' as [Hr Hl]. destruct (merge_from_spec w r l Hr Hl Hs) as [Hsep Hcov].
    split; [destruct Hr; eapply separated_weaken; [|done]; lia|].
    intros ip. rewrite Hcov. rewrite <- (covered_perm _ _ ip Hp). unfold covered. by rewrite Exists_cons.
Qed.

Lemma separated_covered_ge w lo ranges ip : separated w lo ranges -> covered ranges ip -> lo <= ip.
Proof.
  revert lo; induction ranges as [|r l IH]; intros lo; [intros _ H; by apply Exists_nil in H|].
  intros (? & ? & Hs) Hc. apply Exists_cons in Hc as [Hc|Hc]; [unfold in_range_of in Hc; lia|].
  specialize (IH _ Hs Hc). lia.
Qed.

Lemma separated_covered_range w ranges ip :
  separated w 0 ranges -> covered ranges ip -> 0 <= ip <= umax w.
Proof.
  intros Hs Hc. split; [by eapply separated_covered_ge|]. clear -Hs Hc. revert Hs. generalize 0.
  induction ranges as [|r l IH]; intros lo Hs; [by apply Exists_nil in Hc|].
  destruct Hs as (? & ? & Hs). apply covered_cons in Hc as [Hc|Hc]; [unfold in_range_of in Hc; lia|].
  by eapply IH.
Qed.

Lemma separated_head_le w lo r l ip : separated w lo (r :: l) -> covered (r :: l) ip -> r.1 <= ip.
Proof.
  intros (? & ? & Hs) [Hc|Hc]%covered_cons; [unfold in_range_of in Hc; lia|].
  pose proof (separated_covered_ge _ _ _ _ Hs Hc). lia.
Qed.

Lemma separated_end_le w lo lo' a b b' l l' :
  separated w lo ((a, b) :: l) -> separated w lo' ((a, b') :: l') ->
  (forall ip, covered ((a, b') :: l') ip -> covered ((a, b) :: l) ip) -> b' <= b.
Proof.
  intros (Hab & _ & Hs) (Hab' & _) Hc. cbn [fst snd] in *.
  destruct (Z.le_gt_cases b' b) as [|Hlt]; [done|]. exfalso.
  assert (Hb : covered ((a, b) :: l) (b + 1)).
  { apply Hc, covered_cons. left. unfold in_range_of. cbn [fst snd]. lia. }
  apply covered_cons in Hb as [Hb|Hb]; [unfold in_range_of in Hb; cbn [fst snd] in Hb; lia|].
  pose proof (separated_covered_ge _ _ _ _ Hs Hb). lia.
Qed.

Lemma separated_start w lo r l : separated w lo (r :: l) -> covered (r :: l) r.1.
Proof. intros (? & _). apply covered_cons. left. unfold in_range_of. lia. Qed.

Lemma separated_tail_incl w lo lo' r l l' ip :
  separated w lo (r :: l) -> separated w lo' (r :: l') ->
  (covered (r :: l) ip -> covered (r :: l') ip) -> covered l ip -> covered l' ip.
Proof.
  intros (_ & _ & Hs) _ Hc Hip.
  pose proof (separated_covered_ge _ _ _ _ Hs Hip) as Hge.
  destruct (proj1 (covered_cons _ _ _) (Hc (proj2 (covered_cons _ _ _) (or_intror Hip)))) as [Hr|];
    [unfold in_range_of in Hr; lia|done].
Qed.

(** The normal form is canonical. *)
Lemma separated_unique w lo lo' l l' :
  separated w lo l -> separated w lo' l' -> (forall ip, covered l ip <-> covered l' ip) -> l = l'.
Proof.
  revert lo lo' l'; induction l as [|[a b] l IH]; intros lo lo' [|[a' b'] l'] Hl Hl' Hc; [done| | |].
  - exfalso. apply (Exists_nil (in_range_of a')), Hc. by apply (separated_start w lo').
  - exfalso. apply (Exists_nil (in_range_of a)), Hc. by apply (separated_start w lo).
  - assert (a = a') as <-.
    { pose proof (separated_head_le _ _ _ _ a Hl' (proj1 (Hc a) (separated_start _ _ _ _ Hl))).
      pose proof (separated_head_le _ _ _ _ a' Hl (proj2 (Hc a') (separated_start _ _ _ _ Hl'))).
      simpl in *. lia. }
    assert (b = b') as <-.
    { pose proof (separated_end_le _ _ _ _ _ _ _ _ Hl Hl' (fun ip => proj2 (Hc ip))).
      pose proof (separated_end_le _ _ _ _ _ _ _ _ Hl' Hl (fun ip => proj1 (Hc ip))). lia. }
    f_equal. eapply IH; [apply Hl | apply Hl' |]. intros ip.
    split; eapply separated_tail_incl; eauto; apply Hc.
Qed.

(** *** Binary search *)
Section search.
Context (ip : Z) (l : list range) (k : nat).
Hypothesis below : forall i, (i < k)%nat -> (l !!! i).1 <= ip.
Hypothesis above : forall i, (k <= i < length l)%nat -> ip < (l !!! i).1.

Lemma search_spec fuel size base :
  (size <= fuel)%nat -> (1 <= size)%nat -> (base + size <= length l)%nat ->
  base = 0%nat \/ (base < k)%nat -> (k <= base + size)%nat ->
  let b := search fuel ip l size base in
  (b < length l)%nat /\ (b = 0%nat \/ (b < k)%nat) /\ (k <= S b)%nat.
Proof.
  revert size base; induction fuel as [|fuel IH]; intros size base Hf Hs Hl Hb Hk; cbn [search]; [lia|].
  cbv zeta. destruct (Nat.leb_spec size 1); [split; [lia|split; [done|lia]]|].
  pose proof (Nat.div_lt size 2 ltac:(lia) ltac:(lia)).
  pose proof (Nat.Div0.mul_div_le size 2).
  assert (1 <= size / 2)%nat by (apply (Nat.div_le_lower_bound size 2 1); lia).
  set (h := (size / 2)%nat) in *. clearbody h.
  match goal with |- context [(?x <=? ip)] => destruct (Z.leb_spec x ip) as [Hp|Hp] end.
  - assert (base + h < k)%nat; [|apply IH; lia].
    destruct (Nat.lt_ge_cases (base + h) k) as [|Hge]; [done|].
    specialize (above (base + h)%nat). lia.
  - assert (k <= base + h)%nat; [|apply IH; lia].
    destruct (Nat.lt_ge_cases (base + h) k) as [Hlt|]; [|done].
    specialize (below _ Hlt). lia.
Qed.

Lemma partition_point_spec : (k <= length l)%nat -> partition_point ip l = k.
Proof.
  intros Hk. unfold partition_point. destruct (decide (l = [])) as [->|Hne]; [simpl in *; lia|].
  assert (Hlen : (1 <= length l)%nat) by (destruct l; [done|simpl; lia]).
  pose proof (search_spec (length l) (length l) 0) as Hs. destruct l as [|r l'] eqn:E; [done|].
  destruct Hs as (Hb & H0 & H1); [lia | lia | lia | by left | lia |].
  set (b := search _ _ _ _ _) in *.
  destruct (Z.leb_spec ((r :: l') !!! b).1 ip) as [Hp|Hp].
  - assert (b < k)%nat; [|lia]. destruct (Nat.lt_ge_cases b k); [done|].
    specialize (above b). lia.
  - destruct (Nat.lt_ge_cases b k) as [Hlt|]; [|lia]. specialize (below b Hlt). lia.
Qed.
End search.

Lemma separated_starts w lo l : separated w lo l -> Forall (fun r => lo <= r.1) l.
Proof.
  revert lo; induction l as [|r l IH]; intros lo Hs; [done|]. destruct Hs as (? & ? & Hs).
  constructor; [lia|]. eapply Forall_impl; [exact (IH _ Hs)|]. simpl. lia.
Qed.

Lemma separated_split w lo l ip : separated w lo l ->
  exists l1 l2, l = l1 ++ l2 /\ Forall (fun r => r.1 <= ip) l1 /\ Forall (fun r => ip < r.1) l2.
Proof.
  revert lo; induction l as [|r l IH]; intros lo Hs; [by exists [], []|].
  destruct (Z.le_gt_cases r.1 ip) as [Hr|Hr].
  - destruct Hs as (_ & _ & Hs). destruct (IH _ Hs) as (l1 & l2 & -> & H1 & H2).
    exists (r :: l1), l2. split; [done|]. split; [by constructor|done].
  - exists [], (r :: l). split; [done|]. split; [done|]. destruct Hs as (? & ? & Hs).
    constructor; [lia|]. eapply Forall_impl; [exact (separated_starts _ _ _ Hs)|]. simpl. lia.
Qed.

Lemma separated_before w lo l1 r l2 :
  separated w lo (l1 ++ r :: l2) -> Forall (fun r' => r'.2 < r.1) l1.
Proof.
  revert lo; induction l1 as [|r' l1 IH]; intros lo Hs; [done|].
  destruct Hs as (? & ? & Hs). constructor; [|by eapply IH].
  apply separated_starts, Forall_app, proj2, Forall_cons, proj1 in Hs. lia.
Qed.

Lemma covered_app l1 l2 ip : covered (l1 ++ l2) ip <-> covered l1 ip \/ covered l2 ip.
Proof. apply Exists_app. Qed.

Lemma not_covered (P : range -> Prop) l ip :
  Forall P l -> (forall r, P r -> ~ in_range_of ip r) -> ~ covered l ip.
Proof. intros Hl HP Hc. apply Exists_exists in Hc as (r & Hr & Hi). rewrite Forall_forall in Hl. by eapply HP; eauto. Qed.

(** Binary search over the normal form decides membership. *)
Lemma contains_ip_spec w lo l ip : separated w lo l -> contains_ip l ip = true <-> covered l ip.
Proof.
  intros Hs. destruct (separated_split _ _ _ ip Hs) as (l1 & l2 & -> & H1 & H2).
  assert (Hp : partition_point ip (l1 ++ l2) = length l1).
  { apply partition_point_spec; [| |rewrite length_app; lia].
    - intros i Hi. rewrite lookup_total_app_l by done.
      eapply (Forall_lookup_total_1 _ _ i) in H1; [exact H1|done].
    - intros i Hi. rewrite length_app in Hi. rewrite lookup_total_app_r by lia.
      eapply (Forall_lookup_total_1 _ _ (i - length l1)) in H2; [exact H2|lia]. }
  unfold contains_ip. rewrite Hp.
  assert (Hn2 : ~ covered l2 ip) by (eapply not_covered; [exact H2|]; unfold in_range_of; simpl; lia).
  rewrite covered_app. destruct l1 as [|r l1 _] using rev_ind.
  - simpl. split; [done|]. intros [H|H]; [by apply Exists_nil in H|done].
  - rewrite length_app. simpl. replace (length l1 + 1 - 1)%nat with (length l1) by lia.
    rewrite (proj2 (Nat.ltb_lt 0 (length l1 + 1))) by lia. rewrite <- app_assoc in *. simpl in *.
    rewrite lookup_total_app_r, Nat.sub_diag by done. simpl.
    apply separated_before in Hs. apply Forall_app in H1 as [_ H1]. rewrite Forall_singleton in H1.
    assert (Hn1 : ~ covered l1 ip) by (eapply not_covered; [exact Hs|]; unfold in_range_of; simpl; lia).
    rewrite Z.leb_le, covered_app, covered_cons. unfold in_range_of, covered at 2.
    rewrite Exists_nil. intuition.
Qed.

(** *** Parsing *)
Definition width (a : IpAddr) : Z := match a with IpAddrV4 _ => 32 | IpAddrV6 _ => 128 end.

(** What one prefix text denotes, or why it is refused. *)
Definition prefix_of (s : bytes) : result CidrError (IpAddr * Z) :=
  a ← ok_or (InvalidAddress s) (parse_ip (split_prefix s).1);
  n ← parse_prefix_len (split_prefix s).2 (width a) s;
  Ok (a, n).

(** The textbook reading of a prefix: same family, same network bits. *)
Definition prefix_covers (t : TargetAddr) (p : IpAddr * Z) : bool :=
  match p.1, t with
  | IpAddrV4 net, IpV4 ip _ => Z.shiftr (be_val ip) (32 - p.2) =? Z.shiftr (be_val net) (32 - p.2)
  | IpAddrV6 net, IpV6 ip _ => Z.shiftr (be_val ip) (128 - p.2) =? Z.shiftr (be_val net) (128 - p.2)
  | _, _ => false
  end.

Definition range4 (p : IpAddr * Z) : list range :=
  match p.1 with IpAddrV4 net => [cidr_to_range_v4 net p.2] | _ => [] end.
Definition range6 (p : IpAddr * Z) : list range :=
  match p.1 with IpAddrV6 net => [cidr_to_range_v6 net p.2] | _ => [] end.

Definition net_ok (p : IpAddr * Z) : Prop :=
  0 <= p.2 <= width p.1 /\
  match p.1 with IpAddrV4 net => length net = 4%nat | IpAddrV6 net => length net = 16%nat end.

Lemma parse_u8_nonneg s n : parse_u8 s = Some n -> 0 <= n.
Proof.
  assert (Hd : forall l acc, 0 <= acc -> parse_digits_u8 acc l = Some n -> 0 <= n).
  { induction l as [|b l IH]; intros acc Hacc H; simpl in H; [by simplify_eq|].
    apply bind_Some in H as (d & Hd & H). destruct (_ <? _); [done|]. eapply IH; [|exact H].
    unfold to_digit in Hd. apply bind_Some in Hd as (d' & Hd & Hd').
    unfold in_range in Hd. destruct (d' <? 10); [|done]. simplify_eq.
    repeat case_match; simplify_eq; lia. }
  unfold parse_u8. destruct s as [|b s]; [done|]. case_bool_decide; [destruct s; [done|]|];
    apply Hd; lia.
Qed.

Lemma prefix_of_ok s p : prefix_of s = Ok p -> net_ok p.
Proof.
  unfold prefix_of. intros H. apply bind_Ok_inv in H as (a & Ha & H).
  apply bind_Ok_inv in H as (n & Hn & H). simplify_eq.
  destruct (parse_ip _) as [a'|] eqn:Ea; [|done]. simpl in Ha. simplify_eq.
  apply parse_ip_wf in Ea. split; [|by destruct a].
  simpl. unfold parse_prefix_len in Hn. destruct (split_prefix s).2 as [l|].
  - apply bind_Ok_inv in Hn as (m & Hm & Hn). destruct (parse_u8 l) eqn:Hl; [|done].
    apply parse_u8_nonneg in Hl. simpl in Hm. simplify_eq. split_guard. simplify_eq. lia.
  - simplify_eq. destruct a; simpl; lia.
Qed.

Lemma prefix_of_eq s : prefix_of s =
  (a ← ok_or (InvalidAddress s) (parse_ip (split_prefix s).1);
   n ← parse_prefix_len (split_prefix s).2 (width a) s; Ok (a, n)).
Proof. done. Qed.

Lemma parse_loop_spec ps l4 l6 :
  parse_loop ps l4 l6 =
  match mapM prefix_of ps with
  | Ok nets => Ok (l4 ++ (nets ≫= range4), l6 ++ (nets ≫= range6))
  | Err e => Err e
  end.
Proof.
  revert l4 l6; induction ps as [|s ps IH]; intros l4 l6; simpl; [by rewrite !app_nil_r|].
  rewrite (prefix_of_eq s). destruct (split_prefix s) as [a l]. cbn [fst snd].
  destruct (parse_ip a) as [[net|net]|]; simpl; [| |done];
    destruct (parse_prefix_len l _ s) as [n|e]; simpl; try done;
    rewrite IH; destruct (mapM prefix_of ps) as [nets|e]; simpl; by rewrite <- ?app_assoc.
Qed.

Lemma mapM_net_ok ps nets : mapM prefix_of ps = Ok nets -> Forall net_ok nets.
Proof.
  revert nets; induction ps as [|s ps IH]; intros nets H; simpl in H;
    [apply Ok_inj in H as <-; constructor|].
  apply bind_Ok_inv in H as (p & Hp & H). apply bind_Ok_inv in H as (l & Hl & H).
  apply Ok_inj in H as <-. constructor; [by eapply prefix_of_ok|by apply IH].
Qed.

Lemma octets_range n (o : bytes) : length o = n -> 0 <= be_val o < 2 ^ (8 * Z.of_nat n).
Proof.
  intros <-. pose proof (be_val_range o) as H. rewrite Z.pow_mul_r by lia. exact H.
Qed.

Lemma ranges_valid nets : Forall net_ok nets ->
  Forall (valid_range 32) (nets ≫= range4) /\ Forall (valid_range 128) (nets ≫= range6).
Proof.
  induction nets as [|[[net|net] n] nets IH]; [done|..]; intros [[Hn Hl] Hns]%Forall_cons;
    specialize (IH Hns) as [H4 H6]; simpl; split; try done;
    (constructor; [|done]); apply cidr_to_range_valid; try done;
    apply (octets_range _ _ Hl).
Qed.

Lemma covered_nets (t : TargetAddr) nets : Forall net_ok nets -> wf_target t ->
  existsb (prefix_covers t) nets = true <->
  match t with
  | IpV4 ip _ => covered (nets ≫= range4) (be_val ip)
  | IpV6 ip _ => covered (nets ≫= range6) (be_val ip)
  | Domain _ _ => False
  end.
Proof.
  intros Hn Ht. induction Hn as [|[[net|net] n] nets [Hn Hl] Hns IH].
  - simpl. unfold covered. destruct t; rewrite ?Exists_nil; done.
  - simpl. rewrite orb_true_iff, IH. destruct t as [ip p|ip p|h p]; simpl; [|naive_solver..].
    destruct Ht as [Ht _]. unfold prefix_covers. cbn [fst snd]. rewrite covered_cons, Z.eqb_eq, <- cidr_to_range_spec; [done|..];
      simpl in *; [done|..]; by apply (octets_range 4).
  - simpl. rewrite orb_true_iff, IH. destruct t as [ip p|ip p|h p]; simpl; [naive_solver|..];
      [|naive_solver].
    destruct Ht as [Ht _]. unfold prefix_covers. cbn [fst snd]. rewrite covered_cons, Z.eqb_eq, <- cidr_to_range_spec; [done|..];
      simpl in *; [done|..]; by apply (octets_range 16).
Qed.

Lemma parse_contains `{UnstableSort} ps nets : mapM prefix_of ps = Ok nets ->
  exists cs, parse ps = Ok cs /\ separated 32 0 (v4 cs) /\ separated 128 0 (v6 cs) /\
    (forall ip, covered (v4 cs) ip <-> covered (nets ≫= range4) ip) /\
    (forall ip, covered (v6 cs) ip <-> covered (nets ≫= range6) ip).
Proof.
  intros Hm. pose proof (ranges_valid _ (mapM_net_ok _ _ Hm)) as [Hv4 Hv6].
  unfold parse. rewrite parse_loop_spec, Hm. simpl. eexists. split; [done|]. simpl.
  destruct (merge_spec 32 _ Hv4) as [H4 ?]. destruct (merge_spec 128 _ Hv6) as [H6 ?].
  auto.
Qed.

Lemma parse_separated `{UnstableSort} ps cs :
  parse ps = Ok cs -> separated 32 0 (v4 cs) /\ separated 128 0 (v6 cs).
Proof.
  intros Hp. destruct (mapM prefix_of ps) as [nets|e] eqn:Hm.
  - destruct (parse_contains _ _ Hm) as (cs' & Hcs & ? & ? & _).
    rewrite Hcs in Hp. by apply Ok_inj in Hp as <-.
  - unfold parse in Hp. by rewrite parse_loop_spec, Hm in Hp.
Qed.

Lemma contains_spec cs nets (t : TargetAddr) :
  Forall net_ok nets -> wf_target t -> separated 32 0 (v4 cs) -> separated 128 0 (v6 cs) ->
  (forall ip, covered (v4 cs) ip <-> covered (nets ≫= range4) ip) ->
  (forall ip, covered (v6 cs) ip <-> covered (nets ≫= range6) ip) ->
  contains cs t = existsb (prefix_covers t) nets.
Proof.
  intros Hn Ht H4 H6 Hc4 Hc6. apply eq_true_iff_eq. rewrite covered_nets by done.
  destruct t as [ip p|ip p|h p]; simpl; [..|done].
  - unfold contains_v4. by rewrite (contains_ip_spec 32 0).
  - unfold contains_v6. by rewrite (contains_ip_spec 128 0).
Qed.

(** The set against the texts it was parsed from. *)
Definition prefix_text_covers (t : TargetAddr) (s : bytes) : bool :=
  match prefix_of s with Ok p => prefix_covers t p | Err _ => false end.

Lemma existsb_texts t ps nets : mapM prefix_of ps = Ok nets ->
  existsb (prefix_covers t) nets = existsb (prefix_text_covers t) ps.
Proof.
  revert nets; induction ps as [|s ps IH]; intros nets H; simpl in H; [by apply Ok_inj in H as <-|].
  apply bind_Ok_inv in H as (p & Hp & H). apply bind_Ok_inv in H as (l & Hl & H).
  apply Ok_inj in H as <-. simpl. unfold prefix_text_covers at 1. by rewrite Hp, (IH l).
Qed.

Lemma contains_texts `{UnstableSort} ps cs t : parse ps = Ok cs -> wf_target t ->
  contains cs t = existsb (prefix_text_covers t) ps.
Proof.
  intros Hp Ht. destruct (mapM prefix_of ps) as [nets|e] eqn:Hm.
  - destruct (parse_contains _ _ Hm) as (cs' & Hcs & ? & ? & ? & ?).
    rewrite Hcs in Hp. apply Ok_inj in Hp as <-.
    rewrite <- (existsb_texts _ _ nets) by done. by apply contains_spec; [eapply mapM_net_ok|..].
  - unfold parse in Hp. by rewrite parse_loop_spec, Hm in Hp.
Qed.

(** A stable merge sort is one of the sorts the code may be linked with. *)
#[export] Instance by_start_trans : Transitive by_start.
Proof. intros a b c. unfold by_start. lia. Qed.
#[export] Instance by_start_total : Total by_start.
Proof. intros a b. unfold by_start. lia. Qed.
#[export] Instance by_start_dec : RelDecision by_start.
Proof. intros a b. unfold by_start. apply _. Defined.
#[export, refine] Instance merge_sort_start : UnstableSort := {|
  sort_by_start := merge_sort by_start
|}.
Proof.
  - intros l. apply merge_sort_Permutation.
  - intros l. by apply (StronglySorted_merge_sort by_start).
Defined.

(** ** Properties *)

(** A rule's CIDR set means what its prefix texts say: [parse] fails exactly
    when a prefix is malformed (with the error of the first such one), and
    otherwise sorting, merging and the binary search together answer, for
    every target, whether one of the prefixes covers it (same address family,
    same network bits). A domain is never covered. *)
Theorem cidr_set_spec `{UnstableSort} (ps : list bytes) (t : TargetAddr) :
  wf_target t ->
  match mapM prefix_of ps with
  | Ok nets => exists cs, parse ps = Ok cs /\ contains cs t = existsb (prefix_covers t) nets
  | Err e => parse ps = Err e
  end.
Proof.
  intros Ht. destruct (mapM prefix_of ps) as [nets|e] eqn:Hm.
  - destruct (parse_contains _ _ Hm) as (cs & Hcs & ? & ? & ? & ?). exists cs.
    split; [done|]. by apply contains_spec; [eapply mapM_net_ok|..].
  - unfold parse. by rewrite parse_loop_spec, Hm.
Qed.

Lemma cidr_set_spec_witness :
  let t := IpV4 [x0a; x01; x02; x03] 443 in
  wf_target t /\
  exists cs, parse [str "192.0.2.1"; str "10.0.0.0/8"; str "fe80::/10"] = Ok cs /\
    contains cs t = true.
Proof.
  intros t. assert (Ht : wf_target t) by (split; [reflexivity|split; [discriminate|reflexivity]]).
  split; [exact Ht|].
  exact (cidr_set_spec [str "192.0.2.1"; str "10.0.0.0/8"; str "fe80::/10"] t Ht).
Defined.

(** The compiled set is canonical: two prefix lists that cover the same
    addresses compile to the very same ranges, however they were written,
    ordered or split, and whatever order the unstable sort leaves equal starts
    in. *)
Theorem cidr_set_canonical (S1 S2 : UnstableSort) (ps qs : list bytes) (cs ds : CidrSet) :
  @parse S1 ps = Ok cs -> @parse S2 qs = Ok ds ->
  (forall t, wf_target t -> contains cs t = contains ds t) -> cs = ds.
Proof.
  intros Hp Hq Hc.
  destruct (parse_separated _ _ Hp) as [H4 H6]. destruct (parse_separated _ _ Hq) as [H4' H6'].
  assert (Hsame : forall w (f : CidrSet -> list range) n, w = 8 * Z.of_nat n ->
    separated w 0 (f cs) -> separated w 0 (f ds) ->
    (forall o, length o = n -> contains_ip (f cs) (be_val o) = contains_ip (f ds) (be_val o)) ->
    f cs = f ds).
  { intros w f n -> Hs Hs' Hf. apply (separated_unique _ _ _ _ _ Hs Hs'). intros ip.
    rewrite <- (contains_ip_spec _ _ _ ip Hs), <- (contains_ip_spec _ _ _ ip Hs').
    destruct (decide (0 <= ip <= umax (8 * Z.of_nat n))) as [Hip|Hip].
    - specialize (Hf (be_bytes n ip) (be_bytes_length _ _)).
      rewrite be_val_be_bytes_small in Hf; [by rewrite Hf|].
      unfold umax in Hip. rewrite Z.pow_mul_r in Hip by lia. change (2 ^ 8) with 256 in Hip. lia.
    - rewrite (contains_ip_spec _ _ _ ip Hs), (contains_ip_spec _ _ _ ip Hs').
      split; intros H; destruct Hip;
        [exact (separated_covered_range _ _ _ Hs H)|exact (separated_covered_range _ _ _ Hs' H)]. }
  destruct cs as [a4 a6], ds as [b4 b6]. simpl in *. f_equal.
  - apply (Hsame 32 v4 4%nat); [done..|]. intros o Ho. by apply (Hc (IpV4 o 0)).
  - apply (Hsame 128 v6 16%nat); [done..|]. intros o Ho. by apply (Hc (IpV6 o 0)).
Qed.

Lemma cidr_set_canonical_witness :
  parse [str "10.128.0.0/9"; str "10.0.0.0/9"; str "10.3.0.0/16"] = parse [str "10.77.1.2/8"].
Proof.
  destruct (parse [str "10.128.0.0/9"; str "10.0.0.0/9"; str "10.3.0.0/16"]) as [cs|e] eqn:E1;
    [|vm_compute in E1; discriminate].
  destruct (parse [str "10.77.1.2/8"]) as [ds|e] eqn:E2; [|vm_compute in E2; discriminate].
  f_equal. refine (cidr_set_canonical _ _ _ _ cs ds E1 E2 _). intros t _.
  vm_compute in E1, E2. congruence.
Defined.
