(* ===== verification/DomainSet.v ===== *)
(** Domain suffix sets of the policy router
    ([crates/outline-routing/src/domain.rs]): normalisation of patterns and
    hosts, and the label-wise suffix walk. *)
From S2P Require Import Prelude StdText Cidr.

Record DomainSet : Type := mkDomainSet { suffixes : gset bytes; match_all : bool }.

(** [bail!("invalid domain pattern {raw:?} ...")] *)
Inductive DomainError : Type := InvalidPattern (raw : bytes).

Definition normalize_host (s : bytes) : bytes :=
  let s := default s (strip_prefix (str "*.") s) in
  let s := default s (strip_prefix (str ".") s) in
  let s := default s (strip_suffix (str ".") s) in
  if existsb is_ascii_uppercase s then to_ascii_lowercase s else s.

(** The pattern loop over the two accumulators. *)
Fixpoint parse_patterns (patterns : list bytes) (suffixes : gset bytes) (match_all : bool)
    : result DomainError DomainSet :=
  match patterns with
  | [] => Ok (mkDomainSet suffixes match_all)
  | raw :: patterns =>
    let pattern := trim raw in
    if bool_decide (pattern = str "*") then parse_patterns patterns suffixes true
    else
      let normalized := normalize_host pattern in
      if bool_decide (normalized = []) then Err (InvalidPattern raw)
      else parse_patterns patterns ({[normalized]} ∪ suffixes) match_all
  end.
Definition parse (patterns : list bytes) : result DomainError DomainSet :=
  parse_patterns patterns ∅ false.

(** The label walk; each round drops at least the dot, so [S (length host)]
    rounds are enough. *)
Fixpoint suffix_walk (fuel : nat) (sfx : gset bytes) (suffix : bytes) : bool :=
  match fuel with
  | O => false
  | S fuel =>
    if bool_decide (suffix ∈ sfx) then true
    else match split_once x2e suffix with
         | Some (_, rest) => suffix_walk fuel sfx rest
         | None => false
         end
  end.

Definition contains_normalized_domain (d : DomainSet) (host : bytes) : bool :=
  if match_all d then true
  else if bool_decide (suffixes d = ∅) then false
  else suffix_walk (S (length host)) (suffixes d) host.

Definition contains_domain (d : DomainSet) (host : bytes) : bool :=
  contains_normalized_domain d (normalize_host host).

Definition is_empty (d : DomainSet) : bool := negb (match_all d) && bool_decide (suffixes d = ∅).
Definition suffix_count (d : DomainSet) : nat := size (suffixes d).
Definition matches_all (d : DomainSet) : bool := match_all d.

Definition read_domains_from_file (content : option bytes) : option (list bytes) :=
  file_entries <$> content.

(** ** Correctness *)

(** [suffix] covers [host] on a label boundary. *)
Definition label_suffix (suffix host : bytes) : Prop :=
  host = suffix \/ exists labels, host = labels ++ x2e :: suffix.

#[export] Instance label_suffix_dec s host : Decision (label_suffix s host).
Proof.
  change (Decision (host = s \/ (x2e :: s) `suffix_of` host)). apply _.
Defined.

Lemma suffix_walk_spec fuel sfx host : length host < fuel ->
  suffix_walk fuel sfx host = true <-> exists s, s ∈ sfx /\ label_suffix s host.
Proof.
  revert host; induction fuel as [|fuel IH]; intros host Hf; [lia|]. simpl.
  destruct (bool_decide_reflect (host ∈ sfx)) as [Hin|Hout].
  { split; [|done]. intros _. exists host. split; [done|by left]. }
  pose proof (split_once_spec x2e host) as Hs.
  destruct (split_once x2e host) as [[a rest]|].
  - destruct Hs as [-> Ha]. rewrite IH by (revert Hf; len_simpl; simpl; lia). split.
    + intros (s & Hs & [->|[l ->]]); exists s; (split; [done|]); right; [by exists a|].
      exists (a ++ x2e :: l). by rewrite <- app_assoc.
    + intros (s & Hs & [Heq|[l Heq]]); [congruence|]. exists s. split; [done|].
      apply app_eq_inv in Heq as [(k & -> & Hk)|(k & Hk & Hk2)].
      * destruct k as [|b k]; simplify_eq/=; [by left|]. set_solver.
      * destruct k as [|b k]; simplify_eq/=; [by left|right; by exists k].
  - split; [done|]. intros (s & Hin & [->|[l ->]]); [done|]. set_solver.
Qed.

Lemma to_ascii_lowercase_id s : existsb is_ascii_uppercase s = false -> to_ascii_lowercase s = s.
Proof.
  induction s as [|b s IH]; simpl; [done|]. intros [Hb Hs]%orb_false_iff.
  unfold ascii_lower. rewrite Hb. f_equal. by apply IH.
Qed.

(** The borrowed and the owned branch agree. *)
Lemma normalize_host_lower s : normalize_host s =
  to_ascii_lowercase (default (default (default s (strip_prefix (str "*.") s))
    (strip_prefix (str ".") (default s (strip_prefix (str "*.") s))))
    (strip_suffix (str ".") (default (default s (strip_prefix (str "*.") s))
    (strip_prefix (str ".") (default s (strip_prefix (str "*.") s)))))).
Proof.
  unfold normalize_host. cbv zeta. destruct (existsb is_ascii_uppercase _) eqn:E; [done|].
  by rewrite to_ascii_lowercase_id.
Qed.

(** Stripping a decoration commutes with lowercasing: none of [*], [.] is a
    letter. *)
Definition caseless (b : byte) : Prop := forall a, ascii_lower a = b <-> a = b.
Definition caseless_check (b : byte) : bool :=
  forallb (fun a => Bool.eqb (bool_decide (ascii_lower a = b)) (bool_decide (a = b))) all_bytes.

Lemma caseless_checked b : caseless_check b = true -> caseless b.
Proof.
  intros H a. pose proof (byte_forall _ H a) as Ha. apply Bool.eqb_prop in Ha.
  destruct (bool_decide_reflect (ascii_lower a = b)), (bool_decide_reflect (a = b)); done.
Qed.

Lemma strip_prefix_lower p s : Forall caseless p ->
  strip_prefix p (to_ascii_lowercase s) = to_ascii_lowercase <$> strip_prefix p s.
Proof.
  intros Hp. revert s; induction Hp as [|b p Hb Hp IH]; intros s; [done|].
  destruct s as [|a s]; [done|]. simpl.
  rewrite (bool_decide_ext (b = ascii_lower a) (b = a)) by (rewrite !(eq_comm b); apply Hb).
  case_bool_decide; [apply IH|done].
Qed.

Lemma strip_suffix_lower p s : Forall caseless p ->
  strip_suffix p (to_ascii_lowercase s) = to_ascii_lowercase <$> strip_suffix p s.
Proof.
  intros Hp. unfold strip_suffix, to_ascii_lowercase. rewrite <- fmap_reverse.
  rewrite strip_prefix_lower by by apply Forall_reverse.
  destruct (strip_prefix (reverse p) (reverse s)); [|done]. simpl. f_equal.
  unfold to_ascii_lowercase. by rewrite fmap_reverse.
Qed.

Definition lower_twice_check (b : byte) : bool :=
  bool_decide (ascii_lower (ascii_lower b) = ascii_lower b)
  && negb (is_ascii_uppercase (ascii_lower b)).
Lemma lower_twice_checked b : lower_twice_check b = true.
Proof. revert b. apply byte_forall. vm_compute. reflexivity. Qed.

Lemma lower_twice b : ascii_lower (ascii_lower b) = ascii_lower b.
Proof. pose proof (lower_twice_checked b) as H. by apply andb_true_iff in H as [H%bool_decide_eq_true _]. Qed.

Lemma to_ascii_lowercase_idemp s : to_ascii_lowercase (to_ascii_lowercase s) = to_ascii_lowercase s.
Proof.
  unfold to_ascii_lowercase. rewrite <- list_fmap_compose. apply list_fmap_ext. intros i b _.
  simpl. apply lower_twice.
Qed.

Lemma caseless_star_dot : caseless x2a /\ caseless x2e.
Proof. split; apply caseless_checked; vm_compute; reflexivity. Qed.

Lemma default_fmap {A B} (f : A -> B) (x : A) (o : option A) :
  default (f x) (f <$> o) = f (default x o).
Proof. by destruct o. Qed.

Lemma normalize_host_case s : normalize_host (to_ascii_lowercase s) = normalize_host s.
Proof.
  pose proof caseless_star_dot as [Hs Hd].
  assert (Hp2 : Forall caseless (str ".")) by (by apply List.Forall_cons).
  assert (Hp1 : Forall caseless (str "*.")) by (by apply List.Forall_cons).
  rewrite !normalize_host_lower.
  rewrite (strip_prefix_lower _ _ Hp1), default_fmap.
  rewrite (strip_prefix_lower _ _ Hp2), default_fmap.
  rewrite (strip_suffix_lower _ _ Hp2), default_fmap.
  by rewrite to_ascii_lowercase_idemp.
Qed.

(** Stripping a prefix that does not straddle the end leaves the end alone. *)
Lemma strip_prefix_app p s t : (forall r k, p = s ++ r -> t = r ++ k -> r = []) ->
  default (s ++ t) (strip_prefix p (s ++ t)) = default s (strip_prefix p s) ++ t.
Proof.
  intros Hp. destruct (strip_prefix p s) as [r|] eqn:E.
  - apply strip_prefix_spec in E as ->. simpl.
    by rewrite (proj2 (strip_prefix_spec p ((p ++ r) ++ t) (r ++ t))) by by rewrite app_assoc.
  - simpl. destruct (strip_prefix p (s ++ t)) as [r|] eqn:E2; [|done]. exfalso.
    apply strip_prefix_spec in E2. symmetry in E2.
    apply app_eq_inv in E2 as [(k & -> & Hk)|(k & -> & Hk)].
    + assert (k = []) as -> by (by eapply Hp). rewrite app_nil_r in E.
      by rewrite (proj2 (strip_prefix_spec s s [])) in E by by rewrite app_nil_r.
    + by rewrite (proj2 (strip_prefix_spec _ _ k) eq_refl) in E.
Qed.

Lemma strip_dot s : strip_suffix (str ".") (s ++ [x2e]) = Some s.
Proof. by apply strip_suffix_spec. Qed.

Lemma last_after_prefix (p s r : bytes) : s = p ++ r -> r <> [] -> last s = last r.
Proof.
  intros -> Hr. rewrite last_app. destruct (last r) eqn:E; [done|]. by apply last_None in E.
Qed.

Lemma normalize_host_dot s : last s <> Some x2e -> s <> str "*" ->
  normalize_host (s ++ [x2e]) = normalize_host s.
Proof.
  intros Hl Hs. destruct (decide (s = [])) as [->|Hne]; [done|].
  rewrite !normalize_host_lower. f_equal.
  rewrite (strip_prefix_app (str "*.") s [x2e]).
  2:{ intros r k H1 H2. change (str "*.") with [x2a; x2e] in H1.
      destruct s as [|a [|b [|c s]]]; [done| |..]; simpl in H1;
        [injection H1 as <- <-; by destruct Hs|injection H1 as <- <- <-|]; try done; discriminate. }
  set (u := default s (strip_prefix (str "*.") s)).
  assert (Hu : u <> [] /\ last u = last s).
  { unfold u. destruct (strip_prefix (str "*.") s) as [r|] eqn:E; [|done]. simpl.
    apply strip_prefix_spec in E. destruct (decide (r = [])) as [->|Hr].
    - by rewrite E in Hl.
    - split; [done|]. symmetry. by eapply last_after_prefix. }
  destruct Hu as [Hu Hlu]. rewrite (strip_prefix_app (str ".") u [x2e]).
  2:{ intros r k H1 H2. change (str ".") with [x2e] in H1.
      destruct u as [|a [|b u]]; [done|injection H1 as <- <-; done|done]. }
  set (v := default u (strip_prefix (str ".") u)).
  rewrite strip_dot. simpl.
  destruct (strip_suffix (str ".") v) as [r|] eqn:E; [|done]. exfalso.
  apply strip_suffix_spec in E. apply Hl. rewrite <- Hlu.
  unfold v in E. destruct (strip_prefix (str ".") u) as [q|] eqn:Eq; simpl in E.
  - apply strip_prefix_spec in Eq. rewrite (last_after_prefix (str ".") u q Eq), E.
    + exact (last_snoc x2e r).
    + rewrite E. by destruct r.
  - rewrite E. exact (last_snoc x2e r).
Qed.

(** *** Parsing *)
Definition is_star (raw : bytes) : Prop := trim raw = str "*".
Definition suffix_of (raw : bytes) : bytes := normalize_host (trim raw).
Definition bad_pattern (raw : bytes) : Prop := ~ is_star raw /\ suffix_of raw = [].

Definition set_matches (d : DomainSet) (host : bytes) : Prop :=
  match_all d = true \/ exists s, s ∈ suffixes d /\ label_suffix s host.

Lemma parse_patterns_spec ps sfx all :
  match parse_patterns ps sfx all with
  | Ok d =>
    Forall (fun raw => ~ bad_pattern raw) ps /\
    forall host, set_matches d host <->
      set_matches (mkDomainSet sfx all) host \/
      exists raw, raw ∈ ps /\ (is_star raw \/ label_suffix (suffix_of raw) host)
  | Err (InvalidPattern raw) =>
    exists pre post, ps = pre ++ raw :: post /\ bad_pattern raw /\
      Forall (fun raw => ~ bad_pattern raw) pre
  end.
Proof.
  revert sfx all; induction ps as [|raw ps IH]; intros sfx all; cbn [parse_patterns].
  { split; [constructor|]. intros host. set_solver. }
  destruct (bool_decide_reflect (trim raw = str "*")) as [Hst|Hst].
  - assert (Hok : ~ bad_pattern raw) by (intros [H _]; by apply H).
    specialize (IH sfx true). destruct (parse_patterns ps sfx true) as [d|[r]].
    + destruct IH as [Hf Hm]. split; [by constructor|]. intros host. rewrite Hm.
      unfold set_matches. simpl. split; [|naive_solver].
      intros _. right. exists raw. split; [left|by left].
    + destruct IH as (pre & post & -> & Hr & Hf). exists (raw :: pre), post.
      split; [done|]. split; [done|by constructor].
  - change (normalize_host (trim raw)) with (suffix_of raw).
    destruct (bool_decide_reflect (suffix_of raw = [])) as [He|He].
    { exists [], ps. done. }
    assert (Hok : ~ bad_pattern raw) by (intros [_ H]; by apply He).
    specialize (IH ({[suffix_of raw]} ∪ sfx) all).
    destruct (parse_patterns ps _ all) as [d|[r]].
    + destruct IH as [Hf Hm]. split; [by constructor|]. intros host. rewrite Hm.
      unfold set_matches. simpl. setoid_rewrite elem_of_union. setoid_rewrite elem_of_singleton.
      setoid_rewrite elem_of_cons. unfold is_star at 2. naive_solver.
    + destruct IH as (pre & post & -> & Hr & Hf). exists (raw :: pre), post.
      split; [done|]. split; [done|by constructor].
Qed.

Lemma contains_normalized_spec d host :
  contains_normalized_domain d host = true <-> set_matches d host.
Proof.
  unfold contains_normalized_domain, set_matches. destruct (match_all d); [naive_solver|].
  destruct (bool_decide_reflect (suffixes d = ∅)) as [->|Hne].
  - split; [done|]. set_solver.
  - rewrite suffix_walk_spec by lia. naive_solver.
Qed.

(** The set against the texts it was parsed from. *)
#[export] Instance is_star_dec raw : Decision (is_star raw).
Proof. unfold is_star. apply _. Defined.
Definition pattern_text_covers (host raw : bytes) : bool :=
  bool_decide (is_star raw) || bool_decide (label_suffix (suffix_of raw) (normalize_host host)).

Lemma contains_domain_texts ps d host : parse ps = Ok d ->
  contains_domain d host = existsb (pattern_text_covers host) ps.
Proof.
  intros Hp. pose proof (parse_patterns_spec ps ∅ false) as H. unfold parse in Hp.
  rewrite Hp in H. destruct H as [_ Hm]. apply eq_true_iff_eq.
  unfold contains_domain. rewrite contains_normalized_spec, Hm, existsb_exists.
  unfold set_matches, pattern_text_covers. simpl. setoid_rewrite orb_true_iff.
  setoid_rewrite bool_decide_eq_true. setoid_rewrite list_elem_of_In. set_solver.
Qed.

(** ** Properties *)

(** A rule's domain set means what its patterns say: [parse] fails exactly
    on the first pattern that strips to nothing, and otherwise a host matches
    if and only if some pattern is the catch-all or, both normalised, is the
    host itself or ends it right after a dot (so [example.com] covers
    [a.example.com] and never [notexample.com]). *)
Theorem domain_set_spec (ps : list bytes) :
  match parse ps with
  | Ok d =>
    Forall (fun raw => ~ bad_pattern raw) ps /\
    forall host, contains_domain d host = true <->
      exists raw, raw ∈ ps /\ (is_star raw \/ label_suffix (suffix_of raw) (normalize_host host))
  | Err (InvalidPattern raw) =>
    exists pre post, ps = pre ++ raw :: post /\ bad_pattern raw /\
      Forall (fun raw => ~ bad_pattern raw) pre
  end.
Proof.
  unfold parse. pose proof (parse_patterns_spec ps ∅ false) as H.
  destruct (parse_patterns ps ∅ false) as [d|[raw]]; [|done].
  destruct H as [Hf Hm]. split; [done|]. intros host.
  unfold contains_domain. rewrite contains_normalized_spec, Hm. unfold set_matches at 1. set_solver.
Qed.

(** Matching is blind to spelling: letter case never matters, and neither
    does the trailing dot of a fully qualified name (the bare text [*] is the
    one exception, a dot after it being read as a wildcard label). *)
Theorem domain_match_insensitive (d : DomainSet) (host : bytes) :
  contains_domain d (to_ascii_lowercase host) = contains_domain d host /\
  (last host <> Some x2e -> host <> str "*" ->
   contains_domain d (host ++ [x2e]) = contains_domain d host).
Proof.
  unfold contains_domain. split; [by rewrite normalize_host_case|].
  intros Hl Hs. by rewrite normalize_host_dot.
Qed.

Lemma domain_match_insensitive_witness :
  let d := mkDomainSet {[str "example.com"]} false in
  contains_domain d (str "WWW.Example.com.") = contains_domain d (str "WWW.Example.com").
Proof.
  intros d. refine (proj2 (domain_match_insensitive d (str "WWW.Example.com")) _ _); discriminate.
Defined.
