(* ===== verification/Routing.v ===== *)
(** The policy router ([crates/outline-routing/src/table.rs], [config.rs]):
    compilation of the configured rules, first-match resolution, and what a
    watcher makes of a rule's files when they change. The table is compared with a
    naive reading of the rules. [RouteCache] has the interleavings. *)
From S2P Require Import Prelude StdText Target Cidr DomainSet.

(** ** Configuration *)
Inductive RouteTarget : Type := Direct | Drop | Group (name : bytes).
#[export] Instance RouteTarget_eq_dec : EqDecision RouteTarget.
Proof. solve_decision. Defined.

(** A path is its bytes, a [Duration] its milliseconds. *)
Record RouteRule : Type := mkRule {
  inline_prefixes : list bytes;
  files : list bytes;
  inline_domains : list bytes;
  domain_files : list bytes;
  file_poll : Z;
  target : RouteTarget;
  fallback : option RouteTarget;
  invert : bool
}.

Record RoutingTableConfig : Type := mkConfig {
  cfg_rules : list RouteRule;
  cfg_default_target : RouteTarget;
  cfg_default_fallback : option RouteTarget
}.

(** The two [ArcSwap]s of a rule are the fields [cidrs] and [domains]; the rest
    of a compiled rule is copied from its configuration and kept as such. *)
Record CompiledRule : Type := mkCompiled {
  cidrs : CidrSet;
  domains : DomainSet;
  source : RouteRule
}.

Record RoutingTable : Type := mkTable {
  rules : list CompiledRule;
  default_target : RouteTarget;
  default_fallback : option RouteTarget;
  version : Z
}.

Record RouteDecision : Type := mkDecision {
  primary : RouteTarget;
  decision_fallback : option RouteTarget
}.
#[export] Instance RouteDecision_eq_dec : EqDecision RouteDecision.
Proof. solve_decision. Defined.

(** ** Compilation *)
Inductive RouteError : Type :=
  | ReadFailed (path : bytes)
  | BadCidr (e : CidrError)
  | BadDomain (e : DomainError)
  | InvertWithoutPrefixes
  | InvertWithDomains
  | InRule (index : nat) (e : RouteError).

Section compile.
Context `{UnstableSort}.

(** [tokio::fs::read_to_string]: the content, [None] when the read fails. *)
Variable read_to_string : bytes -> option bytes.

(** The file loop of [build_cidr_set] and [build_domain_set]. *)
Fixpoint extend_from_files (read : option bytes -> option (list bytes)) (acc : list bytes)
    (fs : list bytes) : result RouteError (list bytes) :=
  match fs with
  | [] => Ok acc
  | f :: fs =>
    from_file ← ok_or (ReadFailed f) (read (read_to_string f));
    extend_from_files read (acc ++ from_file) fs
  end.

Definition build_cidr_set (r : RouteRule) : result RouteError CidrSet :=
  prefixes ← extend_from_files read_prefixes_from_file (inline_prefixes r) (files r);
  map_err BadCidr (Cidr.parse prefixes).
Definition build_domain_set (r : RouteRule) : result RouteError DomainSet :=
  patterns ← extend_from_files read_domains_from_file (inline_domains r) (domain_files r);
  map_err BadDomain (DomainSet.parse patterns).

Definition compile_rule (index : nat) (r : RouteRule) : result RouteError CompiledRule :=
  cidrs ← map_err (InRule (index + 1)) (build_cidr_set r);
  domains ← map_err (InRule (index + 1)) (build_domain_set r);
  if invert r && Cidr.is_empty cidrs then Err (InRule (index + 1) InvertWithoutPrefixes)
  else if invert r && negb (DomainSet.is_empty domains) then
    Err (InRule (index + 1) InvertWithDomains)
  else Ok (mkCompiled cidrs domains r).

Fixpoint compile_rules (index : nat) (rs : list RouteRule) : result RouteError (list CompiledRule) :=
  match rs with
  | [] => Ok []
  | r :: rs =>
    c ← compile_rule index r;
    cs ← compile_rules (S index) rs;
    Ok (c :: cs)
  end.

Definition compile (config : RoutingTableConfig) : result RouteError RoutingTable :=
  rules ← compile_rules 0 (cfg_rules config);
  Ok (mkTable rules (cfg_default_target config) (cfg_default_fallback config) 0).

(** [reload_rule_sets] followed by the watcher's refusal of an inverted empty
    set; [None] keeps the previous sets. *)
Definition reload_rule_sets (r : RouteRule) : result RouteError (CidrSet * DomainSet) :=
  all ← extend_from_files read_prefixes_from_file (inline_prefixes r) (files r);
  all_domains ← extend_from_files read_domains_from_file (inline_domains r) (domain_files r);
  cs ← map_err BadCidr (Cidr.parse all);
  ds ← map_err BadDomain (DomainSet.parse all_domains);
  Ok (cs, ds).
Definition watcher_reload (r : RouteRule) : option (CidrSet * DomainSet) :=
  match reload_rule_sets r with
  | Ok (new_cidrs, new_domains) =>
    if invert r && Cidr.is_empty new_cidrs then None else Some (new_cidrs, new_domains)
  | Err _ => None
  end.
End compile.

(** ** Resolution *)
Definition decision_of (r : CompiledRule) : RouteDecision :=
  mkDecision (target (source r)) (fallback (source r)).
Definition default_decision (t : RoutingTable) : RouteDecision :=
  mkDecision (default_target t) (default_fallback t).

(** One round of the two matching loops. *)
Definition domain_rule_matches (host : bytes) (r : CompiledRule) : bool :=
  contains_normalized_domain (domains r) host.
Definition ip_rule_matches (ip : TargetAddr) (r : CompiledRule) : bool :=
  let in_set := contains (cidrs r) ip in
  if invert (source r) then negb in_set else in_set.

Fixpoint first_match (matches : CompiledRule -> bool) (rs : list CompiledRule)
    : option RouteDecision :=
  match rs with
  | [] => None
  | r :: rs => if matches r then Some (decision_of r) else first_match matches rs
  end.
Definition match_domain_rules (t : RoutingTable) (host : bytes) : option RouteDecision :=
  first_match (domain_rule_matches (normalize_host host)) (rules t).
Definition match_ip_rules (t : RoutingTable) (ip : TargetAddr) : option RouteDecision :=
  first_match (ip_rule_matches ip) (rules t).

Definition resolve_versioned (t : RoutingTable) (a : TargetAddr) : RouteDecision * Z :=
  let version := version t in
  let decision :=
    default (default_decision t)
      (match a with
       | Domain host _ => match_domain_rules t host
       | _ => match_ip_rules t a
       end) in
  (decision, version).
Definition resolve (t : RoutingTable) (a : TargetAddr) : RouteDecision := (resolve_versioned t a).1.

Definition resolve_domain_or_ip_versioned (t : RoutingTable) (domain : option bytes)
    (ip : option TargetAddr) : RouteDecision * Z :=
  let version := version t in
  match (host ← domain; match_domain_rules t host) with
  | Some decision => (decision, version)
  | None =>
    match (ip ← ip; match_ip_rules t ip) with
    | Some decision => (decision, version)
    | None => (default_decision t, version)
    end
  end.
Definition resolve_domain_or_ip (t : RoutingTable) (domain : option bytes)
    (ip : option TargetAddr) : RouteDecision :=
  (resolve_domain_or_ip_versioned t domain ip).1.
Definition resolve_domain_explicit (t : RoutingTable) (host : bytes) : option RouteDecision :=
  match_domain_rules t host.

(** ** Specification: the configuration read naively

    Which rule takes a target, from the texts of the configuration and its
    files alone: no compiled set, no ranges, no search. *)
Section naive.
Variable read_to_string : bytes -> option bytes.

Definition file_texts (fs : list bytes) : list bytes :=
  fs ≫= fun f => default [] (file_entries <$> read_to_string f).

Definition rule_covers (r : RouteRule) (t : TargetAddr) : bool :=
  match t with
  | Domain host _ =>
    existsb (pattern_text_covers host) (inline_domains r ++ file_texts (domain_files r))
  | _ => xorb (invert r) (existsb (prefix_text_covers t) (inline_prefixes r ++ file_texts (files r)))
  end.

Fixpoint naive_first (rs : list RouteRule) (t : TargetAddr) : option RouteDecision :=
  match rs with
  | [] => None
  | r :: rs =>
    if rule_covers r t then Some (mkDecision (target r) (fallback r)) else naive_first rs t
  end.
Definition naive_resolve (cfg : RoutingTableConfig) (t : TargetAddr) : RouteDecision :=
  default (mkDecision (cfg_default_target cfg) (cfg_default_fallback cfg))
    (naive_first (cfg_rules cfg) t).
End naive.

(** The rule takes the target, whichever side it is matched on. *)
Definition rule_matches (t : TargetAddr) (r : CompiledRule) : bool :=
  match t with
  | Domain host _ => contains_domain (domains r) host
  | _ => ip_rule_matches t r
  end.

Lemma resolve_first_match t a :
  resolve t a = default (default_decision t) (first_match (rule_matches a) (rules t)).
Proof. by destruct a. Qed.

Section compiled.
Context `{UnstableSort} (read_to_string : bytes -> option bytes).

Lemma extend_from_files_ok read acc fs l : (forall c, read c = file_entries <$> c) ->
  extend_from_files read_to_string read acc fs = Ok l -> l = acc ++ file_texts read_to_string fs.
Proof.
  intros Hread. revert acc l; induction fs as [|f fs IH]; intros acc l He; simpl in He.
  - apply Ok_inj in He as <-. by rewrite app_nil_r.
  - apply bind_Ok_inv in He as (x & Hx & He). apply IH in He as ->. rewrite Hread in Hx.
    destruct (read_to_string f) as [c|] eqn:Hc; [|done]. apply Ok_inj in Hx as <-.
    unfold file_texts. simpl. rewrite Hc. simpl. by rewrite <- app_assoc.
Qed.

Lemma compile_rule_ok i r c : compile_rule read_to_string i r = Ok c ->
  source c = r /\
  Cidr.parse (inline_prefixes r ++ file_texts read_to_string (files r)) = Ok (cidrs c) /\
  DomainSet.parse (inline_domains r ++ file_texts read_to_string (domain_files r)) = Ok (domains c) /\
  (invert r = true -> Cidr.is_empty (cidrs c) = false /\ DomainSet.is_empty (domains c) = true).
Proof.
  intros Hc. apply bind_Ok_inv in Hc as (cs & Hcs & Hc). apply bind_Ok_inv in Hc as (ds & Hds & Hc).
  apply map_err_Ok_inv in Hcs, Hds.
  apply bind_Ok_inv in Hcs as (ps & Hps & Hcs). apply bind_Ok_inv in Hds as (qs & Hqs & Hds).
  apply map_err_Ok_inv in Hcs, Hds.
  apply extend_from_files_ok in Hps as ->; [|done]. apply extend_from_files_ok in Hqs as ->; [|done].
  do 2 split_guard. apply Ok_inj in Hc as <-. simpl. do 3 (split; [done|]).
  intros Hi. rewrite Hi in *. simpl in *. by destruct (DomainSet.is_empty ds).
Qed.

Lemma compile_rules_ok i rs cs : compile_rules read_to_string i rs = Ok cs ->
  Forall2 (fun r c => exists j, compile_rule read_to_string j r = Ok c) rs cs.
Proof.
  revert i cs; induction rs as [|r rs IH]; intros i cs Hc; simpl in Hc;
    [apply Ok_inj in Hc as <-; constructor|].
  apply bind_Ok_inv in Hc as (c & Hr & Hc). apply bind_Ok_inv in Hc as (cs' & Hrs & Hc).
  apply Ok_inj in Hc as <-. constructor; [by exists i|by eapply IH].
Qed.

Lemma compiled_rule_matches r c t : (exists j, compile_rule read_to_string j r = Ok c) ->
  wf_target t -> rule_matches t c = rule_covers read_to_string r t.
Proof.
  intros [j Hc] Ht. apply compile_rule_ok in Hc as (Hs & Hcs & Hds & _).
  unfold rule_matches, rule_covers, ip_rule_matches.
  destruct t as [ip p|ip p|h p]; [..|by apply contains_domain_texts];
    rewrite (contains_texts _ _ _ Hcs Ht), Hs; by destruct (invert r).
Qed.

Lemma first_match_naive rs cs t :
  Forall2 (fun r c => exists j, compile_rule read_to_string j r = Ok c) rs cs -> wf_target t ->
  first_match (rule_matches t) cs = naive_first read_to_string rs t.
Proof.
  intros HF Ht. induction HF as [|r c rs cs Hrc HF IH]; [done|]. simpl.
  rewrite (compiled_rule_matches r c t Hrc Ht), IH. destruct Hrc as [j Hc].
  apply compile_rule_ok in Hc as (<- & _). done.
Qed.
End compiled.

(** The watcher rebuilds what a fresh compile would build. *)
Lemma reload_rule_sets_build `{UnstableSort} rd r c i :
  compile_rule rd i r = Ok c -> watcher_reload rd r = Some (cidrs c, domains c).
Proof.
  intros Hc. unfold watcher_reload, reload_rule_sets.
  apply bind_Ok_inv in Hc as (cs & Hcs & Hc). apply bind_Ok_inv in Hc as (ds & Hds & Hc).
  apply map_err_Ok_inv in Hcs, Hds.
  apply bind_Ok_inv in Hcs as (ps & -> & Hcs). apply bind_Ok_inv in Hds as (qs & -> & Hds).
  simpl. rewrite Hcs, Hds. simpl. do 2 split_guard. by apply Ok_inj in Hc as <-.
Qed.

(** ** Properties of a table *)

(** C36: compilation refines the configuration: for every target, the compiled
    table decides exactly as the naive reading does, walking the rules in
    order, checking the target against each rule's prefix or pattern texts
    (inline first, then its files), honouring [invert], and falling back to
    the default. *)
Theorem compile_refines `{UnstableSort} (read_to_string : bytes -> option bytes)
    (cfg : RoutingTableConfig) (tbl : RoutingTable) (t : TargetAddr) :
  compile read_to_string cfg = Ok tbl -> wf_target t ->
  resolve tbl t = naive_resolve read_to_string cfg t.
Proof.
  intros Hc Ht. apply bind_Ok_inv in Hc as (cs & Hcs & Hc). apply Ok_inj in Hc as <-.
  rewrite resolve_first_match. simpl. apply compile_rules_ok in Hcs.
  by rewrite (first_match_naive read_to_string _ _ _ Hcs Ht).
Qed.

Definition example_files (path : bytes) : option bytes :=
  if bool_decide (path = str "ru.lst") then Some (str "# ru
5.8.0.0/16
 95.24.0.0/13 ") else None.
Definition example_config : RoutingTableConfig :=
  mkConfig
    [mkRule [] [] [str "*.example.com"] [] 1000 Drop None false;
     mkRule [str "10.0.0.0/8"] [str "ru.lst"] [] [] 1000 Direct (Some Drop) false]
    (Group (str "main")) None.

Lemma compile_refines_witness :
  exists tbl, compile example_files example_config = Ok tbl /\
    resolve tbl (IpV4 [x5f; x1f; x00; x01] 443) = mkDecision Direct (Some Drop) /\
    resolve tbl (Domain (str "A.example.COM.") 80) = mkDecision Drop None.
Proof.
  destruct (compile example_files example_config) as [tbl|e] eqn:E; [|vm_compute in E; discriminate].
  exists tbl. split; [done|]. split.
  - rewrite (compile_refines example_files example_config tbl _ E); [reflexivity|].
    split; [reflexivity|split; [discriminate|reflexivity]].
  - rewrite (compile_refines example_files example_config tbl _ E); [reflexivity|].
    split; [reflexivity|split; [discriminate|reflexivity]].
Defined.

(** [r] is the first of [rs] that [m] accepts. *)
Definition first_rule (m : CompiledRule -> bool) (rs : list CompiledRule) (r : CompiledRule) : Prop :=
  exists pre post, rs = pre ++ r :: post /\ m r = true /\ Forall (fun r' => m r' = false) pre.

Lemma first_match_spec m rs :
  match first_match m rs with
  | Some d => exists r, first_rule m rs r /\ d = decision_of r
  | None => Forall (fun r => m r = false) rs
  end.
Proof.
  induction rs as [|r rs IH]; simpl; [done|]. destruct (m r) eqn:Hr.
  - exists r. split; [|done]. by exists [], rs.
  - destruct (first_match m rs) as [d|]; [|by constructor].
    destruct IH as (r' & (pre & post & -> & Hm & Hf) & Hd). exists r'. split; [|done].
    exists (r :: pre), post. split; [done|]. split; [done|by constructor].
Qed.

Lemma pass_spec {K} (m : K -> CompiledRule -> bool) (key : option K) rs :
  match (k ← key; first_match (m k) rs) with
  | Some d => exists k r, key = Some k /\ first_rule (m k) rs r /\ d = decision_of r
  | None => forall k, key = Some k -> Forall (fun r => m k r = false) rs
  end.
Proof.
  destruct key as [k|]; simpl; [|done]. pose proof (first_match_spec (m k) rs) as H.
  destruct (first_match (m k) rs) as [d|].
  - destruct H as (r & Hr & ->). by exists k, r.
  - by intros ? [= <-].
Qed.

(** Two-pass resolution: an explicit domain rule, the first in order, wins
    whatever the address; only without one is the address, if any, matched
    against the CIDR sides, again first in order; the default is left when
    neither key matched. A one-key [resolve] is the case of that key alone. *)
Theorem two_pass_spec (t : RoutingTable) (domain : option bytes) (ip : option TargetAddr) :
  let d := resolve_domain_or_ip t domain ip in
  let by_domain h r := contains_domain (domains r) h in
  ((exists h r, domain = Some h /\ first_rule (by_domain h) (rules t) r /\ d = decision_of r) \/
   ((forall h, domain = Some h -> Forall (fun r => by_domain h r = false) (rules t)) /\
    ((exists a r, ip = Some a /\ first_rule (ip_rule_matches a) (rules t) r /\ d = decision_of r) \/
     ((forall a, ip = Some a -> Forall (fun r => ip_rule_matches a r = false) (rules t)) /\
      d = default_decision t)))) /\
  (forall a, resolve t a = match a with
                           | Domain h _ => resolve_domain_or_ip t (Some h) None
                           | _ => resolve_domain_or_ip t None (Some a)
                           end).
Proof.
  intros d by_domain. split.
  2:{ intros a. unfold resolve_domain_or_ip, resolve_domain_or_ip_versioned, resolve, resolve_versioned.
      destruct a; simpl;
        match goal with |- context [match ?o with Some _ => _ | None => _ end] => by destruct o end. }
  unfold d, resolve_domain_or_ip, resolve_domain_or_ip_versioned, match_domain_rules, match_ip_rules.
  pose proof (pass_spec (fun h => domain_rule_matches (normalize_host h)) domain (rules t)) as Hd.
  pose proof (pass_spec ip_rule_matches ip (rules t)) as Hi.
  destruct (domain ≫= _) as [dd|]; [by left|right]. split; [exact Hd|].
  destruct (ip ≫= _) as [dd|]; [by left|by right].
Qed.
