(* ===== verification/RouteCache.v ===== *)
(** Hot reload against cached lookups: the watcher tasks of
    [crates/outline-routing/src/table.rs] ([spawn_route_watchers]), the table
    swap of [shared.rs] as [rebuild_routing] of
    [bins/outline-ws-rust/src/http/control/apply.rs] makes it, and the
    per-association route cache of [bins/outline-ws-rust/src/proxy/udp/routing.rs],
    interleaved at the granularity of their atomic loads and stores. *)
From S2P Require Import Prelude StdText Target Cidr DomainSet Routing.

(** ** The LRU cache

    [lru::LruCache] by what the client relies on: [get] returns the entry of
    the key, nothing appears that was not put, and what was put is kept
    unchanged or evicted. *)
Class LruCache (C V : Type) := {
  lru_empty : C;
  lru_peek : C -> TargetAddr -> option V;
  lru_get : C -> TargetAddr -> option V * C;
  lru_put : C -> TargetAddr -> V -> C;
  lru_peek_empty k : lru_peek lru_empty k = None;
  lru_get_peek c k : (lru_get c k).1 = lru_peek c k;
  lru_get_keeps c k k' v : lru_peek (lru_get c k).2 k' = Some v -> lru_peek c k' = Some v;
  lru_put_keeps c k v k' v' :
    lru_peek (lru_put c k v) k' = Some v' -> (k' = k /\ v' = v) \/ lru_peek c k' = Some v'
}.

(** ** Tasks *)

(** A watcher between two polls, with sets built but not yet published, or
    between its three publications. *)
Inductive Phase : Type :=
  | Idle
  | Loaded (new_cidrs : CidrSet) (new_domains : DomainSet)
  | CidrsStored (new_domains : DomainSet)
  | BothStored.

Record Watcher : Type := mkWatcher { phase : Phase; last_mtimes : list (option Z) }.

(** A rebuild in progress, of which the control plane's mutex admits one: the
    guard of the old watchers is dropped, or the new table is stamped with the
    version read from the old one. *)
Inductive Rebuild : Type :=
  | NoRebuild
  | GuardDropped (new : RoutingTable)
  | Stamped (new : RoutingTable).

(** The packet task of one association. [g] is the table its guard holds. *)
Inductive Client : Type :=
  | Waiting
  | Versioned (t : TargetAddr) (current_version : Z)
  | Missed (t : TargetAddr)
  | Guarded (t : TargetAddr) (g : nat)
  | Walking (t : TargetAddr) (g : nat) (version : Z) (i : nat).

Section world.
Context `{UnstableSort} {C : Type} `{!LruCache C (RouteDecision * Z)}.

(** [retired] are the tables swapped out (a guard may still hold one) with their
    watchers, [current] is the one [SharedRoutingTable] points to, [watchers] are
    its rules' watchers. *)
Record World : Type := mkWorld {
  retired : list (RoutingTable * list Watcher);
  current : RoutingTable;
  watchers : list Watcher;
  rebuild : Rebuild;
  client : Client;
  cache : C
}.

(** Table [k] with its watchers; the current one comes last. *)
Definition cell_at (w : World) (k : nat) : option (RoutingTable * list Watcher) :=
  (retired w ++ [(current w, watchers w)]) !! k.
Definition table_at (w : World) (g : nat) : option RoutingTable := fst <$> cell_at w g.
Definition set_cell (w : World) (k : nat) (c : RoutingTable * list Watcher) : World :=
  if decide (k = length (retired w)) then mkWorld (retired w) c.1 c.2 (rebuild w) (client w) (cache w)
  else mkWorld (<[k := c]> (retired w)) (current w) (watchers w) (rebuild w) (client w) (cache w).

(** [fetch_add(1)] on [u64] *)
Definition succ64 (v : Z) : Z := ((v + 1) mod 2 ^ 64)%Z.
Definition with_version (t : RoutingTable) (v : Z) : RoutingTable :=
  mkTable (rules t) (default_target t) (default_fallback t) v.
Definition with_rules (t : RoutingTable) (rs : list CompiledRule) : RoutingTable :=
  mkTable rs (default_target t) (default_fallback t) (version t).

(** [last_mtimes] after comparing each watched path, and [changed]. *)
Fixpoint poll_mtimes (last now : list (option Z)) : list (option Z) * bool :=
  match last, now with
  | l :: last, m :: now =>
    let (rest, changed) := poll_mtimes last now in
    if bool_decide (m = l) then (l :: rest, changed) else (m :: rest, true)
  | _, _ => (last, false)
  end.

(** A poll of rule [i]: the stat loop, then the rebuild. A rule without files
    has no watcher. *)
Definition poll (fs : bytes -> option bytes) (now : list (option Z)) (r : RouteRule) (w : Watcher)
    : option Watcher :=
  if bool_decide (files r = []) && bool_decide (domain_files r = []) then None
  else match phase w with
       | Idle =>
         let (mtimes, changed) := poll_mtimes (last_mtimes w) now in
         if changed then
           match watcher_reload fs r with
           | Some (cs, ds) => Some (mkWatcher (Loaded cs ds) mtimes)
           | None => Some (mkWatcher Idle mtimes)
           end
         else Some (mkWatcher Idle mtimes)
       | _ => None
       end.

(** [cidrs.store], [domains.store] and [version.fetch_add], in this order. *)
Definition set_sets (t : RoutingTable) (i : nat) (f : CompiledRule -> CompiledRule) : RoutingTable :=
  with_rules t (alter f i (rules t)).
Definition publish (i : nat) (t : RoutingTable) (w : Watcher) : option (RoutingTable * Watcher) :=
  match phase w with
  | Idle => None
  | Loaded cs ds =>
    Some (set_sets t i (fun r => mkCompiled cs (domains r) (source r)),
          mkWatcher (CidrsStored ds) (last_mtimes w))
  | CidrsStored ds =>
    Some (set_sets t i (fun r => mkCompiled (cidrs r) ds (source r)),
          mkWatcher BothStored (last_mtimes w))
  | BothStored =>
    Some (with_version t (succ64 (version t)), mkWatcher Idle (last_mtimes w))
  end.

Definition is_idle (w : Watcher) : bool := match phase w with Idle => true | _ => false end.

(** [swap_preserving_version]: the new table continues the counter. *)
Definition swap_preserving_version (w : World) (new : RoutingTable) : RoutingTable :=
  with_version new (succ64 (version (current w))).
(** Fresh watchers for the new table, seeded with the files' current mtimes. *)
Definition spawn_route_watchers (mtimes : nat -> list (option Z)) (t : RoutingTable)
    : list Watcher :=
  imap (fun i _ => mkWatcher Idle (mtimes i)) (rules t).

(** One step of [resolve_udp_packet_route] for the client. *)
Definition client_step (w : World) (t : TargetAddr) : option (Client * C) :=
  match client w with
  | Waiting => Some (Versioned t (version (current w)), cache w)
  | Versioned t v =>
    let (hit, c) := lru_get (cache w) t in
    match hit with
    | Some (_, entry_version) =>
      if (entry_version =? v)%Z then Some (Waiting, c) else Some (Missed t, c)
    | None => Some (Missed t, c)
    end
  | Missed t => Some (Guarded t (length (retired w)), cache w)
  | Guarded t g => tbl ← table_at w g; Some (Walking t g (version tbl) 0, cache w)
  | Walking t g v i =>
    tbl ← table_at w g;
    match rules tbl !! i with
    | Some r =>
      if rule_matches t r then Some (Waiting, lru_put (cache w) t (decision_of r, v))
      else Some (Walking t g v (S i), cache w)
    | None => Some (Waiting, lru_put (cache w) t (default_decision tbl, v))
    end
  end.

(** The drop of a guard only sends a signal: a watcher that is at work, or whose
    sleep is over as well, does not see it before its next round, so the watchers
    of any table may still act. *)
Inductive event : Type :=
  | EPoll (k i : nat) (fs : bytes -> option bytes) (now : list (option Z))
  | EPublish (k i : nat)
  | EApply (fs : bytes -> option bytes) (cfg : RoutingTableConfig)
  | EStamp
  | EStore (mtimes : nat -> list (option Z))
  | EPacket (t : TargetAddr).

(** [rebuild_routing] is [EApply], which compiles the table and drops the old
    guard, then [EStamp] and [EStore], the two halves of
    [swap_preserving_version], the second with the new watchers. *)
Definition step (w : World) (e : event) : option World :=
  match e with
  | EPoll k i fs now =>
    c ← cell_at w k;
    r ← rules c.1 !! i;
    x ← c.2 !! i;
    x ← poll fs now (source r) x;
    Some (set_cell w k (c.1, <[i := x]> c.2))
  | EPublish k i =>
    c ← cell_at w k;
    x ← c.2 !! i;
    r ← publish i c.1 x;
    Some (set_cell w k (r.1, <[i := r.2]> c.2))
  | EApply fs cfg =>
    match rebuild w, compile fs cfg with
    | NoRebuild, Ok new =>
      Some (mkWorld (retired w) (current w) (watchers w) (GuardDropped new) (client w) (cache w))
    | _, _ => None
    end
  | EStamp =>
    match rebuild w with
    | GuardDropped new =>
      Some (mkWorld (retired w) (current w) (watchers w) (Stamped (swap_preserving_version w new))
              (client w) (cache w))
    | _ => None
    end
  | EStore mtimes =>
    match rebuild w with
    | Stamped new =>
      Some (mkWorld (retired w ++ [(current w, watchers w)]) new (spawn_route_watchers mtimes new)
              NoRebuild (client w) (cache w))
    | _ => None
    end
  | EPacket t =>
    r ← client_step w t;
    Some (mkWorld (retired w) (current w) (watchers w) (rebuild w) r.1 r.2)
  end.

(** A watcher of an outgoing table bumps its version after the rebuild has read
    it. *)
Definition late (w : World) (e : event) : bool :=
  match e with
  | EPublish k i =>
    match (c ← cell_at w k; phase <$> c.2 !! i) with
    | Some BothStored =>
      (k <? length (retired w)) || match rebuild w with Stamped _ => true | _ => false end
    | _ => false
    end
  | _ => false
  end.

(** An event that is not enabled changes nothing. *)
Definition next (w : World) (e : event) : World := default w (step w e).
Definition run (w : World) (es : list event) : World := fold_left next es w.
Fixpoint no_late_bump (w : World) (es : list event) : bool :=
  match es with
  | [] => true
  | e :: es => negb (late w e) && no_late_bump (next w e) es
  end.

Definition boot (t : RoutingTable) (mtimes : nat -> list (option Z)) : World :=
  mkWorld [] t (spawn_route_watchers mtimes t) NoRebuild Waiting lru_empty.

Definition quiescent (w : World) : Prop := forallb is_idle (watchers w) = true.

(** ** Invariant *)
Definition inverted_ok (r : CompiledRule) : Prop :=
  invert (source r) = true -> Cidr.is_empty (cidrs r) = false.
Definition loaded_ok (r : CompiledRule) (x : Watcher) : Prop :=
  match phase x with
  | Loaded cs _ => invert (source r) = true -> Cidr.is_empty cs = false
  | _ => True
  end.

(** What a decision computed under version [v] is worth. *)
Definition fresh (w : World) (t : TargetAddr) (d : RouteDecision) (v : Z) : Prop :=
  (v <= version (current w))%Z /\
  (v = version (current w) -> quiescent w -> d = resolve (current w) t).

Definition walked (w : World) (t : TargetAddr) (g : nat) (v : Z) (i : nat) : Prop :=
  (v <= version (current w))%Z /\
  (v = version (current w) -> g = length (retired w)) /\
  (v = version (current w) -> quiescent w ->
   Forall (fun r => rule_matches t r = false) (take i (rules (current w)))).

Record world_ok (n : Z) (w : World) : Prop := {
  ok_version : (0 <= version (current w) <= n)%Z;
  ok_retired : Forall (fun c => version c.1 < version (current w))%Z (retired w);
  ok_rebuild :
    match rebuild w with Stamped new => version new = version (current w) + 1 | _ => True end%Z;
  ok_cache t d v : lru_peek (cache w) t = Some (d, v) -> fresh w t d v;
  ok_client :
    match client w with
    | Guarded t g => g <= length (retired w)
    | Walking t g v i => g <= length (retired w) /\ walked w t g v i
    | _ => True
    end
}.
(** The rules of the current table, and of the one to come. *)
Record rules_ok (w : World) : Prop := {
  ok_rules : Forall inverted_ok (rules (current w));
  ok_watchers : Forall2 loaded_ok (rules (current w)) (watchers w);
  ok_new : match rebuild w with GuardDropped new | Stamped new => Forall inverted_ok (rules new) | NoRebuild => True end
}.

Lemma first_match_skip m (rs : list CompiledRule) i :
  Forall (fun r => m r = false) (take i rs) ->
  first_match m rs = match rs !! i with
                     | Some r => if m r then Some (decision_of r) else first_match m (drop (S i) rs)
                     | None => None
                     end.
Proof.
  revert i; induction rs as [|r rs IH]; intros [|i] Hf; simpl; try done.
  simpl in Hf. apply Forall_cons in Hf as [Hr Hf]. by rewrite Hr, (IH i).
Qed.

Lemma publish_version i t x r : publish i t x = Some r -> (0 <= version t)%Z ->
  (version t + 1 < 2 ^ 64)%Z ->
  version r.1 = (match phase x with BothStored => version t + 1 | _ => version t end)%Z.
Proof.
  unfold publish. intros Hp H0 Hb. destruct (phase x); simplify_eq; try done.
  simpl. unfold succ64. by rewrite Z.mod_small by lia.
Qed.

(** The state of the rules moves only while a watcher is publishing, and a
    watcher comes to rest only through the bump. *)
Lemma fresh_moved w w' t d v :
  (version (current w) <= version (current w'))%Z ->
  (version (current w') = version (current w) -> quiescent w' ->
   quiescent w /\ current w' = current w) ->
  fresh w t d v -> fresh w' t d v.
Proof.
  intros Hv Hq [Hle Hf]. split; [lia|]. intros Hcur Hi.
  destruct (Hq ltac:(lia) Hi) as [Hqw Heq]. rewrite Heq in *. auto.
Qed.

Lemma walked_moved w w' t g v i :
  (version (current w) <= version (current w'))%Z ->
  (version (current w') = version (current w) ->
   length (retired w') = length (retired w) /\
   (quiescent w' -> quiescent w /\ current w' = current w)) ->
  walked w t g v i -> walked w' t g v i.
Proof.
  intros Hv Hq (Hle & Hg & Hf). split; [lia|]. split.
  - intros Hcur. destruct (Hq ltac:(lia)) as [-> _]. apply Hg. lia.
  - intros Hcur Hi. destruct (Hq ltac:(lia)) as [_ Hqw]. destruct (Hqw Hi) as [Hqi Heq].
    rewrite Heq in *. auto.
Qed.

Lemma quiescent_set w i x y :
  watchers w !! i = Some x -> is_idle y = true ->
  forallb is_idle (<[i := y]> (watchers w)) = true ->
  is_idle x = true -> forallb is_idle (watchers w) = true.
Proof.
  intros Hx Hy Hq Hi. rewrite forallb_forall in *. intros z Hz%list_elem_of_In.
  apply list_elem_of_lookup in Hz as [j Hj]. destruct (decide (i = j)) as [<-|Hne].
  - by simplify_eq.
  - apply Hq, list_elem_of_In, list_elem_of_lookup. exists j. by rewrite list_lookup_insert_ne.
Qed.

Lemma quiescent_insert (ws : list Watcher) i y x :
  ws !! i = Some x -> forallb is_idle (<[i := y]> ws) = true -> is_idle y = true.
Proof.
  intros Hx Hq. rewrite forallb_forall in Hq. apply Hq, list_elem_of_In, list_elem_of_lookup.
  exists i. apply list_lookup_insert_eq. by eapply lookup_lt_Some.
Qed.

Lemma watcher_reload_ok fs r cs ds :
  watcher_reload fs r = Some (cs, ds) -> invert r = true -> Cidr.is_empty cs = false.
Proof.
  unfold watcher_reload. destruct (reload_rule_sets fs r) as [[a b]|]; [|done].
  intros Hr Hi. rewrite Hi in Hr. simpl in Hr. destruct (Cidr.is_empty a) eqn:E; [done|].
  by simplify_eq.
Qed.

Lemma poll_spec fs now r x y : poll fs now r x = Some y ->
  phase x = Idle /\
  (phase y = Idle \/ exists cs ds, phase y = Loaded cs ds /\ watcher_reload fs r = Some (cs, ds)).
Proof.
  unfold poll. destruct (_ && _); [done|]. destruct (phase x); try done.
  destruct (poll_mtimes _ _) as [m ch]. intros Hp. split; [done|].
  destruct ch; [|simplify_eq; by left].
  destruct (watcher_reload fs r) as [[cs ds]|]; simplify_eq; [right; eauto|by left].
Qed.

Lemma alter_insert {A} (f : A -> A) i (l : list A) x :
  l !! i = Some x -> alter f i l = <[i := f x]> l.
Proof.
  revert i; induction l as [|y l IH]; intros [|i] Hx; simplify_eq/=; [done|].
  f_equal. by apply IH.
Qed.

Lemma moved_ok n n' w w' :
  world_ok n w -> cache w' = cache w -> client w' = client w ->
  length (retired w) <= length (retired w') ->
  (version (current w) <= version (current w') <= n')%Z ->
  (version (current w') = version (current w) ->
   length (retired w') = length (retired w) /\
   (quiescent w' -> quiescent w /\ current w' = current w)) ->
  Forall (fun c => version c.1 < version (current w'))%Z (retired w') ->
  match rebuild w' with Stamped new => version new = version (current w') + 1 | _ => True end%Z ->
  world_ok n' w'.
Proof.
  intros Hw Hc Hcl Hlen Hv Hq Hr Hb. destruct Hw as [V _ _ HC HCl]. split; try done; [lia| |].
  - intros t d v Hp. rewrite Hc in Hp. apply (fresh_moved w w'); [lia| |by apply HC].
    intros. by apply Hq.
  - rewrite Hcl. destruct (client w) as [| | |t g|t g v i]; [done..|lia|].
    destruct HCl as [Hg Hwk]. split; [lia|]. apply (walked_moved w w'); [lia|done|done].
Qed.

Lemma cell_current w : cell_at w (length (retired w)) = Some (current w, watchers w).
Proof. unfold cell_at. by rewrite lookup_app_r, Nat.sub_diag. Qed.
Lemma cell_cases w k c : cell_at w k = Some c ->
  k = length (retired w) /\ c = (current w, watchers w) \/ k < length (retired w) /\ retired w !! k = Some c.
Proof.
  intros Hc. destruct (decide (k < length (retired w))) as [Hlt|Hge].
  - unfold cell_at in Hc. rewrite lookup_app_l in Hc by done. by right.
  - assert (k = length (retired w)) as ->.
    { unfold cell_at in Hc. apply lookup_lt_Some in Hc. rewrite length_app in Hc. simpl in Hc. lia. }
    rewrite cell_current in Hc. left. split; [done|congruence].
Qed.

(** A step on a table that is not the current one, its version apart. *)
Lemma retired_ok n w k c c' : world_ok n w -> retired w !! k = Some c -> version c'.1 = version c.1 ->
  world_ok n (set_cell w k c').
Proof.
  intros Hw Hk Hv. pose proof (lookup_lt_Some _ _ _ Hk) as Hlt. unfold set_cell. rewrite decide_False by lia.
  apply (moved_ok n n w); cbn [cache client retired current rebuild watchers]; try done.
  - by rewrite length_insert.
  - split; [done|apply Hw].
  - intros _. by rewrite length_insert.
  - apply Forall_insert; [apply Hw|]. rewrite Hv. exact (proj1 (Forall_lookup _ _) (ok_retired _ _ Hw) _ _ Hk).
  - apply Hw.
Qed.

Lemma poll_ok n k i fs now w w' : world_ok n w -> step w (EPoll k i fs now) = Some w' -> world_ok n w'.
Proof.
  intros Hw Hs. simpl in Hs. apply bind_Some in Hs as (c & Hc & Hs).
  apply bind_Some in Hs as (r & Hr & Hs). apply bind_Some in Hs as (x & Hx & Hs).
  apply bind_Some in Hs as (y & Hp & Hs). simplify_eq.
  apply cell_cases in Hc as [[-> ->]|[Hlt Hk]]; [|by eapply retired_ok].
  destruct (poll_spec _ _ _ _ _ Hp) as [Hix Hy]. unfold set_cell. rewrite decide_True by done.
  cbn [fst snd] in *. apply (moved_ok n n w); cbn [cache client retired current rebuild watchers]; try apply Hw; try done.
  - split; [done|apply Hw].
  - intros _. split; [done|]. intros Hq. split; [|done].
    pose proof (quiescent_insert _ _ _ _ Hx Hq) as Hyi.
    eapply quiescent_set; [exact Hx|exact Hyi|exact Hq|]. unfold is_idle. by rewrite Hix.
Qed.

Lemma publish_ok n k i w w' : world_ok n w -> (n + 1 < 2 ^ 64)%Z -> late w (EPublish k i) = false ->
  step w (EPublish k i) = Some w' -> world_ok (n + 1) w'.
Proof.
  intros Hw Hn Hlate Hs. simpl in Hs. apply bind_Some in Hs as (c & Hc & Hs).
  apply bind_Some in Hs as (x & Hx & Hs).
  assert (Hmono : forall v, world_ok n v -> world_ok (n + 1) v).
  { intros v Hv. destruct Hv. split; try done. lia. }
  apply bind_Some in Hs as (p & Hp & Hs). simplify_eq.
  unfold late in Hlate. rewrite Hc in Hlate. cbn [mbind option_bind] in Hlate. rewrite Hx in Hlate.
  cbn [fmap option_fmap option_map] in Hlate. apply cell_cases in Hc as [[-> ->]|[Hlt Hk]]; cbn [fst snd] in *.
  - unfold set_cell. rewrite decide_True by done. unfold publish in Hp.
    assert (Hst : forall t x', is_idle x' = false -> version t = version (current w) ->
      world_ok (n + 1) (mkWorld (retired w) t (<[i := x']> (watchers w)) (rebuild w) (client w) (cache w))).
    { intros t x' Hx' Hv. apply Hmono. apply (moved_ok n n w); cbn [cache client retired current rebuild watchers];
        rewrite ?Hv; try apply Hw; try done; [split; [done|apply Hw]|].
      intros _. split; [done|]. intros Hq. apply (quiescent_insert _ _ _ _ Hx) in Hq. congruence. }
    destruct (phase x) as [|cs ds|ds|]; simplify_eq; cbn [fst snd]; [by apply Hst..|].
    destruct (ok_version _ _ Hw) as [H0 Hle].
    assert (Hsucc : succ64 (version (current w)) = (version (current w) + 1)%Z)
      by (apply Z.mod_small; lia).
    apply (moved_ok n (n + 1) w); cbn [cache client retired current rebuild watchers with_version version];
      rewrite ?Hsucc; try done; [lia|lia| |].
    + eapply Forall_impl; [apply Hw|]. cbn beta. lia.
    + apply orb_false_iff in Hlate as [_ Hlate]. by destruct (rebuild w).
  - apply Hmono. eapply retired_ok; [done|exact Hk|]. unfold publish in Hp.
    destruct (phase x); simplify_eq; cbn [fst]; try done.
    apply orb_false_iff in Hlate as [Hlate _]. apply Nat.ltb_ge in Hlate. lia.
Qed.

Lemma compile_inverted_ok fs cfg t : compile fs cfg = Ok t -> Forall inverted_ok (rules t).
Proof.
  intros Hc. apply bind_Ok_inv in Hc as (cs & Hcs & Hc). apply Ok_inj in Hc as <-. simpl.
  apply compile_rules_ok in Hcs. apply Forall_lookup. intros i c Hi.
  destruct (Forall2_lookup_r _ _ _ _ _ Hcs Hi) as (r & _ & j & Hj).
  apply compile_rule_ok in Hj as (Hs & _ & _ & Hinv). unfold inverted_ok. rewrite Hs. apply Hinv.
Qed.

Lemma spawn_ok mtimes t : Forall2 loaded_ok (rules t) (spawn_route_watchers mtimes t).
Proof.
  apply Forall2_same_length_lookup_2; [by unfold spawn_route_watchers; rewrite length_imap|].
  intros i r x _ Hx. unfold spawn_route_watchers in Hx. rewrite list_lookup_imap in Hx.
  apply fmap_Some in Hx as (? & _ & ->). done.
Qed.

Lemma stamp_ok n w w' : world_ok n w -> (n + 1 < 2 ^ 64)%Z -> step w EStamp = Some w' -> world_ok n w'.
Proof.
  intros Hw Hn Hs. simpl in Hs. destruct (rebuild w) as [|new|new]; simplify_eq.
  destruct (ok_version _ _ Hw) as [H0 Hle].
  apply (moved_ok n n w); cbn [cache client retired current rebuild watchers]; try done; [apply Hw|].
  cbn. apply Z.mod_small. lia.
Qed.
Lemma store_ok n mtimes w w' : world_ok n w -> step w (EStore mtimes) = Some w' -> world_ok (n + 1) w'.
Proof.
  intros Hw Hs. simpl in Hs. pose proof (ok_rebuild _ _ Hw) as Hb. destruct (rebuild w) as [|new|new]; simplify_eq.
  destruct (ok_version _ _ Hw) as [H0 Hle].
  apply (moved_ok n (n + 1) w); cbn [cache client retired current rebuild watchers]; rewrite ?Hb, ?length_app; try done;
    try lia.
  apply Forall_app. split; [|apply Forall_singleton; cbn; lia].
  eapply Forall_impl; [apply Hw|]. cbn beta. lia.
Qed.

Lemma table_at_current w : table_at w (length (retired w)) = Some (current w).
Proof. unfold table_at. by rewrite cell_current. Qed.

Lemma table_at_version n w g tbl : world_ok n w -> table_at w g = Some tbl ->
  (version tbl <= version (current w))%Z /\
  (version tbl = version (current w) -> g = length (retired w)).
Proof.
  intros Hw Ht. unfold table_at in Ht. apply fmap_Some in Ht as (c & Hc & ->).
  apply cell_cases in Hc as [[-> ->]|[Hlt Hk]]; [done|].
  pose proof (proj1 (Forall_lookup _ _) (ok_retired _ _ Hw) _ _ Hk) as Hv. cbn beta in Hv. lia.
Qed.

(** A client step leaves the shared state alone: only the cache and the
    client's own claims are to be checked. *)
Lemma client_moved n w cl c :
  world_ok n w ->
  (forall t d v, lru_peek c t = Some (d, v) -> fresh w t d v) ->
  match cl with
  | Guarded t g => g <= length (retired w)
  | Walking t g v i => g <= length (retired w) /\ walked w t g v i
  | _ => True
  end ->
  world_ok n (mkWorld (retired w) (current w) (watchers w) (rebuild w) cl c).
Proof. intros [] Hc Hcl. by split. Qed.

Lemma put_ok n w t d v :
  world_ok n w -> fresh w t d v ->
  world_ok n (mkWorld (retired w) (current w) (watchers w) (rebuild w) Waiting (lru_put (cache w) t (d, v))).
Proof.
  intros Hw Hf. apply client_moved; [done| |done]. intros t' d' v' Hp.
  apply lru_put_keeps in Hp as [[-> [= -> ->]]|Hp]; [done|]. by apply (ok_cache _ _ Hw).
Qed.

Lemma packet_ok n t w w' : world_ok n w -> step w (EPacket t) = Some w' -> world_ok n w'.
Proof.
  intros Hw Hs. simpl in Hs. apply bind_Some in Hs as (r & Hr & Hs). simplify_eq.
  unfold client_step in Hr. pose proof (ok_client _ _ Hw) as Hcl.
  destruct (client w) as [|u v|u|u g|u g v i]; simplify_eq; cbn [fst snd].
  - by apply client_moved; [|apply Hw|].
  - destruct (lru_get (cache w) u) as [hit c] eqn:Hg.
    assert (Hc : forall t d v, lru_peek c t = Some (d, v) -> fresh w t d v).
    { intros t' d' v' Hp. apply (ok_cache _ _ Hw). eapply lru_get_keeps. by rewrite Hg. }
    destruct hit as [[d ev]|]; [destruct (ev =? v)%Z|]; simplify_eq; by apply client_moved.
  - apply client_moved; [done|apply Hw|]. simpl. lia.
  - apply bind_Some in Hr as (tbl & Ht & Hr). simplify_eq. apply client_moved; [done|apply Hw|].
    destruct (table_at_version _ _ _ _ Hw Ht) as [Hv Hgv]. split; [done|].
    split; [done|]. split; [done|]. intros _ _. constructor.
  - apply bind_Some in Hr as (tbl & Ht & Hr). destruct Hcl as [Hg (Hv & Hgv & Hwk)].
    assert (Htbl : v = version (current w) -> tbl = current w).
    { intros Hvc. rewrite (Hgv Hvc), table_at_current in Ht. by simplify_eq. }
    destruct (rules tbl !! i) as [r'|] eqn:Hri; [destruct (rule_matches u r') eqn:Hm|];
      simplify_eq; cbn [fst snd].
    + apply put_ok; [done|]. split; [done|]. intros Hvc Hq. specialize (Htbl Hvc). subst tbl.
      by rewrite resolve_first_match, (first_match_skip _ _ i (Hwk Hvc Hq)), Hri, Hm.
    + apply client_moved; [done|apply Hw|]. split; [done|]. split; [done|]. split; [done|].
      intros Hvc Hq. specialize (Htbl Hvc). subst tbl. rewrite (take_S_r _ _ r') by done.
      apply Forall_app. split; [by apply Hwk|by apply Forall_singleton].
    + apply put_ok; [done|]. split; [done|]. intros Hvc Hq. specialize (Htbl Hvc). subst tbl.
      by rewrite resolve_first_match, (first_match_skip _ _ i (Hwk Hvc Hq)), Hri.
Qed.

Lemma world_step_ok n w e : world_ok n w -> (n + 1 < 2 ^ 64)%Z -> late w e = false -> world_ok (n + 1) (next w e).
Proof.
  intros Hw Hn Hl. assert (Hmono : forall v, world_ok n v -> world_ok (n + 1) v)
    by (intros v []; split; try done; lia).
  unfold next. destruct (step w e) as [w'|] eqn:Hs; cbn [default]; [|by apply Hmono].
  destruct e as [k i fs now|k i|fs cfg| |mtimes|t].
  - apply Hmono. by eapply poll_ok.
  - by eapply publish_ok.
  - apply Hmono. cbn in Hs. destruct (rebuild w); try done. destruct (compile fs cfg) as [new|]; simplify_eq.
    by destruct Hw; split.
  - apply Hmono. by eapply stamp_ok.
  - by eapply store_ok.
  - apply Hmono. by eapply packet_ok.
Qed.

Lemma world_run_ok n w es : world_ok n w -> (n + Z.of_nat (length es) < 2 ^ 64)%Z -> no_late_bump w es = true ->
  world_ok (n + Z.of_nat (length es)) (run w es).
Proof.
  revert n w; induction es as [|e es IH]; intros n w Hw Hn Hl.
  - cbn [length]. by rewrite Z.add_0_r.
  - cbn [length no_late_bump] in *. rewrite Nat2Z.inj_succ in *. apply andb_true_iff in Hl as [Hl Hls].
    apply negb_true_iff in Hl.
    replace (n + Z.succ (Z.of_nat (length es)))%Z with (n + 1 + Z.of_nat (length es))%Z by lia.
    apply (IH (n + 1)%Z); [|lia|done]. apply world_step_ok; [done|lia|done].
Qed.

(** The rules, whatever the versions do. *)
Lemma set_cell_rules w k i c r x r' x' t' : rules_ok w -> cell_at w k = Some c -> rules c.1 !! i = Some r -> c.2 !! i = Some x ->
  (inverted_ok r -> loaded_ok r x -> inverted_ok r' /\ loaded_ok r' x') -> rules t' = <[i := r']> (rules c.1) ->
  rules_ok (set_cell w k (t', <[i := x']> c.2)).
Proof.
  intros [Hr Hw Hn] Hc Hri Hxi Hk Ht. apply cell_cases in Hc as [[-> ->]|[Hlt _]]; unfold set_cell.
  - rewrite decide_True by done. cbn [fst snd] in *.
    destruct (Hk (proj1 (Forall_lookup _ _) Hr _ _ Hri) (Forall2_lookup_lr _ _ _ _ _ _ Hw Hri Hxi)) as [H1 H2].
    split; cbn [current watchers rebuild]; rewrite ?Ht; [by apply Forall_insert|by apply Forall2_insert|done].
  - rewrite decide_False by lia. by split.
Qed.
Lemma rules_step_ok w e : rules_ok w -> rules_ok (next w e).
Proof.
  intros Hw. unfold next. destruct (step w e) as [w'|] eqn:Hs; cbn [default]; [|done].
  destruct e as [k i fs now|k i|fs cfg| |mtimes|t]; cbn in Hs.
  - apply bind_Some in Hs as (c & Hc & Hs). apply bind_Some in Hs as (r & Hr & Hs).
    apply bind_Some in Hs as (x & Hx & Hs). apply bind_Some in Hs as (y & Hp & Hs). simplify_eq.
    apply (set_cell_rules w k i c r x r); try done; [|by rewrite list_insert_id].
    intros Hi _. split; [done|]. unfold loaded_ok. destruct (poll_spec _ _ _ _ _ Hp) as [_ [->|(cs & ds & -> & Hrl)]]; [done|].
    intros Hinv. by eapply watcher_reload_ok.
  - apply bind_Some in Hs as (c & Hc & Hs). apply bind_Some in Hs as (x & Hx & Hs).
    apply bind_Some in Hs as (p & Hp & Hs). simplify_eq. destruct Hw as [Hr Hwt Hn].
    assert (Hsame : forall w', current w' = current w -> watchers w' = watchers w -> rebuild w' = rebuild w -> rules_ok w')
      by (intros w' H1 H2 H3; split; by rewrite ?H1, ?H2, ?H3).
    pose proof (cell_cases _ _ _ Hc) as [[-> ->]|[Hlt _]];
      [|apply Hsame; unfold set_cell; by rewrite decide_False by lia]. cbn [fst snd] in *.
    destruct (Forall2_lookup_r _ _ _ _ _ Hwt Hx) as (r & Hri & _).
    unfold publish in Hp. destruct (phase x) as [|cs ds|ds|] eqn:Eph; simplify_eq; cbn [fst snd].
    + eapply (set_cell_rules w _ i (current w, watchers w)); [done|exact Hc|exact Hri|exact Hx| |by apply alter_insert].
      unfold loaded_ok, inverted_ok. rewrite Eph. done.
    + eapply (set_cell_rules w _ i (current w, watchers w)); [done|exact Hc|exact Hri|exact Hx| |by apply alter_insert]. done.
    + eapply (set_cell_rules w _ i (current w, watchers w)); [done|exact Hc|exact Hri|exact Hx| |by rewrite list_insert_id]. done.
  - destruct (rebuild w); try done. destruct (compile fs cfg) as [new|] eqn:Hcp; simplify_eq.
    destruct Hw as [Hr Hwt _]. split; try done. by eapply compile_inverted_ok.
  - destruct Hw as [Hr Hwt Hn]. by destruct (rebuild w) as [|new|new]; simplify_eq.
  - destruct Hw as [Hr Hwt Hn]. destruct (rebuild w) as [|new|new]; simplify_eq. split; try done. apply spawn_ok.
  - apply bind_Some in Hs as (r & _ & Hs). simplify_eq. by destruct Hw.
Qed.
Lemma rules_run_ok w es : rules_ok w -> rules_ok (run w es).
Proof. revert w; induction es as [|e es IH]; intros w Hw; [done|]. by apply (IH (next w e)), rules_step_ok. Qed.

Lemma boot_ok fs cfg t mtimes : compile fs cfg = Ok t -> world_ok 0 (boot t mtimes) /\ rules_ok (boot t mtimes).
Proof.
  intros Hc. assert (version t = 0%Z).
  { apply bind_Ok_inv in Hc as (cs & _ & Hc). by apply Ok_inj in Hc as <-. }
  split; split; simpl; try done; [lia| |by eapply compile_inverted_ok|apply spawn_ok].
  intros ? ? ? Hp. by rewrite lru_peek_empty in Hp.
Qed.
End world.

(** ** An LRU of bounded size, most recent first *)
Section lru.
Context {V : Type} (cap : nat).

Fixpoint assoc (c : list (TargetAddr * V)) (k : TargetAddr) : option V :=
  match c with
  | [] => None
  | (k', v) :: c => if bool_decide (k = k') then Some v else assoc c k
  end.
Definition without (c : list (TargetAddr * V)) (k : TargetAddr) : list (TargetAddr * V) :=
  List.filter (fun e => negb (bool_decide (e.1 = k))) c.

Lemma assoc_without c k k' : assoc (without c k) k' = if bool_decide (k' = k) then None else assoc c k'.
Proof.
  induction c as [|[k1 v1] c IH]; simpl; [by case_bool_decide|].
  destruct (bool_decide_reflect (k1 = k)) as [->|Hne]; simpl; rewrite IH;
    repeat case_bool_decide; by simplify_eq.
Qed.

Lemma assoc_take n c k v : assoc (take n c) k = Some v -> assoc c k = Some v.
Proof.
  revert n; induction c as [|[k1 v1] c IH]; intros [|n]; simpl; try done.
  case_bool_decide; [done|apply IH].
Qed.
End lru.

Definition UDP_ROUTE_CACHE_CAP : nat := 1024.

#[export, refine] Instance lru_list {V} : LruCache (list (TargetAddr * V)) V := {|
  lru_empty := [];
  lru_peek := assoc;
  lru_get c k :=
    match assoc c k with Some v => (Some v, (k, v) :: without c k) | None => (None, c) end;
  lru_put c k v := take UDP_ROUTE_CACHE_CAP ((k, v) :: without c k)
|}.
Proof.
  - done.
  - intros c k. by destruct (assoc c k).
  - intros c k k' v. destruct (assoc c k) as [u|] eqn:E; cbn [snd assoc]; [|done].
    rewrite assoc_without. case_bool_decide; [congruence|done].
  - intros c k v k' v' Hp. apply assoc_take in Hp. cbn [assoc] in Hp. rewrite assoc_without in Hp.
    case_bool_decide; [left; split; congruence|by right].
Defined.

(** ** Properties *)

(** C31: a cached route is never stale. However polls, publications, table swaps
    and packets interleave, the watchers of swapped-out tables that have not yet
    seen their shutdown included, an entry tagged with the current version
    holds, whenever no watcher of the current table is between its stores,
    exactly what the current table would decide now; and no entry is tagged with
    a version from the future. It is assumed that no watcher of an outgoing
    table bumps its version after the swap has read it - the residual window
    [rebuild_routing] owns up to in its comment, in which an entry can be stale
    - and that the run is shorter than the 64-bit counter. *)
Theorem route_cache_fresh `{UnstableSort} {C : Type} `{!LruCache C (RouteDecision * Z)}
    (fs : bytes -> option bytes) (cfg : RoutingTableConfig) (tbl : RoutingTable)
    (mtimes : nat -> list (option Z)) (es : list event) (t : TargetAddr) (d : RouteDecision) (v : Z) :
  let w := run (boot (C := C) tbl mtimes) es in
  compile fs cfg = Ok tbl -> (Z.of_nat (length es) < 2 ^ 64)%Z ->
  no_late_bump (boot (C := C) tbl mtimes) es = true ->
  lru_peek (cache w) t = Some (d, v) ->
  (v <= version (current w))%Z /\
  (v = version (current w) -> quiescent w -> d = resolve (current w) t).
Proof.
  intros w Hc Hn Hl Hp. pose proof (world_run_ok 0 _ es (proj1 (boot_ok fs cfg tbl mtimes Hc))) as Hw.
  rewrite Z.add_0_l in Hw. by apply (ok_cache _ _ (Hw Hn Hl)).
Qed.

Definition watched_config : RoutingTableConfig :=
  mkConfig [mkRule [] [str "ru.lst"] [] [] 1000 Direct None false] (Group (str "main")) None.
Definition later_files (path : bytes) : option bytes := Some (str "10.0.0.0/8").
Definition example_run : list event :=
  let t := IpV4 [x0a; x01; x01; x01] 443 in
  replicate 6 (EPacket t) ++
  [EPoll 0 0 later_files [Some 9%Z]; EPublish 0 0; EPacket t; EPublish 0 0; EPublish 0 0] ++
  replicate 6 (EPacket t).

Lemma route_cache_fresh_witness :
  exists tbl, compile example_files watched_config = Ok tbl /\
    let w := run (boot (C := list (TargetAddr * (RouteDecision * Z))) tbl (fun _ => [Some 1%Z])) example_run in
    lru_peek (cache w) (IpV4 [x0a; x01; x01; x01] 443) = Some (mkDecision Direct None, 1%Z) /\
    mkDecision Direct None = resolve (current w) (IpV4 [x0a; x01; x01; x01] 443).
Proof.
  destruct (compile example_files watched_config) as [tbl|e] eqn:E; [|vm_compute in E; discriminate].
  exists tbl. split; [done|]. cbv zeta.
  assert (Hp : lru_peek (cache (run (boot (C := list (TargetAddr * (RouteDecision * Z))) tbl (fun _ => [Some 1%Z])) example_run))
    (IpV4 [x0a; x01; x01; x01] 443) = Some (mkDecision Direct None, 1%Z)).
  { vm_compute in E. apply Ok_inj in E as <-. vm_compute. reflexivity. }
  split; [exact Hp|].
  refine (proj2 (route_cache_fresh example_files watched_config tbl _ example_run _ _ 1 E _ _ Hp) _ _).
  - reflexivity.
  - clear Hp. vm_compute in E. apply Ok_inj in E as <-. vm_compute. reflexivity.
  - clear Hp. vm_compute in E. apply Ok_inj in E as <-. vm_compute. reflexivity.
  - clear Hp. vm_compute in E. apply Ok_inj in E as <-. vm_compute. reflexivity.
Defined.

(** An inverted rule never holds an empty CIDR set, neither as compiled nor
    after any sequence of polls, reloads and swaps, so it never degenerates
    into a rule that takes every address. *)
Theorem inverted_never_empty `{UnstableSort} {C : Type} `{!LruCache C (RouteDecision * Z)}
    (fs : bytes -> option bytes) (cfg : RoutingTableConfig) (tbl : RoutingTable)
    (mtimes : nat -> list (option Z)) (es : list event) (r : CompiledRule) :
  compile fs cfg = Ok tbl ->
  r ∈ rules (current (run (boot (C := C) tbl mtimes) es)) -> invert (source r) = true ->
  Cidr.is_empty (cidrs r) = false.
Proof.
  intros Hc Hr. pose proof (rules_run_ok _ es (proj2 (boot_ok (C := C) fs cfg tbl mtimes Hc))) as Hw.
  by apply (proj1 (Forall_forall _ _) (ok_rules _ Hw)).
Qed.

Definition inverted_config : RoutingTableConfig :=
  mkConfig [mkRule [] [str "ru.lst"] [] [str "ru.domains"] 1000 Direct None true] Drop None.
Definition inverted_files (path : bytes) : option bytes :=
  if bool_decide (path = str "ru.lst") then Some (str "5.8.0.0/16") else Some [].
Definition emptied_files (path : bytes) : option bytes := Some [].

Lemma inverted_never_empty_witness :
  exists r tbl, compile inverted_files inverted_config = Ok tbl /\
    r ∈ rules (current (run (boot (C := list (TargetAddr * (RouteDecision * Z))) tbl (fun _ => [None; None]))
      [EPoll 0 0 emptied_files [Some 1%Z; None]; EPublish 0 0])) /\
    Cidr.is_empty (cidrs r) = false.
Proof.
  destruct (compile inverted_files inverted_config) as [[[|r rs] dt df ve]|e] eqn:E;
    [vm_compute in E; discriminate| |vm_compute in E; discriminate].
  exists r, (mkTable (r :: rs) dt df ve). split; [done|].
  assert (Hr : r ∈ rules (current (run (boot (C := list (TargetAddr * (RouteDecision * Z)))
    (mkTable (r :: rs) dt df ve) (fun _ => [None; None]))
      [EPoll 0 0 emptied_files [Some 1%Z; None]; EPublish 0 0]))).
  { vm_compute in E. injection E as <- <- <- <- <-. vm_compute. left. }
  split; [exact Hr|].
  refine (inverted_never_empty inverted_files inverted_config _ _ _ r E Hr _).
  clear Hr. vm_compute in E. injection E as <- <- <- <- <-. reflexivity.
Defined.

(** Compilation refuses an inverted rule with domains, the reload does not: a
    domain file that was empty at compile time may gain entries, and the rule
    then takes domain targets although it is inverted. *)
Definition grown_files (path : bytes) : option bytes :=
  if bool_decide (path = str "ru.lst") then Some (str "5.8.0.0/16") else Some (str "example.com").

Example reload_accepts_inverted_domains :
  match compile inverted_files inverted_config with
  | Ok tbl =>
    let w := run (boot (C := list (TargetAddr * (RouteDecision * Z))) tbl (fun _ => [None; None]))
      [EPoll 0 0 grown_files [None; Some 1%Z]; EPublish 0 0; EPublish 0 0; EPublish 0 0] in
    quiescent w /\
    match rules (current w) with
    | [r] => invert (source r) = true /\ DomainSet.is_empty (domains r) = false /\
             rule_matches (Domain (str "example.com") 80) r = true
    | _ => False
    end
  | Err _ => False
  end.
Proof. vm_compute. done. Qed.
Example compile_refuses_inverted_domains :
  compile grown_files inverted_config = Err (InRule 1 InvertWithDomains).
Proof. vm_compute. done. Qed.

(** The residual window: a watcher at work when the table is swapped bumps the
    old version after the swap has read it, and what is resolved on the old
    table then is tagged with the version of the new one. *)
Definition late_run : list event :=
  let t := IpV4 [x0a; x01; x01; x01] 443 in
  [EPoll 0 0 later_files [Some 9%Z]; EPublish 0 0; EPublish 0 0;
   EApply later_files (mkConfig [] Drop None); EStamp; EPublish 0 0] ++ replicate 6 (EPacket t) ++ [EStore (fun _ => [])].
Example late_bump_leaves_a_stale_entry :
  match compile example_files watched_config with
  | Ok tbl =>
    let w0 := boot (C := list (TargetAddr * (RouteDecision * Z))) tbl (fun _ => [Some 1%Z]) in
    let w := run w0 late_run in
    let t := IpV4 [x0a; x01; x01; x01] 443 in
    no_late_bump w0 late_run = false /\ quiescent w
    /\ lru_peek (cache w) t = Some (mkDecision Direct None, version (current w)) /\ resolve (current w) t = mkDecision Drop None
  | Err _ => False
  end.
Proof. vm_compute. split_and!; reflexivity. Qed.
