(* ===== verification/IpPacket.v ===== *)
(** IP headers of the TUN device ([crates/outline-tun/src/wire/mod.rs]): the
    internet checksum over a list of parts, the walk over the IPv6 extension
    headers, and the in-place recomputation of a TCP or UDP checksum.

    The checksum is compared with the textbook one: the ones' complement sum of
    the big-endian 16-bit words of the parts put end to end. *)
From S2P Require Import Prelude.
Local Open Scope Z_scope.

Definition IPV4_HEADER_LEN : nat := 20.
Definition IPV6_HEADER_LEN : nat := 40.
Definition IPV6_NEXT_HEADER_HOP_BY_HOP : byte := u8 0.
Definition IPV6_NEXT_HEADER_TCP : byte := u8 6.
Definition IPV6_NEXT_HEADER_UDP : byte := u8 17.
Definition IPV6_NEXT_HEADER_ROUTING : byte := u8 43.
Definition IPV6_NEXT_HEADER_FRAGMENT : byte := u8 44.
Definition IPV6_NEXT_HEADER_AUTH : byte := u8 51.
Definition IPV6_NEXT_HEADER_ICMPV6 : byte := u8 58.
Definition IPV6_NEXT_HEADER_NONE : byte := u8 59.
Definition IPV6_NEXT_HEADER_DESTINATION_OPTIONS : byte := u8 60.

Inductive IpVersion : Type := V4 | V6.
#[export] Instance IpVersion_eq_dec : EqDecision IpVersion.
Proof. solve_decision. Defined.

Abbreviation outcome := (result String.string).

(** ** The internet checksum *)

(** The eight-byte chunks of a part, the sum they leave and the remainder. *)
Fixpoint sum_chunks (sum : Z) (l : bytes) : Z * bytes :=
  match l with
  | a :: b :: c :: d :: e :: f :: g :: h :: rest =>
    let word := be_val [a; b; c; d; e; f; g; h] in
    let sum := sum + Z.shiftr word 32 in
    let sum := sum + Z.land word 0xffffffff in
    sum_chunks sum rest
  | rem => (sum, rem)
  end.

(** The remainder, word by word, and the odd byte left pending. *)
Fixpoint sum_words (sum : Z) (rem : bytes) : Z * option byte :=
  match rem with
  | a :: b :: rem => sum_words (sum + be_val [a; b]) rem
  | [a] => (sum, Some a)
  | [] => (sum, None)
  end.

Definition checksum_part (st : Z * option byte) (part : bytes) : Z * option byte :=
  let (sum, pending) := st in
  match pending, part with
  | Some high, [] => (sum, pending)
  | Some high, low :: rest =>
    let (sum, rem) := sum_chunks (sum + be_val [high; low]) rest in
    sum_words sum rem
  | None, _ =>
    let (sum, rem) := sum_chunks sum part in
    sum_words sum rem
  end.

(** The carry loop; a [u64] is below [2^16] after five rounds. *)
Fixpoint fold_carry (fuel : nat) (sum : Z) : Z :=
  match fuel with
  | O => sum
  | S fuel =>
    if Z.shiftr sum 16 =? 0 then sum
    else fold_carry fuel (Z.land sum 0xffff + Z.shiftr sum 16)
  end.

Definition checksum16_parts (parts : list bytes) : Z :=
  let (sum, pending) := foldl checksum_part (0, None) parts in
  let sum := match pending with Some high => sum + be_val [high; x00] | None => sum end in
  Z.lnot (fold_carry 5 sum) mod 2 ^ 16.
Definition checksum16 (data : bytes) : Z := checksum16_parts [data].

Definition ipv4_payload_checksum (source destination : bytes) (protocol : byte) (payload : bytes)
    : Z :=
  checksum16_parts [source; destination; [x00; protocol]; be_bytes 2 (zlen payload); payload].
Definition ipv6_payload_checksum (source destination : bytes) (next_header : byte) (payload : bytes)
    : Z :=
  checksum16_parts
    [source; destination; be_bytes 4 (zlen payload); [x00; x00; x00; next_header]; payload].

(** ** The IPv6 extension headers *)
Record Ipv6PayloadInfo : Type := mkInfo {
  next_header : byte;
  payload_offset : nat;
  total_len : nat;
  next_header_field_offset : nat
}.

Inductive HeaderKind : Type := UpperLayer | Extension | Authentication.
Definition header_kind (h : byte) : HeaderKind :=
  if bool_decide (h ∈ [IPV6_NEXT_HEADER_TCP; IPV6_NEXT_HEADER_UDP; IPV6_NEXT_HEADER_ICMPV6;
                       IPV6_NEXT_HEADER_FRAGMENT; IPV6_NEXT_HEADER_NONE]) then UpperLayer
  else if bool_decide (h ∈ [IPV6_NEXT_HEADER_HOP_BY_HOP; IPV6_NEXT_HEADER_ROUTING;
                            IPV6_NEXT_HEADER_DESTINATION_OPTIONS]) then Extension
  else if bool_decide (h = IPV6_NEXT_HEADER_AUTH) then Authentication
  else UpperLayer.

Definition out_of_fuel : String.string := "out of fuel".

(** The loop. Every extension header takes at least eight bytes of the packet,
    so the total length is fuel enough. *)
Fixpoint walk_headers (fuel : nat) (packet : bytes) (total_len : nat) (next_header : byte)
    (field_offset offset : nat) : outcome Ipv6PayloadInfo :=
  match fuel with
  | O => Err out_of_fuel
  | S fuel =>
    match header_kind next_header with
    | UpperLayer => Ok (mkInfo next_header offset total_len field_offset)
    | Extension =>
      if (total_len <? offset + 2)%nat then Err "truncated IPv6 extension header"%string
      else
        let header_len := ((Z.to_nat (b2z (packet !!! (offset + 1)%nat)) + 1) * 8)%nat in
        if ((header_len <? 8)%nat || (total_len <? offset + header_len)%nat)
        then Err "invalid IPv6 extension header length"%string
        else walk_headers fuel packet total_len (packet !!! offset) offset (offset + header_len)
    | Authentication =>
      if (total_len <? offset + 2)%nat then Err "truncated IPv6 authentication header"%string
      else
        let header_len := ((Z.to_nat (b2z (packet !!! (offset + 1)%nat)) + 2) * 4)%nat in
        if ((header_len <? 8)%nat || (total_len <? offset + header_len)%nat)
        then Err "invalid IPv6 authentication header length"%string
        else walk_headers fuel packet total_len (packet !!! offset) offset (offset + header_len)
    end
  end.

Definition locate_ipv6_payload (packet : bytes) : outcome Ipv6PayloadInfo :=
  if (length packet <? IPV6_HEADER_LEN)%nat then Err "short IPv6 packet"%string
  else
    let payload_len := Z.to_nat (be_val [packet !!! 4%nat; packet !!! 5%nat]) in
    let total_len := (IPV6_HEADER_LEN + payload_len)%nat in
    if (length packet <? total_len)%nat then Err "truncated IPv6 packet"%string
    else walk_headers (S total_len) packet total_len (packet !!! 6%nat) 6 IPV6_HEADER_LEN.

Definition locate_ipv6_upper_layer (packet : bytes) : outcome (byte * nat * nat) :=
  info ← locate_ipv6_payload packet;
  Ok (next_header info, payload_offset info, total_len info).

(** ** Recomputing a transport checksum in place *)
Inductive L4Checksum : Type := Unverified | Recomputed.

Definition transport_checksum_field_offset (protocol : byte) : option nat :=
  if bool_decide (protocol = IPV6_NEXT_HEADER_TCP) then Some 16%nat
  else if bool_decide (protocol = IPV6_NEXT_HEADER_UDP) then Some 6%nat
  else None.

(** The field zeroed, the checksum over the segment, the value written; a UDP
    checksum of zero is sent as all ones. *)
Definition rewrite_field (checksum : bytes -> Z) (protocol : byte) (packet : bytes)
    (segment_start field total_len : nat) : bytes :=
  let packet := splice packet (segment_start + field) [x00; x00] in
  let c := checksum (slice packet segment_start total_len) in
  let c := if bool_decide (protocol = IPV6_NEXT_HEADER_UDP) && (c =? 0) then 0xffff else c in
  splice packet (segment_start + field) (be_bytes 2 c).

Definition recompute_ipv4_transport_checksum (packet : bytes) : bytes * bool :=
  if (length packet <? IPV4_HEADER_LEN)%nat then (packet, false)
  else
    let ihl := (Z.to_nat (Z.land (b2z (packet !!! 0%nat)) 0x0f) * 4)%nat in
    let total_len := Z.to_nat (be_val [packet !!! 2%nat; packet !!! 3%nat]) in
    if ((ihl <? IPV4_HEADER_LEN)%nat || (total_len <? ihl)%nat || (length packet <? total_len)%nat)
    then (packet, false)
    else
      let fragment_field := be_val [packet !!! 6%nat; packet !!! 7%nat] in
      if negb (Z.land fragment_field 0x3fff =? 0) then (packet, false)
      else
        let protocol := packet !!! 9%nat in
        match transport_checksum_field_offset protocol with
        | None => (packet, false)
        | Some field =>
          if (total_len <? ihl + field + 2)%nat then (packet, false)
          else
            (rewrite_field
               (ipv4_payload_checksum (slice packet 12 16) (slice packet 16 20) protocol)
               protocol packet ihl field total_len, true)
        end.

Definition recompute_ipv6_transport_checksum (packet : bytes) : bytes * bool :=
  match locate_ipv6_upper_layer packet with
  | Err _ => (packet, false)
  | Ok (next_header, l4_offset, total_len) =>
    if bool_decide (next_header = IPV6_NEXT_HEADER_FRAGMENT) then (packet, false)
    else
      match transport_checksum_field_offset next_header with
      | None => (packet, false)
      | Some field =>
        if ((total_len <? l4_offset + field + 2)%nat || (length packet <? total_len)%nat)
        then (packet, false)
        else
          (rewrite_field
             (ipv6_payload_checksum (slice packet 8 24) (slice packet 24 40) next_header)
             next_header packet l4_offset field total_len, true)
      end
  end.

Definition recompute_transport_checksum (packet : bytes) : bytes * L4Checksum :=
  let (packet, recomputed) :=
    match packet with
    | [] => (packet, false)
    | b :: _ =>
      if Z.shiftr (b2z b) 4 =? 4 then recompute_ipv4_transport_checksum packet
      else if Z.shiftr (b2z b) 4 =? 6 then recompute_ipv6_transport_checksum packet
      else (packet, false)
    end in
  (packet, if (recomputed : bool) then Recomputed else Unverified).

(** ** The ones' complement sum

    [oc s] is the representative of [s] the carry loop ends on: zero for zero,
    otherwise the residue modulo 65535 in [1 .. 65535]. *)
Definition oc (s : Z) : Z := if s =? 0 then 0 else (s - 1) mod 65535 + 1.

(** The 16-bit big-endian words of [l], the last one padded. *)
Fixpoint words16 (l : bytes) : Z :=
  match l with
  | a :: b :: l => 256 * b2z a + b2z b + words16 l
  | [a] => 256 * b2z a
  | [] => 0
  end.

Lemma words16_nonneg l : 0 <= words16 l.
Proof.
  revert l. fix IH 1. intros [|a [|b l]]; cbn [words16]; [lia| |].
  - pose proof (b2z_range a). lia.
  - pose proof (b2z_range a). pose proof (b2z_range b). pose proof (IH l). lia.
Qed.
#[export] Hint Resolve words16_nonneg : bounds.

Lemma be_val_word a b : be_val [a; b] = 256 * b2z a + b2z b.
Proof. unfold be_val. cbn [be_acc]. lia. Qed.

Lemma words16_app l1 l2 : Nat.even (length l1) = true -> words16 (l1 ++ l2) = words16 l1 + words16 l2.
Proof.
  revert l1. fix IH 1. intros [|a [|b l1]] H; cbn [words16 app length Nat.even] in *; [lia|done|].
  rewrite (IH l1 H). lia.
Qed.

Lemma oc_congr s t k : 0 < s -> 0 < t -> s - t = 65535 * k -> oc s = oc t.
Proof.
  intros Hs Ht H. unfold oc.
  destruct (Z.eqb_spec s 0); [lia|]. destruct (Z.eqb_spec t 0); [lia|]. f_equal.
  replace (s - 1) with (t - 1 + k * 65535) by lia. apply Z_mod_plus_full.
Qed.

Lemma oc_small s : 0 <= s <= 65535 -> oc s = s.
Proof.
  intros H. unfold oc. destruct (Z.eqb_spec s 0); [done|]. rewrite Z.mod_small by lia. lia.
Qed.

Lemma oc_range s : 0 <= s -> 0 <= oc s <= 65535.
Proof.
  intros H. unfold oc. destruct (s =? 0); [lia|].
  pose proof (Z.mod_pos_bound (s - 1) 65535 ltac:(lia)). lia.
Qed.

Lemma oc_decomp s : 0 <= s -> exists k, s - oc s = 65535 * k /\ (0 < s -> 0 < oc s).
Proof.
  intros H. unfold oc. destruct (Z.eqb_spec s 0) as [->|Hs]; [by exists 0|].
  exists ((s - 1) / 65535). pose proof (Z.div_mod (s - 1) 65535 ltac:(lia)).
  pose proof (Z.mod_pos_bound (s - 1) 65535 ltac:(lia)). lia.
Qed.

(** One round of the carry loop. *)
Lemma carry_round s : 0 <= s -> Z.land s 0xffff + Z.shiftr s 16 = s mod 65536 + s / 65536.
Proof.
  intros H. change 0xffff with (Z.ones 16). rewrite Z.land_ones, Z.shiftr_div_pow2 by lia.
  reflexivity.
Qed.

Lemma oc_carry s : 0 <= s -> oc (s mod 65536 + s / 65536) = oc s.
Proof.
  intros H. destruct (Z.eqb_spec s 0) as [->|Hs]; [done|].
  pose proof (Z.div_mod s 65536 ltac:(lia)). pose proof (Z.mod_pos_bound s 65536 ltac:(lia)).
  pose proof (Z.div_pos s 65536 ltac:(lia) ltac:(lia)).
  apply (oc_congr _ _ (- (s / 65536))); lia.
Qed.

(** Five rounds settle a [u64]. *)
Definition carry (s : Z) : Z := s mod 65536 + s / 65536.
Lemma carry_bound s q : 0 <= s < 65536 * q -> 0 <= carry s < 65535 + q.
Proof.
  intros H. unfold carry. pose proof (Z.mod_pos_bound s 65536 ltac:(lia)).
  pose proof (Z.div_pos s 65536 ltac:(lia) ltac:(lia)).
  pose proof (Z.div_lt_upper_bound s 65536 q ltac:(lia) ltac:(lia)). lia.
Qed.

Lemma fold_carry_step fuel s : 0 <= s -> 65536 <= s -> fold_carry (S fuel) s = fold_carry fuel (carry s).
Proof.
  intros H H1. cbn [fold_carry]. rewrite carry_round by done.
  rewrite Z.shiftr_div_pow2 by lia. change (2 ^ 16) with 65536.
  pose proof (Z.div_le_lower_bound s 65536 1 ltac:(lia) ltac:(lia)).
  destruct (Z.eqb_spec (s / 65536) 0); [lia|done].
Qed.

Lemma fold_carry_done fuel s : 0 <= s < 65536 -> fold_carry fuel s = s.
Proof.
  intros H. destruct fuel; [done|]. cbn [fold_carry]. rewrite Z.shiftr_div_pow2 by lia.
  by rewrite Z.div_small by (change (2 ^ 16) with 65536; lia).
Qed.

Lemma fold_carry_more fuel s q : 0 <= s < 65536 * q ->
  (forall s', 0 <= s' < 65535 + q -> fold_carry fuel s' = oc s') ->
  fold_carry (S fuel) s = oc s.
Proof.
  intros Hs IH. destruct (Z.le_gt_cases 65536 s).
  - rewrite fold_carry_step by lia. rewrite IH by (by apply carry_bound). apply oc_carry. lia.
  - rewrite fold_carry_done by lia. symmetry. apply oc_small. lia.
Qed.

Lemma fold_carry_u64 s : 0 <= s < 2 ^ 64 -> fold_carry 5 s = oc s.
Proof.
  intros H. apply (fold_carry_more 4 s (2 ^ 48)); [lia|]. intros s1 H1.
  apply (fold_carry_more 3 s1 (2 ^ 32 + 1)); [lia|]. intros s2 H2.
  apply (fold_carry_more 2 s2 (2 ^ 16 + 2)); [lia|]. intros s3 H3.
  apply (fold_carry_more 1 s3 3); [lia|]. intros s4 H4.
  destruct (Z.le_gt_cases 65536 s4); [|by rewrite fold_carry_done, oc_small by lia].
  rewrite fold_carry_step by lia. cbn [fold_carry]. rewrite <- (oc_carry s4) by lia.
  symmetry. apply oc_small. unfold carry. Z.div_mod_to_equations. lia.
Qed.

(** ** The parts, word by word *)

Lemma oc_add s t : 0 <= s -> 0 <= t -> oc (oc s + t) = oc (s + t).
Proof.
  intros Hs Ht. destruct (oc_decomp s Hs) as (k & Hk & Hp). pose proof (oc_range s Hs).
  destruct (Z.eqb_spec s 0) as [->|]; [done|]. apply (oc_congr _ _ (- k)); lia.
Qed.

Lemma chunk_word s (a b c d e f g h : byte) x : 0 <= s -> 0 <= x ->
  let word := be_val [a; b; c; d; e; f; g; h] in
  oc (s + Z.shiftr word 32 + Z.land word 0xffffffff + x)
  = oc (s + words16 [a; b; c; d; e; f; g; h] + x)
  /\ s <= s + Z.shiftr word 32 + Z.land word 0xffffffff <= s + 2 ^ 33.
Proof.
  intros Hs Hx word. change 0xffffffff with (Z.ones 32).
  rewrite Z.land_ones, Z.shiftr_div_pow2 by lia.
  assert (Hw : 0 <= word < 2 ^ 64) by (apply u64_val_range; done).
  assert (Hh : word / 2 ^ 32 = be_val [a; b; c; d] /\ word mod 2 ^ 32 = be_val [e; f; g; h]).
  { pose proof (be_val_range [e; f; g; h]) as Hr. cbn in Hr. change (Z.pow_pos 256 4) with (2 ^ 32) in Hr.
    assert (Hsplit : word = 2 ^ 32 * be_val [a; b; c; d] + be_val [e; f; g; h]).
    { unfold word. change [a; b; c; d; e; f; g; h] with ([a; b; c; d] ++ [e; f; g; h]).
      rewrite be_val_app. cbn [length]. lia. }
    split.
    - symmetry. apply (Z.div_unique_pos _ _ _ (be_val [e; f; g; h])); lia.
    - symmetry. apply (Z.mod_unique_pos _ _ (be_val [a; b; c; d])); lia. }
  destruct Hh as [-> ->]. unfold be_val. cbn [be_acc words16]. bounds.
  split; [|lia].
  destruct (Z.eqb_spec (b2z a + b2z b + b2z c + b2z d + b2z e + b2z f + b2z g + b2z h) 0).
  - f_equal. lia.
  - apply (oc_congr _ _ (256 * b2z a + b2z b + 256 * b2z e + b2z f)); lia.
Qed.

Definition agrees (s : Z) (w : bytes) : Prop :=
  (forall x, 0 <= x -> oc (s + x) = oc (words16 w + x)) /\ 0 <= s <= 2 ^ 30 * zlen w
  /\ Nat.even (length w) = true.

Lemma even_app {A} (l1 l2 : list A) :
  Nat.even (length l1) = true -> Nat.even (length l2) = true -> Nat.even (length (l1 ++ l2)) = true.
Proof. intros H1 H2. by rewrite length_app, Nat.even_add, H1, H2. Qed.

Lemma agrees_app s w s' v : agrees s w -> s <= s' <= s + 2 ^ 30 * zlen v ->
  (forall x, 0 <= x -> oc (s' + x) = oc (s + words16 v + x)) -> Nat.even (length v) = true ->
  agrees s' (w ++ v).
Proof.
  intros (Ha & Hb & He) Hs Hx Hv. split; [|split; [autorewrite with zlen; lia|by apply even_app]].
  intros x Hx0. rewrite words16_app by done. pose proof (words16_nonneg v).
  rewrite Hx, <- !Z.add_assoc by done. rewrite Ha by lia. f_equal; lia.
Qed.

Lemma sum_words_agrees s w rem : agrees s w ->
  exists v, rem = v ++ option_list (sum_words s rem).2 /\ agrees (sum_words s rem).1 (w ++ v).
Proof.
  revert s w rem. fix IH 3. intros s w [|a [|b rem]] Hw; cbn [sum_words].
  - exists []. split; [done|]. by rewrite app_nil_r.
  - exists []. split; [done|]. by rewrite app_nil_r.
  - destruct (IH (s + be_val [a; b]) (w ++ [a; b]) rem) as (v & Hv & Ha).
    + apply (agrees_app s); [done| |intros x Hx|done].
      * pose proof (u16_val_range a b). autorewrite with zlen. lia.
      * f_equal. rewrite be_val_word. cbn [words16]. lia.
    + exists (a :: b :: v). split; [cbn [app]; by rewrite <- Hv|]. by rewrite <- app_assoc in Ha.
Qed.

Lemma sum_chunks_agrees s w l : agrees s w ->
  exists v, l = v ++ (sum_chunks s l).2 /\ agrees (sum_chunks s l).1 (w ++ v).
Proof.
  revert s w l. fix IH 3.
  intros s w [|a [|b [|c [|d [|e [|f [|g [|h l]]]]]]]] Hw; cbn [sum_chunks];
    try (exists []; split; [done|]; by rewrite app_nil_r).
  destruct (IH (s + Z.shiftr (be_val [a; b; c; d; e; f; g; h]) 32
                + Z.land (be_val [a; b; c; d; e; f; g; h]) 0xffffffff)
               (w ++ [a; b; c; d; e; f; g; h]) l) as (v & Hv & Ha).
  - destruct Hw as (Hx0 & Hs & He). apply (agrees_app s); [done| |intros x Hx|done].
    + destruct (chunk_word s a b c d e f g h 0) as [_ H]; [lia|lia|].
      change (zlen [a; b; c; d; e; f; g; h]) with 8. lia.
    + apply (chunk_word s a b c d e f g h x); lia.
  - exists (a :: b :: c :: d :: e :: f :: g :: h :: v). cbn [app] in *.
    split; [by rewrite <- Hv|]. by rewrite <- app_assoc in Ha.
Qed.

(** The state after the parts [l] put end to end. *)
Definition summed (l : bytes) (st : Z * option byte) : Prop :=
  exists w, l = w ++ option_list st.2 /\ agrees st.1 w.

Lemma part_summed s w l : agrees s w ->
  summed (w ++ l) (let (sum, rem) := sum_chunks s l in sum_words sum rem).
Proof.
  intros Hw. destruct (sum_chunks_agrees s w l Hw) as (v & Hv & Ha).
  destruct (sum_chunks s l) as [sum rem]. cbn [fst snd] in *.
  destruct (sum_words_agrees sum (w ++ v) rem Ha) as (u & Hu & Ha').
  exists ((w ++ v) ++ u). split; [|done]. rewrite <- app_assoc, <- Hu, <- app_assoc. by f_equal.
Qed.

Lemma checksum_part_summed l st part : summed l st -> summed (l ++ part) (checksum_part st part).
Proof.
  destruct st as [s pending]. intros (w & -> & Hw). cbn [fst snd] in *. unfold checksum_part.
  destruct pending as [high|].
  - change (option_list (Some high)) with [high]. destruct part as [|low rest].
    + exists w. split; [by rewrite app_nil_r|done].
    + replace ((w ++ [high]) ++ low :: rest) with ((w ++ [high; low]) ++ rest) by by rewrite <- !app_assoc.
      apply part_summed. apply (agrees_app s); [done| |intros x Hx|done].
      * pose proof (u16_val_range high low). autorewrite with zlen. lia.
      * f_equal. rewrite be_val_word. cbn [words16]. lia.
  - cbn. rewrite app_nil_r. by apply part_summed.
Qed.

Lemma parts_summed parts : summed (concat parts) (foldl checksum_part (0, None) parts).
Proof.
  assert (H : forall l st, summed l st -> summed (l ++ concat parts) (foldl checksum_part st parts)).
  { induction parts as [|p parts IH]; intros l st Hl; cbn [concat foldl]; [by rewrite app_nil_r|].
    rewrite app_assoc. apply IH. by apply checksum_part_summed. }
  apply (H []). exists []. split; [done|]. split; [done|]. split; [unfold zlen; simpl; lia|done].
Qed.

Lemma lnot_u16 s : 0 <= s <= 65535 -> Z.lnot s mod 2 ^ 16 = 65535 - s.
Proof.
  intros H. unfold Z.lnot. symmetry. apply (Z.mod_unique_pos _ _ (-1)); lia.
Qed.

(** The sum is a [u64] that cannot overflow, and the result is the textbook one. *)
Lemma checksum16_parts_eq parts : zlen (concat parts) < 2 ^ 32 ->
  checksum16_parts parts = 65535 - oc (words16 (concat parts)).
Proof.
  intros Hlen. unfold checksum16_parts. destruct (parts_summed parts) as (w & Hw & Ho & Hb & He).
  destruct (foldl checksum_part (0, None) parts) as [s pending]. cbn [fst snd] in *. rewrite Hw in *.
  rewrite words16_app by done.
  assert (Hp : words16 (option_list pending)
               = match pending with Some high => be_val [high; x00] | None => 0 end).
  { destruct pending as [high|]; [|done]. rewrite be_val_word. change (b2z x00) with 0. cbn. lia. }
  assert (Hr : 0 <= words16 (option_list pending) < 65536).
  { rewrite Hp. destruct pending; [apply u16_val_range|lia]. }
  set (sum := match pending with Some high => s + be_val [high; x00] | None => s end).
  assert (Hs : sum = s + words16 (option_list pending)) by (rewrite Hp; destruct pending; unfold sum; lia).
  rewrite zlen_app in Hlen. bounds.
  rewrite fold_carry_u64 by lia. rewrite Hs, Ho by lia. rewrite lnot_u16; [done|].
  apply oc_range. pose proof (words16_nonneg w). lia.
Qed.

(** ** The recomputed field *)
Lemma slice_splice {A} (l : list A) s f t (xs : list A) :
  (s + f + length xs <= t)%nat -> (t <= length l)%nat ->
  slice (splice l (s + f) xs) s t = slice l s (s + f) ++ xs ++ slice l (s + f + length xs) t.
Proof.
  intros H1 H2. unfold splice.
  rewrite <- (take_drop s (take (s + f) l)), take_take, Nat.min_l by lia.
  assert (Hs : slice l s (s + f) = drop s (take (s + f) l))
    by (unfold slice; rewrite skipn_firstn_comm; f_equal; lia).
  rewrite Hs. unfold slice. rewrite <- !app_assoc.
  rewrite drop_app_length' by (rewrite length_take; lia).
  rewrite take_app_ge, take_app_ge by (rewrite ?length_drop, ?length_take; lia).
  do 2 f_equal. f_equal. rewrite ?length_drop, ?length_take. lia.
Qed.

Lemma words16_field (a b : bytes) c : 0 <= c < 65536 -> Nat.even (length a) = true ->
  words16 (a ++ be_bytes 2 c ++ b) = words16 a + c + words16 b.
Proof.
  intros Hc Ha. rewrite words16_app, (words16_app (be_bytes 2 c)) by done.
  assert (Hw : words16 (be_bytes 2 c) = c); [|lia].
  rewrite be_bytes_2. cbn [words16]. rewrite !b2z_u8, Z.shiftr_div_pow2 by lia.
  change (2 ^ 8) with 256. Z.div_mod_to_equations. lia.
Qed.

Lemma oc_complement s c : 0 <= s -> c = 65535 - oc s \/ c = 65535 /\ oc s = 65535 ->
  oc (s + c) = 65535.
Proof.
  intros Hs Hc. destruct (oc_decomp s Hs) as (k & Hk & Hp). pose proof (oc_range s Hs).
  rewrite <- (oc_small 65535) by lia.
  destruct (Z.eqb_spec s 0) as [->|].
  - change (oc 0) with 0 in *. destruct Hc as [->|[-> ?]]; [done|lia].
  - destruct Hc as [->|[-> Ho]]; [apply (oc_congr _ _ k)|apply (oc_congr _ _ (k + 1))]; lia.
Qed.

Section field.
Context (pseudo : Z -> list bytes) (checksum : bytes -> Z).
Hypothesis checksum_parts : forall seg, checksum seg = checksum16_parts (pseudo (zlen seg) ++ [seg]).
Hypothesis pseudo_even : forall n, Nat.even (length (concat (pseudo n))) = true.
Hypothesis pseudo_short : forall n, zlen (concat (pseudo n)) <= 64.

Lemma checksum_eq (a b : bytes) c : 0 <= c < 65536 -> Nat.even (length a) = true ->
  zlen (a ++ be_bytes 2 c ++ b) < 2 ^ 31 ->
  checksum (a ++ be_bytes 2 c ++ b)
  = 65535 - oc (words16 (concat (pseudo (zlen (a ++ be_bytes 2 c ++ b)))) + words16 a + words16 b + c).
Proof.
  intros Hc Ha Hl. rewrite checksum_parts.
  rewrite checksum16_parts_eq; rewrite concat_app; cbn [concat]; rewrite app_nil_r.
  - rewrite words16_app, words16_field by done. do 2 f_equal. lia.
  - rewrite zlen_app. pose proof (pseudo_short (zlen (a ++ be_bytes 2 c ++ b))). lia.
Qed.

(** Whatever the field held, the segment validates once it is rewritten. *)
Lemma rewrite_field_valid protocol packet start field total :
  (start + field + 2 <= total)%nat -> (total <= length packet)%nat -> Nat.even field = true ->
  Z.of_nat total < 2 ^ 31 ->
  checksum (slice (rewrite_field checksum protocol packet start field total) start total) = 0.
Proof.
  intros H1 H2 Hf Ht. unfold rewrite_field.
  set (a := slice packet start (start + field)). set (b := slice packet (start + field + 2) total).
  assert (Ha : length a = field) by (unfold a; rewrite slice_length; lia).
  assert (Hb : length b = (total - (start + field + 2))%nat) by (unfold b; rewrite slice_length; lia).
  rewrite (slice_splice packet start field total [x00; x00]) by (simpl; lia).
  change [x00; x00] with (be_bytes 2 0). change (start + field + length (be_bytes 2 0))%nat with (start + field + 2)%nat.
  fold a b. rewrite checksum_eq; [|lia|by rewrite Ha|unfold zlen; rewrite !length_app, be_bytes_length; lia].
  set (s := words16 (concat _) + words16 a + words16 b + 0).
  assert (Hs : 0 <= s) by (unfold s; pose proof (words16_nonneg a); pose proof (words16_nonneg b);
    match goal with |- context [words16 (concat ?l)] => pose proof (words16_nonneg (concat l)) end; lia).
  pose proof (oc_range s Hs).
  set (c := if _ && _ then 65535 else _).
  assert (Hc : 0 <= c < 65536 /\ (c = 65535 - oc s \/ c = 65535 /\ oc s = 65535)).
  { unfold c. destruct (bool_decide _); simpl; [destruct (Z.eqb_spec (65535 - oc s) 0)|]; lia. }
  destruct Hc as [Hc Hcs].
  set (p1 := splice packet (start + field) (be_bytes 2 0)).
  assert (Hp1 : length p1 = length packet) by (apply splice_length; simpl; lia).
  rewrite (slice_splice p1 start field total) by (rewrite ?be_bytes_length; lia).
  assert (Hl : slice p1 start (start + field) = a).
  { unfold p1, a, slice, splice. rewrite drop_app_le, take_app_le
      by (rewrite ?length_drop, ?length_take; lia).
    rewrite skipn_firstn_comm, take_take. f_equal. lia. }
  assert (Hr : slice p1 (start + field + length (be_bytes 2 c)) total = b).
  { unfold p1, b, slice, splice. rewrite !be_bytes_length. rewrite app_assoc.
    rewrite drop_app_length' by (rewrite length_app, length_take, be_bytes_length; lia). done. }
  rewrite Hl, Hr, checksum_eq; [|lia|by rewrite Ha|unfold zlen; rewrite !length_app, be_bytes_length; lia].
  replace (zlen (a ++ be_bytes 2 c ++ b)) with (zlen (a ++ be_bytes 2 0 ++ b)) by (by autorewrite with zlen).
  rewrite <- (oc_complement s c Hs Hcs). change 65535 with (oc 65535). unfold s in *.
  rewrite Z.add_0_r, (oc_complement _ c); [|lia|by rewrite Z.add_0_r in Hcs]. done.
Qed.

(** A checksum computed over a zeroed field and written into it validates. *)
Lemma complement_valid (a b : bytes) : Nat.even (length a) = true ->
  zlen (a ++ be_bytes 2 0 ++ b) < 2 ^ 31 ->
  checksum (a ++ be_bytes 2 (checksum (a ++ be_bytes 2 0 ++ b)) ++ b) = 0.
Proof.
  intros Ha Hl. rewrite (checksum_eq a b 0) by (done || lia).
  set (p := concat (pseudo (zlen (a ++ be_bytes 2 0 ++ b)))).
  pose proof (words16_nonneg p). pose proof (words16_nonneg a). pose proof (words16_nonneg b).
  pose proof (oc_range (words16 p + words16 a + words16 b + 0) ltac:(lia)).
  rewrite checksum_eq; [|lia|done|].
  - replace (zlen (a ++ be_bytes 2 _ ++ b)) with (zlen (a ++ be_bytes 2 0 ++ b))
      by (by autorewrite with zlen).
    fold p. rewrite oc_complement; [lia|lia|]. left. do 2 f_equal. lia.
  - autorewrite with zlen in *. lia.
Qed.
End field.

(** ** The header walk *)

(** What a successful walk promises: the offsets are inside the packet, and the
    byte at [next_header_field_offset] is the next header it reports. *)
Definition info_ok (packet : bytes) (total : nat) (i : Ipv6PayloadInfo) : Prop :=
  total_len i = total /\ (payload_offset i <= total)%nat
  /\ (next_header_field_offset i < payload_offset i)%nat
  /\ packet !!! next_header_field_offset i = next_header i.

Lemma walk_headers_ok packet total fuel : forall h field offset,
  (total - offset < fuel)%nat -> (field < offset <= total)%nat -> packet !!! field = h ->
  match walk_headers fuel packet total h field offset with
  | Ok i => info_ok packet total i /\ (offset <= payload_offset i)%nat
  | Err e => e <> out_of_fuel
  end.
Proof.
  induction fuel as [|fuel IH]; intros h field offset Hf Ho Hh; [lia|]. cbn [walk_headers].
  assert (Hstep : forall len, (8 <= len)%nat -> (offset + len <= total)%nat ->
    match walk_headers fuel packet total (packet !!! offset) offset (offset + len) with
    | Ok i => info_ok packet total i /\ (offset <= payload_offset i)%nat
    | Err e => e <> out_of_fuel
    end).
  { intros len H8 Hl. specialize (IH (packet !!! offset) offset (offset + len)%nat).
    destruct (walk_headers fuel packet total _ _ _) as [i|e].
    - destruct IH as [Hi Hle]; [lia|lia|done|]. split; [done|lia].
    - apply IH; [lia|lia|done]. }
  destruct (header_kind h).
  - split; [|done]. repeat split; simpl; [lia|lia|done].
  - destruct (Nat.ltb_spec total (offset + 2)); [done|].
    destruct (Nat.ltb_spec ((Z.to_nat (b2z (packet !!! (offset + 1)%nat)) + 1) * 8) 8); [done|].
    cbn [orb]. destruct (Nat.ltb_spec total (offset + (Z.to_nat (b2z (packet !!! (offset + 1)%nat)) + 1) * 8));
      [done|]. by apply Hstep.
  - destruct (Nat.ltb_spec total (offset + 2)); [done|].
    destruct (Nat.ltb_spec ((Z.to_nat (b2z (packet !!! (offset + 1)%nat)) + 2) * 4) 8); [done|].
    cbn [orb]. destruct (Nat.ltb_spec total (offset + (Z.to_nat (b2z (packet !!! (offset + 1)%nat)) + 2) * 4));
      [done|]. by apply Hstep.
Qed.

Lemma locate_ipv6_ok packet :
  match locate_ipv6_payload packet with
  | Ok i => info_ok packet (total_len i) i /\ (IPV6_HEADER_LEN <= payload_offset i)%nat
            /\ (total_len i <= length packet)%nat
            /\ total_len i = (IPV6_HEADER_LEN + Z.to_nat (be_val [packet !!! 4%nat; packet !!! 5%nat]))%nat
  | Err e => e <> out_of_fuel
  end.
Proof.
  unfold locate_ipv6_payload. destruct (Nat.ltb_spec (length packet) IPV6_HEADER_LEN); [done|].
  set (total := (IPV6_HEADER_LEN + _)%nat). destruct (Nat.ltb_spec (length packet) total); [done|].
  pose proof (walk_headers_ok packet total (S total) (packet !!! 6%nat) 6 IPV6_HEADER_LEN) as Hw.
  destruct (walk_headers _ _ _ _ _ _) as [i|e].
  - destruct Hw as [Hi Ho]; [lia|unfold total, IPV6_HEADER_LEN; lia|done|].
    pose proof Hi as (Ht & _). rewrite Ht. done.
  - apply Hw; [lia|unfold total, IPV6_HEADER_LEN; lia|done].
Qed.

(** The walk reads nothing past the header it reports. *)
Lemma walk_headers_prefix packet packet' total fuel : forall h field offset i,
  walk_headers fuel packet total h field offset = Ok i ->
  (forall k, (k < payload_offset i)%nat -> packet' !!! k = packet !!! k) ->
  walk_headers fuel packet' total h field offset = Ok i /\ (offset <= payload_offset i)%nat.
Proof.
  induction fuel as [|fuel IH]; intros h field offset i H Hp; [done|]. cbn [walk_headers] in *.
  destruct (header_kind h).
  - injection H as <-. done.
  - split_guard. destruct (IH (packet !!! offset) offset
      (offset + (Z.to_nat (b2z (packet !!! (offset + 1)%nat)) + 1) * 8)%nat i) as [Hw Ho];
      [by destruct (_ || _)|done|]. split; [|lia].
    rewrite !Hp by lia. by destruct (_ || _).
  - split_guard. destruct (IH (packet !!! offset) offset
      (offset + (Z.to_nat (b2z (packet !!! (offset + 1)%nat)) + 2) * 4)%nat i) as [Hw Ho];
      [by destruct (_ || _)|done|]. split; [|lia].
    rewrite !Hp by lia. by destruct (_ || _).
Qed.

(** ** The recomputed packet *)
Lemma splice_twice {A} (l : list A) i xs ys : length xs = length ys -> (i + length xs <= length l)%nat ->
  splice (splice l i xs) i ys = splice l i ys.
Proof.
  intros Hl Hi. unfold splice. rewrite take_app_le by (rewrite length_take; lia).
  rewrite take_take, Nat.min_id, <- Hl. do 2 f_equal. rewrite app_assoc.
  apply drop_app_length'. rewrite length_app, length_take. lia.
Qed.

Lemma splice_lookup_below (l : bytes) i xs k : (k < i)%nat -> (i <= length l)%nat ->
  splice l i xs !!! k = l !!! k.
Proof.
  intros Hk Hi. unfold splice. rewrite lookup_total_app_l by (rewrite length_take; lia).
  by apply lookup_total_take_lt.
Qed.

Lemma splice_slice_below {A} (l : list A) i xs a b : (b <= i)%nat -> (i <= length l)%nat -> (a <= b)%nat ->
  slice (splice l i xs) a b = slice l a b.
Proof.
  intros Hb Hi Ha. unfold slice, splice. rewrite drop_app_le, take_app_le
    by (rewrite ?length_drop, ?length_take; lia).
  rewrite skipn_firstn_comm, take_take. f_equal. lia.
Qed.

Lemma rewrite_field_splice checksum protocol packet start field total :
  (start + field + 2 <= length packet)%nat ->
  exists xs, length xs = 2%nat
    /\ rewrite_field checksum protocol packet start field total = splice packet (start + field) xs.
Proof.
  intros H. unfold rewrite_field. eexists (be_bytes 2 _). split; [apply be_bytes_length|].
  apply splice_twice; [done|simpl; lia].
Qed.

Lemma transport_field protocol field : transport_checksum_field_offset protocol = Some field ->
  Nat.even field = true /\ (6 <= field)%nat.
Proof. unfold transport_checksum_field_offset. repeat case_bool_decide; intros [= <-]; simpl; lia. Qed.

Lemma ipv4_pseudo source destination protocol n : length source = 4%nat -> length destination = 4%nat ->
  Nat.even (length (concat [source; destination; [x00; protocol]; be_bytes 2 n])) = true
  /\ zlen (concat [source; destination; [x00; protocol]; be_bytes 2 n]) <= 64.
Proof.
  intros Hs Hd. unfold zlen. cbn [concat]. rewrite app_nil_r, !length_app, be_bytes_length, Hs, Hd. simpl. lia.
Qed.

Lemma ipv6_pseudo source destination h n : length source = 16%nat -> length destination = 16%nat ->
  Nat.even (length (concat [source; destination; be_bytes 4 n; [x00; x00; x00; h]])) = true
  /\ zlen (concat [source; destination; be_bytes 4 n; [x00; x00; x00; h]]) <= 64.
Proof.
  intros Hs Hd. unfold zlen. cbn [concat]. rewrite app_nil_r, !length_app, be_bytes_length, Hs, Hd. simpl. lia.
Qed.

(** The checksum a receiver computes over the transport segment of a packet. *)
Definition received_checksum (packet : bytes) : option Z :=
  if Z.shiftr (b2z (packet !!! 0%nat)) 4 =? 4 then
    let ihl := (Z.to_nat (Z.land (b2z (packet !!! 0%nat)) 0x0f) * 4)%nat in
    let total_len := Z.to_nat (be_val [packet !!! 2%nat; packet !!! 3%nat]) in
    Some (ipv4_payload_checksum (slice packet 12 16) (slice packet 16 20) (packet !!! 9%nat)
            (slice packet ihl total_len))
  else
    match locate_ipv6_upper_layer packet with
    | Ok (next_header, l4_offset, total_len) =>
      Some (ipv6_payload_checksum (slice packet 8 24) (slice packet 24 40) next_header
              (slice packet l4_offset total_len))
    | Err _ => None
    end.

Definition recomputed_from (packet packet' : bytes) : Prop :=
  length packet' = length packet /\ received_checksum packet' = Some 0
  /\ exists i xs, length xs = 2%nat /\ (i + 2 <= length packet)%nat /\ packet' = splice packet i xs.

Lemma u16_to_nat_lt a b : Z.of_nat (Z.to_nat (be_val [a; b])) < 65536.
Proof. pose proof (u16_val_range a b). lia. Qed.

Lemma recompute_ipv4_ok packet packet' : Z.shiftr (b2z (packet !!! 0%nat)) 4 = 4 ->
  recompute_ipv4_transport_checksum packet = (packet', true) -> recomputed_from packet packet'.
Proof.
  intros Hv. unfold recompute_ipv4_transport_checksum.
  destruct (Nat.ltb_spec (length packet) IPV4_HEADER_LEN) as [|H20]; [done|]. unfold IPV4_HEADER_LEN in *.
  set (ihl := (Z.to_nat (Z.land _ _) * 4)%nat). set (total := Z.to_nat (be_val _)).
  destruct (Nat.ltb_spec ihl 20); [done|]. destruct (Nat.ltb_spec total ihl); [done|].
  destruct (Nat.ltb_spec (length packet) total); [done|]. cbn [orb].
  destruct (negb _); [done|]. destruct (transport_checksum_field_offset _) as [field|] eqn:Ef; [|done].
  destruct (Nat.ltb_spec total (ihl + field + 2)); [done|].
  set (cks := ipv4_payload_checksum _ _ _). intros [= <-].
  destruct (transport_field _ _ Ef) as [Heven H6].
  destruct (rewrite_field_splice cks (packet !!! 9%nat) packet ihl field total) as (xs & Hxs & Hsp); [lia|].
  pose proof (u16_to_nat_lt (packet !!! 2%nat) (packet !!! 3%nat)) as Ht. fold total in Ht.
  assert (Hk : forall k, (k < ihl + field)%nat -> rewrite_field cks (packet !!! 9%nat) packet ihl field total !!! k = packet !!! k)
    by (intros k Hlt; rewrite Hsp; apply splice_lookup_below; lia).
  split; [rewrite Hsp; apply splice_length; lia|]. split; [|exists (ihl + field)%nat, xs; split; [done|split; [lia|done]]].
  unfold received_checksum. rewrite !Hk by lia. rewrite Hv. cbn [Z.eqb Pos.eqb]. fold ihl total. f_equal.
  assert (Hsl : forall a b, (a <= b <= ihl + field)%nat ->
    slice (rewrite_field cks (packet !!! 9%nat) packet ihl field total) a b = slice packet a b)
    by (intros a b Hab; rewrite Hsp; apply splice_slice_below; lia).
  rewrite (Hsl 12%nat 16%nat), (Hsl 16%nat 20%nat) by lia. fold cks.
  assert (Hps : forall n, _) by (intros n; apply (ipv4_pseudo (slice packet 12 16) (slice packet 16 20)
    (packet !!! 9%nat) n); rewrite slice_length; lia).
  apply (rewrite_field_valid
    (fun n => [slice packet 12 16; slice packet 16 20; [x00; packet !!! 9%nat]; be_bytes 2 n]));
    [done|intros n; apply Hps|intros n; apply Hps|lia|lia|done|lia].
Qed.

Lemma locate_upper_prefix packet packet' h off total :
  locate_ipv6_upper_layer packet = Ok (h, off, total) -> length packet' = length packet ->
  (forall k, (k < off)%nat -> packet' !!! k = packet !!! k) ->
  locate_ipv6_upper_layer packet' = Ok (h, off, total) /\ (IPV6_HEADER_LEN <= off)%nat
  /\ (total <= length packet)%nat /\ Z.of_nat total < 65576.
Proof.
  intros H Hl Hk. unfold locate_ipv6_upper_layer in H.
  pose proof (locate_ipv6_ok packet) as Hok. destruct (locate_ipv6_payload packet) as [i|e] eqn:E; [|done].
  apply Ok_inj in H as [= <- <- <-]. destruct Hok as (Hi & Ho & Ht & Htot).
  pose proof (u16_to_nat_lt (packet !!! 4%nat) (packet !!! 5%nat)).
  assert (Hw : locate_ipv6_payload packet' = Ok i).
  { unfold locate_ipv6_payload in *. unfold IPV6_HEADER_LEN in *. rewrite Hl, (Hk 4%nat), (Hk 5%nat), (Hk 6%nat) by lia.
    split_guard. cbn zeta in *. split_guard. by apply (walk_headers_prefix packet). }
  unfold locate_ipv6_upper_layer. rewrite Hw. split; [done|]. unfold IPV6_HEADER_LEN in *. lia.
Qed.

Lemma recompute_ipv6_ok packet packet' : Z.shiftr (b2z (packet !!! 0%nat)) 4 <> 4 ->
  recompute_ipv6_transport_checksum packet = (packet', true) -> recomputed_from packet packet'.
Proof.
  intros Hv. unfold recompute_ipv6_transport_checksum.
  destruct (locate_ipv6_upper_layer packet) as [[[h off] total]|e] eqn:E; [|done].
  destruct (locate_upper_prefix _ packet _ _ _ E eq_refl) as (_ & H40 & _ & Ht); [done|].
  unfold IPV6_HEADER_LEN in *.
  case_bool_decide; [done|]. destruct (transport_checksum_field_offset h) as [field|] eqn:Ef; [|done].
  destruct (Nat.ltb_spec total (off + field + 2)); [done|].
  destruct (Nat.ltb_spec (length packet) total); [done|]. cbn [orb].
  set (cks := ipv6_payload_checksum _ _ _). intros [= <-].
  destruct (transport_field _ _ Ef) as [Heven H6].
  destruct (rewrite_field_splice cks h packet off field total) as (xs & Hxs & Hsp); [lia|].
  assert (Hk : forall k, (k < off + field)%nat -> rewrite_field cks h packet off field total !!! k = packet !!! k)
    by (intros k Hlt; rewrite Hsp; apply splice_lookup_below; lia).
  assert (Hlen : length (rewrite_field cks h packet off field total) = length packet)
    by (rewrite Hsp; apply splice_length; lia).
  split; [done|]. split; [|exists (off + field)%nat, xs; split; [done|split; [lia|done]]].
  unfold received_checksum. rewrite !Hk by lia.
  rewrite (proj2 (Z.eqb_neq _ _) Hv).
  destruct (locate_upper_prefix _ _ _ _ _ E Hlen) as [-> _]; [intros k Hlt; apply Hk; lia|]. f_equal.
  assert (Hsl : forall a b, (a <= b <= off + field)%nat ->
    slice (rewrite_field cks h packet off field total) a b = slice packet a b)
    by (intros a b Hab; rewrite Hsp; apply splice_slice_below; lia).
  rewrite (Hsl 8%nat 24%nat), (Hsl 24%nat 40%nat) by lia. fold cks.
  assert (Hps : forall n, _) by (intros n; apply (ipv6_pseudo (slice packet 8 24) (slice packet 24 40) h n);
    rewrite slice_length; lia).
  apply (rewrite_field_valid
    (fun n => [slice packet 8 24; slice packet 24 40; be_bytes 4 n; [x00; x00; x00; h]]));
    [done|intros n; apply Hps|intros n; apply Hps|lia|lia|done|lia].
Qed.

Lemma recompute_received packet packet' :
  recompute_transport_checksum packet = (packet', Recomputed) -> recomputed_from packet packet'.
Proof.
  unfold recompute_transport_checksum. destruct packet as [|b rest]; [by intros [=]|].
  destruct (Z.eqb_spec (Z.shiftr (b2z b) 4) 4) as [H4|H4].
  - destruct (recompute_ipv4_transport_checksum (b :: rest)) as [p [|]] eqn:E; intros [= <-].
    by apply recompute_ipv4_ok in E.
  - destruct (Z.eqb_spec (Z.shiftr (b2z b) 4) 6); [|by intros [=]].
    destruct (recompute_ipv6_transport_checksum (b :: rest)) as [p [|]] eqn:E; intros [= <-].
    by apply recompute_ipv6_ok in E.
Qed.

(** ** Properties *)

(** The wide fold over a list of parts (eight bytes at a time, with the odd
    byte of a part paired with the first byte of the next one, in a [u64] that
    cannot overflow) is the internet checksum of the parts put end to end: the
    complement of the ones' complement sum of its big-endian 16-bit words,
    however the data is cut into parts. *)
Theorem checksum_grouping parts : zlen (concat parts) < 2 ^ 32 ->
  checksum16_parts parts = 65535 - oc (words16 (concat parts))
  /\ checksum16_parts parts = checksum16 (concat parts).
Proof.
  intros H. rewrite checksum16_parts_eq by done. split; [done|].
  unfold checksum16. rewrite checksum16_parts_eq; cbn [concat]; by rewrite app_nil_r.
Qed.

Definition example_parts : list bytes := [[x01]; []; [x02; x03; x04]; str "0123456789a"].
Lemma checksum_grouping_witness :
  zlen (concat example_parts) < 2 ^ 32
  /\ checksum16_parts example_parts = 65535 - oc (words16 (concat example_parts))
  /\ checksum16_parts example_parts = checksum16 (concat example_parts).
Proof.
  split; [vm_compute; reflexivity|]. apply checksum_grouping. vm_compute. reflexivity.
Defined.

(** Recomputing the transport checksum of a packet either leaves the packet
    as it is and says so, or rewrites two bytes of it and nothing else, after
    which the checksum a receiver computes over the segment, pseudo-header
    included, is zero; whatever the field held, for TCP and UDP (a UDP sum of
    zero is sent as all ones), over IPv4 and IPv6 with extension headers. *)
Theorem recompute_valid packet packet' c :
  recompute_transport_checksum packet = (packet', c) ->
  match c with
  | Unverified => packet' = packet
  | Recomputed =>
    length packet' = length packet /\ received_checksum packet' = Some 0
    /\ exists i xs, length xs = 2%nat /\ (i + 2 <= length packet)%nat /\ packet' = splice packet i xs
  end.
Proof.
  intros H. destruct c; [|by apply recompute_received].
  revert H. unfold recompute_transport_checksum. destruct packet as [|b rest]; [by intros [= <-]|].
  unfold recompute_ipv4_transport_checksum, recompute_ipv6_transport_checksum. cbn zeta.
  repeat (split_guard || case_match || congruence).
Qed.

Definition example_udp : bytes :=
  map u8 [0x45; 0; 0; 31; 0; 7; 0; 0; 64; 17; 0; 0; 10; 0; 0; 1; 10; 0; 0; 2;
          0; 53; 156; 64; 0; 11; 0xde; 0xad; 104; 105; 33].
Lemma recompute_valid_witness :
  exists packet', recompute_transport_checksum example_udp = (packet', Recomputed)
  /\ length packet' = length example_udp /\ received_checksum packet' = Some 0
  /\ exists i xs, length xs = 2%nat /\ (i + 2 <= length example_udp)%nat
       /\ packet' = splice example_udp i xs.
Proof.
  exists (recompute_transport_checksum example_udp).1.
  split; [vm_compute; reflexivity|].
  apply (recompute_valid example_udp _ Recomputed). vm_compute. reflexivity.
Defined.

(** The walk over the IPv6 extension headers terminates on every packet: it
    never runs out of the fuel it is given. When it succeeds the payload
    starts at or past the fixed header and inside the packet, and the field it
    names is the one that announces the payload's header. *)
Theorem locate_ipv6_total packet :
  match locate_ipv6_payload packet with
  | Ok i =>
    (IPV6_HEADER_LEN <= payload_offset i <= total_len i)%nat /\ (total_len i <= length packet)%nat
    /\ (next_header_field_offset i < payload_offset i)%nat
    /\ packet !!! next_header_field_offset i = next_header i
  | Err e => e <> out_of_fuel
  end.
Proof.
  pose proof (locate_ipv6_ok packet) as H. destruct (locate_ipv6_payload packet); [|done].
  destruct H as ((_ & Hp & Hf & Hn) & Ho & Ht & _). done.
Qed.
