(* ===== verification/Defrag.v ===== *)
(** Reassembly of IP fragments read from the TUN device
    ([crates/outline-tun/src/defrag/mod.rs], [chunk.rs], [v4.rs], [v6.rs]).

    Offsets come from a 13-bit field in units of eight bytes and payloads from a
    16-bit length, so that the additions the code checks cannot overflow a
    [usize]; they are natural numbers here. Instants are integers in
    milliseconds. Metrics and the shrinking of the maps are left out. *)
From S2P Require Import Prelude IpPacket.
From Stdlib Require Import Sorted.
Local Open Scope Z_scope.

Definition REASSEMBLY_TIMEOUT : Z := 15000.
Definition CLEANUP_INTERVAL : Z := 15000.
Definition MAX_FRAGMENT_SETS : nat := 1024.
Definition MAX_FRAGMENTS_PER_SET : nat := 64.
Definition MAX_BYTES_PER_SET : nat := 128 * 1024.
Definition MAX_TOTAL_BUFFERED_BYTES : nat := 16 * 1024 * 1024.

(** ** Chunks ([chunk.rs]) *)
Record FragmentChunk : Type := mkChunk { offset : nat; data : bytes }.
Inductive ChunkInsertOutcome : Type := Inserted (bytes : nat) | DuplicateExact | Overlap.

Definition chunk_end (c : FragmentChunk) : nat := (offset c + length (data c))%nat.

Fixpoint insert_chunk (chunks : list FragmentChunk) (off : nat) (d : bytes)
    : list FragmentChunk * ChunkInsertOutcome :=
  match chunks with
  | [] => ([mkChunk off d], Inserted (length d))
  | existing :: rest =>
    let end_ := (off + length d)%nat in
    if (end_ <=? offset existing)%nat then (mkChunk off d :: chunks, Inserted (length d))
    else if (chunk_end existing <=? off)%nat then
      let (rest, outcome) := insert_chunk rest off d in (existing :: rest, outcome)
    else if bool_decide (off = offset existing) && bool_decide (end_ = chunk_end existing)
            && bool_decide (d = data existing)
    then (chunks, DuplicateExact)
    else (chunks, Overlap)
  end.

Fixpoint complete_from (cursor : nat) (chunks : list FragmentChunk) (total_len : nat) : bool :=
  match chunks with
  | [] => bool_decide (cursor = total_len)
  | chunk :: chunks =>
    if bool_decide (offset chunk = cursor)
    then complete_from (cursor + length (data chunk)) chunks total_len
    else false
  end.
Definition chunks_are_complete : list FragmentChunk -> nat -> bool := complete_from 0.

Definition chunk_bytes (chunks : list FragmentChunk) : nat :=
  sum_list_with (fun c => length (data c)) chunks.

(** The copy loop of [build_packet]. *)
Fixpoint copy_chunks (packet : bytes) (off : nat) (chunks : list FragmentChunk) : bytes :=
  match chunks with
  | [] => packet
  | chunk :: chunks =>
    copy_chunks (splice packet off (data chunk)) (off + length (data chunk)) chunks
  end.

(** ** IPv4 ([v4.rs]) *)
Definition IPV4_MF_FLAG : Z := 0x2000.
Definition IPV4_FRAGMENT_OFFSET_MASK : Z := 0x1fff.

Record Ipv4Key : Type := mkKey4 {
  source4 : bytes; destination4 : bytes; protocol4 : byte; identification4 : Z
}.
#[export] Instance Ipv4Key_eq_dec : EqDecision Ipv4Key.
Proof. solve_decision. Defined.
#[export] Program Instance Ipv4Key_countable : Countable Ipv4Key :=
  inj_countable' (fun k => (source4 k, destination4 k, protocol4 k, identification4 k))
    (fun '(s, d, p, i) => mkKey4 s d p i) _.
Next Obligation. by intros []. Qed.

Record Ipv4Fragment : Type := mkFragment4 {
  key4 : Ipv4Key; header4 : bytes; offset4 : nat; more_fragments4 : bool; payload4 : bytes
}.

Record Ipv4FragmentSet : Type := mkSet4 {
  deadline4 : Z;
  header_of4 : option bytes;
  chunks4 : list FragmentChunk;
  total_payload_len4 : option nat
}.

(** ** IPv6 ([v6.rs]) *)
Record Ipv6Key : Type := mkKey6 {
  source6 : bytes; destination6 : bytes; identification6 : Z; upper_layer_header_key6 : byte
}.
#[export] Instance Ipv6Key_eq_dec : EqDecision Ipv6Key.
Proof. solve_decision. Defined.
#[export] Program Instance Ipv6Key_countable : Countable Ipv6Key :=
  inj_countable' (fun k => (source6 k, destination6 k, identification6 k, upper_layer_header_key6 k))
    (fun '(s, d, i, u) => mkKey6 s d i u) _.
Next Obligation. by intros []. Qed.

Record Ipv6Fragment : Type := mkFragment6 {
  key6 : Ipv6Key;
  prefix6 : bytes;
  next_header_field_offset6 : nat;
  upper_layer_header6 : byte;
  offset6 : nat;
  more_fragments6 : bool;
  payload6 : bytes
}.

Record Ipv6FragmentSet : Type := mkSet6 {
  deadline6 : Z;
  prefix_of6 : bytes;
  next_header_field_offset_of6 : nat;
  upper_layer_header_of6 : byte;
  chunks6 : list FragmentChunk;
  total_payload_len6 : option nat
}.

(** ** What the two kinds of set share

    The fields both have, their size and their completion test. *)
Class FragmentSet (T : Type) : Type := {
  set_chunks : T -> list FragmentChunk;
  set_total : T -> option nat;
  set_deadline : T -> Z;
  update : T -> Z -> list FragmentChunk -> option nat -> T;
  head_bytes : T -> nat;
  head_ready : T -> bool;
  build : T -> outcome bytes
}.

Definition estimated_bytes `{FragmentSet T} (s : T) : nat :=
  (head_bytes s + chunk_bytes (set_chunks s))%nat.
Definition is_complete `{FragmentSet T} (s : T) : bool :=
  head_ready s
  && match set_total s with Some total => chunks_are_complete (set_chunks s) total | None => false end.

Definition build_packet4 (s : Ipv4FragmentSet) : outcome bytes :=
  header ← ok_or "missing IPv4 first fragment header"%string (header_of4 s);
  payload_len ← ok_or "missing IPv4 reassembled payload length"%string (total_payload_len4 s);
  if negb (chunks_are_complete (chunks4 s) payload_len)
  then Err "incomplete IPv4 fragment set"%string
  else
    let total_len := (length header + payload_len)%nat in
    if 65535 <? Z.of_nat total_len then Err "IPv4 reassembled packet exceeds maximum length"%string
    else
      let packet := splice (replicate total_len x00) 0 header in
      let packet := splice packet 2 (be_bytes 2 (Z.of_nat total_len)) in
      let packet := splice packet 6 (be_bytes 2 0) in
      let packet := splice packet 10 (be_bytes 2 0) in
      let packet := copy_chunks packet (length header) (chunks4 s) in
      let checksum := checksum16 (take (length header) packet) in
      Ok (splice packet 10 (be_bytes 2 checksum)).

Definition build_packet6 (s : Ipv6FragmentSet) : outcome bytes :=
  payload_len ← ok_or "missing IPv6 reassembled payload length"%string (total_payload_len6 s);
  if negb (chunks_are_complete (chunks6 s) payload_len)
  then Err "incomplete IPv6 fragment set"%string
  else
    let total_len := (length (prefix_of6 s) + payload_len)%nat in
    if (total_len <? IPV6_HEADER_LEN)%nat
    then Err "invalid IPv6 reassembled prefix length"%string
    else
      let ipv6_payload_len := (total_len - IPV6_HEADER_LEN)%nat in
      if 65535 <? Z.of_nat ipv6_payload_len
      then Err "IPv6 reassembled payload exceeds maximum length"%string
      else
        let packet := splice (replicate total_len x00) 0 (prefix_of6 s) in
        let packet := splice packet (next_header_field_offset_of6 s) [upper_layer_header_of6 s] in
        let packet := splice packet 4 (be_bytes 2 (Z.of_nat ipv6_payload_len)) in
        Ok (copy_chunks packet (length (prefix_of6 s)) (chunks6 s)).

#[export] Instance set4 : FragmentSet Ipv4FragmentSet := {|
  set_chunks := chunks4;
  set_total := total_payload_len4;
  set_deadline := deadline4;
  update s d c t := mkSet4 d (header_of4 s) c t;
  head_bytes s := match header_of4 s with Some h => length h | None => 0%nat end;
  head_ready s := match header_of4 s with Some _ => true | None => false end;
  build := build_packet4
|}.
#[export] Instance set6 : FragmentSet Ipv6FragmentSet := {|
  set_chunks := chunks6;
  set_total := total_payload_len6;
  set_deadline := deadline6;
  update s d c t :=
    mkSet6 d (prefix_of6 s) (next_header_field_offset_of6 s) (upper_layer_header_of6 s) c t;
  head_bytes s := length (prefix_of6 s);
  head_ready s := true;
  build := build_packet6
|}.

(** ** Inspection *)
Inductive PacketInspection : Type :=
  | Passthrough
  | InspectedIpv4Fragment (f : Ipv4Fragment)
  | InspectedIpv6Fragment (f : Ipv6Fragment).

Definition inspect_ipv4 (packet : bytes) : outcome PacketInspection :=
  if (length packet <? IPV4_HEADER_LEN)%nat then Err "short IPv4 packet"%string
  else
    let header_len := (Z.to_nat (Z.land (b2z (packet !!! 0%nat)) 0x0f) * 4)%nat in
    let total_len := Z.to_nat (be_val [packet !!! 2%nat; packet !!! 3%nat]) in
    if ((header_len <? IPV4_HEADER_LEN)%nat || (total_len <? header_len)%nat)
    then Err "invalid IPv4 packet lengths"%string
    else if (length packet <? total_len)%nat then Err "truncated IPv4 packet"%string
    else
      let fragment_field := be_val [packet !!! 6%nat; packet !!! 7%nat] in
      let offset := (Z.to_nat (Z.land fragment_field IPV4_FRAGMENT_OFFSET_MASK) * 8)%nat in
      let more_fragments := negb (Z.land fragment_field IPV4_MF_FLAG =? 0) in
      if bool_decide (offset = 0%nat) && negb more_fragments then Ok Passthrough
      else
        let payload := slice packet header_len total_len in
        if more_fragments && negb (bool_decide (length payload mod 8 = 0)%nat)
        then Err "IPv4 non-terminal fragment payload length is not 8-byte aligned"%string
        else
          Ok (InspectedIpv4Fragment
                (mkFragment4
                   (mkKey4 (slice packet 12 16) (slice packet 16 20) (packet !!! 9%nat)
                      (be_val [packet !!! 4%nat; packet !!! 5%nat]))
                   (take header_len packet) offset more_fragments payload)).

Definition inspect_ipv6 (packet : bytes) : outcome PacketInspection :=
  info ← locate_ipv6_payload packet;
  if negb (bool_decide (next_header info = IPV6_NEXT_HEADER_FRAGMENT)) then Ok Passthrough
  else
    let at_ := payload_offset info in
    if (total_len info <? at_ + 8)%nat then Err "truncated IPv6 fragment header"%string
    else
      let fragment_offset_and_flags := be_val [packet !!! (at_ + 2)%nat; packet !!! (at_ + 3)%nat] in
      let offset := (Z.to_nat (Z.shiftr fragment_offset_and_flags 3) * 8)%nat in
      let more_fragments := negb (Z.land fragment_offset_and_flags 1 =? 0) in
      let payload := slice packet (at_ + 8) (total_len info) in
      if more_fragments && negb (bool_decide (length payload mod 8 = 0)%nat)
      then Err "IPv6 non-terminal fragment payload length is not 8-byte aligned"%string
      else
        Ok (InspectedIpv6Fragment
              (mkFragment6
                 (mkKey6 (slice packet 8 24) (slice packet 24 40)
                    (be_val (slice packet (at_ + 4) (at_ + 8))) (packet !!! at_))
                 (take at_ packet) (next_header_field_offset info) (packet !!! at_)
                 offset more_fragments payload)).

Definition inspect_packet (packet : bytes) : outcome PacketInspection :=
  match packet with
  | [] => Err "empty TUN packet"%string
  | b :: _ =>
    let version := Z.shiftr (b2z b) 4 in
    if version =? 4 then inspect_ipv4 packet
    else if version =? 6 then inspect_ipv6 packet
    else Ok Passthrough
  end.

(** Length, version and traffic class and flow label, and everything past the
    payload length. *)
Definition ipv6_prefix_matches (stored incoming : bytes) : bool :=
  if negb (bool_decide (length stored = length incoming)) then false
  else if (length stored <? IPV6_HEADER_LEN)%nat then false
  else bool_decide (take 4 stored = take 4 incoming) && bool_decide (drop 6 stored = drop 6 incoming)
       && bool_decide (length (slice stored 4 6) = length (slice incoming 4 6)).

(** ** The defragmenter ([mod.rs]) *)
Inductive DefragmentedPacket : Type :=
  | ReadyBorrowed
  | ReadyOwned (packet : bytes)
  | Pending
  | Dropped (reason : String.string).

Record TunDefragmenter : Type := mkDefrag {
  ipv4_sets : gmap Ipv4Key Ipv4FragmentSet;
  ipv6_sets : gmap Ipv6Key Ipv6FragmentSet;
  total_buffered_bytes : nat;
  next_cleanup_at : Z;
  max_fragment_sets : nat;
  max_fragments_per_set : nat;
  max_bytes_per_set : nat;
  max_total_buffered_bytes : nat
}.
Definition with_sets (d : TunDefragmenter) (m4 : gmap Ipv4Key Ipv4FragmentSet)
    (m6 : gmap Ipv6Key Ipv6FragmentSet) (total : nat) : TunDefragmenter :=
  mkDefrag m4 m6 total (next_cleanup_at d) (max_fragment_sets d) (max_fragments_per_set d)
    (max_bytes_per_set d) (max_total_buffered_bytes d).

Definition new (now : Z) (max_total max_bytes max_sets max_fragments : nat) : TunDefragmenter :=
  mkDefrag ∅ ∅ 0 (now + CLEANUP_INTERVAL) max_sets max_fragments max_bytes max_total.

Definition fragment_set_count (d : TunDefragmenter) : nat :=
  (size (ipv4_sets d) + size (ipv6_sets d))%nat.
Definition buffered_estimate (m4 : gmap Ipv4Key Ipv4FragmentSet) (m6 : gmap Ipv6Key Ipv6FragmentSet)
    : nat :=
  (map_sum estimated_bytes m4 + map_sum estimated_bytes m6)%nat.
Definition recalculate_total_buffered_bytes (d : TunDefragmenter) : TunDefragmenter :=
  with_sets d (ipv4_sets d) (ipv6_sets d) (buffered_estimate (ipv4_sets d) (ipv6_sets d)).

Definition remove_ipv4_set (d : TunDefragmenter) (k : Ipv4Key) : TunDefragmenter :=
  recalculate_total_buffered_bytes
    (with_sets d (delete k (ipv4_sets d)) (ipv6_sets d) (total_buffered_bytes d)).
Definition remove_ipv6_set (d : TunDefragmenter) (k : Ipv6Key) : TunDefragmenter :=
  recalculate_total_buffered_bytes
    (with_sets d (ipv4_sets d) (delete k (ipv6_sets d)) (total_buffered_bytes d)).

Definition sweep_expired (d : TunDefragmenter) (now : Z) : TunDefragmenter :=
  let m4 := filter (fun kv => now < deadline4 kv.2) (ipv4_sets d) in
  let m6 := filter (fun kv => now < deadline6 kv.2) (ipv6_sets d) in
  let swept := with_sets d m4 m6 (total_buffered_bytes d) in
  let ipv4_changed := negb (bool_decide (size m4 = size (ipv4_sets d))) in
  let ipv6_changed := negb (bool_decide (size m6 = size (ipv6_sets d))) in
  if negb (ipv4_changed || ipv6_changed) then swept
  else recalculate_total_buffered_bytes swept.

Definition run_maintenance_at (d : TunDefragmenter) (now : Z) : TunDefragmenter :=
  if next_cleanup_at d <=? now then
    let d := sweep_expired d now in
    mkDefrag (ipv4_sets d) (ipv6_sets d) (total_buffered_bytes d) (now + CLEANUP_INTERVAL)
      (max_fragment_sets d) (max_fragments_per_set d) (max_bytes_per_set d)
      (max_total_buffered_bytes d)
  else d.

(** The part of both handlers from the insertion of the chunk to the completion
    test: the set, the total and what to do with the set. *)
Inductive Absorbed : Type :=
  | AbsorbedPending
  | ShouldRemove
  | IsComplete (complete : bool).

Definition absorb `{FragmentSet T} (d : TunDefragmenter) (now : Z) (s : T) (total : nat)
    (off : nat) (more_fragments : bool) (payload : bytes) : T * nat * Absorbed :=
  let (chunks, outcome) := insert_chunk (set_chunks s) off payload in
  match outcome with
  | DuplicateExact => (update s (now + REASSEMBLY_TIMEOUT) chunks (set_total s), total, AbsorbedPending)
  | Overlap => (s, total, ShouldRemove)
  | Inserted n =>
    let total := (total + n)%nat in
    let fragment_end := (off + length payload)%nat in
    let '(total_payload_len, inconsistent) :=
      if more_fragments then (set_total s, false)
      else match set_total s with
           | Some existing =>
             if bool_decide (existing = fragment_end) then (Some fragment_end, false)
             else (Some existing, true)
           | None => (Some fragment_end, false)
           end in
    let s := update s (now + REASSEMBLY_TIMEOUT) chunks total_payload_len in
    if (inconsistent : bool) then (s, total, ShouldRemove)
    else if ((max_fragments_per_set d <? length (set_chunks s))%nat
             || (max_bytes_per_set d <? estimated_bytes s)%nat
             || (max_total_buffered_bytes d <? total)%nat)
    then (s, total, ShouldRemove)
    else (s, total, IsComplete (is_complete s))
  end.

(** The header is that of the first fragment. *)
Definition take_header (set : Ipv4FragmentSet) (f : Ipv4Fragment) (total : nat)
    : Ipv4FragmentSet * nat :=
  if bool_decide (header_of4 set = None) && bool_decide (offset4 f = 0%nat)
  then (mkSet4 (deadline4 set) (Some (header4 f)) (chunks4 set) (total_payload_len4 set),
        (total + length (header4 f))%nat)
  else (set, total).

Definition handle_ipv4_fragment (d : TunDefragmenter) (now : Z) (f : Ipv4Fragment)
    : TunDefragmenter * outcome DefragmentedPacket :=
  let existing := ipv4_sets d !! key4 f in
  if bool_decide (existing = None) && (max_fragment_sets d <=? fragment_set_count d)%nat
  then (d, Ok (Dropped "fragment resource limit"))
  else
    let set := default (mkSet4 (now + REASSEMBLY_TIMEOUT) None [] None) existing in
    let '(set, total) := take_header set f (total_buffered_bytes d) in
    let '(set, total, absorbed) :=
      absorb d now set total (offset4 f) (more_fragments4 f) (payload4 f) in
    let d := with_sets d (<[key4 f := set]> (ipv4_sets d)) (ipv6_sets d) total in
    match absorbed with
    | AbsorbedPending => (d, Ok Pending)
    | ShouldRemove => (remove_ipv4_set d (key4 f), Ok (Dropped "fragment sequence dropped"))
    | IsComplete false => (d, Ok Pending)
    | IsComplete true =>
      let d := with_sets d (delete (key4 f) (ipv4_sets d)) (ipv6_sets d) (total_buffered_bytes d) in
      match build set with
      | Err e => (d, Err e)
      | Ok packet => (recalculate_total_buffered_bytes d, Ok (ReadyOwned packet))
      end
    end.

Definition handle_ipv6_fragment (d : TunDefragmenter) (now : Z) (f : Ipv6Fragment)
    : TunDefragmenter * outcome DefragmentedPacket :=
  let existing := ipv6_sets d !! key6 f in
  if bool_decide (existing = None) && (max_fragment_sets d <=? fragment_set_count d)%nat
  then (d, Ok (Dropped "fragment resource limit"))
  else
    let '(set, total) :=
      match existing with
      | None =>
        (mkSet6 (now + REASSEMBLY_TIMEOUT) (prefix6 f) (next_header_field_offset6 f)
           (upper_layer_header6 f) [] None, (total_buffered_bytes d + length (prefix6 f))%nat)
      | Some set => (set, total_buffered_bytes d)
      end in
    let '(set, total, absorbed) :=
      if negb (ipv6_prefix_matches (prefix_of6 set) (prefix6 f))
         || negb (bool_decide (next_header_field_offset_of6 set = next_header_field_offset6 f))
         || negb (bool_decide (upper_layer_header_of6 set = upper_layer_header6 f))
      then (set, total, ShouldRemove)
      else absorb d now set total (offset6 f) (more_fragments6 f) (payload6 f) in
    let d := with_sets d (ipv4_sets d) (<[key6 f := set]> (ipv6_sets d)) total in
    match absorbed with
    | AbsorbedPending => (d, Ok Pending)
    | ShouldRemove => (remove_ipv6_set d (key6 f), Ok (Dropped "fragment sequence dropped"))
    | IsComplete false => (d, Ok Pending)
    | IsComplete true =>
      let d := with_sets d (ipv4_sets d) (delete (key6 f) (ipv6_sets d)) (total_buffered_bytes d) in
      match build set with
      | Err e => (d, Err e)
      | Ok packet => (recalculate_total_buffered_bytes d, Ok (ReadyOwned packet))
      end
    end.

Definition push (d : TunDefragmenter) (now : Z) (packet : bytes)
    : TunDefragmenter * outcome DefragmentedPacket :=
  let d := run_maintenance_at d now in
  match inspect_packet packet with
  | Err e => (d, Err e)
  | Ok Passthrough => (d, Ok ReadyBorrowed)
  | Ok (InspectedIpv4Fragment f) => handle_ipv4_fragment d now f
  | Ok (InspectedIpv6Fragment f) => handle_ipv6_fragment d now f
  end.

(** ** Chunk lists: in order and apart *)
Local Open Scope nat_scope.

Definition apart (a b : FragmentChunk) : Prop := chunk_end a <= offset b.
Definition chunks_ok (cs : list FragmentChunk) : Prop := StronglySorted apart cs.

Lemma insert_chunk_spec cs off d : chunks_ok cs ->
  let (cs', outcome) := insert_chunk cs off d in
  chunks_ok cs' /\
  match outcome with
  | Inserted n => n = length d /\ cs' ≡ₚ mkChunk off d :: cs
                  /\ (forall c, c ∈ cs -> chunk_end c <= off \/ off + length d <= offset c)
  | DuplicateExact => cs' = cs /\ mkChunk off d ∈ cs
  | Overlap => cs' = cs /\ exists c, c ∈ cs /\ offset c < off + length d /\ off < chunk_end c
  end.
Proof.
  induction cs as [|c cs IH]; intros Hok; cbn [insert_chunk].
  { split; [by repeat constructor|]. split; [done|]. split; [done|]. intros c Hc. set_solver. }
  destruct (Nat.leb_spec (off + length d) (offset c)) as [Hle|Hgt].
  { assert (Hall : Forall (fun b => off + length d <= offset b) (c :: cs)).
    { apply StronglySorted_inv in Hok as [_ Hc]. constructor; [done|].
      eapply Forall_impl; [exact Hc|]. unfold apart, chunk_end. simpl. lia. }
    split; [by constructor|]. split; [done|]. split; [done|].
    intros x Hx. right. by apply (proj1 (Forall_forall _ _) Hall). }
  apply StronglySorted_inv in Hok as [Hok Hc].
  destruct (Nat.leb_spec (chunk_end c) off) as [Hle'|Hgt'].
  - specialize (IH Hok). destruct (insert_chunk cs off d) as [cs' outcome]. destruct IH as [Hok' Ho].
    destruct outcome as [n| |].
    + destruct Ho as (-> & Hp & Ha). split.
      * constructor; [done|]. rewrite Hp. constructor; [done|done].
      * split; [done|]. split; [rewrite Hp; constructor|].
        intros x [->|Hx]%elem_of_cons; [by left|by apply Ha].
    + destruct Ho as (-> & Hin). split; [by constructor|]. split; [done|]. by right.
    + destruct Ho as (-> & x & Hx & Hov). split; [by constructor|]. split; [done|]. exists x.
      split; [by right|done].
  - destruct (bool_decide (off = offset c) && _ && _) eqn:E.
    + apply andb_true_iff in E as [[E1 E2]%andb_true_iff E3]. apply bool_decide_eq_true in E1, E3.
      subst off d. split; [by constructor|]. split; [done|]. destruct c. left.
    + split; [by constructor|]. split; [done|]. exists c. split; [left|lia].
Qed.

Lemma chunk_bytes_perm cs cs' : cs ≡ₚ cs' -> chunk_bytes cs = chunk_bytes cs'.
Proof. unfold chunk_bytes. induction 1; simpl; lia. Qed.

(** ** The interface's laws *)
Class FragmentSetLaws (T : Type) `{FragmentSet T} : Prop := {
  update_chunks : forall s d c t, set_chunks (update s d c t) = c;
  update_total : forall s d c t, set_total (update s d c t) = t;
  update_deadline : forall s d c t, set_deadline (update s d c t) = d;
  update_head : forall s d c t, head_bytes (update s d c t) = head_bytes s;
  update_ready : forall s d c t, head_ready (update s d c t) = head_ready s
}.
#[export] Instance laws4 : FragmentSetLaws Ipv4FragmentSet.
Proof. by split. Qed.
#[export] Instance laws6 : FragmentSetLaws Ipv6FragmentSet.
Proof. by split. Qed.
Create Rewrite HintDb frag.
#[export] Hint Rewrite @update_chunks @update_total @update_deadline @update_head @update_ready
  using typeclasses eauto : frag.

Section absorb.
Context {T} `{FragmentSetLaws T}.

Record set_ok (d : TunDefragmenter) (s : T) : Prop := {
  s_chunks : chunks_ok (set_chunks s);
  s_count : length (set_chunks s) <= max_fragments_per_set d;
  s_bytes : estimated_bytes s <= max_bytes_per_set d
}.

Lemma absorb_spec d now (s : T) total off more payload :
  chunks_ok (set_chunks s) ->
  let '(s', total', a) := absorb d now s total off more payload in
  match a with
  | ShouldRemove => True
  | AbsorbedPending =>
    s' = update s (now + REASSEMBLY_TIMEOUT) (set_chunks s) (set_total s) /\ total' = total
    /\ mkChunk off payload ∈ set_chunks s
  | IsComplete b =>
    set_ok d s' /\ total' <= max_total_buffered_bytes d /\ total' = total + length payload
    /\ estimated_bytes s' = estimated_bytes s + length payload
    /\ set_deadline s' = (now + REASSEMBLY_TIMEOUT)%Z
    /\ set_chunks s' ≡ₚ mkChunk off payload :: set_chunks s
    /\ (exists t, s' = update s (now + REASSEMBLY_TIMEOUT) (set_chunks s') t)
    /\ b = is_complete s'
  end.
Proof.
  intros Hok. unfold absorb. pose proof (insert_chunk_spec (set_chunks s) off payload Hok) as Hi.
  destruct (insert_chunk (set_chunks s) off payload) as [cs [n| |]]; destruct Hi as [Hcs Hi]; [|by destruct Hi as [-> ?]|done].
  destruct Hi as (-> & Hp & _). destruct (if more then _ else _) as [t inc]. destruct inc; [done|].
  destruct (_ || _) eqn:E; [done|]. repeat rewrite orb_false_iff in E.
  destruct E as [[E1%Nat.ltb_ge E2%Nat.ltb_ge] E3%Nat.ltb_ge].
  assert (He : estimated_bytes (update s (now + REASSEMBLY_TIMEOUT) cs t) = estimated_bytes s + length payload).
  { unfold estimated_bytes. autorewrite with frag. rewrite (chunk_bytes_perm _ _ Hp).
    unfold chunk_bytes. simpl. lia. }
  autorewrite with frag in *. repeat split; try done; autorewrite with frag; try done; [].
  by exists t.
Qed.
End absorb.

(** ** The invariant

    [gap] is what [total_buffered_bytes] is above the sets' sizes. *)
Definition estimate (d : TunDefragmenter) : nat := buffered_estimate (ipv4_sets d) (ipv6_sets d).

Record wf (d : TunDefragmenter) : Prop := {
  wf4 : map_Forall (fun _ s => set_ok d s) (ipv4_sets d);
  wf6 : map_Forall (fun _ s => set_ok d s) (ipv6_sets d);
  wf_head : map_Forall (fun _ s =>
    header_of4 s = None -> Forall (fun c => offset c <> 0) (chunks4 s)) (ipv4_sets d);
  wf_count : fragment_set_count d <= max_fragment_sets d;
  wf_estimate : estimate d <= total_buffered_bytes d;
  wf_total : total_buffered_bytes d <= max_total_buffered_bytes d
}.

(** The operations leave the limits alone. *)
Definition same_limits (d d' : TunDefragmenter) : Prop :=
  max_fragment_sets d' = max_fragment_sets d /\ max_fragments_per_set d' = max_fragments_per_set d
  /\ max_bytes_per_set d' = max_bytes_per_set d
  /\ max_total_buffered_bytes d' = max_total_buffered_bytes d.

Lemma set_ok_limits `{FragmentSet T} d d' (s : T) : same_limits d d' -> set_ok d s -> set_ok d' s.
Proof. intros (_ & H1 & H2 & _) [? ? ?]. split; [done|by rewrite H1|by rewrite H2]. Qed.

Lemma sets_ok_weaken `{FragmentSet T} `{Countable K} d d' (m m' : gmap K T) :
  same_limits d d' -> map_Forall (fun _ s => set_ok d s) m -> m' ⊆ m ->
  map_Forall (fun _ s => set_ok d' s) m'.
Proof.
  intros Hl Hm Hs. eapply map_Forall_impl; [by apply (map_Forall_weaken _ _ m)|].
  intros k s Hk. by apply (set_ok_limits d).
Qed.

Lemma estimate_delete4 d k :
  buffered_estimate (delete k (ipv4_sets d)) (ipv6_sets d) <= estimate d.
Proof. unfold estimate, buffered_estimate. pose proof (map_sum_delete estimated_bytes (ipv4_sets d) k). lia. Qed.
Lemma estimate_delete6 d k :
  buffered_estimate (ipv4_sets d) (delete k (ipv6_sets d)) <= estimate d.
Proof. unfold estimate, buffered_estimate. pose proof (map_sum_delete estimated_bytes (ipv6_sets d) k). lia. Qed.

(** Dropping sets keeps it, whether or not the total is recomputed. *)
Lemma wf_shrink d m4 m6 total :
  wf d -> m4 ⊆ ipv4_sets d -> m6 ⊆ ipv6_sets d ->
  buffered_estimate m4 m6 <= total <= max_total_buffered_bytes d -> wf (with_sets d m4 m6 total).
Proof.
  intros [H4 H6 Hh Hc He Ht] S4 S6 Htot. split; simpl; try lia.
  - by apply (sets_ok_weaken d _ (ipv4_sets d)).
  - by apply (sets_ok_weaken d _ (ipv6_sets d)).
  - by apply (map_Forall_weaken _ _ (ipv4_sets d)).
  - unfold fragment_set_count in *. simpl. pose proof (map_subseteq_size _ _ S4).
    pose proof (map_subseteq_size _ _ S6). lia.
  - unfold estimate. simpl. lia.
Qed.

Lemma wf_remove4 d k : wf d -> wf (with_sets d (delete k (ipv4_sets d)) (ipv6_sets d)
  (buffered_estimate (delete k (ipv4_sets d)) (ipv6_sets d))).
Proof.
  intros Hw. apply wf_shrink; [done|apply delete_subseteq|done|].
  pose proof (estimate_delete4 d k). destruct Hw. lia.
Qed.
Lemma wf_remove6 d k : wf d -> wf (with_sets d (ipv4_sets d) (delete k (ipv6_sets d))
  (buffered_estimate (ipv4_sets d) (delete k (ipv6_sets d)))).
Proof.
  intros Hw. apply wf_shrink; [done|done|apply delete_subseteq|].
  pose proof (estimate_delete6 d k). destruct Hw. lia.
Qed.

Lemma sweep_wf d now : wf d -> wf (sweep_expired d now)
  /\ same_limits d (sweep_expired d now)
  /\ (estimate d = total_buffered_bytes d ->
      estimate (sweep_expired d now) = total_buffered_bytes (sweep_expired d now)).
Proof.
  intros Hw. unfold sweep_expired. set (m4 := filter _ _). set (m6 := filter _ _).
  assert (S4 : m4 ⊆ ipv4_sets d) by apply map_filter_subseteq.
  assert (S6 : m6 ⊆ ipv6_sets d) by apply map_filter_subseteq.
  assert (He : buffered_estimate m4 m6 <= estimate d).
  { unfold estimate, buffered_estimate, m4, m6.
    pose proof (map_sum_filter estimated_bytes (fun kv => (now < deadline4 kv.2)%Z) (ipv4_sets d)).
    pose proof (map_sum_filter estimated_bytes (fun kv => (now < deadline6 kv.2)%Z) (ipv6_sets d)). lia. }
  cbv zeta. destruct (negb _) eqn:E.
  - split; [|split; [done|]].
    + apply wf_shrink; [done..|]. destruct Hw. lia.
    + apply negb_true_iff, orb_false_iff in E as [E4 E6].
      apply negb_false_iff, bool_decide_eq_true in E4, E6.
      intros Hx. unfold estimate. simpl.
      by rewrite (map_subseteq_size_eq m4 _ S4), (map_subseteq_size_eq m6 _ S6) by lia.
  - split; [|split; [done|done]].
    apply (wf_shrink d m4 m6 (buffered_estimate m4 m6)); [done..|]. destruct Hw. lia.
Qed.

(** One entry of a map replaced by a set of known size. *)
Lemma sum_replace `{FragmentSet T} `{Countable K} (m : gmap K T) k s :
  map_sum estimated_bytes (<[k := s]> m) + match m !! k with Some s0 => estimated_bytes s0 | None => 0 end
  = estimated_bytes s + map_sum estimated_bytes m.
Proof.
  rewrite map_sum_insert. destruct (m !! k) as [s0|] eqn:E.
  - rewrite (map_sum_lookup _ m k s0 E). lia.
  - rewrite delete_id by done. lia.
Qed.

Lemma size_replace {A} `{Countable K} (m : gmap K A) k x :
  size (<[k := x]> m) = match m !! k with Some _ => size m | None => S (size m) end.
Proof. rewrite map_size_insert. by destruct (m !! k). Qed.

(** ** The handlers keep it

    A handler puts back a set bigger by [delta] bytes, with the total bigger by
    as much, or drops the set. *)
Definition put4 (d : TunDefragmenter) (k : Ipv4Key) (s : Ipv4FragmentSet) (total : nat) :=
  with_sets d (<[k := s]> (ipv4_sets d)) (ipv6_sets d) total.
Definition put6 (d : TunDefragmenter) (k : Ipv6Key) (s : Ipv6FragmentSet) (total : nat) :=
  with_sets d (ipv4_sets d) (<[k := s]> (ipv6_sets d)) total.
Definition size_of `{FragmentSet T} (o : option T) : nat :=
  match o with Some s => estimated_bytes s | None => 0 end.

Lemma put4_wf d k s total delta : wf d ->
  (ipv4_sets d !! k = None -> fragment_set_count d < max_fragment_sets d) ->
  set_ok d s -> (header_of4 s = None -> Forall (fun c => offset c <> 0) (chunks4 s)) ->
  estimated_bytes s = size_of (ipv4_sets d !! k) + delta ->
  total = total_buffered_bytes d + delta -> total <= max_total_buffered_bytes d ->
  wf (put4 d k s total)
  /\ (estimate d = total_buffered_bytes d -> estimate (put4 d k s total) = total).
Proof.
  intros [H4 H6 Hh Hc He Ht] Hnew Hs Hhs Hsz Htot Hmax.
  pose proof (sum_replace (ipv4_sets d) k s) as Hsum. unfold size_of in Hsz.
  assert (Hest : estimate (put4 d k s total) = estimate d + delta).
  { unfold estimate, buffered_estimate in *. simpl in *. lia. }
  split; [|simpl; lia]. split; simpl.
  - apply map_Forall_insert_2; [by apply (set_ok_limits d)|]. by apply (sets_ok_weaken d _ (ipv4_sets d)).
  - by apply (sets_ok_weaken d _ (ipv6_sets d)).
  - by apply map_Forall_insert_2.
  - unfold fragment_set_count in *. simpl. rewrite size_replace.
    destruct (ipv4_sets d !! k); [done|]. specialize (Hnew eq_refl). lia.
  - lia.
  - done.
Qed.

Lemma put6_wf d k s total delta : wf d ->
  (ipv6_sets d !! k = None -> fragment_set_count d < max_fragment_sets d) ->
  set_ok d s ->
  estimated_bytes s = size_of (ipv6_sets d !! k) + delta ->
  total = total_buffered_bytes d + delta -> total <= max_total_buffered_bytes d ->
  wf (put6 d k s total)
  /\ (estimate d = total_buffered_bytes d -> estimate (put6 d k s total) = total).
Proof.
  intros [H4 H6 Hh Hc He Ht] Hnew Hs Hsz Htot Hmax.
  pose proof (sum_replace (ipv6_sets d) k s) as Hsum. unfold size_of in Hsz.
  assert (Hest : estimate (put6 d k s total) = estimate d + delta).
  { unfold estimate, buffered_estimate in *. simpl in *. lia. }
  split; [|simpl; lia]. split; simpl.
  - by apply (sets_ok_weaken d _ (ipv4_sets d)).
  - apply map_Forall_insert_2; [by apply (set_ok_limits d)|]. by apply (sets_ok_weaken d _ (ipv6_sets d)).
  - done.
  - unfold fragment_set_count in *. simpl. rewrite size_replace.
    destruct (ipv6_sets d !! k); [done|]. specialize (Hnew eq_refl). lia.
  - lia.
  - done.
Qed.

(** What every step promises: the invariant, the limits, and an exact total
    unless a complete set could not be built. *)
Definition step_ok (d d' : TunDefragmenter) (o : outcome DefragmentedPacket) : Prop :=
  wf d' /\ same_limits d d'
  /\ (estimate d = total_buffered_bytes d -> (exists r, o = Ok r) -> estimate d' = total_buffered_bytes d').

Lemma same_limits_refl d : same_limits d d.
Proof. done. Qed.

Lemma dropped4_ok d k s total r : wf d -> step_ok d (remove_ipv4_set (put4 d k s total) k) (Ok r).
Proof.
  intros Hw. unfold remove_ipv4_set, recalculate_total_buffered_bytes, put4, with_sets. simpl.
  rewrite delete_insert_eq. split; [apply (wf_remove4 d k Hw)|]. split; [done|]. by intros.
Qed.
Lemma dropped6_ok d k s total r : wf d -> step_ok d (remove_ipv6_set (put6 d k s total) k) (Ok r).
Proof.
  intros Hw. unfold remove_ipv6_set, recalculate_total_buffered_bytes, put6, with_sets. simpl.
  rewrite delete_insert_eq. split; [apply (wf_remove6 d k Hw)|]. split; [done|]. by intros.
Qed.

(** A complete set leaves the map; the total is recomputed if it was built. *)
Lemma completed4_ok d k s total : wf d -> total_buffered_bytes d <= total <= max_total_buffered_bytes d ->
  let d1 := with_sets (put4 d k s total) (delete k (ipv4_sets (put4 d k s total)))
              (ipv6_sets (put4 d k s total)) total in
  let '(d', o) := match build s with
                  | Err e => (d1, Err e)
                  | Ok packet => (recalculate_total_buffered_bytes d1, Ok (ReadyOwned packet))
                  end in
  step_ok d d' o.
Proof.
  intros Hw Ht. cbv zeta. pose proof (estimate_delete4 d k) as He. pose proof (wf_estimate d Hw).
  destruct (build s) as [packet|e].
  - apply (dropped4_ok d k s total (ReadyOwned packet) Hw).
  - unfold put4, with_sets. simpl. rewrite delete_insert_eq. split; [|split; [done|by intros _ [? ?]]].
    apply (wf_shrink d _ _ total); [done|apply delete_subseteq|done|lia].
Qed.
Lemma completed6_ok d k s total : wf d -> total_buffered_bytes d <= total <= max_total_buffered_bytes d ->
  let d1 := with_sets (put6 d k s total) (ipv4_sets (put6 d k s total))
              (delete k (ipv6_sets (put6 d k s total))) total in
  let '(d', o) := match build s with
                  | Err e => (d1, Err e)
                  | Ok packet => (recalculate_total_buffered_bytes d1, Ok (ReadyOwned packet))
                  end in
  step_ok d d' o.
Proof.
  intros Hw Ht. cbv zeta. pose proof (estimate_delete6 d k) as He. pose proof (wf_estimate d Hw).
  destruct (build s) as [packet|e].
  - apply (dropped6_ok d k s total (ReadyOwned packet) Hw).
  - unfold put6, with_sets. simpl. rewrite delete_insert_eq. split; [|split; [done|by intros _ [? ?]]].
    apply (wf_shrink d _ _ total); [done|done|apply delete_subseteq|lia].
Qed.

Lemma update_ok `{FragmentSetLaws T} d dl t (s : T) :
  set_ok d s -> set_ok d (update s dl (set_chunks s) t) /\
  estimated_bytes (update s dl (set_chunks s) t) = estimated_bytes s.
Proof.
  intros [Hc Hl Hb]. unfold estimated_bytes in *. autorewrite with frag. split; [|done].
  split; unfold estimated_bytes; by autorewrite with frag.
Qed.

Lemma take_header_spec s0 f total :
  let (s1, total1) := take_header s0 f total in
  exists delta, chunks4 s1 = chunks4 s0 /\ total1 = total + delta
    /\ estimated_bytes s1 = estimated_bytes s0 + delta
    /\ (header_of4 s1 = None -> header_of4 s0 = None /\ offset4 f <> 0)
    /\ (delta = 0 /\ s1 = s0 \/ header_of4 s0 = None /\ offset4 f = 0).
Proof.
  unfold take_header. destruct (bool_decide_reflect (header_of4 s0 = None)) as [Hnone|]; cbn [andb].
  - destruct (bool_decide_reflect (offset4 f = 0)) as [Hz|Hz].
    + exists (length (header4 f)). split; [done|]. split; [done|]. unfold estimated_bytes. simpl.
      rewrite Hnone. split; [lia|]. split; [done|by right].
    + exists 0. simpl. repeat split; try done; try lia; by left.
  - exists 0. simpl. repeat split; try done; try lia; by left.
Qed.

Lemma handle4_ok d now f : wf d ->
  let (d', o) := handle_ipv4_fragment d now f in step_ok d d' o.
Proof.
  intros Hw. unfold handle_ipv4_fragment. set (k := key4 f). destruct (_ && _) eqn:Eres; [done|].
  set (s0 := default _ _).
  assert (Hnew : ipv4_sets d !! k = None -> fragment_set_count d < max_fragment_sets d).
  { intros Hk. rewrite Hk, bool_decide_eq_true_2 in Eres by done. simpl in Eres. by apply Nat.leb_gt in Eres. }
  assert (H0 : chunks_ok (chunks4 s0) /\ estimated_bytes s0 = size_of (ipv4_sets d !! k)
    /\ (header_of4 s0 = None -> Forall (fun c => offset c <> 0) (chunks4 s0))
    /\ (ipv4_sets d !! k = None -> chunks4 s0 = []) /\ (forall s, ipv4_sets d !! k = Some s -> set_ok d s0)).
  { unfold s0. destruct (ipv4_sets d !! k) as [s|] eqn:E; simpl.
    - pose proof (wf4 d Hw k s E) as Hs. split; [apply Hs|]. split; [done|].
      split; [by apply (wf_head d Hw k)|]. split; [done|by intros ? [= <-]].
    - repeat split; try done. constructor. }
  clearbody s0. destruct H0 as (Hc & Hsz & Hh & Hn & Hs).
  pose proof (take_header_spec s0 f (total_buffered_bytes d)) as H1.
  destruct (take_header _ _ _) as [s1 total1]. destruct H1 as (delta & Hc1 & Ht1 & He1 & Hh1 & Hd1). simpl in *. subst total1.
  pose proof (absorb_spec d now s1 (total_buffered_bytes d + delta) (offset4 f) (more_fragments4 f) (payload4 f)) as Ha.
  destruct (absorb _ _ _ _ _ _ _) as [[s2 total2] a]. simpl in Ha. rewrite Hc1 in Ha. specialize (Ha Hc).
  destruct a as [| |b].
  - destruct Ha as (-> & -> & Hin).
    destruct Hd1 as [[-> ->]|[Hnone Hz]].
    + destruct (ipv4_sets d !! k) as [s|] eqn:E; [|rewrite Hn in Hin by done; by apply elem_of_nil in Hin].
      destruct (update_ok d (now + REASSEMBLY_TIMEOUT)%Z (total_payload_len4 s0) s0 (Hs s eq_refl)) as [Hu Hue].
      change (set_chunks s0) with (chunks4 s0) in Hu, Hue.
      destruct (put4_wf d k (update s0 (now + REASSEMBLY_TIMEOUT) (chunks4 s0) (total_payload_len4 s0))
        (total_buffered_bytes d + 0) 0 Hw) as [Hw' Hex]; try done; [by rewrite E|rewrite E; rewrite Hue; simpl in *; lia|
        destruct Hw; lia|].
      split; [done|]. split; [done|]. intros Hx _. by apply Hex.
    + exfalso. specialize (Hh Hnone). rewrite Forall_forall in Hh. by apply (Hh _ Hin).
  - apply (dropped4_ok d k s2 total2 _ Hw).
  - destruct Ha as (Hs2 & Hmax & -> & He2 & _ & Hp & (t & Hup) & ->).
    assert (Hput : wf (put4 d k s2 (total_buffered_bytes d + delta + length (payload4 f)))
      /\ (estimate d = total_buffered_bytes d ->
          estimate (put4 d k s2 (total_buffered_bytes d + delta + length (payload4 f)))
          = total_buffered_bytes d + delta + length (payload4 f))).
    { apply (put4_wf d k s2 _ (delta + length (payload4 f))); try done; try lia.
      intros Hnone. rewrite Hup in Hnone. simpl in Hnone. destruct (Hh1 Hnone) as [Hn0 Hz].
      rewrite Hp. constructor; [done|by apply Hh]. }
    destruct (is_complete s2).
    + apply (completed4_ok d k s2); [done|lia].
    + destruct Hput as [Hw' Hex]. split; [done|]. split; [done|]. intros Hx _. by apply Hex.
Qed.

Lemma handle6_ok d now f : wf d ->
  let (d', o) := handle_ipv6_fragment d now f in step_ok d d' o.
Proof.
  intros Hw. unfold handle_ipv6_fragment. set (k := key6 f). destruct (_ && _) eqn:Eres; [done|].
  assert (Hnew : ipv6_sets d !! k = None -> fragment_set_count d < max_fragment_sets d).
  { intros Hk. rewrite Hk, bool_decide_eq_true_2 in Eres by done. simpl in Eres. by apply Nat.leb_gt in Eres. }
  set (st := match ipv6_sets d !! k with Some _ => _ | None => _ end).
  assert (H1 : exists delta, chunks_ok (chunks6 st.1) /\ st.2 = total_buffered_bytes d + delta
    /\ estimated_bytes st.1 = size_of (ipv6_sets d !! k) + delta
    /\ (chunks6 st.1 = [] \/ delta = 0 /\ set_ok d st.1)).
  { unfold st. destruct (ipv6_sets d !! k) as [s|] eqn:E; simpl.
    - exists 0. pose proof (wf6 d Hw k s E) as Hs. split; [apply Hs|]. split; [lia|]. split; [lia|by right].
    - exists (length (prefix6 f)). split; [constructor|]. split; [done|]. split; [|by left].
      unfold estimated_bytes. simpl. lia. }
  clearbody st. destruct st as [s1 total1]. destruct H1 as (delta & Hc1 & Ht1 & He1 & Hd1). simpl in *. subst total1.
  destruct (_ || _ || _); [apply (dropped6_ok d k s1 _ _ Hw)|].
  pose proof (absorb_spec d now s1 (total_buffered_bytes d + delta) (offset6 f) (more_fragments6 f) (payload6 f) Hc1) as Ha.
  destruct (absorb _ _ _ _ _ _ _) as [[s2 total2] a].
  destruct a as [| |b].
  - destruct Ha as (-> & -> & Hin). destruct Hd1 as [Hnil|[-> Hs]];
      [simpl in Hin; rewrite Hnil in Hin; by apply elem_of_nil in Hin|].
    destruct (update_ok d (now + REASSEMBLY_TIMEOUT)%Z (total_payload_len6 s1) s1 Hs) as [Hu Hue].
    destruct (put6_wf d k _ (total_buffered_bytes d + 0) 0 Hw Hnew Hu) as [Hw' Hex];
      [lia|done|destruct Hw; lia|].
    split; [done|]. split; [done|]. intros Hx _. by apply Hex.
  - apply (dropped6_ok d k s2 total2 _ Hw).
  - destruct Ha as (Hs2 & Hmax & -> & He2 & _ & Hp & (t & Hup) & ->).
    destruct (put6_wf d k s2 (total_buffered_bytes d + delta + length (payload6 f))
      (delta + length (payload6 f)) Hw Hnew Hs2) as [Hw' Hex]; [lia|lia|done|].
    destruct (is_complete s2); [apply (completed6_ok d k s2); [done|lia]|].
    split; [done|]. split; [done|]. intros Hx _. by apply Hex.
Qed.

(** ** Runs *)
Inductive event : Type := Push (now : Z) (packet : bytes) | Maintenance (now : Z).
Definition at_time (e : event) : Z := match e with Push now _ => now | Maintenance now => now end.

Definition step (d : TunDefragmenter) (e : event)
    : TunDefragmenter * option (outcome DefragmentedPacket) :=
  match e with
  | Push now packet => let (d, o) := push d now packet in (d, Some o)
  | Maintenance now => (run_maintenance_at d now, None)
  end.
Fixpoint run (d : TunDefragmenter) (es : list event)
    : TunDefragmenter * list (option (outcome DefragmentedPacket)) :=
  match es with
  | [] => (d, [])
  | e :: es => let (d, o) := step d e in let (d, os) := run d es in (d, o :: os)
  end.

(** A packet that parsed, and then could not be rebuilt. *)
Definition build_error (e : event) (o : option (outcome DefragmentedPacket)) : bool :=
  match e, o with
  | Push _ packet, Some (Err _) => match inspect_packet packet with Ok _ => true | Err _ => false end
  | _, _ => false
  end.

Lemma maintenance_ok d now : wf d ->
  wf (run_maintenance_at d now) /\ same_limits d (run_maintenance_at d now)
  /\ (estimate d = total_buffered_bytes d ->
      estimate (run_maintenance_at d now) = total_buffered_bytes (run_maintenance_at d now)).
Proof.
  intros Hw. unfold run_maintenance_at. destruct (_ <=? _)%Z; [|done].
  destruct (sweep_wf d now Hw) as (Hw' & Hl & He). split; [|done].
  destruct Hw' as [H4 H6 Hh Hc Het Ht]. split; try done.
  - by apply (sets_ok_weaken (sweep_expired d now) _ (ipv4_sets (sweep_expired d now))).
  - by apply (sets_ok_weaken (sweep_expired d now) _ (ipv6_sets (sweep_expired d now))).
Qed.

Lemma step_wf d e : wf d ->
  let (d', o) := step d e in
  wf d' /\ same_limits d d'
  /\ (estimate d = total_buffered_bytes d -> build_error e o = false ->
      estimate d' = total_buffered_bytes d').
Proof.
  intros Hw. destruct e as [now packet|now]; cbn [step].
  - unfold push. destruct (maintenance_ok d now Hw) as (Hw1 & Hl1 & He1).
    set (d1 := run_maintenance_at d now) in *. clearbody d1.
    assert (Hstep : forall d' o, step_ok d1 d' o -> wf d' /\ same_limits d d'
      /\ (estimate d = total_buffered_bytes d -> (exists r, o = Ok r) -> estimate d' = total_buffered_bytes d')).
    { intros d' o (Hw' & Hl' & He'). split; [done|]. split; [|by intros Hx; apply He', He1].
      unfold same_limits in *. intuition congruence. }
    unfold build_error. destruct (inspect_packet packet) as [[|f|f]|e] eqn:Ei.
    + split; [done|]. split; [done|]. by intros Hx _; apply He1.
    + pose proof (handle4_ok d1 now f Hw1) as Hh. destruct (handle_ipv4_fragment d1 now f) as [d' o].
      destruct (Hstep _ _ Hh) as (? & ? & Hx). split; [done|]. split; [done|]. intros Hd Ho.
      destruct o; [|done]. apply Hx; [done|by eexists].
    + pose proof (handle6_ok d1 now f Hw1) as Hh. destruct (handle_ipv6_fragment d1 now f) as [d' o].
      destruct (Hstep _ _ Hh) as (? & ? & Hx). split; [done|]. split; [done|]. intros Hd Ho.
      destruct o; [|done]. apply Hx; [done|by eexists].
    + split; [done|]. split; [done|]. by intros Hx _; apply He1.
  - destruct (maintenance_ok d now Hw) as (Hw' & Hl & He). split; [done|]. split; [done|]. by intros Hx _; apply He.
Qed.

Lemma run_wf es : forall d, wf d ->
  let (d', os) := run d es in
  wf d' /\ same_limits d d' /\ length os = length es
  /\ (estimate d = total_buffered_bytes d -> Forall2 (fun e o => build_error e o = false) es os ->
      estimate d' = total_buffered_bytes d').
Proof.
  induction es as [|e es IH]; intros d Hw; cbn [run]; [done|].
  pose proof (step_wf d e Hw) as Hs. destruct (step d e) as [d1 o]. destruct Hs as (Hw1 & Hl1 & He1).
  specialize (IH d1 Hw1). destruct (run d1 es) as [d' os]. destruct IH as (Hw' & Hl' & Hn & He').
  split; [done|]. split; [unfold same_limits in *; intuition congruence|]. split; [simpl; by rewrite Hn|].
  intros Hx Hf. apply Forall2_cons in Hf as [Ho Hf]. by apply He', Hf; apply He1.
Qed.

Lemma new_wf now mt mb ms mf : wf (new now mt mb ms mf).
Proof.
  split; [apply map_Forall_empty..| | |]; unfold fragment_set_count, estimate, buffered_estimate; simpl.
  - rewrite !map_size_empty. lia.
  - rewrite !map_sum_empty. lia.
  - lia.
Qed.

(** ** Deadlines *)
Local Open Scope Z_scope.

Lemma absorb_deadline `{FragmentSetLaws T} d now (s : T) total off more payload :
  chunks_ok (set_chunks s) ->
  let '(s', _, a) := absorb d now s total off more payload in
  a = ShouldRemove \/ set_deadline s' = now + REASSEMBLY_TIMEOUT.
Proof.
  intros Hok. pose proof (absorb_spec d now s total off more payload Hok) as Ha.
  destruct (absorb _ _ _ _ _ _ _) as [[s' total'] [| |b]].
  - destruct Ha as (-> & _ & _). right. by autorewrite with frag.
  - by left.
  - right. apply Ha.
Qed.

(** A handler touches the set of its fragment's key only, and leaves it with a
    fresh deadline if it leaves it at all. *)
Definition touches {K T} `{Countable K, FragmentSet T} (m m' : gmap K T) (k : K) (now : Z) : Prop :=
  forall k' s, m' !! k' = Some s -> m !! k' = Some s \/ k' = k /\ set_deadline s = now + REASSEMBLY_TIMEOUT.

Lemma touches_delete {K T} `{Countable K, FragmentSet T} (m : gmap K T) k s now :
  touches m (delete k (<[k := s]> m)) k now.
Proof.
  intros k' s' Hk. rewrite delete_insert_eq in Hk. left. by apply lookup_delete_Some in Hk as [_ Hk].
Qed.
Lemma touches_insert {K T} `{Countable K, FragmentSet T} (m : gmap K T) k s now :
  set_deadline s = now + REASSEMBLY_TIMEOUT -> touches m (<[k := s]> m) k now.
Proof.
  intros Hd k' s' Hk. apply lookup_insert_Some in Hk as [[<- <-]|[_ Hk]]; [by right|by left].
Qed.

Lemma handle4_touches d now f : wf d ->
  let d' := (handle_ipv4_fragment d now f).1 in
  ipv6_sets d' = ipv6_sets d /\ next_cleanup_at d' = next_cleanup_at d
  /\ touches (ipv4_sets d) (ipv4_sets d') (key4 f) now.
Proof.
  intros Hw. unfold handle_ipv4_fragment. destruct (_ && _); [by repeat split; left|].
  set (s0 := default _ _).
  assert (Hc : chunks_ok (chunks4 s0)).
  { unfold s0. destruct (ipv4_sets d !! key4 f) as [s|] eqn:E; simpl; [apply (wf4 d Hw _ _ E)|constructor]. }
  clearbody s0. pose proof (take_header_spec s0 f (total_buffered_bytes d)) as H1.
  destruct (take_header _ _ _) as [s1 total1]. destruct H1 as (delta & Hc1 & _).
  pose proof (absorb_deadline d now s1 total1 (offset4 f) (more_fragments4 f) (payload4 f)) as Ha.
  destruct (absorb _ _ _ _ _ _ _) as [[s2 total2] a]. simpl in Ha. rewrite Hc1 in Ha. specialize (Ha Hc).
  destruct a as [| |[|]]; [|..|]; try destruct (build s2); (split; [done|split; [done|]]);
    try apply touches_delete; apply touches_insert; by destruct Ha.
Qed.

Lemma handle6_touches d now f : wf d ->
  let d' := (handle_ipv6_fragment d now f).1 in
  ipv4_sets d' = ipv4_sets d /\ next_cleanup_at d' = next_cleanup_at d
  /\ touches (ipv6_sets d) (ipv6_sets d') (key6 f) now.
Proof.
  intros Hw. unfold handle_ipv6_fragment. destruct (_ && _); [by repeat split; left|].
  set (st := match ipv6_sets d !! key6 f with Some _ => _ | None => _ end).
  assert (Hc : chunks_ok (chunks6 st.1)).
  { unfold st. destruct (ipv6_sets d !! key6 f) as [s|] eqn:E; simpl; [apply (wf6 d Hw _ _ E)|constructor]. }
  clearbody st. destruct st as [s1 total1]. simpl in Hc.
  destruct (_ || _ || _); [split; [done|split; [done|apply touches_delete]]|].
  pose proof (absorb_deadline d now s1 total1 (offset6 f) (more_fragments6 f) (payload6 f) Hc) as Ha.
  destruct (absorb _ _ _ _ _ _ _) as [[s2 total2] a].
  destruct a as [| |[|]]; [|..|]; try destruct (build s2); (split; [done|split; [done|]]);
    try apply touches_delete; apply touches_insert; by destruct Ha.
Qed.

(** Deadlines after an event at time [t]: none is further than the timeout, and
    those that the last sweep left, or that came later, are past its time. *)
Record timely (d : TunDefragmenter) (t : Z) : Prop := {
  t_cleanup : t < next_cleanup_at d <= t + CLEANUP_INTERVAL;
  t4 : forall k s, ipv4_sets d !! k = Some s ->
    next_cleanup_at d - CLEANUP_INTERVAL < deadline4 s <= t + REASSEMBLY_TIMEOUT;
  t6 : forall k s, ipv6_sets d !! k = Some s ->
    next_cleanup_at d - CLEANUP_INTERVAL < deadline6 s <= t + REASSEMBLY_TIMEOUT
}.

Lemma sweep_sets d now :
  ipv4_sets (sweep_expired d now) = filter (fun kv => now < deadline4 kv.2) (ipv4_sets d)
  /\ ipv6_sets (sweep_expired d now) = filter (fun kv => now < deadline6 kv.2) (ipv6_sets d).
Proof. unfold sweep_expired. cbv zeta. by destruct (negb _). Qed.

Lemma maintenance_timely d t now : timely d t -> t <= now -> timely (run_maintenance_at d now) now
  /\ ipv4_sets (run_maintenance_at d now) ⊆ ipv4_sets d
  /\ ipv6_sets (run_maintenance_at d now) ⊆ ipv6_sets d.
Proof.
  intros [Hc H4 H6] Hle. unfold run_maintenance_at, CLEANUP_INTERVAL, REASSEMBLY_TIMEOUT in *.
  destruct (Z.leb_spec (next_cleanup_at d) now).
  - destruct (sweep_sets d now) as [E4 E6]. split; [split; simpl|].
    + unfold CLEANUP_INTERVAL. lia.
    + intros k s Hk. rewrite E4 in Hk. apply map_lookup_filter_Some in Hk as [Hk Hd]. simpl in Hd.
      specialize (H4 k s Hk). unfold CLEANUP_INTERVAL, REASSEMBLY_TIMEOUT. lia.
    + intros k s Hk. rewrite E6 in Hk. apply map_lookup_filter_Some in Hk as [Hk Hd]. simpl in Hd.
      specialize (H6 k s Hk). unfold CLEANUP_INTERVAL, REASSEMBLY_TIMEOUT. lia.
    + simpl. rewrite E4, E6. split; apply map_filter_subseteq.
  - split; [|done]. split; unfold CLEANUP_INTERVAL, REASSEMBLY_TIMEOUT; [lia|..].
    + intros k s Hk. specialize (H4 k s Hk). lia.
    + intros k s Hk. specialize (H6 k s Hk). lia.
Qed.

Lemma touches_timely {K T} `{Countable K, FragmentSet T} (m m' : gmap K T) k lo now :
  touches m m' k now -> lo < now + REASSEMBLY_TIMEOUT ->
  (forall k s, m !! k = Some s -> lo < set_deadline s <= now + REASSEMBLY_TIMEOUT) ->
  forall k s, m' !! k = Some s -> lo < set_deadline s <= now + REASSEMBLY_TIMEOUT.
Proof.
  intros Ht Hlo Hm k' s Hk. destruct (Ht _ _ Hk) as [Hold|[-> ->]]; [by apply (Hm k')|lia].
Qed.

(** The keys of the packet of an event. *)
Definition pushes4 (k : Ipv4Key) (e : event) : Prop :=
  exists now packet f, e = Push now packet /\ inspect_packet packet = Ok (InspectedIpv4Fragment f) /\ key4 f = k.
Definition pushes6 (k : Ipv6Key) (e : event) : Prop :=
  exists now packet f, e = Push now packet /\ inspect_packet packet = Ok (InspectedIpv6Fragment f) /\ key6 f = k.

Lemma step_timely d t e : wf d -> timely d t -> t <= at_time e ->
  timely (step d e).1 (at_time e)
  /\ (forall k s, ipv4_sets (step d e).1 !! k = Some s -> ipv4_sets d !! k = Some s \/ pushes4 k e)
  /\ (forall k s, ipv6_sets (step d e).1 !! k = Some s -> ipv6_sets d !! k = Some s \/ pushes6 k e).
Proof.
  intros Hw Ht Hle. destruct e as [now packet|now]; cbn [step at_time fst] in *;
    destruct (maintenance_timely d t now Ht Hle) as (Ht1 & S4 & S6).
  2: { split; [done|]. split; intros k s Hk; left; by eapply lookup_weaken. }
  unfold push. destruct (maintenance_ok d now Hw) as (Hw1 & _).
  set (d1 := run_maintenance_at d now) in *. clearbody d1.
  destruct (inspect_packet packet) as [[|f|f]|e] eqn:Ei; cbn [fst].
  - split; [done|]. split; intros k s Hk; left; by eapply lookup_weaken.
  - destruct (handle4_touches d1 now f Hw1) as (E6 & En & Htc).
    destruct (handle_ipv4_fragment d1 now f) as [d' o]. simpl in *. destruct Ht1 as [Hc H4 H6]. split; [split|].
    + by rewrite En.
    + rewrite En. apply (touches_timely _ _ _ _ _ Htc); [unfold REASSEMBLY_TIMEOUT, CLEANUP_INTERVAL in *; lia|apply H4].
    + rewrite E6, En. apply H6.
    + split; intros k s Hk.
      * destruct (Htc k s Hk) as [Hold|[-> _]]; [left; by eapply lookup_weaken|right; by exists now, packet, f].
      * left. rewrite E6 in Hk. by eapply lookup_weaken.
  - destruct (handle6_touches d1 now f Hw1) as (E4 & En & Htc).
    destruct (handle_ipv6_fragment d1 now f) as [d' o]. simpl in *. destruct Ht1 as [Hc H4 H6]. split; [split|].
    + by rewrite En.
    + rewrite E4, En. apply H4.
    + rewrite En. apply (touches_timely _ _ _ _ _ Htc); [unfold REASSEMBLY_TIMEOUT, CLEANUP_INTERVAL in *; lia|apply H6].
    + split; intros k s Hk.
      * left. rewrite E4 in Hk. by eapply lookup_weaken.
      * destruct (Htc k s Hk) as [Hold|[-> _]]; [left; by eapply lookup_weaken|right; by exists now, packet, f].
  - split; [done|]. split; intros k s Hk; left; by eapply lookup_weaken.
Qed.

Fixpoint monotone (t : Z) (es : list event) : Prop :=
  match es with [] => True | e :: es => t <= at_time e /\ monotone (at_time e) es end.
Definition final_time (t : Z) (es : list event) : Z := foldl (fun _ e => at_time e) t es.

Lemma run_app d es1 es2 : (run d (es1 ++ es2)).1 = (run (run d es1).1 es2).1.
Proof.
  revert d. induction es1 as [|e es1 IH]; intros d; [done|]. cbn [run app].
  destruct (step d e) as [d1 o]. specialize (IH d1).
  destruct (run d1 (es1 ++ es2)) as [x xs]. destruct (run d1 es1) as [y ys]. exact IH.
Qed.

Lemma monotone_app t es1 es2 :
  monotone t (es1 ++ es2) <-> monotone t es1 /\ monotone (final_time t es1) es2.
Proof.
  revert t. induction es1 as [|e es1 IH]; intros t; cbn [monotone app]; [by intuition|].
  rewrite IH. unfold final_time. simpl. by intuition.
Qed.

Lemma run_timely es : forall d t, wf d -> timely d t -> monotone t es ->
  timely (run d es).1 (final_time t es)
  /\ (forall k s, ipv4_sets (run d es).1 !! k = Some s -> ipv4_sets d !! k = Some s \/ Exists (pushes4 k) es)
  /\ (forall k s, ipv6_sets (run d es).1 !! k = Some s -> ipv6_sets d !! k = Some s \/ Exists (pushes6 k) es).
Proof.
  induction es as [|e es IH]; intros d t Hw Ht Hm; cbn [run].
  { split; [done|]. by split; left. }
  destruct Hm as [Hle Hm]. pose proof (step_wf d e Hw) as Hs.
  destruct (step_timely d t e Hw Ht Hle) as (Ht1 & H4 & H6).
  destruct (step d e) as [d1 o]. destruct Hs as [Hw1 _]. simpl in *.
  destruct (IH d1 (at_time e) Hw1 Ht1 Hm) as (Ht' & H4' & H6').
  destruct (run d1 es) as [d' os]. simpl in *. split; [done|]. split; intros k s Hk.
  - destruct (H4' k s Hk) as [Hk1|]; [|by right; right]. destruct (H4 k s Hk1); [by left|by right; left].
  - destruct (H6' k s Hk) as [Hk1|]; [|by right; right]. destruct (H6 k s Hk1); [by left|by right; left].
Qed.

Lemma new_timely t mt mb ms mf : timely (new t mt mb ms mf) t.
Proof. split; simpl; [unfold CLEANUP_INTERVAL; lia|..]; intros k s Hk; by rewrite lookup_empty in Hk. Qed.

(** ** Properties *)

(** Whatever packets arrive and whenever maintenance runs, the defragmenter
    stays within its limits: the number of fragment sets, the number of
    fragments and of bytes of each, and the total. The total counter is never
    below the bytes really buffered, and it is equal to them as long as no
    complete set failed to be rebuilt. *)
Theorem defrag_bounded t0 max_total max_bytes max_sets max_fragments es :
  let d := (run (new t0 max_total max_bytes max_sets max_fragments) es).1 in
  let outcomes := (run (new t0 max_total max_bytes max_sets max_fragments) es).2 in
  (fragment_set_count d <= max_sets)%nat
  /\ map_Forall (fun _ s => (length (chunks4 s) <= max_fragments /\ estimated_bytes s <= max_bytes)%nat)
       (ipv4_sets d)
  /\ map_Forall (fun _ s => (length (chunks6 s) <= max_fragments /\ estimated_bytes s <= max_bytes)%nat)
       (ipv6_sets d)
  /\ (estimate d <= total_buffered_bytes d <= max_total)%nat
  /\ (Forall2 (fun e o => build_error e o = false) es outcomes ->
      estimate d = total_buffered_bytes d).
Proof.
  cbv zeta. pose proof (run_wf es _ (new_wf t0 max_total max_bytes max_sets max_fragments)) as H.
  destruct (run _ es) as [d os]. destruct H as ([H4 H6 _ Hc He Ht] & (L1 & L2 & L3 & L4) & _ & Hx).
  simpl in *. rewrite L1, L4 in *. split; [done|].
  split; [intros k s Hk; destruct (H4 k s Hk); simpl in *; lia|].
  split; [intros k s Hk; destruct (H6 k s Hk); simpl in *; lia|]. split; [done|].
  apply Hx. unfold estimate, buffered_estimate. simpl. by rewrite !map_sum_empty.
Qed.

(** A fragment set nobody completes goes away: once a key has received no
    fragment for the reassembly timeout and a cleanup interval, at the first
    event at or after that time its set is gone, whatever else the
    defragmenter is doing. *)
Theorem defrag_timeout t0 max_total max_bytes max_sets max_fragments es1 es2 k4 k6 :
  let d := new t0 max_total max_bytes max_sets max_fragments in
  monotone t0 (es1 ++ es2) ->
  final_time t0 es1 + REASSEMBLY_TIMEOUT + CLEANUP_INTERVAL <= final_time t0 (es1 ++ es2) ->
  (Forall (fun e => ~ pushes4 k4 e) es2 -> ipv4_sets (run d (es1 ++ es2)).1 !! k4 = None)
  /\ (Forall (fun e => ~ pushes6 k6 e) es2 -> ipv6_sets (run d (es1 ++ es2)).1 !! k6 = None).
Proof.
  intros d [Hm1 Hm2]%monotone_app Hfin. rewrite run_app.
  pose proof (run_wf es1 d (new_wf _ _ _ _ _)) as Hw.
  destruct (run_timely es1 d t0 (new_wf _ _ _ _ _) (new_timely _ _ _ _ _) Hm1) as ([_ H4 H6] & _).
  pose proof (run_timely es1 d t0 (new_wf _ _ _ _ _) (new_timely _ _ _ _ _) Hm1) as (Ht & _).
  destruct (run d es1) as [d1 os]. destruct Hw as [Hw _]. simpl in *.
  destruct (run_timely es2 d1 _ Hw Ht Hm2) as ([Hc H4' H6'] & E4 & E6).
  unfold final_time in *. rewrite foldl_app in Hfin.
  unfold REASSEMBLY_TIMEOUT, CLEANUP_INTERVAL in *. split; intros Hno.
  - destruct (ipv4_sets (run d1 es2).1 !! k4) as [s|] eqn:Hk; [|done]. exfalso.
    destruct (E4 _ _ Hk) as [Hold|Hex]; [|by apply Exists_exists in Hex as (e & He & Hp); apply (proj1 (Forall_forall _ _) Hno e He)].
    specialize (H4 _ _ Hold). specialize (H4' _ _ Hk). lia.
  - destruct (ipv6_sets (run d1 es2).1 !! k6) as [s|] eqn:Hk; [|done]. exfalso.
    destruct (E6 _ _ Hk) as [Hold|Hex]; [|by apply Exists_exists in Hex as (e & He & Hp); apply (proj1 (Forall_forall _ _) Hno e He)].
    specialize (H6 _ _ Hold). specialize (H6' _ _ Hk). lia.
Qed.

Definition example_fragment (at_ : nat) (more : bool) (len : nat) : bytes :=
  let field := Z.of_nat (at_ / 8) + (if more then 0x2000 else 0) in
  map u8 [0x45; 0] ++ be_bytes 2 (Z.of_nat (20 + len)) ++ map u8 [0; 9] ++ be_bytes 2 field
  ++ map u8 [64; 17; 0; 0; 10; 0; 0; 1; 10; 0; 0; 2] ++ replicate len x61.
Definition example_key : Ipv4Key := mkKey4 (map u8 [10; 0; 0; 1]) (map u8 [10; 0; 0; 2]) (u8 17) 9.

Definition example_events : list event :=
  [Push 100 (example_fragment 0 true 16); Push 200 (example_fragment 32 false 8)].
Lemma defrag_timeout_witness :
  let d := new 0 4096 1024 8 16 in
  monotone 0 (example_events ++ [Maintenance 30200])
  /\ ipv4_sets (run d example_events).1 !! example_key <> None
  /\ ipv4_sets (run d (example_events ++ [Maintenance 30200])).1 !! example_key = None.
Proof.
  cbv zeta. assert (Hm : monotone 0 (example_events ++ [Maintenance 30200])) by (simpl; lia).
  split; [done|]. split; [vm_compute; discriminate|].
  apply (defrag_timeout 0 4096 1024 8 16 example_events [Maintenance 30200] example_key
           (mkKey6 [] [] 0 x00) Hm); [vm_compute; discriminate|].
  constructor; [|constructor]. by intros (now & packet & f & H & _).
Defined.

(** A set whose packet would exceed the maximum length leaves the map when its
    last fragment arrives, but the bytes stay in the total until some other set
    is dropped or completed: the early return of the build error skips the
    recomputation. *)
Example oversized_set_leaks :
  let d := new 0 MAX_TOTAL_BUFFERED_BYTES MAX_BYTES_PER_SET MAX_FRAGMENT_SETS MAX_FRAGMENTS_PER_SET in
  let '(d', outcomes) := run d [Push 1 (example_fragment 0 true (Z.to_nat 65512)); Push 2 (example_fragment (Z.to_nat 65512) false 24)] in
  fragment_set_count d' = 0%nat /\ estimate d' = 0%nat
  /\ Z.of_nat (total_buffered_bytes d') = 65556
  /\ outcomes = [Some (Ok Pending); Some (Err "IPv4 reassembled packet exceeds maximum length"%string)].
Proof. vm_compute. repeat split. Qed.
