(* ===== verification/DefragIpv4.v ===== *)
(** What the defragmenter is for: an IPv4 packet cut into fragments comes out as
    it was, whatever the order in which the fragments arrive and however often
    they are repeated. The definitions are those of [Defrag]. *)
From S2P Require Import Prelude IpPacket Defrag.
From Stdlib Require Import Sorted.

(** ** The pieces of a payload *)
Fixpoint pieces (start : nat) (sizes : list nat) : list (nat * nat) :=
  match sizes with
  | [] => []
  | n :: sizes => (start, start + n) :: pieces (start + n) sizes
  end.

Lemma pieces_start start sizes x : x ∈ pieces start sizes -> start <= x.1.
Proof.
  revert start. induction sizes as [|n sizes IH]; intros start Hx; simpl in Hx.
  - by apply elem_of_nil in Hx.
  - apply elem_of_cons in Hx as [->|Hx]; [done|]. specialize (IH _ Hx). lia.
Qed.

Lemma pieces_end start sizes x : x ∈ pieces start sizes -> x.2 <= start + sum_list sizes.
Proof.
  revert start. induction sizes as [|n sizes IH]; intros start Hx; simpl in Hx.
  - by apply elem_of_nil in Hx.
  - apply elem_of_cons in Hx as [->|Hx]; simpl; [lia|]. specialize (IH _ Hx). lia.
Qed.

Lemma pieces_pos start sizes x : Forall (lt 0) sizes -> x ∈ pieces start sizes -> x.1 < x.2.
Proof.
  revert start. induction sizes as [|n sizes IH]; intros start Hp Hx; simpl in Hx.
  - by apply elem_of_nil in Hx.
  - apply Forall_cons in Hp as [Hn Hp]. apply elem_of_cons in Hx as [->|Hx]; simpl; [lia|by eapply IH].
Qed.

Lemma pieces_length start sizes : length (pieces start sizes) = length sizes.
Proof. revert start. induction sizes as [|n sizes IH]; intros start; simpl; [done|by rewrite IH]. Qed.

Lemma pieces_first start sizes x : Forall (lt 0) sizes -> x ∈ pieces start sizes -> x.1 = start ->
  exists n sizes', sizes = n :: sizes' /\ x = (start, start + n).
Proof.
  destruct sizes as [|n sizes]; intros Hp Hx H0; simpl in Hx; [by apply elem_of_nil in Hx|].
  apply elem_of_cons in Hx as [->|Hx]; [by exists n, sizes|]. apply pieces_start in Hx.
  apply Forall_cons in Hp as [Hn _]. lia.
Qed.

Section pieces.
Context (P : bytes).
Definition chunk_of (x : nat * nat) : FragmentChunk := mkChunk x.1 (slice P x.1 x.2).

(** The chunks of the pieces received, in order. *)
Definition received (D : list (nat * nat)) (ps : list (nat * nat)) : list FragmentChunk :=
  chunk_of <$> filter (fun x => x ∈ D) ps.

Lemma chunk_end_of x : x.1 <= x.2 <= length P -> chunk_end (chunk_of x) = x.2.
Proof. intros H. unfold chunk_end, chunk_of. simpl. rewrite slice_length; lia. Qed.

Lemma received_cons D p ps :
  received D (p :: ps) = if bool_decide (p ∈ D) then chunk_of p :: received D ps else received D ps.
Proof. unfold received. rewrite filter_cons. case_decide; case_bool_decide; done. Qed.

Lemma received_other D x ps : x ∉ ps -> received (x :: D) ps = received D ps.
Proof.
  induction ps as [|p ps IH]; intros Hx; [done|]. apply not_elem_of_cons in Hx as [Hp Hx].
  rewrite !received_cons, IH by done. by rewrite (bool_decide_ext (p ∈ x :: D) (p ∈ D)) by set_solver.
Qed.

Lemma received_nil ps : received [] ps = [].
Proof. induction ps as [|p ps IH]; [done|]. by rewrite received_cons, bool_decide_eq_false_2 by apply not_elem_of_nil. Qed.

Lemma received_elem D ps c : c ∈ received D ps -> exists x, x ∈ ps /\ c = chunk_of x.
Proof.
  unfold received. intros (x & -> & Hx)%list_elem_of_fmap. apply list_elem_of_filter in Hx as [_ Hx].
  by exists x.
Qed.

Lemma insert_received D start sizes x :
  Forall (lt 0) sizes -> start + sum_list sizes <= length P -> x ∈ pieces start sizes ->
  insert_chunk (received D (pieces start sizes)) x.1 (slice P x.1 x.2)
  = if bool_decide (x ∈ D) then (received D (pieces start sizes), DuplicateExact)
    else (received (x :: D) (pieces start sizes), Inserted (x.2 - x.1)).
Proof.
  revert start. induction sizes as [|n sizes IH]; intros start Hp Hlen Hx; simpl in Hx, Hlen; [by apply elem_of_nil in Hx|].
  pose proof (pieces_pos start (n :: sizes) x Hp Hx) as Hxp.
  assert (Hxe : x.2 <= length P) by (pose proof (pieces_end start (n :: sizes) x Hx); simpl in *; lia).
  apply Forall_cons in Hp as [Hn Hp]. cbn [pieces]. set (p := (start, start + n)) in *.
  assert (Hsl : length (slice P x.1 x.2) = x.2 - x.1) by (apply slice_length; lia).
  assert (Hpe : chunk_end (chunk_of p) = start + n) by (apply chunk_end_of; simpl; lia).
  assert (Hlater : forall y, y ∈ pieces (start + n) sizes -> start + n <= y.1) by (intros; by eapply pieces_start).
  apply elem_of_cons in Hx as [->|Hx].
  - assert (Hnin : p ∉ pieces (start + n) sizes) by (intros H; specialize (Hlater _ H); simpl in Hlater; lia).
    rewrite !received_cons, (bool_decide_eq_true_2 (p ∈ p :: D)) by left.
    rewrite received_other by done. destruct (bool_decide_reflect (p ∈ D)) as [Hd|Hd].
    + cbn [insert_chunk]. rewrite Hsl, Hpe. simpl.
      rewrite (proj2 (Nat.leb_gt _ _)) by lia. rewrite (proj2 (Nat.leb_gt _ _)) by lia.
      rewrite !bool_decide_eq_true_2; [done|done|lia|done].
    + destruct (received D (pieces (start + n) sizes)) as [|c cs] eqn:E; cbn [insert_chunk]; rewrite Hsl; [done|].
      destruct (received_elem D (pieces (start + n) sizes) c) as (y & Hy & ->); [rewrite E; left|].
      specialize (Hlater y Hy). simpl in *. rewrite (proj2 (Nat.leb_le _ _)) by lia. done.
  - assert (Hne : x <> p) by (intros ->; specialize (Hlater _ Hx); simpl in Hlater; lia).
    specialize (IH (start + n) Hp ltac:(lia) Hx). specialize (Hlater x Hx).
    rewrite !received_cons. rewrite (bool_decide_ext (p ∈ x :: D) (p ∈ D)) by set_solver.
    destruct (bool_decide_reflect (p ∈ D)) as [Hd|Hd]; [|done].
    cbn [insert_chunk]. rewrite Hsl, Hpe. simpl. rewrite (proj2 (Nat.leb_gt _ _)) by lia.
    rewrite (proj2 (Nat.leb_le _ _)) by lia. rewrite IH. by case_bool_decide.
Qed.

Lemma complete_received D start sizes :
  Forall (lt 0) sizes -> start + sum_list sizes <= length P ->
  complete_from start (received D (pieces start sizes)) (start + sum_list sizes)
  = bool_decide (pieces start sizes ⊆ D).
Proof.
  revert start. induction sizes as [|n sizes IH]; intros start Hp Hlen; simpl in Hlen.
  { simpl. apply bool_decide_eq_true_2. lia. }
  apply Forall_cons in Hp as [Hn Hp]. cbn [pieces sum_list]. rewrite received_cons.
  set (p := (start, start + n)).
  destruct (bool_decide_reflect (p ∈ D)) as [Hd|Hd].
  - cbn [complete_from]. rewrite bool_decide_eq_true_2 by done. simpl.
    rewrite slice_length by lia. replace (start + (start + n - start)) with (start + n) by lia.
    rewrite Nat.add_assoc, IH by (done || lia). apply bool_decide_ext. set_solver.
  - rewrite bool_decide_eq_false_2 by set_solver.
    destruct (received D (pieces (start + n) sizes)) as [|c cs] eqn:E; simpl.
    + apply bool_decide_eq_false_2. lia.
    + destruct (received_elem D (pieces (start + n) sizes) c) as (y & Hy & ->); [rewrite E; left|].
      apply pieces_start in Hy. simpl. by rewrite bool_decide_eq_false_2 by lia.
Qed.

Lemma received_bytes D start sizes : start + sum_list sizes <= length P ->
  chunk_bytes (received D (pieces start sizes)) <= sum_list sizes.
Proof.
  revert start. induction sizes as [|n sizes IH]; intros start Hlen; simpl in Hlen; [done|].
  cbn [pieces sum_list]. rewrite received_cons. specialize (IH (start + n) ltac:(lia)).
  case_bool_decide; unfold chunk_bytes in *; simpl; [rewrite slice_length by lia|]; lia.
Qed.

Lemma received_ok D start sizes : Forall (lt 0) sizes -> start + sum_list sizes <= length P ->
  chunks_ok (received D (pieces start sizes)).
Proof.
  revert start. induction sizes as [|n sizes IH]; intros start Hp Hlen; simpl in Hlen; [constructor|].
  apply Forall_cons in Hp as [Hn Hp]. cbn [pieces]. rewrite received_cons.
  specialize (IH (start + n) Hp ltac:(lia)). case_bool_decide; [|done]. constructor; [done|].
  apply Forall_forall. intros c (y & Hy & ->)%received_elem. apply pieces_start in Hy.
  unfold apart. rewrite chunk_end_of by (simpl; lia). simpl. lia.
Qed.

Lemma received_bytes_cons D start sizes x :
  Forall (lt 0) sizes -> start + sum_list sizes <= length P -> x ∈ pieces start sizes -> x ∉ D ->
  chunk_bytes (received (x :: D) (pieces start sizes))
  = chunk_bytes (received D (pieces start sizes)) + (x.2 - x.1).
Proof.
  intros Hp Hlen Hx Hd. pose proof (pieces_end start sizes x Hx).
  pose proof (pieces_pos start sizes x Hp Hx).
  pose proof (insert_chunk_spec _ x.1 (slice P x.1 x.2) (received_ok D start sizes Hp Hlen)) as Hi.
  rewrite insert_received, bool_decide_eq_false_2 in Hi by done. destruct Hi as (_ & _ & Hperm & _).
  rewrite (chunk_bytes_perm _ _ Hperm). unfold chunk_bytes. simpl. rewrite slice_length by lia. lia.
Qed.

Lemma received_all start sizes : start + sum_list sizes <= length P ->
  concat (data <$> (chunk_of <$> pieces start sizes)) = slice P start (start + sum_list sizes).
Proof.
  revert start. induction sizes as [|n sizes IH]; intros start Hlen; simpl in Hlen.
  { simpl. unfold slice. by rewrite Nat.add_0_r, Nat.sub_diag, take_0. }
  cbn [pieces fmap list_fmap concat sum_list]. rewrite IH by lia. simpl. unfold slice.
  replace (start + n - start) with n by lia. replace (start + n + sum_list sizes - (start + n)) with (sum_list sizes) by lia.
  replace (start + (n + sum_list sizes) - start) with (n + sum_list sizes) by lia.
  rewrite <- take_take_drop. by rewrite drop_drop.
Qed.
End pieces.

(** ** Rebuilding *)
Lemma complete_from_sum c cs t : complete_from c cs t = true -> t = c + chunk_bytes cs.
Proof.
  revert c. induction cs as [|x cs IH]; intros c H; cbn [complete_from] in H.
  - apply bool_decide_eq_true in H. unfold chunk_bytes. simpl. lia.
  - case_bool_decide; [|done]. apply IH in H. unfold chunk_bytes in *. simpl. lia.
Qed.

Lemma splice_app_l {A} (h z : list A) i xs : i + length xs <= length h ->
  splice (h ++ z) i xs = splice h i xs ++ z.
Proof.
  intros H. unfold splice. rewrite take_app_le, drop_app_le by lia. by rewrite <- !app_assoc.
Qed.

Lemma copy_chunks_app h z cs : length z = chunk_bytes cs ->
  copy_chunks (h ++ z) (length h) cs = h ++ concat (data <$> cs).
Proof.
  revert h z. induction cs as [|c cs IH]; intros h z Hz; cbn [copy_chunks fmap list_fmap concat].
  { unfold chunk_bytes in Hz. simpl in Hz. destruct z; [by rewrite !app_nil_r|done]. }
  unfold chunk_bytes in Hz. simpl in Hz.
  assert (Hs : splice (h ++ z) (length h) (data c) = (h ++ data c) ++ drop (length (data c)) z).
  { unfold splice. rewrite take_app_length, drop_app_ge by lia. rewrite <- app_assoc. do 3 f_equal. lia. }
  rewrite Hs, <- length_app, IH by (rewrite length_drop; unfold chunk_bytes; lia).
  by rewrite <- app_assoc.
Qed.

Definition blanked (h : bytes) (total_len : nat) : bytes :=
  splice (splice (splice h 2 (be_bytes 2 (Z.of_nat total_len))) 6 (be_bytes 2 0)) 10 (be_bytes 2 0).

Lemma splice_2_length (h : bytes) i z : i + 2 <= length h -> length (splice h i (be_bytes 2 z)) = length h.
Proof. intros H. apply splice_length. by rewrite be_bytes_length. Qed.

Lemma blanked_length h n : 12 <= length h -> length (blanked h n) = length h.
Proof. intros H. unfold blanked. repeat rewrite splice_2_length; lia. Qed.

Lemma build_packet4_complete dl h cs n :
  chunks_are_complete cs n = true -> 12 <= length h -> (Z.of_nat (length h + n) <= 65535)%Z ->
  build_packet4 (mkSet4 dl (Some h) cs (Some n))
  = Ok (splice (blanked h (length h + n)) 10 (be_bytes 2 (checksum16 (blanked h (length h + n))))
        ++ concat (data <$> cs)).
Proof.
  intros Hc Hh Hn. unfold build_packet4. simpl. rewrite Hc. cbn [negb].
  rewrite (proj2 (Z.ltb_ge _ _)) by lia. cbv zeta. f_equal.
  assert (Hsum : n = chunk_bytes cs) by by apply complete_from_sum in Hc.
  assert (H0 : splice (replicate (length h + n) x00) 0 h = h ++ replicate n x00).
  { unfold splice. simpl. f_equal. rewrite drop_replicate. f_equal. lia. }
  rewrite H0. pose proof (blanked_length h (length h + n) Hh) as Hl.
  rewrite !splice_app_l by (rewrite be_bytes_length; repeat rewrite splice_2_length; lia). fold (blanked h (length h + n)).
  set (b := blanked h (length h + n)) in *. rewrite <- Hl. rewrite copy_chunks_app by (rewrite length_replicate; lia).
  rewrite take_app_length. rewrite splice_app_l by (rewrite be_bytes_length; lia). done.
Qed.

(** *** The original packet and its fragments *)

(** An IPv4 packet as a host sends it: lengths that agree, no fragment flags or
    offset, and the checksum of its header. *)
Record whole (o : bytes) (hl : nat) : Prop := {
  whole_header : hl = (Z.to_nat (Z.land (b2z (o !!! 0)) 0x0f) * 4);
  whole_lengths : IPV4_HEADER_LEN <= hl <= length o;
  whole_version : Z.shiftr (b2z (o !!! 0)) 4 = 4%Z;
  whole_total : slice o 2 4 = be_bytes 2 (Z.of_nat (length o));
  whole_max : (Z.of_nat (length o) <= 65535)%Z;
  whole_flags : slice o 6 8 = [x00; x00];
  whole_checksum : slice o 10 12 = be_bytes 2 (checksum16 (splice (take hl o) 10 [x00; x00]))
}.

(** The header of the fragment that carries the piece [x] of the payload, with
    whatever checksum. *)
Definition fragment_header (o : bytes) (hl : nat) (x : nat * nat) (checksum : bytes) : bytes :=
  let more := if x.2 <? length o - hl then 0x2000%Z else 0%Z in
  splice (splice (splice (take hl o) 2 (be_bytes 2 (Z.of_nat (hl + (x.2 - x.1)))))
            6 (be_bytes 2 (Z.of_nat (x.1 / 8) + more))) 10 checksum.
Definition fragment_packet (o : bytes) (hl : nat) (x : nat * nat) (checksum : bytes) : bytes :=
  fragment_header o hl x checksum ++ slice (drop hl o) x.1 x.2.
Definition packet_key (o : bytes) : Ipv4Key :=
  mkKey4 (slice o 12 16) (slice o 16 20) (o !!! 9) (be_val [o !!! 4; o !!! 5]).

(** A list of at least twenty bytes, byte by byte. *)
Lemma twenty (l : bytes) : 20 <= length l -> exists b0 b1 b2 b3 b4 b5 b6 b7 b8 b9 b10 b11 b12 b13 b14
  b15 b16 b17 b18 b19 r,
  l = b0 :: b1 :: b2 :: b3 :: b4 :: b5 :: b6 :: b7 :: b8 :: b9 :: b10 :: b11 :: b12 :: b13 :: b14
      :: b15 :: b16 :: b17 :: b18 :: b19 :: r.
Proof. intros H. do 20 (destruct l as [|? l]; [simpl in H; lia|]). by repeat eexists. Qed.

Lemma header_restored o hl x c : whole o hl -> length c = 2 ->
  splice (blanked (fragment_header o hl x c) (length o)) 10
    (be_bytes 2 (checksum16 (blanked (fragment_header o hl x c) (length o)))) = take hl o.
Proof.
  intros [_ Hl _ Ht _ Hf Hc] Hlc. unfold IPV4_HEADER_LEN in Hl.
  destruct c as [|c0 [|c1 [|]]]; [done|done| |done].
  assert (Hlen : 20 <= length (take hl o)) by (rewrite length_take; lia).
  set (n := length o) in *. clearbody n.
  assert (Ho : o = take hl o ++ drop hl o) by by rewrite take_drop.
  destruct (twenty _ Hlen) as (b0 & b1 & b2 & b3 & b4 & b5 & b6 & b7 & b8 & b9 & b10 & b11 & b12
    & b13 & b14 & b15 & b16 & b17 & b18 & b19 & r & Hh).
  unfold fragment_header, blanked. rewrite Ho, Hh in Ht, Hf. rewrite Hh in Hc |- *.
  assert (Hc' : [b10; b11] = slice o 10 12) by (by rewrite Ho, Hh).
  rewrite Hc in Hc'. rewrite !be_bytes_2 in *. unfold slice, splice in Ht, Hf, Hc', Hc |- *.
  cbn [take drop app length Nat.sub Nat.add] in Ht, Hf, Hc' |- *.
  change (u8 (Z.shiftr 0 8)) with x00. change (u8 0) with x00.
  injection Ht as -> ->. injection Hf as -> ->. injection Hc' as E1 E2. by rewrite E1, E2.
Qed.

Lemma land_flag a : (0 <= a < 8192)%Z -> Z.land a 0x2000 = 0%Z /\ Z.land (a + 0x2000) 0x2000 = 0x2000%Z.
Proof.
  intros Ha. assert (H0 : Z.land a (2 ^ 13) = 0%Z).
  { apply Z.bits_inj'. intros i Hi. rewrite Z.land_spec, Z.bits_0, Z.pow2_bits_eqb by lia.
    destruct (Z.eqb_spec 13 i) as [<-|]; [|by rewrite andb_false_r].
    rewrite (testbit_above a 13) by lia. done. }
  change (2 ^ 13)%Z with 0x2000%Z in H0. split; [exact H0|].
  replace (a + 0x2000)%Z with (Z.lor a 0x2000).
  - by rewrite Z.land_lor_distr_l, H0, Z.land_diag.
  - by rewrite (Z.add_nocarry_lxor a 0x2000 H0), Z.lxor_lor.
Qed.

Lemma fragment_field (a : nat) (more : bool) : (Z.of_nat a < 8192)%Z ->
  let v := (Z.of_nat a + (if more then 0x2000 else 0))%Z in
  (0 <= v < 65536)%Z /\ Z.to_nat (Z.land v IPV4_FRAGMENT_OFFSET_MASK) = a
  /\ (Z.land v IPV4_MF_FLAG =? 0)%Z = negb more.
Proof.
  intros Ha v. unfold IPV4_FRAGMENT_OFFSET_MASK, IPV4_MF_FLAG, v.
  destruct (land_flag (Z.of_nat a)) as [H0 H1]; [lia|].
  change 0x1fff%Z with (Z.ones 13). rewrite Z.land_ones by lia. change (2 ^ 13)%Z with 8192%Z.
  destruct more; cbn [negb].
  - rewrite H1. split; [lia|]. split; [|done].
    replace (Z.of_nat a + 8192)%Z with (Z.of_nat a + 1 * 8192)%Z by lia.
    rewrite Z_mod_plus_full, Z.mod_small by lia. lia.
  - rewrite Z.add_0_r, H0. split; [lia|]. split; [|done]. rewrite Z.mod_small by lia. lia.
Qed.

Lemma u16_pair z : (0 <= z < 65536)%Z -> exists a b, be_bytes 2 z = [a; b] /\ be_val [a; b] = z.
Proof.
  intros Hz. rewrite be_bytes_2. do 2 eexists. split; [done|]. rewrite <- be_bytes_2. by apply be_val_u16.
Qed.

Lemma inspect_fragment o hl x c : whole o hl -> length c = 2 ->
  x.1 < x.2 -> x.2 <= length o - hl -> x.1 mod 8 = 0 ->
  (x.2 < length o - hl -> (x.2 - x.1) mod 8 = 0) -> (x.1 = 0 -> x.2 < length o - hl) ->
  inspect_packet (fragment_packet o hl x c)
  = Ok (InspectedIpv4Fragment
          (mkFragment4 (packet_key o) (fragment_header o hl x c) x.1 (x.2 <? length o - hl)
             (slice (drop hl o) x.1 x.2))).
Proof.
  intros [Hh Hl Hv _ Hm _ _] Hc Hlt Hle Ha Hmul Hfirst. unfold IPV4_HEADER_LEN in Hl.
  destruct c as [|c0 [|c1 [|]]]; [done|done| |done].
  assert (Hlen : 20 <= length (take hl o)) by (rewrite length_take; lia).
  assert (Hpay : length (slice (drop hl o) x.1 x.2) = x.2 - x.1)
    by (apply slice_length; rewrite ?length_drop; lia).
  remember (slice (drop hl o) x.1 x.2) as pay eqn:Epay.
  assert (Ho : o = take hl o ++ drop hl o) by by rewrite take_drop.
  destruct (twenty _ Hlen) as (b0 & b1 & b2 & b3 & b4 & b5 & b6 & b7 & b8 & b9 & b10 & b11 & b12
    & b13 & b14 & b15 & b16 & b17 & b18 & b19 & r & Hb).
  assert (Hr : 20 + length r = hl) by (apply (f_equal length) in Hb; rewrite length_take in Hb; simpl in Hb; lia).
  assert (Hk : packet_key o = mkKey4 [b12; b13; b14; b15] [b16; b17; b18; b19] b9 (be_val [b4; b5]))
    by (rewrite Ho, Hb; done).
  assert (H0 : o !!! 0 = b0) by (rewrite Ho, Hb; done). rewrite H0 in Hh, Hv. rewrite Hk.
  destruct (fragment_field (x.1 / 8) (x.2 <? length o - hl)) as (Hvr & Hoff & Hmf);
    [rewrite Nat2Z.inj_div; apply Z.div_lt_upper_bound; lia|].
  assert (Hx1 : x.1 = x.1 / 8 * 8) by (pose proof (Nat.div_mod x.1 8); lia).
  destruct (u16_pair _ Hvr) as (v0 & v1 & Ev & Hve).
  destruct (u16_pair (Z.of_nat (hl + (x.2 - x.1)))) as (w0 & w1 & Ew & Hwe); [lia|].
  set (h := fragment_header o hl x [c0; c1]).
  assert (Hhd : h = b0 :: b1 :: w0 :: w1 :: b4 :: b5 :: v0 :: v1 :: b8 :: b9 :: c0 :: c1 :: b12 :: b13
    :: b14 :: b15 :: b16 :: b17 :: b18 :: b19 :: r).
  { unfold h, fragment_header. cbv zeta. rewrite Ew, Ev, Hb. done. }
  assert (Hhl : length h = hl) by (rewrite Hhd; simpl; lia).
  set (pkt := fragment_packet o hl x [c0; c1]).
  assert (Hpk : pkt = h ++ pay) by (by rewrite Epay).
  assert (Hlk : forall i, i < 20 -> pkt !!! i = h !!! i).
  { intros i Hi. rewrite Hpk. apply lookup_total_app_l. lia. }
  unfold inspect_packet. rewrite Hpk at 1. rewrite Hhd at 1. cbn [app]. rewrite Hv. cbn [Z.eqb Pos.eqb].
  assert (Hpl : length pkt = hl + (x.2 - x.1)) by (rewrite Hpk, length_app; lia).
  assert (Hsl : slice pkt hl (hl + (x.2 - x.1)) = pay).
  { rewrite Hpk, <- (app_nil_r pay), slice_app_mid with (l2 := pay) by lia. by rewrite app_nil_r. }
  assert (Htk : take hl pkt = h) by (rewrite Hpk; apply take_app_length'; lia).
  assert (Hs1 : slice pkt 12 16 = [b12; b13; b14; b15] /\ slice pkt 16 20 = [b16; b17; b18; b19])
    by (rewrite Hpk, Hhd; done).
  destruct Hs1 as [Hs1 Hs2].
  unfold inspect_ipv4, IPV4_HEADER_LEN. rewrite !Hlk by lia.
  replace (h !!! 0) with b0 by (by rewrite Hhd). replace (h !!! 2) with w0 by (by rewrite Hhd).
  replace (h !!! 3) with w1 by (by rewrite Hhd). replace (h !!! 6) with v0 by (by rewrite Hhd).
  replace (h !!! 7) with v1 by (by rewrite Hhd). replace (h !!! 9) with b9 by (by rewrite Hhd).
  replace (h !!! 4) with b4 by (by rewrite Hhd). replace (h !!! 5) with b5 by (by rewrite Hhd).
  rewrite Hve, Hwe, Hoff, Hmf, <- Hh, Nat2Z.id, Hpl, <- Hx1, negb_involutive, Hsl, Htk, Hs1, Hs2.
  rewrite !ltb_false_ge by lia. cbn [orb].
  destruct (Nat.ltb_spec (x.2) (length o - hl)) as [Hmore|Hlast]; cbn [andb negb].
  - rewrite andb_false_r, Hpay, bool_decide_eq_true_2 by auto. done.
  - rewrite bool_decide_eq_false_2; [done|]. intros Hz. specialize (Hfirst Hz). lia.
Qed.

(** ** The fragments of one packet, in any order

    [d0] is the defragmenter before the first of them; [D] the pieces received
    so far. *)
Section reassembly.
Context (d0 : TunDefragmenter) (k : Ipv4Key) (P h0 : bytes) (sizes : list nat)
  (head : nat * nat -> bytes).

Let ps := pieces 0 sizes.
Let n := length P.
Definition piece_fragment (x : nat * nat) : Ipv4Fragment :=
  mkFragment4 k (head x) x.1 (x.2 <? n) (slice P x.1 x.2).

Hypothesis sizes_pos : Forall (lt 0) sizes.
Hypothesis sizes_sum : sum_list sizes = length P.
Hypothesis head_first : forall x, x ∈ ps -> x.1 = 0 -> head x = h0.
Hypothesis limit_count : fragment_set_count d0 < max_fragment_sets d0.
Hypothesis limit_fragments : length sizes <= max_fragments_per_set d0.
Hypothesis limit_bytes : length h0 + n <= max_bytes_per_set d0.
Hypothesis limit_total : total_buffered_bytes d0 + length h0 + n <= max_total_buffered_bytes d0.
Hypothesis key_free : ipv4_sets d0 !! k = None.

Record rep_set (D : list (nat * nat)) (s : Ipv4FragmentSet) : Prop := {
  r_chunks : chunks4 s = received P D ps;
  r_header : header_of4 s = Some h0 /\ (exists x, x ∈ D /\ x.1 = 0)
             \/ header_of4 s = None /\ (forall x, x ∈ D -> x.1 <> 0);
  r_total : total_payload_len4 s = Some n /\ (exists x, x ∈ D /\ x.2 = n)
            \/ total_payload_len4 s = None /\ (forall x, x ∈ D -> x.2 <> n)
}.
Definition rep (D : list (nat * nat)) (d : TunDefragmenter) : Prop :=
  D = [] /\ d = d0
  \/ D <> [] /\ exists s, rep_set D s /\ d = put4 d0 k s (total_buffered_bytes d0 + estimated_bytes s).

Lemma piece_range x : x ∈ ps -> x.1 < x.2 /\ x.2 <= n.
Proof.
  intros Hx. split; [by apply (pieces_pos 0 sizes)|]. pose proof (pieces_end 0 sizes x Hx) as He.
  unfold n. lia.
Qed.

Lemma rep_bytes D s : rep_set D s -> estimated_bytes s <= length h0 + n.
Proof.
  intros [Hc Hh _]. unfold estimated_bytes. simpl. rewrite Hc.
  pose proof (received_bytes P D 0 sizes ltac:(lia)). fold ps in H. unfold n.
  destruct Hh as [[-> _]|[-> _]]; lia.
Qed.

Lemma received_count D : length (received P D ps) <= length sizes.
Proof.
  unfold received. rewrite length_fmap. etransitivity; [apply length_filter|].
  unfold ps. by rewrite pieces_length.
Qed.

Lemma take_header_piece D s x total : rep_set D s -> x ∈ ps ->
  exists h delta, take_header s (piece_fragment x) total
    = (mkSet4 (deadline4 s) h (chunks4 s) (total_payload_len4 s), total + delta)
  /\ estimated_bytes (mkSet4 (deadline4 s) h (chunks4 s) (total_payload_len4 s)) = estimated_bytes s + delta
  /\ (x ∈ D -> delta = 0)
  /\ (h = Some h0 /\ (exists y, y ∈ x :: D /\ y.1 = 0) \/ h = None /\ (forall y, y ∈ x :: D -> y.1 <> 0)).
Proof.
  intros [_ Hh _] Hx. unfold take_header. simpl. destruct s as [dl h cs t]. simpl in *.
  destruct Hh as [[-> (y & Hy & Hy0)]|[-> Hno]].
  - exists (Some h0), 0. rewrite bool_decide_eq_false_2 by done. simpl.
    split; [by rewrite Nat.add_0_r|]. split; [lia|]. split; [done|]. left. split; [done|]. exists y.
    split; [by right|done].
  - rewrite bool_decide_eq_true_2 by done. simpl.
    destruct (bool_decide_reflect (x.1 = 0)) as [H0|H0].
    + exists (Some h0), (length h0). rewrite (head_first x Hx H0). split; [done|].
      unfold estimated_bytes. simpl. split; [lia|]. split; [intros Hd; by apply Hno in Hd|].
      left. split; [done|]. exists x. split; [left|done].
    + exists None, 0. split; [by rewrite Nat.add_0_r|]. split; [unfold estimated_bytes; simpl; lia|].
      split; [done|]. right. split; [done|]. intros y [->|Hy]%elem_of_cons; [done|by apply Hno].
Qed.

Lemma complete_piece D s : rep_set D s -> D ⊆ ps -> 0 < n ->
  is_complete s = bool_decide (ps ⊆ D).
Proof.
  intros [Hc Hh Ht] HD Hn. unfold is_complete. simpl.
  assert (Hcomp : chunks_are_complete (chunks4 s) n = bool_decide (ps ⊆ D)).
  { rewrite Hc. unfold chunks_are_complete, n. rewrite <- sizes_sum.
    apply (complete_received P D 0 sizes); [done|lia]. }
  assert (Hfst : ps ⊆ D -> exists x, x ∈ D /\ x.1 = 0).
  { intros Hps. destruct sizes as [|a szs] eqn:E; [simpl in sizes_sum; unfold n in Hn; lia|].
    exists (0, 0 + a). split; [apply Hps; left|done]. }
  assert (Hlst : ps ⊆ D -> exists x, x ∈ D /\ x.2 = n).
  { intros Hps. assert (Hex : exists x, x ∈ pieces 0 sizes /\ x.2 = 0 + sum_list sizes).
    { clear - Hn sizes_sum. assert (sizes <> []) by (intros ->; simpl in sizes_sum; unfold n in Hn; lia).
      clear Hn sizes_sum. generalize 0 as st. induction sizes as [|a szs IH]; [done|intros st].
      destruct szs as [|b szs].
      - exists (st, st + a). split; [left|simpl; lia].
      - destruct (IH ltac:(done) (st + a)) as (x & Hx & He). exists x. split; [by right|]. simpl in *. lia. }
    destruct Hex as (x & Hx & He). exists x. split; [by apply Hps|]. unfold n. lia. }
  destruct (bool_decide_reflect (ps ⊆ D)) as [Hps|Hps].
  - destruct Hh as [[-> _]|[_ Hno]]; [|by destruct (Hfst Hps) as (x & Hx & H0); destruct (Hno x Hx)].
    destruct Ht as [[-> _]|[_ Hno]]; [by rewrite Hcomp|by destruct (Hlst Hps) as (x & Hx & H0); destruct (Hno x Hx)].
  - destruct Ht as [[-> _]|[-> _]]; [rewrite Hcomp|]; by rewrite andb_false_r.
Qed.

Lemma absorb_piece now d D s x total : rep_set D s -> x ∈ ps -> D ⊆ ps -> same_limits d0 d ->
  total = total_buffered_bytes d0 + estimated_bytes s ->
  let (s1, total1) := take_header s (piece_fragment x) total in
  let '(s2, total2, a) := absorb d now s1 total1 x.1 (x.2 <? n) (slice P x.1 x.2) in
  total2 = total_buffered_bytes d0 + estimated_bytes s2 /\
  if bool_decide (x ∈ D) then rep_set D s2 /\ a = AbsorbedPending
  else rep_set (x :: D) s2 /\ a = IsComplete (bool_decide (ps ⊆ x :: D)).
Proof.
  intros Hr Hx HD Hl ->. pose proof (piece_range x Hx) as [Hlt Hle].
  destruct (take_header_piece D s x (total_buffered_bytes d0 + estimated_bytes s) Hr Hx)
    as (h & delta & -> & Hest & Hdelta & Hh). destruct Hr as [Hc _ Ht].
  unfold absorb. cbn [set_chunks set4 chunks4]. rewrite Hc.
  pose proof (insert_received P D 0 sizes x sizes_pos ltac:(lia) Hx) as Hins. fold ps in Hins. rewrite Hins.
  assert (Hsl : length (slice P x.1 x.2) = x.2 - x.1) by (apply slice_length; unfold n in Hle; lia).
  destruct (bool_decide_reflect (x ∈ D)) as [Hd|Hd].
  - simpl. rewrite (Hdelta Hd) in Hest. unfold estimated_bytes in Hest |- *. simpl in *.
    rewrite <- Hc. split; [rewrite (Hdelta Hd); lia|]. split; [|done].
    split; simpl; [done| |done].
    destruct Hh as [[-> (y & Hy & H0)]|[-> Hno]]; [left|right]; (split; [done|]).
    + exists y. apply elem_of_cons in Hy as [->|Hy]; done.
    + intros y Hy. apply Hno. by right.
  - cbn [set_total set4 total_payload_len4]. rewrite Hsl. replace (x.1 + (x.2 - x.1)) with x.2 by lia.
    set (tt := if x.2 <? n then _ else _).
    assert (Htt : tt = (if x.2 <? n then total_payload_len4 s else Some n, false)).
    { unfold tt. destruct (Nat.ltb_spec x.2 n) as [|Hge]; [done|]. replace x.2 with n by lia.
      destruct Ht as [[-> _]|[-> _]]; [|done]. by rewrite bool_decide_eq_true_2. }
    rewrite Htt. clear tt Htt. cbn [update set4].
    set (s2 := mkSet4 _ _ _ _).
    assert (Hr2 : rep_set (x :: D) s2).
    { split; simpl; [done|done|]. destruct (Nat.ltb_spec x.2 n) as [Hmore|Hlast].
      - destruct Ht as [[-> (y & Hy & He)]|[-> Hno]]; [left|right]; (split; [done|]).
        + exists y. split; [by right|done].
        + intros y [->|Hy]%elem_of_cons; [lia|by apply Hno].
      - left. split; [done|]. exists x. split; [left|lia]. }
    assert (Hest2 : estimated_bytes s2 = estimated_bytes s + delta + (x.2 - x.1)).
    { rewrite <- Hest. unfold estimated_bytes. simpl.
      rewrite Hc. unfold ps. rewrite (received_bytes_cons P D 0 sizes x sizes_pos ltac:(lia) Hx Hd). lia. }
    pose proof (rep_bytes _ _ Hr2) as Hb2. destruct Hl as (L1 & L2 & L3 & L4).
    pose proof (received_count (x :: D)) as Hcount.
    assert (Hguard : (max_fragments_per_set d <? length (chunks4 s2)) || (max_bytes_per_set d <? estimated_bytes s2)
      || (max_total_buffered_bytes d <? total_buffered_bytes d0 + estimated_bytes s + delta + (x.2 - x.1)) = false).
    { rewrite !ltb_false_ge; [done|lia|lia|]. simpl. lia. }
    rewrite Hguard. split; [lia|]. split; [done|]. f_equal. apply complete_piece; [done| |lia].
    intros y [->|Hy]%elem_of_cons; [done|by apply HD].
Qed.

Hypothesis head_long : 12 <= length h0.
Hypothesis packet_max : (Z.of_nat (length h0 + n) <= 65535)%Z.

Definition restored : bytes :=
  splice (blanked h0 (length h0 + n)) 10 (be_bytes 2 (checksum16 (blanked h0 (length h0 + n)))) ++ P.

Lemma received_complete D : ps ⊆ D -> received P D ps = chunk_of P <$> ps.
Proof.
  intros H. unfold received. f_equal. clear - H. induction ps as [|p l IH]; [done|].
  rewrite filter_cons_True by (apply H; left). f_equal. apply IH. intros y Hy. apply H. by right.
Qed.

Lemma build_restored D s : rep_set D s -> ps ⊆ D -> D ⊆ ps -> 0 < n -> build_packet4 s = Ok restored.
Proof.
  intros Hr Hps HD Hn. pose proof (complete_piece D s Hr HD Hn) as Hcomp.
  rewrite bool_decide_eq_true_2 in Hcomp by done.
  unfold is_complete in Hcomp. apply andb_true_iff in Hcomp as [Hrd Hch]. destruct Hr as [Hc Hh Ht].
  destruct s as [dl h cs t]. simpl in *. destruct Hh as [[-> _]|[-> _]]; [|done].
  destruct Ht as [[-> _]|[-> _]]; [|done]. rewrite build_packet4_complete by (done || lia).
  unfold restored. do 2 f_equal. rewrite Hc, received_complete by done.
  unfold ps. rewrite received_all by lia. rewrite sizes_sum. unfold slice. simpl.
  by rewrite Nat.sub_0_r, firstn_all.
Qed.

Lemma put4_twice s t s' t' : put4 (put4 d0 k s t) k s' t' = put4 d0 k s' t'.
Proof. unfold put4, with_sets. simpl. by rewrite insert_insert_eq. Qed.

(** The set a fragment of the packet finds, fresh or not. *)
Lemma rep_lookup now D d : rep D d ->
  exists s, rep_set D s
    /\ default (mkSet4 (now + REASSEMBLY_TIMEOUT) None [] None) (ipv4_sets d !! k) = s
    /\ total_buffered_bytes d = total_buffered_bytes d0 + estimated_bytes s
    /\ bool_decide (ipv4_sets d !! k = None) && (max_fragment_sets d <=? fragment_set_count d) = false
    /\ same_limits d0 d
    /\ (forall s' t', with_sets d (<[k := s']> (ipv4_sets d)) (ipv6_sets d) t' = put4 d0 k s' t').
Proof.
  intros [[-> ->]|[Hne (s & Hs & ->)]].
  - eexists. rewrite key_free. split; [|split; [done|]].
    + split; simpl.
      * by rewrite received_nil.
      * right. split; [done|]. intros x Hx. by apply elem_of_nil in Hx.
      * right. split; [done|]. intros x Hx. by apply elem_of_nil in Hx.
    + unfold estimated_bytes. simpl. split; [lia|]. split; [|done].
      apply Nat.leb_gt. lia.
  - exists s. split; [done|]. unfold put4 at 1 3. simpl. rewrite lookup_insert_eq. split; [done|].
    split; [done|]. split; [done|]. split; [done|]. intros s' t'. apply (put4_twice s).
Qed.

Lemma handle_piece now D d x : rep D d -> D ⊆ ps -> x ∈ ps -> 0 < n ->
  let (d', o) := handle_ipv4_fragment d now (piece_fragment x) in
  if bool_decide (x ∈ D) then o = Ok Pending /\ rep D d'
  else if bool_decide (ps ⊆ x :: D) then
    o = Ok (ReadyOwned restored) /\ ipv4_sets d' = ipv4_sets d0 /\ ipv6_sets d' = ipv6_sets d0
    /\ total_buffered_bytes d' = estimate d0
  else o = Ok Pending /\ rep (x :: D) d'.
Proof.
  intros Hd HD Hx Hn. destruct (rep_lookup now D d Hd) as (s & Hs & Hdef & Htot & Hres & Hl & Hput).
  unfold handle_ipv4_fragment. cbn [key4 piece_fragment]. rewrite Hres, Hdef, Htot.
  pose proof (absorb_piece now d D s x _ Hs Hx HD Hl eq_refl) as Ha.
  destruct (take_header s _ _) as [s1 total1]. cbn [offset4 more_fragments4 payload4 piece_fragment].
  destruct (absorb d now s1 total1 x.1 (x.2 <? n) (slice P x.1 x.2)) as [[s2 total2] a].
  destruct Ha as [-> Ha]. rewrite Hput. destruct (bool_decide_reflect (x ∈ D)) as [Hin|Hnin].
  - destruct Ha as [Hr2 ->]. split; [done|]. right. split; [by intros ->; apply elem_of_nil in Hin|]. by exists s2.
  - destruct Ha as [Hr2 ->]. destruct (bool_decide_reflect (ps ⊆ x :: D)) as [Hall|Hsome].
    + assert (HxD : x :: D ⊆ ps) by (intros y [->|Hy]%elem_of_cons; [done|by apply HD]).
      cbn [build set4]. rewrite (build_restored (x :: D) s2) by done.
      split; [done|]. simpl. rewrite delete_insert_id by done. done.
    + split; [done|]. right. split; [done|]. by exists s2.
Qed.

(** *** Packets *)
Context (packet : nat * nat -> bytes).
Hypothesis inspected : forall x, x ∈ ps ->
  inspect_packet (packet x) = Ok (InspectedIpv4Fragment (piece_fragment x)).
Hypothesis payload_pos : 0 < n.

Fixpoint push_all (d : TunDefragmenter) (order : list (Z * (nat * nat)))
    : TunDefragmenter * list (outcome DefragmentedPacket) :=
  match order with
  | [] => (d, [])
  | (now, x) :: order =>
    let (d, o) := push d now (packet x) in
    let (d, os) := push_all d order in (d, o :: os)
  end.

Lemma push_piece D d now x : rep D d -> (now < next_cleanup_at d0)%Z -> x ∈ ps ->
  push d now (packet x) = handle_ipv4_fragment d now (piece_fragment x).
Proof.
  intros Hd Hnow Hx. unfold push, run_maintenance_at.
  assert (Hn : next_cleanup_at d = next_cleanup_at d0) by (destruct Hd as [[_ ->]|[_ (s & _ & ->)]]; done).
  rewrite (proj2 (Z.leb_gt _ _)) by lia. by rewrite inspected.
Qed.

Lemma push_all_pending order : forall D d, rep D d -> D ⊆ ps ->
  Forall (fun e => (e.1 < next_cleanup_at d0)%Z /\ e.2 ∈ ps) order ->
  ~ ps ⊆ order.*2 ++ D ->
  exists d' D', push_all d order = (d', replicate (length order) (Ok Pending)) /\ rep D' d'
    /\ D' ⊆ ps /\ (forall y, y ∈ D' <-> y ∈ order.*2 \/ y ∈ D).
Proof.
  induction order as [|[now x] order IH]; intros D d Hd HD Ho Hinc; cbn [push_all length replicate].
  { exists d, D. split; [done|]. split; [done|]. split; [done|]. intros y. split; [by right|].
    intros [Hy|]; [by apply elem_of_nil in Hy|done]. }
  apply Forall_cons in Ho as [[Hnow Hx] Ho]. simpl in Hnow, Hx.
  rewrite (push_piece D) by done. pose proof (handle_piece now D d x Hd HD Hx payload_pos) as Hh.
  destruct (handle_ipv4_fragment d now (piece_fragment x)) as [d1 o].
  assert (Hnext : exists D1, o = Ok Pending /\ rep D1 d1 /\ D1 ⊆ ps /\ (forall y, y ∈ D1 <-> y = x \/ y ∈ D)).
  { destruct (bool_decide_reflect (x ∈ D)) as [Hin|Hnin].
    - destruct Hh as [-> Hr]. exists D. split; [done|]. split; [done|]. split; [done|].
      intros y. split; [by right|]. by intros [->|].
    - destruct (bool_decide_reflect (ps ⊆ x :: D)) as [Hall|_].
      + exfalso. apply Hinc. intros y Hy. apply Hall in Hy. simpl. set_solver.
      + destruct Hh as [-> Hr]. exists (x :: D). split; [done|]. split; [done|].
        split; [intros y [->|Hy]%elem_of_cons; [done|by apply HD]|]. intros y. by rewrite elem_of_cons. }
  destruct Hnext as (D1 & -> & Hr1 & HD1 & HD1y).
  destruct (IH D1 d1 Hr1 HD1 Ho) as (d' & D' & -> & Hr' & HD' & HDy).
  { intros Hall. apply Hinc. intros y Hy. specialize (Hall y Hy). simpl.
    apply elem_of_app in Hall as [Hall|Hall]; [set_solver|]. apply HD1y in Hall. set_solver. }
  exists d', D'. split; [done|]. split; [done|]. split; [done|].
  intros y. rewrite HDy, HD1y. simpl. rewrite elem_of_cons. tauto.
Qed.

Lemma push_all_reassembles order now x :
  Forall (fun e => (e.1 < next_cleanup_at d0)%Z /\ e.2 ∈ ps) order ->
  (now < next_cleanup_at d0)%Z -> x ∈ ps -> x ∉ order.*2 -> ps ⊆ x :: order.*2 ->
  exists d1 d2, push_all d0 order = (d1, replicate (length order) (Ok Pending))
    /\ push d1 now (packet x) = (d2, Ok (ReadyOwned restored))
    /\ ipv4_sets d2 = ipv4_sets d0 /\ ipv6_sets d2 = ipv6_sets d0
    /\ total_buffered_bytes d2 = estimate d0.
Proof.
  intros Ho Hnow Hx Hnin Hall.
  destruct (push_all_pending order [] d0) as (d1 & D & Hp & Hr & HD & HDy); [by left|by intros y Hy; apply elem_of_nil in Hy|done| |].
  { intros H. apply Hnin. specialize (H x Hx). by rewrite app_nil_r in H. }
  exists d1. rewrite (push_piece D) by done. pose proof (handle_piece now D d1 x Hr HD Hx payload_pos) as Hh.
  destruct (handle_ipv4_fragment d1 now (piece_fragment x)) as [d2 o]. exists d2. split; [done|].
  rewrite bool_decide_eq_false_2 in Hh by (rewrite HDy; intros [?|Hn]; [done|by apply elem_of_nil in Hn]).
  rewrite bool_decide_eq_true_2 in Hh.
  - destruct Hh as (-> & -> & -> & ->). done.
  - intros y Hy. apply Hall in Hy. apply elem_of_cons in Hy as [->|Hy]; [left|]. right. apply HDy. by left.
Qed.
End reassembly.

Lemma pieces_aligned start sizes x total : Forall (lt 0) sizes ->
  start mod 8 = 0 -> start + sum_list sizes <= total ->
  (forall y, y ∈ pieces start sizes -> y.2 < total -> y.2 mod 8 = 0) -> x ∈ pieces start sizes ->
  x.1 mod 8 = 0.
Proof.
  revert start. induction sizes as [|a sizes IH]; intros start Hp Hs Hle Hal Hx; simpl in *; [by apply elem_of_nil in Hx|].
  apply Forall_cons in Hp as [Ha Hp]. apply elem_of_cons in Hx as [->|Hx]; [done|].
  apply (IH (start + a)); [done| |lia| |done].
  - assert (Hlt : start + a < total).
    { destruct sizes as [|b sizes]; [by apply elem_of_nil in Hx|]. apply Forall_cons in Hp as [Hb _]. simpl in Hle. lia. }
    apply (Hal (start, start + a)); [left|done].
  - intros y Hy. apply Hal. by right.
Qed.

Lemma fragment_header_length o hl x c : 12 <= hl <= length o -> length c = 2 ->
  length (fragment_header o hl x c) = hl.
Proof.
  intros Hh Hc. unfold fragment_header. cbv zeta.
  assert (H0 : length (take hl o) = hl) by (rewrite length_take; lia).
  rewrite splice_length; repeat rewrite splice_2_length; lia.
Qed.

(** C37: an IPv4 packet cut into fragments comes out of the defragmenter byte for
    byte as it was sent, its header checksum included, whatever the sizes of
    the pieces, the order of the fragments and their repetitions: every
    fragment before the one that closes the last gap is [Pending], that one
    returns the packet, and the state is the one before the first fragment
    with its total recomputed. This holds within the limits, before the next
    cleanup, for a key that has no set yet. *)
Theorem ipv4_reassembles o hl sizes (checksums : nat * nat -> bytes) d order now x :
  whole o hl -> Forall (lt 0) sizes -> sum_list sizes = length o - hl -> 2 <= length sizes ->
  (forall y, y ∈ pieces 0 sizes -> y.2 < length o - hl -> y.2 mod 8 = 0) ->
  (forall y, length (checksums y) = 2) ->
  fragment_set_count d < max_fragment_sets d -> length sizes <= max_fragments_per_set d ->
  length o <= max_bytes_per_set d -> total_buffered_bytes d + length o <= max_total_buffered_bytes d ->
  ipv4_sets d !! packet_key o = None ->
  Forall (fun e => (e.1 < next_cleanup_at d)%Z /\ e.2 ∈ pieces 0 sizes) order ->
  (now < next_cleanup_at d)%Z -> x ∈ pieces 0 sizes -> x ∉ order.*2 -> pieces 0 sizes ⊆ x :: order.*2 ->
  let packet := fun y => fragment_packet o hl y (checksums y) in
  exists d1 d2, push_all packet d order = (d1, replicate (length order) (Ok Pending))
    /\ push d1 now (packet x) = (d2, Ok (ReadyOwned o))
    /\ ipv4_sets d2 = ipv4_sets d /\ ipv6_sets d2 = ipv6_sets d
    /\ total_buffered_bytes d2 = estimate d.
Proof.
  intros Hw Hpos Hsum H2 Hal Hck Hcnt Hfr Hby Htot Hkey Ho Hnow Hx Hnin Hall packet.
  pose proof Hw as [_ Hl _ _ Hmax _ _]. unfold IPV4_HEADER_LEN in Hl.
  assert (Hn : length (drop hl o) = length o - hl) by apply length_drop.
  assert (Hsz : exists s0 s1 rest, sizes = s0 :: s1 :: rest)
    by (destruct sizes as [|s0 [|s1 rest]]; [simpl in H2; lia..|by exists s0, s1, rest]).
  destruct Hsz as (s0 & s1 & rest & Esz).
  assert (Hpos1 : 0 < s1) by (rewrite Esz in Hpos; inversion Hpos as [|? ? ? Hp2]; by inversion Hp2).
  assert (Hn0 : s0 < length o - hl) by (rewrite Esz in Hsum; simpl in Hsum; lia).
  set (h0 := fragment_header o hl (0, s0) (checksums (0, s0))).
  assert (Hh0 : length h0 = hl) by (apply fragment_header_length; [lia|done]).
  assert (Hrest : restored (drop hl o) h0 = o).
  { unfold restored. rewrite Hh0, Hn. replace (hl + (length o - hl)) with (length o) by lia.
    unfold h0. rewrite header_restored by done. apply take_drop. }
  replace (ReadyOwned o) with (ReadyOwned (restored (drop hl o) h0)) by (by rewrite Hrest).
  apply (push_all_reassembles d (packet_key o) (drop hl o) h0 sizes
    (fun y => fragment_header o hl y (checksums y))); try done; try (rewrite ?Hn; lia).
  - intros y Hy H0. destruct (pieces_first 0 sizes y Hpos Hy H0) as (a & sz & E & ->).
    rewrite Esz in E. by injection E as <- _.
  - intros y Hy. unfold piece_fragment. rewrite Hn. unfold packet. apply (inspect_fragment o hl y (checksums y) Hw (Hck y)).
    + by apply (pieces_pos 0 sizes).
    + pose proof (pieces_end 0 sizes y Hy). lia.
    + by apply (pieces_aligned 0 sizes y (length o - hl)); [|done|lia| |].
    + intros Hlt. pose proof (Hal y Hy Hlt) as Hal2.
      assert (H1 : y.1 mod 8 = 0) by (by apply (pieces_aligned 0 sizes y (length o - hl)); [|done|lia| |]).
      pose proof (pieces_pos 0 sizes y Hpos Hy). clear - Hal2 H1 H.
      pose proof (Nat.div_mod y.1 8 ltac:(done)). pose proof (Nat.div_mod y.2 8 ltac:(done)).
      replace (y.2 - y.1) with ((y.2 / 8 - y.1 / 8) * 8) by lia. apply Nat.Div0.mod_mul.
    + intros H0. destruct (pieces_first 0 sizes y Hpos Hy H0) as (a & sz & E & ->).
      rewrite Esz in E. injection E as <- _. done.
Qed.

Definition example_header : bytes :=
  map u8 [0x45; 0; 0; 44; 0x12; 0x34; 0; 0; 64; 17; 0; 0; 10; 0; 0; 1; 10; 0; 0; 2]%Z.
Definition example_packet : bytes :=
  splice example_header 10 (be_bytes 2 (checksum16 example_header)) ++ str "twenty-four payload byte".
Definition example_checksums (x : nat * nat) : bytes := be_bytes 2 (Z.of_nat x.1).
Definition example_defrag : TunDefragmenter := new 0 4096 1024 8 16.

Lemma example_whole : whole example_packet 20.
Proof.
  split; try (vm_compute; reflexivity);
    apply (bool_decide_unpack _); vm_compute; reflexivity.
Qed.

Definition example_order : list (Z * (nat * nat)) := [(1%Z, (8, 16)); (2%Z, (0, 8)); (3%Z, (8, 16))].
Lemma ipv4_reassembles_witness :
  let packet := fun y => fragment_packet example_packet 20 y (example_checksums y) in
  exists d1 d2, push_all packet example_defrag example_order = (d1, replicate 3 (Ok Pending))
    /\ push d1 4 (packet (16, 24)) = (d2, Ok (ReadyOwned example_packet))
    /\ ipv4_sets d2 = ipv4_sets example_defrag /\ ipv6_sets d2 = ipv6_sets example_defrag
    /\ total_buffered_bytes d2 = estimate example_defrag.
Proof.
  apply (ipv4_reassembles example_packet 20 [8; 8; 8] example_checksums example_defrag
    example_order 4 (16, 24)); try exact example_whole; try (vm_compute; reflexivity);
    try (apply (bool_decide_unpack _); vm_compute; reflexivity).
  intros y Hy _. by repeat (apply elem_of_cons in Hy as [->|Hy]; [reflexivity|]); apply elem_of_nil in Hy.
Defined.
