(* ===== verification/TcpTypes.v ===== *)
(** The userspace TCP of the TUN engine, its data
    ([crates/outline-tun/src/tcp/state_machine/types.rs], [wire.rs]) and its
    modular arithmetic ([seq.rs]). The flow state here holds the fields the
    receive path, the validation and the status machine read or write; those of
    the send side are [TcpScoreboard.SendState]. *)
From S2P Require Import Prelude StdText IpPacket.
Local Open Scope Z_scope.

(** ** Sequence arithmetic: [u32], wrapping *)
Definition wadd32 (a b : Z) : Z := (a + b) mod 2 ^ 32.
Definition wsub32 (a b : Z) : Z := (a - b) mod 2 ^ 32.

(** [(lhs.wrapping_sub(rhs) as i32) < 0]: the top bit of the difference. *)
Definition seq_lt (lhs rhs : Z) : bool := 2 ^ 31 <=? wsub32 lhs rhs.
Definition seq_gt (lhs rhs : Z) : bool :=
  (0 <? wsub32 lhs rhs) && (wsub32 lhs rhs <? 2 ^ 31).
Definition seq_ge (lhs rhs : Z) : bool := negb (seq_lt lhs rhs).
Definition timestamp_lt (lhs rhs : Z) : bool := 2 ^ 31 <=? wsub32 lhs rhs.

Definition TCP_FLAG_FIN : Z := 0x01.
Definition TCP_FLAG_SYN : Z := 0x02.
Definition TCP_FLAG_RST : Z := 0x04.
Definition TCP_FLAG_ACK : Z := 0x10.
(** [(flags & FLAG) != 0] *)
Definition has_flag (flags flag : Z) : bool := negb (Z.land flags flag =? 0).

(** ** Packets and segments *)
Record ParsedTcpPacket : Type := mkPacket {
  version : IpVersion;
  source_ip : IpAddr;
  destination_ip : IpAddr;
  source_port : Z;
  destination_port : Z;
  sequence_number : Z;
  acknowledgement_number : Z;
  window_size : Z;
  max_segment_size : option Z;
  window_scale : option Z;
  sack_permitted : bool;
  sack_blocks : list (Z * Z);
  timestamp_value : option Z;
  timestamp_echo_reply : option Z;
  flags : Z;
  payload : bytes
}.

Definition packet_sequence_len (p : ParsedTcpPacket) : Z :=
  zlen (payload p) mod 2 ^ 32
  + (if has_flag (flags p) TCP_FLAG_SYN then 1 else 0)
  + (if has_flag (flags p) TCP_FLAG_FIN then 1 else 0).

Record TrimmedSegment : Type := mkTrimmed { t_seq : Z; t_flags : Z; t_payload : bytes }.
Record BufferedClientSegment : Type := mkBuffered { b_seq : Z; b_flags : Z; b_payload : bytes }.
Record ClientSegmentView : Type := mkView { v_payload : bytes; fin : bool }.

Inductive TcpFlowStatus : Type :=
  | SynReceived | Established | CloseWait | FinWait1 | FinWait2 | Closing | LastAck | TimeWait
  | Closed.
#[export] Instance TcpFlowStatus_eq_dec : EqDecision TcpFlowStatus.
Proof. solve_decision. Defined.

(** Instants and durations are milliseconds. *)
Record TcpFlowState : Type := mkFlow {
  status : TcpFlowStatus;
  status_since : Z;
  last_seen : Z;
  rcv_nxt : Z;
  receive_window_capacity : Z;
  pending_client_data : list bytes;
  pending_client_segments : list BufferedClientSegment;
  timestamps_enabled : bool;
  recent_client_timestamp : option Z;
  client_window_scale : Z;
  client_window : Z;
  client_window_end : Z;
  client_window_update_seq : Z;
  client_window_update_ack : Z;
  server_seq : Z;
  keepalive_probes_sent : Z;
  last_keepalive_probe_at : option Z;
  zero_window_probe_backoff : Z;
  next_zero_window_probe_at : option Z;
  unacked_in_order_segments : Z;
  delayed_ack_deadline : option Z
}.

(** The fields of the configuration the flow logic reads. *)
Record TunTcpConfig : Type := mkTcpConfig {
  max_buffered_client_segments : Z;
  max_buffered_client_bytes : Z;
  handshake_timeout : Z;
  half_close_timeout : Z;
  max_pending_server_bytes : Z;
  backlog_hard_limit_multiplier : Z;
  backlog_no_progress_abort : Z;
  max_retransmits : Z;
  keepalive_idle : option Z;
  keepalive_interval : Z;
  keepalive_max_probes : Z
}.

(** Assignments to a field, as the code writes them. *)
Definition set_receive (s : TcpFlowState) (rcv : Z) (data : list bytes)
    (segs : list BufferedClientSegment) : TcpFlowState :=
  mkFlow (status s) (status_since s) (last_seen s) rcv (receive_window_capacity s) data segs
    (timestamps_enabled s) (recent_client_timestamp s) (client_window_scale s) (client_window s)
    (client_window_end s) (client_window_update_seq s) (client_window_update_ack s) (server_seq s)
    (keepalive_probes_sent s) (last_keepalive_probe_at s) (zero_window_probe_backoff s)
    (next_zero_window_probe_at s) (unacked_in_order_segments s) (delayed_ack_deadline s).
Definition set_capacity (s : TcpFlowState) (capacity : Z) : TcpFlowState :=
  mkFlow (status s) (status_since s) (last_seen s) (rcv_nxt s) capacity (pending_client_data s)
    (pending_client_segments s) (timestamps_enabled s) (recent_client_timestamp s)
    (client_window_scale s) (client_window s) (client_window_end s) (client_window_update_seq s)
    (client_window_update_ack s) (server_seq s) (keepalive_probes_sent s)
    (last_keepalive_probe_at s) (zero_window_probe_backoff s) (next_zero_window_probe_at s)
    (unacked_in_order_segments s) (delayed_ack_deadline s).
Definition set_status (s : TcpFlowState) (st : TcpFlowStatus) (since : Z) : TcpFlowState :=
  mkFlow st since (last_seen s) (rcv_nxt s) (receive_window_capacity s) (pending_client_data s)
    (pending_client_segments s) (timestamps_enabled s) (recent_client_timestamp s)
    (client_window_scale s) (client_window s) (client_window_end s) (client_window_update_seq s)
    (client_window_update_ack s) (server_seq s) (keepalive_probes_sent s)
    (last_keepalive_probe_at s) (zero_window_probe_backoff s) (next_zero_window_probe_at s)
    (unacked_in_order_segments s) (delayed_ack_deadline s).
Definition set_delayed_ack (s : TcpFlowState) (unacked : Z) (deadline : option Z) : TcpFlowState :=
  mkFlow (status s) (status_since s) (last_seen s) (rcv_nxt s) (receive_window_capacity s)
    (pending_client_data s) (pending_client_segments s) (timestamps_enabled s)
    (recent_client_timestamp s) (client_window_scale s) (client_window s) (client_window_end s)
    (client_window_update_seq s) (client_window_update_ack s) (server_seq s)
    (keepalive_probes_sent s) (last_keepalive_probe_at s) (zero_window_probe_backoff s)
    (next_zero_window_probe_at s) unacked deadline.

(** ** Positions

    A byte of the client's stream at position [p] is sent under the sequence
    number [sq isn p]. Comparisons of sequence numbers are comparisons of
    positions as long as these are less than half the number space apart. *)
Definition sq (isn p : Z) : Z := (isn + p) mod 2 ^ 32.

Lemma wsub32_sq isn a b : wsub32 (sq isn a) (sq isn b) = (a - b) mod 2 ^ 32.
Proof.
  unfold wsub32, sq. rewrite <- Zminus_mod. f_equal. lia.
Qed.

Lemma wadd32_sq isn a n : wadd32 (sq isn a) n = sq isn (a + n).
Proof. unfold wadd32, sq. rewrite Zplus_mod_idemp_l. f_equal. lia. Qed.

Lemma mod32_cases d : - 2 ^ 31 < d < 2 ^ 31 ->
  0 <= d /\ d mod 2 ^ 32 = d \/ d < 0 /\ d mod 2 ^ 32 = d + 2 ^ 32.
Proof.
  intros Hd. destruct (Z.le_gt_cases 0 d).
  - left. split; [done|]. apply Z.mod_small. lia.
  - right. split; [done|]. rewrite <- (Z.mod_small (d + 2 ^ 32) (2 ^ 32)) by lia.
    symmetry. replace (d + 2 ^ 32) with (d + 1 * 2 ^ 32) by lia. apply Z_mod_plus_full.
Qed.

Lemma seq_lt_sq isn a b : - 2 ^ 31 < a - b < 2 ^ 31 -> seq_lt (sq isn a) (sq isn b) = (a <? b).
Proof.
  intros H. unfold seq_lt. rewrite wsub32_sq. destruct (mod32_cases _ H) as [[? ->]|[? ->]]; lia.
Qed.

Lemma seq_gt_sq isn a b : - 2 ^ 31 < a - b < 2 ^ 31 -> seq_gt (sq isn a) (sq isn b) = (b <? a).
Proof.
  intros H. unfold seq_gt. rewrite wsub32_sq. destruct (mod32_cases _ H) as [[? ->]|[? ->]]; lia.
Qed.

Lemma seq_ge_sq isn a b : - 2 ^ 31 < a - b < 2 ^ 31 -> seq_ge (sq isn a) (sq isn b) = (b <=? a).
Proof. intros H. unfold seq_ge. rewrite seq_lt_sq by done. lia. Qed.

Lemma wsub32_sq_small isn a b : 0 <= a - b < 2 ^ 32 -> wsub32 (sq isn a) (sq isn b) = a - b.
Proof. intros H. rewrite wsub32_sq. by apply Z.mod_small. Qed.

(** ** Flags *)
Lemma has_flag_land flags a b : Z.land a b = 0 -> has_flag (Z.land flags a) b = false.
Proof. intros H. unfold has_flag. by rewrite <- Z.land_assoc, H, Z.land_0_r. Qed.

Lemma has_flag_keep flags a b : Z.land a b = b -> has_flag (Z.land flags a) b = has_flag flags b.
Proof. intros H. unfold has_flag. by rewrite <- Z.land_assoc, H. Qed.

(** * The status machine of a flow and the policy predicates over it

    ([state_machine/transitions.rs], [policy.rs]) *)
Local Open Scope Z_scope.

(** [now.saturating_duration_since(t)] *)
Definition elapsed_since (now t : Z) : Z := Z.max 0 (now - t).

(** ** Transitions *)
Definition set_flow_status (s : TcpFlowState) (st : TcpFlowStatus) (now : Z) : TcpFlowState :=
  if bool_decide (status s = st) then s else set_status s st now.

Definition client_fin_seen (st : TcpFlowStatus) : bool :=
  match st with CloseWait | Closing | LastAck | TimeWait | Closed => true | _ => false end.
Definition server_fin_sent (st : TcpFlowStatus) : bool :=
  match st with FinWait1 | FinWait2 | Closing | LastAck | TimeWait | Closed => true | _ => false end.
Definition server_fin_awaiting_ack (st : TcpFlowStatus) : bool :=
  match st with FinWait1 | Closing | LastAck => true | _ => false end.

Definition transition_on_client_fin (s : TcpFlowState) (now : Z) : TcpFlowState :=
  match status s with
  | SynReceived | Established => set_flow_status s CloseWait now
  | FinWait1 => set_flow_status s Closing now
  | FinWait2 => set_flow_status s TimeWait now
  | CloseWait | Closing | LastAck | TimeWait | Closed => s
  end.

Definition transition_on_server_fin_ack (s : TcpFlowState) (now : Z) : TcpFlowState * bool :=
  match status s with
  | FinWait1 => (set_flow_status s FinWait2 now, false)
  | Closing => (set_flow_status s TimeWait now, false)
  | LastAck => (set_flow_status s Closed now, true)
  | SynReceived | Established | CloseWait | FinWait2 | TimeWait | Closed => (s, false)
  end.

(** ** Policy *)
Definition segment_requires_ack (sequence_number flags payload_len rcv_nxt : Z) : bool :=
  negb (payload_len =? 0) || has_flag flags TCP_FLAG_FIN || seq_lt sequence_number rcv_nxt.

Definition completes_syn_received_handshake (flags acknowledgement_number sequence_number
    expected_acknowledgement expected_sequence : Z) : bool :=
  has_flag flags TCP_FLAG_ACK && (acknowledgement_number =? expected_acknowledgement)
  && (sequence_number =? expected_sequence).

(** The comparison is the plain one, not the wrapping one. *)
Definition ack_covers_server_fin (flags acknowledgement_number server_seq : Z) : bool :=
  has_flag flags TCP_FLAG_ACK && (server_seq <=? acknowledgement_number).
Definition ack_is_stale_server_fin_retry (flags acknowledgement_number server_seq : Z) : bool :=
  has_flag flags TCP_FLAG_ACK && seq_lt acknowledgement_number server_seq.

Definition is_half_closed_status (st : TcpFlowStatus) : bool :=
  match st with CloseWait | FinWait1 | FinWait2 | Closing | LastAck => true | _ => false end.

Definition TCP_TIME_WAIT_TIMEOUT : Z := 30000.
Definition time_wait_expired (st : TcpFlowStatus) (since now : Z) : bool :=
  bool_decide (st = TimeWait) && (TCP_TIME_WAIT_TIMEOUT <=? elapsed_since now since).
Definition handshake_timed_out (st : TcpFlowStatus) (since handshake_timeout now : Z) : bool :=
  bool_decide (st = SynReceived) && (handshake_timeout <=? elapsed_since now since).
Definition half_close_timed_out (st : TcpFlowStatus) (since half_close_timeout now : Z) : bool :=
  is_half_closed_status st && (half_close_timeout <=? elapsed_since now since).
Definition idle_timed_out (st : TcpFlowStatus) (last_seen idle_timeout now : Z) : bool :=
  negb (bool_decide (st = TimeWait)) && (idle_timeout <=? elapsed_since now last_seen).

Definition zero_window_probe_is_due_from_primitives (client_window : Z)
    (has_pending_data unacked_empty : bool) (next_probe_at : option Z) (now : Z) : bool :=
  if negb (client_window =? 0) || negb has_pending_data || negb unacked_empty then false
  else match next_probe_at with None => true | Some deadline => deadline <=? now end.

Definition keepalive_probes_exhausted (probes_sent max_probes : Z) (last_probe_at : option Z)
    (keepalive_interval now : Z) : bool :=
  (max_probes <=? probes_sent)
  && match last_probe_at with
     | Some last => keepalive_interval <=? elapsed_since now last
     | None => false
     end.

(** The comparison with the plain order: once the number after the FIN has
    wrapped, an acknowledgement that stops short of the FIN covers it. *)
Example short_ack_covers_wrapped_fin :
  ack_covers_server_fin 0x10 (2 ^ 32 - 1) 0 = true /\ ack_is_stale_server_fin_retry 0x10 (2 ^ 32 - 1) 0 = true.
Proof. by vm_compute. Qed.
