(* ===== verification/TcpWire.v ===== *)
(** TCP segments of the TUN device ([crates/outline-tun/src/tcp/wire.rs]): the
    parser of an inbound IP packet, its option walk, and the builders of the
    packets the engine emits: contiguous, vectored (header alone, the payload
    written by the caller) and as a super-segment for kernel segmentation, whose
    checksum is left partial. A [debug_assert] is the release build's no-op. *)
From S2P Require Import Prelude StdText IpPacket TcpTypes.
Local Open Scope Z_scope.

Definition TCP_HEADER_LEN : nat := 20.

(** ** Options *)
Record ParsedTcpOptions : Type := mkOptions {
  o_max_segment_size : option Z;
  o_window_scale : option Z;
  o_sack_permitted : bool;
  o_sack_blocks : list (Z * Z);
  o_timestamp_value : option Z;
  o_timestamp_echo_reply : option Z
}.
Definition default_options : ParsedTcpOptions := mkOptions None None false [] None None.

Definition add_sack_block (blocks : list (Z * Z)) (left right : Z) : list (Z * Z) :=
  if seq_lt left right then blocks ++ [(left, right)] else blocks.
(** The eight-byte chunks of the body. *)
Fixpoint sack_loop (blocks : list (Z * Z)) (body : bytes) : list (Z * Z) :=
  match body with
  | a :: b :: c :: d :: e :: f :: g :: h :: rest =>
    sack_loop (add_sack_block blocks (be_val [a; b; c; d]) (be_val [e; f; g; h])) rest
  | _ => blocks
  end.

Definition apply_option (p : ParsedTcpOptions) (kind : Z) (body : bytes) : ParsedTcpOptions :=
  if (kind =? 2) && (length body =? 2)%nat then
    mkOptions (Some (Z.max (be_val body) 1)) (o_window_scale p) (o_sack_permitted p)
      (o_sack_blocks p) (o_timestamp_value p) (o_timestamp_echo_reply p)
  else if (kind =? 3) && (length body =? 1)%nat then
    mkOptions (o_max_segment_size p) (Some (Z.min (b2z (body !!! 0%nat)) 14)) (o_sack_permitted p)
      (o_sack_blocks p) (o_timestamp_value p) (o_timestamp_echo_reply p)
  else if (kind =? 4) && (length body =? 0)%nat then
    mkOptions (o_max_segment_size p) (o_window_scale p) true
      (o_sack_blocks p) (o_timestamp_value p) (o_timestamp_echo_reply p)
  else if (kind =? 5) && (8 <=? length body)%nat && (length body mod 8 =? 0)%nat then
    mkOptions (o_max_segment_size p) (o_window_scale p) (o_sack_permitted p)
      (sack_loop (o_sack_blocks p) body) (o_timestamp_value p) (o_timestamp_echo_reply p)
  else if (kind =? 8) && (length body =? 8)%nat then
    mkOptions (o_max_segment_size p) (o_window_scale p) (o_sack_permitted p) (o_sack_blocks p)
      (Some (be_val (take 4 body))) (Some (be_val (drop 4 body)))
  else p.

(** The walk. [index] moves by one at least, so the length is fuel enough. *)
Fixpoint options_loop (fuel : nat) (options : bytes) (index : nat) (parsed : ParsedTcpOptions)
    : outcome ParsedTcpOptions :=
  match fuel with
  | O => Err out_of_fuel
  | S fuel =>
    if (index <? length options)%nat then
      let kind := b2z (options !!! index) in
      if kind =? 0 then Ok parsed
      else if kind =? 1 then options_loop fuel options (index + 1) parsed
      else if (length options <=? index + 1)%nat then Err "truncated TCP option header"%string
      else
        let len := Z.to_nat (b2z (options !!! (index + 1)%nat)) in
        if ((len <? 2)%nat || (length options <? index + len)%nat)
        then Err "invalid TCP option length"%string
        else
          let body := slice options (index + 2) (index + len) in
          options_loop fuel options (index + len) (apply_option parsed kind body)
    else Ok parsed
  end.
Definition parse_tcp_options (options : bytes) : outcome ParsedTcpOptions :=
  options_loop (S (length options)) options 0 default_options.

(** ** Parsing *)
Definition tcp_checksum_valid (v : IpVersion) (source_ip destination_ip : IpAddr) (segment : bytes)
    : outcome bool :=
  match v, source_ip, destination_ip with
  | V4, IpAddrV4 s, IpAddrV4 d => Ok (ipv4_payload_checksum s d IPV6_NEXT_HEADER_TCP segment =? 0)
  | V6, IpAddrV6 s, IpAddrV6 d => Ok (ipv6_payload_checksum s d IPV6_NEXT_HEADER_TCP segment =? 0)
  | _, _, _ => Err "unexpected address family while validating TCP checksum"%string
  end.

Definition validate_tcp_checksum (v : IpVersion) (source_ip destination_ip : IpAddr)
    (segment : bytes) : outcome unit :=
  valid ← tcp_checksum_valid v source_ip destination_ip segment;
  if (valid : bool) then Ok tt else Err "invalid TCP checksum"%string.

Definition parse_tcp_segment (v : IpVersion) (source_ip destination_ip : IpAddr) (segment : bytes)
    (checksum : L4Checksum) : outcome ParsedTcpPacket :=
  if (length segment <? TCP_HEADER_LEN)%nat then Err "short TCP segment"%string
  else
    _ ← match checksum with
        | Unverified => validate_tcp_checksum v source_ip destination_ip segment
        | Recomputed => Ok tt
        end;
    let at_ i := segment !!! i in
    let header_len := (Z.to_nat (Z.shiftr (b2z (at_ 12%nat)) 4) * 4)%nat in
    if ((header_len <? TCP_HEADER_LEN)%nat || (length segment <? header_len)%nat)
    then Err "invalid TCP header length"%string
    else
      o ← parse_tcp_options (slice segment TCP_HEADER_LEN header_len);
      Ok (mkPacket v source_ip destination_ip
            (be_val [at_ 0%nat; at_ 1%nat]) (be_val [at_ 2%nat; at_ 3%nat])
            (be_val [at_ 4%nat; at_ 5%nat; at_ 6%nat; at_ 7%nat])
            (be_val [at_ 8%nat; at_ 9%nat; at_ 10%nat; at_ 11%nat])
            (be_val [at_ 14%nat; at_ 15%nat])
            (o_max_segment_size o) (o_window_scale o) (o_sack_permitted o) (o_sack_blocks o)
            (o_timestamp_value o) (o_timestamp_echo_reply o) (b2z (at_ 13%nat))
            (drop header_len segment)).

Definition parse_ipv4_tcp_packet (packet : bytes) (checksum : L4Checksum)
    : outcome ParsedTcpPacket :=
  if (length packet <? IPV4_HEADER_LEN + TCP_HEADER_LEN)%nat then Err "short IPv4 TCP packet"%string
  else
    let header_len := (Z.to_nat (Z.land (b2z (packet !!! 0%nat)) 0x0f) * 4)%nat in
    let total_len := Z.to_nat (be_val [packet !!! 2%nat; packet !!! 3%nat]) in
    if ((header_len <? IPV4_HEADER_LEN)%nat || (total_len <? header_len + TCP_HEADER_LEN)%nat)
    then Err "invalid IPv4 packet lengths"%string
    else if (length packet <? total_len)%nat then Err "truncated IPv4 TCP packet"%string
    else if negb (checksum16 (take header_len packet) =? 0)
    then Err "invalid IPv4 header checksum"%string
    else
      let fragment_field := be_val [packet !!! 6%nat; packet !!! 7%nat] in
      if (negb (Z.land fragment_field 0x1fff =? 0) || negb (Z.land fragment_field 0x2000 =? 0))
      then Err "IPv4 fragments are not supported on TUN TCP path"%string
      else if negb (bool_decide (packet !!! 9%nat = IPV6_NEXT_HEADER_TCP))
      then Err "expected IPv4 TCP packet"%string
      else
        parse_tcp_segment V4 (IpAddrV4 (slice packet 12 16)) (IpAddrV4 (slice packet 16 20))
          (slice packet header_len total_len) checksum.

Definition parse_ipv6_tcp_packet (packet : bytes) (checksum : L4Checksum)
    : outcome ParsedTcpPacket :=
  if (length packet <? IPV6_HEADER_LEN + TCP_HEADER_LEN)%nat then Err "short IPv6 TCP packet"%string
  else
    '(next_header, segment_offset, total_len) ← locate_ipv6_upper_layer packet;
    if bool_decide (next_header = IPV6_NEXT_HEADER_FRAGMENT)
    then Err "IPv6 fragments are not supported on TUN TCP path"%string
    else if negb (bool_decide (next_header = IPV6_NEXT_HEADER_TCP))
    then Err "expected IPv6 TCP packet"%string
    else
      parse_tcp_segment V6 (IpAddrV6 (slice packet 8 24)) (IpAddrV6 (slice packet 24 40))
        (slice packet segment_offset total_len) checksum.

Definition parse_tcp_packet (packet : bytes) (checksum : L4Checksum) : outcome ParsedTcpPacket :=
  match packet with
  | [] => Err "empty TUN TCP packet"%string
  | b :: _ =>
    let version := Z.shiftr (b2z b) 4 in
    if version =? 4 then parse_ipv4_tcp_packet packet checksum
    else if version =? 6 then parse_ipv6_tcp_packet packet checksum
    else Err "unsupported IP version in TUN TCP packet"%string
  end.

(** ** Building

    The header fields the builders all take, in their order. *)
Record header_fields : Type := mkFields {
  f_source_port : Z;
  f_destination_port : Z;
  f_sequence_number : Z;
  f_acknowledgement_number : Z;
  f_flags : Z;
  f_window_size : Z;
  f_options : bytes
}.

Definition write_tcp_header (tcp : bytes) (f : header_fields) : bytes :=
  let header_len := (TCP_HEADER_LEN + length (f_options f))%nat in
  let tcp := splice tcp 0 (be_bytes 2 (f_source_port f)) in
  let tcp := splice tcp 2 (be_bytes 2 (f_destination_port f)) in
  let tcp := splice tcp 4 (be_bytes 4 (f_sequence_number f)) in
  let tcp := splice tcp 8 (be_bytes 4 (f_acknowledgement_number f)) in
  let tcp := splice tcp 12 [u8 (Z.shiftl (b2z (u8 (Z.of_nat (header_len / 4)))) 4)] in
  let tcp := splice tcp 13 [u8 (f_flags f)] in
  let tcp := splice tcp 14 (be_bytes 2 (f_window_size f)) in
  let tcp := splice tcp 18 (be_bytes 2 0) in
  if negb (length (f_options f) =? 0)%nat then splice tcp TCP_HEADER_LEN (f_options f) else tcp.

Inductive TcpChecksumMode : Type := Full | Partial.

Definition tcp_full_checksum (pseudo_a pseudo_b pseudo_c pseudo_d tcp_header : bytes)
    (payload_parts : list bytes) : Z :=
  if (length payload_parts <=? 1)%nat then
    let payload := default [] (head payload_parts) in
    checksum16_parts [pseudo_a; pseudo_b; pseudo_c; pseudo_d; tcp_header; payload]
  else checksum16_parts ([pseudo_a; pseudo_b; pseudo_c; pseudo_d; tcp_header] ++ payload_parts).

(** [!checksum] on a [u16]. *)
Definition not_u16 (c : Z) : Z := Z.lnot c mod 2 ^ 16.
Definition ipv4_tcp_partial_checksum (source destination : bytes) (tcp_len : nat) : Z :=
  not_u16 (checksum16_parts
             [source; destination; [x00; IPV6_NEXT_HEADER_TCP]; be_bytes 2 (Z.of_nat tcp_len)]).
Definition ipv6_tcp_partial_checksum (source destination : bytes) (tcp_len : nat) : Z :=
  not_u16 (checksum16_parts
             [source; destination; be_bytes 4 (Z.of_nat tcp_len);
              [x00; x00; x00; IPV6_NEXT_HEADER_TCP]]).

Definition build_ipv4_tcp_header (source_ip destination_ip : bytes) (f : header_fields)
    (payload_len : nat) (payload_parts : list bytes) (mode : TcpChecksumMode) : outcome bytes :=
  if negb (length (f_options f) mod 4 =? 0)%nat then Err "TCP options must be 32-bit aligned"%string
  else
    let tcp_header_len := (TCP_HEADER_LEN + length (f_options f))%nat in
    let total_len := (IPV4_HEADER_LEN + tcp_header_len + payload_len)%nat in
    let header := replicate (IPV4_HEADER_LEN + tcp_header_len) x00 in
    let header := splice header 0 [u8 0x45] in
    let header := splice header 2 (be_bytes 2 (Z.of_nat total_len)) in
    let header := splice header 8 [u8 64] in
    let header := splice header 9 [u8 6] in
    let header := splice header 12 source_ip in
    let header := splice header 16 destination_ip in
    let header := splice header IPV4_HEADER_LEN (write_tcp_header (drop IPV4_HEADER_LEN header) f) in
    let tcp_checksum :=
      match mode with
      | Full =>
        tcp_full_checksum source_ip destination_ip [x00; IPV6_NEXT_HEADER_TCP]
          (be_bytes 2 (Z.of_nat (tcp_header_len + payload_len))) (drop IPV4_HEADER_LEN header)
          payload_parts
      | Partial => ipv4_tcp_partial_checksum source_ip destination_ip (tcp_header_len + payload_len)
      end in
    let header := splice header (IPV4_HEADER_LEN + 16) (be_bytes 2 tcp_checksum) in
    let header_checksum := checksum16 (take IPV4_HEADER_LEN header) in
    Ok (splice header 10 (be_bytes 2 header_checksum)).

Definition build_ipv6_tcp_header (source_ip destination_ip : bytes) (f : header_fields)
    (payload_len : nat) (payload_parts : list bytes) (mode : TcpChecksumMode) : outcome bytes :=
  if negb (length (f_options f) mod 4 =? 0)%nat then Err "TCP options must be 32-bit aligned"%string
  else
    let tcp_header_len := (TCP_HEADER_LEN + length (f_options f))%nat in
    let header := replicate (IPV6_HEADER_LEN + tcp_header_len) x00 in
    let header := splice header 0 [u8 0x60] in
    let header := splice header 4 (be_bytes 2 (Z.of_nat (tcp_header_len + payload_len))) in
    let header := splice header 6 [u8 6] in
    let header := splice header 7 [u8 64] in
    let header := splice header 8 source_ip in
    let header := splice header 24 destination_ip in
    let header := splice header IPV6_HEADER_LEN (write_tcp_header (drop IPV6_HEADER_LEN header) f) in
    let tcp_checksum :=
      match mode with
      | Full =>
        tcp_full_checksum source_ip destination_ip
          (be_bytes 4 (Z.of_nat (tcp_header_len + payload_len)))
          [x00; x00; x00; IPV6_NEXT_HEADER_TCP] (drop IPV6_HEADER_LEN header) payload_parts
      | Partial => ipv6_tcp_partial_checksum source_ip destination_ip (tcp_header_len + payload_len)
      end in
    Ok (splice header (IPV6_HEADER_LEN + 16) (be_bytes 2 tcp_checksum)).

Definition build_ipv4_tcp_packet (source_ip destination_ip : bytes) (f : header_fields)
    (payload : bytes) (mode : TcpChecksumMode) : outcome bytes :=
  packet ← build_ipv4_tcp_header source_ip destination_ip f (length payload) [payload] mode;
  Ok (packet ++ payload).
Definition build_ipv6_tcp_packet (source_ip destination_ip : bytes) (f : header_fields)
    (payload : bytes) (mode : TcpChecksumMode) : outcome bytes :=
  packet ← build_ipv6_tcp_header source_ip destination_ip f (length payload) [payload] mode;
  Ok (packet ++ payload).

Definition build_response_packet_custom (v : IpVersion) (source_ip destination_ip : IpAddr)
    (f : header_fields) (payload : bytes) : outcome bytes :=
  match v, source_ip, destination_ip with
  | V4, IpAddrV4 s, IpAddrV4 d => build_ipv4_tcp_packet s d f payload Full
  | V6, IpAddrV6 s, IpAddrV6 d => build_ipv6_tcp_packet s d f payload Full
  | _, _, _ => Err "unexpected address family in TUN TCP response"%string
  end.
Definition build_response_packet (v : IpVersion) (source_ip destination_ip : IpAddr)
    (source_port destination_port seq ack flags : Z) (payload : bytes) : outcome bytes :=
  build_response_packet_custom v source_ip destination_ip
    (mkFields source_port destination_port seq ack flags 0xffff []) payload.

Definition build_data_header_custom (v : IpVersion) (source_ip destination_ip : IpAddr)
    (f : header_fields) (payload_parts : list bytes) : outcome bytes :=
  let payload_len := sum_list (map length payload_parts) in
  match v, source_ip, destination_ip with
  | V4, IpAddrV4 s, IpAddrV4 d => build_ipv4_tcp_header s d f payload_len payload_parts Full
  | V6, IpAddrV6 s, IpAddrV6 d => build_ipv6_tcp_header s d f payload_len payload_parts Full
  | _, _, _ => Err "unexpected address family in TUN TCP response"%string
  end.

(** The header, its IP part's length and its TCP part's. *)
Definition build_gso_tcp_header (v : IpVersion) (source_ip destination_ip : IpAddr)
    (f : header_fields) (payload_len : nat) : outcome (bytes * Z * Z) :=
  let l4_len := Z.of_nat (TCP_HEADER_LEN + length (f_options f)) mod 2 ^ 16 in
  match v, source_ip, destination_ip with
  | V4, IpAddrV4 s, IpAddrV4 d =>
    header ← build_ipv4_tcp_header s d f payload_len [] Partial;
    Ok (header, Z.of_nat IPV4_HEADER_LEN, l4_len)
  | V6, IpAddrV6 s, IpAddrV6 d =>
    header ← build_ipv6_tcp_header s d f payload_len [] Partial;
    Ok (header, Z.of_nat IPV6_HEADER_LEN, l4_len)
  | _, _, _ => Err "unexpected address family in TUN GSO response"%string
  end.

Definition build_reset_response (p : ParsedTcpPacket) : outcome bytes :=
  let acked := has_flag (flags p) TCP_FLAG_ACK in
  let response_seq := if acked then acknowledgement_number p else 0 in
  let response_ack :=
    if acked then 0
    else
      wadd32 (wadd32 (wadd32 (sequence_number p) (zlen (payload p) mod 2 ^ 32))
                (if has_flag (flags p) TCP_FLAG_SYN then 1 else 0))
        (if has_flag (flags p) TCP_FLAG_FIN then 1 else 0) in
  let response_flags := if acked then TCP_FLAG_RST else Z.lor TCP_FLAG_RST TCP_FLAG_ACK in
  build_response_packet (version p) (destination_ip p) (source_ip p) (destination_port p)
    (source_port p) response_seq response_ack response_flags [].

(** ** The bytes of a built packet *)

(** The data offset, in the high half of its byte. *)
Definition data_offset (options : bytes) : byte :=
  u8 (Z.shiftl (b2z (u8 (Z.of_nat ((TCP_HEADER_LEN + length options) / 4)))) 4).
(** What precedes the checksum field, and what follows it. *)
Definition tcp_before (f : header_fields) : bytes :=
  be_bytes 2 (f_source_port f) ++ be_bytes 2 (f_destination_port f)
  ++ be_bytes 4 (f_sequence_number f) ++ be_bytes 4 (f_acknowledgement_number f)
  ++ [data_offset (f_options f); u8 (f_flags f)] ++ be_bytes 2 (f_window_size f).
Definition tcp_header (f : header_fields) (checksum : Z) : bytes :=
  tcp_before f ++ be_bytes 2 checksum ++ [x00; x00] ++ f_options f.
Definition ip4_before (total : nat) : bytes :=
  [u8 0x45; x00] ++ be_bytes 2 (Z.of_nat total) ++ [x00; x00; x00; x00; u8 64; u8 6].
Definition ip4_header (s d : bytes) (total : nat) (checksum : Z) : bytes :=
  ip4_before total ++ be_bytes 2 checksum ++ s ++ d.
Definition ip6_header (s d : bytes) (len : nat) : bytes :=
  [u8 0x60; x00; x00; x00] ++ be_bytes 2 (Z.of_nat len) ++ [u8 6; u8 64] ++ s ++ d.

(** A list of known length, by its elements. *)
Ltac explode l H :=
  repeat match type of H with
  | length l = 0%nat => apply nil_length_inv in H; subst l
  | length _ = S _ => let a := fresh "x" in destruct l as [|a l]; [discriminate H|]; cbn [length] in H;
      apply Nat.succ_inj in H
  | length l = O => apply nil_length_inv in H; subst l
  end.
Ltac explode_be :=
  repeat match goal with
  | |- context [be_bytes ?n ?z] =>
    let l := fresh "l" in let H := fresh "H" in
    pose proof (be_bytes_length n z) as H; set (l := be_bytes n z) in *; clearbody l; explode l H
  end.

Lemma write_tcp_header_eq f :
  write_tcp_header (replicate (TCP_HEADER_LEN + length (f_options f)) x00) f = tcp_header f 0.
Proof.
  unfold write_tcp_header, tcp_header, tcp_before, data_offset, TCP_HEADER_LEN.
  change (be_bytes 2 0) with [x00; x00].
  set (off := u8 (Z.shiftl _ _)). set (fl := u8 (f_flags f)). clearbody off fl.
  destruct (Nat.eqb_spec (length (f_options f)) 0) as [H|H]; cbn [negb].
  - apply nil_length_inv in H. rewrite H. explode_be. reflexivity.
  - generalize (f_options f) as o. intros o. rewrite replicate_add. explode_be.
    unfold splice. cbn [replicate app take drop length Nat.add].
    rewrite !drop_0, (drop_ge (replicate _ _)) by (by rewrite length_replicate). by rewrite app_nil_r.
Qed.

Lemma tcp_header_length f c : length (tcp_header f c) = (TCP_HEADER_LEN + length (f_options f))%nat.
Proof. unfold tcp_header, tcp_before. rewrite !length_app, !be_bytes_length. done. Qed.

Lemma tcp_before_length f : length (tcp_before f) = 16%nat.
Proof. unfold tcp_before. by rewrite !length_app, !be_bytes_length. Qed.

Lemma checksum_parts_nil_end parts : checksum16_parts (parts ++ [[]]) = checksum16_parts parts.
Proof.
  unfold checksum16_parts. rewrite foldl_app. cbn [foldl].
  by destruct (foldl checksum_part (0, None) parts) as [s [h|]].
Qed.

(** The two branches of the full checksum agree. *)
Lemma tcp_full_checksum_eq a b c d h parts :
  tcp_full_checksum a b c d h parts = checksum16_parts ([a; b; c; d; h] ++ parts).
Proof.
  unfold tcp_full_checksum. destruct parts as [|p [|q parts]]; cbn [length Nat.leb]; [|done|done].
  exact (checksum_parts_nil_end [a; b; c; d; h]).
Qed.

Definition payload4_checksum (s d : bytes) (len : nat) (h : bytes) (parts : list bytes)
    (mode : TcpChecksumMode) : Z :=
  match mode with
  | Full =>
    tcp_full_checksum s d [x00; IPV6_NEXT_HEADER_TCP] (be_bytes 2 (Z.of_nat len)) h parts
  | Partial => ipv4_tcp_partial_checksum s d len
  end.
Definition payload6_checksum (s d : bytes) (len : nat) (h : bytes) (parts : list bytes)
    (mode : TcpChecksumMode) : Z :=
  match mode with
  | Full =>
    tcp_full_checksum s d (be_bytes 4 (Z.of_nat len)) [x00; x00; x00; IPV6_NEXT_HEADER_TCP] h parts
  | Partial => ipv6_tcp_partial_checksum s d len
  end.

(** The checksum field of a written header, replaced. *)
Lemma segment_splice l f c0 c payload n : n = (length l + 16)%nat ->
  splice (l ++ tcp_header f c0 ++ payload) n (be_bytes 2 c) = l ++ tcp_header f c ++ payload.
Proof.
  intros ->. unfold splice, tcp_header. rewrite be_bytes_length, <- !app_assoc, (app_assoc l).
  pose proof (tcp_before_length f).
  rewrite take_app_length', drop_app_ge by (rewrite length_app; lia).
  rewrite <- app_assoc, length_app, tcp_before_length, <- ?app_assoc.
  by replace (length l + 16 + 2 - (length l + 16))%nat with 2%nat by lia.
Qed.
Lemma tcp_header_splice l f c n : n = (length l + 16)%nat ->
  splice (l ++ tcp_header f 0) n (be_bytes 2 c) = l ++ tcp_header f c.
Proof. intros H. pose proof (segment_splice l f 0 c [] n H) as Hs. by rewrite !app_nil_r in Hs. Qed.

(** The zeroed tail of a header, with the TCP header written over it. *)
Lemma tcp_header_written l f n : n = length l ->
  splice (l ++ replicate (TCP_HEADER_LEN + length (f_options f)) x00) n
    (write_tcp_header (drop n (l ++ replicate (TCP_HEADER_LEN + length (f_options f)) x00)) f)
  = l ++ tcp_header f 0.
Proof.
  intros ->. rewrite drop_app_length, write_tcp_header_eq. unfold splice.
  rewrite take_app_length, tcp_header_length, (drop_ge (l ++ _))
    by (rewrite length_app, length_replicate; lia).
  by rewrite app_nil_r.
Qed.

Lemma ip4_header_length s d total c : length s = 4%nat -> length d = 4%nat ->
  length (ip4_header s d total c) = IPV4_HEADER_LEN.
Proof. intros Hs Hd. unfold ip4_header, ip4_before. by rewrite !length_app, !be_bytes_length, Hs, Hd. Qed.
Lemma ip6_header_length s d len : length s = 16%nat -> length d = 16%nat ->
  length (ip6_header s d len) = IPV6_HEADER_LEN.
Proof. intros Hs Hd. unfold ip6_header. by rewrite !length_app, be_bytes_length, Hs, Hd. Qed.

Lemma build_ipv4_eq s d f n parts mode : length s = 4%nat -> length d = 4%nat ->
  (length (f_options f) mod 4 = 0)%nat ->
  let len := (TCP_HEADER_LEN + length (f_options f) + n)%nat in
  let total := (IPV4_HEADER_LEN + len)%nat in
  build_ipv4_tcp_header s d f n parts mode
  = Ok (ip4_header s d total (checksum16 (ip4_header s d total 0))
        ++ tcp_header f (payload4_checksum s d len (tcp_header f 0) parts mode)).
Proof.
  intros Hs Hd Ho len total. unfold build_ipv4_tcp_header. rewrite Ho. cbn [Nat.eqb negb].
  rewrite <- (Nat.add_assoc IPV4_HEADER_LEN). fold len total.
  set (h0 := splice (splice _ 12 s) 16 d).
  assert (H0 : h0 = ip4_header s d total 0 ++ replicate (TCP_HEADER_LEN + length (f_options f)) x00).
  { unfold h0, ip4_header, ip4_before. rewrite replicate_add. change (be_bytes 2 0) with [x00; x00].
    explode s Hs. explode d Hd. generalize (replicate (TCP_HEADER_LEN + length (f_options f)) x00) as r. intros r.
    explode_be. reflexivity. }
  rewrite H0. clearbody h0. clear H0.
  pose proof (ip4_header_length s d total 0 Hs Hd) as Hl.
  rewrite tcp_header_written, drop_app_length' by done.
  rewrite tcp_header_splice, take_app_length' by (rewrite ?Hl; done).
  fold (payload4_checksum s d len (tcp_header f 0) parts mode). reflexivity.
Qed.

Lemma build_ipv6_eq s d f n parts mode : length s = 16%nat -> length d = 16%nat ->
  (length (f_options f) mod 4 = 0)%nat ->
  let len := (TCP_HEADER_LEN + length (f_options f) + n)%nat in
  build_ipv6_tcp_header s d f n parts mode
  = Ok (ip6_header s d len ++ tcp_header f (payload6_checksum s d len (tcp_header f 0) parts mode)).
Proof.
  intros Hs Hd Ho len. unfold build_ipv6_tcp_header. rewrite Ho. cbn [Nat.eqb negb]. fold len.
  set (h0 := splice (splice _ 8 s) 24 d).
  assert (H0 : h0 = ip6_header s d len ++ replicate (TCP_HEADER_LEN + length (f_options f)) x00).
  { unfold h0, ip6_header. rewrite replicate_add. explode s Hs. explode d Hd.
    generalize (replicate (TCP_HEADER_LEN + length (f_options f)) x00) as r. intros r.
    explode_be. reflexivity. }
  rewrite H0. clearbody h0. clear H0.
  pose proof (ip6_header_length s d len Hs Hd) as Hl.
  rewrite tcp_header_written, drop_app_length' by done.
  rewrite tcp_header_splice by (rewrite ?Hl; done).
  done.
Qed.

(** ** The checksum of a built segment *)
Lemma checksum_regroup p q : concat p = concat q -> zlen (concat p) < 2 ^ 32 ->
  checksum16_parts p = checksum16_parts q.
Proof. intros H Hl. rewrite !checksum16_parts_eq; congruence. Qed.

Lemma tcp_header_split f c payload :
  tcp_header f c ++ payload = tcp_before f ++ be_bytes 2 c ++ [x00; x00] ++ f_options f ++ payload.
Proof. unfold tcp_header. by rewrite <- !app_assoc. Qed.

Lemma segment_length f c payload :
  length (tcp_header f c ++ payload) = (TCP_HEADER_LEN + length (f_options f) + length payload)%nat.
Proof. by rewrite length_app, tcp_header_length. Qed.

Section segment_checksum.
Context (pseudo : Z -> list bytes) (checksum : bytes -> Z).
Hypothesis checksum_parts : forall seg, checksum seg = checksum16_parts (pseudo (zlen seg) ++ [seg]).
Hypothesis pseudo_even : forall n, Nat.even (length (concat (pseudo n))) = true.
Hypothesis pseudo_short : forall n, zlen (concat (pseudo n)) <= 64.

Lemma before_even f : Nat.even (length (tcp_before f)) = true.
Proof. by rewrite tcp_before_length. Qed.

(** The full checksum, computed over the header with the field zeroed and the
    payload, validates once it is in the field. *)
Lemma full_checksum_valid f payload : zlen (tcp_header f 0 ++ payload) < 2 ^ 31 ->
  checksum (tcp_header f (checksum (tcp_header f 0 ++ payload)) ++ payload) = 0.
Proof.
  intros H. rewrite !tcp_header_split in *.
  by apply (complement_valid pseudo checksum); auto using before_even.
Qed.

(** The partial checksum leaves the field such that the plain checksum of the
    segment, the pseudo-header left out, is the full one. *)
Lemma partial_completes f payload n : n = zlen (tcp_header f 0 ++ payload) -> n < 2 ^ 31 ->
  checksum16 (tcp_header f (not_u16 (checksum16_parts (pseudo n))) ++ payload)
  = checksum (tcp_header f 0 ++ payload).
Proof.
  intros Hn Hl. rewrite !tcp_header_split in *. pose proof (pseudo_short n).
  set (p := words16 (concat (pseudo n))). assert (Hp0 : 0 <= p) by apply words16_nonneg.
  pose proof (oc_range p Hp0).
  assert (Hp : not_u16 (checksum16_parts (pseudo n)) = oc p).
  { rewrite checksum16_parts_eq by lia. unfold not_u16. fold p. rewrite lnot_u16; lia. }
  rewrite Hp.
  rewrite (checksum_eq pseudo checksum) by (done || apply before_even || lia).
  rewrite (checksum_eq (fun _ => []) checksum16); [|done|done|done|lia|apply before_even|].
  - rewrite <- Hn. fold p. change (words16 (concat [])) with 0.
    pose proof (words16_nonneg (tcp_before f)).
    pose proof (words16_nonneg ([x00; x00] ++ f_options f ++ payload)).
    match goal with |- context [0 + ?a + ?b + oc p] => replace (0 + a + b + oc p) with (oc p + (a + b)) by lia end.
    rewrite oc_add by lia. do 2 f_equal. lia.
  - rewrite Hn in Hl. autorewrite with zlen in *. lia.
Qed.
End segment_checksum.

(** ** Parsing what was built *)
Definition fields_ok (f : header_fields) : Prop :=
  0 <= f_source_port f < 2 ^ 16 /\ 0 <= f_destination_port f < 2 ^ 16
  /\ 0 <= f_sequence_number f < 2 ^ 32 /\ 0 <= f_acknowledgement_number f < 2 ^ 32
  /\ 0 <= f_flags f < 256 /\ 0 <= f_window_size f < 2 ^ 16
  /\ (length (f_options f) mod 4 = 0)%nat /\ (length (f_options f) <= 40)%nat.

(** What the parser makes of a segment with fields [f] and options [o]. *)
Definition parsed (v : IpVersion) (s d : IpAddr) (f : header_fields) (o : ParsedTcpOptions)
    (payload : bytes) : ParsedTcpPacket :=
  mkPacket v s d (f_source_port f) (f_destination_port f) (f_sequence_number f)
    (f_acknowledgement_number f) (f_window_size f) (o_max_segment_size o) (o_window_scale o)
    (o_sack_permitted o) (o_sack_blocks o) (o_timestamp_value o) (o_timestamp_echo_reply o)
    (f_flags f) payload.

Lemma be2_split z : 0 <= z < 2 ^ 16 -> exists a b, be_bytes 2 z = [a; b] /\ be_val [a; b] = z.
Proof.
  intros H. pose proof (be_bytes_length 2 z) as Hl. pose proof (be_val_be_bytes_small 2 z H) as Hv.
  destruct (be_bytes 2 z) as [|a [|b [|c l]]]; try discriminate Hl. by exists a, b.
Qed.
Lemma be4_split z : 0 <= z < 2 ^ 32 ->
  exists a b c d, be_bytes 4 z = [a; b; c; d] /\ be_val [a; b; c; d] = z.
Proof.
  intros H. pose proof (be_bytes_length 4 z) as Hl. pose proof (be_val_be_bytes_small 4 z H) as Hv.
  destruct (be_bytes 4 z) as [|a [|b [|c [|d [|e l]]]]]; try discriminate Hl. by exists a, b, c, d.
Qed.

Lemma data_offset_len options : (length options mod 4 = 0)%nat -> (length options <= 40)%nat ->
  (Z.to_nat (Z.shiftr (b2z (data_offset options)) 4) * 4)%nat = (TCP_HEADER_LEN + length options)%nat.
Proof.
  intros H4 H40. unfold data_offset. generalize dependent (length options). intros n H4 H40.
  pose proof (Nat.div_mod_eq n 4) as Hn. rewrite H4, Nat.add_0_r in Hn.
  assert (n / 4 <= 10)%nat as Hq by lia. rewrite Hn. generalize dependent (n / 4)%nat. intros q _ Hq.
  do 11 (destruct q as [|q]; [reflexivity|]). lia.
Qed.

Lemma parse_built_segment v s d f c payload ck o : fields_ok f ->
  parse_tcp_options (f_options f) = Ok o ->
  (ck = Unverified -> tcp_checksum_valid v s d (tcp_header f c ++ payload) = Ok true) ->
  parse_tcp_segment v s d (tcp_header f c ++ payload) ck = Ok (parsed v s d f o payload).
Proof.
  intros (Hsp & Hdp & Hseq & Hack & Hfl & Hwin & H4 & H40) Ho Hck. unfold parse_tcp_segment.
  rewrite ltb_false_ge by (rewrite segment_length; lia).
  assert (Hv : match ck with Unverified => validate_tcp_checksum v s d (tcp_header f c ++ payload)
                           | Recomputed => Ok tt end = Ok tt).
  { destruct ck; [|done]. unfold validate_tcp_checksum. by rewrite Hck. }
  rewrite Hv. cbn [mbind result_bind].
  set (seg := tcp_header f c ++ payload).
  assert (Hoff : seg !!! 12%nat = data_offset (f_options f)).
  { unfold seg, tcp_header, tcp_before. explode_be. reflexivity. }
  rewrite Hoff, data_offset_len by done.
  rewrite ltb_false_ge by lia. rewrite ltb_false_ge by (unfold seg; rewrite segment_length; lia).
  cbn [orb].
  assert (Hopt : slice seg TCP_HEADER_LEN (TCP_HEADER_LEN + length (f_options f)) = f_options f).
  { unfold seg. rewrite tcp_header_split, !app_assoc, <- app_assoc.
    apply slice_app_mid; rewrite !length_app, tcp_before_length, be_bytes_length; unfold TCP_HEADER_LEN; simpl; lia. }
  rewrite Hopt, Ho.
  assert (Hpay : drop (TCP_HEADER_LEN + length (f_options f)) seg = payload)
    by (apply drop_app_length'; by rewrite tcp_header_length).
  rewrite Hpay. unfold seg, tcp_header, tcp_before, parsed. clear -Hsp Hdp Hseq Hack Hfl Hwin.
  destruct (be2_split (f_source_port f) Hsp) as (a1 & b1 & -> & H1).
  destruct (be2_split (f_destination_port f) Hdp) as (a2 & b2 & -> & H2).
  destruct (be4_split (f_sequence_number f) Hseq) as (a3 & b3 & c3 & d3 & -> & H3).
  destruct (be4_split (f_acknowledgement_number f) Hack) as (a4 & b4 & c4 & d4 & -> & H4).
  destruct (be2_split (f_window_size f) Hwin) as (a5 & b5 & -> & H5).
  pose proof (b2z_u8_small (f_flags f) Hfl) as H6. set (fl := u8 (f_flags f)) in *.
  rewrite <- H6, <- H1, <- H2, <- H3, <- H4, <- H5.
  reflexivity.
Qed.

Lemma slice_to_end {A} (l1 l2 : list A) : slice (l1 ++ l2) (length l1) (length l1 + length l2) = l2.
Proof. unfold slice. rewrite drop_app_length. apply take_ge. lia. Qed.

Lemma ip4_header_valid s d total : length s = 4%nat -> length d = 4%nat ->
  checksum16 (ip4_header s d total (checksum16 (ip4_header s d total 0))) = 0.
Proof.
  intros Hs Hd. unfold ip4_header.
  apply (complement_valid (fun _ => []) checksum16); [done|done|done|reflexivity|].
  unfold zlen. rewrite !length_app, be_bytes_length, Hs, Hd. reflexivity.
Qed.

Lemma parse_built_ipv4 s d seg ck : length s = 4%nat -> length d = 4%nat ->
  (TCP_HEADER_LEN <= length seg)%nat -> 20 + zlen seg < 65536 ->
  let total := (IPV4_HEADER_LEN + length seg)%nat in
  parse_tcp_packet (ip4_header s d total (checksum16 (ip4_header s d total 0)) ++ seg) ck
  = parse_tcp_segment V4 (IpAddrV4 s) (IpAddrV4 d) seg ck.
Proof.
  intros Hs Hd Hseg Ht total. assert (Htot : total = (20 + length seg)%nat) by done.
  pose proof (ip4_header_valid s d total Hs Hd) as Hv.
  set (c := checksum16 (ip4_header s d total 0)) in *. clearbody c.
  pose proof (ip4_header_length s d total c Hs Hd) as Hlen.
  set (packet := ip4_header s d total c ++ seg).
  assert (Hl : length packet = total) by (unfold packet; rewrite length_app, Hlen; done).
  assert (Ht2 : Z.to_nat (be_val [packet !!! 2%nat; packet !!! 3%nat]) = total).
  { unfold packet, ip4_header, ip4_before.
    destruct (be2_split (Z.of_nat total)) as (a & b & -> & Hab); [unfold zlen, total, IPV4_HEADER_LEN in *; lia|].
    cbn. rewrite Hab. lia. }
  assert (H0 : parse_tcp_packet packet ck = parse_ipv4_tcp_packet packet ck) by reflexivity.
  rewrite H0. unfold parse_ipv4_tcp_packet. unfold TCP_HEADER_LEN, IPV4_HEADER_LEN in *.
  rewrite Hl, ltb_false_ge by lia. rewrite Ht2.
  change (Z.to_nat (Z.land (b2z (packet !!! 0%nat)) 15) * 4)%nat with 20%nat.
  change (20 <? 20)%nat with false. rewrite !ltb_false_ge by lia. cbn [orb].
  unfold packet at 1. rewrite take_app_length' by done. rewrite Hv. cbn [Z.eqb negb].
  assert (Hf : be_val [packet !!! 6%nat; packet !!! 7%nat] = 0 /\ packet !!! 9%nat = IPV6_NEXT_HEADER_TCP
    /\ slice packet 12 16 = s /\ slice packet 16 20 = d).
  { unfold packet, ip4_header, ip4_before. explode s Hs. explode d Hd. explode_be. done. }
  destruct Hf as (-> & -> & -> & ->). rewrite bool_decide_true by done.
  assert (Hsl : slice packet 20 total = seg) by (rewrite Htot, <- Hlen; apply slice_to_end).
  rewrite Hsl. reflexivity.
Qed.

Lemma parse_built_ipv6 s d seg ck : length s = 16%nat -> length d = 16%nat ->
  (TCP_HEADER_LEN <= length seg)%nat -> zlen seg < 65536 ->
  parse_tcp_packet (ip6_header s d (length seg) ++ seg) ck
  = parse_tcp_segment V6 (IpAddrV6 s) (IpAddrV6 d) seg ck.
Proof.
  intros Hs Hd Hseg Ht. pose proof (ip6_header_length s d (length seg) Hs Hd) as Hlen.
  set (packet := ip6_header s d (length seg) ++ seg).
  assert (Hl : length packet = (IPV6_HEADER_LEN + length seg)%nat) by (unfold packet; rewrite length_app, Hlen; done).
  assert (Hp : Z.to_nat (be_val [packet !!! 4%nat; packet !!! 5%nat]) = length seg).
  { unfold packet, ip6_header.
    destruct (be2_split (Z.of_nat (length seg))) as (a & b & -> & Hab); [unfold zlen in *; lia|].
    cbn. rewrite Hab. lia. }
  assert (Hf : packet !!! 6%nat = IPV6_NEXT_HEADER_TCP /\ slice packet 8 24 = s /\ slice packet 24 40 = d).
  { unfold packet, ip6_header. explode s Hs. explode d Hd. explode_be. done. }
  destruct Hf as (Hh & Hsrc & Hdst).
  assert (H0 : parse_tcp_packet packet ck = parse_ipv6_tcp_packet packet ck) by reflexivity.
  rewrite H0. unfold parse_ipv6_tcp_packet, locate_ipv6_upper_layer, locate_ipv6_payload.
  unfold IPV6_HEADER_LEN in *.
  rewrite Hp, Hl, ltb_false_ge by (unfold TCP_HEADER_LEN in *; lia). rewrite !ltb_false_ge by lia.
  rewrite Hh. cbn [walk_headers]. change (header_kind IPV6_NEXT_HEADER_TCP) with UpperLayer.
  assert (Hsl : slice packet 40 (40 + length seg) = seg) by (rewrite <- Hlen; apply slice_to_end).
  cbn [mbind result_bind next_header payload_offset total_len]. rewrite Hsrc, Hdst, Hsl. reflexivity.
Qed.

(** ** Properties *)
Definition family_ok (v : IpVersion) (a : IpAddr) : Prop :=
  match v, a with
  | V4, IpAddrV4 o => length o = 4%nat
  | V6, IpAddrV6 o => length o = 16%nat
  | _, _ => False
  end.
(** The length field of the IP header can hold the packet's length. *)
Definition fits (v : IpVersion) (f : header_fields) (payload_len : Z) : Prop :=
  (match v with V4 => 20 | V6 => 0 end) + 20 + zlen (f_options f) + payload_len < 65536.

Lemma sum_list_concat (parts : list bytes) : sum_list (map length parts) = length (concat parts).
Proof. induction parts as [|p parts IH]; cbn; [done|]. by rewrite length_app, IH. Qed.

(** The two builders of a full checksum, in closed form. *)
Definition ip_header (v : IpVersion) (s d : bytes) (len : nat) : bytes :=
  match v with
  | V4 => let total := (IPV4_HEADER_LEN + len)%nat in
          ip4_header s d total (checksum16 (ip4_header s d total 0))
  | V6 => ip6_header s d len
  end.
Definition octets (a : IpAddr) : bytes := match a with IpAddrV4 o | IpAddrV6 o => o end.
Definition payload_checksum (v : IpVersion) (s d : bytes) (seg : bytes) : Z :=
  match v with
  | V4 => ipv4_payload_checksum s d IPV6_NEXT_HEADER_TCP seg
  | V6 => ipv6_payload_checksum s d IPV6_NEXT_HEADER_TCP seg
  end.
Definition pseudo (v : IpVersion) (s d : bytes) (n : Z) : list bytes :=
  match v with
  | V4 => [s; d; [x00; IPV6_NEXT_HEADER_TCP]; be_bytes 2 n]
  | V6 => [s; d; be_bytes 4 n; [x00; x00; x00; IPV6_NEXT_HEADER_TCP]]
  end.

Lemma payload_checksum_parts v s d seg :
  payload_checksum v s d seg = checksum16_parts (pseudo v s d (zlen seg) ++ [seg]).
Proof. by destruct v. Qed.

Lemma pseudo_ok v s d n : family_ok v s -> family_ok v d ->
  Nat.even (length (concat (pseudo v (octets s) (octets d) n))) = true
  /\ zlen (concat (pseudo v (octets s) (octets d) n)) <= 64.
Proof.
  destruct v, s, d; cbn; try done; intros Hs Hd; [by apply ipv4_pseudo|by apply ipv6_pseudo].
Qed.

Lemma segment_zlen f c payload :
  zlen (tcp_header f c ++ payload) = 20 + zlen (f_options f) + zlen payload.
Proof. unfold zlen. rewrite segment_length. unfold TCP_HEADER_LEN. lia. Qed.

Lemma full_checksum_regroup v s d f parts : family_ok v s -> family_ok v d ->
  20 + zlen (f_options f) + zlen (concat parts) < 65536 ->
  checksum16_parts (pseudo v (octets s) (octets d) (zlen (tcp_header f 0 ++ concat parts))
                    ++ tcp_header f 0 :: parts)
  = payload_checksum v (octets s) (octets d) (tcp_header f 0 ++ concat parts).
Proof.
  intros Hs Hd Hl. rewrite payload_checksum_parts. apply checksum_regroup.
  - rewrite !concat_app. cbn [concat]. by rewrite app_nil_r.
  - rewrite concat_app, zlen_app. cbn [concat]. rewrite segment_zlen.
    pose proof (proj2 (pseudo_ok v s d (20 + zlen (f_options f) + zlen (concat parts)) Hs Hd)).
    lia.
Qed.

Definition full_segment (v : IpVersion) (s d : IpAddr) (f : header_fields) (payload : bytes) : bytes :=
  tcp_header f (payload_checksum v (octets s) (octets d) (tcp_header f 0 ++ payload)) ++ payload.

Lemma full_segment_length v s d f payload :
  length (full_segment v s d f payload) = (TCP_HEADER_LEN + length (f_options f) + length payload)%nat.
Proof. apply segment_length. Qed.

Lemma build_data_header_eq v s d f parts : family_ok v s -> family_ok v d -> fields_ok f ->
  fits v f (zlen (concat parts)) ->
  exists h, build_data_header_custom v s d f parts = Ok h
    /\ h ++ concat parts
       = ip_header v (octets s) (octets d) (length (full_segment v s d f (concat parts)))
         ++ full_segment v s d f (concat parts).
Proof.
  intros Hs Hd Hf Hfit. pose proof Hf as (_ & _ & _ & _ & _ & _ & H4 & _).
  assert (Hl : 20 + zlen (f_options f) + zlen (concat parts) < 65536)
    by (unfold fits in Hfit; destruct v; lia).
  pose proof (full_checksum_regroup v s d f parts Hs Hd Hl) as Hck.
  unfold build_data_header_custom. rewrite sum_list_concat, full_segment_length.
  unfold full_segment. rewrite <- Hck.
  destruct v, s as [s|s], d as [d|d]; try done; cbn [family_ok octets] in *.
  - rewrite build_ipv4_eq by done. eexists; split; [done|]. rewrite <- app_assoc. do 2 f_equal.
    unfold payload4_checksum. rewrite tcp_full_checksum_eq. cbn [app pseudo].
    unfold zlen. by rewrite segment_length.
  - rewrite build_ipv6_eq by done. eexists; split; [done|]. rewrite <- app_assoc. do 2 f_equal.
    unfold payload6_checksum. rewrite tcp_full_checksum_eq. cbn [app pseudo].
    unfold zlen. by rewrite segment_length.
Qed.

(** The contiguous builder is the vectored one on a single part. *)
Lemma build_response_eq v s d f payload :
  build_response_packet_custom v s d f payload
  = (h ← build_data_header_custom v s d f [payload]; Ok (h ++ payload)).
Proof.
  unfold build_response_packet_custom, build_data_header_custom. rewrite sum_list_concat.
  cbn [concat]. rewrite app_nil_r. by destruct v, s, d.
Qed.

Lemma parse_full_segment v s d f payload o ck : family_ok v s -> family_ok v d -> fields_ok f ->
  fits v f (zlen payload) -> parse_tcp_options (f_options f) = Ok o ->
  parse_tcp_packet (ip_header v (octets s) (octets d) (length (full_segment v s d f payload))
                    ++ full_segment v s d f payload) ck
  = Ok (parsed v s d f o payload).
Proof.
  intros Hs Hd Hf Hfit Ho.
  assert (Hz : zlen (full_segment v s d f payload) = 20 + zlen (f_options f) + zlen payload)
    by apply segment_zlen.
  assert (Hl : (TCP_HEADER_LEN <= length (full_segment v s d f payload))%nat)
    by (rewrite full_segment_length; lia).
  assert (Hp : parse_tcp_packet (ip_header v (octets s) (octets d) (length (full_segment v s d f payload))
                 ++ full_segment v s d f payload) ck
               = parse_tcp_segment v s d (full_segment v s d f payload) ck).
  { unfold fits in Hfit. destruct v, s as [s|s], d as [d|d]; try done; cbn [octets ip_header];
      [apply parse_built_ipv4|apply parse_built_ipv6]; try done; lia. }
  rewrite Hp. apply parse_built_segment; [done|done|]. intros _.
  assert (Hck : payload_checksum v (octets s) (octets d) (full_segment v s d f payload) = 0).
  { apply (full_checksum_valid (pseudo v (octets s) (octets d))).
    - intros seg. apply payload_checksum_parts.
    - intros n. by apply pseudo_ok.
    - intros n. by apply pseudo_ok.
    - rewrite segment_zlen. unfold fits in Hfit. destruct v; lia. }
  fold (full_segment v s d f payload). unfold tcp_checksum_valid.
  destruct v, s, d; try done; cbn in Hck; by rewrite Hck.
Qed.

(** C39: a packet built from header fields, options and payload parses back to
    them. The vectored builder's header, followed by the payload parts, is the
    contiguous packet, and the parser accepts it, its checksums included,
    whether or not it trusts the checksum. *)
Theorem segment_roundtrip v s d f parts o ck : family_ok v s -> family_ok v d -> fields_ok f ->
  fits v f (zlen (concat parts)) -> parse_tcp_options (f_options f) = Ok o ->
  exists h, build_data_header_custom v s d f parts = Ok h
    /\ build_response_packet_custom v s d f (concat parts) = Ok (h ++ concat parts)
    /\ parse_tcp_packet (h ++ concat parts) ck = Ok (parsed v s d f o (concat parts)).
Proof.
  intros Hs Hd Hf Hfit Ho. destruct (build_data_header_eq v s d f parts Hs Hd Hf Hfit) as (h & Hh & He).
  exists h. split; [done|]. split; [|rewrite He; by apply parse_full_segment].
  assert (Hc : concat [concat parts] = concat parts) by (cbn; by rewrite app_nil_r).
  destruct (build_data_header_eq v s d f [concat parts] Hs Hd Hf) as (h' & Hh' & He'); [by rewrite Hc|].
  rewrite Hc in He'. rewrite build_response_eq, Hh'. cbn [mbind result_bind]. by rewrite He, He'.
Qed.

Definition example_client : IpAddr := IpAddrV4 (map u8 [10; 0; 0; 2]).
Definition example_remote : IpAddr := IpAddrV4 (map u8 [93; 184; 216; 34]).
Definition example_fields : header_fields :=
  mkFields 443 40000 (2 ^ 32 - 7) 1234 0x18 512
    (map u8 [1; 1; 8; 10; 0; 0; 1; 0; 0; 0; 2; 0; 1; 1; 5; 10; 255; 255; 255; 250; 0; 0; 0; 4]).
Definition example_options : ParsedTcpOptions :=
  mkOptions None None false [(2 ^ 32 - 6, 4)] (Some 256) (Some 512).
Lemma segment_roundtrip_witness :
  exists h, build_data_header_custom V4 example_remote example_client example_fields [str "GET"; str " /"] = Ok h
    /\ build_response_packet_custom V4 example_remote example_client example_fields (str "GET /") = Ok (h ++ str "GET /")
    /\ parse_tcp_packet (h ++ str "GET /") Unverified
       = Ok (parsed V4 example_remote example_client example_fields example_options (str "GET /")).
Proof.
  apply (segment_roundtrip V4 example_remote example_client example_fields [str "GET"; str " /"]
           example_options Unverified); try (vm_compute; reflexivity).
  unfold fields_ok. cbn. lia.
Defined.

Lemma gso_header_eq v s d f n : family_ok v s -> family_ok v d -> fields_ok f ->
  let len := (TCP_HEADER_LEN + length (f_options f) + n)%nat in
  build_gso_tcp_header v s d f n
  = Ok (ip_header v (octets s) (octets d) len
        ++ tcp_header f (not_u16 (checksum16_parts (pseudo v (octets s) (octets d) (Z.of_nat len)))),
        match v with V4 => 20 | V6 => 40 end, 20 + zlen (f_options f)).
Proof.
  intros Hs Hd (_ & _ & _ & _ & _ & _ & H4 & H40) len. unfold build_gso_tcp_header.
  rewrite Z.mod_small by (unfold TCP_HEADER_LEN; lia).
  assert (Hl4 : Z.of_nat (TCP_HEADER_LEN + length (f_options f)) = 20 + zlen (f_options f))
    by (unfold TCP_HEADER_LEN, zlen; lia).
  rewrite Hl4. destruct v, s as [s|s], d as [d|d]; try done; cbn [family_ok octets] in *.
  - by rewrite build_ipv4_eq.
  - by rewrite build_ipv6_eq.
Qed.

(** A super-segment header leaves the checksum exactly as the kernel's
    offload expects it: with the plain checksum of the bytes from [csum_start]
    on (the partial sum in the field included) written at [csum_start + 16],
    the packet is byte for byte the one the full builder makes. *)
Theorem gso_completes v s d f payload : family_ok v s -> family_ok v d -> fields_ok f ->
  fits v f (zlen payload) ->
  exists h l3 l4, build_gso_tcp_header v s d f (length payload) = Ok (h, l3, l4)
    /\ zlen h = l3 + l4
    /\ build_response_packet_custom v s d f payload
       = Ok (splice (h ++ payload) (Z.to_nat l3 + 16)
               (be_bytes 2 (checksum16 (drop (Z.to_nat l3) (h ++ payload))))).
Proof.
  intros Hs Hd Hf Hfit. rewrite gso_header_eq by done. do 3 eexists. split; [done|].
  set (len := (TCP_HEADER_LEN + length (f_options f) + length payload)%nat).
  set (ip := ip_header v (octets s) (octets d) len).
  assert (Hip : Z.to_nat (match v with V4 => 20 | V6 => 40 end) = length ip).
  { unfold ip. destruct v, s, d; try done; cbn [octets ip_header]; symmetry;
      [by apply ip4_header_length|by apply ip6_header_length]. }
  assert (Hz : zlen (tcp_header f 0 ++ payload) = Z.of_nat len) by (unfold zlen; by rewrite segment_length).
  split.
  { rewrite zlen_app. unfold zlen at 1 2. rewrite <- Hip, tcp_header_length.
    unfold TCP_HEADER_LEN, zlen. destruct v; lia. }
  rewrite Hip, <- app_assoc, drop_app_length.
  rewrite (partial_completes (pseudo v (octets s) (octets d)) (payload_checksum v (octets s) (octets d)));
    [|intros; apply payload_checksum_parts|intros n; by apply pseudo_ok|intros n; by apply pseudo_ok|done|].
  2:{ rewrite <- Hz, segment_zlen. unfold fits in Hfit. destruct v; lia. }
  destruct (build_data_header_eq v s d f [payload] Hs Hd Hf) as (h & Hh & He);
    cbn [concat] in *; rewrite app_nil_r in *; [done|].
  rewrite build_response_eq, Hh. cbn [mbind result_bind]. rewrite He, full_segment_length. fold len ip.
  unfold full_segment. by rewrite segment_splice.
Qed.
Definition example_client6 : IpAddr := IpAddrV6 (map u8 [32; 1; 13; 184; 0; 0; 0; 0; 0; 0; 0; 0; 0; 0; 0; 1]).
Lemma gso_completes_witness :
  exists h l3 l4, build_gso_tcp_header V6 example_client6 example_client6 example_fields 9 = Ok (h, l3, l4)
    /\ zlen h = l3 + l4
    /\ build_response_packet_custom V6 example_client6 example_client6 example_fields (str "odd sized")
       = Ok (splice (h ++ str "odd sized") (Z.to_nat l3 + 16)
               (be_bytes 2 (checksum16 (drop (Z.to_nat l3) (h ++ str "odd sized"))))).
Proof.
  apply (gso_completes V6 example_client6 example_client6 example_fields (str "odd sized"));
    try (vm_compute; reflexivity).
  unfold fields_ok. cbn. lia.
Defined.

(** *** Trusting a recomputed checksum *)
Lemma parse_segment_skip v s d seg : tcp_checksum_valid v s d seg = Ok true ->
  parse_tcp_segment v s d seg Recomputed = parse_tcp_segment v s d seg Unverified.
Proof. intros H. unfold parse_tcp_segment, validate_tcp_checksum. by rewrite H. Qed.

Lemma parse_tcp_packet_dispatch packet ck : packet <> [] ->
  parse_tcp_packet packet ck
  = (if Z.shiftr (b2z (packet !!! 0%nat)) 4 =? 4 then parse_ipv4_tcp_packet packet ck
     else if Z.shiftr (b2z (packet !!! 0%nat)) 4 =? 6 then parse_ipv6_tcp_packet packet ck
     else Err "unsupported IP version in TUN TCP packet"%string).
Proof. by destruct packet. Qed.

(** Skipping the checksum of a packet whose checksum was just recomputed
    changes nothing: the parser's answer, error or packet, is the one it gives
    with the check, on every input; the debug assertion of the skip never fails. *)
Theorem recomputed_skip_sound packet packet' c :
  recompute_transport_checksum packet = (packet', c) ->
  parse_tcp_packet packet' c = parse_tcp_packet packet' Unverified.
Proof.
  destruct c; [done|]. intros H. apply recompute_received in H as (_ & Hr & _).
  assert (H : packet' = [] \/ packet' <> []) by (destruct packet'; auto).
  destruct H as [->|Hn]; [done|]. rewrite !parse_tcp_packet_dispatch by done.
  unfold received_checksum in Hr.
  destruct (Z.shiftr (b2z (packet' !!! 0%nat)) 4 =? 4).
  - apply (inj Some) in Hr. unfold parse_ipv4_tcp_packet. cbn zeta in *.
    repeat (case_match; [done|]).
    apply parse_segment_skip. unfold tcp_checksum_valid.
    destruct (bool_decide_reflect (packet' !!! 9%nat = IPV6_NEXT_HEADER_TCP)) as [Hp|]; [|done].
    rewrite Hp in Hr. by rewrite Hr.
  - destruct (Z.shiftr (b2z (packet' !!! 0%nat)) 4 =? 6); [|done]. unfold parse_ipv6_tcp_packet.
    destruct (length packet' <? _)%nat; [done|].
    destruct (locate_ipv6_upper_layer packet') as [[[h off] total]|e]; [|done].
    cbn [mbind result_bind]. case_bool_decide; [done|].
    destruct (bool_decide_reflect (h = IPV6_NEXT_HEADER_TCP)) as [->|]; [|done]. cbn [negb].
    apply parse_segment_skip. unfold tcp_checksum_valid. apply (inj Some) in Hr. by rewrite Hr.
Qed.

Definition example_segment_packet : bytes :=
  map u8 [0x45; 0; 0; 41; 0; 7; 0; 0; 64; 6; 0x66; 0xc6; 10; 0; 0; 1; 10; 0; 0; 2;
          0; 80; 156; 64; 0; 0; 0; 1; 0; 0; 0; 2; 0x50; 0x18; 1; 0; 0xde; 0xad; 0; 0; 33].
Lemma recomputed_skip_sound_witness :
  exists packet', recompute_transport_checksum example_segment_packet = (packet', Recomputed)
    /\ parse_tcp_packet packet' Recomputed = parse_tcp_packet packet' Unverified
    /\ exists p, parse_tcp_packet packet' Recomputed = Ok p /\ payload p = str "!".
Proof.
  exists (recompute_transport_checksum example_segment_packet).1.
  split; [vm_compute; reflexivity|]. split.
  - apply (recomputed_skip_sound example_segment_packet _ Recomputed). vm_compute. reflexivity.
  - eexists. split; vm_compute; reflexivity.
Defined.

(** *** The option walk *)
Lemma options_loop_total fuel options : forall index parsed, (length options - index < fuel)%nat ->
  options_loop fuel options index parsed <> Err out_of_fuel.
Proof.
  induction fuel as [|fuel IH]; intros index parsed H; [lia|]. cbn [options_loop].
  destruct (Nat.ltb_spec index (length options)); [|done].
  destruct (_ =? 0); [done|]. destruct (_ =? 1); [apply IH; lia|].
  destruct (Nat.leb_spec (length options) (index + 1)); [done|]. cbn zeta.
  destruct (Nat.ltb_spec (Z.to_nat (b2z (options !!! (index + 1)%nat))) 2); [done|].
  destruct (Nat.ltb_spec (length options) (index + Z.to_nat (b2z (options !!! (index + 1)%nat)))); [done|].
  apply IH. lia.
Qed.

(** The options as items, and the walk over their encoding. *)
Inductive option_item : Type :=
  | Nop
  | Opt (kind : byte) (body : bytes).
Definition encode_item (i : option_item) : bytes :=
  match i with
  | Nop => [x01]
  | Opt kind body => kind :: u8 (Z.of_nat (2 + length body)) :: body
  end.
Definition encode_items (items : list option_item) : bytes := concat (map encode_item items).
Definition apply_item (p : ParsedTcpOptions) (i : option_item) : ParsedTcpOptions :=
  match i with Nop => p | Opt kind body => apply_option p (b2z kind) body end.
Definition item_ok (i : option_item) : Prop :=
  match i with Nop => True | Opt kind body => 1 < b2z kind /\ (length body <= 253)%nat end.

Lemma options_loop_items items : Forall item_ok items -> forall fuel pre p,
  (length (encode_items items) < fuel)%nat ->
  options_loop fuel (pre ++ encode_items items) (length pre) p = Ok (foldl apply_item p items).
Proof.
  induction 1 as [|i items Hi Hitems IH]; intros fuel pre p Hf; (destruct fuel as [|fuel]; [lia|]).
  - cbn [options_loop]. change (encode_items []) with (@nil byte). rewrite app_nil_r.
    by rewrite ltb_false_ge.
  - change (encode_items (i :: items)) with (encode_item i ++ encode_items items) in *.
    rewrite length_app in Hf.
    assert (Hstep : forall q, options_loop fuel (pre ++ encode_item i ++ encode_items items)
        (length pre + length (encode_item i)) q = Ok (foldl apply_item q items)).
    { intros q. rewrite app_assoc, <- length_app. apply IH. destruct i; cbn in Hf; lia. }
    cbn [options_loop].
    rewrite ltb_true_lt by (rewrite !length_app; destruct i; cbn; lia).
    destruct i as [|kind body]; cbn [encode_item app] in *.
    + rewrite read_at by done. change (b2z x01 =? 0) with false. change (b2z x01 =? 1) with true.
      cbn [length] in Hstep. by rewrite Hstep.
    + destruct Hi as [Hk Hb].
      assert (Hkind : (pre ++ kind :: u8 (Z.of_nat (2 + length body)) :: body ++ encode_items items)
                      !!! length pre = kind) by by apply read_at.
      assert (Hlen : (pre ++ kind :: u8 (Z.of_nat (2 + length body)) :: body ++ encode_items items)
                     !!! (length pre + 1)%nat = u8 (Z.of_nat (2 + length body))).
      { rewrite (cons_middle kind), (app_assoc pre [kind]). apply read_at. by rewrite length_app. }
      rewrite Hkind, Hlen, (u8_of_nat_len (2 + length body)) by lia.
      destruct (Z.eqb_spec (b2z kind) 0); [lia|]. destruct (Z.eqb_spec (b2z kind) 1); [lia|].
      set (all := pre ++ _) in *.
      assert (Hall : length all = (length pre + (2 + length body) + length (encode_items items))%nat)
        by (unfold all; rewrite length_app; cbn; rewrite length_app; lia).
      rewrite Hall. destruct (Nat.leb_spec (length pre + (2 + length body) + length (encode_items items))
        (length pre + 1)); [lia|]. rewrite !ltb_false_ge by lia. cbn [orb].
      assert (Hbody : slice all (length pre + 2) (length pre + (2 + length body)) = body).
      { unfold all. rewrite (cons_middle kind), (app_assoc pre), (cons_middle (u8 _)), (app_assoc (pre ++ _)).
        apply slice_app_mid; rewrite !length_app; simpl; lia. }
      rewrite Hbody. apply Hstep.
Qed.

Lemma parse_items items : Forall item_ok items ->
  parse_tcp_options (encode_items items) = Ok (foldl apply_item default_options items).
Proof.
  intros H. apply (options_loop_items items H (S (length (encode_items items))) []). lia.
Qed.

(** The blocks of a SACK option. *)
Definition block_bytes (blocks : list (Z * Z)) : bytes :=
  concat (map (fun lr => be_bytes 4 lr.1 ++ be_bytes 4 lr.2) blocks).
Definition u32 (z : Z) : Prop := 0 <= z < 2 ^ 32.

Lemma block_bytes_length blocks : length (block_bytes blocks) = (8 * length blocks)%nat.
Proof.
  induction blocks as [|lr blocks IH]; [done|]. unfold block_bytes in *. cbn [map concat].
  rewrite !length_app, !be_bytes_length, IH. cbn [length]. lia.
Qed.

Lemma sack_loop_blocks blocks : Forall (fun lr => u32 lr.1 /\ u32 lr.2) blocks -> forall acc,
  sack_loop acc (block_bytes blocks) = acc ++ filter (fun lr => seq_lt lr.1 lr.2 = true) blocks.
Proof.
  induction 1 as [|[a b] blocks [Ha Hb] _ IH]; intros acc; [by rewrite app_nil_r|].
  unfold block_bytes in *. cbn [map concat fst snd] in *.
  destruct (be4_split a Ha) as (a1 & a2 & a3 & a4 & -> & Hav).
  destruct (be4_split b Hb) as (b1 & b2 & b3 & b4 & -> & Hbv).
  cbn [app sack_loop]. rewrite Hav, Hbv, IH. unfold add_sack_block. rewrite filter_cons. cbn [fst snd].
  destruct (seq_lt a b); [|done]. by rewrite <- app_assoc.
Qed.
