(* ===== verification/TcpRecv.v ===== *)
(** The receive side of the userspace TCP: trimming to the window, the
    out-of-order queue and in-order delivery
    ([crates/outline-tun/src/tcp/state_machine/recv.rs], [deliver.rs],
    [packets.rs], [policy.rs]), and the part of the packet handler that drives
    them ([tcp/engine/packet.rs]) with the pump that drains the result
    ([tcp/engine/tasks/upstream/pump.rs]). *)
From S2P Require Import Prelude StdText IpPacket TcpTypes.
From Stdlib Require Import Sorted.
Local Open Scope Z_scope.

(** ** The window *)
Definition sum_len (l : list bytes) : Z := foldr (fun b n => zlen b + n) 0 l.
Definition buffered_client_bytes (s : TcpFlowState) : Z :=
  sum_len (b_payload <$> pending_client_segments s) + sum_len (pending_client_data s).
(** [a.saturating_sub(b)] *)
Definition saturating_sub (a b : Z) : Z := Z.max 0 (a - b).
Definition receive_window_end (s : TcpFlowState) : Z :=
  wadd32 (rcv_nxt s)
    (saturating_sub (receive_window_capacity s) (buffered_client_bytes s) mod 2 ^ 32).

Definition TCP_SERVER_WINDOW_SCALE : Z := 6.
Definition advertised_receive_window (s : TcpFlowState) : Z :=
  let available := saturating_sub (receive_window_capacity s) (buffered_client_bytes s) in
  Z.min (Z.shiftr available TCP_SERVER_WINDOW_SCALE) 65535.

Definition packet_overlaps_receive_window (s : TcpFlowState) (p : ParsedTcpPacket) : bool :=
  let rcv_nxt := rcv_nxt s in
  let rcv_wnd := wsub32 (receive_window_end s) rcv_nxt in
  let seg_len := packet_sequence_len p in
  if rcv_wnd =? 0 then (seg_len =? 0) && (sequence_number p =? rcv_nxt)
  else if seg_len =? 0 then
    seq_ge (sequence_number p) rcv_nxt && seq_lt (sequence_number p) (wadd32 rcv_nxt rcv_wnd)
  else
    let last := wsub32 (wadd32 (sequence_number p) seg_len) 1 in
    (seq_ge (sequence_number p) rcv_nxt && seq_lt (sequence_number p) (wadd32 rcv_nxt rcv_wnd))
    || (seq_ge last rcv_nxt && seq_lt last (wadd32 rcv_nxt rcv_wnd)).

Definition trim_packet_to_receive_window (s : TcpFlowState) (p : ParsedTcpPacket)
    : option TrimmedSegment :=
  if bool_decide (payload p = []) && negb (has_flag (flags p) TCP_FLAG_FIN) then
    Some (mkTrimmed (sequence_number p) (flags p) (payload p))
  else
    let recv_window_end := receive_window_end s in
    if seq_ge (sequence_number p) recv_window_end then None
    else
      let allowed_len := wsub32 recv_window_end (sequence_number p) in
      if negb (bool_decide (payload p = [])) && (allowed_len <? zlen (payload p)) then
        Some (mkTrimmed (sequence_number p) (Z.land (flags p) (Z.lnot TCP_FLAG_FIN))
                (take (Z.to_nat allowed_len) (payload p)))
      else Some (mkTrimmed (sequence_number p) (flags p) (payload p)).

(** ** Segments *)
Definition normalize_client_segment_parts (sequence_number flags : Z) (payload : bytes)
    (expected_seq : Z) : ClientSegmentView :=
  let original_payload_len := zlen payload in
  let overlap :=
    if seq_lt sequence_number expected_seq then wsub32 expected_seq sequence_number else 0 in
  let payload := if zlen payload <=? overlap then [] else drop (Z.to_nat overlap) payload in
  let fin := if has_flag flags TCP_FLAG_FIN then overlap <=? original_payload_len else false in
  mkView payload fin.
Definition normalize_trimmed_segment (p : TrimmedSegment) (expected_seq : Z) : ClientSegmentView :=
  normalize_client_segment_parts (t_seq p) (t_flags p) (t_payload p) expected_seq.

Definition buffered_client_segment_data_end (s : BufferedClientSegment) : Z :=
  wadd32 (b_seq s) (zlen (b_payload s) mod 2 ^ 32).
Definition client_segment_has_fin (s : BufferedClientSegment) : bool :=
  has_flag (b_flags s) TCP_FLAG_FIN.

(** [position] of the first segment further from [expected_seq], and the
    insertion there. *)
Fixpoint insert_client_segment (pending : list BufferedClientSegment)
    (segment : BufferedClientSegment) (expected_seq : Z) : list BufferedClientSegment :=
  match pending with
  | [] => [segment]
  | existing :: pending' =>
    if wsub32 (b_seq segment) expected_seq <? wsub32 (b_seq existing) expected_seq
    then segment :: pending
    else existing :: insert_client_segment pending' segment expected_seq
  end.

(** The read-only pass: the holes of [payload_start .. payload_end] between the
    buffered segments, and the cursor it stops at. *)
Fixpoint find_holes (pending : list BufferedClientSegment) (payload_start payload_end cursor : Z)
    (holes : list (Z * Z * Z)) : list (Z * Z * Z) * Z :=
  match pending with
  | [] => (holes, cursor)
  | existing :: pending =>
    let existing_start := b_seq existing in
    let existing_end := buffered_client_segment_data_end existing in
    if negb (seq_gt existing_end cursor) then
      find_holes pending payload_start payload_end cursor holes
    else if negb (seq_gt payload_end existing_start) then (holes, cursor)
    else
      let holes :=
        if seq_gt existing_start cursor then
          let end_ := if seq_lt payload_end existing_start then payload_end else existing_start in
          holes ++ [(cursor, wsub32 cursor payload_start, wsub32 end_ payload_start)]
        else holes in
      let cursor := if seq_gt existing_end cursor then existing_end else cursor in
      if negb (seq_gt payload_end cursor) then (holes, cursor)
      else find_holes pending payload_start payload_end cursor holes
  end.

Definition queue_future_segment (pending : list BufferedClientSegment) (p : TrimmedSegment)
    (expected_seq : Z) : list BufferedClientSegment :=
  if bool_decide (t_payload p = []) && negb (has_flag (t_flags p) TCP_FLAG_FIN) then pending
  else
    let payload_start := t_seq p in
    let payload_end := wadd32 payload_start (zlen (t_payload p) mod 2 ^ 32) in
    let '(holes, cursor) := find_holes pending payload_start payload_end payload_start [] in
    let ack := Z.land (t_flags p) TCP_FLAG_ACK in
    let pending :=
      fold_left (fun pending h =>
        let '(sequence_number, start_offset, end_offset) := (h : Z * Z * Z) in
        insert_client_segment pending
          (mkBuffered sequence_number ack
             (slice (t_payload p) (Z.to_nat start_offset) (Z.to_nat end_offset)))
          expected_seq) holes pending in
    let pending :=
      if seq_gt payload_end cursor then
        insert_client_segment pending
          (mkBuffered cursor ack
             (drop (Z.to_nat (wsub32 cursor payload_start)) (t_payload p)))
          expected_seq
      else pending in
    if has_flag (t_flags p) TCP_FLAG_FIN then
      let fin_sequence := payload_end in
      if existsb (fun existing => client_segment_has_fin existing
           && (buffered_client_segment_data_end existing =? fin_sequence)) pending
      then pending
      else
        insert_client_segment pending
          (mkBuffered fin_sequence (Z.land (t_flags p) (Z.lor TCP_FLAG_FIN TCP_FLAG_ACK)) [])
          expected_seq
    else pending.

Inductive QueueFutureSegmentOutcome : Type := OutsideWindow | Queued | WouldExceedLimits.

Definition queue_future_segment_with_recv_window (s : TcpFlowState) (config : TunTcpConfig)
    (p : ParsedTcpPacket) : TcpFlowState * QueueFutureSegmentOutcome :=
  match trim_packet_to_receive_window s p with
  | None => (s, OutsideWindow)
  | Some trimmed =>
    let has_fin := has_flag (t_flags trimmed) TCP_FLAG_FIN in
    let additional_segments :=
      if bool_decide (t_payload trimmed = []) && negb has_fin then 0
      else if has_fin then 2 else 1 in
    let additional_bytes := zlen (t_payload trimmed) in
    if (max_buffered_client_segments config
          <? zlen (pending_client_segments s) + additional_segments)
       || (max_buffered_client_bytes config <? buffered_client_bytes s + additional_bytes)
    then (s, WouldExceedLimits)
    else
      (set_receive s (rcv_nxt s) (pending_client_data s)
         (queue_future_segment (pending_client_segments s) trimmed (rcv_nxt s)), Queued)
  end.

Definition exceeds_client_reassembly_limits (s : TcpFlowState) (config : TunTcpConfig) : bool :=
  (max_buffered_client_segments config <? zlen (pending_client_segments s))
  || (max_buffered_client_bytes config <? buffered_client_bytes s).

(** [apply_client_segment]: the new expected sequence, the ready payloads and
    whether the client's half closed. *)
Definition apply_client_segment (expected_seq : Z) (segment : ClientSegmentView)
    (pending_payload : list bytes) : Z * list bytes * bool :=
  let '(expected_seq, pending_payload) :=
    if negb (bool_decide (v_payload segment = [])) then
      (wadd32 expected_seq (zlen (v_payload segment) mod 2 ^ 32),
       pending_payload ++ [v_payload segment])
    else (expected_seq, pending_payload) in
  if fin segment then (wadd32 expected_seq 1, pending_payload, true)
  else (expected_seq, pending_payload, false).

(** The drain loop, one segment popped per round. *)
Fixpoint drain_ready_buffered_segments (expected_seq : Z) (pending : list BufferedClientSegment)
    (pending_payload : list bytes) : Z * list BufferedClientSegment * list bytes * bool :=
  match pending with
  | [] => (expected_seq, [], pending_payload, false)
  | segment :: pending' =>
    if seq_gt (b_seq segment) expected_seq then (expected_seq, pending, pending_payload, false)
    else
      let normalized :=
        normalize_client_segment_parts (b_seq segment) (b_flags segment) (b_payload segment)
          expected_seq in
      if bool_decide (v_payload normalized = []) && negb (fin normalized) then
        drain_ready_buffered_segments expected_seq pending' pending_payload
      else
        let '(expected_seq, pending_payload, closed) :=
          apply_client_segment expected_seq normalized pending_payload in
        if (closed : bool) then (expected_seq, pending', pending_payload, true)
        else drain_ready_buffered_segments expected_seq pending' pending_payload
  end.

(** The receive half of [apply_inbound_and_flush]. *)
Definition apply_inbound (s : TcpFlowState) (trimmed : TrimmedSegment)
    : TcpFlowState * list bytes * bool :=
  let segment := normalize_trimmed_segment trimmed (rcv_nxt s) in
  if negb (bool_decide (v_payload segment = [])) || fin segment then
    let '(rcv, ready, closed) := apply_client_segment (rcv_nxt s) segment [] in
    if (closed : bool) then
      (set_receive s rcv (pending_client_data s) (pending_client_segments s), ready, true)
    else
      let '(rcv, segs, ready, closed) :=
        drain_ready_buffered_segments rcv (pending_client_segments s) ready in
      (set_receive s rcv (pending_client_data s) segs, ready, closed)
  else (s, [], false).

(** ** The handler *)
Inductive InboundSegmentDisposition : Type :=
  | BeyondExpectedSequence
  | OutsideReceiveWindow
  | Deliver (trimmed : TrimmedSegment).

Definition classify_inbound_segment (s : TcpFlowState) (p : ParsedTcpPacket)
    : InboundSegmentDisposition :=
  if seq_gt (sequence_number p) (rcv_nxt s) then BeyondExpectedSequence
  else match trim_packet_to_receive_window s p with
       | Some trimmed => Deliver trimmed
       | None => OutsideReceiveWindow
       end.

Definition clear_delayed_ack (s : TcpFlowState) : TcpFlowState := set_delayed_ack s 0 None.

Definition TCP_DELAYED_ACK_TIMEOUT : Z := 5.
(** Whether a standalone ACK goes out now; [data_packets] says that the flush
    of this packet sent downlink data. *)
Definition resolve_client_ack (s : TcpFlowState)
    (should_send_ack carries_data is_fin had_buffered_segments data_packets : bool) (now : Z)
    : TcpFlowState * bool :=
  if negb should_send_ack then (s, false)
  else if data_packets then (clear_delayed_ack s, false)
  else
    let immediate :=
      is_fin || negb carries_data || had_buffered_segments
      || negb (bool_decide (pending_client_segments s = []))
      || (1 <=? unacked_in_order_segments s) in
    if immediate then (clear_delayed_ack s, true)
    else
      (set_delayed_ack s (Z.min (unacked_in_order_segments s + 1) 255)
         (match delayed_ack_deadline s with
          | None => Some (now + TCP_DELAYED_ACK_TIMEOUT)
          | d => d
          end), false).

(** What [handle_existing_flow] does to the receive side once the packet was
    validated and its acknowledgement processed: an abort of the flow, or the
    new state. The flush of downlink data and the emission of the ACK, which
    [apply_inbound_and_flush] does in between, do not touch it. *)
Inductive RxOutcome : Type :=
  | RxAbort (reason : String.string)
  | RxAck (s : TcpFlowState)
  | RxDelivered (s : TcpFlowState) (should_close_client_half : bool).

Definition handle_segment (s : TcpFlowState) (config : TunTcpConfig) (p : ParsedTcpPacket) (now : Z)
    : RxOutcome :=
  if client_fin_seen (status s)
     && segment_requires_ack (sequence_number p) (flags p) (zlen (payload p)) (rcv_nxt s)
  then RxAck s
  else
    match classify_inbound_segment s p with
    | BeyondExpectedSequence =>
      match queue_future_segment_with_recv_window s config p with
      | (_, WouldExceedLimits) => RxAbort "client_reassembly_limit"
      | (s, _) => RxAck (clear_delayed_ack s)
      end
    | OutsideReceiveWindow => RxAck (clear_delayed_ack s)
    | Deliver trimmed =>
      let '(s, pending_payload, should_close) := apply_inbound s trimmed in
      let s := set_receive s (rcv_nxt s) (pending_client_data s ++ pending_payload)
                 (pending_client_segments s) in
      if negb (bool_decide (pending_payload = [])) && exceeds_client_reassembly_limits s config
      then RxAbort "client_pending_data_limit"
      else RxDelivered (if should_close then transition_on_client_fin s now else s) should_close
    end.

(** ** The pump *)
Definition PUMP_BATCH_BYTES : Z := 2 * 1024 * 1024.

(** Chunks taken while the batch is below the bound. *)
Fixpoint take_batch (batch_bytes : Z) (data : list bytes) : list bytes * list bytes :=
  match data with
  | [] => ([], [])
  | chunk :: rest =>
    if batch_bytes <? PUMP_BATCH_BYTES then
      let (batch, rest) := take_batch (batch_bytes + zlen chunk) rest in (chunk :: batch, rest)
    else ([], data)
  end.

Definition grow_receive_window (s : TcpFlowState) (drained max : Z) : TcpFlowState :=
  if receive_window_capacity s <? max
  then set_capacity s (Z.min (receive_window_capacity s + drained) max)
  else s.

Definition pump_batch (s : TcpFlowState) (config : TunTcpConfig) : TcpFlowState * list bytes :=
  let (batch, rest) := take_batch 0 (pending_client_data s) in
  let s := set_receive s (rcv_nxt s) rest (pending_client_segments s) in
  (grow_receive_window s (sum_len batch) (max_buffered_client_bytes config), batch).

(** ** Correctness

    The client sends the bytes [stream]; position [p] of it travels under the
    sequence number [sq isn p], the FIN under that of the position past the
    end. The queue is followed with the position of each segment beside it. *)
Section stream.
Context (isn : Z) (stream : bytes).

Definition sub (a b : Z) : bytes := slice stream (Z.to_nat a) (Z.to_nat b).
Definition len : Z := zlen stream.

Lemma sub_length a b : 0 <= a <= b -> b <= len -> zlen (sub a b) = b - a.
Proof.
  intros Ha Hb. unfold sub, len, zlen in *. rewrite slice_length by lia. lia.
Qed.

Lemma sub_nil a : sub a a = [].
Proof. unfold sub, slice. by rewrite Nat.sub_diag, take_0. Qed.

Lemma slice_app {A} (l : list A) a b c : (a <= b <= c)%nat -> (c <= length l)%nat ->
  slice l a b ++ slice l b c = slice l a c.
Proof.
  intros H1 H2. unfold slice. replace (c - a)%nat with ((b - a) + (c - b))%nat by lia.
  rewrite <- take_take_drop. f_equal. rewrite drop_drop. do 2 f_equal. lia.
Qed.

Lemma sub_app a b c : 0 <= a <= b -> b <= c <= len -> sub a b ++ sub b c = sub a c.
Proof. intros H1 H2. unfold sub, len, zlen in *. apply slice_app; lia. Qed.

Lemma drop_sub a b k : 0 <= a -> 0 <= k <= b - a -> b <= len ->
  drop (Z.to_nat k) (sub a b) = sub (a + k) b.
Proof.
  intros Ha Hk Hb. unfold sub, slice. rewrite skipn_firstn_comm, drop_drop.
  f_equal; [lia|]. f_equal. lia.
Qed.

Lemma take_sub a b k : 0 <= a -> 0 <= k <= b - a -> take (Z.to_nat k) (sub a b) = sub a (a + k).
Proof.
  intros Ha Hk. unfold sub, slice. rewrite take_take. f_equal. lia.
Qed.

Lemma slice_sub a b i j : 0 <= a -> 0 <= i <= j -> j <= b - a -> b <= len ->
  slice (sub a b) (Z.to_nat i) (Z.to_nat j) = sub (a + i) (a + j).
Proof.
  intros Ha Hi Hj Hb. unfold slice at 1. rewrite drop_sub by lia.
  rewrite <- Z2Nat.inj_sub by lia. rewrite take_sub by lia. f_equal. lia.
Qed.

(** A buffered segment with its position. *)
Abbreviation placed := (Z * BufferedClientSegment)%type.
Definition end_of (x : placed) : Z := x.1 + zlen (b_payload x.2).

Record seg_at (x : placed) : Prop := {
  seg_seq : b_seq x.2 = sq isn x.1;
  seg_pos : 0 <= x.1;
  seg_end : end_of x <= len;
  seg_payload : b_payload x.2 = sub x.1 (end_of x);
  seg_fin : client_segment_has_fin x.2 = bool_decide (b_payload x.2 = []);
  seg_fin_pos : b_payload x.2 = [] -> x.1 = len
}.

Lemma end_of_ge x : x.1 <= end_of x.
Proof. unfold end_of. pose proof (zlen_nonneg (b_payload x.2)). lia. Qed.

Definition holds (x : placed) (i : Z) : Prop := x.1 <= i < end_of x.
Definition before (x y : placed) : Prop := end_of x <= y.1.

(** The queue as positions: well-placed segments, in order, apart, all between
    [lo] (the next byte expected, excluded) and [hi]. *)
Record queue_ok (lo hi : Z) (qs : list placed) : Prop := {
  q_segs : Forall seg_at qs;
  q_sorted : StronglySorted before qs;
  q_range : Forall (fun x => lo < x.1 /\ end_of x <= hi) qs
}.

(** *** Insertion *)
Fixpoint insert_at (qs : list placed) (y : placed) : list placed :=
  match qs with
  | [] => [y]
  | x :: qs' => if y.1 <? x.1 then y :: qs else x :: insert_at qs' y
  end.

Lemma insert_client_segment_at n qs y :
  b_seq y.2 = sq isn y.1 -> 0 <= y.1 - n < 2 ^ 32 ->
  Forall seg_at qs -> Forall (fun x => 0 <= x.1 - n < 2 ^ 32) qs ->
  insert_client_segment (qs.*2) y.2 (sq isn n) = (insert_at qs y).*2.
Proof.
  intros Hy Hyn Hs Hr. induction qs as [|x qs IH]; [done|]. cbn [fmap list_fmap insert_client_segment insert_at].
  apply Forall_cons in Hs as [Hx Hs]. apply Forall_cons in Hr as [Hxn Hr].
  rewrite Hy, (seg_seq _ Hx), !wsub32_sq_small by done.
  replace (y.1 - n <? x.1 - n) with (y.1 <? x.1) by lia.
  destruct (y.1 <? x.1); [done|]. cbn [fmap list_fmap]. f_equal. by apply IH.
Qed.

Lemma insert_at_perm qs y : insert_at qs y ≡ₚ y :: qs.
Proof.
  induction qs as [|x qs IH]; simpl; [done|]. destruct (y.1 <? x.1); [done|].
  rewrite IH. constructor.
Qed.

(** Insertion of a segment clear of all the others keeps the order. *)
Lemma insert_at_sorted qs y :
  StronglySorted before qs -> Forall (fun x => before y x /\ y.1 < x.1 \/ before x y) qs ->
  StronglySorted before (insert_at qs y).
Proof.
  intros Hs Hd. induction qs as [|x qs IH]; simpl; [by repeat constructor|].
  apply Forall_cons in Hd as [Hx Hd]. apply StronglySorted_inv in Hs as [Hs Hb].
  pose proof (end_of_ge x). pose proof (end_of_ge y). unfold before in *.
  destruct (Z.ltb_spec y.1 x.1) as [Hlt|Hge].
  - assert (Hyx : end_of y <= x.1) by lia. constructor; [by constructor|].
    constructor; [done|]. eapply Forall_impl; [exact Hb|]. simpl. lia.
  - constructor; [by apply IH|]. rewrite insert_at_perm. constructor; [|done]. lia.
Qed.

(** *** Holes *)
Definition clear_of (qs : list placed) (ab : Z * Z) : Prop :=
  Forall (fun x => ab.2 <= x.1 \/ end_of x <= ab.1) qs.

(** The pieces of [c .. pe] that the queue misses. *)
Record pieces_ok (qs : list placed) (c pe : Z) (P : list (Z * Z)) : Prop := {
  p_range : Forall (fun ab => c <= ab.1 < ab.2 /\ ab.2 <= pe) P;
  p_clear : Forall (clear_of qs) P;
  p_sorted : StronglySorted (fun u v => u.2 <= v.1) P;
  p_cover i : c <= i < pe -> Exists (fun ab => ab.1 <= i < ab.2) P \/ Exists (fun x => holds x i) qs
}.

Definition tail_piece (c pe : Z) : list (Z * Z) := if c <? pe then [(c, pe)] else [].

Lemma wadd32_sq_mod p k : wadd32 (sq isn p) (k mod 2 ^ 32) = sq isn (p + k).
Proof. unfold wadd32, sq. rewrite Zplus_mod_idemp_r, Zplus_mod_idemp_l. f_equal. lia. Qed.

Lemma data_end_sq x : seg_at x -> buffered_client_segment_data_end x.2 = sq isn (end_of x).
Proof. intros Hx. unfold buffered_client_segment_data_end. by rewrite (seg_seq _ Hx), wadd32_sq_mod. Qed.

Lemma pieces_nil qs c pe : pe <= c -> pieces_ok qs c pe [].
Proof. intros H. split; try constructor. lia. Qed.

Lemma pieces_tail qs c pe : Forall (fun x => pe <= x.1 \/ end_of x <= c) qs ->
  pieces_ok qs c pe (tail_piece c pe).
Proof.
  intros Hq. unfold tail_piece. destruct (Z.ltb_spec c pe); [|by apply pieces_nil].
  split; [by apply Forall_singleton| | |].
  - apply Forall_singleton. exact Hq.
  - by repeat constructor.
  - intros i Hi. left. by apply Exists_cons_hd.
Qed.

(** Past a segment that ends before the cursor. *)
Lemma pieces_skip x qs c pe P : end_of x <= c -> pieces_ok qs c pe P -> pieces_ok (x :: qs) c pe P.
Proof.
  intros Hx [R C S V]. split; [done| |done|].
  - rewrite Forall_forall in *. intros ab Hab. specialize (R _ Hab). constructor; [right; lia|].
    by apply C.
  - intros i Hi. destruct (V i Hi); [by left|right; by apply Exists_cons_tl].
Qed.

(** Past a segment that meets the range: the hole before it, if any, and the
    pieces after it. *)
Lemma pieces_step x qs c pe P :
  Forall (fun y => end_of x <= y.1) qs -> x.1 < pe -> c < end_of x ->
  pieces_ok qs (end_of x) pe P ->
  pieces_ok (x :: qs) c pe ((if c <? x.1 then [(c, x.1)] else []) ++ P).
Proof.
  intros Hb Hpe Hc [R C S V]. pose proof (end_of_ge x) as Hge.
  assert (Hh : Forall (fun ab => c <= ab.1 < ab.2 /\ ab.2 <= x.1) (if c <? x.1 then [(c, x.1)] else [])).
  { destruct (Z.ltb_spec c x.1); [|constructor]. apply Forall_singleton. simpl. lia. }
  split.
  - apply Forall_app. split; [eapply Forall_impl; [exact Hh|]|eapply Forall_impl; [exact R|]];
      simpl; lia.
  - apply Forall_app. split.
    + eapply Forall_impl; [exact Hh|]. intros ab Hab. simpl in Hab.
      constructor; [lia|]. eapply Forall_impl; [exact Hb|]. simpl. lia.
    + rewrite Forall_forall in *. intros ab Hab. specialize (R _ Hab). constructor; [lia|]. by apply C.
  - destruct (Z.ltb_spec c x.1); [|done]. simpl. constructor; [done|].
    eapply Forall_impl; [exact R|]. simpl. lia.
  - intros i Hi. rewrite Exists_app, Exists_cons. destruct (Z.lt_ge_cases i x.1) as [Hl|Hl].
    + destruct (Z.ltb_spec c x.1); [|lia]. left. left. apply Exists_cons_hd. simpl. lia.
    + destruct (Z.lt_ge_cases i (end_of x)); [right; left; unfold holds; lia|].
      destruct (V i); [lia|left; by right|right; by right].
Qed.

Definition hole_of (ps : Z) (ab : Z * Z) : Z * Z * Z := (sq isn ab.1, ab.1 - ps, ab.2 - ps).

Lemma find_holes_spec lo hi qs ps pe c hs :
  hi - lo <= 2 ^ 30 -> lo <= ps <= c -> c <= pe <= hi -> queue_ok lo hi qs ->
  exists H c', find_holes (qs.*2) (sq isn ps) (sq isn pe) (sq isn c) hs
      = (hs ++ (hole_of ps <$> H), sq isn c') /\
    c <= c' /\ c' - lo <= 2 ^ 30 /\ pieces_ok qs c pe (H ++ tail_piece c' pe).
Proof.
  intros Hw Hps. revert c hs Hps. induction qs as [|x qs IH]; intros c hs Hps Hpe [Hs Ho Hr].
  { exists [], c. cbn [find_holes fmap list_fmap]. rewrite app_nil_r.
    split; [done|]. split; [lia|]. split; [lia|]. by apply pieces_tail. }
  cbn [find_holes fmap list_fmap]. apply Forall_cons in Hs as [Hx Hs].
  apply Forall_cons in Hr as [[Hxl Hxh] Hr]. apply StronglySorted_inv in Ho as [Ho Hb].
  pose proof (end_of_ge x) as Hge. rewrite (data_end_sq _ Hx), (seg_seq _ Hx).
  rewrite !(seq_gt_sq isn (end_of x) c) by lia. rewrite (seq_gt_sq isn pe x.1) by lia.
  destruct (Z.ltb_spec c (end_of x)) as [Hc|Hc]; cbn [negb].
  2:{ destruct (IH c hs Hps Hpe) as (H & c' & -> & Hc' & Hcw & HP); [by split|].
      exists H, c'. split; [done|]. split; [done|]. split; [done|]. by apply pieces_skip. }
  destruct (Z.ltb_spec x.1 pe) as [Hxp|Hxp]; cbn [negb].
  2:{ exists [], c. cbn [fmap list_fmap]. rewrite app_nil_r. split; [done|]. split; [lia|].
      split; [lia|]. apply pieces_tail. constructor; [lia|]. eapply Forall_impl; [exact Hb|].
      unfold before. simpl. lia. }
  rewrite (seq_gt_sq isn x.1 c), (seq_lt_sq isn pe x.1), (seq_gt_sq isn pe (end_of x)) by lia.
  destruct (Z.ltb_spec pe x.1); [lia|].
  assert (Hhs : (if c <? x.1 then hs ++ [(sq isn c, wsub32 (sq isn c) (sq isn ps),
      wsub32 (sq isn x.1) (sq isn ps))] else hs)
    = hs ++ (hole_of ps <$> (if c <? x.1 then [(c, x.1)] else []))).
  { destruct (Z.ltb_spec c x.1); [|by rewrite app_nil_r].
    rewrite !wsub32_sq_small by lia. done. }
  rewrite Hhs. destruct (Z.ltb_spec (end_of x) pe) as [Hep|Hep]; cbn [negb].
  - destruct (IH (end_of x) (hs ++ (hole_of ps <$> (if c <? x.1 then [(c, x.1)] else []))))
      as (H' & c' & -> & Hc' & Hcw & HP); [lia|lia|by split|].
    exists ((if c <? x.1 then [(c, x.1)] else []) ++ H'), c'.
    rewrite fmap_app, <- !app_assoc. split; [done|]. split; [lia|]. split; [done|].
    by apply pieces_step.
  - exists (if c <? x.1 then [(c, x.1)] else []), (end_of x). split; [done|]. split; [lia|].
    split; [lia|]. apply pieces_step; [done|lia|done|]. unfold tail_piece.
    destruct (Z.ltb_spec (end_of x) pe); [lia|]. by apply pieces_nil.
Qed.

(** *** Queueing *)
Lemma insert_ok lo hi qs y :
  hi - lo <= 2 ^ 30 -> queue_ok lo hi qs -> seg_at y -> lo < y.1 -> end_of y <= hi ->
  Forall (fun x => before y x /\ y.1 < x.1 \/ before x y) qs ->
  insert_client_segment (qs.*2) y.2 (sq isn lo) = (insert_at qs y).*2 /\
  queue_ok lo hi (insert_at qs y).
Proof.
  intros Hw [Hs Ho Hr] Hy Hl Hh Hd. pose proof (end_of_ge y). split.
  - apply insert_client_segment_at; [apply Hy|lia|done|]. eapply Forall_impl; [exact Hr|].
    intros x [Hx1 Hx2]. pose proof (end_of_ge x). lia.
  - split.
    + rewrite insert_at_perm. by constructor.
    + by apply insert_at_sorted.
    + rewrite insert_at_perm. by constructor.
Qed.

Definition piece_at (ack : Z) (ab : Z * Z) : placed :=
  (ab.1, mkBuffered (sq isn ab.1) ack (sub ab.1 ab.2)).

Lemma piece_end ack ab : 0 <= ab.1 < ab.2 -> ab.2 <= len -> end_of (piece_at ack ab) = ab.2.
Proof. intros H1 H2. unfold end_of, piece_at. simpl. rewrite sub_length; lia. Qed.

Lemma piece_seg_at ack ab : has_flag ack TCP_FLAG_FIN = false ->
  0 <= ab.1 < ab.2 -> ab.2 <= len -> seg_at (piece_at ack ab).
Proof.
  intros Hf H1 H2. pose proof (piece_end ack ab H1 H2) as He.
  assert (Hne : sub ab.1 ab.2 <> []).
  { intros Hn. pose proof (sub_length ab.1 ab.2) as Hl. rewrite Hn in Hl.
    unfold zlen in Hl. simpl in Hl. lia. }
  split; simpl; try done; try lia; [by rewrite He|].
  unfold client_segment_has_fin. simpl. rewrite Hf. by rewrite bool_decide_eq_false_2.
Qed.

Lemma insert_pieces lo hi ack P qs :
  hi - lo <= 2 ^ 30 -> 0 <= lo -> has_flag ack TCP_FLAG_FIN = false ->
  queue_ok lo hi qs -> Forall (fun ab => lo < ab.1 < ab.2 /\ ab.2 <= hi /\ ab.2 <= len) P ->
  Forall (clear_of qs) P -> StronglySorted (fun u v => u.2 <= v.1) P ->
  exists qs', fold_left (fun pending y => insert_client_segment pending y.2 (sq isn lo))
      (piece_at ack <$> P) (qs.*2) = qs'.*2 /\
    queue_ok lo hi qs' /\ qs' ≡ₚ (piece_at ack <$> P) ++ qs.
Proof.
  intros Hw Hlo Hf. revert qs. induction P as [|ab P IH]; intros qs Hq Hr Hc Hs; [by exists qs|].
  apply Forall_cons in Hr as [Hab Hr]. apply Forall_cons in Hc as [Hcab Hc].
  apply StronglySorted_inv in Hs as [Hs Hb]. cbn [fmap list_fmap fold_left].
  assert (He : end_of (piece_at ack ab) = ab.2) by (apply piece_end; lia).
  destruct (insert_ok lo hi qs (piece_at ack ab)) as [Hi Hq']; [done|done| | | | |].
  - apply piece_seg_at; [done|lia|lia].
  - simpl. lia.
  - lia.
  - eapply Forall_impl; [exact Hcab|]. intros x Hx. simpl in Hx. unfold before. rewrite He.
    cbn [piece_at fst]. lia.
  - rewrite Hi. destruct (IH (insert_at qs (piece_at ack ab)) Hq' Hr) as (qs' & -> & Hq'' & Hp).
    + rewrite Forall_forall in *. intros cd Hcd. unfold clear_of. rewrite insert_at_perm.
      constructor; [right; rewrite He; by apply Hb|by apply Hc].
    + done.
    + exists qs'. split; [done|]. split; [done|]. rewrite Hp, insert_at_perm. simpl.
      by rewrite Permutation_middle.
Qed.

Definition buffered (qs : list placed) (i : Z) : Prop := Exists (fun x => holds x i) qs.
Definition fin_marked (qs : list placed) : Prop :=
  Exists (fun x => client_segment_has_fin x.2 = true) qs.

(** A packet's content at its position. *)
Record sends (p : Z) (t : TrimmedSegment) : Prop := {
  sd_seq : t_seq t = sq isn p;
  sd_pos : 0 <= p;
  sd_end : p + zlen (t_payload t) <= len;
  sd_payload : t_payload t = sub p (p + zlen (t_payload t));
  sd_fin : has_flag (t_flags t) TCP_FLAG_FIN = true -> p + zlen (t_payload t) = len
}.

Lemma ack_no_fin f : has_flag (Z.land f TCP_FLAG_ACK) TCP_FLAG_FIN = false.
Proof. by apply has_flag_land. Qed.

Lemma piece_holds ack ab i : 0 <= ab.1 < ab.2 -> ab.2 <= len ->
  holds (piece_at ack ab) i <-> ab.1 <= i < ab.2.
Proof. intros H1 H2. unfold holds. by rewrite piece_end. Qed.

Lemma fin_existsb qs : Forall seg_at qs ->
  existsb (fun existing => client_segment_has_fin existing
    && (buffered_client_segment_data_end existing =? sq isn len)) (qs.*2) = true <-> fin_marked qs.
Proof.
  intros Hs. rewrite existsb_exists. unfold fin_marked. rewrite Exists_exists. split.
  - intros (s & Hin & [Hf _]%andb_true_iff). apply list_elem_of_In, list_elem_of_fmap in Hin as (x & -> & Hx).
    by exists x.
  - intros (x & Hx & Hf). exists x.2. split; [by apply list_elem_of_In, list_elem_of_fmap_2|].
    rewrite Forall_forall in Hs. specialize (Hs _ Hx). rewrite Hf. simpl.
    rewrite (data_end_sq _ Hs). rewrite (seg_fin _ Hs), bool_decide_eq_true in Hf.
    unfold end_of. rewrite Hf, (seg_fin_pos _ Hs Hf). unfold zlen at 1. simpl.
    rewrite Z.add_0_r. apply Z.eqb_refl.
Qed.

Lemma fold_left_fmap {A B C} (f : C -> B -> C) (g : A -> B) l c :
  fold_left f (g <$> l) c = fold_left (fun c a => f c (g a)) l c.
Proof. revert c; induction l; simpl; auto. Qed.

Lemma fold_left_ext {A C} (f g : C -> A -> C) l c :
  Forall (fun a => forall c, f c a = g c a) l -> fold_left f l c = fold_left g l c.
Proof. intros H. revert c. induction H as [|a l Ha Hl IH]; intros c; simpl; [done|]. by rewrite Ha. Qed.

(** The data of a packet, queued: exactly the missing pieces go in. *)
Lemma queue_data lo hi qs p t :
  hi - lo <= 2 ^ 30 -> 0 <= lo < p -> queue_ok lo hi qs -> sends p t ->
  p + zlen (t_payload t) <= hi ->
  let pe := p + zlen (t_payload t) in
  let '(holes, cursor) := find_holes (qs.*2) (sq isn p) (sq isn pe) (sq isn p) [] in
  let ack := Z.land (t_flags t) TCP_FLAG_ACK in
  let pending :=
    fold_left (fun pending h =>
      let '(sequence_number, start_offset, end_offset) := (h : Z * Z * Z) in
      insert_client_segment pending
        (mkBuffered sequence_number ack
           (slice (t_payload t) (Z.to_nat start_offset) (Z.to_nat end_offset)))
        (sq isn lo)) holes (qs.*2) in
  let pending :=
    if seq_gt (sq isn pe) cursor then
      insert_client_segment pending
        (mkBuffered cursor ack (drop (Z.to_nat (wsub32 cursor (sq isn p))) (t_payload t)))
        (sq isn lo)
    else pending in
  exists qs', pending = qs'.*2 /\ queue_ok lo hi qs' /\
    (forall i, buffered qs' i <-> buffered qs i \/ p <= i < pe) /\ (fin_marked qs' <-> fin_marked qs).
Proof.
  intros Hw Hp Hq Ht Hhi pe. pose proof (zlen_nonneg (t_payload t)) as Hk.
  pose proof (sd_end _ _ Ht) as Hend. fold pe in Hend, Hhi.
  destruct (find_holes_spec lo hi qs p pe p [] Hw) as (H & c' & -> & Hc' & Hcw & HP);
    [lia|lia|done|]. cbn [app]. cbv zeta.
  set (ack := Z.land (t_flags t) TCP_FLAG_ACK). set (P := H ++ tail_piece c' pe) in *.
  assert (HPr : Forall (fun ab => lo < ab.1 < ab.2 /\ ab.2 <= hi /\ ab.2 <= len) P).
  { eapply Forall_impl; [apply (p_range _ _ _ _ HP)|]. simpl. lia. }
  destruct (insert_pieces lo hi ack P qs) as (qs' & Hf & Hq' & Hperm);
    [done|lia|apply ack_no_fin|done|done|apply HP|apply HP|].
  exists qs'. split; [|split; [done|split]].
  - rewrite <- Hf. unfold P. rewrite fmap_app, fold_left_app, !fold_left_fmap.
    rewrite seq_gt_sq by lia.
    rewrite (fold_left_ext _ (fun pending ab => insert_client_segment pending (piece_at ack ab).2 (sq isn lo))).
    + unfold tail_piece. destruct (Z.ltb_spec c' pe); [|done]. simpl. unfold piece_at. simpl.
      rewrite wsub32_sq_small by lia. rewrite (sd_payload _ _ Ht) at 1. rewrite drop_sub by lia.
      do 3 f_equal. lia.
    + rewrite Forall_forall. intros ab Hab cc. unfold hole_of. simpl.
      assert (Hr : p <= ab.1 < ab.2 /\ ab.2 <= pe).
      { apply (proj1 (Forall_forall _ _) (p_range _ _ _ _ HP)), elem_of_app. by left. }
      rewrite (sd_payload _ _ Ht), slice_sub by lia. unfold piece_at. do 3 f_equal; lia.
  - intros i. unfold buffered. rewrite Hperm, Exists_app. split.
    + intros [Hi|Hi]; [right|by left]. apply Exists_fmap, Exists_exists in Hi as (ab & Hab & Hi).
      pose proof (proj1 (Forall_forall _ _) (p_range _ _ _ _ HP) _ Hab) as Hr. simpl in Hr, Hi.
      apply piece_holds in Hi; [lia|lia|lia].
    + intros [Hi|Hi]; [by right|]. destruct (p_cover _ _ _ _ HP i Hi) as [Hc|Hc]; [left|by right].
      apply Exists_fmap, Exists_exists. apply Exists_exists in Hc as (ab & Hab & Hi').
      exists ab. split; [done|]. simpl.
      pose proof (proj1 (Forall_forall _ _) HPr _ Hab) as Hr. simpl in Hr.
      apply piece_holds; [lia|lia|done].
  - unfold fin_marked. rewrite Hperm, Exists_app. split; [|by right].
    intros [Hf'|Hf']; [|done]. apply Exists_fmap, Exists_exists in Hf' as (ab & _ & Hf').
    change (has_flag ack TCP_FLAG_FIN = true) in Hf'. unfold ack in Hf'. by rewrite ack_no_fin in Hf'.
Qed.

(** The FIN of a packet, queued unless one is. *)
Lemma queue_fin lo hi qs f :
  hi - lo <= 2 ^ 30 -> 0 <= lo < len -> len <= hi -> queue_ok lo hi qs ->
  has_flag f TCP_FLAG_FIN = true ->
  exists qs', (if existsb (fun existing => client_segment_has_fin existing
      && (buffered_client_segment_data_end existing =? sq isn len)) (qs.*2) then qs.*2
    else insert_client_segment (qs.*2)
      (mkBuffered (sq isn len) (Z.land f (Z.lor TCP_FLAG_FIN TCP_FLAG_ACK)) []) (sq isn lo)) = qs'.*2 /\
    queue_ok lo hi qs' /\ (forall i, buffered qs' i <-> buffered qs i) /\ fin_marked qs'.
Proof.
  intros Hw Hlo Hhi Hq Hf. destruct (existsb _ (qs.*2)) eqn:Hex.
  { apply fin_existsb in Hex; [|apply Hq]. by exists qs. }
  set (y := (len, mkBuffered (sq isn len) (Z.land f (Z.lor TCP_FLAG_FIN TCP_FLAG_ACK)) [])).
  assert (He : end_of y = len) by (unfold end_of; simpl; unfold zlen; simpl; lia).
  assert (Hyf : client_segment_has_fin y.2 = true).
  { unfold client_segment_has_fin. simpl. by rewrite has_flag_keep. }
  destruct (insert_ok lo hi qs y) as [Hi Hq']; [done|done| | | | |].
  - split; rewrite ?He; [done|simpl; lia|lia|simpl; by rewrite sub_nil|by rewrite Hyf|done].
  - simpl. lia.
  - lia.
  - eapply Forall_impl; [apply Hq|]. intros x Hx. right. apply (seg_end _ Hx).
  - exists (insert_at qs y). split; [exact Hi|]. split; [done|]. unfold buffered, fin_marked.
    split.
    + intros i. rewrite insert_at_perm, Exists_cons. unfold holds at 1. rewrite He. simpl.
      split; [intros [?|?]; [lia|done]|by right].
    + rewrite insert_at_perm. by apply Exists_cons_hd.
Qed.

Lemma queue_future_ok lo hi qs p t :
  hi - lo <= 2 ^ 30 -> 0 <= lo < p -> queue_ok lo hi qs -> sends p t ->
  p + zlen (t_payload t) <= hi ->
  exists qs', queue_future_segment (qs.*2) t (sq isn lo) = qs'.*2 /\ queue_ok lo hi qs' /\
    (forall i, buffered qs' i <-> buffered qs i \/ p <= i < p + zlen (t_payload t)) /\
    (fin_marked qs' <-> fin_marked qs \/ has_flag (t_flags t) TCP_FLAG_FIN = true).
Proof.
  intros Hw Hp Hq Ht Hhi. unfold queue_future_segment.
  destruct (bool_decide (t_payload t = []) && negb (has_flag (t_flags t) TCP_FLAG_FIN)) eqn:Hnone.
  - apply andb_true_iff in Hnone as [He%bool_decide_eq_true Hf%negb_true_iff].
    exists qs. rewrite He, Hf. change (zlen (@nil byte)) with 0. split; [done|]. split; [done|].
    split; [|naive_solver]. intros i. split; [by left|]. intros [?|?]; [done|lia].
  - rewrite (sd_seq _ _ Ht), wadd32_sq_mod.
    pose proof (queue_data lo hi qs p t Hw Hp Hq Ht Hhi) as Hd. cbv zeta in Hd |- *.
    destruct (find_holes _ _ _ _ _) as [holes cursor].
    destruct Hd as (qs1 & -> & Hq1 & Hb1 & Hf1).
    destruct (has_flag (t_flags t) TCP_FLAG_FIN) eqn:Hf; [|exists qs1; naive_solver].
    pose proof (zlen_nonneg (t_payload t)). pose proof (sd_fin _ _ Ht Hf) as Hfin.
    rewrite Hfin in Hb1, Hhi |- *.
    destruct (queue_fin lo hi qs1 (t_flags t)) as (qs2 & -> & Hq2 & Hb2 & Hf2); [done|lia|done|done|done|].
    exists qs2. split; [done|]. split; [done|]. split; [intros i; by rewrite Hb2|naive_solver].
Qed.

(** *** Delivery *)
Lemma sub_max n m : zlen (sub n (Z.max n m)) = Z.max n m - n -> 0 <= n -> 
  (sub n (Z.max n m) = [] <-> m <= n).
Proof.
  intros Hl Hn. split.
  - intros He. rewrite He in Hl. unfold zlen in Hl. simpl in Hl. lia.
  - intros Hm. rewrite Z.max_l by done. apply sub_nil.
Qed.

Lemma normalize_at p k n f :
  0 <= p <= n -> n - p < 2 ^ 31 -> 0 <= k -> p + k <= len -> n <= len ->
  (has_flag f TCP_FLAG_FIN = true -> p + k = len) ->
  normalize_client_segment_parts (sq isn p) f (sub p (p + k)) (sq isn n)
  = mkView (sub n (Z.max n (p + k))) (has_flag f TCP_FLAG_FIN).
Proof.
  intros Hp Hd Hk Hend Hn Hf. unfold normalize_client_segment_parts.
  rewrite seq_lt_sq by lia. rewrite !sub_length by lia.
  assert (Ho : (if p <? n then wsub32 (sq isn n) (sq isn p) else 0) = n - p).
  { destruct (Z.ltb_spec p n); [apply wsub32_sq_small; lia|lia]. }
  rewrite Ho. f_equal.
  - destruct (Z.leb_spec (p + k - p) (n - p)).
    + rewrite Z.max_l by lia. by rewrite sub_nil.
    + rewrite Z.max_r by lia. rewrite drop_sub by lia. f_equal. lia.
  - destruct (has_flag f TCP_FLAG_FIN) eqn:Hfl; [|done]. specialize (Hf eq_refl).
    apply Z.leb_le. lia.
Qed.

Lemma apply_at n m fin_ ready : 0 <= n <= m -> m <= len ->
  apply_client_segment (sq isn n) (mkView (sub n m) fin_) ready
  = (sq isn (m + (if fin_ then 1 else 0)), ready ++ (if n <? m then [sub n m] else []), fin_).
Proof.
  intros Hn Hm. unfold apply_client_segment. cbn [v_payload fin].
  pose proof (sub_length n m) as Hl.
  destruct (bool_decide_reflect (sub n m = [])) as [He|He]; cbn [negb].
  - rewrite He in Hl. unfold zlen in Hl. simpl in Hl. destruct (Z.ltb_spec n m); [lia|].
    rewrite app_nil_r. replace m with n by lia. destruct fin_; rewrite ?wadd32_sq, ?Z.add_0_r; done.
  - destruct (Z.ltb_spec n m).
    2:{ destruct He. replace m with n by lia. apply sub_nil. }
    rewrite wadd32_sq_mod, Hl by lia. replace (n + (m - n)) with m by lia.
    destruct fin_; rewrite ?wadd32_sq, ?Z.add_0_r; done.
Qed.

Lemma concat_ready n m : 0 <= n <= m -> m <= len ->
  concat (if n <? m then [sub n m] else []) = sub n m.
Proof.
  intros Hn Hm. destruct (Z.ltb_spec n m); simpl; [apply app_nil_r|].
  replace m with n by lia. by rewrite sub_nil.
Qed.

(** What a run of the drain loop from [n] leaves: it stops at [n'], and at a
    gap unless it met the FIN. *)
Record drained (hi : Z) (qs : list placed) (n n' : Z) (qs' : list placed) (ready : list bytes)
    (closed : bool) : Prop := {
  dr_le : n <= n' <= len;
  dr_hi : n' <= hi;
  dr_ready : concat ready = sub n n';
  dr_got i : n <= i < n' -> buffered qs i;
  dr_closed : closed = true -> n' = len /\ fin_marked qs;
  dr_open : closed = false -> queue_ok n' hi qs' /\
    (forall i, n' <= i -> buffered qs i <-> buffered qs' i) /\ (fin_marked qs' <-> fin_marked qs)
}.

Lemma fin_marked_cons x qs :
  fin_marked (x :: qs) <-> client_segment_has_fin x.2 = true \/ fin_marked qs.
Proof. apply Exists_cons. Qed.
Lemma buffered_cons x qs i : buffered (x :: qs) i <-> holds x i \/ buffered qs i.
Proof. apply Exists_cons. Qed.

Lemma drained_skip hi x qs n n' qs' more closed :
  end_of x <= n -> client_segment_has_fin x.2 = false ->
  drained hi qs n n' qs' more closed -> drained hi (x :: qs) n n' qs' more closed.
Proof.
  intros Hx Hf [L H R G C O]. split; try done.
  - intros i Hi. apply buffered_cons. right. by apply G.
  - intros Hc. destruct (C Hc). split; [done|]. apply fin_marked_cons. by right.
  - intros Hc. destruct (O Hc) as (Hq & Hb & Hm). split; [done|]. split.
    + intros i Hi. rewrite buffered_cons, <- Hb by done. unfold holds. split; [|by right].
      intros [?|?]; [lia|done].
    + rewrite fin_marked_cons, Hm, Hf. naive_solver.
Qed.

Lemma drained_take hi x qs n n' qs' more closed :
  0 <= x.1 <= n -> n < end_of x -> end_of x <= len -> client_segment_has_fin x.2 = false ->
  drained hi qs (end_of x) n' qs' more closed ->
  drained hi (x :: qs) n n' qs' (sub n (end_of x) :: more) closed.
Proof.
  intros Hx He Hl Hf [L H R G C O]. split; [lia|done| | | |].
  - cbn [concat]. rewrite R. apply sub_app; lia.
  - intros i Hi. apply buffered_cons. destruct (Z.lt_ge_cases i (end_of x)); [left|right].
    + unfold holds. lia.
    + apply G. lia.
  - intros Hc. destruct (C Hc). split; [done|]. apply fin_marked_cons. by right.
  - intros Hc. destruct (O Hc) as (Hq & Hb & Hm). split; [done|]. split.
    + intros i Hi. rewrite buffered_cons, <- Hb by done. unfold holds. split; [|by right].
      intros [?|?]; [lia|done].
    + rewrite fin_marked_cons, Hm, Hf. naive_solver.
Qed.

(** A FIN that is due sits at the end of the stream, where delivery stands. *)
Lemma drained_fin_end x n : seg_at x -> client_segment_has_fin x.2 = true -> x.1 <= n -> n <= len ->
  Z.max n (end_of x) = len /\ n = len.
Proof.
  intros Hx Hf Hle Hn. rewrite (seg_fin _ Hx), bool_decide_eq_true in Hf.
  pose proof (seg_fin_pos _ Hx Hf). pose proof (seg_end _ Hx). pose proof (end_of_ge x). lia.
Qed.

Lemma drain_spec lo hi qs n ready :
  hi - lo <= 2 ^ 30 -> queue_ok lo hi qs -> 0 <= lo <= n -> n <= hi -> n <= len ->
  exists n' qs' more closed,
    drain_ready_buffered_segments (sq isn n) (qs.*2) ready
    = (sq isn (n' + (if closed : bool then 1 else 0)), qs'.*2, ready ++ more, closed) /\
    drained hi qs n n' qs' more closed.
Proof.
  intros Hw. revert n ready. induction qs as [|x qs IH]; intros n ready [Hs Ho Hr] Hlo Hhi Hn.
  { exists n, [], [], false. rewrite app_nil_r, Z.add_0_r. split; [done|].
    split; [lia|lia|by rewrite sub_nil|lia|done|]. intros _. split; [by repeat constructor|done]. }
  apply Forall_cons in Hs as [Hx Hs]. apply Forall_cons in Hr as [[Hxl Hxh] Hr].
  apply StronglySorted_inv in Ho as [Ho Hb]. pose proof (end_of_ge x) as Hge.
  cbn [fmap list_fmap drain_ready_buffered_segments]. rewrite (seg_seq _ Hx), seq_gt_sq by lia.
  destruct (Z.ltb_spec n x.1) as [Hgap|Hle].
  { exists n, (x :: qs), [], false. rewrite app_nil_r, Z.add_0_r. split; [done|].
    split; [lia|lia|by rewrite sub_nil|lia|done|]. intros _. split; [|done].
    split; [by constructor|by constructor|]. constructor; [done|].
    rewrite Forall_forall in *. intros y Hy. specialize (Hb _ Hy). specialize (Hr _ Hy).
    unfold before in Hb. simpl in *. lia. }
  pose proof (seg_end _ Hx) as Hxe. pose proof (seg_pos _ Hx) as Hx0.
  assert (Hnorm : normalize_client_segment_parts (sq isn x.1) (b_flags x.2) (b_payload x.2) (sq isn n)
    = mkView (sub n (Z.max n (end_of x))) (client_segment_has_fin x.2)).
  { rewrite (seg_payload _ Hx). unfold end_of. apply normalize_at; try done; try lia.
    - apply zlen_nonneg.
    - intros Hf. change (client_segment_has_fin x.2 = true) in Hf.
      rewrite (seg_fin _ Hx), bool_decide_eq_true in Hf. rewrite (seg_fin_pos _ Hx Hf), Hf.
      unfold zlen at 1. simpl. lia. }
  rewrite Hnorm. cbn [v_payload fin]. destruct (client_segment_has_fin x.2) eqn:Hfin.
  - rewrite andb_false_r, apply_at by lia.
    exists len, (qs), (if n <? Z.max n (end_of x) then [sub n (Z.max n (end_of x))] else []), true.
    destruct (drained_fin_end x n Hx Hfin Hle Hn) as [Hmax Hnl]. rewrite Hmax. split; [done|].
    split; [lia|lia|apply concat_ready; lia|lia| |done].
    + intros _. split; [done|]. by apply fin_marked_cons; left.
  - rewrite andb_true_r. destruct (Z.le_gt_cases (end_of x) n) as [Hold|Hnew].
    + rewrite Z.max_l, sub_nil by done. rewrite bool_decide_eq_true_2 by done.
      destruct (IH n ready) as (n' & qs' & more & closed & -> & Hd); [by split|lia|lia|done|].
      exists n', qs', more, closed. split; [done|]. by apply drained_skip.
    + rewrite Z.max_r by lia.
      rewrite bool_decide_eq_false_2.
      2:{ intros He. pose proof (sub_length n (end_of x)) as Hl. rewrite He in Hl.
          unfold zlen in Hl. simpl in Hl. lia. }
      rewrite apply_at by lia. rewrite Z.add_0_r. destruct (Z.ltb_spec n (end_of x)); [|lia].
      destruct (IH (end_of x) (ready ++ [sub n (end_of x)])) as (n' & qs' & more & closed & -> & Hd);
        [by split|lia|lia|lia|].
      exists n', qs', (sub n (end_of x) :: more), closed. rewrite <- app_assoc. split; [done|].
      apply drained_take; (done || lia).
Qed.

Lemma sum_len_nonneg l : 0 <= sum_len l.
Proof. induction l as [|b l IH]; simpl; [done|]. pose proof (zlen_nonneg b). lia. Qed.

Definition packet_segment (p : ParsedTcpPacket) : TrimmedSegment :=
  mkTrimmed (sequence_number p) (flags p) (payload p).

(** A segment without data and without FIN. *)
Definition pure (p : ParsedTcpPacket) : Prop :=
  payload p = [] /\ has_flag (flags p) TCP_FLAG_FIN = false.

Lemma clear_fin f : has_flag (Z.land f (Z.lnot TCP_FLAG_FIN)) TCP_FLAG_FIN = false.
Proof. by apply has_flag_land. Qed.

(** Trimming keeps a prefix of the packet at its position, inside the window;
    the FIN survives only with the whole. *)
Lemma trim_ok s n p pkt t :
  rcv_nxt s = sq isn n -> 0 <= receive_window_capacity s <= 2 ^ 30 ->
  sends p (packet_segment pkt) -> - 2 ^ 30 < p - n <= 2 ^ 30 ->
  trim_packet_to_receive_window s pkt = Some t ->
  sends p t /\ p + zlen (t_payload t) <= n + 2 ^ 30.
Proof.
  intros Hr Hcap Hs Hn Ht. unfold trim_packet_to_receive_window in Ht.
  destruct (bool_decide (payload pkt = []) && _) eqn:Hp.
  { simplify_eq. split; [done|]. apply andb_true_iff in Hp as [He%bool_decide_eq_true _].
    simpl. rewrite He. unfold zlen. simpl. lia. }
  unfold receive_window_end, saturating_sub in Ht.
  set (w := Z.max 0 _) in Ht.
  assert (Hw : 0 <= w <= 2 ^ 30).
  { unfold w. assert (0 <= buffered_client_bytes s); [|lia]. unfold buffered_client_bytes.
    pose proof (sum_len_nonneg (b_payload <$> pending_client_segments s)).
    pose proof (sum_len_nonneg (pending_client_data s)). lia. }
  rewrite Hr, wadd32_sq_mod in Ht. pose proof (sd_seq _ _ Hs) as Hsq. simpl in Hsq.
  rewrite Hsq, seq_ge_sq in Ht by lia. destruct (Z.leb_spec (n + w) p); [done|].
  rewrite wsub32_sq_small in Ht by lia.
  pose proof (sd_end _ _ Hs) as He. pose proof (sd_pos _ _ Hs) as H0.
  pose proof (sd_payload _ _ Hs) as Hpl. simpl in He, Hpl.
  destruct (negb _ && (_ <? _)) eqn:Hc; simplify_eq; cbn [t_payload].
  - apply andb_true_iff in Hc as [_ Hc%Z.ltb_lt].
    assert (Htk : take (Z.to_nat (n + w - p)) (payload pkt) = sub p (n + w)).
    { rewrite Hpl, take_sub by lia. f_equal. lia. }
    assert (Hl : zlen (take (Z.to_nat (n + w - p)) (payload pkt)) = n + w - p).
    { rewrite Htk, sub_length; lia. }
    split; [|lia]. split; cbn [t_payload t_seq t_flags]; rewrite ?Hl; [done|done|lia| |].
    + rewrite Htk. f_equal. lia.
    + by rewrite clear_fin.
  - split; [by unfold packet_segment in Hs; rewrite Hsq in Hs|]. apply andb_false_iff in Hc as [Hc|Hc%Z.ltb_ge]; [|lia].
    apply negb_false_iff, bool_decide_eq_true in Hc. rewrite Hc. unfold zlen. simpl. lia.
Qed.

(** *** The invariant of a run *)
Definition received (got : list (Z * Z)) (i : Z) : Prop := Exists (fun ab => ab.1 <= i < ab.2) got.

Record open_ok (s : TcpFlowState) (up : bytes) (got : list (Z * Z)) (got_fin : bool)
    (n : Z) (qs : list placed) : Prop := {
  o_rcv : rcv_nxt s = sq isn n;
  o_pos : 0 <= n <= len;
  o_data : up ++ concat (pending_client_data s) = sub 0 n;
  o_pend : pending_client_segments s = qs.*2;
  o_queue : queue_ok n (n + 2 ^ 30) qs;
  o_got i : received got i <-> 0 <= i < n \/ buffered qs i;
  o_fin : got_fin = true <-> fin_marked qs;
  o_cap : 0 <= receive_window_capacity s <= 2 ^ 30;
  o_status : client_fin_seen (status s) = false
}.

Record closed_ok (s : TcpFlowState) (up : bytes) (got : list (Z * Z)) (got_fin : bool) : Prop := {
  c_rcv : rcv_nxt s = sq isn (len + 1);
  c_data : up ++ concat (pending_client_data s) = stream;
  c_got i : received got i <-> 0 <= i < len;
  c_fin : got_fin = true;
  c_cap : 0 <= receive_window_capacity s <= 2 ^ 30;
  c_status : client_fin_seen (status s) = true
}.

Lemma set_receive_id s :
  set_receive s (rcv_nxt s) (pending_client_data s) (pending_client_segments s) = s.
Proof. by destruct s. Qed.

(** What [apply_inbound] does to an open flow that stands at [n]. *)
Record applied (s : TcpFlowState) (qs : list placed) (n p : Z) (t : TrimmedSegment) (n' : Z)
    (segs' : list BufferedClientSegment) (ready : list bytes) (closed : bool) : Prop := {
  ap_result : apply_inbound s t
    = (set_receive s (sq isn (n' + (if closed then 1 else 0))) (pending_client_data s) segs',
       ready, closed);
  ap_le : n <= n' <= len;
  ap_ready : concat ready = sub n n';
  ap_got i : n <= i < n' -> buffered qs i \/ p <= i < p + zlen (t_payload t);
  ap_closed : closed = true -> n' = len /\ (has_flag (t_flags t) TCP_FLAG_FIN = true \/ fin_marked qs);
  ap_open : closed = false -> exists qs', segs' = qs'.*2 /\
    queue_ok n' (n + 2 ^ 30) qs' /\ (forall i, n' <= i -> buffered qs i <-> buffered qs' i) /\
    (fin_marked qs' <-> fin_marked qs) /\ has_flag (t_flags t) TCP_FLAG_FIN = false /\
    p + zlen (t_payload t) <= n'
}.

Lemma apply_inbound_ok s up got gf n qs p t :
  open_ok s up got gf n qs -> sends p t -> p <= n -> n - p < 2 ^ 30 ->
  p + zlen (t_payload t) <= n + 2 ^ 30 ->
  exists n' segs' ready closed, applied s qs n p t n' segs' ready closed.
Proof.
  intros Ho Hs Hp Hn He. pose proof (o_pos _ _ _ _ _ _ Ho) as Hpos.
  pose proof (sd_end _ _ Hs) as Hend. pose proof (sd_pos _ _ Hs) as H0.
  pose proof (zlen_nonneg (t_payload t)) as Hk.
  set (f := has_flag (t_flags t) TCP_FLAG_FIN). set (e := p + zlen (t_payload t)) in *.
  assert (Hnorm : normalize_trimmed_segment t (rcv_nxt s) = mkView (sub n (Z.max n e)) f).
  { unfold normalize_trimmed_segment. rewrite (sd_seq _ _ Hs), (o_rcv _ _ _ _ _ _ Ho).
    rewrite (sd_payload _ _ Hs). apply normalize_at; try lia. intros Hf. by apply (sd_fin _ _ Hs). }
  assert (Hfe : f = true -> e = len) by apply (sd_fin _ _ Hs).
  assert (Hml : Z.max n e <= len) by lia.
  pose proof (sub_max n e (sub_length n (Z.max n e) ltac:(lia) Hml) ltac:(lia)) as Hnil.
  unfold apply_inbound. destruct f eqn:Hf.
  - (* the FIN is due *)
    specialize (Hfe eq_refl). exists len, (pending_client_segments s),
      (if n <? len then [sub n len] else []), true.
    assert (Hm : Z.max n e = len) by lia.
    split; [|lia|apply concat_ready; lia| | |done].
    + unfold apply_inbound. rewrite Hnorm. cbn [v_payload fin]. rewrite orb_true_r.
      rewrite (o_rcv _ _ _ _ _ _ Ho), apply_at, Hm by lia. done.
    + intros i Hi. right. lia.
    + intros _. split; [done|]. by left.
  - destruct (Z.le_gt_cases e n) as [Hold|Hnew].
    + (* nothing new *)
      exists n, (pending_client_segments s), [], false.
      split; [|lia|by rewrite sub_nil|lia|done|].
      * unfold apply_inbound. rewrite Hnorm. cbn [v_payload fin].
        rewrite bool_decide_eq_true_2 by (by apply Hnil). cbn [negb orb].
        by rewrite Z.add_0_r, <- (o_rcv _ _ _ _ _ _ Ho), set_receive_id.
      * intros _. exists qs. split; [apply Ho|]. split; [apply Ho|]. done.
    + (* new data, then the drain *)
      destruct (drain_spec n (n + 2 ^ 30) qs e [sub n e]) as (n' & qs' & more & closed & Hdr & Hd);
        [lia|apply Ho|lia|lia|lia|].
      exists n', (qs'.*2), (sub n e :: more), closed.
      pose proof (dr_le _ _ _ _ _ _ _ Hd) as Hn'.
      split; [|lia| | | |].
      * unfold apply_inbound. rewrite Hnorm. cbn [v_payload fin].
        rewrite bool_decide_eq_false_2 by (rewrite Hnil; lia). cbn [negb orb].
        rewrite Z.max_r, (o_rcv _ _ _ _ _ _ Ho), apply_at, Z.add_0_r by lia.
        destruct (Z.ltb_spec n e); [|lia]. cbn [app].
        by rewrite (o_pend _ _ _ _ _ _ Ho), Hdr.
      * cbn [concat]. rewrite (dr_ready _ _ _ _ _ _ _ Hd). apply sub_app; lia.
      * intros i Hi. destruct (Z.lt_ge_cases i e); [right; lia|left].
        apply (dr_got _ _ _ _ _ _ _ Hd). lia.
      * intros Hc. destruct (dr_closed _ _ _ _ _ _ _ Hd Hc). auto.
      * intros Hc. destruct (dr_open _ _ _ _ _ _ _ Hd Hc) as (Hq & Hb & Hm).
        exists qs'. split; [done|]. split; [done|]. split; [done|]. split; [done|]. split; [done|lia].
Qed.

(** *** Runs

    A run of the flow: packets of the client's stream in any order, duplicated
    and overlapping at will (within [2 ^ 30] of where delivery stands, which
    the window keeps honest clients to), and pump batches. [got] and [got_fin]
    record what the window let in. *)
Record rx : Type := mkRx {
  flow : TcpFlowState;
  upstream : bytes;
  got : list (Z * Z);
  got_fin : bool
}.

Definition position (r : rx) : Z := zlen (upstream r ++ concat (pending_client_data (flow r))).

(** A packet of the stream: data and FIN at their place, or a bare segment up
    to the sequence number after the FIN. *)
Definition from_client (p : Z) (pkt : ParsedTcpPacket) : Prop :=
  sends p (packet_segment pkt) \/
  (pure pkt /\ sequence_number pkt = sq isn p /\ 0 <= p <= len + 1).

Definition let_in (s : TcpFlowState) (pkt : ParsedTcpPacket) : option TrimmedSegment :=
  if client_fin_seen (status s) then None else trim_packet_to_receive_window s pkt.
Definition record_got (p : Z) (o : option TrimmedSegment) : list (Z * Z) :=
  match o with Some t => [(p, p + zlen (t_payload t))] | None => [] end.
Definition record_fin (o : option TrimmedSegment) : bool :=
  match o with Some t => has_flag (t_flags t) TCP_FLAG_FIN | None => false end.

Definition next_flow (o : RxOutcome) : option TcpFlowState :=
  match o with RxAbort _ => None | RxAck s | RxDelivered s _ => Some s end.

Inductive rx_step (config : TunTcpConfig) : rx -> rx -> Prop :=
  | rx_packet r p pkt now s :
    from_client p pkt -> - 2 ^ 30 < p - position r <= 2 ^ 30 ->
    next_flow (handle_segment (flow r) config pkt now) = Some s ->
    rx_step config r
      (mkRx s (upstream r) (got r ++ record_got p (let_in (flow r) pkt))
         (got_fin r || record_fin (let_in (flow r) pkt)))
  | rx_pump r :
    rx_step config r
      (mkRx (pump_batch (flow r) config).1 (upstream r ++ concat (pump_batch (flow r) config).2)
         (got r) (got_fin r)).

Definition rx_ok (r : rx) : Prop :=
  (exists n qs, open_ok (flow r) (upstream r) (got r) (got_fin r) n qs) \/
  closed_ok (flow r) (upstream r) (got r) (got_fin r).

Lemma received_app g h i : received (g ++ h) i <-> received g i \/ received h i.
Proof. apply Exists_app. Qed.
Lemma received_one a b i : received [(a, b)] i <-> a <= i < b.
Proof. unfold received. rewrite Exists_cons, Exists_nil. simpl. tauto. Qed.

Lemma queue_weaken lo hi hi' qs : hi <= hi' -> queue_ok lo hi qs -> queue_ok lo hi' qs.
Proof.
  intros Hh [S O R]. split; [done|done|]. eapply Forall_impl; [exact R|]. simpl. lia.
Qed.

Lemma open_position s up g gf n qs : open_ok s up g gf n qs ->
  zlen (up ++ concat (pending_client_data s)) = n.
Proof. intros Ho. rewrite (o_data _ _ _ _ _ _ Ho), sub_length; [lia|..]; pose proof (o_pos _ _ _ _ _ _ Ho); lia. Qed.

(** Fields the receive path does not touch can be exchanged. *)
Lemma open_same s s' up g gf n qs :
  rcv_nxt s' = rcv_nxt s -> pending_client_data s' = pending_client_data s ->
  pending_client_segments s' = pending_client_segments s ->
  receive_window_capacity s' = receive_window_capacity s -> status s' = status s ->
  open_ok s up g gf n qs -> open_ok s' up g gf n qs.
Proof. intros H1 H2 H3 H4 H5 []. split; rewrite ?H1, ?H2, ?H3, ?H4, ?H5; done. Qed.

Lemma transition_closes s now : client_fin_seen (status s) = false ->
  client_fin_seen (status (transition_on_client_fin s now)) = true.
Proof.
  unfold transition_on_client_fin, set_flow_status. destruct (status s) eqn:E; try done; intros _;
    rewrite bool_decide_eq_false_2 by congruence; done.
Qed.

Lemma transition_keeps s now :
  let s' := transition_on_client_fin s now in
  rcv_nxt s' = rcv_nxt s /\ pending_client_data s' = pending_client_data s /\
  receive_window_capacity s' = receive_window_capacity s.
Proof.
  unfold transition_on_client_fin, set_flow_status.
  destruct (status s); try case_bool_decide; done.
Qed.

(** Out-of-order data. *)
Lemma beyond_ok config s up g gf n qs p pkt s' :
  open_ok s up g gf n qs -> sends p (packet_segment pkt) -> n < p <= n + 2 ^ 30 ->
  queue_future_segment_with_recv_window s config pkt = (s', Queued) \/
    queue_future_segment_with_recv_window s config pkt = (s', OutsideWindow) ->
  exists qs', open_ok s' up (g ++ record_got p (trim_packet_to_receive_window s pkt))
    (gf || record_fin (trim_packet_to_receive_window s pkt)) n qs'.
Proof.
  intros Ho Hs Hp Hq. unfold queue_future_segment_with_recv_window in Hq.
  destruct (trim_packet_to_receive_window s pkt) as [t|] eqn:Ht.
  2:{ destruct Hq as [[=]|[= <-]]. exists qs. simpl. by rewrite app_nil_r, orb_false_r. }
  destruct (trim_ok s n p pkt t) as [Hst He]; [apply Ho|apply Ho|done|lia|done|].
  cbv zeta in Hq. match type of Hq with context [if ?c then _ else _] => destruct c end;
    [by destruct Hq|]. destruct Hq as [[= <-]|[=]].
  destruct (queue_future_ok n (n + 2 ^ 30) qs p t) as (qs' & Hqf & Hq' & Hb & Hf);
    [lia|pose proof (o_pos _ _ _ _ _ _ Ho); lia|apply Ho|done|done|].
  exists qs'. destruct Ho. split; simpl; try done.
  - rewrite o_pend0, o_rcv0. exact Hqf.
  - intros i. rewrite received_app, received_one, o_got0, Hb. tauto.
  - rewrite orb_true_iff, o_fin0, Hf. done.
Qed.

(** In-order data, duplicates and whatever they release. *)
Lemma rx_deliver_ok s up g gf n qs p t now n' segs' ready closed :
  open_ok s up g gf n qs -> sends p t -> p <= n ->
  applied s qs n p t n' segs' ready closed ->
  let s1 := set_receive s (sq isn (n' + (if closed then 1 else 0)))
              (pending_client_data s ++ ready) segs' in
  let s' := if closed then transition_on_client_fin s1 now else s1 in
  rx_ok (mkRx s' up (g ++ [(p, p + zlen (t_payload t))]) (gf || has_flag (t_flags t) TCP_FLAG_FIN)).
Proof.
  intros Ho Hs Hp Ha s1 s'. pose proof (o_pos _ _ _ _ _ _ Ho) as Hpos.
  pose proof (ap_le _ _ _ _ _ _ _ _ _ Ha) as Hle.
  assert (Hdata : up ++ concat (pending_client_data s ++ ready) = sub 0 n').
  { rewrite concat_app, app_assoc, (o_data _ _ _ _ _ _ Ho), (ap_ready _ _ _ _ _ _ _ _ _ Ha).
    apply sub_app; lia. }
  pose proof (sd_end _ _ Hs) as Hend. pose proof (sd_pos _ _ Hs) as H0.
  pose proof (ap_got _ _ _ _ _ _ _ _ _ Ha) as Hgot.
  assert (Hq : forall i, buffered qs i -> 0 <= i < len).
  { intros i Hi. apply Exists_exists in Hi as (x & Hx & Hi).
    pose proof (proj1 (Forall_forall _ _) (q_segs _ _ _ (o_queue _ _ _ _ _ _ Ho)) _ Hx) as Hsx.
    pose proof (seg_end _ Hsx). pose proof (seg_pos _ Hsx). unfold holds in Hi. lia. }
  unfold s'. destruct closed; cbn [flow upstream got got_fin].
  - right. cbn [flow upstream got got_fin]. destruct (ap_closed _ _ _ _ _ _ _ _ _ Ha eq_refl) as [-> Hf].
    pose proof (transition_keeps s1 now) as (K1 & K2 & K3). split; rewrite ?K1, ?K2, ?K3.
    + done.
    + unfold s1. simpl. rewrite Hdata. unfold sub, slice, len, zlen.
      rewrite Nat2Z.id. simpl. rewrite Nat.sub_0_r. apply firstn_all.
    + intros i. rewrite received_app, received_one, (o_got _ _ _ _ _ _ Ho). split.
      * intros [[?|Hi]|?]; [lia|by apply Hq|lia].
      * intros Hi. destruct (Z.lt_ge_cases i n); [left; left; lia|].
        destruct (Hgot i) as [?|?]; [lia|left; by right|right; lia].
    + apply orb_true_iff. rewrite (o_fin _ _ _ _ _ _ Ho). tauto.
    + apply Ho.
    + apply transition_closes. apply Ho.
  - left. destruct (ap_open _ _ _ _ _ _ _ _ _ Ha eq_refl) as (qs' & -> & Hq' & Hb & Hf & Hnf & Hep).
    exists n', qs'. unfold s1. split; simpl; try (by apply Ho); try done.
    + by rewrite Z.add_0_r.
    + lia.
    + eapply queue_weaken; [|exact Hq']. lia.
    + intros i. rewrite received_app, received_one, (o_got _ _ _ _ _ _ Ho). split.
      * intros [[?|Hi]|?]; [left; lia| |left; lia].
        destruct (Z.lt_ge_cases i n'); [left; specialize (Hq i Hi); lia|right].
        by apply Hb.
      * intros [Hi|Hi].
        -- destruct (Z.lt_ge_cases i n); [left; left; lia|].
           destruct (Hgot i) as [?|?]; [lia|left; by right|by right].
        -- left. right. apply Hb; [|done]. apply Exists_exists in Hi as (x & Hx & Hi).
           pose proof (proj1 (Forall_forall _ _) (q_range _ _ _ Hq') _ Hx) as Hr.
           unfold holds in Hi. simpl in Hr. lia.
    + rewrite orb_true_iff, (o_fin _ _ _ _ _ _ Ho), Hf, Hnf. naive_solver.
Qed.

(** A bare segment moves nothing. *)
Lemma pure_ok s config pkt now s' :
  pure pkt -> next_flow (handle_segment s config pkt now) = Some s' ->
  rcv_nxt s' = rcv_nxt s /\ pending_client_data s' = pending_client_data s /\
  pending_client_segments s' = pending_client_segments s /\
  receive_window_capacity s' = receive_window_capacity s /\ status s' = status s.
Proof.
  intros [He Hf] Hn. unfold handle_segment, classify_inbound_segment in Hn.
  unfold queue_future_segment_with_recv_window in Hn.
  assert (Ht : trim_packet_to_receive_window s pkt = Some (packet_segment pkt)).
  { unfold trim_packet_to_receive_window, packet_segment. by rewrite He, Hf. }
  rewrite Ht in Hn.
  assert (Hq : queue_future_segment (pending_client_segments s) (packet_segment pkt) (rcv_nxt s)
    = pending_client_segments s).
  { unfold queue_future_segment. simpl. by rewrite He, Hf. }
  rewrite Hq in Hn.
  assert (Ha : apply_inbound s (packet_segment pkt) = (s, [], false)).
  { unfold apply_inbound, normalize_trimmed_segment, normalize_client_segment_parts. simpl.
    rewrite He, Hf, drop_nil. by destruct (_ <=? _). }
  destruct (_ && segment_requires_ack _ _ _ _); [by simplify_eq/=|].
  destruct (seq_gt _ _).
  - cbv zeta in Hn. destruct (_ || _); by simplify_eq/=.
  - cbn iota in Hn. rewrite Ha in Hn. simpl in Hn. rewrite app_nil_r in Hn. by simplify_eq/=.
Qed.

Lemma rx_packet_ok config r p pkt now s :
  rx_ok r -> from_client p pkt -> - 2 ^ 30 < p - position r <= 2 ^ 30 ->
  next_flow (handle_segment (flow r) config pkt now) = Some s ->
  rx_ok (mkRx s (upstream r) (got r ++ record_got p (let_in (flow r) pkt))
           (got_fin r || record_fin (let_in (flow r) pkt))).
Proof.
  intros Hr [Hs|(Hpure & Hsq & Hp)] Hnear Hn.
  2:{ (* bare *)
      destruct (pure_ok _ _ _ _ _ Hpure Hn) as (E1 & E2 & E3 & E4 & E5). destruct Hpure as [He Hf].
      assert (Hg : forall i, received (got r ++ record_got p (let_in (flow r) pkt)) i <-> received (got r) i).
      { intros i. rewrite received_app. unfold let_in. destruct (client_fin_seen _); simpl.
        - unfold received. rewrite Exists_nil. tauto.
        - unfold trim_packet_to_receive_window. rewrite He, Hf. simpl. rewrite received_one.
          unfold zlen. simpl. split; [intros [?|?]; [done|lia]|by left]. }
      assert (Hfin : record_fin (let_in (flow r) pkt) = false).
      { unfold let_in. destruct (client_fin_seen _); [done|].
        unfold trim_packet_to_receive_window. rewrite He, Hf. done. }
      rewrite Hfin, orb_false_r. destruct Hr as [(n & qs & Ho)|Hc].
      - left. exists n, qs. apply (open_same (flow r)); [done..|]. destruct Ho. split; try done.
        intros i. by rewrite Hg.
      - right. destruct Hc. split; cbn [flow upstream got got_fin]; rewrite ?E1, ?E2, ?E4, ?E5; try done.
        intros i. by rewrite Hg. }
  destruct Hr as [(n & qs & Ho)|Hc].
  - assert (Hpos : position r = n) by exact (open_position _ _ _ _ _ _ Ho).
    rewrite Hpos in Hnear. clear Hpos. unfold let_in. rewrite (o_status _ _ _ _ _ _ Ho).
    unfold handle_segment in Hn. rewrite (o_status _ _ _ _ _ _ Ho) in Hn. cbn [andb] in Hn.
    unfold classify_inbound_segment in Hn. pose proof (sd_seq _ _ Hs) as Hsq. simpl in Hsq.
    rewrite Hsq, (o_rcv _ _ _ _ _ _ Ho), seq_gt_sq in Hn by lia.
    destruct (Z.ltb_spec n p).
    + destruct (queue_future_segment_with_recv_window (flow r) config pkt) as [s1 o] eqn:Hq.
      assert (Ho' : o = Queued \/ o = OutsideWindow) by (destruct o; auto; done).
      destruct (beyond_ok config _ _ _ _ _ _ p pkt s1 Ho Hs) as (qs' & Hok);
        [lia|destruct Ho' as [-> | ->]; auto|].
      left. exists n, qs'. cbn [flow upstream got got_fin].
      apply (open_same s1); [..|exact Hok]; destruct Ho' as [-> | ->]; simpl in Hn; by simplify_eq.
    + destruct (trim_packet_to_receive_window (flow r) pkt) as [t|] eqn:Ht; cbn [record_got record_fin].
      2:{ simpl in Hn. simplify_eq. rewrite app_nil_r, orb_false_r. left. exists n, qs.
          by apply (open_same (flow r)). }
      destruct (trim_ok (flow r) n p pkt t) as [Hst He]; [apply Ho|apply Ho|done|lia|done|].
      destruct (apply_inbound_ok _ _ _ _ _ _ p t Ho Hst) as (n' & segs' & ready & closed & Ha);
        [lia|lia|done|].
      rewrite (ap_result _ _ _ _ _ _ _ _ _ Ha) in Hn. cbn [rcv_nxt pending_client_data
        pending_client_segments set_receive] in Hn.
      match type of Hn with context [if ?c then RxAbort _ else _] => destruct c end; [done|].
      simpl in Hn. apply (inj Some) in Hn as <-.
      exact (rx_deliver_ok _ _ _ _ _ _ p t now _ _ _ _ Ho Hst ltac:(lia) Ha).
  - assert (Hpos : position r = len) by (unfold position; by rewrite (c_data _ _ _ _ Hc)).
    rewrite Hpos in Hnear. clear Hpos. pose proof (sd_end _ _ Hs) as Hend. simpl in Hend.
    pose proof (zlen_nonneg (payload pkt)). unfold let_in. rewrite (c_status _ _ _ _ Hc).
    unfold handle_segment in Hn. rewrite (c_status _ _ _ _ Hc) in Hn.
    pose proof (sd_seq _ _ Hs) as Hsq. simpl in Hsq.
    unfold segment_requires_ack in Hn. rewrite Hsq, (c_rcv _ _ _ _ Hc), seq_lt_sq in Hn by lia.
    rewrite (proj2 (Z.ltb_lt p (len + 1))), orb_true_r in Hn by lia. simpl in Hn. simplify_eq.
    cbn [record_got record_fin]. rewrite app_nil_r, orb_false_r. by right.
Qed.

Lemma take_batch_app b data : (take_batch b data).1 ++ (take_batch b data).2 = data.
Proof.
  revert b; induction data as [|c data IH]; intros b; simpl; [done|].
  destruct (b <? PUMP_BATCH_BYTES); [|done].
  specialize (IH (b + zlen c)). destruct (take_batch (b + zlen c) data). simpl in *. by rewrite IH.
Qed.

Lemma pump_batch_spec s config :
  let r := pump_batch s config in
  rcv_nxt r.1 = rcv_nxt s /\ status r.1 = status s /\
  pending_client_segments r.1 = pending_client_segments s /\
  r.2 ++ pending_client_data r.1 = pending_client_data s /\
  (0 <= receive_window_capacity s <= 2 ^ 30 -> max_buffered_client_bytes config <= 2 ^ 30 ->
   0 <= receive_window_capacity r.1 <= 2 ^ 30).
Proof.
  unfold pump_batch. pose proof (take_batch_app 0 (pending_client_data s)) as Ht.
  destruct (take_batch 0 (pending_client_data s)) as [batch rest]. cbn [fst snd] in *.
  unfold grow_receive_window. cbn [set_receive receive_window_capacity].
  pose proof (sum_len_nonneg batch).
  destruct (Z.ltb_spec (receive_window_capacity s) (max_buffered_client_bytes config)); simpl;
    (split; [done|]); (split; [done|]); (split; [done|]); (split; [done|]); lia.
Qed.

Lemma pump_ok config r : max_buffered_client_bytes config <= 2 ^ 30 -> rx_ok r ->
  rx_ok (mkRx (pump_batch (flow r) config).1 (upstream r ++ concat (pump_batch (flow r) config).2)
           (got r) (got_fin r)).
Proof.
  intros Hcfg Hr. destruct (pump_batch_spec (flow r) config) as (E1 & E2 & E3 & E4 & E5).
  assert (Hd : forall up, (up ++ concat (pump_batch (flow r) config).2)
    ++ concat (pending_client_data (pump_batch (flow r) config).1)
    = up ++ concat (pending_client_data (flow r))).
  { intros up. by rewrite <- app_assoc, <- concat_app, E4. }
  destruct Hr as [(n & qs & [])|[]]; [left; exists n, qs|right];
    split; cbn [flow upstream got got_fin]; rewrite ?E1, ?E2, ?E3, ?Hd; auto.
Qed.

Lemma rx_steps_ok config r r' : max_buffered_client_bytes config <= 2 ^ 30 ->
  rtc (rx_step config) r r' -> rx_ok r -> rx_ok r'.
Proof.
  intros Hcfg. induction 1 as [|r r1 r2 Hstep _ IH]; [done|]. intros Hr. apply IH.
  destruct Hstep; [by eapply rx_packet_ok|by apply pump_ok].
Qed.

(** A flow past its handshake, before any data. *)
Record fresh_flow (s : TcpFlowState) : Prop := {
  f_rcv : rcv_nxt s = sq isn 0;
  f_data : pending_client_data s = [];
  f_segs : pending_client_segments s = [];
  f_cap : 0 <= receive_window_capacity s <= 2 ^ 30;
  f_status : client_fin_seen (status s) = false
}.

Lemma fresh_flow_ok s : fresh_flow s -> rx_ok (mkRx s [] [] false).
Proof.
  intros []. left. exists 0, []. split; cbn [flow upstream got got_fin];
    rewrite ?f_rcv0, ?f_data0, ?f_segs0; try done.
  - pose proof (zlen_nonneg stream). unfold len. lia.
  - by repeat constructor.
  - intros i. unfold received, buffered. rewrite !Exists_nil. split; [done|]. intros [?|?]; [lia|done].
  - unfold fin_marked. by rewrite Exists_nil.
Qed.
End stream.

(** ** Properties *)

(** C1: in-order, exactly-once delivery: whatever the order, overlap and
    duplication of the client's segments, across sequence wrap-around and with
    the pump draining at any time, what reached the upstream followed by what
    waits for it is the prefix of the client's stream up to the first byte the
    window has not let in; nothing received before that point is held back, and
    the client's half closes exactly when the whole stream and its FIN are in. *)
Theorem reassembly_exact (isn : Z) (stream : bytes) (config : TunTcpConfig) (s0 : TcpFlowState) (r : rx) :
  fresh_flow isn s0 -> max_buffered_client_bytes config <= 2 ^ 30 ->
  rtc (rx_step isn stream config) (mkRx s0 [] [] false) r ->
  exists n : nat, (n <= length stream)%nat /\
    upstream r ++ concat (pending_client_data (flow r)) = take n stream /\
    (forall i, 0 <= i < Z.of_nat n -> received (got r) i) /\
    ~ received (got r) (Z.of_nat n) /\
    (client_fin_seen (status (flow r)) = true <-> n = length stream /\ got_fin r = true).
Proof.
  intros Hs Hcfg Hrun. pose proof (rx_steps_ok _ _ _ _ _ Hcfg Hrun (fresh_flow_ok isn stream s0 Hs)) as Hr.
  destruct Hr as [(n & qs & Ho)|Hc].
  - pose proof (o_pos _ _ _ _ _ _ _ _ Ho) as Hpos. unfold len, zlen in Hpos.
    pose proof (q_range _ _ _ _ _ (o_queue _ _ _ _ _ _ _ _ Ho)) as Hrange.
    rewrite Forall_forall in Hrange. exists (Z.to_nat n). rewrite Z2Nat.id by lia. split; [lia|].
    split; [by rewrite (o_data _ _ _ _ _ _ _ _ Ho); unfold sub, slice; rewrite Nat.sub_0_r|].
    split; [|split].
    + intros i Hi. apply (o_got _ _ _ _ _ _ _ _ Ho). by left.
    + intros [?|Hb]%(o_got _ _ _ _ _ _ _ _ Ho); [lia|].
      apply Exists_exists in Hb as (x & Hx & Hb). specialize (Hrange _ Hx). unfold holds in Hb. lia.
    + rewrite (o_status _ _ _ _ _ _ _ _ Ho), (o_fin _ _ _ _ _ _ _ _ Ho). split; [done|].
      intros [Hn Hm]. apply Exists_exists in Hm as (x & Hx & Hf). specialize (Hrange _ Hx).
      pose proof (proj1 (Forall_forall _ _) (q_segs _ _ _ _ _ (o_queue _ _ _ _ _ _ _ _ Ho)) _ Hx) as Hsx.
      rewrite (seg_fin _ _ _ Hsx), bool_decide_eq_true in Hf.
      pose proof (seg_fin_pos _ _ _ Hsx Hf) as Hp. unfold len, zlen in Hp. lia.
  - exists (length stream). split; [done|]. rewrite firstn_all. split; [apply Hc|].
    split; [|split].
    + intros i Hi. by apply (c_got _ _ _ _ _ _ Hc).
    + intros Hi. apply (c_got _ _ _ _ _ _ Hc) in Hi. unfold len, zlen in Hi. lia.
    + rewrite (c_status _ _ _ _ _ _ Hc), (c_fin _ _ _ _ _ _ Hc). done.
Qed.

Definition example_flow : TcpFlowState :=
  mkFlow Established 0 0 (2 ^ 32 - 3) 65536 [] [] false None 0 0 0 0 0 0 0 None 0 None 0 None.
Definition example_tcp_config : TunTcpConfig := 
  mkTcpConfig 16 65536 10000 60000 4194304 4 30000 12 None 30000 3.
Definition example_stream : bytes := str "hello, wrap".
Definition example_packet (seq flags : Z) (payload : bytes) : ParsedTcpPacket :=
  mkPacket V4 (IpAddrV4 (map u8 [10; 0; 0; 1])) (IpAddrV4 (map u8 [1; 1; 1; 1])) 40000 443 seq 0 0
    None None false [] None None flags payload.
(** The tail with its FIN first, across the wrap, then an overlapping head. *)
Definition example_tail : ParsedTcpPacket := example_packet 2 0x11 (str ", wrap").
Definition example_head : ParsedTcpPacket := example_packet (2 ^ 32 - 3) 0x10 (str "hello, ").

Definition example_after (r : rx) (p : Z) (pkt : ParsedTcpPacket) : rx :=
  mkRx (default (flow r) (next_flow (handle_segment (flow r) example_tcp_config pkt 0)))
    (upstream r) (got r ++ record_got p (let_in (flow r) pkt))
    (got_fin r || record_fin (let_in (flow r) pkt)).
Definition example_rx : rx :=
  example_after (example_after (mkRx example_flow [] [] false) 5 example_tail) 0 example_head.

Lemma example_after_step r p pkt :
  from_client (2 ^ 32 - 3) example_stream p pkt -> - 2 ^ 30 < p - position r <= 2 ^ 30 ->
  is_Some (next_flow (handle_segment (flow r) example_tcp_config pkt 0)) ->
  rx_step (2 ^ 32 - 3) example_stream example_tcp_config r (example_after r p pkt).
Proof.
  intros Hp Hn [s Hs]. unfold example_after. rewrite Hs. by apply (rx_packet _ _ _ _ p pkt 0).
Qed.

Lemma example_rx_run :
  rtc (rx_step (2 ^ 32 - 3) example_stream example_tcp_config)
    (mkRx example_flow [] [] false) example_rx.
Proof.
  apply (rtc_l _ _ (example_after (mkRx example_flow [] [] false) 5 example_tail)).
  - apply example_after_step; [left; split|split|eexists]; vm_compute; (reflexivity || discriminate).
  - apply rtc_once, example_after_step;
      [left; split|split|eexists]; vm_compute; (reflexivity || discriminate).
Qed.

Lemma reassembly_exact_witness :
  concat (pending_client_data (flow example_rx)) = example_stream /\
  status (flow example_rx) = CloseWait /\
  exists n : nat, (n <= length example_stream)%nat /\
    concat (pending_client_data (flow example_rx)) = take n example_stream.
Proof.
  split; [vm_compute; reflexivity|]. split; [vm_compute; reflexivity|].
  destruct (reassembly_exact (2 ^ 32 - 3) example_stream example_tcp_config example_flow example_rx)
    as (n & Hn & Hd & _).
  - split; try (vm_compute; reflexivity). split; vm_compute; discriminate.
  - vm_compute. discriminate.
  - exact example_rx_run.
  - exists n. split; [exact Hn|]. rewrite <- Hd.
    replace (upstream example_rx) with (@nil byte) by (vm_compute; reflexivity). reflexivity.
Defined.

(** The bound checked before queueing counts one data segment per packet, but a
    packet that straddles buffered ones leaves a piece in each gap: here four
    segments are allowed and seven are held. *)
Example segment_limit_exceeded :
  let one seq := mkBuffered seq 0x10 [x41] in
  let s := set_receive (set_capacity example_flow 65536) 0 [] [one 10; one 20; one 30] in
  let p := example_packet 5 0x10 (replicate 40 x41) in
  let '(s', o) := queue_future_segment_with_recv_window s 
    (mkTcpConfig 4 65536 10000 60000 4194304 4 30000 12 None 30000 3) p in
  o = Queued /\ zlen (pending_client_segments s') = 7.
Proof. vm_compute. done. Qed.
