(* ===== verification/TcpPackets.v ===== *)
(** The packets of a flow ([crates/outline-tun/src/tcp/state_machine/packets.rs]):
    the option block in its fixed array, the acknowledgements with their SACK
    ranges, and the windows in both directions.

    The fields of the flow that are set when it is created and never written
    again are a record of their own, [FlowConst]. An option block is the written
    part of its array of forty bytes; a write past its end is a panic, [None]. *)
From S2P Require Import Prelude StdText IpPacket TcpTypes TcpWire TcpRecv.
From Stdlib Require Import Sorted.
Local Open Scope Z_scope.

Record FlowConst : Type := mkConst {
  key_version : IpVersion;
  key_remote_ip : IpAddr;
  key_client_ip : IpAddr;
  key_remote_port : Z;
  key_client_port : Z;
  client_sack_permitted : bool;
  client_max_segment_size : option Z;
  gso_enabled : bool;
  server_timestamp_offset : Z;
  created_at : Z
}.

(** ** The option block *)
Definition push_option (options : bytes) (b : byte) : option bytes :=
  if (length options <? 40)%nat then Some (options ++ [b]) else None.
Definition extend_options (options s : bytes) : option bytes :=
  if (length options + length s <=? 40)%nat then Some (options ++ s) else None.

(** At most three rounds, the length being a multiple of four by then. *)
Fixpoint pad_loop (fuel : nat) (options : bytes) : option bytes :=
  match fuel with
  | O => None
  | S fuel =>
    if (length options mod 4 =? 0)%nat then Some options
    else o ← push_option options x01; pad_loop fuel o
  end.
Definition pad_options (options : bytes) : option bytes := pad_loop 4 options.

Definition current_timestamp_value (k : FlowConst) (now : Z) : Z :=
  wadd32 (server_timestamp_offset k) (elapsed_since now (created_at k) mod 2 ^ 32).

Definition append_timestamp_option (k : FlowConst) (s : TcpFlowState) (now : Z) (options : bytes)
    : option bytes :=
  if negb (timestamps_enabled s) then Some options
  else
    o ← push_option options x08;
    o ← push_option o (u8 10);
    o ← extend_options o (be_bytes 4 (current_timestamp_value k now));
    extend_options o (be_bytes 4 (default 0 (recent_client_timestamp s))).

Definition default_packet_options (k : FlowConst) (s : TcpFlowState) (now : Z) : option bytes :=
  o ← append_timestamp_option k s now [];
  pad_options o.

Definition MAX_SERVER_SEGMENT_PAYLOAD : Z := 1200.
Definition syn_ack_options (k : FlowConst) (s : TcpFlowState) (now : Z) : option bytes :=
  o ← push_option [] x02;
  o ← push_option o x04;
  o ← extend_options o (be_bytes 2 (Z.min MAX_SERVER_SEGMENT_PAYLOAD 65535 mod 2 ^ 16));
  o ← (if client_sack_permitted k then extend_options o [x04; x02] else Some o);
  o ← extend_options o [x01; x03; x03; u8 TCP_SERVER_WINDOW_SCALE];
  o ← append_timestamp_option k s now o;
  pad_options o.

Definition next_multiple_of_4 (n : nat) : nat := ((n + 3) / 4 * 4)%nat.
Definition max_sack_block_count (base_option_len : nat) : nat :=
  default 0%nat
    (List.find (fun count => (next_multiple_of_4 (base_option_len + 2 + count * 8) <=? 40)%nat)
       [4; 3; 2; 1]%nat).

(** [sort_by_key] on the left edge: a stable sort. *)
Fixpoint insert_range (x : Z * Z) (l : list (Z * Z)) : list (Z * Z) :=
  match l with
  | [] => [x]
  | y :: l' => if x.1 <=? y.1 then x :: l else y :: insert_range x l'
  end.
Definition sort_ranges (l : list (Z * Z)) : list (Z * Z) := foldr insert_range [] l.

Definition merge_range (merged : list (Z * Z)) (lr : Z * Z) : list (Z * Z) :=
  match last merged with
  | Some (merged_left, merged_right) =>
    if negb (seq_gt lr.1 merged_right) then
      if seq_gt lr.2 merged_right
      then take (length merged - 1) merged ++ [(merged_left, lr.2)]
      else merged
    else merged ++ [lr]
  | None => merged ++ [lr]
  end.

Definition sack_range (s : TcpFlowState) (segment : BufferedClientSegment) : option (Z * Z) :=
  if negb (seq_gt (b_seq segment) (rcv_nxt s)) then None
  else Some (b_seq segment, wadd32 (b_seq segment) (zlen (b_payload segment) mod 2 ^ 32)).
Definition sack_ranges (s : TcpFlowState) : list (Z * Z) :=
  foldl merge_range [] (sort_ranges (omap (sack_range s) (pending_client_segments s))).

Fixpoint push_blocks (options : bytes) (blocks : list (Z * Z)) : option bytes :=
  match blocks with
  | [] => Some options
  | block :: blocks =>
    o ← extend_options options (be_bytes 4 block.1);
    o ← extend_options o (be_bytes 4 block.2);
    push_blocks o blocks
  end.

Definition ack_options (k : FlowConst) (s : TcpFlowState) (now : Z) : option bytes :=
  options ← default_packet_options k s now;
  if negb (client_sack_permitted k) then pad_options options
  else
    let merged := sack_ranges s in
    if bool_decide (merged = []) then pad_options options
    else
      let block_count := Nat.min (max_sack_block_count (length options)) (length merged) in
      if (block_count =? 0)%nat then pad_options options
      else
        o ← push_option options x05;
        o ← push_option o (u8 (Z.of_nat (2 + block_count * 8)));
        o ← push_blocks o (take block_count merged);
        pad_options o.

(** ** Packets *)
Definition flow_fields (k : FlowConst) (s : TcpFlowState) (seq ack flags : Z) (options : bytes)
    : header_fields :=
  mkFields (key_remote_port k) (key_client_port k) seq ack flags (advertised_receive_window s) options.

(** A panic of the option block, or the builder's result. *)
Definition build_flow_packet_with_options (k : FlowConst) (s : TcpFlowState) (seq ack flags : Z)
    (options payload : bytes) : outcome bytes :=
  build_response_packet_custom (key_version k) (key_remote_ip k) (key_client_ip k)
    (flow_fields k s seq ack flags options) payload.
Definition build_flow_packet (k : FlowConst) (s : TcpFlowState) (now seq ack flags : Z)
    (payload : bytes) : option (outcome bytes) :=
  options ← default_packet_options k s now;
  Some (build_flow_packet_with_options k s seq ack flags options payload).
Definition build_flow_data_header (k : FlowConst) (s : TcpFlowState) (now seq ack flags : Z)
    (payload_parts : list bytes) : option (outcome bytes) :=
  options ← default_packet_options k s now;
  Some (build_data_header_custom (key_version k) (key_remote_ip k) (key_client_ip k)
          (flow_fields k s seq ack flags options) payload_parts).
Definition build_flow_ack_packet (k : FlowConst) (s : TcpFlowState) (now seq ack flags : Z)
    : option (outcome bytes) :=
  options ← ack_options k s now;
  Some (build_flow_packet_with_options k s seq ack flags options []).
Definition build_flow_syn_ack_packet (k : FlowConst) (s : TcpFlowState) (now server_isn ack : Z)
    : option (outcome bytes) :=
  options ← syn_ack_options k s now;
  Some (build_flow_packet_with_options k s server_isn ack (Z.lor TCP_FLAG_SYN TCP_FLAG_ACK)
          options []).

Record VirtioNetHdr : Type := mkVnet {
  vnet_flags : Z; gso_type : Z; hdr_len : Z; gso_size : Z; csum_start : Z; csum_offset : Z }.
Definition build_gso_flow_header (k : FlowConst) (s : TcpFlowState) (now seq ack flags mss : Z)
    (payload_len : nat) : option (outcome (bytes * VirtioNetHdr)) :=
  options ← default_packet_options k s now;
  Some ('(header, l3_len, l4_len) ←
          build_gso_tcp_header (key_version k) (key_remote_ip k) (key_client_ip k)
            (flow_fields k s seq ack flags options) payload_len;
        let gso_type := match key_version k with V4 => 1 | V6 => 4 end in
        Ok (header, mkVnet 1 gso_type (l3_len + l4_len) mss l3_len 16)).

(** ** The send window *)
Definition decode_client_window (p : ParsedTcpPacket) (scale : Z) : Z :=
  if has_flag (flags p) TCP_FLAG_SYN then window_size p
  else Z.shiftl (window_size p) (Z.min scale 14) mod 2 ^ 32.

Definition set_client_window (s : TcpFlowState) (window wend useq uack : Z) : TcpFlowState :=
  mkFlow (status s) (status_since s) (last_seen s) (rcv_nxt s) (receive_window_capacity s)
    (pending_client_data s) (pending_client_segments s) (timestamps_enabled s)
    (recent_client_timestamp s) (client_window_scale s) window wend useq uack (server_seq s)
    (keepalive_probes_sent s) (last_keepalive_probe_at s) (zero_window_probe_backoff s)
    (next_zero_window_probe_at s) (unacked_in_order_segments s) (delayed_ack_deadline s).

Definition update_client_send_window (s : TcpFlowState) (p : ParsedTcpPacket) : TcpFlowState :=
  let decoded_window := decode_client_window p (client_window_scale s) in
  let should_update :=
    seq_gt (sequence_number p) (client_window_update_seq s)
    || ((sequence_number p =? client_window_update_seq s)
        && (seq_gt (acknowledgement_number p) (client_window_update_ack s)
            || ((acknowledgement_number p =? client_window_update_ack s)
                && (client_window s <? decoded_window)))) in
  if should_update || (decoded_window =? 0) then
    set_client_window s decoded_window (wadd32 (acknowledgement_number p) decoded_window)
      (sequence_number p) (acknowledgement_number p)
  else s.

Definition send_window_remaining (s : TcpFlowState) : Z :=
  if seq_ge (server_seq s) (client_window_end s) then 0
  else wsub32 (client_window_end s) (server_seq s).

(** ** The option block, in closed form *)
Definition ts_items (k : FlowConst) (s : TcpFlowState) (now : Z) : list option_item :=
  if timestamps_enabled s
  then [Opt x08 (be_bytes 4 (current_timestamp_value k now)
                 ++ be_bytes 4 (default 0 (recent_client_timestamp s))); Nop; Nop]
  else [].
Definition sack_items (blocks : list (Z * Z)) : list option_item :=
  match blocks with [] => [] | _ => [Opt x05 (block_bytes blocks); Nop; Nop] end.
Definition blocks_sent (k : FlowConst) (s : TcpFlowState) : list (Z * Z) :=
  if client_sack_permitted k
  then take (if timestamps_enabled s then 3 else 4) (sack_ranges s) else [].

Lemma pad_options_2 o : (length o mod 4 = 2)%nat -> (length o <= 38)%nat ->
  pad_options o = Some (o ++ [x01; x01]).
Proof.
  intros Hm Hl.
  assert (H3 : ((length o + 1) mod 4 = 3)%nat) by (by rewrite Nat.Div0.add_mod, Hm).
  assert (H4 : ((length o + 1 + 1) mod 4 = 0)%nat) by (by rewrite <- Nat.add_assoc, Nat.Div0.add_mod, Hm).
  unfold pad_options. cbn [pad_loop]. rewrite Hm. cbn [Nat.eqb]. unfold push_option.
  rewrite ltb_true_lt by lia. cbn [mbind option_bind].
  rewrite length_app. cbn [length]. rewrite H3. cbn [Nat.eqb].
  rewrite ltb_true_lt by lia. cbn [mbind option_bind].
  rewrite !length_app. cbn [length]. rewrite H4. cbn [Nat.eqb]. by rewrite <- app_assoc.
Qed.

Lemma pad_options_0 o : (length o mod 4 = 0)%nat -> pad_options o = Some o.
Proof. intros Hm. unfold pad_options. cbn [pad_loop]. by rewrite Hm. Qed.

Lemma default_options_eq k s now :
  default_packet_options k s now = Some (encode_items (ts_items k s now))
  /\ length (encode_items (ts_items k s now)) = (if timestamps_enabled s then 12 else 0)%nat.
Proof.
  unfold default_packet_options, append_timestamp_option, ts_items.
  destruct (timestamps_enabled s); cbn [negb]; [|done]. explode_be. split; reflexivity.
Qed.

Lemma push_blocks_ok blocks : forall o, (length o + 8 * length blocks <= 40)%nat ->
  push_blocks o blocks = Some (o ++ block_bytes blocks).
Proof.
  induction blocks as [|b blocks IH]; intros o Hl; [by rewrite app_nil_r|]. cbn [push_blocks length] in *.
  unfold extend_options. rewrite !be_bytes_length.
  destruct (Nat.leb_spec (length o + 4) 40); [|lia]. cbn [mbind option_bind].
  rewrite length_app, !be_bytes_length.
  destruct (Nat.leb_spec (length o + 4 + 4) 40); [|lia]. cbn [mbind option_bind].
  rewrite IH by (rewrite !length_app, !be_bytes_length; lia).
  unfold block_bytes. cbn [map concat]. by rewrite <- !app_assoc.
Qed.

Lemma encode_items_app a b : encode_items (a ++ b) = encode_items a ++ encode_items b.
Proof. unfold encode_items. by rewrite map_app, concat_app. Qed.

Lemma max_sack_count (ts : bool) :
  max_sack_block_count (if ts then 12 else 0) = (if ts then 3 else 4)%nat.
Proof. by destruct ts. Qed.

Lemma ack_options_eq k s now :
  ack_options k s now = Some (encode_items (ts_items k s now ++ sack_items (blocks_sent k s))).
Proof.
  unfold ack_options, blocks_sent. destruct (default_options_eq k s now) as [-> Hl].
  cbn [mbind option_bind]. set (base := encode_items (ts_items k s now)) in *.
  assert (H0 : (length base mod 4 = 0)%nat) by (rewrite Hl; by destruct (timestamps_enabled s)).
  assert (Hn : forall items, items = [] -> Some (encode_items (ts_items k s now ++ items)) = Some base)
    by (intros items ->; by rewrite app_nil_r).
  destruct (client_sack_permitted k); cbn [negb]; [|rewrite pad_options_0, Hn; done].
  case_bool_decide as He; [rewrite pad_options_0, Hn; [done| |done]; by rewrite He, take_nil|].
  rewrite Hl, max_sack_count. set (m := if timestamps_enabled s then 3%nat else 4%nat).
  assert (Hpos : (0 < length (sack_ranges s))%nat) by (destruct (sack_ranges s); [done|simpl; lia]).
  assert (Hm : (length base + 2 + 8 * m <= 38 /\ 1 <= m)%nat)
    by (rewrite Hl; unfold m; destruct (timestamps_enabled s); lia).
  destruct (Nat.eqb_spec (Nat.min m (length (sack_ranges s))) 0); [lia|].
  replace (take (Nat.min m (length (sack_ranges s))) (sack_ranges s)) with (take m (sack_ranges s))
    by (by rewrite <- take_take, firstn_all).
  set (sent := take m (sack_ranges s)).
  assert (Hs : length sent = Nat.min m (length (sack_ranges s))) by (unfold sent; apply length_take).
  rewrite <- Hs. unfold push_option. rewrite ltb_true_lt by lia. cbn [mbind option_bind].
  rewrite length_app. cbn [length]. rewrite ltb_true_lt by lia. cbn [mbind option_bind].
  rewrite push_blocks_ok by (rewrite !length_app; cbn [length]; lia). cbn [mbind option_bind].
  rewrite pad_options_2.
  - rewrite encode_items_app. fold base. f_equal. rewrite <- !app_assoc. f_equal.
    assert (Hi : sack_items sent = [Opt x05 (block_bytes sent); Nop; Nop])
      by (destruct sent; [cbn in Hs; lia|done]).
    rewrite Hi. unfold encode_items. cbn [map concat encode_item app].
    rewrite block_bytes_length. by replace (8 * length sent)%nat with (length sent * 8)%nat by lia.
  - rewrite !length_app, block_bytes_length. cbn [length].
    replace (length base + 1 + 1 + 8 * length sent)%nat with (2 + length base + 2 * length sent * 4)%nat by lia.
    by rewrite Nat.Div0.mod_add, Nat.Div0.add_mod, H0.
  - rewrite !length_app, block_bytes_length. cbn [length]. lia.
Qed.

(** ** The SACK ranges *)
Lemma insert_range_perm x l : insert_range x l ≡ₚ x :: l.
Proof.
  induction l as [|y l IH]; [done|]. cbn [insert_range]. destruct (_ <=? _); [done|].
  rewrite IH. constructor.
Qed.
Lemma sort_ranges_perm l : sort_ranges l ≡ₚ l.
Proof. induction l as [|x l IH]; [done|]. cbn. by rewrite insert_range_perm, IH. Qed.

Abbreviation placed := (Z * BufferedClientSegment)%type.
Section sack.
Context (isn : Z) (stream : bytes) (qs : list placed) (n : Z).
Hypothesis queue : queue_ok isn stream n (n + 2 ^ 30) qs.

Definition range_of (x : placed) : Z * Z := (sq isn x.1, sq isn (end_of x)).
(** A range that starts where a buffered segment does and denotes buffered bytes only. *)
Record truthful (lr : Z * Z) (a b : Z) : Prop := {
  tr_range : lr = (sq isn a, sq isn b);
  tr_start : exists y, y ∈ qs /\ a = y.1;
  tr_order : n < a <= b /\ b <= n + 2 ^ 30;
  tr_held i : a <= i < b -> buffered qs i
}.

Lemma truthful_range x : x ∈ qs -> truthful (range_of x) x.1 (end_of x).
Proof.
  intros Hx. pose proof (proj1 (Forall_forall _ _) (q_range _ _ _ _ _ queue) _ Hx) as [Hl Hh].
  pose proof (end_of_ge x). split; [done|by exists x|lia|].
  intros i Hi. apply Exists_exists. by exists x.
Qed.

Lemma segments_apart x y : x ∈ qs -> y ∈ qs -> y.1 <= x.1 \/ end_of x <= y.1.
Proof.
  intros Hx Hy. pose proof (q_sorted _ _ _ _ _ queue) as Hs.
  assert (H : before x y \/ before y x \/ x = y).
  { clear queue. induction Hs as [|z l Hs IH Hz]; [by apply elem_of_nil in Hx|].
    rewrite Forall_forall in Hz. apply elem_of_cons in Hx as [->|Hx], Hy as [->|Hy]; auto. }
  unfold before in H. pose proof (end_of_ge y). destruct H as [?|[?| ->]]; lia.
Qed.

Lemma merge_truthful merged x : Forall (fun lr => exists a b, truthful lr a b) merged -> x ∈ qs ->
  Forall (fun lr => exists a b, truthful lr a b) (merge_range merged (range_of x)).
Proof.
  intros Hm Hx. pose proof (truthful_range x Hx) as Htx. pose proof (tr_order _ _ _ Htx) as Hox.
  assert (Happ : Forall (fun lr => exists a b, truthful lr a b) (merged ++ [range_of x]))
    by (apply Forall_app; split; [done|]; apply Forall_singleton; eauto).
  unfold merge_range. destruct (last merged) as [[ml mr]|] eqn:E; [|done].
  apply last_Some in E as [front ->]. apply Forall_app in Hm as [Hfront Hlast].
  rewrite Forall_singleton in Hlast. destruct Hlast as (a & b & Ht).
  pose proof (tr_order _ _ _ Ht) as Ho. destruct (tr_start _ _ _ Ht) as (y & Hy & Hay).
  pose proof (tr_range _ _ _ Ht) as [= -> ->]. unfold range_of at 1 2. cbn [fst snd].
  rewrite !seq_gt_sq by lia. destruct (Z.ltb_spec b x.1) as [|Hle]; [done|]. cbn [negb].
  destruct (Z.ltb_spec b (end_of x)) as [Hlt|]; [|by apply Forall_app; split; [|apply Forall_singleton; eauto]].
  rewrite length_app, Nat.add_sub, take_app_length. apply Forall_app. split; [done|].
  apply Forall_singleton. exists a, (end_of x). split; [done|by exists y|lia|].
  intros i Hi. destruct (Z.lt_ge_cases i b); [apply (tr_held _ _ _ Ht); lia|].
  apply (tr_held _ _ _ Htx). destruct (segments_apart x y Hx Hy); lia.
Qed.

Lemma sack_ranges_truthful s : rcv_nxt s = sq isn n -> pending_client_segments s = qs.*2 ->
  Forall (fun lr => exists a b, truthful lr a b) (sack_ranges s).
Proof.
  intros Hr Hp. unfold sack_ranges.
  assert (Hall : Forall (fun lr => exists x, x ∈ qs /\ lr = range_of x)
                   (sort_ranges (omap (sack_range s) (pending_client_segments s)))).
  { rewrite sort_ranges_perm, Hp, Forall_forall. intros lr Hlr.
    apply list_elem_of_omap in Hlr as (g & Hg & Hs). apply list_elem_of_fmap in Hg as (x & -> & Hx).
    exists x. split; [done|]. unfold sack_range in Hs. destruct (negb _); [done|]. injection Hs as <-.
    pose proof (proj1 (Forall_forall _ _) (q_segs _ _ _ _ _ queue) _ Hx) as Hat.
    pose proof (proj1 (Forall_forall _ _) (q_range _ _ _ _ _ queue) _ Hx) as [Hlo Hhi].
    rewrite (seg_seq _ _ _ Hat), wadd32_sq_mod. done. }
  assert (H : forall l acc, Forall (fun lr => exists a b, truthful lr a b) acc ->
    Forall (fun lr => exists x, x ∈ qs /\ lr = range_of x) l ->
    Forall (fun lr => exists a b, truthful lr a b) (foldl merge_range acc l)).
  { induction l as [|lr l IH]; intros acc Hacc Hl; [done|]. apply Forall_cons in Hl as [(x & Hx & ->) Hl].
    cbn [foldl]. apply IH; [|done]. by apply merge_truthful. }
  by apply H.
Qed.
End sack.

(** ** What the receiver of the options reads *)
Lemma apply_timestamps p a b : u32 a -> u32 b ->
  apply_item p (Opt x08 (be_bytes 4 a ++ be_bytes 4 b))
  = mkOptions (o_max_segment_size p) (o_window_scale p) (o_sack_permitted p) (o_sack_blocks p)
      (Some a) (Some b).
Proof.
  intros Ha Hb. cbn [apply_item]. unfold apply_option. change (b2z x08) with 8.
  rewrite length_app, !be_bytes_length, !andb_false_r.
  change (8 =? 5) with false. change ((8 =? 8) && (4 + 4 =? 8)%nat) with true. cbn [andb].
  rewrite take_app_length', drop_app_length' by (by rewrite be_bytes_length).
  by rewrite !be_val_be_bytes_small.
Qed.

Lemma apply_blocks p blocks : blocks <> [] -> Forall (fun lr => u32 lr.1 /\ u32 lr.2) blocks ->
  apply_item p (Opt x05 (block_bytes blocks))
  = mkOptions (o_max_segment_size p) (o_window_scale p) (o_sack_permitted p)
      (o_sack_blocks p ++ filter (fun lr => seq_lt lr.1 lr.2 = true) blocks)
      (o_timestamp_value p) (o_timestamp_echo_reply p).
Proof.
  intros Hn Hb. cbn [apply_item]. unfold apply_option. change (b2z x05) with 5.
  change (5 =? 2) with false. change (5 =? 3) with false. change (5 =? 4) with false.
  change (5 =? 5) with true. cbn [andb]. rewrite block_bytes_length, sack_loop_blocks by done.
  assert (0 < length blocks)%nat by (destruct blocks; [done|simpl; lia]).
  destruct (Nat.leb_spec 8 (8 * length blocks)); [|lia].
  by rewrite (Nat.mul_comm 8), Nat.Div0.mod_mul.
Qed.

Definition recent_ok (s : TcpFlowState) : Prop :=
  match recent_client_timestamp s with Some t => u32 t | None => True end.
Definition read_options (k : FlowConst) (s : TcpFlowState) (now : Z) : ParsedTcpOptions :=
  let ts := timestamps_enabled s in
  mkOptions None None false (filter (fun lr => seq_lt lr.1 lr.2 = true) (blocks_sent k s))
    (if ts then Some (current_timestamp_value k now) else None)
    (if ts then Some (default 0 (recent_client_timestamp s)) else None).

(** The option block of an acknowledgement fits and is aligned. *)
Lemma ack_options_size k s now :
  let o := encode_items (ts_items k s now ++ sack_items (blocks_sent k s)) in
  (length o <= 40)%nat /\ (length o mod 4 = 0)%nat
  /\ (length (blocks_sent k s) <= if timestamps_enabled s then 3 else 4)%nat.
Proof.
  destruct (default_options_eq k s now) as [_ Hl]. cbn zeta.
  assert (Hn : (length (blocks_sent k s) <= if timestamps_enabled s then 3 else 4)%nat).
  { unfold blocks_sent. destruct (client_sack_permitted k); [rewrite length_take|]; simpl; lia. }
  assert (Hs : length (encode_items (sack_items (blocks_sent k s)))
               = match blocks_sent k s with [] => 0 | bs => 4 + 8 * length bs end%nat).
  { destruct (blocks_sent k s) as [|b bs] eqn:E; [done|]. unfold sack_items. rewrite <- E.
    unfold encode_items. cbn [map concat encode_item app]. rewrite !length_cons, length_app, block_bytes_length.
    simpl. lia. }
  rewrite encode_items_app, length_app, Hl, Hs.
  split; [destruct (timestamps_enabled s), (blocks_sent k s); lia|]. split; [|done].
  assert (Hm : exists m, ((if timestamps_enabled s then 12 else 0)
      + match blocks_sent k s with [] => 0 | bs => 4 + 8 * length bs end = m * 4)%nat).
  { exists ((if timestamps_enabled s then 3 else 0)
      + match blocks_sent k s with [] => 0 | bs => 1 + 2 * length bs end)%nat.
    destruct (timestamps_enabled s), (blocks_sent k s); lia. }
  destruct Hm as [m ->]. apply Nat.Div0.mod_mul.
Qed.

Lemma ack_options_read k s now : recent_ok s ->
  Forall (fun lr => u32 lr.1 /\ u32 lr.2) (sack_ranges s) ->
  exists o, ack_options k s now = Some o /\ (length o <= 40)%nat /\ (length o mod 4 = 0)%nat
    /\ parse_tcp_options o = Ok (read_options k s now).
Proof.
  intros Hrec Hu. exists (encode_items (ts_items k s now ++ sack_items (blocks_sent k s))).
  destruct (ack_options_size k s now) as (Hle & Hal & Hn).
  assert (Hb : Forall (fun lr => u32 lr.1 /\ u32 lr.2) (blocks_sent k s))
    by (unfold blocks_sent; destruct (client_sack_permitted k); [by apply Forall_take|done]).
  assert (Hrec' : u32 (default 0 (recent_client_timestamp s)))
    by (unfold recent_ok in Hrec; destruct (recent_client_timestamp s); [done|unfold u32; simpl; lia]).
  assert (Hnow : u32 (current_timestamp_value k now)) by (apply Z.mod_pos_bound; lia).
  split; [apply ack_options_eq|]. split; [done|]. split; [done|].
  rewrite parse_items.
  - f_equal. rewrite foldl_app. unfold read_options, ts_items.
    assert (Hts : foldl apply_item default_options (ts_items k s now)
      = mkOptions None None false [] (if timestamps_enabled s then Some (current_timestamp_value k now) else None)
          (if timestamps_enabled s then Some (default 0 (recent_client_timestamp s)) else None)).
    { unfold ts_items. destruct (timestamps_enabled s); [|done].
      cbn [foldl]. by rewrite apply_timestamps. }
    unfold ts_items in Hts. rewrite Hts.
    destruct (blocks_sent k s) as [|b bs] eqn:E; [done|]. unfold sack_items. rewrite <- E in *.
    cbn [foldl]. rewrite apply_blocks; [done|by rewrite E|done].
  - apply Forall_app. unfold ts_items, sack_items. split.
    + destruct (timestamps_enabled s); [|done]. apply Forall_cons. split; [split; [done|]|by repeat constructor].
      rewrite length_app, !be_bytes_length. lia.
    + destruct (blocks_sent k s) as [|b bs] eqn:E; [done|]. rewrite <- E in *.
      apply Forall_cons. split; [split; [done|]|by repeat constructor].
      rewrite block_bytes_length. destruct (timestamps_enabled s); lia.
Qed.

(** ** Properties *)

(** C38: an acknowledgement never lies. In every state the receive path reaches
    from a fresh flow whose buffer limit is at most 2^30, before the client's FIN
    has been taken, and when the client's timestamp to echo, if there is one, is
    a [u32]: the option block is built without overrunning its array, is
    aligned, and reads back as the flow's timestamps and a list of SACK blocks
    each of which denotes bytes of the client's stream that were received, and
    past the first one missing. *)
Theorem sack_never_lies (isn : Z) (stream : bytes) (config : TunTcpConfig) (s0 : TcpFlowState)
    (r : rx) (k : FlowConst) (now : Z) :
  fresh_flow isn s0 -> max_buffered_client_bytes config <= 2 ^ 30 ->
  rtc (rx_step isn stream config) (mkRx s0 [] [] false) r ->
  client_fin_seen (status (flow r)) = false -> recent_ok (flow r) ->
  exists o p, ack_options k (flow r) now = Some o
    /\ (length o <= 40)%nat /\ (length o mod 4 = 0)%nat
    /\ parse_tcp_options o = Ok p
    /\ o_timestamp_value p
       = (if timestamps_enabled (flow r) then Some (current_timestamp_value k now) else None)
    /\ Forall (fun lr => exists a b, lr = (sq isn a, sq isn b) /\ position r < a < b
         /\ forall i, a <= i < b -> received (got r) i) (o_sack_blocks p).
Proof.
  intros Hs Hcfg Hrun Hst Hrec.
  pose proof (rx_steps_ok _ _ _ _ _ Hcfg Hrun (fresh_flow_ok isn stream s0 Hs)) as Hr.
  destruct Hr as [(n & qs & Ho)|Hc]; [|by rewrite (c_status _ _ _ _ _ _ Hc) in Hst].
  pose proof (sack_ranges_truthful isn stream qs n (o_queue _ _ _ _ _ _ _ _ Ho) (flow r)
    (o_rcv _ _ _ _ _ _ _ _ Ho) (o_pend _ _ _ _ _ _ _ _ Ho)) as Ht.
  destruct (ack_options_read k (flow r) now Hrec) as (o & Hao & Hl & Hm & Hp).
  { eapply Forall_impl; [exact Ht|]. intros lr (a & b & [-> _ _ _]). cbn [fst snd].
    split; apply Z.mod_pos_bound; lia. }
  exists o, (read_options k (flow r) now). do 5 (split; [done|]).
  apply Forall_forall. intros lr Hlr. apply list_elem_of_filter in Hlr as [Hlt Hlr].
  assert (Hin : lr ∈ sack_ranges (flow r)).
  { unfold blocks_sent in Hlr. destruct (client_sack_permitted k); [|by apply elem_of_nil in Hlr].
    apply elem_of_take in Hlr as (i & Hi & _). by eapply list_elem_of_lookup_2. }
  rewrite Forall_forall in Ht. destruct (Ht _ Hin) as (a & b & [-> _ Hab Hheld]).
  cbn [fst snd] in Hlt. rewrite seq_lt_sq in Hlt by lia. apply Z.ltb_lt in Hlt.
  exists a, b. split; [done|]. unfold position. rewrite (open_position _ _ _ _ _ _ _ _ Ho). split; [lia|].
  intros i Hi. apply (o_got _ _ _ _ _ _ _ _ Ho). right. by apply Hheld.
Qed.

Definition example_const : FlowConst :=
  mkConst V4 (IpAddrV4 (map u8 [1; 1; 1; 1])) (IpAddrV4 (map u8 [10; 0; 0; 1])) 443 40000 true None false 77 0.
Definition example_holding : rx := example_after (mkRx example_flow [] [] false) 5 example_tail.

Lemma sack_never_lies_witness :
  sack_ranges (flow example_holding) = [(2, 8)]
  /\ exists o p, ack_options example_const (flow example_holding) 9 = Some o
    /\ (length o <= 40)%nat /\ (length o mod 4 = 0)%nat
    /\ parse_tcp_options o = Ok p
    /\ o_timestamp_value p = None
    /\ Forall (fun lr => exists a b, lr = (sq (2 ^ 32 - 3) a, sq (2 ^ 32 - 3) b)
         /\ position example_holding < a < b
         /\ forall i, a <= i < b -> received (got example_holding) i) (o_sack_blocks p).
Proof.
  split; [vm_compute; reflexivity|].
  apply (sack_never_lies (2 ^ 32 - 3) example_stream example_tcp_config example_flow example_holding
           example_const 9).
  - split; try (vm_compute; reflexivity). split; vm_compute; discriminate.
  - vm_compute. discriminate.
  - apply rtc_once, example_after_step; [left; split|split|eexists]; vm_compute; (reflexivity || discriminate).
  - vm_compute. reflexivity.
  - exact I.
Defined.

(** The ranges are sorted by their numbers, not by their place in the sequence
    space: across the wrap the range before it comes last, is taken for one that
    the range after it covers, and is never reported. *)
Example wrapped_range_lost :
  let s := set_receive example_flow (2 ^ 32 - 32) []
             [mkBuffered (2 ^ 32 - 16) 0 (str "abcd"); mkBuffered 5 0 (str "xyz")] in
  sack_ranges s = [(5, 8)].
Proof. vm_compute. reflexivity. Qed.
