(* ===== verification/TcpScoreboard.v ===== *)
(** The retransmission queue of a flow and its SACK scoreboard
    ([crates/outline-tun/src/tcp/state_machine/congestion.rs]): the merge and
    the trim of the ranges, the running in-flight accounting beside the scan it
    caches, fast recovery and the processing of an acknowledgement.

    Instants are milliseconds. The round-trip estimator and the BBR controller
    compute in floating point and are not modelled; of the controller's state
    the fields this code reads or writes are kept. *)
From S2P Require Import Prelude StdText IpPacket TcpTypes TcpRecv.
From Stdlib Require Import Sorted.
From stdpp Require Import sorting.
Local Open Scope Z_scope.

(** ** Data *)
Record SequenceRange : Type := mkRange { r_start : Z; r_end : Z }.
#[export] Instance SequenceRange_eq_dec : EqDecision SequenceRange.
Proof. solve_decision. Defined.

Record ServerSegment : Type := mkServerSegment {
  s_seq : Z;
  s_ack : Z;
  s_flags : Z;
  s_payload : bytes;
  s_last_sent : Z;
  s_first_sent : Z;
  s_retransmits : Z;
  s_rto_retransmits : Z;
  s_fast_retransmit_epoch : Z;
  s_delivered_snapshot : Z;
  s_delivered_at_snapshot : Z;
  s_first_tx_snapshot : Z;
  s_app_limited : bool
}.

(** [saturating_add] at the width [w]. *)
Definition sat_add (w a b : Z) : Z := Z.min (a + b) (2 ^ w - 1).

Definition server_segment_len (g : ServerSegment) : Z :=
  zlen (s_payload g)
  + (if has_flag (s_flags g) TCP_FLAG_SYN then 1 else 0)
  + (if has_flag (s_flags g) TCP_FLAG_FIN then 1 else 0).

(** The running accounting: [pipe_bytes], [pipe_segments],
    [earliest_unsacked_sent], [unacked_reordered]. *)
Record Accounting : Type := mkAcct {
  pipe_bytes : Z;
  pipe_segments : Z;
  earliest_unsacked_sent : option Z;
  unacked_reordered : bool
}.
(** Loss recovery. *)
Record Recovery : Type := mkRecovery {
  last_client_ack : Z;
  duplicate_ack_count : Z;
  fast_recovery_end : option Z;
  recovery_epoch : Z
}.
(** The fields of the BBR controller the send side touches. *)
Record BbrFields : Type := mkBbr {
  delivered : Z;
  delivered_at : Z;
  pacing_credit : Z;
  pacing_next_at : option Z;
  loss_episodes : Z;
  loss_in_round : bool;
  lost_in_window : Z
}.
(** The bytes waiting to be sent, and this flow's share of the engine's budget. *)
Record PendingServer : Type := mkPending {
  pending_server_data : list bytes;
  pending_server_bytes_total : Z;
  budget_share : Z
}.

Record SendState : Type := mkSend {
  unacked_server_segments : list ServerSegment;
  sack_scoreboard : list SequenceRange;
  acct : Accounting;
  recovery : Recovery;
  first_tx_mstamp : Z;
  pending : PendingServer;
  bbr : BbrFields;
  retransmission_timeout : Z;
  server_fin_pending : bool
}.

Record RateSample : Type := mkRate {
  prior_delivered : Z; prior_mstamp : Z; send_interval : Z; app_limited : bool }.
Record AckEffect : Type := mkEffect {
  bytes_acked : Z;
  rtt_sample : option Z;
  grow_congestion_window : bool;
  retransmit_now : bool;
  rate_sample : option RateSample
}.
Definition no_effect : AckEffect := mkEffect 0 None false false None.

(** Assignments. *)
Definition set_queue (t : SendState) (segs : list ServerSegment) (a : Accounting) (first_tx : Z)
    : SendState :=
  mkSend segs (sack_scoreboard t) a (recovery t) first_tx (pending t) (bbr t)
    (retransmission_timeout t) (server_fin_pending t).
Definition set_board (t : SendState) (board : list SequenceRange) : SendState :=
  mkSend (unacked_server_segments t) board (acct t) (recovery t) (first_tx_mstamp t) (pending t)
    (bbr t) (retransmission_timeout t) (server_fin_pending t).
Definition set_acct (t : SendState) (a : Accounting) : SendState :=
  set_queue t (unacked_server_segments t) a (first_tx_mstamp t).
Definition set_recovery (t : SendState) (r : Recovery) (b : BbrFields) : SendState :=
  mkSend (unacked_server_segments t) (sack_scoreboard t) (acct t) r (first_tx_mstamp t) (pending t)
    b (retransmission_timeout t) (server_fin_pending t).

(** ** The scoreboard *)
Fixpoint insert_by {A} (key : A -> Z) (x : A) (l : list A) : list A :=
  match l with
  | [] => [x]
  | y :: l' => if key x <=? key y then x :: l else y :: insert_by key x l'
  end.
(** [sort_by_key], stable. *)
Definition sort_by {A} (key : A -> Z) (l : list A) : list A := foldr (insert_by key) [] l.

Definition merge_step (merged : list SequenceRange) (range : SequenceRange) : list SequenceRange :=
  match last merged with
  | Some l =>
    if negb (seq_gt (r_start range) (r_end l)) then
      if seq_gt (r_end range) (r_end l)
      then take (length merged - 1) merged ++ [mkRange (r_start l) (r_end range)]
      else merged
    else merged ++ [range]
  | None => merged ++ [range]
  end.
Definition merge_sequence_ranges (ranges : list SequenceRange) (anchor : Z) : list SequenceRange :=
  let ranges := filter (fun range => seq_gt (r_end range) (r_start range) = true) ranges in
  let ranges := sort_by (fun range => wsub32 (r_start range) anchor) ranges in
  foldl merge_step [] ranges.

(** What is left of a range past the acknowledgement, and whether its left edge
    was clipped. *)
Definition trim_range (cumulative_ack : Z) (range : SequenceRange) : option SequenceRange * bool :=
  if negb (seq_gt (r_end range) cumulative_ack) then (None, false)
  else
    let (range, clipped) :=
      if seq_lt (r_start range) cumulative_ack
      then (mkRange cumulative_ack (r_end range), true) else (range, false) in
    (if seq_gt (r_end range) (r_start range) then Some range else None, clipped).
Definition trim_sack_scoreboard (board : list SequenceRange) (cumulative_ack : Z)
    : list SequenceRange * bool :=
  let trimmed := map (trim_range cumulative_ack) board in
  (merge_sequence_ranges (omap fst trimmed) cumulative_ack, existsb snd trimmed).

Fixpoint range_fully_covered_from (board : list SequenceRange) (start end_ : Z) : bool :=
  match board with
  | [] => false
  | range :: board =>
    if seq_gt (r_start range) start then false
    else if negb (seq_gt (r_end range) start) then range_fully_covered_from board start end_
    else negb (seq_lt (r_end range) end_)
  end.
Definition range_fully_covered (board : list SequenceRange) (start end_ : Z) : bool :=
  if negb (seq_gt end_ start) then true else range_fully_covered_from board start end_.

Definition new_range (board : list SequenceRange) (cumulative_ack : Z) (block : Z * Z)
    : option SequenceRange :=
  let range := mkRange block.1 block.2 in
  if negb (seq_gt (r_end range) cumulative_ack) then None
  else
    let range :=
      if seq_lt (r_start range) cumulative_ack then mkRange cumulative_ack (r_end range) else range in
    if negb (seq_gt (r_end range) (r_start range)) then None
    else if negb (range_fully_covered board (r_start range) (r_end range)) then Some range
    else None.
Definition update_sack_scoreboard (board : list SequenceRange) (cumulative_ack : Z)
    (sack_blocks : list (Z * Z)) : list SequenceRange * bool :=
  let new_ranges := omap (new_range board cumulative_ack) sack_blocks in
  if bool_decide (new_ranges = []) then (board, false)
  else (merge_sequence_ranges (board ++ new_ranges) cumulative_ack, true).

Definition segment_end (g : ServerSegment) : Z :=
  wadd32 (s_seq g) (server_segment_len g mod 2 ^ 32).
Definition segment_is_sacked_in (board : list SequenceRange) (g : ServerSegment) : bool :=
  range_fully_covered board (s_seq g) (segment_end g).
Definition server_segment_is_sacked (t : SendState) (g : ServerSegment) : bool :=
  segment_is_sacked_in (sack_scoreboard t) g.

(** ** The accounting *)

(** One round of the scan; the second component is the previous send instant. *)
Definition snapshot_step (board : list SequenceRange) (st : Accounting * option Z) (g : ServerSegment)
    : Accounting * option Z :=
  let (a, previous) := st in
  let reordered :=
    match previous with
    | Some p => if s_last_sent g <? p then true else unacked_reordered a
    | None => unacked_reordered a
    end in
  let a :=
    if negb (segment_is_sacked_in board g) then
      mkAcct (pipe_bytes a + server_segment_len g) (pipe_segments a + 1)
        (Some (match earliest_unsacked_sent a with
               | Some current => Z.min current (s_last_sent g)
               | None => s_last_sent g
               end)) reordered
    else mkAcct (pipe_bytes a) (pipe_segments a) (earliest_unsacked_sent a) reordered in
  (a, Some (s_last_sent g)).
Definition unacked_accounting_snapshot (segments : list ServerSegment) (board : list SequenceRange)
    : Accounting :=
  fst (foldl (snapshot_step board) (mkAcct 0 0 None false, None) segments).

Definition rebuild_unacked_accounting (t : SendState) : SendState :=
  set_acct t (unacked_accounting_snapshot (unacked_server_segments t) (sack_scoreboard t)).

Definition refresh_earliest_after_pop (t : SendState) : SendState :=
  let a := acct t in
  match unacked_server_segments t with
  | [] => set_acct t (mkAcct (pipe_bytes a) (pipe_segments a) None false)
  | segs =>
    if unacked_reordered a then rebuild_unacked_accounting t
    else
      set_acct t (mkAcct (pipe_bytes a) (pipe_segments a)
        (s_last_sent <$> List.find (fun g => negb (segment_is_sacked_in (sack_scoreboard t) g)) segs)
        (unacked_reordered a))
  end.

(** [bytes_in_pipe], [count_segments_in_pipe] and the deadline; the scan they
    are asserted against in a debug build is [accounting_exact] below. *)
Definition bytes_in_pipe (t : SendState) : Z := pipe_bytes (acct t).
Definition count_segments_in_pipe (t : SendState) : Z := pipe_segments (acct t).
Definition next_retransmission_deadline (t : SendState) : option Z :=
  (fun sent => sent + retransmission_timeout t) <$> earliest_unsacked_sent (acct t).

(** ** Recovery *)
Definition TCP_FAST_RETRANSMIT_DUP_ACKS : Z := 3.
Definition TCP_MIN_RTO : Z := 200.
Definition TCP_MAX_RTO_BACKOFF : Z := 2000.

Definition note_loss (b : BbrFields) : BbrFields :=
  mkBbr (delivered b) (delivered_at b) (pacing_credit b) (pacing_next_at b)
    (sat_add 64 (loss_episodes b) 1) true (lost_in_window b).
Definition note_bytes_lost (b : BbrFields) (n : Z) : BbrFields :=
  mkBbr (delivered b) (delivered_at b) (pacing_credit b) (pacing_next_at b)
    (loss_episodes b) (loss_in_round b) (sat_add 64 (lost_in_window b) n).

Definition enter_fast_recovery (t : SendState) (server_seq : Z) : SendState :=
  let r := recovery t in
  set_recovery t
    (mkRecovery (last_client_ack r) TCP_FAST_RETRANSMIT_DUP_ACKS (Some server_seq)
       (sat_add 64 (recovery_epoch r) 1))
    (note_loss (bbr t)).
Definition exit_fast_recovery (t : SendState) : SendState :=
  let r := recovery t in
  set_recovery t (mkRecovery (last_client_ack r) 0 None (recovery_epoch r)) (bbr t).

Definition note_congestion_event (t : SendState) (timeout : bool) : SendState :=
  let t := exit_fast_recovery t in
  if timeout then
    let rto := Z.min (Z.max (retransmission_timeout t * 2) TCP_MIN_RTO) TCP_MAX_RTO_BACKOFF in
    mkSend (unacked_server_segments t) (sack_scoreboard t) (acct t) (recovery t)
      (first_tx_mstamp t) (pending t) (note_loss (bbr t)) rto (server_fin_pending t)
  else t.

(** [iter().position(f)] *)
Fixpoint position_of {A} (f : A -> bool) (l : list A) : option nat :=
  match l with
  | [] => None
  | x :: l => if f x then Some 0%nat else S <$> position_of f l
  end.

(** The end with the largest distance from the last acknowledgement. *)
Definition highest_sacked_end (t : SendState) : option Z :=
  let key e := wsub32 e (last_client_ack (recovery t)) in
  foldl (fun best range =>
           match best with
           | None => Some (r_end range)
           | Some b => if key b <=? key (r_end range) then Some (r_end range) else Some b
           end) None (sack_scoreboard t).

Definition preferred_retransmit_index (t : SendState) : option nat :=
  let unsacked g := negb (server_segment_is_sacked t g) in
  let first := position_of unsacked (unacked_server_segments t) in
  match highest_sacked_end t with
  | Some highest =>
    match position_of (fun g => unsacked g && seq_lt (s_seq g) highest) (unacked_server_segments t) with
    | Some index => Some index
    | None => first
    end
  | None => first
  end.

Definition fast_retransmit_index (t : SendState) : option nat :=
  let fresh g := negb (server_segment_is_sacked t g)
                 && negb (s_fast_retransmit_epoch g =? recovery_epoch (recovery t)) in
  match highest_sacked_end t with
  | Some highest =>
    position_of (fun g => fresh g && seq_lt (s_seq g) highest) (unacked_server_segments t)
  | None => position_of fresh (unacked_server_segments t)
  end.

(** ** An acknowledgement *)

(** What the loop over the acknowledged prefix carries. *)
Record Popped : Type := mkPopped {
  p_acct : Accounting;
  p_bytes : Z;
  p_rtt : option Z;
  p_rate : option RateSample;
  p_first_tx : Z
}.
Definition pop_one (board : list SequenceRange) (now : Z) (g : ServerSegment) (p : Popped) : Popped :=
  let was_sacked := segment_is_sacked_in board g in
  let segment_len := server_segment_len g in
  let a := p_acct p in
  let a :=
    if negb was_sacked then
      mkAcct (saturating_sub (pipe_bytes a) segment_len) (saturating_sub (pipe_segments a) 1)
        (earliest_unsacked_sent a) (unacked_reordered a)
    else a in
  let first_tx := Z.max (p_first_tx p) (s_last_sent g) in
  if s_retransmits g =? 0 then
    mkPopped a (p_bytes p + segment_len) (Some (elapsed_since now (s_first_sent g)))
      (match p_rate p with
       | None => Some (mkRate (s_delivered_snapshot g) (s_delivered_at_snapshot g)
                         (elapsed_since (s_first_sent g) (s_first_tx_snapshot g)) (s_app_limited g))
       | some => some
       end) first_tx
  else mkPopped a (p_bytes p + segment_len) (p_rtt p) (p_rate p) first_tx.
Fixpoint pop_acked (board : list SequenceRange) (now ack : Z) (segs : list ServerSegment) (p : Popped)
    : list ServerSegment * Popped :=
  match segs with
  | [] => ([], p)
  | g :: rest =>
    if negb (seq_ge ack (segment_end g)) then (segs, p)
    else pop_acked board now ack rest (pop_one board now g p)
  end.

Definition is_some {A} (o : option A) : bool := match o with Some _ => true | None => false end.

(** The branch on the acknowledgement number. *)
Definition apply_ack (t : SendState) (server_seq now ack : Z) (advanced : bool)
    : SendState * AckEffect :=
  let r := recovery t in
  if bool_decide (unacked_server_segments t = []) then
    (set_recovery t (mkRecovery ack 0 None (recovery_epoch r)) (bbr t), no_effect)
  else if seq_gt ack (last_client_ack r) then
    let t := set_recovery t (mkRecovery ack 0 (fast_recovery_end r) (recovery_epoch r)) (bbr t) in
    let (segs, p) :=
      pop_acked (sack_scoreboard t) now ack (unacked_server_segments t)
        (mkPopped (acct t) 0 None None (first_tx_mstamp t)) in
    let t := refresh_earliest_after_pop (set_queue t segs (p_acct p) (p_first_tx p)) in
    let effect grow retransmit := mkEffect (p_bytes p) (p_rtt p) grow retransmit (p_rate p) in
    match fast_recovery_end r with
    | Some recovery_end =>
      if seq_ge ack recovery_end || bool_decide (unacked_server_segments t = [])
      then (exit_fast_recovery t, effect false false)
      else (t, effect false (is_some (fast_retransmit_index t)))
    | None => (t, effect true false)
    end
  else if ack =? last_client_ack r then
    let count := sat_add 8 (duplicate_ack_count r) 1 in
    let t := set_recovery t
               (mkRecovery (last_client_ack r) count (fast_recovery_end r) (recovery_epoch r)) (bbr t) in
    if is_some (fast_recovery_end r) then
      (t, mkEffect 0 None false (advanced && is_some (fast_retransmit_index t)) None)
    else if TCP_FAST_RETRANSMIT_DUP_ACKS <=? count then
      let t := enter_fast_recovery t server_seq in
      (t, mkEffect 0 None false (is_some (fast_retransmit_index t)) None)
    else (t, no_effect)
  else (t, no_effect).

Definition process_server_ack (t : SendState) (server_seq now ack : Z) (sack_blocks : list (Z * Z))
    : SendState * AckEffect :=
  let (board, advanced) := update_sack_scoreboard (sack_scoreboard t) ack sack_blocks in
  let t := set_board t board in
  let t := if (advanced : bool) then rebuild_unacked_accounting t else t in
  let (t, effect) := apply_ack t server_seq now ack advanced in
  let (board, clipped) := trim_sack_scoreboard (sack_scoreboard t) ack in
  let t := set_board t board in
  ((if (clipped : bool) then rebuild_unacked_accounting t else t), effect).

(** ** The scoreboard as positions

    The ranges are followed by the positions they denote, all of them between
    [lo] and [hi], less than half the sequence space apart. *)
Lemma insert_by_perm {A} (key : A -> Z) x l : insert_by key x l ≡ₚ x :: l.
Proof.
  induction l as [|y l IH]; [done|]. cbn [insert_by]. destruct (_ <=? _); [done|].
  rewrite IH. constructor.
Qed.
Lemma sort_by_perm {A} (key : A -> Z) l : sort_by key l ≡ₚ l.
Proof. induction l as [|x l IH]; [done|]. cbn. by rewrite insert_by_perm, IH. Qed.

Lemma sort_by_map {A B} (f : A -> B) (key : B -> Z) l :
  sort_by key (map f l) = map f (sort_by (fun x => key (f x)) l).
Proof.
  assert (Hi : forall x l, insert_by key (f x) (map f l) = map f (insert_by (fun x => key (f x)) x l)).
  { intros x l'. induction l' as [|y l' IH]; [done|]. cbn [map insert_by].
    destruct (_ <=? _); [done|]. cbn [map]. by rewrite IH. }
  induction l as [|x l IH]; [done|]. cbn [map sort_by foldr] in *. unfold sort_by in *. by rewrite IH, Hi.
Qed.

Lemma sort_by_sorted {A} (key : A -> Z) l :
  StronglySorted (fun x y => key x <= key y) l -> sort_by key l = l.
Proof.
  induction 1 as [|x l Hs IH Hx]; [done|]. unfold sort_by in *. cbn [foldr]. rewrite IH.
  destruct l as [|y l]; [done|]. cbn [insert_by]. apply Forall_cons in Hx as [Hx _].
  destruct (Z.leb_spec (key x) (key y)); [done|lia].
Qed.

Lemma filter_of_map {A B} (f : A -> B) (P : B -> Prop) `{!forall x, Decision (P x)} (l : list A) :
  filter P (map f l) = map f (filter (fun x => P (f x)) l).
Proof.
  induction l as [|x l IH]; [done|]. cbn [map]. rewrite !filter_cons. cbn beta.
  rewrite IH. by destruct (decide (P (f x))).
Qed.

(** A range of positions: [(a, b)] holds [a .. b - 1]. *)
Abbreviation span := (Z * Z)%type.
Definition apart (x y : span) : Prop := x.2 < y.1.
Definition covered_by (l : list span) (i : Z) : Prop := Exists (fun x => x.1 <= i < x.2) l.
Record board_ok (lo hi : Z) (l : list span) : Prop := {
  b_sorted : StronglySorted apart l;
  b_range : Forall (fun x => lo <= x.1 /\ x.1 < x.2 /\ x.2 <= hi) l
}.

Definition merge_span (merged : list span) (x : span) : list span :=
  match last merged with
  | Some l =>
    if x.1 <=? l.2 then
      if l.2 <? x.2 then take (length merged - 1) merged ++ [(l.1, x.2)] else merged
    else merged ++ [x]
  | None => merged ++ [x]
  end.

Lemma merge_span_ok lo hi m x : board_ok lo hi m -> lo <= x.1 < x.2 -> x.2 <= hi ->
  board_ok lo hi (merge_span m x)
  /\ forall i, covered_by (merge_span m x) i -> covered_by m i \/ x.1 <= i < x.2.
Proof.
  intros [Hs Hr] Hx Hhi. unfold merge_span. destruct (last m) as [l|] eqn:E.
  - apply last_Some in E as [front ->]. apply Forall_app in Hr as [Hfr Hl].
    rewrite Forall_singleton in Hl.
    pose proof (proj1 (StronglySorted_app _ _ _) Hs) as (Hfl & Hsf & _).
    assert (Hfl' : forall y, y ∈ front -> apart y l) by (intros y Hy; apply Hfl; [done|by apply list_elem_of_singleton]).
    destruct (Z.leb_spec x.1 l.2); [destruct (Z.ltb_spec l.2 x.2)|].
    + rewrite length_app, Nat.add_sub, take_app_length. split; [split|].
      * apply StronglySorted_app_2; [|done|by repeat constructor].
        intros y z Hy ->%list_elem_of_singleton. specialize (Hfl' y Hy). unfold apart in *. simpl. lia.
      * apply Forall_app. split; [done|]. apply Forall_singleton. simpl. lia.
      * intros i. unfold covered_by. rewrite !Exists_app, !Exists_cons, !Exists_nil. simpl.
        destruct (Z.lt_ge_cases i l.2); intuition lia.
    + split; [split; [done|by apply Forall_app; split; [|apply Forall_singleton]]|]. by left.
    + split; [split|].
      * apply StronglySorted_app_2; [|done|by repeat constructor].
        intros y z Hy ->%list_elem_of_singleton. apply elem_of_app in Hy as [Hy| ->%list_elem_of_singleton].
        -- specialize (Hfl' y Hy). unfold apart in *. lia.
        -- unfold apart. lia.
      * repeat (apply Forall_app; split); try done; apply Forall_singleton; [done|lia].
      * intros i. unfold covered_by. rewrite !Exists_app, !Exists_cons, !Exists_nil. simpl. tauto.
  - apply last_None in E as ->. split; [split|].
    + by repeat constructor.
    + apply Forall_singleton. lia.
    + intros i. unfold covered_by. cbn [app]. rewrite Exists_cons. tauto.
Qed.

Lemma merge_spans_ok lo hi l : Forall (fun x => lo <= x.1 /\ x.1 < x.2 /\ x.2 <= hi) l ->
  forall m, board_ok lo hi m -> board_ok lo hi (foldl merge_span m l)
  /\ forall i, covered_by (foldl merge_span m l) i -> covered_by m i \/ covered_by l i.
Proof.
  induction 1 as [|x l Hx _ IH]; intros m Hm; [by split; [|left]|]. cbn [foldl].
  destruct (merge_span_ok lo hi m x Hm) as [Hm' Hc]; [lia|lia|].
  destruct (IH _ Hm') as [Hok Hi]. split; [done|]. intros i Hcov. unfold covered_by in *.
  rewrite Exists_cons. destruct (Hi i Hcov) as [H|H]; [destruct (Hc i H)|]; auto.
Qed.

(** Ranges already apart merge to themselves. *)
Lemma merge_spans_id m l : StronglySorted apart (m ++ l) -> foldl merge_span m l = m ++ l.
Proof.
  revert m. induction l as [|x l IH]; intros m Hs; cbn [foldl]; [by rewrite app_nil_r|].
  assert (Hx : merge_span m x = m ++ [x]).
  { unfold merge_span. destruct (last m) as [y|] eqn:E; [|done].
    apply last_Some in E as [front ->]. destruct (Z.leb_spec x.1 y.2) as [Hle|]; [|done].
    apply StronglySorted_app in Hs as (H & _ & _). specialize (H y x). unfold apart in H.
    exfalso. assert (y.2 < x.1); [|lia]. apply H; set_solver. }
  rewrite Hx, IH; rewrite <- app_assoc; done.
Qed.

Section board.
Context (isn lo hi : Z).
Hypothesis narrow : hi - lo < 2 ^ 31.

Definition range_at (x : span) : SequenceRange := mkRange (sq isn x.1) (sq isn x.2).
Definition inside (x : Z) : Prop := lo <= x <= hi.

Lemma seq_lt_at a b : inside a -> inside b -> seq_lt (sq isn a) (sq isn b) = (a <? b).
Proof. unfold inside. intros. apply seq_lt_sq. lia. Qed.
Lemma seq_gt_at a b : inside a -> inside b -> seq_gt (sq isn a) (sq isn b) = (b <? a).
Proof. unfold inside. intros. apply seq_gt_sq. lia. Qed.
Lemma seq_ge_at a b : inside a -> inside b -> seq_ge (sq isn a) (sq isn b) = (b <=? a).
Proof. unfold inside. intros. apply seq_ge_sq. lia. Qed.

Definition span_in (x : span) : Prop := inside x.1 /\ inside x.2.

Lemma merge_step_at m x : Forall span_in m -> span_in x ->
  merge_step (map range_at m) (range_at x) = map range_at (merge_span m x).
Proof.
  intros Hm [Hx1 Hx2]. unfold merge_step, merge_span. rewrite fmap_last. unfold fmap.
  destruct (last m) as [y|] eqn:E; cbn [option_fmap option_map]; [|by rewrite map_app].
  apply last_Some in E as [front ->]. apply Forall_app in Hm as [_ Hy].
  rewrite Forall_singleton in Hy. destruct Hy as [Hy1 Hy2]. cbn [range_at r_start r_end].
  rewrite !seq_gt_at by done.
  destruct (Z.ltb_spec y.2 x.1), (Z.leb_spec x.1 y.2); try lia; cbn [negb]; [by rewrite (map_app _ _ [x])|].
  destruct (y.2 <? x.2); [|done].
  rewrite length_map, length_app, Nat.add_sub, !map_app.
  rewrite !take_app_length' by (by rewrite ?length_map). done.
Qed.

Lemma merge_span_in m x : Forall span_in m -> span_in x -> Forall span_in (merge_span m x).
Proof.
  intros Hm Hx. unfold merge_span. destruct (last m) as [y|] eqn:E;
    [|by apply Forall_app; split; [|apply Forall_singleton]].
  apply last_Some in E as [front ->]. pose proof Hm as [Hf Hy]%Forall_app.
  rewrite Forall_singleton in Hy. destruct (_ <=? _).
  - destruct (_ <? _); [|done]. rewrite length_app, Nat.add_sub, take_app_length.
    apply Forall_app. split; [done|]. apply Forall_singleton. split; [apply Hy|apply Hx].
  - by apply Forall_app; split; [|apply Forall_singleton].
Qed.

Lemma merge_steps_at l : Forall span_in l -> forall m, Forall span_in m ->
  foldl merge_step (map range_at m) (map range_at l) = map range_at (foldl merge_span m l).
Proof.
  induction 1 as [|x l Hx _ IH]; intros m Hm; [done|]. cbn [map foldl].
  rewrite merge_step_at by done. apply IH. by apply merge_span_in.
Qed.

Lemma merge_ranges_at l anchor : Forall span_in l ->
  exists l', merge_sequence_ranges (map range_at l) anchor = map range_at l' /\ board_ok lo hi l'
    /\ forall i, covered_by l' i -> covered_by l i.
Proof.
  intros Hl. unfold merge_sequence_ranges.
  rewrite filter_of_map. set (l1 := filter _ l).
  assert (Hl1 : Forall (fun x => lo <= x.1 /\ x.1 < x.2 /\ x.2 <= hi) l1).
  { apply Forall_forall. intros x [Hx Hin]%list_elem_of_filter. cbn in Hx.
    rewrite Forall_forall in Hl. destruct (Hl x Hin) as [H1 H2]. rewrite seq_gt_at in Hx by done.
    unfold inside in *. lia. }
  rewrite sort_by_map. set (l2 := sort_by _ l1).
  assert (Hp : l2 ≡ₚ l1) by apply sort_by_perm. rewrite <- Hp in Hl1.
  change (@nil SequenceRange) with (map range_at []). rewrite merge_steps_at; [|..|done].
  - destruct (merge_spans_ok lo hi l2 Hl1 []) as [Hok Hc]; [by split; constructor|].
    eexists. split; [done|]. split; [done|]. intros i Hi.
    destruct (Hc i Hi) as [H|H]; [by apply Exists_nil in H|].
    unfold covered_by in *. rewrite Hp in H. apply Exists_exists in H as (x & Hx & Hxi).
    apply Exists_exists. exists x. split; [|done]. by apply list_elem_of_filter in Hx as [_ ?].
  - eapply Forall_impl; [exact Hl1|]. intros x Hx. unfold span_in, inside. simpl in Hx. lia.
Qed.

(** A scoreboard none of whose ranges starts before the anchor. *)
Lemma merge_ranges_id l anchor : board_ok lo hi l -> inside anchor ->
  Forall (fun x => anchor <= x.1) l ->
  merge_sequence_ranges (map range_at l) (sq isn anchor) = map range_at l.
Proof.
  intros [Hs Hr] Ha Hle. unfold merge_sequence_ranges. rewrite filter_of_map.
  assert (Hin : Forall span_in l).
  { eapply Forall_impl; [exact Hr|]. intros x Hx. unfold span_in, inside. simpl in Hx. lia. }
  assert (Hf : filter (fun x => seq_gt (r_end (range_at x)) (r_start (range_at x)) = true) l = l).
  { clear Hs Hle. induction l as [|x l IH]; [done|]. apply Forall_cons in Hr as [Hx Hr].
    apply Forall_cons in Hin as [[H1 H2] Hin]. rewrite filter_cons, decide_True; [by rewrite IH|].
    cbn. rewrite seq_gt_at by done. lia. }
  rewrite Hf. rewrite sort_by_map, sort_by_sorted.
  - change (@nil SequenceRange) with (map range_at []). rewrite merge_steps_at by done.
    by rewrite merge_spans_id.
  - clear Hf. induction Hs as [|x l Hs IH Hx]; [by constructor|].
    apply Forall_cons in Hr as [Hxr Hr]. apply Forall_cons in Hle as [Hxa Hle].
    apply Forall_cons in Hin as [[Hx1 Hx2] Hin].
    constructor; [by apply IH|]. apply Forall_forall. intros y Hy.
    rewrite Forall_forall in Hx, Hle, Hr. specialize (Hx y Hy). specialize (Hle y Hy).
    specialize (Hr y Hy). unfold apart, inside in *. cbn [range_at r_start].
    rewrite !wsub32_sq_small by lia. lia.
Qed.

Lemma board_span_in l : board_ok lo hi l -> Forall span_in l.
Proof.
  intros [_ Hr]. eapply Forall_impl; [exact Hr|]. intros x Hx. unfold span_in, inside. simpl in Hx. lia.
Qed.

(** On a scoreboard the walk decides whether one range holds the interval. *)
Definition holds_span (a b : Z) (x : span) : Prop := x.1 <= a /\ b <= x.2.
Lemma covered_at l a b : board_ok lo hi l -> inside a -> inside b -> a < b ->
  range_fully_covered (map range_at l) (sq isn a) (sq isn b) = true <-> Exists (holds_span a b) l.
Proof.
  intros Hl Ha Hb Hab. unfold range_fully_covered. rewrite seq_gt_at by done.
  destruct (Z.ltb_spec a b); [|lia]. cbn [negb].
  pose proof (board_span_in l Hl) as Hin. destruct Hl as [Hs Hr].
  induction Hs as [|x l Hs IH Hx]; cbn [map range_fully_covered_from]; [by rewrite Exists_nil|].
  apply Forall_cons in Hr as [Hxr Hr]. apply Forall_cons in Hin as [[Hx1 Hx2] Hin].
  cbn [range_at r_start r_end]. rewrite !seq_gt_at, seq_lt_at, Exists_cons by done.
  assert (Hlater : Exists (holds_span a b) l -> x.2 < a).
  { intros (y & Hy & Hyh)%Exists_exists. rewrite Forall_forall in Hx. specialize (Hx y Hy).
    unfold apart, holds_span in *. lia. }
  unfold holds_span at 1. destruct (Z.ltb_spec a x.1).
  { split; [done|]. intros [?|Hh]; [lia|specialize (Hlater Hh); lia]. }
  destruct (Z.ltb_spec a x.2); cbn [negb].
  - destruct (Z.ltb_spec x.2 b); cbn [negb]; split; try done; [intros [?|Hh]; [lia|specialize (Hlater Hh); lia]|].
    intros _. left. lia.
  - rewrite IH by done. split; [by right|]. intros [?|?]; [lia|done].
Qed.

Lemma covered_by_holds l a b i : Exists (holds_span a b) l -> a <= i < b -> covered_by l i.
Proof.
  intros (x & Hx & Hxh)%Exists_exists Hi. apply Exists_exists. exists x. unfold holds_span in *.
  split; [done|lia].
Qed.

Definition block_at (x : span) : Z * Z := (sq isn x.1, sq isn x.2).

Lemma new_range_at board A x r : inside A -> span_in x ->
  new_range board (sq isn A) (block_at x) = Some r ->
  r = range_at (Z.max A x.1, x.2) /\ A < x.2.
Proof.
  intros HA [Hx1 Hx2]. unfold new_range. cbn [block_at fst snd r_start r_end].
  rewrite seq_gt_at, seq_lt_at by done.
  destruct (Z.ltb_spec A x.2); [|done]. cbn [negb].
  destruct (Z.ltb_spec x.1 A); cbn [r_start r_end]; rewrite seq_gt_at by done.
  - destruct (Z.ltb_spec A x.2); [|done]. cbn [negb]. destruct (range_fully_covered _ _ _); [done|].
    intros [= <-]. split; [|lia]. unfold range_at. cbn [fst snd]. by rewrite Z.max_l by lia.
  - destruct (Z.ltb_spec x.1 x.2); [|done]. cbn [negb]. destruct (range_fully_covered _ _ _); [done|].
    intros [= <-]. split; [|lia]. unfold range_at. cbn [fst snd]. by rewrite Z.max_r by lia.
Qed.

Lemma update_at l A blocks : board_ok lo hi l -> inside A -> Forall span_in blocks ->
  exists l' advanced,
    update_sack_scoreboard (map range_at l) (sq isn A) (map block_at blocks) = (map range_at l', advanced)
    /\ board_ok lo hi l' /\ (advanced = false -> l' = l)
    /\ forall i, covered_by l' i -> covered_by l i \/ covered_by blocks i.
Proof.
  intros Hl HA Hb. unfold update_sack_scoreboard.
  assert (Hnew : exists nl, omap (new_range (map range_at l) (sq isn A)) (map block_at blocks) = map range_at nl
    /\ Forall span_in nl /\ forall i, covered_by nl i -> covered_by blocks i).
  { generalize (map range_at l). intros board. induction Hb as [|x blocks Hx _ IH]; [by exists []|].
    destruct IH as (nl & He & Hin & Hc). cbn [map omap list_omap].
    destruct (new_range board (sq isn A) (block_at x)) as [r|] eqn:E.
    - apply new_range_at in E as [-> HAx]; [|done|done]. exists ((Z.max A x.1, x.2) :: nl).
      cbn [map]. split; [by f_equal|]. destruct Hx as [Hx1 Hx2]. split.
      + constructor; [|done]. split; [|done]. unfold inside in *. simpl. lia.
      + intros i. unfold covered_by in *. rewrite !Exists_cons. simpl. intros [?|?]; [left; lia|auto].
    - exists nl. split; [done|]. split; [done|]. intros i Hi. right. by apply Hc. }
  destruct Hnew as (nl & -> & Hin & Hc). case_bool_decide; [by exists l, false; split; [|split; [|split; [|left]]]|].
  rewrite <- map_app.
  destruct (merge_ranges_at (l ++ nl) (sq isn A)) as (l' & He & Hok & Hcov).
  { apply Forall_app. by split; [apply board_span_in|]. }
  exists l', true. rewrite He. split; [done|]. split; [done|]. split; [done|].
  intros i Hi. apply Hcov in Hi. unfold covered_by in *. rewrite Exists_app in Hi.
  destruct Hi as [?|?]; [by left|right; by apply Hc].
Qed.

Lemma board_filter (P : span -> Prop) `{!forall x, Decision (P x)} l :
  board_ok lo hi l -> board_ok lo hi (filter P l).
Proof.
  intros [Hs Hr]. split.
  - clear Hr. induction Hs as [|x l Hs IH Hx]; [by constructor|]. rewrite filter_cons.
    destruct (decide (P x)); [|done]. constructor; [done|].
    rewrite Forall_forall in *. intros y [_ Hy]%list_elem_of_filter. by apply Hx.
  - rewrite Forall_forall in *. intros y [_ Hy]%list_elem_of_filter. by apply Hr.
Qed.

Lemma trim_range_at A x : inside A -> span_in x -> x.1 < x.2 ->
  trim_range (sq isn A) (range_at x)
  = if A <? x.2 then (Some (range_at (Z.max A x.1, x.2)), x.1 <? A) else (None, false).
Proof.
  intros HA [Hx1 Hx2] Hx. unfold trim_range. cbn [range_at r_start r_end].
  rewrite seq_gt_at, seq_lt_at by done. destruct (Z.ltb_spec A x.2); cbn [negb]; [|done].
  destruct (Z.ltb_spec x.1 A); cbn [range_at r_start r_end]; rewrite seq_gt_at by done.
  - destruct (Z.ltb_spec A x.2); [|lia]. unfold range_at. cbn [fst snd]. by rewrite Z.max_l by lia.
  - destruct (Z.ltb_spec x.1 x.2); [|lia]. unfold range_at. cbn [fst snd]. by rewrite Z.max_r by lia.
Qed.

(** The trim: what is left starts at the acknowledgement; without a clip it is
    the ranges past it, unchanged. *)
Lemma trim_at l A : board_ok lo hi l -> inside A ->
  exists l' clipped,
    trim_sack_scoreboard (map range_at l) (sq isn A) = (map range_at l', clipped)
    /\ board_ok lo hi l' /\ (forall i, covered_by l' i -> covered_by l i)
    /\ Forall (fun x => A <= x.1) l'
    /\ (clipped = false -> forall a b, A < b -> Exists (holds_span a b) l' <-> Exists (holds_span a b) l).
Proof.
  intros Hl HA. unfold trim_sack_scoreboard. pose proof (board_span_in l Hl) as Hin.
  set (keep := fun x : span => A < x.2).
  assert (Hkeep : omap fst (map (trim_range (sq isn A)) (map range_at l))
                  = map range_at (map (fun x : span => (Z.max A x.1, x.2)) (filter keep l))
    /\ (existsb snd (map (trim_range (sq isn A)) (map range_at l)) = false ->
        Forall (fun x => A <= x.1) (filter keep l))).
  { destruct Hl as [_ Hr]. induction Hin as [|x l [Hx1 Hx2] _ IH]; [done|].
    apply Forall_cons in Hr as [Hxr Hr]. destruct (IH Hr) as [IH1 IH2].
    rewrite filter_cons. cbn [map omap list_omap existsb]. rewrite trim_range_at by (done || lia).
    destruct (Z.ltb_spec A x.2); [|by rewrite decide_False by (unfold keep; lia)].
    rewrite decide_True by (unfold keep; lia). cbn [fst snd map]. rewrite IH1. split; [done|].
    intros [Hx Hrest]%orb_false_iff. constructor; [lia|auto]. }
  destruct Hkeep as [-> Hnc]. set (cut := map _ (filter keep l)).
  assert (Hcut : Forall span_in cut).
  { unfold cut. rewrite Forall_map. apply Forall_forall. intros x [_ Hx]%list_elem_of_filter.
    rewrite Forall_forall in Hin. destruct (Hin x Hx). unfold span_in, inside in *. simpl. lia. }
  destruct (existsb snd _).
  - destruct (merge_ranges_at cut (sq isn A) Hcut) as (l' & He & Hok & Hcov).
    assert (Hpast : forall i, covered_by l' i -> A <= i /\ covered_by l i).
    { intros i (y & Hy & Hyi)%Hcov%Exists_exists. unfold cut in Hy.
      apply list_elem_of_fmap in Hy as (x & -> & [_ Hx]%list_elem_of_filter).
      simpl in Hyi. split; [lia|]. apply Exists_exists. exists x. split; [done|lia]. }
    exists l', true. split; [by rewrite He|]. split; [done|]. split; [intros i Hi; by apply Hpast|]. split; [|done].
    apply Forall_forall. intros x Hx. apply (Hpast x.1), Exists_exists. exists x. split; [done|].
    destruct Hok as [_ Hr]. rewrite Forall_forall in Hr. specialize (Hr x Hx). lia.
  - specialize (Hnc eq_refl). exists (filter keep l), false.
    assert (Hid : cut = filter keep l).
    { unfold cut. rewrite <- (map_id (filter keep l)) at 2. apply map_ext_in. intros x Hx.
      rewrite Forall_forall in Hnc. rewrite Z.max_r; [by destruct x|]. apply Hnc. by apply list_elem_of_In. }
    pose proof (board_filter keep l Hl) as Hkb.
    rewrite Hid, (merge_ranges_id _ A Hkb HA Hnc). split; [done|]. split; [done|]. split.
    + intros i (x & [_ Hx]%list_elem_of_filter & Hi)%Exists_exists. apply Exists_exists. by exists x.
    + split; [done|]. intros _ a b HAb. rewrite !Exists_exists. split.
      * intros (x & [_ Hx]%list_elem_of_filter & Hh). by exists x.
      * intros (x & Hx & Hh). exists x. split; [|done]. apply list_elem_of_filter. split; [|done].
        unfold keep, holds_span in *. lia.
Qed.
End board.

(** ** The scan, in closed form *)
Definition sacked (board : list SequenceRange) (g : ServerSegment) : bool := segment_is_sacked_in board g.
Fixpoint pipe_of (sk : ServerSegment -> bool) (segs : list ServerSegment) : Z :=
  match segs with [] => 0 | g :: segs => (if sk g then 0 else server_segment_len g) + pipe_of sk segs end.
Fixpoint count_of (sk : ServerSegment -> bool) (segs : list ServerSegment) : Z :=
  match segs with [] => 0 | g :: segs => (if sk g then 0 else 1) + count_of sk segs end.
Definition min_option (a b : option Z) : option Z :=
  match a, b with Some x, Some y => Some (Z.min x y) | Some x, None => Some x | None, b => b end.
Fixpoint earliest_of (sk : ServerSegment -> bool) (segs : list ServerSegment) : option Z :=
  match segs with
  | [] => None
  | g :: segs => min_option (if sk g then None else Some (s_last_sent g)) (earliest_of sk segs)
  end.
Fixpoint disordered (previous : option Z) (segs : list ServerSegment) : bool :=
  match segs with
  | [] => false
  | g :: segs =>
    (match previous with Some p => s_last_sent g <? p | None => false end)
    || disordered (Some (s_last_sent g)) segs
  end.

Lemma snapshot_from board segs : forall a previous,
  fst (foldl (snapshot_step board) (a, previous) segs)
  = mkAcct (pipe_bytes a + pipe_of (sacked board) segs) (pipe_segments a + count_of (sacked board) segs)
      (min_option (earliest_unsacked_sent a) (earliest_of (sacked board) segs))
      (unacked_reordered a || disordered previous segs).
Proof.
  induction segs as [|g segs IH]; intros [pb ps e ro] previous; cbn [foldl].
  - cbn. rewrite !Z.add_0_r, orb_false_r. by destruct e.
  - cbn [snapshot_step pipe_of count_of earliest_of disordered]. fold (sacked board g).
    rewrite IH. cbn [pipe_bytes pipe_segments earliest_unsacked_sent unacked_reordered].
    assert (Ho : (match previous with Some p => if s_last_sent g <? p then true else ro | None => ro end)
                 = ro || match previous with Some p => s_last_sent g <? p | None => false end).
    { destruct previous as [p|]; [|by rewrite orb_false_r]. destruct (_ <? p), ro; done. }
    rewrite Ho. destruct (sacked board g); cbn; rewrite <- orb_assoc; f_equal; try lia.
    destruct e as [e|], (earliest_of (sacked board) segs) as [x|]; cbn; f_equal; lia.
Qed.

Lemma snapshot_eq segs board :
  unacked_accounting_snapshot segs board
  = mkAcct (pipe_of (sacked board) segs) (count_of (sacked board) segs)
      (earliest_of (sacked board) segs) (disordered None segs).
Proof. unfold unacked_accounting_snapshot. by rewrite snapshot_from. Qed.

(** The running accounting is the scan's; the flag may only err on the side of
    a rescan. *)
Record exact (a : Accounting) (sk : ServerSegment -> bool) (segs : list ServerSegment) : Prop := {
  e_bytes : pipe_bytes a = pipe_of sk segs;
  e_segments : pipe_segments a = count_of sk segs;
  e_earliest : earliest_unsacked_sent a = earliest_of sk segs;
  e_ordered : unacked_reordered a = false -> disordered None segs = false
}.
Definition accounting_exact (t : SendState) : Prop :=
  let scan := unacked_accounting_snapshot (unacked_server_segments t) (sack_scoreboard t) in
  pipe_bytes (acct t) = pipe_bytes scan /\ pipe_segments (acct t) = pipe_segments scan
  /\ earliest_unsacked_sent (acct t) = earliest_unsacked_sent scan
  /\ (unacked_reordered scan = true -> unacked_reordered (acct t) = true).

Lemma exact_iff t :
  accounting_exact t <-> exact (acct t) (sacked (sack_scoreboard t)) (unacked_server_segments t).
Proof.
  unfold accounting_exact. rewrite snapshot_eq.
  cbn [pipe_bytes pipe_segments earliest_unsacked_sent unacked_reordered]. split.
  - intros (H1 & H2 & H3 & H4). split; try done. intros Hf.
    destruct (disordered None _); [|done]. rewrite H4 in Hf; done.
  - intros [H1 H2 H3 H4]. do 3 (split; [done|]). intros Hd. destruct (unacked_reordered _); [done|].
    by rewrite H4 in Hd.
Qed.

Lemma rebuild_exact t : accounting_exact (rebuild_unacked_accounting t).
Proof. unfold accounting_exact, rebuild_unacked_accounting. cbn. done. Qed.

Lemma server_segment_len_nonneg g : 0 <= server_segment_len g.
Proof.
  unfold server_segment_len. pose proof (zlen_nonneg (s_payload g)).
  destruct (has_flag _ _), (has_flag _ _); lia.
Qed.
Lemma pipe_of_nonneg sk segs : 0 <= pipe_of sk segs.
Proof.
  induction segs as [|g segs IH]; cbn [pipe_of]; [lia|]. pose proof (server_segment_len_nonneg g).
  destruct (sk g); lia.
Qed.
Lemma count_of_nonneg sk segs : 0 <= count_of sk segs.
Proof. induction segs as [|g segs IH]; cbn [count_of]; [lia|]. destruct (sk g); lia. Qed.

(** The scan depends on the ranges through the segments they hold only. *)
Lemma exact_ext a sk sk' segs : Forall (fun g => sk g = sk' g) segs ->
  exact a sk segs -> exact a sk' segs.
Proof.
  intros H [H1 H2 H3 H4].
  assert (Hp : pipe_of sk segs = pipe_of sk' segs /\ count_of sk segs = count_of sk' segs
               /\ earliest_of sk segs = earliest_of sk' segs).
  { clear -H. induction H as [|g segs Hg _ (IH1 & IH2 & IH3)]; [done|]. cbn.
    by rewrite Hg, IH1, IH2, IH3. }
  destruct Hp as (Hp1 & Hp2 & Hp3). split; [congruence..|done].
Qed.

Lemma disordered_none p segs : disordered p segs = false -> disordered None segs = false.
Proof. destruct segs; cbn; [done|]. by intros [_ H]%orb_false_iff. Qed.
Lemma disordered_tail g segs : disordered None (g :: segs) = false -> disordered None segs = false.
Proof. cbn. apply disordered_none. Qed.

Lemma disordered_lower p segs : disordered (Some p) segs = false ->
  Forall (fun g => p <= s_last_sent g) segs.
Proof.
  revert p. induction segs as [|g segs IH]; intros p H; [constructor|]. cbn in H.
  apply orb_false_iff in H as [H1 H2]. constructor; [lia|].
  eapply Forall_impl; [exact (IH _ H2)|]. simpl. lia.
Qed.
Lemma earliest_bound p sk segs e : Forall (fun g => p <= s_last_sent g) segs ->
  earliest_of sk segs = Some e -> p <= e.
Proof.
  intros H. revert e. induction H as [|g segs Hg _ IH]; intros e; cbn; [done|].
  destruct (sk g); cbn; [apply IH|]. destruct (earliest_of sk segs) as [x|]; intros [= <-]; [|done].
  specialize (IH _ eq_refl). lia.
Qed.

(** In order, the first segment in the pipe is the earliest. *)
Lemma first_unsacked_earliest sk segs : disordered None segs = false ->
  s_last_sent <$> List.find (fun g => negb (sk g)) segs = earliest_of sk segs.
Proof.
  induction segs as [|g segs IH]; intros H; [done|]. cbn [List.find earliest_of].
  destruct (sk g) eqn:E; cbn [negb min_option]; [apply IH; by eapply disordered_tail|].
  cbn in H. apply disordered_lower in H. cbn [fmap option_fmap option_map].
  destruct (earliest_of sk segs) as [x|] eqn:Ex; [|done]. pose proof (earliest_bound _ _ _ _ H Ex).
  f_equal. lia.
Qed.

(** ** The queue as positions *)
Abbreviation sent := (Z * ServerSegment)%type.
Definition sent_end (x : sent) : Z := x.1 + server_segment_len x.2.

Section queue.
Context (isn : Z).

(** Segments one after the other from [a] to [b], each of some length. *)
Fixpoint chain (a : Z) (qs : list sent) (b : Z) : Prop :=
  match qs with
  | [] => a = b
  | x :: qs =>
    x.1 = a /\ s_seq x.2 = sq isn a /\ 0 < server_segment_len x.2 <= 2 ^ 16
    /\ chain (sent_end x) qs b
  end.

Lemma chain_le a qs b : chain a qs b -> a <= b.
Proof.
  revert a. induction qs as [|x qs IH]; intros a; cbn [chain]; [lia|].
  intros (<- & _ & Hl & Hc). apply IH in Hc. unfold sent_end in Hc. lia.
Qed.
Lemma chain_bounds a qs b : chain a qs b ->
  Forall (fun x => s_seq x.2 = sq isn x.1 /\ a <= x.1 < sent_end x /\ sent_end x <= x.1 + 2 ^ 16
                   /\ sent_end x <= b) qs.
Proof.
  revert a. induction qs as [|x qs IH]; intros a Hc; [constructor|]. cbn [chain] in Hc.
  destruct Hc as (<- & Hs & Hl & Hc). pose proof (chain_le _ _ _ Hc). constructor.
  - unfold sent_end in *. repeat split; try done; lia.
  - eapply Forall_impl; [exact (IH _ Hc)|]. intros y Hy. cbn beta in *. unfold sent_end in *. lia.
Qed.
Lemma chain_app a qs1 qs2 b : chain a (qs1 ++ qs2) b <-> exists m, chain a qs1 m /\ chain m qs2 b.
Proof.
  revert a. induction qs1 as [|x qs1 IH]; intros a; cbn [app chain].
  - split; [intros H; by exists a|by intros (m & -> & H)].
  - rewrite IH. split.
    + intros (H1 & H2 & H3 & m & H4 & H5). exists m. tauto.
    + intros (m & (H1 & H2 & H3 & H4) & H5). split; [done|]. split; [done|]. split; [done|]. by exists m.
Qed.

Lemma segment_end_at x : s_seq x.2 = sq isn x.1 -> segment_end x.2 = sq isn (sent_end x).
Proof. intros H. unfold segment_end. rewrite H. apply wadd32_sq_mod. Qed.

(** What the walk over the acknowledged prefix does. *)
Lemma pop_acked_ok lo hi board now A qs : hi - lo < 2 ^ 31 -> inside lo hi A -> forall a b p,
  chain a qs b -> Forall (fun x => inside lo hi (sent_end x)) qs ->
  pipe_bytes (p_acct p) = pipe_of (sacked board) (qs.*2) ->
  pipe_segments (p_acct p) = count_of (sacked board) (qs.*2) ->
  exists qs1 qs2 m p', qs = qs1 ++ qs2 /\ pop_acked board now (sq isn A) (qs.*2) p = (qs2.*2, p')
    /\ Forall (fun x => sent_end x <= A) qs1 /\ Forall (fun x => A < sent_end x) qs2
    /\ chain a qs1 m /\ chain m qs2 b /\ m <= Z.max a A /\ p_bytes p' = p_bytes p + (m - a)
    /\ p_acct p' = mkAcct (pipe_of (sacked board) (qs2.*2)) (count_of (sacked board) (qs2.*2))
                     (earliest_unsacked_sent (p_acct p)) (unacked_reordered (p_acct p)).
Proof.
  intros Hn HA. induction qs as [|x qs IH]; intros a b p Hc Hin Hb Hs.
  - exists [], [], a, p. destruct p as [[pb ps e ro] bs rtt rate tx]. cbn in *. subst.
    repeat split; try done; lia.
  - apply Forall_cons in Hin as [Hx Hin]. cbn [chain] in Hc. destruct Hc as (Hxa & Hseq & Hl & Hc).
    cbn [fmap list_fmap pop_acked]. rewrite segment_end_at by congruence.
    rewrite (seq_ge_at isn lo hi Hn) by done.
    destruct (Z.leb_spec (sent_end x) A); cbn [negb].
    + cbn [fmap list_fmap pipe_of count_of] in Hb, Hs.
      pose proof (pipe_of_nonneg (sacked board) (qs.*2)). pose proof (count_of_nonneg (sacked board) (qs.*2)).
      set (p1 := pop_one board now x.2 p).
      assert (Hp1 : pipe_bytes (p_acct p1) = pipe_of (sacked board) (qs.*2)
        /\ pipe_segments (p_acct p1) = count_of (sacked board) (qs.*2)
        /\ earliest_unsacked_sent (p_acct p1) = earliest_unsacked_sent (p_acct p)
        /\ unacked_reordered (p_acct p1) = unacked_reordered (p_acct p)
        /\ p_bytes p1 = p_bytes p + server_segment_len x.2).
      { unfold p1, pop_one. fold (sacked board x.2) in *. unfold saturating_sub.
        destruct (sacked board x.2), (s_retransmits x.2 =? 0); cbn; repeat split; lia. }
      destruct Hp1 as (Hp1 & Hp2 & Hp3 & Hp4 & Hp5). clearbody p1.
      destruct (IH _ _ p1 Hc Hin Hp1 Hp2) as (qs1 & qs2 & m & p' & -> & Hpop & Hle & Hgt & Hc1 & Hc2 & Hm & Hbytes & Hacct).
      exists (x :: qs1), qs2, m, p'. rewrite Hacct, Hp3, Hp4.
      repeat split; try done; [by constructor|lia|lia|lia|unfold sent_end in Hbytes; lia].
    + exists [], (x :: qs), a, p. split; [done|]. split; [done|]. split; [constructor|]. split.
      { pose proof (chain_bounds _ _ _ Hc) as Hbd. constructor; [lia|].
        eapply Forall_impl; [exact Hbd|]. intros y Hy. cbn beta in *. lia. }
      split; [done|]. split; [exact (conj Hxa (conj Hseq (conj Hl Hc)))|].
      split; [lia|]. split; [lia|].
      destruct p as [[pb ps e ro] bs rtt rate tx]. cbn [p_acct pipe_bytes pipe_segments] in *.
      cbn [p_acct earliest_unsacked_sent unacked_reordered]. by rewrite Hb, Hs.
Qed.

(** The cache after the pops. *)
Lemma refresh_exact t :
  pipe_bytes (acct t) = pipe_of (sacked (sack_scoreboard t)) (unacked_server_segments t) ->
  pipe_segments (acct t) = count_of (sacked (sack_scoreboard t)) (unacked_server_segments t) ->
  (unacked_reordered (acct t) = false -> disordered None (unacked_server_segments t) = false) ->
  accounting_exact (refresh_earliest_after_pop t).
Proof.
  intros Hb Hs Ho. unfold refresh_earliest_after_pop.
  destruct (unacked_server_segments t) as [|g segs] eqn:E.
  - apply exact_iff. unfold set_acct, set_queue. cbn. rewrite E. by split.
  - destruct (unacked_reordered (acct t)) eqn:Er; [apply rebuild_exact|].
    apply exact_iff. unfold set_acct, set_queue. cbn [acct unacked_server_segments sack_scoreboard].
    rewrite E. split; cbn [pipe_bytes pipe_segments earliest_unsacked_sent unacked_reordered]; auto.
    by apply first_unsacked_earliest, Ho.
Qed.

Lemma Forall_impl2 {A} (P Q R : A -> Prop) l :
  Forall P l -> Forall Q l -> (forall x, P x -> Q x -> R x) -> Forall R l.
Proof. rewrite !Forall_forall. auto. Qed.

Lemma disordered_app_r p l1 l2 : disordered p (l1 ++ l2) = false -> disordered None l2 = false.
Proof.
  revert p. induction l1 as [|g l1 IH]; intros p H; cbn in H; [by eapply disordered_none|].
  apply orb_false_iff in H as [_ H]. by eapply IH.
Qed.
End queue.

(** ** The invariant of the send side

    [una] is the highest position acknowledged, [nxt] the next to send. *)
Definition SLACK : Z := 2 ^ 28.
Record send_ok (isn una nxt : Z) (qs : list sent) (l : list span) (t : SendState) : Prop := {
  so_queue : unacked_server_segments t = qs.*2;
  so_chain : exists a, chain isn a qs nxt /\ a <= una;
  so_past : Forall (fun x => una < sent_end x) qs;
  so_board : sack_scoreboard t = map (range_at isn) l;
  so_ranges : board_ok (una - SLACK) nxt l;
  so_last : exists L, last_client_ack (recovery t) = sq isn L /\ una - SLACK <= L <= una;
  so_flight : una <= nxt <= una + 2 ^ 30;
  so_exact : accounting_exact t
}.

(** The fields an acknowledgement leaves alone. *)
Record ack_keeps (t t' : SendState) : Prop := {
  k_pending : pending t' = pending t;
  k_fin : server_fin_pending t' = server_fin_pending t;
  k_rto : retransmission_timeout t' = retransmission_timeout t
}.
#[export] Instance ack_keeps_refl : Reflexive ack_keeps.
Proof. by split. Qed.
#[export] Instance ack_keeps_trans : Transitive ack_keeps.
Proof. intros ??? [] []. split; congruence. Qed.

Lemma refresh_keeps t : ack_keeps t (refresh_earliest_after_pop t)
  /\ unacked_server_segments (refresh_earliest_after_pop t) = unacked_server_segments t
  /\ sack_scoreboard (refresh_earliest_after_pop t) = sack_scoreboard t
  /\ recovery (refresh_earliest_after_pop t) = recovery t.
Proof.
  unfold refresh_earliest_after_pop. destruct (unacked_server_segments t) eqn:E;
    [|destruct (unacked_reordered (acct t))]; repeat split; cbn; by rewrite ?E.
Qed.

(** What an acknowledgement up to [A] makes of the queue [qs]. *)
Record ack_outcome (isn una nxt A : Z) (qs : list sent) (t t' : SendState) (qs1 qs2 : list sent) : Prop := {
  ao_split : qs = qs1 ++ qs2;
  ao_queue : unacked_server_segments t' = qs2.*2;
  ao_chain : exists a, chain isn a qs2 nxt /\ a <= Z.max una A;
  ao_popped : Forall (fun x => sent_end x <= A) qs1;
  ao_kept : Forall (fun x => Z.max una A < sent_end x) qs2;
  ao_board : sack_scoreboard t' = sack_scoreboard t;
  ao_last : exists L, last_client_ack (recovery t') = sq isn L
            /\ (L = A \/ A <= L <= una /\ last_client_ack (recovery t) = sq isn L);
  ao_exact : accounting_exact t';
  ao_keeps : ack_keeps t t'
}.

(** The branch on the number, as far as the queue and the accounting go. *)
Lemma apply_ack_ok isn lo una nxt qs l t server_seq now A advanced :
  nxt - lo < 2 ^ 31 -> lo <= una - 2 ^ 16 ->
  unacked_server_segments t = qs.*2 -> (exists a, chain isn a qs nxt /\ a <= una) ->
  Forall (fun x => una < sent_end x) qs -> sack_scoreboard t = map (range_at isn) l ->
  (exists L, last_client_ack (recovery t) = sq isn L /\ lo <= L <= una) ->
  accounting_exact t -> lo <= A <= nxt -> una <= nxt ->
  exists qs1 qs2, ack_outcome isn una nxt A qs t (apply_ack t server_seq now (sq isn A) advanced).1 qs1 qs2.
Proof.
  intros Hn Hlo Hq (a & Hc & Ha) Hpast Hbd (L & HL & HLr) Hex HA Hun. unfold apply_ack.
  pose proof (chain_bounds _ _ _ _ Hc) as Hbounds.
  case_bool_decide as He.
  { rewrite Hq in He. destruct qs; [|done]. cbn in Hc. subst a.
    exists [], []. split; try done; [exists nxt; split; [done|lia]|exists A; split; [done|by left]]. }
  rewrite HL, (seq_gt_at isn lo nxt Hn) by (unfold inside; lia).
  assert (Hstay : A <= L -> Forall (fun x => Z.max una A < sent_end x) qs)
    by (intros; eapply Forall_impl; [exact Hpast|]; simpl; lia).
  destruct (Z.ltb_spec L A) as [Hlt|Hge].
  - set (t1 := set_recovery _ _ _).
    change (unacked_server_segments t1) with (unacked_server_segments t). rewrite Hq.
    destruct (pop_acked_ok isn lo nxt (sack_scoreboard t1) now A qs Hn ltac:(unfold inside; lia) a nxt
      (mkPopped (acct t1) 0 None None (first_tx_mstamp t1)) Hc) as
      (qs1 & qs2 & m & p' & Hsplit & Hpop & Hle & Hgt & Hc1 & Hc2 & Hm & Hbytes & Hacct).
    { eapply Forall_impl2; [exact Hbounds|exact Hpast|].
      intros x Hx. unfold inside. cbn beta in *. lia. }
    { apply exact_iff in Hex as [H1 _ _ _]. rewrite <- Hq. exact H1. }
    { apply exact_iff in Hex as [_ H2 _ _]. rewrite <- Hq. exact H2. }
    rewrite Hpop. set (t2 := set_queue t1 (qs2.*2) (p_acct p') (p_first_tx p')).
    destruct (refresh_keeps t2) as (Hk & Hkq & Hkb & Hkr).
    assert (Hex2 : accounting_exact (refresh_earliest_after_pop t2)).
    { apply refresh_exact; unfold t2; cbn; rewrite Hacct; cbn; [done|done|].
      intros Hr. apply exact_iff in Hex as [_ _ _ H4]. specialize (H4 Hr).
      rewrite Hq, Hsplit, fmap_app in H4. by eapply disordered_app_r. }
    assert (Hfin : forall t', unacked_server_segments t' = qs2.*2 ->
      sack_scoreboard t' = sack_scoreboard t -> accounting_exact t' ->
      last_client_ack (recovery t') = sq isn A -> ack_keeps t t' ->
      exists qs1 qs2, ack_outcome isn una nxt A qs t t' qs1 qs2).
    { intros t' Hq' Hb' Hx' Hl' Hk'. exists qs1, qs2. split; try done.
      - exists m. split; [done|lia].
      - rewrite Hsplit in Hpast. apply Forall_app in Hpast as [_ Hp2].
        eapply Forall_impl2; [exact Hgt|exact Hp2|]. simpl. lia.
      - exists A. split; [done|by left]. }
    set (t3 := refresh_earliest_after_pop t2) in *. clearbody t3.
    assert (Hk3 : ack_keeps t t3) by (transitivity t2; [by split|done]).
    assert (Hl3 : last_client_ack (recovery t3) = sq isn A) by (by rewrite Hkr).
    cbn zeta. destruct (fast_recovery_end _) as [recovery_end|]; [|by apply Hfin].
    destruct (_ || _); apply Hfin; try done. by transitivity t3.
  - assert (Hrest : forall t', unacked_server_segments t' = unacked_server_segments t ->
      sack_scoreboard t' = sack_scoreboard t -> acct t' = acct t ->
      last_client_ack (recovery t') = last_client_ack (recovery t) -> ack_keeps t t' ->
      exists qs1 qs2, ack_outcome isn una nxt A qs t t' qs1 qs2).
    { intros t' Hq' Hb' Ha' Hl' Hk'. exists [], qs. split; try done.
      - by rewrite Hq'.
      - exists a. split; [done|lia].
      - by apply Hstay.
      - exists L. rewrite Hl'. split; [done|right; lia].
      - unfold accounting_exact in *. by rewrite Hq', Hb', Ha'. }
    destruct (_ =? _); [|by apply Hrest].
    destruct (is_some _); [by apply Hrest|]. destruct (_ <=? _); by apply Hrest.
Qed.

Lemma board_weaken lo lo' hi l : board_ok lo hi l -> Forall (fun x => lo' <= x.1) l -> board_ok lo' hi l.
Proof.
  intros [Hs Hr] Hl. split; [done|]. eapply Forall_impl2; [exact Hr|exact Hl|]. simpl. lia.
Qed.

Lemma sacked_at isn lo hi l x : hi - lo < 2 ^ 31 -> board_ok lo hi l -> s_seq x.2 = sq isn x.1 ->
  lo <= x.1 < sent_end x -> sent_end x <= hi ->
  sacked (map (range_at isn) l) x.2 = true <-> Exists (holds_span x.1 (sent_end x)) l.
Proof.
  intros Hn Hl Hs H1 H2. unfold sacked, segment_is_sacked_in. rewrite (segment_end_at isn), Hs by done.
  apply (covered_at isn lo hi); unfold inside; (done || lia).
Qed.

(** An acknowledgement at [A] with SACK blocks [blocks], all of them at most
    [SLACK] behind what was acknowledged and not past what was sent. *)
Lemma process_ok isn una nxt qs l t server_seq now A blocks :
  send_ok isn una nxt qs l t -> una - SLACK <= A <= nxt ->
  Forall (span_in (una - SLACK) nxt) blocks ->
  exists qs1 qs2 l', let t' := (process_server_ack t server_seq now (sq isn A) (map (block_at isn) blocks)).1 in
    qs = qs1 ++ qs2 /\ Forall (fun x => sent_end x <= A) qs1
    /\ send_ok isn (Z.max una A) nxt qs2 l' t'
    /\ (forall i, covered_by l' i -> covered_by l i \/ covered_by blocks i)
    /\ ack_keeps t t'.
Proof.
  intros [Hq Hc Hp Hb Hr Hl Hf Hex] HA Hbl. unfold SLACK in *.
  assert (Hn : nxt - (una - 2 ^ 28) < 2 ^ 31) by lia.
  assert (HAin : inside (una - 2 ^ 28) nxt A) by done.
  unfold process_server_ack. rewrite Hb.
  destruct (update_at isn (una - 2 ^ 28) nxt Hn l A blocks Hr HAin Hbl) as (l1 & advanced & -> & Hr1 & Hsame & Hcov1).
  set (t1 := if advanced then _ else _).
  assert (Ht1 : unacked_server_segments t1 = qs.*2 /\ sack_scoreboard t1 = map (range_at isn) l1
    /\ recovery t1 = recovery t /\ accounting_exact t1 /\ ack_keeps t t1).
  { unfold t1. destruct advanced; [repeat split; try done; apply rebuild_exact|].
    rewrite (Hsame eq_refl), <- Hb. by destruct t. }
  destruct Ht1 as (Hq1 & Hb1 & Hrec1 & Hex1 & Hk1). clearbody t1. rewrite <- Hrec1 in Hl.
  destruct (apply_ack_ok isn (una - 2 ^ 28) una nxt qs l1 t1 server_seq now A advanced) as
    (qs1 & qs2 & [Hsp Hq2 Hc2 Hpop Hkept Hb2 Hl2 Hex2 Hk2]); try done; [lia|lia|].
  destruct (apply_ack t1 server_seq now (sq isn A) advanced) as [t2 e]. cbn [fst] in *.
  rewrite Hb2, Hb1.
  destruct (trim_at isn (una - 2 ^ 28) nxt Hn l1 A Hr1 HAin) as (l2 & clipped & -> & Hr2 & Hcov2 & Hpast & Hunc).
  set (t3 := if clipped then _ else _). exists qs1, qs2, l2. split; [done|]. split; [done|].
  assert (Ht3 : unacked_server_segments t3 = qs2.*2 /\ sack_scoreboard t3 = map (range_at isn) l2
    /\ recovery t3 = recovery t2 /\ ack_keeps t2 t3) by (unfold t3; by destruct clipped).
  destruct Ht3 as (Hq3 & Hb3 & Hrec3 & Hk3).
  cbn [fst]. split; [split; try done|split].
  - unfold SLACK. apply (board_weaken (una - 2 ^ 28)); [done|].
    eapply Forall_impl2; [exact Hpast|exact (b_range _ _ _ Hr2)|]. simpl. lia.
  - rewrite Hrec3. destruct Hl2 as (L & HL & HLA). exists L. split; [done|]. unfold SLACK.
    destruct HLA as [->|(? & _)]; lia.
  - lia.
  - unfold t3. destruct clipped; [apply rebuild_exact|]. apply exact_iff.
    apply exact_iff in Hex2. cbn [set_board sack_scoreboard unacked_server_segments acct].
    eapply exact_ext; [|exact Hex2]. rewrite Hq2, Hb2, Hb1, Forall_map.
    destruct Hc2 as (a & Hc2 & Ha). pose proof (chain_bounds _ _ _ _ Hc2) as Hbd.
    eapply Forall_impl2; [exact Hbd|exact Hkept|]. intros x (Hs & Hx1 & Hx2 & Hx3) Hx. cbn beta in *.
    apply eq_true_iff_eq. rewrite !(sacked_at isn (una - 2 ^ 28) nxt) by (done || lia).
    symmetry. apply Hunc; [done|lia].
  - intros i Hi. apply Hcov1. by apply Hcov2.
  - by transitivity t1; [|transitivity t2].
Qed.
