(* ===== verification/TcpSend.v ===== *)
(** The send side of the userspace TCP
    ([crates/outline-tun/src/tcp/state_machine/send/flush.rs], [buffer.rs],
    [probes.rs]): the flush of the bytes that wait for the client into packets
    and onto the retransmission queue, the FIN, the probes and the two
    retransmissions.

    What the flush reads from the BBR controller, which computes in floating
    point, is a record of its answers, [BbrView]; nothing is assumed of them. *)
From S2P Require Import Prelude StdText IpPacket TcpTypes TcpWire TcpRecv TcpPackets.
From S2P Require Import TcpScoreboard.
Local Open Scope Z_scope.

(** A flow: what the receive path keeps, and what the send side does. *)
Record Flow : Type := mkFlowPair { rx_state : TcpFlowState; tx_state : SendState }.

Record BbrView : Type := mkView {
  view_pacing : bool;      (* [pacing_active] *)
  view_credit : Z;         (* the bucket after [refill_pacing_credit] *)
  view_cap : Z;            (* the in-flight cap of [congestion_window_remaining] *)
  view_release_at : Z      (* [pacing_release_at] for one segment *)
}.

Record ServerDataPacket : Type := mkDataPacket {
  d_header : bytes;
  d_payload : list bytes;
  d_vnet : option VirtioNetHdr
}.

(** Assignments. *)
Definition set_server_seq (s : TcpFlowState) (seq : Z) : TcpFlowState :=
  mkFlow (status s) (status_since s) (last_seen s) (rcv_nxt s) (receive_window_capacity s)
    (pending_client_data s) (pending_client_segments s) (timestamps_enabled s)
    (recent_client_timestamp s) (client_window_scale s) (client_window s) (client_window_end s)
    (client_window_update_seq s) (client_window_update_ack s) seq (keepalive_probes_sent s)
    (last_keepalive_probe_at s) (zero_window_probe_backoff s) (next_zero_window_probe_at s)
    (unacked_in_order_segments s) (delayed_ack_deadline s).
Definition set_zero_window (s : TcpFlowState) (backoff : Z) (at_ : option Z) : TcpFlowState :=
  mkFlow (status s) (status_since s) (last_seen s) (rcv_nxt s) (receive_window_capacity s)
    (pending_client_data s) (pending_client_segments s) (timestamps_enabled s)
    (recent_client_timestamp s) (client_window_scale s) (client_window s) (client_window_end s)
    (client_window_update_seq s) (client_window_update_ack s) (server_seq s)
    (keepalive_probes_sent s) (last_keepalive_probe_at s) backoff at_
    (unacked_in_order_segments s) (delayed_ack_deadline s).
Definition set_keepalive (s : TcpFlowState) (sent : Z) (at_ : option Z) : TcpFlowState :=
  mkFlow (status s) (status_since s) (last_seen s) (rcv_nxt s) (receive_window_capacity s)
    (pending_client_data s) (pending_client_segments s) (timestamps_enabled s)
    (recent_client_timestamp s) (client_window_scale s) (client_window s) (client_window_end s)
    (client_window_update_seq s) (client_window_update_ack s) (server_seq s) sent at_
    (zero_window_probe_backoff s) (next_zero_window_probe_at s) (unacked_in_order_segments s)
    (delayed_ack_deadline s).
Definition set_bbr (t : SendState) (b : BbrFields) : SendState := set_recovery t (recovery t) b.
Definition set_pending (t : SendState) (p : PendingServer) : SendState :=
  mkSend (unacked_server_segments t) (sack_scoreboard t) (acct t) (recovery t) (first_tx_mstamp t) p
    (bbr t) (retransmission_timeout t) (server_fin_pending t).
Definition set_fin_pending (t : SendState) (b : bool) : SendState :=
  mkSend (unacked_server_segments t) (sack_scoreboard t) (acct t) (recovery t) (first_tx_mstamp t)
    (pending t) (bbr t) (retransmission_timeout t) b.
Definition set_credit (b : BbrFields) (credit : Z) (next_at : option Z) : BbrFields :=
  mkBbr (delivered b) (delivered_at b) credit next_at (loss_episodes b) (loss_in_round b)
    (lost_in_window b).

Definition TCP_ZERO_WINDOW_PROBE_BASE_INTERVAL : Z := 1000.
Definition TCP_ZERO_WINDOW_PROBE_MAX_INTERVAL : Z := 30000.
Definition reset_zero_window_persist (s : TcpFlowState) : TcpFlowState :=
  set_zero_window s TCP_ZERO_WINDOW_PROBE_BASE_INTERVAL None.

(** ** The queue of bytes to send *)
Definition charge_pending_server (p : PendingServer) (n : Z) : PendingServer :=
  mkPending (pending_server_data p) (pending_server_bytes_total p + n) (budget_share p + n).
Definition discharge_pending_server (p : PendingServer) (n : Z) : PendingServer :=
  let applied := Z.min n (pending_server_bytes_total p) in
  mkPending (pending_server_data p) (pending_server_bytes_total p - applied) (budget_share p - applied).
(** The reader: a chunk from the upstream. *)
Definition push_pending_server (p : PendingServer) (chunk : bytes) : PendingServer :=
  charge_pending_server
    (mkPending (pending_server_data p ++ [chunk]) (pending_server_bytes_total p) (budget_share p))
    (zlen chunk).

Definition MAX_WRITE_PAYLOAD_CHUNKS : nat := 128.
(** The chunks taken and what stays queued; [room] is [target - collected]. *)
Fixpoint take_chunks (room : Z) (chunks_left : nat) (data : list bytes) : list bytes * list bytes :=
  match data with
  | [] => ([], [])
  | front :: rest =>
    if (0 <? room) && negb (chunks_left =? 0)%nat then
      if bool_decide (front = []) then take_chunks room chunks_left rest
      else
        let take_ := Z.min (zlen front) room in
        let piece := take (Z.to_nat take_) front in
        let left_ := drop (Z.to_nat take_) front in
        if bool_decide (left_ = []) then
          let (taken, rest) := take_chunks (room - take_) (chunks_left - 1) rest in
          (piece :: taken, rest)
        else ([piece], left_ :: rest)
    else ([], data)
  end.
Definition take_pending_server_payload (p : PendingServer) (target : Z) : list bytes * PendingServer :=
  let (taken, rest) := take_chunks target MAX_WRITE_PAYLOAD_CHUNKS (pending_server_data p) in
  (taken, foldl discharge_pending_server
            (mkPending rest (pending_server_bytes_total p) (budget_share p)) (map zlen taken)).

(** The range [start .. end_] of the chunks put end to end; an index past the
    last chunk is a panic. *)
Fixpoint skip_chunks (chunks : list bytes) (pos start : Z) : option (list bytes * Z) :=
  match chunks with
  | [] => None
  | c :: rest => if pos + zlen c <=? start then skip_chunks rest (pos + zlen c) start
                 else Some (chunks, pos)
  end.
Fixpoint copy_chunks (chunks : list bytes) (pos end_ : Z) : option bytes :=
  if pos <? end_ then
    match chunks with
    | [] => None
    | c :: rest =>
      let take_ := Z.min (end_ - pos) (zlen c) in
      more ← copy_chunks rest (pos + zlen c) end_;
      Some (take (Z.to_nat take_) c ++ more)
    end
  else Some [].
Definition slice_chunks (chunks : list bytes) (start end_ : Z) : option bytes :=
  '(chunks, pos) ← skip_chunks chunks 0 start;
  match chunks with
  | [] => None
  | c :: rest =>
    let local_start := start - pos in
    if end_ <=? pos + zlen c then Some (slice c (Z.to_nat local_start) (Z.to_nat (end_ - pos)))
    else
      more ← copy_chunks rest (pos + zlen c) end_;
      Some (drop (Z.to_nat local_start) c ++ more)
  end.

(** ** Onto the retransmission queue *)
Definition server_max_segment_payload (k : FlowConst) : Z :=
  Z.max 1 (Z.min (default MAX_SERVER_SEGMENT_PAYLOAD (client_max_segment_size k)) MAX_SERVER_SEGMENT_PAYLOAD).

(** What the segments of one write have in common. *)
Record WriteStamp : Type := mkStamp {
  w_ack : Z; w_flags : Z; w_sent_at : Z; w_delivered : Z; w_delivered_at : Z; w_first_tx : Z;
  w_app_limited : bool }.
Definition new_segment (w : WriteStamp) (seq : Z) (payload : bytes) : ServerSegment :=
  mkServerSegment seq (w_ack w) (w_flags w) payload (w_sent_at w) (w_sent_at w) 0 0 0
    (w_delivered w) (w_delivered_at w) (w_first_tx w) (w_app_limited w).

(** The segments of one write; every round moves by one byte at least. *)
Fixpoint cut_segments (fuel : nat) (w : WriteStamp) (chunks : list bytes) (mss total offset seq : Z)
    : option (list ServerSegment) :=
  match fuel with
  | O => None
  | S fuel =>
    if offset <? total then
      let end_ := Z.min (offset + mss) total in
      payload ← slice_chunks chunks offset end_;
      segs ← cut_segments fuel w chunks mss total end_ (wadd32 seq ((end_ - offset) mod 2 ^ 32));
      Some (new_segment w seq payload :: segs)
    else Some []
  end.

Definition get_or_insert (o : option Z) (x : Z) : option Z :=
  match o with Some _ => o | None => Some x end.

Definition push_unacked_segments (t : SendState) (now start_sequence ack flags : Z)
    (chunks : list bytes) (mss : Z) (app_limited : bool) : option SendState :=
  let fresh := pipe_segments (acct t) =? 0 in
  let first_tx := if fresh then now else first_tx_mstamp t in
  let b := bbr t in
  let b := if fresh
           then mkBbr (delivered b) now (pacing_credit b) (pacing_next_at b) (loss_episodes b)
                  (loss_in_round b) (lost_in_window b)
           else b in
  let w := mkStamp ack flags now (delivered b) (delivered_at b) first_tx app_limited in
  let total := sum_len chunks in
  segs ← cut_segments (S (Z.to_nat total)) w chunks mss total 0 start_sequence;
  let a := acct t in
  let a := mkAcct (pipe_bytes a + sum_len (map s_payload segs))
             (pipe_segments a + zlen segs)
             (get_or_insert (earliest_unsacked_sent a) now) (unacked_reordered a) in
  Some (set_bbr (set_queue t (unacked_server_segments t ++ segs) a first_tx) b).

(** ** The flush *)
Definition GSO_MAX_SUPER_SEGMENT_PAYLOAD : Z := 61440.
Definition TCP_FLAG_PSH : Z := 0x08.

Definition congestion_window_remaining (t : SendState) (cap : Z) : Z :=
  saturating_sub cap (bytes_in_pipe t).

(** The header of one write: a super-segment's or a segment's. [None] is a
    panic of the option block. *)
Definition data_header (k : FlowConst) (s : TcpFlowState) (now seq flags : Z) (payload : list bytes)
    : option (outcome (bytes * option VirtioNetHdr)) :=
  let mss := server_max_segment_payload k in
  if gso_enabled k && (mss <? sum_len payload) then
    r ← build_gso_flow_header k s now seq (rcv_nxt s) flags (mss mod 2 ^ 16)
          (Z.to_nat (sum_len payload));
    Some ('(header, vnet) ← r; Ok (header, Some vnet))
  else
    r ← build_flow_data_header k s now seq (rcv_nxt s) flags payload;
    Some (header ← r; Ok (header, None)).

(** Empty chunks at the head of the queue. *)
Fixpoint pop_empty (data : list bytes) : list bytes :=
  match data with [] :: rest => pop_empty rest | _ => data end.

(** The loop of [flush_server_data]. Every round takes one byte at least out of
    the queue, so its length is fuel enough; [None] is a panic. An error of the
    builder leaves the state as it is at that point. *)
Fixpoint flush_loop (fuel : nat) (k : FlowConst) (v : BbrView) (now : Z) (fl : Flow)
    (available_window : Z) (packets : list ServerDataPacket)
    : option (Flow * outcome (list ServerDataPacket)) :=
  match fuel with
  | O => None
  | S fuel =>
    let s := rx_state fl in
    let t := tx_state fl in
    if negb (0 <? available_window) then Some (fl, Ok packets)
    else
      let p := pending t in
      let p := mkPending (pop_empty (pending_server_data p)) (pending_server_bytes_total p)
                 (budget_share p) in
      let t := set_pending t p in
      if bool_decide (pending_server_data p = []) then Some (mkFlowPair s t, Ok packets)
      else
        let mss := server_max_segment_payload k in
        let per_write_cap := if gso_enabled k then GSO_MAX_SUPER_SEGMENT_PAYLOAD else mss in
        let target := Z.min per_write_cap available_window in
        let target := if view_pacing v then Z.min target (pacing_credit (bbr t)) else target in
        if target =? 0 then
          Some (mkFlowPair s
                  (set_bbr t (set_credit (bbr t) (pacing_credit (bbr t)) (Some (view_release_at v)))),
                Ok packets)
        else
          let (payload, p) := take_pending_server_payload p target in
          let t := set_pending t p in
          if bool_decide (payload = []) then Some (mkFlowPair s t, Ok packets)
          else
            let payload_len := sum_len payload in
            let app_limited :=
              bool_decide (pending_server_data p = []) && (payload_len <? available_window) in
            let seq := server_seq s in
            let flags := Z.lor TCP_FLAG_ACK TCP_FLAG_PSH in
            r ← data_header k s now seq flags payload;
            match r with
            | Err e => Some (mkFlowPair s t, Err e)
            | Ok (header, vnet) =>
              t ← push_unacked_segments t now seq (rcv_nxt s) flags payload mss app_limited;
              let s := set_server_seq s (wadd32 (server_seq s) (payload_len mod 2 ^ 32)) in
              let b := bbr t in
              let b := if view_pacing v
                       then set_credit b (saturating_sub (pacing_credit b) payload_len) (pacing_next_at b)
                       else b in
              flush_loop fuel k v now (mkFlowPair (reset_zero_window_persist s) (set_bbr t b))
                (saturating_sub available_window payload_len)
                (packets ++ [mkDataPacket header payload vnet])
            end
  end.

Definition flush_server_data (k : FlowConst) (v : BbrView) (now : Z) (fl : Flow)
    : option (Flow * outcome (list ServerDataPacket)) :=
  let s := rx_state fl in
  let t := tx_state fl in
  let t := set_bbr t (set_credit (bbr t) (view_credit v) None) in
  let available_window :=
    Z.min (send_window_remaining s) (congestion_window_remaining t (view_cap v) mod 2 ^ 32) in
  flush_loop (S (Z.to_nat (sum_len (pending_server_data (pending t))))) k v now (mkFlowPair s t)
    available_window [].

(** ** The FIN and the probes *)
Definition server_window_stalled (fl : Flow) : bool :=
  (send_window_remaining (rx_state fl) =? 0)
  && negb (bool_decide (pending_server_data (pending (tx_state fl)) = [])).

Definition maybe_emit_server_fin (k : FlowConst) (now : Z) (fl : Flow)
    : option (Flow * outcome (option bytes)) :=
  let s := rx_state fl in
  let t := tx_state fl in
  if negb (server_fin_pending t)
     || negb (bool_decide (pending_server_data (pending t) = []))
     || negb (bool_decide (unacked_server_segments t = []))
     || bool_decide (status s = Closed) || bool_decide (status s = TimeWait)
  then Some (fl, Ok None)
  else
    let flags := Z.lor TCP_FLAG_FIN TCP_FLAG_ACK in
    r ← build_flow_packet k s now (server_seq s) (rcv_nxt s) flags [];
    match r with
    | Err e => Some (fl, Err e)
    | Ok packet =>
      let seq := server_seq s in
      let s := set_server_seq s (wadd32 (server_seq s) 1) in
      let t := set_fin_pending t false in
      let s := match status s with
               | CloseWait => set_flow_status s LastAck now
               | SynReceived | Established => set_flow_status s FinWait1 now
               | FinWait1 | FinWait2 | Closing | LastAck | TimeWait | Closed => s
               end in
      let b := bbr t in
      let g := new_segment (mkStamp (rcv_nxt s) flags now (delivered b) (delivered_at b)
                              (first_tx_mstamp t) true) seq [] in
      let a := acct t in
      let a := mkAcct (pipe_bytes a + 1) (pipe_segments a + 1)
                 (get_or_insert (earliest_unsacked_sent a) now) (unacked_reordered a) in
      Some (mkFlowPair s (set_queue t (unacked_server_segments t ++ [g]) a (first_tx_mstamp t)),
            Ok (Some packet))
    end.

Definition maybe_emit_zero_window_probe (k : FlowConst) (now : Z) (fl : Flow)
    : option (Flow * outcome (option bytes)) :=
  let s := rx_state fl in
  let t := tx_state fl in
  if negb (send_window_remaining s =? 0)
     || bool_decide (pending_server_data (pending t) = [])
     || negb (bool_decide (unacked_server_segments t = []))
     || match next_zero_window_probe_at s with Some deadline => now <? deadline | None => false end
  then Some (fl, Ok None)
  else
    match pending_server_data (pending t) with
    | (probe_byte :: _) :: _ =>
      r ← build_flow_packet k s now (server_seq s) (rcv_nxt s) (Z.lor TCP_FLAG_ACK TCP_FLAG_PSH)
            [probe_byte];
      match r with
      | Err e => Some (fl, Err e)
      | Ok packet =>
        let current := zero_window_probe_backoff s in
        Some (mkFlowPair
                (set_zero_window s (Z.min (current * 2) TCP_ZERO_WINDOW_PROBE_MAX_INTERVAL)
                   (Some (now + current))) t,
              Ok (Some packet))
      end
    | _ => Some (fl, Ok None)
    end.

Definition keepalive_probe_eligible (fl : Flow) : bool :=
  bool_decide (status (rx_state fl) = Established)
  && bool_decide (pending_server_data (pending (tx_state fl)) = [])
  && bool_decide (unacked_server_segments (tx_state fl) = []).
Definition next_keepalive_deadline (fl : Flow) (keepalive_idle : option Z) (keepalive_interval : Z)
    : option Z :=
  idle ← keepalive_idle;
  if negb (keepalive_probe_eligible fl) then None
  else Some (match last_keepalive_probe_at (rx_state fl) with
             | Some last => last + keepalive_interval
             | None => last_seen (rx_state fl) + idle
             end).
Definition maybe_emit_keepalive_probe (k : FlowConst) (now : Z) (fl : Flow)
    (keepalive_idle : option Z) (keepalive_interval : Z) : option (Flow * outcome (option bytes)) :=
  match next_keepalive_deadline fl keepalive_idle keepalive_interval with
  | None => Some (fl, Ok None)
  | Some deadline =>
    if now <? deadline then Some (fl, Ok None)
    else
      let s := rx_state fl in
      let probe_seq := wsub32 (server_seq s) 1 in
      r ← build_flow_ack_packet k s now probe_seq (rcv_nxt s) TCP_FLAG_ACK;
      match r with
      | Err e => Some (fl, Err e)
      | Ok packet =>
        Some (mkFlowPair (set_keepalive s (sat_add 32 (keepalive_probes_sent s) 1) (Some now))
                (tx_state fl), Ok (Some packet))
      end
  end.

Record ServerFlush : Type := mkFlush {
  data_packets : list ServerDataPacket;
  fin_packet : option bytes;
  probe_packet : option bytes;
  window_stalled : bool
}.
Definition flush_server_output (k : FlowConst) (v : BbrView) (now : Z) (fl : Flow)
    : option (Flow * outcome ServerFlush) :=
  if bool_decide (status (rx_state fl) = SynReceived)
  then Some (fl, Ok (mkFlush [] None None false))
  else
    '(fl, data) ← flush_server_data k v now fl;
    match data with
    | Err e => Some (fl, Err e)
    | Ok data =>
      let stalled := server_window_stalled fl in
      '(fl, fin) ← maybe_emit_server_fin k now fl;
      match fin with
      | Err e => Some (fl, Err e)
      | Ok fin =>
        '(fl, probe) ← maybe_emit_zero_window_probe k now fl;
        match probe with
        | Err e => Some (fl, Err e)
        | Ok probe => Some (fl, Ok (mkFlush data fin probe stalled))
        end
      end
    end.

(** ** Retransmission *)
Definition resend (g : ServerSegment) (now rto_retransmits epoch : Z) : ServerSegment :=
  mkServerSegment (s_seq g) (s_ack g) (s_flags g) (s_payload g) now (s_first_sent g)
    (sat_add 32 (s_retransmits g) 1) rto_retransmits epoch
    (s_delivered_snapshot g) (s_delivered_at_snapshot g) (s_first_tx_snapshot g) (s_app_limited g).

(** The segment at [index] marked as resent, the loss noted, the accounting
    rebuilt, and its packet. The acknowledgement number is the larger of the two
    as plain numbers. *)
Definition resend_at (k : FlowConst) (now : Z) (fl : Flow) (index : nat) (g : ServerSegment)
    : option (Flow * outcome (option ServerDataPacket)) :=
  let s := rx_state fl in
  let t := tx_state fl in
  let t := set_queue t (<[index := g]> (unacked_server_segments t)) (acct t) (first_tx_mstamp t) in
  let t := set_bbr t (note_bytes_lost (bbr t) (zlen (s_payload g))) in
  let t := rebuild_unacked_accounting t in
  r ← build_flow_data_header k s now (s_seq g) (Z.max (rcv_nxt s) (s_ack g)) (s_flags g) [s_payload g];
  Some (mkFlowPair s t,
        header ← r; Ok (Some (mkDataPacket header [s_payload g] None))).

Definition retransmit_oldest_unacked_packet (k : FlowConst) (now : Z) (fl : Flow)
    : option (Flow * outcome (option ServerDataPacket)) :=
  let t := tx_state fl in
  match fast_retransmit_index t with
  | None => Some (fl, Ok None)
  | Some index =>
    g ← unacked_server_segments t !! index;
    resend_at k now fl index
      (resend g now (s_rto_retransmits g) (recovery_epoch (recovery t)))
  end.

Definition retransmit_due_segment (k : FlowConst) (now : Z) (fl : Flow)
    : option (Flow * outcome (option ServerDataPacket)) :=
  let t := tx_state fl in
  let due g := retransmission_timeout t <=? elapsed_since now (s_last_sent g) in
  let preferred :=
    match preferred_retransmit_index t with
    | Some index =>
      match unacked_server_segments t !! index with
      | Some g => if due g then Some index else None
      | None => None
      end
    | None => None
    end in
  let index :=
    match preferred with
    | Some index => Some index
    | None =>
      position_of (fun g => negb (server_segment_is_sacked t g) && due g) (unacked_server_segments t)
    end in
  match index with
  | None => Some (fl, Ok None)
  | Some index =>
    g ← unacked_server_segments t !! index;
    resend_at k now fl index
      (resend g now (sat_add 32 (s_rto_retransmits g) 1) (s_fast_retransmit_epoch g))
  end.

Definition retransmit_budget_exhausted (t : SendState) (max_retransmits : Z) : bool :=
  existsb (fun g => negb (server_segment_is_sacked t g) && (max_retransmits <=? s_rto_retransmits g))
    (unacked_server_segments t).

(** ** Chunks and the bytes they make *)
Lemma sum_len_concat chunks : sum_len chunks = zlen (concat chunks).
Proof. induction chunks as [|c chunks IH]; [done|]. cbn [sum_len foldr concat]. rewrite zlen_app. unfold sum_len in IH. lia. Qed.
Lemma sum_len_cons c chunks : sum_len (c :: chunks) = zlen c + sum_len chunks.
Proof. done. Qed.
Lemma sum_len_nonneg' chunks : 0 <= sum_len chunks.
Proof. rewrite sum_len_concat. apply zlen_nonneg. Qed.

Lemma skip_chunks_ok chunks : forall pos start, pos <= start < pos + sum_len chunks ->
  exists pre c rest, chunks = pre ++ c :: rest
    /\ skip_chunks chunks pos start = Some (c :: rest, pos + sum_len pre)
    /\ pos + sum_len pre <= start < pos + sum_len pre + zlen c.
Proof.
  induction chunks as [|c chunks IH]; intros pos start H; cbn [skip_chunks].
  { cbn in H. lia. }
  rewrite sum_len_cons in H. destruct (Z.leb_spec (pos + zlen c) start).
  - destruct (IH (pos + zlen c) start) as (pre & c' & rest & -> & Hs & Hr); [lia|].
    exists (c :: pre), c', rest. rewrite Hs, sum_len_cons. split; [done|]. split; [do 2 f_equal; lia|lia].
  - exists [], c, chunks. split; [done|]. cbn [sum_len foldr]. rewrite Z.add_0_r. split; [done|lia].
Qed.

Lemma copy_chunks_ok chunks : forall pos end_, pos <= end_ <= pos + sum_len chunks ->
  copy_chunks chunks pos end_ = Some (take (Z.to_nat (end_ - pos)) (concat chunks)).
Proof.
  induction chunks as [|c chunks IH]; intros pos end_ H; cbn [copy_chunks].
  - cbn in H. destruct (Z.ltb_spec pos end_); [lia|]. cbn [concat]. by rewrite firstn_nil.
  - rewrite sum_len_cons in H. destruct (Z.ltb_spec pos end_).
    + destruct (Z.le_gt_cases (pos + zlen c) end_).
      * rewrite IH by lia. cbn [mbind option_bind concat]. f_equal.
        rewrite take_app. unfold zlen in *. rewrite !(take_ge c) by lia. do 2 f_equal. lia.
      * assert (Hrest : copy_chunks chunks (pos + zlen c) end_ = Some []).
        { clear IH. destruct chunks; cbn [copy_chunks]; destruct (Z.ltb_spec (pos + zlen c) end_); (done || lia). }
        rewrite Hrest. cbn [mbind option_bind concat]. rewrite app_nil_r, Z.min_l by lia.
        rewrite take_app_le; [done|]. unfold zlen in *. lia.
    + replace (Z.to_nat (end_ - pos)) with 0%nat by lia. done.
Qed.

(** The slice of the chunks is the slice of their concatenation. *)
Lemma slice_chunks_ok chunks start end_ : 0 <= start < end_ -> end_ <= sum_len chunks ->
  slice_chunks chunks start end_ = Some (slice (concat chunks) (Z.to_nat start) (Z.to_nat end_)).
Proof.
  intros H1 H2. unfold slice_chunks.
  destruct (skip_chunks_ok chunks 0 start) as (pre & c & rest & -> & -> & Hr); [lia|].
  cbn [mbind option_bind]. rewrite Z.add_0_l in *. rewrite !sum_len_concat in *.
  rewrite concat_app in *. cbn [concat] in *. rewrite !zlen_app in H2.
  assert (Hdrop : drop (Z.to_nat start) (concat pre ++ c ++ concat rest)
                  = drop (Z.to_nat (start - zlen (concat pre))) c ++ concat rest).
  { rewrite drop_app_ge by (unfold zlen in *; lia). rewrite drop_app_le by (unfold zlen in *; lia).
    do 2 f_equal. unfold zlen in *. lia. }
  assert (Hlen : zlen (drop (Z.to_nat (start - zlen (concat pre))) c) = zlen (concat pre) + zlen c - start)
    by (unfold zlen in *; rewrite length_drop; lia).
  unfold slice at 2. rewrite Hdrop. destruct (Z.leb_spec end_ (zlen (concat pre) + zlen c)).
  - f_equal. rewrite take_app_le by (unfold zlen in *; lia). unfold slice. f_equal. lia.
  - rewrite copy_chunks_ok by (rewrite sum_len_concat; lia). cbn [mbind option_bind]. f_equal.
    rewrite take_app_ge by (unfold zlen in *; lia). do 2 f_equal. unfold zlen in *. lia.
Qed.

Lemma take_chunks_ok data : forall room left_, let (taken, rest) := take_chunks room left_ data in
  concat taken ++ concat rest = concat data /\ sum_len taken <= Z.max 0 room
  /\ Forall (fun c => c <> []) taken.
Proof.
  induction data as [|front data IH]; intros room left_; cbn [take_chunks]; [cbn; split; [done|split; [lia|constructor]]|].
  destruct (Z.ltb_spec 0 room); [|cbn; split; [done|split; [lia|constructor]]].
  destruct (left_ =? 0)%nat; cbn [andb negb]; [cbn; split; [done|split; [lia|constructor]]|].
  case_bool_decide as Hf; [subst front; apply IH|].
  set (n := Z.min (zlen front) room).
  assert (Hn : 0 < n) by (unfold n, zlen; destruct front; [done|simpl; lia]).
  assert (Hzn : zlen (take (Z.to_nat n) front) = n)
    by (apply zlen_take; pose proof (zlen_nonneg front); unfold n; lia).
  assert (Hpiece : take (Z.to_nat n) front <> []) by (intros E; rewrite E, zlen_nil in Hzn; clearbody n; lia).
  case_bool_decide as Hl.
  - specialize (IH (room - n) (left_ - 1)%nat).
    destruct (take_chunks (room - n) (left_ - 1) data) as [taken rest]. destruct IH as (H1 & H2 & H3).
    cbn [concat]. split; [|split; [rewrite sum_len_cons; lia|by constructor]].
    rewrite <- app_assoc, H1. f_equal. by rewrite <- (take_drop (Z.to_nat n) front), Hl, app_nil_r, take_take, Nat.min_id.
  - cbn [concat]. split; [by rewrite app_nil_r, app_assoc, take_drop|]. split; [|by constructor].
    rewrite sum_len_cons. cbn [sum_len foldr]. lia.
Qed.

Lemma take_chunks_some data room left_ : 0 < room -> (0 < left_)%nat -> concat data <> [] ->
  (take_chunks room left_ data).1 <> [].
Proof.
  intros Hr Hl. induction data as [|front data IH]; [done|]. cbn [take_chunks].
  destruct (Z.ltb_spec 0 room); [|lia]. destruct (Nat.eqb_spec left_ 0); [lia|]. cbn [andb negb].
  case_bool_decide; [subst; exact IH|]. intros _. case_bool_decide; [|done].
  destruct (take_chunks (room - _) _ data). discriminate.
Qed.

(** ** The accounting under a push *)
Lemma pipe_of_app sk a b : pipe_of sk (a ++ b) = pipe_of sk a + pipe_of sk b.
Proof. induction a as [|g a IH]; cbn [app pipe_of]; lia. Qed.
Lemma count_of_app sk a b : count_of sk (a ++ b) = count_of sk a + count_of sk b.
Proof. induction a as [|g a IH]; cbn [app count_of]; lia. Qed.
Lemma earliest_of_app sk a b : earliest_of sk (a ++ b) = min_option (earliest_of sk a) (earliest_of sk b).
Proof.
  induction a as [|g a IH]; [done|]. cbn [app earliest_of]. rewrite IH.
  destruct (sk g), (earliest_of sk a), (earliest_of sk b); cbn; f_equal; lia.
Qed.

(** Segments sent at [now], none of them reported. *)
Definition fresh_segments (sk : ServerSegment -> bool) (now : Z) (segs : list ServerSegment) : Prop :=
  Forall (fun g => sk g = false /\ s_last_sent g = now) segs.

Lemma fresh_scan sk now segs : fresh_segments sk now segs ->
  pipe_of sk segs = foldr Z.add 0 (map server_segment_len segs) /\ count_of sk segs = zlen segs
  /\ earliest_of sk segs = (if bool_decide (segs = []) then None else Some now).
Proof.
  induction 1 as [|g segs [Hg Ht] _ (IH1 & IH2 & IH3)]; [done|]. cbn [pipe_of count_of earliest_of map foldr].
  rewrite Hg, IH1, IH2, IH3, Ht, zlen_cons. split; [done|]. split; [done|].
  rewrite (bool_decide_false (g :: segs = [])) by done.
  case_bool_decide; cbn; [done|]. f_equal. lia.
Qed.

Lemma disordered_fresh sk now segs p : fresh_segments sk now segs -> p <= now ->
  disordered (Some p) segs = false.
Proof.
  intros H. revert p. induction H as [|g segs [_ Hg] _ IH]; intros p Hp; [done|]. cbn [disordered].
  rewrite Hg. apply orb_false_iff. split; [lia|apply IH; lia].
Qed.
Lemma disordered_append sk now a b p : fresh_segments sk now b ->
  Forall (fun g => s_last_sent g <= now) a -> (match p with Some p => p <= now | None => True end) ->
  disordered p a = false -> disordered p (a ++ b) = false.
Proof.
  intros Hb Ha. revert p. induction Ha as [|g a Hg _ IH]; intros p Hp Hd; cbn [app].
  - destruct p as [p|]; [by eapply disordered_fresh|]. eapply disordered_none, disordered_fresh; done.
  - cbn [disordered] in *. apply orb_false_iff in Hd as [Hd1 Hd2]. rewrite Hd1. by apply IH.
Qed.

Lemma exact_append sk now a segs new_ : exact a sk segs -> fresh_segments sk now new_ -> new_ <> [] ->
  Forall (fun g => s_last_sent g <= now) segs ->
  exact (mkAcct (pipe_bytes a + foldr Z.add 0 (map server_segment_len new_)) (pipe_segments a + zlen new_)
           (get_or_insert (earliest_unsacked_sent a) now) (unacked_reordered a)) sk (segs ++ new_).
Proof.
  intros [H1 H2 H3 H4] Hf Hn Hs. destruct (fresh_scan _ _ _ Hf) as (Hp & Hc & He).
  rewrite bool_decide_false in He by done.
  split; cbn [pipe_bytes pipe_segments earliest_unsacked_sent unacked_reordered].
  - by rewrite pipe_of_app, H1, Hp.
  - by rewrite count_of_app, H2, Hc.
  - rewrite earliest_of_app, He, H3. destruct (earliest_of sk segs) as [e|] eqn:E; [|done].
    cbn. f_equal. assert (Hle : e <= now); [|lia]. clear -Hs E.
    revert e E. induction Hs as [|g segs Hg _ IH]; intros e E; [done|]. cbn in E.
    destruct (sk g); cbn in E; [by apply IH|]. destruct (earliest_of sk segs); injection E as <-; lia.
  - intros Hr. by eapply disordered_append; [..|apply H4].
Qed.

(** ** The segments of one write *)
Section write.
Context (isn : Z).

(** A segment of the stream: its bytes at its place, a FIN only past the end. *)
Record seg_of (out : bytes) (x : sent) : Prop := {
  sg_pos : 0 <= x.1;
  sg_end : x.1 + zlen (s_payload x.2) <= zlen out;
  sg_payload : s_payload x.2 = sub out x.1 (x.1 + zlen (s_payload x.2));
  sg_syn : has_flag (s_flags x.2) TCP_FLAG_SYN = false;
  sg_fin : has_flag (s_flags x.2) TCP_FLAG_FIN = true -> s_payload x.2 = [] /\ x.1 = zlen out
}.

Lemma cut_segments_ok w chunks mss p0 : 0 < mss <= 2 ^ 16 ->
  has_flag (w_flags w) TCP_FLAG_SYN = false -> has_flag (w_flags w) TCP_FLAG_FIN = false ->
  let total := sum_len chunks in
  forall fuel offset, 0 <= offset <= total -> (Z.to_nat (total - offset) < fuel)%nat ->
  exists qs, cut_segments fuel w chunks mss total offset (sq isn (p0 + offset)) = Some (qs.*2)
    /\ chain isn (p0 + offset) qs (p0 + total)
    /\ (offset < total -> qs <> [])
    /\ Forall (fun x => x.2 = new_segment w (s_seq x.2) (s_payload x.2)
         /\ s_payload x.2 = slice (concat chunks) (Z.to_nat (x.1 - p0)) (Z.to_nat (sent_end x - p0))
         /\ zlen (s_payload x.2) = server_segment_len x.2
         /\ p0 + offset <= x.1 /\ sent_end x <= p0 + total) qs.
Proof.
  intros Hm Hsyn Hfin total. induction fuel as [|fuel IH]; intros offset Ho Hf; [lia|]. cbn [cut_segments].
  destruct (Z.ltb_spec offset total) as [Hlt|Hge].
  2:{ exists []. split; [done|]. split; [cbn; lia|]. split; [lia|constructor]. }
  set (end_ := Z.min (offset + mss) total). assert (He : offset < end_ <= total /\ end_ <= offset + mss) by lia.
  rewrite slice_chunks_ok by (fold total; lia). cbn [mbind option_bind].
  rewrite wadd32_sq_mod. replace (p0 + offset + (end_ - offset)) with (p0 + end_) by lia.
  destruct (IH end_) as (qs & -> & Hc & _ & Hq); [lia|lia|]. cbn [mbind option_bind].
  set (payload := slice (concat chunks) _ _).
  assert (Hpl : zlen payload = end_ - offset).
  { unfold payload, zlen. rewrite slice_length; [lia|lia|]. unfold total in *. rewrite sum_len_concat in *.
    unfold zlen in *. lia. }
  set (g := new_segment w (sq isn (p0 + offset)) payload).
  assert (Hlen : server_segment_len g = end_ - offset).
  { unfold server_segment_len, g. cbn [new_segment s_payload s_flags]. rewrite Hsyn, Hfin. lia. }
  exists ((p0 + offset, g) :: qs). split; [done|].
  assert (Hse : sent_end (p0 + offset, g) = p0 + end_) by (unfold sent_end; cbn [fst snd]; lia).
  split; [cbn [chain fst snd]; rewrite Hse; repeat split; try done; lia|]. split; [done|].
  constructor.
  - cbn [fst snd]. rewrite Hse. split; [done|]. split; [|split; [cbn; lia|lia]].
    cbn [g new_segment s_payload]. unfold payload. f_equal; f_equal; lia.
  - eapply Forall_impl; [exact Hq|]. intros x (H1 & H2 & H3 & H4 & H5). repeat split; (done || lia).
Qed.
End write.

(** ** The builders succeed *)
Definition key_ok (k : FlowConst) : Prop :=
  family_ok (key_version k) (key_remote_ip k) /\ family_ok (key_version k) (key_client_ip k).

Lemma default_aligned k s now :
  (length (encode_items (ts_items k s now)) mod 4 = 0)%nat.
Proof. destruct (default_options_eq k s now) as [_ ->]. by destruct (timestamps_enabled s). Qed.

Lemma data_header_custom_ok k f parts : key_ok k -> (length (f_options f) mod 4 = 0)%nat ->
  exists h, build_data_header_custom (key_version k) (key_remote_ip k) (key_client_ip k) f parts = Ok h.
Proof.
  intros [Hr Hc] Ho. unfold build_data_header_custom.
  destruct (key_version k), (key_remote_ip k), (key_client_ip k); try done;
    [rewrite build_ipv4_eq by done|rewrite build_ipv6_eq by done]; eauto.
Qed.

Lemma flow_data_header_ok k s now seq ack flags parts : key_ok k ->
  exists h, build_flow_data_header k s now seq ack flags parts = Some (Ok h).
Proof.
  intros Hk. unfold build_flow_data_header. rewrite (proj1 (default_options_eq k s now)).
  cbn [mbind option_bind].
  destruct (data_header_custom_ok k (flow_fields k s seq ack flags (encode_items (ts_items k s now))) parts)
    as [h ->]; [done|apply default_aligned|]. by exists h.
Qed.

Lemma flow_packet_ok k s now seq ack flags payload : key_ok k ->
  exists p, build_flow_packet k s now seq ack flags payload = Some (Ok p).
Proof.
  intros Hk. unfold build_flow_packet, build_flow_packet_with_options.
  rewrite (proj1 (default_options_eq k s now)). cbn [mbind option_bind]. rewrite build_response_eq.
  destruct (data_header_custom_ok k (flow_fields k s seq ack flags (encode_items (ts_items k s now))) [payload])
    as [h ->]; [done|apply default_aligned|]. cbn [mbind result_bind]. by exists (h ++ payload).
Qed.

Lemma packet_with_options_ok k s seq ack flags o payload : key_ok k -> (length o mod 4 = 0)%nat ->
  exists p, build_flow_packet_with_options k s seq ack flags o payload = Ok p.
Proof.
  intros Hk Ho. unfold build_flow_packet_with_options. rewrite build_response_eq.
  destruct (data_header_custom_ok k (flow_fields k s seq ack flags o) [payload] Hk Ho) as [h ->].
  by exists (h ++ payload).
Qed.
Lemma flow_ack_ok k s now seq ack flags : key_ok k ->
  exists p, build_flow_ack_packet k s now seq ack flags = Some (Ok p).
Proof.
  intros Hk. unfold build_flow_ack_packet. rewrite ack_options_eq. cbn [mbind option_bind].
  destruct (packet_with_options_ok k s seq ack flags
    (encode_items (ts_items k s now ++ sack_items (blocks_sent k s))) [] Hk) as [p ->]; [|by exists p].
  apply ack_options_size.
Qed.
Lemma flow_syn_ack_ok k s now isn ack : key_ok k ->
  exists p, build_flow_syn_ack_packet k s now isn ack = Some (Ok p).
Proof.
  intros Hk. unfold build_flow_syn_ack_packet.
  assert (Ho : exists o, syn_ack_options k s now = Some o /\ (length o mod 4 = 0)%nat).
  { unfold syn_ack_options, append_timestamp_option. destruct (client_sack_permitted k), (timestamps_enabled s);
      explode_be; eexists; (split; [reflexivity|reflexivity]). }
  destruct Ho as (o & -> & Ho). cbn [mbind option_bind].
  destruct (packet_with_options_ok k s isn ack (Z.lor TCP_FLAG_SYN TCP_FLAG_ACK) o [] Hk Ho) as [p ->].
  by exists p.
Qed.

Lemma gso_flow_header_ok k s now seq ack flags mss n : key_ok k ->
  exists h v, build_gso_flow_header k s now seq ack flags mss n = Some (Ok (h, v)).
Proof.
  intros [Hr Hc]. unfold build_gso_flow_header, build_gso_tcp_header.
  rewrite (proj1 (default_options_eq k s now)). cbn [mbind option_bind].
  pose proof (default_aligned k s now) as Ha.
  destruct (key_version k), (key_remote_ip k), (key_client_ip k); try done.
  - rewrite build_ipv4_eq by done. cbn [mbind result_bind]. eauto.
  - rewrite build_ipv6_eq by done. cbn [mbind result_bind]. eauto.
Qed.

(** ** The run of the send side *)
Section run.
Context (isn : Z) (k : FlowConst).

(** A packet to the client: its payload is the stream's at the position its
    header's sequence number stands for. *)
Definition carries (out : bytes) (pkt : ServerDataPacket) : Prop :=
  exists p s now ack flags,
    0 <= p /\ p + sum_len (d_payload pkt) <= zlen out
    /\ concat (d_payload pkt) = sub out p (p + sum_len (d_payload pkt))
    /\ match d_vnet pkt with
       | None => build_flow_data_header k s now (sq isn p) ack flags (d_payload pkt) = Some (Ok (d_header pkt))
       | Some v =>
         build_gso_flow_header k s now (sq isn p) ack flags (server_max_segment_payload k)
           (Z.to_nat (sum_len (d_payload pkt))) = Some (Ok (d_header pkt, v))
       end.

Definition pending_ok (p : PendingServer) (rest : bytes) : Prop :=
  concat (pending_server_data p) = rest /\ pending_server_bytes_total p = zlen rest
  /\ budget_share p = zlen rest.

(** [out] is the whole of the upstream's stream, [w] how much of it was read,
    [d] how much was sent and [fin] whether the FIN was; [edge] is the client's
    window edge. *)
Record tx_ok (out : bytes) (w clock una d : Z) (fin : bool) (edge : Z) (qs : list sent) (l : list span)
    (fl : Flow) : Prop := {
  tx_send : send_ok isn una (d + (if fin then 1 else 0)) qs l (tx_state fl);
  tx_seq : server_seq (rx_state fl) = sq isn (d + (if fin then 1 else 0));
  tx_una : 0 <= una;
  tx_sent : 0 <= d <= w /\ w <= zlen out;
  tx_pending : pending_ok (pending (tx_state fl)) (sub out d w);
  tx_fin : fin = true -> d = zlen out /\ server_fin_pending (tx_state fl) = false;
  tx_eof : server_fin_pending (tx_state fl) = true -> w = zlen out;
  tx_status : fin = server_fin_sent (status (rx_state fl));
  tx_open : status (rx_state fl) = SynReceived -> qs = [];
  tx_segs : Forall (seg_of out) qs;
  tx_clock : Forall (fun x => s_last_sent x.2 <= clock) qs;
  tx_edge : client_window_end (rx_state fl) = sq isn edge /\ d - 2 ^ 30 - SLACK <= edge <= una + 2 ^ 30
}.

Lemma mss_range : 0 < server_max_segment_payload k <= 1200.
Proof. unfold server_max_segment_payload, MAX_SERVER_SEGMENT_PAYLOAD. lia. Qed.

Lemma foldl_discharge (chunks : list bytes) p (rest' rest : bytes) : concat chunks ++ rest = rest' ->
  pending_server_bytes_total p = zlen rest' -> budget_share p = zlen rest' ->
  let p' := foldl discharge_pending_server p (map (@zlen byte) chunks) in
  pending_server_data p' = pending_server_data p
  /\ pending_server_bytes_total p' = zlen rest /\ budget_share p' = zlen rest.
Proof.
  revert p rest'. induction chunks as [|c chunks IH]; intros p rest' <- Ht Hb; [done|].
  cbn [concat map foldl] in *. rewrite <- app_assoc in *. rewrite zlen_app in Ht, Hb.
  pose proof (zlen_nonneg c). pose proof (zlen_nonneg (concat chunks ++ rest)).
  destruct (IH (discharge_pending_server p (zlen c)) _ eq_refl) as (H1 & H2 & H3);
    [cbn; lia|cbn; lia|]. by rewrite H1.
Qed.

Lemma take_pending_ok p rest target : pending_ok p rest -> 0 < target -> rest <> [] ->
  let (payload, p') := take_pending_server_payload p target in
  payload <> [] /\ 0 < sum_len payload <= target /\ concat payload ++ concat (pending_server_data p') = rest
  /\ pending_ok p' (concat (pending_server_data p')).
Proof.
  intros (Hc & Ht & Hb) Htg Hr. unfold take_pending_server_payload.
  pose proof (take_chunks_ok (pending_server_data p) target MAX_WRITE_PAYLOAD_CHUNKS) as Hk.
  pose proof (take_chunks_some (pending_server_data p) target MAX_WRITE_PAYLOAD_CHUNKS Htg) as Hs.
  destruct (take_chunks target MAX_WRITE_PAYLOAD_CHUNKS (pending_server_data p)) as [taken rest_]. cbn [fst] in Hs.
  destruct Hk as (H1 & H2 & H3). rewrite Hc in H1, Hs. specialize (Hs ltac:(unfold MAX_WRITE_PAYLOAD_CHUNKS; lia) Hr).
  destruct (foldl_discharge taken (mkPending rest_ (pending_server_bytes_total p) (budget_share p))
    rest (concat rest_) H1 Ht Hb) as (Hd & Hd1 & Hd2).
  cbn [pending_server_data] in Hd. rewrite Hd. split; [done|]. split.
  { split; [|lia]. destruct taken as [|c taken]; [done|]. apply Forall_cons in H3 as [Hc3 _].
    rewrite sum_len_cons. pose proof (sum_len_nonneg' taken). unfold zlen. destruct c; [done|simpl; lia]. }
  split; [done|]. unfold pending_ok. by rewrite Hd.
Qed.

Lemma send_flight una nxt nxt' qs new_ l t t' :
  send_ok isn una nxt qs l t -> chain isn nxt new_ nxt' -> nxt' <= una + 2 ^ 30 ->
  unacked_server_segments t' = (qs ++ new_).*2 -> sack_scoreboard t' = sack_scoreboard t ->
  recovery t' = recovery t -> accounting_exact t' -> send_ok isn una nxt' (qs ++ new_) l t'.
Proof.
  intros [Hq (a & Hc & Ha) Hp Hb Hr Hl Hf Hex] Hn Hle Hq' Hb' Hr' Hex'. pose proof (chain_le _ _ _ _ Hn).
  split; try done.
  - exists a. split; [|done]. apply chain_app. by exists nxt.
  - apply Forall_app. split; [done|]. eapply Forall_impl; [exact (chain_bounds _ _ _ _ Hn)|]. simpl. lia.
  - by rewrite Hb'.
  - destruct Hr as [Hs Hrg]. split; [done|]. eapply Forall_impl; [exact Hrg|]. simpl. lia.
  - by rewrite Hr'.
  - lia.
Qed.

(** Segments past everything sent are not reported. *)
Lemma fresh_unsacked una nxt nxt' qs new_ l t now : send_ok isn una nxt qs l t -> chain isn nxt new_ nxt' ->
  nxt' <= una + 2 ^ 30 -> Forall (fun x => s_last_sent x.2 = now) new_ ->
  fresh_segments (sacked (sack_scoreboard t)) now (new_.*2).
Proof.
  intros Hs Hn Hle Ht. pose proof (so_ranges _ _ _ _ _ _ Hs) as [Hsrt Hrg].
  pose proof (so_flight _ _ _ _ _ _ Hs) as Hfl.
  unfold fresh_segments. rewrite Forall_map. eapply Forall_impl2; [exact (chain_bounds _ _ _ _ Hn)|exact Ht|].
  intros x (Hx & Hx1 & Hx2 & Hx3) Hlast. split; [|done].
  apply not_true_iff_false. rewrite (so_board _ _ _ _ _ _ Hs).
  assert (Hok : board_ok (una - 2 ^ 28) nxt' l).
  { split; [done|]. eapply Forall_impl; [exact Hrg|]. unfold SLACK. simpl. lia. }
  unfold SLACK in *. rewrite (sacked_at isn (una - 2 ^ 28) nxt') by (done || lia).
  intros (y & Hy & [_ Hyh])%Exists_exists. rewrite Forall_forall in Hrg. specialize (Hrg y Hy). lia.
Qed.

Lemma push_ok una nxt qs l t now ack flags chunks app out :
  send_ok isn una nxt qs l t -> 0 <= nxt -> Forall (fun x => s_last_sent x.2 <= now) qs ->
  has_flag flags TCP_FLAG_SYN = false -> has_flag flags TCP_FLAG_FIN = false ->
  0 < sum_len chunks -> nxt + sum_len chunks <= una + 2 ^ 30 -> nxt + sum_len chunks <= zlen out ->
  concat chunks = sub out nxt (nxt + sum_len chunks) ->
  exists t' new_,
    push_unacked_segments t now (sq isn nxt) ack flags chunks (server_max_segment_payload k) app = Some t'
    /\ send_ok isn una (nxt + sum_len chunks) (qs ++ new_) l t'
    /\ Forall (seg_of out) new_ /\ Forall (fun x => s_last_sent x.2 <= now) new_
    /\ pending t' = pending t /\ server_fin_pending t' = server_fin_pending t
    /\ pacing_credit (bbr t') = pacing_credit (bbr t).
Proof.
  intros Hs H0 Hold Hsyn Hfin Hpos Hroom Hout Hcat. unfold push_unacked_segments.
  set (w := mkStamp _ _ _ _ _ _ _). pose proof mss_range as Hmss.
  destruct (cut_segments_ok isn w chunks (server_max_segment_payload k) nxt ltac:(lia) Hsyn Hfin
    (S (Z.to_nat (sum_len chunks))) 0) as (new_ & Hcut & Hc & Hne & Hall); [lia|lia|].
  rewrite Z.add_0_r in *. rewrite Hcut. cbn [mbind option_bind].
  assert (Hlast : Forall (fun x => s_last_sent x.2 = now) new_).
  { eapply Forall_impl; [exact Hall|]. intros x (-> & _). done. }
  pose proof (fresh_unsacked _ _ _ _ _ _ _ _ Hs Hc Hroom Hlast) as Hfresh.
  eexists _, new_. split; [done|]. split; [|split; [|split; [|by split; [|split; [|destruct (_ =? _)]]]]].
  - apply (send_flight una nxt (nxt + sum_len chunks) qs new_ l t); try done.
    { cbn [set_bbr set_recovery set_queue unacked_server_segments].
      by rewrite (so_queue _ _ _ _ _ _ Hs), fmap_app. }
    apply exact_iff. pose proof (proj1 (exact_iff t) (so_exact _ _ _ _ _ _ Hs)) as Hex.
    cbn [set_bbr set_recovery set_queue unacked_server_segments acct sack_scoreboard].
    assert (Hsum : sum_len (map s_payload (new_.*2)) = foldr Z.add 0 (map server_segment_len (new_.*2))).
    { clear -Hall. induction Hall as [|x new_ (_ & _ & Hl & _) _ IH]; [done|].
      cbn [fmap list_fmap map foldr]. rewrite sum_len_cons. unfold fmap in *. lia. }
    rewrite Hsum. apply exact_append; try done.
    + intros Hnil. apply fmap_nil_inv in Hnil. by apply Hne in Hnil.
    + rewrite (so_queue _ _ _ _ _ _ Hs), Forall_map. done.
  - eapply Forall_impl2; [exact Hall|exact (chain_bounds _ _ _ _ Hc)|].
    intros x (Hx & Hpl & Hpn & Hx1 & Hx2) (_ & Hb1 & _).
    assert (Hse : sent_end x = x.1 + zlen (s_payload x.2)) by (unfold sent_end; lia).
    assert (Hflags : s_flags x.2 = flags) by (by rewrite Hx).
    split.
    + lia.
    + lia.
    + rewrite Hpl at 1. rewrite Hcat. rewrite slice_sub by (unfold len; lia). rewrite Hse. f_equal; lia.
    + by rewrite Hflags.
    + by rewrite Hflags, Hfin.
  - eapply Forall_impl; [exact Hlast|]. simpl. lia.
Qed.

Hypothesis key : key_ok k.

Lemma data_header_ok out s now p flags payload : server_seq s = sq isn p -> 0 <= p ->
  p + sum_len payload <= zlen out -> concat payload = sub out p (p + sum_len payload) ->
  exists h v, data_header k s now (server_seq s) flags payload = Some (Ok (h, v))
    /\ carries out (mkDataPacket h payload v).
Proof.
  intros Hs Hp Hl Hc. unfold data_header. pose proof mss_range as Hm. rewrite Hs.
  assert (Hcar : forall h v, match v with
      | None => build_flow_data_header k s now (sq isn p) (rcv_nxt s) flags payload = Some (Ok h)
      | Some v => build_gso_flow_header k s now (sq isn p) (rcv_nxt s) flags (server_max_segment_payload k)
                    (Z.to_nat (sum_len payload)) = Some (Ok (h, v)) end ->
      carries out (mkDataPacket h payload v)).
  { intros h v Hv. exists p, s, now, (rcv_nxt s), flags. cbn [d_payload d_vnet d_header].
    by split; [|split; [|split]]. }
  rewrite Z.mod_small by lia. destruct (_ && _).
  - destruct (gso_flow_header_ok k s now (sq isn p) (rcv_nxt s) flags (server_max_segment_payload k)
      (Z.to_nat (sum_len payload)) key) as (h & v & Hg).
    rewrite Hg. cbn [mbind option_bind result_bind]. exists h, (Some v). split; [done|]. by apply Hcar.
  - destruct (flow_data_header_ok k s now (sq isn p) (rcv_nxt s) flags payload key) as [h Hg].
    rewrite Hg. cbn [mbind option_bind result_bind]. exists h, None. split; [done|]. by apply Hcar.
Qed.

Lemma pop_empty_concat data : concat (pop_empty data) = concat data.
Proof. induction data as [|[|b c] data IH]; [done|exact IH|done]. Qed.
Lemma pop_empty_nil data : pop_empty data = [] <-> concat data = [].
Proof. induction data as [|[|b c] data IH]; [done|exact IH|done]. Qed.

(** What the send side leaves of the receive path's state. *)
Record rx_kept (s s' : TcpFlowState) : Prop := {
  kp_rcv : rcv_nxt s' = rcv_nxt s;
  kp_data : pending_client_data s' = pending_client_data s;
  kp_segs : pending_client_segments s' = pending_client_segments s;
  kp_capacity : receive_window_capacity s' = receive_window_capacity s;
  kp_closed : client_fin_seen (status s') = client_fin_seen (status s);
  kp_wend : client_window_end s' = client_window_end s;
  kp_ts : timestamps_enabled s' = timestamps_enabled s
}.
#[export] Instance rx_kept_refl : Reflexive rx_kept.
Proof. by split. Qed.
#[export] Instance rx_kept_trans : Transitive rx_kept.
Proof. intros ??? [] []. split; congruence. Qed.

Lemma tx_pop_empty out w clock una d fin edge qs l fl : tx_ok out w clock una d fin edge qs l fl ->
  let p := pending (tx_state fl) in
  tx_ok out w clock una d fin edge qs l
    (mkFlowPair (rx_state fl)
       (set_pending (tx_state fl) (mkPending (pop_empty (pending_server_data p))
          (pending_server_bytes_total p) (budget_share p)))).
Proof.
  intros [Hs Hq Hu Hd (Hp1 & Hp2 & Hp3) Hf Hw Hst Hop Hg Hc He] p. split; try done; [by destruct Hs; split|].
  split; [|done]. cbn. by rewrite pop_empty_concat.
Qed.

Lemma flush_loop_ok v now una edge l w fuel : forall fl d fin qs avail packets out,
  tx_ok out w now una d fin edge qs l fl ->
  0 <= avail <= Z.max 0 (edge - (d + if fin then 1 else 0)) ->
  status (rx_state fl) <> SynReceived ->
  0 <= pacing_credit (bbr (tx_state fl)) -> (Z.to_nat (w - d) < fuel)%nat ->
  Forall (carries out) packets ->
  exists fl' packets' d' qs', flush_loop fuel k v now fl avail packets = Some (fl', Ok packets')
    /\ tx_ok out w now una d' fin edge qs' l fl' /\ d <= d' <= Z.max d edge
    /\ Forall (carries out) packets' /\ rx_kept (rx_state fl) (rx_state fl')
    /\ status (rx_state fl') = status (rx_state fl)
    /\ server_fin_pending (tx_state fl') = server_fin_pending (tx_state fl).
Proof.
  induction fuel as [|fuel IH]; intros fl d fin qs avail packets out Htx Hav Hopen Hcr Hfuel Hpk; [lia|].
  cbn [flush_loop].
  assert (Hstop : forall fl', tx_ok out w now una d fin edge qs l fl' -> rx_state fl' = rx_state fl ->
    server_fin_pending (tx_state fl') = server_fin_pending (tx_state fl) ->
    exists fl'' packets' d' qs', Some (fl', @Ok String.string _ packets) = Some (fl'', Ok packets')
      /\ tx_ok out w now una d' fin edge qs' l fl'' /\ d <= d' <= Z.max d edge
      /\ Forall (carries out) packets' /\ rx_kept (rx_state fl) (rx_state fl'')
      /\ status (rx_state fl'') = status (rx_state fl)
      /\ server_fin_pending (tx_state fl'') = server_fin_pending (tx_state fl)).
  { intros fl' Hfl' Hrx Hfp. exists fl', packets, d, qs. rewrite Hrx. do 2 (split; [done|]). split; [lia|]. by split. }
  destruct (Z.ltb_spec 0 avail) as [Hpos|]; cbn [negb]; [|by apply Hstop].
  pose proof (tx_pop_empty _ _ _ _ _ _ _ _ _ _ Htx) as Htx1. cbn zeta in Htx1.
  set (p1 := mkPending _ _ _) in *. set (t1 := set_pending _ p1) in *.
  case_bool_decide as Hemp; [by apply Hstop|].
  assert (Hcred : pacing_credit (bbr t1) = pacing_credit (bbr (tx_state fl))) by done.
  set (target := if view_pacing v then _ else _).
  assert (Htg : 0 <= target <= avail).
  { pose proof mss_range. unfold target, GSO_MAX_SUPER_SEGMENT_PAYLOAD.
    destruct (gso_enabled k), (view_pacing v); lia. }
  clearbody target. destruct (Z.eqb_spec target 0) as [_|Htz].
  { apply Hstop; [|done|done]. destruct Htx1 as [[] ? ? ? ? ? ? ? ? ? ? ?]. by split; [split|..]. }
  pose proof (tx_pending _ _ _ _ _ _ _ _ _ _ Htx1) as Hpend.
  pose proof (tx_sent _ _ _ _ _ _ _ _ _ _ Htx) as Hd.
  assert (Hrest : sub out d w <> []).
  { destruct Hpend as (Hpc & _). rewrite <- Hpc. intros Hn.
    change (concat (pop_empty (pending_server_data (pending (tx_state fl)))) = []) in Hn.
    rewrite pop_empty_concat in Hn.
    by apply pop_empty_nil in Hn. }
  pose proof (take_pending_ok p1 _ target Hpend ltac:(lia) Hrest) as Htake.
  destruct (take_pending_server_payload p1 target) as [payload p2].
  destruct Htake as (Hne & Hn & Hcat & Hp2). rewrite bool_decide_false by done.
  destruct fin.
  { destruct (tx_fin _ _ _ _ _ _ _ _ _ _ Htx eq_refl) as [-> _].
    replace w with (zlen out) in Hrest by lia. by rewrite sub_nil in Hrest. }
  rewrite Z.add_0_r in *. set (n := sum_len payload) in *.
  assert (Hnl : n + zlen (concat (pending_server_data p2)) = w - d).
  { unfold n. rewrite sum_len_concat, <- zlen_app, Hcat. apply sub_length; unfold len; lia. }
  pose proof (zlen_nonneg (concat (pending_server_data p2))) as Hp2n.
  assert (Hpay : concat payload = sub out d (d + n) /\ concat (pending_server_data p2) = sub out (d + n) w).
  { rewrite <- (sub_app out d (d + n) w) in Hcat by (unfold len; lia). apply app_inj_1 in Hcat; [done|].
    pose proof (sub_length out d (d + n) ltac:(lia) ltac:(unfold len; lia)) as Hsl.
    unfold n in *. rewrite sum_len_concat in *. unfold zlen in *. lia. }
  destruct Hpay as [Hpay Hrest2].
  pose proof (tx_seq _ _ _ _ _ _ _ _ _ _ Htx) as Hseq. cbn [rx_state] in *. rewrite Z.add_0_r in Hseq.
  destruct (data_header_ok out (rx_state fl) now d (Z.lor TCP_FLAG_ACK TCP_FLAG_PSH) payload Hseq) as
    (h & vn & Hh & Hcar); [lia|fold n; lia|done|].
  rewrite Hh. cbn [mbind option_bind]. cbn beta iota.
  pose proof (tx_send _ _ _ _ _ _ _ _ _ _ Htx1) as Hsend. cbn [tx_state] in Hsend. rewrite Z.add_0_r in Hsend.
  pose proof (tx_edge _ _ _ _ _ _ _ _ _ _ Htx) as [Hedge He].
  destruct (push_ok una d qs l (set_pending t1 p2) now (rcv_nxt (rx_state fl))
    (Z.lor TCP_FLAG_ACK TCP_FLAG_PSH) payload
    (bool_decide (pending_server_data p2 = []) && (n <? avail)) out) as
    (t2 & new_ & Hpush & Hsend2 & Hsegs & Hlast & Hp & Hf & Hc); try done; [by destruct Hsend; split|lia|
      by apply (tx_clock _ _ _ _ _ _ _ _ _ _ Htx)|fold n; lia|fold n; lia|fold n; lia|].
  rewrite Hseq, Hpush. cbn [mbind option_bind]. fold n.
  set (b := if view_pacing v then _ else _).
  destruct (IH (mkFlowPair (reset_zero_window_persist (set_server_seq (rx_state fl) (wadd32 (sq isn d) (n mod 2 ^ 32))))
                 (set_bbr t2 b)) (d + n) false (qs ++ new_) (saturating_sub avail n)
               (packets ++ [mkDataPacket h payload vn]) out) as (fl' & packets' & d' & qs' & Hrun & Htx' & Hd' & Hpk' & Hk' & Hst' & Hfp').
  - split; cbn [rx_state tx_state]; rewrite ?Z.add_0_r.
    + by destruct Hsend2; split.
    + cbn. apply wadd32_sq_mod.
    + apply (tx_una _ _ _ _ _ _ _ _ _ _ Htx).
    + lia.
    + cbn. rewrite Hp. cbn. by rewrite <- Hrest2.
    + done.
    + cbn. rewrite Hf. apply (tx_eof _ _ _ _ _ _ _ _ _ _ Htx).
    + apply (tx_status _ _ _ _ _ _ _ _ _ _ Htx).
    + cbn. intros ?. by destruct Hopen.
    + apply Forall_app. split; [apply (tx_segs _ _ _ _ _ _ _ _ _ _ Htx)|done].
    + apply Forall_app. split; [apply (tx_clock _ _ _ _ _ _ _ _ _ _ Htx)|done].
    + split; [done|]. unfold SLACK in *. lia.
  - unfold saturating_sub. lia.
  - done.
  - cbn [tx_state]. unfold set_bbr, set_recovery, b. cbn [bbr].
    destruct (view_pacing v); cbn [set_credit pacing_credit]; [unfold saturating_sub; lia|by rewrite Hc].
  - lia.
  - apply Forall_app. by split; [|apply Forall_singleton].
  - exists fl', packets', d', qs'. split; [exact Hrun|]. split; [done|]. split; [lia|]. split; [done|].
    split; [by destruct Hk'; split|]. split; [done|]. rewrite Hfp'. exact Hf.
Qed.
End run.

(** A block of a peer that reports bytes not sent yet is kept, and the next
    write, which lands in it, is counted as in flight: the counters are then not
    those of the scan. *)
Example early_sack_drifts :
  let t := mkSend [] [] (mkAcct 0 0 None false) (mkRecovery 100 0 None 0) 0 (mkPending [] 0 0)
             (mkBbr 0 0 0 None 0 false 0) 1000 false in
  let t := (process_server_ack t 100 5 100 [(104, 108)]).1 in
  (fun t => (pipe_bytes (acct t),
             pipe_bytes (unacked_accounting_snapshot (unacked_server_segments t) (sack_scoreboard t))))
    <$> push_unacked_segments t 6 100 1 0x18 [str "firstnext"] 4 false = Some (9, 5).
Proof. by vm_compute. Qed.
