(* ===== verification/TcpValidate.v ===== *)
(** The checks on a packet of an existing flow
    ([crates/outline-tun/src/tcp/validation.rs]), what every accepted packet
    does to the state ([state_machine/transitions.rs],
    [absorb_accepted_client_packet]) and the duplicate SYN ([recv.rs]). *)
From S2P Require Import Prelude StdText IpPacket TcpTypes TcpRecv TcpPackets.
From S2P Require Import TcpScoreboard TcpSend.
Local Open Scope Z_scope.

(** ** Validation *)
Inductive PacketValidation : Type :=
  | Accept | Ignore | ChallengeAck (event : String.string) | CloseFlow (reason : String.string).
#[export] Instance PacketValidation_eq_dec : EqDecision PacketValidation.
Proof. solve_decision. Defined.

(** A challenge when the packet touches the window, silence when it does not. *)
Definition challenge (s : TcpFlowState) (p : ParsedTcpPacket) (event : String.string)
    : PacketValidation :=
  if packet_overlaps_receive_window s p then ChallengeAck event else Ignore.

Definition validate_packet_timestamps (s : TcpFlowState) (p : ParsedTcpPacket) : PacketValidation :=
  if negb (timestamps_enabled s) || has_flag (flags p) TCP_FLAG_RST then Accept
  else
    match timestamp_value p with
    | None => challenge s p "missing_timestamp"
    | Some value =>
      if match recent_client_timestamp s with Some recent => timestamp_lt value recent | None => false end
      then challenge s p "paws_reject"
      else Accept
    end.

Definition validate_existing_packet (s : TcpFlowState) (p : ParsedTcpPacket) : PacketValidation :=
  if has_flag (flags p) TCP_FLAG_RST then
    if sequence_number p =? rcv_nxt s then CloseFlow "client_rst" else challenge s p "invalid_rst"
  else
    match validate_packet_timestamps s p with
    | Accept =>
      if has_flag (flags p) TCP_FLAG_SYN then challenge s p "unexpected_syn"
      else if has_flag (flags p) TCP_FLAG_ACK && seq_gt (acknowledgement_number p) (server_seq s)
      then challenge s p "ack_above_snd_nxt"
      else Accept
    | other => other
    end.

Definition is_duplicate_syn (p : ParsedTcpPacket) (expected_seq : Z) : bool :=
  has_flag (flags p) TCP_FLAG_SYN && negb (has_flag (flags p) TCP_FLAG_ACK)
  && bool_decide (payload p = []) && (sequence_number p =? wsub32 expected_seq 1).

(** ** An accepted packet *)
Definition set_recent_timestamp (s : TcpFlowState) (recent : option Z) : TcpFlowState :=
  mkFlow (status s) (status_since s) (last_seen s) (rcv_nxt s) (receive_window_capacity s)
    (pending_client_data s) (pending_client_segments s) (timestamps_enabled s)
    recent (client_window_scale s) (client_window s) (client_window_end s)
    (client_window_update_seq s) (client_window_update_ack s) (server_seq s)
    (keepalive_probes_sent s) (last_keepalive_probe_at s) (zero_window_probe_backoff s)
    (next_zero_window_probe_at s) (unacked_in_order_segments s) (delayed_ack_deadline s).
Definition set_last_seen (s : TcpFlowState) (at_ : Z) : TcpFlowState :=
  mkFlow (status s) (status_since s) at_ (rcv_nxt s) (receive_window_capacity s)
    (pending_client_data s) (pending_client_segments s) (timestamps_enabled s)
    (recent_client_timestamp s) (client_window_scale s) (client_window s) (client_window_end s)
    (client_window_update_seq s) (client_window_update_ack s) (server_seq s)
    (keepalive_probes_sent s) (last_keepalive_probe_at s) (zero_window_probe_backoff s)
    (next_zero_window_probe_at s) (unacked_in_order_segments s) (delayed_ack_deadline s).

Definition note_recent_client_timestamp (s : TcpFlowState) (value : option Z) : TcpFlowState :=
  if timestamps_enabled s then
    match value with Some v => set_recent_timestamp s (Some v) | None => s end
  else s.

Definition absorb_accepted_client_packet (s : TcpFlowState) (p : ParsedTcpPacket) (now : Z)
    : TcpFlowState :=
  let s := note_recent_client_timestamp s (timestamp_value p) in
  let s := set_last_seen s now in
  let s := set_keepalive s 0 None in
  let s := update_client_send_window s p in
  if 0 <? client_window s then reset_zero_window_persist s else s.

(** ** What passes *)

(** A packet that is let through resets nothing, opens nothing and does not
    acknowledge what was never sent; under timestamps it carries one that is not
    before the last. *)
Lemma validate_accept s p : validate_existing_packet s p = Accept <->
  has_flag (flags p) TCP_FLAG_RST = false /\ has_flag (flags p) TCP_FLAG_SYN = false
  /\ (has_flag (flags p) TCP_FLAG_ACK = true -> seq_gt (acknowledgement_number p) (server_seq s) = false)
  /\ (timestamps_enabled s = true -> exists v, timestamp_value p = Some v
      /\ forall r, recent_client_timestamp s = Some r -> timestamp_lt v r = false).
Proof.
  unfold validate_existing_packet, validate_packet_timestamps, challenge.
  destruct (has_flag (flags p) TCP_FLAG_RST); cbn [orb].
  { split; [destruct (_ =? _), (packet_overlaps_receive_window s p); discriminate|by intros (? & _)]. }
  rewrite orb_false_r.
  destruct (timestamps_enabled s), (timestamp_value p) as [v|]; cbn [negb];
    [destruct (recent_client_timestamp s) as [r|]; [destruct (timestamp_lt v r) eqn:El|]|..];
    destruct (has_flag (flags p) TCP_FLAG_SYN), (has_flag (flags p) TCP_FLAG_ACK),
      (seq_gt (acknowledgement_number p) (server_seq s)), (packet_overlaps_receive_window s p);
    cbn [andb]; (split; [intros; try discriminate; repeat split; intros; try discriminate; try done; eauto|]);
    try (intros (? & ? & Ha & Ht); first [done | specialize (Ha eq_refl); done
      | destruct (Ht eq_refl) as (? & [= <-] & Hr); specialize (Hr _ eq_refl); congruence
      | destruct (Ht eq_refl) as (? & ? & _); done]).
  all: eexists; split; [done|]; congruence.
Qed.

(** What absorbing leaves of the fields the receive path and the send side
    share. *)
Lemma absorb_keeps s p now : let s' := absorb_accepted_client_packet s p now in
  status s' = status s /\ rcv_nxt s' = rcv_nxt s /\ server_seq s' = server_seq s
  /\ pending_client_data s' = pending_client_data s
  /\ pending_client_segments s' = pending_client_segments s
  /\ receive_window_capacity s' = receive_window_capacity s
  /\ (client_window_end s' = client_window_end s
      \/ exists w, (w = decode_client_window p (client_window_scale s))
         /\ client_window_end s' = wadd32 (acknowledgement_number p) w).
Proof.
  unfold absorb_accepted_client_packet, update_client_send_window, note_recent_client_timestamp.
  destruct (timestamps_enabled s), (timestamp_value p); cbn [set_keepalive set_last_seen set_recent_timestamp
    client_window_scale client_window_update_seq client_window_update_ack client_window];
  destruct (_ || _); cbn [set_client_window client_window]; destruct (0 <? _); repeat split; eauto.
Qed.

(** A reset is obeyed only exactly at the next expected sequence number. *)
Lemma validate_close s p reason : validate_existing_packet s p = CloseFlow reason <->
  reason = "client_rst"%string /\ has_flag (flags p) TCP_FLAG_RST = true /\ sequence_number p = rcv_nxt s.
Proof.
  unfold validate_existing_packet, validate_packet_timestamps, challenge.
  destruct (has_flag (flags p) TCP_FLAG_RST).
  - destruct (Z.eqb_spec (sequence_number p) (rcv_nxt s)) as [He|He].
    + split; [by intros [= <-]|]. by intros (-> & _).
    + destruct (packet_overlaps_receive_window s p); (split; [discriminate|]; by intros (? & _ & ?)).
  - split; [|by intros (_ & ? & _)]. cbn [orb]. rewrite orb_false_r.
    destruct (timestamps_enabled s), (timestamp_value p) as [v|]; cbn [negb];
      [destruct (recent_client_timestamp s) as [r|]; [destruct (timestamp_lt v r)|]|..];
      destruct (has_flag (flags p) TCP_FLAG_SYN), (has_flag (flags p) TCP_FLAG_ACK),
        (seq_gt (acknowledgement_number p) (server_seq s)), (packet_overlaps_receive_window s p);
      cbn [andb]; discriminate.
Qed.
