(* ===== verification/TcpEngine.v ===== *)
(** The handlers of a flow, whole: a packet from the client
    ([crates/outline-tun/src/tcp/engine/packet.rs] with
    [state_machine/deliver.rs]), the timer ([tcp/maintenance.rs]) and the
    upstream reader ([engine/tasks/upstream/reader.rs], [send/buffer.rs]).

    A handler takes a flow and gives the flow it leaves and what is to be
    written; [None] is a panic of the option block, [Err] an error of a packet
    builder, with the state as it is at that point. What the BBR controller
    answers during the run is an argument ([BbrView], [AckAnswer]). *)
From S2P Require Import Prelude StdText IpPacket TcpTypes TcpWire TcpRecv TcpPackets.
From S2P Require Import TcpScoreboard TcpSend TcpValidate.
Local Open Scope Z_scope.

(** What [update_rtt_estimator] and [bbr::on_ack] leave: the timeout and the
    controller's fields. *)
Record AckAnswer : Type := mkAnswer { answer_rto : Z; answer_bbr : BbrFields }.

Definition set_rto (t : SendState) (rto : Z) : SendState :=
  mkSend (unacked_server_segments t) (sack_scoreboard t) (acct t) (recovery t) (first_tx_mstamp t)
    (pending t) (bbr t) rto (server_fin_pending t).
Definition has_ack_progress (e : AckEffect) : bool :=
  negb (bytes_acked e =? 0) || is_some (rtt_sample e).
Definition note_ack_progress (a : AckAnswer) (t : SendState) (e : AckEffect) : SendState :=
  let t := if is_some (rtt_sample e) then set_rto t (answer_rto a) else t in
  if (0 <? bytes_acked e) || is_some (rate_sample e) then set_bbr t (answer_bbr a) else t.

(** ** What is written *)
Inductive PacketAction : Type :=
  | Silent
  | Closed_ (reason : String.string)
  | Aborted (reason : String.string)
  | WriteSynAck (packet : bytes)
  | WriteAck (packet : bytes)
  | WriteFin (packet : bytes)
  | WriteRetransmit (packet : ServerDataPacket)
  | Delivered (wake_pump : bool) (ack : option bytes) (flush : ServerFlush).

(** A handler's result: the flow, and an error or the action. *)
Abbreviation handled A := (option (Flow * outcome A)).
Definition emit {A} (fl : Flow) (wrap : bytes -> A) (packet : option (outcome bytes)) : handled A :=
  r ← packet;
  Some (fl, packet ← r; Ok (wrap packet)).

Definition write_pure_ack (k : FlowConst) (now : Z) (fl : Flow) : handled PacketAction :=
  let s := rx_state fl in
  emit fl WriteAck (build_flow_ack_packet k s now (server_seq s) (rcv_nxt s) TCP_FLAG_ACK).
Definition write_syn_ack (k : FlowConst) (now : Z) (fl : Flow) : handled PacketAction :=
  let s := rx_state fl in
  emit fl WriteSynAck (build_flow_syn_ack_packet k s now (wsub32 (server_seq s) 1) (rcv_nxt s)).

(** ** Delivery ([deliver.rs]) *)
Record DeliverOutcome : Type := mkDeliver {
  pending_payload : list bytes;
  should_close_client_half : bool;
  server_flush : ServerFlush;
  pending_ack : option bytes
}.
Definition apply_inbound_and_flush (k : FlowConst) (v : BbrView) (now : Z) (fl : Flow)
    (trimmed : TrimmedSegment) : handled DeliverOutcome :=
  let s := rx_state fl in
  let should_send_ack :=
    segment_requires_ack (t_seq trimmed) (t_flags trimmed) (zlen (t_payload trimmed)) (rcv_nxt s) in
  let had_buffered_segments := negb (bool_decide (pending_client_segments s = [])) in
  let carries_data := negb (bool_decide (t_payload trimmed = [])) in
  let '(s, payload, closed) := apply_inbound s trimmed in
  let server_seq := server_seq s in
  let rcv_nxt := rcv_nxt s in
  '(fl, flush) ← flush_server_output k v now (mkFlowPair s (tx_state fl));
  match flush with
  | Err e => Some (fl, Err e)
  | Ok flush =>
    let (s, immediate) :=
      resolve_client_ack (rx_state fl) should_send_ack carries_data closed had_buffered_segments
        (negb (bool_decide (data_packets flush = []))) now in
    let fl := mkFlowPair s (tx_state fl) in
    if (immediate : bool) then
      r ← build_flow_ack_packet k s now server_seq rcv_nxt TCP_FLAG_ACK;
      Some (fl, ack ← r; Ok (mkDeliver payload closed flush (Some ack)))
    else Some (fl, Ok (mkDeliver payload closed flush None))
  end.

(** ** A packet of the client ([engine/packet.rs]) *)

(** The part after the acknowledgement. *)
Definition handle_inbound_segment (k : FlowConst) (config : TunTcpConfig) (v : BbrView) (now : Z)
    (fl : Flow) (p : ParsedTcpPacket) : handled PacketAction :=
  let s := rx_state fl in
  if server_fin_awaiting_ack (status s)
     && ack_is_stale_server_fin_retry (flags p) (acknowledgement_number p) (server_seq s)
  then
    emit fl WriteFin
      (build_flow_packet k s now (wsub32 (server_seq s) 1) (rcv_nxt s)
         (Z.lor TCP_FLAG_FIN TCP_FLAG_ACK) [])
  else if client_fin_seen (status s)
          && segment_requires_ack (sequence_number p) (flags p) (zlen (payload p)) (rcv_nxt s)
  then write_pure_ack k now fl
  else
    match classify_inbound_segment s p with
    | BeyondExpectedSequence =>
      match queue_future_segment_with_recv_window s config p with
      | (s, WouldExceedLimits) =>
        Some (mkFlowPair s (tx_state fl), Ok (Aborted "client_reassembly_limit"))
      | (s, _) => write_pure_ack k now (mkFlowPair (clear_delayed_ack s) (tx_state fl))
      end
    | OutsideReceiveWindow => write_pure_ack k now (mkFlowPair (clear_delayed_ack s) (tx_state fl))
    | Deliver trimmed =>
      '(fl, r) ← apply_inbound_and_flush k v now fl trimmed;
      match r with
      | Err e => Some (fl, Err e)
      | Ok outcome =>
        let s := rx_state fl in
        let buffered := negb (bool_decide (pending_payload outcome = [])) in
        let s := set_receive s (rcv_nxt s) (pending_client_data s ++ pending_payload outcome)
                   (pending_client_segments s) in
        let abort_for_pending_limit := buffered && exceeds_client_reassembly_limits s config in
        let s := if should_close_client_half outcome then transition_on_client_fin s now else s in
        let fl := mkFlowPair s (tx_state fl) in
        if abort_for_pending_limit then Some (fl, Ok (Aborted "client_pending_data_limit"))
        else
          Some (fl, Ok (Delivered (buffered || should_close_client_half outcome)
                          (pending_ack outcome) (server_flush outcome)))
      end
    end.

(** The acknowledgement of an accepted packet, and what follows it. *)
Definition handle_acknowledgement (k : FlowConst) (config : TunTcpConfig) (v : BbrView) (a : AckAnswer)
    (now : Z) (fl : Flow) (p : ParsedTcpPacket) : handled PacketAction :=
  let s := rx_state fl in
  let (t, effect) :=
    process_server_ack (tx_state fl) (server_seq s) now (acknowledgement_number p) (sack_blocks p) in
  let t := if has_ack_progress effect then note_ack_progress a t effect else t in
  let (s, closed) :=
    if server_fin_awaiting_ack (status s)
       && ack_covers_server_fin (flags p) (acknowledgement_number p) (server_seq s)
    then transition_on_server_fin_ack s now else (s, false) in
  let fl := mkFlowPair s t in
  if (closed : bool) then Some (fl, Ok (Closed_ "last_ack_acked"))
  else if retransmit_now effect then
    '(fl, r) ← retransmit_oldest_unacked_packet k now fl;
    match r with
    | Err e => Some (fl, Err e)
    | Ok (Some packet) =>
      if retransmit_budget_exhausted (tx_state fl) (max_retransmits config)
      then Some (fl, Ok (Aborted "retransmit_budget_exhausted"))
      else Some (fl, Ok (WriteRetransmit packet))
    | Ok None => handle_inbound_segment k config v now fl p
    end
  else handle_inbound_segment k config v now fl p.

(** The whole handler, from the lock of the flow on. *)
Definition handle_existing_flow (k : FlowConst) (config : TunTcpConfig) (v : BbrView) (a : AckAnswer)
    (now : Z) (fl : Flow) (p : ParsedTcpPacket) : handled PacketAction :=
  let s := rx_state fl in
  if bool_decide (status s = SynReceived) && is_duplicate_syn p (rcv_nxt s)
  then write_syn_ack k now fl
  else
    match validate_existing_packet s p with
    | Ignore => Some (fl, Ok Silent)
    | CloseFlow reason => Some (fl, Ok (Closed_ reason))
    | ChallengeAck _ => write_pure_ack k now fl
    | Accept =>
      let s := absorb_accepted_client_packet s p now in
      if bool_decide (status s = SynReceived) then
        if completes_syn_received_handshake (flags p) (acknowledgement_number p) (sequence_number p)
             (server_seq s) (rcv_nxt s)
        then
          handle_acknowledgement k config v a now
            (mkFlowPair (set_flow_status s Established now) (tx_state fl)) p
        else write_syn_ack k now (mkFlowPair s (tx_state fl))
      else handle_acknowledgement k config v a now (mkFlowPair s (tx_state fl)) p
    end.

(** ** The timer ([maintenance.rs]) *)
Inductive FlowMaintenancePlan : Type :=
  | Wait (deadline : option Z)
  | SendPacket (packet : bytes) (event : String.string)
  | SendDataPacket (packet : ServerDataPacket)
  | FlushServer (flush : ServerFlush)
  | PlanAbort (reason : String.string)
  | PlanClose (reason : String.string).

Definition next_pacing_deadline (fl : Flow) : option Z :=
  if bool_decide (pending_server_data (pending (tx_state fl)) = []) then None
  else pacing_next_at (bbr (tx_state fl)).
Definition zero_window_probe_is_due (fl : Flow) (now : Z) : bool :=
  zero_window_probe_is_due_from_primitives (client_window (rx_state fl))
    (negb (bool_decide (pending_server_data (pending (tx_state fl)) = [])))
    (bool_decide (unacked_server_segments (tx_state fl) = []))
    (next_zero_window_probe_at (rx_state fl)) now.
Definition next_zero_window_probe_deadline (fl : Flow) (now : Z) : option Z :=
  if (client_window (rx_state fl) =? 0)
     && negb (bool_decide (pending_server_data (pending (tx_state fl)) = []))
     && bool_decide (unacked_server_segments (tx_state fl) = [])
  then Some (default now (next_zero_window_probe_at (rx_state fl)))
  else None.
(** [deadline <= now] for an optional deadline. *)
Definition is_due (deadline : option Z) (now : Z) : bool :=
  match deadline with Some d => d <=? now | None => false end.
Definition retransmit_is_due (t : SendState) (now : Z) : bool :=
  is_due (next_retransmission_deadline t) now.
Definition keepalive_probe_is_due (fl : Flow) (config : TunTcpConfig) (now : Z) : bool :=
  is_due (next_keepalive_deadline fl (keepalive_idle config) (keepalive_interval config)) now.

Definition earliest (ds : list (option Z)) : option Z := foldr min_option None ds.
(** [deadline.map(|current| current.min(x)).unwrap_or(x)] *)
Definition min_with (deadline : option Z) (x : Z) : option Z :=
  Some (match deadline with Some current => Z.min current x | None => x end).
Definition next_flow_deadline (fl : Flow) (config : TunTcpConfig) (idle_timeout now : Z) : option Z :=
  let s := rx_state fl in
  let deadline :=
    earliest [next_retransmission_deadline (tx_state fl); next_zero_window_probe_deadline fl now;
              next_pacing_deadline fl;
              next_keepalive_deadline fl (keepalive_idle config) (keepalive_interval config);
              delayed_ack_deadline s] in
  let deadline :=
    if bool_decide (status s = SynReceived)
    then min_with deadline (status_since s + handshake_timeout config) else deadline in
  let deadline :=
    if is_half_closed_status (status s)
    then min_with deadline (status_since s + half_close_timeout config) else deadline in
  if bool_decide (status s = TimeWait) then min_with deadline (status_since s + TCP_TIME_WAIT_TIMEOUT)
  else min_with deadline (last_seen s + idle_timeout).

(** The delayed ACK, last of the timers. *)
Definition plan_delayed_ack (k : FlowConst) (config : TunTcpConfig) (idle_timeout now : Z) (fl : Flow)
    : handled FlowMaintenancePlan :=
  let s := rx_state fl in
  if is_due (delayed_ack_deadline s) now then
    r ← build_flow_ack_packet k s now (server_seq s) (rcv_nxt s) TCP_FLAG_ACK;
    match r with
    | Err e => Some (fl, Err e)
    | Ok packet =>
      Some (mkFlowPair (clear_delayed_ack s) (tx_state fl), Ok (SendPacket packet "delayed_ack"))
    end
  else Some (fl, Ok (Wait (next_flow_deadline fl config idle_timeout now))).

Definition plan_keepalive (k : FlowConst) (config : TunTcpConfig) (idle_timeout now : Z) (fl : Flow)
    : handled FlowMaintenancePlan :=
  let s := rx_state fl in
  if is_some (keepalive_idle config) && keepalive_probe_eligible fl
     && keepalive_probes_exhausted (keepalive_probes_sent s) (keepalive_max_probes config)
          (last_keepalive_probe_at s) (keepalive_interval config) now
  then Some (fl, Ok (PlanAbort "keepalive_timeout"))
  else if keepalive_probe_is_due fl config now then
    '(fl, r) ← maybe_emit_keepalive_probe k now fl (keepalive_idle config) (keepalive_interval config);
    match r with
    | Err e => Some (fl, Err e)
    | Ok (Some packet) => Some (fl, Ok (SendPacket packet "keepalive_probe"))
    | Ok None => plan_delayed_ack k config idle_timeout now fl
    end
  else plan_delayed_ack k config idle_timeout now fl.

(** The pacing wakeup and the zero-window probe. *)
Definition plan_send (k : FlowConst) (config : TunTcpConfig) (v : BbrView) (idle_timeout now : Z)
    (fl : Flow) : handled FlowMaintenancePlan :=
  if is_due (next_pacing_deadline fl) now then
    '(fl, r) ← flush_server_output k v now fl;
    Some (fl, flush ← r; Ok (FlushServer flush))
  else if zero_window_probe_is_due fl now then
    '(fl, r) ← maybe_emit_zero_window_probe k now fl;
    match r with
    | Err e => Some (fl, Err e)
    | Ok (Some packet) => Some (fl, Ok (SendPacket packet "zero_window_probe"))
    | Ok None => plan_keepalive k config idle_timeout now fl
    end
  else plan_keepalive k config idle_timeout now fl.

Definition plan_flow_maintenance (k : FlowConst) (config : TunTcpConfig) (v : BbrView)
    (idle_timeout now : Z) (fl : Flow) : handled FlowMaintenancePlan :=
  let s := rx_state fl in
  if time_wait_expired (status s) (status_since s) now
  then Some (fl, Ok (PlanClose "time_wait_expired"))
  else if handshake_timed_out (status s) (status_since s) (handshake_timeout config) now
  then Some (fl, Ok (PlanAbort "handshake_timeout"))
  else if half_close_timed_out (status s) (status_since s) (half_close_timeout config) now
  then Some (fl, Ok (PlanAbort "half_close_timeout"))
  else if idle_timed_out (status s) (last_seen s) idle_timeout now
  then Some (fl, Ok (PlanAbort "idle_timeout"))
  else if retransmit_is_due (tx_state fl) now then
    '(fl, r) ← retransmit_due_segment k now fl;
    match r with
    | Err e => Some (fl, Err e)
    | Ok (Some packet) =>
      let t := note_congestion_event (tx_state fl) true in
      let fl := mkFlowPair (rx_state fl) t in
      if retransmit_budget_exhausted t (max_retransmits config)
      then Some (fl, Ok (PlanAbort "retransmit_budget_exhausted"))
      else Some (fl, Ok (SendDataPacket packet))
    | Ok None => plan_send k config v idle_timeout now fl
    end
  else plan_send k config v idle_timeout now fl.

(** ** The upstream reader *)

(** A chunk read from the upstream; [None] as a result of the inner option is
    the reader's end on a closed flow. *)
Definition reader_chunk (k : FlowConst) (v : BbrView) (now : Z) (fl : Flow) (chunk : bytes)
    : option (option (Flow * outcome ServerFlush)) :=
  if bool_decide (status (rx_state fl) = Closed) then Some None
  else
    let t := set_pending (tx_state fl) (push_pending_server (pending (tx_state fl)) chunk) in
    r ← flush_server_output k v now (mkFlowPair (set_last_seen (rx_state fl) now) t);
    Some (Some r).
(** The upstream's end: the FIN waits behind what is queued. *)
Definition reader_eof (k : FlowConst) (v : BbrView) (now : Z) (fl : Flow) : handled ServerFlush :=
  if bool_decide (status (rx_state fl) = Closed) || server_fin_sent (status (rx_state fl))
  then Some (fl, Ok (mkFlush [] None None false))
  else flush_server_output k v now (mkFlowPair (rx_state fl) (set_fin_pending (tx_state fl) true)).

(** The downlink backlog ([buffer.rs]). *)
Record ServerBacklogPressure : Type := mkPressure {
  exceeded : bool;
  should_abort : bool;
  pending_bytes : Z;
  over_limit_ms : option Z;
  no_progress_ms : option Z;
  pressure_window_stalled : bool
}.
Definition assess_server_backlog_pressure (t : SendState) (since : option Z) (last_ack_progress_at : Z)
    (config : TunTcpConfig) (now : Z) (window_stalled : bool) : option Z * ServerBacklogPressure :=
  let bytes := pending_server_bytes_total (pending t) in
  if bytes <=? max_pending_server_bytes config
  then (None, mkPressure false false bytes None None window_stalled)
  else
    let first_exceeded_at := default now since in
    let over_limit_for := elapsed_since now first_exceeded_at in
    let no_progress_for := elapsed_since now last_ack_progress_at in
    let hard_limit :=
      Z.min (max_pending_server_bytes config * backlog_hard_limit_multiplier config) (2 ^ 64 - 1) in
    (Some first_exceeded_at,
     mkPressure true
       ((hard_limit <? bytes)
        || (window_stalled && (backlog_no_progress_abort config <=? no_progress_for)))
       bytes (Some over_limit_for) (Some no_progress_for) window_stalled).

(** ** The probe byte and its acknowledgement

    A zero-window probe carries the first byte that waits, without moving
    [server_seq]. A client that takes the byte in acknowledges the number after
    it, above everything the flow counts as sent: its packet, which may well
    open the window, is answered or ignored and changes nothing. *)
Lemma probe_ack_changes_nothing k config v a now fl p r :
  status (rx_state fl) <> SynReceived -> u32 (server_seq (rx_state fl)) ->
  has_flag (flags p) TCP_FLAG_ACK = true -> has_flag (flags p) TCP_FLAG_RST = false ->
  acknowledgement_number p = wadd32 (server_seq (rx_state fl)) 1 ->
  handle_existing_flow k config v a now fl p = Some r -> r.1 = fl.
Proof.
  intros Hst Hseq Hack Hrst Hn Hr.
  assert (Hv : validate_existing_packet (rx_state fl) p <> Accept).
  { intros (_ & _ & Ha & _)%validate_accept. specialize (Ha Hack). rewrite Hn in Ha. revert Ha.
    unfold seq_gt, wsub32, wadd32. rewrite Zminus_mod_idemp_l. replace (_ + 1 - _) with 1 by lia. done. }
  revert Hr. unfold handle_existing_flow. cbn zeta. rewrite bool_decide_false by done. cbn [andb].
  destruct (validate_existing_packet _ _) eqn:E; [done|by intros [= <-]| |by intros [= <-]].
  unfold write_pure_ack, emit. destruct (build_flow_ack_packet _ _ _ _ _ _); [|done].
  by intros [= <-].
Qed.
