(* ===== verification/TcpRun.v ===== *)
(** The send side over a whole run of a flow: packets of the client in any
    order, the timer at any time, the upstream reader
    ([crates/outline-tun/src/tcp/], the handlers of [TcpEngine]). *)
From S2P Require Import Prelude StdText IpPacket TcpTypes TcpWire TcpRecv TcpPackets.
From S2P Require Import TcpScoreboard TcpSend TcpValidate TcpEngine.
From Stdlib Require Import Sorted.
Local Open Scope Z_scope.

(** The send side's invariant reads the queue, the scoreboard, the counters and
    the last acknowledgement. *)
Lemma send_same isn una nxt qs l t t' : send_ok isn una nxt qs l t ->
  unacked_server_segments t' = unacked_server_segments t -> sack_scoreboard t' = sack_scoreboard t ->
  acct t' = acct t -> last_client_ack (recovery t') = last_client_ack (recovery t) ->
  send_ok isn una nxt qs l t'.
Proof.
  intros [Hq Hc Hp Hb Hr Hl Hf Hex] Hq' Hb' Ha' Hl'. split; rewrite ?Hq', ?Hb', ?Hl'; try done.
  unfold accounting_exact in *. by rewrite Hq', Hb', Ha'.
Qed.

(** What the receive path leaves of the send side's part of the state. *)
Record tx_kept (s s' : TcpFlowState) : Prop := {
  tk_seq : server_seq s' = server_seq s;
  tk_wend : client_window_end s' = client_window_end s;
  tk_status : server_fin_sent (status s') = server_fin_sent (status s);
  tk_open : status s' = SynReceived -> status s = SynReceived
}.
#[export] Instance tx_kept_refl : Reflexive tx_kept.
Proof. by split. Qed.
#[export] Instance tx_kept_trans : Transitive tx_kept.
Proof. intros ??? [] []. split; [congruence..|auto]. Qed.

Lemma queue_keeps s config p : tx_kept s (queue_future_segment_with_recv_window s config p).1.
Proof.
  unfold queue_future_segment_with_recv_window. destruct (trim_packet_to_receive_window s p); [|done].
  by destruct (_ || _).
Qed.
Lemma apply_inbound_keeps s trimmed : tx_kept s (apply_inbound s trimmed).1.1.
Proof.
  unfold apply_inbound. destruct (_ || _); [|done].
  destruct (apply_client_segment _ _ _) as [[rcv ready] closed]. destruct closed; [done|].
  by destruct (drain_ready_buffered_segments _ _ _) as [[[? ?] ?] ?].
Qed.
Lemma resolve_keeps s a b c e f now : tx_kept s (resolve_client_ack s a b c e f now).1.
Proof. unfold resolve_client_ack. destruct (negb a); [done|]. destruct f; [done|]. by destruct (_ || _). Qed.
Lemma client_fin_keeps s now : tx_kept s (transition_on_client_fin s now).
Proof.
  unfold transition_on_client_fin, set_flow_status.
  destruct (status s) eqn:E; try done; (rewrite bool_decide_false by congruence); by split; cbn; rewrite ?E; try discriminate.
Qed.

Lemma server_fin_ack_keeps s now : tx_kept s (transition_on_server_fin_ack s now).1.
Proof.
  unfold transition_on_server_fin_ack, set_flow_status.
  destruct (status s) eqn:E; try done; (rewrite bool_decide_false by congruence); by split; cbn; rewrite ?E; try discriminate.
Qed.

(** Before anything was sent the last acknowledgement is not read: the flow
    starts with an arbitrary one. *)
Definition with_last (t : SendState) (last : Z) : SendState :=
  set_recovery t
    (mkRecovery last (duplicate_ack_count (recovery t)) (fast_recovery_end (recovery t))
       (recovery_epoch (recovery t))) (bbr t).
Lemma process_last t last server_seq now ack blocks : unacked_server_segments t = [] ->
  process_server_ack (with_last t last) server_seq now ack blocks
  = process_server_ack t server_seq now ack blocks.
Proof.
  intros Hq. destruct t. cbn in Hq. subst. unfold process_server_ack. cbn.
  destruct (update_sack_scoreboard _ ack blocks) as [board []]; reflexivity.
Qed.

Section run.
Context (isn : Z) (k : FlowConst) (out : bytes).
Hypothesis key : key_ok k.

Lemma tx_same w clock una d fin edge qs l s s' t t' :
  tx_ok isn out w clock una d fin edge qs l (mkFlowPair s t) ->
  server_seq s' = server_seq s -> client_window_end s' = client_window_end s ->
  server_fin_sent (status s') = server_fin_sent (status s) ->
  (status s' = SynReceived -> status s = SynReceived) ->
  unacked_server_segments t' = unacked_server_segments t -> sack_scoreboard t' = sack_scoreboard t ->
  acct t' = acct t -> last_client_ack (recovery t') = last_client_ack (recovery t) ->
  pending t' = pending t -> server_fin_pending t' = server_fin_pending t ->
  tx_ok isn out w clock una d fin edge qs l (mkFlowPair s' t').
Proof.
  intros [] Hs He Hst Hop Hq Hb Ha Hl Hp Hf. cbn [rx_state tx_state] in *.
  split; cbn [rx_state tx_state]; rewrite ?Hs, ?He, ?Hst, ?Hp, ?Hf; try done; [by eapply send_same|auto].
Qed.

Lemma tx_later w clock clock' una d fin edge qs l fl : clock <= clock' ->
  tx_ok isn out w clock una d fin edge qs l fl -> tx_ok isn out w clock' una d fin edge qs l fl.
Proof. intros H []. split; try done. eapply Forall_impl; [done|]. simpl. lia. Qed.

(** ** What goes out *)

(** A bare packet, a FIN at the stream's end or a probe: whatever bytes it
    carries are the stream's at its sequence number. *)
Definition carries_raw (packet : bytes) : Prop :=
  exists p s now ack flags data,
    build_flow_packet k s now (sq isn p) ack flags data = Some (Ok packet)
    /\ 0 <= p /\ p + zlen data <= zlen out /\ data = sub out p (p + zlen data)
    /\ (has_flag flags TCP_FLAG_FIN = true -> p = zlen out).

Definition option_ok {A} (P : A -> Prop) (o : option A) : Prop :=
  match o with Some x => P x | None => True end.
Record flush_ok (f : ServerFlush) : Prop := {
  fl_data : Forall (carries isn k out) (data_packets f);
  fl_fin : option_ok carries_raw (fin_packet f);
  fl_probe : option_ok carries_raw (probe_packet f)
}.

(** ** The flush *)
Lemma window_remaining_at s nxt edge : server_seq s = sq isn nxt -> client_window_end s = sq isn edge ->
  - 2 ^ 31 < nxt - edge < 2 ^ 31 -> send_window_remaining s = Z.max 0 (edge - nxt).
Proof.
  intros Hs He H. unfold send_window_remaining. rewrite Hs, He, seq_ge_sq by done.
  destruct (Z.leb_spec edge nxt); [lia|]. rewrite wsub32_sq_small by lia. lia.
Qed.

Lemma pending_sum p rest : pending_ok p rest -> sum_len (pending_server_data p) = zlen rest.
Proof. intros (Hc & _). by rewrite sum_len_concat, Hc. Qed.

(** The outcome of a step of the send side. *)
Record tx_after (w clock una d : Z) (fin : bool) (edge : Z) (l : list span) (fl fl' : Flow) (d' : Z) (fin' : bool)
    (qs' : list sent) : Prop := {
  af_ok : tx_ok isn out w clock una d' fin' edge qs' l fl';
  af_sent : d <= d' <= Z.max d edge;
  af_fin : fin = true -> fin' = true;
  af_kept : rx_kept (rx_state fl) (rx_state fl')
}.

Lemma tx_far w clock una d fin edge qs l fl : tx_ok isn out w clock una d fin edge qs l fl ->
  - 2 ^ 31 < d + (if fin then 1 else 0) - edge < 2 ^ 31 /\ una <= d + (if fin then 1 else 0) <= una + 2 ^ 30.
Proof.
  intros H. destruct (tx_edge _ _ _ _ _ _ _ _ _ _ _ H) as [_ He].
  pose proof (so_flight _ _ _ _ _ _ (tx_send _ _ _ _ _ _ _ _ _ _ _ H)) as Hf. unfold SLACK in *.
  destruct fin; lia.
Qed.

Lemma flush_server_data_ok v w now una d fin edge qs l fl :
  tx_ok isn out w now una d fin edge qs l fl -> 0 <= view_credit v -> status (rx_state fl) <> SynReceived ->
  exists fl' packets d' qs', flush_server_data k v now fl = Some (fl', Ok packets)
    /\ tx_after w now una d fin edge l fl fl' d' fin qs' /\ Forall (carries isn k out) packets
    /\ status (rx_state fl') = status (rx_state fl)
    /\ server_fin_pending (tx_state fl') = server_fin_pending (tx_state fl).
Proof.
  intros Htx Hv Hopen. unfold flush_server_data. destruct (tx_far _ _ _ _ _ _ _ _ _ Htx) as [Hfar _].
  rewrite (window_remaining_at (rx_state fl) (d + (if fin then 1 else 0)) edge); [|apply Htx|apply Htx|done].
  set (cw := congestion_window_remaining _ _ mod 2 ^ 32).
  assert (Hcw : 0 <= cw) by (apply Z.mod_pos_bound; lia). clearbody cw.
  pose proof (tx_sent _ _ _ _ _ _ _ _ _ _ _ Htx) as Hd.
  pose proof (pending_sum _ _ (tx_pending _ _ _ _ _ _ _ _ _ _ _ Htx)) as Hsum.
  rewrite sub_length in Hsum by (unfold len; lia).
  destruct (flush_loop_ok isn k key v now una edge l w
    (S (Z.to_nat (sum_len (pending_server_data (pending (tx_state fl))))))
    (mkFlowPair (rx_state fl) (set_bbr (tx_state fl) (set_credit (bbr (tx_state fl)) (view_credit v) None)))
    d fin qs (Z.min (Z.max 0 (edge - (d + (if fin then 1 else 0)))) cw) [] out)
    as (fl' & packets & d' & qs' & Hrun & Htx' & Hd' & Hpk & Hk & Hst & Hfp); try done.
  - destruct fl as [s t]. eapply tx_same; done.
  - lia.
  - rewrite Hsum. lia.
  - exists fl', packets, d', qs'. split; [exact Hrun|]. by split; [split|].
Qed.

Lemma after_same w now una d fin edge qs l fl : tx_ok isn out w now una d fin edge qs l fl ->
  tx_after w now una d fin edge l fl fl d fin qs.
Proof. intros H. split; [done|lia|done|done]. Qed.

Lemma status_fin s now : status s <> Closed -> status s <> TimeWait ->
  server_fin_sent (status s) = false ->
  let s' := match status s with
            | CloseWait => set_flow_status s LastAck now
            | SynReceived | Established => set_flow_status s FinWait1 now
            | FinWait1 | FinWait2 | Closing | LastAck | TimeWait | Closed => s
            end in
  server_fin_sent (status s') = true /\ client_fin_seen (status s') = client_fin_seen (status s)
  /\ server_seq s' = server_seq s /\ rx_kept s s' /\ status s' <> SynReceived.
Proof.
  unfold set_flow_status. intros H1 H2 H3. destruct (status s) eqn:E; try done;
    (rewrite bool_decide_false by congruence); cbn; repeat split; try done;
    by rewrite E.
Qed.

Lemma fin_ok w now una d fin edge qs l fl : tx_ok isn out w now una d fin edge qs l fl ->
  exists fl' r fin' qs', maybe_emit_server_fin k now fl = Some (fl', Ok r)
    /\ tx_after w now una d fin edge l fl fl' d fin' qs' /\ option_ok carries_raw r.
Proof.
  intros Htx. unfold maybe_emit_server_fin. set (s := rx_state fl). set (t := tx_state fl).
  destruct (server_fin_pending t) eqn:Hp; cbn [negb orb];
    [|exists fl, None, fin, qs; split; [done|]; split; [by apply after_same|done]].
  case_bool_decide as Hemp; cbn [negb orb];
    [|exists fl, None, fin, qs; split; [done|]; split; [by apply after_same|done]].
  case_bool_decide as Hnil; cbn [negb orb];
    [|exists fl, None, fin, qs; split; [done|]; split; [by apply after_same|done]].
  case_bool_decide as Hcl; cbn [orb];
    [exists fl, None, fin, qs; split; [done|]; split; [by apply after_same|done]|].
  case_bool_decide as Htw; [exists fl, None, fin, qs; split; [done|]; split; [by apply after_same|done]|].
  destruct (flow_packet_ok k s now (server_seq s) (rcv_nxt s) (Z.lor TCP_FLAG_FIN TCP_FLAG_ACK) [] key)
    as [packet Hpkt].
  rewrite Hpkt. cbn [mbind option_bind].
  pose proof (tx_status _ _ _ _ _ _ _ _ _ _ _ Htx) as Hst. fold s in Hst.
  destruct fin; [pose proof (tx_fin _ _ _ _ _ _ _ _ _ _ _ Htx eq_refl) as [_ ?]; unfold t in Hp; congruence|].
  pose proof (tx_send _ _ _ _ _ _ _ _ _ _ _ Htx) as Hsend. pose proof (tx_seq _ _ _ _ _ _ _ _ _ _ _ Htx) as Hseq.
  rewrite Z.add_0_r in Hsend, Hseq. fold s in Hseq.
  pose proof (tx_eof _ _ _ _ _ _ _ _ _ _ _ Htx Hp) as Hw.
  pose proof (tx_sent _ _ _ _ _ _ _ _ _ _ _ Htx) as Hd.
  pose proof (tx_pending _ _ _ _ _ _ _ _ _ _ _ Htx) as Hpend.
  assert (Hdw : d = zlen out).
  { pose proof (pending_sum _ _ Hpend) as Hs. fold t in Hs. rewrite Hemp in Hs.
    rewrite sub_length in Hs by (unfold len; lia). cbn in Hs. lia. }
  assert (Hqs : qs = []).
  { pose proof (so_queue _ _ _ _ _ _ Hsend) as Hq. fold t in Hq. rewrite Hnil in Hq. by destruct qs. }
  subst qs. destruct (so_chain _ _ _ _ _ _ Hsend) as (a & Hc & Hau). cbn [chain] in Hc. subst a.
  pose proof (so_flight _ _ _ _ _ _ Hsend) as Hfl.
  pose proof (tx_edge _ _ _ _ _ _ _ _ _ _ _ Htx) as [Hedge He].
  set (s1 := set_server_seq s (wadd32 (server_seq s) 1)).
  set (s2 := match status s1 with CloseWait => _ | _ => _ end).
  destruct (status_fin s1 now Hcl Htw (eq_sym Hst)) as (Hf1 & Hf2 & Hf3 & Hk & Hop).
  fold s2 in Hf1, Hf2, Hf3, Hk, Hop.
  set (g := new_segment _ (server_seq s) []).
  assert (Hch : chain isn d [(d, g)] (d + 1)).
  { cbn [chain fst snd]. unfold sent_end. cbn [fst snd]. split; [done|]. split; [exact Hseq|].
    replace (server_segment_len g) with 1 by reflexivity. lia. }
  assert (Hfresh : fresh_segments (sacked (sack_scoreboard t)) now [g]).
  { apply (fresh_unsacked isn una d (d + 1) [] [(d, g)] l t now); [done|done|lia|by apply Forall_singleton]. }
  eexists _, (Some packet), true, [(d, g)]. split; [reflexivity|]. split; [split|].
  - split; cbn [rx_state tx_state]; try done.
    + apply (send_flight isn una d (d + 1) [] [(d, g)] l t); try done;
        [lia|cbn [set_queue set_fin_pending unacked_server_segments]; fold t; by rewrite Hnil|].
      apply exact_iff.
      pose proof (proj1 (exact_iff t) (so_exact _ _ _ _ _ _ Hsend)) as Hex.
      pose proof (exact_append _ now _ _ [g] Hex Hfresh ltac:(discriminate)) as Hex2.
      rewrite Hnil in Hex2. specialize (Hex2 ltac:(constructor)).
      cbn [set_queue set_fin_pending unacked_server_segments sack_scoreboard acct]. rewrite Hnil.
      exact Hex2.
    + rewrite Hf3. unfold s1. cbn [set_server_seq server_seq]. rewrite Hseq. apply wadd32_sq.
    + apply Htx.
    + apply Forall_singleton. split; cbn [fst snd]; unfold g; cbn [new_segment s_payload s_flags w_flags];
        rewrite ?zlen_nil; try done; [lia|lia|]. by rewrite Z.add_0_r, sub_nil.
    + apply Forall_singleton. cbn. lia.
    + split; [|done]. rewrite (kp_wend _ _ Hk). exact Hedge.
  - lia.
  - done.
  - transitivity s1; [by split|done].
  - exists d, s, now, (rcv_nxt s), (Z.lor TCP_FLAG_FIN TCP_FLAG_ACK), [].
    rewrite <- Hseq. split; [done|]. change (zlen []) with 0. split; [lia|]. split; [lia|].
    split; [by rewrite Z.add_0_r, sub_nil|done].
Qed.

(** The probe reads the queue and touches its own two fields. *)
Lemma probe_shape w now una d fin edge qs l s t t0 : tx_ok isn out w now una d fin edge qs l (mkFlowPair s t) ->
  pending t0 = pending t ->
  exists s' r, maybe_emit_zero_window_probe k now (mkFlowPair s t0) = Some (mkFlowPair s' t0, Ok r)
    /\ tx_kept s s' /\ rx_kept s s' /\ status s' = status s /\ option_ok carries_raw r.
Proof.
  intros Htx Hpt. unfold maybe_emit_zero_window_probe. cbn [rx_state tx_state].
  destruct (_ || _); [by exists s, None|].
  destruct (tx_pending _ _ _ _ _ _ _ _ _ _ _ Htx) as (Hcat & _). cbn [tx_state] in Hcat. rewrite Hpt.
  destruct (pending_server_data (pending t)) as [|[|b c] rest]; [by exists s, None|by exists s, None|].
  destruct (flow_packet_ok k s now (server_seq s) (rcv_nxt s) (Z.lor TCP_FLAG_ACK TCP_FLAG_PSH) [b] key)
    as [packet Hpkt].
  rewrite Hpkt. cbn [mbind option_bind].
  pose proof (tx_sent _ _ _ _ _ _ _ _ _ _ _ Htx) as Hd.
  assert (Hlen : w - d = 1 + zlen (c ++ concat rest)).
  { rewrite <- (sub_length out d w) by (unfold len; lia). rewrite <- Hcat. cbn [concat app]. by rewrite zlen_cons. }
  pose proof (zlen_nonneg (c ++ concat rest)).
  assert (Hfin : fin = false).
  { destruct fin; [|done]. destruct (tx_fin _ _ _ _ _ _ _ _ _ _ _ Htx eq_refl) as [? _]. lia. }
  eexists _, (Some packet). split; [reflexivity|]. split; [by split|]. split; [by split|]. split; [done|].
  exists d, s, now, (rcv_nxt s), (Z.lor TCP_FLAG_ACK TCP_FLAG_PSH), [b].
  pose proof (tx_seq _ _ _ _ _ _ _ _ _ _ _ Htx) as Hseq. cbn [rx_state] in Hseq. rewrite Hfin, Z.add_0_r in Hseq.
  rewrite <- Hseq. split; [done|]. change (zlen [b]) with 1. split; [lia|]. split; [lia|]. split; [|done].
  rewrite <- (take_sub out d w 1) by (unfold len; lia). rewrite <- Hcat. done.
Qed.
Lemma probe_ok w now una d fin edge qs l fl : tx_ok isn out w now una d fin edge qs l fl ->
  exists fl' r, maybe_emit_zero_window_probe k now fl = Some (fl', Ok r)
    /\ tx_after w now una d fin edge l fl fl' d fin qs /\ option_ok carries_raw r.
Proof.
  intros Htx. destruct fl as [s t].
  destruct (probe_shape w now una d fin edge qs l s t t Htx eq_refl) as (s' & r & -> & [] & Hk & Hst & Hr).
  eexists _, r. split; [done|]. split; [|done]. split; [by eapply tx_same|lia|done|done].
Qed.

Lemma after_trans w now una d d' d'' edge l fl fl' fl'' fin fin' fin'' qs qs' :
  tx_after w now una d fin edge l fl fl' d' fin' qs -> tx_after w now una d' fin' edge l fl' fl'' d'' fin'' qs' ->
  tx_after w now una d fin edge l fl fl'' d'' fin'' qs'.
Proof. intros [_ H1 F1 K1] [H2 H3 F2 K2]. split; [done|lia|auto|by transitivity (rx_state fl')]. Qed.

Lemma flush_output_ok v w now una d fin edge qs l fl :
  tx_ok isn out w now una d fin edge qs l fl -> 0 <= view_credit v ->
  exists fl' f d' fin' qs', flush_server_output k v now fl = Some (fl', Ok f)
    /\ tx_after w now una d fin edge l fl fl' d' fin' qs' /\ flush_ok f.
Proof.
  intros Htx Hv. unfold flush_server_output. case_bool_decide.
  { exists fl, (mkFlush [] None None false), d, fin, qs. split; [done|]. split; [by apply after_same|].
    split; done. }
  destruct (flush_server_data_ok v w now una d fin edge qs l fl Htx Hv ltac:(done)) as
    (fl1 & packets & d1 & qs1 & -> & H1 & Hpk & _). cbn [mbind option_bind].
  destruct (fin_ok w now una d1 fin edge qs1 l fl1) as (fl2 & r & fin2 & qs2 & -> & H2 & Hr); [apply H1|].
  cbn [mbind option_bind].
  destruct (probe_ok w now una d1 fin2 edge qs2 l fl2) as (fl3 & r' & -> & H3 & Hr'); [apply H2|].
  cbn [mbind option_bind].
  eexists fl3, _, d1, fin2, qs2. split; [reflexivity|]. split; [|by split].
  by eapply after_trans; [eapply after_trans|].
Qed.

(** ** Retransmission *)
Lemma position_of_some {A} (f : A -> bool) l i : position_of f l = Some i ->
  exists x, l !! i = Some x /\ f x = true.
Proof.
  revert i. induction l as [|y l IH]; intros i; cbn [position_of]; [done|].
  destruct (f y) eqn:Hy; [intros [= <-]; by exists y|].
  destruct (position_of f l) as [j|]; [|done]. intros [= <-]. by apply IH.
Qed.

(** A segment sent again keeps its place and its bytes. *)
Lemma chain_insert a qs b i x g : chain isn a qs b -> qs !! i = Some x ->
  s_seq g = s_seq x.2 -> server_segment_len g = server_segment_len x.2 ->
  chain isn a (<[i := (x.1, g)]> qs) b.
Proof.
  revert a i. induction qs as [|y qs IH]; intros a i Hc Hi Hs Hl; [done|].
  cbn [chain] in Hc. destruct Hc as (H1 & H2 & H3 & H4). destruct i as [|i]; cbn in Hi |- *.
  - injection Hi as ->. unfold sent_end in *. cbn [fst snd] in *. rewrite Hs, Hl. done.
  - split; [done|]. split; [done|]. split; [done|]. by apply IH.
Qed.

Lemma send_resend una nxt qs l t i x g t' : send_ok isn una nxt qs l t -> qs !! i = Some x ->
  s_seq g = s_seq x.2 -> server_segment_len g = server_segment_len x.2 ->
  unacked_server_segments t' = <[i := g]> (unacked_server_segments t) ->
  sack_scoreboard t' = sack_scoreboard t -> recovery t' = recovery t -> accounting_exact t' ->
  send_ok isn una nxt (<[i := (x.1, g)]> qs) l t'.
Proof.
  intros [Hq (a & Hc & Ha) Hp Hb Hr Hl Hf Hex] Hi Hs Hlen Hq' Hb' Hr' Hex'.
  split; rewrite ?Hb', ?Hr'; try done.
  - rewrite Hq', Hq, list_fmap_insert. done.
  - exists a. split; [|done]. by apply chain_insert.
  - apply Forall_insert; [done|]. pose proof (proj1 (Forall_lookup _ _) Hp _ _ Hi) as Hx.
    unfold sent_end in *. cbn [fst snd] in *. by rewrite Hlen.
Qed.

Lemma resend_ok w now una d fin edge qs l fl i g g' n e : tx_ok isn out w now una d fin edge qs l fl ->
  unacked_server_segments (tx_state fl) !! i = Some g -> g' = resend g now n e ->
  exists fl' packet qs', resend_at k now fl i g' = Some (fl', Ok (Some packet))
    /\ tx_after w now una d fin edge l fl fl' d fin qs' /\ carries isn k out packet
    /\ rx_state fl' = rx_state fl.
Proof.
  intros Htx Hi ->. unfold resend_at. set (s := rx_state fl). set (t := tx_state fl).
  pose proof (tx_send _ _ _ _ _ _ _ _ _ _ _ Htx) as Hsend.
  pose proof (so_queue _ _ _ _ _ _ Hsend) as Hq. fold t in Hi, Hq.
  rewrite Hq, list_lookup_fmap in Hi. apply fmap_Some in Hi as (x & Hx & ->).
  destruct (so_chain _ _ _ _ _ _ Hsend) as (a & Hc & _).
  pose proof (proj1 (Forall_lookup _ _) (chain_bounds _ _ _ _ Hc) _ _ Hx) as (Hseq & _).
  pose proof (proj1 (Forall_lookup _ _) (tx_segs _ _ _ _ _ _ _ _ _ _ _ Htx) _ _ Hx) as Hg.
  set (g' := resend x.2 now n e).
  destruct (flow_data_header_ok k s now (s_seq g') (Z.max (rcv_nxt s) (s_ack g')) (s_flags g') [s_payload g'] key)
    as [h Hh].
  rewrite Hh. cbn [mbind option_bind result_bind].
  assert (Hlen : server_segment_len g' = server_segment_len x.2) by done.
  eexists _, _, (<[i := (x.1, g')]> qs). split; [reflexivity|]. split; [split|split].
  - destruct Htx as [_ ? ? ? ? ? ? ? ? ? ? ?]. split; cbn [rx_state tx_state]; try done.
    + by eapply send_resend.
    + intros Hs. specialize (tx_open Hs). subst qs. done.
    + apply Forall_insert; [done|]. destruct Hg. by split.
    + apply Forall_insert; [done|]. cbn. lia.
  - lia.
  - done.
  - done.
  - exists x.1, s, now, (Z.max (rcv_nxt s) (s_ack g')), (s_flags g'). cbn [d_payload d_vnet d_header].
    change (s_payload g') with (s_payload x.2). cbn [concat]. rewrite app_nil_r, sum_len_cons.
    cbn [sum_len foldr]. rewrite Z.add_0_r. rewrite <- Hseq. destruct Hg. done.
  - done.
Qed.

Lemma fast_retransmit_ok w now una d fin edge qs l fl : tx_ok isn out w now una d fin edge qs l fl ->
  exists fl' r qs', retransmit_oldest_unacked_packet k now fl = Some (fl', Ok r)
    /\ tx_after w now una d fin edge l fl fl' d fin qs' /\ option_ok (carries isn k out) r
    /\ rx_state fl' = rx_state fl.
Proof.
  intros Htx. unfold retransmit_oldest_unacked_packet.
  destruct (fast_retransmit_index (tx_state fl)) as [i|] eqn:Hi;
    [|exists fl, None, qs; split; [done|]; split; [by apply after_same|done]].
  assert (Hg : exists g, unacked_server_segments (tx_state fl) !! i = Some g).
  { unfold fast_retransmit_index in Hi. destruct (highest_sacked_end _);
      apply position_of_some in Hi as (g & ? & _); by exists g. }
  destruct Hg as [g Hg]. rewrite Hg. cbn [mbind option_bind].
  destruct (resend_ok w now una d fin edge qs l fl i g _ (s_rto_retransmits g)
    (recovery_epoch (recovery (tx_state fl))) Htx Hg eq_refl) as (fl' & packet & qs' & -> & H).
  by exists fl', (Some packet), qs'.
Qed.

Lemma due_retransmit_ok w now una d fin edge qs l fl : tx_ok isn out w now una d fin edge qs l fl ->
  exists fl' r qs', retransmit_due_segment k now fl = Some (fl', Ok r)
    /\ tx_after w now una d fin edge l fl fl' d fin qs' /\ option_ok (carries isn k out) r
    /\ rx_state fl' = rx_state fl.
Proof.
  intros Htx. unfold retransmit_due_segment. cbn zeta.
  match goal with |- context [match ?o with Some _ => _ | None => Some (fl, _) end] => destruct o as [i|] eqn:Hi end;
    [|exists fl, None, qs; split; [done|]; split; [by apply after_same|done]].
  assert (Hg : exists g, unacked_server_segments (tx_state fl) !! i = Some g).
  { destruct (preferred_retransmit_index _) as [j|];
      [destruct (unacked_server_segments (tx_state fl) !! j) as [g|] eqn:Hj; [destruct (_ <=? _)|]|];
      first [injection Hi as <-; by exists g | apply position_of_some in Hi as (g' & ? & _); by exists g']. }
  destruct Hg as [g Hg]. rewrite Hg. cbn [mbind option_bind].
  destruct (resend_ok w now una d fin edge qs l fl i g _ (sat_add 32 (s_rto_retransmits g) 1)
    (s_fast_retransmit_epoch g) Htx Hg eq_refl) as (fl' & packet & qs' & -> & H).
  by exists fl', (Some packet), qs'.
Qed.

(** ** The handlers *)

(** Where a handler leaves the flow. *)
Definition tx_moved (w now d : Z) (fin : bool) (edge : Z) (l : list span) (una' : Z) (fl' : Flow) : Prop :=
  exists d' fin' qs', tx_ok isn out w now una' d' fin' edge qs' l fl' /\ d <= d' <= Z.max d edge /\ (fin = true -> fin' = true).

Lemma moved_after w now una d fin edge l fl fl' d' fin' qs' :
  tx_after w now una d fin edge l fl fl' d' fin' qs' -> tx_moved w now d fin edge l una fl'.
Proof. intros [H1 H2 H3 _]. by exists d', fin', qs'. Qed.
Lemma moved_same w now una d fin edge qs l fl : tx_ok isn out w now una d fin edge qs l fl ->
  tx_moved w now d fin edge l una fl.
Proof. intros H. exists d, fin, qs. split; [done|]. split; [lia|done]. Qed.
Lemma moved_kept w now una d fin edge l s s' t : tx_moved w now d fin edge l una (mkFlowPair s t) -> tx_kept s s' ->
  tx_moved w now d fin edge l una (mkFlowPair s' t).
Proof. intros (d' & fin' & qs' & H & Hd) []. exists d', fin', qs'. split; [by eapply tx_same|done]. Qed.

Definition action_ok (act : PacketAction) : Prop :=
  match act with
  | WriteFin packet => carries_raw packet
  | WriteRetransmit packet => carries isn k out packet
  | Delivered _ _ f => flush_ok f
  | Silent | Closed_ _ | Aborted _ | WriteSynAck _ | WriteAck _ => True
  end.
Definition handled_ok {A} (P : A -> Prop) (w now d : Z) (fin : bool) (edge : Z) (l : list span) (una : Z) (r : handled A) : Prop :=
  exists fl' a, r = Some (fl', Ok a) /\ tx_moved w now d fin edge l una fl' /\ P a.

Lemma pure_ack_ok w now una d fin edge qs l fl : tx_ok isn out w now una d fin edge qs l fl ->
  handled_ok action_ok w now d fin edge l una (write_pure_ack k now fl).
Proof.
  intros Htx. unfold write_pure_ack, emit.
  destruct (flow_ack_ok k (rx_state fl) now (server_seq (rx_state fl)) (rcv_nxt (rx_state fl)) TCP_FLAG_ACK key)
    as [p ->]. cbn. eexists fl, _. split; [done|]. split; [by eapply moved_same|done].
Qed.

Lemma apply_flush_ok v w now una d fin edge qs l fl trimmed :
  tx_ok isn out w now una d fin edge qs l fl -> 0 <= view_credit v ->
  handled_ok (fun o => flush_ok (server_flush o)) w now d fin edge l una (apply_inbound_and_flush k v now fl trimmed).
Proof.
  intros Htx Hv. unfold apply_inbound_and_flush.
  pose proof (apply_inbound_keeps (rx_state fl) trimmed) as Hk.
  destruct (apply_inbound (rx_state fl) trimmed) as [[s payload] closed]. cbn [fst] in Hk.
  destruct (flush_output_ok v w now una d fin edge qs l (mkFlowPair s (tx_state fl))) as
    (fl' & f & d' & fin' & qs' & -> & Ha & Hf); [by destruct fl, Hk; eapply tx_same|done|].
  cbn [mbind option_bind].
  match goal with |- context [resolve_client_ack ?a ?b ?c ?e ?g ?h ?i] =>
    pose proof (resolve_keeps a b c e g h i) as Hr; destruct (resolve_client_ack a b c e g h i) as [s2 immediate] end.
  cbn [fst] in Hr. pose proof (moved_after _ _ _ _ _ _ _ _ _ _ _ _ Ha) as Hm.
  assert (Hm2 : tx_moved w now d fin edge l una (mkFlowPair s2 (tx_state fl')))
    by (eapply moved_kept; [|exact Hr]; by destruct fl').
  destruct immediate.
  - destruct (flow_ack_ok k s2 now (server_seq s) (rcv_nxt s) TCP_FLAG_ACK key) as [p ->].
    cbn. by eexists _, _.
  - by eexists _, _.
Qed.

Lemma inbound_ok config v w now una d fin edge qs l fl p :
  tx_ok isn out w now una d fin edge qs l fl -> 0 <= view_credit v ->
  handled_ok action_ok w now d fin edge l una (handle_inbound_segment k config v now fl p).
Proof.
  intros Htx Hv. unfold handle_inbound_segment. set (s := rx_state fl).
  pose proof (moved_same _ _ _ _ _ _ _ _ _ Htx) as Hm.
  assert (Hack : forall s', tx_kept s s' ->
    handled_ok action_ok w now d fin edge l una (write_pure_ack k now (mkFlowPair s' (tx_state fl)))).
  { intros s' []. eapply pure_ack_ok. destruct fl. by eapply tx_same. }
  destruct (server_fin_awaiting_ack (status s) && _) eqn:Ew.
  { apply andb_true_iff in Ew as [Ew _]. pose proof (tx_status _ _ _ _ _ _ _ _ _ _ _ Htx) as Hst.
    fold s in Hst. assert (Hfin : fin = true) by (rewrite Hst; by destruct (status s)).
    rewrite Hfin in *. destruct (tx_fin _ _ _ _ _ _ _ _ _ _ _ Htx eq_refl) as [Hd _].
    pose proof (tx_seq _ _ _ _ _ _ _ _ _ _ _ Htx) as Hseq. fold s in Hseq.
    assert (Hprev : wsub32 (server_seq s) 1 = sq isn d)
      by (rewrite Hseq; unfold wsub32, sq; rewrite Zminus_mod_idemp_l; f_equal; lia).
    rewrite Hprev. unfold emit.
    destruct (flow_packet_ok k s now (sq isn d) (rcv_nxt s) (Z.lor TCP_FLAG_FIN TCP_FLAG_ACK) [] key)
      as [packet Hp].
    rewrite Hp. cbn. eexists fl, _. split; [done|]. split; [done|]. cbn.
    pose proof (tx_sent _ _ _ _ _ _ _ _ _ _ _ Htx).
    eexists d, _, _, _, _, _. split; [exact Hp|]. change (zlen []) with 0.
    split; [lia|]. split; [lia|]. split; [by rewrite Z.add_0_r, sub_nil|done]. }
  destruct (client_fin_seen (status s) && _); [destruct fl; by apply Hack|].
  destruct (classify_inbound_segment s p) as [| |trimmed].
  - pose proof (queue_keeps s config p) as Hk.
    destruct (queue_future_segment_with_recv_window s config p) as [s' o]. cbn [fst] in Hk.
    destruct o; [apply Hack; by destruct Hk; split..|].
    eexists _, _. split; [reflexivity|]. split; [|done]. eapply moved_kept; [|exact Hk]. by destruct fl.
  - apply Hack. by split.
  - destruct (apply_flush_ok v w now una d fin edge qs l fl trimmed Htx Hv) as (fl' & o & -> & Hm' & Hf).
    cbn [mbind option_bind].
    match goal with |- context [mkFlowPair ?x (tx_state fl')] => set (s' := x) end.
    assert (Hk : tx_kept (rx_state fl') s').
    { unfold s'. destruct (should_close_client_half o); [|by split].
      etransitivity; [|apply client_fin_keeps]. by split. }
    assert (Hm2 : tx_moved w now d fin edge l una (mkFlowPair s' (tx_state fl')))
      by (eapply moved_kept; [|exact Hk]; by destruct fl').
    match goal with |- context [if ?c then Some (_, Ok (Aborted _)) else _] => destruct c end;
      eexists _, _; (split; [reflexivity|]); by split.
Qed.

(** [s] is the state with the packet absorbed, its window edge [edge'] in it,
    [s0] the one before. *)
Lemma ack_ok config v a w now una d fin edge edge' qs l s0 s t t0 p A blocks :
  tx_ok isn out w now una d fin edge qs l (mkFlowPair s0 t) -> 0 <= view_credit v ->
  server_seq s = server_seq s0 -> server_fin_sent (status s) = server_fin_sent (status s0) ->
  status s <> SynReceived ->
  client_window_end s = sq isn edge' -> d - 2 ^ 30 - SLACK <= edge' <= Z.max una A + 2 ^ 30 ->
  acknowledgement_number p = sq isn A -> sack_blocks p = map (block_at isn) blocks ->
  una - SLACK <= A <= d + (if fin then 1 else 0) ->
  Forall (span_in (una - SLACK) (d + (if fin then 1 else 0))) blocks ->
  process_server_ack t0 (server_seq s) now (sq isn A) (sack_blocks p)
    = process_server_ack t (server_seq s) now (sq isn A) (sack_blocks p) ->
  exists l', (forall i, covered_by l' i -> covered_by l i \/ covered_by blocks i)
    /\ handled_ok action_ok w now d fin edge' l' (Z.max una A)
         (handle_acknowledgement k config v a now (mkFlowPair s t0) p).
Proof.
  intros Htx Hv Hseq Hfs Hns Hwe Hed HA Hb HAr Hbr Hproc. unfold handle_acknowledgement. cbn [rx_state tx_state].
  rewrite HA, Hproc, Hb.
  destruct (process_ok isn una (d + (if fin then 1 else 0)) qs l t (server_seq s) now A blocks) as
    (qs1 & qs2 & l' & Hsplit & _ & Hs & Hcov & Hkeep); [apply Htx|done|done|].
  destruct (process_server_ack t (server_seq s) now (sq isn A) (map (block_at isn) blocks)) as [t1 effect].
  cbn [fst] in Hs, Hkeep. exists l'. split; [done|].
  assert (Htx1 : tx_ok isn out w now (Z.max una A) d fin edge' qs2 l' (mkFlowPair s t1)).
  { destruct Htx as [? ? ? ? ? ? ? ? Hop Hsg Hcl [Hedge He]], Hkeep as [K1 K2 K3]. cbn [rx_state tx_state] in *.
    rewrite Hsplit in Hsg, Hcl. apply Forall_app in Hsg as [_ Hsg]. apply Forall_app in Hcl as [_ Hcl].
    split; cbn [rx_state tx_state]; rewrite ?K1, ?K2, ?Hseq, ?Hfs; try done. lia. }
  clear Htx Hs. set (t2 := if has_ack_progress effect then _ else _).
  assert (Htx2 : tx_ok isn out w now (Z.max una A) d fin edge' qs2 l' (mkFlowPair s t2)).
  { unfold t2. clear t2. destruct (has_ack_progress effect); [|done].
    unfold note_ack_progress. by repeat case_match; eapply tx_same. }
  clearbody t2. clear Htx1.
  match goal with |- context [let (_, _) := ?x in _] => set (sc := x) end.
  assert (Hsc : tx_kept s sc.1).
  { unfold sc. destruct (_ && _); [apply server_fin_ack_keeps|done]. }
  destruct sc as [s3 closed]. cbn [fst] in Hsc.
  assert (Htx3 : tx_ok isn out w now (Z.max una A) d fin edge' qs2 l' (mkFlowPair s3 t2))
    by (destruct Hsc; by eapply tx_same).
  destruct closed.
  { eexists _, _. split; [reflexivity|]. split; [by eapply moved_same|done]. }
  destruct (retransmit_now effect); [|by eapply inbound_ok].
  destruct (fast_retransmit_ok w now (Z.max una A) d fin edge' qs2 l' _ Htx3) as
    (fl' & r & qs' & -> & Ha & Hr & Hrx).
  cbn [mbind option_bind]. destruct r as [packet|].
  - destruct (retransmit_budget_exhausted _ _); eexists _, _; (split; [reflexivity|]);
      (split; [by eapply moved_after|done]).
  - eapply inbound_ok; [apply Ha|done].
Qed.

(** A flow as it is between handlers: before the handshake ends the last
    acknowledgement is whatever the SYN left. *)
Definition flow_ok (w clock una d : Z) (fin : bool) (edge : Z) (qs : list sent) (l : list span)
    (fl : Flow) : Prop :=
  tx_ok isn out w clock una d fin edge qs l fl
  \/ (status (rx_state fl) = SynReceived /\ unacked_server_segments (tx_state fl) = []
      /\ exists last, tx_ok isn out w clock una d fin edge qs l
           (mkFlowPair (rx_state fl) (with_last (tx_state fl) last))).

(** A packet whose acknowledgement stands at [A], at most [SLACK] behind what
    was acknowledged, with the SACK blocks [blocks] over what was sent. *)
Record acks (una nxt : Z) (p : ParsedTcpPacket) (A : Z) (blocks : list span) : Prop := {
  k_number : acknowledgement_number p = sq isn A;
  k_blocks : sack_blocks p = map (block_at isn) blocks;
  k_range : una - SLACK <= A <= nxt + 2 ^ 30;
  k_sent : Forall (span_in (una - SLACK) nxt) blocks;
  k_flags : has_flag (flags p) TCP_FLAG_ACK = true \/ has_flag (flags p) TCP_FLAG_SYN = true
            \/ has_flag (flags p) TCP_FLAG_RST = true;
  k_window : 0 <= window_size p < 2 ^ 16
}.

Lemma decoded_range p scale : 0 <= window_size p < 2 ^ 16 -> 0 <= decode_client_window p scale < 2 ^ 30.
Proof.
  intros H. unfold decode_client_window. destruct (has_flag _ _); [lia|].
  destruct (Z.le_gt_cases 0 scale).
  - rewrite Z.shiftl_mul_pow2 by lia.
    assert (2 ^ Z.min scale 14 <= 2 ^ 14) by (apply Z.pow_le_mono_r; lia).
    assert (0 < 2 ^ Z.min scale 14) by (apply Z.pow_pos_nonneg; lia).
    rewrite Z.mod_small; nia.
  - rewrite <- (Z.opp_involutive (Z.min scale 14)), Z.shiftl_opp_r, Z.shiftr_div_pow2 by lia.
    assert (0 < 2 ^ (- Z.min scale 14)) by (apply Z.pow_pos_nonneg; lia).
    pose proof (Z.div_le_upper_bound (window_size p) (2 ^ (- Z.min scale 14)) (window_size p) ltac:(lia) ltac:(nia)).
    pose proof (Z.div_pos (window_size p) (2 ^ (- Z.min scale 14)) ltac:(lia) ltac:(lia)).
    rewrite Z.mod_small; lia.
Qed.

(** What is new after a packet: the acknowledged position, the edge, what is
    reported. *)
Record packet_effect (una nxt A edge w0 una' edge' : Z) (l blocks l' : list span) : Prop := {
  e_una : una <= una' <= Z.max una (Z.min A nxt);
  e_edge : edge' = edge \/ edge' = A + w0;
  e_cover : forall i, covered_by l' i -> covered_by l i \/ covered_by blocks i
}.
Lemma no_effect_ok una nxt A edge w0 l blocks : packet_effect una nxt A edge w0 una edge l blocks l.
Proof. split; [lia|by left|by left]. Qed.

Definition packet_ok (w now una d : Z) (fin : bool) (edge w0 A : Z) (l blocks : list span)
    (r : handled PacketAction) : Prop :=
  exists fl' act una' d' fin' edge' qs' l',
    r = Some (fl', Ok act) /\ flow_ok w now una' d' fin' edge' qs' l' fl' /\ action_ok act
    /\ d <= d' <= Z.max d edge' /\ (fin = true -> fin' = true)
    /\ packet_effect una (d + (if fin then 1 else 0)) A edge w0 una' edge' l blocks l'.

Lemma packet_noop w now una d fin edge qs l blocks w0 A fl act :
  flow_ok w now una d fin edge qs l fl -> action_ok act ->
  packet_ok w now una d fin edge w0 A l blocks (Some (fl, Ok act)).
Proof. intros Hf Ha. exists fl, act, una, d, fin, edge, qs, l. split; [done|]. repeat split; try done; [lia..|by left|by left]. Qed.

Lemma write_syn_ack_ok w now una d fin edge qs l blocks w0 A fl :
  flow_ok w now una d fin edge qs l fl ->
  packet_ok w now una d fin edge w0 A l blocks (write_syn_ack k now fl).
Proof.
  intros Hf. unfold write_syn_ack, emit.
  destruct (flow_syn_ack_ok k (rx_state fl) now (wsub32 (server_seq (rx_state fl)) 1) (rcv_nxt (rx_state fl)) key)
    as [p ->]. by eapply packet_noop.
Qed.
Lemma write_ack_noop w now una d fin edge qs l blocks w0 A fl :
  flow_ok w now una d fin edge qs l fl ->
  packet_ok w now una d fin edge w0 A l blocks (write_pure_ack k now fl).
Proof.
  intros Hf. unfold write_pure_ack, emit.
  destruct (flow_ack_ok k (rx_state fl) now (server_seq (rx_state fl)) (rcv_nxt (rx_state fl)) TCP_FLAG_ACK key)
    as [p ->]. by eapply packet_noop.
Qed.

(** The state both forms of [flow_ok] speak of. *)
Lemma flow_tx w now una d fin edge qs l fl : flow_ok w now una d fin edge qs l fl ->
  exists t, tx_ok isn out w now una d fin edge qs l (mkFlowPair (rx_state fl) t)
    /\ (t = tx_state fl
        \/ status (rx_state fl) = SynReceived /\ unacked_server_segments (tx_state fl) = []
           /\ exists last, t = with_last (tx_state fl) last).
Proof.
  intros [H|(Hs & Hq & last & H)]; [exists (tx_state fl); split; [by destruct fl|by left]|].
  exists (with_last (tx_state fl) last). split; [done|]. right. split; [done|]. split; [done|]. by exists last.
Qed.
Lemma flow_of_tx w now una d fin edge qs l s s0 t t0 :
  tx_ok isn out w now una d fin edge qs l (mkFlowPair s t) ->
  (t = t0 \/ status s0 = SynReceived /\ unacked_server_segments t0 = [] /\ exists last, t = with_last t0 last) ->
  status s = status s0 -> flow_ok w now una d fin edge qs l (mkFlowPair s t0).
Proof.
  intros H [->|(Hs & Hq & last & ->)] Heq; [by left|]. right. cbn. split; [congruence|]. split; [done|by exists last].
Qed.

Lemma handler_ok config v a w now una d fin edge qs l fl p A blocks :
  flow_ok w now una d fin edge qs l fl -> 0 <= view_credit v ->
  acks una (d + (if fin then 1 else 0)) p A blocks ->
  packet_ok w now una d fin edge (decode_client_window p (client_window_scale (rx_state fl))) A l blocks
    (handle_existing_flow k config v a now fl p).
Proof.
  intros Hf Hv [Hn Hbl HA Hsp Hfl Hwin]. unfold handle_existing_flow. set (s := rx_state fl).
  destruct (bool_decide (status s = SynReceived) && is_duplicate_syn p (rcv_nxt s)); [by eapply write_syn_ack_ok|].
  destruct (validate_existing_packet s p) eqn:Eval;
    [|by eapply packet_noop|by eapply write_ack_noop|by eapply packet_noop].
  apply validate_accept in Eval as (Hrst & Hsyn & Hack & _).
  destruct Hfl as [Hfl|[?|?]]; [|congruence|congruence]. specialize (Hack Hfl).
  destruct (flow_tx _ _ _ _ _ _ _ _ _ Hf) as (t & Htx & Ht). fold s in Htx, Ht.
  set (nxt := d + (if fin then 1 else 0)) in *.
  pose proof (tx_seq _ _ _ _ _ _ _ _ _ _ _ Htx) as Hseq. cbn [rx_state] in Hseq. fold nxt in Hseq.
  destruct (tx_far _ _ _ _ _ _ _ _ _ Htx) as [_ Hflight]. fold nxt in Hflight.
  rewrite Hn, Hseq, seq_gt_sq in Hack by (unfold SLACK in *; lia).
  assert (HAn : A <= nxt) by lia. clear Hack.
  set (w0 := decode_client_window p (client_window_scale s)).
  pose proof (decoded_range p (client_window_scale s) Hwin) as Hw0. fold w0 in Hw0.
  destruct (absorb_keeps s p now) as (Ks & _ & Kq & _ & _ & _ & Kw).
  set (s1 := absorb_accepted_client_packet s p now) in *.
  pose proof (tx_edge _ _ _ _ _ _ _ _ _ _ _ Htx) as [Hedge He]. cbn [rx_state] in Hedge.
  assert (Hedge' : exists edge', client_window_end s1 = sq isn edge' /\ (edge' = edge \/ edge' = A + w0)).
  { destruct Kw as [->|(wd & -> & ->)]; [exists edge; split; [done|by left]|].
    exists (A + w0). rewrite Hn, wadd32_sq. split; [done|by right]. }
  destruct Hedge' as (edge' & Hwe & Hed).
  assert (Hrange : d - 2 ^ 30 - SLACK <= edge' <= Z.max una A + 2 ^ 30).
  { unfold SLACK in *. destruct fin; unfold nxt in *; lia. }
  assert (Hpacket : forall s2, server_seq s2 = server_seq s1 -> client_window_end s2 = client_window_end s1 ->
    server_fin_sent (status s2) = server_fin_sent (status s1) -> status s2 <> SynReceived ->
    packet_ok w now una d fin edge w0 A l blocks
      (handle_acknowledgement k config v a now (mkFlowPair s2 (tx_state fl)) p)).
  { intros s2 H2 H3 H4 H5.
    destruct (ack_ok config v a w now una d fin edge edge' qs l s s2 t (tx_state fl) p A blocks) as
      (l' & Hcov & fl' & act & -> & (d' & fin' & qs' & Htx' & Hd' & Hfin') & Hact); try done.
    - congruence.
    - by rewrite H4, Ks.
    - congruence.
    - fold nxt. lia.
    - destruct Ht as [->|(_ & Hq & last & ->)]; [done|]. by rewrite process_last.
    - exists fl', act, (Z.max una A), d', fin', edge', qs', l'. split; [done|]. split; [by left|].
      split; [done|]. split; [done|]. split; [done|]. split; [fold nxt; lia|done|done]. }
  case_bool_decide as Hst.
  - destruct (completes_syn_received_handshake _ _ _ _ _).
    + apply Hpacket; unfold set_flow_status; rewrite bool_decide_false by congruence; try done. cbn. by rewrite Hst.
    + rewrite Ks in Hst. pose proof (tx_open _ _ _ _ _ _ _ _ _ _ _ Htx Hst) as ->.
      destruct (so_chain _ _ _ _ _ _ (tx_send _ _ _ _ _ _ _ _ _ _ _ Htx)) as (b & Hb & Hbu).
      cbn [chain] in Hb. fold nxt in Hb.
      assert (Htx1 : tx_ok isn out w now una d fin edge' [] l (mkFlowPair s1 t)).
      { destruct Htx. split; cbn [rx_state tx_state] in *; try done.
        - congruence.
        - by rewrite Ks.
        - split; [done|lia]. }
      destruct (write_syn_ack_ok w now una d fin edge' [] l blocks w0 A (mkFlowPair s1 (tx_state fl))) as
        (fl' & act & una' & d' & fin' & e' & qs' & l' & Hr & H1 & H2 & H3 & H4 & [E1 E2 E3]).
      { eapply flow_of_tx; [exact Htx1|exact Ht|done]. }
      exists fl', act, una', d', fin', e', qs', l'. split; [exact Hr|]. split; [done|]. split; [done|].
      split; [done|]. split; [done|]. split; [done| |done]. destruct E2 as [->| ->]; [done|by right].
  - apply Hpacket; done.
Qed.

(** ** The timer *)
Definition plan_ok (plan : FlowMaintenancePlan) : Prop :=
  match plan with
  | SendPacket packet event => event = "zero_window_probe"%string -> carries_raw packet
  | SendDataPacket packet => carries isn k out packet
  | FlushServer f => flush_ok f
  | Wait _ | PlanAbort _ | PlanClose _ => True
  end.
(** A handler that acknowledges nothing: the flow, and what it gives. *)
Definition step_ok {A} (P : A -> Prop) (w now una d : Z) (fin : bool) (edge : Z) (l : list span) (r : handled A) : Prop :=
  exists fl' a d' fin' qs', r = Some (fl', Ok a) /\ flow_ok w now una d' fin' edge qs' l fl'
    /\ d <= d' <= Z.max d edge /\ (fin = true -> fin' = true) /\ P a.

Lemma step_noop {A} (P : A -> Prop) w now una d fin edge qs l fl a : flow_ok w now una d fin edge qs l fl -> P a ->
  step_ok P w now una d fin edge l (Some (fl, Ok a)).
Proof. intros H Ha. exists fl, a, d, fin, qs. split; [done|]. split; [done|]. split; [lia|by split]. Qed.

Lemma flow_kept w now una d fin edge qs l s s' t : flow_ok w now una d fin edge qs l (mkFlowPair s t) ->
  tx_kept s s' -> status s' = status s -> flow_ok w now una d fin edge qs l (mkFlowPair s' t).
Proof.
  intros H [Kq Kw Ks Ko] Hst. destruct (flow_tx _ _ _ _ _ _ _ _ _ H) as (t' & Htx & Ht). cbn [rx_state tx_state] in *.
  eapply flow_of_tx; [|exact Ht|done]. by eapply tx_same.
Qed.

Lemma flow_flush v w now una d fin edge qs l fl : flow_ok w now una d fin edge qs l fl -> 0 <= view_credit v ->
  step_ok flush_ok w now una d fin edge l (flush_server_output k v now fl).
Proof.
  intros [H|H] Hv.
  - destruct (flush_output_ok v w now una d fin edge qs l fl H Hv) as (fl' & f & d' & fin' & qs' & -> & [] & Hf).
    exists fl', f, d', fin', qs'. split; [done|]. by split; [left|].
  - unfold flush_server_output. rewrite bool_decide_true by apply H.
    eapply step_noop; [by right|]. by split.
Qed.

Lemma flow_delayed_ack config w now una d fin edge qs l idle fl : flow_ok w now una d fin edge qs l fl ->
  step_ok plan_ok w now una d fin edge l (plan_delayed_ack k config idle now fl).
Proof.
  intros H. unfold plan_delayed_ack. destruct (is_due _ _); [|by eapply step_noop].
  destruct (flow_ack_ok k (rx_state fl) now (server_seq (rx_state fl)) (rcv_nxt (rx_state fl)) TCP_FLAG_ACK key)
    as [p ->]. cbn [mbind option_bind]. eapply step_noop; [|done].
  destruct fl as [s t]. by eapply flow_kept.
Qed.

Lemma flow_keepalive config w now una d fin edge qs l idle fl : flow_ok w now una d fin edge qs l fl ->
  step_ok plan_ok w now una d fin edge l (plan_keepalive k config idle now fl).
Proof.
  intros H. unfold plan_keepalive. destruct (_ && _); [by eapply step_noop|].
  destruct (keepalive_probe_is_due _ _ _); [|by eapply flow_delayed_ack].
  unfold maybe_emit_keepalive_probe. destruct (next_keepalive_deadline _ _ _) as [deadline|];
    [|by eapply flow_delayed_ack].
  destruct (now <? deadline); [by eapply flow_delayed_ack|].
  destruct (flow_ack_ok k (rx_state fl) now (wsub32 (server_seq (rx_state fl)) 1) (rcv_nxt (rx_state fl)) TCP_FLAG_ACK key)
    as [p ->]. cbn [mbind option_bind]. eapply step_noop; [|done].
  destruct fl as [s t]. by eapply flow_kept.
Qed.

Lemma flow_send config v w now una d fin edge qs l idle fl : flow_ok w now una d fin edge qs l fl ->
  0 <= view_credit v -> step_ok plan_ok w now una d fin edge l (plan_send k config v idle now fl).
Proof.
  intros H Hv. unfold plan_send. destruct (is_due _ _).
  { destruct (flow_flush v w now una d fin edge qs l fl H Hv) as (fl' & f & d' & fin' & qs' & -> & Hr).
    by exists fl', (FlushServer f), d', fin', qs'. }
  destruct (zero_window_probe_is_due _ _); [|by eapply flow_keepalive].
  destruct (flow_tx _ _ _ _ _ _ _ _ _ H) as (t & Htx & Ht). destruct fl as [s t0]. cbn [rx_state tx_state] in *.
  destruct (probe_shape w now una d fin edge qs l s t t0 Htx) as (s' & r & -> & Hk & _ & Hst & Hr).
  { destruct Ht as [->|(_ & _ & last & ->)]; done. }
  cbn [mbind option_bind].
  assert (H' : flow_ok w now una d fin edge qs l (mkFlowPair s' t0))
    by exact (flow_kept _ _ _ _ _ _ _ _ s s' t0 H Hk Hst).
  destruct r as [packet|]; [eapply step_noop; [exact H'|intros _; exact Hr]|by eapply flow_keepalive].
Qed.

Lemma due_none now fl : unacked_server_segments (tx_state fl) = [] ->
  retransmit_due_segment k now fl = Some (fl, Ok None).
Proof.
  intros H. unfold retransmit_due_segment, preferred_retransmit_index. rewrite H. cbn.
  by destruct (highest_sacked_end _).
Qed.

Lemma timer_ok config v w now una d fin edge qs l idle fl : flow_ok w now una d fin edge qs l fl ->
  0 <= view_credit v -> step_ok plan_ok w now una d fin edge l (plan_flow_maintenance k config v idle now fl).
Proof.
  intros H Hv. unfold plan_flow_maintenance.
  destruct (time_wait_expired _ _ _); [by eapply step_noop|].
  destruct (handshake_timed_out _ _ _ _); [by eapply step_noop|].
  destruct (half_close_timed_out _ _ _ _); [by eapply step_noop|].
  destruct (idle_timed_out _ _ _ _); [by eapply step_noop|].
  destruct (retransmit_is_due _ _); [|by eapply flow_send].
  destruct H as [H|H].
  - destruct (due_retransmit_ok w now una d fin edge qs l fl H) as (fl' & r & qs' & -> & Ha & Hr & Hrx).
    cbn [mbind option_bind]. destruct r as [packet|]; [|eapply flow_send; [left; apply Ha|done]].
    assert (H' : flow_ok w now una d fin edge qs' l (mkFlowPair (rx_state fl') (note_congestion_event (tx_state fl') true))).
    { left. destruct Ha as [Ha _ _]. destruct fl'. by eapply tx_same. }
    destruct (retransmit_budget_exhausted _ _); by eapply step_noop.
  - rewrite due_none by apply H. cbn [mbind option_bind]. eapply flow_send; [by right|done].
Qed.

(** ** The reader *)
Lemma pending_push p rest chunk : pending_ok p rest -> pending_ok (push_pending_server p chunk) (rest ++ chunk).
Proof.
  intros (H1 & H2 & H3). unfold pending_ok, push_pending_server, charge_pending_server.
  cbn [pending_server_data pending_server_bytes_total budget_share].
  rewrite concat_app, H1, zlen_app, H2, H3. cbn [concat]. by rewrite app_nil_r.
Qed.

(** More of the stream is read. *)
Lemma tx_read w now una d fin edge qs l s s' t chunk :
  tx_ok isn out w now una d fin edge qs l (mkFlowPair s t) ->
  w + zlen chunk <= zlen out -> chunk = sub out w (w + zlen chunk) -> tx_kept s s' ->
  tx_ok isn out (w + zlen chunk) now una d fin edge qs l
    (mkFlowPair s' (set_pending t (push_pending_server (pending t) chunk))).
Proof.
  intros [Hs ? ? Hd Hp ? Heof ? ? ? ? ?] Hw Hc [Kq Kw Ks Ko]. cbn [rx_state tx_state] in *.
  pose proof (zlen_nonneg chunk).
  split; cbn [rx_state tx_state]; rewrite ?Kq, ?Kw, ?Ks; try done.
  - by eapply send_same.
  - lia.
  - cbn. rewrite <- (sub_app out d w (w + zlen chunk)) by (unfold len; lia). rewrite <- Hc. by apply pending_push.
  - cbn. intros Hf. specialize (Heof Hf). lia.
  - auto.
Qed.

Lemma reader_ok v w now una d fin edge qs l fl chunk : flow_ok w now una d fin edge qs l fl -> 0 <= view_credit v ->
  w + zlen chunk <= zlen out -> chunk = sub out w (w + zlen chunk) ->
  match reader_chunk k v now fl chunk with
  | Some None => True
  | Some (Some r) => step_ok flush_ok (w + zlen chunk) now una d fin edge l (Some r)
  | None => False
  end.
Proof.
  intros H Hv Hw Hc. unfold reader_chunk. case_bool_decide; [done|].
  destruct (flow_tx _ _ _ _ _ _ _ _ _ H) as (t & Htx & Ht). destruct fl as [s t0]. cbn [rx_state tx_state] in *.
  pose proof (tx_read w now una d fin edge qs l s (set_last_seen s now) t chunk Htx Hw Hc ltac:(by split)) as Hr.
  assert (Hf : flow_ok (w + zlen chunk) now una d fin edge qs l
    (mkFlowPair (set_last_seen s now) (set_pending t0 (push_pending_server (pending t0) chunk)))).
  { eapply flow_of_tx; [exact Hr| |done].
    destruct Ht as [->|(Hs & Hq & last & ->)]; [by left|]. right. split; [exact Hs|]. split; [done|]. by exists last. }
  destruct (flow_flush v (w + zlen chunk) now una d fin edge qs l _ Hf Hv) as (fl' & f & d' & fin' & qs' & -> & Hres).
  cbn. exists fl', f, d', fin', qs'. done.
Qed.

Lemma eof_ok v w now una d fin edge qs l fl : flow_ok w now una d fin edge qs l fl -> 0 <= view_credit v ->
  w = zlen out -> step_ok flush_ok w now una d fin edge l (reader_eof k v now fl).
Proof.
  intros H Hv Hw. unfold reader_eof. destruct (bool_decide _ || server_fin_sent _) eqn:E; [eapply step_noop; [done|by split]|].
  apply orb_false_iff in E as [_ Hfs].
  destruct (flow_tx _ _ _ _ _ _ _ _ _ H) as (t & Htx & Ht). destruct fl as [s t0]. cbn [rx_state tx_state] in *.
  apply (flow_flush v w now una d fin edge qs l); [|done].
  eapply (flow_of_tx _ _ _ _ _ _ _ _ _ s (set_fin_pending t true)); [| |done].
  - destruct Htx as [Hs ? ? ? ? Hf ? Hst ? ? ? ?]. cbn [rx_state tx_state] in *.
    split; cbn [rx_state tx_state]; try done; [by eapply send_same|]. intros ->. congruence.
  - destruct Ht as [->|(Hs & Hq & last & ->)]; [by left|]. right. split; [exact Hs|]. split; [done|]. by exists last.
Qed.

(** ** The run *)
Inductive WirePacket : Type := WData (packet : ServerDataPacket) | WRaw (packet : bytes).
Definition raw (o : option bytes) : list WirePacket := match o with Some p => [WRaw p] | None => [] end.
Definition flush_wire (f : ServerFlush) : list WirePacket :=
  map WData (data_packets f) ++ raw (fin_packet f) ++ raw (probe_packet f).
(** The packets that carry the stream or its end; bare acknowledgements and
    keepalives do not. *)
Definition action_wire (act : PacketAction) : list WirePacket :=
  match act with
  | WriteFin packet => [WRaw packet]
  | WriteRetransmit packet => [WData packet]
  | Delivered _ _ f => flush_wire f
  | Silent | Closed_ _ | Aborted _ | WriteSynAck _ | WriteAck _ => []
  end.
Definition plan_wire (plan : FlowMaintenancePlan) : list WirePacket :=
  match plan with
  | SendPacket packet event => if bool_decide (event = "zero_window_probe"%string) then [WRaw packet] else []
  | SendDataPacket packet => [WData packet]
  | FlushServer f => flush_wire f
  | Wait _ | PlanAbort _ | PlanClose _ => []
  end.
Definition wire_ok (p : WirePacket) : Prop :=
  match p with WData p => carries isn k out p | WRaw p => carries_raw p end.

(** A run: the flow and the clock; how much of the stream was read, the next
    position to send, the highest position acknowledged, the furthest edge of
    the client's window, the blocks the client reported, the packets sent. *)
Record tx : Type := mkTx {
  t_flow : Flow; t_clock : Z; t_read : Z; t_next : Z; t_acked : Z; t_limit : Z;
  t_reported : list span; t_wire : list WirePacket }.
Definition advance (r : tx) (fl : Flow) : Z :=
  t_next r + wsub32 (server_seq (rx_state fl)) (server_seq (rx_state (t_flow r))).

Inductive tx_step (config : TunTcpConfig) : tx -> tx -> Prop :=
  | tx_packet r now v a p A blocks fl act :
    t_clock r <= now -> 0 <= view_credit v -> acks (t_acked r) (t_next r) p A blocks ->
    handle_existing_flow k config v a now (t_flow r) p = Some (fl, Ok act) ->
    tx_step config r
      (mkTx fl now (t_read r) (advance r fl) (Z.max (t_acked r) (Z.min A (t_next r)))
         (Z.max (t_limit r) (A + decode_client_window p (client_window_scale (rx_state (t_flow r)))))
         (t_reported r ++ blocks) (t_wire r ++ action_wire act))
  | tx_timer r now v idle fl plan :
    t_clock r <= now -> 0 <= view_credit v ->
    plan_flow_maintenance k config v idle now (t_flow r) = Some (fl, Ok plan) ->
    tx_step config r
      (mkTx fl now (t_read r) (advance r fl) (t_acked r) (t_limit r) (t_reported r)
         (t_wire r ++ plan_wire plan))
  | tx_chunk r now v chunk fl f :
    t_clock r <= now -> 0 <= view_credit v ->
    t_read r + zlen chunk <= zlen out -> chunk = sub out (t_read r) (t_read r + zlen chunk) ->
    reader_chunk k v now (t_flow r) chunk = Some (Some (fl, Ok f)) ->
    tx_step config r
      (mkTx fl now (t_read r + zlen chunk) (advance r fl) (t_acked r) (t_limit r) (t_reported r)
         (t_wire r ++ flush_wire f))
  | tx_end r now v fl f :
    t_clock r <= now -> 0 <= view_credit v -> t_read r = zlen out ->
    reader_eof k v now (t_flow r) = Some (fl, Ok f) ->
    tx_step config r
      (mkTx fl now (t_read r) (advance r fl) (t_acked r) (t_limit r) (t_reported r)
         (t_wire r ++ flush_wire f))
  | tx_pump r :
    tx_step config r
      (mkTx (mkFlowPair (pump_batch (rx_state (t_flow r)) config).1 (tx_state (t_flow r)))
         (t_clock r) (t_read r) (t_next r) (t_acked r) (t_limit r) (t_reported r) (t_wire r)).

Record run_ok (r : tx) (una d : Z) (fin : bool) (edge : Z) (qs : list sent) (l : list span) : Prop := {
  ro_flow : flow_ok (t_read r) (t_clock r) una d fin edge qs l (t_flow r);
  ro_next : t_next r = d + (if fin then 1 else 0);
  ro_acked : una <= t_acked r <= t_next r;
  ro_edge : edge <= t_limit r /\ d <= Z.max 0 (t_limit r);
  ro_cover : forall i, covered_by l i -> covered_by (t_reported r) i;
  ro_wire : Forall wire_ok (t_wire r)
}.

Lemma flush_wire_ok f : flush_ok f -> Forall wire_ok (flush_wire f).
Proof.
  intros [H1 H2 H3]. unfold flush_wire. apply Forall_app. split; [by apply Forall_map|].
  apply Forall_app. split; [destruct (fin_packet f)|destruct (probe_packet f)]; cbn in *; repeat constructor; done.
Qed.
Lemma action_wire_ok act : action_ok act -> Forall wire_ok (action_wire act).
Proof.
  destruct act; intros H; first [by constructor | by apply Forall_singleton | by apply flush_wire_ok].
Qed.
Lemma plan_wire_ok plan : plan_ok plan -> Forall wire_ok (plan_wire plan).
Proof.
  destruct plan as [|packet event|packet|f| |]; intros H; [constructor|..|constructor|constructor].
  - unfold plan_wire. case_bool_decide as He; [|constructor]. apply Forall_singleton. by apply H.
  - by apply Forall_singleton.
  - by apply flush_wire_ok.
Qed.

Lemma flow_clock w now now' una d fin edge qs l fl : now <= now' -> flow_ok w now una d fin edge qs l fl ->
  flow_ok w now' una d fin edge qs l fl.
Proof.
  intros Hn [H|(Hs & Hq & last & H)]; [left|right; split; [done|]; split; [done|]; exists last]; by eapply tx_later.
Qed.

(** The positions of [server_seq]. *)
Lemma flow_next w now una d fin edge qs l fl : flow_ok w now una d fin edge qs l fl ->
  server_seq (rx_state fl) = sq isn (d + (if fin then 1 else 0)).
Proof. intros H. destruct (flow_tx _ _ _ _ _ _ _ _ _ H) as (t & Htx & _). apply Htx. Qed.
Lemma flow_span w now una d fin edge qs l fl : flow_ok w now una d fin edge qs l fl ->
  0 <= una <= d + (if fin then 1 else 0) /\ d + (if fin then 1 else 0) <= una + 2 ^ 30 /\ edge <= una + 2 ^ 30
  /\ 0 <= d.
Proof.
  intros H. destruct (flow_tx _ _ _ _ _ _ _ _ _ H) as (t & Htx & _). destruct (tx_far _ _ _ _ _ _ _ _ _ Htx).
  pose proof (tx_una _ _ _ _ _ _ _ _ _ _ _ Htx). pose proof (tx_edge _ _ _ _ _ _ _ _ _ _ _ Htx).
  pose proof (tx_sent _ _ _ _ _ _ _ _ _ _ _ Htx). lia.
Qed.

(** The FIN is not taken back. *)
Lemma advance_at r una d fin edge qs l w now una' d' fin' edge' qs' l' fl :
  run_ok r una d fin edge qs l -> flow_ok w now una' d' fin' edge' qs' l' fl ->
  d + (if fin then 1 else 0) <= d' + (if fin' then 1 else 0) < d + (if fin then 1 else 0) + 2 ^ 32 ->
  advance r fl = d' + (if fin' then 1 else 0).
Proof.
  intros [Hf Hn _ _ _ _] Hf' Hd. unfold advance.
  rewrite (flow_next _ _ _ _ _ _ _ _ _ Hf), (flow_next _ _ _ _ _ _ _ _ _ Hf'), wsub32_sq_small; lia.
Qed.

Lemma acks_lower una acked nxt p A blocks : una <= acked -> acks acked nxt p A blocks -> acks una nxt p A blocks.
Proof.
  intros H []. split; try done; [lia|]. eapply Forall_impl; [done|]. unfold span_in, inside. simpl. lia.
Qed.

Lemma covered_by_app l1 l2 i : covered_by (l1 ++ l2) i <-> covered_by l1 i \/ covered_by l2 i.
Proof. apply Exists_app. Qed.

Lemma step_run r una d fin edge qs l w now fl d' fin' qs' wire :
  run_ok r una d fin edge qs l -> flow_ok w now una d' fin' edge qs' l fl ->
  d <= d' <= Z.max d edge -> (fin = true -> fin' = true) -> Forall wire_ok wire ->
  run_ok (mkTx fl now w (advance r fl) (t_acked r) (t_limit r) (t_reported r) (t_wire r ++ wire))
    una d' fin' edge qs' l.
Proof.
  intros Hr Hf Hd Hfin Hw. pose proof Hr as [Hf0 Hn Ha He Hc Hwr].
  pose proof (flow_span _ _ _ _ _ _ _ _ _ Hf0). pose proof (flow_span _ _ _ _ _ _ _ _ _ Hf).
  assert (Hb : d + (if fin then 1 else 0) <= d' + (if fin' then 1 else 0)).
  { destruct fin; [rewrite Hfin by done|destruct fin']; lia. }
  assert (Hadv : advance r fl = d' + (if fin' then 1 else 0)).
  { eapply advance_at; [exact Hr|exact Hf|]. lia. }
  split; cbn [t_flow t_read t_clock t_next t_acked t_limit t_reported t_wire]; try done; [lia|lia|].
  apply Forall_app. by split.
Qed.

Lemma packet_run r una d fin edge qs l now p A blocks fl act una' d' fin' edge' qs' l' :
  run_ok r una d fin edge qs l -> flow_ok (t_read r) now una' d' fin' edge' qs' l' fl -> action_ok act ->
  d <= d' <= Z.max d edge' -> (fin = true -> fin' = true) ->
  packet_effect una (d + (if fin then 1 else 0)) A edge
    (decode_client_window p (client_window_scale (rx_state (t_flow r)))) una' edge' l blocks l' ->
  run_ok
    (mkTx fl now (t_read r) (advance r fl) (Z.max (t_acked r) (Z.min A (t_next r)))
       (Z.max (t_limit r) (A + decode_client_window p (client_window_scale (rx_state (t_flow r)))))
       (t_reported r ++ blocks) (t_wire r ++ action_wire act)) una' d' fin' edge' qs' l'.
Proof.
  intros Hr Hf Hact Hd Hfin [E1 E2 E3]. pose proof Hr as [Hf0 Hn Ha He Hc Hwr].
  pose proof (flow_span _ _ _ _ _ _ _ _ _ Hf0). pose proof (flow_span _ _ _ _ _ _ _ _ _ Hf).
  assert (Hb : d + (if fin then 1 else 0) <= d' + (if fin' then 1 else 0)).
  { destruct fin; [rewrite Hfin by done|destruct fin']; lia. }
  assert (Hadv : advance r fl = d' + (if fin' then 1 else 0)).
  { eapply advance_at; [exact Hr|exact Hf|]. lia. }
  split; cbn [t_flow t_read t_clock t_next t_acked t_limit t_reported t_wire]; try done; [lia|lia| |].
  - intros i [Hi|Hi]%E3; apply covered_by_app; [left; by apply Hc|by right].
  - apply Forall_app. split; [done|by apply action_wire_ok].
Qed.

Lemma pump_keeps s config : tx_kept s (pump_batch s config).1.
Proof.
  unfold pump_batch. destruct (take_batch _ _). unfold grow_receive_window. cbn [fst].
  destruct (_ <? _); by split.
Qed.
Lemma pump_status s config : status (pump_batch s config).1 = status s.
Proof.
  unfold pump_batch. destruct (take_batch _ _). unfold grow_receive_window. cbn [fst]. by destruct (_ <? _).
Qed.

Lemma tx_step_ok config r r' una d fin edge qs l : run_ok r una d fin edge qs l -> tx_step config r r' ->
  exists una' d' fin' edge' qs' l', run_ok r' una' d' fin' edge' qs' l'.
Proof.
  intros Hr Hstep. pose proof (ro_flow _ _ _ _ _ _ _ Hr) as Hf. pose proof (ro_next _ _ _ _ _ _ _ Hr) as Hn.
  pose proof (ro_acked _ _ _ _ _ _ _ Hr) as Ha.
  destruct Hstep as [r now v a p A blocks fl act Hc Hv Hk H|r now v idle fl plan Hc Hv H|
    r now v chunk fl f Hc Hv Hlen Hsub H|r now v fl f Hc Hv Hw H|r].
  - apply (acks_lower una) in Hk; [|lia]. rewrite Hn in Hk.
    destruct (handler_ok config v a (t_read r) now una d fin edge qs l (t_flow r) p A blocks
      (flow_clock _ _ _ _ _ _ _ _ _ _ Hc Hf) Hv Hk) as
      (fl' & act' & una' & d' & fin' & edge' & qs' & l' & He & H1 & H2 & H3 & H4 & H5).
    rewrite He in H. injection H as <- <-. exists una', d', fin', edge', qs', l'. by eapply packet_run.
  - destruct (timer_ok config v (t_read r) now una d fin edge qs l idle (t_flow r)
      (flow_clock _ _ _ _ _ _ _ _ _ _ Hc Hf) Hv) as (fl' & plan' & d' & fin' & qs' & He & H1 & H2 & H3 & H4).
    rewrite He in H. injection H as <- <-. exists una, d', fin', edge, qs', l.
    eapply step_run; try done. by apply plan_wire_ok.
  - pose proof (reader_ok v (t_read r) now una d fin edge qs l (t_flow r) chunk
      (flow_clock _ _ _ _ _ _ _ _ _ _ Hc Hf) Hv Hlen Hsub) as Hro. rewrite H in Hro.
    destruct Hro as (fl' & f' & d' & fin' & qs' & [= <- <-] & H1 & H2 & H3 & H4).
    exists una, d', fin', edge, qs', l. eapply step_run; try done. by apply flush_wire_ok.
  - destruct (eof_ok v (t_read r) now una d fin edge qs l (t_flow r)
      (flow_clock _ _ _ _ _ _ _ _ _ _ Hc Hf) Hv Hw) as (fl' & f' & d' & fin' & qs' & He & H1 & H2 & H3 & H4).
    rewrite He in H. injection H as <- <-. exists una, d', fin', edge, qs', l.
    eapply step_run; try done. by apply flush_wire_ok.
  - exists una, d, fin, edge, qs, l. destruct Hr as [_ ? ? ? ? ?]. split; try done.
    cbn [t_flow t_read t_clock]. destruct (t_flow r) as [s t].
    eapply flow_kept; [exact Hf|apply pump_keeps|apply pump_status].
Qed.

Lemma tx_steps_ok config r r' : rtc (tx_step config) r r' ->
  (exists una d fin edge qs l, run_ok r una d fin edge qs l) ->
  exists una d fin edge qs l, run_ok r' una d fin edge qs l.
Proof.
  induction 1 as [|r r1 r' Hs _ IH]; [done|]. intros (una & d & fin & edge & qs & l & Hr).
  apply IH. by eapply tx_step_ok.
Qed.

(** The state [handle_new_flow] makes, whatever it puts in the rest. *)
Record fresh_tx (fl : Flow) (edge : Z) : Prop := {
  ft_status : status (rx_state fl) = SynReceived;
  ft_seq : server_seq (rx_state fl) = sq isn 0;
  ft_wend : client_window_end (rx_state fl) = sq isn edge;
  ft_edge : 0 <= edge < 2 ^ 30;
  ft_queue : unacked_server_segments (tx_state fl) = [];
  ft_board : sack_scoreboard (tx_state fl) = [];
  ft_acct : acct (tx_state fl) = mkAcct 0 0 None false;
  ft_pending : pending (tx_state fl) = mkPending [] 0 0;
  ft_fin : server_fin_pending (tx_state fl) = false
}.
Definition tx_start (fl : Flow) (clock edge : Z) : tx := mkTx fl clock 0 0 0 edge [] [].

Lemma fresh_run fl clock edge : fresh_tx fl edge -> run_ok (tx_start fl clock edge) 0 0 false edge [] [].
Proof.
  intros []. split; cbn [tx_start t_flow t_read t_clock t_next t_acked t_limit t_reported t_wire]; try (done || lia).
  right. split; [done|]. split; [done|]. exists (sq isn 0). pose proof (zlen_nonneg out).
  split; cbn [rx_state tx_state with_last set_recovery set_queue]; try done.
  - split; cbn [with_last set_recovery unacked_server_segments sack_scoreboard recovery last_client_ack]; try done.
    + by exists 0.
    + split; constructor.
    + exists 0. unfold SLACK. split; [done|lia].
    + apply exact_iff. cbn. rewrite ft_queue0, ft_board0, ft_acct0. by split.
  - cbn. rewrite ft_pending0. split; [by rewrite sub_nil|]. by rewrite sub_nil.
  - cbn. by rewrite ft_fin0.
  - by rewrite ft_status0.
  - split; [done|]. unfold SLACK. lia.
Qed.

(** ** What the invariant says of the queue *)
Definition held (segs : list ServerSegment) (i : Z) : Prop :=
  exists g p, g ∈ segs /\ s_seq g = sq isn p /\ p <= i < p + zlen (s_payload g)
    /\ s_payload g = sub out p (p + zlen (s_payload g)).

Lemma chain_covers a qs b i : chain isn a qs b -> a <= i < b -> exists x, x ∈ qs /\ x.1 <= i < sent_end x.
Proof.
  revert a. induction qs as [|x qs IH]; intros a; cbn [chain]; [lia|]. intros (Hx & _ & Hl & Hc) Hi.
  destruct (Z.lt_ge_cases i (sent_end x)) as [?|?].
  - exists x. split; [by left|lia].
  - destruct (IH _ Hc ltac:(lia)) as (y & Hy & Hr). exists y. split; [by right|done].
Qed.

Lemma tx_held w now una d fin edge qs l fl i : tx_ok isn out w now una d fin edge qs l fl ->
  una <= i < d -> held (unacked_server_segments (tx_state fl)) i.
Proof.
  intros Htx Hi. pose proof (tx_send _ _ _ _ _ _ _ _ _ _ _ Htx) as Hs.
  destruct (so_chain _ _ _ _ _ _ Hs) as (a & Hc & Ha).
  destruct (chain_covers _ _ _ i Hc) as (x & Hx & Hxi); [destruct fin; lia|].
  pose proof (proj1 (Forall_forall _ _) (chain_bounds _ _ _ _ Hc) _ Hx) as (Hseq & _).
  pose proof (proj1 (Forall_forall _ _) (tx_segs _ _ _ _ _ _ _ _ _ _ _ Htx) _ Hx) as [G1 G2 G3 G4 G5].
  pose proof (tx_sent _ _ _ _ _ _ _ _ _ _ _ Htx) as Hd.
  assert (Hlen : sent_end x = x.1 + zlen (s_payload x.2)).
  { unfold sent_end, server_segment_len. rewrite G4. destruct (has_flag (s_flags x.2) TCP_FLAG_FIN); [|lia].
    destruct (G5 eq_refl) as [_ ?]. lia. }
  exists x.2, x.1. split; [|split; [done|split; [lia|done]]].
  rewrite (so_queue _ _ _ _ _ _ Hs). apply list_elem_of_fmap. by exists x.
Qed.

(** A segment is marked as received by the client only when it said so. *)
Lemma tx_reported w now una d fin edge qs l fl g : tx_ok isn out w now una d fin edge qs l fl ->
  g ∈ unacked_server_segments (tx_state fl) -> server_segment_is_sacked (tx_state fl) g = true ->
  exists p, s_seq g = sq isn p /\ forall i, p <= i < p + server_segment_len g -> covered_by l i.
Proof.
  intros Htx Hg Hsk. pose proof (tx_send _ _ _ _ _ _ _ _ _ _ _ Htx) as Hs.
  rewrite (so_queue _ _ _ _ _ _ Hs) in Hg. apply list_elem_of_fmap in Hg as (x & -> & Hx).
  destruct (so_chain _ _ _ _ _ _ Hs) as (a & Hc & Ha).
  pose proof (proj1 (Forall_forall _ _) (chain_bounds _ _ _ _ Hc) _ Hx) as (Hseq & Hr & Hle & Hend).
  pose proof (proj1 (Forall_forall _ _) (so_past _ _ _ _ _ _ Hs) _ Hx) as Hpast. cbn beta in Hpast.
  pose proof (so_flight _ _ _ _ _ _ Hs) as Hfl. set (nxt := d + (if fin then 1 else 0)) in *.
  exists x.1. split; [done|]. intros i Hi.
  assert (He : Exists (holds_span x.1 (sent_end x)) l).
  { apply (sacked_at isn (una - SLACK) nxt); [unfold SLACK; lia|apply Hs|done|unfold SLACK; lia|done|].
    unfold sacked. rewrite <- (so_board _ _ _ _ _ _ Hs). exact Hsk. }
  eapply covered_by_holds; [exact He|exact Hi].
Qed.
End run.

(** ** Properties *)

(** C2: towards a client that acknowledges and reports sensibly, the downlink loses
    nothing and invents nothing. Take any run of a fresh flow whose addresses are
    of its family, in which every packet handled has the ACK, SYN or RST flag,
    acknowledges a number at most 2^28 behind the highest acknowledged and at most
    2^30 past what was sent - what was never sent included - and carries SACK
    blocks only over bytes that were sent and are at most 2^28 behind that
    acknowledgement (a block over bytes not sent yet is what the code does not
    account for exactly); the timer fires, the upstream is read and ends, and the
    pump drains at any time, and sequence numbers wrap. Then every packet
    written, resent or not, a FIN or a probe, carries the bytes of the
    upstream's stream that stand at its sequence number; what waits is the rest
    of what was read, and the budget is charged exactly that; nothing is sent
    past the furthest window the client opened, and the FIN only after the whole
    stream; every byte sent and not acknowledged is still in the retransmission
    queue, no segment counts as received that the client did not report, and the
    running counters of the queue are those of a scan. *)
Theorem downlink_exact (isn : Z) (k : FlowConst) (out : bytes) (config : TunTcpConfig) (fl : Flow)
    (clock edge : Z) (r : tx) :
  key_ok k -> fresh_tx isn fl edge ->
  rtc (tx_step isn k out config) (tx_start fl clock edge) r ->
  let t := tx_state (t_flow r) in
  Forall (wire_ok isn k out) (t_wire r) /\ accounting_exact t
  /\ exists (d : Z) (fin : bool), t_next r = d + (if fin then 1 else 0)
    /\ (fin = true -> d = zlen out) /\ 0 <= d <= t_read r /\ d <= Z.max 0 (t_limit r)
    /\ pending_ok (pending t) (sub out d (t_read r))
    /\ (forall i, t_acked r <= i < d -> held isn out (unacked_server_segments t) i)
    /\ (forall g, g ∈ unacked_server_segments t -> server_segment_is_sacked t g = true ->
         exists p, s_seq g = sq isn p
           /\ forall i, p <= i < p + server_segment_len g -> covered_by (t_reported r) i).
Proof.
  intros Hk Hf Hrun. cbn zeta.
  destruct (tx_steps_ok isn k out Hk config _ _ Hrun) as (una & d & fin & edge' & qs & l & Hr).
  { exists 0, 0, false, edge, [], []. by apply fresh_run. }
  destruct Hr as [Hfl Hn Ha He Hc Hw]. split; [done|].
  destruct (flow_tx _ _ _ _ _ _ _ _ _ _ _ Hfl) as (t & Htx & Ht).
  pose proof (tx_send _ _ _ _ _ _ _ _ _ _ _ Htx) as Hs. pose proof (so_exact _ _ _ _ _ _ Hs) as Hex.
  pose proof (tx_sent _ _ _ _ _ _ _ _ _ _ _ Htx) as Hd. pose proof (tx_pending _ _ _ _ _ _ _ _ _ _ _ Htx) as Hp.
  pose proof (tx_fin _ _ _ _ _ _ _ _ _ _ _ Htx) as Hfin.
  assert (Hheld := fun i => tx_held isn out _ _ _ _ _ _ _ _ _ i Htx).
  assert (Hrep := fun g => tx_reported isn out _ _ _ _ _ _ _ _ _ g Htx).
  cbn [rx_state tx_state] in *.
  assert (Hsame : unacked_server_segments t = unacked_server_segments (tx_state (t_flow r))
    /\ sack_scoreboard t = sack_scoreboard (tx_state (t_flow r)) /\ acct t = acct (tx_state (t_flow r))
    /\ pending t = pending (tx_state (t_flow r))) by (destruct Ht as [->|(_ & _ & last & ->)]; done).
  destruct Hsame as (Eq & Eb & Eac & Ep). clear Ht.
  split; [unfold accounting_exact in *; by rewrite <- Eq, <- Eb, <- Eac|].
  exists d, fin. split; [done|]. split; [intros ->; by apply Hfin|]. split; [lia|]. split; [lia|].
  split; [by rewrite <- Ep|]. split.
  - intros i Hi. rewrite <- Eq. apply Hheld. lia.
  - intros g Hg Hsk. unfold server_segment_is_sacked in *. rewrite <- Eq in Hg. rewrite <- Eb in Hsk.
    destruct (Hrep g Hg Hsk) as (p & Hpg & Hcov). exists p. split; [done|]. intros i Hi. by apply Hc, Hcov.
Qed.

(** A flow whose sequence numbers wrap after three bytes: the handshake, a
    chunk of the upstream, and an acknowledgement of the first segment. *)
Definition example_isn : Z := 2 ^ 32 - 3.
Definition example_out : bytes := str "hello, downlink".
Definition example_bbr : BbrFields := mkBbr 0 0 0 None 0 false 0.
Definition example_view : BbrView := mkView false 0 100000 0.
Definition example_key : FlowConst :=
  mkConst V4 (IpAddrV4 (map u8 [1; 1; 1; 1])) (IpAddrV4 (map u8 [10; 0; 0; 1])) 443 40000 true (Some 8)
    false 77 0.
Definition example_start : Flow :=
  mkFlowPair
    (mkFlow SynReceived 0 0 1 65536 [] [] false None 0 12 (sq example_isn 12) 0 0
       (sq example_isn 0) 0 None 1000 None 0 None)
    (mkSend [] [] (mkAcct 0 0 None false) (mkRecovery 9 0 None 0) 0 (mkPending [] 0 0) example_bbr 1000 false).
Definition example_ack (a : Z) (blocks : list (Z * Z)) : ParsedTcpPacket :=
  mkPacket V4 (IpAddrV4 (map u8 [10; 0; 0; 1])) (IpAddrV4 (map u8 [1; 1; 1; 1])) 40000 443 1
    (sq example_isn a) 12 None None false blocks None None 0x10 [].
Definition flow_of {A} (fl : Flow) (r : handled A) : Flow :=
  match r with Some (fl', _) => fl' | None => fl end.
Definition wire_of {A} (wire : A -> list WirePacket) (r : handled A) : list WirePacket :=
  match r with Some (_, Ok x) => wire x | _ => [] end.

Definition example_handle (now : Z) (fl : Flow) (p : ParsedTcpPacket) : handled PacketAction :=
  handle_existing_flow example_key example_tcp_config example_view (mkAnswer 1000 example_bbr) now fl p.
Definition example_packet_step (r : tx) (now A : Z) (blocks : list span) : tx :=
  let p := example_ack A (map (block_at example_isn) blocks) in
  let res := example_handle now (t_flow r) p in
  let fl := flow_of (t_flow r) res in
  mkTx fl now (t_read r) (advance r fl) (Z.max (t_acked r) (Z.min A (t_next r)))
    (Z.max (t_limit r) (A + decode_client_window p (client_window_scale (rx_state (t_flow r)))))
    (t_reported r ++ blocks) (t_wire r ++ wire_of action_wire res).
Definition example_chunk_step (r : tx) (now : Z) (chunk : bytes) : tx :=
  let res := default None (reader_chunk example_key example_view now (t_flow r) chunk) in
  let fl := flow_of (t_flow r) res in
  mkTx fl now (t_read r + zlen chunk) (advance r fl) (t_acked r) (t_limit r) (t_reported r)
    (t_wire r ++ wire_of flush_wire res).

Definition example_run1 : tx := example_packet_step (tx_start example_start 0 12) 10 0 [].
Definition example_run2 : tx := example_chunk_step example_run1 20 example_out.
(** The client reports the tail of what was sent and opens a zero window's
    worth more: the first eight bytes are missing. *)
Definition example_run3 : tx := example_packet_step example_run2 30 0 [(8, 12)].

(** The step is one of the run's when the handler gives a result. *)
Definition done_ok {A} (r : handled A) : bool := match r with Some (_, Ok _) => true | _ => false end.
Lemma example_packet_ok r now A blocks : t_acked r = 0 -> t_clock r <= now ->
  - SLACK <= A <= t_next r + 2 ^ 30 -> Forall (span_in (- SLACK) (t_next r)) blocks ->
  done_ok (example_handle now (t_flow r) (example_ack A (map (block_at example_isn) blocks))) = true ->
  tx_step example_isn example_key example_out example_tcp_config r (example_packet_step r now A blocks).
Proof.
  intros Ha Hn HA Hb Hok. unfold example_packet_step.
  destruct (example_handle now (t_flow r) (example_ack A (map (block_at example_isn) blocks)))
    as [[fl [e|act]]|] eqn:E; try done.
  apply (tx_packet _ _ _ _ _ now example_view (mkAnswer 1000 example_bbr)); [done|done| |exact E].
  rewrite Ha. split; try done; [by left].
Qed.
Lemma example_chunk_ok r now chunk : t_clock r <= now -> t_read r + zlen chunk <= zlen example_out ->
  chunk = sub example_out (t_read r) (t_read r + zlen chunk) ->
  done_ok (default None (reader_chunk example_key example_view now (t_flow r) chunk)) = true ->
  tx_step example_isn example_key example_out example_tcp_config r (example_chunk_step r now chunk).
Proof.
  intros Hn Hl Hc Hok. unfold example_chunk_step.
  destruct (reader_chunk example_key example_view now (t_flow r) chunk) as [[[fl [e|f]]|]|] eqn:E; try done.
  by apply (tx_chunk _ _ _ _ _ now example_view).
Qed.

Lemma example_step1 :
  tx_step example_isn example_key example_out example_tcp_config (tx_start example_start 0 12) example_run1.
Proof.
  apply (example_packet_ok _ 10 0 []).
  - reflexivity.
  - vm_compute. discriminate.
  - vm_compute. split; discriminate.
  - constructor.
  - vm_compute. reflexivity.
Qed.
Lemma example_step2 :
  tx_step example_isn example_key example_out example_tcp_config example_run1 example_run2.
Proof.
  apply (example_chunk_ok _ 20 example_out).
  - vm_compute. discriminate.
  - vm_compute. discriminate.
  - vm_compute. reflexivity.
  - vm_compute. reflexivity.
Qed.
Lemma example_step3 :
  tx_step example_isn example_key example_out example_tcp_config example_run2 example_run3.
Proof.
  apply (example_packet_ok _ 30 0 [(8, 12)]).
  - vm_compute. reflexivity.
  - vm_compute. discriminate.
  - vm_compute. split; discriminate.
  - apply Forall_singleton. vm_compute. repeat split; discriminate.
  - vm_compute. reflexivity.
Qed.
Lemma example_tx_run :
  rtc (tx_step example_isn example_key example_out example_tcp_config) (tx_start example_start 0 12) example_run3.
Proof.
  apply (rtc_l _ _ example_run1); [exact example_step1|].
  apply (rtc_l _ _ example_run2); [exact example_step2|]. apply rtc_once. exact example_step3.
Qed.
Lemma example_fresh : fresh_tx example_isn example_start 12.
Proof. split; try (vm_compute; reflexivity). split; vm_compute; [discriminate|reflexivity]. Qed.
Lemma example_key_ok : key_ok example_key.
Proof. by split. Qed.

(** All twelve bytes of the window are out in two segments, the second of them
    reported; the three bytes the window holds back wait. *)
Lemma downlink_exact_witness :
  t_next example_run3 = 12 /\ length (t_wire example_run3) = 2%nat
  /\ pending_server_data (pending (tx_state (t_flow example_run3))) = [str "ink"]
  /\ map (server_segment_is_sacked (tx_state (t_flow example_run3)))
       (unacked_server_segments (tx_state (t_flow example_run3))) = [false; true]
  /\ Forall (wire_ok example_isn example_key example_out) (t_wire example_run3)
  /\ held example_isn example_out (unacked_server_segments (tx_state (t_flow example_run3))) 3.
Proof.
  split; [vm_compute; reflexivity|]. split; [vm_compute; reflexivity|]. split; [vm_compute; reflexivity|].
  split; [vm_compute; reflexivity|].
  destruct (downlink_exact example_isn example_key example_out example_tcp_config example_start 0 12 example_run3)
    as (Hw & _ & d & fin & Hn & Hf & _ & _ & _ & Hheld & _).
  - exact example_key_ok.
  - exact example_fresh.
  - exact example_tx_run.
  - split; [exact Hw|]. apply Hheld.
    replace (t_acked example_run3) with 0 by (vm_compute; reflexivity).
    replace (t_next example_run3) with 12 in Hn by (vm_compute; reflexivity).
    destruct fin; lia.
Defined.

(** C32: no handler panics or fails, towards a client that acknowledges and
    reports sensibly. In every state a fresh flow reaches - whose addresses are
    of its family, through packets that acknowledge at most 2^28 behind the
    highest acknowledged number and at most 2^30 past what was sent, and report
    only bytes that were sent - each handler gives its action: the packet
    handler on every further packet of that kind, the timer, the upstream reader
    on the next bytes of the stream, and, when all of it was read, its end. The
    option blocks fit, every packet can be built and every index is in range. *)
Theorem handlers_total (isn : Z) (k : FlowConst) (out : bytes) (config : TunTcpConfig) (fl : Flow)
    (clock edge : Z) (r : tx) (now : Z) (v : BbrView) :
  key_ok k -> fresh_tx isn fl edge ->
  rtc (tx_step isn k out config) (tx_start fl clock edge) r ->
  t_clock r <= now -> 0 <= view_credit v ->
  (forall a p A blocks, acks isn (t_acked r) (t_next r) p A blocks ->
     exists fl' act, handle_existing_flow k config v a now (t_flow r) p = Some (fl', Ok act))
  /\ (forall idle, exists fl' plan, plan_flow_maintenance k config v idle now (t_flow r) = Some (fl', Ok plan))
  /\ (forall n, let chunk := sub out (t_read r) (t_read r + n) in
        0 <= n -> t_read r + n <= zlen out -> reader_chunk k v now (t_flow r) chunk = Some None
        \/ exists fl' f, reader_chunk k v now (t_flow r) chunk = Some (Some (fl', Ok f)))
  /\ (t_read r = zlen out -> exists fl' f, reader_eof k v now (t_flow r) = Some (fl', Ok f)).
Proof.
  intros Hk Hf Hrun Hnow Hv.
  destruct (tx_steps_ok isn k out Hk config _ _ Hrun) as (una & d & fin & edge' & qs & l & [Hfl Hn Ha _ _ _]).
  { exists 0, 0, false, edge, [], []. by apply fresh_run. }
  apply (flow_clock _ _ _ _ now) in Hfl; [|done].
  split; [|split; [|split]].
  - intros a p A blocks Hacks. apply (acks_lower _ una) in Hacks; [|lia]. rewrite Hn in Hacks.
    destruct (handler_ok isn k out Hk config v a _ _ _ _ _ _ _ _ _ _ _ _ Hfl Hv Hacks) as (fl' & act & H).
    exists fl', act. by destruct H as (? & ? & ? & ? & ? & ? & ? & _).
  - intros idle. destruct (timer_ok isn k out Hk config v _ _ _ _ _ _ _ _ idle _ Hfl Hv) as (fl' & plan & H).
    exists fl', plan. by destruct H as (? & ? & ? & ? & _).
  - intros n chunk Hn0 Hle. destruct (flow_tx _ _ _ _ _ _ _ _ _ _ _ Hfl) as (t & Htx & _).
    pose proof (tx_sent _ _ _ _ _ _ _ _ _ _ _ Htx) as Hd.
    assert (Hz : zlen chunk = n) by (unfold chunk; rewrite sub_length; unfold len; lia).
    pose proof (reader_ok isn k out Hk v _ _ _ _ _ _ _ _ _ chunk Hfl Hv ltac:(lia) ltac:(by rewrite Hz)) as H.
    destruct (reader_chunk k v now (t_flow r) chunk) as [[res|]|]; [|by left|done].
    destruct H as (fl' & f & ? & ? & ? & -> & _). right. by exists fl', f.
  - intros Hw. destruct (eof_ok isn k out Hk v _ _ _ _ _ _ _ _ _ Hfl Hv Hw) as (fl' & f & H).
    exists fl', f. by destruct H as (? & ? & ? & ? & _).
Qed.

Lemma handlers_total_witness :
  exists fl plan, plan_flow_maintenance example_key example_tcp_config example_view 100000 1030
    (t_flow example_run3) = Some (fl, Ok plan).
Proof.
  destruct (handlers_total example_isn example_key example_out example_tcp_config example_start 0 12 example_run3
    1030 example_view) as (_ & H & _).
  - exact example_key_ok.
  - exact example_fresh.
  - exact example_tx_run.
  - vm_compute. discriminate.
  - vm_compute. discriminate.
  - exact (H 100000).
Defined.

(** ** The retransmission timer *)
Lemma earliest_le sk segs g : g ∈ segs -> sk g = false ->
  exists e, earliest_of sk segs = Some e /\ e <= s_last_sent g.
Proof.
  intros Hg Hsk. induction Hg as [g segs|g h segs Hg IH]; cbn [earliest_of].
  - rewrite Hsk. destruct (earliest_of sk segs); cbn; eexists; (split; [done|lia]).
  - destruct (IH Hsk) as (e & -> & He). destruct (sk h); cbn; eexists; (split; [done|lia]).
Qed.
Lemma position_found {A} (f : A -> bool) l x : x ∈ l -> f x = true -> is_Some (position_of f l).
Proof.
  intros Hx Hf. induction Hx as [x l|x y l Hx IH]; cbn [position_of]; [rewrite Hf; by eexists|].
  destruct (f y); [by eexists|]. destruct (IH Hf) as [i ->]. by eexists.
Qed.

Lemma due_found k now fl g : g ∈ unacked_server_segments (tx_state fl) ->
  server_segment_is_sacked (tx_state fl) g = false ->
  s_last_sent g + retransmission_timeout (tx_state fl) <= now ->
  forall fl', retransmit_due_segment k now fl <> Some (fl', Ok None).
Proof.
  intros Hg Hsk Hd fl'. unfold retransmit_due_segment. cbn zeta.
  assert (Hp := position_found
    (fun g => negb (server_segment_is_sacked (tx_state fl) g)
              && (retransmission_timeout (tx_state fl) <=? elapsed_since now (s_last_sent g))) _ g Hg).
  destruct Hp as [i Hi]; [rewrite Hsk; cbn [negb andb]; unfold elapsed_since; lia|].
  match goal with |- context [match ?o with Some _ => _ | None => Some (fl, _) end] =>
    assert (Ho : is_Some o) by (destruct (preferred_retransmit_index _) as [j|];
      [destruct (unacked_server_segments (tx_state fl) !! j); [destruct (_ <=? _)|]|]; eauto) end.
  destruct Ho as [j ->]. destruct (unacked_server_segments (tx_state fl) !! j) as [h|]; [|done].
  cbn [mbind option_bind]. unfold resend_at.
  destruct (build_flow_data_header _ _ _ _ _ _ _) as [[]|]; discriminate.
Qed.

(** No timeout of the flow as a whole has passed. *)
Definition timers_quiet (config : TunTcpConfig) (idle now : Z) (s : TcpFlowState) : Prop :=
  time_wait_expired (status s) (status_since s) now = false
  /\ handshake_timed_out (status s) (status_since s) (handshake_timeout config) now = false
  /\ half_close_timed_out (status s) (status_since s) (half_close_timeout config) now = false
  /\ idle_timed_out (status s) (last_seen s) idle now = false.

(** C33: a lost segment is sent again. In every state a fresh flow reaches - whose
    addresses are of its family, through packets that acknowledge at most 2^28
    behind the highest acknowledged number and at most 2^30 past what was sent,
    and report only bytes that were sent - when some queued segment the client
    has not reported was last sent a whole retransmission timeout ago, and none
    of the timeouts that end the flow as a whole (handshake, half-close,
    TIME-WAIT, idle) has passed, the timer resends a segment of the stream, or
    gives the flow up for having resent one too often: the cached send instant
    the deadline is taken from never hides a segment. *)
Theorem timer_resends (isn : Z) (k : FlowConst) (out : bytes) (config : TunTcpConfig) (fl : Flow)
    (clock edge : Z) (r : tx) (now idle : Z) (v : BbrView) (g : ServerSegment) :
  key_ok k -> fresh_tx isn fl edge ->
  rtc (tx_step isn k out config) (tx_start fl clock edge) r ->
  t_clock r <= now -> 0 <= view_credit v ->
  timers_quiet config idle now (rx_state (t_flow r)) ->
  g ∈ unacked_server_segments (tx_state (t_flow r)) ->
  server_segment_is_sacked (tx_state (t_flow r)) g = false ->
  s_last_sent g + retransmission_timeout (tx_state (t_flow r)) <= now ->
  exists fl' plan, plan_flow_maintenance k config v idle now (t_flow r) = Some (fl', Ok plan)
    /\ (plan = PlanAbort "retransmit_budget_exhausted"
        \/ exists packet, plan = SendDataPacket packet /\ carries isn k out packet).
Proof.
  intros Hk Hf Hrun Hnow Hv (Q1 & Q2 & Q3 & Q4) Hg Hsk Hrto.
  destruct (tx_steps_ok isn k out Hk config _ _ Hrun) as (una & d & fin & edge' & qs & l & [Hfl Hn Ha _ _ _]).
  { exists 0, 0, false, edge, [], []. by apply fresh_run. }
  apply (flow_clock _ _ _ _ now) in Hfl; [|done].
  destruct Hfl as [Htx|(_ & Hq & _)]; [|rewrite Hq in Hg; by apply elem_of_nil in Hg].
  unfold plan_flow_maintenance. rewrite Q1, Q2, Q3, Q4.
  pose proof (so_exact _ _ _ _ _ _ (tx_send _ _ _ _ _ _ _ _ _ _ _ Htx)) as Hex.
  apply exact_iff in Hex as [_ _ He _].
  destruct (earliest_le (sacked (sack_scoreboard (tx_state (t_flow r)))) _ g Hg Hsk) as (e & Hee & Hle).
  assert (Hdue : retransmit_is_due (tx_state (t_flow r)) now = true).
  { unfold retransmit_is_due, next_retransmission_deadline. rewrite He, Hee. cbn. lia. }
  rewrite Hdue. pose proof (due_found k now (t_flow r) g Hg Hsk Hrto) as Hne.
  destruct (due_retransmit_ok isn k out Hk _ _ _ _ _ _ _ _ _ Htx) as (fl' & o & qs' & Hr & _ & Hok & _).
  rewrite Hr. cbn [mbind option_bind]. destruct o as [packet|]; [|by specialize (Hne fl')].
  destruct (retransmit_budget_exhausted _ _); eexists _, _; (split; [reflexivity|]); [by left|].
  right. by exists packet.
Qed.

(** The first segment is resent one timeout after it was written. *)
Lemma timer_resends_witness :
  let g := default (mkServerSegment 0 0 0 [] 0 0 0 0 0 0 0 0 false)
             (unacked_server_segments (tx_state (t_flow example_run3)) !! 0%nat) in
  s_payload g = str "hello, d" /\
  exists fl plan, plan_flow_maintenance example_key example_tcp_config example_view 100000 1030
    (t_flow example_run3) = Some (fl, Ok plan)
    /\ (plan = PlanAbort "retransmit_budget_exhausted"
        \/ exists packet, plan = SendDataPacket packet /\ carries example_isn example_key example_out packet).
Proof.
  cbn zeta. split; [vm_compute; reflexivity|].
  apply (timer_resends example_isn example_key example_out example_tcp_config example_start 0 12 example_run3
    1030 100000 example_view
    (default (mkServerSegment 0 0 0 [] 0 0 0 0 0 0 0 0 false)
       (unacked_server_segments (tx_state (t_flow example_run3)) !! 0%nat))).
  - exact example_key_ok.
  - exact example_fresh.
  - exact example_tx_run.
  - vm_compute. discriminate.
  - vm_compute. discriminate.
  - vm_compute. repeat split.
  - apply (list_elem_of_lookup_2 _ 0). vm_compute. reflexivity.
  - vm_compute. reflexivity.
  - vm_compute. discriminate.
Defined.
