(* ===== verification/StreamCrypto.v ===== *)
(** The AEAD stream of the server ([bins/outline-ss-rust/src/crypto/stream.rs],
    [primitives.rs], [ss2022_header.rs]): the decryptor, which finds the user
    among all of those configured and then opens chunk after chunk as bytes
    arrive, and the encryptor.

    The cipher suites are third-party code: [seal] and [open_in_place] take an
    algorithm with its key, a nonce and the bytes, and fail with [None]; the
    key-derivation functions are [hkdf_sha1] and [blake3_derive_xof]. Where the
    code mutates its state before it returns an error, so does the model: an
    operation gives the state it leaves beside its result. *)
From S2P Require Import Prelude Target Cipher Ss2022.
Local Open Scope Z_scope.

Definition TAG_LEN : Z := 16.
Definition NONCE_LEN : nat := 12.
Definition LEGACY_MAX_CHUNK_SIZE : Z := 0x3fff.
Definition MAX_CHUNK_SIZE : Z := 0xffff.
Definition MAX_SUBKEY_LEN : nat := 32.
Definition MAX_NONCE_COUNTER : Z := 2 ^ 32.
Definition SS_SUBKEY_INFO : bytes := str "ss-subkey".
Definition SS2022_REQUEST_FIXED_CIPHERTEXT_LEN : Z := Z.of_nat SS2022_REQUEST_FIXED_HEADER_LEN + 16.

Inductive CryptoError : Type :=
  | KeyDerivation
  | InvalidChunkSize (n : Z)
  | InvalidLengthHeader
  | InvalidHeader
  | InvalidTimestamp
  | MissingResponseContext
  | CipherFailed
  | Random
  | PacketTooShort
  | UnknownUser
  | NonceExhausted.

Inductive Algorithm : Type := AES_128_GCM | AES_256_GCM | CHACHA20_POLY1305.
Definition cipher_algorithm (c : CipherKind) : Algorithm :=
  match c with
  | Aes128Gcm | Aes128Gcm2022 => AES_128_GCM
  | Aes256Gcm | Aes256Gcm2022 => AES_256_GCM
  | Chacha20IetfPoly1305 | Chacha20Poly13052022 => CHACHA20_POLY1305
  end.
(** A key bound to its algorithm. *)
Definition AeadKey : Type := Algorithm * bytes.

(** ** Nonces *)

(** [z.to_le_bytes()] of an [n]-byte integer. *)
Definition le_bytes (n : nat) (z : Z) : bytes := reverse (be_bytes n z).
Definition zeros (n : nat) : bytes := replicate n x00.
(** The nonce of the [n]th operation under a key. *)
Definition nonce_of (n : Z) : bytes := le_bytes 8 n ++ zeros 4.
Definition next_stream_nonce (counter : Z) : result CryptoError (bytes * Z) :=
  if MAX_NONCE_COUNTER <=? counter then Err NonceExhausted
  else Ok (nonce_of counter, counter + 1).

(** [l.split_to(n)] *)
Definition split_to (l : bytes) (n : Z) : bytes * bytes :=
  (take (Z.to_nat n) l, drop (Z.to_nat n) l).

(** [l.chunks(n)], [n] not zero; every round takes a byte. *)
Fixpoint chunks_loop (fuel n : nat) (l : bytes) : list bytes :=
  match fuel, l with
  | O, _ | _, [] => []
  | S fuel, _ => take n l :: chunks_loop fuel n (drop n l)
  end.
Definition chunks (n : Z) (l : bytes) : list bytes := chunks_loop (length l) (Z.to_nat n) l.

(** ** Data *)
Record UserKey : Type := mkUser { user_id : bytes; cipher : CipherKind; master_key : bytes; fwmark : option Z }.

Inductive ActiveStreamMode : Type :=
  | Legacy (request_salt : bytes) (pending_chunk_len : option Z)
  | Ss2022 (request_salt : bytes) (header_parsed : bool) (pending_header_len : option Z)
      (pending_chunk_len : option Z).
Record ActiveStream : Type := mkActive {
  user : UserKey;
  user_index : nat;
  key : AeadKey;
  nonce_counter : Z;
  mode : ActiveStreamMode
}.
Record AeadStreamDecryptor : Type := mkDecryptor {
  users : list UserKey;
  buffer : bytes;
  active : option ActiveStream;
  user_hint : option nat
}.
Inductive CandidateOutcome : Type :=
  | Authenticated (rest : bytes) (active : ActiveStream)
  | Probed
  | TooShort.

Definition decryptor_new (users : list UserKey) : AeadStreamDecryptor := mkDecryptor users [] None None.
Definition set_user_hint (d : AeadStreamDecryptor) (hint : option nat) : AeadStreamDecryptor :=
  mkDecryptor (users d) (buffer d) (active d)
    (idx ← hint; if (idx <? length (users d))%nat then Some idx else None).
Definition feed_ciphertext (d : AeadStreamDecryptor) (data : bytes) : AeadStreamDecryptor :=
  mkDecryptor (users d) (buffer d ++ data) (active d) (user_hint d).
Definition request_salt (d : AeadStreamDecryptor) : option bytes :=
  a ← active d;
  match mode a with Legacy salt _ | Ss2022 salt _ _ _ => Some salt end.
Definition response_context (d : AeadStreamDecryptor) : option bytes :=
  a ← active d;
  match mode a with Legacy _ _ => None | Ss2022 salt _ _ _ => Some salt end.

Definition from_header_error (e : Ss2022HeaderError) : CryptoError :=
  match e with TimestampSkew _ => InvalidTimestamp | _ => InvalidHeader end.
Definition validate_ss2022_request_fixed_header (header : bytes) (now : Z) : result CryptoError Z :=
  n ← map_err from_header_error (validate_request_fixed_header header now);
  Ok (Z.of_nat n).
Definition encode_target_and_payload (r : Ss2022Request) : result CryptoError bytes :=
  output ← map_err (fun _ => InvalidHeader) (to_wire_bytes (target r));
  Ok (output ++ payload r).
Definition parse_ss2022_request_header (header : bytes) : result CryptoError bytes :=
  r ← map_err from_header_error (parse_request_variable_header header);
  encode_target_and_payload r.

Inductive StreamEncryptorMode : Type :=
  | EncLegacy (key : AeadKey) (nonce_counter : Z) (salt : bytes) (sent_salt : bool)
  | EncSs2022 (key : AeadKey) (nonce_counter : Z) (salt : bytes) (sent_header : bool)
      (request_salt : bytes).

Definition pending_prefix_len (m : StreamEncryptorMode) : Z :=
  match m with
  | EncLegacy _ _ salt sent_salt => if sent_salt then 0 else zlen salt
  | EncSs2022 _ _ salt sent_header request_salt =>
    if sent_header then 0 else zlen salt + 1 + 8 + zlen request_salt
  end.

Section stream.
Variable seal : AeadKey -> bytes -> bytes -> option bytes.
Variable open_in_place : AeadKey -> bytes -> bytes -> option bytes.
Variable hkdf_sha1 : bytes -> bytes -> bytes -> nat -> option bytes.
Variable blake3_derive_xof : bytes -> bytes -> nat -> bytes.

Definition derive_subkey (c : CipherKind) (master_key salt : bytes) : result CryptoError bytes :=
  out ← (if is_ss2022 c then Ok (ss2022_session_subkey_into blake3_derive_xof master_key salt (key_len c))
         else ok_or KeyDerivation (hkdf_sha1 salt master_key SS_SUBKEY_INFO (key_len c)));
  Ok (out ++ zeros (MAX_SUBKEY_LEN - key_len c)).
(** The key has the algorithm's length, so that [UnboundKey::new] accepts it. *)
Definition build_session_key (c : CipherKind) (master_key salt : bytes) : result CryptoError AeadKey :=
  subkey ← derive_subkey c master_key salt;
  Ok (cipher_algorithm c, take (key_len c) subkey).

Definition try_open_fixed_header (key : AeadKey) (nonce ciphertext : bytes)
    (expected_plaintext_len : Z) : result CryptoError bytes :=
  plaintext ← ok_or CipherFailed (open_in_place key nonce ciphertext);
  if negb (zlen plaintext =? expected_plaintext_len) then Err InvalidHeader else Ok plaintext.

(** ** The decryptor *)

(** What the drain functions mutate: the buffer, the nonce counter, the pending
    length and the output. *)
Record Cursor : Type := mkCursor {
  c_buffer : bytes;
  c_nonce : Z;
  c_pending : option Z;
  c_output : bytes
}.

Definition drain_length_header (buffer : bytes) (key : AeadKey) (nonce_counter max_chunk_size : Z)
    : bytes * Z * result CryptoError (option Z) :=
  if zlen buffer <? 2 + TAG_LEN then (buffer, nonce_counter, Ok None)
  else
    let (encrypted_len, buffer) := split_to buffer (2 + TAG_LEN) in
    match next_stream_nonce nonce_counter with
    | Err e => (buffer, nonce_counter, Err e)
    | Ok (nonce, nonce_counter) =>
      (buffer, nonce_counter,
       decrypted_len ← ok_or InvalidLengthHeader (open_in_place key nonce encrypted_len);
       if negb (zlen decrypted_len =? 2) then Err InvalidLengthHeader
       else
         let chunk_len := be_val decrypted_len in
         if max_chunk_size <? chunk_len then Err (InvalidChunkSize chunk_len) else Ok (Some chunk_len))
    end.

Definition drain_chunk (c : Cursor) (key : AeadKey) (chunk_len : Z) : Cursor * result CryptoError bool :=
  if zlen (c_buffer c) <? chunk_len + TAG_LEN then (c, Ok false)
  else
    let (encrypted_payload, buffer) := split_to (c_buffer c) (chunk_len + TAG_LEN) in
    match next_stream_nonce (c_nonce c) with
    | Err e => (mkCursor buffer (c_nonce c) (c_pending c) (c_output c), Err e)
    | Ok (nonce, nonce_counter) =>
      match open_in_place key nonce encrypted_payload with
      | None => (mkCursor buffer nonce_counter (c_pending c) (c_output c), Err CipherFailed)
      | Some decrypted => (mkCursor buffer nonce_counter None (c_output c ++ decrypted), Ok true)
      end
    end.
Definition drain_payload (c : Cursor) (key : AeadKey) (max_chunk_size : Z)
    : Cursor * result CryptoError bool :=
  match c_pending c with
  | Some chunk_len => drain_chunk c key chunk_len
  | None =>
    let '(buffer, nonce_counter, r) := drain_length_header (c_buffer c) key (c_nonce c) max_chunk_size in
    let c := mkCursor buffer nonce_counter None (c_output c) in
    match r with
    | Err e => (c, Err e)
    | Ok None => (c, Ok false)
    | Ok (Some chunk_len) =>
      drain_chunk (mkCursor (c_buffer c) (c_nonce c) (Some chunk_len) (c_output c)) key chunk_len
    end
  end.

Definition try_user (buffer : bytes) (user : UserKey) (user_index : nat) (now : Z)
    : result CryptoError CandidateOutcome :=
  let salt_len := Z.of_nat (salt_len (cipher user)) in
  let salt := take (Z.to_nat salt_len) buffer in
  if is_ss2022 (cipher user) then
    if zlen buffer <? salt_len + SS2022_REQUEST_FIXED_CIPHERTEXT_LEN then Ok TooShort
    else
      let encrypted_fixed :=
        slice buffer (Z.to_nat salt_len) (Z.to_nat (salt_len + SS2022_REQUEST_FIXED_CIPHERTEXT_LEN)) in
      less_safe ← build_session_key (cipher user) (master_key user) salt;
      match try_open_fixed_header less_safe (zeros NONCE_LEN) encrypted_fixed
              (Z.of_nat SS2022_REQUEST_FIXED_HEADER_LEN) with
      | Ok header =>
        header_len ← validate_ss2022_request_fixed_header header now;
        Ok (Authenticated (drop (Z.to_nat (salt_len + SS2022_REQUEST_FIXED_CIPHERTEXT_LEN)) buffer)
              (mkActive user user_index less_safe 1 (Ss2022 salt false (Some header_len) None)))
      | Err _ => Ok Probed
      end
  else
    if zlen buffer <? salt_len + 2 + TAG_LEN then Ok TooShort
    else
      let candidate := slice buffer (Z.to_nat salt_len) (Z.to_nat (salt_len + 2 + TAG_LEN)) in
      less_safe ← build_session_key (cipher user) (master_key user) salt;
      match try_open_fixed_header less_safe (zeros NONCE_LEN) candidate 2 with
      | Ok plaintext_len =>
        if be_val plaintext_len <=? LEGACY_MAX_CHUNK_SIZE then
          Ok (Authenticated (drop (Z.to_nat salt_len) buffer)
                (mkActive user user_index less_safe 0 (Legacy salt None)))
        else Ok Probed
      | Err _ => Ok Probed
      end.

(** The scan over the users from index [idx] on, past the hinted one. *)
Fixpoint scan_users (buffer : bytes) (user_hint : option nat) (now : Z) (users : list UserKey) (idx : nat)
    (any_candidate : bool) : result CryptoError (option (bytes * ActiveStream)) :=
  match users with
  | [] => if any_candidate then Err UnknownUser else Ok None
  | user :: users =>
    if bool_decide (Some idx = user_hint) then scan_users buffer user_hint now users (S idx) any_candidate
    else
      r ← try_user buffer user idx now;
      match r with
      | Authenticated rest active => Ok (Some (rest, active))
      | Probed => scan_users buffer user_hint now users (S idx) true
      | TooShort => scan_users buffer user_hint now users (S idx) any_candidate
      end
  end.
Definition find_user (d : AeadStreamDecryptor) (now : Z)
    : result CryptoError (option (bytes * ActiveStream)) :=
  let scan := scan_users (buffer d) (user_hint d) now (users d) 0 in
  match (hint ← user_hint d; user ← users d !! hint; Some (hint, user)) with
  | Some (hint, user) =>
    r ← try_user (buffer d) user hint now;
    match r with
    | Authenticated rest active => Ok (Some (rest, active))
    | Probed => scan true
    | TooShort => scan false
    end
  | None => scan false
  end.
Definition ensure_session_key (d : AeadStreamDecryptor) (now : Z)
    : AeadStreamDecryptor * result CryptoError unit :=
  if bool_decide (is_Some (active d)) then (d, Ok tt)
  else
    match find_user d now with
    | Err e => (d, Err e)
    | Ok None => (d, Ok tt)
    | Ok (Some (rest, active)) => (mkDecryptor (users d) rest (Some active) (user_hint d), Ok tt)
    end.

(** One round of the loop of [drain_plaintext]: whether it goes on. *)
Definition drain_header (a : ActiveStream) (buffer salt : bytes) (pending_header_len pending_chunk_len : option Z)
    (output : bytes) : bytes * ActiveStream * bytes * result CryptoError bool :=
  match pending_header_len with
  | None => (buffer, a, output, Err InvalidHeader)
  | Some header_len =>
    if zlen buffer <? header_len + TAG_LEN then (buffer, a, output, Ok false)
    else
      let (encrypted_header, buffer) := split_to buffer (header_len + TAG_LEN) in
      match next_stream_nonce (nonce_counter a) with
      | Err e => (buffer, a, output, Err e)
      | Ok (nonce, nonce_counter) =>
        let set m := mkActive (user a) (user_index a) (key a) nonce_counter m in
        match (header ← ok_or CipherFailed (open_in_place (key a) nonce encrypted_header);
               parse_ss2022_request_header header) with
        | Err e => (buffer, set (Ss2022 salt false pending_header_len pending_chunk_len), output, Err e)
        | Ok initial_plaintext =>
          (buffer, set (Ss2022 salt true None pending_chunk_len), output ++ initial_plaintext, Ok true)
        end
      end
  end.
Definition drain_round (buffer : bytes) (a : ActiveStream) (output : bytes)
    : bytes * ActiveStream * bytes * result CryptoError bool :=
  let set c m := mkActive (user a) (user_index a) (key a) (c_nonce c) m in
  match mode a with
  | Legacy salt pending =>
    let (c, r) := drain_payload (mkCursor buffer (nonce_counter a) pending output) (key a) LEGACY_MAX_CHUNK_SIZE in
    (c_buffer c, set c (Legacy salt (c_pending c)), c_output c, r)
  | Ss2022 salt header_parsed pending_header pending =>
    if negb header_parsed then drain_header a buffer salt pending_header pending output
    else
      let (c, r) := drain_payload (mkCursor buffer (nonce_counter a) pending output) (key a) MAX_CHUNK_SIZE in
      (c_buffer c, set c (Ss2022 salt header_parsed pending_header (c_pending c)), c_output c, r)
  end.
(** Every round that goes on takes a tag's length out of the buffer, so the
    buffer's length is fuel enough. *)
Fixpoint drain_loop (fuel : nat) (buffer : bytes) (a : ActiveStream) (output : bytes)
    : option (bytes * ActiveStream * bytes * result CryptoError unit) :=
  match fuel with
  | O => None
  | S fuel =>
    let '(buffer, a, output, r) := drain_round buffer a output in
    match r with
    | Err e => Some (buffer, a, output, Err e)
    | Ok false => Some (buffer, a, output, Ok tt)
    | Ok true => drain_loop fuel buffer a output
    end
  end.
(** [None] is a loop that would not end. *)
Definition drain_plaintext (d : AeadStreamDecryptor) (now : Z) (output : bytes)
    : option (AeadStreamDecryptor * bytes * result CryptoError unit) :=
  let (d, r) := ensure_session_key d now in
  match r with
  | Err e => Some (d, output, Err e)
  | Ok _ =>
    match active d with
    | None => Some (d, output, Ok tt)
    | Some a =>
      '(buffer, a, output, r) ← drain_loop (S (length (buffer d))) (buffer d) a output;
      Some (mkDecryptor (users d) buffer (Some a) (user_hint d), output, r)
    end
  end.

(** ** The encryptor *)
Definition encryptor_new (user : UserKey) (response_context : option bytes) (salt : bytes)
    : result CryptoError StreamEncryptorMode :=
  key ← build_session_key (cipher user) (master_key user) salt;
  if is_ss2022 (cipher user) then
    request_salt ← ok_or MissingResponseContext response_context;
    Ok (EncSs2022 key 0 salt false request_salt)
  else Ok (EncLegacy key 0 salt false).

(** [plaintext] sealed behind the output under the next nonce; on an error the
    bytes that were to be sealed stay. *)
Definition seal_part (key : AeadKey) (nonce_counter : Z) (output plaintext : bytes)
    : Z * bytes * result CryptoError unit :=
  match next_stream_nonce nonce_counter with
  | Err e => (nonce_counter, output ++ plaintext, Err e)
  | Ok (nonce, nonce_counter) =>
    match seal key nonce plaintext with
    | None => (nonce_counter, output ++ plaintext, Err CipherFailed)
    | Some sealed => (nonce_counter, output ++ sealed, Ok tt)
    end
  end.
(** A header block and the payload block behind it. *)
Definition seal_two (key : AeadKey) (nonce_counter : Z) (output header plaintext : bytes)
    : Z * bytes * result CryptoError unit :=
  let '(nonce_counter, output, r) := seal_part key nonce_counter output header in
  match r with
  | Err e => (nonce_counter, output, Err e)
  | Ok _ => seal_part key nonce_counter output plaintext
  end.

Definition encrypt_legacy_chunk (key : AeadKey) (nonce_counter : Z) (salt : bytes) (sent_salt : bool)
    (plaintext output : bytes) : Z * bool * bytes * result CryptoError unit :=
  if LEGACY_MAX_CHUNK_SIZE <? zlen plaintext
  then (nonce_counter, sent_salt, output, Err (InvalidChunkSize (zlen plaintext)))
  else
    let output := if negb sent_salt then output ++ salt else output in
    let '(nonce_counter, output, r) :=
      seal_two key nonce_counter output (be_bytes 2 (zlen plaintext)) plaintext in
    (nonce_counter, true, output, r).
Fixpoint encrypt_legacy_list (key : AeadKey) (nonce_counter : Z) (salt : bytes) (sent_salt : bool)
    (parts : list bytes) (output : bytes) : Z * bool * bytes * result CryptoError unit :=
  match parts with
  | [] => (nonce_counter, sent_salt, output, Ok tt)
  | chunk :: parts =>
    let '(nonce_counter, sent_salt, output, r) :=
      encrypt_legacy_chunk key nonce_counter salt sent_salt chunk output in
    match r with
    | Err e => (nonce_counter, sent_salt, output, Err e)
    | Ok _ => encrypt_legacy_list key nonce_counter salt sent_salt parts output
    end
  end.
Definition encrypt_legacy_chunks (key : AeadKey) (nonce_counter : Z) (salt : bytes) (sent_salt : bool)
    (plaintext output : bytes) : Z * bool * bytes * result CryptoError unit :=
  encrypt_legacy_list key nonce_counter salt sent_salt (chunks LEGACY_MAX_CHUNK_SIZE plaintext) output.

Definition encrypt_ss2022_chunk (key : AeadKey) (nonce_counter : Z) (salt : bytes) (sent_header : bool)
    (request_salt : bytes) (now : Z) (plaintext output : bytes)
    : Z * bool * bytes * result CryptoError unit :=
  if MAX_CHUNK_SIZE <? zlen plaintext
  then (nonce_counter, sent_header, output, Err (InvalidChunkSize (zlen plaintext)))
  else if negb sent_header then
    let header := [SS2022_TCP_RESPONSE_TYPE] ++ be_bytes 8 now ++ request_salt
                  ++ be_bytes 2 (zlen plaintext) in
    let '(nonce_counter, output, r) := seal_two key nonce_counter (output ++ salt) header plaintext in
    (nonce_counter, match r with Ok _ => true | Err _ => sent_header end, output, r)
  else
    let '(nonce_counter, output, r) :=
      seal_two key nonce_counter output (be_bytes 2 (zlen plaintext)) plaintext in
    (nonce_counter, sent_header, output, r).

Definition encrypt_chunk (m : StreamEncryptorMode) (now : Z) (plaintext output : bytes)
    : StreamEncryptorMode * bytes * result CryptoError unit :=
  match m with
  | EncLegacy key nonce_counter salt sent_salt =>
    let '(nonce_counter, sent_salt, output, r) :=
      encrypt_legacy_chunks key nonce_counter salt sent_salt plaintext output in
    (EncLegacy key nonce_counter salt sent_salt, output, r)
  | EncSs2022 key nonce_counter salt sent_header request_salt =>
    let '(nonce_counter, sent_header, output, r) :=
      encrypt_ss2022_chunk key nonce_counter salt sent_header request_salt now plaintext output in
    (EncSs2022 key nonce_counter salt sent_header request_salt, output, r)
  end.
End stream.
