(* ===== verification/StreamClient.v ===== *)
(** The AEAD stream of the client
    ([crates/outline-transport/src/tcp_transport/writer/mod.rs],
    [reader/mod.rs], [reader/transport.rs], [crates/shadowsocks-crypto/src/aead.rs],
    [keys.rs]): the writer that turns payloads into sealed frames, batched or
    not, and the reader that gets them back out of WebSocket messages, the
    resumption frames at their head included.

    The transport of the writer takes whole frames; the frames it was handed
    are a field of the writer, oldest first. The messages the reader has still
    to receive are a list, whose end is the end of the stream. *)
From S2P Require Import Prelude Target Cipher Ss2022 Padding Resume StreamCrypto.
Local Open Scope Z_scope.

Inductive TransportError : Type :=
  | NonceOverflow
  | EncryptFailed
  | DecryptFailed
  | ShortCiphertext
  | HkdfExpandFailed
  | InvalidInitialTargetHeader (e : TargetAddrError)
  | RequestHeader (e : Ss2022HeaderError)
  | ResponseHeader (e : Ss2022HeaderError)
  | WsClosed
  | TryAgain
  | WebSocketRead
  | ReadIdle
  | UnexpectedText
  | InvalidLengthBlock
  | PayloadTooLong (n : Z)
  | BadAckPrefix (r : Ack.ParseResult)
  | BadReplayHeader (r : DownlinkReplay.ParseResult)
  | ReplayEof
  | ReplayAboveCap
  | ReplayTruncatedWithPayload.

(** ** The nonce, a 96-bit little-endian counter *)
Fixpoint increment_nonce (nonce : bytes) : bytes * result TransportError unit :=
  match nonce with
  | [] => ([], Err NonceOverflow)
  | b :: nonce =>
    if b2z b =? 255 then let (nonce, r) := increment_nonce nonce in (x00 :: nonce, r)
    else (u8 (b2z b + 1) :: nonce, Ok tt)
  end.

(** ** Data *)
Record Ss2022TcpWriterState : Type := mkWriterState { ws_request_salt : bytes; header_sent : bool }.
Record TcpShadowsocksWriter : Type := mkWriter {
  w_cipher : CipherKind;
  w_key : AeadKey;
  w_nonce : bytes;
  pending_salt : option bytes;
  w_ss2022 : option Ss2022TcpWriterState;
  w_frames : list bytes
}.
Definition w_set (w : TcpShadowsocksWriter) (nonce : bytes) (salt : option bytes) : TcpShadowsocksWriter :=
  mkWriter (w_cipher w) (w_key w) nonce salt (w_ss2022 w) (w_frames w).
Definition w_set_ss2022 (w : TcpShadowsocksWriter) (s : Ss2022TcpWriterState) : TcpShadowsocksWriter :=
  mkWriter (w_cipher w) (w_key w) (w_nonce w) (pending_salt w) (Some s) (w_frames w).
Definition write_frame (w : TcpShadowsocksWriter) (frame : bytes) : TcpShadowsocksWriter :=
  mkWriter (w_cipher w) (w_key w) (w_nonce w) (pending_salt w) (w_ss2022 w) (w_frames w ++ [frame]).

(** A WebSocket message, and what the stream yields: a message, an error, or
    the read-idle watchdog. *)
Inductive Message : Type :=
  | Binary (b : bytes)
  | Close (code : option Z)
  | Ping
  | Pong
  | Text
  | RawFrame.
Inductive Item : Type := Received (m : Message) | ReadError | Idle.
Definition CLOSE_AGAIN : Z := 1013.

Record Ss2022TcpReaderState : Type := mkReaderState {
  rs_request_salt : bytes;
  response_header_read : bool
}.
Record TcpShadowsocksReader : Type := mkReader {
  r_stream : list Item;
  r_buffer : bytes;
  r_padding : option PaddingDecoder;
  r_cipher : CipherKind;
  r_master_key : bytes;
  cipher_state : option AeadKey;
  r_nonce : bytes;
  r_ss2022 : option Ss2022TcpReaderState;
  closed_cleanly : bool;
  expect_ack_prefix : bool;
  up_acked : option Z;
  pending_tail : option bytes;
  expect_downlink_replay : bool
}.
Definition r_set_io (r : TcpShadowsocksReader) (stream : list Item) (buffer : bytes)
    (padding : option PaddingDecoder) (clean : bool) : TcpShadowsocksReader :=
  mkReader stream buffer padding (r_cipher r) (r_master_key r) (cipher_state r) (r_nonce r)
    (r_ss2022 r) clean (expect_ack_prefix r) (up_acked r) (pending_tail r) (expect_downlink_replay r).
Definition r_set_session (r : TcpShadowsocksReader) (key : option AeadKey) (nonce : bytes)
    (s : option Ss2022TcpReaderState) : TcpShadowsocksReader :=
  mkReader (r_stream r) (r_buffer r) (r_padding r) (r_cipher r) (r_master_key r) key nonce s
    (closed_cleanly r) (expect_ack_prefix r) (up_acked r) (pending_tail r) (expect_downlink_replay r).
Definition r_set_resume (r : TcpShadowsocksReader) (expect : bool) (acked : option Z)
    (tail : option bytes) (replay : bool) : TcpShadowsocksReader :=
  mkReader (r_stream r) (r_buffer r) (r_padding r) (r_cipher r) (r_master_key r) (cipher_state r)
    (r_nonce r) (r_ss2022 r) (closed_cleanly r) expect acked tail replay.

(** A reader over a WebSocket stream; a master key longer than 32 bytes would be
    a panic. *)
Definition reader_new (stream : list Item) (padding : bool) (c : CipherKind) (master_key : bytes)
    : TcpShadowsocksReader :=
  mkReader stream [] (if padding then Some decoder_new else None) c
    (master_key ++ zeros (32 - length master_key)) None (zeros 12) None false false None None false.
Definition with_request_salt (r : TcpShadowsocksReader) (request_salt : option bytes) : TcpShadowsocksReader :=
  r_set_session r (cipher_state r) (r_nonce r) (salt ← request_salt; Some (mkReaderState salt false)).
Definition with_expect_ack_prefix (r : TcpShadowsocksReader) (expect : bool) : TcpShadowsocksReader :=
  r_set_resume r expect (up_acked r) (pending_tail r) (expect_downlink_replay r).
Definition with_expect_downlink_replay (r : TcpShadowsocksReader) (expect : bool) : TcpShadowsocksReader :=
  r_set_resume r (expect_ack_prefix r) (up_acked r) (pending_tail r) expect.

(** ** The WebSocket transport of the reader *)

(** [ReadTransport::read_exact]; pongs, which it answers pings with, and the
    throttle handler are left out. *)
Fixpoint read_exact_from (stream : list Item) (buffer : bytes) (padding : option PaddingDecoder) (len : Z)
    (clean : bool) : list Item * bytes * option PaddingDecoder * bool * result TransportError bytes :=
  if len <=? zlen buffer then
    let (out, buffer) := split_to buffer len in (stream, buffer, padding, clean, Ok out)
  else
    match stream with
    | [] => ([], buffer, padding, true, Err WsClosed)
    | Idle :: stream => (stream, buffer, padding, clean, Err ReadIdle)
    | ReadError :: stream => (stream, buffer, padding, clean, Err WebSocketRead)
    | Received (Binary b) :: stream =>
      match padding with
      | Some decoder =>
        let (decoder, buffer) := push decoder b buffer in
        let (_, decoder) := take_control decoder in
        read_exact_from stream buffer (Some decoder) len clean
      | None => read_exact_from stream (buffer ++ b) None len clean
      end
    | Received (Close code) :: stream =>
      if bool_decide (code = Some CLOSE_AGAIN) then (stream, buffer, padding, clean, Err TryAgain)
      else (stream, buffer, padding, true, Err WsClosed)
    | Received Text :: stream => (stream, buffer, padding, clean, Err UnexpectedText)
    | Received (Ping | Pong | RawFrame) :: stream => read_exact_from stream buffer padding len clean
    end.
Definition read_exact (r : TcpShadowsocksReader) (len : Z) : TcpShadowsocksReader * result TransportError bytes :=
  let '(stream, buffer, padding, clean, res) :=
    read_exact_from (r_stream r) (r_buffer r) (r_padding r) len (closed_cleanly r) in
  (r_set_io r stream buffer padding clean, res).

(** [x <- step; k], the state of a failed step kept. *)
Definition andthen {S A B} (p : S * result TransportError A) (k : S -> A -> S * result TransportError B)
    : S * result TransportError B :=
  match p with (s, Ok a) => k s a | (s, Err e) => (s, Err e) end.

Definition FRAME_SOFT_CAP : Z := 256 * 1024.
Definition SHADOWSOCKS_TAG_LEN : Z := 16.

Section client.
Variable seal : AeadKey -> bytes -> bytes -> option bytes.
Variable open_ : AeadKey -> bytes -> bytes -> option bytes.
Variable hkdf_sha1 : bytes -> bytes -> bytes -> nat -> option bytes.
Variable blake3_derive_xof : bytes -> bytes -> nat -> bytes.

Definition client_subkey (c : CipherKind) (master_key salt : bytes) : result TransportError bytes :=
  out ← (if is_ss2022 c then Ok (ss2022_session_subkey_into blake3_derive_xof master_key salt (key_len c))
         else ok_or HkdfExpandFailed (hkdf_sha1 salt master_key SS_SUBKEY_INFO (key_len c)));
  Ok (out ++ zeros (32 - key_len c)).
(** [AeadCipher::new] on the active part of a subkey. *)
Definition client_key (c : CipherKind) (master_key salt : bytes) : result TransportError AeadKey :=
  subkey ← client_subkey c master_key salt;
  Ok (cipher_algorithm c, take (key_len c) subkey).

(** ** The writer *)

(** [salt] is what the generator drew, 32 bytes of which the first [salt_len]
    are used. *)
Definition writer_connect (c : CipherKind) (master_key salt : bytes)
    : result TransportError TcpShadowsocksWriter :=
  key ← client_key c master_key (take (salt_len c) salt);
  Ok (mkWriter c key (zeros 12) (Some salt)
        (if is_ss2022 c then Some (mkWriterState salt false) else None) []).

(** [encrypt_into] and the step of the nonce behind it. *)
Definition encrypt_next (w : TcpShadowsocksWriter) (payload out : bytes)
    : TcpShadowsocksWriter * result TransportError bytes :=
  match seal (w_key w) (w_nonce w) payload with
  | None => (w, Err EncryptFailed)
  | Some sealed =>
    let (nonce, r) := increment_nonce (w_nonce w) in
    (w_set w nonce (pending_salt w), _ ← r; Ok (out ++ sealed))
  end.
(** The salt, the first time. *)
Definition take_salt (w : TcpShadowsocksWriter) (frame : bytes) : TcpShadowsocksWriter * bytes :=
  match pending_salt w with
  | Some salt => (w_set w (w_nonce w) None, frame ++ take (salt_len (w_cipher w)) salt)
  | None => (w, frame)
  end.
(** The length is cut to sixteen bits by the cast. *)
Definition encrypt_payload_frame_into (w : TcpShadowsocksWriter) (payload frame : bytes)
    : TcpShadowsocksWriter * result TransportError bytes :=
  let (w, frame) := take_salt w frame in
  andthen (encrypt_next w (be_bytes 2 (zlen payload mod 2 ^ 16)) frame) (fun w frame =>
    encrypt_next w payload frame).
Definition send_payload_frame (w : TcpShadowsocksWriter) (payload : bytes)
    : TcpShadowsocksWriter * result TransportError unit :=
  andthen (encrypt_payload_frame_into w payload []) (fun w frame => (write_frame w frame, Ok tt)).
Fixpoint encrypt_frames_into (w : TcpShadowsocksWriter) (payloads : list bytes) (frame : bytes)
    : TcpShadowsocksWriter * result TransportError bytes :=
  match payloads with
  | [] => (w, Ok frame)
  | payload :: payloads =>
    andthen (encrypt_payload_frame_into w payload frame) (fun w frame => encrypt_frames_into w payloads frame)
  end.

(** The SS2022 request header, sent for the first payload, which is the target
    address; [padding] is what the generator drew. *)
Definition send_request_header (w : TcpShadowsocksWriter) (now : Z) (padding payload : bytes)
    : TcpShadowsocksWriter * result TransportError unit :=
  match map_err InvalidInitialTargetHeader (from_wire_bytes payload) with
  | Err e => (w, Err e)
  | Ok (target, _) =>
    match map_err RequestHeader (build_request_header target now padding) with
    | Err e => (w, Err e)
    | Ok (fixed_header, variable_header) =>
      let salt := pending_salt w in
      let (w, frame) := take_salt w [] in
      let state s sent :=
        match salt with Some salt => mkWriterState salt sent | None => mkWriterState (ws_request_salt s) sent end in
      let w := match w_ss2022 w with Some s => w_set_ss2022 w (state s false) | None => w end in
      andthen (encrypt_next w fixed_header frame) (fun w frame =>
        andthen (encrypt_next w variable_header frame) (fun w frame =>
          let w := match w_ss2022 w with
                   | Some s => w_set_ss2022 w (mkWriterState (ws_request_salt s) true) | None => w end in
          (write_frame w frame, Ok tt)))
    end
  end.
Definition header_pending (w : TcpShadowsocksWriter) : bool :=
  match w_ss2022 w with Some s => negb (header_sent s) | None => false end.

Definition send_chunk (w : TcpShadowsocksWriter) (now : Z) (padding payload : bytes)
    : TcpShadowsocksWriter * result TransportError unit :=
  if bool_decide (payload = []) then (w, Ok tt)
  else if header_pending w then send_request_header w now padding payload
  else
    let max := max_payload_len (w_cipher w) in
    if zlen payload <=? max then send_payload_frame w payload
    else
      andthen (encrypt_frames_into w (chunks max payload) []) (fun w frame => (write_frame w frame, Ok tt)).

(** ** The batched writer *)

(** What the loops of [send_chunks] carry. *)
Record Batch : Type := mkBatch { b_record : bytes; b_frame : bytes }.
Definition flush_frame (w : TcpShadowsocksWriter) (frame : bytes) : TcpShadowsocksWriter * bytes :=
  if FRAME_SOFT_CAP <=? zlen frame then (write_frame w frame, []) else (w, frame).
Definition batch_step := (TcpShadowsocksWriter * result TransportError Batch)%type.

(** Full records straight out of the chunk; what is left of it. *)
Fixpoint full_records (fuel : nat) (w : TcpShadowsocksWriter) (max : Z) (rest frame : bytes)
    : TcpShadowsocksWriter * result TransportError (bytes * bytes) :=
  match fuel with
  | O => (w, Ok (rest, frame))
  | S fuel =>
    if max <=? zlen rest then
      andthen (encrypt_payload_frame_into w (take (Z.to_nat max) rest) frame) (fun w frame =>
        let (w, frame) := flush_frame w frame in
        full_records fuel w max (drop (Z.to_nat max) rest) frame)
    else (w, Ok (rest, frame))
  end.
(** The remainder, through the scratch record. *)
Fixpoint fill_record (fuel : nat) (w : TcpShadowsocksWriter) (max : Z) (rest : bytes) (b : Batch)
    : batch_step :=
  match fuel with
  | O => (w, Ok b)
  | S fuel =>
    if bool_decide (rest = []) then (w, Ok b)
    else
      let take_ := Z.min (max - zlen (b_record b)) (zlen rest) in
      let record := b_record b ++ take (Z.to_nat take_) rest in
      let rest := drop (Z.to_nat take_) rest in
      if zlen record =? max then
        andthen (encrypt_payload_frame_into w record (b_frame b)) (fun w frame =>
          let (w, frame) := flush_frame w frame in
          fill_record fuel w max rest (mkBatch [] frame))
      else fill_record fuel w max rest (mkBatch record (b_frame b))
  end.
(** Each round of either loop takes a byte. *)
Fixpoint batch_loop (w : TcpShadowsocksWriter) (max : Z) (data : list bytes) (b : Batch) : batch_step :=
  match data with
  | [] => (w, Ok b)
  | chunk :: data =>
    andthen
      (if bool_decide (b_record b = []) then
         andthen (full_records (length chunk) w max chunk (b_frame b)) (fun w rf =>
           fill_record (length chunk) w max rf.1 (mkBatch [] rf.2))
       else fill_record (length chunk) w max chunk b)
      (fun w b => batch_loop w max data b)
  end.
Definition send_data (w : TcpShadowsocksWriter) (data : list bytes)
    : TcpShadowsocksWriter * result TransportError unit :=
  andthen (batch_loop w (max_payload_len (w_cipher w)) data (mkBatch [] [])) (fun w b =>
    andthen (if bool_decide (b_record b = []) then (w, Ok (b_frame b))
             else encrypt_payload_frame_into w (b_record b) (b_frame b)) (fun w frame =>
      (if bool_decide (frame = []) then w else write_frame w frame, Ok tt))).
Definition send_chunks (w : TcpShadowsocksWriter) (now : Z) (padding : bytes) (chunks : list bytes)
    : TcpShadowsocksWriter * result TransportError unit :=
  if header_pending w then
    match chunks with
    | [] => (w, Ok tt)
    | first :: tail => andthen (send_chunk w now padding first) (fun w _ => send_data w tail)
    end
  else send_data w chunks.

Definition send_keepalive (w : TcpShadowsocksWriter) : TcpShadowsocksWriter * result TransportError unit :=
  match w_ss2022 w with
  | Some s => if header_sent s then send_payload_frame w [] else (w, Ok tt)
  | None => (w, Ok tt)
  end.

(** ** The reader *)
Definition decrypt_next (r : TcpShadowsocksReader) (buf : bytes)
    : TcpShadowsocksReader * result TransportError bytes :=
  match cipher_state r with
  | None => (r, Err DecryptFailed)
  | Some key =>
    if zlen buf <? SHADOWSOCKS_TAG_LEN then (r, Err ShortCiphertext)
    else
      match open_ key (r_nonce r) buf with
      | None => (r, Err DecryptFailed)
      | Some plaintext =>
        let (nonce, res) := increment_nonce (r_nonce r) in
        (r_set_session r (cipher_state r) nonce (r_ss2022 r), _ ← res; Ok plaintext)
      end
  end.
(** [read_exact] and [decrypt_in_place_session]. *)
Definition read_sealed (r : TcpShadowsocksReader) (len : Z) : TcpShadowsocksReader * result TransportError bytes :=
  andthen (read_exact r len) decrypt_next.

Definition read_cipher (r : TcpShadowsocksReader) : TcpShadowsocksReader * result TransportError unit :=
  if bool_decide (is_Some (cipher_state r)) then (r, Ok tt)
  else
    andthen (read_exact r (Z.of_nat (salt_len (r_cipher r)))) (fun r salt =>
      match client_key (r_cipher r) (take (key_len (r_cipher r)) (r_master_key r)) salt with
      | Err e => (r, Err e)
      | Ok key => (r_set_session r (Some key) (r_nonce r) (r_ss2022 r), Ok tt)
      end).
(** The SS2022 response header and its payload, the first time; an empty result
    otherwise. *)
Definition read_response_header (r : TcpShadowsocksReader) (now : Z)
    : TcpShadowsocksReader * result TransportError bytes :=
  match r_ss2022 r with
  | Some (mkReaderState request_salt false) =>
    let salt_len := salt_len (r_cipher r) in
    andthen (read_sealed r (1 + 8 + Z.of_nat salt_len + 2 + SHADOWSOCKS_TAG_LEN)) (fun r header =>
      match map_err ResponseHeader
              (parse_response_header (r_cipher r) (take salt_len request_salt) header now) with
      | Err e => (r, Err e)
      | Ok payload_len =>
        andthen (read_sealed r (Z.of_nat payload_len + SHADOWSOCKS_TAG_LEN)) (fun r payload =>
          (r_set_session r (cipher_state r) (r_nonce r) (Some (mkReaderState request_salt true)), Ok payload))
      end)
  | _ => (r, Ok [])
  end.
Definition read_record (r : TcpShadowsocksReader) : TcpShadowsocksReader * result TransportError bytes :=
  andthen (read_sealed r (2 + SHADOWSOCKS_TAG_LEN)) (fun r len_buf =>
    if negb (zlen len_buf =? 2) then (r, Err InvalidLengthBlock)
    else
      let payload_len := be_val len_buf in
      if max_payload_len (r_cipher r) <? payload_len then (r, Err (PayloadTooLong payload_len))
      else read_sealed r (payload_len + SHADOWSOCKS_TAG_LEN)).
Definition read_one_decrypted_chunk (r : TcpShadowsocksReader) (now : Z)
    : TcpShadowsocksReader * result TransportError bytes :=
  andthen (read_cipher r) (fun r _ =>
    andthen (read_response_header r now) (fun r payload =>
      if bool_decide (payload = []) then read_record r else (r, Ok payload))).

(** The first payload as the Ack-Prefix frame: the bytes behind it. *)
Definition accept_ack_prefix (r : TcpShadowsocksReader) (payload : bytes)
    : TcpShadowsocksReader * result TransportError bytes :=
  match Ack.parse_v1 payload with
  | Ack.Valid acked =>
    (r_set_resume r false (Some acked) (pending_tail r) (expect_downlink_replay r),
     Ok (drop FRAME_LEN_V1 payload))
  | err => (r, Err (BadAckPrefix err))
  end.
Definition consume_ack_prefix (r : TcpShadowsocksReader) (now : Z)
    : TcpShadowsocksReader * result TransportError (option Z) :=
  if negb (expect_ack_prefix r) then (r, Ok (up_acked r))
  else
    andthen (read_one_decrypted_chunk r now) (fun r payload =>
      andthen (accept_ack_prefix r payload) (fun r tail =>
        (r_set_resume r (expect_ack_prefix r) (up_acked r)
           (if bool_decide (tail = []) then pending_tail r else Some tail) (expect_downlink_replay r),
         Ok (up_acked r)))).

Definition read_chunk (r : TcpShadowsocksReader) (now : Z) : TcpShadowsocksReader * result TransportError bytes :=
  match pending_tail r with
  | Some tail => (r_set_resume r (expect_ack_prefix r) (up_acked r) None (expect_downlink_replay r), Ok tail)
  | None =>
    andthen (read_one_decrypted_chunk r now) (fun r payload =>
      if expect_ack_prefix r then
        andthen (accept_ack_prefix r payload) (fun r tail =>
          if bool_decide (tail = []) then read_one_decrypted_chunk r now else (r, Ok tail))
      else (r, Ok payload))
  end.

Inductive DownlinkReplayOutcome : Type := Replay (payload : bytes) | Truncated.

(** Chunks read until [acc] has [len] bytes; none of them is empty, so [len] is
    fuel enough. *)
Fixpoint read_until (fuel : nat) (r : TcpShadowsocksReader) (now len : Z) (acc : bytes)
    : TcpShadowsocksReader * result TransportError bytes :=
  if len <=? zlen acc then (r, Ok acc)
  else
    match fuel with
    | O => (r, Ok acc)
    | S fuel =>
      andthen (read_one_decrypted_chunk r now) (fun r chunk =>
        if bool_decide (chunk = []) then (r, Err ReplayEof) else read_until fuel r now len (acc ++ chunk))
    end.
Definition consume_downlink_replay (r : TcpShadowsocksReader) (now max_bytes : Z)
    : TcpShadowsocksReader * result TransportError (option DownlinkReplayOutcome) :=
  if negb (expect_downlink_replay r) then (r, Ok None)
  else
    let acc := default [] (pending_tail r) in
    let r := r_set_resume r (expect_ack_prefix r) (up_acked r) None (expect_downlink_replay r) in
    let header_len := Z.of_nat FRAME_LEN_V1 in
    andthen (read_until FRAME_LEN_V1 r now header_len acc) (fun r acc =>
      match DownlinkReplay.parse_v1 (take FRAME_LEN_V1 acc) with
      | DownlinkReplay.Valid flags replay_len =>
        let truncated := negb (bool_decide (band flags DownlinkReplay.FLAG_REPLAY_TRUNCATED = x00)) in
        if max_bytes <? replay_len then (r, Err ReplayAboveCap)
        else if truncated && negb (replay_len =? 0) then (r, Err ReplayTruncatedWithPayload)
        else
          let total := header_len + replay_len in
          andthen (read_until (Z.to_nat total) r now total acc) (fun r acc =>
            let trailing := drop (Z.to_nat total) acc in
            let r := r_set_resume r (expect_ack_prefix r) (up_acked r)
                       (if bool_decide (trailing = []) then pending_tail r
                        else Some (default [] (pending_tail r) ++ trailing)) false in
            (r, Ok (Some (if truncated then Truncated
                          else Replay (slice acc FRAME_LEN_V1 (Z.to_nat total))))))
      | err => (r, Err (BadReplayHeader err))
      end).
End client.
