(* ===== verification/StreamWire.v ===== *)
(** What goes over the wire: a sealed stream as a list of records, and that
    both writers, the server's encryptor and the client's writer with its
    batching, produce exactly that, block [i] under nonce [i]. *)
From S2P Require Import Prelude Target Cipher Ss2022 StreamCrypto StreamClient.
Local Open Scope Z_scope.

(** ** Little-endian counters *)
Lemma be_bytes_snoc n z : be_bytes (S n) z = be_bytes n (Z.shiftr z 8) ++ [u8 z].
Proof.
  induction n as [|n IH]; [done|].
  change (be_bytes (S (S n)) z) with (u8 (Z.shiftr z (8 * Z.of_nat (S n))) :: be_bytes (S n) z).
  rewrite IH.
  change (be_bytes (S n) (Z.shiftr z 8))
    with (u8 (Z.shiftr (Z.shiftr z 8) (8 * Z.of_nat n)) :: be_bytes n (Z.shiftr z 8)).
  rewrite Z.shiftr_shiftr by lia. cbn [app]. do 3 f_equal. lia.
Qed.
Lemma le_bytes_cons n z : le_bytes (S n) z = u8 z :: le_bytes n (Z.shiftr z 8).
Proof. unfold le_bytes. by rewrite be_bytes_snoc, reverse_app. Qed.
Lemma le_bytes_zero n : le_bytes n 0 = zeros n.
Proof.
  induction n as [|n IH]; [done|]. rewrite le_bytes_cons. change (Z.shiftr 0 8) with 0. by rewrite IH.
Qed.
Lemma le_bytes_app a b z : le_bytes (a + b) z = le_bytes a z ++ le_bytes b (Z.shiftr z (8 * Z.of_nat a)).
Proof.
  revert z. induction a as [|a IH]; intros z; [done|].
  cbn [Nat.add]. rewrite !le_bytes_cons, IH. cbn [app]. rewrite Z.shiftr_shiftr by lia. do 4 f_equal. lia.
Qed.
Lemma nonce_of_le n : 0 <= n < 2 ^ 64 -> nonce_of n = le_bytes 12 n.
Proof.
  intros H. unfold nonce_of. change 12%nat with (8 + 4)%nat. rewrite le_bytes_app.
  rewrite Z.shiftr_div_pow2, Z.div_small by lia. by rewrite le_bytes_zero.
Qed.

Lemma increment_le m : forall z, 0 <= z < 256 ^ Z.of_nat m - 1 ->
  increment_nonce (le_bytes m z) = (le_bytes m (z + 1), Ok tt).
Proof.
  induction m as [|m IH]; intros z Hz; [cbn in Hz; lia|].
  rewrite Nat2Z.inj_succ, Z.pow_succ_r in Hz by lia. rewrite !le_bytes_cons. cbn [increment_nonce].
  rewrite b2z_u8, !Z.shiftr_div_pow2 by lia. change (2 ^ 8) with 256.
  pose proof (Z.mod_pos_bound z 256 ltac:(lia)). pose proof (Z.div_mod z 256 ltac:(lia)).
  destruct (Z.eqb_spec (z mod 256) 255) as [Hc|Hc].
  - assert (Hq : (z + 1) / 256 = z / 256 + 1)
      by (symmetry; apply (Z.div_unique _ _ _ 0); lia).
    rewrite IH by lia. rewrite Hq. f_equal. f_equal. apply b2z_inj. rewrite b2z_u8.
    change (b2z x00) with 0. apply (Z.mod_unique _ _ (z / 256 + 1)); [left; lia|lia].
  - f_equal. f_equal.
    + apply b2z_inj. rewrite !b2z_u8. by rewrite Zplus_mod_idemp_l.
    + f_equal. apply (Z.div_unique _ _ _ (z mod 256 + 1)); [left|]; lia.
Qed.
(** The client's 96-bit carry chain counts the server's nonces. *)
Lemma increment_nonce_of n : 0 <= n < 2 ^ 64 - 1 -> increment_nonce (nonce_of n) = (nonce_of (n + 1), Ok tt).
Proof. intros H. rewrite !nonce_of_le by lia. apply increment_le. cbn. lia. Qed.
Lemma nonce_of_length n : length (nonce_of n) = 12%nat.
Proof. unfold nonce_of, le_bytes, zeros. rewrite length_app, length_reverse, be_bytes_length. done. Qed.
Lemma nonce_of_zero : nonce_of 0 = zeros 12.
Proof. reflexivity. Qed.
Lemma nonce_of_inj a b : 0 <= a < 2 ^ 64 -> 0 <= b < 2 ^ 64 -> nonce_of a = nonce_of b -> a = b.
Proof.
  unfold nonce_of, le_bytes. intros Ha Hb H. apply (f_equal (take 8)) in H.
  rewrite !take_app_length' in H by (by rewrite length_reverse, be_bytes_length).
  apply (f_equal reverse) in H. rewrite !reverse_involutive in H. apply (f_equal be_val) in H.
  by rewrite !be_val_be_bytes_small in H.
Qed.

(** ** Chunks *)
Lemma chunks_loop_concat fuel n l : (length l <= fuel)%nat -> (0 < n)%nat -> concat (chunks_loop fuel n l) = l.
Proof.
  revert l. induction fuel as [|fuel IH]; intros l Hf Hn; [by destruct l; [|simpl in Hf; lia]|].
  destruct l as [|x l]; [done|]. cbn [chunks_loop concat].
  rewrite IH; [apply take_drop|rewrite length_drop; simpl in *; lia|done].
Qed.
Lemma chunks_loop_fuel f1 : forall f2 n l, (length l <= f1)%nat -> (length l <= f2)%nat -> (0 < n)%nat ->
  chunks_loop f1 n l = chunks_loop f2 n l.
Proof.
  induction f1 as [|f1 IH]; intros f2 n l H1 H2 Hn.
  - destruct l; [by destruct f2|simpl in H1; lia].
  - destruct l as [|x l]; [by destruct f2|]. destruct f2 as [|f2]; [simpl in H2; lia|]. cbn [chunks_loop].
    f_equal. apply IH; [rewrite length_drop; simpl in *; lia..|done].
Qed.
Lemma chunks_concat n l : 0 < n -> concat (chunks n l) = l.
Proof. intros. apply chunks_loop_concat; lia. Qed.
Lemma chunks_nil n : chunks n [] = [].
Proof. done. Qed.
Lemma chunks_small n l : l <> [] -> zlen l <= n -> chunks n l = [l].
Proof.
  intros Hl Hn. unfold chunks, zlen in *. destruct l as [|x l]; [done|]. cbn [length chunks_loop].
  rewrite take_ge, drop_ge by (simpl in *; lia). by destruct (length l).
Qed.
Lemma chunks_step n a l : 0 < n -> zlen a = n -> chunks n (a ++ l) = a :: chunks n l.
Proof.
  intros Hn Ha. unfold chunks, zlen in *. destruct a as [|x a]; [cbn in Ha; lia|]. cbn [app length chunks_loop].
  change (x :: a ++ l) with ((x :: a) ++ l).
  rewrite take_app_length', drop_app_length' by lia. f_equal.
  apply chunks_loop_fuel; [rewrite length_app; lia|lia|lia].
Qed.
Lemma chunks_bound n l : 0 < n -> Forall (fun p => zlen p <= n) (chunks n l).
Proof.
  intros Hn. unfold chunks. generalize (length l) at 1. intros fuel. revert l.
  induction fuel as [|fuel IH]; intros l; [constructor|]. destruct l; [constructor|]. cbn [chunks_loop].
  constructor; [|apply IH]. unfold zlen. rewrite length_take. lia.
Qed.

Lemma chunks_nonempty n l : 0 < n -> Forall (fun p => p <> []) (chunks n l).
Proof.
  intros Hn. unfold chunks. generalize (length l) at 1. intros fuel. revert l.
  induction fuel as [|fuel IH]; intros l; [constructor|]. destruct l; [constructor|]. cbn [chunks_loop].
  constructor; [|apply IH]. by destruct (Z.to_nat n) eqn:E; [lia|].
Qed.
Lemma chunks_head n p : 0 < n -> p <> [] -> exists ps, chunks n p = take (Z.to_nat n) p :: ps.
Proof. intros Hn Hp. unfold chunks. destruct p; [done|]. cbn [length chunks_loop]. eauto. Qed.

(** ** What is assumed of the cipher suites

    Both programs use the same algorithms, so one pair of functions stands for
    the server's library and for the client's. *)
Definition algorithm_key_len (a : Algorithm) : nat :=
  match a with AES_128_GCM => 16 | AES_256_GCM | CHACHA20_POLY1305 => 32 end.
Definition key_ok (k : AeadKey) : Prop := length k.2 = algorithm_key_len k.1.

Class AeadLaws (seal open_ : AeadKey -> bytes -> bytes -> option bytes) : Prop := {
  seal_opens : forall k n p, key_ok k -> length n = 12%nat -> zlen p < 2 ^ 20 ->
    exists c, seal k n p = Some c /\ zlen c = zlen p + 16 /\ open_ k n c = Some p
}.
Class KdfLaws (hkdf_sha1 : bytes -> bytes -> bytes -> nat -> option bytes)
    (blake3_derive_xof : bytes -> bytes -> nat -> bytes) : Prop := {
  hkdf_length : forall salt ikm info n, (n <= 32)%nat ->
    exists okm, hkdf_sha1 salt ikm info n = Some okm /\ length okm = n;
  blake3_length : forall context material n, length (blake3_derive_xof context material n) = n
}.

Section wire.
Context (seal open_ : AeadKey -> bytes -> bytes -> option bytes) `{AL : !AeadLaws seal open_}.
Context (hkdf_sha1 : bytes -> bytes -> bytes -> nat -> option bytes)
  (blake3_derive_xof : bytes -> bytes -> nat -> bytes) `{KL : !KdfLaws hkdf_sha1 blake3_derive_xof}.

(** The subkey both sides derive. *)
Lemma session_keys_agree c master salt : exists k, key_ok k
  /\ build_session_key hkdf_sha1 blake3_derive_xof c master salt = Ok k
  /\ client_key hkdf_sha1 blake3_derive_xof c master salt = Ok k.
Proof.
  unfold build_session_key, client_key, derive_subkey, client_subkey.
  assert (Hk : forall o, length o = key_len c -> key_ok (cipher_algorithm c, take (key_len c) (o ++ zeros (32 - key_len c)))).
  { intros o Ho. unfold key_ok. cbn [fst snd]. rewrite take_app_length' by done. by destruct c. }
  destruct (is_ss2022 c).
  - eexists. split; [apply Hk, blake3_length|]. done.
  - destruct (hkdf_length salt master SS_SUBKEY_INFO (key_len c)) as (o & -> & Ho); [by destruct c; cbn; lia|].
    eexists. split; [by apply Hk|]. done.
Qed.

(** Block [n] of a key's stream; two blocks make a record. *)
Definition sealed (k : AeadKey) (n : Z) (p : bytes) : bytes := default [] (seal k (nonce_of n) p).
Definition record_bytes (k : AeadKey) (n : Z) (p : bytes) : bytes :=
  sealed k n (be_bytes 2 (zlen p)) ++ sealed k (n + 1) p.
Fixpoint records (k : AeadKey) (n : Z) (ps : list bytes) : bytes :=
  match ps with [] => [] | p :: ps => record_bytes k n p ++ records k (n + 2) ps end.

Lemma sealed_ok k n p : key_ok k -> zlen p < 2 ^ 20 ->
  seal k (nonce_of n) p = Some (sealed k n p) /\ zlen (sealed k n p) = zlen p + 16
  /\ open_ k (nonce_of n) (sealed k n p) = Some p.
Proof.
  intros Hk Hp. destruct (seal_opens k (nonce_of n) p Hk (nonce_of_length n) Hp) as (c & Hs & Hl & Ho).
  unfold sealed. by rewrite Hs.
Qed.
Lemma records_app k n ps qs : records k n (ps ++ qs) = records k n ps ++ records k (n + 2 * zlen ps) qs.
Proof.
  revert n. induction ps as [|p ps IH]; intros n; [cbn [app records]; by rewrite Z.add_0_r|].
  cbn [app records]. rewrite IH, <- app_assoc. do 3 f_equal. unfold zlen. cbn [length]. lia.
Qed.

(** ** The client's writer *)

(** The salt a writer has still to send. *)
Definition salt_prefix (w : TcpShadowsocksWriter) : bytes :=
  match pending_salt w with Some salt => take (salt_len (w_cipher w)) salt | None => [] end.

(** Writer [w'] with the open frame [frame'] has sealed the payloads [ps] from
    block [n] on, behind what [w] and [frame] had. *)
Record sent (n : Z) (w : TcpShadowsocksWriter) (frame : bytes) (ps : list bytes)
    (w' : TcpShadowsocksWriter) (frame' : bytes) : Prop := {
  se_cipher : w_cipher w' = w_cipher w;
  se_key : w_key w' = w_key w;
  se_ss2022 : w_ss2022 w' = w_ss2022 w;
  se_nonce : w_nonce w' = nonce_of (n + 2 * zlen ps);
  se_salt : pending_salt w' = match ps with [] => pending_salt w | _ => None end;
  se_wire : concat (w_frames w') ++ frame'
            = concat (w_frames w) ++ frame ++ (match ps with [] => [] | _ => salt_prefix w end)
              ++ records (w_key w) n ps
}.

Lemma sent_nil n w frame : w_nonce w = nonce_of n -> sent n w frame [] w frame.
Proof. intros H. split; try done; [by rewrite Z.add_0_r|by rewrite app_nil_r]. Qed.
Lemma sent_app n w frame ps w1 frame1 qs w2 frame2 : sent n w frame ps w1 frame1 ->
  sent (n + 2 * zlen ps) w1 frame1 qs w2 frame2 -> sent n w frame (ps ++ qs) w2 frame2.
Proof.
  intros [H1 H2 H3 H4 H5 H6] [G1 G2 G3 G4 G5 G6]. split; try congruence.
  - rewrite G4, zlen_app. f_equal. lia.
  - rewrite G5. destruct qs; [by rewrite app_nil_r|]. by destruct ps.
  - rewrite G6, app_assoc, H6, records_app, <- !app_assoc, H2. do 2 f_equal.
    destruct qs as [|q qs]; [cbn [records]; by rewrite !app_nil_r|].
    unfold salt_prefix in *. rewrite H5, H1. destruct ps; cbn [app records]; [done|].
    by rewrite <- !app_assoc.
Qed.
Lemma sent_flush n w frame ps w' frame' : sent n w frame ps w' frame' ->
  let (w2, frame2) := flush_frame w' frame' in sent n w frame ps w2 frame2.
Proof.
  intros [H1 H2 H3 H4 H5 H6]. unfold flush_frame. destruct (_ <=? _); [|by split].
  split; try done. cbn. by rewrite concat_app, app_nil_r; cbn; rewrite app_nil_r.
Qed.
Lemma sent_write n w frame ps w' frame' : sent n w frame ps w' frame' ->
  sent n w frame ps (write_frame w' frame') [].
Proof.
  intros [H1 H2 H3 H4 H5 H6]. split; try done. cbn. rewrite concat_app. cbn. by rewrite !app_nil_r.
Qed.

Lemma sent_wire n w ps w' : sent n w [] ps w' [] ->
  concat (w_frames w') = concat (w_frames w) ++ (match ps with [] => [] | _ => salt_prefix w end)
                         ++ records (w_key w) n ps.
Proof. intros [_ _ _ _ _ H]. by rewrite app_nil_r in H. Qed.

Lemma encrypt_next_ok w n p out : key_ok (w_key w) -> w_nonce w = nonce_of n -> 0 <= n < 2 ^ 63 ->
  zlen p < 2 ^ 20 ->
  encrypt_next seal w p out
  = (w_set w (nonce_of (n + 1)) (pending_salt w), Ok (out ++ sealed (w_key w) n p)).
Proof.
  intros Hk Hn Hr Hp. unfold encrypt_next. rewrite Hn.
  destruct (sealed_ok (w_key w) n p Hk Hp) as (-> & _ & _). rewrite increment_nonce_of by lia. done.
Qed.
Lemma payload_sent w n p frame : key_ok (w_key w) -> w_nonce w = nonce_of n -> 0 <= n < 2 ^ 62 ->
  zlen p < 2 ^ 16 ->
  exists w' frame', encrypt_payload_frame_into seal w p frame = (w', Ok frame') /\ sent n w frame [p] w' frame'.
Proof.
  intros Hk Hn Hr Hp. unfold encrypt_payload_frame_into, take_salt.
  assert (H : forall w1 frame1, w_key w1 = w_key w -> w_nonce w1 = nonce_of n ->
    andthen (encrypt_next seal w1 (be_bytes 2 (zlen p mod 2 ^ 16)) frame1)
      (fun w frame => encrypt_next seal w p frame)
    = (w_set w1 (nonce_of (n + 2)) (pending_salt w1), Ok (frame1 ++ record_bytes (w_key w) n p))).
  { intros w1 frame1 Hk1 Hn1. pose proof (zlen_nonneg p).
    rewrite (encrypt_next_ok _ n) by (rewrite ?Hk1; done || lia). cbn [andthen].
    rewrite (encrypt_next_ok _ (n + 1)) by (cbn; rewrite ?Hk1; done || lia).
    cbn. rewrite Hk1, Z.mod_small by lia. unfold record_bytes. rewrite <- app_assoc. do 3 f_equal. lia. }
  destruct (pending_salt w) as [salt|] eqn:Es.
  - rewrite H by done. do 2 eexists. split; [done|]. split; try done.
    cbn. unfold salt_prefix. rewrite Es, <- !app_assoc. by rewrite app_nil_r.
  - rewrite H by done. do 2 eexists. split; [done|]. split; try done.
    all: cbn; unfold salt_prefix; by rewrite ?Es, ?app_nil_r.
Qed.

Lemma frames_sent ps : forall w n frame, key_ok (w_key w) -> w_nonce w = nonce_of n ->
  0 <= n -> n + 2 * zlen ps < 2 ^ 62 -> Forall (fun p => zlen p < 2 ^ 16) ps ->
  exists w' frame', encrypt_frames_into seal w ps frame = (w', Ok frame') /\ sent n w frame ps w' frame'.
Proof.
  induction ps as [|p ps IH]; intros w n frame Hk Hn Hr Hb Hp.
  { do 2 eexists. split; [done|by apply sent_nil]. }
  apply Forall_cons in Hp as [Hp Hps]. rewrite zlen_cons in Hb. pose proof (zlen_nonneg ps).
  destruct (payload_sent w n p frame Hk Hn ltac:(lia) Hp) as (w1 & f1 & H1 & Hs1).
  destruct (IH w1 (n + 2) f1) as (w2 & f2 & H2 & Hs2); [by rewrite (se_key _ _ _ _ _ _ Hs1)| |lia|lia|done|].
  { apply (se_nonce _ _ _ _ _ _ Hs1). }
  exists w2, f2. cbn [encrypt_frames_into]. rewrite H1. cbn [andthen]. split; [done|].
  exact (sent_app n w frame [p] w1 f1 ps w2 f2 Hs1 Hs2).
Qed.

(** One record sealed in the middle of a batch. *)
Lemma batch_record w0 n frame0 ps w frame p : key_ok (w_key w0) -> 0 <= n -> n + 2 * zlen ps < 2 ^ 62 ->
  sent n w0 frame0 ps w frame -> zlen p < 2 ^ 16 ->
  exists w1 frame1, encrypt_payload_frame_into seal w p frame = (w1, Ok frame1)
    /\ let (w2, frame2) := flush_frame w1 frame1 in sent n w0 frame0 (ps ++ [p]) w2 frame2.
Proof.
  intros Hk Hn Hb Hs Hp. pose proof (zlen_nonneg ps).
  destruct (payload_sent w (n + 2 * zlen ps) p frame) as (w1 & f1 & H1 & Hs1);
    [by rewrite (se_key _ _ _ _ _ _ Hs)|apply (se_nonce _ _ _ _ _ _ Hs)|lia|done|].
  exists w1, f1. split; [done|]. apply sent_flush. by eapply sent_app.
Qed.

Lemma full_records_ok max fuel : forall rest w0 n frame0 ps w frame, 0 < max < 2 ^ 16 ->
  (length rest <= fuel)%nat -> key_ok (w_key w0) -> 0 <= n -> n + 2 * (zlen ps + zlen rest) < 2 ^ 62 ->
  sent n w0 frame0 ps w frame ->
  exists qs rest' w' frame', full_records seal fuel w max rest frame = (w', Ok (rest', frame'))
    /\ sent n w0 frame0 (ps ++ qs) w' frame' /\ zlen rest' < max
    /\ rest = concat qs ++ rest' /\ Forall (fun q => zlen q = max) qs.
Proof.
  induction fuel as [|fuel IH]; intros rest w0 n frame0 ps w frame Hm Hf Hk Hn Hb Hs.
  { destruct rest; [|simpl in Hf; lia]. exists [], [], w, frame. rewrite app_nil_r. split; [done|]. split; [done|]. split; [rewrite zlen_nil; lia|done]. }
  cbn [full_records]. destruct (Z.leb_spec max (zlen rest)) as [Hle|Hlt].
  2:{ exists [], rest, w, frame. rewrite app_nil_r. split_and!; done. }
  assert (Hz : zlen (take (Z.to_nat max) rest) = max) by (apply zlen_take; lia).
  destruct (batch_record w0 n frame0 ps w frame (take (Z.to_nat max) rest)) as (w1 & f1 & H1 & Hs1);
    [done|done|pose proof (zlen_nonneg rest); lia|done|lia|].
  rewrite H1. cbn [andthen]. destruct (flush_frame w1 f1) as [w2 f2].
  assert (Hd : zlen (drop (Z.to_nat max) rest) = zlen rest - max)
    by (unfold zlen in *; rewrite length_drop; lia).
  destruct (IH (drop (Z.to_nat max) rest) w0 n frame0 (ps ++ [take (Z.to_nat max) rest]) w2 f2) as
    (qs & rest' & w' & f' & Hrun & Hs' & Hr' & Hcat & Hq); try done.
  { rewrite length_drop. unfold zlen in *. lia. }
  { rewrite zlen_app, Hd. change (zlen [_]) with 1. lia. }
  exists (take (Z.to_nat max) rest :: qs), rest', w', f'. split; [done|].
  rewrite <- app_assoc in Hs'. split; [done|]. split; [done|].
  split; [cbn [concat]; by rewrite <- app_assoc, <- Hcat, take_drop|by constructor].
Qed.

(** The scratch record: what is in it and the rest of the chunk are the bytes
    not sealed yet. *)
Lemma fill_record_ok max fuel : forall rest w0 n frame0 ps w b, 0 < max < 2 ^ 16 ->
  (length rest <= fuel)%nat -> key_ok (w_key w0) -> 0 <= n -> n + 2 * (zlen ps + zlen rest + 1) < 2 ^ 62 ->
  zlen (b_record b) < max -> sent n w0 frame0 ps w (b_frame b) ->
  exists qs w' b', fill_record seal fuel w max rest b = (w', Ok b')
    /\ sent n w0 frame0 (ps ++ qs) w' (b_frame b') /\ zlen (b_record b') < max
    /\ b_record b ++ rest = concat qs ++ b_record b' /\ Forall (fun q => zlen q = max) qs.
Proof.
  induction fuel as [|fuel IH]; intros rest w0 n frame0 ps w b Hm Hf Hk Hn Hb Hr Hs.
  { destruct rest; [|simpl in Hf; lia]. exists [], w, b. rewrite !app_nil_r. split_and!; done. }
  cbn [fill_record]. case_bool_decide as Hrest.
  { subst rest. exists [], w, b. rewrite !app_nil_r. split_and!; done. }
  cbn zeta. assert (Hpos : 0 < zlen rest) by (unfold zlen; destruct rest; [done|simpl; lia]).
  pose proof (zlen_nonneg (b_record b)). pose proof (zlen_nonneg ps).
  set (t := Z.min (max - zlen (b_record b)) (zlen rest)).
  assert (Ht : 0 < t <= zlen rest) by (unfold t; lia).
  assert (Hz : zlen (take (Z.to_nat t) rest) = t) by (apply zlen_take; lia).
  assert (Hd : zlen (drop (Z.to_nat t) rest) = zlen rest - t) by (unfold zlen in *; rewrite length_drop; lia).
  assert (Hdl : (length (drop (Z.to_nat t) rest) <= fuel)%nat) by (unfold zlen in *; lia).
  set (record := b_record b ++ take (Z.to_nat t) rest).
  assert (Hrec : zlen record = zlen (b_record b) + t) by (unfold record; by rewrite zlen_app, Hz).
  destruct (Z.eqb_spec (zlen record) max) as [He|He].
  - destruct (batch_record w0 n frame0 ps w (b_frame b) record) as (w1 & f1 & H1 & Hs1);
      [done|done|lia|done|lia|].
    rewrite H1. cbn [andthen]. destruct (flush_frame w1 f1) as [w2 f2].
    destruct (IH (drop (Z.to_nat t) rest) w0 n frame0 (ps ++ [record]) w2 (mkBatch [] f2)) as
      (qs & w' & b' & Hrun & Hs' & Hr' & Hcat & Hq); try done.
    { rewrite zlen_app. change (zlen [_]) with 1. lia. }
    { cbn [b_record]. rewrite zlen_nil. lia. }
    exists (record :: qs), w', b'. split; [done|]. rewrite <- app_assoc in Hs'. split; [done|].
    split; [done|]. split; [|by constructor]. cbn [concat b_record app] in *.
    rewrite <- app_assoc, <- Hcat. unfold record. by rewrite <- app_assoc, take_drop.
  - destruct (IH (drop (Z.to_nat t) rest) w0 n frame0 ps w (mkBatch record (b_frame b))) as
      (qs & w' & b' & Hrun & Hs' & Hr' & Hcat & Hq); try done.
    { lia. }
    { cbn [b_record]. unfold t in *. lia. }
    exists qs, w', b'. split; [done|]. split; [done|]. split; [done|]. split; [|done].
    cbn [b_record] in Hcat. rewrite <- Hcat. unfold record. by rewrite <- app_assoc, take_drop.
Qed.

Lemma zlen_full max (qs : list bytes) : 0 < max -> Forall (fun q => zlen q = max) qs -> zlen qs <= zlen (concat qs).
Proof.
  intros Hm. induction 1 as [|q qs Hz _ IH]; [done|]. cbn [concat]. rewrite zlen_cons, zlen_app. lia.
Qed.
Lemma batch_loop_ok max data : forall w0 n frame0 ps w b, 0 < max < 2 ^ 16 -> key_ok (w_key w0) -> 0 <= n ->
  n + 2 * (zlen ps + zlen (b_record b) + zlen (concat data) + 2) < 2 ^ 62 ->
  zlen (b_record b) < max -> sent n w0 frame0 ps w (b_frame b) ->
  exists qs w' b', batch_loop seal w max data b = (w', Ok b')
    /\ sent n w0 frame0 (ps ++ qs) w' (b_frame b') /\ zlen (b_record b') < max
    /\ b_record b ++ concat data = concat qs ++ b_record b' /\ Forall (fun q => zlen q = max) qs.
Proof.
  induction data as [|chunk data IH]; intros w0 n frame0 ps w b Hm Hk Hn Hb Hr Hs.
  { exists [], w, b. cbn. rewrite !app_nil_r. split_and!; done. }
  cbn [batch_loop concat] in *. rewrite zlen_app in Hb.
  pose proof (zlen_nonneg (concat data)). pose proof (zlen_nonneg chunk). pose proof (zlen_nonneg ps).
  pose proof (zlen_nonneg (b_record b)).
  assert (Hstep : exists qs w1 b1,
    (if bool_decide (b_record b = []) then
       andthen (full_records seal (length chunk) w max chunk (b_frame b)) (fun w rf =>
         fill_record seal (length chunk) w max rf.1 (mkBatch [] rf.2))
     else fill_record seal (length chunk) w max chunk b) = (w1, Ok b1)
    /\ sent n w0 frame0 (ps ++ qs) w1 (b_frame b1) /\ zlen (b_record b1) < max
    /\ b_record b ++ chunk = concat qs ++ b_record b1 /\ Forall (fun q => zlen q = max) qs).
  { case_bool_decide as He; [|apply (fill_record_ok max _ chunk w0); (done || lia)].
    destruct (full_records_ok max (length chunk) chunk w0 n frame0 ps w (b_frame b)) as
      (qs & rest & w1 & f1 & Hf1 & Hs1 & Hr1 & Hcat & Hq); try done; [lia|].
    rewrite Hf1. cbn [andthen fst snd]. rewrite He. cbn [app].
    destruct (fill_record_ok max (length chunk) rest w0 n frame0 (ps ++ qs) w1 (mkBatch [] f1)) as
      (qs2 & w2 & b2 & Hf2 & Hs2 & Hr2 & Hcat2 & Hq2); try done.
    { rewrite Hcat, length_app. lia. }
    { pose proof (zlen_full max qs ltac:(lia) Hq).
      rewrite Hcat, zlen_app in Hb. rewrite zlen_app. lia. }
    { cbn [b_record]. rewrite zlen_nil. lia. }
    exists (qs ++ qs2), w2, b2. split; [done|]. rewrite <- app_assoc in Hs2. split; [done|]. split; [done|].
    split; [|by apply Forall_app]. cbn [b_record app] in Hcat2.
    by rewrite Hcat, Hcat2, concat_app, app_assoc. }
  destruct Hstep as (qs & w1 & b1 & Hf1 & Hs1 & Hr1 & Hcat1 & Hq1). rewrite Hf1. cbn [andthen].
  pose proof (zlen_full max qs ltac:(lia) Hq1).
  pose proof (f_equal zlen Hcat1) as Hz. rewrite !zlen_app in Hz.
  destruct (IH w0 n frame0 (ps ++ qs) w1 b1) as (qs2 & w2 & b2 & Hf2 & Hs2 & Hr2 & Hcat2 & Hq2); try done.
  { rewrite zlen_app. lia. }
  exists (qs ++ qs2), w2, b2. split; [done|]. rewrite <- app_assoc in Hs2. split; [done|]. split; [done|].
  split; [|by apply Forall_app]. by rewrite app_assoc, Hcat1, <- app_assoc, Hcat2, concat_app, app_assoc.
Qed.

Lemma chunks_full max qs r : 0 < max -> Forall (fun q => zlen q = max) qs -> zlen r < max ->
  chunks max (concat qs ++ r) = qs ++ (if bool_decide (r = []) then [] else [r]).
Proof.
  intros Hm Hq Hr. induction Hq as [|q qs Hz _ IH]; cbn [concat app].
  - case_bool_decide; [by subst|]. apply chunks_small; [done|lia].
  - by rewrite <- app_assoc, chunks_step, IH.
Qed.
Lemma max_payload_range c : 0 < max_payload_len c < 2 ^ 16.
Proof. destruct c; done. Qed.

(** The batched writer seals the chunks end to end, cut anew. *)
Lemma send_data_sent w n data : key_ok (w_key w) -> w_nonce w = nonce_of n -> 0 <= n ->
  n + 2 * (zlen (concat data) + 2) < 2 ^ 62 ->
  exists w', send_data seal w data = (w', Ok tt)
    /\ sent n w [] (chunks (max_payload_len (w_cipher w)) (concat data)) w' [].
Proof.
  intros Hk Hw Hn Hb. unfold send_data. pose proof (max_payload_range (w_cipher w)) as Hm.
  set (max := max_payload_len (w_cipher w)) in *.
  destruct (batch_loop_ok max data w n [] [] w (mkBatch [] [])) as (qs & w1 & b1 & H1 & Hs1 & Hr1 & Hcat & Hq);
    [done|done|done|change (n + 2 * (0 + 0 + zlen (concat data) + 2) < 2 ^ 62); lia|change (0 < max); lia|by apply sent_nil|].
  rewrite H1. cbn [andthen app b_record] in *. rewrite Hcat, chunks_full by (done || lia).
  assert (Hf : exists w2 frame2, (if bool_decide (b_record b1 = []) then (w1, Ok (b_frame b1))
      else encrypt_payload_frame_into seal w1 (b_record b1) (b_frame b1)) = (w2, Ok frame2)
    /\ sent n w [] (qs ++ (if bool_decide (b_record b1 = []) then [] else [b_record b1])) w2 frame2).
  { case_bool_decide; [rewrite app_nil_r; eauto|].
    assert (Hz : zlen qs <= zlen (concat data)).
    { rewrite Hcat, zlen_app. pose proof (zlen_full max qs ltac:(lia) Hq). pose proof (zlen_nonneg (b_record b1)). lia. }
    pose proof (zlen_nonneg qs).
    destruct (payload_sent w1 (n + 2 * zlen qs) (b_record b1) (b_frame b1)) as (w2 & f2 & H2 & Hs2);
      [by rewrite (se_key _ _ _ _ _ _ Hs1)|apply (se_nonce _ _ _ _ _ _ Hs1)|lia|lia|].
    exists w2, f2. split; [done|]. by eapply sent_app. }
  destruct Hf as (w2 & f2 & -> & Hs2). cbn [andthen]. eexists. split; [done|].
  revert Hs2. generalize (qs ++ if bool_decide (b_record b1 = []) then [] else [b_record b1]). intros l Hs2.
  case_bool_decide as He; [by rewrite He in Hs2|by apply sent_write].
Qed.
Lemma send_payload_frame_sent w n p : key_ok (w_key w) -> w_nonce w = nonce_of n -> 0 <= n < 2 ^ 62 ->
  zlen p < 2 ^ 16 -> exists w', send_payload_frame seal w p = (w', Ok tt) /\ sent n w [] [p] w' [].
Proof.
  intros Hk Hw Hn Hp. destruct (payload_sent w n p [] Hk Hw Hn Hp) as (w1 & f1 & H1 & Hs1).
  unfold send_payload_frame. rewrite H1. cbn [andthen]. eexists. split; [done|by apply sent_write].
Qed.
Lemma chunks_loop_count f m l : (0 < m)%nat -> (length (chunks_loop f m l) <= length l)%nat.
Proof.
  intros Hm. revert l. induction f as [|f IH]; intros l; [cbn; lia|]. destruct l as [|x l]; [cbn; lia|].
  cbn [chunks_loop]. change (S (length (chunks_loop f m (drop m (x :: l)))) <= length (x :: l))%nat.
  specialize (IH (drop m (x :: l))). rewrite length_drop in IH. cbn [length] in *. lia.
Qed.
Lemma chunks_count max p : 0 < max -> zlen (chunks max p) <= zlen p.
Proof. intros Hm. unfold zlen, chunks. pose proof (chunks_loop_count (length p) (Z.to_nat max) p). lia. Qed.
Lemma send_chunk_sent w n now padding p : header_pending w = false ->
  key_ok (w_key w) -> w_nonce w = nonce_of n -> 0 <= n -> n + 2 * (zlen p + 1) < 2 ^ 62 ->
  exists w', send_chunk seal w now padding p = (w', Ok tt)
    /\ sent n w [] (chunks (max_payload_len (w_cipher w)) p) w' [].
Proof.
  intros Hh Hk Hw Hn Hb. unfold send_chunk. rewrite Hh. pose proof (max_payload_range (w_cipher w)) as Hm.
  pose proof (zlen_nonneg p). case_bool_decide as He.
  { subst p. eexists. split; [done|]. by apply sent_nil. }
  destruct (Z.leb_spec (zlen p) (max_payload_len (w_cipher w))).
  - rewrite chunks_small by done. apply send_payload_frame_sent; (done || lia).
  - pose proof (chunks_count (max_payload_len (w_cipher w)) p ltac:(lia)).
    destruct (frames_sent (chunks (max_payload_len (w_cipher w)) p) w n []) as (w1 & f1 & Hf1 & Hs1);
      [done|done|done|lia| |].
    { eapply Forall_impl; [apply chunks_bound; lia|]. cbn. lia. }
    rewrite Hf1. cbn [andthen]. eexists. split; [done|by apply sent_write].
Qed.
(** The request header of an SS2022 stream: the salt, the fixed header and the
    variable one, whose payload is empty. *)
Lemma send_request_header_ok w s salt now padding t tw : w_ss2022 w = Some s -> header_sent s = false ->
  pending_salt w = Some salt -> w_nonce w = nonce_of 0 -> key_ok (w_key w) ->
  wf_target t -> to_wire_bytes t = Ok tw -> (length padding <= SS2022_MAX_PADDING_LEN)%nat ->
  (0 <= now < 2 ^ 64)%Z ->
  exists fixed variable w', build_request_header t now padding = Ok (fixed, variable)
    /\ send_request_header seal w now padding tw = (w', Ok tt)
    /\ w_cipher w' = w_cipher w /\ w_key w' = w_key w /\ w_nonce w' = nonce_of 2
    /\ pending_salt w' = None /\ (exists s', w_ss2022 w' = Some s' /\ header_sent s' = true)
    /\ w_frames w' = w_frames w ++
         [take (salt_len (w_cipher w)) salt ++ sealed (w_key w) 0 fixed ++ sealed (w_key w) 1 variable].
Proof.
  intros Hs Hh Hsalt Hn Hk Hwf Htw Hp Hnow.
  assert (Hb : exists fixed variable, build_request_header t now padding = Ok (fixed, variable)).
  { unfold build_request_header. rewrite Htw. cbn [map_err mbind result_bind].
    rewrite (proj2 (Nat.ltb_ge _ _) Hp). eauto. }
  destruct Hb as (fixed & variable & Hb).
  destruct (validate_built_header t now now padding fixed variable Hwf Hnow ltac:(unfold fresh; lia) Hb)
    as (Hv & Hf & _).
  assert (Hzf : zlen fixed < 2 ^ 20) by (unfold zlen; rewrite Hf; done).
  assert (Hzv : zlen variable < 2 ^ 20) by (unfold zlen; lia).
  assert (Hd : from_wire_bytes tw = Ok (t, length tw)).
  { apply from_wire_bytes_spec. rewrite <- (app_nil_r tw) at 1. by apply parse_inner_complete. }
  unfold send_request_header. rewrite Hd. cbn [map_err]. rewrite Hb. cbn [map_err].
  unfold take_salt. rewrite Hsalt. cbn [app w_ss2022 w_set]. rewrite Hs.
  do 3 eexists. split; [done|].
  rewrite (encrypt_next_ok _ 0) by (done || lia). cbn [andthen].
  rewrite (encrypt_next_ok _ 1) by (done || lia). cbn [andthen].
  split; [reflexivity|]. cbn. rewrite <- app_assoc. eauto 10.
Qed.
End wire.

(** ** The server's encryptor *)
Section encryptor.
Context (seal open_ : AeadKey -> bytes -> bytes -> option bytes) `{AL : !AeadLaws seal open_}.
Abbreviation sealed := (sealed seal).
Abbreviation records := (records seal).

Lemma seal_two_ok k n out h p : key_ok k -> 0 <= n -> n + 2 <= MAX_NONCE_COUNTER ->
  zlen h < 2 ^ 20 -> zlen p < 2 ^ 20 ->
  seal_two seal k n out h p = (n + 2, out ++ sealed k n h ++ sealed k (n + 1) p, Ok tt).
Proof.
  intros Hk Hn Hm Hh Hp.
  assert (Hone : forall m o q, 0 <= m < MAX_NONCE_COUNTER -> zlen q < 2 ^ 20 ->
    seal_part seal k m o q = (m + 1, o ++ sealed k m q, Ok tt)).
  { intros m o q Hm' Hq. unfold seal_part, next_stream_nonce.
    destruct (Z.leb_spec MAX_NONCE_COUNTER m); [lia|].
    by destruct (sealed_ok seal open_ k m q Hk Hq) as (-> & _). }
  unfold seal_two. rewrite Hone by lia. rewrite Hone by lia. rewrite <- app_assoc. by replace (n + 1 + 1) with (n + 2) by lia.
Qed.
Lemma encrypt_legacy_list_ok k parts : forall n salt sent out, key_ok k -> 0 <= n ->
  n + 2 * zlen parts <= MAX_NONCE_COUNTER -> Forall (fun p => zlen p <= LEGACY_MAX_CHUNK_SIZE) parts ->
  encrypt_legacy_list seal k n salt sent parts out
  = (n + 2 * zlen parts, match parts with [] => sent | _ => true end,
     out ++ (match parts with [] => [] | _ => if sent then [] else salt end) ++ records k n parts, Ok tt).
Proof.
  induction parts as [|p parts IH]; intros n salt sent out Hk Hn Hb Hp.
  { cbn. by rewrite app_nil_r, Z.add_0_r. }
  apply Forall_cons in Hp as [Hp Hps]. rewrite zlen_cons in Hb. pose proof (zlen_nonneg parts).
  cbn [encrypt_legacy_list]. unfold encrypt_legacy_chunk.
  destruct (Z.ltb_spec LEGACY_MAX_CHUNK_SIZE (zlen p)); [lia|].
  rewrite seal_two_ok by (done || unfold LEGACY_MAX_CHUNK_SIZE in *; lia).
  rewrite IH by (done || lia). rewrite zlen_cons.
  assert (Hs : forall o : bytes, (if negb sent then o ++ salt else o) = o ++ (if sent then [] else salt))
    by (intros; destruct sent; cbn; by rewrite ?app_nil_r).
  rewrite Hs. cbn [StreamWire.records]. unfold record_bytes.
  replace (match parts with [] => true | _ :: _ => true end) with true by (by destruct parts).
  replace (match parts with [] => [] | _ :: _ => [] end) with (@nil byte) by (by destruct parts).
  rewrite <- !app_assoc. cbn [app]. by replace (n + 2 + 2 * zlen parts) with (n + 2 * (1 + zlen parts)) by lia.
Qed.
End encryptor.

(** * A cipher suite small enough to compute with

    It satisfies what the stream theorems assume of the real ones, so that they can
    be run on examples. The tag is made of the nonce and the key; nothing is hidden. *)
Local Open Scope Z_scope.

Definition toy_tag (k : AeadKey) (n : bytes) : bytes := take 8 n ++ take 8 k.2.
Definition toy_seal (k : AeadKey) (n p : bytes) : option bytes := Some (p ++ toy_tag k n).
Definition toy_open (k : AeadKey) (n c : bytes) : option bytes :=
  if (length c <? 16)%nat then None
  else if bool_decide (drop (length c - 16) c = toy_tag k n) then Some (take (length c - 16) c) else None.
Definition toy_hkdf (salt ikm info : bytes) (n : nat) : option bytes := Some (take n (ikm ++ zeros n)).
Definition toy_blake3 (context material : bytes) (n : nat) : bytes := take n (material ++ zeros n).

#[export] Instance toy_aead : AeadLaws toy_seal toy_open.
Proof.
  split. intros k n p Hk Hn _. unfold toy_seal, toy_open.
  assert (Ht : length (toy_tag k n) = 16%nat).
  { unfold toy_tag. rewrite length_app, !length_take, Hn. unfold key_ok in Hk. destruct k.1; cbn in Hk; lia. }
  eexists. split; [done|]. unfold zlen. rewrite length_app, Ht. split; [lia|].
  replace (length p + 16 - 16)%nat with (length p) by lia.
  rewrite (proj2 (Nat.ltb_ge _ _)) by lia. by rewrite drop_app_length, take_app_length, bool_decide_eq_true_2.
Qed.
#[export] Instance toy_kdf : KdfLaws toy_hkdf toy_blake3.
Proof.
  assert (H : forall (m : bytes) n, length (take n (m ++ zeros n)) = n)
    by (intros; unfold zeros; rewrite length_take, length_app, length_replicate; lia).
  split; intros; [eexists; split; [done|]|]; apply H.
Qed.
