(* ===== verification/StreamServer.v ===== *)
(** The server's decryptor on a client's stream: the loop that drains it stops,
    opens the records in their order and keeps what is not whole yet, and the
    scan over the users finds the one whose key opens the first block. The
    state between two reads is the relation [tracking]. *)
From S2P Require Import Prelude Target Cipher Ss2022 Padding Resume StreamCrypto StreamClient StreamWire.
Local Open Scope Z_scope.

Lemma prefix_take_app {A} (l x rest : list A) n : l `prefix_of` x ++ rest -> length x = n -> (n <= length l)%nat ->
  take n l = x /\ drop n l `prefix_of` rest /\ l = x ++ drop n l.
Proof.
  intros [k Hk] Hx Hn. assert (Hl : l = x ++ drop n l).
  { rewrite <- (take_drop n l) at 1. f_equal. apply (f_equal (take n)) in Hk.
    rewrite take_app_length' in Hk by done. rewrite take_app_le in Hk by done. done. }
  split; [|split; [|done]].
  - rewrite Hl at 1. by rewrite take_app_length' by done.
  - exists k. rewrite Hl, <- app_assoc in Hk. by apply app_inv_head in Hk.
Qed.

Section server.
Context (seal open_ : AeadKey -> bytes -> bytes -> option bytes) `{AL : !AeadLaws seal open_}.
Abbreviation sealed := (sealed seal).
Abbreviation records := (records seal).

Lemma next_nonce_ok n : 0 <= n < MAX_NONCE_COUNTER -> next_stream_nonce n = Ok (nonce_of n, n + 1).
Proof. intros H. unfold next_stream_nonce. by destruct (Z.leb_spec MAX_NONCE_COUNTER n); [lia|]. Qed.

(** ** What a reading decryptor has still to open *)

(** The record behind a length block already read. *)
Definition record_wire (k : AeadKey) (n : Z) (pending : option Z) (ps : list bytes) (wire : bytes) : Prop :=
  match pending with
  | None => wire = records k n ps
  | Some len => exists p ps', ps = p :: ps' /\ zlen p = len /\ wire = sealed k n p ++ records k (n + 1) ps'
  end.
Definition record_blocks (pending : option Z) (ps : list bytes) : Z :=
  2 * zlen ps - match pending with Some _ => 1 | None => 0 end.

(** What [drain_payload] does when its buffer is a prefix of the records to
    come: it stops, for want of bytes, or it opens the next record. *)
Lemma drain_chunk_ok c k max p ps : key_ok k -> 0 <= c_nonce c -> c_nonce c + 1 + 2 * zlen ps <= MAX_NONCE_COUNTER ->
  zlen p <= max < 2 ^ 16 -> c_buffer c `prefix_of` sealed k (c_nonce c) p ++ records k (c_nonce c + 1) ps ->
  (zlen (c_buffer c) < zlen p + TAG_LEN /\ drain_chunk open_ c k (zlen p) = (c, Ok false))
  \/ (exists buffer, drain_chunk open_ c k (zlen p)
        = (mkCursor buffer (c_nonce c + 1) None (c_output c ++ p), Ok true)
      /\ c_buffer c = sealed k (c_nonce c) p ++ buffer /\ buffer `prefix_of` records k (c_nonce c + 1) ps).
Proof.
  intros Hk Hn Hm Hp Hb. unfold drain_chunk. destruct (Z.ltb_spec (zlen (c_buffer c)) (zlen p + TAG_LEN)); [by left|].
  right. pose proof (zlen_nonneg ps). destruct (sealed_ok seal open_ k (c_nonce c) p Hk ltac:(lia)) as (_ & Hl & Ho).
  unfold TAG_LEN, zlen in *.
  destruct (prefix_take_app _ _ _ (Z.to_nat (Z.of_nat (length p) + 16)) Hb) as (Ht & Hd & He); [lia|lia|].
  unfold split_to. rewrite Ht, next_nonce_ok by lia. rewrite Ho. eauto.
Qed.

(** The decryptor at nonce [n] with [pending] holds [buffer], and [wire] is all
    it has still to open: the records of [ps]. *)
Record reads (k : AeadKey) (max n : Z) (pending : option Z) (ps : list bytes) (wire buffer : bytes) : Prop := {
  rd_wire : record_wire k n pending ps wire;
  rd_prefix : buffer `prefix_of` wire;
  rd_nonce : 0 <= n;
  rd_blocks : n + record_blocks pending ps <= MAX_NONCE_COUNTER;
  rd_max : Forall (fun p => zlen p <= max) ps
}.

Lemma drain_payload_ok c k max ps wire : key_ok k -> max < 2 ^ 16 ->
  reads k max (c_nonce c) (c_pending c) ps wire (c_buffer c) ->
  exists c' go done ps' used wire', drain_payload open_ c k max = (c', Ok go)
    /\ ps = done ++ ps' /\ c_output c' = c_output c ++ concat done
    /\ c_buffer c = used ++ c_buffer c' /\ wire = used ++ wire'
    /\ reads k max (c_nonce c') (c_pending c') ps' wire' (c_buffer c')
    /\ (if go then (length (c_buffer c') < length (c_buffer c))%nat
        else done = [] /\ (c_buffer c' = wire' -> ps' = [])).
Proof.
  intros Hk Hmax [Hw Hb Hn Hm Hp].
  (* a record whose length is known *)
  assert (Hrec : forall c p ps, 0 <= c_nonce c -> c_nonce c + 1 + 2 * zlen ps <= MAX_NONCE_COUNTER ->
    c_pending c = Some (zlen p) ->
    Forall (fun p => zlen p <= max) (p :: ps) -> c_buffer c `prefix_of` sealed k (c_nonce c) p ++ records k (c_nonce c + 1) ps ->
    exists c' go done ps' used wire', drain_chunk open_ c k (zlen p) = (c', Ok go)
    /\ p :: ps = done ++ ps' /\ c_output c' = c_output c ++ concat done
    /\ c_buffer c = used ++ c_buffer c' /\ sealed k (c_nonce c) p ++ records k (c_nonce c + 1) ps = used ++ wire'
    /\ reads k max (c_nonce c') (c_pending c') ps' wire' (c_buffer c')
    /\ (if go then (length (c_buffer c') < length (c_buffer c))%nat
        else done = [] /\ (c_buffer c' = wire' -> ps' = []))).
  { clear c ps wire Hw Hb Hn Hm Hp. intros c p ps Hn Hm Hpend Hp Hb.
    apply Forall_cons in Hp as Hps. destruct Hps as [Hp1 Hps].
    destruct (sealed_ok seal open_ k (c_nonce c) p Hk ltac:(lia)) as (_ & Hl & _).
    destruct (drain_chunk_ok c k max p ps) as [[Hs ->]|(buffer & -> & Hc & Hpre)]; try done.
    - exists c, false, [], (p :: ps), [], (sealed k (c_nonce c) p ++ records k (c_nonce c + 1) ps).
      cbn [app concat]. rewrite app_nil_r. split_and!; try done.
      + split; try done.
        { rewrite Hpend. by exists p, ps. }
        { rewrite Hpend. unfold record_blocks. rewrite zlen_cons. lia. }
      + intros He. rewrite He, zlen_app in Hs. pose proof (zlen_nonneg (records k (c_nonce c + 1) ps)).
        unfold TAG_LEN in Hs. lia.
    - eexists _, true, [p], ps, (sealed k (c_nonce c) p), (records k (c_nonce c + 1) ps).
      split; [done|]. cbn [c_nonce c_buffer c_pending c_output app concat]. rewrite app_nil_r. split_and!; try done.
      + split; try done; [lia|]. unfold record_blocks. lia.
      + rewrite Hc, length_app. unfold zlen in Hl. lia. }
  unfold drain_payload. destruct (c_pending c) as [len|] eqn:Ep.
  { destruct Hw as (p & ps1 & -> & <- & ->). apply Hrec; try done.
    unfold record_blocks in Hm. rewrite zlen_cons in Hm. lia. }
  cbn [record_wire] in Hw. subst wire. unfold drain_length_header.
  destruct ps as [|p ps].
  { cbn [StreamWire.records] in *. destruct Hb as [l Hl]. symmetry in Hl. apply app_eq_nil in Hl as [Hl _].
    rewrite Hl. eexists _, false, [], [], [], []. split; [reflexivity|]. cbn. rewrite app_nil_r. split_and!; done. }
  apply Forall_cons in Hp as Hps. destruct Hps as [Hp1 Hps].
  unfold record_blocks in Hm. rewrite zlen_cons in Hm. pose proof (zlen_nonneg ps). pose proof (zlen_nonneg p).
  cbn [StreamWire.records] in *. unfold record_bytes in *. rewrite <- app_assoc in *.
  set (rest := sealed k (c_nonce c + 1) p ++ records k (c_nonce c + 2) ps) in *.
  destruct (sealed_ok seal open_ k (c_nonce c) (be_bytes 2 (zlen p)) Hk) as (_ & Hl & Ho); [done|].
  assert (Hl18 : length (sealed k (c_nonce c) (be_bytes 2 (zlen p))) = 18%nat).
  { change (zlen (be_bytes 2 (zlen p))) with 2 in Hl. unfold zlen at 1 in Hl. lia. }
  destruct (Z.ltb_spec (zlen (c_buffer c)) (2 + TAG_LEN)) as [Hs|Hs].
  { eexists _, false, [], (p :: ps), [], _. split; [reflexivity|].
    cbn [c_nonce c_buffer c_pending c_output app concat]. rewrite app_nil_r. split_and!; try done.
    - split; try done; [cbn; unfold record_bytes; by rewrite <- app_assoc|].
      unfold record_blocks. rewrite zlen_cons. lia.
    - intros He. rewrite He, zlen_app in Hs. unfold zlen at 1 in Hs. rewrite Hl18 in Hs.
      pose proof (zlen_nonneg rest). unfold TAG_LEN in Hs. lia. }
  unfold TAG_LEN in *. change (2 + 16) with 18 in *.
  destruct (prefix_take_app _ _ _ 18%nat Hb Hl18) as (Ht & Hd & He); [unfold zlen in Hs; lia|].
  unfold split_to. change (Z.to_nat 18) with 18%nat. rewrite Ht, next_nonce_ok by lia. rewrite Ho.
  cbn [ok_or mbind result_bind]. replace (zlen (be_bytes 2 (zlen p)) =? 2) with true by done. cbn [negb].
  rewrite be_val_be_bytes_small by (cbn; lia). destruct (Z.ltb_spec max (zlen p)); [lia|].
  cbn [c_nonce c_buffer c_pending c_output].
  destruct (Hrec (mkCursor (drop 18 (c_buffer c)) (c_nonce c + 1) (Some (zlen p)) (c_output c)) p ps) as
    (c' & go & fin & ps' & used & wire' & Hrun & Hps' & Hout & Hbuf & Hwire & Hrd & Hgo);
    cbn [c_nonce c_buffer c_pending c_output]; try done; try lia.
  { by replace (c_nonce c + 1 + 1) with (c_nonce c + 2) by lia. }
  cbn [c_nonce c_buffer c_pending c_output] in *.
  exists c', go, fin, ps', (sealed k (c_nonce c) (be_bytes 2 (zlen p)) ++ used), wire'. split; [done|].
  split; [done|]. split; [done|]. split; [by rewrite <- app_assoc, <- Hbuf|]. split.
  { rewrite <- app_assoc, <- Hwire. by replace (c_nonce c + 1 + 1) with (c_nonce c + 2) by lia. }
  split; [done|]. destruct go; [|done]. rewrite length_drop in Hgo. lia.
Qed.

(** [ps'] and [wire'] are left of [ps] and [wire] when the bytes between
    [buffer] and [buffer'] are opened and their plaintext is in the output. *)
Definition consumed (ps wire : _) (buffer output : bytes) (ps' : list bytes) (wire' buffer' output' : bytes) : Prop :=
  exists (fin : list bytes) (used : bytes), ps = fin ++ ps' /\ output' = output ++ concat fin
    /\ buffer = used ++ buffer' /\ wire = used ++ wire'.
Lemma consumed_trans ps wire buffer output ps1 wire1 buffer1 output1 ps2 wire2 buffer2 output2 :
  consumed ps wire buffer output ps1 wire1 buffer1 output1 ->
  consumed ps1 wire1 buffer1 output1 ps2 wire2 buffer2 output2 ->
  consumed ps wire buffer output ps2 wire2 buffer2 output2.
Proof.
  intros (f1 & u1 & -> & -> & -> & ->) (f2 & u2 & -> & -> & -> & ->).
  exists (f1 ++ f2), (u1 ++ u2). by rewrite concat_app, <- !app_assoc.
Qed.

(** What an authenticated decryptor has still to yield: the records' payloads,
    behind the address an SS2022 header gives. *)
Definition expects (a : ActiveStream) (ps : list bytes) (wire buffer : bytes) : Prop :=
  match mode a with
  | Legacy _ pending => reads (key a) LEGACY_MAX_CHUNK_SIZE (nonce_counter a) pending ps wire buffer
  | Ss2022 _ true _ pending => reads (key a) MAX_CHUNK_SIZE (nonce_counter a) pending ps wire buffer
  | Ss2022 _ false pending_header pending =>
    exists variable init ps', ps = init :: ps' /\ parse_ss2022_request_header variable = Ok init
      /\ pending_header = Some (zlen variable) /\ zlen variable < 2 ^ 16 /\ pending = None
      /\ nonce_counter a = 1 /\ wire = sealed (key a) 1 variable ++ records (key a) 2 ps'
      /\ buffer `prefix_of` wire /\ 2 + 2 * zlen ps' <= MAX_NONCE_COUNTER
      /\ Forall (fun p => zlen p <= MAX_CHUNK_SIZE) ps'
  end.

Lemma drain_round_ok buffer a output ps wire : key_ok (key a) -> expects a ps wire buffer ->
  exists buffer' a' output' go ps' wire', drain_round open_ buffer a output = (buffer', a', output', Ok go)
    /\ key a' = key a /\ user a' = user a /\ user_index a' = user_index a /\ consumed ps wire buffer output ps' wire' buffer' output'
    /\ expects a' ps' wire' buffer'
    /\ (if go then (length buffer' < length buffer)%nat else buffer' = wire' -> ps' = []).
Proof.
  intros Hk. unfold expects, drain_round. destruct (mode a) as [salt pending|salt [] ph pending] eqn:Em.
  1,2: intros Hr; match type of Hr with reads _ ?max _ _ _ _ _ =>
    destruct (drain_payload_ok (mkCursor buffer (nonce_counter a) pending output) (key a) max ps wire Hk
      ltac:(done) Hr) as (c' & go & fin & ps' & used & wire' & -> & Hps & Hout & Hbuf & Hwire & Hrd & Hgo) end;
    do 4 eexists; exists ps', wire'; split; [reflexivity|]; cbn [key user user_index mode nonce_counter];
    split_and!; try done; [by exists fin, used|destruct go; [done|]; apply Hgo].
  intros (variable & init & ps' & -> & Hparse & -> & Hv & -> & Hn & -> & Hb & Hm & Hp). cbn [negb].
  unfold drain_header. destruct (sealed_ok seal open_ (key a) 1 variable Hk ltac:(lia)) as (_ & Hl & Ho).
  unfold TAG_LEN. destruct (Z.ltb_spec (zlen buffer) (zlen variable + 16)) as [Hs|Hs].
  - exists buffer, a, output, false, (init :: ps'), (sealed (key a) 1 variable ++ records (key a) 2 ps').
    split; [reflexivity|]. split_and!; try done.
    + exists [], []. cbn. by rewrite app_nil_r.
    + rewrite Em. by exists variable, init, ps'.
    + intros He. rewrite He, zlen_app in Hs. pose proof (zlen_nonneg (records (key a) 2 ps')). lia.
  - unfold zlen in Hl, Hs.
    destruct (prefix_take_app _ _ _ (Z.to_nat (zlen variable + 16)) Hb) as (Ht & Hd & He);
      [unfold zlen; lia|unfold zlen; lia|].
    unfold split_to. rewrite Ht, Hn, next_nonce_ok by done. rewrite Ho. cbn [ok_or mbind result_bind].
    rewrite Hparse. do 3 eexists. exists true, ps', (records (key a) 2 ps'). split; [reflexivity|].
    cbn [key user user_index mode nonce_counter]. split_and!; try done.
    + exists [init], (sealed (key a) 1 variable). cbn. by rewrite app_nil_r.
    + split; try done. unfold record_blocks. lia.
    + rewrite He at 2. rewrite length_app. lia.
Qed.
Lemma drain_loop_ok fuel : forall buffer a output ps wire, (length buffer < fuel)%nat ->
  key_ok (key a) -> expects a ps wire buffer ->
  exists buffer' a' output' ps' wire', drain_loop open_ fuel buffer a output = Some (buffer', a', output', Ok tt)
    /\ key a' = key a /\ user a' = user a /\ user_index a' = user_index a
    /\ consumed ps wire buffer output ps' wire' buffer' output'
    /\ expects a' ps' wire' buffer' /\ (buffer' = wire' -> ps' = []).
Proof.
  induction fuel as [|fuel IH]; intros buffer a output ps wire Hf Hk He; [lia|]. cbn [drain_loop].
  destruct (drain_round_ok buffer a output ps wire Hk He) as
    (b1 & a1 & o1 & go & ps1 & w1 & -> & Hk1 & Hu1 & Hi1 & Hc1 & He1 & Hgo). destruct go.
  - destruct (IH b1 a1 o1 ps1 w1) as (b2 & a2 & o2 & ps2 & w2 & -> & Hk2 & Hu2 & Hi2 & Hc2 & He2 & Hend);
      [lia|by rewrite Hk1|done|].
    exists b2, a2, o2, ps2, w2. split; [done|]. split_and!; try done; try congruence. by eapply consumed_trans.
  - by exists b1, a1, o1, ps1, w1.
Qed.

(** ** Finding the user *)
Context (hkdf_sha1 : bytes -> bytes -> bytes -> nat -> option bytes)
  (blake3_derive_xof : bytes -> bytes -> nat -> bytes) `{KL : !KdfLaws hkdf_sha1 blake3_derive_xof}.
Abbreviation try_user := (try_user open_ hkdf_sha1 blake3_derive_xof).
Abbreviation build_session_key := (build_session_key hkdf_sha1 blake3_derive_xof).

(** The bytes [try_user] needs. *)
Definition handshake_len (u : UserKey) : Z :=
  Z.of_nat (salt_len (cipher u)) + (if is_ss2022 (cipher u) then SS2022_REQUEST_FIXED_CIPHERTEXT_LEN else 2 + TAG_LEN).

(** The first block of the wire does not open under the user's key. *)
Definition foreign (wire : bytes) (u : UserKey) : Prop :=
  forall k, build_session_key (cipher u) (master_key u) (take (salt_len (cipher u)) wire) = Ok k ->
  open_ k (zeros NONCE_LEN) (slice wire (salt_len (cipher u)) (Z.to_nat (handshake_len u))) = None.

Lemma slice_prefix (l wire : bytes) a b : l `prefix_of` wire -> (b <= length l)%nat -> slice l a b = slice wire a b.
Proof.
  intros [k ->] Hb. unfold slice. destruct (Nat.le_gt_cases a (length l)).
  - rewrite drop_app_le by done. rewrite take_app_le; [done|rewrite length_drop; lia].
  - replace (b - a)%nat with 0%nat by lia. by rewrite !take_0.
Qed.
Lemma take_prefix (l wire : bytes) a : l `prefix_of` wire -> (a <= length l)%nat -> take a l = take a wire.
Proof. intros [k ->] Ha. by rewrite take_app_le. Qed.

Lemma try_foreign buffer wire u j now : foreign wire u -> buffer `prefix_of` wire ->
  try_user buffer u j now = Ok (if zlen buffer <? handshake_len u then TooShort else Probed).
Proof.
  intros Hf Hb. unfold StreamCrypto.try_user, handshake_len. unfold foreign, handshake_len in Hf.
  destruct (session_keys_agree hkdf_sha1 blake3_derive_xof (cipher u) (master_key u)
    (take (salt_len (cipher u)) wire)) as (k & _ & Hk & _).
  specialize (Hf k Hk). rewrite Nat2Z.id.
  destruct (is_ss2022 (cipher u)).
  - destruct (Z.ltb_spec (zlen buffer) (Z.of_nat (salt_len (cipher u)) + SS2022_REQUEST_FIXED_CIPHERTEXT_LEN)); [done|].
    unfold zlen, SS2022_REQUEST_FIXED_CIPHERTEXT_LEN in *.
    rewrite (take_prefix _ _ _ Hb), (slice_prefix _ _ _ _ Hb), Hk by lia. cbn [mbind result_bind].
    unfold try_open_fixed_header. by rewrite Hf.
  - rewrite Z.add_assoc in Hf. rewrite Z.add_assoc.
    destruct (Z.ltb_spec (zlen buffer) (Z.of_nat (salt_len (cipher u)) + 2 + TAG_LEN)); [done|].
    unfold zlen, TAG_LEN in *.
    rewrite (take_prefix _ _ _ Hb), (slice_prefix _ _ _ _ Hb), Hk by lia. cbn [mbind result_bind].
    unfold try_open_fixed_header. by rewrite Hf.
Qed.

Section find.
Context (us : list UserKey) (i : nat) (u : UserKey) (buffer rest : bytes) (a : ActiveStream) (now : Z).
Hypothesis Hu : us !! i = Some u.
Hypothesis Hforeign : forall j u', us !! j = Some u' -> j <> i ->
  try_user buffer u' j now = Ok (if zlen buffer <? handshake_len u' then TooShort else Probed).
Hypothesis Hown :
  try_user buffer u i now = Ok (if zlen buffer <? handshake_len u then TooShort else Authenticated rest a).
Hypothesis Hleast : forall j u', us !! j = Some u' -> handshake_len u <= handshake_len u'.

Lemma scan_short hint any : zlen buffer < handshake_len u -> forall l idx, drop idx us = l ->
  scan_users open_ hkdf_sha1 blake3_derive_xof buffer hint now l idx any
  = if any then Err UnknownUser else Ok None.
Proof.
  intros Hs. induction l as [|u' l IH]; intros idx Hl; [done|]. cbn [scan_users].
  assert (Hi : us !! idx = Some u') by (rewrite <- (Nat.add_0_r idx), <- lookup_drop, Hl; done).
  assert (Hd : drop (S idx) us = l) by (rewrite <- Nat.add_1_r, <- drop_drop, Hl; done).
  case_bool_decide; [by apply IH|]. pose proof (Hleast idx u' Hi).
  assert (Ht : try_user buffer u' idx now = Ok TooShort).
  { destruct (decide (idx = i)) as [->|Hne].
    - rewrite Hi in Hu. injection Hu as ->. rewrite Hown. by destruct (Z.ltb_spec (zlen buffer) (handshake_len u)); [|lia].
    - rewrite (Hforeign idx u') by done. by destruct (Z.ltb_spec (zlen buffer) (handshake_len u')); [|lia]. }
  rewrite Ht. cbn [mbind result_bind]. by apply IH.
Qed.
Lemma scan_long hint : handshake_len u <= zlen buffer -> hint <> Some i -> forall l idx any, drop idx us = l ->
  (idx <= i)%nat ->
  scan_users open_ hkdf_sha1 blake3_derive_xof buffer hint now l idx any = Ok (Some (rest, a)).
Proof.
  intros Hs Hh. induction l as [|u' l IH]; intros idx any Hl Hi.
  { apply (f_equal length) in Hl. rewrite length_drop in Hl. apply lookup_lt_Some in Hu. simpl in Hl. lia. }
  cbn [scan_users].
  assert (Hix : us !! idx = Some u') by (rewrite <- (Nat.add_0_r idx), <- lookup_drop, Hl; done).
  assert (Hd : drop (S idx) us = l) by (rewrite <- Nat.add_1_r, <- drop_drop, Hl; done).
  destruct (decide (idx = i)) as [->|Hne].
  - rewrite bool_decide_eq_false_2 by congruence. rewrite Hix in Hu. injection Hu as ->.
    rewrite Hown. by destruct (Z.ltb_spec (zlen buffer) (handshake_len u)); [lia|].
  - case_bool_decide; [apply IH; (done || lia)|]. rewrite (Hforeign idx u') by done. cbn [mbind result_bind].
    destruct (zlen buffer <? handshake_len u'); apply IH; (done || lia).
Qed.
Lemma find_user_ok d : users d = us -> StreamCrypto.buffer d = buffer ->
  find_user open_ hkdf_sha1 blake3_derive_xof d now
  = Ok (if zlen buffer <? handshake_len u then None else Some (rest, a)).
Proof.
  intros Hus Hb. unfold find_user. rewrite Hus, Hb.
  destruct (Z.lt_ge_cases (zlen buffer) (handshake_len u)) as [Hs|Hs];
    [rewrite (proj2 (Z.ltb_lt _ _) Hs)|rewrite (proj2 (Z.ltb_ge _ _) Hs)].
  - destruct (user_hint d) as [h|]; cbn [mbind option_bind]; [|by rewrite (scan_short _ false)].
    destruct (us !! h) as [u'|] eqn:Eh; cbn [mbind option_bind]; [|by rewrite (scan_short _ false)].
    assert (Ht : try_user buffer u' h now = Ok TooShort).
    { pose proof (Hleast h u' Eh). destruct (decide (h = i)) as [->|Hne].
      - rewrite Eh in Hu. injection Hu as ->. rewrite Hown. by destruct (Z.ltb_spec (zlen buffer) (handshake_len u)); [|lia].
      - rewrite (Hforeign h u') by done. by destruct (Z.ltb_spec (zlen buffer) (handshake_len u')); [|lia]. }
    rewrite Ht. cbn [mbind result_bind]. by rewrite (scan_short _ false).
  - assert (Hlong : forall h any, h <> Some i ->
      scan_users open_ hkdf_sha1 blake3_derive_xof buffer h now us 0 any = Ok (Some (rest, a)))
      by (intros h any Hne; apply scan_long; (done || lia)).
    destruct (user_hint d) as [h|]; cbn [mbind option_bind]; [|by apply Hlong].
    destruct (decide (h = i)) as [->|Hne].
    + rewrite Hu. cbn [mbind option_bind]. rewrite Hown. by destruct (Z.ltb_spec (zlen buffer) (handshake_len u)); [lia|].
    + destruct (us !! h) as [u'|] eqn:Eh; cbn [mbind option_bind]; [|apply Hlong; congruence].
      rewrite (Hforeign h u') by done. cbn [mbind result_bind].
      destruct (zlen buffer <? handshake_len u'); apply Hlong; congruence.
Qed.
End find.

(** ** A client's stream, seen from the server *)

(** [wire] is what a client with the key of user [u] sends at clock [cnow], and
    [ps] what the server is to read from it. *)
Inductive uplink (u : UserKey) (cnow : Z) (k : AeadKey) (wire : bytes) : list bytes -> Prop :=
  | up_legacy salt p ps : is_ss2022 (cipher u) = false -> length salt = salt_len (cipher u) ->
      build_session_key (cipher u) (master_key u) salt = Ok k -> key_ok k ->
      wire = salt ++ records k 0 (p :: ps) -> 2 * zlen (p :: ps) <= MAX_NONCE_COUNTER ->
      Forall (fun p => zlen p <= LEGACY_MAX_CHUNK_SIZE) (p :: ps) -> uplink u cnow k wire (p :: ps)
  | up_ss2022 salt fixed variable init ps : is_ss2022 (cipher u) = true -> length salt = salt_len (cipher u) ->
      build_session_key (cipher u) (master_key u) salt = Ok k -> key_ok k ->
      zlen fixed = Z.of_nat SS2022_REQUEST_FIXED_HEADER_LEN -> zlen variable < 2 ^ 16 ->
      (forall now, fresh cnow now -> validate_request_fixed_header fixed now = Ok (length variable)) ->
      parse_ss2022_request_header variable = Ok init ->
      wire = salt ++ sealed k 0 fixed ++ sealed k 1 variable ++ records k 2 ps ->
      2 + 2 * zlen ps <= MAX_NONCE_COUNTER -> Forall (fun p => zlen p <= MAX_CHUNK_SIZE) ps ->
      uplink u cnow k wire (init :: ps).

Lemma slice_at (salt c rest : bytes) n m : length salt = n -> m = (n + length c)%nat -> slice (salt ++ c ++ rest) n m = c.
Proof. intros <- ->. by apply slice_app_mid. Qed.

Lemma try_own u i cnow now k wire ps buffer : uplink u cnow k wire ps -> fresh cnow now -> buffer `prefix_of` wire ->
  exists a n, try_user buffer u i now
      = Ok (if zlen buffer <? handshake_len u then TooShort else Authenticated (drop n buffer) a)
    /\ key a = k /\ user a = u /\ user_index a = i
    /\ (handshake_len u <= zlen buffer -> (n <= length buffer)%nat /\ expects a ps (drop n wire) (drop n buffer)).
Proof.
  intros Hup Hfr Hb. unfold StreamCrypto.try_user, handshake_len.
  destruct Hup as [salt p ps Hss Hsalt Hkey Hk Hw Hm Hp
    |salt fixed variable init ps Hss Hsalt Hkey Hk Hf Hv Hval Hparse Hw Hm Hp]; rewrite Hss, Nat2Z.id.
  - apply Forall_cons in Hp as Hp1. destruct Hp1 as [Hp1 _]. pose proof (zlen_nonneg p).
    unfold LEGACY_MAX_CHUNK_SIZE in Hp1.
    exists (mkActive u i k 0 (Legacy salt None)), (salt_len (cipher u)). rewrite Z.add_assoc.
    destruct (Z.ltb_spec (zlen buffer) (Z.of_nat (salt_len (cipher u)) + 2 + TAG_LEN)) as [Hs|Hs];
      [split_and!; (done || lia)|]. unfold TAG_LEN, zlen in Hs |- *.
    rewrite (take_prefix _ _ _ Hb), (slice_prefix _ _ _ _ Hb) by lia.
    destruct (sealed_ok seal open_ k 0 (be_bytes 2 (zlen p)) Hk eq_refl) as (_ & Hl & Ho).
    change (zlen (be_bytes 2 (zlen p))) with 2 in Hl. unfold zlen at 1 in Hl.
    assert (Htk : take (salt_len (cipher u)) wire = salt) by (rewrite Hw; by apply take_app_length').
    assert (Hsl : slice wire (salt_len (cipher u)) (Z.to_nat (Z.of_nat (salt_len (cipher u)) + 2 + 16))
      = sealed k 0 (be_bytes 2 (zlen p))).
    { rewrite Hw. cbn [StreamWire.records]. unfold record_bytes. rewrite <- !app_assoc.
      apply slice_at; [done|lia]. }
    rewrite Htk, Hsl, Hkey. cbn [mbind result_bind]. unfold try_open_fixed_header.
    change (zeros NONCE_LEN) with (nonce_of 0). rewrite Ho. cbn [ok_or mbind result_bind].
    replace (zlen (be_bytes 2 (zlen p)) =? 2) with true by done. cbn [negb].
    rewrite be_val_be_bytes_small by (cbn; lia). unfold LEGACY_MAX_CHUNK_SIZE.
    destruct (Z.leb_spec (zlen p) 0x3fff); [|lia]. split_and!; try done.
    intros _. split; [lia|]. unfold expects. cbn [mode key nonce_counter].
    rewrite Hw, drop_app_length' by done. split; try done.
    by rewrite <- (drop_app_length' salt (records k 0 (p :: ps)) (salt_len (cipher u))), <- Hw by done;
        destruct Hb as [l ->]; exists l; rewrite drop_app_le by lia.
  - destruct (sealed_ok seal open_ k 0 fixed Hk ltac:(rewrite Hf; done)) as (_ & Hl & Ho).
    rewrite Hf in Hl. change (Z.of_nat SS2022_REQUEST_FIXED_HEADER_LEN + 16) with 27 in Hl. unfold zlen in Hl.
    change SS2022_REQUEST_FIXED_CIPHERTEXT_LEN with 27.
    exists (mkActive u i k 1 (Ss2022 salt false (Some (zlen variable)) None)), (salt_len (cipher u) + 27)%nat.
    destruct (Z.ltb_spec (zlen buffer) (Z.of_nat (salt_len (cipher u)) + 27)) as [Hs|Hs];
      [split_and!; (done || lia)|]. unfold zlen in Hs.
    replace (Z.to_nat (Z.of_nat (salt_len (cipher u)) + 27)) with (salt_len (cipher u) + 27)%nat by lia.
    rewrite (take_prefix _ _ _ Hb), (slice_prefix _ _ _ _ Hb) by lia.
    assert (Htk : take (salt_len (cipher u)) wire = salt) by (rewrite Hw; by apply take_app_length').
    assert (Hsl : slice wire (salt_len (cipher u)) (salt_len (cipher u) + 27) = sealed k 0 fixed).
    { rewrite Hw. apply slice_at; [done|lia]. }
    rewrite Htk, Hsl, Hkey. cbn [mbind result_bind]. unfold try_open_fixed_header.
    change (zeros NONCE_LEN) with (nonce_of 0). rewrite Ho. cbn [ok_or mbind result_bind].
    rewrite Hf, Z.eqb_refl. cbn [negb]. unfold validate_ss2022_request_fixed_header.
    rewrite (Hval now Hfr). cbn [map_err mbind result_bind]. split_and!; try done.
    intros _. split; [lia|].
    assert (Hdw : drop (salt_len (cipher u) + 27) wire = sealed k 1 variable ++ records k 2 ps).
    { rewrite Hw, app_assoc. apply drop_app_length'. rewrite length_app. lia. }
    unfold expects. cbn [mode key nonce_counter]. rewrite Hdw.
    exists variable, init, ps. split_and!; try done.
    rewrite <- Hdw. destruct Hb as [l ->]. exists l. rewrite drop_app_le by lia. done.
Qed.

(** ** Feeding the server *)
Abbreviation drain_plaintext := (drain_plaintext open_ hkdf_sha1 blake3_derive_xof).

(** The read loop: every piece the network gives is fed and drained. *)
Fixpoint server_run (d : AeadStreamDecryptor) (pieces : list (bytes * Z)) (output : bytes)
    : option (AeadStreamDecryptor * bytes * result CryptoError unit) :=
  match pieces with
  | [] => Some (d, output, Ok tt)
  | (piece, now) :: pieces =>
    '(d, output, r) ← drain_plaintext (feed_ciphertext d piece) now output;
    match r with Err e => Some (d, output, Err e) | Ok _ => server_run d pieces output end
  end.

Section feeding.
Context (us : list UserKey) (i : nat) (u : UserKey) (cnow : Z) (k : AeadKey) (wire : bytes) (ps : list bytes).
Hypothesis Hu : us !! i = Some u.
Hypothesis Hup : uplink u cnow k wire ps.
Hypothesis Hforeign : forall j u', us !! j = Some u' -> j <> i -> foreign wire u'.
Hypothesis Hleast : forall j u', us !! j = Some u' -> handshake_len u <= handshake_len u'.

Lemma uplink_key_ok : key_ok k.
Proof. by destruct Hup. Qed.

(** The decryptor after [fed]. *)
Record tracking (d : AeadStreamDecryptor) (fed output : bytes) : Prop := {
  tr_users : users d = us;
  tr_fed : fed `prefix_of` wire;
  tr_state : match active d with
    | None => buffer d = fed /\ output = [] /\ zlen fed < handshake_len u
    | Some a => key a = k /\ user a = u /\ user_index a = i /\ exists ps' wire',
        consumed ps wire fed [] ps' wire' (buffer d) output /\ expects a ps' wire' (buffer d)
        /\ (buffer d = wire' -> ps' = [])
    end
}.

Lemma ensure_ok d fed now : users d = us -> active d = None -> buffer d = fed -> fed `prefix_of` wire ->
  fresh cnow now ->
  exists d', ensure_session_key open_ hkdf_sha1 blake3_derive_xof d now = (d', Ok tt) /\ users d' = us
    /\ match active d' with
       | None => d' = d /\ zlen fed < handshake_len u
       | Some a => key a = k /\ user a = u /\ user_index a = i /\ exists wire',
           consumed ps wire fed [] ps wire' (buffer d') [] /\ expects a ps wire' (buffer d')
       end.
Proof.
  intros Hus Ha Hb Hp Hfr. unfold ensure_session_key. rewrite Ha, bool_decide_eq_false_2 by (by intros [? ?]).
  destruct (try_own u i cnow now k wire ps fed Hup Hfr Hp) as (a & n & Hown & Hk & Hua & Hia & Hex).
  rewrite (find_user_ok us i u fed (drop n fed) a now Hu); try done.
  2:{ intros j u' Hj Hne. apply try_foreign with wire; [by eapply Hforeign|done]. }
  destruct (Z.ltb_spec (zlen fed) (handshake_len u)) as [Hs|Hs].
  - exists d. by rewrite Ha.
  - eexists. split; [done|]. split; [done|]. cbn [active buffer].
    destruct (Hex Hs) as [Hn He]. split_and!; try done. exists (drop n wire). split; [|done].
    exists [], (take n fed). rewrite take_drop. split_and!; try done.
    rewrite <- (take_drop n wire) at 1. by rewrite (take_prefix fed wire n).
Qed.

Lemma tracking_feed d fed output piece now : tracking d fed output -> fed ++ piece `prefix_of` wire ->
  fresh cnow now ->
  exists d' output', drain_plaintext (feed_ciphertext d piece) now output = Some (d', output', Ok tt)
    /\ tracking d' (fed ++ piece) output'.
Proof.
  intros [Hus _ Hst] Hp Hfr. unfold StreamCrypto.drain_plaintext.
  assert (H : exists d1 out1, ensure_session_key open_ hkdf_sha1 blake3_derive_xof (feed_ciphertext d piece) now = (d1, Ok tt)
    /\ users d1 = us /\ output = out1 /\ match active d1 with
       | None => buffer d1 = fed ++ piece /\ output = [] /\ zlen (fed ++ piece) < handshake_len u
       | Some a => key a = k /\ user a = u /\ user_index a = i /\ exists ps' wire',
           consumed ps wire (fed ++ piece) [] ps' wire' (buffer d1) output /\ expects a ps' wire' (buffer d1)
       end).
  { destruct (active d) as [a|] eqn:Ea.
    - exists (feed_ciphertext d piece), output. unfold ensure_session_key, feed_ciphertext. cbn [active users buffer].
      rewrite Ea. rewrite bool_decide_eq_true_2 by eauto.
      destruct Hst as (Hk & Hua & Hia & ps' & wire' & (fin & used & Hps & Hout & Hfed & Hw) & He & _).
      split_and!; try done. exists ps', wire'.
      assert (Hpre : buffer d ++ piece `prefix_of` wire').
      { rewrite Hfed, Hw, <- app_assoc in Hp. by apply prefix_app_inv in Hp. }
      split; [exists fin, used; by rewrite Hfed, <- app_assoc|].
      revert He. unfold expects. destruct (mode a) as [|salt [] ph pending].
      1,2: intros [? ? ? ? ?]; by split.
      intros (variable & init & ps'' & ? & ? & ? & ? & ? & ? & ? & ? & ? & ?). exists variable, init, ps''. by split_and!.
    - destruct Hst as (Hb & -> & Hs).
      destruct (ensure_ok (feed_ciphertext d piece) (fed ++ piece) now) as (d1 & -> & Hus1 & Hm); try done;
        [cbn; by rewrite Hb|].
      exists d1, []. split_and!; try done. destruct (active d1) eqn:Ea1.
      + destruct Hm as (? & ? & ? & wire' & ? & ?). eauto 10.
      + destruct Hm as [-> ?]. cbn. by rewrite Hb. }
  destruct H as (d1 & out1 & -> & Hus1 & <- & Hm). destruct (active d1) as [a|] eqn:Ea.
  - destruct Hm as (Hk & Hua & Hia & ps' & wire' & Hc & He).
    destruct (drain_loop_ok (S (length (buffer d1))) (buffer d1) a output ps' wire') as
      (b2 & a2 & o2 & ps2 & w2 & -> & Hk2 & Hu2 & Hi2 & Hc2 & He2 & Hend);
      [lia|rewrite Hk; apply uplink_key_ok|done|].
    cbn [mbind option_bind]. do 2 eexists. split; [done|]. split; try done. cbn [active buffer].
    split_and!; try congruence. exists ps2, w2. split; [by eapply consumed_trans|done].
  - do 2 eexists. split; [done|]. split; try done. by rewrite Ea.
Qed.

Lemma server_run_ok pieces : forall d fed output, tracking d fed output ->
  fed ++ concat pieces.*1 `prefix_of` wire -> Forall (fresh cnow) pieces.*2 ->
  exists d' output', server_run d pieces output = Some (d', output', Ok tt)
    /\ tracking d' (fed ++ concat pieces.*1) output'.
Proof.
  induction pieces as [|[piece now] pieces IH]; intros d fed output Ht Hp Hf.
  { exists d, output. cbn. by rewrite app_nil_r. }
  cbn [fmap list_fmap concat fst snd] in *. apply Forall_cons in Hf as [Hf1 Hf].
  rewrite app_assoc in Hp.
  destruct (tracking_feed d fed output piece now Ht) as (d1 & o1 & Hrun & Ht1); [|done|].
  { etrans; [|apply Hp]. by apply prefix_app_r. }
  cbn [server_run]. rewrite Hrun. cbn [mbind option_bind].
  destruct (IH d1 (fed ++ piece) o1 Ht1 Hp Hf) as (d2 & o2 & -> & Ht2). exists d2, o2.
  by rewrite app_assoc.
Qed.

(** What a tracking decryptor has given out. *)
Lemma tracking_output d fed output : tracking d fed output -> output `prefix_of` concat ps
  /\ (fed = wire -> handshake_len u <= zlen wire -> output = concat ps /\ exists a, active d = Some a /\ user a = u).
Proof.
  intros [Hus Hp Hst]. destruct (active d) as [a|].
  - destruct Hst as (Hk & Hua & Hia & ps' & wire' & (fin & used & Hps & Hout & Hfed & Hw) & He & Hend).
    cbn [app] in Hout. subst output. rewrite Hps, concat_app. split; [by apply prefix_app_r|].
    intros -> _. rewrite Hw in Hfed. apply app_inv_head in Hfed. rewrite Hend by done. rewrite app_nil_r. eauto.
  - destruct Hst as (Hb & -> & Hs). split; [apply prefix_nil|]. intros -> ?. lia.
Qed.
End feeding.
End server.
