(* ===== verification/StreamRun.v ===== *)
(** The two ends of the AEAD stream together: what one writes the other reads
    back, however the network cuts the bytes. *)
From S2P Require Import Prelude Target Cipher Padding Resume Ss2022 StreamCrypto StreamClient StreamWire StreamServer.
Local Open Scope Z_scope.

(** ** A client's session *)
Inductive Op : Type :=
  | SendChunk (payload : bytes)
  | SendChunks (data : list bytes)
  | SendKeepalive.
Definition op_data (o : Op) : bytes :=
  match o with SendChunk p => p | SendChunks l => concat l | SendKeepalive => [] end.
(** The records an operation is to send. *)
Definition op_records (c : CipherKind) (o : Op) : list bytes :=
  match o with
  | SendKeepalive => if is_ss2022 c then [[]] else []
  | _ => chunks (max_payload_len c) (op_data o)
  end.

Section client.
Context (seal open_ : AeadKey -> bytes -> bytes -> option bytes) `{AL : !AeadLaws seal open_}.
Context (hkdf_sha1 : bytes -> bytes -> bytes -> nat -> option bytes)
  (blake3_derive_xof : bytes -> bytes -> nat -> bytes) `{KL : !KdfLaws hkdf_sha1 blake3_derive_xof}.
Abbreviation sealed := (sealed seal).
Abbreviation records := (records seal).
Abbreviation sent := (sent seal).

Definition run_op (w : TcpShadowsocksWriter) (now : Z) (padding : bytes) (o : Op)
    : TcpShadowsocksWriter * result TransportError unit :=
  match o with
  | SendChunk p => send_chunk seal w now padding p
  | SendChunks l => send_chunks seal w now padding l
  | SendKeepalive => send_keepalive seal w
  end.
Fixpoint run_ops (w : TcpShadowsocksWriter) (now : Z) (padding : bytes) (ops : list Op)
    : TcpShadowsocksWriter * result TransportError unit :=
  match ops with
  | [] => (w, Ok tt)
  | o :: ops => andthen (run_op w now padding o) (fun w _ => run_ops w now padding ops)
  end.

(** A writer past its header. *)
Definition opened (w : TcpShadowsocksWriter) : Prop :=
  match w_ss2022 w with
  | Some s => header_sent s = true /\ is_ss2022 (w_cipher w) = true
  | None => is_ss2022 (w_cipher w) = false
  end.
Lemma opened_pending w : opened w -> header_pending w = false.
Proof. unfold opened, header_pending. destruct (w_ss2022 w); [|done]. by intros [-> _]. Qed.
Lemma sent_opened n w frame ps w' frame' : sent n w frame ps w' frame' -> opened w -> opened w'.
Proof. intros [H1 _ H3 _ _ _]. unfold opened. by rewrite H1, H3. Qed.

Lemma run_op_sent w n now padding o : opened w -> key_ok (w_key w) -> w_nonce w = nonce_of n -> 0 <= n ->
  n + 2 * (zlen (op_data o) + 2) < 2 ^ 62 ->
  exists w', run_op w now padding o = (w', Ok tt) /\ sent n w [] (op_records (w_cipher w) o) w' [].
Proof.
  intros Ho Hk Hw Hn Hb. pose proof (zlen_nonneg (op_data o)). destruct o as [p|l|]; cbn [run_op op_records op_data] in *.
  - apply (send_chunk_sent _ open_); (done || lia || by apply opened_pending).
  - unfold send_chunks. rewrite opened_pending by done. apply (send_data_sent _ open_); (done || lia).
  - unfold send_keepalive. unfold opened in Ho. destruct (w_ss2022 w) as [s|].
    + destruct Ho as [-> ->]. apply (send_payload_frame_sent _ open_); (done || lia).
    + rewrite Ho. eexists. split; [done|]. by apply sent_nil.
Qed.
Lemma run_ops_sent ops : forall w n now padding, opened w -> key_ok (w_key w) -> w_nonce w = nonce_of n -> 0 <= n ->
  n + 2 * zlen (concat (map (op_records (w_cipher w)) ops)) <= 2 ^ 40 ->
  zlen (concat (map op_data ops)) < 2 ^ 60 + 2 ^ 20 ->
  exists w', run_ops w now padding ops = (w', Ok tt)
    /\ sent n w [] (concat (map (op_records (w_cipher w)) ops)) w' [].
Proof.
  induction ops as [|o ops IH]; intros w n now padding Ho Hk Hw Hn Hr Hb.
  { exists w. split; [done|]. by apply sent_nil. }
  cbn [map concat run_ops] in *. rewrite zlen_app in Hr. rewrite zlen_app in Hb.
  pose proof (zlen_nonneg (concat (map (op_records (w_cipher w)) ops))).
  pose proof (zlen_nonneg (concat (map op_data ops))). pose proof (zlen_nonneg (op_data o)).
  pose proof (zlen_nonneg (op_records (w_cipher w) o)).
  destruct (run_op_sent w n now padding o) as (w1 & -> & Hs1); try done; [lia|]. cbn [andthen].
  destruct (IH w1 (n + 2 * zlen (op_records (w_cipher w) o)) now padding) as (w2 & -> & Hs2);
    rewrite ?(se_cipher _ _ _ _ _ _ _ Hs1), ?(se_key _ _ _ _ _ _ _ Hs1); try done; try lia.
  { by eapply sent_opened. }
  { apply (se_nonce _ _ _ _ _ _ _ Hs1). }
  exists w2. split; [done|]. eapply (sent_app _ n); [done|].
  by rewrite (se_cipher _ _ _ _ _ _ _ Hs1) in Hs2.
Qed.

(** ** The uplink *)

(** A session that opens with the target's address, as every TCP session does. *)
Definition client_session (c : CipherKind) (master_key salt : bytes) (now : Z) (padding tw : bytes)
    (ops : list Op) : result TransportError TcpShadowsocksWriter :=
  w ← writer_connect hkdf_sha1 blake3_derive_xof c master_key salt;
  match run_ops w now padding (SendChunk tw :: ops) with
  | (w, Ok _) => Ok w
  | (_, Err e) => Err e
  end.
Definition session_records (c : CipherKind) (tw : bytes) (ops : list Op) : list bytes :=
  tw :: concat (map (op_records c) ops).

Lemma op_records_data c o : concat (op_records c o) = op_data o.
Proof.
  destruct o; cbn [op_records op_data]; try (apply chunks_concat; apply max_payload_range).
  by destruct (is_ss2022 c).
Qed.
Lemma session_records_data c tw ops : concat (session_records c tw ops) = tw ++ concat (map op_data ops).
Proof.
  unfold session_records. cbn [concat]. f_equal. induction ops as [|o ops IH]; [done|].
  cbn [map concat]. by rewrite concat_app, op_records_data, IH.
Qed.
Lemma op_records_max c o : Forall (fun p => zlen p <= max_payload_len c) (op_records c o).
Proof.
  pose proof (max_payload_range c). destruct o; cbn [op_records]; try (apply chunks_bound; lia).
  destruct (is_ss2022 c); repeat constructor. change (0 <= max_payload_len c). lia.
Qed.
Lemma session_records_max c ops : Forall (fun p => zlen p <= max_payload_len c) (concat (map (op_records c) ops)).
Proof. induction ops as [|o ops IH]; cbn; [done|]. apply Forall_app. split; [apply op_records_max|done]. Qed.

Lemma target_wire_range t tw : wf_target t -> to_wire_bytes t = Ok tw -> 0 < zlen tw <= 259.
Proof.
  intros Hwf Hw. pose proof (to_wire_bytes_length t tw Hwf Hw) as Hl. unfold zlen.
  destruct t as [h p|h p|h p]; [lia..|]. simpl in Hw. split_guard. lia.
Qed.
Lemma request_header_init t tw now padding fixed variable : wf_target t -> to_wire_bytes t = Ok tw ->
  padding <> [] -> build_request_header t now padding = Ok (fixed, variable) ->
  parse_ss2022_request_header variable = Ok tw.
Proof.
  intros Hwf Hw Hp Hb. destruct (build_request_header_inv _ _ _ _ _ Hb) as (w & Hw' & Hl & -> & _).
  rewrite Hw in Hw'. apply Ok_inj in Hw' as <-.
  unfold parse_ss2022_request_header. rewrite <- (app_nil_r padding) at 2.
  rewrite (parse_request_variable_header_app t tw padding []) by done.
  rewrite (bool_decide_eq_false_2 (padding = [])) by done. cbn [andb map_err mbind result_bind].
  unfold encode_target_and_payload. cbn [target payload]. rewrite Hw. cbn. by rewrite app_nil_r.
Qed.

Section session.
Context (u : UserKey) (salt : bytes) (t : TargetAddr) (tw : bytes) (cnow : Z) (padding : bytes) (ops : list Op).
Hypothesis Hsalt : length salt = 32%nat.
Hypothesis Hwf : wf_target t.
Hypothesis Htw : to_wire_bytes t = Ok tw.
Hypothesis Hnow : (0 <= cnow < 2 ^ 64)%Z.
Hypothesis Hpad : padding <> [] /\ (length padding <= SS2022_MAX_PADDING_LEN)%nat.
Hypothesis Hblocks : 2 * zlen (session_records (cipher u) tw ops) <= MAX_NONCE_COUNTER.
Hypothesis Hbytes : zlen (concat (map op_data ops)) < 2 ^ 60.

Lemma session_uplink : exists k w, client_session (cipher u) (master_key u) salt cnow padding tw ops = Ok w
  /\ uplink seal hkdf_sha1 blake3_derive_xof u cnow k (concat (w_frames w)) (session_records (cipher u) tw ops).
Proof.
  set (c := cipher u). set (s := take (salt_len c) salt).
  assert (Hs : length s = salt_len c) by (unfold s; rewrite length_take, Hsalt; by destruct c).
  destruct (session_keys_agree hkdf_sha1 blake3_derive_xof c (master_key u) s) as (k & Hk & Hkey & Hck).
  exists k. unfold client_session, writer_connect. fold s. rewrite Hck. cbn [mbind result_bind run_ops run_op].
  unfold session_records in Hblocks. rewrite zlen_cons in Hblocks. fold c in Hblocks.
  pose proof (zlen_nonneg (concat (map (op_records c) ops))) as Hnn.
  pose proof (target_wire_range t tw Hwf Htw) as Hr. unfold MAX_NONCE_COUNTER in Hblocks.
  assert (Hne : tw <> []) by (intros ->; change (0 < 0 <= 259) in Hr; lia).
  assert (Hch : chunks (max_payload_len c) tw = [tw])
    by (apply chunks_small; [done|unfold max_payload_len; destruct (is_ss2022 c); lia]).
  pose proof (session_records_max c ops) as Hmax.
  destruct (is_ss2022 c) eqn:Ess.
  - set (w0 := mkWriter c k (zeros 12) (Some salt) (Some (mkWriterState salt false)) []).
    destruct (send_request_header_ok seal open_ w0 (mkWriterState salt false) salt cnow padding t tw) as
      (fixed & variable & w1 & Hb & Hrun & Hc1 & Hk1 & Hn1 & Hp1 & (st & Hst & Hsent) & Hf1); try done; [apply Hpad|].
    unfold send_chunk. rewrite bool_decide_eq_false_2 by done. cbn [header_pending w_ss2022 w0 header_sent negb].
    rewrite Hrun. cbn [andthen].
    assert (Ho1 : opened w1) by (unfold opened; by rewrite Hst, Hc1).
    destruct (run_ops_sent ops w1 2 cnow padding) as (w2 & -> & Hs2); rewrite ?Hk1, ?Hc1; try done; [cbn; lia|lia|].
    exists w2. split; [done|]. apply sent_wire in Hs2. rewrite Hc1, Hk1, Hf1 in Hs2.
    unfold salt_prefix in Hs2. rewrite Hp1 in Hs2. cbn in Hs2.
    destruct (validate_built_header t cnow cnow padding fixed variable Hwf Hnow ltac:(unfold fresh; lia) Hb)
      as (Hv & Hf & _).
    apply (up_ss2022 _ _ _ _ _ _ _ s fixed variable); try done.
    + unfold zlen. by rewrite Hf.
    + intros now Hfr. by apply (validate_built_header t cnow now padding).
    + apply (request_header_init t tw cnow padding fixed); (done || apply Hpad).
    + rewrite Hs2. rewrite app_nil_r. fold s. rewrite <- !app_assoc. do 3 f_equal. by case_match.
    + unfold MAX_NONCE_COUNTER. lia.
    + eapply Forall_impl; [apply Hmax|]. cbn. unfold max_payload_len. rewrite Ess. done.
  - set (w0 := mkWriter c k (zeros 12) (Some salt) None []).
    destruct (run_ops_sent (SendChunk tw :: ops) w0 0 cnow padding) as (w2 & Hrun & Hs2); try done.
    { change (w_cipher w0) with c. cbn [map concat op_records op_data]. rewrite Hch, zlen_app. change (zlen [tw]) with 1. lia. }
    { cbn [map concat op_data]. rewrite (zlen_app tw). lia. }
    cbn [run_ops run_op] in Hrun. rewrite Hrun. exists w2. split; [done|].
    apply sent_wire in Hs2. cbn [map concat op_records op_data w_cipher w0 w_frames w_key app] in Hs2.
    rewrite Hch in Hs2. apply (up_legacy _ _ _ _ _ _ _ s); try done.
    { rewrite zlen_cons. unfold MAX_NONCE_COUNTER. lia. }
    constructor; [unfold LEGACY_MAX_CHUNK_SIZE; lia|].
    eapply Forall_impl; [apply Hmax|]. cbn. unfold max_payload_len. rewrite Ess. done.
Qed.
End session.

Lemma uplink_long u cnow k wire ps : uplink seal hkdf_sha1 blake3_derive_xof u cnow k wire ps ->
  handshake_len u <= zlen wire.
Proof.
  unfold handshake_len. destruct 1 as [salt p ps Hss Hs _ Hk -> _ Hp|salt fixed variable init ps Hss Hs _ Hk Hf Hv _ _ -> _ _];
    rewrite Hss, !zlen_app; unfold zlen at 1; rewrite Hs.
  - cbn [StreamWire.records]. unfold record_bytes. rewrite !zlen_app.
    destruct (sealed_ok seal open_ k 0 (be_bytes 2 (zlen p)) Hk eq_refl) as (_ & -> & _).
    change (zlen (be_bytes 2 (zlen p))) with 2. unfold TAG_LEN.
    pose proof (zlen_nonneg (sealed k (0 + 1) p)). pose proof (zlen_nonneg (records k (0 + 2) ps)). lia.
  - destruct (sealed_ok seal open_ k 0 fixed Hk ltac:(rewrite Hf; done)) as (_ & -> & _). rewrite Hf.
    change SS2022_REQUEST_FIXED_CIPHERTEXT_LEN with (Z.of_nat SS2022_REQUEST_FIXED_HEADER_LEN + 16).
    pose proof (zlen_nonneg (sealed k 1 variable)). pose proof (zlen_nonneg (records k 2 ps)). lia.
Qed.
End client.

(** ** Properties *)

(** C3: the uplink is exact. A session that opens with its target's address and
    goes on with any sequence of sends, batches and keepalives always succeeds;
    and a server that knows the user, whatever its hint, reads those bytes from
    what was sent, however the network cuts it: no read fails, what is given
    out is always a prefix of the address and the payloads, and once all of the
    wire was fed it is all of them, from that user. It is assumed that no other
    user's key opens the first block, that none needs fewer bytes to be tried,
    that an SS2022 clock is within its window, and that the session stays below
    the server's limit of blocks. *)
Theorem uplink_exact seal open_ hkdf_sha1 blake3_derive_xof
    (AL : AeadLaws seal open_) (KL : KdfLaws hkdf_sha1 blake3_derive_xof)
    (us : list UserKey) (i : nat) (u : UserKey) (hint : option nat) (salt tw padding : bytes) (t : TargetAddr)
    (cnow : Z) (ops : list Op) :
  us !! i = Some u -> length salt = 32%nat -> wf_target t -> to_wire_bytes t = Ok tw ->
  0 <= cnow < 2 ^ 64 -> padding <> [] /\ (length padding <= SS2022_MAX_PADDING_LEN)%nat ->
  2 * zlen (session_records (cipher u) tw ops) <= MAX_NONCE_COUNTER -> zlen (concat (map op_data ops)) < 2 ^ 60 ->
  (forall j u', us !! j = Some u' -> handshake_len u <= handshake_len u') ->
  exists w, client_session seal hkdf_sha1 blake3_derive_xof (cipher u) (master_key u) salt cnow padding tw ops = Ok w /\
  let wire := concat (w_frames w) in
  ((forall j u', us !! j = Some u' -> j <> i -> foreign open_ hkdf_sha1 blake3_derive_xof wire u') ->
   forall pieces, concat pieces.*1 `prefix_of` wire -> Forall (fresh cnow) pieces.*2 ->
   exists d out, server_run open_ hkdf_sha1 blake3_derive_xof (set_user_hint (decryptor_new us) hint) pieces []
       = Some (d, out, Ok tt)
     /\ out `prefix_of` tw ++ concat (map op_data ops)
     /\ (concat pieces.*1 = wire -> out = tw ++ concat (map op_data ops)
         /\ exists a, active d = Some a /\ user a = u)).
Proof.
  intros Hu Hsalt Hwf Htw Hnow Hpad Hblocks Hbytes Hleast.
  destruct (session_uplink seal open_ hkdf_sha1 blake3_derive_xof u salt t tw cnow padding ops) as (k & w & -> & Hup);
    try done.
  exists w. split; [done|]. intros wire Hforeign pieces Hp Hfr.
  pose proof (uplink_long seal open_ _ _ _ _ _ _ _ Hup) as Hlong. fold wire in Hup, Hlong.
  assert (H0 : tracking seal us i u k wire (session_records (cipher u) tw ops)
      (set_user_hint (decryptor_new us) hint) [] []).
  { split; [done|apply prefix_nil|]. cbn. split_and!; try done. unfold handshake_len, zlen.
    change SS2022_REQUEST_FIXED_CIPHERTEXT_LEN with 27. unfold TAG_LEN. cbn. destruct (is_ss2022 (cipher u)); lia. }
  destruct (server_run_ok seal open_ hkdf_sha1 blake3_derive_xof us i u cnow k wire _ Hu Hup Hforeign Hleast
    pieces _ [] [] H0 Hp Hfr) as (d & out & -> & Ht).
  exists d, out. split; [done|]. rewrite <- (session_records_data (cipher u)). cbn [app] in Ht.
  destruct (tracking_output seal us i u k wire _ _ _ _ Ht) as [Hpre Hall].
  split; [done|]. intros He. by apply Hall.
Qed.

(** Two users of different suites, the second one's session cut in the middle of
    blocks. *)
Definition sample_user : UserKey := mkUser (str "b") Aes128Gcm2022 (replicate 16 x42) None.
Definition sample_users : list UserKey := [mkUser (str "a") Chacha20IetfPoly1305 (replicate 32 x41) None; sample_user].
Definition sample_tw : bytes := x03 :: x02 :: str "ab" ++ be_bytes 2 443.
Definition sample_ops : list Op := [SendChunk (str "hello"); SendKeepalive; SendChunks [str "wor"; []; str "ld"]].
Definition sample_wire : bytes :=
  match client_session toy_seal toy_hkdf toy_blake3 (cipher sample_user) (master_key sample_user)
          (replicate 32 x07) 1000 [x00] sample_tw sample_ops with
  | Ok w => concat (w_frames w)
  | Err _ => []
  end.
Definition sample_pieces : list (bytes * Z) :=
  [(take 20 sample_wire, 1001); (take 60 (drop 20 sample_wire), 1002); (drop 80 sample_wire, 1003)].

Lemma uplink_exact_witness : exists d,
  server_run toy_open toy_hkdf toy_blake3 (set_user_hint (decryptor_new sample_users) (Some 0%nat)) sample_pieces []
  = Some (d, sample_tw ++ str "helloworld", Ok tt).
Proof.
  destruct (uplink_exact toy_seal toy_open toy_hkdf toy_blake3 toy_aead toy_kdf sample_users 1
    sample_user (Some 0%nat) (replicate 32 x07) sample_tw [x00] (Domain (str "ab") 443) 1000 sample_ops)
    as (w & Hw & H);
    [done|done|split; vm_compute; done|done|done|split; [done|vm_compute; lia]|vm_compute; done|done| |].
  { intros j u' Hj. do 2 (destruct j as [|j]; [injection Hj as <-; done|]). done. }
  assert (He : concat (w_frames w) = sample_wire) by (unfold sample_wire; by rewrite Hw).
  cbn zeta in H. rewrite He in H.
  destruct (H) with (pieces := sample_pieces) as (d & out & Hrun & _ & Hall).
  - intros j u' Hj Hne k Hk. destruct j as [|[|j]]; [|by destruct Hne|discriminate Hj]. injection Hj as <-.
    vm_compute in Hk. injection Hk as <-. vm_compute. reflexivity.
  - replace (concat sample_pieces.*1) with sample_wire by (vm_compute; reflexivity). done.
  - repeat constructor; vm_compute; done.
  - exists d. rewrite Hrun. destruct Hall as [-> _]; [vm_compute; reflexivity|done].
Defined.

(** The batched writer is the plain one: for an open stream, a batch of chunks
    puts on the wire exactly the bytes that one send of their concatenation
    does, and leaves the same nonce and salt behind, whatever the sizes of the
    chunks; only the cut into frames differs. *)
Theorem batch_is_one_chunk seal open_ (AL : AeadLaws seal open_) (w : TcpShadowsocksWriter) (n now : Z)
    (padding : bytes) (data : list bytes) :
  opened w -> key_ok (w_key w) -> w_nonce w = nonce_of n -> 0 <= n -> n + 2 * (zlen (concat data) + 2) < 2 ^ 62 ->
  exists w1 w2, send_chunks seal w now padding data = (w1, Ok tt)
    /\ send_chunk seal w now padding (concat data) = (w2, Ok tt)
    /\ concat (w_frames w1) = concat (w_frames w2) /\ w_nonce w1 = w_nonce w2 /\ pending_salt w1 = pending_salt w2.
Proof.
  intros Ho Hk Hw Hn Hb. unfold send_chunks. rewrite opened_pending by done.
  destruct (send_data_sent seal open_ w n data) as (w1 & Hr1 & Hs1); try done.
  destruct (send_chunk_sent seal open_ w n now padding (concat data)) as (w2 & Hr2 & Hs2); try done;
    [by apply opened_pending|lia|].
  exists w1, w2. split_and!; try done.
  - apply sent_wire in Hs1, Hs2. by rewrite Hs1, Hs2.
  - by rewrite (se_nonce _ _ _ _ _ _ _ Hs1), (se_nonce _ _ _ _ _ _ _ Hs2).
  - by rewrite (se_salt _ _ _ _ _ _ _ Hs1), (se_salt _ _ _ _ _ _ _ Hs2).
Qed.

Lemma batch_is_one_chunk_witness :
  let w := mkWriter Aes128Gcm (AES_128_GCM, replicate 16 x42) (zeros 12) (Some (replicate 32 x07)) None [] in
  exists w1 w2, send_chunks toy_seal w 0 [] [str "ab"; []; str "c"] = (w1, Ok tt)
    /\ send_chunk toy_seal w 0 [] (str "abc") = (w2, Ok tt) /\ concat (w_frames w1) = concat (w_frames w2).
Proof.
  intros w. destruct (batch_is_one_chunk toy_seal toy_open toy_aead w 0 0 [] [str "ab"; []; str "c"])
    as (w1 & w2 & H1 & H2 & H3 & _); [done..|]. by exists w1, w2.
Defined.

(** The scan gives up too early when the users' suites need different lengths:
    with an AES-128 user before an AES-256 one, the latter's stream is refused
    if its first piece is long enough to try the one and not the other. *)
Definition mixed_users : list UserKey :=
  [mkUser (str "a") Aes128Gcm (replicate 16 x41) None; mkUser (str "b") Aes256Gcm (replicate 32 x42) None].
Definition mixed_wire : bytes :=
  match client_session toy_seal toy_hkdf toy_blake3 Aes256Gcm (replicate 32 x42) (replicate 32 x07) 1000 [x00]
          sample_tw [] with
  | Ok w => concat (w_frames w)
  | Err _ => []
  end.
Definition run_result (pieces : list bytes) : option (bytes * result CryptoError unit) :=
  '(_, out, r) ← server_run toy_open toy_hkdf toy_blake3 (decryptor_new mixed_users)
     (map (fun p => (p, 1000)) pieces) []; Some (out, r).
Example early_unknown_user :
  run_result [take 40 mixed_wire; drop 40 mixed_wire] = Some ([], Err UnknownUser) /\
  run_result [mixed_wire] = Some (sample_tw, Ok tt).
Proof. split; vm_compute; reflexivity. Qed.
