(* ===== verification/StreamReader.v ===== *)
(** The client's reader on a server's stream: it takes the records out of
    WebSocket messages however they are cut, and what a stream that ends early
    still gives. The state between two reads is the relation [pulls]. *)
From S2P Require Import Prelude Target Cipher Ss2022 Padding Resume StreamCrypto StreamClient StreamWire StreamServer.
Local Open Scope Z_scope.

(** ** The transport *)

(** The messages carry the bytes [w] and then end. *)
Inductive delivers : list Item -> bytes -> Prop :=
  | dl_end : delivers [] []
  | dl_close code rest : code <> Some CLOSE_AGAIN -> delivers (Received (Close code) :: rest) []
  | dl_binary b s w : delivers s w -> delivers (Received (Binary b) :: s) (b ++ w)
  | dl_other m s w : m = Ping \/ m = Pong \/ m = RawFrame -> delivers s w -> delivers (Received m :: s) w.

Lemma read_exact_enough s w : delivers s w -> forall buffer len clean, 0 <= len <= zlen (buffer ++ w) ->
  exists s' w' buffer', read_exact_from s buffer None len clean = (s', buffer', None, clean, Ok (take (Z.to_nat len) (buffer ++ w)))
    /\ delivers s' w' /\ buffer' ++ w' = drop (Z.to_nat len) (buffer ++ w).
Proof.
  induction 1 as [|code rest Hc|b s w Hd IH|m s w Hm Hd IH]; intros buffer len clean Hl;
    cbn [read_exact_from]; destruct (Z.leb_spec len (zlen buffer)) as [He|He].
  1,3,5,7: unfold split_to, zlen in *; do 3 eexists; (split; [by rewrite take_app_le by lia|]);
    (split; [by econstructor|]); by rewrite drop_app_le by lia.
  - rewrite app_nil_r in Hl. lia.
  - rewrite app_nil_r in Hl. lia.
  - rewrite app_assoc. by apply IH; rewrite <- app_assoc.
  - destruct Hm as [->|[->| ->]]; by apply IH.
Qed.
Lemma read_exact_short s w : delivers s w -> forall buffer len clean, zlen (buffer ++ w) < len ->
  exists s' buffer', read_exact_from s buffer None len clean = (s', buffer', None, true, Err WsClosed).
Proof.
  induction 1 as [|code rest Hc|b s w Hd IH|m s w Hm Hd IH]; intros buffer len clean Hl;
    cbn [read_exact_from]; rewrite zlen_app in Hl.
  - destruct (Z.leb_spec len (zlen buffer)); [change (zlen []) with 0 in Hl; lia|]. eauto.
  - destruct (Z.leb_spec len (zlen buffer)); [change (zlen []) with 0 in Hl; lia|].
    rewrite bool_decide_eq_false_2 by done. eauto.
  - rewrite zlen_app in Hl. pose proof (zlen_nonneg b). pose proof (zlen_nonneg w).
    destruct (Z.leb_spec len (zlen buffer)); [lia|]. apply IH. rewrite !zlen_app. lia.
  - pose proof (zlen_nonneg w). destruct (Z.leb_spec len (zlen buffer)); [lia|].
    destruct Hm as [->|[->| ->]]; apply IH; rewrite zlen_app; lia.
Qed.

(** The reader can still read [got] before its stream ends. *)
Definition holds (r : TcpShadowsocksReader) (got : bytes) : Prop :=
  r_padding r = None /\ exists w, delivers (r_stream r) w /\ got = r_buffer r ++ w.
(** [r'] is [r] further down its stream. *)
Definition moved (r r' : TcpShadowsocksReader) : Prop :=
  exists s b, r' = r_set_io r s b None (closed_cleanly r).

Lemma read_exact_cases r got len : holds r got -> 0 <= len ->
  (exists r', read_exact r len = (r', Ok (take (Z.to_nat len) got)) /\ moved r r' /\ len <= zlen got
     /\ holds r' (drop (Z.to_nat len) got))
  \/ (exists r', read_exact r len = (r', Err WsClosed) /\ closed_cleanly r' = true /\ zlen got < len).
Proof.
  intros (Hp & w & Hd & ->) Hl. unfold read_exact. rewrite Hp.
  destruct (Z.le_gt_cases len (zlen (r_buffer r ++ w))) as [He|He]; [left|right].
  - destruct (read_exact_enough _ _ Hd (r_buffer r) len (closed_cleanly r) ltac:(lia)) as (s' & w' & b' & -> & Hd' & Hb).
    eexists. split; [done|]. split; [by do 2 eexists|]. split; [done|]. split; [done|]. by exists w'.
  - destruct (read_exact_short _ _ Hd (r_buffer r) len (closed_cleanly r) ltac:(lia)) as (s' & b' & ->).
    eexists. by split_and!.
Qed.

Section reader.
Context (seal open_ : AeadKey -> bytes -> bytes -> option bytes) `{AL : !AeadLaws seal open_}.
Context (hkdf_sha1 : bytes -> bytes -> bytes -> nat -> option bytes)
  (blake3_derive_xof : bytes -> bytes -> nat -> bytes) `{KL : !KdfLaws hkdf_sha1 blake3_derive_xof}.
Abbreviation sealed := (sealed seal).
Abbreviation records := (records seal).
Abbreviation read_one := (read_one_decrypted_chunk open_ hkdf_sha1 blake3_derive_xof).

(** The stream ended before [wire] was whole. *)
Definition cut_short {A} (p : TcpShadowsocksReader * result TransportError A) (got wire : bytes) : Prop :=
  p.2 = Err WsClosed /\ closed_cleanly p.1 = true /\ got <> wire.

(** [r'] is [r] further on in its session; what it expects of a resumption is
    the same. *)
Record onward (r r' : TcpShadowsocksReader) : Prop := {
  on_cipher : r_cipher r' = r_cipher r;
  on_master : r_master_key r' = r_master_key r;
  on_clean : closed_cleanly r' = closed_cleanly r;
  on_expect : expect_ack_prefix r' = expect_ack_prefix r;
  on_acked : up_acked r' = up_acked r;
  on_tail : pending_tail r' = pending_tail r;
  on_replay : expect_downlink_replay r' = expect_downlink_replay r
}.
Lemma onward_trans r1 r2 r3 : onward r1 r2 -> onward r2 r3 -> onward r1 r3.
Proof. intros [] []. split; congruence. Qed.

(** Block [n] opened: the reader past it. *)
Definition opened_block (r r' : TcpShadowsocksReader) (n : Z) : Prop :=
  onward r r' /\ cipher_state r' = cipher_state r /\ r_nonce r' = nonce_of (n + 1) /\ r_ss2022 r' = r_ss2022 r.

Lemma read_sealed_ok r k n p got rest : key_ok k -> cipher_state r = Some k -> r_nonce r = nonce_of n ->
  0 <= n < 2 ^ 62 -> zlen p < 2 ^ 20 -> holds r got -> got `prefix_of` sealed k n p ++ rest ->
  (exists r' got', read_sealed open_ r (zlen p + 16) = (r', Ok p) /\ opened_block r r' n /\ holds r' got'
     /\ got = sealed k n p ++ got' /\ got' `prefix_of` rest)
  \/ cut_short (read_sealed open_ r (zlen p + 16)) got (sealed k n p ++ rest).
Proof.
  intros Hk Hc Hn Hr Hp Hg Hpre. pose proof (zlen_nonneg p).
  destruct (sealed_ok seal open_ k n p Hk Hp) as (_ & Hl & Ho). unfold read_sealed.
  destruct (read_exact_cases r got (zlen p + 16) Hg ltac:(lia))
    as [(r1 & -> & (s & b & ->) & He & Hg1)|(r1 & -> & Hcl & He)]; [left|right].
  - unfold zlen in Hl, He.
    destruct (prefix_take_app _ _ _ (Z.to_nat (zlen p + 16)) Hpre) as (Ht & Hd & Heq); [unfold zlen; lia..|].
    rewrite Ht. cbn [andthen]. unfold decrypt_next. cbn [cipher_state r_set_io r_nonce]. rewrite Hc, Hn.
    unfold SHADOWSOCKS_TAG_LEN. destruct (Z.ltb_spec (zlen (sealed k n p)) 16); [unfold zlen in *; lia|].
    rewrite Ho, increment_nonce_of by lia. do 2 eexists. split; [reflexivity|]. split; [by split; [split|]|].
    split; [|by split]. destruct Hg1 as (_ & w & Hd1 & Hw). split; [done|]. by exists w.
  - split; [done|]. split; [done|]. intros ->. rewrite zlen_app in He. pose proof (zlen_nonneg rest). lia.
Qed.

(** ** What a reader has still to pull *)

(** The payloads that [wire] has for the reader, of a server whose response
    header was built at clock [cnow]. *)
Inductive pulls (cnow : Z) (k : AeadKey) (r : TcpShadowsocksReader) : list bytes -> bytes -> Prop :=
  | pl_open n ps : cipher_state r = Some k -> r_nonce r = nonce_of n -> 0 <= n ->
      n + 2 * zlen ps < 2 ^ 40 -> match r_ss2022 r with Some s => response_header_read s = true | None => True end ->
      Forall (fun p => zlen p <= max_payload_len (r_cipher r)) ps ->
      pulls cnow k r ps (records k n ps)
  | pl_legacy salt ps : cipher_state r = None -> r_nonce r = nonce_of 0 -> 2 * zlen ps < 2 ^ 40 ->
      r_ss2022 r = None -> length salt = salt_len (r_cipher r) ->
      client_key hkdf_sha1 blake3_derive_xof (r_cipher r) (take (key_len (r_cipher r)) (r_master_key r)) salt = Ok k ->
      Forall (fun p => zlen p <= max_payload_len (r_cipher r)) ps ->
      pulls cnow k r ps (salt ++ records k 0 ps)
  | pl_ss2022 salt request_salt header p ps : cipher_state r = None -> r_nonce r = nonce_of 0 ->
      2 + 2 * zlen ps < 2 ^ 40 -> r_ss2022 r = Some (mkReaderState request_salt false) ->
      length salt = salt_len (r_cipher r) ->
      client_key hkdf_sha1 blake3_derive_xof (r_cipher r) (take (key_len (r_cipher r)) (r_master_key r)) salt = Ok k ->
      zlen header = 1 + 8 + Z.of_nat (salt_len (r_cipher r)) + 2 -> zlen p < 2 ^ 16 ->
      (forall now, fresh cnow now ->
        parse_response_header (r_cipher r) (take (salt_len (r_cipher r)) request_salt) header now = Ok (length p)) ->
      Forall (fun p => zlen p <= max_payload_len (r_cipher r)) ps ->
      pulls cnow k r (if bool_decide (p = []) then ps else p :: ps)
        (salt ++ sealed k 0 header ++ sealed k 1 p ++ records k 2 ps).

Lemma read_record_ok r k n p ps got : key_ok k -> cipher_state r = Some k -> r_nonce r = nonce_of n ->
  0 <= n -> n + 2 < 2 ^ 62 -> zlen p <= max_payload_len (r_cipher r) -> holds r got ->
  got `prefix_of` record_bytes seal k n p ++ records k (n + 2) ps ->
  (exists r' got', read_record open_ r = (r', Ok p) /\ onward r r' /\ cipher_state r' = Some k
     /\ r_nonce r' = nonce_of (n + 2) /\ r_ss2022 r' = r_ss2022 r /\ holds r' got'
     /\ got = record_bytes seal k n p ++ got' /\ got' `prefix_of` records k (n + 2) ps)
  \/ cut_short (read_record open_ r) got (record_bytes seal k n p ++ records k (n + 2) ps).
Proof.
  intros Hk Hc Hn H0 Hr Hp Hg Hpre. unfold record_bytes in *. rewrite <- app_assoc in *.
  pose proof (max_payload_range (r_cipher r)). pose proof (zlen_nonneg p). unfold read_record.
  change (2 + SHADOWSOCKS_TAG_LEN) with (zlen (be_bytes 2 (zlen p)) + 16).
  destruct (read_sealed_ok r k n (be_bytes 2 (zlen p)) got _ Hk Hc Hn ltac:(lia) eq_refl Hg Hpre)
    as [(r1 & g1 & -> & (Ho1 & Hc1 & Hn1 & Hs1) & Hg1 & -> & Hpre1)|Hcut].
  2:{ right. destruct (read_sealed open_ r _) as [r1 res]. destruct Hcut as (Hres & Hcl & Hne).
    cbn in Hres, Hcl. subst res. by split_and!. }
  cbn [andthen]. replace (zlen (be_bytes 2 (zlen p)) =? 2) with true by done. cbn [negb].
  rewrite be_val_be_bytes_small by (cbn; lia). rewrite (on_cipher _ _ Ho1).
  destruct (Z.ltb_spec (max_payload_len (r_cipher r)) (zlen p)); [lia|].
  unfold SHADOWSOCKS_TAG_LEN.
  destruct (read_sealed_ok r1 k (n + 1) p g1 _ Hk ltac:(congruence) Hn1 ltac:(lia) ltac:(lia) Hg1 Hpre1)
    as [(r2 & g2 & -> & (Ho2 & Hc2 & Hn2 & Hs2) & Hg2 & -> & Hpre2)|Hcut]; [left|right].
  - exists r2, g2. rewrite app_assoc. split_and!; try done; try congruence; [by eapply onward_trans|].
    rewrite Hn2. f_equal. lia.
  - destruct Hcut as (Hres & Hcl & Hne). split_and!; try done. intros Heq. apply app_inv_head in Heq. done.
Qed.
(** One read: the next payload, or the end of a stream that has no more of it. *)
Definition read_next (cnow : Z) (k : AeadKey) (r : TcpShadowsocksReader) (ps : list bytes) (wire got : bytes)
    (res : TcpShadowsocksReader * result TransportError bytes) : Prop :=
  (exists p ps' r' used wire' got', ps = p :: ps' /\ res = (r', Ok p) /\ onward r r' /\ pulls cnow k r' ps' wire'
     /\ holds r' got' /\ got' `prefix_of` wire' /\ got = used ++ got' /\ wire = used ++ wire')
  \/ (exists r', res = (r', Err WsClosed) /\ closed_cleanly r' = true /\ (got = wire -> ps = [])).

Lemma read_next_skip cnow k r r1 ps skip wire got res : onward r r1 -> read_next cnow k r1 ps wire got res ->
  read_next cnow k r ps (skip ++ wire) (skip ++ got) res.
Proof.
  intros Ho [(p & ps' & r' & used & wire' & got' & -> & -> & Ho' & Hp & Hh & Hpre & -> & ->)|(r' & -> & Hcl & Hend)];
    [left|right].
  - exists p, ps', r', (skip ++ used), wire', got'. rewrite <- !app_assoc. split_and!; try done. by eapply onward_trans.
  - exists r'. split_and!; try done. intros Heq. apply app_inv_head in Heq. by apply Hend.
Qed.
(** The stream may end inside what comes first. *)
Lemma read_next_cut {A} cnow k r ps wire got (res : TcpShadowsocksReader * result TransportError A) f :
  cut_short res got wire -> read_next cnow k r ps wire got (andthen res f).
Proof.
  destruct res as [r' res]. intros (Hres & Hcl & Hne). cbn in Hres, Hcl. subst res. right. by exists r'.
Qed.

Lemma read_record_next cnow k r n ps got : key_ok k -> cipher_state r = Some k -> r_nonce r = nonce_of n -> 0 <= n ->
  n + 2 * zlen ps < 2 ^ 40 -> match r_ss2022 r with Some s => response_header_read s = true | None => True end ->
  Forall (fun p => zlen p <= max_payload_len (r_cipher r)) ps -> holds r got -> got `prefix_of` records k n ps ->
  read_next cnow k r ps (records k n ps) got (read_record open_ r).
Proof.
  intros Hk Hc Hn H0 Hb Hs Hmax Hg Hpre. destruct ps as [|p ps].
  - right. destruct Hpre as [l Hl]. symmetry in Hl. apply app_eq_nil in Hl as [-> _].
    unfold read_record, read_sealed.
    destruct (read_exact_cases r [] (2 + SHADOWSOCKS_TAG_LEN) Hg ltac:(done)) as [(r1 & _ & _ & He & _)|(r1 & -> & Hcl & _)].
    + change (18 <= 0) in He. lia.
    + exists r1. by split_and!.
  - rewrite zlen_cons in Hb. pose proof (zlen_nonneg ps). apply Forall_cons in Hmax as [Hp Hps].
    destruct (read_record_ok r k n p ps got Hk Hc Hn ltac:(lia) ltac:(lia) Hp Hg Hpre)
      as [(r' & got' & -> & Ho & Hc' & Hn' & Hs' & Hg' & -> & Hpre')|(Hres & Hcl & Hne)]; [left|right].
    + exists p, ps, r', (record_bytes seal k n p), (records k (n + 2) ps), got'. split_and!; try done.
      apply (pl_open cnow k r' (n + 2)); try done; try lia; [by rewrite Hs'|by rewrite (on_cipher _ _ Ho)].
    + destruct (read_record open_ r) as [r' res]. cbn in Hres, Hcl. subst res. by exists r'.
Qed.

Lemma read_cipher_ok r k salt got rest : cipher_state r = None -> length salt = salt_len (r_cipher r) ->
  client_key hkdf_sha1 blake3_derive_xof (r_cipher r) (take (key_len (r_cipher r)) (r_master_key r)) salt = Ok k ->
  holds r got -> got `prefix_of` salt ++ rest ->
  (exists r' got', read_cipher hkdf_sha1 blake3_derive_xof r = (r', Ok tt) /\ onward r r' /\ cipher_state r' = Some k
     /\ r_nonce r' = r_nonce r /\ r_ss2022 r' = r_ss2022 r /\ holds r' got' /\ got = salt ++ got' /\ got' `prefix_of` rest)
  \/ cut_short (read_cipher hkdf_sha1 blake3_derive_xof r) got (salt ++ rest).
Proof.
  intros Hc Hs Hkey Hg Hpre. unfold read_cipher. rewrite Hc, bool_decide_eq_false_2 by (by intros [? ?]).
  destruct (read_exact_cases r got (Z.of_nat (salt_len (r_cipher r))) Hg ltac:(lia))
    as [(r1 & -> & (s & b & ->) & He & Hg1)|(r1 & -> & Hcl & He)]; [left|right].
  - unfold zlen in He. rewrite Nat2Z.id in *.
    destruct (prefix_take_app _ _ _ (salt_len (r_cipher r)) Hpre Hs ltac:(lia)) as (Ht & Hd & Heq).
    rewrite Ht. cbn [andthen r_cipher r_master_key r_set_io]. rewrite Hkey.
    do 2 eexists. split; [reflexivity|]. split; [done|]. split; [done|]. split; [done|]. split; [done|].
    split; [|done]. destruct Hg1 as (_ & w & Hd1 & Hw). split; [done|]. by exists w.
  - split; [done|]. split; [done|]. intros ->. unfold zlen in He. rewrite length_app in He. lia.
Qed.

Lemma read_one_next cnow k r ps wire got now : key_ok k -> pulls cnow k r ps wire -> holds r got ->
  got `prefix_of` wire -> fresh cnow now -> read_next cnow k r ps wire got (read_one r now).
Proof.
  intros Hk Hp Hg Hpre Hfr. unfold read_one_decrypted_chunk.
  destruct Hp as [n ps Hc Hn H0 Hb Hs Hmax|salt ps Hc Hn Hb Hs Hsalt Hkey Hmax
    |salt rsalt header p ps Hc Hn Hb Hs Hsalt Hkey Hh Hp Hparse Hmax].
  - unfold read_cipher. rewrite Hc, bool_decide_eq_true_2 by eauto. cbn [andthen].
    assert (Hrh : read_response_header open_ r now = (r, Ok [])).
    { unfold read_response_header. destruct (r_ss2022 r) as [[? []]|]; done. }
    rewrite Hrh. cbn [andthen]. rewrite bool_decide_eq_true_2 by done. by apply read_record_next.
  - destruct (read_cipher_ok r k salt got _ Hc Hsalt Hkey Hg Hpre)
      as [(r1 & g1 & -> & Ho & Hc1 & Hn1 & Hs1 & Hg1 & -> & Hpre1)|Hcut]; [|by apply read_next_cut].
    cbn [andthen]. apply (read_next_skip _ _ _ r1); [done|].
    assert (Hrh : read_response_header open_ r1 now = (r1, Ok [])) by (unfold read_response_header; by rewrite Hs1, Hs).
    rewrite Hrh. cbn [andthen]. rewrite bool_decide_eq_true_2 by done.
    apply read_record_next; try done; [congruence|by rewrite Hs1, Hs|by rewrite (on_cipher _ _ Ho)].
  - destruct (read_cipher_ok r k salt got _ Hc Hsalt Hkey Hg Hpre)
      as [(r1 & g1 & -> & Ho & Hc1 & Hn1 & Hs1 & Hg1 & -> & Hpre1)|Hcut]; [|by apply read_next_cut].
    cbn [andthen]. apply (read_next_skip _ _ _ r1); [done|].
    unfold read_response_header. rewrite Hs1, Hs, (on_cipher _ _ Ho). rewrite Hn in Hn1.
    assert (Hh20 : zlen header < 2 ^ 20) by (rewrite Hh; destruct (r_cipher r); done).
    rewrite <- Hh. change SHADOWSOCKS_TAG_LEN with 16.
    destruct (read_sealed_ok r1 k 0 header g1 _ Hk Hc1 Hn1 ltac:(lia) Hh20 Hg1 Hpre1)
      as [(r2 & g2 & -> & (Ho2 & Hc2 & Hn2 & Hs2) & Hg2 & -> & Hpre2)|Hcut].
    2:{ destruct (read_sealed open_ r1 _) as [r2 res]. destruct Hcut as (Hres & Hcl & Hne).
        cbn in Hres, Hcl. subst res. right. by exists r2. }
    cbn [andthen]. rewrite (on_cipher _ _ Ho2), (on_cipher _ _ Ho), (Hparse now Hfr). cbn [map_err].
    change (Z.of_nat (length p)) with (zlen p). pose proof (zlen_nonneg ps).
    destruct (read_sealed_ok r2 k 1 p g2 _ Hk ltac:(congruence) Hn2 ltac:(lia) ltac:(lia) Hg2 Hpre2)
      as [(r3 & g3 & -> & (Ho3 & Hc3 & Hn3 & Hs3) & Hg3 & -> & Hpre3)|Hcut].
    2:{ destruct (read_sealed open_ r2 _) as [r3 res]. destruct Hcut as (Hres & Hcl & Hne).
        cbn in Hres, Hcl. subst res. right. exists r3. split_and!; try done. intros Heq.
        apply app_inv_head in Heq. done. }
    cbn [andthen]. set (r4 := r_set_session r3 (cipher_state r3) (r_nonce r3) (Some (mkReaderState rsalt true))).
    assert (Ho4 : onward r1 r4) by (eapply onward_trans; [apply Ho2|]; eapply onward_trans; [apply Ho3|by split]).
    rewrite app_assoc, (app_assoc (sealed k 0 header)).
    assert (Hc4 : cipher_state r4 = Some k) by (cbn; congruence).
    case_bool_decide as Hpe.
    + subst p. apply (read_next_skip _ _ _ r4); [done|]. apply read_record_next; try done.
      by rewrite (on_cipher _ _ Ho4), (on_cipher _ _ Ho).
    + left. exists p, ps, r4, (sealed k 0 header ++ sealed k 1 p), (records k 2 ps), g3. split_and!; try done.
      apply (pl_open cnow k r4 2); try done. by rewrite (on_cipher _ _ Ho4), (on_cipher _ _ Ho).
Qed.
End reader.
