(* ===== verification/StreamDown.v ===== *)
(** The downlink of the AEAD stream: the server's encryptor against the
    client's reader, with the resumption frames at the head of a resumed
    session. *)
From S2P Require Import Prelude Target Cipher Padding Resume Ss2022 StreamCrypto StreamClient StreamWire StreamServer StreamReader.
Local Open Scope Z_scope.

(** ** A server that sends *)
Section server.
Context (seal open_ : AeadKey -> bytes -> bytes -> option bytes) `{AL : !AeadLaws seal open_}.
Abbreviation sealed := (sealed seal).
Abbreviation records := (records seal).

Fixpoint server_send (m : StreamEncryptorMode) (l : list (bytes * Z)) (out : bytes)
    : StreamEncryptorMode * bytes * result CryptoError unit :=
  match l with
  | [] => (m, out, Ok tt)
  | (p, now) :: l =>
    let '(m, out, r) := encrypt_chunk seal m now p out in
    match r with Err e => (m, out, Err e) | Ok _ => server_send m l out end
  end.
(** The records of what is sent. *)
Definition down_records (c : CipherKind) (l : list bytes) : list bytes :=
  if is_ss2022 c then l else concat (map (chunks LEGACY_MAX_CHUNK_SIZE) l).
Lemma down_records_data c l : concat (down_records c l) = concat l.
Proof.
  unfold down_records. destruct (is_ss2022 c); [done|]. induction l as [|p l IH]; [done|].
  cbn [map concat]. by rewrite concat_app, IH, chunks_concat.
Qed.

Definition response_header (now : Z) (request_salt p : bytes) : bytes :=
  [SS2022_TCP_RESPONSE_TYPE] ++ be_bytes 8 now ++ request_salt ++ be_bytes 2 (zlen p).

Lemma send_legacy l k : forall n salt sent out, key_ok k -> 0 <= n ->
  n + 2 * zlen (concat (map (chunks LEGACY_MAX_CHUNK_SIZE) l.*1)) <= MAX_NONCE_COUNTER ->
  exists sent', server_send (EncLegacy k n salt sent) l out
  = (EncLegacy k (n + 2 * zlen (concat (map (chunks LEGACY_MAX_CHUNK_SIZE) l.*1))) salt sent',
     out ++ (match concat (map (chunks LEGACY_MAX_CHUNK_SIZE) l.*1) with [] => [] | _ => if sent then [] else salt end)
         ++ records k n (concat (map (chunks LEGACY_MAX_CHUNK_SIZE) l.*1)), Ok tt).
Proof.
  induction l as [|[p now] l IH]; intros n salt sent out Hk Hn Hb.
  { exists sent. cbn. by rewrite app_nil_r, Z.add_0_r. }
  cbn [fmap list_fmap map concat fst server_send encrypt_chunk] in *. rewrite zlen_app in *.
  pose proof (zlen_nonneg (chunks LEGACY_MAX_CHUNK_SIZE p)).
  pose proof (zlen_nonneg (concat (map (chunks LEGACY_MAX_CHUNK_SIZE) l.*1))).
  unfold encrypt_legacy_chunks. rewrite (encrypt_legacy_list_ok seal open_) by (done || lia || by apply chunks_bound).
  destruct (IH (n + 2 * zlen (chunks LEGACY_MAX_CHUNK_SIZE p)) salt
    (match chunks LEGACY_MAX_CHUNK_SIZE p with [] => sent | _ => true end)
    (out ++ (match chunks LEGACY_MAX_CHUNK_SIZE p with [] => [] | _ => if sent then [] else salt end)
       ++ records k n (chunks LEGACY_MAX_CHUNK_SIZE p))) as (sent' & ->); [done|lia|lia|].
  exists sent'. rewrite <- Z.add_assoc, <- Z.mul_add_distr_l, records_app, <- !app_assoc.
  destruct (chunks LEGACY_MAX_CHUNK_SIZE p); cbn [app]; [done|]. do 4 f_equal. by destruct (concat _).
Qed.
Lemma send_ss2022 l k : forall n salt rsalt out, key_ok k -> 0 <= n -> n + 2 * zlen l <= MAX_NONCE_COUNTER ->
  Forall (fun p => zlen p <= MAX_CHUNK_SIZE) l.*1 ->
  server_send (EncSs2022 k n salt true rsalt) l out
  = (EncSs2022 k (n + 2 * zlen l) salt true rsalt, out ++ records k n l.*1, Ok tt).
Proof.
  induction l as [|[p now] l IH]; intros n salt rsalt out Hk Hn Hb Hp.
  { cbn. by rewrite app_nil_r, Z.add_0_r. }
  cbn [fmap list_fmap fst] in Hp. apply Forall_cons in Hp as [Hp Hps].
  rewrite zlen_cons in Hb. pose proof (zlen_nonneg l). unfold MAX_CHUNK_SIZE in Hp.
  cbn [server_send encrypt_chunk]. unfold encrypt_ss2022_chunk, MAX_CHUNK_SIZE.
  destruct (Z.ltb_spec 0xffff (zlen p)); [lia|]. cbn [negb].
  rewrite (seal_two_ok seal open_) by (done || lia). rewrite IH by (done || lia). rewrite zlen_cons.
  cbn [fmap list_fmap fst StreamWire.records]. unfold record_bytes. rewrite <- !app_assoc.
  by replace (n + 2 + 2 * zlen l) with (n + 2 * (1 + zlen l)) by lia.
Qed.
Lemma send_ss2022_first l k p now salt rsalt : key_ok k -> 2 + 2 * zlen l <= MAX_NONCE_COUNTER ->
  zlen p <= MAX_CHUNK_SIZE -> zlen rsalt <= 32 -> Forall (fun p => zlen p <= MAX_CHUNK_SIZE) l.*1 ->
  server_send (EncSs2022 k 0 salt false rsalt) ((p, now) :: l) []
  = (EncSs2022 k (2 + 2 * zlen l) salt true rsalt,
     salt ++ sealed k 0 (response_header now rsalt p) ++ sealed k 1 p ++ records k 2 l.*1, Ok tt).
Proof.
  intros Hk Hb Hp Hr Hps. pose proof (zlen_nonneg l). unfold MAX_CHUNK_SIZE in Hp.
  cbn [server_send encrypt_chunk]. unfold encrypt_ss2022_chunk, MAX_CHUNK_SIZE.
  destruct (Z.ltb_spec 0xffff (zlen p)); [lia|]. cbn [negb]. fold (response_header now rsalt p).
  assert (Hh : zlen (response_header now rsalt p) < 2 ^ 20).
  { unfold response_header. rewrite !zlen_app. unfold zlen at 1 2 4. rewrite !be_bytes_length. cbn [length]. lia. }
  rewrite (seal_two_ok seal open_) by (done || lia). rewrite send_ss2022 by (done || lia).
  cbn [app]. by rewrite <- !app_assoc.
Qed.
End server.

(** ** A client that reads to the end *)
Section client.
Context (seal open_ : AeadKey -> bytes -> bytes -> option bytes) `{AL : !AeadLaws seal open_}.
Context (hkdf_sha1 : bytes -> bytes -> bytes -> nat -> option bytes)
  (blake3_derive_xof : bytes -> bytes -> nat -> bytes) `{KL : !KdfLaws hkdf_sha1 blake3_derive_xof}.
Abbreviation read_chunk := (read_chunk open_ hkdf_sha1 blake3_derive_xof).
Abbreviation pulls := (pulls seal hkdf_sha1 blake3_derive_xof).

Fixpoint read_all (fuel : nat) (r : TcpShadowsocksReader) (now : Z) (acc : list bytes)
    : option (TcpShadowsocksReader * list bytes * TransportError) :=
  match fuel with
  | O => None
  | S fuel =>
    match read_chunk r now with
    | (r, Ok p) => read_all fuel r now (acc ++ [p])
    | (r, Err e) => Some (r, acc, e)
    end
  end.
Lemma read_all_ok k cnow now ps : forall fuel r wire got acc, key_ok k -> fresh cnow now ->
  expect_ack_prefix r = false -> pending_tail r = None -> (length ps < fuel)%nat ->
  pulls cnow k r ps wire -> holds r got -> got `prefix_of` wire ->
  exists r' fin rest, read_all fuel r now acc = Some (r', acc ++ fin, WsClosed) /\ ps = fin ++ rest
    /\ closed_cleanly r' = true /\ (got = wire -> rest = []).
Proof.
  induction ps as [|p0 ps IH]; intros fuel r wire got acc Hk Hfr He Ht Hf Hp Hh Hpre;
    (destruct fuel as [|fuel]; [simpl in Hf; lia|]); cbn [read_all]; unfold StreamClient.read_chunk; rewrite Ht;
    destruct (read_one_next seal open_ hkdf_sha1 blake3_derive_xof cnow k r _ wire got now Hk Hp Hh Hpre Hfr)
      as [(p & ps' & r' & used & wire' & got' & Hps & -> & Ho & Hp' & Hh' & Hpre' & -> & ->)|(r' & -> & Hcl & Hend)];
    try done; cbn [andthen].
  - exists r', [], []. by rewrite app_nil_r.
  - injection Hps as <- <-. rewrite (on_expect _ _ Ho), He.
    destruct (IH fuel r' wire' got' (acc ++ [p0])) as (r2 & fin & rest & Hrun & -> & Hcl & Hend); try done.
    { by rewrite (on_expect _ _ Ho). }
    { by rewrite (on_tail _ _ Ho). }
    { simpl in Hf. lia. }
    exists r2, (p0 :: fin), rest. rewrite <- app_assoc in Hrun. split_and!; try done.
    intros Heq. apply app_inv_head in Heq. by apply Hend.
  - exists r', [], (p0 :: ps). rewrite app_nil_r. split_and!; try done.
Qed.

(** A fresh reader of the client that drew [csalt]. *)
Definition fresh_reader (stream : list Item) (c : CipherKind) (master_key csalt : bytes) : TcpShadowsocksReader :=
  with_request_salt (reader_new stream false c master_key) (if is_ss2022 c then Some csalt else None).
Abbreviation encryptor_new := (encryptor_new hkdf_sha1 blake3_derive_xof).

Lemma fresh_holds stream c mk csalt got : delivers stream got -> holds (fresh_reader stream c mk csalt) got.
Proof. intros H. split; [done|]. by exists got. Qed.

Section session.
Context (u : UserKey) (csalt salt : bytes) (l : list (bytes * Z)) (snow : Z).
Hypothesis Hmaster : length (master_key u) = key_len (cipher u).
Hypothesis Hcsalt : length csalt = 32%nat.
Hypothesis Hsalt : length salt = salt_len (cipher u).
Hypothesis Hblocks : 2 + 2 * zlen (down_records (cipher u) l.*1) <= MAX_NONCE_COUNTER.
Hypothesis Hfirst : exists p, l !! 0%nat = Some (p, snow).
Hypothesis Hclock : 0 <= snow < 2 ^ 64.
Hypothesis Hsize : is_ss2022 (cipher u) = true -> Forall (fun p => zlen p <= MAX_CHUNK_SIZE) l.*1.

(** What the server sends is what a fresh reader pulls. *)
Lemma downlink_pulls : exists m0 m' k wire pwire ps,
  encryptor_new u (Some (take (salt_len (cipher u)) csalt)) salt = Ok m0
  /\ server_send seal m0 l [] = (m', wire, Ok tt) /\ key_ok k
  /\ (forall stream, pulls snow k (fresh_reader stream (cipher u) (master_key u) csalt) ps pwire)
  /\ wire `prefix_of` pwire /\ (wire = pwire \/ ps = []) /\ concat ps = concat l.*1
  /\ (length ps <= length (down_records (cipher u) l.*1))%nat
  /\ (Forall (fun p => p <> []) l.*1 -> Forall (fun p => p <> []) ps
      /\ exists p p1 ps', l !! 0%nat = Some (p, snow) /\ ps = p1 :: ps' /\ p1 = take (length p1) p
          /\ (Nat.min (length p) (Z.to_nat LEGACY_MAX_CHUNK_SIZE) <= length p1)%nat).
Proof.
  destruct (session_keys_agree hkdf_sha1 blake3_derive_xof (cipher u) (master_key u) salt) as (k & Hk & Hkey & Hck).
  assert (Hmk : forall stream, take (key_len (cipher u)) (r_master_key (fresh_reader stream (cipher u) (master_key u) csalt))
    = master_key u) by (intros stream; cbn; by apply take_app_length').
  unfold StreamCrypto.encryptor_new. rewrite Hkey. cbn [mbind result_bind ok_or].
  unfold down_records in *. unfold MAX_NONCE_COUNTER in Hblocks.
  destruct (is_ss2022 (cipher u)) eqn:Ess.
  - destruct l as [|[p now0] l']; [by destruct Hfirst|]. destruct Hfirst as (p' & Hp'). cbn in Hp'. injection Hp' as <- ->.
    specialize (Hsize eq_refl). cbn [fmap list_fmap fst] in Hsize, Hblocks |- *. apply Forall_cons in Hsize as [Hp Hps].
    rewrite zlen_cons in Hblocks. unfold MAX_CHUNK_SIZE in Hp.
    assert (Hll : zlen l'.*1 = zlen l') by (unfold zlen; by rewrite length_fmap).
    assert (Hrs : zlen (take (salt_len (cipher u)) csalt) = Z.of_nat (salt_len (cipher u)))
      by (unfold zlen; rewrite length_take, Hcsalt; by destruct (cipher u)).
    do 5 eexists. exists (if bool_decide (p = []) then l'.*1 else p :: l'.*1).
    split; [reflexivity|].
    split; [apply (send_ss2022_first seal open_); unfold MAX_NONCE_COUNTER, MAX_CHUNK_SIZE; try done; try lia;
      rewrite Hrs; by destruct (cipher u)|].
    split; [apply Hk|]. split; [|split; [reflexivity|split; [by left|split]]].
    + intros stream.
      apply (pl_ss2022 seal hkdf_sha1 blake3_derive_xof snow k _ salt csalt (response_header snow _ p) p l'.*1);
        try rewrite Hmk; cbn [fresh_reader with_request_salt reader_new r_set_session r_ss2022 r_cipher cipher_state r_nonce];
        try done; try lia.
      * unfold fresh_reader. by rewrite Ess.
      * unfold response_header. rewrite !zlen_app, Hrs. unfold zlen. rewrite !be_bytes_length. cbn [length]. lia.
      * intros now Hfr. apply parse_response_header_iff. exists snow. split_and!; try done; try lia.
        -- unfold zlen in Hrs. cbn. lia.
        -- unfold zlen in Hp. lia.
      * eapply Forall_impl; [apply Hps|]. intros q Hq. unfold max_payload_len, MAX_CHUNK_SIZE in *. cbn. by rewrite Ess.
    + by case_bool_decide as Hpe; [rewrite Hpe|].
    + split; [case_bool_decide; cbn [length]; lia|]. intros Hne. apply Forall_cons in Hne as [Hne Hnes].
      rewrite bool_decide_eq_false_2 by done. split; [by constructor|].
      exists p, p, l'.*1. rewrite take_ge by done. split_and!; (done || lia).
  - destruct (send_legacy seal open_ l k 0 salt false [] Hk) as (sent' & Hs); [done|unfold MAX_NONCE_COUNTER; lia|].
    eexists _, _, k, _, (salt ++ records seal k 0 (concat (map (chunks LEGACY_MAX_CHUNK_SIZE) l.*1))).
    exists (concat (map (chunks LEGACY_MAX_CHUNK_SIZE) l.*1)).
    split; [reflexivity|]. split; [apply Hs|]. split; [done|].
    set (ps := concat (map (chunks LEGACY_MAX_CHUNK_SIZE) l.*1)) in *.
    split; [|split; [|split; [|split; [|split; [done|]]]]].
    + intros stream. apply (pl_legacy seal hkdf_sha1 blake3_derive_xof snow k); try rewrite Hmk; try done; try lia.
      * unfold fresh_reader. by rewrite Ess.
      * unfold ps. apply Forall_concat, Forall_map, Forall_forall. intros p _. eapply Forall_impl; [by apply chunks_bound|].
        intros q Hq. unfold max_payload_len, LEGACY_MAX_CHUNK_SIZE in *. cbn. by rewrite Ess.
    + cbn [app]. destruct ps; [apply prefix_nil|done].
    + destruct ps; [by right|by left].
    + unfold ps. pose proof (down_records_data (cipher u) l.*1) as Hd. unfold down_records in Hd. by rewrite Ess in Hd.
    + intros Hne. split.
      { unfold ps. apply Forall_concat, Forall_map, Forall_forall. intros p _. by apply chunks_nonempty. }
      destruct Hfirst as (p & Hp). destruct l as [|q l']; [done|]. cbn in Hp. injection Hp as ->.
      cbn [fmap list_fmap fst] in Hne. apply Forall_cons in Hne as [Hne _].
      destruct (chunks_head LEGACY_MAX_CHUNK_SIZE p eq_refl Hne) as (ps1 & Hps1).
      exists p, (take (Z.to_nat LEGACY_MAX_CHUNK_SIZE) p). unfold ps. cbn [fmap list_fmap fst map concat]. rewrite Hps1. eexists.
      split; [done|]. split; [reflexivity|]. rewrite length_take, Nat.min_comm. split; [|lia].
      destruct (Nat.le_ge_cases (length p) (Z.to_nat LEGACY_MAX_CHUNK_SIZE));
        [by rewrite Nat.min_l, !take_ge by lia|by rewrite Nat.min_r by lia].
Qed.
End session.

(** ** The resumption frames *)
Lemma pulls_resume cnow k r ps wire e a t d : pulls cnow k r ps wire -> pulls cnow k (r_set_resume r e a t d) ps wire.
Proof.
  destruct 1; [by econstructor|by econstructor|].
  apply (pl_ss2022 seal hkdf_sha1 blake3_derive_xof cnow k (r_set_resume r e a t d) salt request_salt header p ps); done.
Qed.
Lemma read_one_full cnow k r p ps wire now : key_ok k -> pulls cnow k r (p :: ps) wire -> holds r wire -> fresh cnow now ->
  exists r' wire', read_one_decrypted_chunk open_ hkdf_sha1 blake3_derive_xof r now = (r', Ok p) /\ onward r r'
    /\ pulls cnow k r' ps wire' /\ holds r' wire'.
Proof.
  intros Hk Hp Hh Hfr.
  destruct (read_one_next seal open_ hkdf_sha1 blake3_derive_xof cnow k r _ wire wire now Hk Hp Hh ltac:(done) Hfr)
    as [(p1 & ps' & r' & used & wire' & got' & Hps & -> & Ho & Hp' & Hh' & Hpre' & Hw1 & Hw2)|(r' & _ & _ & Hend)];
    [|by specialize (Hend eq_refl)].
  injection Hps as <- <-. assert (got' = wire') as -> by (eapply app_inv_head; by rewrite <- Hw1).
  by exists r', wire'.
Qed.

Lemma read_until_ok cnow k now len : forall fuel r ps wire acc, key_ok k -> fresh cnow now ->
  pulls cnow k r ps wire -> holds r wire -> Forall (fun p => p <> []) ps ->
  len <= zlen acc + zlen (concat ps) -> len - zlen acc <= Z.of_nat fuel ->
  exists r' fin rest wire', read_until open_ hkdf_sha1 blake3_derive_xof fuel r now len acc = (r', Ok (acc ++ concat fin))
    /\ ps = fin ++ rest /\ len <= zlen (acc ++ concat fin) /\ onward r r' /\ pulls cnow k r' rest wire' /\ holds r' wire'.
Proof.
  induction fuel as [|fuel IH]; intros r ps wire acc Hk Hfr Hp Hh Hne Hl Hf; cbn [read_until];
    (destruct (Z.leb_spec len (zlen acc));
     [exists r, [], ps, wire; cbn; rewrite app_nil_r; split_and!; (done || by split)|]); [lia|].
  destruct ps as [|p ps]; [change (zlen (concat [])) with 0 in Hl; lia|]. apply Forall_cons in Hne as [Hpne Hne].
  destruct (read_one_full cnow k r p ps wire now Hk Hp Hh Hfr) as (r1 & w1 & -> & Ho & Hp1 & Hh1).
  cbn [andthen]. rewrite bool_decide_eq_false_2 by done. cbn [concat] in Hl. rewrite zlen_app in Hl.
  assert (0 < zlen p) by (unfold zlen; destruct p; [done|simpl; lia]).
  destruct (IH r1 ps w1 (acc ++ p)) as (r2 & fin & rest & w2 & -> & -> & Hl2 & Ho2 & Hp2 & Hh2); try done;
    [rewrite zlen_app; lia..|].
  exists r2, (p :: fin), rest, w2. cbn [concat]. rewrite <- app_assoc in Hl2 |- *. split_and!; try done.
  by eapply onward_trans.
Qed.

(** The two control frames consumed off a session, then the rest of it. *)
Lemma consume_ack_ok cnow k r p ps wire a tail now : key_ok k -> fresh cnow now -> pulls cnow k r (p :: ps) wire ->
  holds r wire -> expect_ack_prefix r = true -> pending_tail r = None -> 0 <= a < 2 ^ 64 ->
  p = Ack.build_v1_payload a ++ tail ->
  exists r' wire', consume_ack_prefix open_ hkdf_sha1 blake3_derive_xof r now = (r', Ok (Some a))
    /\ pulls cnow k r' ps wire' /\ holds r' wire' /\ expect_ack_prefix r' = false
    /\ default [] (pending_tail r') = tail /\ expect_downlink_replay r' = expect_downlink_replay r.
Proof.
  intros Hk Hfr Hp Hh He Ht Ha Hpa. unfold consume_ack_prefix. rewrite He. cbn [negb].
  destruct (read_one_full cnow k r p ps wire now Hk Hp Hh Hfr) as (r1 & w1 & -> & Ho & Hp1 & Hh1). cbn [andthen].
  unfold accept_ack_prefix. rewrite (proj2 (ack_frame_iff p a)) by eauto. cbn [andthen].
  do 2 eexists. split; [reflexivity|]. split; [apply pulls_resume, pulls_resume, Hp1|]. split; [done|].
  split; [done|]. split; [|apply (on_replay _ _ Ho)]. cbn [pending_tail r_set_resume].
  rewrite Hpa, drop_app_length' by done. rewrite (on_tail _ _ Ho), Ht. by case_bool_decide as Hn; [rewrite Hn|].
Qed.

Lemma consume_replay_ok cnow k r ps wire flags replay rest now max : key_ok k -> fresh cnow now ->
  pulls cnow k r ps wire -> holds r wire -> Forall (fun p => p <> []) ps -> expect_downlink_replay r = true ->
  zlen replay < 2 ^ 64 -> zlen replay <= max -> flags = x00 \/ flags = DownlinkReplay.FLAG_REPLAY_TRUNCATED /\ replay = [] ->
  default [] (pending_tail r) ++ concat ps = DownlinkReplay.build_v1_header flags (zlen replay) ++ replay ++ rest ->
  exists r' fin ps' wire', consume_downlink_replay open_ hkdf_sha1 blake3_derive_xof r now max
      = (r', Ok (Some (if bool_decide (flags = x00) then Replay replay else Truncated)))
    /\ pulls cnow k r' ps' wire' /\ holds r' wire' /\ expect_ack_prefix r' = expect_ack_prefix r
    /\ ps = fin ++ ps' /\ default [] (pending_tail r') ++ concat ps' = rest.
Proof.
  intros Hk Hfr Hp Hh Hne He Hr64 Hmax Hflags Hdata. unfold consume_downlink_replay. rewrite He. cbn [negb].
  set (acc := default [] (pending_tail r)) in *. set (r0 := r_set_resume r _ _ None true).
  set (header := DownlinkReplay.build_v1_header flags (zlen replay)) in *.
  assert (Hhl : length header = FRAME_LEN_V1) by done.
  pose proof (f_equal zlen Hdata) as Hz. rewrite !zlen_app in Hz. pose proof (zlen_nonneg replay).
  pose proof (zlen_nonneg rest). pose proof (zlen_nonneg acc). assert (Hzh : zlen header = 14) by done.
  destruct (read_until_ok cnow k now (Z.of_nat FRAME_LEN_V1) FRAME_LEN_V1 r0 ps wire acc) as
    (r1 & f1 & ps1 & w1 & -> & Hps1 & Hl1 & Ho1 & Hp1 & Hh1); try done;
    [by apply pulls_resume|unfold FRAME_LEN_V1; lia|lia|].
  cbn [andthen]. set (acc1 := acc ++ concat f1) in *.
  assert (Hdata1 : acc1 ++ concat ps1 = header ++ replay ++ rest).
  { rewrite <- Hdata, Hps1, concat_app. unfold acc1. by rewrite <- app_assoc. }
  assert (Hpre1 : acc1 `prefix_of` header ++ replay ++ rest) by (rewrite <- Hdata1; by apply prefix_app_r).
  destruct (prefix_take_app _ _ _ FRAME_LEN_V1 Hpre1 Hhl) as (Ht1 & _ & Hacc1); [unfold zlen in Hl1; lia|].
  assert (Hfl : flags = x00 \/ flags = DownlinkReplay.FLAG_REPLAY_TRUNCATED) by naive_solver.
  rewrite Ht1, (proj2 (proj1 (replay_header_iff header flags (zlen replay))))
    by (split; [lia|split; [done|]]; exists []; by rewrite app_nil_r).
  assert (Hband : negb (bool_decide (band flags DownlinkReplay.FLAG_REPLAY_TRUNCATED = x00)) = negb (bool_decide (flags = x00)))
    by (destruct Hfl as [-> | ->]; reflexivity).
  rewrite Hband. destruct (Z.ltb_spec max (zlen replay)); [lia|].
  assert (Htr : negb (bool_decide (flags = x00)) && negb (zlen replay =? 0) = false)
    by (destruct Hflags as [-> | [-> ->]]; done).
  rewrite Htr. rewrite Hps1 in Hne. apply Forall_app in Hne as [_ Hne1].
  pose proof (f_equal zlen Hdata1) as Hz1. rewrite !zlen_app in Hz1.
  change (Z.of_nat FRAME_LEN_V1) with 14 in *.
  destruct (read_until_ok cnow k now (14 + zlen replay) (Z.to_nat (14 + zlen replay)) r1 ps1 w1 acc1) as
    (r2 & f2 & ps2 & w2 & -> & Hps2 & Hl2 & Ho2 & Hp2 & Hh2); try done; [lia|pose proof (zlen_nonneg acc1); lia|].
  cbn [andthen]. set (acc2 := acc1 ++ concat f2) in *.
  assert (Hdata2 : acc2 ++ concat ps2 = (header ++ replay) ++ rest).
  { rewrite <- app_assoc, <- Hdata1, Hps2, concat_app. unfold acc2. by rewrite <- app_assoc. }
  assert (Hpre2 : acc2 `prefix_of` (header ++ replay) ++ rest) by (rewrite <- Hdata2; by apply prefix_app_r).
  assert (Hhr : length (header ++ replay) = Z.to_nat (14 + zlen replay)).
  { rewrite length_app, Hhl. unfold FRAME_LEN_V1, zlen. lia. }
  destruct (prefix_take_app _ _ _ _ Hpre2 Hhr) as (Ht2 & _ & Hacc2); [unfold zlen in Hl2 |- *; lia|].
  set (trailing := drop (Z.to_nat (14 + zlen replay)) acc2) in *.
  assert (Hrest : trailing ++ concat ps2 = rest).
  { rewrite Hacc2, <- (app_assoc (header ++ replay)) in Hdata2. by apply app_inv_head in Hdata2. }
  assert (Hsl : slice acc2 FRAME_LEN_V1 (Z.to_nat (14 + zlen replay)) = replay).
  { rewrite Hacc2, <- app_assoc. apply slice_app_mid; [done|]. rewrite <- Hhr, length_app. done. }
  rewrite Hsl. do 4 eexists. split; [by case_bool_decide|]. split; [apply pulls_resume, Hp2|]. split; [exact Hh2|].
  split; [by rewrite (on_expect _ _ Ho2), (on_expect _ _ Ho1)|].
  split; [by rewrite Hps1, Hps2, app_assoc|]. cbn [pending_tail r_set_resume].
  assert (Htail : pending_tail r2 = None) by (by rewrite (on_tail _ _ Ho2), (on_tail _ _ Ho1)).
  rewrite Htail. clear Hband Htr. case_bool_decide as Hn; [by rewrite <- Hrest, Hn|exact Hrest].
Qed.

Lemma read_rest k cnow now ps fuel r wire : key_ok k -> fresh cnow now -> expect_ack_prefix r = false ->
  (S (length ps) < fuel)%nat -> pulls cnow k r ps wire -> holds r wire ->
  exists r' chunks, read_all fuel r now [] = Some (r', chunks, WsClosed) /\ closed_cleanly r' = true
    /\ concat chunks = default [] (pending_tail r) ++ concat ps.
Proof.
  intros Hk Hfr He Hf Hp Hh. destruct (pending_tail r) as [t|] eqn:Et.
  - destruct fuel as [|fuel]; [lia|]. cbn [read_all]. unfold StreamClient.read_chunk. rewrite Et.
    cbn [app]. destruct (read_all_ok k cnow now ps fuel (r_set_resume r (expect_ack_prefix r) (up_acked r) None
      (expect_downlink_replay r)) wire wire [t]) as (r' & fin & rest & -> & -> & Hcl & Hend); try done; [lia|by apply pulls_resume|].
    exists r', ([t] ++ fin). rewrite (Hend eq_refl), app_nil_r. done.
  - destruct (read_all_ok k cnow now ps fuel r wire wire []) as (r' & fin & rest & -> & -> & Hcl & Hend); try done; [lia|].
    exists r', fin. by rewrite (Hend eq_refl), app_nil_r.
Qed.
End client.

(** ** Properties *)

(** C5: the downlink is exact. What the server sends on a session, the client's
    reader gets back from the WebSocket messages, however these cut the wire and
    whatever pings come between them: a stream that ends early gives a prefix of
    it and then the end of the stream, never a wrong byte or another error, and
    a whole one gives all of it. This holds within the code's own limits: under
    an SS2022 suite each payload is at most the record limit of 65535 bytes;
    the client's clock is within thirty seconds of the server's; keys, salts and
    the clock have their sizes; and the session stays below the server's limit
    of sealed blocks. *)
Theorem stream_downlink_exact seal open_ hkdf_sha1 blake3_derive_xof
    (AL : AeadLaws seal open_) (KL : KdfLaws hkdf_sha1 blake3_derive_xof)
    (u : UserKey) (csalt salt p0 : bytes) (l : list (bytes * Z)) (snow now : Z) :
  length (master_key u) = key_len (cipher u) -> length csalt = 32%nat -> length salt = salt_len (cipher u) ->
  2 + 2 * zlen (down_records (cipher u) ((p0, snow) :: l).*1) <= MAX_NONCE_COUNTER -> 0 <= snow < 2 ^ 64 ->
  fresh snow now ->
  (is_ss2022 (cipher u) = true -> Forall (fun p => zlen p <= MAX_CHUNK_SIZE) ((p0, snow) :: l).*1) ->
  exists m0 m wire,
    encryptor_new hkdf_sha1 blake3_derive_xof u (Some (take (salt_len (cipher u)) csalt)) salt = Ok m0 /\
    server_send seal m0 ((p0, snow) :: l) [] = (m, wire, Ok tt) /\
    forall stream got, delivers stream got -> got `prefix_of` wire ->
    exists r chunks fuel, read_all open_ hkdf_sha1 blake3_derive_xof fuel
        (fresh_reader stream (cipher u) (master_key u) csalt) now [] = Some (r, chunks, WsClosed)
      /\ closed_cleanly r = true /\ concat chunks `prefix_of` p0 ++ concat l.*1
      /\ (got = wire -> concat chunks = p0 ++ concat l.*1).
Proof.
  intros Hm Hc Hs Hb Hclk Hfr Hsz.
  destruct (downlink_pulls seal open_ hkdf_sha1 blake3_derive_xof u csalt salt ((p0, snow) :: l) snow)
    as (m0 & m & k & wire & pwire & ps & Hm0 & Hsend & Hk & Hp & Hpre & Hor & Hcat & Hlen & _); try done; [by eexists|].
  exists m0, m, wire. split; [done|]. split; [done|]. intros stream got Hd Hg.
  destruct (read_all_ok seal open_ hkdf_sha1 blake3_derive_xof k snow now ps (S (length ps))
    (fresh_reader stream (cipher u) (master_key u) csalt) pwire got []) as (r & fin & rest & Hrun & Hfin & Hcl & Hend);
    try done; [lia|by apply fresh_holds|by etrans|].
  cbn [fmap list_fmap fst concat] in Hcat. rewrite Hfin, concat_app in Hcat.
  exists r, fin, (S (length ps)). split_and!; try done; [rewrite <- Hcat; by apply prefix_app_r|].
  intros ->. rewrite <- Hcat. destruct Hor as [->|Hnil].
  - rewrite Hend by done. by rewrite app_nil_r.
  - rewrite Hnil in Hfin. symmetry in Hfin. by apply app_eq_nil in Hfin as [-> ->].
Qed.

(** C4: a replay closes the gap exactly. When the server's plaintext is the
    acknowledgement frame, the replay header, the replayed bytes and then new
    ones, cut into whatever non-empty payloads as long as the first one holds
    the acknowledgement, and the replay is no longer than the cap [max] the
    client passes, the client consumes the two frames to exactly the
    acknowledged offset and the replayed bytes - or to the notice that the
    server has truncated the replay, which then is empty - and what it reads
    after them is exactly the new bytes, those that shared a record with a frame
    included. As for the whole downlink, under an SS2022 suite each payload is at
    most 65535 bytes; the client's clock is within thirty seconds of the
    server's; keys, salts, counters and the clock have their sizes; and the
    session stays below the limit of sealed blocks. *)
Theorem resume_lossless seal open_ hkdf_sha1 blake3_derive_xof
    (AL : AeadLaws seal open_) (KL : KdfLaws hkdf_sha1 blake3_derive_xof)
    (u : UserKey) (csalt salt p0 replay rest : bytes) (l : list (bytes * Z)) (snow now a max : Z) (flags : byte) :
  length (master_key u) = key_len (cipher u) -> length csalt = 32%nat -> length salt = salt_len (cipher u) ->
  2 + 2 * zlen (down_records (cipher u) ((p0, snow) :: l).*1) <= MAX_NONCE_COUNTER -> 0 <= snow < 2 ^ 64 ->
  fresh snow now ->
  (is_ss2022 (cipher u) = true -> Forall (fun p => zlen p <= MAX_CHUNK_SIZE) ((p0, snow) :: l).*1) ->
  Forall (fun p => p <> []) (p0 :: l.*1) -> (FRAME_LEN_V1 <= length p0)%nat -> 0 <= a < 2 ^ 64 ->
  zlen replay < 2 ^ 64 -> zlen replay <= max -> flags = x00 \/ flags = DownlinkReplay.FLAG_REPLAY_TRUNCATED /\ replay = [] ->
  p0 ++ concat l.*1
    = Ack.build_v1_payload a ++ DownlinkReplay.build_v1_header flags (zlen replay) ++ replay ++ rest ->
  exists m0 m wire,
    encryptor_new hkdf_sha1 blake3_derive_xof u (Some (take (salt_len (cipher u)) csalt)) salt = Ok m0 /\
    server_send seal m0 ((p0, snow) :: l) [] = (m, wire, Ok tt) /\
    forall stream, delivers stream wire ->
    exists r1 r2 r3 chunks fuel,
      consume_ack_prefix open_ hkdf_sha1 blake3_derive_xof
        (with_expect_downlink_replay (with_expect_ack_prefix
           (fresh_reader stream (cipher u) (master_key u) csalt) true) true) now = (r1, Ok (Some a)) /\
      consume_downlink_replay open_ hkdf_sha1 blake3_derive_xof r1 now max
        = (r2, Ok (Some (if bool_decide (flags = x00) then Replay replay else Truncated))) /\
      read_all open_ hkdf_sha1 blake3_derive_xof fuel r2 now [] = Some (r3, chunks, WsClosed) /\
      concat chunks = rest.
Proof.
  intros Hm Hc Hs Hb Hclk Hfr Hsz Hne H14 Ha Hr64 Hmax Hflags Hdata.
  destruct (downlink_pulls seal open_ hkdf_sha1 blake3_derive_xof u csalt salt ((p0, snow) :: l) snow)
    as (m0 & m & k & wire & pwire & ps & Hm0 & Hsend & Hk & Hp & Hpre & Hor & Hcat & Hlen & Hhead); try done; [by eexists|].
  exists m0, m, wire. split; [done|]. split; [done|]. intros stream Hd.
  destruct (Hhead Hne) as (Hnes & p & p1 & ps' & Hp0 & -> & Hp1 & Hp1l). injection Hp0 as <-. clear Hhead.
  destruct Hor as [->|Hnil]; [|done]. cbn [fmap list_fmap fst concat] in Hcat. rewrite Hdata in Hcat.
  assert (Hp14 : (14 <= length p1)%nat) by (unfold FRAME_LEN_V1, LEGACY_MAX_CHUNK_SIZE in *; lia).
  destruct (prefix_take_app p1 (Ack.build_v1_payload a) (DownlinkReplay.build_v1_header flags (zlen replay) ++ replay ++ rest) 14)
    as (_ & _ & Heq); [rewrite <- Hcat; by apply prefix_app_r|done|done|].
  set (r0 := with_expect_downlink_replay _ _).
  destruct (consume_ack_ok seal open_ hkdf_sha1 blake3_derive_xof snow k r0 p1 ps' pwire a (drop 14 p1) now)
    as (r1 & w1 & H1 & Hpl1 & Hh1 & He1 & Ht1 & Hd1); try done; [by do 2 apply pulls_resume|by apply (fresh_holds stream (cipher u) (master_key u) csalt)|].
  apply Forall_cons in Hnes as [_ Hnes].
  destruct (consume_replay_ok seal open_ hkdf_sha1 blake3_derive_xof snow k r1 ps' w1 flags replay rest now max)
    as (r2 & fin & ps2 & w2 & H2 & Hpl2 & Hh2 & He2 & _ & Hrest); try done.
  { rewrite Ht1. rewrite Heq, <- app_assoc in Hcat. by apply app_inv_head in Hcat. }
  destruct (read_rest seal open_ hkdf_sha1 blake3_derive_xof k snow now ps2 (S (S (length ps2))) r2 w2)
    as (r3 & chunks & H3 & _ & Hch); [done|done|congruence|lia|done|done|].
  exists r1, r2, r3, chunks, (S (S (length ps2))). split_and!; try done. by rewrite Hch.
Qed.

Definition sample_user : UserKey := mkUser (str "b") Aes128Gcm2022 (replicate 16 x42) None.
Definition sample_csalt : bytes := replicate 32 x07.
Definition sample_salt : bytes := replicate 16 x08.
Definition send_sample (u : UserKey) (l : list (bytes * Z)) : bytes :=
  match encryptor_new toy_hkdf toy_blake3 u (Some (take (salt_len (cipher u)) sample_csalt)) sample_salt with
  | Ok m => (server_send toy_seal m l []).1.2
  | Err _ => []
  end.
Definition in_pieces (wire : bytes) : list Item :=
  [Received (Binary (take 10 wire)); Received Ping; Received (Binary (drop 10 wire)); Received (Close (Some 1000))].
Lemma in_pieces_delivers wire : delivers (in_pieces wire) wire.
Proof.
  rewrite <- (take_drop 10 wire) at 2. apply dl_binary, dl_other; [by left|].
  rewrite <- (app_nil_r (drop 10 wire)) at 2. apply dl_binary. by apply dl_close.
Qed.

Lemma stream_downlink_exact_witness :
  let l := [(str "hello", 500); ([], 501); (str "world", 502)] in
  exists r chunks fuel, read_all toy_open toy_hkdf toy_blake3 fuel
      (fresh_reader (in_pieces (send_sample sample_user l)) Aes128Gcm2022 (replicate 16 x42) sample_csalt) 510 []
    = Some (r, chunks, WsClosed) /\ concat chunks = str "helloworld".
Proof.
  intros l.
  destruct (stream_downlink_exact toy_seal toy_open toy_hkdf toy_blake3 toy_aead toy_kdf sample_user sample_csalt sample_salt
    (str "hello") [([], 501); (str "world", 502)] 500 510) as (m0 & m & wire & Hm0 & Hs & H);
    [done|done|done|vm_compute; done|done|vm_compute; done|intros _; repeat constructor; vm_compute; done|].
  assert (Hw : send_sample sample_user l = wire)
    by (unfold send_sample; rewrite Hm0; cbn [fst snd]; unfold l; by rewrite Hs).
  rewrite Hw. destruct (H (in_pieces wire) wire (in_pieces_delivers wire) ltac:(done))
    as (r & chunks & fuel & Hrun & _ & _ & Hall).
  exists r, chunks, fuel. split; [exact Hrun|by apply Hall].
Defined.

Lemma resume_lossless_witness :
  let p0 := Ack.build_v1_payload 7 ++ take 6 (DownlinkReplay.build_v1_header x00 3) in
  let l := [(drop 6 (DownlinkReplay.build_v1_header x00 3) ++ str "re", 501); (str "pnew", 502)] in
  exists r1 r2 r3 chunks fuel,
    consume_ack_prefix toy_open toy_hkdf toy_blake3
      (with_expect_downlink_replay (with_expect_ack_prefix
         (fresh_reader (in_pieces (send_sample sample_user ((p0, 500) :: l))) Aes128Gcm2022 (replicate 16 x42) sample_csalt)
         true) true) 510 = (r1, Ok (Some 7)) /\
    consume_downlink_replay toy_open toy_hkdf toy_blake3 r1 510 100 = (r2, Ok (Some (Replay (str "rep")))) /\
    read_all toy_open toy_hkdf toy_blake3 fuel r2 510 [] = Some (r3, chunks, WsClosed) /\ concat chunks = str "new".
Proof.
  intros p0 l.
  destruct (resume_lossless toy_seal toy_open toy_hkdf toy_blake3 toy_aead toy_kdf sample_user sample_csalt sample_salt
    p0 (str "rep") (str "new") l 500 510 7 100 x00) as (m0 & m & wire & Hm0 & Hs & H);
    [done|done|done|vm_compute; done|done|vm_compute; done|intros _; repeat constructor; vm_compute; done
    |repeat constructor; done|vm_compute; lia|done|done|done|by left|vm_compute; reflexivity|].
  assert (Hw : send_sample sample_user ((p0, 500) :: l) = wire)
    by (unfold send_sample; rewrite Hm0; cbn [fst snd]; by rewrite Hs).
  rewrite Hw. destruct (H (in_pieces wire) (in_pieces_delivers wire)) as (r1 & r2 & r3 & chunks & fuel & H1 & H2 & H3 & H4).
  by exists r1, r2, r3, chunks, fuel.
Defined.
