(* ===== verification/XhttpSession.v ===== *)
(** The server's side of one XHTTP session
    ([bins/outline-ss-rust/src/server/transport/xhttp/mod.rs], [duplex.rs],
    [handlers.rs]): the uplink queue with its reorder buffer, the downlink ring,
    the body of the GET that drains it, the socket the relay reads and writes,
    and the janitor's verdict.

    A mutex section is one step; a task that waits ([ingest_uplink_inorder],
    [push_downlink], [ingest_uplink_waiting]) is one attempt of its loop, [None]
    meaning that it goes on waiting. The notifications that wake it are left out.
    [saturating_add] on byte counts is a plain sum: both summands are far below
    2^64. *)
From S2P Require Import Prelude UdpRecords.
Local Open Scope Z_scope.

Definition DOWNLINK_BUFFER_BYTES_CAP : Z := 256 * 1024.
Definition UPLINK_REORDER_BUFFER_BYTES_CAP : Z := 256 * 1024.
Definition UPLINK_REORDER_MAX_GAP : Z := 64.
Definition UPLINK_READY_BYTES_CAP : Z := 256 * 1024.
Definition UPLINK_WAITING_BYTES_CAP : Z := 4 * 1024 * 1024.

Definition sat_sub (a b : Z) : Z := Z.max 0 (a - b).
(** [seq.saturating_add(1)] of a [u64]. *)
Definition seq_succ (s : Z) : Z := Z.min (s + 1) (2 ^ 64 - 1).

(** ** The uplink *)
Record UplinkState : Type := mkUplinkState {
  expected_seq : Z;
  ready : list bytes;
  ready_bytes : Z;
  reorder : gmap Z bytes;
  reorder_bytes : Z;
  waiting_bytes : Z;
  up_closed : bool
}.
Definition uplink_new : UplinkState := mkUplinkState 0 [] 0 ∅ 0 0 false.

(** Every turn takes a frame out of [reorder], so its size is fuel enough. *)
Fixpoint promote_loop (fuel : nat) (u : UplinkState) : UplinkState :=
  match fuel with
  | O => u
  | S fuel =>
    match reorder u !! expected_seq u with
    | None => u
    | Some next =>
      if UPLINK_READY_BYTES_CAP <? ready_bytes u + zlen next then u
      else
        promote_loop fuel
          (mkUplinkState (seq_succ (expected_seq u)) (ready u ++ [next]) (ready_bytes u + zlen next)
             (delete (expected_seq u) (reorder u)) (sat_sub (reorder_bytes u) (zlen next)) (waiting_bytes u) (up_closed u))
    end
  end.
Definition promote_parked (u : UplinkState) : UplinkState := promote_loop (S (size (reorder u))) u.

Inductive UplinkIngestError : Type := Closed | GapTooLarge (expected got : Z) | BufferFull | ReadyFull.
Definition ingest_uplink (u : UplinkState) (seq : Z) (data : bytes) : UplinkState * result UplinkIngestError unit :=
  match data with
  | [] => (u, Ok tt)
  | _ =>
    if up_closed u then (u, Err Closed)
    else if seq <? expected_seq u then (u, Ok tt)
    else if seq =? expected_seq u then
      if negb (bool_decide (ready u = [])) && (UPLINK_READY_BYTES_CAP <? ready_bytes u + zlen data) then (u, Err ReadyFull)
      else
        (promote_parked
           (mkUplinkState (seq_succ (expected_seq u)) (ready u ++ [data]) (ready_bytes u + zlen data)
              (reorder u) (reorder_bytes u) (waiting_bytes u) (up_closed u)), Ok tt)
    else
      let gap := seq - expected_seq u in
      if UPLINK_REORDER_MAX_GAP <? gap then (u, Err (GapTooLarge (expected_seq u) seq))
      else if UPLINK_REORDER_BUFFER_BYTES_CAP <? reorder_bytes u + zlen data then (u, Err BufferFull)
      else
        (mkUplinkState (expected_seq u) (ready u) (ready_bytes u) (<[seq := data]> (reorder u))
           (match reorder u !! seq with None => reorder_bytes u + zlen data | Some _ => reorder_bytes u end)
           (waiting_bytes u) (up_closed u), Ok tt)
  end.
Definition pop_uplink_ready (u : UplinkState) : UplinkState * option bytes :=
  match ready u with
  | [] => (u, None)
  | chunk :: ready =>
    (promote_parked
       (mkUplinkState (expected_seq u) ready (sat_sub (ready_bytes u) (zlen chunk)) (reorder u) (reorder_bytes u)
          (waiting_bytes u) (up_closed u)), Some chunk)
  end.
Definition close_uplink (u : UplinkState) : UplinkState :=
  mkUplinkState (expected_seq u) (ready u) (ready_bytes u) (reorder u) (reorder_bytes u) (waiting_bytes u) true.
Definition uplink_eof (u : UplinkState) : bool := up_closed u && bool_decide (ready u = []).
(** One attempt of the stream-one pump. *)
Definition ingest_uplink_inorder (u : UplinkState) (data : bytes) : UplinkState * option (result UplinkIngestError unit) :=
  match data with
  | [] => (u, Some (Ok tt))
  | _ =>
    if up_closed u then (u, Some (Err Closed))
    else if bool_decide (ready u = []) || (ready_bytes u + zlen data <=? UPLINK_READY_BYTES_CAP) then
      (mkUplinkState (expected_seq u) (ready u ++ [data]) (ready_bytes u + zlen data) (reorder u) (reorder_bytes u)
         (waiting_bytes u) (up_closed u), Some (Ok tt))
    else (u, None)
  end.

(** A POST held open for room. *)
Definition hold (u : UplinkState) (len : Z) : option UplinkState :=
  if UPLINK_WAITING_BYTES_CAP <? waiting_bytes u + len then None
  else Some (mkUplinkState (expected_seq u) (ready u) (ready_bytes u) (reorder u) (reorder_bytes u)
               (waiting_bytes u + len) (up_closed u)).
Definition release (u : UplinkState) (len : Z) : UplinkState :=
  mkUplinkState (expected_seq u) (ready u) (ready_bytes u) (reorder u) (reorder_bytes u)
    (sat_sub (waiting_bytes u) len) (up_closed u).
(** One turn of [ingest_uplink_waiting] at [now]; [held] is whether the guard is
    held. The answer releases the guard. *)
Definition waiting_turn (u : UplinkState) (held : bool) (seq : Z) (data : bytes) (now deadline : Z)
    : UplinkState * bool * option (result UplinkIngestError unit) :=
  let finish (u : UplinkState) (held : bool) r := (if held then release u (zlen data) else u, false, Some r) in
  let (u, r) := ingest_uplink u seq data in
  match r with
  | Err BufferFull | Err ReadyFull =>
    match (if held then Some u else hold u (zlen data)) with
    | None => finish u false r
    | Some u => if deadline <=? now then finish u true r else (u, true, None)
    end
  | _ => finish u held r
  end.

(** ** The downlink *)
Record DownlinkState : Type := mkDownlinkState {
  pending : list bytes;
  pending_bytes : Z;
  down_closed : bool;
  get_attached : bool
}.
Definition downlink_new : DownlinkState := mkDownlinkState [] 0 false false.
Inductive AttachOutcome : Type := AttachOk | Conflict | Gone.
Definition try_attach_get (d : DownlinkState) : DownlinkState * AttachOutcome :=
  if down_closed d then (d, Gone)
  else if get_attached d then (d, Conflict)
  else (mkDownlinkState (pending d) (pending_bytes d) (down_closed d) true, AttachOk).
Definition detach_get (d : DownlinkState) : DownlinkState :=
  mkDownlinkState (pending d) (pending_bytes d) (down_closed d) false.
Fixpoint drain_loop (pending : list bytes) (pending_bytes : Z) (dst : list bytes) : Z * list bytes :=
  match pending with
  | [] => (pending_bytes, dst)
  | chunk :: pending => drain_loop pending (sat_sub pending_bytes (zlen chunk)) (dst ++ [chunk])
  end.
Definition drain_downlink (d : DownlinkState) (dst : list bytes) : DownlinkState * list bytes * bool :=
  let (pending_bytes, dst) := drain_loop (pending d) (pending_bytes d) dst in
  (mkDownlinkState [] pending_bytes (down_closed d) (get_attached d), dst, down_closed d).
(** One attempt of the relay's writer; [true]: the chunk was taken. *)
Definition push_downlink (d : DownlinkState) (data : bytes) : DownlinkState * option (result unit unit) :=
  match data with
  | [] => (d, Some (Ok tt))
  | _ =>
    if down_closed d then (d, Some (Err tt))
    else if pending_bytes d + zlen data <=? DOWNLINK_BUFFER_BYTES_CAP then
      (mkDownlinkState (pending d ++ [data]) (pending_bytes d + zlen data) (down_closed d) (get_attached d), Some (Ok tt))
    else (d, None)
  end.
(** One poll of the body stream of an attached GET: [Some (Some c)] a chunk,
    [Some None] the end, [None] pending. The second look at the ring, taken after
    subscribing, is the same look. *)
Definition body_poll (d : DownlinkState) (queue : list bytes) : DownlinkState * list bytes * option (option bytes) :=
  match queue with
  | chunk :: queue => (d, queue, Some (Some chunk))
  | [] =>
    let '(d, queue, closed) := drain_downlink d [] in
    match queue with
    | chunk :: queue => (d, queue, Some (Some chunk))
    | [] => (d, [], if closed then Some None else None)
    end
  end.

(** ** The session *)
Record XhttpSession : Type := mkSession {
  uplink : UplinkState;
  downlink : DownlinkState;
  closed : bool;
  last_progress : Z;
  last_keepalive : Z;
  udp_records : bool
}.
Definition session_new : XhttpSession := mkSession uplink_new downlink_new false 0 0 false.
Definition touch_progress (s : XhttpSession) (now : Z) : XhttpSession :=
  mkSession (uplink s) (downlink s) (closed s) now (last_keepalive s) (udp_records s).
Definition touch_keepalive (s : XhttpSession) (now : Z) : XhttpSession :=
  mkSession (uplink s) (downlink s) (closed s) (last_progress s) now (udp_records s).
Definition close (s : XhttpSession) : XhttpSession :=
  if closed s then s
  else
    mkSession (close_uplink (uplink s))
      (mkDownlinkState (pending (downlink s)) (pending_bytes (downlink s)) true (get_attached (downlink s)))
      true (last_progress s) (last_keepalive s) (udp_records s).
(** [last_uplink]: the last uplink datagram of the session's HTTP/3 anchor. *)
Definition is_evictable (s : XhttpSession) (last_uplink : option Z) (cutoff : Z) : bool :=
  let progress := match last_uplink with Some u => Z.max (last_progress s) u | None => last_progress s end in
  if (0 <? pending_bytes (downlink s)) && (progress <? cutoff) then true
  else if bool_decide (is_Some last_uplink) && (progress <? cutoff) then true
  else Z.max progress (last_keepalive s) <? cutoff.

(** ** The relay's socket *)
Inductive XhttpMsg : Type := Binary (data : bytes) | CloseMsg | Noop.
Record XhttpReader : Type := mkReader { records : option UdpRecordDecoder; queue : list bytes }.
Definition split_reader (records : bool) : XhttpReader := mkReader (if records then Some dec_new else None) [].
Definition take_records (r : XhttpReader) (chunk : bytes) : XhttpReader * option XhttpMsg :=
  match records r with
  | None => (r, Some (Binary chunk))
  | Some decoder =>
    let (decoder, rs) := feed_chunk decoder chunk in
    match queue r ++ rs with
    | [] => (mkReader (Some decoder) [], None)
    | record :: queue => (mkReader (Some decoder) queue, Some (Binary record))
    end
  end.
(** One turn of [recv]: [None] waits or turns again, [Some None] is the end. *)
Definition recv_turn (u : UplinkState) (closed : bool) (r : XhttpReader) : UplinkState * XhttpReader * option (option XhttpMsg) :=
  match queue r with
  | record :: queue => (u, mkReader (records r) queue, Some (Some (Binary record)))
  | [] =>
    match pop_uplink_ready u with
    | (u, Some chunk) =>
      let (r, msg) := take_records r chunk in (u, r, match msg with Some m => Some (Some m) | None => None end)
    | (u, None) => if closed || uplink_eof u then (u, r, Some None) else (u, r, None)
    end
  end.
Definition frame_datagram (payload : bytes) : option bytes :=
  match encode_record_into payload [] with Ok record => Some record | Err _ => None end.
(** One attempt of [send]; [None] while the ring has no room. *)
Definition send (s : XhttpSession) (records : bool) (msg : XhttpMsg) (now : Z) : XhttpSession * option (result unit unit) :=
  let push (data : bytes) :=
    match push_downlink (downlink s) data with
    | (d, Some (Ok tt)) =>
      let s := mkSession (uplink s) d (closed s) (last_progress s) (last_keepalive s) (udp_records s) in
      (match data with [] => s | _ => touch_progress s now end, Some (Ok tt))
    | (_, r) => (s, r)
    end in
  match msg with
  | Binary data =>
    if records then
      match frame_datagram data with Some record => push record | None => (s, Some (Ok tt)) end
    else push data
  | CloseMsg => (close s, Some (Ok tt))
  | Noop => (touch_keepalive s now, Some (Ok tt))
  end.
