(* ===== verification/XhttpClient.v ===== *)
(** The client's packet-up POSTs
    ([crates/outline-transport/src/xhttp/window.rs], [post_status.rs], [mod.rs],
    the POST loop of [h2.rs]), over a server session, and what the relay reads.

    The window's [BTreeMap] is its ascending list of entries. A POST task is what
    is still to be delivered; the network may deliver it, or a copy of it, at any
    time. *)
From stdpp Require Import sorting.
From S2P Require Import Prelude XhttpSession.
Local Open Scope Z_scope.

(** ** The send window *)
Definition UPLINK_WINDOW_POSTS : Z := 30.
Definition Posts : Type := list (Z * bool).
Fixpoint posts_insert (seq : Z) (done : bool) (posts : Posts) : Posts :=
  match posts with
  | [] => [(seq, done)]
  | (k, v) :: posts =>
    if seq <? k then (seq, done) :: (k, v) :: posts
    else if seq =? k then (seq, done) :: posts
    else (k, v) :: posts_insert seq done posts
  end.
Definition try_admit (max_posts : Z) (posts : Posts) (seq : Z) : option Posts :=
  match posts with
  | (low, _) :: _ => if max_posts <=? seq - low then None else Some (posts_insert seq false posts)
  | [] => Some (posts_insert seq false posts)
  end.
Fixpoint mark_done (seq : Z) (posts : Posts) : Posts :=
  match posts with
  | [] => []
  | (k, v) :: posts => if k =? seq then (k, true) :: posts else (k, v) :: mark_done seq posts
  end.
Fixpoint drop_done (posts : Posts) : Posts :=
  match posts with
  | (_, true) :: posts => drop_done posts
  | _ => posts
  end.
Definition complete (posts : Posts) (seq : Z) : Posts := drop_done (mark_done seq posts).

(** ** Answers and the closing POST *)
Definition RETRY_FIRST_DELAY : Z := 5.
Definition RETRY_MAX_DELAY : Z := 200.
Definition RETRY_BUDGET : Z := 30000.
(** [BusyRetry::again] after an attempt that was refused with 503 or not,
    [elapsed] after the first one: the next pause, and whether to send again. *)
Definition again (delay : Z) (busy : bool) (elapsed : Z) : Z * bool :=
  if busy && (elapsed <? RETRY_BUDGET) then (Z.min (delay * 2) RETRY_MAX_DELAY, true) else (delay, false).
(** The seq [FinOnDrop] sends its FIN under, if it sends one. *)
Definition fin_on_drop (armed even_unposted : bool) (next_seq : Z) : option Z :=
  if negb armed then None
  else if (next_seq =? 0) && negb even_unposted then None
  else Some next_seq.

(** ** A packet-up session *)
Record Upload : Type := mkUpload {
  next_seq : Z;
  window : Posts;
  answered : gset Z;
  server : UplinkState;
  popped : list bytes;
  torn_down : bool
}.
Definition upload_start : Upload := mkUpload 0 [] ∅ uplink_new [] false.

(** What the POST of [seq] gets from the server. *)
Definition deliver (w : Upload) (seq : Z) (data : bytes) : Upload :=
  let (u, r) := ingest_uplink (server w) seq data in
  match r with
  | Ok _ => mkUpload (next_seq w) (window w) ({[seq]} ∪ answered w) u (popped w) (torn_down w)
  | Err (GapTooLarge _ _) => mkUpload (next_seq w) (window w) (answered w) (close_uplink u) (popped w) true
  | Err _ => mkUpload (next_seq w) (window w) (answered w) u (popped w) (torn_down w)
  end.
Definition relay_pop (w : Upload) : Upload :=
  let (u, c) := pop_uplink_ready (server w) in
  mkUpload (next_seq w) (window w) (answered w) u (match c with Some c => popped w ++ [c] | None => popped w end) (torn_down w).

(** The messages the session hands the driver, in order. *)
Inductive upload_step (msgs : list bytes) (w : Upload) : Upload -> Prop :=
  | up_admit posts :
      next_seq w < zlen msgs ->
      try_admit UPLINK_WINDOW_POSTS (window w) (next_seq w) = Some posts ->
      upload_step msgs w (mkUpload (next_seq w + 1) posts (answered w) (server w) (popped w) (torn_down w))
  | up_deliver seq data :
      0 <= seq < next_seq w -> msgs !! Z.to_nat seq = Some data ->
      upload_step msgs w (deliver w seq data)
  (** A POST task ends: answered, or dropped with the session. *)
  | up_complete seq :
      seq ∈ answered w \/ torn_down w = true ->
      upload_step msgs w (mkUpload (next_seq w) (complete (window w) seq) (answered w) (server w) (popped w) (torn_down w))
  | up_pop : upload_step msgs w (relay_pop w)
  (** The driver has nothing left to send, has drained its POSTs and closes. *)
  | up_fin :
      next_seq w = zlen msgs -> torn_down w = false -> (forall seq, 0 <= seq < next_seq w -> seq ∈ answered w) ->
      upload_step msgs w (mkUpload (next_seq w) (window w) (answered w) (close_uplink (server w)) (popped w) false)
  (** The driver is aborted, or a POST of it has failed. *)
  | up_abort :
      upload_step msgs w (mkUpload (next_seq w) (window w) (answered w) (server w) (popped w) true)
  (** Then its FIN, or the janitor, may close the server at any time. *)
  | up_close :
      torn_down w = true ->
      upload_step msgs w (mkUpload (next_seq w) (window w) (answered w) (close_uplink (server w)) (popped w) true).
Inductive uploads (msgs : list bytes) : Upload -> Prop :=
  | uploads_start : uploads msgs upload_start
  | uploads_step w w' : uploads msgs w -> upload_step msgs w w' -> uploads msgs w'.

(** ** The server's queues *)
Definition total (l : list bytes) : Z := zlen (concat l).
Lemma total_bytes_app l k : total (l ++ k) = total l + total k.
Proof. unfold total. by rewrite concat_app, zlen_app. Qed.
Lemma total_bytes_cons x l : total (x :: l) = zlen x + total l.
Proof. unfold total. cbn [concat]. by rewrite zlen_app. Qed.
Definition parked_total (m : gmap Z bytes) : Z := Z.of_nat (map_sum length m).
Lemma parked_total_insert m k d : m !! k = None -> parked_total (<[k := d]> m) = zlen d + parked_total m.
Proof. intros H. unfold parked_total. rewrite map_sum_fresh by done. unfold zlen. lia. Qed.
Lemma parked_total_delete m k d : m !! k = Some d -> parked_total m = zlen d + parked_total (delete k m).
Proof. intros H. unfold parked_total. rewrite (map_sum_lookup length m k d H). unfold zlen. lia. Qed.
Lemma parked_total_nonneg m : 0 <= parked_total m.
Proof. unfold parked_total. lia. Qed.

Section uploads.
Variable msgs : list bytes.
Hypothesis Hsmall : zlen msgs < 2 ^ 64 - 1.
Hypothesis Hnonempty : Forall (fun m => m <> []) msgs.

(** What the server holds of the messages below [next], having handed over
    [out]. *)
Record holds (next : Z) (out : list bytes) (u : UplinkState) : Prop := {
  h_range : 0 <= expected_seq u <= next /\ next <= zlen msgs;
  h_order : out ++ ready u = take (Z.to_nat (expected_seq u)) msgs;
  h_parked : forall k d, reorder u !! k = Some d -> expected_seq u <= k < next /\ msgs !! Z.to_nat k = Some d;
  h_ready : ready_bytes u = total (ready u);
  h_reorder : reorder_bytes u = parked_total (reorder u) /\ reorder_bytes u <= UPLINK_REORDER_BUFFER_BYTES_CAP
}.
(** Nothing that could be promoted is left parked. *)
Definition promoted (u : UplinkState) : Prop :=
  forall d, reorder u !! expected_seq u = Some d -> UPLINK_READY_BYTES_CAP < ready_bytes u + zlen d.

Lemma take_succ k d : 0 <= k -> msgs !! Z.to_nat k = Some d -> take (Z.to_nat (k + 1)) msgs = take (Z.to_nat k) msgs ++ [d].
Proof. intros Hk Hd. replace (Z.to_nat (k + 1)) with (S (Z.to_nat k)) by lia. by apply take_S_r. Qed.
Lemma msgs_lt k d : msgs !! Z.to_nat k = Some d -> k < zlen msgs.
Proof. intros Hd. apply lookup_lt_Some in Hd. unfold zlen. lia. Qed.

Lemma promote_loop_holds fuel next out u :
  holds next out u -> (size (reorder u) < fuel)%nat ->
  holds next out (promote_loop fuel u) /\ promoted (promote_loop fuel u) /\
  up_closed (promote_loop fuel u) = up_closed u /\
  (forall k, expected_seq u <= k -> is_Some (reorder u !! k) ->
     k < expected_seq (promote_loop fuel u) \/ is_Some (reorder (promote_loop fuel u) !! k)) /\
  expected_seq u <= expected_seq (promote_loop fuel u).
Proof.
  revert u. induction fuel as [|fuel IH]; intros u Hu Hf; [lia|]. cbn [promote_loop].
  destruct (reorder u !! expected_seq u) as [d|] eqn:Ed; [|].
  2:{ split; [done|]. split; [intros d; by rewrite Ed|]. split; [done|]. split; [auto|lia]. }
  destruct (UPLINK_READY_BYTES_CAP <? ready_bytes u + zlen d) eqn:Eb.
  { apply Z.ltb_lt in Eb. split; [done|]. split; [intros d'; rewrite Ed; by intros [= <-]|]. split; [done|]. split; [auto|lia]. }
  destruct Hu as [Hr Ho Hp Hb [Hq Hcap]]. destruct (Hp _ _ Ed) as [Hk Hm]. pose proof (msgs_lt _ _ Hm) as Hlt.
  assert (seq_succ (expected_seq u) = expected_seq u + 1) as Hs by (unfold seq_succ; lia).
  pose proof (parked_total_delete _ _ _ Ed) as Ht. pose proof (parked_total_nonneg (delete (expected_seq u) (reorder u))) as Hpn.
  pose proof (zlen_nonneg d) as Hdn.
  edestruct (IH (mkUplinkState (seq_succ (expected_seq u)) (ready u ++ [d]) (ready_bytes u + zlen d)
             (delete (expected_seq u) (reorder u)) (sat_sub (reorder_bytes u) (zlen d)) (waiting_bytes u) (up_closed u)))
    as (H1 & H2 & H3 & H4 & H5).
  - split; cbn [expected_seq ready ready_bytes reorder reorder_bytes].
    + rewrite Hs. lia.
    + rewrite Hs, app_assoc, Ho. symmetry. apply take_succ; [lia|done].
    + intros k d' Hk'. apply lookup_delete_Some in Hk' as [Hne Hk']. destruct (Hp _ _ Hk'). split; [lia|done].
    + rewrite total_bytes_app, Hb. f_equal. unfold total. cbn. by rewrite app_nil_r.
    + unfold sat_sub. rewrite Hq in *. lia.
  - cbn [reorder]. rewrite map_size_delete, Ed.
    assert (size (reorder u) <> 0%nat) as Hsz by (intros H0; apply map_size_empty_iff in H0; by rewrite H0, lookup_empty in Ed).
    lia.
  - split; [done|]. split; [done|]. split; [done|]. cbn [expected_seq reorder] in *. split; [|lia].
    intros k Hk' Hsome. destruct (decide (k = expected_seq u)) as [->|]; [left; lia|].
    apply H4; [lia|]. by rewrite lookup_delete_ne by done.
Qed.

Lemma promote_holds next out u :
  holds next out u ->
  holds next out (promote_parked u) /\ promoted (promote_parked u) /\ up_closed (promote_parked u) = up_closed u /\
  (forall k, expected_seq u <= k -> is_Some (reorder u !! k) ->
     k < expected_seq (promote_parked u) \/ is_Some (reorder (promote_parked u) !! k)) /\
  expected_seq u <= expected_seq (promote_parked u).
Proof. intros Hu. apply promote_loop_holds; [done|lia]. Qed.

(** What the server has taken of a message. *)
Definition taken (u : UplinkState) (k : Z) : Prop := k < expected_seq u \/ is_Some (reorder u !! k).

Lemma ingest_holds next out u seq data :
  holds next out u -> promoted u -> 0 <= seq < next -> msgs !! Z.to_nat seq = Some data ->
  let (u', r) := ingest_uplink u seq data in
  holds next out u' /\ promoted u' /\ up_closed u' = up_closed u /\
  (forall k, taken u k -> taken u' k) /\ (r = Ok tt -> taken u' seq).
Proof.
  intros Hu Hp Hs Hd. unfold ingest_uplink.
  destruct data as [|b data']; [by eapply Forall_lookup_1 in Hnonempty|]. remember (b :: data') as data eqn:Edata.
  destruct (up_closed u) eqn:Ec; [by split_and!|].
  destruct (Z.ltb_spec seq (expected_seq u)) as [Hlt|Hge]; [split_and!; [done|done|done|done|by left]|].
  destruct (Z.eqb_spec seq (expected_seq u)) as [->|Hne].
  - destruct (negb (bool_decide (ready u = [])) && (UPLINK_READY_BYTES_CAP <? ready_bytes u + zlen data)) eqn:Efull; [by split_and!|].
    destruct Hu as [Hr Ho Hpk Hb [Hq Hcap]]. pose proof (msgs_lt _ _ Hd) as Hlt.
    assert (seq_succ (expected_seq u) = expected_seq u + 1) as Hsu by (unfold seq_succ; lia).
    assert (reorder u !! expected_seq u = None) as Hnone.
    { destruct (reorder u !! expected_seq u) as [d|] eqn:Ed; [exfalso|done].
      destruct (Hpk _ _ Ed) as [_ Hd']. assert (d = data) as -> by congruence. specialize (Hp _ Ed).
      assert (ready u = []) as Hnil by (destruct (ready u); [done|]; rewrite bool_decide_false in Efull by done; apply Z.ltb_ge in Efull; lia).
      rewrite Hnil in Hb. pose proof (parked_total_delete _ _ _ Ed). pose proof (parked_total_nonneg (delete (expected_seq u) (reorder u))).
      change (total []) with 0 in Hb. unfold UPLINK_READY_BYTES_CAP, UPLINK_REORDER_BUFFER_BYTES_CAP in *. lia. }
    edestruct (promote_holds next out (mkUplinkState (seq_succ (expected_seq u)) (ready u ++ [data]) (ready_bytes u + zlen data)
              (reorder u) (reorder_bytes u) (waiting_bytes u) false)) as (H1 & H2 & H3 & H4 & H5).
    { split; cbn [expected_seq ready ready_bytes reorder reorder_bytes].
      - rewrite Hsu. lia.
      - rewrite Hsu, app_assoc, Ho. symmetry. apply take_succ; [lia|done].
      - intros k d' Hk'. rewrite Hsu. destruct (Hpk _ _ Hk'). split; [|done].
        assert (k <> expected_seq u) by (intros ->; congruence). lia.
      - rewrite total_bytes_app, Hb. f_equal. unfold total. cbn. by rewrite app_nil_r.
      - done. }
    rewrite H3. cbn [expected_seq reorder up_closed] in *. rewrite Hsu in *.
    split; [done|]. split; [done|]. split; [done|]. split; [|intros _; left; lia].
    intros k [Hk|Hk]; [left; lia|]. apply H4; [|done]. destruct Hk as [d' Hk]. destruct (Hpk _ _ Hk).
    assert (k <> expected_seq u) by (intros ->; congruence). lia.
  - destruct (Z.ltb_spec UPLINK_REORDER_MAX_GAP (seq - expected_seq u)); [by split_and!|].
    destruct (Z.ltb_spec UPLINK_REORDER_BUFFER_BYTES_CAP (reorder_bytes u + zlen data)); [by split_and!|].
    split_and!; cbn [up_closed]; [|intros d; cbn [reorder expected_seq ready_bytes]; rewrite lookup_insert_ne by done; apply Hp|done| |].
    + destruct Hu as [Hr Ho Hpk Hb [Hq Hcap]]. split; cbn [expected_seq ready ready_bytes reorder reorder_bytes]; try done.
      * intros k d Hk. apply lookup_insert_Some in Hk as [[<- <-]|[_ Hk]]; [split; [lia|done]|by apply Hpk].
      * destruct (reorder u !! seq) as [d|] eqn:Ed.
        -- destruct (Hpk _ _ Ed) as [_ Hd']. assert (d = data) as -> by congruence. by rewrite insert_id.
        -- rewrite parked_total_insert by done. lia.
    + intros k [Hk|Hk]; [by left|right]. cbn [reorder]. destruct (decide (k = seq)) as [->|]; [by rewrite lookup_insert_eq|].
      by rewrite lookup_insert_ne.
    + intros _. right. cbn [reorder]. by rewrite lookup_insert_eq.
Qed.

Lemma pop_holds next out u :
  holds next out u -> promoted u ->
  let (u', c) := pop_uplink_ready u in
  holds next (match c with Some c => out ++ [c] | None => out end) u' /\ promoted u' /\ up_closed u' = up_closed u /\
  (forall k, taken u k -> taken u' k).
Proof.
  intros Hu Hp. unfold pop_uplink_ready. destruct (ready u) as [|c rest] eqn:Er; [by split_and!|].
  destruct Hu as [Hr Ho Hpk Hb [Hq Hcap]]. rewrite Er in *. rewrite total_bytes_cons in Hb.
  edestruct (promote_holds next (out ++ [c]) (mkUplinkState (expected_seq u) rest (sat_sub (ready_bytes u) (zlen c)) (reorder u) (reorder_bytes u)
          (waiting_bytes u) (up_closed u))) as (H1 & H2 & H3 & H4 & H5).
  { split; cbn [expected_seq ready ready_bytes reorder reorder_bytes]; try done.
    - by rewrite <- app_assoc.
    - unfold sat_sub. pose proof (zlen_nonneg (concat rest)). unfold total in *. lia. }
  rewrite H3. cbn [expected_seq reorder up_closed] in *. split_and!; try done.
  intros k [Hk|Hk]; [left; lia|]. apply H4; [|done]. destruct Hk as [d' Hk]. destruct (Hpk _ _ Hk). lia.
Qed.

(** ** The world *)
Record upload_inv (w : Upload) : Prop := {
  v_next : 0 <= next_seq w;
  v_holds : holds (next_seq w) (popped w) (server w);
  v_promoted : promoted (server w);
  v_answered : forall k, k ∈ answered w -> 0 <= k < next_seq w /\ taken (server w) k;
  v_closed : torn_down w = false -> up_closed (server w) = true ->
    next_seq w = zlen msgs /\ forall k, 0 <= k < next_seq w -> k ∈ answered w
}.
Lemma holds_close next out u : holds next out u -> holds next out (close_uplink u).
Proof. by intros []. Qed.
Lemma holds_next next next' out u : holds next out u -> next <= next' <= zlen msgs -> holds next' out u.
Proof.
  intros [Hr Ho Hp Hb Hq] Hn. split; try done; [lia|]. intros k d Hk. destruct (Hp _ _ Hk). split; [lia|done].
Qed.

Lemma uploads_inv w : uploads msgs w -> upload_inv w.
Proof.
  induction 1 as [|w w' _ [Hn Hh Hp Ha Hc] Hstep].
  - split; cbn; try done.
    + split; cbn; try done; pose proof (zlen_nonneg msgs); lia.
  - destruct Hstep as [posts Hlt _|seq data Hseq Hd|seq Hseq| |Hall _ Hans| |Htorn].
    + split; cbn; try done; [lia|eapply holds_next; [done|lia]| |].
      * intros k Hk. destruct (Ha _ Hk). split; [lia|done].
      * intros Ht Hcl. destruct (Hc Ht Hcl). lia.
    + pose proof (ingest_holds _ _ _ _ _ Hh Hp Hseq Hd) as Hi. unfold deliver.
      destruct (ingest_uplink (server w) seq data) as [u r]. destruct Hi as (H1 & H2 & H3 & H4 & H5).
      assert (forall k, k ∈ answered w -> 0 <= k < next_seq w /\ taken u k) as Ha'.
      { intros k Hk. destruct (Ha _ Hk). split; [done|by apply H4]. }
      destruct r as [[]|[]].
      all: split; cbn; try done.
      all: try (intros Ht; rewrite H3; by apply Hc).
      * intros k Hk. apply elem_of_union in Hk as [->%elem_of_singleton|Hk]; [split; [done|by apply H5]|by apply Ha'].
      * intros Ht. rewrite H3. intros Hcl. destruct (Hc Ht Hcl) as [-> Hx]. split; [done|]. intros k Hk.
        apply elem_of_union. right. by apply Hx.
      * by apply holds_close.
    + by split.
    + unfold relay_pop. pose proof (pop_holds _ _ _ Hh Hp) as Hpop. destruct (pop_uplink_ready (server w)) as [u c].
      destruct Hpop as (H1 & H2 & H3 & H4). split; cbn; try done.
      * intros k Hk. destruct (Ha _ Hk). split; [done|by apply H4].
      * rewrite H3. apply Hc.
    + split; cbn; try done. by apply holds_close.
    + split; cbn; try done.
    + split; cbn; try done. by apply holds_close.
Qed.

(** However the POSTs come, the relay has read a prefix of the messages. *)
Lemma upload_prefix w : uploads msgs w -> popped w `prefix_of` msgs.
Proof.
  intros Hw. destruct (uploads_inv w Hw) as [_ [_ Ho _ _ _] _ _ _].
  exists (ready (server w) ++ drop (Z.to_nat (expected_seq (server w))) msgs).
  by rewrite app_assoc, Ho, take_drop.
Qed.

Lemma fin_ready_empty w :
  upload_inv w -> torn_down w = false -> up_closed (server w) = true -> ready (server w) = [] -> popped w = msgs.
Proof.
  intros [_ Hh Hp Ha Hc] Ht Hcl Hr. destruct (Hc Ht Hcl) as [Hn Hall].
  destruct Hh as [Hrange Ho Hpk Hb [Hq Hcap]]. rewrite Hr in *. rewrite app_nil_r in Ho.
  destruct (Z.lt_ge_cases (expected_seq (server w)) (zlen msgs)) as [Hlt|Hge].
  - exfalso. destruct (Ha (expected_seq (server w))) as [_ [Hx|[d Hx]]]; [apply Hall; lia|lia|].
    specialize (Hp _ Hx). change (total []) with 0 in Hb. pose proof (parked_total_delete _ _ _ Hx).
    pose proof (parked_total_nonneg (delete (expected_seq (server w)) (reorder (server w)))).
    unfold UPLINK_READY_BYTES_CAP, UPLINK_REORDER_BUFFER_BYTES_CAP in *. lia.
  - rewrite Ho. apply take_ge. unfold zlen in *. lia.
Qed.
Lemma pop_torn w : torn_down (relay_pop w) = torn_down w.
Proof. unfold relay_pop. by destruct (pop_uplink_ready _). Qed.
Lemma pop_uploads n w : uploads msgs w -> uploads msgs (Nat.iter n relay_pop w).
Proof.
  intros Hw. induction n as [|n IH]; [done|]. eapply uploads_step; [exact IH|apply up_pop].
Qed.

(** A read either hands over a message or finds the queue empty. *)
Lemma pop_progress w :
  uploads msgs w ->
  ready (server w) = [] /\ relay_pop w = w \/
  length (popped (relay_pop w)) = S (length (popped w)) /\ up_closed (server (relay_pop w)) = up_closed (server w).
Proof.
  intros Hw. destruct (uploads_inv w Hw) as [_ Hh Hp _ _]. pose proof (pop_holds _ _ _ Hh Hp) as Hpop.
  unfold relay_pop, pop_uplink_ready in *. destruct (ready (server w)) as [|c rest] eqn:Er.
  - left. split; [done|]. by destruct w.
  - right. cbn [popped server]. split; [rewrite length_app; cbn; lia|]. apply Hpop.
Qed.
Lemma pops_drain n w :
  uploads msgs w ->
  let w' := Nat.iter n relay_pop w in
  ready (server w') = [] \/ (length (popped w') = n + length (popped w))%nat.
Proof.
  intros Hw. cbn zeta. induction n as [|n IH]; [by right|]. rewrite Nat.iter_succ.
  destruct (pop_progress _ (pop_uploads n w Hw)) as [[Hr ->]|[Hl _]].
  - by left.
  - destruct IH as [Hr|IH].
    + exfalso. revert Hl. unfold relay_pop at 1, pop_uplink_ready. rewrite Hr. cbn. lia.
    + right. rewrite Hl, IH. lia.
Qed.
Lemma pops_closed n w : uploads msgs w -> up_closed (server (Nat.iter n relay_pop w)) = up_closed (server w).
Proof.
  intros Hw. induction n as [|n IH]; [done|]. rewrite Nat.iter_succ.
  destruct (pop_progress _ (pop_uploads n w Hw)) as [[_ ->]|[_ ->]]; exact IH.
Qed.
Lemma pops_torn n w : torn_down (Nat.iter n relay_pop w) = torn_down w.
Proof. induction n as [|n IH]; [done|]. by rewrite Nat.iter_succ, pop_torn. Qed.

(** C18: What a packet-up upload comes to, for fewer than 2^64 - 1 messages of which
    none is empty (the server answers an empty POST without taking its number). In
    whatever order the POSTs come, however often and wherever the session is cut,
    the relay has read a prefix of the messages, each whole and once. And if nothing
    tore the session down - no POST failed, the driver was not aborted, the server
    did not give the session up - then once the FIN is there, which the driver
    sends after its last POST is answered, the relay's reads hand over what is left
    and end: after as many reads as there are messages it has had every one of
    them, in order, and then reads the end of the stream; and it never reads that
    end before. *)
Theorem xhttp_upload_complete w :
  uploads msgs w ->
  popped w `prefix_of` msgs
  /\ (torn_down w = false -> up_closed (server w) = true ->
      let w' := Nat.iter (length msgs) relay_pop w in
      popped w' = msgs /\ uplink_eof (server w') = true /\ (uplink_eof (server w) = true -> popped w = msgs)).
Proof.
  intros Hw. split; [by apply upload_prefix|]. revert Hw.
  intros Hw Ht Hc. cbn zeta. set (w' := Nat.iter _ _ _).
  assert (uploads msgs w') as Hw' by (by apply pop_uploads).
  assert (up_closed (server w') = true) as Hc' by (unfold w'; by rewrite pops_closed).
  assert (torn_down w' = false) as Ht' by (unfold w'; by rewrite pops_torn).
  pose proof (uploads_inv w' Hw') as Hinv.
  assert (ready (server w') = []) as Hr.
  { destruct (pops_drain (length msgs) w Hw) as [Hr|Hl]; [exact Hr|]. fold w' in Hl.
    destruct Hinv as [_ [_ Ho _ _ _] _ _ _]. apply (f_equal length) in Ho. rewrite length_app, length_take in Ho.
    apply nil_length_inv. lia. }
  split; [by apply fin_ready_empty|]. split.
  - unfold uplink_eof. by rewrite Hc', Hr.
  - unfold uplink_eof. rewrite Hc. intros He. apply bool_decide_eq_true in He. apply fin_ready_empty; try done.
    by apply uploads_inv.
Qed.

(** ** The window *)
Definition ascending (posts : Posts) : Prop := StronglySorted Z.lt (posts.*1).
Lemma posts_insert_last posts seq d : Forall (fun k => k < seq) (posts.*1) -> posts_insert seq d posts = posts ++ [(seq, d)].
Proof.
  induction posts as [|[k v] posts IH]; intros Hall; [done|]. cbn in *. apply Forall_cons in Hall as [Hk Hall].
  rewrite (proj2 (Z.ltb_ge seq k)), (proj2 (Z.eqb_neq seq k)) by lia. by rewrite IH.
Qed.
Lemma mark_done_keys seq posts : (mark_done seq posts).*1 = posts.*1.
Proof. induction posts as [|[k v] posts IH]; [done|]. cbn. destruct (k =? seq); [done|]. cbn. by rewrite IH. Qed.
Lemma mark_done_true seq posts k : (k, true) ∈ mark_done seq posts -> (k, true) ∈ posts \/ k = seq.
Proof.
  induction posts as [|[k' v] posts IH]; cbn; [auto|]. destruct (Z.eqb_spec k' seq) as [->|].
  - intros [[= ->]|Hin]%elem_of_cons; [auto|left; by right].
  - intros [[= <- <-]|Hin]%elem_of_cons; [left; by left|]. destruct (IH Hin); [left; by right|auto].
Qed.
Lemma drop_done_suffix posts : exists l, posts = l ++ drop_done posts /\ Forall (fun p => p.2 = true) l.
Proof.
  induction posts as [|[k v] posts (l & He & Hl)]; [by exists []|]. destruct v; cbn.
  - exists ((k, true) :: l). split; [by rewrite He at 1|by constructor].
  - by exists [].
Qed.

Record window_inv (w : Upload) : Prop := {
  g_sorted : ascending (window w);
  g_range : Forall (fun k => 0 <= k < next_seq w) ((window w).*1);
  g_cover : forall k, 0 <= k < next_seq w -> k ∈ (window w).*1 \/ k ∈ answered w;
  g_done : forall k, (k, true) ∈ window w -> k ∈ answered w;
  g_span : forall low d rest, window w = (low, d) :: rest -> next_seq w <= low + UPLINK_WINDOW_POSTS
}.

Lemma admit_window w posts :
  0 <= next_seq w -> window_inv w -> try_admit UPLINK_WINDOW_POSTS (window w) (next_seq w) = Some posts ->
  window_inv (mkUpload (next_seq w + 1) posts (answered w) (server w) (popped w) (torn_down w)).
Proof.
  intros Hn [Hs Hr Hc Hd Hw] Ha.
  assert (posts = window w ++ [(next_seq w, false)]) as ->.
  { unfold try_admit in Ha. destruct (window w) as [|[low d] rest] eqn:E; [by injection Ha as <-|].
    destruct (_ <=? _); [done|]. injection Ha as <-. apply (posts_insert_last ((low, d) :: rest)). eapply Forall_impl; [exact Hr|]. cbn. lia. }
  split; cbn [window next_seq answered].
  - unfold ascending. rewrite fmap_app. cbn. apply StronglySorted_app_2; [..|by repeat constructor]; [|exact Hs].
    intros k k' Hk ->%list_elem_of_singleton. rewrite Forall_forall in Hr. specialize (Hr _ Hk). lia.
  - rewrite fmap_app. apply Forall_app. split; [eapply Forall_impl; [exact Hr|]; cbn; lia|]. cbn. constructor; [lia|done].
  - intros k Hk. rewrite fmap_app, elem_of_app. destruct (decide (k = next_seq w)) as [->|].
    + left. right. cbn. by apply list_elem_of_singleton.
    + destruct (Hc k ltac:(lia)); auto.
  - intros k [Hk|[=]%list_elem_of_singleton]%elem_of_app. by apply Hd.
  - intros low d rest Heq. unfold try_admit in Ha. destruct (window w) as [|[low' d'] rest'] eqn:E.
    + injection Heq as <- <- <-. unfold UPLINK_WINDOW_POSTS. lia.
    + injection Heq as <- <- <-. destruct (Z.leb_spec UPLINK_WINDOW_POSTS (next_seq w - low')); [done|]. lia.
Qed.
Lemma complete_window w seq :
  window_inv w -> seq ∈ answered w ->
  window_inv (mkUpload (next_seq w) (complete (window w) seq) (answered w) (server w) (popped w) (torn_down w)).
Proof.
  intros [Hs Hr Hc Hd Hw] Hseq. unfold complete.
  destruct (drop_done_suffix (mark_done seq (window w))) as (l & He & Hl).
  pose proof (mark_done_keys seq (window w)) as Hk. rewrite He, fmap_app in Hk.
  assert (forall k, (k, true) ∈ mark_done seq (window w) -> k ∈ answered w) as Hdone.
  { intros k Hin. destruct (mark_done_true _ _ _ Hin) as [Hin'| -> ]; [by apply Hd|done]. }
  split; cbn [window next_seq answered].
  - unfold ascending in *. rewrite <- Hk in Hs. by apply StronglySorted_app_1_r in Hs.
  - rewrite <- Hk in Hr. apply Forall_app in Hr as [_ Hr]. exact Hr.
  - intros k Hkr. destruct (Hc k Hkr) as [Hin|]; [|by right]. rewrite <- Hk in Hin.
    apply elem_of_app in Hin as [Hin|Hin]; [right|by left]. apply list_elem_of_fmap in Hin as ([k' v] & -> & Hin).
    apply Hdone. rewrite He, elem_of_app. left. rewrite Forall_forall in Hl. pose proof (Hl _ Hin) as Hv. cbn in Hv. by subst v.
  - intros k Hin. apply Hdone. rewrite He, elem_of_app. by right.
  - intros low d rest Heq. rewrite Heq in Hk. destruct (window w) as [|[low' d'] rest'] eqn:E; [by destruct l|].
    specialize (Hw _ _ _ eq_refl). destruct l as [|[k v] l].
    + injection Hk as -> _. done.
    + injection Hk as -> Hk. unfold ascending in Hs. cbn in Hs. apply StronglySorted_inv in Hs as [_ Hs].
      change (l.*1 ++ low :: rest.*1 = rest'.*1) in Hk. rewrite <- Hk, Forall_app in Hs. destruct Hs as [_ Hs].
      apply Forall_cons in Hs as [Hs _]. lia.
Qed.
Lemma uploads_window w : uploads msgs w -> torn_down w = false -> window_inv w.
Proof.
  induction 1 as [|w w' Hw IH Hstep]; intros Ht.
  - split; cbn; [apply SSorted_nil|by constructor|lia|by intros k Hk%not_elem_of_nil|done].
  - destruct Hstep as [posts Hlt Hadm|seq data Hseq Hd|seq Hseq| |Hall Ht' Hans| |Htorn]; cbn in Ht; try done.
    + apply admit_window; [|by apply IH|done]. by destruct (uploads_inv w Hw).
    + unfold deliver in *. destruct (ingest_uplink (server w) seq data) as [u r].
      destruct r as [[]|[]]; cbn in Ht; try done; destruct (IH Ht) as [Hs Hr Hc Hdn Hsp]; split; try done.
      * intros k Hk. cbn. destruct (Hc k Hk); [by left|right]. apply elem_of_union. by right.
      * intros k Hk. cbn. apply elem_of_union. right. by apply Hdn.
    + apply complete_window; [by apply IH|]. destruct Hseq as [|Hx]; [done|congruence].
    + rewrite pop_torn in Ht. specialize (IH Ht). unfold relay_pop. destruct (pop_uplink_ready (server w)). by destruct IH.
    + destruct (IH Ht'). by split.
Qed.

(** The client's send window keeps the server's reorder buffer in reach: as
    long as the session has not been torn down, a POST the client has been
    allowed to send is less than 30 ahead of the one the server waits for, so it
    is never answered with the 409 that ends the session; unless the relay has
    left so much unread that the awaited POST, already parked, does not fit the
    ready queue's 256 KiB. *)
Theorem xhttp_window_gap w seq :
  uploads msgs w -> torn_down w = false -> 0 <= seq < next_seq w ->
  seq - expected_seq (server w) < UPLINK_WINDOW_POSTS \/
  exists head, reorder (server w) !! expected_seq (server w) = Some head /\
    UPLINK_READY_BYTES_CAP < ready_bytes (server w) + zlen head.
Proof.
  intros Hw Ht Hseq. destruct (uploads_inv w Hw) as [_ Hh Hp Ha _]. destruct (uploads_window w Hw Ht) as [Hs Hr Hc Hd Hsp].
  destruct (reorder (server w) !! expected_seq (server w)) as [head|] eqn:Eh; [right; exists head; split; [done|by apply Hp]|left].
  destruct (Z.le_gt_cases (next_seq w) (expected_seq (server w))) as [|Hlt]; [unfold UPLINK_WINDOW_POSTS; lia|].
  destruct (h_range _ _ _ Hh) as [[He _] _].
  destruct (Hc (expected_seq (server w)) ltac:(lia)) as [Hin|Hin].
  - destruct (window w) as [|[low d] rest] eqn:E; [by apply not_elem_of_nil in Hin|]. specialize (Hsp _ _ _ eq_refl).
    assert (low <= expected_seq (server w)); [|lia]. unfold ascending in Hs. cbn in Hs, Hin.
    apply StronglySorted_inv in Hs as [_ Hs]. rewrite Forall_forall in Hs.
    apply elem_of_cons in Hin as [->|Hin]; [lia|]. specialize (Hs _ Hin). lia.
  - destruct (Ha _ Hin) as [_ [|Hsome]]; [lia|]. rewrite Eh in Hsome. by destruct Hsome.
Qed.
End uploads.

(** ** Sessions to evaluate *)
Inductive move : Type := MAdmit | MDeliver (seq : Z) | MComplete (seq : Z) | MPop | MFin.
Definition make (msgs : list bytes) (m : move) (w : Upload) : option Upload :=
  match m with
  | MAdmit =>
    if next_seq w <? zlen msgs then
      match try_admit UPLINK_WINDOW_POSTS (window w) (next_seq w) with
      | Some posts => Some (mkUpload (next_seq w + 1) posts (answered w) (server w) (popped w) (torn_down w))
      | None => None
      end
    else None
  | MDeliver seq =>
    if (0 <=? seq) && (seq <? next_seq w) then
      match msgs !! Z.to_nat seq with Some data => Some (deliver w seq data) | None => None end
    else None
  | MComplete seq =>
    if bool_decide (seq ∈ answered w) then
      Some (mkUpload (next_seq w) (complete (window w) seq) (answered w) (server w) (popped w) (torn_down w))
    else None
  | MPop => Some (relay_pop w)
  | MFin =>
    if (next_seq w =? zlen msgs) && negb (torn_down w) &&
       forallb (fun k => bool_decide (Z.of_nat k ∈ answered w)) (seq 0 (Z.to_nat (next_seq w))) then
      Some (mkUpload (next_seq w) (window w) (answered w) (close_uplink (server w)) (popped w) false)
    else None
  end.
Fixpoint moves (msgs : list bytes) (ms : list move) (w : Upload) : option Upload :=
  match ms with
  | [] => Some w
  | m :: ms => match make msgs m w with Some w => moves msgs ms w | None => None end
  end.
Lemma make_step msgs m w w' : make msgs m w = Some w' -> upload_step msgs w w'.
Proof.
  destruct m as [|seq|seq| |]; cbn.
  - destruct (Z.ltb_spec (next_seq w) (zlen msgs)); [|done]. destruct (try_admit _ _ _) eqn:E; [|done].
    intros [= <-]. by apply up_admit.
  - destruct (_ && _) eqn:E; [|done]. destruct (msgs !! _) eqn:Ed; [|done]. intros [= <-]. apply up_deliver; [lia|done].
  - case_bool_decide; [|done]. intros [= <-]. apply up_complete. by left.
  - intros [= <-]. apply up_pop.
  - destruct (_ && forallb _ _) eqn:E; [|done]. intros [= <-]. rewrite !andb_true_iff in E. destruct E as [[En Et] Ef].
    apply Z.eqb_eq in En. rewrite forallb_forall in Ef. apply up_fin; [done|by apply negb_true_iff|].
    intros k Hk. specialize (Ef (Z.to_nat k)). rewrite Z2Nat.id in Ef by lia. apply bool_decide_eq_true in Ef; [done|].
    apply in_seq. lia.
Qed.
Lemma moves_uploads msgs ms w w' : uploads msgs w -> moves msgs ms w = Some w' -> uploads msgs w'.
Proof.
  revert w. induction ms as [|m ms IH]; intros w Hw; cbn; [by intros [= <-]|].
  destruct (make msgs m w) as [w1|] eqn:E; [|done]. apply IH. eapply uploads_step; [done|by eapply make_step].
Qed.
Definition outcome (msgs : list bytes) (ms : list move) : Upload := default upload_start (moves msgs ms upload_start).
Lemma outcome_uploads msgs ms : bool_decide (is_Some (moves msgs ms upload_start)) = true -> uploads msgs (outcome msgs ms).
Proof.
  intros H. apply bool_decide_eq_true in H as [w Hw]. unfold outcome. rewrite Hw. apply (moves_uploads _ ms upload_start); [apply uploads_start|done].
Qed.

Definition demo_msgs : list bytes := [[x01]; [x02; x02]; [x03]].
(** The second and third POST overtake the first, which is delivered twice. *)
Definition demo_moves : list move :=
  [MAdmit; MAdmit; MAdmit; MDeliver 2; MDeliver 1; MComplete 2; MDeliver 0; MDeliver 0; MPop; MComplete 1; MComplete 0; MFin].
Definition demo_upload : Upload := outcome demo_msgs demo_moves.
Lemma demo_uploads : uploads demo_msgs demo_upload.
Proof. apply outcome_uploads. vm_compute. reflexivity. Qed.
Lemma demo_nonempty : Forall (fun m : bytes => m <> []) demo_msgs.
Proof. by repeat constructor. Qed.

Lemma xhttp_upload_complete_witness : popped (Nat.iter 3 relay_pop demo_upload) = demo_msgs.
Proof.
  refine (proj1 (proj2 (xhttp_upload_complete demo_msgs _ demo_nonempty demo_upload demo_uploads) _ _)); vm_compute; reflexivity.
Defined.
Definition demo_running : Upload := outcome demo_msgs (take 6 demo_moves).
Lemma xhttp_window_gap_witness :
  2 - expected_seq (server demo_running) < UPLINK_WINDOW_POSTS \/
  exists head, reorder (server demo_running) !! expected_seq (server demo_running) = Some head /\
    UPLINK_READY_BYTES_CAP < ready_bytes (server demo_running) + zlen head.
Proof.
  apply (xhttp_window_gap demo_msgs); [reflexivity|exact demo_nonempty| |vm_compute; reflexivity|vm_compute; split; [discriminate|reflexivity]].
  apply outcome_uploads. vm_compute. reflexivity.
Defined.

(** A relay that reads nothing: a first POST of 262142 bytes fills the ready
    queue, the second, of 3 bytes, was parked before it came and stays parked. *)
Definition long_msgs : list bytes := replicate (Z.to_nat 262142) x00 :: [x01; x01; x01] :: replicate 70 [x02].
Definition seqs (a n : nat) : list Z := Z.of_nat <$> seq a n.
Definition long_moves : list move :=
  replicate 30 MAdmit ++ (MDeliver <$> seqs 1 29) ++ [MDeliver 0] ++ (MComplete <$> seqs 0 30) ++
  replicate 30 MAdmit ++ (MDeliver <$> seqs 30 30) ++ (MComplete <$> seqs 30 30) ++ replicate 7 MAdmit.
Definition long_upload : Upload := outcome long_msgs long_moves.

(** The exception of [xhttp_window_gap] occurs: every POST sent so far has been
    answered, and the server refuses the client's POST 66 for good. *)
Theorem xhttp_window_overrun :
  uploads long_msgs long_upload /\ torn_down long_upload = false /\ next_seq long_upload = 67 /\
  (ingest_uplink (server long_upload) 66 [x02]).2 = Err (GapTooLarge 1 66).
Proof.
  split; [|vm_compute; auto].
  apply outcome_uploads. vm_compute. reflexivity.
Qed.
