(* ===== verification/XhttpRegistry.v ===== *)
(** The registry of XHTTP sessions
    ([bins/outline-ss-rust/src/server/transport/xhttp/mod.rs], [spawn_relay] of
    [handlers.rs]): who holds a session, the caps, and what the janitor and the
    relay tasks remove.

    A session behind an [Arc] is an object; the registry maps ids to objects.
    Requests race, so [get_or_create] is two steps, on either side of the point
    where its per-address slot is reserved. An [Arc] is dropped at some moment
    after the registry and the relay task have let go of it. *)
From S2P Require Import Prelude Orphans MeshEdge XhttpSession.
Local Open Scope Z_scope.

(** An address by its octets. *)
Definition SourceIp : Type := bytes.
Record Entry : Type := mkEntry {
  entry_id : bytes;
  session : XhttpSession;
  issued_resume_id : option SessionId;
  relayed_echo : option ResumeResponseEcho;
  source_ip_guard : option SourceIp;
  relay_running : bool
}.
Record XhttpRegistry : Type := mkRegistry {
  objects : gmap nat Entry;
  fresh_object : nat;
  sessions : gmap bytes nat;
  max_sessions : Z;
  max_sessions_per_ip : Z;
  per_ip : gmap SourceIp Z;
  permits : option Z
}.
Definition with_limits (max_sessions max_sessions_per_ip max_relay_tasks : Z) : XhttpRegistry :=
  mkRegistry ∅ 0 ∅ max_sessions max_sessions_per_ip ∅ (if 0 <? max_relay_tasks then Some max_relay_tasks else None).
Definition set_objects (r : XhttpRegistry) (os : gmap nat Entry) : XhttpRegistry :=
  mkRegistry os (fresh_object r) (sessions r) (max_sessions r) (max_sessions_per_ip r) (per_ip r) (permits r).
Definition set_per_ip (r : XhttpRegistry) (m : gmap SourceIp Z) : XhttpRegistry :=
  mkRegistry (objects r) (fresh_object r) (sessions r) (max_sessions r) (max_sessions_per_ip r) m (permits r).
Definition with_session (e : Entry) (s : XhttpSession) : Entry :=
  mkEntry (entry_id e) s (issued_resume_id e) (relayed_echo e) (source_ip_guard e) (relay_running e).

(** ** The cap per source address *)
Definition reserve_source_slot (r : XhttpRegistry) (ip : SourceIp) : option (XhttpRegistry * option SourceIp) :=
  if max_sessions_per_ip r =? 0 then Some (r, None)
  else
    let slot := default 0 (per_ip r !! ip) in
    if max_sessions_per_ip r <=? slot then None
    else Some (set_per_ip r (<[ip := slot + 1]> (per_ip r)), Some ip).
(** [PerIpGuard]'s drop; the two lookups are one step. *)
Definition release_slot (r : XhttpRegistry) (guard : option SourceIp) : XhttpRegistry :=
  match guard with
  | None => r
  | Some ip =>
    match per_ip r !! ip with
    | None => r
    | Some slot =>
      let slot := sat_sub slot 1 in
      set_per_ip r (if slot =? 0 then delete ip (per_ip r) else <[ip := slot]> (per_ip r))
    end
  end.

(** ** Creating and finding *)
Inductive reject : Type := RejectSessions | RejectPerIp.
Inductive begun : Type := Existing (oid : nat) | Rejected (reason : reject) | Reserved (guard : option SourceIp).
Definition get (r : XhttpRegistry) (id : bytes) : option nat := sessions r !! id.
Definition get_or_create_begin (r : XhttpRegistry) (id : bytes) (ip : SourceIp) : XhttpRegistry * begun :=
  match sessions r !! id with
  | Some oid => (r, Existing oid)
  | None =>
    if (0 <? max_sessions r) && (max_sessions r <=? Z.of_nat (size (sessions r))) then (r, Rejected RejectSessions)
    else
      match reserve_source_slot r ip with
      | None => (r, Rejected RejectPerIp)
      | Some (r, guard) => (r, Reserved guard)
      end
  end.
(** The loser of a race gives its slot back. *)
Definition get_or_create_finish (r : XhttpRegistry) (id : bytes) (guard : option SourceIp)
    (issued : option SessionId) (echo : option ResumeResponseEcho) : XhttpRegistry * nat * bool :=
  match sessions r !! id with
  | Some oid => (release_slot r guard, oid, false)
  | None =>
    let oid := fresh_object r in
    (mkRegistry (<[oid := mkEntry id session_new issued echo guard false]> (objects r)) (S oid)
       (<[id := oid]> (sessions r)) (max_sessions r) (max_sessions_per_ip r) (per_ip r) (permits r), oid, true)
  end.
Inductive SessionSlot : Type := Ready (oid : nat) (created : bool) | Refused (reason : reject).
Definition get_or_create (r : XhttpRegistry) (id : bytes) (ip : SourceIp)
    (issued : option SessionId) (echo : option ResumeResponseEcho) : XhttpRegistry * SessionSlot :=
  match get_or_create_begin r id ip with
  | (r, Existing oid) => (r, Ready oid false)
  | (r, Rejected reason) => (r, Refused reason)
  | (r, Reserved guard) => let '(r, oid, created) := get_or_create_finish r id guard issued echo in (r, Ready oid created)
  end.
Definition remove (r : XhttpRegistry) (id : bytes) : XhttpRegistry :=
  mkRegistry (objects r) (fresh_object r) (delete id (sessions r)) (max_sessions r) (max_sessions_per_ip r) (per_ip r) (permits r).

(** A method of the session behind [oid]. *)
Definition on_session (r : XhttpRegistry) (oid : nat) (f : XhttpSession -> XhttpSession) : XhttpRegistry :=
  set_objects r (alter (fun e => with_session e (f (session e))) oid (objects r)).
Definition id_of (r : XhttpRegistry) (oid : nat) : bytes := match objects r !! oid with Some e => entry_id e | None => [] end.

(** ** Relay tasks *)
Definition set_relay (r : XhttpRegistry) (oid : nat) (running : bool) (permits : option Z) : XhttpRegistry :=
  mkRegistry
    (alter (fun e => mkEntry (entry_id e) (session e) (issued_resume_id e) (relayed_echo e) (source_ip_guard e) running)
       oid (objects r))
    (fresh_object r) (sessions r) (max_sessions r) (max_sessions_per_ip r) (per_ip r) permits.
Definition try_acquire_relay_permit (r : XhttpRegistry) : option (option Z) :=
  match permits r with
  | Some n => if 0 <? n then Some (Some (n - 1)) else None
  | None => Some None
  end.
(** Closing a session and dropping its registry slot: what a seq gap, a full
    relay pool and the end of a relay task do. *)
Definition tear_down (r : XhttpRegistry) (oid : nat) (id : bytes) : XhttpRegistry := remove (on_session r oid close) id.
Definition spawn_relay (r : XhttpRegistry) (oid : nat) : XhttpRegistry * bool :=
  match try_acquire_relay_permit r with
  | None => (tear_down r oid (id_of r oid), false)
  | Some permits => (set_relay r oid true permits, true)
  end.
Definition relay_exit (r : XhttpRegistry) (oid : nat) : XhttpRegistry :=
  let r := tear_down r oid (id_of r oid) in
  set_relay r oid false (match permits r with Some n => Some (n + 1) | None => None end).

(** ** The janitor *)
(** One entry of the sweep. [last_uplink]: of the session's HTTP/3 anchor. *)
Definition evict_one (r : XhttpRegistry) (id : bytes) (last_uplink : option Z) (cutoff : Z) : XhttpRegistry :=
  match sessions r !! id with
  | None => r
  | Some oid =>
    match objects r !! oid with
    | None => r
    | Some e =>
      if closed (session e) then remove r id
      else if is_evictable (session e) last_uplink cutoff then tear_down r oid id
      else r
    end
  end.
(** The last [Arc] goes. *)
Definition reclaim (r : XhttpRegistry) (oid : nat) : XhttpRegistry :=
  match objects r !! oid with
  | None => r
  | Some e => release_slot (set_objects r (delete oid (objects r))) (source_ip_guard e)
  end.

(** ** Reachable registries *)
(** [pend]: the guards of the requests between the two halves of
    [get_or_create]; at most [K] of them. *)
Inductive registry_step (K : nat) : XhttpRegistry * list (option SourceIp) -> XhttpRegistry * list (option SourceIp) -> Prop :=
  | rs_begin r pend id ip r' guard :
      (length pend < K)%nat -> get_or_create_begin r id ip = (r', Reserved guard) ->
      registry_step K (r, pend) (r', guard :: pend)
  | rs_finish r pend pend' id guard issued echo :
      registry_step K (r, pend ++ guard :: pend') ((get_or_create_finish r id guard issued echo).1.1, pend ++ pend')
  | rs_spawn r pend oid e :
      objects r !! oid = Some e -> relay_running e = false ->
      registry_step K (r, pend) ((spawn_relay r oid).1, pend)
  | rs_exit r pend oid e :
      objects r !! oid = Some e -> relay_running e = true ->
      registry_step K (r, pend) (relay_exit r oid, pend)
  | rs_session r pend oid f :
      registry_step K (r, pend) (on_session r oid f, pend)
  | rs_gap r pend oid :
      registry_step K (r, pend) (tear_down r oid (id_of r oid), pend)
  | rs_evict r pend id last_uplink cutoff :
      registry_step K (r, pend) (evict_one r id last_uplink cutoff, pend)
  | rs_reclaim r pend oid e :
      objects r !! oid = Some e -> relay_running e = false -> (forall id, sessions r !! id <> Some oid) ->
      registry_step K (r, pend) (reclaim r oid, pend).
Inductive registries (K : nat) (max_sessions max_sessions_per_ip max_relay_tasks : Z)
    : XhttpRegistry * list (option SourceIp) -> Prop :=
  | registries_start : registries K max_sessions max_sessions_per_ip max_relay_tasks (with_limits max_sessions max_sessions_per_ip max_relay_tasks, [])
  | registries_step w w' :
      registries K max_sessions max_sessions_per_ip max_relay_tasks w -> registry_step K w w' ->
      registries K max_sessions max_sessions_per_ip max_relay_tasks w'.

(** ** What the counters count *)
Definition guard_is (ip : SourceIp) (g : option SourceIp) : nat := if decide (g = Some ip) then 1%nat else 0%nat.
Definition guards (ip : SourceIp) (os : gmap nat Entry) : nat := map_sum (fun e => guard_is ip (source_ip_guard e)) os.
Fixpoint pend_guards (ip : SourceIp) (pend : list (option SourceIp)) : nat :=
  match pend with [] => 0%nat | g :: pend => (guard_is ip g + pend_guards ip pend)%nat end.
Definition relays (os : gmap nat Entry) : nat := map_sum (fun e => if relay_running e then 1%nat else 0%nat) os.

Lemma map_sum_alter {A} (f : A -> nat) (g : A -> A) (k : nat) (m : gmap nat A) x :
  m !! k = Some x -> (map_sum f (alter g k m) + f x = map_sum f m + f (g x))%nat.
Proof.
  intros Hk. rewrite (map_sum_lookup f m k x Hk). rewrite (map_sum_lookup f (alter g k m) k (g x)).
  - rewrite delete_alter_eq. lia.
  - by rewrite lookup_alter_eq, Hk.
Qed.
Lemma map_sum_alter_same {A} (f : A -> nat) (g : A -> A) (k : nat) (m : gmap nat A) :
  (forall x, f (g x) = f x) -> map_sum f (alter g k m) = map_sum f m.
Proof.
  intros Hg. destruct (m !! k) as [x|] eqn:Hk.
  - pose proof (map_sum_alter f g k m x Hk) as H. rewrite Hg in H. lia.
  - by rewrite alter_id by (intros x Hx; congruence).
Qed.
Lemma pend_guards_app ip l1 l2 : pend_guards ip (l1 ++ l2) = (pend_guards ip l1 + pend_guards ip l2)%nat.
Proof. induction l1 as [|g l1 IH]; cbn; [done|]. rewrite IH. lia. Qed.
Lemma default_some (d x : Z) : default d (Some x) = x.
Proof. done. Qed.
Lemma guard_is_self ip : guard_is ip (Some ip) = 1%nat.
Proof. unfold guard_is. by rewrite decide_True. Qed.
Lemma guard_is_other ip ip' : ip <> ip' -> guard_is ip (Some ip') = 0%nat.
Proof. intros H. unfold guard_is. by rewrite decide_False by congruence. Qed.

Section invariant.
Context (K : nat) (ms mp mr : Z).
Hypothesis Hmp : 0 <= mp.
Hypothesis Hmr : 0 <= mr.

(** [extra]: guards held outside of the registry. *)
Record counts (r : XhttpRegistry) (extra : list (option SourceIp)) : Prop := {
  c_ms : max_sessions r = ms;
  c_mp : max_sessions_per_ip r = mp;
  c_ip : forall ip, default 0 (per_ip r !! ip) = Z.of_nat (guards ip (objects r) + pend_guards ip extra);
  c_cap : forall ip n, per_ip r !! ip = Some n -> 0 < n <= mp;
  c_ids : forall id oid, sessions r !! id = Some oid -> exists e, objects r !! oid = Some e /\ entry_id e = id;
  c_fresh : forall oid e, objects r !! oid = Some e -> (oid < fresh_object r)%nat
}.
Definition relay_counts (r : XhttpRegistry) : Prop :=
  permits r = (if 0 <? mr then Some (mr - Z.of_nat (relays (objects r))) else None) /\
  (0 < mr -> Z.of_nat (relays (objects r)) <= mr).
Definition room (r : XhttpRegistry) (pend : list (option SourceIp)) : Prop :=
  (length pend <= K)%nat /\ (0 < ms -> Z.of_nat (size (sessions r)) + zlen pend < ms + Z.of_nat K).

Lemma counts_release r g extra : counts r (g :: extra) -> counts (release_slot r g) extra.
Proof.
  intros [Hs Hp Hi Hc Hid Hf]. unfold release_slot. destruct g as [ip|].
  2:{ split; try done. }
  pose proof (Hi ip) as Hip. cbn [pend_guards] in Hip. rewrite guard_is_self in Hip.
  destruct (per_ip r !! ip) as [slot|] eqn:E; [|cbn in Hip; lia]. change (default 0 (Some slot)) with slot in Hip. unfold sat_sub.
  rewrite Z.max_r by lia. split; cbn [set_per_ip max_sessions max_sessions_per_ip per_ip objects sessions fresh_object]; try done.
  - intros ip'. destruct (decide (ip' = ip)) as [->|Hne].
    + destruct (Z.eqb_spec (slot - 1) 0); [rewrite lookup_delete_eq|rewrite lookup_insert_eq]; rewrite ?default_some; cbn [from_option]; lia.
    + specialize (Hi ip'). cbn [pend_guards] in Hi. rewrite guard_is_other, Nat.add_0_l in Hi by done. rewrite <- Hi.
      destruct (slot - 1 =? 0); [by rewrite lookup_delete_ne|by rewrite lookup_insert_ne].
  - intros ip' n. destruct (decide (ip' = ip)) as [->|Hne].
    + specialize (Hc _ _ E). destruct (Z.eqb_spec (slot - 1) 0); [by rewrite lookup_delete_eq|].
      rewrite lookup_insert_eq. intros [= <-]. lia.
    + destruct (slot - 1 =? 0); [rewrite lookup_delete_ne by done|rewrite lookup_insert_ne by done]; apply Hc.
Qed.
Lemma counts_reserve r ip r' g extra :
  counts r extra -> reserve_source_slot r ip = Some (r', g) -> counts r' (g :: extra).
Proof.
  intros [Hs Hp Hi Hc Hid Hf]. unfold reserve_source_slot. rewrite Hp.
  destruct (Z.eqb_spec mp 0) as [|Hne0]; [intros [= <- <-]; by split|].
  destruct (Z.leb_spec mp (default 0 (per_ip r !! ip))) as [|Hlt]; [done|]. intros [= <- <-].
  split; cbn [set_per_ip max_sessions max_sessions_per_ip per_ip objects sessions fresh_object pend_guards]; try done.
  - intros ip'. specialize (Hi ip'). destruct (decide (ip' = ip)) as [->|Hne].
    + rewrite lookup_insert_eq, guard_is_self. rewrite default_some. lia.
    + rewrite lookup_insert_ne, guard_is_other by done. lia.
  - intros ip' n. destruct (decide (ip' = ip)) as [->|Hne].
    + rewrite lookup_insert_eq. intros [= <-]. specialize (Hi ip). lia.
    + rewrite lookup_insert_ne by done. apply Hc.
Qed.
Lemma counts_alter r oid g extra :
  counts r extra ->
  (forall e, source_ip_guard (g e) = source_ip_guard e /\ entry_id (g e) = entry_id e) ->
  counts (set_objects r (alter g oid (objects r))) extra.
Proof.
  intros [Hs Hp Hi Hc Hid Hf] Hg. split; cbn; try done.
  - intros ip. rewrite Hi. do 2 f_equal. symmetry. apply map_sum_alter_same. intros e. by rewrite (proj1 (Hg e)).
  - intros id oid' Ho. destruct (Hid _ _ Ho) as (e & He & Hie). rewrite lookup_alter.
    destruct (decide (oid = oid')) as [->|]; rewrite He; [|by exists e]. exists (g e). split; [done|]. by rewrite (proj2 (Hg e)).
  - intros oid' e. rewrite lookup_alter. destruct (objects r !! oid') as [e'|] eqn:E; [intros _; by eapply Hf|].
    destruct (decide (oid = oid')) as [->|]; by rewrite ?E.
Qed.
Lemma counts_remove r id extra : counts r extra -> counts (remove r id) extra.
Proof.
  intros [Hs Hp Hi Hc Hid Hf]. split; cbn; try done. intros id' oid Ho. apply lookup_delete_Some in Ho as [_ Ho]. by apply Hid.
Qed.
Lemma counts_tear_down r oid id extra : counts r extra -> counts (tear_down r oid id) extra.
Proof. intros Hr. apply counts_remove, counts_alter; [done|]. intros []; by split. Qed.
Lemma counts_set_relay r oid b p extra : counts r extra -> counts (set_relay r oid b p) extra.
Proof.
  intros Hr. pose proof (counts_alter r oid (fun e => mkEntry (entry_id e) (session e) (issued_resume_id e) (relayed_echo e) (source_ip_guard e) b)
    extra Hr (fun e => conj eq_refl eq_refl)) as []. by split.
Qed.
Lemma counts_new r id g issued echo extra :
  counts r (g :: extra) -> sessions r !! id = None -> counts (get_or_create_finish r id g issued echo).1.1 extra.
Proof.
  intros [Hs Hp Hi Hc Hid Hf] Hn. unfold get_or_create_finish. rewrite Hn.
  assert (objects r !! fresh_object r = None) as Hnone.
  { destruct (objects r !! fresh_object r) as [e|] eqn:E; [|done]. specialize (Hf _ _ E). lia. }
  split; cbn; try done.
  - intros ip. rewrite Hi. unfold guards. rewrite map_sum_fresh by done. cbn [source_ip_guard pend_guards]. lia.
  - intros id' oid Ho. apply lookup_insert_Some in Ho as [[<- <-]|[Hne Ho]].
    + eexists. by rewrite lookup_insert_eq.
    + destruct (Hid _ _ Ho) as (e & He & Hie). exists e. split; [|done]. rewrite lookup_insert_ne; [done|]. intros <-. congruence.
  - intros oid e Ho. apply lookup_insert_Some in Ho as [[<- _]|[_ Ho]]; [lia|]. specialize (Hf _ _ Ho). lia.
Qed.
Lemma counts_reclaim r oid extra :
  counts r extra -> (forall id, sessions r !! id <> Some oid) -> counts (reclaim r oid) extra.
Proof.
  intros [Hs Hp Hi Hc Hid Hf] Hun. unfold reclaim. destruct (objects r !! oid) as [e|] eqn:E; [|by split].
  apply counts_release. split; cbn; try done.
  - intros ip. rewrite Hi. unfold guards. rewrite (map_sum_lookup _ _ _ _ E). cbn [pend_guards]. lia.
  - intros id' oid' Ho. destruct (Hid _ _ Ho) as (e' & He & Hie). exists e'. split; [|done].
    rewrite lookup_delete_ne; [done|]. intros ->. by eapply Hun.
  - intros oid' e' Ho. apply lookup_delete_Some in Ho as [_ Ho]. by eapply Hf.
Qed.

(** ** The relay permits and the room *)
Lemma release_same r g :
  objects (release_slot r g) = objects r /\ sessions (release_slot r g) = sessions r /\ permits (release_slot r g) = permits r.
Proof. unfold release_slot. destruct g as [ip|]; [|done]. by destruct (per_ip r !! ip). Qed.
Lemma reserve_same r ip r' g :
  reserve_source_slot r ip = Some (r', g) -> objects r' = objects r /\ sessions r' = sessions r /\ permits r' = permits r.
Proof.
  unfold reserve_source_slot. destruct (_ =? _); [by intros [= <- _]|]. cbn zeta. destruct (_ <=? _); [done|].
  by intros [= <- _].
Qed.
Lemma relays_same r os : relays os = relays (objects r) -> relay_counts r -> relay_counts (set_objects r os).
Proof. intros He [Hp Hl]. unfold relay_counts. cbn. by rewrite He. Qed.
Lemma relay_counts_on r oid f : relay_counts r -> relay_counts (on_session r oid f).
Proof. apply relays_same. by apply map_sum_alter_same. Qed.
Lemma relay_counts_tear_down r oid id : relay_counts r -> relay_counts (tear_down r oid id).
Proof. apply (relay_counts_on r oid close). Qed.
Lemma relay_counts_release r g : relay_counts r -> relay_counts (release_slot r g).
Proof. unfold relay_counts. destruct (release_same r g) as (-> & _ & ->). done. Qed.
Lemma relay_counts_spawn r oid e :
  objects r !! oid = Some e -> relay_running e = false -> relay_counts r -> relay_counts (spawn_relay r oid).1.
Proof.
  intros He Hrun Hr. unfold spawn_relay, try_acquire_relay_permit. destruct Hr as [Hp Hl].
  pose proof (map_sum_alter (fun e => if relay_running e then 1%nat else 0%nat)
    (fun e => mkEntry (entry_id e) (session e) (issued_resume_id e) (relayed_echo e) (source_ip_guard e) true) oid (objects r) e He) as Hsum.
  cbn [relay_running] in Hsum. rewrite Hrun in Hsum.
  destruct (permits r) as [n|] eqn:Ep.
  - destruct (Z.ltb_spec 0 mr); [|done]. injection Hp as ->. destruct (Z.ltb_spec 0 (mr - Z.of_nat (relays (objects r)))).
    + unfold relay_counts, set_relay, relays in *. cbn. rewrite (proj2 (Z.ltb_lt 0 mr)) by done. split; [f_equal; lia|lia].
    + cbn [fst]. apply relay_counts_tear_down. unfold relay_counts. rewrite Ep, (proj2 (Z.ltb_lt 0 mr)) by done. by split.
  - destruct (Z.ltb_spec 0 mr); [done|]. unfold relay_counts. cbn. rewrite (proj2 (Z.ltb_ge 0 mr)) by done. split; [done|lia].
Qed.
Lemma relay_counts_exit r oid e :
  objects r !! oid = Some e -> relay_running e = true -> relay_counts r -> relay_counts (relay_exit r oid).
Proof.
  intros He Hrun Hr. unfold relay_exit. apply (relay_counts_tear_down _ oid (id_of r oid)) in Hr.
  remember (tear_down r oid (id_of r oid)) as r' eqn:Er.
  assert (objects r' !! oid = Some (with_session e (close (session e)))) as He'.
  { subst r'. cbn. by rewrite lookup_alter_eq, He. }
  destruct Hr as [Hp Hl].
  pose proof (map_sum_alter (fun e => if relay_running e then 1%nat else 0%nat)
    (fun e => mkEntry (entry_id e) (session e) (issued_resume_id e) (relayed_echo e) (source_ip_guard e) false) oid (objects r') _ He') as Hsum.
  cbn [relay_running with_session] in Hsum. rewrite Hrun in Hsum. unfold relay_counts, set_relay, relays in *. cbn.
  rewrite Hp. destruct (Z.ltb_spec 0 mr); split; [f_equal; lia|lia|done|lia].
Qed.

Definition sound (w : XhttpRegistry * list (option SourceIp)) : Prop := counts w.1 w.2 /\ relay_counts w.1 /\ room w.1 w.2.
Lemma room_le r r' pend : (size (sessions r') <= size (sessions r))%nat -> room r pend -> room r' pend.
Proof. intros Hs [Hk Hr]. split; [done|]. intros H. specialize (Hr H). lia. Qed.
Lemma size_remove r id : (size (sessions (remove r id)) <= size (sessions r))%nat.
Proof. cbn. rewrite map_size_delete. destruct (sessions r !! id); cbn; lia. Qed.
Lemma sound_tear_down r oid id pend : sound (r, pend) -> sound (tear_down r oid id, pend).
Proof.
  intros (Hc & Hr & Hm). split_and!; [by apply counts_tear_down|by apply relay_counts_tear_down|].
  eapply room_le; [|exact Hm]. apply (size_remove (on_session r oid close)).
Qed.
Lemma sound_step w w' : sound w -> registry_step K w w' -> sound w'.
Proof.
  intros Hs Hstep. destruct Hstep as [r pend id ip r' g Hlen Hb|r pend pend' id g issued echo|r pend oid e He Hrun|r pend oid e He Hrun
    |r pend oid f|r pend oid|r pend id last cutoff|r pend oid e He Hrun Hun].
  - destruct Hs as (Hc & Hr & Hm). cbn [fst snd] in *. unfold get_or_create_begin in Hb.
    destruct (sessions r !! id); [done|]. rewrite (c_ms _ _ Hc) in Hb.
    destruct (_ && _) eqn:Ecap; [done|]. destruct (reserve_source_slot r ip) as [[r1 g1]|] eqn:Eres; [|done].
    injection Hb as <- <-. destruct (reserve_same _ _ _ _ Eres) as (Ho & Hse & Hpe).
    split_and!; cbn [fst snd].
    + by eapply counts_reserve.
    + unfold relay_counts. rewrite Ho, Hpe. exact Hr.
    + destruct Hm as [_ Hm]. split; [cbn; lia|]. rewrite Hse. intros Hms. rewrite zlen_cons. unfold zlen. lia.
  - destruct Hs as (Hc & Hr & Hm). cbn [fst snd] in *.
    assert (counts r (g :: pend ++ pend')) as Hc'.
    { destruct Hc as [? ? Hi]. split; try done. intros ip. rewrite Hi, !pend_guards_app. cbn [pend_guards]. rewrite pend_guards_app. lia. }
    destruct Hm as [Hk Hm]. rewrite length_app in Hk. cbn in Hk.
    unfold get_or_create_finish. destruct (sessions r !! id) as [oid|] eqn:Eid; cbn [fst].
    + split_and!; [by apply counts_release|by apply relay_counts_release|]. destruct (release_same r g) as (_ & Hse & _).
      split; cbn [fst snd]; [rewrite length_app; lia|]. rewrite Hse. intros Hms. specialize (Hm Hms). rewrite zlen_app in *. rewrite zlen_cons in Hm. lia.
    + split_and!; cbn [fst snd].
      * pose proof (counts_new r id g issued echo _ Hc' Eid) as Hn. unfold get_or_create_finish in Hn. by rewrite Eid in Hn.
      * destruct Hr as [Hp Hl]. unfold relay_counts. cbn. unfold relays. rewrite map_sum_fresh; [done|].
        destruct (objects r !! fresh_object r) as [e|] eqn:E; [|done]. pose proof (c_fresh _ _ Hc' _ _ E). lia.
      * split; [rewrite length_app; lia|]. cbn. intros Hms. specialize (Hm Hms). rewrite map_size_insert_None by done.
        rewrite zlen_app in *. rewrite zlen_cons in Hm. lia.
  - destruct Hs as (Hc & Hr & Hm). pose proof (relay_counts_spawn r oid e He Hrun Hr) as Hr'. revert Hr'.
    unfold spawn_relay. destruct (try_acquire_relay_permit r) as [p|]; cbn [fst]; intros Hr'.
    + split_and!; [by apply counts_set_relay|done|done].
    + by apply sound_tear_down.
  - destruct Hs as (Hc & Hr & Hm). split_and!; cbn [fst snd].
    + by apply counts_set_relay, counts_tear_down.
    + by eapply relay_counts_exit.
    + eapply room_le; [|exact Hm]. apply (size_remove (on_session r oid close)).
  - destruct Hs as (Hc & Hr & Hm). split_and!; cbn [fst snd]; [apply counts_alter; [done|]; intros []; by split|by apply relay_counts_on|done].
  - by apply sound_tear_down.
  - unfold evict_one. destruct (sessions r !! id) as [oid|]; [|done]. destruct (objects r !! oid) as [e|]; [|done].
    destruct (closed (session e)).
    + destruct Hs as (Hc & Hr & Hm). split_and!; cbn [fst snd]; [by apply counts_remove|done|]. eapply room_le; [apply size_remove|done].
    + destruct (is_evictable _ _ _); [by apply sound_tear_down|done].
  - destruct Hs as (Hc & Hr & Hm). split_and!; cbn [fst snd].
    + by apply counts_reclaim.
    + unfold reclaim. rewrite He. apply relay_counts_release. apply relays_same; [|done].
      unfold relays. rewrite (map_sum_lookup _ (objects r) _ _ He), Hrun. done.
    + unfold reclaim. rewrite He. destruct (release_same (set_objects r (delete oid (objects r))) (source_ip_guard e)) as (_ & Hse & _).
      eapply room_le; [|exact Hm]. rewrite Hse. done.
Qed.
Lemma sound_start : sound (with_limits ms mp mr, []).
Proof.
  split_and!; cbn.
  - split; cbn; try done.
  - assert (relays ∅ = 0%nat) as H0 by (unfold relays; by rewrite map_sum_empty).
    split; cbn; rewrite H0; [|lia]. destruct (0 <? mr); [f_equal; lia|done].
  - split; [cbn; lia|]. cbn [sessions with_limits fst snd]. intros. rewrite map_size_empty. unfold zlen. cbn [length]. lia.
Qed.
End invariant.

(** C21: Whatever the interleaving of requests, relay tasks, the janitor and the
    dropping of sessions, the registry's counters are exact: an address's count
    is the number of slots its live sessions and racing requests hold, within
    the cap and never kept at zero; relay tasks stay within their permits; the
    session cap is passed by less than the number of requests that race; and
    every registered id leads to a session of that id. *)
Theorem registry_bounds K ms mp mr w :
  0 <= mp -> 0 <= mr -> registries K ms mp mr w ->
  (forall ip, default 0 (per_ip w.1 !! ip) = Z.of_nat (guards ip (objects w.1) + pend_guards ip w.2)) /\
  (forall ip n, per_ip w.1 !! ip = Some n -> 0 < n <= mp) /\
  (0 < mr -> Z.of_nat (relays (objects w.1)) <= mr) /\
  (0 < ms -> Z.of_nat (size (sessions w.1)) < ms + Z.of_nat K) /\
  (forall id oid, sessions w.1 !! id = Some oid -> exists e, objects w.1 !! oid = Some e /\ entry_id e = id).
Proof.
  intros Hmp Hmr Hw. assert (sound K ms mp mr w) as (Hc & [_ Hr] & [_ Hm]).
  { induction Hw as [|w w' _ IH Hstep]; [by apply sound_start|by eapply sound_step]. }
  split_and!; [apply Hc|apply Hc|done| |apply Hc]. intros H. specialize (Hm H). pose proof (zlen_nonneg w.2). lia.
Qed.

(** ** A session to evaluate *)
Definition demo_id : bytes := str "abc".
Definition demo_ip : SourceIp := [x7f; x00; x00; x01].
Definition create (r : XhttpRegistry) : XhttpRegistry :=
  match get_or_create r demo_id demo_ip None None with (r, Ready oid true) => (spawn_relay r oid).1 | (r, _) => r end.
Definition demo_start : XhttpRegistry := with_limits 2 2 2.
Definition demo_registry : XhttpRegistry := create demo_start.
(** A gap tears the session down, the id is created anew before the first relay
    task has ended, and then that task ends. *)
Definition demo_forgotten : XhttpRegistry := relay_exit (create (tear_down demo_registry 0 demo_id)) 0.

Lemma create_registries K ms mp mr r :
  (0 < K)%nat -> registries K ms mp mr (r, []) -> sessions r !! demo_id = None ->
  registries K ms mp mr (create r, []).
Proof.
  intros HK Hr Hn. unfold create, get_or_create. destruct (get_or_create_begin r demo_id demo_ip) as [r1 b] eqn:Eb.
  assert (forall g, b = Reserved g -> registries K ms mp mr (r1, [g])) as Hg.
  { intros g ->. eapply registries_step; [exact Hr|]. eapply rs_begin; [done|exact Eb]. }
  unfold get_or_create_begin in Eb. rewrite Hn in Eb. destruct (_ && _); [by injection Eb as <- <-|].
  destruct (reserve_source_slot r demo_ip) as [[r2 g]|] eqn:Er; [|by injection Eb as <- <-]. injection Eb as <- <-.
  specialize (Hg g eq_refl). pose proof (registries_step _ _ _ _ _ _ Hg (rs_finish K r2 [] [] demo_id g None None)) as Hfin.
  cbn [app] in Hfin.
  destruct (reserve_same _ _ _ _ Er) as (Ho & Hse & _). unfold get_or_create_finish in *. rewrite Hse, Hn in *. cbn [fst] in Hfin.
  eapply registries_step; [exact Hfin|]. eapply rs_spawn; [cbn; by rewrite lookup_insert_eq|done].
Qed.
Lemma demo_reach : registries 1 2 2 2 (demo_registry, []).
Proof. apply create_registries; [lia|apply registries_start|done]. Qed.
Lemma registry_bounds_witness :
  default 0 (per_ip demo_registry !! demo_ip) = 1 /\ Z.of_nat (guards demo_ip (objects demo_registry) + 0) = 1.
Proof.
  destruct (registry_bounds 1 2 2 2 (demo_registry, []) ltac:(lia) ltac:(lia) demo_reach) as [H _].
  split; [reflexivity|]. exact (eq_trans (eq_sym (H demo_ip)) eq_refl).
Defined.

(** [relay_exit] removes whatever is registered under its session's id: a
    successor that took over the id goes on running unregistered. *)
Theorem relay_exit_forgets_successor :
  registries 1 2 2 2 (demo_forgotten, []) /\ sessions demo_forgotten !! demo_id = None /\
  exists e, objects demo_forgotten !! 1%nat = Some e /\ entry_id e = demo_id /\ relay_running e = true /\ closed (session e) = false.
Proof.
  split; [|split; [reflexivity|eexists; split; [reflexivity|by split_and!]]].
  eapply registries_step; [|eapply (rs_exit _ _ _ 0); reflexivity].
  apply create_registries; [lia| |reflexivity].
  eapply registries_step; [apply demo_reach|]. exact (rs_gap 1 demo_registry [] 0).
Qed.
