(* ===== verification/XhttpHandlers.v ===== *)
(** The XHTTP requests
    ([bins/outline-ss-rust/src/server/transport/xhttp/handlers.rs], [h3.rs]):
    which handler a request goes to, and what the handlers do to the registry.

    A handler runs as one step up to the point where it reads the request body;
    every turn of a POST that waits for room is one more. The route tables, the
    resume context and the mesh relay an edge may have opened are arguments
    ([MeshEdge] models the latter two); metrics, padding and masquerading headers
    and the HTTP/3 datagram anchor are left out. *)
From S2P Require Import Prelude StdText Xhttp MeshEdge XhttpSession XhttpRegistry.
Local Open Scope Z_scope.

Definition SEQ_HEADER : bytes := str "x-xhttp-seq".
Definition FIN_HEADER : bytes := str "x-xhttp-fin".
Definition UDP_RECORDS_HEADER : bytes := str "x-outline-udp-records".
Definition UDP_RECORDS_ENABLED : bytes := str "1".
Definition MAX_POST_BYTES : Z := 256 * 1024.

Inductive Method : Type := GET | POST | OtherMethod.
Inductive Version : Type := HTTP_09 | HTTP_10 | HTTP_11 | HTTP_2 | HTTP_3.
Inductive StatusCode : Type :=
  OK | BAD_REQUEST | NOT_FOUND | METHOD_NOT_ALLOWED | REQUEST_TIMEOUT | CONFLICT | GONE | PAYLOAD_TOO_LARGE
  | SERVICE_UNAVAILABLE | HTTP_VERSION_NOT_SUPPORTED.
Inductive XhttpAppProtocol : Type := AppVless | AppSs | AppSsUdp | AppSsCombined.
Inductive XhttpRoute (R : Type) : Type := RouteVless (route : R) | RouteSs (route : R) | RouteSsUdp (route : R).
Arguments RouteVless {R}. Arguments RouteSs {R}. Arguments RouteSsUdp {R}.

Section handlers.
Context {R : Type}.
Variable to_str : bytes -> option bytes.

Definition parse_seq (headers : HeaderMap) : option Z :=
  v ← headers !! SEQ_HEADER; v ← to_str v; parse_u64 (trim v).

(** ** Dispatch *)
Inductive Dispatch : Type := ToGet | ToPost | ToStreamOne | Answered (status : StatusCode).
(** [dispatch_xhttp] and [handle_xhttp_h3_request] alike. *)
Definition dispatch_xhttp (session_id : bytes) (method : Method) (query : option bytes) (path_seq : option Z)
    (headers : HeaderMap) : Dispatch :=
  if negb (is_valid_session_id session_id) then Answered BAD_REQUEST
  else
    let submode := parse_query query in
    match method with
    | GET =>
      match path_seq with
      | Some _ => Answered BAD_REQUEST
      | None => match submode with PacketUp => ToGet | StreamOne => Answered BAD_REQUEST end
      end
    | POST =>
      let seq := match path_seq with Some seq => Some seq | None => parse_seq headers end in
      match submode with
      | StreamOne => match seq with Some _ => Answered BAD_REQUEST | None => ToStreamOne end
      | PacketUp => match seq with Some _ => ToPost | None => ToStreamOne end
      end
    | OtherMethod => Answered METHOD_NOT_ALLOWED
    end.

Record Routes : Type := mkRoutes { xhttp_vless : gmap bytes R; xhttp_ss : gmap bytes R; xhttp_ss_udp : gmap bytes R }.
Definition resolve_route (routes : Routes) (protocol : XhttpAppProtocol) (base session_id : bytes) : option (XhttpRoute R) :=
  match protocol with
  | AppVless => RouteVless <$> xhttp_vless routes !! base
  | AppSs => RouteSs <$> xhttp_ss routes !! base
  | AppSsUdp => RouteSsUdp <$> xhttp_ss_udp routes !! base
  | AppSsCombined =>
    match decode_kind session_id with
    | Tcp => RouteSs <$> xhttp_ss routes !! base
    | Udp => RouteSsUdp <$> xhttp_ss_udp routes !! base
    end
  end.

(** ** What a request settles on its session *)
Definition negotiate_udp_records (s : XhttpSession) (route : XhttpRoute R) (headers : HeaderMap) : XhttpSession :=
  let client_wants :=
    match v ← headers !! UDP_RECORDS_HEADER; to_str v with
    | Some value => bool_decide (value = UDP_RECORDS_ENABLED)
    | None => false
    end in
  match route with
  | RouteSsUdp _ =>
    if client_wants then mkSession (uplink s) (downlink s) (closed s) (last_progress s) (last_keepalive s) true else s
  | _ => s
  end.
(** [opened]: the upstream the mesh gave this edge, if it asked. *)
Definition xhttp_edge (r : XhttpRegistry) (session_id : bytes) (opened : option EdgeUpstream) : option EdgeUpstream :=
  match get r session_id with Some _ => None | None => opened end.
Definition edge_relayed_echo (edge : option EdgeUpstream) : option ResumeResponseEcho :=
  match edge with Some edge => Some (MeshEdge.echo edge) | None => None end.
Definition answer_echo (e : Entry) (c : ResumeContext) : ResumeResponseEcho :=
  match relayed_echo e with
  | Some echo => echo
  | None => mkEcho (issued_resume_id e) (ack_prefix_requested c) (symmetric_replay_requested c)
  end.

(** An answer: its status, and of a 200 the resume echo and the records echo. *)
Record Answer : Type := mkAnswer { status : StatusCode; resume_echo : option ResumeResponseEcho; udp_records_echo : bool }.
Definition short_status (status : StatusCode) : Answer := mkAnswer status None false.
Definition ok_answer (r : XhttpRegistry) (oid : nat) (c : ResumeContext) : Answer :=
  match objects r !! oid with
  | Some e => mkAnswer OK (Some (answer_echo e c)) (udp_records (session e))
  | None => short_status GONE
  end.
Definition is_closed (r : XhttpRegistry) (oid : nat) : bool :=
  match objects r !! oid with Some e => closed (session e) | None => true end.

(** The middle of every handler: settle the records, and spawn the relay of a
    session this request created. *)
Definition settle (r : XhttpRegistry) (oid : nat) (created : bool) (route : XhttpRoute R) (headers : HeaderMap)
    : XhttpRegistry * bool :=
  let r := on_session r oid (fun s => negotiate_udp_records s route headers) in
  if created then spawn_relay r oid else (r, true).
Definition set_downlink (s : XhttpSession) (d : DownlinkState) : XhttpSession :=
  mkSession (uplink s) d (closed s) (last_progress s) (last_keepalive s) (udp_records s).
Definition set_uplink (s : XhttpSession) (u : UplinkState) : XhttpSession :=
  mkSession u (downlink s) (closed s) (last_progress s) (last_keepalive s) (udp_records s).
Definition attach_get (r : XhttpRegistry) (oid : nat) : XhttpRegistry * AttachOutcome :=
  match objects r !! oid with
  | None => (r, Gone)
  | Some e =>
    let (d, outcome) := try_attach_get (downlink (session e)) in
    (on_session r oid (fun s => set_downlink s d), outcome)
  end.
Definition attach (r : XhttpRegistry) (oid : nat) (c : ResumeContext) : XhttpRegistry * Answer :=
  match attach_get r oid with
  | (r, AttachOk) => (r, ok_answer r oid c)
  | (r, Conflict) => (r, short_status CONFLICT)
  | (r, Gone) => (r, short_status GONE)
  end.

(** ** GET and stream-one *)
Definition xhttp_get (r : XhttpRegistry) (route : option (XhttpRoute R)) (session_id : bytes) (ip : SourceIp)
    (headers : HeaderMap) (c : ResumeContext) (opened : option EdgeUpstream) : XhttpRegistry * Answer :=
  match route with
  | None => (r, short_status NOT_FOUND)
  | Some route =>
    let edge := xhttp_edge r session_id opened in
    match get_or_create r session_id ip (edge_session_id edge c) (edge_relayed_echo edge) with
    | (r, Refused _) => (r, short_status SERVICE_UNAVAILABLE)
    | (r, Ready oid created) =>
      match settle r oid created route headers with
      | (r, false) => (r, short_status SERVICE_UNAVAILABLE)
      | (r, true) => attach r oid c
      end
    end
  end.
Definition xhttp_stream_one (r : XhttpRegistry) (version : Version) (route : option (XhttpRoute R)) (session_id : bytes)
    (ip : SourceIp) (headers : HeaderMap) (c : ResumeContext) (opened : option EdgeUpstream) : XhttpRegistry * Answer :=
  match version with
  | HTTP_09 | HTTP_10 | HTTP_11 => (r, short_status HTTP_VERSION_NOT_SUPPORTED)
  | HTTP_2 | HTTP_3 =>
    match route with
    | None => (r, short_status NOT_FOUND)
    | Some route =>
      let edge := xhttp_edge r session_id opened in
      match get_or_create r session_id ip (edge_session_id edge c) (edge_relayed_echo edge) with
      | (r, Refused _) => (r, short_status SERVICE_UNAVAILABLE)
      | (r, Ready oid created) =>
        if is_closed r oid then (r, short_status GONE)
        else
          match settle r oid created route headers with
          | (r, false) => (r, short_status SERVICE_UNAVAILABLE)
          | (r, true) => attach r oid c
          end
      end
    end
  end.

(** ** POST *)
(** Up to the body: the session a POST goes to, or its answer. [creates]: may
    create the session, [seq == 0] over HTTP/1 and 2 ([xhttp_post]) and
    [seq == 0 && !fin] over HTTP/3 ([xhttp_h3_post]). *)
Definition creates_h2 (seq : Z) (fin : bool) : bool := seq =? 0.
Definition creates_h3 (seq : Z) (fin : bool) : bool := (seq =? 0) && negb fin.
Definition post_open (creates : Z -> bool -> bool) (r : XhttpRegistry) (route : option (XhttpRoute R)) (session_id : bytes)
    (path_seq : option Z) (ip : SourceIp) (headers : HeaderMap) (c : ResumeContext) (opened : option EdgeUpstream)
    : XhttpRegistry * result StatusCode (nat * Z * bool) :=
  match (match path_seq with Some seq => Some seq | None => parse_seq headers end) with
  | None => (r, Err BAD_REQUEST)
  | Some seq =>
    let fin := bool_decide (is_Some (headers !! FIN_HEADER)) in
    match route with
    | None => (r, Err NOT_FOUND)
    | Some route =>
      let found :=
        if creates seq fin then
          let edge := xhttp_edge r session_id opened in
          match get_or_create r session_id ip (edge_session_id edge c) (edge_relayed_echo edge) with
          | (r, Refused _) => (r, Err SERVICE_UNAVAILABLE)
          | (r, Ready oid created) => (r, Ok (oid, created))
          end
        else match get r session_id with Some oid => (r, Ok (oid, false)) | None => (r, Err GONE) end in
      match found with
      | (r, Err status) => (r, Err status)
      | (r, Ok (oid, created)) =>
        if is_closed r oid then (r, Err GONE)
        else
          match settle r oid created route headers with
          | (r, false) => (r, Err SERVICE_UNAVAILABLE)
          | (r, true) => (r, Ok (oid, seq, fin))
          end
      end
    end
  end.

(** Reading the body: the frames, and whether the read ran out of time. Over
    HTTP/3 it has no time limit. *)
Inductive PostBodyError : Type := TooLarge | TimedOut.
Definition read_post_body (frames : list bytes) (timed_out : bool) : result PostBodyError bytes :=
  if MAX_POST_BYTES <? zlen (concat frames) then Err TooLarge
  else if timed_out then Err TimedOut
  else Ok (concat frames).
Definition body_error_status (e : PostBodyError) : StatusCode :=
  match e with TooLarge => PAYLOAD_TOO_LARGE | TimedOut => REQUEST_TIMEOUT end.

(** [ingest_uplink] and the progress it stamps: not for an empty body, nor for a
    seq already consumed. *)
Definition ingest_stamps (u : UplinkState) (seq : Z) (data : bytes) : bool :=
  match data with [] => false | _ => negb (seq <? expected_seq u) end.
(** One turn of a POST at [now], whose wait ends at [deadline]; [None]: it goes
    on waiting, holding its share of the waiting bytes. *)
Definition post_turn (r : XhttpRegistry) (session_id : bytes) (oid : nat) (seq : Z) (fin : bool) (data : bytes) (held : bool)
    (now deadline : Z) (c : ResumeContext) : XhttpRegistry * bool * option Answer :=
  match objects r !! oid with
  | None => (r, false, Some (short_status GONE))
  | Some e =>
    let stamps := ingest_stamps (uplink (session e)) seq data in
    let '(u, held, outcome) := waiting_turn (uplink (session e)) held seq data now deadline in
    let r := on_session r oid (fun s => set_uplink s u) in
    match outcome with
    | None => (r, held, None)
    | Some (Err (GapTooLarge _ _)) => (tear_down r oid session_id, held, Some (short_status CONFLICT))
    | Some (Err Closed) => (r, held, Some (short_status GONE))
    | Some (Err _) => (r, held, Some (short_status SERVICE_UNAVAILABLE))
    | Some (Ok _) =>
      let r := if stamps then on_session r oid (fun s => touch_progress s now) else r in
      let r := if fin then on_session r oid (fun s => set_uplink s (close_uplink (uplink s))) else r in
      (r, held, Some (ok_answer r oid c))
    end
  end.

(** A frame of a stream-one body, and its end. *)
Definition pump_frame (r : XhttpRegistry) (oid : nat) (data : bytes) (now : Z) : XhttpRegistry * option bool :=
  match objects r !! oid with
  | None => (r, Some false)
  | Some e =>
    let (u, outcome) := ingest_uplink_inorder (uplink (session e)) data in
    let r := on_session r oid (fun s => set_uplink s u) in
    match outcome with
    | None => (r, None)
    | Some (Ok _) => (match data with [] => r | _ => on_session r oid (fun s => touch_progress s now) end, Some true)
    | Some (Err _) => (on_session r oid (fun s => set_uplink s (close_uplink (uplink s))), Some false)
    end
  end.
Definition pump_end (r : XhttpRegistry) (oid : nat) : XhttpRegistry :=
  on_session r oid (fun s => set_uplink s (close_uplink (uplink s))).
End handlers.

(** ** The handlers are steps of the registry *)
Section refine.
Context {R : Type}.
Variable to_str : bytes -> option bytes.
Context (K : nat) (ms mp mr : Z) (pend : list (option SourceIp)).
Hypothesis Hmp : 0 <= mp.
Hypothesis Hmr : 0 <= mr.
Hypothesis Hroom : (length pend < K)%nat.
Local Abbreviation reach r := (registries K ms mp mr (r, pend)).

Lemma reach_session r oid f : reach r -> reach (on_session r oid f).
Proof. intros Hr. eapply registries_step; [exact Hr|]. apply rs_session. Qed.
Lemma reach_gap r oid e id : reach r -> objects r !! oid = Some e -> entry_id e = id -> reach (tear_down r oid id).
Proof.
  intros Hr He <-. eapply registries_step; [exact Hr|]. replace (entry_id e) with (id_of r oid); [apply rs_gap|].
  unfold id_of. by rewrite He.
Qed.
Lemma reach_sound r : reach r -> sound K ms mp mr (r, pend).
Proof.
  intros Hr. remember (r, pend) as w eqn:E. clear E. induction Hr as [|w w' _ IH Hs]; [|by eapply sound_step].
  by apply sound_start.
Qed.
(** What a request has after [get_or_create]. *)
Lemma reach_get_or_create r id ip issued echo :
  reach r ->
  match get_or_create r id ip issued echo with
  | (r', Refused _) => reach r'
  | (r', Ready oid created) =>
    reach r' /\ exists e, objects r' !! oid = Some e /\ entry_id e = id /\ (created = true -> relay_running e = false)
  end.
Proof.
  intros Hr. destruct (reach_sound r Hr) as (Hc & _ & _). cbn [fst snd] in Hc. unfold get_or_create, get_or_create_begin.
  destruct (sessions r !! id) as [oid|] eqn:Eid.
  { split; [done|]. destruct (c_ids _ _ _ _ Hc _ _ Eid) as (e & He & Hie). exists e. by split_and!. }
  destruct (_ && _) eqn:Ecap; [done|]. destruct (reserve_source_slot r ip) as [[r1 g]|] eqn:Er; [|done].
  assert (registries K ms mp mr (r1, g :: pend)) as H1.
  { eapply registries_step; [exact Hr|]. apply (rs_begin K r pend id ip); [done|]. unfold get_or_create_begin.
    by rewrite Eid, Ecap, Er. }
  pose proof (registries_step _ _ _ _ _ _ H1 (rs_finish K r1 [] pend id g issued echo)) as H2. cbn [app] in H2.
  destruct (reserve_same _ _ _ _ Er) as (Ho & Hse & _). unfold get_or_create_finish in *. rewrite Hse, Eid in *. cbn [fst] in H2.
  split; [exact H2|]. eexists. split; [cbn; by rewrite lookup_insert_eq|]. by split.
Qed.
Lemma on_session_lookup r oid e f : objects r !! oid = Some e -> objects (on_session r oid f) !! oid = Some (with_session e (f (session e))).
Proof. intros He. cbn. by rewrite lookup_alter_eq, He. Qed.
Lemma reach_settle r oid created route headers e :
  reach r -> objects r !! oid = Some e -> (created = true -> relay_running e = false) ->
  reach (@settle R to_str r oid created route headers).1 /\
  exists e', objects (@settle R to_str r oid created route headers).1 !! oid = Some e' /\ entry_id e' = entry_id e.
Proof.
  intros Hr He Hrun. unfold settle. set (f := fun s => negotiate_udp_records to_str s route headers).
  pose proof (on_session_lookup r oid e f He) as He'. pose proof (reach_session r oid f Hr) as Hr'.
  destruct created; [|split; [done|by eexists]]. split.
  - eapply registries_step; [exact Hr'|]. eapply rs_spawn; [exact He'|by apply Hrun].
  - unfold spawn_relay. destruct (try_acquire_relay_permit _); cbn [fst].
    + cbn. rewrite lookup_alter_eq. cbn in He'. rewrite He'. by eexists.
    + cbn. rewrite lookup_alter_eq. cbn in He'. rewrite He'. by eexists.
Qed.
Lemma reach_attach r oid c : reach r -> reach (attach r oid c).1.
Proof.
  intros Hr. unfold attach, attach_get. destruct (objects r !! oid) as [e|]; [|done].
  destruct (try_attach_get _) as [d []]; cbn [fst]; by apply reach_session.
Qed.
Ltac find_session Hr Hg :=
  match goal with
  | |- context [get_or_create ?r ?id ?ip ?i ?e] =>
    pose proof (reach_get_or_create r id ip i e Hr) as Hg; destruct (get_or_create r id ip i e) as [r1 [oid created|]]
  end.
Lemma reach_xhttp_get r route id ip headers c opened : reach r -> reach (@xhttp_get R to_str r route id ip headers c opened).1.
Proof.
  intros Hr. unfold xhttp_get. destruct route as [route|]; [|done]. cbn zeta.
  find_session Hr Hg; [|done].
  destruct Hg as (Hr1 & e & He & _ & Hrun). destruct (reach_settle r1 oid created route headers e Hr1 He Hrun) as [Hs _].
  destruct (settle to_str r1 oid created route headers) as [r2 []]; [by apply reach_attach|done].
Qed.
Lemma reach_xhttp_stream_one r version route id ip headers c opened :
  reach r -> reach (@xhttp_stream_one R to_str r version route id ip headers c opened).1.
Proof.
  intros Hr. unfold xhttp_stream_one. destruct version; try done. all: destruct route as [route|]; [|done]; cbn zeta.
  all: find_session Hr Hg; [|done].
  all: destruct Hg as (Hr1 & e & He & _ & Hrun); destruct (is_closed r1 oid); [done|].
  all: destruct (reach_settle r1 oid created route headers e Hr1 He Hrun) as [Hs _].
  all: destruct (settle to_str r1 oid created route headers) as [r2 []]; [by apply reach_attach|done].
Qed.
Lemma reach_post_open creates r route id path_seq ip headers c opened :
  reach r ->
  match @post_open R to_str creates r route id path_seq ip headers c opened with
  | (r', Ok (oid, _, _)) => reach r' /\ exists e, objects r' !! oid = Some e /\ entry_id e = id
  | (r', Err _) => reach r'
  end.
Proof.
  intros Hr. unfold post_open. destruct (match path_seq with Some seq => Some seq | None => _ end) as [seq|]; [|done].
  cbn zeta. set (fin := bool_decide _). destruct route as [route|]; [|done].
  assert (forall r1 oid created, reach r1 -> (exists e, objects r1 !! oid = Some e /\ entry_id e = id /\ (created = true -> relay_running e = false)) ->
    match (if is_closed r1 oid then (r1, Err GONE)
           else match settle to_str r1 oid created route headers with
                | (r', true) => (r', Ok (oid, seq, fin)) | (r', false) => (r', Err SERVICE_UNAVAILABLE) end) with
    | (r', Ok (oid, _, _)) => reach r' /\ exists e, objects r' !! oid = Some e /\ entry_id e = id
    | (r', Err _) => reach r'
    end) as Htail.
  { intros r1 oid created Hr1 (e & He & Hie & Hrun). destruct (is_closed r1 oid); [done|].
    destruct (reach_settle r1 oid created route headers e Hr1 He Hrun) as [Hs (e' & He' & Hie')].
    destruct (settle to_str r1 oid created route headers) as [r2 []]; [|done]. split; [done|]. exists e'. split; [done|congruence]. }
  destruct (creates seq fin).
  - find_session Hr Hg; [|done].
    destruct Hg as [Hr1 He]. by apply Htail.
  - unfold get. destruct (sessions r !! id) as [oid|] eqn:Eid; [|done]. apply Htail; [done|].
    destruct (reach_sound r Hr) as (Hc & _ & _). destruct (c_ids _ _ _ _ Hc _ _ Eid) as (e & He & Hie). exists e. by split_and!.
Qed.
Lemma reach_post_turn r id oid e seq fin data held now deadline c :
  reach r -> objects r !! oid = Some e -> entry_id e = id ->
  reach (post_turn r id oid seq fin data held now deadline c).1.1.
Proof.
  intros Hr He Hie. unfold post_turn. rewrite He. destruct (waiting_turn _ _ _ _ _ _) as [[u held'] [[[]|[| | |]]|]]; cbn [fst].
  - destruct (ingest_stamps _ _ _), fin; repeat apply reach_session; done.
  - by apply reach_session.
  - eapply reach_gap; [by apply reach_session|by apply on_session_lookup|done].
  - by apply reach_session.
  - by apply reach_session.
  - by apply reach_session.
Qed.
Lemma reach_pump r oid data now : reach r -> reach (pump_frame r oid data now).1.
Proof.
  intros Hr. unfold pump_frame. destruct (objects r !! oid) as [e|]; [|done].
  destruct (ingest_uplink_inorder _ _) as [u [[[]|]|]]; cbn [fst]; [destruct data| |]; repeat apply reach_session; done.
Qed.
End refine.

(** The handlers keep the bounds of the registry: whatever a request asks for, and
    however many others are racing it, what it does to the slots, the permits and
    the ids are the registry's own steps, so that [XhttpRegistry] speaks of the
    running server; and a POST that gets past its headers has a session of its
    id. (The registry's steps may change a session in any way, so this does not
    say what becomes of its queues; [xhttp_post_answer] does.) *)
Theorem xhttp_handlers_refine {R} (to_str : bytes -> option bytes) K ms mp mr pend r (route : option (XhttpRoute R)) id ip headers c opened :
  0 <= mp -> 0 <= mr -> (length pend < K)%nat -> registries K ms mp mr (r, pend) ->
  let reached (r' : XhttpRegistry) := registries K ms mp mr (r', pend) in
  reached (xhttp_get to_str r route id ip headers c opened).1 /\
  (forall version, reached (xhttp_stream_one to_str r version route id ip headers c opened).1) /\
  (forall creates path_seq,
     match post_open to_str creates r route id path_seq ip headers c opened with
     | (r', Ok (oid, _, _)) => reached r' /\ exists e, objects r' !! oid = Some e /\ entry_id e = id
     | (r', Err _) => reached r'
     end) /\
  (forall oid e seq fin data held now deadline, objects r !! oid = Some e -> entry_id e = id ->
     reached (post_turn r id oid seq fin data held now deadline c).1.1) /\
  (forall oid data now, reached (pump_frame r oid data now).1 /\ reached (pump_end r oid)).
Proof.
  intros Hmp Hmr Hroom Hr. cbn zeta. split_and!.
  - by apply reach_xhttp_get.
  - intros version. by apply reach_xhttp_stream_one.
  - intros creates path_seq. by apply reach_post_open.
  - intros. by eapply reach_post_turn.
  - intros. split; [by apply reach_pump|by apply reach_session].
Qed.

(** ** What a POST's answer says *)
Definition same_queue (u v : UplinkState) : Prop :=
  expected_seq u = expected_seq v /\ ready u = ready v /\ ready_bytes u = ready_bytes v /\
  reorder u = reorder v /\ reorder_bytes u = reorder_bytes v /\ up_closed u = up_closed v.
Lemma same_queue_refl u : same_queue u u.
Proof. by split_and!. Qed.
Lemma ingest_waiting u seq data : waiting_bytes (ingest_uplink u seq data).1 = waiting_bytes u.
Proof.
  assert (forall fuel v, waiting_bytes (promote_loop fuel v) = waiting_bytes v) as Hp.
  { induction fuel as [|fuel IH]; intros v; cbn; [done|]. destruct (reorder v !! _); [|done].
    destruct (_ <? _); [done|]. by rewrite IH. }
  unfold ingest_uplink. destruct data; [done|]. destruct (up_closed u); [done|]. destruct (_ <? _); [done|].
  destruct (_ =? _).
  - destruct (_ && _); [done|]. cbn [fst]. unfold promote_parked. by rewrite Hp.
  - destruct (_ <? _); [done|]. by destruct (_ <? _).
Qed.
Lemma ingest_refused u seq data error : (ingest_uplink u seq data).2 = Err error -> (ingest_uplink u seq data).1 = u.
Proof.
  unfold ingest_uplink. destruct data; [done|]. destruct (up_closed u); [done|]. destruct (_ <? _); [done|].
  destruct (_ =? _).
  - by destruct (_ && _).
  - destruct (_ <? _); [done|]. by destruct (_ <? _).
Qed.
Lemma gap_seq u seq data u1 expected got : ingest_uplink u seq data = (u1, Err (GapTooLarge expected got)) -> got = seq.
Proof.
  unfold ingest_uplink. destruct data; [done|]. destruct (up_closed u); [done|]. destruct (_ <? _); [done|].
  destruct (_ =? _); [by destruct (_ && _)|]. destruct (_ <? _); [by intros [= _ _ ->]|]. by destruct (_ <? _).
Qed.
Definition full (o : result UplinkIngestError unit) : Prop := o = Err BufferFull \/ o = Err ReadyFull.
Definition share (held : bool) (data : bytes) : Z := if held then zlen data else 0.
(** One turn of the wait, by what the attempt came to. *)
Definition turned (u u1 : UplinkState) (o : result UplinkIngestError unit) (held : bool) (data : bytes) (now deadline : Z)
    (t : UplinkState * bool * option (result UplinkIngestError unit)) : Prop :=
  let '(u', held', outcome) := t in
  same_queue u' u1 /\
  waiting_bytes u' = waiting_bytes u - share held data + share held' data /\
  match outcome with
  | None => held' = true /\ full o /\ now < deadline
  | Some o' => held' = false /\ o' = o /\ (full o -> deadline <= now \/ UPLINK_WAITING_BYTES_CAP < waiting_bytes u + zlen data)
  end.
Lemma turned_finish u u1 o held data now deadline :
  share held data <= waiting_bytes u -> waiting_bytes u1 = waiting_bytes u -> ~ full o ->
  turned u u1 o held data now deadline (if held then release u1 (zlen data) else u1, false, Some o).
Proof.
  intros Hs Hw Hf. pose proof (zlen_nonneg data). unfold turned, share in *. destruct held; split_and!; try done; cbn; unfold sat_sub; lia.
Qed.
Lemma turned_full u o held data now deadline :
  share held data <= waiting_bytes u -> full o ->
  turned u u o held data now deadline
    match (if held then Some u else hold u (zlen data)) with
    | None => (u, false, Some o)
    | Some v => if deadline <=? now then (release v (zlen data), false, Some o) else (v, true, None)
    end.
Proof.
  intros Hs Hf. pose proof (zlen_nonneg data). unfold turned, share in *. destruct held.
  - destruct (Z.leb_spec deadline now); split_and!; try done; cbn; unfold sat_sub; [lia|by left|lia].
  - unfold hold. destruct (Z.ltb_spec UPLINK_WAITING_BYTES_CAP (waiting_bytes u + zlen data)).
    + split_and!; try done; [lia|by right].
    + destruct (Z.leb_spec deadline now); split_and!; try done; cbn; unfold sat_sub; [lia|by left|lia].
Qed.
Lemma waiting_turn_spec u held seq data now deadline :
  share held data <= waiting_bytes u ->
  turned u (ingest_uplink u seq data).1 (ingest_uplink u seq data).2 held data now deadline
    (waiting_turn u held seq data now deadline).
Proof.
  intros Hs. pose proof (ingest_waiting u seq data) as Hw. pose proof (ingest_refused u seq data) as Hr. unfold waiting_turn.
  destruct (ingest_uplink u seq data) as [u1 o]. cbn [fst snd] in *.
  destruct o as [[]|[|a b| |]].
  1-3: apply turned_finish; [done|done|intros [|]; done].
  all: rewrite (Hr _ eq_refl) in *; apply turned_full; [done|by (left + right)].
Qed.

(** What an accepted POST leaves of the session. *)
Lemma accepted_session r oid e s (stamps fin : bool) now :
  objects r !! oid = Some (with_session e s) ->
  let r1 := if stamps then on_session r oid (fun s => touch_progress s now) else r in
  let r2 := if fin then on_session r1 oid (fun s => set_uplink s (close_uplink (uplink s))) else r1 in
  exists s', objects r2 !! oid = Some (with_session e s') /\ uplink s' = if fin then close_uplink (uplink s) else uplink s.
Proof.
  intros Hs. cbn zeta. assert (exists s1, objects (if stamps then on_session r oid (fun s => touch_progress s now) else r) !! oid = Some (with_session e s1)
    /\ uplink s1 = uplink s) as (s1 & H1 & Hu).
  { destruct stamps; [|by eexists]. eexists. split; [by apply (on_session_lookup _ _ (with_session e s))|done]. }
  destruct fin; [|by eexists]. eexists. split; [by apply (on_session_lookup _ _ (with_session e s1))|]. cbn. by rewrite Hu.
Qed.

(** Bytes a POST has been answered for: taken before, waiting for the relay, or
    parked under their seq. *)
Definition received (u u1 : UplinkState) (seq : Z) (data : bytes) : Prop :=
  data = [] \/ seq < expected_seq u \/ data ∈ ready u1 \/ reorder u1 !! seq = Some data.
Lemma promote_loop_ready fuel u : exists more, ready (promote_loop fuel u) = ready u ++ more.
Proof.
  revert u. induction fuel as [|fuel IH]; intros u; cbn [promote_loop]; [exists []; by rewrite app_nil_r|].
  destruct (reorder u !! _) as [d|]; [|exists []; by rewrite app_nil_r]. destruct (_ <? _); [exists []; by rewrite app_nil_r|].
  edestruct IH as [more ->]. cbn [ready]. exists (d :: more). by rewrite <- app_assoc.
Qed.
Lemma ingest_received u seq data u1 : ingest_uplink u seq data = (u1, Ok tt) -> received u u1 seq data.
Proof.
  unfold ingest_uplink, received. destruct data as [|b data']; [by left|]. remember (b :: data') as data. destruct (up_closed u); [done|].
  destruct (Z.ltb_spec seq (expected_seq u)); [by auto|]. destruct (_ =? _).
  - destruct (_ && _); [done|]. intros [= <-]. right. right. left. unfold promote_parked.
    match goal with |- context [promote_loop ?n ?v] => destruct (promote_loop_ready n v) as [more ->] end. cbn [ready].
    rewrite !elem_of_app. left. right. by apply list_elem_of_singleton.
  - destruct (_ <? _); [done|]. destruct (_ <? _); [done|]. intros [= <-]. right. right. right. cbn. by rewrite lookup_insert_eq.
Qed.


Definition demo_context : ResumeContext := mkContext None None false false 0.
Definition demo_to_str (b : bytes) : option bytes := Some b.
Lemma xhttp_handlers_refine_witness :
  registries 1 2 2 2 ((xhttp_get demo_to_str demo_registry (Some (RouteSs tt)) (str "xyz") demo_ip ∅ demo_context None).1, []) /\
  (xhttp_get demo_to_str demo_registry (Some (RouteSs tt)) (str "xyz") demo_ip ∅ demo_context None).2 = mkAnswer OK (Some (mkEcho None false false)) false.
Proof.
  split; [|vm_compute; reflexivity].
  apply (xhttp_handlers_refine demo_to_str 1 2 2 2 []); [lia|lia|cbn; lia|exact demo_reach].
Defined.
