(* ===== verification/XhttpDown.v ===== *)
(** The downlink of an XHTTP session: the ring the relay fills, the bodies of the
    GETs that drain it one after the other, and what the client gets
    ([bins/outline-ss-rust/src/server/transport/xhttp/mod.rs],
    [build_downlink_body] of [handlers.rs]). *)
From S2P Require Import Prelude UdpRecords XhttpSession XhttpClient.
Local Open Scope Z_scope.

(** [body]: the queue of the attached GET's body stream. [sent], [got]: what the
    relay has pushed and the bodies have yielded; [lost]: what was still queued
    in a body when its GET was dropped. *)
Record Down : Type := mkDown {
  ring : DownlinkState;
  body : option (list bytes);
  sent : list bytes;
  got : list bytes;
  lost : list bytes
}.
Definition down_start : Down := mkDown downlink_new None [] [] [].
Definition down_poll (w : Down) : Down :=
  match body w with
  | None => w
  | Some queue =>
    let '(d, queue, r) := body_poll (ring w) queue in
    mkDown d (Some queue) (sent w) (match r with Some (Some c) => got w ++ [c] | _ => got w end) (lost w)
  end.
Inductive down_step (w : Down) : Down -> Prop :=
  | dn_push data d :
      push_downlink (ring w) data = (d, Some (Ok tt)) -> data <> [] ->
      down_step w (mkDown d (body w) (sent w ++ [data]) (got w) (lost w))
  | dn_attach d :
      body w = None -> try_attach_get (ring w) = (d, AttachOk) ->
      down_step w (mkDown d (Some []) (sent w) (got w) (lost w))
  | dn_poll : down_step w (down_poll w)
  | dn_drop queue :
      body w = Some queue ->
      down_step w (mkDown (detach_get (ring w)) None (sent w) (got w) (lost w ++ queue))
  | dn_close :
      down_step w (mkDown (mkDownlinkState (pending (ring w)) (pending_bytes (ring w)) true (get_attached (ring w)))
                     (body w) (sent w) (got w) (lost w)).
Inductive downs : Down -> Prop :=
  | downs_start : downs down_start
  | downs_step w w' : downs w -> down_step w w' -> downs w'.

(** What is still to come. *)
Definition body_queue (w : Down) : list bytes := match body w with Some queue => queue | None => [] end.
Definition queued (w : Down) : list bytes := body_queue w ++ pending (ring w).

Lemma drain_loop_all pending pb dst : zlen (concat pending) <= pb ->
  drain_loop pending pb dst = (pb - zlen (concat pending), dst ++ pending).
Proof.
  revert pb dst. induction pending as [|c pending IH]; intros pb dst Hb; cbn [drain_loop concat].
  - by rewrite app_nil_r, Z.sub_0_r.
  - cbn [concat] in Hb. rewrite zlen_app in *. pose proof (zlen_nonneg c). pose proof (zlen_nonneg (concat pending)).
    rewrite IH by (unfold sat_sub; lia). rewrite <- app_assoc. cbn [app]. f_equal. unfold sat_sub. lia.
Qed.
Lemma drain_all d : pending_bytes d = zlen (concat (pending d)) ->
  drain_downlink d [] = (mkDownlinkState [] 0 (down_closed d) (get_attached d), pending d, down_closed d).
Proof.
  intros Hb. unfold drain_downlink. rewrite drain_loop_all by lia. by rewrite Hb, Z.sub_diag.
Qed.
(** A poll yields the next chunk, wherever it is, and the end when there is none. *)
Lemma body_poll_spec d queue : pending_bytes d = zlen (concat (pending d)) ->
  let '(d', queue', r) := body_poll d queue in
  pending_bytes d' = zlen (concat (pending d')) /\ pending_bytes d' <= pending_bytes d /\
  down_closed d' = down_closed d /\ get_attached d' = get_attached d /\
  match r with
  | Some (Some c) => queue ++ pending d = c :: queue' ++ pending d'
  | Some None => queue ++ pending d = [] /\ queue' ++ pending d' = [] /\ down_closed d = true
  | None => queue ++ pending d = [] /\ queue' ++ pending d' = [] /\ down_closed d = false
  end.
Proof.
  intros Hb. unfold body_poll. destruct queue as [|c queue]; [|by split_and!].
  rewrite drain_all by done. pose proof (zlen_nonneg (concat (pending d))).
  destruct (pending d) as [|c rest] eqn:E.
  - destruct (down_closed d) eqn:Ec; cbn [pending_bytes pending down_closed get_attached]; split_and!; try done; lia.
  - cbn [pending_bytes pending down_closed get_attached]. rewrite app_nil_r. split_and!; try done; lia.
Qed.

Record down_inv (w : Down) : Prop := {
  dv_bytes : pending_bytes (ring w) = zlen (concat (pending (ring w)));
  dv_cap : pending_bytes (ring w) <= DOWNLINK_BUFFER_BYTES_CAP;
  dv_slot : get_attached (ring w) = bool_decide (is_Some (body w));
  dv_order : (got w ++ queued w) `sublist_of` sent w;
  dv_count : (length (sent w) = length (got w) + length (queued w) + length (lost w))%nat
}.
Lemma downs_inv w : downs w -> down_inv w.
Proof.
  induction 1 as [|w w' _ [Hb Hc Hs Ho Hn] Hstep]; [by split|]. destruct Hstep as [data d Hp Hne|d Hbody Ha| |queue Hbody|].
  - unfold push_downlink in Hp. destruct data as [|b data']; [done|]. remember (b :: data') as data.
    destruct (down_closed (ring w)); [done|]. destruct (Z.leb_spec (pending_bytes (ring w) + zlen data) DOWNLINK_BUFFER_BYTES_CAP); [|done].
    injection Hp as <-. split; cbn; try done.
    + rewrite concat_app, zlen_app, Hb. cbn. by rewrite app_nil_r.
    + unfold queued, body_queue in *. cbn [ring body sent got lost pending] in *. rewrite !app_assoc. apply sublist_skips_r || apply sublist_app; [|done]. by rewrite <- app_assoc.
    + unfold queued, body_queue in *. cbn [ring body sent got lost pending] in *. rewrite !length_app in *. cbn. lia.
  - unfold try_attach_get in Ha. destruct (down_closed (ring w)); [done|]. destruct (get_attached (ring w)); [done|].
    injection Ha as <-. unfold queued, body_queue in *. rewrite Hbody in *. by split.
  - unfold down_poll. destruct (body w) as [queue|] eqn:Ebody; [|by split; rewrite ?Ebody].
    pose proof (body_poll_spec (ring w) queue Hb) as Hp. destruct (body_poll (ring w) queue) as [[d' queue'] r].
    destruct Hp as (H1 & H2 & H3 & H4 & H5). unfold queued, body_queue in *. rewrite Ebody in *.
    split; unfold queued, body_queue; cbn [ring body sent got lost]; try done; [lia|by rewrite H4| |].
    + destruct r as [[c|]|].
      * rewrite H5 in Ho. by rewrite <- app_assoc.
      * destruct H5 as (E1 & -> & _). by rewrite E1 in Ho.
      * destruct H5 as (E1 & -> & _). by rewrite E1 in Ho.
    + destruct r as [[c|]|].
      * rewrite H5 in Hn. cbn in Hn. rewrite (length_app (got w)). cbn. lia.
      * destruct H5 as (E1 & -> & _). by rewrite E1 in Hn.
      * destruct H5 as (E1 & -> & _). by rewrite E1 in Hn.
  - unfold queued, body_queue in *. rewrite Hbody in *. split; unfold queued, body_queue; cbn [ring body sent got lost]; try done.
    + etrans; [|exact Ho]. cbn. apply sublist_app; [done|]. by apply sublist_inserts_l.
    + cbn in *. rewrite !length_app in *. lia.
  - by split.
Qed.

Lemma poll_downs n w : downs w -> downs (Nat.iter n down_poll w).
Proof. intros Hw. induction n as [|n IH]; [done|]. eapply downs_step; [exact IH|apply dn_poll]. Qed.
(** A poll of an attached body. *)
Lemma down_poll_spec w queue :
  down_inv w -> body w = Some queue ->
  is_Some (body (down_poll w)) /\ down_closed (ring (down_poll w)) = down_closed (ring w) /\
  sent (down_poll w) = sent w /\ lost (down_poll w) = lost w /\
  got (down_poll w) ++ queued (down_poll w) = got w ++ queued w /\
  length (queued (down_poll w)) = pred (length (queued w)).
Proof.
  intros [Hb _ _ _ _] Hq. unfold down_poll. pose proof (body_poll_spec (ring w) queue Hb) as Hp. rewrite Hq.
  destruct (body_poll (ring w) queue) as [[d' queue'] r]. destruct Hp as (_ & _ & H3 & _ & H5).
  unfold queued, body_queue. rewrite Hq. cbn [ring body sent got lost]. split; [done|]. do 3 (split; [done|]).
  destruct r as [[c|]|]; [|destruct H5 as (-> & -> & _)..]; [|done|done].
  rewrite H5. split; [by rewrite <- app_assoc|done].
Qed.
Lemma down_polls_spec n w queue :
  downs w -> body w = Some queue ->
  let w' := Nat.iter n down_poll w in
  is_Some (body w') /\ down_closed (ring w') = down_closed (ring w) /\ sent w' = sent w /\ lost w' = lost w /\
  got w' ++ queued w' = got w ++ queued w /\ length (queued w') = (length (queued w) - n)%nat.
Proof.
  intros Hw Hq. cbn zeta. induction n as [|n ([q Hq'] & H1 & H2 & H3 & H4 & H5)].
  - cbn. rewrite Nat.sub_0_r, Hq. by split_and!.
  - rewrite Nat.iter_succ. destruct (down_poll_spec _ q (downs_inv _ (poll_downs n w Hw)) Hq') as (? & -> & -> & -> & -> & ->).
    split_and!; try done. rewrite H5. lia.
Qed.

Lemma sublist_same (l k : list bytes) : l `sublist_of` k -> length l = length k -> l = k.
Proof.
  induction 1 as [|x l k H IH|x l k H IH]; intros Hlen; cbn in Hlen; [done|f_equal; apply IH; lia|].
  apply sublist_length in H. lia.
Qed.

(** What a dropped GET held is missing, and nothing else: the rest is in order. *)
Lemma downlink_rest w : downs w ->
  (got w ++ queued w) `sublist_of` sent w /\ (length (sent w) = length (got w) + length (queued w) + length (lost w))%nat
  /\ (lost w = [] -> got w ++ queued w = sent w).
Proof.
  intros Hw. destruct (downs_inv w Hw) as [_ _ _ Ho Hn]. split_and!; [done|done|]. intros Hl. rewrite Hl in Hn.
  apply sublist_same; [exact Ho|]. rewrite length_app. cbn in Hn. lia.
Qed.

(** C20: The downlink of a session goes on from GET to GET. Whenever GETs attach,
    are polled and are dropped, as long as none was dropped while its body still
    held chunks it had drained from the ring ([lost] is empty): what the GETs have
    handed the client, and what is still queued for it, is what the relay has
    pushed, every chunk once and in order, so that the next GET resumes where the
    last one stopped. The ring never holds more than its cap, and a GET holds the
    session's slot exactly while it is attached. A GET that is polled on brings the
    client up to the last chunk, and ends after it exactly if the session has
    closed. *)
Theorem xhttp_downlink_exact w :
  downs w -> lost w = [] ->
  got w ++ queued w = sent w /\
  pending_bytes (ring w) <= DOWNLINK_BUFFER_BYTES_CAP /\ get_attached (ring w) = bool_decide (is_Some (body w)) /\
  (is_Some (body w) ->
     let w' := Nat.iter (length (queued w)) down_poll w in
     got w' = sent w /\
     exists q, body w' = Some q /\ (body_poll (ring w') q).2 = if down_closed (ring w) then Some None else None).
Proof.
  intros Hw Hl. destruct (downs_inv w Hw) as [Hb Hc Hs _ _]. destruct (downlink_rest w Hw) as (_ & _ & Hall).
  split_and!; [by apply Hall|done|done|]. intros [q Hq]. cbn zeta.
  destruct (down_polls_spec (length (queued w)) w q Hw Hq) as ([q' Hq'] & H1 & H2 & H3 & H4 & H5).
  set (w' := Nat.iter _ _ _) in *. rewrite Nat.sub_diag in H5. apply nil_length_inv in H5.
  split; [by rewrite H5, app_nil_r, (Hall Hl) in H4|]. exists q'. split; [done|].
  destruct (downs_inv w' (poll_downs _ w Hw)) as [Hb' _ _ _ _]. pose proof (body_poll_spec (ring w') q' Hb') as Hp.
  destruct (body_poll (ring w') q') as [[d'' q''] r]. destruct Hp as (_ & _ & _ & _ & Hr).
  assert (q' ++ pending (ring w') = []) as Hnil by (unfold queued, body_queue in H5; by rewrite Hq' in H5).
  cbn [snd]. rewrite <- H1. destruct r as [[c|]|]; [congruence|by destruct Hr as (_ & _ & ->)..].
Qed.

(** ** Sessions to evaluate *)
Inductive down_move : Type := DPush (data : bytes) | DAttach | DPoll | DDrop | DClose.
Definition make_down (m : down_move) (w : Down) : option Down :=
  match m with
  | DPush data =>
    match data, push_downlink (ring w) data with
    | _ :: _, (d, Some (Ok tt)) => Some (mkDown d (body w) (sent w ++ [data]) (got w) (lost w))
    | _, _ => None
    end
  | DAttach =>
    match body w, try_attach_get (ring w) with
    | None, (d, AttachOk) => Some (mkDown d (Some []) (sent w) (got w) (lost w))
    | _, _ => None
    end
  | DPoll => Some (down_poll w)
  | DDrop =>
    match body w with
    | Some queue => Some (mkDown (detach_get (ring w)) None (sent w) (got w) (lost w ++ queue))
    | None => None
    end
  | DClose =>
    Some (mkDown (mkDownlinkState (pending (ring w)) (pending_bytes (ring w)) true (get_attached (ring w)))
            (body w) (sent w) (got w) (lost w))
  end.
Fixpoint down_moves (ms : list down_move) (w : Down) : option Down :=
  match ms with
  | [] => Some w
  | m :: ms => match make_down m w with Some w => down_moves ms w | None => None end
  end.
#[local] Arguments push_downlink : simpl never.
#[local] Arguments try_attach_get : simpl never.
Lemma make_down_step m w w' : make_down m w = Some w' -> down_step w w'.
Proof.
  destruct m as [data| | | |]; cbn.
  - destruct data as [|b data]; [done|]. destruct (push_downlink _ _) as [d [[[]|]|]] eqn:E; try done. intros [= <-]. by apply dn_push.
  - destruct (body w) eqn:Eb; [done|]. destruct (try_attach_get _) as [d []] eqn:E; try done. intros [= <-]. by apply dn_attach.
  - intros [= <-]. apply dn_poll.
  - destruct (body w) as [queue|] eqn:Eb; [|done]. intros [= <-]. by apply dn_drop.
  - intros [= <-]. apply dn_close.
Qed.
Lemma down_moves_downs ms w w' : downs w -> down_moves ms w = Some w' -> downs w'.
Proof.
  revert w. induction ms as [|m ms IH]; intros w Hw; cbn; [by intros [= <-]|].
  destruct (make_down m w) as [w1|] eqn:E; [|done]. apply IH. eapply downs_step; [done|by eapply make_down_step].
Qed.
Definition down_outcome (ms : list down_move) : Down := default down_start (down_moves ms down_start).
Lemma down_outcome_downs ms : bool_decide (is_Some (down_moves ms down_start)) = true -> downs (down_outcome ms).
Proof.
  intros H. apply bool_decide_eq_true in H as [w Hw]. unfold down_outcome. rewrite Hw.
  apply (down_moves_downs ms down_start); [apply downs_start|done].
Qed.

Definition demo_down : Down :=
  down_outcome [DPush [x01]; DAttach; DPoll; DDrop; DPush [x02]; DPush [x03]; DAttach; DPoll; DClose].
Lemma xhttp_downlink_exact_witness :
  got (Nat.iter (length (queued demo_down)) down_poll demo_down) = [[x01]; [x02]; [x03]].
Proof.
  destruct (xhttp_downlink_exact demo_down) as (_ & _ & _ & H); [apply down_outcome_downs; vm_compute; reflexivity|vm_compute; reflexivity|].
  destruct H as [H _]; [by eexists; vm_compute|]. exact H.
Defined.

(** A GET that is cut while its body still holds chunks takes them with it: the
    next GET of the session goes on after them. *)
Theorem xhttp_reattach_skips :
  let w := down_outcome [DPush [x01]; DPush [x02]; DPush [x03]; DAttach; DPoll; DDrop; DPush [x04]; DAttach; DPoll] in
  downs w /\ sent w = [[x01]; [x02]; [x03]; [x04]] /\ got w = [[x01]; [x04]] /\ queued w = [].
Proof. cbn zeta. split; [apply down_outcome_downs; vm_compute; reflexivity|by vm_compute]. Qed.
(** A chunk longer than the ring's cap is never taken, not even by an empty ring. *)
Lemma push_oversized d data :
  down_closed d = false -> 0 <= pending_bytes d -> DOWNLINK_BUFFER_BYTES_CAP < zlen data -> push_downlink d data = (d, None).
Proof.
  intros Hc Hb Hl. unfold push_downlink. destruct data as [|b data]; [unfold zlen, DOWNLINK_BUFFER_BYTES_CAP in Hl; cbn in Hl; lia|].
  rewrite Hc. by rewrite (proj2 (Z.leb_gt _ _)) by lia.
Qed.

(** * Datagrams over a session

    The client frames each as a record and posts the byte stream of the records cut
    as it likes; the relay's socket reads the POSTs in order ([XhttpClient]) and
    takes the records out of them again ([transport/xhttp/duplex.rs]). *)
Local Open Scope Z_scope.

(** The relay's loop over [recv]: the messages it gets, and whether the session
    has ended; it stops when it would wait. *)
Fixpoint recv_loop (fuel : nat) (u : UplinkState) (closed : bool) (r : XhttpReader) : list bytes * bool :=
  match fuel with
  | O => ([], false)
  | S fuel =>
    match recv_turn u closed r with
    | (u', r', Some (Some (Binary data))) => let (out, ended) := recv_loop fuel u' closed r' in (data :: out, ended)
    | (_, _, Some (Some _)) => ([], false)
    | (_, _, Some None) => ([], true)
    | (u', r', None) => if bool_decide (ready u = []) then ([], false) else recv_loop fuel u' closed r'
    end
  end.

Lemma feed_records ds : Forall wf_payload ds -> feed_chunk dec_new (concat (map record_bytes ds)) = (dec_new, delivered ds).
Proof.
  intros Hd. rewrite (feed_chunk_spec _ _ (S (length (buf dec_new ++ concat (map record_bytes ds))))) by lia.
  cbn [dec_new buf app]. by rewrite split_records_encoded by (done || lia).
Qed.

Section datagrams.
Variable msgs ds : list bytes.
Hypothesis Hsmall : zlen msgs < 2 ^ 64 - 1.
Hypothesis Hnonempty : Forall (fun m => m <> []) msgs.
Hypothesis Hds : Forall wf_payload ds.
Hypothesis Hcut : concat msgs = concat (map record_bytes ds).

(** The reader after the messages popped so far, [out] having been read. *)
Definition reading (w : Upload) (r : XhttpReader) (out : list bytes) : Prop :=
  exists d, records r = Some d /\ rec_inv d /\ feed_chunk dec_new (concat (popped w)) = (d, out ++ queue r).

Lemma reading_prefix w r out : uploads msgs w -> reading w r out -> exists more, delivered ds = out ++ queue r ++ more.
Proof.
  intros Hw (d & _ & Hd & Hf). destruct (uploads_inv msgs Hsmall Hnonempty w Hw) as [_ [_ Ho _ _ _] _ _ _].
  set (rest := ready (server w) ++ drop (Z.to_nat (expected_seq (server w))) msgs).
  assert (msgs = popped w ++ rest) as Hm by (unfold rest; by rewrite app_assoc, Ho, take_drop).
  pose proof (feed_records ds Hds) as Hall. rewrite <- Hcut, Hm, concat_app, feed_chunk_app, Hf in Hall by done.
  destruct (feed_chunk d (concat rest)) as [d2 r2]. injection Hall as _ <-. exists r2. by rewrite <- app_assoc.
Qed.

(** One turn: a message, or a step of the session, or the end. *)
Lemma recv_turn_reading w r out :
  uploads msgs w -> torn_down w = false -> up_closed (server w) = true -> reading w r out ->
  match recv_turn (server w) false r with
  | (u', r', Some (Some m)) => exists data w', m = Binary data /\ uploads msgs w' /\ torn_down w' = false /\
      up_closed (server w') = true /\ server w' = u' /\ reading w' r' (out ++ [data]) /\ (length (popped w) <= length (popped w'))%nat
  | (u', r', Some None) => popped w = msgs /\ queue r = []
  | (u', r', None) => ready (server w) <> [] /\ exists w', uploads msgs w' /\ torn_down w' = false /\
      up_closed (server w') = true /\ server w' = u' /\ reading w' r' out /\ (length (popped w) < length (popped w'))%nat
  end.
Proof.
  intros Hw Ht Hc (d & Hr & Hd & Hf). unfold recv_turn. destruct r as [rs q]. cbn [records queue] in *. subst rs.
  destruct q as [|record q].
  2:{ exists record, w. split_and!; try done. exists d. split_and!; [done|done|]. cbn [queue]. by rewrite <- app_assoc. }
  pose proof (uploads_inv msgs Hsmall Hnonempty w Hw) as Hinv. pose proof (pop_uploads msgs 1 w Hw) as Hw'. cbn in Hw'.
  pose proof (pop_torn w) as Ht'. destruct (pop_progress msgs Hsmall Hnonempty w Hw) as [[Hempty _]|[Hlen Hcl]].
  - unfold pop_uplink_ready. rewrite Hempty. cbn [orb]. unfold uplink_eof. rewrite Hc, Hempty.
    split; [by apply (fin_ready_empty msgs)|done].
  - revert Hw' Ht' Hlen Hcl. unfold relay_pop. destruct (pop_uplink_ready (server w)) as [u' [chunk|]] eqn:Epop.
    2:{ cbn. intros. lia. }
    cbn [torn_down popped server]. intros Hw' Ht' Hlen Hcl. unfold take_records. cbn [records queue app].
    assert (ready (server w) <> []) as Hne by (intros E; unfold pop_uplink_ready in Epop; by rewrite E in Epop).
    set (w' := mkUpload _ _ _ u' _ _) in Hw'.
    pose proof (feed_chunk_app dec_new (concat (popped w)) chunk ltac:(done)) as Happ. rewrite Hf in Happ.
    pose proof (feed_chunk_inv d chunk Hd) as Hd'. destruct (feed_chunk d chunk) as [d' rs] eqn:Ec. cbn [fst] in Hd'.
    assert (feed_chunk dec_new (concat (popped w')) = (d', out ++ rs)) as Hf'.
    { cbn [popped w']. rewrite concat_app. cbn [concat]. rewrite app_nil_r, Happ, app_nil_r. done. }
    destruct rs as [|record rs].
    + split; [done|]. exists w'. split_and!; try done; [etrans; [exact Hcl|exact Hc]| |cbn [popped w']; lia].
      exists d'. by split_and!.
    + exists record, w'. split_and!; try done; [etrans; [exact Hcl|exact Hc]| |cbn [popped w']; lia].
      exists d'. split_and!; [done|done|]. cbn [queue]. by rewrite <- app_assoc.
Qed.

Lemma recv_loop_all fuel w r out :
  uploads msgs w -> torn_down w = false -> up_closed (server w) = true -> reading w r out ->
  (length msgs - length (popped w) + (length (delivered ds) - length out) < fuel)%nat ->
  exists rest, recv_loop fuel (server w) false r = (rest, true) /\ out ++ rest = delivered ds.
Proof.
  revert w r out. induction fuel as [|fuel IH]; intros w r out Hw Ht Hc Hr Hf; [lia|]. cbn [recv_loop].
  pose proof (recv_turn_reading w r out Hw Ht Hc Hr) as Hturn.
  assert (forall w', uploads msgs w' -> (length (popped w') <= length msgs)%nat) as Hbound.
  { intros w' Hw'. destruct (uploads_inv msgs Hsmall Hnonempty w' Hw') as [_ [_ Ho _ _ _] _ _ _].
    apply (f_equal length) in Ho. rewrite length_app, length_take in Ho. lia. }
  destruct (recv_turn (server w) false r) as [[u' r'] [[m|]|]].
  - destruct Hturn as (data & w' & -> & Hw' & Ht' & Hc' & <- & Hr' & Hlen).
    destruct (reading_prefix w' r' _ Hw' Hr') as [more Hmore]. apply (f_equal length) in Hmore. rewrite !length_app in Hmore. cbn in Hmore.
    destruct (IH w' r' (out ++ [data]) Hw' Ht' Hc' Hr') as (rest & -> & He).
    { rewrite length_app. cbn. specialize (Hbound w' Hw'). lia. }
    exists (data :: rest). split; [done|]. by rewrite <- He, <- app_assoc.
  - destruct Hturn as [Hp Hq]. exists []. split; [done|]. destruct Hr as (d & _ & _ & Hr). rewrite Hp, Hcut, feed_records, Hq in Hr by done.
    by injection Hr as _ <-.
  - destruct Hturn as (Hne & w' & Hw' & Ht' & Hc' & <- & Hr' & Hlen). rewrite bool_decide_false by done.
    apply IH; try done. specialize (Hbound w' Hw'). lia.
Qed.

(** The client and the network on one side, the relay's reads on the other: [r] and
    [out] are the relay's reader and what it has given. *)
Definition handed (m : option (option XhttpMsg)) : list bytes := match m with Some (Some (Binary d)) => [d] | _ => [] end.
Definition relay_turn (w : Upload) (r : XhttpReader) (u : UplinkState) : Upload :=
  mkUpload (next_seq w) (window w) (answered w) u (popped match queue r with [] => relay_pop w | _ => w end) (torn_down w).
Inductive reads : Upload -> XhttpReader -> list bytes -> Prop :=
  | reads_start : reads upload_start (split_reader true) []
  | reads_client w w' r out : reads w r out -> upload_step msgs w w' -> popped w' = popped w -> reads w' r out
  | reads_turn w r out u' r' m : reads w r out -> recv_turn (server w) false r = (u', r', m) ->
      reads (relay_turn w r u') r' (out ++ handed m).
Lemma turn_keeps w r out u' r' m : uploads msgs w -> reading w r out -> recv_turn (server w) false r = (u', r', m) ->
  uploads msgs (relay_turn w r u') /\ reading (relay_turn w r u') r' (out ++ handed m).
Proof.
  intros Hw (d & Hr & Hd & Hf). unfold recv_turn, relay_turn. destruct r as [rs q]. cbn [records queue] in *. subst rs.
  destruct q as [|record q].
  2:{ intros [= <- <- <-]. destruct w as [n0 wi an se po to]. split; [done|]. exists d. split_and!; [done|done|]. cbn [queue handed popped]. by rewrite <- app_assoc. }
  pose proof (pop_uploads msgs 1 w Hw) as Hw'. cbn [Nat.iter nat_rect] in Hw'. revert Hw'. unfold relay_pop.
  destruct (pop_uplink_ready (server w)) as [u1 [chunk|]] eqn:Epop; cbn [popped].
  - unfold take_records. cbn [records queue app].
    pose proof (feed_chunk_app dec_new (concat (popped w)) chunk ltac:(done)) as Happ. rewrite Hf in Happ.
    pose proof (feed_chunk_inv d chunk Hd) as Hd'. destruct (feed_chunk d chunk) as [d' rs]. cbn [fst] in Hd'.
    assert (feed_chunk dec_new (concat (popped w ++ [chunk])) = (d', out ++ rs)) as Hf'.
    { rewrite concat_app. cbn [concat]. rewrite app_nil_r, Happ, app_nil_r. done. }
    intros Hw'. destruct rs as [|record rs]; intros [= <- <- <-]; (split; [done|]); exists d'; split_and!; try done;
      cbn [queue handed popped]; rewrite ?app_nil_r in *; try done. by rewrite <- app_assoc.
  - intros Hw'. case_match; intros [= <- <- <-]; (split; [done|]); exists d; split_and!; try done; cbn [queue handed popped]; by rewrite !app_nil_r in *.
Qed.
Lemma reads_reading w r out : reads w r out -> uploads msgs w /\ reading w r out.
Proof.
  induction 1 as [|w w' r out _ [Hw Hr] Hstep Hp|w r out u' r' m _ [Hw Hr] Ht].
  - split; [apply uploads_start|]. exists dec_new. by split_and!.
  - split; [by eapply uploads_step|]. unfold reading in *. by rewrite Hp.
  - by apply turn_keeps.
Qed.

(** C19: Datagrams over the uplink of an XHTTP session, each of at most 65535 bytes,
    their records cut anywhere into POSTs, fewer than 2^64 - 1 and none of them
    empty. In whatever order the POSTs come, however often, and however the relay's reads fall between them,
    what the relay has been given is a prefix of the datagrams sent (an empty one
    is not sent on). And if nothing tore the session down - no POST failed, the
    driver was not aborted, the server did not give the session up - then once the
    client's FIN is there the relay's further reads give it exactly the datagrams
    it has not had, and then the end; it needs no more turns than there are POSTs
    and datagrams. *)
Theorem xhttp_datagrams_exact w r out fuel :
  reads w r out ->
  out `prefix_of` delivered ds
  /\ (torn_down w = false -> up_closed (server w) = true -> (length msgs + length ds < fuel)%nat ->
      exists rest, recv_loop fuel (server w) false r = (rest, true) /\ out ++ rest = delivered ds).
Proof.
  intros Hrun. destruct (reads_reading w r out Hrun) as [Hw Hr]. split.
  - destruct (reading_prefix w r out Hw Hr) as [more ->]. by eexists.
  - intros Ht Hc Hf. apply recv_loop_all; [done..|].
    assert (length (delivered ds) <= length ds)%nat by (clear; induction ds as [|[|b p] l IH]; cbn; lia). lia.
Qed.
End datagrams.

Definition demo_datagrams : list bytes := [[x0a; x0b]; []; [x0c]].
(** Their records, cut inside a header and inside a payload. *)
Definition demo_cut : list bytes := [[x00]; [x02; x0a]; [x0b; x00; x00; x00; x01; x0c]].
(** Runs to evaluate: a move of the client's side, or a turn of the relay. *)
Definition Reading : Type := Upload * XhttpReader * list bytes.
Definition read_move (msgs : list bytes) (m : option move) (x : Reading) : option Reading :=
  let '(w, r, out) := x in
  match m with
  | Some MPop => None
  | Some m => match make msgs m w with Some w => Some (w, r, out) | None => None end
  | None => let '(u, r', m) := recv_turn (server w) false r in Some (relay_turn w r u, r', out ++ handed m)
  end.
Fixpoint read_moves (msgs : list bytes) (ms : list (option move)) (x : Reading) : option Reading :=
  match ms with
  | [] => Some x
  | m :: ms => match read_move msgs m x with Some x => read_moves msgs ms x | None => None end
  end.
Definition reads_at (msgs : list bytes) (x : Reading) : Prop := let '(w, r, out) := x in reads msgs w r out.
Lemma make_popped msgs m w w' : m <> MPop -> make msgs m w = Some w' -> popped w' = popped w.
Proof.
  destruct m as [|seq|seq| |]; cbn; intros Hm H; [..|done|]; repeat case_match; simplify_eq; try done.
  unfold deliver. by destruct (ingest_uplink _ _ _) as [u [[]|[]]].
Qed.
Lemma read_moves_reads msgs ms x x' : reads_at msgs x -> read_moves msgs ms x = Some x' -> reads_at msgs x'.
Proof.
  revert x. induction ms as [|m ms IH]; intros x Hx; cbn [read_moves]; [by intros [= <-]|].
  destruct (read_move msgs m x) as [x1|] eqn:E; [|done]. apply IH. destruct x as [[w r] out]. unfold read_move in E.
  destruct m as [m|].
  - assert (m <> MPop) as Hm by (intros ->; discriminate E). destruct (make msgs m w) as [w1|] eqn:Em; [|by destruct m].
    assert (x1 = (w1, r, out)) as -> by (destruct m; congruence). eapply reads_client; [exact Hx|by eapply make_step|by eapply make_popped].
  - destruct (recv_turn _ _ _) as [[u r'] m] eqn:Et. injection E as <-. by eapply reads_turn.
Qed.
(** The relay turns three times before the client's FIN. *)
Definition read_run : list (option move) :=
  [Some MAdmit; Some MAdmit; Some MAdmit; Some (MDeliver 2); Some (MDeliver 0); None; Some (MDeliver 2); Some (MDeliver 1); None; None;
   Some (MComplete 0); Some (MComplete 1); Some (MComplete 2); Some MFin].
Definition half_read : Reading :=
  default (upload_start, split_reader true, []) (read_moves demo_cut read_run (upload_start, split_reader true, [])).
Lemma xhttp_datagrams_exact_witness :
  half_read.2 = [[x0a; x0b]] /\ recv_loop 7 (server half_read.1.1) false half_read.1.2 = ([[x0c]], true).
Proof.
  split; [vm_compute; reflexivity|].
  destruct (xhttp_datagrams_exact demo_cut demo_datagrams ltac:(reflexivity) ltac:(by repeat constructor)
    ltac:(repeat constructor; vm_compute; discriminate) ltac:(reflexivity) half_read.1.1 half_read.1.2 half_read.2 7) as [_ H].
  - change (reads_at demo_cut half_read). apply (read_moves_reads demo_cut read_run (upload_start, split_reader true, [])); [apply reads_start|].
    vm_compute. reflexivity.
  - destruct H as (rest & Hr & Ho); [vm_compute; reflexivity|vm_compute; reflexivity|cbn; lia|].
    rewrite Hr. assert (half_read.2 = [[x0a; x0b]]) as E by (vm_compute; reflexivity). rewrite E in Ho.
    vm_compute in Ho. by injection Ho as ->.
Defined.
