(* ===== verification/UdpCrypto.v ===== *)
(** One Shadowsocks datagram, at both ends: the server's
    [bins/outline-ss-rust/src/crypto/udp.rs] with the session-key cache
    ([session_cache.rs]) and the header ciphers of [user_key.rs], and the client's
    [crates/shadowsocks-crypto/src/udp.rs], [ss2022_udp.rs] with the session state
    of [crates/outline-transport/src/udp_transport.rs].

    The AEAD suites and the key derivations are the parameters of
    [StreamCrypto]; the extended-nonce suite ([xseal], [xopen]) and the AES block
    cipher are two more. The shards of the cache are third-party LRU maps, a class
    here. What a generator draws is an argument. *)
From S2P Require Import Prelude ReplayStore Target Cipher Ss2022 StreamCrypto StreamClient.
Local Open Scope Z_scope.

Definition XNONCE_LEN : nat := 24.

(** [mode] of a datagram's session is [ReplayStore.UdpCipherMode]. *)
Record UdpPacket : Type := mkPacket {
  pkt_user : UserKey;
  pkt_payload : bytes;
  pkt_session : UdpCipherMode;
  pkt_packet_id : option Z;
  legacy_replay_salt : option bytes
}.

(** ** The session-key cache *)
Definition MAX_SALT_LEN : nat := 32.
Definition SHARD_COUNT : nat := 16.
Definition DEFAULT_SESSION_KEY_CACHE_CAPACITY : Z := 16384.
Record CacheKey : Type := mkCacheKey { ck_user_index : Z; ck_salt_len : nat; ck_salt : bytes }.
#[export] Instance CacheKey_eq_dec : EqDecision CacheKey.
Proof. solve_decision. Defined.
#[export] Instance CacheKey_countable : Countable CacheKey.
Proof.
  refine (inj_countable' (fun k => (ck_user_index k, ck_salt_len k, ck_salt k)) (fun '(i, n, s) => mkCacheKey i n s) _).
  by intros [].
Defined.
Definition cache_key (user_index : nat) (salt : bytes) : option CacheKey :=
  if (MAX_SALT_LEN <? length salt)%nat || (2 ^ 32 - 1 <? Z.of_nat user_index) then None
  else Some (mkCacheKey (Z.of_nat user_index) (length salt) (salt ++ zeros (MAX_SALT_LEN - length salt))).

(** FNV-1a, 64 bits. *)
Definition FNV_OFFSET : Z := 0xcbf29ce484222325.
Definition FNV_PRIME : Z := 0x100000001b3.
Definition fnv_byte (h : Z) (b : byte) : Z := (Z.lxor h (b2z b) * FNV_PRIME) mod 2 ^ 64.
Definition shard_for (k : CacheKey) : nat :=
  let h := foldl fnv_byte FNV_OFFSET (le_bytes 8 (ck_user_index k)) in
  let h := foldl fnv_byte h (take (min (ck_salt_len k) 8) (ck_salt k)) in
  Z.to_nat (Z.land h (Z.of_nat SHARD_COUNT - 1)).

(** [lru::LruCache]: a lookup gives what the map holds, an insertion may evict. *)
Class Lru (L : Type) : Type := {
  lru_new : nat -> L;
  lru_get : L -> CacheKey -> L * option AeadKey;
  lru_put : L -> CacheKey -> AeadKey -> L
}.
Section cache.
Context {L : Type} `{LR : !Lru L}.
Definition SessionKeyCache : Type := list L.
Definition cache_new (total_capacity : Z) : SessionKeyCache :=
  let per_shard := Z.max 1 ((total_capacity + Z.of_nat SHARD_COUNT - 1) / Z.of_nat SHARD_COUNT) in
  replicate SHARD_COUNT (lru_new (Z.to_nat per_shard)).
Definition with_default_capacity : SessionKeyCache := cache_new DEFAULT_SESSION_KEY_CACHE_CAPACITY.
Definition cache_get (c : SessionKeyCache) (user_index : nat) (salt : bytes) : SessionKeyCache * option AeadKey :=
  match cache_key user_index salt with
  | None => (c, None)
  | Some k =>
    match c !! shard_for k with
    | Some shard => let (shard, v) := lru_get shard k in (<[shard_for k := shard]> c, v)
    | None => (c, None)
    end
  end.
Definition cache_insert (c : SessionKeyCache) (user_index : nat) (salt : bytes) (v : AeadKey) : SessionKeyCache :=
  match cache_key user_index salt with
  | None => c
  | Some k =>
    match c !! shard_for k with
    | Some shard => <[shard_for k := lru_put shard k v]> c
    | None => c
    end
  end.

(** ** The server *)
Section udp.
Variable seal : AeadKey -> bytes -> bytes -> option bytes.
Variable open_in_place : AeadKey -> bytes -> bytes -> option bytes.
Variable hkdf_sha1 : bytes -> bytes -> bytes -> nat -> option bytes.
Variable blake3_derive_xof : bytes -> bytes -> nat -> bytes.
Variable xseal xopen : bytes -> bytes -> bytes -> option bytes.
Variable aes_encrypt_block aes_decrypt_block : bytes -> bytes -> bytes.

Definition xchacha_cipher (user : UserKey) : result CryptoError bytes :=
  if bool_decide (length (master_key user) = 32%nat) then Ok (master_key user) else Err CipherFailed.
(** The block cipher is chosen by the length of its key. *)
Definition aes_header_cipher (user : UserKey) : result CryptoError bytes :=
  match cipher user with
  | Aes128Gcm2022 => if bool_decide (length (master_key user) = 16%nat) then Ok (master_key user) else Err CipherFailed
  | Aes256Gcm2022 => if bool_decide (length (master_key user) = 32%nat) then Ok (master_key user) else Err CipherFailed
  | _ => Err InvalidHeader
  end.
Definition encrypt_ss2022_separate_header (user : UserKey) (separate_header : bytes) : result CryptoError bytes :=
  key ← aes_header_cipher user;
  Ok (aes_encrypt_block key separate_header).
Definition decrypt_ss2022_separate_header (user : UserKey) (encrypted : bytes) : result CryptoError bytes :=
  if negb (bool_decide (length encrypted = 16%nat)) then Err InvalidHeader
  else
    key ← aes_header_cipher user;
    Ok (aes_decrypt_block key encrypted).

(** The key, and whether it came from the cache. *)
Definition resolve_session_key (user : UserKey) (user_index : nat) (salt : bytes) (cache : option SessionKeyCache)
    : option SessionKeyCache * result CryptoError (AeadKey * bool) :=
  let build :=
    key ← build_session_key hkdf_sha1 blake3_derive_xof (cipher user) (master_key user) salt;
    Ok (key, false) in
  match cache with
  | None => (None, build)
  | Some c =>
    let (c, hit) := cache_get c user_index salt in
    (Some c, match hit with Some key => Ok (key, true) | None => build end)
  end.
Definition backfill (cache : option SessionKeyCache) (from_cache : bool) (user_index : nat) (salt : bytes) (key : AeadKey)
    : option SessionKeyCache :=
  if from_cache then cache else (fun c => cache_insert c user_index salt key) <$> cache.

Definition parse_ss2022_udp_request_body (body : bytes) (now : Z) : result CryptoError bytes :=
  r ← map_err from_header_error (parse_udp_request_body body now);
  encode_target_and_payload r.
Definition parse_ss2022_chacha_udp_request_body (body : bytes) (now : Z) : result CryptoError (bytes * bytes * Z) :=
  r ← map_err from_header_error (parse_chacha_udp_request_body body now);
  output ← encode_target_and_payload (c_request r);
  Ok (output, client_session_id r, packet_id r).

(** [Ok None]: the datagram is not this user's. *)
Definition try_chacha_2022 (user : UserKey) (packet : bytes) (now : Z) : result CryptoError (option UdpPacket) :=
  if (length packet <? XNONCE_LEN + 16)%nat then Ok None
  else
    key ← xchacha_cipher user;
    match xopen key (take XNONCE_LEN packet) (drop XNONCE_LEN packet) with
    | None => Ok None
    | Some buf =>
      '(payload, csid, pid) ← parse_ss2022_chacha_udp_request_body buf now;
      Ok (Some (mkPacket user payload (Chacha2022 csid) (Some pid) None))
    end.
Definition try_aes_2022 (user : UserKey) (user_index : nat) (packet : bytes) (cache : option SessionKeyCache) (now : Z)
    : option SessionKeyCache * result CryptoError (option UdpPacket) :=
  if (length packet <? SS2022_UDP_SEPARATE_HEADER_LEN + 16)%nat then (cache, Ok None)
  else
    match decrypt_ss2022_separate_header user (take 16 packet) with
    | Err e => (cache, Err e)
    | Ok separate_header =>
      let csid := take 8 separate_header in
      let pid := be_val (slice separate_header 8 16) in
      let (cache, r) := resolve_session_key user user_index csid cache in
      match r with
      | Err e => (cache, Err e)
      | Ok (key, from_cache) =>
        match open_in_place key (udp_nonce_from_separate_header separate_header) (drop 16 packet) with
        | None => (cache, Ok None)
        | Some body =>
          match parse_ss2022_udp_request_body body now with
          | Err e => (cache, Err e)
          | Ok payload =>
            (backfill cache from_cache user_index csid key,
             Ok (Some (mkPacket user payload (Aes2022 csid) (Some pid) None)))
          end
        end
      end
    end.
Definition try_legacy (user : UserKey) (user_index : nat) (packet : bytes) (cache : option SessionKeyCache)
    : option SessionKeyCache * result CryptoError (option UdpPacket) :=
  let n := salt_len (cipher user) in
  if (length packet <? n + 16)%nat then (cache, Ok None)
  else
    let salt := take n packet in
    let (cache, r) := resolve_session_key user user_index salt cache in
    match r with
    | Err e => (cache, Err e)
    | Ok (key, from_cache) =>
      match open_in_place key (zeros NONCE_LEN) (drop n packet) with
      | None => (cache, Ok None)
      | Some plaintext =>
        (backfill cache from_cache user_index salt key,
         Ok (Some (mkPacket user plaintext ReplayStore.Legacy None (Some (salt ++ zeros (32 - n))))))
      end
    end.
Definition try_decrypt_udp_packet_for_user (user : UserKey) (user_index : nat) (packet : bytes)
    (cache : option SessionKeyCache) (now : Z) : option SessionKeyCache * result CryptoError (option UdpPacket) :=
  if bool_decide (cipher user = Chacha20Poly13052022) then (cache, try_chacha_2022 user packet now)
  else if is_ss2022_aes (cipher user) then try_aes_2022 user user_index packet cache now
  else try_legacy user user_index packet cache.

(** The scan from index [idx] on, past the preferred one. *)
Fixpoint scan_packet (users : list UserKey) (idx : nat) (packet : bytes) (preferred : option nat)
    (cache : option SessionKeyCache) (now : Z) : option SessionKeyCache * result CryptoError (UdpPacket * nat) :=
  match users with
  | [] => (cache, Err UnknownUser)
  | user :: users =>
    if bool_decide (Some idx = preferred) then scan_packet users (S idx) packet preferred cache now
    else
      let (cache, r) := try_decrypt_udp_packet_for_user user idx packet cache now in
      match r with
      | Err e => (cache, Err e)
      | Ok (Some p) => (cache, Ok (p, idx))
      | Ok None => scan_packet users (S idx) packet preferred cache now
      end
  end.
Definition decrypt_udp_packet_with_hint (users : list UserKey) (packet : bytes) (preferred : option nat)
    (cache : option SessionKeyCache) (now : Z) : option SessionKeyCache * result CryptoError (UdpPacket * nat) :=
  if zlen packet <? TAG_LEN then (cache, Err PacketTooShort)
  else
    match (index ← preferred; user ← users !! index; Some (index, user)) with
    | Some (index, user) =>
      let (cache, r) := try_decrypt_udp_packet_for_user user index packet cache now in
      match r with
      | Err e => (cache, Err e)
      | Ok (Some p) => (cache, Ok (p, index))
      | Ok None => scan_packet users 0 packet preferred cache now
      end
    | None => scan_packet users 0 packet preferred cache now
    end.

(** [entropy] is what the generator fills the salt or the nonce with. *)
Definition encrypt_udp_packet_for_response (user : UserKey) (source : TargetAddr) (payload : bytes)
    (session : UdpCipherMode) (server_session_id : option bytes) (packet_id now : Z) (entropy : option bytes)
    : result CryptoError bytes :=
  match session with
  | ReplayStore.Legacy =>
    header ← map_err (fun _ => InvalidHeader) (to_wire_bytes source);
    salt ← ok_or Random entropy;
    key ← build_session_key hkdf_sha1 blake3_derive_xof (cipher user) (master_key user) salt;
    sealed ← ok_or CipherFailed (seal key (zeros NONCE_LEN) (header ++ payload));
    Ok (salt ++ sealed)
  | Aes2022 csid =>
    ssid ← ok_or InvalidHeader server_session_id;
    target ← map_err (fun _ => InvalidHeader) (to_wire_bytes source);
    let separate_header := encode_udp_separate_header ssid packet_id in
    encrypted_header ← encrypt_ss2022_separate_header user separate_header;
    key ← build_session_key hkdf_sha1 blake3_derive_xof (cipher user) (master_key user) ssid;
    sealed ← ok_or CipherFailed (seal key (udp_nonce_from_separate_header separate_header)
                                   (write_udp_response_body [] now csid target payload));
    Ok (encrypted_header ++ sealed)
  | Chacha2022 csid =>
    ssid ← ok_or InvalidHeader server_session_id;
    target ← map_err (fun _ => InvalidHeader) (to_wire_bytes source);
    nonce ← ok_or Random entropy;
    key ← xchacha_cipher user;
    sealed ← ok_or CipherFailed (xseal key nonce (write_chacha_udp_response_body [] ssid packet_id now csid target payload));
    Ok (nonce ++ sealed)
  end.

(** ** The client *)
Inductive UdpError : Type :=
  | InvalidKey
  | UdpEncryptFailed
  | UdpDecryptFailed
  | UdpShortCiphertext
  | KeyError (e : TransportError)
  | Ss2022TimestampSkew (skew : Z)
  | InvalidServerType
  | ClientSessionMismatch
  | InvalidServerBody
  | SeparateHeaderAesOnly
  | Requires2022
  | UdpPacketTooShort
  | DuplicateOrOutOfOrderUdpPacket.

Definition map_response_body_err (e : Ss2022HeaderError) : UdpError :=
  match e with
  | TimestampSkew skew => Ss2022TimestampSkew skew
  | InvalidResponseType _ => InvalidServerType
  | Ss2022.ClientSessionMismatch => ClientSessionMismatch
  | _ => InvalidServerBody
  end.

(** [AES-*::new_from_slice] and one block. *)
Definition client_header_key (c : CipherKind) (master_key : bytes) : result UdpError bytes :=
  match c with
  | Aes128Gcm2022 => if bool_decide (length master_key = 16%nat) then Ok master_key else Err InvalidKey
  | Aes256Gcm2022 => if bool_decide (length master_key = 32%nat) then Ok master_key else Err InvalidKey
  | _ => Err SeparateHeaderAesOnly
  end.
Definition encrypt_udp_separate_header (c : CipherKind) (master_key header : bytes) : result UdpError bytes :=
  key ← client_header_key c master_key;
  Ok (aes_encrypt_block key header).
Definition decrypt_udp_separate_header (c : CipherKind) (master_key header : bytes) : result UdpError bytes :=
  key ← client_header_key c master_key;
  Ok (aes_decrypt_block key header).
Definition xchacha_key (master_key : bytes) : result UdpError bytes :=
  if bool_decide (length master_key = 32%nat) then Ok master_key else Err InvalidKey.
Definition udp_key (c : CipherKind) (master_key salt : bytes) : result UdpError AeadKey :=
  map_err KeyError (client_key hkdf_sha1 blake3_derive_xof c master_key salt).
(** [decrypt] *)
Definition decrypt (key : AeadKey) (nonce payload : bytes) : result UdpError bytes :=
  if zlen payload <? SHADOWSOCKS_TAG_LEN then Err UdpShortCiphertext
  else ok_or UdpDecryptFailed (open_in_place key nonce payload).

Definition encrypt_udp_packet_2022_aes (c : CipherKind) (master_key session_id : bytes) (packet_id : Z) (plaintext : bytes)
    : result UdpError bytes :=
  let separate_header := encode_udp_separate_header session_id packet_id in
  key ← udp_key c master_key (take 8 separate_header);
  encrypted_header ← encrypt_udp_separate_header c master_key separate_header;
  sealed ← ok_or UdpEncryptFailed (seal key (udp_nonce_from_separate_header separate_header) plaintext);
  Ok (encrypted_header ++ sealed).
Definition seal_xchacha_packet (master_key nonce plaintext : bytes) : result UdpError bytes :=
  key ← xchacha_key master_key;
  sealed ← ok_or UdpEncryptFailed (xseal key nonce plaintext);
  Ok (nonce ++ sealed).
(** [session_id] is the id of eight bytes, [nonce] what the generator draws. *)
Definition encrypt_udp_packet_2022 (c : CipherKind) (master_key : bytes) (session_id packet_id now : Z) (nonce payload : bytes)
    : result UdpError bytes :=
  if negb (is_ss2022 c) then Err Requires2022
  else
    let id := be_bytes 8 session_id in
    let plaintext := build_udp_request_body (if is_ss2022_chacha c then Some (id, packet_id) else None) now payload in
    if is_ss2022_chacha c then seal_xchacha_packet master_key nonce plaintext
    else encrypt_udp_packet_2022_aes c master_key id packet_id plaintext.

(** Zero stands for no check. *)
Definition expected_session_bytes (expected_client_session_id : Z) : option bytes :=
  if expected_client_session_id =? 0 then None else Some (be_bytes 8 expected_client_session_id).
Definition decrypt_udp_packet_2022_aes (c : CipherKind) (master_key : bytes) (expected_client_session_id now : Z) (packet : bytes)
    : result UdpError (Z * Z * bytes) :=
  if zlen packet <? 16 + SHADOWSOCKS_TAG_LEN then Err UdpPacketTooShort
  else
    separate_header ← decrypt_udp_separate_header c master_key (take 16 packet);
    key ← udp_key c master_key (take 8 separate_header);
    plaintext ← decrypt key (udp_nonce_from_separate_header separate_header) (drop 16 packet);
    payload ← map_err map_response_body_err
      (parse_udp_response_body plaintext (expected_session_bytes expected_client_session_id) now);
    Ok (be_val (take 8 separate_header), be_val (drop 8 separate_header), payload).
Definition decrypt_udp_packet_2022_chacha (master_key : bytes) (expected_client_session_id now : Z) (packet : bytes)
    : result UdpError (Z * Z * bytes) :=
  if zlen packet <? 24 + SHADOWSOCKS_TAG_LEN then Err UdpPacketTooShort
  else
    key ← xchacha_key master_key;
    buffer ← ok_or UdpDecryptFailed (xopen key (take 24 packet) (drop 24 packet));
    r ← map_err map_response_body_err
      (parse_chacha_udp_response_body buffer (expected_session_bytes expected_client_session_id) now);
    Ok (be_val (server_session_id r), r_packet_id r, addressed_payload r).
Definition decrypt_udp_packet_2022 (c : CipherKind) (master_key : bytes) (expected_client_session_id now : Z) (packet : bytes)
    : result UdpError (Z * Z * bytes) :=
  if negb (is_ss2022 c) then Err Requires2022
  else if is_ss2022_chacha c then decrypt_udp_packet_2022_chacha master_key expected_client_session_id now packet
  else decrypt_udp_packet_2022_aes c master_key expected_client_session_id now packet.

(** [drawn] is a fresh session id for the 2022 suites and the salt buffer of 32
    bytes for the others. *)
Definition encrypt_udp_packet (c : CipherKind) (master_key : bytes) (now : Z) (session_id : Z) (drawn payload : bytes)
    : result UdpError bytes :=
  if is_ss2022 c then encrypt_udp_packet_2022 c master_key session_id 0 now drawn payload
  else
    let salt := take (salt_len c) drawn in
    key ← udp_key c master_key salt;
    sealed ← ok_or UdpEncryptFailed (seal key (zeros 12) payload);
    Ok (salt ++ sealed).
Definition decrypt_udp_packet (c : CipherKind) (master_key : bytes) (now : Z) (packet : bytes) : result UdpError bytes :=
  if is_ss2022 c then r ← decrypt_udp_packet_2022 c master_key 0 now packet; Ok r.2
  else
    let n := salt_len c in
    if (length packet <? n + 16)%nat then Err UdpPacketTooShort
    else
      key ← udp_key c master_key (take n packet);
      decrypt key (zeros 12) (drop n packet).

(** The session of a transport. *)
Record Ss2022UdpState : Type := mkUdpState {
  client_session : Z;
  next_client_packet_id : Z;
  server_session : option Z;
  last_server_packet_id : option Z
}.
Record UdpWsTransport : Type := mkTransport {
  t_cipher : CipherKind;
  t_master_key : bytes;
  t_ss2022 : option Ss2022UdpState
}.
Definition transport_new (c : CipherKind) (master_key : bytes) (session_id : Z) : UdpWsTransport :=
  mkTransport c master_key (if is_ss2022 c then Some (mkUdpState session_id 0 None None) else None).
(** The sealing half of [send_packet]. The counter steps on success. *)
Definition seal_packet (t : UdpWsTransport) (now : Z) (drawn payload : bytes) : UdpWsTransport * result UdpError bytes :=
  match t_ss2022 t with
  | Some s =>
    match encrypt_udp_packet_2022 (t_cipher t) (t_master_key t) (client_session s) (next_client_packet_id s) now drawn payload with
    | Ok packet =>
      (mkTransport (t_cipher t) (t_master_key t)
         (Some (mkUdpState (client_session s) (next_client_packet_id s + 1) (server_session s) (last_server_packet_id s))),
       Ok packet)
    | Err e => (t, Err e)
    end
  | None => (t, encrypt_udp_packet (t_cipher t) (t_master_key t) now 0 drawn payload)
  end.
Definition decrypt_udp_bytes (t : UdpWsTransport) (now : Z) (packet : bytes) : UdpWsTransport * result UdpError bytes :=
  match t_ss2022 t with
  | Some s =>
    match decrypt_udp_packet_2022 (t_cipher t) (t_master_key t) (client_session s) now packet with
    | Err e => (t, Err e)
    | Ok (session_id, packet_id, payload) =>
      if match last_server_packet_id s with
         | Some last => bool_decide (server_session s = Some session_id) && (packet_id <=? last)
         | None => false
         end
      then (t, Err DuplicateOrOutOfOrderUdpPacket)
      else
        (mkTransport (t_cipher t) (t_master_key t)
           (Some (mkUdpState (client_session s) (next_client_packet_id s) (Some session_id) (Some packet_id))),
         Ok payload)
    end
  | None => (t, decrypt_udp_packet (t_cipher t) (t_master_key t) now packet)
  end.
End udp.
End cache.
