(* ===== verification/UdpCryptoFacts.v ===== *)
(** What the two ends of a Shadowsocks datagram do together: what the client
    seals the server opens for its user, whatever is cached and whichever user was
    seen last, and what the server answers the client reads, once. *)
From Stdlib Require Import Sorted.
From S2P Require Import Prelude Target Cipher Ss2022 ReplayStore StreamCrypto StreamClient StreamWire UdpCrypto.
Local Open Scope Z_scope.

(** ** What is assumed of the other suites *)
Class XAeadLaws (xseal xopen : bytes -> bytes -> bytes -> option bytes) : Prop := {
  xseal_opens : forall key n p, length key = 32%nat -> length n = 24%nat -> zlen p < 2 ^ 20 ->
    exists c, xseal key n p = Some c /\ zlen c = zlen p + 16 /\ xopen key n c = Some p
}.
Class BlockLaws (enc dec : bytes -> bytes -> bytes) : Prop := {
  block_inverse : forall key b, (length key = 16 \/ length key = 32)%nat -> length b = 16%nat ->
    length (enc key b) = 16%nat /\ dec key (enc key b) = b
}.
(** A map never makes up an entry. *)
Class LruLaws (L : Type) `{LR : !Lru L} : Type := {
  lru_holds : L -> CacheKey -> AeadKey -> Prop;
  lru_new_holds : forall n k v, ~ lru_holds (lru_new n) k v;
  lru_get_hit : forall c k c' v, lru_get c k = (c', Some v) -> lru_holds c k v;
  lru_get_holds : forall c k c' r k' v, lru_get c k = (c', r) -> lru_holds c' k' v -> lru_holds c k' v;
  lru_put_holds : forall c k v k' v', lru_holds (lru_put c k v) k' v' -> (k' = k /\ v' = v) \/ lru_holds c k' v'
}.

Lemma cache_key_inj i s j t k : cache_key i s = Some k -> cache_key j t = Some k -> i = j /\ s = t.
Proof.
  unfold cache_key. destruct (_ || _) eqn:E1; [done|]. destruct ((MAX_SALT_LEN <? length t)%nat || _) eqn:E2; [done|].
  intros [= <-] [= Hi Hl Hs]. split; [lia|]. assert (take (length s) (s ++ zeros (MAX_SALT_LEN - length s))
    = take (length s) (t ++ zeros (MAX_SALT_LEN - length t))) as E by congruence.
  rewrite take_app_length, <- Hl, take_app_length in E. done.
Qed.

Section cache.
Context {L : Type} `{LR : !Lru L} {LL : LruLaws L}.
Context (hkdf_sha1 : bytes -> bytes -> bytes -> nat -> option bytes) (blake3_derive_xof : bytes -> bytes -> nat -> bytes).
Local Abbreviation session_key user salt := (build_session_key hkdf_sha1 blake3_derive_xof (cipher user) (master_key user) salt).

(** Every key in the cache is the one its user and salt derive. *)
Definition cache_sound (users : list UserKey) (c : SessionKeyCache) : Prop :=
  forall n shard k v, c !! n = Some shard -> lru_holds shard k v ->
    exists i salt user, cache_key i salt = Some k /\ users !! i = Some user /\ session_key user salt = Ok v.
Definition opt_sound (users : list UserKey) (cached : bool) (c : option SessionKeyCache) : Prop :=
  match c with Some c => cached = true /\ cache_sound users c | None => cached = false end.

Lemma cache_new_sound users n : cache_sound users (cache_new n).
Proof. intros i shard k v [-> _]%lookup_replicate H. by apply lru_new_holds in H. Qed.
Lemma cache_get_sound users c i salt user c' r : cache_sound users c -> users !! i = Some user ->
  cache_get c i salt = (c', r) -> cache_sound users c' /\ (forall v, r = Some v -> session_key user salt = Ok v).
Proof.
  intros Hc Hu. unfold cache_get. destruct (cache_key i salt) as [k|] eqn:Ek; [|by intros [= <- <-]].
  destruct (c !! shard_for k) as [shard|] eqn:Es; [|by intros [= <- <-]].
  destruct (lru_get shard k) as [shard' v] eqn:Eg. intros [= <- <-]. split.
  - intros n sh k' v' Hn Hh. destruct (decide (n = shard_for k)) as [->|Hne].
    + rewrite list_lookup_insert_eq in Hn by (by eapply lookup_lt_Some). injection Hn as <-.
      eapply Hc; [exact Es|]. by eapply lru_get_holds.
    + rewrite list_lookup_insert_ne in Hn by done. by eapply Hc.
  - intros v' ->. apply lru_get_hit in Eg. destruct (Hc _ _ _ _ Es Eg) as (j & t & u & Hk & Hj & Hv).
    destruct (cache_key_inj _ _ _ _ _ Ek Hk) as [-> ->]. congruence.
Qed.
Lemma cache_insert_sound users c i salt user v : cache_sound users c -> users !! i = Some user ->
  session_key user salt = Ok v -> cache_sound users (cache_insert c i salt v).
Proof.
  intros Hc Hu Hv. unfold cache_insert. destruct (cache_key i salt) as [k|] eqn:Ek; [|done].
  destruct (c !! shard_for k) as [shard|] eqn:Es; [|done]. intros n sh k' v' Hn Hh.
  destruct (decide (n = shard_for k)) as [->|Hne]; [|rewrite list_lookup_insert_ne in Hn by done; by eapply Hc].
  rewrite list_lookup_insert_eq in Hn by (by eapply lookup_lt_Some). injection Hn as <-.
  apply lru_put_holds in Hh as [[-> ->]|Hh]; [by exists i, salt, user|by eapply Hc].
Qed.

Context (seal open_ : AeadKey -> bytes -> bytes -> option bytes).
Context (xseal xopen : bytes -> bytes -> bytes -> option bytes) (aes_enc aes_dec : bytes -> bytes -> bytes).
Local Abbreviation try_user c u i p now := (try_decrypt_udp_packet_for_user (L := L) open_ hkdf_sha1 blake3_derive_xof xopen aes_dec u i p c now).
Local Abbreviation open_packet := (decrypt_udp_packet_with_hint (L := L) open_ hkdf_sha1 blake3_derive_xof xopen aes_dec).

(** A run with a cache does what the run without one does. *)
Definition follows {A} (users : list UserKey) (b : bool) (cached plain : option (SessionKeyCache (L := L)) * A) : Prop :=
  cached.2 = plain.2 /\ opt_sound users b cached.1.
Lemma resolve_follows users user i salt b c : opt_sound users b c -> users !! i = Some user ->
  let r := resolve_session_key hkdf_sha1 blake3_derive_xof user i salt c in
  opt_sound users b r.1 /\
  match session_key user salt with
  | Ok key => exists from, r.2 = Ok (key, from) /\ opt_sound users b (backfill r.1 from i salt key)
  | Err e => r.2 = Err e
  end.
Proof.
  intros Hc Hu. unfold resolve_session_key. destruct c as [c|]; cbn zeta.
  2: { split; [done|]. destruct (session_key user salt) as [key|e]; [by exists false|done]. }
  destruct Hc as [-> Hc]. destruct (cache_get c i salt) as [c' hit] eqn:Eg. destruct (cache_get_sound _ _ _ _ _ _ _ Hc Hu Eg) as [Hc' Hhit].
  cbn [fst snd]. split; [done|]. destruct hit as [key|].
  - rewrite (Hhit key eq_refl). by exists true.
  - destruct (session_key user salt) as [key|e] eqn:Ek; [|done]. exists false. split; [done|]. split; [done|]. by eapply cache_insert_sound.
Qed.
Lemma try_follows users user i packet b c now : opt_sound users b c -> users !! i = Some user ->
  follows users b (try_user c user i packet now) (try_user None user i packet now).
Proof.
  intros Hc Hu. unfold try_decrypt_udp_packet_for_user. case_bool_decide; [done|].
  destruct (is_ss2022_aes _).
  - unfold try_aes_2022. case_match; [done|]. destruct (decrypt_ss2022_separate_header _ _ _) as [h|e]; [|done].
    destruct (resolve_follows users user i (take 8 h) b c Hc Hu) as [H1 H2].
    destruct (resolve_session_key _ _ user i (take 8 h) c) as [c1 r1] eqn:E1. cbn [fst snd] in *.
    unfold resolve_session_key at 1. destruct (session_key user (take 8 h)) as [key|e]; cbn.
    + destruct H2 as (from & -> & Hb). destruct (open_ _ _ _) as [body|]; [|done].
      by destruct (parse_ss2022_udp_request_body _ _).
    + by rewrite H2.
  - unfold try_legacy. cbn zeta. case_match; [done|].
    destruct (resolve_follows users user i (take (salt_len (cipher user)) packet) b c Hc Hu) as [H1 H2].
    destruct (resolve_session_key _ _ user i (take (salt_len (cipher user)) packet) c) as [c1 r1] eqn:E1. cbn [fst snd] in *.
    unfold resolve_session_key at 1. destruct (session_key user _) as [key|e]; cbn.
    + destruct H2 as (from & -> & Hb). by destruct (open_ _ _ _).
    + by rewrite H2.
Qed.
Lemma scan_follows users packet hint now rest : forall i b c, opt_sound users b c -> drop i users = rest ->
  follows users b (scan_packet (L := L) open_ hkdf_sha1 blake3_derive_xof xopen aes_dec rest i packet hint c now)
    (scan_packet (L := L) open_ hkdf_sha1 blake3_derive_xof xopen aes_dec rest i packet hint None now).
Proof.
  induction rest as [|user rest IH]; intros i b c Hc Hd; cbn [scan_packet]; [done|].
  assert (users !! i = Some user) as Hu by (rewrite <- (Nat.add_0_r i), <- lookup_drop, Hd; done).
  assert (drop (S i) users = rest) as Hd' by (by rewrite <- (Nat.add_1_r i), <- drop_drop, Hd).
  case_bool_decide; [by apply IH|].
  pose proof (try_follows users user i packet b c now Hc Hu) as [H1 H2].
  pose proof (try_follows users user i packet false None now eq_refl Hu) as [_ H3].
  destruct (try_user c user i packet now) as [c1 r1], (try_user None user i packet now) as [c2 r2]. cbn in *. subst r2.
  destruct r1 as [[p|]|e]; [done| |done].
  destruct (IH (S i) b c1 H2 Hd') as [Ha Hb], (IH (S i) false c2 H3 Hd') as [Hx Hy]. split; [congruence|done].
Qed.
Lemma open_follows users packet hint b c now : opt_sound users b c ->
  follows users b (open_packet users packet hint c now) (open_packet users packet hint None now).
Proof.
  intros Hc. unfold decrypt_udp_packet_with_hint. case_match; [done|].
  destruct hint as [i|]; [|by apply scan_follows]. cbn [mbind option_bind].
  destruct (users !! i) as [user|] eqn:Hu; [|by apply scan_follows]. cbn [mbind option_bind].
  pose proof (try_follows users user i packet b c now Hc Hu) as [H1 H2].
  pose proof (try_follows users user i packet false None now eq_refl Hu) as [_ H3].
  destruct (try_user c user i packet now) as [c1 r1], (try_user None user i packet now) as [c2 r2]. cbn in *. subst r2.
  destruct r1 as [[p|]|e]; [done| |done].
  pose proof (scan_follows users packet (Some i) now users 0 b c1 H2 eq_refl) as [Ha Hb].
  pose proof (scan_follows users packet (Some i) now users 0 false c2 H3 eq_refl) as [Hx Hy]. split; [congruence|done].
Qed.
End cache.

(** ** Round trips *)
Section roundtrip.
Context (seal open_ : AeadKey -> bytes -> bytes -> option bytes) `{AL : !AeadLaws seal open_}.
Context (hkdf_sha1 : bytes -> bytes -> bytes -> nat -> option bytes)
  (blake3_derive_xof : bytes -> bytes -> nat -> bytes) `{KL : !KdfLaws hkdf_sha1 blake3_derive_xof}.
Context (xseal xopen : bytes -> bytes -> bytes -> option bytes) `{XL : !XAeadLaws xseal xopen}.
Context (aes_enc aes_dec : bytes -> bytes -> bytes) `{BL : !BlockLaws aes_enc aes_dec}.
Context {L : Type} `{LR : !Lru L} {LL : LruLaws L}.
Local Abbreviation try_user u i p now :=
  (try_decrypt_udp_packet_for_user (L := L) open_ hkdf_sha1 blake3_derive_xof xopen aes_dec u i p None now).
Local Abbreviation open_packet := (decrypt_udp_packet_with_hint (L := L) open_ hkdf_sha1 blake3_derive_xof xopen aes_dec).
Local Abbreviation client_seal := (seal_packet seal hkdf_sha1 blake3_derive_xof xseal aes_enc).
Local Abbreviation respond := (encrypt_udp_packet_for_response seal hkdf_sha1 blake3_derive_xof xseal aes_enc).
Local Abbreviation client_open := (decrypt_udp_bytes open_ hkdf_sha1 blake3_derive_xof xopen aes_dec).

Definition key_fits (u : UserKey) : Prop := length (master_key u) = key_len (cipher u).
(** The session a client of user [u] shows with the id [sid]. *)
Definition session_of (u : UserKey) (sid : Z) : UdpCipherMode :=
  if is_ss2022_chacha (cipher u) then Chacha2022 (be_bytes 8 sid)
  else if is_ss2022_aes (cipher u) then Aes2022 (be_bytes 8 sid) else ReplayStore.Legacy.
(** What the generator fills: an extended nonce, or a salt. *)
Definition client_draw (u : UserKey) (drawn : bytes) : Prop :=
  length drawn = if is_ss2022_chacha (cipher u) then 24%nat else 32%nat.
Definition server_draw (u : UserKey) (drawn : bytes) : Prop :=
  length drawn = if is_ss2022_chacha (cipher u) then 24%nat else salt_len (cipher u).
Definition packet_of (u : UserKey) (sid pid : Z) (drawn payload : bytes) : UdpPacket :=
  if is_ss2022 (cipher u) then mkPacket u payload (session_of u sid) (Some pid) None
  else mkPacket u payload ReplayStore.Legacy None
         (Some (take (salt_len (cipher u)) drawn ++ zeros (32 - salt_len (cipher u)))).

Lemma header_cipher_ok u : key_fits u -> is_ss2022_aes (cipher u) = true ->
  aes_header_cipher u = Ok (master_key u) /\ client_header_key (cipher u) (master_key u) = Ok (master_key u)
  /\ (length (master_key u) = 16 \/ length (master_key u) = 32)%nat.
Proof. unfold key_fits, aes_header_cipher, client_header_key. intros H. destruct (cipher u); try done; cbn in H; rewrite H; auto. Qed.
Lemma kinds u : (is_ss2022_chacha (cipher u) = true /\ cipher u = Chacha20Poly13052022)
  \/ (is_ss2022_aes (cipher u) = true /\ cipher u <> Chacha20Poly13052022 /\ is_ss2022_chacha (cipher u) = false /\ is_ss2022 (cipher u) = true)
  \/ (is_ss2022 (cipher u) = false /\ is_ss2022_aes (cipher u) = false /\ is_ss2022_chacha (cipher u) = false /\ cipher u <> Chacha20Poly13052022).
Proof. destruct (cipher u); naive_solver. Qed.
Lemma separate_header_length sid pid : length sid = 8%nat -> length (encode_udp_separate_header sid pid) = 16%nat.
Proof. intros H. unfold encode_udp_separate_header. by rewrite length_app, be_bytes_length, H. Qed.
Lemma separate_nonce_length sid pid : length sid = 8%nat -> length (udp_nonce_from_separate_header (encode_udp_separate_header sid pid)) = 12%nat.
Proof. intros H. unfold udp_nonce_from_separate_header, slice. by rewrite length_take, length_drop, separate_header_length. Qed.
Lemma request_body_length w p now s : zlen (build_udp_request_body s now (w ++ p))
  = 11 + zlen (w ++ p) + match s with Some (id, _) => zlen id + 8 | None => 0 end.
Proof. unfold build_udp_request_body. destruct s as [[id pid]|]; rewrite ?zlen_app, ?zlen_be_bytes, ?zlen_cons, ?zlen_nil; lia. Qed.

Lemma legacy_uplink u i p drawn now : key_fits u -> is_ss2022 (cipher u) = false -> cipher u <> Chacha20Poly13052022 ->
  is_ss2022_aes (cipher u) = false -> length drawn = 32%nat -> zlen p < 2 ^ 19 ->
  exists packet, encrypt_udp_packet seal hkdf_sha1 blake3_derive_xof xseal aes_enc (cipher u) (master_key u) now 0 drawn p = Ok packet
  /\ 16 <= zlen packet
  /\ forall now', try_user u i packet now' = (None, Ok (Some (packet_of u 0 0 drawn p))).
Proof.
  intros Hf H2 Hc Ha Hd Hp. set (n := salt_len (cipher u)). set (salt := take n drawn).
  assert (length salt = n) as Hs by (unfold salt, n; rewrite length_take, Hd; destruct (cipher u); cbn; lia).
  destruct (session_keys_agree hkdf_sha1 blake3_derive_xof (cipher u) (master_key u) salt) as (key & Hk & Hb & Hcl).
  destruct (seal_opens key (zeros 12) p Hk eq_refl ltac:(lia)) as (sealed & Hse & Hl & Ho).
  exists (salt ++ sealed). split_and!.
  - unfold encrypt_udp_packet. rewrite H2. fold n salt. unfold udp_key. rewrite Hcl. cbn [map_err mbind result_bind]. by rewrite Hse.
  - rewrite zlen_app, Hl. unfold zlen. lia.
  - intros now'. unfold try_decrypt_udp_packet_for_user. rewrite bool_decide_false, Ha by done. unfold try_legacy. cbn zeta. fold n.
    rewrite (proj2 (Nat.ltb_ge _ _)) by (rewrite length_app, Hs; unfold zlen in Hl; lia).
    rewrite take_app_length', drop_app_length' by done. unfold resolve_session_key. rewrite Hb. cbn [mbind result_bind].
    change (zeros NONCE_LEN) with (zeros 12). rewrite Ho. unfold packet_of. by rewrite H2.
Qed.
Lemma chacha_uplink u i t w p sid pid drawn now now' : key_fits u -> cipher u = Chacha20Poly13052022 -> length drawn = 24%nat ->
  wf_target t -> to_wire_bytes t = Ok w -> 0 <= now < 2 ^ 64 -> fresh now now' -> 0 <= pid < 2 ^ 64 -> zlen (w ++ p) < 2 ^ 19 ->
  exists packet, encrypt_udp_packet_2022 seal hkdf_sha1 blake3_derive_xof xseal aes_enc (cipher u) (master_key u) sid pid now drawn (w ++ p) = Ok packet
  /\ 16 <= zlen packet
  /\ try_user u i packet now' = (None, Ok (Some (packet_of u sid pid drawn (w ++ p)))).
Proof.
  intros Hf Hc Hd Hwf Hw Hn Hfr Hpid Hp. unfold key_fits in Hf. rewrite Hc in Hf.
  set (body := build_udp_request_body (Some (be_bytes 8 sid, pid)) now (w ++ p)).
  assert (zlen body < 2 ^ 20) as Hb by (unfold body; rewrite request_body_length, zlen_be_bytes; lia).
  destruct (xseal_opens (master_key u) drawn body Hf Hd Hb) as (sealed & Hse & Hl & Ho).
  exists (drawn ++ sealed). split_and!.
  - unfold encrypt_udp_packet_2022. rewrite Hc. cbn [negb is_ss2022 is_ss2022_chacha]. fold body. unfold seal_xchacha_packet, xchacha_key.
    rewrite bool_decide_true by done. cbn [mbind result_bind]. by rewrite Hse.
  - rewrite zlen_app, Hl. unfold zlen. lia.
  - unfold try_decrypt_udp_packet_for_user. rewrite bool_decide_true by done. unfold try_chacha_2022.
    rewrite (proj2 (Nat.ltb_ge _ _)) by (rewrite length_app, Hd; unfold zlen in Hl; unfold XNONCE_LEN; lia).
    unfold xchacha_cipher. rewrite bool_decide_true by done. cbn [mbind result_bind].
    rewrite take_app_length', drop_app_length' by done. rewrite Ho.
    unfold parse_ss2022_chacha_udp_request_body, body.
    rewrite (parse_chacha_udp_request_body_built t w p) by (try done; apply be_bytes_length). cbn.
    unfold encode_target_and_payload. cbn. rewrite Hw. cbn. unfold packet_of, session_of. by rewrite Hc.
Qed.
Lemma aes_uplink u i t w p sid pid drawn now now' : key_fits u -> is_ss2022_aes (cipher u) = true ->
  wf_target t -> to_wire_bytes t = Ok w -> 0 <= now < 2 ^ 64 -> fresh now now' -> 0 <= pid < 2 ^ 64 -> zlen (w ++ p) < 2 ^ 19 ->
  exists packet, encrypt_udp_packet_2022 seal hkdf_sha1 blake3_derive_xof xseal aes_enc (cipher u) (master_key u) sid pid now drawn (w ++ p) = Ok packet
  /\ 16 <= zlen packet
  /\ try_user u i packet now' = (None, Ok (Some (packet_of u sid pid drawn (w ++ p)))).
Proof.
  intros Hf Ha Hwf Hw Hn Hfr Hpid Hp. destruct (header_cipher_ok u Hf Ha) as (Hh & Hch & Hkl).
  assert (cipher u <> Chacha20Poly13052022 /\ is_ss2022_chacha (cipher u) = false /\ is_ss2022 (cipher u) = true) as (Hc & Hcc & H2)
    by (destruct (cipher u); done).
  set (id := be_bytes 8 sid). assert (length id = 8%nat) as Hid by apply be_bytes_length.
  set (sh := encode_udp_separate_header id pid). pose proof (separate_header_length id pid Hid) as Hsh. fold sh in Hsh.
  set (body := build_udp_request_body None now (w ++ p)).
  assert (zlen body < 2 ^ 20) as Hb by (unfold body; rewrite request_body_length; lia).
  destruct (session_keys_agree hkdf_sha1 blake3_derive_xof (cipher u) (master_key u) id) as (key & Hk & Hbk & Hcl).
  destruct (block_inverse (master_key u) sh Hkl Hsh) as [Hel Hei].
  destruct (seal_opens key (udp_nonce_from_separate_header sh) body Hk (separate_nonce_length id pid Hid) Hb) as (sealed & Hse & Hl & Ho).
  assert (take 8 sh = id) as Htk by (unfold sh, encode_udp_separate_header; by rewrite take_app_length').
  assert (be_val (slice sh 8 16) = pid) as Hpd.
  { unfold sh, encode_udp_separate_header. rewrite <- (app_nil_r (be_bytes 8 pid)).
    rewrite (slice_app_mid id (be_bytes 8 pid) [] 8 16) by (rewrite ?be_bytes_length; lia). by apply be_val_u64. }
  exists (aes_enc (master_key u) sh ++ sealed). split_and!.
  - unfold encrypt_udp_packet_2022. rewrite H2, Hcc. cbn [negb]. unfold encrypt_udp_packet_2022_aes. fold id. fold sh body.
    rewrite Htk. unfold udp_key. rewrite Hcl. cbn [map_err mbind result_bind]. unfold encrypt_udp_separate_header. rewrite Hch. cbn [mbind result_bind]. by rewrite Hse.
  - rewrite zlen_app, Hl. unfold zlen. lia.
  - unfold try_decrypt_udp_packet_for_user. rewrite bool_decide_false, Ha by done. unfold try_aes_2022.
    rewrite (proj2 (Nat.ltb_ge _ _)) by (rewrite length_app, Hel; unfold zlen in Hl; unfold SS2022_UDP_SEPARATE_HEADER_LEN; lia).
    unfold decrypt_ss2022_separate_header. rewrite take_app_length', drop_app_length' by done.
    rewrite bool_decide_true, Hh by done. cbn [negb mbind result_bind]. rewrite Hei, Htk. unfold resolve_session_key. rewrite Hbk. cbn.
    rewrite Ho. unfold parse_ss2022_udp_request_body, body. rewrite (parse_udp_request_body_built t w p) by done. cbn.
    unfold encode_target_and_payload. cbn. rewrite Hw. cbn. unfold packet_of, session_of. by rewrite H2, Hcc, Ha, Hpd.
Qed.

(** Nobody else's key opens the packet. *)
Definition only_user (users : list UserKey) (i : nat) (packet : bytes) (now : Z) : Prop :=
  forall j v, j <> i -> users !! j = Some v -> try_user v j packet now = (None, Ok None).
Lemma scan_finds users i packet hint now pk rest : forall k, only_user users i packet now ->
  (forall u, users !! i = Some u -> try_user u i packet now = (None, Ok (Some pk))) -> hint <> Some i ->
  drop k users = rest -> (k <= i < length users)%nat ->
  scan_packet (L := L) open_ hkdf_sha1 blake3_derive_xof xopen aes_dec rest k packet hint None now = (None, Ok (pk, i)).
Proof.
  induction rest as [|v rest IH]; intros k Ho Hi Hh Hd Hk.
  { apply (f_equal length) in Hd. rewrite length_drop in Hd. cbn in Hd. lia. }
  assert (users !! k = Some v) as Hv by (rewrite <- (Nat.add_0_r k), <- lookup_drop, Hd; done).
  assert (drop (S k) users = rest) as Hd' by (by rewrite <- (Nat.add_1_r k), <- drop_drop, Hd).
  cbn [scan_packet]. destruct (decide (k = i)) as [->|Hne].
  - rewrite bool_decide_false by congruence. by rewrite (Hi v Hv).
  - case_bool_decide; [apply IH; auto; lia|]. rewrite (Ho k v Hne Hv). apply IH; auto; lia.
Qed.
Lemma open_finds users i u packet hint now pk : 16 <= zlen packet -> only_user users i packet now -> users !! i = Some u ->
  try_user u i packet now = (None, Ok (Some pk)) -> open_packet users packet hint None now = (None, Ok (pk, i)).
Proof.
  intros Hl Ho Hu Hi. pose proof (lookup_lt_Some _ _ _ Hu) as Hlt. unfold decrypt_udp_packet_with_hint.
  rewrite (proj2 (Z.ltb_ge _ _)) by done.
  assert (forall h, h <> Some i -> scan_packet (L := L) open_ hkdf_sha1 blake3_derive_xof xopen aes_dec users 0 packet h None now = (None, Ok (pk, i))) as Hscan.
  { intros h Hh. apply (scan_finds users i); [done| |done|done|lia]. intros v Hv. congruence. }
  destruct hint as [j|]; [|by apply Hscan]. cbn [mbind option_bind].
  destruct (users !! j) as [v|] eqn:Hv; cbn [mbind option_bind].
  - destruct (decide (j = i)) as [->|Hne].
    + assert (v = u) as -> by congruence. by rewrite Hi.
    + rewrite (Ho j v Hne Hv). apply Hscan. congruence.
  - apply Hscan. congruence.
Qed.

(** C11: A datagram reaches the server. What the transport of a client seals for a
    user, within thirty seconds of its clock, the server opens to the same address
    and payload, under that user and with the ids of the client's session, when no
    other user's key opens it: whichever user it tries first, and whatever keys of
    these users its cache holds. The client's counter has stepped by one. *)
Theorem udp_uplink_exact users i u t w p st s now now' drawn hint (c : SessionKeyCache) :
  users !! i = Some u -> key_fits u -> wf_target t -> to_wire_bytes t = Ok w -> zlen (w ++ p) < 2 ^ 19 ->
  0 <= now < 2 ^ 64 -> fresh now now' -> client_draw u drawn ->
  st = mkTransport (cipher u) (master_key u) (if is_ss2022 (cipher u) then Some s else None) ->
  0 <= next_client_packet_id s < 2 ^ 64 -> cache_sound hkdf_sha1 blake3_derive_xof users c ->
  exists st' packet, client_seal st now drawn (w ++ p) = (st', Ok packet) /\
    (is_ss2022 (cipher u) = true -> t_ss2022 st' =
       Some (mkUdpState (client_session s) (next_client_packet_id s + 1) (server_session s) (last_server_packet_id s))) /\
    (only_user users i packet now' ->
     exists c', open_packet users packet hint (Some c) now'
       = (Some c', Ok (packet_of u (client_session s) (next_client_packet_id s) drawn (w ++ p), i)) /\
       cache_sound hkdf_sha1 blake3_derive_xof users c').
Proof.
  intros Hu Hf Hwf Hw Hp Hn Hfr Hd -> Hpid Hc.
  assert (exists st' packet, client_seal (mkTransport (cipher u) (master_key u) (if is_ss2022 (cipher u) then Some s else None)) now drawn (w ++ p)
      = (st', Ok packet) /\ (is_ss2022 (cipher u) = true -> t_ss2022 st' =
       Some (mkUdpState (client_session s) (next_client_packet_id s + 1) (server_session s) (last_server_packet_id s))) /\
      16 <= zlen packet /\
      try_user u i packet now' = (None, Ok (Some (packet_of u (client_session s) (next_client_packet_id s) drawn (w ++ p)))))
    as (st' & packet & Hs & Hst & Hl & Ht).
  { unfold client_draw in Hd. unfold seal_packet. destruct (kinds u) as [[Hcc Hk]|[(Ha & Hk & Hcc & H2)|(H2 & Ha & Hcc & Hk)]].
    - assert (is_ss2022 (cipher u) = true) as H2 by (by rewrite Hk). rewrite Hcc in Hd. rewrite H2. cbn.
      destruct (chacha_uplink u i t w p (client_session s) (next_client_packet_id s) drawn now now') as (packet & -> & Hl & Ht); try done.
      eexists _, packet. split_and!; try done.
    - rewrite H2. cbn.
      destruct (aes_uplink u i t w p (client_session s) (next_client_packet_id s) drawn now now') as (packet & -> & Hl & Ht); try done.
      eexists _, packet. split_and!; try done.
    - rewrite Hcc in Hd. rewrite H2. cbn.
      destruct (legacy_uplink u i (w ++ p) drawn now) as (packet & Hs & Hl & Ht); try done.
      eexists _, packet. split_and!; [by rewrite Hs|done|done|].
      rewrite Ht. unfold packet_of. by rewrite H2. }
  exists st', packet. split_and!; [done|done|]. intros Ho.
  pose proof (open_finds users i u packet hint now' _ Hl Ho Hu Ht) as Hnone.
  pose proof (open_follows (L := L) hkdf_sha1 blake3_derive_xof open_ xopen aes_dec users packet hint true (Some c) now' (conj eq_refl Hc)) as [H1 H2].
  rewrite Hnone in H1. destruct (open_packet users packet hint (Some c) now') as [oc r] eqn:E. cbn in *. subst r.
  destruct oc as [c'|]; [|done]. destruct H2 as [_ H2]. by exists c'.
Qed.

(** ** Down *)
Definition seen (s : Ss2022UdpState) (session packet_id : Z) : bool :=
  match last_server_packet_id s with
  | Some last => bool_decide (server_session s = Some session) && (packet_id <=? last)
  | None => false
  end.
Definition accepted (u : UserKey) (s : Ss2022UdpState) (session packet_id : Z) : UdpWsTransport :=
  mkTransport (cipher u) (master_key u)
    (Some (mkUdpState (client_session s) (next_client_packet_id s) (Some session) (Some packet_id))).
Lemma response_length csid now w p : length csid = 8%nat ->
  zlen (write_udp_response_body [] now csid w p) = 19 + zlen (w ++ p).
Proof.
  intros H. assert (zlen csid = 8) by (unfold zlen; by rewrite H). unfold write_udp_response_body.
  rewrite ?zlen_app, ?zlen_be_bytes, ?zlen_cons, ?zlen_nil. lia.
Qed.
Lemma response_parses csid w p now now' expected : length (be_bytes 8 csid) = 8%nat -> 0 <= now < 2 ^ 64 -> fresh now now' ->
  expected = None \/ expected = Some (be_bytes 8 csid) ->
  parse_udp_response_body (write_udp_response_body [] now (be_bytes 8 csid) w p) expected now' = Ok (w ++ p).
Proof. intros Hc Hn Hf [->| ->]; rewrite parse_udp_response_body_built by done; [done|]. by rewrite decide_True. Qed.
Lemma expected_cases sid : expected_session_bytes sid = None \/ expected_session_bytes sid = Some (be_bytes 8 sid).
Proof. unfold expected_session_bytes. case_match; auto. Qed.

Lemma legacy_downlink u source w p drawn sid pid now now' : key_fits u -> is_ss2022 (cipher u) = false -> length drawn = salt_len (cipher u) ->
  to_wire_bytes source = Ok w -> zlen (w ++ p) < 2 ^ 19 ->
  exists packet, respond u source p ReplayStore.Legacy sid pid now (Some drawn) = Ok packet /\
    decrypt_udp_packet open_ hkdf_sha1 blake3_derive_xof xopen aes_dec (cipher u) (master_key u) now' packet = Ok (w ++ p).
Proof.
  intros Hf H2 Hd Hw Hp. destruct (session_keys_agree hkdf_sha1 blake3_derive_xof (cipher u) (master_key u) drawn) as (key & Hk & Hb & Hcl).
  destruct (seal_opens key (zeros 12) (w ++ p) Hk eq_refl ltac:(lia)) as (sealed & Hse & Hl & Ho). exists (drawn ++ sealed). split.
  - unfold encrypt_udp_packet_for_response. rewrite Hw. cbn [map_err mbind result_bind ok_or]. rewrite Hb. cbn [mbind result_bind].
    change (zeros NONCE_LEN) with (zeros 12). by rewrite Hse.
  - unfold decrypt_udp_packet. rewrite H2. rewrite (proj2 (Nat.ltb_ge _ _)) by (rewrite length_app; unfold zlen in Hl; lia).
    rewrite take_app_length', drop_app_length' by done. unfold udp_key. rewrite Hcl. cbn [map_err mbind result_bind].
    unfold decrypt. rewrite (proj2 (Z.ltb_ge _ _)) by (rewrite Hl; pose proof (zlen_nonneg (w ++ p)); unfold SHADOWSOCKS_TAG_LEN; lia).
    by rewrite Ho.
Qed.
Lemma chacha_downlink u source w p drawn ssid sid pid now now' : key_fits u -> cipher u = Chacha20Poly13052022 -> length drawn = 24%nat ->
  to_wire_bytes source = Ok w -> zlen (w ++ p) < 2 ^ 19 -> 0 <= now < 2 ^ 64 -> fresh now now' -> length ssid = 8%nat -> 0 <= pid < 2 ^ 64 ->
  exists packet, respond u source p (Chacha2022 (be_bytes 8 sid)) (Some ssid) pid now (Some drawn) = Ok packet /\
    decrypt_udp_packet_2022 open_ hkdf_sha1 blake3_derive_xof xopen aes_dec (cipher u) (master_key u) sid now' packet
      = Ok (be_val ssid, pid, w ++ p).
Proof.
  intros Hf Hc Hd Hw Hp Hn Hfr Hs Hpid. unfold key_fits in Hf. rewrite Hc in Hf.
  set (body := write_chacha_udp_response_body [] ssid pid now (be_bytes 8 sid) w p).
  set (inner := write_udp_response_body [] now (be_bytes 8 sid) w p).
  assert (body = ssid ++ be_bytes 8 pid ++ inner) as Eb
    by (unfold body, inner, write_chacha_udp_response_body, write_udp_response_body; by rewrite <- !app_assoc).
  pose proof (response_length (be_bytes 8 sid) now w p (be_bytes_length 8 sid)) as Hil. fold inner in Hil.
  assert (zlen ssid = 8) as Hs' by (unfold zlen; by rewrite Hs).
  assert (drop 16 body = inner) as Edr by (rewrite Eb, app_assoc; apply drop_app_length'; rewrite length_app, be_bytes_length; lia).
  assert (take 8 body = ssid) as Etk by (rewrite Eb; by apply take_app_length').
  assert (slice body 8 16 = be_bytes 8 pid) as Esl
    by (rewrite Eb; rewrite (slice_app_mid ssid (be_bytes 8 pid) inner 8 16) by (rewrite ?be_bytes_length; lia); done).
  assert (zlen body = 35 + zlen (w ++ p)) as Hbl by (rewrite Eb, !zlen_app, zlen_be_bytes; rewrite zlen_app in Hil; lia).
  destruct (xseal_opens (master_key u) drawn body Hf Hd ltac:(lia)) as (sealed & Hse & Hl & Ho). exists (drawn ++ sealed). split.
  - unfold encrypt_udp_packet_for_response. rewrite Hw. cbn [map_err mbind result_bind ok_or]. unfold xchacha_cipher.
    rewrite bool_decide_true by done. cbn [mbind result_bind]. fold body. by rewrite Hse.
  - unfold decrypt_udp_packet_2022. rewrite Hc. cbn [is_ss2022 is_ss2022_chacha negb]. unfold decrypt_udp_packet_2022_chacha.
    rewrite (proj2 (Z.ltb_ge _ _)) by (rewrite zlen_app, Hl; pose proof (zlen_nonneg (w ++ p)); assert (zlen drawn = 24) by (unfold zlen; by rewrite Hd); unfold SHADOWSOCKS_TAG_LEN; lia).
    unfold xchacha_key. rewrite bool_decide_true by done. cbn [mbind result_bind].
    rewrite take_app_length', drop_app_length' by done. rewrite Ho. cbn [ok_or mbind result_bind].
    unfold parse_chacha_udp_response_body. rewrite (proj2 (Nat.ltb_ge _ _)) by (unfold zlen in Hbl; lia).
    rewrite Edr. unfold inner. rewrite response_parses by (try apply be_bytes_length; try apply expected_cases; done).
    cbn [map_err mbind result_bind server_session_id r_packet_id addressed_payload]. rewrite Etk, Esl. by rewrite be_val_u64.
Qed.
Lemma aes_downlink u source w p drawn ssid sid pid now now' : key_fits u -> is_ss2022_aes (cipher u) = true ->
  to_wire_bytes source = Ok w -> zlen (w ++ p) < 2 ^ 19 -> 0 <= now < 2 ^ 64 -> fresh now now' -> length ssid = 8%nat -> 0 <= pid < 2 ^ 64 ->
  exists packet, respond u source p (Aes2022 (be_bytes 8 sid)) (Some ssid) pid now drawn = Ok packet /\
    decrypt_udp_packet_2022 open_ hkdf_sha1 blake3_derive_xof xopen aes_dec (cipher u) (master_key u) sid now' packet
      = Ok (be_val ssid, pid, w ++ p).
Proof.
  intros Hf Ha Hw Hp Hn Hfr Hs Hpid. destruct (header_cipher_ok u Hf Ha) as (Hh & Hch & Hkl).
  assert (is_ss2022_chacha (cipher u) = false /\ is_ss2022 (cipher u) = true) as (Hcc & H2) by (destruct (cipher u); done).
  set (sh := encode_udp_separate_header ssid pid). pose proof (separate_header_length ssid pid Hs) as Hsh. fold sh in Hsh.
  set (body := write_udp_response_body [] now (be_bytes 8 sid) w p).
  pose proof (response_length (be_bytes 8 sid) now w p (be_bytes_length 8 sid)) as Hbl. fold body in Hbl.
  destruct (session_keys_agree hkdf_sha1 blake3_derive_xof (cipher u) (master_key u) ssid) as (key & Hk & Hbk & Hcl).
  destruct (block_inverse (master_key u) sh Hkl Hsh) as [Hel Hei].
  destruct (seal_opens key (udp_nonce_from_separate_header sh) body Hk (separate_nonce_length ssid pid Hs) ltac:(lia)) as (sealed & Hse & Hl & Ho).
  assert (take 8 sh = ssid) as Htk by (unfold sh, encode_udp_separate_header; by rewrite take_app_length').
  assert (be_val (drop 8 sh) = pid) as Hdr
    by (unfold sh, encode_udp_separate_header; rewrite drop_app_length' by done; by apply be_val_u64).
  exists (aes_enc (master_key u) sh ++ sealed). split.
  - unfold encrypt_udp_packet_for_response. cbn [ok_or mbind result_bind]. rewrite Hw. cbn [map_err mbind result_bind]. fold sh body.
    unfold encrypt_ss2022_separate_header. rewrite Hh. cbn [mbind result_bind]. rewrite Hbk. cbn [mbind result_bind]. by rewrite Hse.
  - unfold decrypt_udp_packet_2022. rewrite H2, Hcc. cbn [negb]. unfold decrypt_udp_packet_2022_aes.
    rewrite (proj2 (Z.ltb_ge _ _)) by (rewrite zlen_app, Hl; pose proof (zlen_nonneg (w ++ p)); unfold zlen at 1; rewrite Hel; unfold SHADOWSOCKS_TAG_LEN; lia).
    unfold decrypt_udp_separate_header. rewrite Hch. cbn [mbind result_bind]. rewrite take_app_length', drop_app_length' by done.
    rewrite Hei, Htk. unfold udp_key. rewrite Hcl. cbn [map_err mbind result_bind]. unfold decrypt.
    rewrite (proj2 (Z.ltb_ge _ _)) by (rewrite Hl; pose proof (zlen_nonneg (w ++ p)); unfold SHADOWSOCKS_TAG_LEN; lia).
    rewrite Ho. cbn [ok_or mbind result_bind]. unfold body.
    rewrite response_parses by (try apply be_bytes_length; try apply expected_cases; done). cbn. by rewrite Hdr.
Qed.

(** What one response does to a client: it opens, and is taken unless it is seen. *)
Lemma response_opens u source w p st s ssid pid now now' drawn :
  key_fits u -> to_wire_bytes source = Ok w -> zlen (w ++ p) < 2 ^ 19 -> 0 <= now < 2 ^ 64 -> fresh now now' ->
  server_draw u drawn -> length ssid = 8%nat -> 0 <= pid < 2 ^ 64 ->
  st = mkTransport (cipher u) (master_key u) (if is_ss2022 (cipher u) then Some s else None) ->
  exists packet, respond u source p (session_of u (client_session s)) (Some ssid) pid now (Some drawn) = Ok packet /\
    client_open st now' packet =
      if is_ss2022 (cipher u)
      then if seen s (be_val ssid) pid then (st, Err DuplicateOrOutOfOrderUdpPacket)
           else (accepted u s (be_val ssid) pid, Ok (w ++ p))
      else (st, Ok (w ++ p)).
Proof.
  intros Hf Hw Hp Hn Hfr Hd Hs Hpid ->. unfold server_draw in Hd. unfold session_of.
  destruct (kinds u) as [[Hcc Hk]|[(Ha & Hk & Hcc & H2)|(H2 & Ha & Hcc & Hk)]].
  - assert (is_ss2022 (cipher u) = true) as H2 by (by rewrite Hk). rewrite Hcc in *.
    destruct (chacha_downlink u source w p drawn ssid (client_session s) pid now now') as (packet & -> & Ho); try done.
    exists packet. split; [done|]. unfold decrypt_udp_bytes. cbn [t_ss2022 t_cipher t_master_key]. rewrite H2, Ho. reflexivity.
  - rewrite Hcc, Ha. destruct (aes_downlink u source w p (Some drawn) ssid (client_session s) pid now now') as (packet & -> & Ho); try done.
    exists packet. split; [done|]. unfold decrypt_udp_bytes. cbn [t_ss2022 t_cipher t_master_key]. rewrite H2, Ho. reflexivity.
  - rewrite Hcc in *. rewrite Ha.
    destruct (legacy_downlink u source w p drawn (Some ssid) pid now now') as (packet & -> & Ho); try done.
    exists packet. split; [done|]. unfold decrypt_udp_bytes. cbn [t_ss2022 t_cipher t_master_key]. rewrite H2. by rewrite Ho.
Qed.

(** Responses as the network hands them to the client: in any order, any of them any
    number of times. *)
Record Reply : Type := mkReply {
  rp_source : TargetAddr; rp_address : bytes; rp_payload : bytes; rp_session : bytes; rp_id : Z;
  rp_sealed_at : Z; rp_opened_at : Z; rp_drawn : bytes
}.
Definition reply_ok (u : UserKey) (r : Reply) : Prop :=
  to_wire_bytes (rp_source r) = Ok (rp_address r) /\ zlen (rp_address r ++ rp_payload r) < 2 ^ 19 /\ 0 <= rp_sealed_at r < 2 ^ 64
  /\ fresh (rp_sealed_at r) (rp_opened_at r) /\ server_draw u (rp_drawn r) /\ length (rp_session r) = 8%nat /\ 0 <= rp_id r < 2 ^ 64.
Definition sealed_reply (u : UserKey) (s : Ss2022UdpState) (r : Reply) (packet : bytes) : Prop :=
  respond u (rp_source r) (rp_payload r) (session_of u (client_session s)) (Some (rp_session r)) (rp_id r) (rp_sealed_at r) (Some (rp_drawn r)) = Ok packet.
(** The packets in the order in which they come, each with the clock. *)
Fixpoint client_run (st : UdpWsTransport) (packets : list (Z * bytes)) : list (result UdpError bytes) :=
  match packets with
  | [] => []
  | (now, packet) :: rest => let (st, r) := client_open st now packet in r :: client_run st rest
  end.
(** What the client should make of them: it remembers the server session and the id
    of the last response it took. *)
Fixpoint taken (numbered : bool) (last : option (Z * Z)) (rs : list Reply) : list bool :=
  match rs with
  | [] => []
  | r :: rs =>
    if numbered && match last with Some (session, id) => bool_decide (session = be_val (rp_session r)) && (rp_id r <=? id) | None => false end
    then false :: taken numbered last rs
    else true :: taken numbered (Some (be_val (rp_session r), rp_id r)) rs
  end.
Definition last_taken (s : Ss2022UdpState) : option (Z * Z) :=
  session ← server_session s; id ← last_server_packet_id s; Some (session, id).
Definition outcome (r : Reply) (take : bool) : result UdpError bytes :=
  if take then Ok (rp_address r ++ rp_payload r) else Err DuplicateOrOutOfOrderUdpPacket.
(** The ids of the responses that were taken. *)
Definition taken_ids (rs : list Reply) (ts : list bool) : list Z := (fun x => rp_id x.1) <$> filter (fun x => x.2 = true) (zip rs ts).

Lemma client_run_taken u s rs packets : key_fits u -> Forall (reply_ok u) rs -> Forall2 (sealed_reply u s) rs packets ->
  forall st s', client_session s' = client_session s ->
  st = mkTransport (cipher u) (master_key u) (if is_ss2022 (cipher u) then Some s' else None) ->
  client_run st (zip (rp_opened_at <$> rs) packets) = zip_with outcome rs (taken (is_ss2022 (cipher u)) (last_taken s') rs).
Proof.
  intros Hf Hok Hall. induction Hall as [|r packet rs packets Hr Hall IH]; intros st s' Hs ->; [done|].
  apply Forall_cons in Hok as [(Hw & Hp & Hn & Hfr & Hd & Hl & Hid) Hok]. cbn [fmap list_fmap zip_with client_run taken].
  unfold sealed_reply in Hr. rewrite <- Hs in Hr.
  destruct (response_opens u (rp_source r) (rp_address r) (rp_payload r) _ s' (rp_session r) (rp_id r) (rp_sealed_at r) (rp_opened_at r) (rp_drawn r)
    Hf Hw Hp Hn Hfr Hd Hl Hid eq_refl) as (packet' & Hr' & Ho). rewrite Hr in Hr'. injection Hr' as <-. rewrite Ho. clear Ho.
  destruct (is_ss2022 (cipher u)) eqn:H2; cbn [andb].
  - assert (seen s' (be_val (rp_session r)) (rp_id r)
      = match last_taken s' with Some (session, id) => bool_decide (session = be_val (rp_session r)) && (rp_id r <=? id) | None => false end) as ->.
    { unfold seen, last_taken. destruct (last_server_packet_id s') as [last|], (server_session s') as [session|]; cbn; try done.
      f_equal. by apply bool_decide_ext; split; [intros [= ->]|intros ->]. }
    destruct (match last_taken s' with Some _ => _ | None => _ end); cbn [zip_with]; f_equal; [by apply IH|].
    unfold accepted. by rewrite (IH Hok _ (mkUdpState (client_session s') (next_client_packet_id s') (Some (be_val (rp_session r))) (Some (rp_id r)))).
  - cbn [zip_with]. f_equal. rewrite (IH Hok _ s') by done. cbn [outcome]. f_equal.
    clear. generalize (last_taken s') as l, (Some (be_val (rp_session r), rp_id r)) as l'. induction rs as [|r' rs IH]; intros l l'; [done|].
    cbn [taken andb]. f_equal.
Qed.
(** The packets of one server session are taken in the order of their ids. *)
Definition floor_of (session : Z) (last : option (Z * Z)) : Z :=
  match last with Some (session', id) => if bool_decide (session' = session) then id else -1 | None => -1 end.
Lemma taken_ascends session rs : Forall (fun r => be_val (rp_session r) = session) rs -> forall last,
  Forall (fun r => 0 <= rp_id r) rs ->
  Forall (fun id => floor_of session last < id) (taken_ids rs (taken true last rs)) /\ StronglySorted Z.lt (taken_ids rs (taken true last rs)).
Proof.
  unfold taken_ids. induction 1 as [|r rs Hr Hrs IH]; intros last Hid; [by split; constructor|].
  apply Forall_cons in Hid as [H0 Hid]. cbn [taken]. rewrite Hr.
  destruct (andb true _) eqn:E; cbn [zip_with].
  - rewrite filter_cons_False by done. by apply (IH last Hid).
  - rewrite filter_cons_True by done. cbn [fmap list_fmap fst].
    destruct (IH (Some (session, rp_id r)) Hid) as [H1 H2]. unfold floor_of in H1 at 1. rewrite bool_decide_true in H1 by done.
    assert (floor_of session last < rp_id r) as Hlt.
    { unfold floor_of. destruct last as [[session' id]|]; [|lia]. cbn [andb] in E. case_bool_decide; [|lia]. cbn [andb] in E. by apply Z.leb_gt in E. }
    split; constructor; try done. eapply Forall_impl; [exact H1|]. cbn. lia.
Qed.

(** C12: Responses reach the client, once. Whatever the server seals for the session
    a client has shown, of one or of several server sessions, delivered in any order
    and any number of times, each within thirty seconds of the server's clock: the
    client opens each to its source address and payload. Under a 2022 suite it
    refuses exactly those whose server session is that of the response it took last
    and whose packet id is not above that one's; so of the responses of one server
    session none is taken twice and none after a later one. (It remembers the last
    server session only: a response of another one in between makes it forget.)
    Under a legacy suite, which has no ids, it takes them all. *)
Theorem udp_downlink_exact u st s rs :
  key_fits u -> Forall (reply_ok u) rs ->
  st = mkTransport (cipher u) (master_key u) (if is_ss2022 (cipher u) then Some s else None) ->
  exists packets, Forall2 (sealed_reply u s) rs packets
  /\ let ts := taken (is_ss2022 (cipher u)) (last_taken s) rs in
     client_run st (zip (rp_opened_at <$> rs) packets) = zip_with outcome rs ts
     /\ (forall session, is_ss2022 (cipher u) = true -> Forall (fun r => be_val (rp_session r) = session) rs ->
          StronglySorted Z.lt (taken_ids rs ts)).
Proof.
  intros Hf Hok Hst.
  assert (exists packets, Forall2 (sealed_reply u s) rs packets) as [packets Hp].
  { induction Hok as [|r rs (Hw & Hp & Hn & Hfr & Hd & Hl & Hid) _ [packets IH]]; [by exists []|].
    destruct (response_opens u (rp_source r) (rp_address r) (rp_payload r) _ s (rp_session r) (rp_id r) (rp_sealed_at r) (rp_opened_at r) (rp_drawn r)
      Hf Hw Hp Hn Hfr Hd Hl Hid eq_refl) as (packet & Hr & _). exists (packet :: packets). by constructor. }
  exists packets. split; [done|]. split; [by eapply client_run_taken|]. intros session -> Hone.
  apply (taken_ascends session); [done|]. eapply Forall_impl; [exact Hok|]. by intros r (_ & _ & _ & _ & _ & _ & ? & _).
Qed.
End roundtrip.

(** * At concrete inputs

    The theorems with suites small enough to compute with, and a run that shows a
    cached key outliving its user. *)
Local Open Scope Z_scope.

(** ** Suites *)
Definition toy_xtag (key n : bytes) : bytes := take 8 n ++ take 8 key.
Definition toy_xseal (key n p : bytes) : option bytes := Some (p ++ toy_xtag key n).
Definition toy_xopen (key n c : bytes) : option bytes :=
  if (length c <? 16)%nat then None
  else if bool_decide (drop (length c - 16) c = toy_xtag key n) then Some (take (length c - 16) c) else None.
#[export] Instance toy_xaead : XAeadLaws toy_xseal toy_xopen.
Proof.
  split. intros key n p Hk Hn _. assert (length (toy_xtag key n) = 16%nat) as Ht
    by (unfold toy_xtag; rewrite length_app, !length_take, Hn, Hk; done).
  unfold toy_xseal, toy_xopen. eexists. split; [done|]. unfold zlen. rewrite length_app, Ht. split; [lia|].
  replace (length p + 16 - 16)%nat with (length p) by lia.
  rewrite (proj2 (Nat.ltb_ge _ _)) by lia. by rewrite drop_app_length, take_app_length, bool_decide_eq_true_2.
Qed.
Definition toy_block (key b : bytes) : bytes := reverse b.
#[export] Instance toy_blocks : BlockLaws toy_block toy_block.
Proof. split. intros key b _ Hb. unfold toy_block. by rewrite length_reverse, reverse_involutive. Qed.

(** An LRU map: the entries, the most recently used in front. *)
Definition ToyLru : Type := nat * list (CacheKey * AeadKey).
Definition without (k : CacheKey) (l : list (CacheKey * AeadKey)) : list (CacheKey * AeadKey) := filter (fun e => e.1 <> k) l.
#[export] Instance toy_lru : Lru ToyLru := {
  lru_new n := (n, []);
  lru_get c k :=
    match List.find (fun e => bool_decide (e.1 = k)) c.2 with
    | Some e => ((c.1, e :: without k c.2), Some e.2)
    | None => (c, None)
    end;
  lru_put c k v := (c.1, take c.1 ((k, v) :: without k c.2))
}.
#[export] Instance toy_lru_laws : LruLaws ToyLru.
Proof.
  exists (fun c k v => (k, v) ∈ c.2).
  - intros n k v H. by apply elem_of_nil in H.
  - intros [n l] k c' v. cbn. destruct (List.find _ l) as [[k' v']|] eqn:E; [|done]. intros [= _ <-].
    apply List.find_some in E as [Hin Hk%bool_decide_eq_true]. cbn in Hk. subst. by apply list_elem_of_In.
  - intros [n l] k c' r k' v. cbn. destruct (List.find _ l) as [[k1 v1]|] eqn:E; intros [= <- <-]; cbn; [|done].
    apply List.find_some in E as [Hin Hk]. rewrite elem_of_cons. unfold without. rewrite list_elem_of_filter.
    intros [[= -> ->]|[_ H]]; [by apply list_elem_of_In|done].
  - intros [n l] k v k' v'. cbn. intros H%elem_of_take. destruct H as (i & H & _). apply list_elem_of_lookup_2 in H.
    apply elem_of_cons in H as [[= -> ->]|H]; [by left|]. unfold without in H. rewrite list_elem_of_filter in H. by right; destruct H.
Defined.

Definition anna : UserKey := mkUser (str "anna") Aes256Gcm2022 (replicate 32 x41) None.
Definition bert : UserKey := mkUser (str "bert") Chacha20IetfPoly1305 (replicate 32 x42) (Some 7).
Definition carl : UserKey := mkUser (str "carl") Chacha20Poly13052022 (replicate 32 x43) None.
Definition dora : UserKey := mkUser (str "dora") Aes256Gcm (replicate 32 x44) None.
Definition people : list UserKey := [anna; bert; carl; dora].
Definition dns_target : TargetAddr := IpV4 [x01; x01; x01; x01] 53.
Definition dns_wire : bytes := Eval vm_compute in match to_wire_bytes dns_target with Ok w => w | Err _ => [] end.
Definition toy_open_packet (c : option (SessionKeyCache (L := ToyLru))) (users : list UserKey) (hint : option nat) (packet : bytes) (now : Z) :=
  decrypt_udp_packet_with_hint toy_open toy_hkdf toy_blake3 toy_xopen toy_block users packet hint c now.
Definition toy_client_seal := seal_packet toy_seal toy_hkdf toy_blake3 toy_xseal toy_block.
Definition fresh_state : Ss2022UdpState := mkUdpState 5 9 None None.

Lemma udp_uplink_exact_witness :
  exists st' packet c',
    toy_client_seal (mkTransport Aes256Gcm2022 (replicate 32 x41) (Some fresh_state)) 1000 (zeros 32) (dns_wire ++ str "query") = (st', Ok packet)
    /\ toy_open_packet (Some (with_default_capacity (L := ToyLru))) people (Some 1%nat) packet 1010
       = (Some c', Ok (mkPacket anna (dns_wire ++ str "query") (Aes2022 (be_bytes 8 5)) (Some 9) None, 0%nat)).
Proof.
  destruct (udp_uplink_exact toy_seal toy_open toy_hkdf toy_blake3 toy_xseal toy_xopen toy_block toy_block (L := ToyLru)
    people 0 anna dns_target dns_wire (str "query") (mkTransport Aes256Gcm2022 (replicate 32 x41) (Some fresh_state)) fresh_state 1000 1010
    (zeros 32) (Some 1%nat) with_default_capacity) as (st' & packet & Hs & _ & Ho);
    [reflexivity|reflexivity|vm_compute; split; [reflexivity|split; [discriminate|reflexivity]]|reflexivity|reflexivity
    |vm_compute; split; [discriminate|reflexivity]|vm_compute; discriminate|reflexivity|reflexivity
    |vm_compute; split; [discriminate|reflexivity]|apply cache_new_sound|].
  exists st', packet. destruct Ho as (c' & Ho & _); [|by exists c'].
  assert (packet = match (toy_client_seal (mkTransport Aes256Gcm2022 (replicate 32 x41) (Some fresh_state)) 1000 (zeros 32) (dns_wire ++ str "query")).2 with Ok p => p | Err _ => [] end) as ->
    by (unfold toy_client_seal; by rewrite Hs).
  intros j v Hj Hv. destruct j as [|[|[|[|j]]]]; [done| | | |done]; injection Hv as <-; vm_compute; reflexivity.
Defined.

(** The third response overtakes the second, and the first comes again. *)
Definition reply (id : Z) (session : Byte.byte) (payload : string) : Reply :=
  mkReply dns_target dns_wire (str payload) (replicate 8 session) id 1000 1010 (zeros 24).
Definition overtaken : list Reply := [reply 0 x07 "one"; reply 2 x07 "three"; reply 1 x07 "two"; reply 0 x07 "one"; reply 3 x07 "four"].
Definition carls_client : UdpWsTransport := transport_new Chacha20Poly13052022 (replicate 32 x43) 5.
Local Abbreviation toy_sealed := (sealed_reply toy_seal toy_hkdf toy_blake3 toy_xseal toy_block carl (mkUdpState 5 0 None None)).
Local Abbreviation toy_client_run := (client_run toy_open toy_hkdf toy_blake3 toy_xopen toy_block).
Lemma udp_downlink_exact_witness : exists packets, Forall2 toy_sealed overtaken packets
  /\ toy_client_run carls_client (zip (rp_opened_at <$> overtaken) packets)
     = [Ok (dns_wire ++ str "one"); Ok (dns_wire ++ str "three"); Err DuplicateOrOutOfOrderUdpPacket; Err DuplicateOrOutOfOrderUdpPacket;
        Ok (dns_wire ++ str "four")].
Proof.
  destruct (udp_downlink_exact toy_seal toy_open toy_hkdf toy_blake3 toy_xseal toy_xopen toy_block toy_block carl carls_client
    (mkUdpState 5 0 None None) overtaken) as (packets & Hp & Hr & _).
  - reflexivity.
  - repeat constructor; vm_compute; try reflexivity; try discriminate.
  - reflexivity.
  - exists packets. split; [exact Hp|]. rewrite Hr. reflexivity.
Defined.
(** A response of another server session in between, and the first is taken again. *)
Definition returned : list Reply := [reply 0 x07 "one"; reply 0 x08 "other"; reply 0 x07 "one"].
Example repeat_after_another_session :
  let packets := (fun r => match encrypt_udp_packet_for_response toy_seal toy_hkdf toy_blake3 toy_xseal toy_block carl (rp_source r) (rp_payload r)
      (Chacha2022 (be_bytes 8 5)) (Some (rp_session r)) (rp_id r) (rp_sealed_at r) (Some (rp_drawn r)) with Ok p => p | Err _ => [] end) <$> returned in
  toy_client_run carls_client (zip (rp_opened_at <$> returned) packets)
  = [Ok (dns_wire ++ str "one"); Ok (dns_wire ++ str "other"); Ok (dns_wire ++ str "one")].
Proof. vm_compute. reflexivity. Qed.

(** The cache is keyed by the place of a user in the pool, which a change of the
    users through the control API builds anew while the cache lives on. Bert, at
    the head of the pool, is removed and Eve takes his place; a datagram under a
    salt of his that is still cached is opened - as Eve's. *)
Definition eve : UserKey := mkUser (str "eve") Chacha20IetfPoly1305 (replicate 32 x45) (Some 8).
Definition berts_packet (payload : bytes) : bytes :=
  match (seal_packet toy_seal toy_hkdf toy_blake3 toy_xseal toy_block (mkTransport Chacha20IetfPoly1305 (replicate 32 x42) None)
           1000 (replicate 32 x33) (dns_wire ++ payload)).2 with Ok p => p | Err _ => [] end.
Definition opened_as (r : result CryptoError (UdpPacket * nat)) : option (UserKey * bytes) :=
  match r with Ok (p, _) => Some (pkt_user p, pkt_payload p) | Err _ => None end.
Example cached_key_outlives_its_user :
  let (cache, before) := toy_open_packet (Some (with_default_capacity (L := ToyLru))) [bert; eve] None (berts_packet (str "one")) 1001 in
  opened_as before = Some (bert, dns_wire ++ str "one")
  /\ opened_as (toy_open_packet (Some (with_default_capacity (L := ToyLru))) [eve] None (berts_packet (str "two")) 2000).2 = None
  /\ opened_as (toy_open_packet cache [eve] None (berts_packet (str "two")) 2000).2 = Some (eve, dns_wire ++ str "two").
Proof. vm_compute. split_and!; reflexivity. Qed.
