(* ===== verification/NatTable.v ===== *)
(** The NAT table of the server ([bins/outline-ss-rust/src/server/nat/table.rs],
    [entry.rs]): one upstream socket per key, its response slot, the two caps and
    the idle sweep.

    [get_or_create] suspends between its steps as far as other threads are
    concerned - the map is sharded and the per-user counters are another map - so
    it is a machine of its own, and so is the sweep, which releases the counters
    after the map. The cells and the entries are shared, and live in stores. The
    address a socket is bound to, the routing mark and the generator can fail: what
    they give is an argument. *)
From S2P Require Import Prelude Target Cipher ReplayStore NatKey StreamCrypto.
Local Open Scope Z_scope.

(** ** How a response is encoded *)
Inductive UdpResponseCoding : Type :=
  | SsCoding (user : UserKey) (session : UdpCipherMode)
  | Plaintext.
Definition terminates_client_session (c : UdpResponseCoding) : bool :=
  match c with SsCoding _ _ => true | Plaintext => false end.
Inductive ServerSessionId : Type := Omit | Generate.
Definition for_coding (c : UdpResponseCoding) : ServerSessionId :=
  match c with SsCoding _ ReplayStore.Legacy => Omit | SsCoding _ _ | Plaintext => Generate end.

(** ** The response slot

    A sender is the number of its carrier; [moved] counts the changes of path. *)
Record ActiveSession : Type := mkSession { a_sender : nat; a_coding : UdpResponseCoding; a_stream : nat }.
Record ActiveSlot : Type := mkSlot { s_session : option ActiveSession; s_moved : nat }.
Definition slot_new : ActiveSlot := mkSlot None 0.
Definition snapshot (s : ActiveSlot) : option (nat * UdpResponseCoding) :=
  a ← s_session s; Some (a_sender a, a_coding a).
Definition leads_to (s : ActiveSlot) (sender : nat) : bool :=
  match s_session s with Some a => bool_decide (a_sender a = sender) | None => false end.
Definition slot_set (s : ActiveSlot) (next : option ActiveSession) : ActiveSlot :=
  let moved :=
    match s_session s, next with
    | Some current, Some next => negb (bool_decide (a_sender current = a_sender next))
    | None, None => false
    | _, _ => true
    end in
  mkSlot next (if moved then S (s_moved s) else s_moved s).

(** ** Entries *)
Record NatEntry : Type := mkNat {
  n_key : NatKey;
  n_active : ActiveSlot;
  n_last_active : Z;
  n_next_packet_id : Z;
  n_server_session_id : option bytes
}.
Definition set_active (e : NatEntry) (s : ActiveSlot) : NatEntry :=
  mkNat (n_key e) s (n_last_active e) (n_next_packet_id e) (n_server_session_id e).
Definition set_next_packet_id (e : NatEntry) (n : Z) : NatEntry :=
  mkNat (n_key e) (n_active e) (n_last_active e) n (n_server_session_id e).
Definition touch (e : NatEntry) (now : Z) : NatEntry :=
  mkNat (n_key e) (n_active e) now (n_next_packet_id e) (n_server_session_id e).
Definition register_session (e : NatEntry) (sender : nat) (coding : UdpResponseCoding) (stream_id : nat) : NatEntry :=
  set_active e (slot_set (n_active e) (Some (mkSession sender coding stream_id))).
Definition detach_session_for_stream (e : NatEntry) (expected : nat) : NatEntry * bool :=
  match s_session (n_active e) with
  | Some a =>
    if bool_decide (a_stream a = expected) then (set_active e (mkSlot None (S (s_moved (n_active e)))), true) else (e, false)
  | None => (e, false)
  end.

(** ** The table

    An entry of the map is a cell that is filled when its socket is made. *)
Record NatLimits : Type := mkLimits { max_entries : nat; max_entries_per_user : nat }.
Record NatTable : Type := mkTable {
  entries : gmap NatKey nat;
  per_user : gmap bytes nat;
  cells : gmap nat (option nat);
  nats : gmap nat NatEntry;
  next_id : nat
}.
Definition table_new : NatTable := mkTable ∅ ∅ ∅ ∅ 0.
Definition set_entries (t : NatTable) (m : gmap NatKey nat) : NatTable := mkTable m (per_user t) (cells t) (nats t) (next_id t).
Definition set_per_user (t : NatTable) (m : gmap bytes nat) : NatTable := mkTable (entries t) m (cells t) (nats t) (next_id t).
Definition set_nats (t : NatTable) (m : gmap nat NatEntry) : NatTable := mkTable (entries t) (per_user t) (cells t) m (next_id t).
Definition update_nat (t : NatTable) (e : nat) (f : NatEntry -> NatEntry) : NatTable := set_nats t (alter f e (nats t)).

Definition try_get (t : NatTable) (key : NatKey) : option nat :=
  c ← entries t !! key; o ← cells t !! c; o.
Definition contains (t : NatTable) (key : NatKey) : bool := match try_get t key with Some _ => true | None => false end.

Inductive NatError : Type := AtCapacity | AtUserCapacity | CreateFailed.
Inductive CreatorPc : Type :=
  | CLookup
  | CCheck
  | CReserve
  | CInsert
  | CInit (cell : nat)
  | CDone (r : result NatError nat).

Section table.
Variable limits : NatLimits.
Variable idle_timeout : Z.

Definition reserve_user_slot (t : NatTable) (user : bytes) : NatTable * bool :=
  let cap := max_entries_per_user limits in
  if bool_decide (cap = 0%nat) then (t, true)
  else
    let count := default 0%nat (per_user t !! user) in
    if (cap <=? count)%nat then (set_per_user t (<[user := count]> (per_user t)), false)
    else (set_per_user t (<[user := S count]> (per_user t)), true).
Definition release_user_slot (t : NatTable) (user : bytes) : NatTable :=
  if bool_decide (max_entries_per_user limits = 0%nat) then t
  else
    match per_user t !! user with
    | Some count =>
      let count := Nat.pred count in
      set_per_user t (if bool_decide (count = 0%nat) then delete user (per_user t) else <[user := count]> (per_user t))
    | None => t
    end.

(** [bound]: the socket was bound and marked; [entropy]: the random session id. *)
Definition create_entry (key : NatKey) (server_session : ServerSessionId) (bound : bool) (entropy : option bytes) (now : Z)
    : option NatEntry :=
  if negb bound then None
  else
    match server_session with
    | Omit => Some (mkNat key slot_new now 0 None)
    | Generate => id ← entropy; Some (mkNat key slot_new now 0 (Some id))
    end.

(** One step of [get_or_create]. The initialisation does not suspend, so that the
    cell is filled, or found filled, in one step. *)
Definition create_step (t : NatTable) (key : NatKey) (server_session : ServerSessionId) (bound : bool) (entropy : option bytes)
    (now : Z) (pc : CreatorPc) : NatTable * CreatorPc :=
  match pc with
  | CLookup => (t, match entries t !! key with Some c => CInit c | None => CCheck end)
  | CCheck =>
    (t, if (0 <? max_entries limits)%nat && (max_entries limits <=? size (entries t))%nat then CDone (Err AtCapacity) else CReserve)
  | CReserve => let (t, ok) := reserve_user_slot t (k_user key) in (t, if ok then CInsert else CDone (Err AtUserCapacity))
  | CInsert =>
    match entries t !! key with
    | Some c => (release_user_slot t (k_user key), CInit c)
    | None =>
      let c := next_id t in
      (mkTable (<[key := c]> (entries t)) (per_user t) (<[c := None]> (cells t)) (nats t) (S c), CInit c)
    end
  | CInit c =>
    match cells t !! c with
    | Some (Some e) => (t, CDone (Ok e))
    | _ =>
      match create_entry key server_session bound entropy now with
      | Some entry =>
        let e := next_id t in
        (mkTable (entries t) (per_user t) (<[c := Some e]> (cells t)) (<[e := entry]> (nats t)) (S e), CDone (Ok e))
      | None => (t, CDone (Err CreateFailed))
      end
    end
  | CDone r => (t, CDone r)
  end.
(** A call nobody interferes with: at most five steps. *)
Definition get_or_create (t : NatTable) (key : NatKey) (server_session : ServerSessionId) (bound : bool) (entropy : option bytes)
    (now : Z) : NatTable * CreatorPc :=
  let step x := create_step x.1 key server_session bound entropy now x.2 in
  step (step (step (step (step (t, CLookup))))).

(** [evict_idle]: what the sweep keeps, and the users whose slots it hands back. *)
Definition keeps (t : NatTable) (now : Z) (c : nat) : bool :=
  match cells t !! c with
  | Some (Some e) =>
    match nats t !! e with Some entry => Z.max 0 (now - idle_timeout) <=? n_last_active entry | None => false end
  | _ => false
  end.
Definition sweep_retain (t : NatTable) (now : Z) : NatTable * list bytes :=
  let gone := filter (fun kv : NatKey * nat => keeps t now kv.2 = false) (map_to_list (entries t)) in
  (set_entries t (filter (fun kv => keeps t now kv.2 = true) (entries t)),
   if (0 <? max_entries_per_user limits)%nat then map (fun kv => k_user kv.1) gone else []).
Definition evict_idle (t : NatTable) (now : Z) : NatTable :=
  let (t, released) := sweep_retain t now in foldl release_user_slot t released.

(** ** Callers and the sweep, interleaved

    [callers] holds the calls in progress, [released] the slots a sweep has still
    to hand back. *)
Record NatWorld : Type := mkNatWorld { nat_table : NatTable; callers : list (option (NatKey * CreatorPc)); released : list bytes }.
Inductive NatLabel : Type :=
  | LCall (i : nat) (key : NatKey)
  | LStep (i : nat) (server_session : ServerSessionId) (bound : bool) (entropy : option bytes) (now : Z)
  | LSweep (now : Z)
  | LRelease
  | LTouch (e : nat) (now : Z).
Definition nat_step (w : NatWorld) (l : NatLabel) : NatWorld :=
  let '(mkNatWorld t cs rel) := w in
  match l with
  | LCall i key =>
    match cs !! i with
    | Some None | Some (Some (_, CDone _)) => mkNatWorld t (<[i := Some (key, CLookup)]> cs) rel
    | _ => w
    end
  | LStep i ss bound entropy now =>
    match cs !! i with
    | Some (Some (key, pc)) =>
      let (t, pc) := create_step t key ss bound entropy now pc in mkNatWorld t (<[i := Some (key, pc)]> cs) rel
    | _ => w
    end
  | LSweep now => let (t, more) := sweep_retain t now in mkNatWorld t cs (rel ++ more)
  | LRelease => match rel with u :: rel => mkNatWorld (release_user_slot t u) cs rel | [] => w end
  | LTouch e now => mkNatWorld (update_nat t e (fun n => touch n now)) cs rel
  end.
Definition nat_start (n : nat) : NatWorld := mkNatWorld table_new (replicate n None) [].
Definition nat_run (n : nat) (ls : list NatLabel) : NatWorld := foldl nat_step (nat_start n) ls.
End table.

(** * The caps

    Whatever the interleaving of the calls and of the sweep, a user's counter is what
    the user holds, and neither cap is passed by more than the calls in flight. *)
Local Open Scope nat_scope.

(** ** Counting *)
Definition count {A} (f : A -> bool) (l : list A) : nat := length (List.filter f l).
Definition b2n (b : bool) : nat := if b then 1 else 0.
Lemma count_cons {A} (f : A -> bool) x l : count f (x :: l) = b2n (f x) + count f l.
Proof. unfold count. cbn. by destruct (f x). Qed.
Lemma count_app {A} (f : A -> bool) l1 l2 : count f (l1 ++ l2) = count f l1 + count f l2.
Proof. unfold count. by rewrite List.filter_app, length_app. Qed.
Lemma count_insert {A} (f : A -> bool) l i x y : l !! i = Some x -> count f (<[i := y]> l) + b2n (f x) = count f l + b2n (f y).
Proof.
  revert i. induction l as [|z l IH]; intros [|i]; cbn [lookup list_lookup]; try done.
  - intros [= ->]. change (<[0 := y]> (x :: l)) with (y :: l). rewrite !count_cons. lia.
  - intros H. specialize (IH _ H). change (<[S i := y]> (z :: l)) with (z :: <[i := y]> l). rewrite !count_cons. lia.
Qed.
Lemma count_le {A} (f : A -> bool) l : count f l <= length l.
Proof. induction l as [|x l IH]; [done|]. rewrite count_cons. cbn. destruct (f x); cbn; lia. Qed.
Lemma count_replicate {A} (f : A -> bool) n x : f x = false -> count f (replicate n x) = 0.
Proof. intros H. induction n as [|n IH]; [done|]. cbn [replicate]. by rewrite count_cons, H, IH. Qed.
Lemma count_perm {A} (f : A -> bool) l1 l2 : l1 ≡ₚ l2 -> count f l1 = count f l2.
Proof. induction 1; rewrite ?count_cons; lia. Qed.

Definition user_is (u : bytes) (k : NatKey) : bool := bool_decide (k_user k = u).
(** The entries a user holds. *)
Definition owned (t : NatTable) (u : bytes) : nat := count (fun kv => user_is u kv.1) (map_to_list (entries t)).
(** The calls that have a slot and no entry yet. *)
Definition holds_slot (u : bytes) (o : option (NatKey * CreatorPc)) : bool :=
  match o with Some (key, CInsert) => user_is u key | _ => false end.
(** The calls that have passed the first check and not inserted. *)
Definition past_check (o : option (NatKey * CreatorPc)) : bool :=
  match o with Some (_, CReserve) | Some (_, CInsert) => true | _ => false end.
Definition same_user (u v : bytes) : bool := bool_decide (v = u).

Lemma owned_insert t u key c : entries t !! key = None ->
  count (fun kv => user_is u kv.1) (map_to_list (<[key := c]> (entries t))) = b2n (user_is u key) + owned t u.
Proof. intros H. unfold owned. rewrite (count_perm _ _ _ (map_to_list_insert _ _ _ H)). by rewrite count_cons. Qed.
Lemma count_split {A} (f g : A -> bool) l : count f (List.filter g l) + count f (List.filter (fun x => negb (g x)) l) = count f l.
Proof. induction l as [|x l IH]; [done|]. cbn [List.filter]. destruct (g x); cbn [negb]; rewrite !count_cons; lia. Qed.
Lemma filter_bool {A} (P : A -> Prop) `{!forall x, Decision (P x)} (f : A -> bool) l :
  (forall x, P x <-> f x = true) -> filter P l = List.filter f l.
Proof.
  intros Hf. induction l as [|x l IH]; [done|]. rewrite filter_cons. cbn. destruct (f x) eqn:E.
  - rewrite decide_True by (by apply Hf). by rewrite IH.
  - rewrite decide_False by (rewrite Hf; by rewrite E). done.
Qed.
Lemma count_map {A B} (g : A -> B) (f : B -> bool) l : count f (map g l) = count (fun x => f (g x)) l.
Proof. induction l as [|x l IH]; [done|]. cbn [map]. rewrite !count_cons. by rewrite IH. Qed.
Lemma to_list_filter (P : NatKey * nat -> Prop) `{!forall x, Decision (P x)} (m : gmap NatKey nat) :
  map_to_list (filter P m) ≡ₚ filter P (map_to_list m).
Proof.
  apply NoDup_Permutation; [apply NoDup_map_to_list|apply NoDup_filter, NoDup_map_to_list|].
  intros [k c]. rewrite list_elem_of_filter, !elem_of_map_to_list, map_lookup_filter_Some. naive_solver.
Qed.

Section facts.
Context (limits : NatLimits) (idle_timeout : Z) (n : nat).
Local Abbreviation cap := (max_entries_per_user limits).

Record accounted (w : NatWorld) : Prop := {
  ac_count u : default 0 (per_user (nat_table w) !! u)
    = owned (nat_table w) u + count (holds_slot u) (callers w) + count (same_user u) (released w);
  ac_zero u : per_user (nat_table w) !! u <> Some 0;
  ac_cap u : default 0 (per_user (nat_table w) !! u) <= cap
}.
Lemma nat_reserve_spec t u : cap <> 0 -> let r := reserve_user_slot limits t u in
  entries r.1 = entries t /\ cells r.1 = cells t /\ nats r.1 = nats t /\ next_id r.1 = next_id t /\
  (forall v, default 0 (per_user r.1 !! v) = default 0 (per_user t !! v) + b2n (r.2 && same_user v u)) /\
  ((forall v, per_user t !! v <> Some 0) -> cap <> 0 -> forall v, per_user r.1 !! v <> Some 0) /\
  (r.2 = true -> default 0 (per_user t !! u) < cap).
Proof.
  intros Hc. cbn zeta. unfold reserve_user_slot. rewrite bool_decide_false by done.
  destruct (cap <=? default 0 (per_user t !! u)) eqn:E; cbn; split_and!; try done.
  - intros v. destruct (decide (v = u)) as [->|Hne]; rewrite ?lookup_insert_eq, ?lookup_insert_ne by done; cbn; lia.
  - intros Hz _ v. destruct (decide (v = u)) as [->|Hne]; rewrite ?lookup_insert_eq, ?lookup_insert_ne by done; [|apply Hz].
    apply Nat.leb_le in E. intros [= H]. lia.
  - intros v. unfold same_user. destruct (decide (v = u)) as [->|Hne].
    + rewrite lookup_insert_eq, bool_decide_true by done. cbn. lia.
    + rewrite lookup_insert_ne, bool_decide_false by done. cbn. lia.
  - intros Hz _ v. destruct (decide (v = u)) as [->|Hne]; rewrite ?lookup_insert_eq, ?lookup_insert_ne by done; [done|apply Hz].
  - intros _. by apply Nat.leb_gt in E.
Qed.
Lemma nat_release_spec t u : cap <> 0 -> 1 <= default 0 (per_user t !! u) -> let r := release_user_slot limits t u in
  entries r = entries t /\ cells r = cells t /\ nats r = nats t /\ next_id r = next_id t /\
  (forall v, default 0 (per_user r !! v) + b2n (same_user v u) = default 0 (per_user t !! v)) /\
  ((forall v, per_user t !! v <> Some 0) -> forall v, per_user r !! v <> Some 0).
Proof.
  intros Hc H1. cbn zeta. unfold release_user_slot. rewrite bool_decide_false by done.
  destruct (per_user t !! u) as [k|] eqn:E; [|cbn in H1; lia]. cbn in H1 |- *. split_and!; try done.
  - intros v. unfold same_user. case_bool_decide as E0; destruct (decide (v = u)) as [->|Hne];
      rewrite ?lookup_delete_eq, ?lookup_delete_ne, ?lookup_insert_eq, ?lookup_insert_ne by done;
      rewrite ?bool_decide_true, ?bool_decide_false by done; cbn; rewrite ?E; cbn; lia.
  - intros Hz v. case_bool_decide as E0; destruct (decide (v = u)) as [->|Hne];
      rewrite ?lookup_delete_eq, ?lookup_delete_ne, ?lookup_insert_eq, ?lookup_insert_ne by done; try apply Hz; congruence.
Qed.

(** What one step of a call does to the counts. *)
Lemma create_step_accounts t key ss b en now pc t' pc' rest : cap <> 0 ->
  create_step limits t key ss b en now pc = (t', pc') ->
  (forall u, default 0 (per_user t !! u) = owned t u + b2n (holds_slot u (Some (key, pc))) + rest u) ->
  (forall u, per_user t !! u <> Some 0) -> (forall u, default 0 (per_user t !! u) <= cap) ->
  (forall u, default 0 (per_user t' !! u) = owned t' u + b2n (holds_slot u (Some (key, pc'))) + rest u) /\
  (forall u, per_user t' !! u <> Some 0) /\ (forall u, default 0 (per_user t' !! u) <= cap).
Proof.
  intros Hc Hs Ha Hz Hcap. destruct pc; cbn [create_step] in Hs.
  - destruct (entries t !! key); injection Hs as <- <-; done.
  - destruct (_ && _) in Hs; injection Hs as <- <-; done.
  - pose proof (nat_reserve_spec t (k_user key) Hc) as (He & _ & _ & _ & Hd & Hz' & Hok). cbn zeta in *.
    destruct (reserve_user_slot _ _ _) as [t1 ok]. cbn [fst snd] in *.
    assert (forall u, owned t1 u = owned t u) as Ho by (intros u; unfold owned; by rewrite He).
    injection Hs as <- <-. split_and!.
    + intros u. rewrite Hd, Ha, Ho. destruct ok; cbn; unfold same_user, user_is; [|lia]. destruct (decide (k_user key = u)) as [<-|Hne];
        [rewrite !bool_decide_true by done|rewrite !bool_decide_false by done]; cbn; lia.
    + by apply Hz'.
    + intros u. rewrite Hd. specialize (Hcap u). unfold same_user. destruct ok; cbn; [|lia].
      case_bool_decide as Eu; cbn; [|lia]. subst u. specialize (Hok eq_refl). lia.
  - destruct (entries t !! key) as [c|] eqn:Ek.
    + assert (1 <= default 0 (per_user t !! k_user key)) as H1
        by (rewrite Ha; cbn; unfold user_is; rewrite bool_decide_true by done; cbn; lia).
      pose proof (nat_release_spec t (k_user key) Hc H1) as (He & _ & _ & _ & Hd & Hz'). cbn zeta in *. injection Hs as <- <-.
      assert (forall u, owned (release_user_slot limits t (k_user key)) u = owned t u) as Ho by (intros u; unfold owned; by rewrite He).
      split_and!; [|by apply Hz'|intros u; specialize (Hd u); specialize (Hcap u); lia].
      intros u. rewrite Ho. specialize (Hd u). specialize (Ha u). cbn in *. unfold same_user, user_is in *.
      destruct (decide (k_user key = u)) as [<-|Hne];
        [rewrite !bool_decide_true in * by done|rewrite !bool_decide_false in * by done]; cbn in *; lia.
    + injection Hs as <- <-. split_and!; [|done|done]. intros u. specialize (Ha u). cbn in Ha |- *.
      unfold owned at 1. cbn [entries]. rewrite (owned_insert t u key (next_id t) Ek). lia.
  - destruct (cells t !! cell) as [[e|]|]; [by injection Hs as <- <-| |];
      destruct (create_entry _ _ _ _ _); injection Hs as <- <-; done.
  - by injection Hs as <- <-.
Qed.

Lemma count_caller (f : option (NatKey * CreatorPc) -> bool) cs i x y : cs !! i = Some x ->
  count f (<[i := y]> cs) = count f cs - b2n (f x) + b2n (f y) /\ b2n (f x) <= count f cs.
Proof.
  intros H. pose proof (count_insert f cs i x y H) as E. assert (b2n (f x) <= count f cs) as Hle; [|split; lia].
  apply list_elem_of_lookup_2, list_elem_of_In in H. unfold count. destruct (f x) eqn:Hx; [|cbn; lia].
  assert (In x (List.filter f cs)) as Hin by (by apply List.filter_In). destruct (List.filter f cs); [done|cbn; lia].
Qed.
Lemma retain_accounts t now u : cap <> 0 -> let r := sweep_retain limits idle_timeout t now in
  owned r.1 u + count (same_user u) r.2 = owned t u /\ per_user r.1 = per_user t.
Proof.
  intros Hc. cbn zeta. unfold sweep_retain. cbn [fst snd]. split; [|done]. rewrite (proj2 (Nat.ltb_lt _ _)) by lia. unfold owned. cbn [set_entries entries].
  rewrite (count_perm _ _ _ (to_list_filter _ _)).
  rewrite (filter_bool _ (fun kv : NatKey * nat => keeps idle_timeout t now kv.2)) by done.
  rewrite (filter_bool _ (fun kv : NatKey * nat => negb (keeps idle_timeout t now kv.2))) by (intros x; by destruct (keeps _ _ _ _)).
  rewrite count_map. apply (count_split (fun kv => user_is u kv.1)).
Qed.
Lemma step_accounted w l : cap <> 0 -> accounted w -> accounted (nat_step limits idle_timeout w l).
Proof.
  intros Hc [Ha Hz Hcap]. destruct w as [t cs rel]. cbn [nat_table callers released] in *. destruct l as [i key|i ss b en now|now| |e now]; cbn [nat_step].
  - destruct (cs !! i) as [o|] eqn:Ei; [|done].
    assert (holds_slot_none : match o with None | Some (_, CDone _) => forall u, holds_slot u o = false | _ => True end)
      by (destruct o as [[k []]|]; done).
    destruct o as [[k []]|]; try done; (split; [|done|done]); intros u; cbn [nat_table callers released]; rewrite Ha;
      destruct (count_caller (holds_slot u) cs i _ (Some (key, CLookup)) Ei) as [-> H]; cbn in *; lia.
  - destruct (cs !! i) as [[[key pc]|]|] eqn:Ei; [|done|done].
    destruct (create_step _ _ _ _ _ _ _ _) as [t' pc'] eqn:Es.
    destruct (create_step_accounts t key ss b en now pc t' pc'
      (fun u => count (holds_slot u) cs - b2n (holds_slot u (Some (key, pc))) + count (same_user u) rel) Hc Es) as (Ha' & Hz' & Hc'); [|done|done|].
    { intros u. rewrite Ha. destruct (count_caller (holds_slot u) cs i _ (Some (key, pc')) Ei). lia. }
    split; [|done|done]. intros u. cbn [nat_table callers released]. rewrite Ha'.
    destruct (count_caller (holds_slot u) cs i _ (Some (key, pc')) Ei) as [-> H]. lia.
  - destruct (sweep_retain _ _ _ _) as [t' more] eqn:Es.
    assert (forall u, owned t' u + count (same_user u) more = owned t u /\ per_user t' = per_user t) as Hr
      by (intros u; pose proof (retain_accounts t now u Hc) as H; by rewrite Es in H).
    split; intros u; cbn [nat_table callers released]; destruct (Hr u) as [H1 ->]; [|apply Hz|apply Hcap].
    rewrite Ha, count_app. lia.
  - destruct rel as [|v rel]; [done|].
    assert (1 <= default 0 (per_user t !! v)) as H1
      by (rewrite Ha, count_cons; unfold same_user at 1; rewrite bool_decide_true by done; cbn; lia).
    pose proof (nat_release_spec t v Hc H1) as (He & _ & _ & _ & Hd & Hz'). cbn zeta in *.
    split; intros u; cbn [nat_table callers released]; [|by apply Hz'|specialize (Hd u); specialize (Hcap u); lia].
    specialize (Hd u). specialize (Ha u). rewrite count_cons in Ha.
    assert (owned (release_user_slot limits t v) u = owned t u) as Ho by (unfold owned; by rewrite He). lia.
  - done.
Qed.

Record bounded (w : NatWorld) : Prop := {
  bo_callers : length (callers w) = n;
  bo_size : size (entries (nat_table w)) + count past_check (callers w) + 1 <= max_entries limits + n
}.
Lemma reserve_size t u : entries (reserve_user_slot limits t u).1 = entries t.
Proof. unfold reserve_user_slot. repeat case_match; done. Qed.
Lemma nat_release_entries t u : entries (release_user_slot limits t u) = entries t.
Proof. unfold release_user_slot. repeat case_match; done. Qed.
Lemma create_step_bounds t key ss b en now pc t' pc' k : 0 < max_entries limits ->
  create_step limits t key ss b en now pc = (t', pc') -> size (entries t) + b2n (past_check (Some (key, pc))) + k + 1 <= max_entries limits + n ->
  b2n (past_check (Some (key, pc'))) + k <= n ->
  size (entries t') + b2n (past_check (Some (key, pc'))) + k + 1 <= max_entries limits + n.
Proof.
  intros Hm Hs Hb Hk. destruct pc; cbn [create_step] in Hs.
  - destruct (entries t !! key); injection Hs as <- <-; done.
  - rewrite (proj2 (Nat.ltb_lt _ _) Hm) in Hs. cbn in Hs. destruct (max_entries limits <=? size (entries t)) eqn:E; injection Hs as <- <-; [done|].
    apply Nat.leb_gt in E. cbn in *. lia.
  - pose proof (reserve_size t (k_user key)) as He. destruct (reserve_user_slot _ _ _) as [t1 ok]. cbn in He. injection Hs as <- <-.
    rewrite He. destruct ok; cbn in *; lia.
  - destruct (entries t !! key) eqn:Ek; injection Hs as <- <-; cbn in *; [rewrite nat_release_entries; lia|].
    rewrite map_size_insert_None by done. lia.
  - destruct (cells t !! cell) as [[e|]|]; [by injection Hs as <- <-| |];
      destruct (create_entry _ _ _ _ _); injection Hs as <- <-; done.
  - by injection Hs as <- <-.
Qed.
Lemma step_bounded w l : 0 < max_entries limits -> bounded w -> bounded (nat_step limits idle_timeout w l).
Proof.
  intros Hm [Hl Hb]. destruct w as [t cs rel]. cbn [nat_table callers released] in *. destruct l as [i key|i ss b en now|now| |e now]; cbn [nat_step].
  - destruct (cs !! i) as [o|] eqn:Ei; [|done]. destruct o as [[k []]|]; try done; split; cbn [nat_table callers];
      rewrite ?length_insert; try done; destruct (count_caller past_check cs i _ (Some (key, CLookup)) Ei) as [-> H]; cbn in *; lia.
  - destruct (cs !! i) as [[[key pc]|]|] eqn:Ei; [|done|done].
    destruct (create_step _ _ _ _ _ _ _ _) as [t' pc'] eqn:Es.
    destruct (count_caller past_check cs i _ (Some (key, pc')) Ei) as [Hcc Hle].
    split; cbn [nat_table callers]; [by rewrite length_insert|]. rewrite Hcc.
    pose proof (count_le past_check (<[i := Some (key, pc')]> cs)) as Hn. rewrite Hcc, length_insert, Hl in Hn.
    pose proof (create_step_bounds t key ss b en now pc t' pc' (count past_check cs - b2n (past_check (Some (key, pc)))) Hm Es).
    lia.
  - cbn. split; cbn [nat_table callers]; [done|]. cbn [set_entries entries].
    assert (size (filter (fun kv => keeps idle_timeout t now kv.2 = true) (entries t)) <= size (entries t)) by (apply map_size_filter || apply map_subseteq_size, map_filter_subseteq).
    lia.
  - destruct rel as [|v rel]; [done|]. split; cbn [nat_table callers]; [done|]. by rewrite nat_release_entries.
  - done.
Qed.
End facts.

(** ** The caps *)
Definition quiet (w : NatWorld) : Prop :=
  released w = [] /\ forall i o, callers w !! i = Some o -> match o with None | Some (_, CDone _) => True | _ => False end.
Lemma count_none {A} (f : A -> bool) l : (forall i x, l !! i = Some x -> f x = false) -> count f l = 0.
Proof.
  induction l as [|x l IH]; intros H; [done|]. rewrite count_cons, (H 0 x eq_refl), IH; [done|]. intros i y Hy. by apply (H (S i)).
Qed.
Lemma nat_run_accounted limits idle_timeout n ls : max_entries_per_user limits <> 0 -> accounted limits (nat_run limits idle_timeout n ls).
Proof.
  intros Hc. unfold nat_run. assert (accounted limits (nat_start n)) as H.
  { split; intros u; unfold nat_start; cbn [nat_table callers released per_user table_new]; rewrite lookup_empty; cbn [default]; [|done|cbn; lia].
    unfold owned. cbn [entries table_new]. by rewrite map_to_list_empty, count_replicate by done. }
  revert H. generalize (nat_start n). induction ls as [|l ls IH]; intros w H; [done|]. cbn [foldl]. by apply IH, step_accounted.
Qed.
Lemma run_bounded limits idle_timeout n ls : 0 < max_entries limits -> bounded limits n (nat_run limits idle_timeout n ls).
Proof.
  intros Hm. unfold nat_run. assert (bounded limits n (nat_start n)) as H.
  { unfold nat_start. split; cbn [nat_table callers entries table_new]; [by rewrite length_replicate|].
    rewrite map_size_empty, count_replicate by done. lia. }
  revert H. generalize (nat_start n). induction ls as [|l ls IH]; intros w H; [done|]. cbn [foldl]. by apply IH, step_bounded.
Qed.

(** C15: The caps hold whatever is interleaved. With [n] threads in the table, its
    size stays below the global cap plus [n]; what a user holds, the slots its
    calls have reserved counted in, never passes the user's cap; and when no call
    is in flight the user's counter is exactly what the user holds, and absent when
    that is nothing, so that no failed or lost creation leaks a slot. *)
Theorem nat_caps limits idle_timeout n ls :
  let w := nat_run limits idle_timeout n ls in
  (0 < max_entries limits -> size (entries (nat_table w)) < max_entries limits + n) /\
  (max_entries_per_user limits <> 0 -> forall u,
     owned (nat_table w) u + count (holds_slot u) (callers w) <= max_entries_per_user limits /\
     (quiet w -> per_user (nat_table w) !! u = if decide (owned (nat_table w) u = 0) then None else Some (owned (nat_table w) u))).
Proof.
  intros w. split.
  - intros Hm. destruct (run_bounded limits idle_timeout n ls Hm) as [_ H]. fold w in H. lia.
  - intros Hc u. destruct (nat_run_accounted limits idle_timeout n ls Hc) as [Ha Hz Hcap]. fold w in Ha, Hz, Hcap.
    specialize (Ha u). specialize (Hcap u). split; [lia|]. intros [Hr Hq]. rewrite Hr in Ha.
    rewrite (count_none (holds_slot u)) in Ha by (intros i o Ho; specialize (Hq i o Ho); by destruct o as [[k []]|]).
    change (count (same_user u) []) with 0 in Ha. specialize (Hz u). destruct (per_user (nat_table w) !! u) as [k|]; cbn in Ha.
    + subst k. rewrite !Nat.add_0_r in *. rewrite decide_False by congruence. done.
    + by rewrite decide_True by lia.
Qed.

(** ** Examples *)
Definition user_a : bytes := str "al".
Definition key_to (user : bytes) (port : Z) : NatKey := mkNatKey user None (V4 [x01; x01; x01; x01] port) None.
Definition whole_call (i : nat) (key : NatKey) : list NatLabel :=
  LCall i key :: replicate 5 (LStep i Generate true (Some (replicate 8 x01)) 100).
Definition sample_limits : NatLimits := mkLimits 10 1.
(** Two calls of one user for different targets: the second is refused. *)
Lemma nat_caps_witness :
  owned (nat_table (nat_run sample_limits 60 2 (whole_call 0 (key_to user_a 53) ++ whole_call 1 (key_to user_a 54)))) user_a <= 1.
Proof.
  pose proof (proj1 (proj2 (nat_caps sample_limits 60 2 (whole_call 0 (key_to user_a 53) ++ whole_call 1 (key_to user_a 54)))
    ltac:(discriminate) user_a)) as H. cbn [max_entries_per_user sample_limits] in H. lia.
Defined.
(** A sweep between the insertion of a cell and its initialisation drops the cell:
    the call succeeds with an entry the table does not hold, so that the next
    datagram gets another socket. *)
Example sweep_orphans_a_new_entry :
  let k := key_to user_a 53 in
  let st := LStep 0 Generate true (Some (replicate 8 x01)) 100 in
  let w := nat_run sample_limits 60 1 [LCall 0 k; st; st; st; st; LSweep 100; LRelease; st] in
  (exists e, callers w = [Some (k, CDone (Ok e))] /\ is_Some (nats (nat_table w) !! e)) /\ try_get (nat_table w) k = None.
Proof. vm_compute. split; [|reflexivity]. eexists. split; [reflexivity|]. eauto. Qed.
