(* ===== verification/UdpRelay.v ===== *)
(** The UDP relay of the server ([bins/outline-ss-rust/src/server/nat/reader.rs],
    [server/transport/udp.rs], [server/connect.rs], the relayed identity of
    [server/transport/mesh_relay.rs]): the reader of a NAT entry, the datagram tasks
    of a stream, resumption, teardown, and the half of a relay an edge keeps.

    A stream's response sender is known by the number of the stream. Tasks and
    readers suspend between their steps, so that they are machines; what a stream
    does without suspending is a function. The resume that waits for a park takes
    effect in one step, the take that ends it ([Orphans] has the wait). Metrics,
    logs and padding are left out. *)
From S2P Require Import Prelude ReplayStore Target NatKey Orphans Cipher Ss2022 StreamCrypto UdpCrypto NatTable.
Local Open Scope Z_scope.

Definition MAX_UDP_PAYLOAD_SIZE : Z := 65507.
Definition UDP_MAX_CONCURRENT_RELAY_TASKS : nat := 256.
Definition NAT_KEYS_RECONCILE_FLOOR : nat := 64.

(** ** Keys of a stream *)
Record StreamNatKeys : Type := mkKeys { sk_keys : gset NatKey; reconcile_at : nat }.
Definition stream_keys_new : StreamNatKeys := mkKeys ∅ NAT_KEYS_RECONCILE_FLOOR.
Definition track (s : StreamNatKeys) (key : NatKey) (is_live : NatKey -> bool) : StreamNatKeys :=
  let keys := {[key]} ∪ sk_keys s in
  if (size keys <? reconcile_at s)%nat then mkKeys keys (reconcile_at s)
  else
    let keys := filter (fun k => is_live k = true) keys in
    mkKeys keys (max (size keys * 2) NAT_KEYS_RECONCILE_FLOOR).
Definition adopt (s : StreamNatKeys) (keys : list NatKey) : StreamNatKeys :=
  mkKeys (sk_keys s ∪ list_to_set keys) (reconcile_at s).
Definition take_keys (s : StreamNatKeys) : StreamNatKeys * gset NatKey := (mkKeys ∅ NAT_KEYS_RECONCILE_FLOOR, sk_keys s).

Fixpoint reattach_parked_nat_keys (t : NatTable) (keys : list NatKey) (sender : nat) (coding : UdpResponseCoding) (stream_id : nat)
    : NatTable * list NatKey :=
  match keys with
  | [] => (t, [])
  | key :: keys =>
    match try_get t key with
    | Some e =>
      let (t, rest) := reattach_parked_nat_keys (update_nat t e (fun n => register_session n sender coding stream_id)) keys sender coding stream_id in
      (t, key :: rest)
    | None => reattach_parked_nat_keys t keys sender coding stream_id
    end
  end.
(** The order of the set is the order of the list of its elements. *)
Fixpoint detach_keys (t : NatTable) (stream_id : nat) (keys : list NatKey) : NatTable * list NatKey :=
  match keys with
  | [] => (t, [])
  | key :: keys =>
    match (e ← try_get t key; n ← nats t !! e; Some (e, detach_session_for_stream n stream_id)) with
    | Some (e, (n, true)) =>
      let (t, rest) := detach_keys (set_nats t (<[e := n]> (nats t))) stream_id keys in (t, key :: rest)
    | _ => detach_keys t stream_id keys
    end
  end.
Definition detach_stream_nat_keys (t : NatTable) (stream_id : nat) (keys : gset NatKey) : NatTable * list NatKey :=
  detach_keys t stream_id (elements keys).

(** ** A stream *)
Record UdpSession : Type := mkUdpSession {
  us_keys : StreamNatKeys;
  us_user : option bytes;
  us_cached_user : option nat;
  us_pending_resume : option SessionId;
  us_issued : option SessionId;
  us_scope : option (option NatScope);
  us_closed : bool
}.
Definition session_new (issued pending_resume : option SessionId) : UdpSession :=
  mkUdpSession stream_keys_new None None pending_resume issued None false.
Definition us_set_keys (s : UdpSession) (k : StreamNatKeys) : UdpSession :=
  mkUdpSession k (us_user s) (us_cached_user s) (us_pending_resume s) (us_issued s) (us_scope s) (us_closed s).
(** [cached_user_index.store] and [authenticated_user_id.get_or_init] *)
Definition us_authenticated (s : UdpSession) (user : bytes) (index : nat) : UdpSession :=
  mkUdpSession (us_keys s) (Some (default user (us_user s))) (Some index) (us_pending_resume s) (us_issued s) (us_scope s) (us_closed s).
Definition us_take_resume (s : UdpSession) : UdpSession :=
  mkUdpSession (us_keys s) (us_user s) (us_cached_user s) None (us_issued s) (us_scope s) (us_closed s).
Definition us_set_scope (s : UdpSession) (scope : option NatScope) : UdpSession :=
  mkUdpSession (us_keys s) (us_user s) (us_cached_user s) (us_pending_resume s) (us_issued s) (Some scope) (us_closed s).
Definition us_close (s : UdpSession) : UdpSession :=
  mkUdpSession (us_keys s) (us_user s) (us_cached_user s) (us_pending_resume s) (us_issued s) (us_scope s) true.

Section relay.
Context {L : Type} `{LR : !Lru L}.
Variable seal : AeadKey -> bytes -> bytes -> option bytes.
Variable open_in_place : AeadKey -> bytes -> bytes -> option bytes.
Variable hkdf_sha1 : bytes -> bytes -> bytes -> nat -> option bytes.
Variable blake3_derive_xof : bytes -> bytes -> nat -> bytes.
Variable xseal xopen : bytes -> bytes -> bytes -> option bytes.
Variable aes_encrypt_block aes_decrypt_block : bytes -> bytes -> bytes.
(** The iteration order of the registry, the limits, the idle timeout, and which
    senders are plain sockets. *)
Variable iter : gmap SessionId ParkedEntry -> list (SessionId * ParkedEntry).
Variable limits : NatLimits.
Variable idle_timeout : Z.
Variable is_socket : nat -> bool.
Variable prefer_ipv4_upstream : bool.

(** ** What a datagram must pass before it is relayed *)
Inductive AuthError : Type := NoUser | AuthFailed (e : CryptoError).
Definition authenticate_udp_datagram (max_sessions max_sessions_per_user : nat) (store : ReplayStore) (cache : SessionKeyCache (L := L))
    (s : UdpSession) (users : list UserKey) (data : bytes) (now : Z)
    : ReplayStore * option SessionKeyCache * UdpSession * result AuthError (option UdpPacket) :=
  let (cache, r) := decrypt_udp_packet_with_hint open_in_place hkdf_sha1 blake3_derive_xof xopen aes_decrypt_block
                      users data (us_cached_user s) (Some cache) now in
  match r with
  | Err UnknownUser => (store, cache, s, Err NoUser)
  | Err e => (store, cache, s, Err (AuthFailed e))
  | Ok (packet, index) =>
    let user := user_id (pkt_user packet) in
    let s := us_authenticated s user index in
    let (store, check) :=
      match replay_key (pkt_session packet) (pkt_packet_id packet) with
      | Some (csid, pid) =>
        let (store, c) := ReplayStore.check_and_mark max_sessions max_sessions_per_user now user csid pid store in (store, Some c)
      | None =>
        match legacy_replay_salt packet with
        | Some salt => let (store, c) := check_and_mark_legacy_salt max_sessions max_sessions_per_user now user salt store in (store, Some c)
        | None => (store, None)
        end
      end in
    (store, cache, s,
     Ok (match check with Some Replay | Some (StoreFull _) => None | Some Fresh | None => Some packet end))
  end.

(** ** The reader of an entry

    It remembers the count of the path changes it has seen. *)
Inductive ReaderPc : Type :=
  | RIdle
  | RGot (source : SocketAddr) (data : bytes)
  | RMarked (seen : nat) (source : SocketAddr) (data : bytes)
  | RSnap (seen : nat) (source : SocketAddr) (data : bytes) (sender : nat) (coding : UdpResponseCoding)
  | RSending (seen : nat) (sender : nat) (coding : UdpResponseCoding) (response : bytes).
Definition record_oversized_socket_response_drop (sender : nat) (encoded_len : Z) : bool :=
  is_socket sender && (MAX_UDP_PAYLOAD_SIZE <? encoded_len).
(** The response, and the packet id it was sealed under. *)
Definition encode_response (n : NatEntry) (source : SocketAddr) (data : bytes) (coding : UdpResponseCoding) (now : Z) (entropy : option bytes)
    : NatEntry * option Z * option bytes :=
  match coding with
  | SsCoding user session =>
    let packet_id := n_next_packet_id n in
    (set_next_packet_id n ((packet_id + 1) mod 2 ^ 64), Some packet_id,
     match encrypt_udp_packet_for_response seal hkdf_sha1 blake3_derive_xof xseal aes_encrypt_block user
             (socket_addr_to_target source) data session (n_server_session_id n) packet_id now entropy with
     | Ok v => Some v | Err _ => None end)
  | Plaintext =>
    (n, None, match to_wire_bytes (socket_addr_to_target source) with Ok w => Some (w ++ data) | Err _ => None end)
  end.
(** What polling the send gives: [None] while it waits. *)
Definition send_until_moved (n : NatEntry) (seen sender : nat) (coding : UdpResponseCoding) (response : bytes) (sent : option bool) (now : Z)
    : NatEntry * ReaderPc :=
  match sent with
  | Some true => (touch n now, RIdle)
  | Some false => (n, RIdle)
  | None =>
    if bool_decide (s_moved (n_active n) = seen) then (n, RSending seen sender coding response)
    else if leads_to (n_active n) sender then (n, RSending (s_moved (n_active n)) sender coding response)
    else (n, RIdle)
  end.
(** One step of the reader with what it seals and what it hands over. *)
Definition nat_reader_step (n : NatEntry) (pc : ReaderPc) (sent : option bool) (now : Z) (entropy : option bytes)
    : NatEntry * ReaderPc * option Z * option (nat * UdpResponseCoding * bytes) :=
  match pc with
  | RIdle => (n, RIdle, None, None)
  | RGot source data => (n, RMarked (s_moved (n_active n)) source data, None, None)
  | RMarked seen source data =>
    (n, match snapshot (n_active n) with
        | Some (sender, coding) => RSnap seen source data sender coding
        | None => RIdle
        end, None, None)
  | RSnap seen source data sender coding =>
    let '(n, pid, response) := encode_response n source data coding now entropy in
    (n, match response with
        | Some response =>
          if record_oversized_socket_response_drop sender (zlen response) then RIdle else RSending seen sender coding response
        | None => RIdle
        end, pid, None)
  | RSending seen sender coding response =>
    let (n, pc) := send_until_moved n seen sender coding response sent now in
    (n, pc, None, match sent with Some true => Some (sender, coding, response) | _ => None end)
  end.

(** ** Resumption

    [Some issued] as the bytes of the id. *)
Definition resolve_nat_scope (t : NatTable) (r : OrphanRegistry) (s : UdpSession) (stream_id : nat) (user : bytes)
    (coding : UdpResponseCoding) (now : Z) : NatTable * OrphanRegistry * UdpSession * option NatScope :=
  let issued_scope := us_issued s in
  if negb (enabled (config r)) then (t, r, s, issued_scope)
  else
    match us_pending_resume s with
    | None => (t, r, s, issued_scope)
    | Some id =>
      let s := us_take_resume s in
      let (r, outcome) := try_take_committed iter r now id user in
      match outcome with
      | Some (Hit (SsUdpStream _ nat_keys)) =>
        let parked_scope := key ← head nat_keys; k_scope key in
        let (t, keys_for_self) := reattach_parked_nat_keys t nat_keys stream_id coding stream_id in
        if (0 <? length keys_for_self)%nat
        then (t, r, us_set_keys s (adopt (us_keys s) keys_for_self), parked_scope)
        else (t, r, s, issued_scope)
      | _ => (t, r, s, issued_scope)
      end
    end.

(** ** A datagram on its way

    [resolved] is what the resolver finds for a domain. *)
Definition literal_ip_addr (addr : SocketAddr) : option SocketAddr :=
  match addr with V6 _ _ => if prefer_ipv4_upstream then None else Some addr | V4 _ _ => Some addr end.
Definition resolve_udp_target (target : TargetAddr) (resolved : option SocketAddr) : option SocketAddr :=
  match socket_addr target with Some addr => literal_ip_addr addr | None => resolved end.
Inductive TaskPc : Type :=
  | TScope (datagram : bytes)
  | TResolve (scope : option NatScope) (datagram : bytes)
  | TCreate (key : NatKey) (payload : bytes) (pc : CreatorPc)
  | TRegister (key : NatKey) (payload : bytes) (e : nat)
  | TTrack (key : NatKey) (payload : bytes) (e : nat)
  | TSend (key : NatKey) (payload : bytes) (e : nat)
  | TTouch (e : nat)
  | TDone.
Record Task : Type := mkTask { tk_stream : nat; tk_user : UserKey; tk_coding : UdpResponseCoding; tk_pc : TaskPc }.
Definition set_pc (k : Task) (pc : TaskPc) : Task := mkTask (tk_stream k) (tk_user k) (tk_coding k) pc.
Definition running (k : Task) : bool := match tk_pc k with TDone => false | _ => true end.

(** What the outside gives a step. *)
Record Env : Type := mkEnv { e_now : Z; e_bound : bool; e_entropy : option bytes; e_resolved : option SocketAddr; e_sent : bool }.

(** The datagrams that went upstream: the entry whose socket they left by. *)
Record World : Type := mkWorld {
  table : NatTable;
  registry : OrphanRegistry;
  sessions : gmap nat UdpSession;
  tasks : list Task;
  readers : gmap nat ReaderPc;
  to_release : list bytes;
  sent_up : list (nat * SocketAddr * bytes);
  sealed : list (nat * Z);
  delivered : list (nat * nat * UdpResponseCoding * bytes)
}.
Definition with_table (w : World) (t : NatTable) : World :=
  mkWorld t (registry w) (sessions w) (tasks w) (readers w) (to_release w) (sent_up w) (sealed w) (delivered w).
Definition with_session (w : World) (i : nat) (s : UdpSession) : World :=
  mkWorld (table w) (registry w) (<[i := s]> (sessions w)) (tasks w) (readers w) (to_release w) (sent_up w) (sealed w) (delivered w).
Definition with_registry (w : World) (r : OrphanRegistry) : World :=
  mkWorld (table w) r (sessions w) (tasks w) (readers w) (to_release w) (sent_up w) (sealed w) (delivered w).
Definition with_tasks (w : World) (ts : list Task) : World :=
  mkWorld (table w) (registry w) (sessions w) ts (readers w) (to_release w) (sent_up w) (sealed w) (delivered w).
Definition with_sent (w : World) (l : list (nat * SocketAddr * bytes)) : World :=
  mkWorld (table w) (registry w) (sessions w) (tasks w) (readers w) (to_release w) l (sealed w) (delivered w).

(** One step of [handle_udp_datagram_common] and [relay_socks5_datagram]. *)
Definition task_step (w : World) (i : nat) (k : Task) (s : UdpSession) (env : Env) : World :=
  let goto w pc := with_tasks w (<[i := set_pc k pc]> (tasks w)) in
  match tk_pc k with
  | TScope datagram =>
    match us_scope s with
    | Some scope => goto w (TResolve scope datagram)
    | None =>
      let '(t, r, s, scope) := resolve_nat_scope (table w) (registry w) s (tk_stream k) (user_id (tk_user k)) (tk_coding k) (e_now env) in
      goto (with_session (with_registry (with_table w t) r) (tk_stream k) (us_set_scope s scope)) (TResolve scope datagram)
    end
  | TResolve scope datagram =>
    goto w
      match parse_target_addr datagram with
      | Ok (Some (target, consumed)) =>
        match resolve_udp_target target (e_resolved env) with
        | Some resolved =>
          TCreate (mkNatKey (user_id (tk_user k)) (fwmark (tk_user k)) resolved scope) (drop consumed datagram) CLookup
        | None => TDone
        end
      | Ok None | Err _ => TDone
      end
  | TCreate key payload pc =>
    let (t, pc) := create_step limits (table w) key (for_coding (tk_coding k)) (e_bound env) (e_entropy env) (e_now env) pc in
    goto (with_table w t)
      match pc with
      | CDone (Ok e) => TRegister key payload e
      | CDone (Err _) => TDone
      | _ => TCreate key payload pc
      end
  | TRegister key payload e =>
    goto (with_table w (update_nat (table w) e (fun n => register_session n (tk_stream k) (tk_coding k) (tk_stream k)))) (TTrack key payload e)
  | TTrack key payload e =>
    goto (with_session w (tk_stream k) (us_set_keys s (track (us_keys s) key (contains (table w))))) (TSend key payload e)
  | TSend key payload e =>
    if MAX_UDP_PAYLOAD_SIZE <? zlen payload then goto w TDone
    else if e_sent env then goto (with_sent w (sent_up w ++ [(e, k_target key, payload)])) (TTouch e)
    else goto w TDone
  | TTouch e => goto (with_table w (update_nat (table w) e (fun n => touch n (e_now env)))) TDone
  | TDone => w
  end.

(** ** Teardown *)
Definition release_ss_udp_stream_on_drop (t : NatTable) (r : OrphanRegistry) (s : UdpSession) (stream_id : nat) (now : Z)
    : NatTable * OrphanRegistry * UdpSession :=
  let park_target := id ← us_issued s; if enabled (config r) then user ← us_user s; Some (id, user) else None in
  let r1 := match park_target with Some (id, _) => reserve_park r id | None => r end in
  let (k, keys) := take_keys (us_keys s) in
  let s := us_set_keys s k in
  let '(t, r2) :=
    if bool_decide (keys = ∅) then (t, r1)
    else
      let (t, detached) := detach_stream_nat_keys t stream_id keys in
      match park_target with
      | Some (id, owner) =>
        if bool_decide (detached = []) then (t, r1) else (t, park iter r1 now id (SsUdpStream owner detached))
      | None => (t, r1)
      end in
  (t, match park_target with Some (id, _) => (drop_reservation r2 id).1 | None => r2 end, s).

(** ** Everything together *)
Inductive Label : Type :=
  | UOpen (i : nat) (issued pending_resume : option SessionId)
  | UArrive (i : nat) (packet : UdpPacket) (index : nat) (permit : bool)
  | UTask (j : nat) (env : Env)
  | UUpstream (e : nat) (source : SocketAddr) (data : bytes)
  | UReader (e : nat) (sent : option bool) (now : Z) (entropy : option bytes)
  | UClose (i : nat) (now : Z)
  | UExpire (now : Z)
  | USweep (now : Z)
  | URelease.

Definition live_tasks (w : World) (i : nat) : list Task := List.filter (fun k => bool_decide (tk_stream k = i) && running k) (tasks w).
Definition coding_of (p : UdpPacket) : UdpResponseCoding := SsCoding (pkt_user p) (pkt_session p).
Definition world_step (w : World) (l : Label) : World :=
  match l with
  | UOpen i issued pending =>
    match sessions w !! i with None => with_session w i (session_new issued pending) | Some _ => w end
  | UArrive i p index permit =>
    match sessions w !! i with
    | Some s =>
      if us_closed s then w
      else
        (* the packet is authenticated first thing in its task, the caps are looked at before *)
        if (UDP_MAX_CONCURRENT_RELAY_TASKS <=? length (live_tasks w i))%nat || negb permit then w
        else
          with_tasks (with_session w i (us_authenticated s (user_id (pkt_user p)) index))
            (tasks w ++ [mkTask i (pkt_user p) (coding_of p) (TScope (pkt_payload p))])
    | None => w
    end
  | UTask j env =>
    match tasks w !! j with
    | Some k => match sessions w !! tk_stream k with Some s => task_step w j k s env | None => w end
    | None => w
    end
  | UUpstream e source data =>
    match nats (table w) !! e, default RIdle (readers w !! e) with
    | Some _, RIdle =>
      mkWorld (table w) (registry w) (sessions w) (tasks w) (<[e := RGot source data]> (readers w)) (to_release w) (sent_up w) (sealed w)
        (delivered w)
    | _, _ => w
    end
  | UReader e sent now entropy =>
    match nats (table w) !! e with
    | Some n =>
      let '(n, pc, pid, out) := nat_reader_step n (default RIdle (readers w !! e)) sent now entropy in
      mkWorld (set_nats (table w) (<[e := n]> (nats (table w)))) (registry w) (sessions w) (tasks w) (<[e := pc]> (readers w)) (to_release w)
        (sent_up w) (sealed w ++ match pid with Some pid => [(e, pid)] | None => [] end)
        (delivered w ++ match out with Some (sender, coding, response) => [(e, sender, coding, response)] | None => [] end)
    | None => w
    end
  | UClose i now =>
    match sessions w !! i with
    | Some s =>
      if us_closed s || negb (bool_decide (live_tasks w i = [])) then w
      else
        let '(t, r, s) := release_ss_udp_stream_on_drop (table w) (registry w) s i now in
        with_session (with_registry (with_table w t) r) i (us_close s)
    | None => w
    end
  | UExpire now => with_registry w (sweep_expired iter (registry w) now).1
  | USweep now =>
    let (t, more) := sweep_retain limits idle_timeout (table w) now in
    mkWorld t (registry w) (sessions w) (tasks w) (readers w) (to_release w ++ more) (sent_up w) (sealed w) (delivered w)
  | URelease =>
    match to_release w with
    | u :: rest =>
      mkWorld (release_user_slot limits (table w) u) (registry w) (sessions w) (tasks w) (readers w) rest (sent_up w) (sealed w) (delivered w)
    | [] => w
    end
  end.
Definition world_start (c : ResumptionConfig) : World := mkWorld table_new (registry_new c) ∅ [] ∅ [] [] [] [].
Definition world_run (c : ResumptionConfig) (ls : list Label) : World := foldl world_step (world_start c) ls.
End relay.

(** ** A session relayed from an edge: what of a park it may serve *)
Record RelayedUdpIdentity : Type := mkIdentity { id_user : bytes; id_fwmark : option Z; id_scope : option NatScope }.
Definition identity_owns (i : RelayedUdpIdentity) (key : NatKey) : bool :=
  bool_decide (k_user key = id_user i) && bool_decide (k_fwmark key = id_fwmark i) && bool_decide (k_scope key = id_scope i).
Definition from_park (nat_keys : list NatKey) (user : bytes) : option (RelayedUdpIdentity * list NatKey * nat) :=
  template ← List.find (fun key => bool_decide (k_user key = user)) nat_keys;
  let identity := mkIdentity (k_user template) (k_fwmark template) (k_scope template) in
  let owned := List.filter (identity_owns identity) nat_keys in
  Some (identity, owned, (length nat_keys - length owned)%nat).
