(* ===== verification/UdpRelayFacts.v ===== *)
(** What the operations of the UDP relay do to the table, the slots of its entries
    and the registry. *)
From S2P Require Import Prelude ReplayStore Target NatKey Orphans Cipher Ss2022 StreamCrypto UdpCrypto NatTable UdpRelay.
Local Open Scope nat_scope.

(** ** How entries change *)
Definition slot_le (s s' : ActiveSlot) : Prop :=
  s_moved s <= s_moved s' /\ (s_moved s' = s_moved s -> forall x, leads_to s x = true -> leads_to s' x = true).
Record nat_le (n n' : NatEntry) : Prop := {
  le_key : n_key n' = n_key n;
  le_slot : slot_le (n_active n) (n_active n');
  le_pid : n_next_packet_id n' = n_next_packet_id n
}.
#[export] Instance slot_le_refl : Reflexive slot_le.
Proof. by split. Qed.
#[export] Instance slot_le_trans : Transitive slot_le.
Proof.
  intros s1 s2 s3 [H1 H2] [H3 H4]. split; [lia|]. intros E x Hx. apply H4, H2; [lia..|done].
Qed.
#[export] Instance nat_le_refl : Reflexive nat_le.
Proof. by split. Qed.
#[export] Instance nat_le_trans : Transitive nat_le.
Proof. intros n1 n2 n3 [H1 H2 H3] [H4 H5 H6]. split; [congruence| |congruence]. by etrans. Qed.
Lemma slot_set_le s next : slot_le s (slot_set s next).
Proof.
  unfold slot_set, slot_le, leads_to. destruct (s_session s) as [a|], next as [b|]; cbn; try (split; [lia|]; intros; lia); try done.
  case_bool_decide as E; cbn; [|split; [lia|]; intros; lia]. split; [lia|]. by rewrite E.
Qed.
Lemma register_le n sender coding stream : nat_le n (register_session n sender coding stream).
Proof. split; [done|apply slot_set_le|done]. Qed.
Lemma touch_le n now : nat_le n (touch n now).
Proof. by split. Qed.
Lemma detach_le n stream n' b : detach_session_for_stream n stream = (n', b) -> nat_le n n'.
Proof.
  unfold detach_session_for_stream. destruct (s_session _) as [a|]; [|by intros [= <- <-]].
  case_bool_decide; intros [= <- <-]; [|done]. split; [done| |done]. split; cbn; [lia|]. intros; lia.
Qed.

(** Same entries, each changed that way. *)
Definition moves (m m' : gmap nat NatEntry) : Prop := map_included (fun _ => nat_le) m m' /\ dom m' = dom m.
Lemma moves_lookup m m' e : moves m m' ->
  match m !! e, m' !! e with Some n, Some n' => nat_le n n' | None, None => True | _, _ => False end.
Proof.
  intros [H D]. specialize (H e). destruct (m !! e) as [n|] eqn:E, (m' !! e) as [n'|] eqn:E'; try done.
  apply elem_of_dom_2 in E'. rewrite D in E'. by apply not_elem_of_dom in E.
Qed.
Lemma moves_spec m m' : (forall e, match m !! e, m' !! e with Some n, Some n' => nat_le n n' | None, None => True | _, _ => False end) -> moves m m'.
Proof.
  intros H. split.
  - intros e. specialize (H e). by destruct (m !! e), (m' !! e).
  - apply set_eq. intros e. specialize (H e). rewrite !elem_of_dom. destruct (m !! e), (m' !! e); try done; by split.
Qed.
#[export] Instance moves_refl : Reflexive moves.
Proof. intros m. apply moves_spec. intros e. by destruct (m !! e). Qed.
#[export] Instance moves_trans : Transitive moves.
Proof.
  intros m1 m2 m3 H1 H2. apply moves_spec. intros e. pose proof (moves_lookup _ _ e H1). pose proof (moves_lookup _ _ e H2).
  destruct (m1 !! e), (m2 !! e), (m3 !! e); try done. by etrans.
Qed.
Lemma moves_alter m e f : (forall n, nat_le n (f n)) -> moves m (alter f e m).
Proof.
  intros Hf. apply moves_spec. intros e'. destruct (decide (e' = e)) as [->|Hne].
  - rewrite lookup_alter_eq. destruct (m !! e); [apply Hf|done].
  - rewrite lookup_alter_ne by done. by destruct (m !! e').
Qed.
Lemma moves_insert m e n n' : m !! e = Some n -> nat_le n n' -> moves m (<[e := n']> m).
Proof.
  intros He Hn. apply moves_spec. intros e'. destruct (decide (e' = e)) as [->|Hne].
  - by rewrite lookup_insert_eq, He.
  - rewrite lookup_insert_ne by done. by destruct (m !! e').
Qed.

(** The table's maps but the entries stay. *)
Definition same_maps (t t' : NatTable) : Prop :=
  entries t' = entries t /\ per_user t' = per_user t /\ cells t' = cells t /\ next_id t' = next_id t.
#[export] Instance same_maps_refl : Reflexive same_maps.
Proof. by split. Qed.
#[export] Instance same_maps_trans : Transitive same_maps.
Proof. intros t1 t2 t3 (H1 & H2 & H3 & H4) (H5 & H6 & H7 & H8). split_and!; congruence. Qed.
Lemma same_try_get t t' k : same_maps t t' -> try_get t' k = try_get t k.
Proof. intros (He & _ & Hc & _). unfold try_get. by rewrite He, Hc. Qed.
Lemma update_same t e f : same_maps t (update_nat t e f).
Proof. done. Qed.

Lemma reattach_spec keys : forall t sender coding stream t' kept, reattach_parked_nat_keys t keys sender coding stream = (t', kept) ->
  same_maps t t' /\ moves (nats t) (nats t') /\ kept = List.filter (contains t) keys /\
  forall e n', nats t' !! e = Some n' -> exists n, nats t !! e = Some n /\
    (n_active n' = n_active n \/
     (exists k, k ∈ keys /\ try_get t k = Some e) /\ s_session (n_active n') = Some (mkSession sender coding stream)).
Proof.
  induction keys as [|k keys IH]; intros t sender coding stream t' kept; cbn [reattach_parked_nat_keys List.filter].
  { intros [= <- <-]. split_and!; [done|done|done|]. intros e n' H. exists n'. auto. }
  unfold contains at 1. destruct (try_get t k) as [e0|] eqn:E0.
  - destruct (reattach_parked_nat_keys _ keys _ _ _) as [t1 rest] eqn:E1. intros [= <- <-].
    apply IH in E1 as (Hs & Hm & -> & Hn). split_and!.
    + by etrans; [apply update_same|exact Hs].
    + etrans; [|exact Hm]. apply moves_alter. intros. apply register_le.
    + f_equal. 
    + intros e n' He. destruct (Hn e n' He) as (n1 & H1 & Hc). cbn [update_nat set_nats nats] in H1.
      destruct (decide (e = e0)) as [->|Hne].
      * rewrite lookup_alter_eq in H1. destruct (nats t !! e0) as [n|] eqn:En; [|done]. injection H1 as <-. exists n. split; [done|]. right.
        destruct Hc as [->|[_ ->]]; (split; [exists k; split; [apply list_elem_of_here|done]|]); [|done].
        cbn. unfold slot_set. done.
      * rewrite lookup_alter_ne in H1 by done. exists n1. split; [done|]. destruct Hc as [->|[(k' & Hk & Ht) ->]]; [by left|right].
        split; [|done]. exists k'. split; [by apply list_elem_of_further|]. exact Ht.
  - intros H. apply IH in H as (Hs & Hm & -> & Hn). split_and!; [done|done|done|]. intros e n' He.
    destruct (Hn e n' He) as (n & H1 & [H2|[(k' & Hk & Ht) H2]]); exists n; split; auto. right. split; [|done].
    exists k'. split; [by apply list_elem_of_further|done].
Qed.
Lemma detach_spec keys : forall t stream t' kept, detach_keys t stream keys = (t', kept) ->
  same_maps t t' /\ moves (nats t) (nats t') /\ (forall k, k ∈ kept -> k ∈ keys) /\
  forall e n', nats t' !! e = Some n' -> exists n, nats t !! e = Some n /\
    (s_session (n_active n') = None \/ s_session (n_active n') = s_session (n_active n)) /\
    ((exists k, k ∈ keys /\ try_get t k = Some e) -> forall a, s_session (n_active n') = Some a -> a_stream a <> stream).
Proof.
  induction keys as [|k keys IH]; intros t stream t' kept; cbn [detach_keys].
  { intros [= <- <-]. split_and!; [done|done|done|]. intros e n' H. exists n'. split_and!; auto. intros (k & Hk & _). by apply elem_of_nil in Hk. }
  destruct (try_get t k) as [e0|] eqn:E0; cbn [mbind option_bind].
  2: { intros H. apply IH in H as (Hs & Hm & Hk & Hn). split_and!; [done|done|intros; apply list_elem_of_further; auto|].
       intros e n' He. destruct (Hn e n' He) as (n & H1 & H2 & H3). exists n. split_and!; [done..|]. intros (k' & Hk' & Ht). apply H3.
       apply elem_of_cons in Hk' as [->|Hk']; [congruence|eauto]. }
  destruct (nats t !! e0) as [n0|] eqn:En; cbn [mbind option_bind].
  2: { intros H. apply IH in H as (Hs & Hm & Hk & Hn). split_and!; [done|done|intros; apply list_elem_of_further; auto|].
       intros e n' He. destruct (Hn e n' He) as (n & H1 & H2 & H3). exists n. split_and!; [done..|]. intros (k' & Hk' & Ht). apply H3.
       apply elem_of_cons in Hk' as [->|Hk']; [congruence|eauto]. }
  destruct (detach_session_for_stream n0 stream) as [n1 b] eqn:Ed. pose proof (detach_le _ _ _ _ Ed) as Hle. destruct b.
  - destruct (detach_keys _ stream keys) as [t1 rest] eqn:E1. intros [= <- <-]. apply IH in E1 as (Hs & Hm & Hk & Hn). split_and!.
    + by etrans; [|exact Hs].
    + etrans; [|exact Hm]. by eapply moves_insert.
    + intros k' [->|Hk']%elem_of_cons; [apply list_elem_of_here|apply list_elem_of_further; auto].
    + assert (s_session (n_active n1) = None) as Hnone.
      { revert Ed. unfold detach_session_for_stream. destruct (s_session (n_active n0)); [|done]. case_bool_decide; [|done]. by intros [= <-]. }
      intros e n' He. destruct (Hn e n' He) as (n2 & H1 & H2 & H3). cbn [set_nats nats] in H1. destruct (decide (e = e0)) as [->|Hne].
      * rewrite lookup_insert_eq in H1. injection H1 as <-. exists n0. split; [done|].
        assert (s_session (n_active n') = None) as Hn' by (destruct H2 as [H2|H2]; congruence). split; [by left|]. intros _ a Ha. congruence.
      * rewrite lookup_insert_ne in H1 by done. exists n2. split_and!; [done..|]. intros (k' & Hk' & Ht). apply H3.
        apply elem_of_cons in Hk' as [->|Hk']; [congruence|]. exists k'. split; [done|exact Ht].
  - intros H. apply IH in H as (Hs & Hm & Hk & Hn). split_and!; [done|done|intros; apply list_elem_of_further; auto|].
    intros e n' He. destruct (Hn e n' He) as (n & H1 & H2 & H3). exists n. split_and!; [done..|]. intros (k' & Hk' & Ht) a Ha.
    apply elem_of_cons in Hk' as [->|Hk']; [|by eapply H3; [exists k'|]]. assert (e = e0) as -> by congruence.
    destruct H2 as [H2|H2]; [congruence|]. rewrite En in H1. injection H1 as <-. rewrite H2 in Ha. revert Ed.
    unfold detach_session_for_stream. rewrite Ha. case_bool_decide; [done|]. intros _. done.
Qed.

(** ** How the table grows *)
Definition table_below (t : NatTable) : Prop :=
  (forall e n, nats t !! e = Some n -> e < next_id t) /\ (forall c o, cells t !! c = Some o -> c < next_id t).
Record table_grows (t t' : NatTable) : Prop := {
  tg_old e n : nats t !! e = Some n -> exists n', nats t' !! e = Some n' /\ nat_le n n';
  tg_new e n' : nats t' !! e = Some n' -> nats t !! e = None -> s_session (n_active n') = None /\ n_next_packet_id n' = 0%Z;
  tg_next : next_id t <= next_id t'
}.
Lemma grows_moves t t' : moves (nats t) (nats t') -> next_id t <= next_id t' -> table_grows t t'.
Proof.
  intros H Hn. split; [| |done].
  - intros e n He. pose proof (moves_lookup _ _ e H) as Hm. rewrite He in Hm. destruct (nats t' !! e); [eauto|done].
  - intros e n' He He0. pose proof (moves_lookup _ _ e H) as Hm. by rewrite He, He0 in Hm.
Qed.
#[export] Instance table_grows_refl : Reflexive table_grows.
Proof. intros t. by apply grows_moves. Qed.
Lemma below_maps t t' : same_maps t t' -> moves (nats t) (nats t') -> table_below t -> table_below t'.
Proof.
  intros (_ & _ & Hc & Hn) Hm [H1 H2]. split; [|by rewrite Hc, Hn]. intros e n He. rewrite Hn. pose proof (moves_lookup _ _ e Hm) as H.
  rewrite He in H. destruct (nats t !! e) eqn:E; [eauto|done].
Qed.
Lemma update_grows t e f : (forall n, nat_le n (f n)) -> table_grows t (update_nat t e f).
Proof. intros Hf. apply grows_moves; [by apply moves_alter|done]. Qed.
Lemma update_below t e f : (forall n, nat_le n (f n)) -> table_below t -> table_below (update_nat t e f).
Proof. intros Hf. apply below_maps; [apply update_same|by apply moves_alter]. Qed.

(** The table but its counters. *)
Definition same_but_counts (t t' : NatTable) : Prop := entries t' = entries t /\ cells t' = cells t /\ nats t' = nats t /\ next_id t' = next_id t.
Lemma user_reserve_same limits t u : same_but_counts t (reserve_user_slot limits t u).1.
Proof. unfold reserve_user_slot. repeat case_match; done. Qed.
Lemma user_release_same limits t u : same_but_counts t (release_user_slot limits t u).
Proof. unfold release_user_slot. repeat case_match; done. Qed.
Lemma counts_grow t t' : same_but_counts t t' -> table_grows t t'.
Proof. intros (_ & _ & Hn & Hi). apply grows_moves; [by rewrite Hn|by rewrite Hi]. Qed.
Lemma counts_below t t' : same_but_counts t t' -> table_below t -> table_below t'.
Proof. intros (_ & Hc & Hn & Hi) [H1 H2]. split; by rewrite ?Hc, ?Hn, Hi. Qed.

Lemma create_entry_fresh key ss b en now n : create_entry key ss b en now = Some n ->
  n_key n = key /\ s_session (n_active n) = None /\ n_next_packet_id n = 0%Z.
Proof.
  unfold create_entry. destruct b, ss; cbn [negb]; try done; [by intros [= <-]|]. destruct en; [|done]. by intros [= <-].
Qed.
(** What a step of [get_or_create] leaves. *)
Inductive creation (t : NatTable) (key : NatKey) : CreatorPc -> NatTable -> CreatorPc -> Prop :=
  | cr_same pc t' pc' : same_but_counts t t' -> (forall c, pc' = CInit c -> entries t !! key = Some c) ->
      (forall e, pc' = CDone (Ok e) -> exists c, pc = CInit c /\ cells t !! c = Some (Some e)) -> creation t key pc t' pc'
  | cr_insert t' : entries t !! key = None -> t' = mkTable (<[key := next_id t]> (entries t)) (per_user t) (<[next_id t := None]> (cells t))
                                                     (nats t) (S (next_id t)) -> creation t key CInsert t' (CInit (next_id t))
  | cr_fill c n t' : n_key n = key -> s_session (n_active n) = None -> n_next_packet_id n = 0%Z ->
      t' = mkTable (entries t) (per_user t) (<[c := Some (next_id t)]> (cells t)) (<[next_id t := n]> (nats t)) (S (next_id t)) ->
      creation t key (CInit c) t' (CDone (Ok (next_id t)))
  | cr_stay r : creation t key (CDone r) t (CDone r).
Lemma create_step_creation limits t key ss b en now pc t' pc' : create_step limits t key ss b en now pc = (t', pc') -> creation t key pc t' pc'.
Proof.
  destruct pc as [| | | |c|r]; cbn [create_step]; intros H.
  - injection H as <- <-. apply cr_same; [done|intros c; by destruct (entries t !! key); intros [= ->]|intros e; by destruct (entries t !! key)].
  - destruct (_ && _) in H; injection H as <- <-; by apply cr_same.
  - pose proof (user_reserve_same limits t (k_user key)) as Hs. destruct (reserve_user_slot _ _ _) as [t1 ok]. injection H as <- <-.
    apply cr_same; [done| |]; by destruct ok.
  - destruct (entries t !! key) as [c|] eqn:E; injection H as <- <-.
    + apply cr_same; [apply user_release_same|by intros c' [= ->]|done].
    + by apply cr_insert.
  - destruct (cells t !! c) as [[e|]|] eqn:E; [|destruct (create_entry key ss b en now) as [n|] eqn:En..].
    + injection H as <- <-. apply cr_same; [done|done|]. intros e' [= ->]. eauto.
    + injection H as <- <-. apply create_entry_fresh in En as (Hk & Hs & Hp). by eapply cr_fill.
    + injection H as <- <-. by apply cr_same.
    + injection H as <- <-. apply create_entry_fresh in En as (Hk & Hs & Hp). by eapply cr_fill.
    + injection H as <- <-. by apply cr_same.
  - injection H as <- <-. apply cr_stay.
Qed.
Lemma creation_grows t key pc t' pc' : table_below t -> (forall c, pc = CInit c -> c < next_id t) -> creation t key pc t' pc' -> table_grows t t' /\ table_below t'.
Proof.
  intros [Hn Hc] Hpc. destruct 1 as [pc t' pc' Hs _ _|t' _ ->|c n t' Hk Hse Hp ->|r].
  - split; [by apply counts_grow|]. eapply counts_below; [exact Hs|by split].
  - split; [apply grows_moves; [reflexivity|cbn; lia]|]. split; cbn [nats cells next_id].
    + intros e n He. apply Hn in He. lia.
    + intros c o [[<- _]|[_ H]]%lookup_insert_Some; [lia|]. apply Hc in H. lia.
  - assert (nats t !! next_id t = None) as Hfree by (destruct (nats t !! next_id t) eqn:E; [apply Hn in E; lia|done]).
    split; [split; cbn [nats next_id]; [| |lia]|split; cbn [nats cells next_id]].
    + intros e n0 He. exists n0. split; [|done]. rewrite lookup_insert_ne; [done|]. intros <-. congruence.
    + intros e n' [[<- <-]|[_ H]]%lookup_insert_Some H0; [done|congruence].
    + intros e n0 [[<- _]|[_ H]]%lookup_insert_Some; [lia|]. apply Hn in H. lia.
    + intros c' o [[<- _]|[_ H]]%lookup_insert_Some; [|apply Hc in H; lia]. specialize (Hpc c eq_refl). lia.
  - split; [done|by split].
Qed.

(** ** Resumption and teardown *)
Section registry.
Context (iter : gmap SessionId ParkedEntry -> list (SessionId * ParkedEntry)).

Lemma take_hit r now id user r' p : try_take_committed iter r now id user = (r', Some (Hit p)) ->
  exists e, by_id r !! id = Some e /\ owner e = user /\ parked e = p.
Proof.
  unfold try_take_committed. destruct (by_id r !! id) as [e|] eqn:E; [|done]. destruct (_ <=? _)%Z; [done|].
  case_bool_decide as Ho; cbn [negb]; [|done]. intros [= _ <-]. eauto.
Qed.
Lemma by_id_park r now id p id' e : by_id (park iter r now id p) !! id' = Some e ->
  by_id r !! id' = Some e \/ id' = id /\ owner e = parked_owner p /\ parked e = p.
Proof.
  unfold park. destruct (enabled (config r)); cbn [negb]; [|auto]. rewrite by_id_refresh. cbn [by_id set_by_id].
  intros [[<- <-]|[_ H]]%lookup_insert_Some; [by right|left].
  eapply lookup_weaken; [|apply (by_id_park_per_user r id)]. eapply lookup_weaken; [exact H|apply by_id_park_global].
Qed.
Lemma by_id_reservation r id n : by_id (set_reservations r id n) = by_id r.
Proof. done. Qed.

(** The slot of an entry: as before, or handed to a stream by a resume of one of [keys]. *)
Definition resumed (t : NatTable) (keys : list NatKey) (i : nat) (coding : UdpResponseCoding) (e : nat) (n n' : NatEntry) : Prop :=
  n_active n' = n_active n \/
  (exists k, k ∈ keys /\ try_get t k = Some e) /\ s_session (n_active n') = Some (mkSession i coding i).
Definition parked_for (r : OrphanRegistry) (user : bytes) (keys : list NatKey) : Prop :=
  keys = [] \/ exists id e o, by_id r !! id = Some e /\ owner e = user /\ parked e = SsUdpStream o keys.
Record resolved (t : NatTable) (r : OrphanRegistry) (s : UdpSession) (i : nat) (user : bytes) (coding : UdpResponseCoding)
    (t' : NatTable) (r' : OrphanRegistry) (s' : UdpSession) (keys : list NatKey) : Prop := {
  rv_maps : same_maps t t';
  rv_moves : moves (nats t) (nats t');
  rv_registry : by_id r' ⊆ by_id r;
  rv_user : us_user s' = us_user s;
  rv_closed : us_closed s' = us_closed s;
  rv_parked : parked_for r user keys;
  rv_keys : sk_keys (us_keys s') = sk_keys (us_keys s) ∪ list_to_set (List.filter (contains t) keys);
  rv_slots e n' : nats t' !! e = Some n' -> exists n, nats t !! e = Some n /\ resumed t keys i coding e n n'
}.
Lemma resolved_nothing t r s i user coding r' s' : by_id r' ⊆ by_id r -> us_user s' = us_user s -> us_closed s' = us_closed s ->
  us_keys s' = us_keys s -> resolved t r s i user coding t r' s' [].
Proof.
  intros Hr Hu Hc Hk. split; try done; [by left|rewrite Hk; cbn; by rewrite union_empty_r_L|]. intros e n' He. exists n'. split; [done|by left].
Qed.
Lemma filter_length_0 {A} (f : A -> bool) l : length (List.filter f l) = 0 -> forall x, x ∈ l -> f x = false.
Proof. intros H x Hx%list_elem_of_In. destruct (f x) eqn:E; [|done]. exfalso. assert (In x (List.filter f l)) as Hin by (by apply filter_In). by destruct (List.filter f l). Qed.
Lemma resolve_spec t r s i user coding now t' r' s' scope :
  resolve_nat_scope iter t r s i user coding now = (t', r', s', scope) -> exists keys, resolved t r s i user coding t' r' s' keys.
Proof.
  unfold resolve_nat_scope. destruct (enabled (config r)); cbn [negb]; [|intros [= <- <- <- _]; exists []; by apply resolved_nothing].
  destruct (us_pending_resume s) as [id|]; [|intros [= <- <- <- _]; exists []; by apply resolved_nothing].
  pose proof (by_id_take iter r now id user) as Hsub. destruct (try_take_committed iter r now id user) as [r1 out] eqn:Et. cbn [fst] in Hsub.
  destruct out as [[p|m]|]; [|intros [= <- <- <- _]; exists []; by apply resolved_nothing..].
  destruct p as [| | |o keys]; try (intros [= <- <- <- _]; exists []; by apply resolved_nothing).
  apply take_hit in Et as (e & He & Ho & Hp).
  destruct (reattach_parked_nat_keys t keys i coding i) as [t1 kept] eqn:Er. apply reattach_spec in Er as (Hs & Hm & -> & Hn).
  assert (parked_for r user keys) as Hpk by (right; by exists id, e, o).
  destruct (Nat.ltb_spec 0 (length (List.filter (contains t) keys))) as [Hl|Hl]; intros [= <- <- <- _]; exists keys; split; try done.
  assert (length (List.filter (contains t) keys) = 0) as H0 by lia. apply length_zero_iff_nil in H0. rewrite H0. cbn. by rewrite union_empty_r_L.
Qed.

Record released (t : NatTable) (r : OrphanRegistry) (s : UdpSession) (i : nat) (t' : NatTable) (r' : OrphanRegistry) (s' : UdpSession) : Prop := {
  rl_maps : same_maps t t';
  rl_moves : moves (nats t) (nats t');
  rl_user : us_user s' = us_user s;
  rl_keys : sk_keys (us_keys s') = ∅;
  rl_slots e n' : nats t' !! e = Some n' -> exists n, nats t !! e = Some n /\
    (s_session (n_active n') = None \/ s_session (n_active n') = s_session (n_active n)) /\
    ((exists k, k ∈ sk_keys (us_keys s) /\ try_get t k = Some e) -> forall a, s_session (n_active n') = Some a -> a_stream a <> i);
  rl_registry id e : by_id r' !! id = Some e -> by_id r !! id = Some e \/
    exists o ks, parked e = SsUdpStream o ks /\ owner e = o /\ us_user s = Some o /\ forall k, k ∈ ks -> k ∈ sk_keys (us_keys s)
}.
Lemma teardown_spec t r s i now t' r' s' : release_ss_udp_stream_on_drop iter t r s i now = (t', r', s') -> released t r s i t' r' s'.
Proof.
  unfold release_ss_udp_stream_on_drop. set (pt := (_ ← us_issued s; _) : option _). cbn [take_keys].
  set (r1 := match pt with Some (id, _) => reserve_park r id | None => r end).
  assert (by_id r1 = by_id r) as H1 by (unfold r1, reserve_park; destruct pt as [[id o]|]; [|done]; by repeat case_match).
  case_bool_decide as Hk.
  - intros [= <- <- <-]. split; try done.
    + intros e n' He. exists n'. split; [done|]. split; [by right|]. intros (k & Hin & _). by rewrite Hk in Hin.
    + intros id e. destruct pt as [[]|]; cbn [by_id set_reservations]; rewrite H1; by left.
  - destruct (detach_stream_nat_keys t i (sk_keys (us_keys s))) as [t1 detached] eqn:Ed. unfold detach_stream_nat_keys in Ed.
    apply detach_spec in Ed as (Hs & Hm & Hkept & Hn).
    assert (forall e n', nats t1 !! e = Some n' -> exists n, nats t !! e = Some n /\
      (s_session (n_active n') = None \/ s_session (n_active n') = s_session (n_active n)) /\
      ((exists k, k ∈ sk_keys (us_keys s) /\ try_get t k = Some e) -> forall a, s_session (n_active n') = Some a -> a_stream a <> i)) as Hslots.
    { intros e n' He. destruct (Hn e n' He) as (n & H2 & H3 & H4). exists n. split_and!; [done..|]. intros (k & Hin & Ht). apply H4. exists k.
      split; [by apply elem_of_elements|done]. }
    destruct pt as [[id o]|] eqn:Ept; [case_bool_decide as Hdet|]; intros [= <- <- <-]; split; try done; intros id' e; cbn [drop_reservation fst]; rewrite ?by_id_reservation.
    1, 3: rewrite H1; by left.
    intros H. apply by_id_park in H as [H|(-> & Ho & Hp)]; [left; by rewrite <- H1|right]. exists o, detached. split_and!; [done|done| |].
    + unfold pt in Ept. destruct (us_issued s); [|done]. cbn in Ept. destruct (enabled (config r)); [|done]. destruct (us_user s); [|done]. cbn in Ept, Ho. congruence.
    + intros k Hin. apply elem_of_elements, Hkept, Hin.
Qed.
End registry.
