(* ===== verification/UdpRelayRuns.v ===== *)
(** Runs of the UDP relay: what each step changes, and what holds in every
    reachable state. *)
From S2P Require Import Prelude ReplayStore Target NatKey Orphans Cipher Ss2022 StreamCrypto UdpCrypto NatTable UdpRelay UdpRelayFacts.
Local Open Scope nat_scope.

Section runs.
Context (seal : AeadKey -> bytes -> bytes -> option bytes) (hkdf_sha1 : bytes -> bytes -> bytes -> nat -> option bytes)
  (blake3_derive_xof : bytes -> bytes -> nat -> bytes) (xseal : bytes -> bytes -> bytes -> option bytes)
  (aes_encrypt_block : bytes -> bytes -> bytes)
  (iter : gmap SessionId ParkedEntry -> list (SessionId * ParkedEntry)) (limits : NatLimits) (idle_timeout : Z)
  (is_socket : nat -> bool) (prefer_ipv4_upstream : bool).
Local Abbreviation step :=
  (world_step seal hkdf_sha1 blake3_derive_xof xseal aes_encrypt_block iter limits idle_timeout is_socket prefer_ipv4_upstream).
Local Abbreviation run :=
  (world_run seal hkdf_sha1 blake3_derive_xof xseal aes_encrypt_block iter limits idle_timeout is_socket prefer_ipv4_upstream).
Local Abbreviation read_step := (nat_reader_step seal hkdf_sha1 blake3_derive_xof xseal aes_encrypt_block is_socket).

(** ** What a step changes *)
(** Where a task may go without touching the shared state. *)
Definition plain_pc (k : Task) (pc : TaskPc) : Prop :=
  match pc with
  | TDone | TTouch _ | TResolve _ _ => True
  | TCreate key _ CLookup => k_user key = user_id (tk_user k)
  | TSend _ _ _ | TScope _ | TCreate _ _ _ | TRegister _ _ _ | TTrack _ _ _ => False
  end.
Definition plain_from (k : Task) : Prop := match tk_pc k with TScope _ | TResolve _ _ | TSend _ _ _ => True | _ => False end.
Definition after_create (key : NatKey) (payload : bytes) (pc : CreatorPc) : TaskPc :=
  match pc with CDone (Ok e) => TRegister key payload e | CDone (Err _) => TDone | _ => TCreate key payload pc end.
(** [Q]: what is known of the user of a datagram that comes. *)
Inductive effect (Q : UdpSession -> bytes -> Prop) (w : World) : World -> Prop :=
  | ef_none : effect Q w w
  | ef_open i issued pending : sessions w !! i = None -> effect Q w (with_session w i (session_new issued pending))
  | ef_arrive i s p index : sessions w !! i = Some s -> us_closed s = false -> Q s (user_id (pkt_user p)) ->
      effect Q w (with_tasks (with_session w i (us_authenticated s (user_id (pkt_user p)) index))
                  (tasks w ++ [mkTask i (pkt_user p) (coding_of p) (TScope (pkt_payload p))]))
  | ef_plain j k pc l : tasks w !! j = Some k -> is_Some (sessions w !! tk_stream k) -> plain_pc k pc -> plain_from k ->
      effect Q w (with_sent (with_tasks w (<[j := set_pc k pc]> (tasks w))) l)
  | ef_resolve j k d s keys t' r' s' scope : tasks w !! j = Some k -> tk_pc k = TScope d -> sessions w !! tk_stream k = Some s ->
      resolved (table w) (registry w) s (tk_stream k) (user_id (tk_user k)) (tk_coding k) t' r' s' keys ->
      effect Q w (with_tasks (with_session (with_registry (with_table w t') r') (tk_stream k) (us_set_scope s' scope))
                  (<[j := set_pc k (TResolve scope d)]> (tasks w)))
  | ef_create j k key payload pc t' pc' : tasks w !! j = Some k -> tk_pc k = TCreate key payload pc ->
      creation (table w) key pc t' pc' ->
      effect Q w (with_tasks (with_table w t') (<[j := set_pc k (after_create key payload pc')]> (tasks w)))
  | ef_register j k key payload e : tasks w !! j = Some k -> tk_pc k = TRegister key payload e ->
      effect Q w (with_tasks (with_table w (update_nat (table w) e (fun n => register_session n (tk_stream k) (tk_coding k) (tk_stream k))))
                  (<[j := set_pc k (TTrack key payload e)]> (tasks w)))
  | ef_track j k key payload e s : tasks w !! j = Some k -> tk_pc k = TTrack key payload e -> sessions w !! tk_stream k = Some s ->
      effect Q w (with_tasks (with_session w (tk_stream k) (us_set_keys s (track (us_keys s) key (contains (table w)))))
                  (<[j := set_pc k (TSend key payload e)]> (tasks w)))
  | ef_touch j k e now : tasks w !! j = Some k -> tk_pc k = TTouch e ->
      effect Q w (with_tasks (with_table w (update_nat (table w) e (fun n => touch n now))) (<[j := set_pc k TDone]> (tasks w)))
  | ef_upstream e n source data : nats (table w) !! e = Some n -> default RIdle (readers w !! e) = RIdle ->
      effect Q w (mkWorld (table w) (registry w) (sessions w) (tasks w) (<[e := RGot source data]> (readers w)) (to_release w) (sent_up w)
                  (sealed w) (delivered w))
  | ef_reader e n sent now entropy n' pc pid out : nats (table w) !! e = Some n ->
      read_step n (default RIdle (readers w !! e)) sent now entropy = (n', pc, pid, out) ->
      effect Q w (mkWorld (set_nats (table w) (<[e := n']> (nats (table w)))) (registry w) (sessions w) (tasks w) (<[e := pc]> (readers w))
                  (to_release w) (sent_up w)
                  (sealed w ++ match pid with Some pid => [(e, pid)] | None => [] end)
                  (delivered w ++ match out with Some (sender, coding, response) => [(e, sender, coding, response)] | None => [] end))
  | ef_close i s t' r' s' : sessions w !! i = Some s -> live_tasks w i = [] -> released (table w) (registry w) s i t' r' s' ->
      effect Q w (with_session (with_registry (with_table w t') r') i (us_close s'))
  | ef_registry r' : by_id r' ⊆ by_id (registry w) -> effect Q w (with_registry w r')
  | ef_sweep t' l : entries t' ⊆ entries (table w) -> cells t' = cells (table w) -> nats t' = nats (table w) -> next_id t' = next_id (table w) ->
      effect Q w (mkWorld t' (registry w) (sessions w) (tasks w) (readers w) l (sent_up w) (sealed w) (delivered w)).

Lemma with_sent_same w : with_sent w (sent_up w) = w.
Proof. by destruct w. Qed.
Lemma effect_plain Q w j k pc : tasks w !! j = Some k -> is_Some (sessions w !! tk_stream k) -> plain_pc k pc -> plain_from k ->
  effect Q w (with_tasks w (<[j := set_pc k pc]> (tasks w))).
Proof.
  intros H1 H2 H3 H4. rewrite <- (with_sent_same (with_tasks w _)). by apply ef_plain.
Qed.
Lemma task_effect Q w j k s env : tasks w !! j = Some k -> sessions w !! tk_stream k = Some s ->
  effect Q w (task_step iter limits prefer_ipv4_upstream w j k s env).
Proof.
  intros Hj Hs. assert (is_Some (sessions w !! tk_stream k)) as His by eauto. unfold task_step.
  destruct (tk_pc k) as [d|scope d|key payload pc|key payload e|key payload e|key payload e|e|] eqn:Epc;
    try assert (plain_from k) as Hfrom by (unfold plain_from; by rewrite Epc).
  - destruct (us_scope s) as [scope|]; [by apply effect_plain|].
    destruct (resolve_nat_scope _ _ _ _ _ _ _ _) as [[[t' r'] s'] scope] eqn:Er. apply resolve_spec in Er as [keys Hr].
    by apply (ef_resolve Q w j k d s keys).
  - apply effect_plain; try done. repeat case_match; done.
  - destruct (create_step _ _ _ _ _ _ _ _) as [t' pc'] eqn:Ec. apply create_step_creation in Ec. by apply (ef_create Q w j k key payload pc).
  - by apply (ef_register Q w j k).
  - by apply (ef_track Q w j k key payload e s).
  - destruct (_ <? _)%Z; [by apply effect_plain|]. destruct (e_sent env); [by apply (ef_plain Q w j k)|by apply effect_plain].
  - by eapply (ef_touch Q w j k).
  - apply ef_none.
Qed.
Definition arrives (Q : UdpSession -> bytes -> Prop) (w : World) (l : Label) : Prop :=
  match l with UArrive i p _ _ => forall s, sessions w !! i = Some s -> Q s (user_id (pkt_user p)) | _ => True end.
Lemma step_effect Q w l : arrives Q w l -> effect Q w (step w l).
Proof.
  intros Hq. destruct l as [i iss pend|i p index permit|j env|e source data|e sent now entropy|i now|now|now|]; cbn [world_step].
  - destruct (sessions w !! i) eqn:E; [apply ef_none|by apply ef_open].
  - destruct (sessions w !! i) as [s|] eqn:E; [|apply ef_none]. destruct (us_closed s) eqn:Ec; [apply ef_none|].
    destruct (_ || _); [apply ef_none|by apply ef_arrive; auto].
  - destruct (tasks w !! j) as [k|] eqn:Ej; [|apply ef_none]. destruct (sessions w !! tk_stream k) as [s|] eqn:Es; [|apply ef_none].
    by apply task_effect.
  - destruct (nats (table w) !! e) eqn:E; [|apply ef_none]. destruct (default RIdle (readers w !! e)) eqn:Er; try apply ef_none. by eapply ef_upstream.
  - destruct (nats (table w) !! e) as [n|] eqn:E; [|apply ef_none].
    destruct (nat_reader_step _ _ _ _ _ _ _ _ _ _ _) as [[[n' pc] pid] out] eqn:Er. by eapply ef_reader.
  - destruct (sessions w !! i) as [s|] eqn:E; [|apply ef_none]. destruct (us_closed s); [apply ef_none|]. cbn [orb].
    case_bool_decide as Hl; [|apply ef_none]. destruct (release_ss_udp_stream_on_drop _ _ _ _ _ _) as [[t' r'] s'] eqn:Er.
    apply teardown_spec in Er. by eapply ef_close.
  - apply ef_registry, by_id_sweep.
  - destruct (sweep_retain _ _ _ _) as [t' more] eqn:Es. unfold sweep_retain in Es. injection Es as <- <-. apply ef_sweep; try done.
    apply map_filter_subseteq.
  - destruct (to_release w) as [|u rest]; [apply ef_none|]. destruct (user_release_same limits (table w) u) as (He & Hc & Hn & Hi).
    by apply ef_sweep; [rewrite He|..].
Qed.

Lemma run_ind (P : World -> Prop) c ls : P (world_start c) -> (forall w w', P w -> effect (fun _ _ => True) w w' -> P w') -> P (run c ls).
Proof.
  intros H0 Hs. unfold world_run. generalize dependent (world_start c). induction ls as [|l ls IH]; intros w Hw; [done|].
  cbn [foldl]. apply IH. eapply Hs; [exact Hw|by apply step_effect; destruct l].
Qed.

(** ** The table is consistent, and a stream knows the entries that lead to it

    [owner_of c] is the key a cell was made for. *)
Definition has_key (t : NatTable) (e : nat) (key : NatKey) : Prop := exists n, nats t !! e = Some n /\ n_key n = key.
Definition task_ok (owner_of : nat -> NatKey) (w : World) (k : Task) : Prop :=
  (exists s, sessions w !! tk_stream k = Some s /\ us_closed s = false) /\
  match tk_pc k with
  | TCreate key _ (CInit c) => owner_of c = key /\ c < next_id (table w)
  | TCreate _ _ (CDone _) => False
  | TRegister key _ e | TTrack key _ e => has_key (table w) e key
  | _ => True
  end.
(** The stream knows that it has the entry, or is about to. *)
Definition known_to (w : World) (i : nat) (key : NatKey) (e : nat) : Prop :=
  (exists s, sessions w !! i = Some s /\ key ∈ sk_keys (us_keys s)) \/
  (exists j k payload, tasks w !! j = Some k /\ tk_stream k = i /\ tk_pc k = TTrack key payload e).
Record consistent (owner_of : nat -> NatKey) (w : World) : Prop := {
  co_below : table_below (table w);
  co_entries key c : entries (table w) !! key = Some c -> owner_of c = key /\ c < next_id (table w);
  co_filled c e : cells (table w) !! c = Some (Some e) -> has_key (table w) e (owner_of c);
  co_tasks j k : tasks w !! j = Some k -> running k = true -> task_ok owner_of w k;
  co_known key e n a : try_get (table w) key = Some e -> nats (table w) !! e = Some n -> s_session (n_active n) = Some a ->
    a_stream a = a_sender a /\ known_to w (a_stream a) key e;
  co_closed i s : sessions w !! i = Some s -> us_closed s = true -> sk_keys (us_keys s) = ∅
}.

Lemma has_key_grows t t' e key : table_grows t t' -> has_key t e key -> has_key t' e key.
Proof. intros Hg (n & He & <-). destruct (tg_old _ _ Hg _ _ He) as (n' & He' & Hle). exists n'. split; [done|apply Hle]. Qed.
Lemma try_get_some t key e : try_get t key = Some e <-> exists c, entries t !! key = Some c /\ cells t !! c = Some (Some e).
Proof.
  unfold try_get. destruct (entries t !! key) as [c|]; cbn; [|by split; [|intros (? & ? & _)]].
  split; [|by intros (c' & [= <-] & ->)]. destruct (cells t !! c) as [[e'|]|] eqn:E; cbn; [|done..]. intros [= ->]. eauto.
Qed.
Lemma consistent_key f w key e : consistent f w -> try_get (table w) key = Some e -> has_key (table w) e key.
Proof.
  intros Hc (c & H1 & H2)%try_get_some. destruct (co_entries _ _ Hc _ _ H1) as [<- _]. by apply (co_filled _ _ Hc).
Qed.
(** Two keys of one entry are one. *)
Lemma consistent_inj f w key key' e : consistent f w -> try_get (table w) key = Some e -> has_key (table w) e key' -> key = key'.
Proof. intros Hc H (n & H1 & <-). destruct (consistent_key _ _ _ _ Hc H) as (n' & H2 & <-). congruence. Qed.

(** A task that runs keeps its stream open. *)
Lemma running_not_closed f w j k s : consistent f w -> tasks w !! j = Some k -> running k = true -> sessions w !! tk_stream k = Some s ->
  us_closed s = false.
Proof. intros Hc H1 H2 H3. destruct (co_tasks _ _ Hc _ _ H1 H2) as [(s' & H & ?) _]. congruence. Qed.

Definition keys_grow (t t' : NatTable) : Prop := (forall e key, has_key t e key -> has_key t' e key) /\ next_id t <= next_id t'.
Lemma grows_keys t t' : table_grows t t' -> keys_grow t t'.
Proof. intros H. split; [intros e key; by apply has_key_grows|apply H]. Qed.
Lemma keys_grow_refl t t' : t' = t -> keys_grow t t'.
Proof. intros ->. by split. Qed.
Lemma task_ok_mono f f' w w' k : keys_grow (table w) (table w') -> (forall c, c < next_id (table w) -> f' c = f c) ->
  (forall s, sessions w !! tk_stream k = Some s -> us_closed s = false -> exists s', sessions w' !! tk_stream k = Some s' /\ us_closed s' = false) ->
  task_ok f w k -> task_ok f' w' k.
Proof.
  intros Hg Hf Hs [(s & H1 & H2) Hpc]. split; [eauto|]. destruct (tk_pc k) as [| |key p []|key p e|key p e| | |]; try done.
  - destruct Hpc as [<- Hc]. split; [by apply Hf|]. destruct Hg as [_ Hg]. lia.
  - by apply Hg.
  - by apply Hg.
Qed.
(** The same stream's state, but its keys. *)
Definition sessions_kept (w w' : World) : Prop :=
  forall i s, sessions w !! i = Some s -> exists s', sessions w' !! i = Some s' /\ us_closed s' = us_closed s.
Lemma tasks_ok_insert f f' w w' j k' : tasks w' = <[j := k']> (tasks w) -> keys_grow (table w) (table w') ->
  (forall c, c < next_id (table w) -> f' c = f c) -> sessions_kept w w' ->
  (forall j k, tasks w !! j = Some k -> running k = true -> task_ok f w k) -> (running k' = true -> task_ok f' w' k') ->
  forall j k, tasks w' !! j = Some k -> running k = true -> task_ok f' w' k.
Proof.
  intros Ht Hg Hf Hs Hall Hk j1 k1. rewrite Ht. intros [(-> & <- & _)|[_ H]]%list_lookup_insert_Some Hr; [auto|].
  eapply task_ok_mono; [done|done| |by eapply Hall]. intros s H1 H2. destruct (Hs _ _ H1) as (s' & H3 & H4). exists s'. split; congruence.
Qed.
Definition keys_kept (w w' : World) (key : NatKey) : Prop :=
  forall i s, sessions w !! i = Some s -> key ∈ sk_keys (us_keys s) -> exists s', sessions w' !! i = Some s' /\ key ∈ sk_keys (us_keys s').
Lemma known_insert w w' j k k' i key e : tasks w !! j = Some k -> tasks w' = <[j := k']> (tasks w) ->
  (forall payload, tk_pc k <> TTrack key payload e) -> keys_kept w w' key -> known_to w i key e -> known_to w' i key e.
Proof.
  intros Hj Ht Hpc Hk [(s & H1 & H2)|(j1 & k1 & p & H1 & H2 & H3)]; [left; by eapply Hk|right].
  exists j1, k1, p. split_and!; [|done..]. rewrite Ht. rewrite list_lookup_insert_ne; [done|]. intros ->. rewrite Hj in H1. injection H1 as ->.
  by eapply Hpc.
Qed.
Lemma sessions_kept_refl w w' : sessions w' = sessions w -> sessions_kept w w'.
Proof. intros H i s. rewrite H. eauto. Qed.
Lemma keys_kept_refl w w' key : sessions w' = sessions w -> keys_kept w w' key.
Proof. intros H i s. rewrite H. eauto. Qed.
Lemma sessions_kept_insert w w' i s s' : sessions w !! i = Some s -> sessions w' = <[i := s']> (sessions w) -> us_closed s' = us_closed s ->
  sessions_kept w w'.
Proof.
  intros Hi Hw Hc i1 s1 H1. rewrite Hw. destruct (decide (i1 = i)) as [->|Hne]; [rewrite lookup_insert_eq|rewrite lookup_insert_ne by done; eauto].
  exists s'. split; congruence.
Qed.
Lemma keys_kept_insert w w' key i s s' : sessions w !! i = Some s -> sessions w' = <[i := s']> (sessions w) ->
  (key ∈ sk_keys (us_keys s) -> key ∈ sk_keys (us_keys s')) -> keys_kept w w' key.
Proof.
  intros Hi Hw Hc i1 s1 H1 H2. rewrite Hw. destruct (decide (i1 = i)) as [->|Hne]; [rewrite lookup_insert_eq|rewrite lookup_insert_ne by done; eauto].
  exists s'. split; [done|]. apply Hc. congruence.
Qed.

(** Steps that leave the table and the streams' keys alone. *)
Lemma consistent_frame f w w' : consistent f w -> table w' = table w ->
  (forall i s', sessions w' !! i = Some s' -> us_closed s' = true -> sk_keys (us_keys s') = ∅) ->
  (forall j k, tasks w' !! j = Some k -> running k = true -> task_ok f w' k) ->
  (forall i key e, known_to w i key e -> known_to w' i key e) -> consistent f w'.
Proof.
  intros [H1 H2 H3 H4 H5 H6] Ht Hs Hk Hn. split; rewrite ?Ht; try done. intros key e n a Ha Hb Hc. destruct (H5 key e n a Ha Hb Hc). auto.
Qed.

Lemma session_fresh w i s : sessions w !! i = None -> sessions_kept w (with_session w i s) /\ forall key, keys_kept w (with_session w i s) key.
Proof.
  intros Hi. split; [intros i1 s1 H1|intros key i1 s1 H1 H2]; cbn [sessions with_session];
    (destruct (decide (i1 = i)) as [->|Hne]; [congruence|rewrite lookup_insert_ne by done; eauto]).
Qed.
Lemma known_tasks w w' i key e : tasks w' = tasks w -> keys_kept w w' key -> known_to w i key e -> known_to w' i key e.
Proof.
  intros Ht Hk [(s & H1 & H2)|(j & k & p & H1 & H2 & H3)]; [left; by eapply Hk|right]. exists j, k, p. by rewrite Ht.
Qed.
Lemma consistent_open f w i issued pending : sessions w !! i = None -> consistent f w -> consistent f (with_session w i (session_new issued pending)).
Proof.
  intros Hi Hc. destruct (session_fresh w i (session_new issued pending) Hi) as [Hs Hk]. apply (consistent_frame f w); [done|done| | |].
  - intros i1 s1; cbn [sessions with_session with_tasks]; intros [[<- <-]|[_ H]]%lookup_insert_Some; [done|by apply (co_closed _ _ Hc i1)].
  - intros j k Hj Hr. apply (task_ok_mono f f w); [by apply keys_grow_refl|done| |by apply (co_tasks _ _ Hc j)].
    intros s H1 H2. destruct (Hs _ _ H1) as (s' & H3 & H4). exists s'. split; congruence.
  - intros i1 key e. apply known_tasks; [done|apply Hk].
Qed.
Lemma consistent_arrive f w i s p index : sessions w !! i = Some s -> us_closed s = false -> consistent f w ->
  consistent f (with_tasks (with_session w i (us_authenticated s (user_id (pkt_user p)) index))
                  (tasks w ++ [mkTask i (pkt_user p) (coding_of p) (TScope (pkt_payload p))])).
Proof.
  intros Hi Hcl Hc. set (s' := us_authenticated _ _ _). set (w' := with_tasks _ _).
  assert (sessions_kept w w') as Hs by by apply (sessions_kept_insert w w' i s s').
  assert (forall key, keys_kept w w' key) as Hk by (intros key; by apply (keys_kept_insert w w' key i s s')).
  apply (consistent_frame f w); [done|done| | |].
  - intros i1 s1; unfold w'; cbn [sessions with_session with_tasks]; intros [[<- <-]|[_ H]]%lookup_insert_Some; [by cbn; rewrite Hcl|by apply (co_closed _ _ Hc i1)].
  - intros j k; unfold w' at 1; cbn [tasks with_tasks]; intros [Hj|(Hlen & Hj)]%lookup_app_Some Hr.
    + apply (task_ok_mono f f w); [by apply keys_grow_refl|done| |by apply (co_tasks _ _ Hc j)].
      intros s1 H1 H2. destruct (Hs _ _ H1) as (s2 & H3 & H4). exists s2. split; congruence.
    + apply list_lookup_singleton_Some in Hj as [_ <-]. split; [|done]. exists s'. split; [by apply lookup_insert_eq|done].
  - intros i1 key e [(s1 & H1 & H2)|(j & k & q & H1 & H2 & H3)]; [left; by eapply Hk|right]. exists j, k, q. split; [|done].
    by apply lookup_app_l_Some.
Qed.
Lemma consistent_plain f w j k pc l : tasks w !! j = Some k -> plain_pc k pc -> plain_from k -> consistent f w -> consistent f (with_sent (with_tasks w (<[j := set_pc k pc]> (tasks w))) l).
Proof.
  intros Hj Hpc Hfrom Hc. assert (running k = true) as Hr by (unfold running; unfold plain_from in Hfrom; by destruct (tk_pc k)).
  apply (consistent_frame f w); [done|done|apply (co_closed _ _ Hc)| |].
  - apply (tasks_ok_insert f f w _ j (set_pc k pc)); [done|by apply keys_grow_refl|done|by apply sessions_kept_refl|apply (co_tasks _ _ Hc)|].
    intros _. destruct (co_tasks _ _ Hc _ _ Hj Hr) as [H _]. split; [exact H|]. cbn [set_pc tk_pc]. destruct pc as [| |key p []| | | | |]; done.
  - intros i key e. apply (known_insert w _ j k (set_pc k pc)); [done|done|intros p; unfold plain_from in Hfrom; by destruct (tk_pc k)|by apply keys_kept_refl].
Qed.

(** Steps that leave the cells. *)
Lemma consistent_slots f w w' : consistent f w -> same_maps (table w) (table w') -> keys_grow (table w) (table w') -> table_below (table w') ->
  (forall j k, tasks w' !! j = Some k -> running k = true -> task_ok f w' k) ->
  (forall i s', sessions w' !! i = Some s' -> us_closed s' = true -> sk_keys (us_keys s') = ∅) ->
  (forall key e n a, try_get (table w) key = Some e -> nats (table w') !! e = Some n -> s_session (n_active n) = Some a ->
     a_stream a = a_sender a /\ known_to w' (a_stream a) key e) -> consistent f w'.
Proof.
  intros Hc Hm [Hk _] Hb Ht Hs Hn. pose proof Hm as (He & _ & Hce & Hi). split; [done|rewrite He, Hi; apply Hc|rewrite Hce|done| |done].
  - intros c e H. apply Hk. by apply (co_filled _ _ Hc).
  - intros key e n a. rewrite (same_try_get _ _ _ Hm). apply Hn.
Qed.
Lemma moves_keys t t' : moves (nats t) (nats t') -> same_maps t t' -> keys_grow t t'.
Proof. intros Hm (_ & _ & _ & Hi). apply grows_keys, grows_moves; [done|lia]. Qed.
(** The streams but one, that goes on open. *)
Lemma closed_insert f w i s' : consistent f w -> us_closed s' = false -> forall i1 s1, <[i := s']> (sessions w) !! i1 = Some s1 ->
  us_closed s1 = true -> sk_keys (us_keys s1) = ∅.
Proof. intros Hc Hs i1 s1 [[<- <-]|[_ H]]%lookup_insert_Some; [congruence|by apply (co_closed _ _ Hc i1)]. Qed.

Lemma consistent_resolve f w j k d s keys t' r' s' scope : tasks w !! j = Some k -> tk_pc k = TScope d -> sessions w !! tk_stream k = Some s ->
  resolved (table w) (registry w) s (tk_stream k) (user_id (tk_user k)) (tk_coding k) t' r' s' keys -> consistent f w ->
  consistent f (with_tasks (with_session (with_registry (with_table w t') r') (tk_stream k) (us_set_scope s' scope))
                  (<[j := set_pc k (TResolve scope d)]> (tasks w))).
Proof.
  intros Hj Hpc Hi Hr Hc. set (w' := with_tasks _ _). assert (running k = true) as Hrun by (unfold running; by rewrite Hpc).
  assert (us_closed s' = false) as Hcl by (rewrite (rv_closed _ _ _ _ _ _ _ _ _ _ Hr); by apply (running_not_closed f w j k)).
  pose proof (rv_maps _ _ _ _ _ _ _ _ _ _ Hr) as Hm. pose proof (rv_moves _ _ _ _ _ _ _ _ _ _ Hr) as Hmv.
  assert (sessions_kept w w') as Hs.
  { apply (sessions_kept_insert w w' (tk_stream k) s (us_set_scope s' scope)); [done|done|apply Hr]. }
  apply (consistent_slots f w); [done|done|by apply moves_keys|eapply below_maps; [done..|apply Hc]| | |].
  - apply (tasks_ok_insert f f w _ j (set_pc k (TResolve scope d))); [done|by apply moves_keys|done|done|apply Hc|].
    intros _. split; [|done]. exists (us_set_scope s' scope). split; [apply lookup_insert_eq|done].
  - by apply (closed_insert f w).
  - intros key e n' a Hkey He Ha. destruct (rv_slots _ _ _ _ _ _ _ _ _ _ Hr e n' He) as (n & Hn & [Hact|[(key' & Hin & Hkey') Hact]]).
    + rewrite Hact in Ha. destruct (co_known _ _ Hc _ _ _ _ Hkey Hn Ha) as [Hst Hkn]. split; [done|].
      apply (known_insert w w' j k (set_pc k (TResolve scope d))); [done|done|by rewrite Hpc| |done].
      apply (keys_kept_insert w w' key (tk_stream k) s (us_set_scope s' scope)); [done|done|]. cbn [us_set_scope us_keys].
      rewrite (rv_keys _ _ _ _ _ _ _ _ _ _ Hr). set_solver.
    + rewrite Hact in Ha. injection Ha as <-. split; [done|]. left. exists (us_set_scope s' scope). split; [apply lookup_insert_eq|].
      cbn [us_set_scope us_keys]. rewrite (rv_keys _ _ _ _ _ _ _ _ _ _ Hr). apply elem_of_union_r, elem_of_list_to_set, list_elem_of_In, filter_In.
      assert (key = key') as <- by (eapply consistent_inj; [done|done|by eapply consistent_key]).
      split; [by apply list_elem_of_In|]. unfold contains. by rewrite Hkey.
Qed.
Lemma track_keeps s key is_live key' : key' ∈ sk_keys s \/ key' = key -> is_live key' = true -> key' ∈ sk_keys (track s key is_live).
Proof.
  intros H Hl. unfold track. destruct (_ <? _); cbn [sk_keys]; [set_solver|]. apply elem_of_filter. split; [done|set_solver].
Qed.
Lemma consistent_register f w j k key payload e : tasks w !! j = Some k -> tk_pc k = TRegister key payload e -> consistent f w ->
  consistent f (with_tasks (with_table w (update_nat (table w) e (fun n => register_session n (tk_stream k) (tk_coding k) (tk_stream k))))
                  (<[j := set_pc k (TTrack key payload e)]> (tasks w))).
Proof.
  intros Hj Hpc Hc. set (w' := with_tasks _ _). assert (running k = true) as Hrun by (unfold running; by rewrite Hpc).
  destruct (co_tasks _ _ Hc _ _ Hj Hrun) as [Hopen Hkey]. rewrite Hpc in Hkey.
  assert (moves (nats (table w)) (nats (table w'))) as Hmv by (apply moves_alter; intros; apply register_le).
  apply (consistent_slots f w); [done|done|by apply moves_keys|eapply below_maps; [|done|apply Hc]; done| |apply Hc|].
  - apply (tasks_ok_insert f f w _ j (set_pc k (TTrack key payload e))); [done|by apply moves_keys|done|by apply sessions_kept_refl|apply Hc|].
    intros _. split; [done|]. cbn [tk_pc set_pc]. by apply (moves_keys (table w) (table w')).
  - intros key0 e0 n' a H0 He Ha. cbn in He. destruct (decide (e0 = e)) as [->|Hne].
    + assert (key0 = key) as -> by (by eapply consistent_inj). destruct (nats (table w) !! e) as [n|] eqn:En; rewrite lookup_alter_eq, En in He; [|done].
      injection He as <-. injection Ha as <-. split; [done|]. right. exists j, (set_pc k (TTrack key payload e)), payload. split_and!; [|done..].
      apply list_lookup_insert_eq. by eapply lookup_lt_Some.
    + rewrite lookup_alter_ne in He by done. destruct (co_known _ _ Hc _ _ _ _ H0 He Ha) as [Hst Hkn]. split; [done|].
      apply (known_insert w w' j k (set_pc k (TTrack key payload e))); [done|done|by rewrite Hpc|by apply keys_kept_refl|done].
Qed.
Lemma consistent_track f w j k key payload e s : tasks w !! j = Some k -> tk_pc k = TTrack key payload e -> sessions w !! tk_stream k = Some s ->
  consistent f w ->
  consistent f (with_tasks (with_session w (tk_stream k) (us_set_keys s (track (us_keys s) key (contains (table w)))))
                  (<[j := set_pc k (TSend key payload e)]> (tasks w))).
Proof.
  intros Hj Hpc Hi Hc. set (s' := us_set_keys _ _). set (w' := with_tasks _ _).
  assert (running k = true) as Hrun by (unfold running; by rewrite Hpc).
  assert (us_closed s = false) as Hcl by (by eapply running_not_closed).
  assert (sessions_kept w w') as Hs by by apply (sessions_kept_insert w w' (tk_stream k) s s').
  apply (consistent_slots f w); [done|done|by apply keys_grow_refl|apply Hc| | |].
  - apply (tasks_ok_insert f f w _ j (set_pc k (TSend key payload e))); [done|by apply keys_grow_refl|done|done|apply Hc|].
    intros _. split; [|done]. exists s'. split; [apply lookup_insert_eq|done].
  - by apply (closed_insert f w).
  - intros key0 e0 n a H0 He Ha. destruct (co_known _ _ Hc _ _ _ _ H0 He Ha) as [Hst Hkn]. split; [done|].
    assert (contains (table w) key0 = true) as Hlive by (unfold contains; by rewrite H0).
    assert (forall i s0, sessions w !! i = Some s0 -> key0 ∈ sk_keys (us_keys s0) \/ i = tk_stream k /\ key0 = key ->
      known_to w' i key0 e0) as Hin.
    { intros i s0 H1 H2. left. unfold w'. cbn [sessions with_session with_tasks]. destruct (decide (i = tk_stream k)) as [->|Hne].
      - rewrite lookup_insert_eq. exists s'. split; [done|]. apply track_keeps; [|done]. destruct H2 as [H2|[_ H2]]; [left; congruence|by right].
      - rewrite lookup_insert_ne by done. exists s0. split; [done|]. by destruct H2 as [H2|[H2 _]]. }
    destruct Hkn as [(s0 & H1 & H2)|(j1 & k1 & p & H1 & H2 & H3)]; [apply (Hin _ s0); auto|]. destruct (decide (j1 = j)) as [->|Hne].
    + rewrite Hj in H1. injection H1 as <-. rewrite Hpc in H3. injection H3 as -> -> ->. rewrite <- H2. eapply Hin; [exact Hi|by right].
    + right. exists j1, k1, p. split; [|done]. unfold w'. cbn [tasks with_tasks]. by rewrite list_lookup_insert_ne.
Qed.

Lemma consistent_create f w j k key payload pc t' pc' : tasks w !! j = Some k -> tk_pc k = TCreate key payload pc ->
  creation (table w) key pc t' pc' -> consistent f w ->
  exists f', consistent f' (with_tasks (with_table w t') (<[j := set_pc k (after_create key payload pc')]> (tasks w))).
Proof.
  intros Hj Hpc Hcr Hc. set (k' := set_pc k _). assert (running k = true) as Hrun by (unfold running; by rewrite Hpc).
  destruct (co_tasks _ _ Hc _ _ Hj Hrun) as [Hopen Hok]. rewrite Hpc in Hok. set (w' := with_tasks _ _).
  assert (forall c, pc = CInit c -> c < next_id (table w)) as Hcell by (intros c ->; apply Hok).
  destruct (creation_grows _ _ _ _ _ (co_below _ _ Hc) Hcell Hcr) as [Hg Hb].
  assert (forall i key0 e, known_to w i key0 e -> known_to w' i key0 e) as Hkn.
  { intros i key0 e. apply (known_insert w w' j k k'); [done|done|by rewrite Hpc|by apply keys_kept_refl]. }
  assert (forall f', (forall c, c < next_id (table w) -> f' c = f c) -> (running k' = true -> task_ok f' w' k') ->
    forall j k, tasks w' !! j = Some k -> running k = true -> task_ok f' w' k) as Htasks.
  { intros f' Hf Hk. apply (tasks_ok_insert f f' w w' j k'); [done|by apply grows_keys|done|by apply sessions_kept_refl|apply Hc|done]. }
  destruct Hcr as [pc t' pc' Hs Hin Hdone|t' Hnone ->|c n t' Hk Hact _ ->|r]; [exists f| |exists f|done].
  - destruct Hs as (He & Hce & Hn & Hi). split; [done| | | |
      |apply Hc].
    + cbn [table w' with_tasks with_table]. rewrite He, Hi. apply Hc.
    + cbn [table w' with_tasks with_table]. rewrite Hce. intros c e H. unfold has_key. rewrite Hn. by apply (co_filled _ _ Hc).
    + apply Htasks; [done|]. intros _. split; [done|]. unfold k'. cbn [tk_pc set_pc]. destruct pc' as [| | | |c|[e|err]]; cbn; try done.
      * rewrite Hi. apply Hc. auto.
      * destruct (Hdone e eq_refl) as (c & -> & Hce'). destruct Hok as [<- _]. unfold has_key. rewrite Hn. by apply (co_filled _ _ Hc).
    + cbn [table w' with_tasks with_table]. intros key0 e n a. unfold try_get. rewrite He, Hce, Hn. intros H1 H2 H3.
      destruct (co_known _ _ Hc key0 e n a H1 H2 H3). auto.
  - exists (fun c => if decide (c = next_id (table w)) then key else f c).
    assert (forall c, c < next_id (table w) -> (if decide (c = next_id (table w)) then key else f c) = f c) as Hf by (intros c Hlt; by rewrite decide_False by lia).
    split; [done| | | | |apply Hc]; cbn [table w' with_tasks with_table entries cells nats next_id].
    + intros key0 c [[<- <-]|[_ H]]%lookup_insert_Some; [split; [by rewrite decide_True|lia]|].
      destruct (co_entries _ _ Hc _ _ H) as [<- Hlt]. split; [by apply Hf|lia].
    + intros c e [[_ H]|[Hne H]]%lookup_insert_Some; [done|]. rewrite decide_False by done. by apply (co_filled _ _ Hc).
    + apply Htasks; [done|]. intros _. split; [done|]. cbn. split; [by rewrite decide_True|lia].
    + intros key0 e n a (c & H1 & H2)%try_get_some H3 H4. cbn [entries cells] in H1, H2.
      apply lookup_insert_Some in H2 as [[_ H2]|[Hne H2]]; [done|]. apply lookup_insert_Some in H1 as [[_ H1]|[_ H1]]; [done|].
      destruct (co_known _ _ Hc key0 e n a) as [Hst Hk0]; [apply try_get_some; eauto|done..|]. auto.
  - destruct Hok as [Hkey Hlt]. split; [done| | | | |apply Hc]; cbn [table w' with_tasks with_table entries cells nats next_id].
    + intros key0 c0 H. destruct (co_entries _ _ Hc _ _ H). split; [done|lia].
    + intros c0 e [[<- [= <-]]|[_ H]]%lookup_insert_Some.
      * exists n. split; [apply lookup_insert_eq|congruence].
      * eapply has_key_grows; [exact Hg|]. by apply (co_filled _ _ Hc).
    + apply Htasks; [done|]. intros _. split; [done|]. cbn. exists n. split; [apply lookup_insert_eq|done].
    + intros key0 e n0 a (c0 & H1 & H2)%try_get_some H3 H4. cbn [entries cells nats] in H1, H2, H3.
      apply lookup_insert_Some in H3 as [[<- <-]|[Hne H3]]; [congruence|].
      apply lookup_insert_Some in H2 as [[_ [= H2]]|[_ H2]]; [congruence|].
      destruct (co_known _ _ Hc key0 e n0 a) as [Hst Hk0]; [apply try_get_some; eauto|done..|]. auto.
Qed.
Lemma consistent_touch f w j k e now : tasks w !! j = Some k -> tk_pc k = TTouch e -> consistent f w ->
  consistent f (with_tasks (with_table w (update_nat (table w) e (fun n => touch n now))) (<[j := set_pc k TDone]> (tasks w))).
Proof.
  intros Hj Hpc Hc. set (w' := with_tasks _ _).
  assert (moves (nats (table w)) (nats (table w'))) as Hmv by (apply moves_alter; intros; apply touch_le).
  apply (consistent_slots f w); [done|done|by apply moves_keys|eapply below_maps; [|done|apply Hc]; done| |apply Hc|].
  - apply (tasks_ok_insert f f w _ j (set_pc k TDone)); [done|by apply moves_keys|done|by apply sessions_kept_refl|apply Hc|done].
  - intros key0 e0 n' a H0 He Ha. assert (exists n, nats (table w) !! e0 = Some n /\ s_session (n_active n) = Some a) as (n & Hn & Hs).
    { cbn in He. apply lookup_alter_Some in He as [(<- & n & Hn & ->)|[_ Hn]]; eauto. }
    destruct (co_known _ _ Hc _ _ _ _ H0 Hn Hs) as [Hst Hkn]. split; [done|].
    apply (known_insert w w' j k (set_pc k TDone)); [done|done|by rewrite Hpc|by apply keys_kept_refl|done].
Qed.
Lemma encode_same n source data coding now entropy n' pid out :
  encode_response seal hkdf_sha1 blake3_derive_xof xseal aes_encrypt_block n source data coding now entropy = (n', pid, out) ->
  n_key n' = n_key n /\ n_active n' = n_active n.
Proof. unfold encode_response. destruct coding; by intros [= <- _ _]. Qed.
Lemma reader_same n pc sent now entropy n' pc' pid out : read_step n pc sent now entropy = (n', pc', pid, out) ->
  n_key n' = n_key n /\ n_active n' = n_active n.
Proof.
  unfold nat_reader_step. destruct pc as [|source data|seen source data|seen source data sender coding|seen sender coding response]; try by intros [= <- _ _ _].
  - destruct (encode_response _ _ _ _ _ _ _ _ _ _ _) as [[n1 pid1] out1] eqn:E. apply encode_same in E. by intros [= <- _ _ _].
  - unfold send_until_moved. destruct sent as [[]|]; [by intros [= <- _ _ _]..|]. by repeat case_match; intros; simplify_eq.
Qed.
Lemma consistent_reader f w e n n' rest : nats (table w) !! e = Some n -> n_key n' = n_key n -> n_active n' = n_active n -> consistent f w ->
  table rest = set_nats (table w) (<[e := n']> (nats (table w))) -> sessions rest = sessions w -> tasks rest = tasks w -> consistent f rest.
Proof.
  intros He Hk Ha Hc Ht Hs Hts. assert (keys_grow (table w) (table rest)) as Hg.
  { rewrite Ht. split; [|done]. intros e0 key (n0 & H1 & H2). unfold has_key. cbn [set_nats nats]. destruct (decide (e0 = e)) as [->|Hne].
    - rewrite lookup_insert_eq. exists n'. split; [done|congruence].
    - rewrite lookup_insert_ne by done. eauto. }
  apply (consistent_slots f w); [done|by rewrite Ht|done| | |by rewrite Hs; apply Hc|].
  - rewrite Ht. destruct (co_below _ _ Hc) as [H1 H2]. split; [|done]. intros e0 n0. cbn [set_nats nats next_id].
    intros [[<- _]|[_ H]]%lookup_insert_Some; eauto.
  - rewrite Hts. intros j k Hj Hr. apply (task_ok_mono f f w); [done|done| |by apply (co_tasks _ _ Hc j)]. rewrite Hs. eauto.
  - intros key e0 n0 a H0. rewrite Ht. cbn [set_nats nats]. intros H1 H2.
    assert (exists n1, nats (table w) !! e0 = Some n1 /\ s_session (n_active n1) = Some a) as (n1 & H3 & H4).
    { apply lookup_insert_Some in H1 as [[<- <-]|[_ H1]]; [exists n; by rewrite <- Ha|eauto]. }
    destruct (co_known _ _ Hc _ _ _ _ H0 H3 H4) as [Hst Hkn]. split; [done|]. eapply known_tasks; [done|by apply keys_kept_refl|done].
Qed.

Lemma live_none w i j k : live_tasks w i = [] -> tasks w !! j = Some k -> running k = true -> tk_stream k <> i.
Proof.
  intros Hl Hj Hr He. assert (In k (live_tasks w i)) as Hin; [|by rewrite Hl in Hin].
  apply filter_In. split; [by eapply list_elem_of_In, list_elem_of_lookup_2|]. rewrite Hr. by rewrite bool_decide_true.
Qed.
Lemma consistent_close f w i s t' r' s' : sessions w !! i = Some s -> live_tasks w i = [] -> released (table w) (registry w) s i t' r' s' ->
  consistent f w -> consistent f (with_session (with_registry (with_table w t') r') i (us_close s')).
Proof.
  intros Hi Hl Hr Hc. set (w' := with_session _ _ _). pose proof (rl_maps _ _ _ _ _ _ _ Hr) as Hm. pose proof (rl_moves _ _ _ _ _ _ _ Hr) as Hmv.
  apply (consistent_slots f w); [done|done|by apply moves_keys|eapply below_maps; [done..|apply Hc]| | |].
  - intros j k Hj Hrun. apply (task_ok_mono f f w); [by apply moves_keys|done| |by apply (co_tasks _ _ Hc j)].
    pose proof (live_none _ _ _ _ Hl Hj Hrun) as Hne. cbn [sessions w' with_session with_registry with_table]. rewrite lookup_insert_ne by done. eauto.
  - intros i1 s1. cbn [sessions w' with_session with_registry with_table]. intros [[<- <-]|[_ H]]%lookup_insert_Some; [|by apply (co_closed _ _ Hc i1)].
    intros _. apply (rl_keys _ _ _ _ _ _ _ Hr).
  - intros key e n' a Hkey He Ha. destruct (rl_slots _ _ _ _ _ _ _ Hr e n' He) as (n & Hn & Hs & Hgone).
    destruct Hs as [Hs|Hs]; [congruence|]. rewrite Ha in Hs. symmetry in Hs.
    destruct (co_known _ _ Hc _ _ _ _ Hkey Hn Hs) as [Hst [(s1 & H1 & H2)|(j & k & p & H1 & H2 & H3)]]; (split; [done|]).
    + left. exists s1. split; [|done]. cbn [sessions w' with_session with_registry with_table]. rewrite lookup_insert_ne; [done|]. intros He1.
      rewrite <- He1 in H1. rewrite Hi in H1. injection H1 as ->. eapply Hgone; [eauto|exact Ha|done].
    + right. by exists j, k, p.
Qed.
Lemma consistent_sweep f w t' l : entries t' ⊆ entries (table w) -> cells t' = cells (table w) -> nats t' = nats (table w) ->
  next_id t' = next_id (table w) -> consistent f w ->
  consistent f (mkWorld t' (registry w) (sessions w) (tasks w) (readers w) l (sent_up w) (sealed w) (delivered w)).
Proof.
  intros He Hce Hn Hi Hc. set (w' := mkWorld _ _ _ _ _ _ _ _ _).
  assert (keys_grow (table w) t') as Hg by (split; [|lia]; intros e key; unfold has_key; by rewrite Hn).
  split; cbn [table w']; [| | | | |apply Hc].
  - destruct (co_below _ _ Hc) as [H1 H2]. split; by rewrite ?Hn, ?Hce, Hi.
  - intros key c H. rewrite Hi. apply (co_entries _ _ Hc). by eapply lookup_weaken.
  - intros c e. rewrite Hce. intros H. apply Hg. by apply (co_filled _ _ Hc).
  - intros j k Hj Hr. apply (task_ok_mono f f w); [done|done|eauto|by apply (co_tasks _ _ Hc j)].
  - intros key e n a (c & H1 & H2)%try_get_some. rewrite Hn. intros H3 H4. rewrite Hce in H2.
    destruct (co_known _ _ Hc key e n a) as [Hst Hk]; [apply try_get_some; exists c; split; [by eapply lookup_weaken|done]|done..|].
    split; [done|]. by eapply known_tasks; [|apply keys_kept_refl|].
Qed.
Lemma consistent_effect Q w w' : (exists f, consistent f w) -> effect Q w w' -> exists f, consistent f w'.
Proof.
  intros [f Hc]. destruct 1 as [|i iss pend Hi|i s p index Hi Hcl _|j k pc l Hj _ Hpc Hfrom|j k d s keys t' r' s' scope Hj Hpc Hi Hr
    |j k key payload pc t' pc' Hj Hpc Hcr|j k key payload e Hj Hpc|j k key payload e s Hj Hpc Hi|j k e now Hj Hpc|e n source data He _
    |e n sent now en n' pc pid out He Hs|i s t' r' s' Hi Hl Hr|r' Hr|t' l H1 H2 H3 H4]; [exists f..| |exists f|exists f|exists f|exists f|exists f|exists f|exists f|exists f].
  - done.
  - by apply consistent_open.
  - by apply consistent_arrive.
  - by apply consistent_plain.
  - by apply (consistent_resolve f w j k d s keys).
  - by eapply consistent_create.
  - by apply consistent_register.
  - by apply consistent_track.
  - by eapply consistent_touch.
  - apply (consistent_frame f w); [done|done|apply Hc| |]; [|done]. intros j k Hj Hr.
    apply (task_ok_mono f f w); [by apply keys_grow_refl|done|eauto|by apply (co_tasks _ _ Hc j)].
  - apply reader_same in Hs as [Hk Ha]. by eapply consistent_reader.
  - by apply (consistent_close f w i s).
  - apply (consistent_frame f w); [done|done|apply Hc| |]; [|done]. intros j k Hj Hr'.
    apply (task_ok_mono f f w); [by apply keys_grow_refl|done|eauto|by apply (co_tasks _ _ Hc j)].
  - by apply consistent_sweep.
Qed.
Lemma consistent_start c : exists f, consistent f (world_start c).
Proof.
  exists (fun _ => mkNatKey [] None (V4 [] 0) None). by split.
Qed.
Lemma run_consistent c ls : exists f, consistent f (run c ls).
Proof. apply run_ind; [apply consistent_start|]. intros w w'. apply consistent_effect. Qed.

(** What is over stays over. *)
Definition is_closed (w : World) (i : nat) : Prop := exists s, sessions w !! i = Some s /\ us_closed s = true.
Lemma closed_insert_kept w i j s s' : sessions w !! j = Some s -> (us_closed s = true -> us_closed s' = true) -> is_closed w i ->
  exists s0, <[j := s']> (sessions w) !! i = Some s0 /\ us_closed s0 = true.
Proof.
  intros Hj Hs (s0 & H1 & H2). destruct (decide (i = j)) as [->|Hne]; [|rewrite lookup_insert_ne by done; eauto].
  rewrite lookup_insert_eq. exists s'. split; [done|]. apply Hs. congruence.
Qed.
Lemma effect_closed Q w w' i : effect Q w w' -> is_closed w i -> is_closed w' i.
Proof.
  destruct 1 as [|i0 iss pend Hi|i0 s p index Hi Hcl Hq|j k pc l Hj _ Hpc Hfrom|j k d s keys t' r' s' scope Hj Hpc Hi Hr
    |j k key payload pc t' pc' Hj Hpc Hcr|j k key payload e Hj Hpc|j k key payload e s Hj Hpc Hi|j k e now Hj Hpc|e n source data He _
    |e n sent now en n' pc pid out He Hs|i0 s t' r' s' Hi Hl Hr|r' Hr|t' l H1 H2 H3 H4]; try done.
  - intros (s0 & H1 & H2). exists s0. split; [|done]. cbn. rewrite lookup_insert_ne; [done|]. congruence.
  - by apply (closed_insert_kept w i i0 s).
  - apply (closed_insert_kept w i (tk_stream k) s); [done|]. cbn. by rewrite (rv_closed _ _ _ _ _ _ _ _ _ _ Hr).
  - by apply (closed_insert_kept w i (tk_stream k) s).
  - by apply (closed_insert_kept w i i0 s).
Qed.
Lemma closed_stays w l i : is_closed w i -> is_closed (step w l) i.
Proof. apply effect_closed with (Q := fun _ _ => True). apply step_effect. by destruct l. Qed.

(** ** Readers *)
Definition pc_ok (n : NatEntry) (pc : ReaderPc) : Prop :=
  match pc with
  | RIdle | RGot _ _ => True
  | RMarked seen _ _ => seen <= s_moved (n_active n)
  | RSnap seen _ _ sender _ | RSending seen sender _ _ =>
    seen <= s_moved (n_active n) /\ (seen = s_moved (n_active n) -> leads_to (n_active n) sender = true)
  end.
Lemma pc_ok_mono n n' pc : nat_le n n' -> pc_ok n pc -> pc_ok n' pc.
Proof.
  intros [_ [Hm Hl] _]. destruct pc as [| |seen source data|seen source data sender coding|seen sender coding response]; cbn; [done|done|lia| |];
    (intros [H1 H2]; split; [lia|]; intros ->; apply Hl; [lia|apply H2; lia]).
Qed.
(** The packet ids an entry sealed under, in order. *)
Definition sealed_of (w : World) (e : nat) : list Z := (filter (fun x => x.1 = e) (sealed w)).*2.
Definition wrapped (i : nat) : Z := (Z.of_nat i mod 2 ^ 64)%Z.
Record watching (w : World) : Prop := {
  wa_reader e pc : readers w !! e = Some pc -> exists n, nats (table w) !! e = Some n /\ pc_ok n pc;
  wa_sealed e : sealed_of w e = wrapped <$> seq 0 (length (sealed_of w e));
  wa_next e n : nats (table w) !! e = Some n -> n_next_packet_id n = wrapped (length (sealed_of w e));
  wa_unborn e : nats (table w) !! e = None -> sealed_of w e = []
}.
Inductive reader_effect (w : World) : World -> Prop :=
  | re_step e n sent now entropy n' pc pid out : nats (table w) !! e = Some n ->
      read_step n (default RIdle (readers w !! e)) sent now entropy = (n', pc, pid, out) ->
      reader_effect w (mkWorld (set_nats (table w) (<[e := n']> (nats (table w)))) (registry w) (sessions w) (tasks w) (<[e := pc]> (readers w))
                  (to_release w) (sent_up w)
                  (sealed w ++ match pid with Some pid => [(e, pid)] | None => [] end)
                  (delivered w ++ match out with Some (sender, coding, response) => [(e, sender, coding, response)] | None => [] end)).
Lemma effect_table Q w w' : (exists f, consistent f w) -> effect Q w w' ->
  (table_grows (table w) (table w') /\ sealed w' = sealed w /\ delivered w' = delivered w /\
    (readers w' = readers w \/ exists e n source data, nats (table w) !! e = Some n /\ readers w' = <[e := RGot source data]> (readers w)))
  \/ reader_effect w w'.
Proof.
  intros [f Hc] He. destruct He as [|i iss pend Hi|i s p index Hi Hcl _|j k pc l Hj _ Hpc Hfrom|j k d s keys t' r' s' scope Hj Hpc Hi Hr
    |j k key payload pc t' pc' Hj Hpc Hcr|j k key payload e Hj Hpc|j k key payload e s Hj Hpc Hi|j k e now Hj Hpc|e n source data He _
    |e n sent now en n' pc pid out He Hs|i s t' r' s' Hi Hl Hr|r' Hr|t' l H1 H2 H3 H4]; [left..| |left|left|left];
    try (split; [|by eauto]); cbn [table with_table with_session with_tasks with_registry with_sent]; try reflexivity.
  - apply grows_moves; [by apply (rv_moves _ _ _ _ _ _ _ _ _ _ Hr)|]. destruct (rv_maps _ _ _ _ _ _ _ _ _ _ Hr) as (_ & _ & _ & ->). done.
  - eapply creation_grows; [apply Hc| |done]. intros c ->. assert (running k = true) as Hrun by (unfold running; by rewrite Hpc).
    destruct (co_tasks _ _ Hc _ _ Hj Hrun) as [_ Hok]. rewrite Hpc in Hok. apply Hok.
  - apply update_grows. intros; apply register_le.
  - apply update_grows. intros; apply touch_le.
  - split; [reflexivity|]. split_and!; [done..|]. right. by exists e, n, source, data.
  - right. by eapply re_step.
  - apply grows_moves; [by apply (rl_moves _ _ _ _ _ _ _ Hr)|]. destruct (rl_maps _ _ _ _ _ _ _ Hr) as (_ & _ & _ & ->). done.
  - apply grows_moves; [by rewrite H3|lia].
Qed.

Lemma encode_pid n source data coding now entropy n' pid out :
  encode_response seal hkdf_sha1 blake3_derive_xof xseal aes_encrypt_block n source data coding now entropy = (n', pid, out) ->
  (pid = None /\ n_next_packet_id n' = n_next_packet_id n) \/
  (pid = Some (n_next_packet_id n) /\ n_next_packet_id n' = ((n_next_packet_id n + 1) mod 2 ^ 64)%Z).
Proof. unfold encode_response. destruct coding; intros [= <- <- _]; [by right|by left]. Qed.
Lemma reader_pid n pc sent now entropy n' pc' pid out : read_step n pc sent now entropy = (n', pc', pid, out) ->
  (pid = None /\ n_next_packet_id n' = n_next_packet_id n) \/
  (pid = Some (n_next_packet_id n) /\ n_next_packet_id n' = ((n_next_packet_id n + 1) mod 2 ^ 64)%Z).
Proof.
  unfold nat_reader_step. destruct pc as [|source data|seen source data|seen source data sender coding|seen sender coding response];
    try by intros [= <- _ <- _]; left.
  - destruct (encode_response _ _ _ _ _ _ _ _ _ _ _) as [[n1 pid1] out1] eqn:E. apply encode_pid in E. by intros [= <- _ <- _].
  - unfold send_until_moved. destruct sent as [[]|]; [by intros [= <- _ <- _]; left..|]. by repeat case_match; intros; simplify_eq; left.
Qed.
Lemma snapshot_leads s sender coding : snapshot s = Some (sender, coding) -> leads_to s sender = true.
Proof. unfold snapshot, leads_to. destruct (s_session s); [|done]. cbn. intros [= -> _]. by apply bool_decide_true. Qed.
Lemma reader_pc n pc sent now entropy n' pc' pid out : read_step n pc sent now entropy = (n', pc', pid, out) -> pc_ok n pc -> pc_ok n' pc'.
Proof.
  intros Hr. pose proof (reader_same _ _ _ _ _ _ _ _ _ Hr) as [_ Ha]. unfold pc_ok. rewrite Ha. revert Hr. clear Ha. unfold nat_reader_step.
  destruct pc as [|source data|seen source data|seen source data sender coding|seen sender coding response]; intros Hr Hok.
  - by injection Hr as _ <- _ _.
  - by injection Hr as _ <- _ _.
  - injection Hr as _ <- _ _. destruct (snapshot _) as [[sender coding]|] eqn:Es; [|done]. split; [done|]. intros _. by eapply snapshot_leads.
  - destruct (encode_response _ _ _ _ _ _ _ _ _ _ _) as [[n1 pid1] [response|]]; injection Hr as _ <- _ _; [|done].
    by destruct (record_oversized_socket_response_drop _ _ _).
  - unfold send_until_moved in Hr. destruct sent as [[]|]; [by injection Hr as _ <- _ _..|].
    case_bool_decide as Hseen; [by injection Hr as _ <- _ _; subst|]. destruct (leads_to _ sender) eqn:El; injection Hr as _ <- _ _; [|done].
    by split.
Qed.
Lemma wrapped_succ i : ((wrapped i + 1) mod 2 ^ 64)%Z = wrapped (S i).
Proof. unfold wrapped. rewrite Zplus_mod_idemp_l. f_equal. lia. Qed.
Lemma sealed_app w l e : (filter (fun x : nat * Z => x.1 = e) (sealed w ++ l)).*2 = sealed_of w e ++ (filter (fun x => x.1 = e) l).*2.
Proof. unfold sealed_of. by rewrite filter_app, fmap_app. Qed.
Lemma watching_effect Q w w' : (exists f, consistent f w) -> watching w -> effect Q w w' -> watching w'.
Proof.
  intros Hc [Hr Hs Hn Hu] He. destruct (effect_table _ _ _ Hc He) as [(Hg & Hse & _ & Hrd)|Hre].
  - assert (forall e, sealed_of w' e = sealed_of w e) as Heq by (intros e; unfold sealed_of; by rewrite Hse).
    split; try setoid_rewrite Heq; [|done| |].
    + assert (forall e pc, readers w !! e = Some pc -> exists n, nats (table w') !! e = Some n /\ pc_ok n pc) as Hold.
      { intros e pc H. destruct (Hr _ _ H) as (n & H1 & H2). destruct (tg_old _ _ Hg _ _ H1) as (n' & H3 & H4). exists n'.
        split; [done|by eapply pc_ok_mono]. }
      intros e pc. destruct Hrd as [->|(e0 & n & source & data & H1 & ->)]; [apply Hold|].
      intros [[<- <-]|[_ H]]%lookup_insert_Some; [|by apply Hold]. destruct (tg_old _ _ Hg _ _ H1) as (n' & H3 & _). by exists n'.
    + intros e n' H. destruct (nats (table w) !! e) as [n|] eqn:En.
      * destruct (tg_old _ _ Hg _ _ En) as (n1 & H1 & H2). rewrite H in H1. injection H1 as <-. rewrite (le_pid _ _ H2). by apply Hn.
      * destruct (tg_new _ _ Hg _ _ H En) as [_ ->]. by rewrite (Hu _ En).
    + intros e H. apply Hu. destruct (nats (table w) !! e) as [n|] eqn:En; [|done]. destruct (tg_old _ _ Hg _ _ En) as (n1 & H1 & _). congruence.
  - destruct Hre as [e n sent now entropy n' pc pid out Hen Hst]. split; cbn [table readers set_nats nats].
    + intros e0 pc0 [[<- <-]|[Hne H]]%lookup_insert_Some.
      * exists n'. rewrite lookup_insert_eq. split; [done|]. eapply reader_pc; [exact Hst|]. destruct (readers w !! e) as [pc0|] eqn:E; [|done].
        destruct (Hr _ _ E) as (n1 & H1 & H2). cbn. congruence.
      * rewrite lookup_insert_ne by done. by apply Hr.
    + intros e0. unfold sealed_of. cbn [sealed]. rewrite sealed_app. destruct pid as [pid|]; [|by rewrite filter_nil; cbn; rewrite app_nil_r; apply Hs].
      rewrite filter_cons, filter_nil. cbn [fst]. destruct (decide (e = e0)) as [<-|Hne]; cbn; [|rewrite app_nil_r; apply Hs].
      apply reader_pid in Hst as [[? _]|[[= ->] _]]; [done|]. rewrite length_app, Nat.add_1_r, seq_S, fmap_app, <- Hs. cbn. by rewrite (Hn _ _ Hen).
    + intros e0 n0. unfold sealed_of. cbn [sealed]. rewrite sealed_app. intros [[<- <-]|[Hne H]]%lookup_insert_Some.
      * apply reader_pid in Hst as [[-> ->]|[-> ->]]; rewrite (Hn _ _ Hen).
        -- rewrite filter_nil. cbn. by rewrite app_nil_r.
        -- rewrite filter_cons_True by done. rewrite filter_nil, length_app, wrapped_succ. f_equal. cbn. lia.
      * destruct pid as [pid|]; [rewrite filter_cons_False by done|]; rewrite filter_nil; cbn; rewrite app_nil_r; by apply Hn.
    + intros e0 [H Hne]%lookup_insert_None. unfold sealed_of. cbn [sealed]. rewrite sealed_app, (Hu _ H).
      destruct pid as [pid|]; [rewrite filter_cons_False by done|]; by rewrite filter_nil.
Qed.
Lemma run_watching c ls : watching (run c ls).
Proof.
  apply (run_ind (fun w => (exists f, consistent f w) /\ watching w)).
  - split; [apply consistent_start|]. by split.
  - intros w w' [Hc Hw] He. split; [by eapply consistent_effect|by eapply watching_effect].
Qed.

(** ** Users

    In a run of [one_user] the datagrams of a stream are of one user. *)
Definition same_as (s : UdpSession) (user : bytes) : Prop := forall u, us_user s = Some u -> u = user.
Fixpoint one_user (w : World) (ls : list Label) : Prop :=
  match ls with [] => True | l :: ls => arrives same_as w l /\ one_user (step w l) ls end.
Lemma run_ind_one (P : World -> Prop) c ls : P (world_start c) -> (forall w w', P w -> effect same_as w w' -> P w') ->
  one_user (world_start c) ls -> P (run c ls).
Proof.
  intros H0 Hs. unfold world_run. generalize dependent (world_start c). induction ls as [|l ls IH]; intros w Hw; [done|].
  intros [Hl Hls]. cbn [foldl]. apply IH; [|done]. eapply Hs; [exact Hw|by apply step_effect].
Qed.

(** Stream [i] is [user]'s, and responses are sealed for [user]. *)
Definition user_of (w : World) (i : nat) (user : bytes) : Prop := exists s, sessions w !! i = Some s /\ us_user s = Some user.
Definition coded_for (user : bytes) (coding : UdpResponseCoding) : Prop := exists u m, coding = SsCoding u m /\ user_id u = user.
Definition serves (w : World) (e sender : nat) (coding : UdpResponseCoding) : Prop :=
  exists n, nats (table w) !! e = Some n /\ user_of w sender (k_user (n_key n)) /\ coded_for (k_user (n_key n)) coding.
Definition task_user (w : World) (k : Task) : Prop :=
  user_of w (tk_stream k) (user_id (tk_user k)) /\ coded_for (user_id (tk_user k)) (tk_coding k) /\
  match tk_pc k with
  | TCreate key _ _ | TRegister key _ _ | TTrack key _ _ => k_user key = user_id (tk_user k)
  | _ => True
  end.
Definition sends_to (pc : ReaderPc) : option (nat * UdpResponseCoding) :=
  match pc with RSnap _ _ _ sender coding | RSending _ sender coding _ => Some (sender, coding) | _ => None end.
Record isolated (w : World) : Prop := {
  is_task j k : tasks w !! j = Some k -> running k = true -> task_user w k;
  is_slot e n a : nats (table w) !! e = Some n -> s_session (n_active n) = Some a -> serves w e (a_sender a) (a_coding a);
  is_reader e pc sender coding : readers w !! e = Some pc -> sends_to pc = Some (sender, coding) -> serves w e sender coding;
  is_keys i s key : sessions w !! i = Some s -> key ∈ sk_keys (us_keys s) -> us_user s = Some (k_user key);
  is_parked id p o keys key : by_id (registry w) !! id = Some p -> parked p = SsUdpStream o keys -> key ∈ keys -> k_user key = owner p;
  is_delivered e sender coding r : (e, sender, coding, r) ∈ delivered w -> serves w e sender coding
}.

Definition users_kept (w w' : World) : Prop := forall i user, user_of w i user -> user_of w' i user.
Lemma users_kept_same w w' : sessions w' = sessions w -> users_kept w w'.
Proof. intros H i user. unfold user_of. by rewrite H. Qed.
Lemma users_kept_insert w w' i s s' : sessions w !! i = Some s -> sessions w' = <[i := s']> (sessions w) ->
  (forall u, us_user s = Some u -> us_user s' = Some u) -> users_kept w w'.
Proof.
  intros Hi Hw Hu i1 user (s1 & H1 & H2). unfold user_of. rewrite Hw. destruct (decide (i1 = i)) as [->|Hne].
  - rewrite lookup_insert_eq. exists s'. split; [done|]. apply Hu. congruence.
  - rewrite lookup_insert_ne by done. eauto.
Qed.
Lemma serves_mono w w' e sender coding : users_kept w w' -> keys_grow (table w) (table w') -> serves w e sender coding -> serves w' e sender coding.
Proof.
  intros Hu [Hk _] (n & He & H1 & H2). destruct (Hk e (n_key n)) as (n' & He' & Hk'); [by exists n|]. exists n'. rewrite Hk'.
  split_and!; [done|by apply Hu|done].
Qed.
Lemma task_user_mono w w' k : users_kept w w' -> task_user w k -> task_user w' k.
Proof. intros Hu (H1 & H2 & H3). split_and!; [by apply Hu|done..]. Qed.
Lemma task_users_insert w w' j k' : users_kept w w' -> tasks w' = <[j := k']> (tasks w) ->
  (forall j k, tasks w !! j = Some k -> running k = true -> task_user w k) -> (running k' = true -> task_user w' k') ->
  forall j k, tasks w' !! j = Some k -> running k = true -> task_user w' k.
Proof.
  intros Hu Ht Hall Hk j1 k1. rewrite Ht. intros [(-> & <- & _)|[_ H]]%list_lookup_insert_Some Hr; [auto|].
  eapply task_user_mono; [done|by eapply Hall].
Qed.
(** The part about readers and what they handed over, for steps that are not a reader's. *)
Lemma isolated_step w w' : isolated w -> users_kept w w' ->
  (table_grows (table w) (table w') /\ sealed w' = sealed w /\ delivered w' = delivered w /\
    (readers w' = readers w \/ exists e n source data, nats (table w) !! e = Some n /\ readers w' = <[e := RGot source data]> (readers w))) ->
  (forall j k, tasks w' !! j = Some k -> running k = true -> task_user w' k) ->
  (forall e n a, nats (table w') !! e = Some n -> s_session (n_active n) = Some a -> serves w' e (a_sender a) (a_coding a)) ->
  (forall i s key, sessions w' !! i = Some s -> key ∈ sk_keys (us_keys s) -> us_user s = Some (k_user key)) ->
  (forall id p o keys key, by_id (registry w') !! id = Some p -> parked p = SsUdpStream o keys -> key ∈ keys -> k_user key = owner p) ->
  isolated w'.
Proof.
  intros Hi Hu (Hg & _ & Hd & Hr) Ht Hs Hk Hp. apply grows_keys in Hg. split; try done.
  - intros e pc sender coding He Hpc. apply (serves_mono w w'); [done|done|]. destruct Hr as [Hr|(e0 & n & source & data & _ & Hr)]; rewrite Hr in He.
    + by apply (is_reader _ Hi e pc).
    + apply lookup_insert_Some in He as [[<- <-]|[_ He]]; [done|by apply (is_reader _ Hi e pc)].
  - intros e sender coding r. rewrite Hd. intros H. apply (serves_mono w w'); [done|done|by apply (is_delivered _ Hi e sender coding r)].
Qed.
(** Slots that hold what they held. *)
Lemma slots_mono w w' : isolated w -> users_kept w w' -> table_grows (table w) (table w') ->
  (forall e n' a, nats (table w') !! e = Some n' -> s_session (n_active n') = Some a ->
     (exists n, nats (table w) !! e = Some n /\ s_session (n_active n) = Some a) \/ serves w' e (a_sender a) (a_coding a)) ->
  forall e n a, nats (table w') !! e = Some n -> s_session (n_active n) = Some a -> serves w' e (a_sender a) (a_coding a).
Proof.
  intros Hi Hu Hg Hs e n' a He Ha. destruct (Hs e n' a He Ha) as [(n & H1 & H2)|H]; [|done].
  apply (serves_mono w w'); [done|by apply grows_keys|by apply (is_slot _ Hi e n)].
Qed.

Lemma tasks_users_append w w' k' : users_kept w w' -> tasks w' = tasks w ++ [k'] -> isolated w -> task_user w' k' ->
  forall j k, tasks w' !! j = Some k -> running k = true -> task_user w' k.
Proof.
  intros Hu Ht Hi Hk j k. rewrite Ht. intros [Hj|(_ & Hj)]%lookup_app_Some Hr; [by eapply task_user_mono, is_task|].
  by apply list_lookup_singleton_Some in Hj as [_ <-].
Qed.
Lemma isolated_arrive w i s p index : sessions w !! i = Some s -> same_as s (user_id (pkt_user p)) -> isolated w ->
  isolated (with_tasks (with_session w i (us_authenticated s (user_id (pkt_user p)) index))
              (tasks w ++ [mkTask i (pkt_user p) (coding_of p) (TScope (pkt_payload p))])).
Proof.
  intros Hi Hq Hw. set (s' := us_authenticated _ _ _). set (w' := with_tasks _ _).
  assert (us_user s' = Some (user_id (pkt_user p))) as Hus.
  { cbn. destruct (us_user s) as [u|] eqn:E; [|done]. cbn. f_equal. by apply Hq. }
  assert (users_kept w w') as Hu.
  { apply (users_kept_insert w w' i s s'); [done|done|]. intros u Hs. rewrite Hus. f_equal. symmetry. by apply Hq. }
  apply (isolated_step w); [done|done|by split; [|auto]| | | |apply Hw].
  - eapply tasks_users_append; [done|done|done|]. split_and!; [|by do 2 eexists|done]. exists s'. split; [apply lookup_insert_eq|done].
  - apply (slots_mono w); [done|done|done|]. eauto.
  - intros i1 s1 key. cbn [sessions w' with_tasks with_session]. intros [[<- <-]|[_ H]]%lookup_insert_Some Hk; [|by eapply is_keys].
    rewrite Hus. pose proof (is_keys _ Hw _ _ _ Hi Hk) as H. f_equal. symmetry. by apply Hq.
Qed.
Lemma isolated_resolve w j k d s keys t' r' s' scope : (exists f, consistent f w) -> tasks w !! j = Some k -> tk_pc k = TScope d ->
  sessions w !! tk_stream k = Some s ->
  resolved (table w) (registry w) s (tk_stream k) (user_id (tk_user k)) (tk_coding k) t' r' s' keys -> isolated w ->
  isolated (with_tasks (with_session (with_registry (with_table w t') r') (tk_stream k) (us_set_scope s' scope))
              (<[j := set_pc k (TResolve scope d)]> (tasks w))).
Proof.
  intros [f Hc] Hj Hpc Hi Hr Hw. set (w' := with_tasks _ _). assert (running k = true) as Hrun by (unfold running; by rewrite Hpc).
  destruct (is_task _ Hw _ _ Hj Hrun) as (Hmine & Hcode & _). pose proof Hmine as (s0 & H0 & Hus). rewrite Hi in H0. injection H0 as <-.
  assert (users_kept w w') as Hu.
  { apply (users_kept_insert w w' (tk_stream k) s (us_set_scope s' scope)); [done|done|]. cbn. by rewrite (rv_user _ _ _ _ _ _ _ _ _ _ Hr). }
  assert (table_grows (table w) (table w')) as Hg.
  { apply grows_moves; [apply (rv_moves _ _ _ _ _ _ _ _ _ _ Hr)|]. destruct (rv_maps _ _ _ _ _ _ _ _ _ _ Hr) as (_ & _ & _ & Hn). cbn. lia. }
  assert (forall key, key ∈ keys -> k_user key = user_id (tk_user k)) as Hkeys.
  { intros key Hin. destruct (rv_parked _ _ _ _ _ _ _ _ _ _ Hr) as [->|(id & p & o & H1 & H2 & H3)]; [by apply elem_of_nil in Hin|].
    rewrite <- H2. by apply (is_parked _ Hw id p o keys). }
  apply (isolated_step w); [done|done|by split; [|auto]| | | |].
  - apply (task_users_insert w w' j (set_pc k (TResolve scope d))); [done|done|apply Hw|]. intros _. split_and!; [by apply Hu|done|done].
  - apply (slots_mono w); [done|done|done|]. intros e n' a He Ha.
    destruct (rv_slots _ _ _ _ _ _ _ _ _ _ Hr e n' He) as (n & Hn & [Hact|[(key & Hin & Hkey) Hact]]); [left; exists n; split; congruence|right].
    rewrite Hact in Ha. injection Ha as <-. destruct (consistent_key _ _ _ _ Hc Hkey) as (n0 & Hn0 & Hk0). rewrite Hn in Hn0. injection Hn0 as <-.
    pose proof (moves_lookup _ _ e (rv_moves _ _ _ _ _ _ _ _ _ _ Hr)) as Hle. change (nats t' !! e = Some n') in He. rewrite Hn, He in Hle. exists n'. rewrite (le_key _ _ Hle), Hk0, (Hkeys key Hin).
    split_and!; [done|by apply Hu|done].
  - intros i1 s1 key. cbn [sessions w' with_tasks with_session]. intros [[<- <-]|[_ H]]%lookup_insert_Some Hk; [|by eapply is_keys].
    cbn [us_set_scope us_keys us_user] in *. rewrite (rv_user _ _ _ _ _ _ _ _ _ _ Hr). rewrite (rv_keys _ _ _ _ _ _ _ _ _ _ Hr) in Hk.
    apply elem_of_union in Hk as [Hk|Hk]; [by eapply is_keys|]. apply elem_of_list_to_set, list_elem_of_In, filter_In in Hk as [Hk%list_elem_of_In _].
    by rewrite (Hkeys key Hk).
  - intros id p o ks key Hid. eapply is_parked; [exact Hw|]. eapply lookup_weaken; [exact Hid|apply (rv_registry _ _ _ _ _ _ _ _ _ _ Hr)].
Qed.
(** The steps that only move a task, or the table with it. *)
Lemma isolated_move w w' j k pc : tasks w !! j = Some k -> running k = true -> tasks w' = <[j := set_pc k pc]> (tasks w) ->
  sessions w' = sessions w -> by_id (registry w') = by_id (registry w) -> readers w' = readers w -> sealed w' = sealed w -> delivered w' = delivered w ->
  table_grows (table w) (table w') -> isolated w ->
  match pc with TCreate key _ _ | TRegister key _ _ | TTrack key _ _ => k_user key = user_id (tk_user k) | _ => True end ->
  (forall e n' a, nats (table w') !! e = Some n' -> s_session (n_active n') = Some a ->
     (exists n, nats (table w) !! e = Some n /\ s_session (n_active n) = Some a) \/ serves w' e (a_sender a) (a_coding a)) ->
  isolated w'.
Proof.
  intros Hj Hrun Ht Hs Hb Hr Hse Hd Hg Hw Hpc Hsl. assert (users_kept w w') as Hu by by apply users_kept_same.
  destruct (is_task _ Hw _ _ Hj Hrun) as (Hmine & Hcode & _).
  apply (isolated_step w); [done|done|by split_and!; [|auto..]| |by apply (slots_mono w)|by rewrite Hs; apply Hw|by rewrite Hb; apply Hw].
  apply (task_users_insert w w' j (set_pc k pc)); [done|done|apply Hw|]. intros _. split_and!; [by apply Hu|done|done].
Qed.

Lemma reader_serves w e n pc sent now entropy n' pc' pid out :
  read_step n pc sent now entropy = (n', pc', pid, out) ->
  (forall a, s_session (n_active n) = Some a -> serves w e (a_sender a) (a_coding a)) ->
  (forall sender coding, sends_to pc = Some (sender, coding) -> serves w e sender coding) ->
  (forall sender coding, sends_to pc' = Some (sender, coding) -> serves w e sender coding) /\
  (forall sender coding r, out = Some (sender, coding, r) -> serves w e sender coding).
Proof.
  intros Hr Hs Hpc. unfold nat_reader_step in Hr.
  destruct pc as [|source data|seen source data|seen source data sender coding|seen sender coding response].
  - by injection Hr as _ <- _ <-.
  - by injection Hr as _ <- _ <-.
  - injection Hr as _ <- _ <-. split; [|done]. unfold snapshot. destruct (s_session (n_active n)) as [a|]; [|done]. cbn.
    intros ? ? [= <- <-]. by apply Hs.
  - destruct (encode_response _ _ _ _ _ _ _ _ _ _ _) as [[n1 pid1] [response|]]; injection Hr as _ <- _ <-; (split; [|done]); [|done].
    destruct (record_oversized_socket_response_drop _ _ _); [done|]. by apply Hpc.
  - unfold send_until_moved in Hr. destruct sent as [[]|].
    + injection Hr as _ <- _ <-. split; [done|]. intros ? ? ? [= <- <- _]. by apply Hpc.
    + by injection Hr as _ <- _ <-.
    + destruct (bool_decide _); [|destruct (leads_to _ _)]; injection Hr as _ <- _ <-; (split; [|done]); [by apply Hpc..|done].
Qed.
Lemma isolated_reader w w' : isolated w -> reader_effect w w' -> isolated w'.
Proof.
  intros Hw Hre. destruct Hre as [e n sent now entropy n' pc pid out Hen Hst]. set (w' := mkWorld _ _ _ _ _ _ _ _ _).
  destruct (reader_same _ _ _ _ _ _ _ _ _ Hst) as [Hk Ha].
  assert (forall e0 sender coding, serves w e0 sender coding -> serves w' e0 sender coding) as Hm.
  { intros e0 sender coding (n0 & H1 & H2 & H3). unfold serves. cbn [table w' set_nats nats]. destruct (decide (e0 = e)) as [->|Hne].
    - rewrite lookup_insert_eq. exists n'. split; [done|]. rewrite Hen in H1. injection H1 as <-. by rewrite Hk.
    - rewrite lookup_insert_ne by done. by exists n0. }
  destruct (reader_serves w e n _ sent now entropy n' pc pid out Hst) as [Hpc Hout].
  { intros a. by apply is_slot. }
  { destruct (readers w !! e) as [pc0|] eqn:E; [|done]. intros sender coding. by apply (is_reader _ Hw e pc0). }
  split; [apply Hw| | |apply Hw|apply Hw|].
  - intros e0 n0 a. cbn [table w' set_nats nats]. intros [[<- <-]|[_ H1]]%lookup_insert_Some H2; apply Hm; [|by eapply is_slot].
    apply (is_slot _ Hw e n); [done|]. by rewrite <- Ha.
  - intros e0 pc0 sender coding. cbn [readers w']. intros [[<- <-]|[_ H1]]%lookup_insert_Some H2; apply Hm; [by apply Hpc|by eapply is_reader].
  - intros e0 sender coding r. cbn [delivered w']. intros [H|H]%elem_of_app; apply Hm; [by eapply is_delivered|].
    destruct out as [[[sender0 coding0] r0]|]; [|by apply elem_of_nil in H]. apply list_elem_of_singleton in H as [= -> -> -> ->]. by eapply Hout.
Qed.
Lemma isolated_open w i issued pending : sessions w !! i = None -> isolated w -> isolated (with_session w i (session_new issued pending)).
Proof.
  intros Hi Hw. set (w' := with_session _ _ _). assert (users_kept w w') as Hu.
  { intros i1 user (s1 & H1 & H2). exists s1. split; [|done]. cbn. rewrite lookup_insert_ne; [done|]. congruence. }
  apply (isolated_step w); [done|done|by split; [|auto]| |apply (slots_mono w); [done|done|done|eauto]| |apply Hw].
  - intros j k Hj Hr. eapply task_user_mono; [done|by eapply is_task].
  - intros i1 s1 key. cbn. intros [[<- <-]|[_ H]]%lookup_insert_Some Hk; [by apply elem_of_empty in Hk|by eapply is_keys].
Qed.
Lemma isolated_create w j k key payload pc t' pc' : tasks w !! j = Some k -> tk_pc k = TCreate key payload pc ->
  creation (table w) key pc t' pc' -> table_grows (table w) t' -> isolated w ->
  isolated (with_tasks (with_table w t') (<[j := set_pc k (after_create key payload pc')]> (tasks w))).
Proof.
  intros Hj Hpc Hcr Hg Hw. assert (running k = true) as Hrun by (unfold running; by rewrite Hpc).
  destruct (is_task _ Hw _ _ Hj Hrun) as (_ & _ & Hkey). rewrite Hpc in Hkey.
  apply (isolated_move w _ j k (after_create key payload pc')); try done; [by destruct pc' as [| | | | |[]]|].
  cbn [table with_table with_tasks]. destruct Hcr as [pc t' pc' (_ & _ & Hn & _) _ _|t' _ ->|c n t' _ Hact _ ->|r]; intros e n' a He Ha.
  - left. rewrite Hn in He. eauto.
  - left. eauto.
  - cbn [nats] in He. apply lookup_insert_Some in He as [[<- <-]|[_ He]]; [congruence|left; eauto].
  - left. eauto.
Qed.
Lemma isolated_register w j k key payload e : (exists f, consistent f w) -> tasks w !! j = Some k -> tk_pc k = TRegister key payload e ->
  isolated w ->
  isolated (with_tasks (with_table w (update_nat (table w) e (fun n => register_session n (tk_stream k) (tk_coding k) (tk_stream k))))
              (<[j := set_pc k (TTrack key payload e)]> (tasks w))).
Proof.
  intros [f Hc] Hj Hpc Hw. assert (running k = true) as Hrun by (unfold running; by rewrite Hpc).
  destruct (is_task _ Hw _ _ Hj Hrun) as (Hmine & Hcode & Hkey). rewrite Hpc in Hkey.
  apply (isolated_move w _ j k (TTrack key payload e)); try done; [apply update_grows; intros; apply register_le|]. intros e0 n' a He Ha. cbn in He.
  apply lookup_alter_Some in He as [(<- & n & Hn & ->)|[_ He]]; [|left; eauto]. right. injection Ha as <-.
  destruct (co_tasks _ _ Hc _ _ Hj Hrun) as [_ Hok]. rewrite Hpc in Hok. destruct Hok as (n1 & Hn1 & Hk1).
  rewrite Hn in Hn1. injection Hn1 as <-. unfold serves. cbn. rewrite lookup_alter_eq, Hn. eexists. split; [done|]. cbn. by rewrite Hk1, Hkey.
Qed.
Lemma isolated_track w j k key payload e s : tasks w !! j = Some k -> tk_pc k = TTrack key payload e -> sessions w !! tk_stream k = Some s ->
  isolated w ->
  isolated (with_tasks (with_session w (tk_stream k) (us_set_keys s (track (us_keys s) key (contains (table w)))))
              (<[j := set_pc k (TSend key payload e)]> (tasks w))).
Proof.
  intros Hj Hpc Hi Hw. assert (running k = true) as Hrun by (unfold running; by rewrite Hpc).
  destruct (is_task _ Hw _ _ Hj Hrun) as (Hmine & Hcode & Hkey). rewrite Hpc in Hkey. set (s' := us_set_keys _ _). set (w' := with_tasks _ _).
  assert (users_kept w w') as Hu by by apply (users_kept_insert w w' (tk_stream k) s s').
  apply (isolated_step w); [done|done|by split; [|auto]| |apply (slots_mono w); [done|done|done|eauto]| |apply Hw].
  - apply (task_users_insert w w' j (set_pc k (TSend key payload e))); [done|done|apply Hw|]. intros _. split_and!; [by apply Hu|done|done].
  - intros i1 s1 key0. cbn [sessions w' with_tasks with_session]. intros [[<- <-]|[_ H]]%lookup_insert_Some Hk; [|by eapply is_keys].
    cbn. destruct Hmine as (s0 & H0 & Hus). rewrite Hi in H0. injection H0 as <-. unfold s', track in Hk. cbn [us_set_keys us_keys] in Hk.
    assert (key0 = key \/ key0 ∈ sk_keys (us_keys s)) as [->|Hin].
    { destruct (_ <? _); cbn [sk_keys] in Hk; [|apply elem_of_filter in Hk as [_ Hk]]; set_solver. }
    + by rewrite Hkey.
    + by eapply is_keys.
Qed.
Lemma isolated_close w i s t' r' s' : sessions w !! i = Some s -> released (table w) (registry w) s i t' r' s' -> isolated w ->
  isolated (with_session (with_registry (with_table w t') r') i (us_close s')).
Proof.
  intros Hi Hr Hw. set (w' := with_session _ _ _). assert (users_kept w w') as Hu.
  { apply (users_kept_insert w w' i s (us_close s')); [done|done|]. cbn. by rewrite (rl_user _ _ _ _ _ _ _ Hr). }
  assert (table_grows (table w) (table w')) as Hg.
  { apply grows_moves; [by apply (rl_moves _ _ _ _ _ _ _ Hr)|]. destruct (rl_maps _ _ _ _ _ _ _ Hr) as (_ & _ & _ & Hn). cbn. lia. }
  apply (isolated_step w); [done|done|by split; [|auto]| | | |].
  - intros j k Hj Hrun. eapply task_user_mono; [done|by eapply is_task].
  - apply (slots_mono w); [done|done|done|]. intros e n' a He Ha. left.
    destruct (rl_slots _ _ _ _ _ _ _ Hr e n' He) as (n & Hn & [Hs|Hs] & _); [congruence|]. exists n. split; congruence.
  - intros i1 s1 key. cbn [sessions w' with_session]. intros [[<- <-]|[_ H]]%lookup_insert_Some Hk; [|by eapply is_keys].
    cbn in Hk. by rewrite (rl_keys _ _ _ _ _ _ _ Hr) in Hk.
  - intros id p o ks key Hid Hp Hin. destruct (rl_registry _ _ _ _ _ _ _ Hr id p Hid) as [H|(o' & ks' & H1 & H2 & H3 & H4)];
      [by eapply is_parked|]. rewrite Hp in H1. injection H1 as -> ->. pose proof (is_keys _ Hw _ _ _ Hi (H4 _ Hin)) as Hus. congruence.
Qed.
Lemma isolated_effect w w' : (exists f, consistent f w) -> isolated w -> effect same_as w w' -> isolated w'.
Proof.
  intros Hc Hw He. pose proof (effect_table _ _ _ Hc He) as [Hnr|Hre]; [|by eapply isolated_reader]. revert Hnr.
  destruct He as [|i iss pend Hi|i s p index Hi Hcl Hq|j k pc l Hj _ Hpc Hfrom|j k d s keys t' r' s' scope Hj Hpc Hi Hr
    |j k key payload pc t' pc' Hj Hpc Hcr|j k key payload e Hj Hpc|j k key payload e s Hj Hpc Hi|j k e now Hj Hpc|e n source data He _
    |e n sent now en n' pc pid out He Hs|i s t' r' s' Hi Hl Hr|r' Hr|t' l H1 H2 H3 H4]; intros Hnr.
  - done.
  - by apply isolated_open.
  - by apply isolated_arrive.
  - assert (running k = true) as Hrun by (unfold running, plain_from in *; by destruct (tk_pc k)).
    apply (isolated_move w _ j k pc); try done; [|eauto]. unfold plain_pc in Hpc. by repeat case_match.
  - by apply (isolated_resolve w j k d s keys).
  - by apply (isolated_create w j k key payload pc t' pc'); [..|apply Hnr|].
  - by apply isolated_register.
  - by apply isolated_track.
  - apply (isolated_move w _ j k TDone); try done; [unfold running; by rewrite Hpc|apply Hnr|]. intros e0 n' a He Ha. left. cbn in He.
    apply lookup_alter_Some in He as [(<- & n & Hn & ->)|[_ He]]; eauto.
  - apply (isolated_step w); [done|by apply users_kept_same|done|apply Hw|apply Hw|apply Hw|apply Hw].
  - by eapply isolated_reader; [|eapply re_step].
  - by apply (isolated_close w i s).
  - apply (isolated_step w); [done|by apply users_kept_same|done|apply Hw|apply Hw|apply Hw|].
    intros id p o ks key Hid. eapply is_parked; [exact Hw|]. by eapply lookup_weaken.
  - apply (isolated_step w); [done|by apply users_kept_same|done| |apply (slots_mono w); [done|by apply users_kept_same|apply Hnr|]|apply Hw|apply Hw].
    + intros j k Hj Hrun. apply (task_user_mono w); [by apply users_kept_same|by eapply is_task].
    + cbn [table]. rewrite H3. eauto.
Qed.
Lemma run_isolated c ls : one_user (world_start c) ls -> isolated (run c ls).
Proof.
  intros H. apply (run_ind_one (fun w => (exists f, consistent f w) /\ isolated w)) with (ls := ls); [| |done].
  - split; [apply consistent_start|]. split; try done. intros e sender coding r Hin. by apply elem_of_nil in Hin.
  - intros w w' [Hc Hw] He. split; [by eapply consistent_effect|by eapply isolated_effect].
Qed.
End runs.
