(* ===== verification/UdpRelaySpec.v ===== *)
(** What the UDP relay promises: responses stay with their user, a stream that is
    over is let go of, a resume keeps the sockets, a reader leaves a carrier that
    was replaced, and a packet id is sealed under once. *)
From S2P Require Import Prelude Target Cipher Ss2022 ReplayStore NatKey Orphans StreamCrypto StreamWire UdpCrypto UdpCryptoFacts NatTable UdpRelay UdpRelayFacts UdpRelayRuns.
Local Open Scope nat_scope.

(** ** A teardown and the resume after it *)
Lemma park_entry iter r now id p : enabled (config r) = true ->
  by_id (park iter r now id p) !! id = Some (mkEntry (parked_owner p) (now + ttl_for_kind r (kind p))%Z p).
Proof. intros He. unfold park. rewrite He. cbn [negb]. rewrite by_id_refresh. cbn [by_id set_by_id]. apply lookup_insert_eq. Qed.
Lemma detach_keeps keys : forall t stream t' kept, detach_keys t stream keys = (t', kept) -> NoDup keys ->
  (forall k k' e, try_get t k = Some e -> try_get t k' = Some e -> k = k') ->
  forall k e n a, k ∈ keys -> try_get t k = Some e -> nats t !! e = Some n -> s_session (n_active n) = Some a -> a_stream a = stream -> k ∈ kept.
Proof.
  induction keys as [|k0 keys IH]; intros t stream t' kept; cbn [detach_keys]; [by intros _ _ _ k e n a Hk%elem_of_nil|].
  intros Hd [Hnin Hnd]%NoDup_cons Hinj k e n a Hk Ht Hn Ha Hst. destruct (decide (k = k0)) as [->|Hne].
  - rewrite Ht in Hd. cbn [mbind option_bind] in Hd. rewrite Hn in Hd. cbn [mbind option_bind] in Hd. unfold detach_session_for_stream in Hd.
    rewrite Ha in Hd. rewrite bool_decide_true in Hd by done. destruct (detach_keys _ stream keys). injection Hd as _ <-. apply list_elem_of_here.
  - apply elem_of_cons in Hk as [Hk|Hk]; [done|].
    destruct (try_get t k0) as [e0|] eqn:E0; cbn [mbind option_bind] in Hd; [|by eapply IH].
    destruct (nats t !! e0) as [n0|] eqn:En; cbn [mbind option_bind] in Hd; [|by eapply IH].
    destruct (detach_session_for_stream n0 stream) as [n1 b]. destruct b; [|by eapply IH].
    destruct (detach_keys _ stream keys) as [t1 rest] eqn:E1. injection Hd as _ <-. apply list_elem_of_further.
    eapply IH; [exact E1|done|exact Hinj|done|exact Ht| |exact Ha|done]. cbn [set_nats nats]. rewrite lookup_insert_ne; [done|].
    intros <-. apply Hne. by eapply Hinj.
Qed.
Lemma reattach_points keys : forall t sender coding stream t' kept, reattach_parked_nat_keys t keys sender coding stream = (t', kept) ->
  forall k e n, k ∈ keys -> try_get t k = Some e -> nats t !! e = Some n ->
  exists n', nats t' !! e = Some n' /\ n_key n' = n_key n /\ s_session (n_active n') = Some (mkSession sender coding stream).
Proof.
  induction keys as [|k0 keys IH]; intros t sender coding stream t' kept; cbn [reattach_parked_nat_keys]; [by intros _ k e n Hk%elem_of_nil|].
  intros Hr k e n Hk Ht Hn. destruct (try_get t k0) as [e0|] eqn:E0.
  - destruct (reattach_parked_nat_keys _ keys _ _ _) as [t1 rest] eqn:E1. injection Hr as <- _. destruct (decide (e = e0)) as [->|Hne].
    + apply reattach_spec in E1 as (_ & Hm & _ & Hs). pose proof (moves_lookup _ _ e0 Hm) as Hle. cbn [update_nat set_nats nats] in Hle.
      rewrite lookup_alter_eq, Hn in Hle. cbn in Hle. destruct (nats t1 !! e0) as [n'|] eqn:En'; [|done]. exists n'. split; [done|].
      split; [by rewrite (le_key _ _ Hle)|]. destruct (Hs e0 n' En') as (n1 & H1 & H2). cbn [update_nat set_nats nats] in H1.
      rewrite lookup_alter_eq, Hn in H1. injection H1 as <-. by destruct H2 as [->|[_ H2]].
    + apply elem_of_cons in Hk as [->|Hk]; [congruence|]. eapply IH; [exact E1|exact Hk|exact Ht|]. cbn [update_nat set_nats nats].
      by rewrite lookup_alter_ne.
  - apply elem_of_cons in Hk as [->|Hk]; [congruence|]. by eapply IH.
Qed.
(** What a teardown leaves for a resume: the keys of the entries that led to the stream. *)
Lemma release_parks iter t r s i now t' r' s' id user k e n a : release_ss_udp_stream_on_drop iter t r s i now = (t', r', s') ->
  enabled (config r) = true -> us_issued s = Some id -> us_user s = Some user ->
  (forall k k' e, try_get t k = Some e -> try_get t k' = Some e -> k = k') ->
  k ∈ sk_keys (us_keys s) -> try_get t k = Some e -> nats t !! e = Some n -> s_session (n_active n) = Some a -> a_stream a = i ->
  config r' = config r /\ exists ks, k ∈ ks /\ (forall k0, k0 ∈ ks -> k0 ∈ sk_keys (us_keys s)) /\
    by_id r' !! id = Some (mkEntry user (now + orphan_ttl_udp (config r))%Z (SsUdpStream user ks)).
Proof.
  intros Hr He Hid Hu Hinj Hk Ht Hn Ha Hi. unfold release_ss_udp_stream_on_drop in Hr. rewrite Hid in Hr. cbn [mbind option_bind] in Hr.
  rewrite He, Hu in Hr. cbn [mbind option_bind take_keys] in Hr. rewrite bool_decide_false in Hr by (intros Hk0; by rewrite Hk0 in Hk).
  destruct (detach_stream_nat_keys _ _ _) as [t1 detached] eqn:Ed.
  assert (k ∈ detached) as Hin.
  { eapply detach_keeps; [exact Ed|apply NoDup_elements|done|by apply elem_of_elements|done..]. }
  rewrite bool_decide_false in Hr by (intros ->; by apply elem_of_nil in Hin). injection Hr as _ <- _. cbn [drop_reservation fst].
  assert (config (reserve_park r id) = config r) as Hc by (unfold reserve_park; by repeat case_match).
  split; [change (config (park iter (reserve_park r id) now id (SsUdpStream user detached)) = config r); by rewrite (proj2 (reservations_park _ _ _ _ _))|].
  exists detached. split; [done|]. split.
  { intros k0 Hk0. unfold detach_stream_nat_keys in Ed. apply detach_spec in Ed as (_ & _ & Hkept & _). by apply elem_of_elements, Hkept. }
  rewrite by_id_reservation, park_entry by (by rewrite Hc). cbn [ttl_for_kind kind]. by rewrite Hc.
Qed.
Lemma take_parked iter r now id e : by_id r !! id = Some e -> (now < deadline e)%Z ->
  exists r', try_take_committed iter r now id (owner e) = (r', Some (Hit (parked e))).
Proof.
  intros He Hd. unfold try_take_committed. rewrite He, (proj2 (Z.leb_gt _ _)) by lia. rewrite bool_decide_true by done. cbn [negb]. eauto.
Qed.

(** The entry, the stream and the key a response was sealed under are of one user. *)
Definition of_one_user (w : World) (e sender : nat) (coding : UdpResponseCoding) : Prop :=
  exists n s u m, nats (table w) !! e = Some n /\ sessions w !! sender = Some s /\ us_user s = Some (k_user (n_key n))
    /\ coding = SsCoding u m /\ user_id u = k_user (n_key n).
Definition reader_at (w : World) (e : nat) : ReaderPc := default RIdle (readers w !! e).
Definition counted_up (ids : list Z) : Prop := ids = wrapped <$> seq 0 (length ids).

Section spec.
Context (seal : AeadKey -> bytes -> bytes -> option bytes) (hkdf_sha1 : bytes -> bytes -> bytes -> nat -> option bytes)
  (blake3_derive_xof : bytes -> bytes -> nat -> bytes) (xseal : bytes -> bytes -> bytes -> option bytes)
  (aes_encrypt_block : bytes -> bytes -> bytes)
  (iter : gmap SessionId ParkedEntry -> list (SessionId * ParkedEntry)) (limits : NatLimits) (idle_timeout : Z)
  (is_socket : nat -> bool) (prefer_ipv4_upstream : bool).
Local Abbreviation step :=
  (world_step seal hkdf_sha1 blake3_derive_xof xseal aes_encrypt_block iter limits idle_timeout is_socket prefer_ipv4_upstream).
Local Abbreviation run :=
  (world_run seal hkdf_sha1 blake3_derive_xof xseal aes_encrypt_block iter limits idle_timeout is_socket prefer_ipv4_upstream).
Local Abbreviation one_user_run :=
  (one_user seal hkdf_sha1 blake3_derive_xof xseal aes_encrypt_block iter limits idle_timeout is_socket prefer_ipv4_upstream).

(** The entry of [key] in the table leads to stream [i]. *)
Definition entry_leads (w : World) (key : NatKey) (e i : nat) : Prop :=
  try_get (table w) key = Some e /\ exists n a, nats (table w) !! e = Some n /\ s_session (n_active n) = Some a /\ a_stream a = i.

(** The configuration of the registry is the one it was made with. *)
Lemma config_world_step w l : config (registry (step w l)) = config (registry w).
Proof.
  assert (forall r id, config (reserve_park r id) = config r) as Hrp by (intros r id; unfold reserve_park; by repeat case_match).
  assert (forall r id now p, config (park iter r now id p) = config r) as Hpk by (intros; apply (reservations_park iter)).
  destruct l as [i issued pending|i p index permit|j env|e source data|e sent now entropy|i now|now|now|]; cbn [world_step].
  - by case_match.
  - case_match; [|done]. case_match; [done|]. by case_match.
  - destruct (tasks w !! j) as [k|]; [|done]. destruct (sessions w !! tk_stream k) as [s|]; [|done]. unfold task_step.
    destruct (tk_pc k); try done; [|by case_match|by repeat case_match].
    destruct (us_scope s); [done|]. destruct (resolve_nat_scope _ _ _ _ _ _ _ _) as [[[t r] s'] scope] eqn:Er.
    cbn [registry with_tasks with_session with_registry]. unfold resolve_nat_scope in Er.
    destruct (enabled _); cbn [negb] in Er; [|by injection Er as _ <-]. destruct (us_pending_resume s) as [id|]; [|by injection Er as _ <-].
    pose proof (reservations_take iter (registry w) (e_now env) id (user_id (tk_user k))) as [_ Hc].
    destruct (try_take_committed _ _ _ _ _) as [r1 outcome]. cbn [fst] in Hc. repeat case_match; by injection Er as _ <- _ _.
  - by repeat case_match.
  - case_match; [|done]. by destruct (nat_reader_step _ _ _ _ _ _ _ _ _ _ _) as [[[? ?] ?] ?].
  - case_match; [|done]. case_match; [done|]. destruct (release_ss_udp_stream_on_drop _ _ _ _ _ _) as [[t r] s] eqn:Er.
    cbn [registry with_session with_registry]. unfold release_ss_udp_stream_on_drop in Er.
    destruct (take_keys _) as [k0 keys]. destruct (id ← us_issued _; _) as [[id o]|]; case_bool_decide.
    all: try destruct (detach_stream_nat_keys _ _ _) as [t1 d]; try case_bool_decide; injection Er as _ <- _; cbn [drop_reservation fst]; try done.
    all: first [apply Hrp|etransitivity; [apply Hpk|apply Hrp]].
  - apply (config_step iter (registry w) (OpSweep now)).
  - by destruct (sweep_retain _ _ _ _).
  - by case_match.
Qed.
Lemma run_config c ls : config (registry (run c ls)) = c.
Proof.
  unfold world_run. change c with (config (registry (world_start c))) at 2. generalize (world_start c) as w.
  induction ls as [|l ls IH]; intros w; [done|]. cbn [foldl]. by rewrite IH, config_world_step.
Qed.
(** What the end of a stream puts into the registry. *)
Lemma close_parks c ls i now s1 id user key e n a : let w := run c ls in
  enabled c = true -> sessions w !! i = Some s1 -> us_closed s1 = false -> live_tasks w i = [] -> us_issued s1 = Some id ->
  us_user s1 = Some user -> try_get (table w) key = Some e -> nats (table w) !! e = Some n -> s_session (n_active n) = Some a -> a_stream a = i ->
  exists ks, key ∈ ks /\ (forall k0, k0 ∈ ks -> k0 ∈ sk_keys (us_keys s1))
    /\ by_id (registry (step w (UClose i now))) !! id = Some (mkEntry user (now + orphan_ttl_udp c)%Z (SsUdpStream user ks)).
Proof.
  intros w Hen Hi Hcl Hlive Hid Hu Hkey Hn Ha Hst.
  destruct (run_consistent seal hkdf_sha1 blake3_derive_xof xseal aes_encrypt_block iter limits idle_timeout is_socket prefer_ipv4_upstream c ls)
    as [f Hc]. fold w in Hc. assert (config (registry w) = c) as Hcw by apply run_config.
  assert (key ∈ sk_keys (us_keys s1)) as Hown.
  { destruct (co_known _ _ Hc _ _ _ _ Hkey Hn Ha) as [_ [(s' & H1 & H2)|(j' & k' & p & H1 & H2 & H3)]]; rewrite Hst in *; [congruence|].
    exfalso. apply (live_none w i j' k' Hlive H1); [unfold running; by rewrite H3|done]. }
  assert (forall k k' e, try_get (table w) k = Some e -> try_get (table w) k' = Some e -> k = k') as Hinj.
  { intros k1 k2 e0 H1 H2. eapply consistent_inj; [exact Hc|exact H1|]. by apply (consistent_key f). }
  destruct (release_ss_udp_stream_on_drop iter (table w) (registry w) s1 i now) as [[t' r'] s1'] eqn:Er.
  destruct (release_parks _ _ _ _ _ _ _ _ _ id user key e n a Er) as (_ & ks & Hks & Hkeys & Hparked); rewrite ?Hcw; try done.
  exists ks. split_and!; [done..|]. cbn [world_step]. rewrite Hi, Hcl, Hlive. cbn [orb]. rewrite bool_decide_true by done. cbn [negb]. rewrite Er.
  cbn [registry with_session with_registry]. by rewrite Hparked, Hcw.
Qed.

(** C8: a response goes to its own user only. However datagrams, responses, resumes,
    teardowns and sweeps interleave, as long as the datagrams of each stream are of
    one user: what is handed to a stream came from the socket of an entry of the
    user of that stream, and was sealed under a key of that user. *)
Theorem udp_responses_stay_with_their_user c ls e sender coding response :
  one_user_run (world_start c) ls -> let w := run c ls in (e, sender, coding, response) ∈ delivered w -> of_one_user w e sender coding.
Proof.
  intros Hone w Hin. destruct (is_delivered _ (run_isolated _ _ _ _ _ _ _ _ _ _ _ _ Hone) _ _ _ _ Hin) as (n & Hn & (s & Hs & Hu) & u & m & Hc & Hid).
  by exists n, s, u, m.
Qed.

(** C10: a stream that is over is let go of. After a teardown no entry of the table
    leads to the stream any more, and none ever will, whatever comes after. *)
Theorem closed_stream_is_let_go c ls ls' i s : let w := run c ls in let w' := foldl step w ls' in
  sessions w !! i = Some s -> us_closed s = true -> forall key e, ~ entry_leads w' key e i.
Proof.
  intros w w' Hi Hcl. assert (is_closed w' i) as (s' & Hi' & Hcl').
  { unfold w'. assert (is_closed w i) as H by (by exists s). clearbody w. clear -H. revert w H. induction ls' as [|l ls' IH]; intros w H; [done|].
    cbn [foldl]. apply IH. by apply closed_stays. }
  assert (exists f, consistent f w') as [f Hc].
  { assert (w' = run c (ls ++ ls')) as -> by (unfold w', w, world_run; by rewrite foldl_app). apply run_consistent. }
  intros key e (Hkey & n & a & Hn & Ha & Hst). destruct (co_known _ _ Hc _ _ _ _ Hkey Hn Ha) as [_ [(s1 & H1 & H2)|(j & k & p & H1 & H2 & H3)]].
  - rewrite Hst, Hi' in H1. injection H1 as <-. by rewrite (co_closed _ _ Hc _ _ Hi' Hcl') in H2.
  - assert (running k = true) as Hrun by (unfold running; by rewrite H3). rewrite Hst in H2. rewrite <- H2 in Hi'.
    pose proof (running_not_closed _ _ _ _ _ Hc H1 Hrun Hi'). congruence.
Qed.

(** C9: a resume keeps the sockets. A stream that has authenticated a user and was
    issued an id ends; whatever happens then - datagrams, sweeps, other teardowns and
    resumes - a first datagram of the same user, on a stream that offers that id,
    is scoped before the deadline of the park and while the registry still holds
    that park. Then every entry that led to the old stream and that the table
    still has - with its socket, and so its source port - leads to the new stream,
    under its coding, whoever it led to in between; the new stream has its key,
    and takes on the scope of the parked keys. *)
Theorem udp_resume_keeps_sockets c ls i now ls' j env k d s1 s2 id user key e :
  let w := run c ls in let w1 := step w (UClose i now) in let w' := foldl step w1 ls' in let w2 := step w' (UTask j env) in
  enabled c = true ->
  sessions w !! i = Some s1 -> us_closed s1 = false -> live_tasks w i = [] -> us_issued s1 = Some id -> us_user s1 = Some user ->
  entry_leads w key e i ->
  by_id (registry w') !! id = by_id (registry w1) !! id -> (e_now env < now + orphan_ttl_udp c)%Z ->
  try_get (table w') key = Some e ->
  tasks w' !! j = Some k -> tk_pc k = TScope d -> user_id (tk_user k) = user ->
  sessions w' !! tk_stream k = Some s2 -> us_scope s2 = None -> us_pending_resume s2 = Some id ->
  (exists n, try_get (table w2) key = Some e /\ nats (table w2) !! e = Some n /\ n_key n = key
     /\ s_session (n_active n) = Some (mkSession (tk_stream k) (tk_coding k) (tk_stream k)))
  /\ exists s2' key0, sessions w2 !! tk_stream k = Some s2' /\ key ∈ sk_keys (us_keys s2')
     /\ key0 ∈ sk_keys (us_keys s1) /\ us_scope s2' = Some (k_scope key0).
Proof.
  intros w w1 w' w2 Hen Hi Hcl Hlive Hid Hu (Hkey & n & a & Hn & Ha & Hst) Hheld Hnow Hkey' Hj Hpc Huser Hi2 Hsc Hpend.
  destruct (close_parks c ls i now s1 id user key e n a) as (ks & Hks & Hkeys & Hparked); try done.
  fold w w1 in Hparked. rewrite Hparked in Hheld. clear Hparked.
  assert (w' = run c (ls ++ UClose i now :: ls')) as Hw' by (unfold w', w, world_run; by rewrite foldl_app).
  destruct (run_consistent seal hkdf_sha1 blake3_derive_xof xseal aes_encrypt_block iter limits idle_timeout is_socket prefer_ipv4_upstream c
    (ls ++ UClose i now :: ls')) as [f Hc]. assert (config (registry w') = c) as Hcfg by (rewrite Hw'; apply run_config).
  rewrite <- Hw' in Hc. clearbody w'. clear Hw' w1.
  destruct (take_parked iter (registry w') (e_now env) id _ Hheld) as [r2 Htake]; [cbn; lia|]. cbn [owner parked] in Htake.
  destruct (reattach_parked_nat_keys (table w') ks (tk_stream k) (tk_coding k) (tk_stream k)) as [t2 kept] eqn:Et.
  assert (contains (table w') key = true) as Hhas by (unfold contains; by rewrite Hkey').
  assert (resolve_nat_scope iter (table w') (registry w') s2 (tk_stream k) user (tk_coding k) (e_now env)
    = (t2, r2, us_set_keys (us_take_resume s2) (adopt (us_keys (us_take_resume s2)) kept), key ← head ks; k_scope key)) as Hres.
  { unfold resolve_nat_scope. rewrite Hcfg, Hen. cbn [negb]. rewrite Hpend, Htake, Et.
    apply reattach_spec in Et as (_ & _ & -> & _). rewrite (proj2 (Nat.ltb_lt _ _)); [done|].
    assert (key ∈ List.filter (contains (table w')) ks) as Hin; [|by destruct (List.filter _ _); [apply elem_of_nil in Hin|cbn; lia]].
    apply list_elem_of_In, filter_In. split; [by apply list_elem_of_In|done]. }
  assert (w2 = with_tasks (with_session (with_registry (with_table w' t2) r2) (tk_stream k)
    (us_set_scope (us_set_keys (us_take_resume s2) (adopt (us_keys (us_take_resume s2)) kept)) (key ← head ks; k_scope key)))
    (<[j := set_pc k (TResolve (key ← head ks; k_scope key) d)]> (tasks w'))) as Hw2.
  { unfold w2. cbn [world_step]. rewrite Hj, Hi2. unfold task_step. by rewrite Hpc, Hsc, Huser, Hres. }
  clearbody w2. subst w2. cbn [table sessions with_tasks with_session with_registry with_table].
  destruct (consistent_key _ _ _ _ Hc Hkey') as (n1 & Hn1 & Hk1).
  pose proof (reattach_points _ _ _ _ _ _ _ Et key e n1 Hks Hkey' Hn1) as (n2 & Hn2 & Hk2 & Hs2).
  apply reattach_spec in Et as (Hm2 & _ & -> & _). split.
  - exists n2. split_and!; [by rewrite (same_try_get _ _ key Hm2)|done|by rewrite Hk2|done].
  - destruct ks as [|k0 ks']; [by apply elem_of_nil in Hks|]. eexists _, k0. split; [apply lookup_insert_eq|].
    cbn [us_set_scope us_keys us_set_keys adopt sk_keys us_scope us_take_resume].
    split_and!; [|apply Hkeys, list_elem_of_here|done]. apply elem_of_union_r, elem_of_list_to_set, list_elem_of_In, filter_In.
    split; [by apply list_elem_of_In|done].
Qed.

(** C13: a reader leaves a carrier that was replaced. Whatever happened to the entry
    while a response waited for its carrier, the next look of the reader ends the
    wait exactly when the entry no longer leads to that carrier - it is never left
    asleep on a change it has missed. *)
Theorem reader_leaves_a_replaced_carrier c ls e n seen sender coding response now entropy :
  let w := run c ls in
  reader_at w e = RSending seen sender coding response -> nats (table w) !! e = Some n ->
  reader_at (step w (UReader e None now entropy)) e
    = if leads_to (n_active n) sender then RSending (s_moved (n_active n)) sender coding response else RIdle.
Proof.
  intros w Hat Hn. assert (readers w !! e = Some (RSending seen sender coding response)) as Hr.
  { unfold reader_at in Hat. destruct (readers w !! e); [cbn in Hat; congruence|discriminate Hat]. }
  destruct (wa_reader _ (run_watching seal hkdf_sha1 blake3_derive_xof xseal aes_encrypt_block iter limits idle_timeout
    is_socket prefer_ipv4_upstream c ls) _ _ Hr) as (n0 & H0 & Hle & Hseen). fold w in H0. rewrite Hn in H0. injection H0 as <-.
  unfold reader_at. cbn [world_step]. rewrite Hn, Hr. cbn [default nat_reader_step send_until_moved]. unfold default, id, nat_reader_step, send_until_moved.
  case_bool_decide as Hm.
  - rewrite Hseen by done. cbn. by rewrite lookup_insert_eq, Hm.
  - destruct (leads_to _ _); cbn; by rewrite lookup_insert_eq.
Qed.

(** C14: the packet ids of an entry. The responses of an entry are sealed under 0, 1,
    2 and so on, modulo 2^64, in the order in which they are sealed, whoever they
    are sealed for and however often the entry changes hands; so that no id of an
    entry is used twice before 2^64 responses. *)
Theorem packet_ids_sealed_once c ls e : let w := run c ls in
  counted_up (sealed_of w e)
  /\ ((Z.of_nat (length (sealed_of w e)) <= 2 ^ 64)%Z -> NoDup (sealed_of w e)).
Proof.
  intros w. pose proof (wa_sealed _ (run_watching seal hkdf_sha1 blake3_derive_xof xseal aes_encrypt_block iter limits idle_timeout
    is_socket prefer_ipv4_upstream c ls) e) as H. fold w in H. split; [done|]. intros Hlen. rewrite H.
  apply (NoDup_fmap_2_strong wrapped); [|apply NoDup_seq]. intros x y Hx%elem_of_seq Hy%elem_of_seq. unfold wrapped.
  rewrite !Z.mod_small by lia. lia.
Qed.
End spec.

(** ** Runs *)
Definition toy_limits : NatLimits := mkLimits 10 10.
Definition relay_config : ResumptionConfig := mkConfig true 30 60 4 8 0.
Local Abbreviation toy_run := (world_run toy_seal toy_hkdf toy_blake3 toy_xseal toy_block sample_iter toy_limits 300 (fun _ => false) false).
Definition at_time (now : Z) : Env := mkEnv now true (Some (zeros 8)) None true.
(** A datagram of stream [i], the [j]-th, on its whole way. *)
Definition datagram (i j : nat) (user : UserKey) (now : Z) : list Label :=
  UArrive i (mkPacket user (dns_wire ++ str "query") ReplayStore.Legacy None None) 0 true :: repeat (UTask j (at_time now)) 11.
Definition answer_from (e : nat) : list Label :=
  UUpstream e (V4 [x01; x01; x01; x01] 53) (str "answer") :: repeat (UReader e None 5 (Some (zeros 32))) 3.

Definition served : list Label := UOpen 0 (Some id_a) None :: datagram 0 0 bert 1 ++ answer_from 1 ++ [UReader 1 (Some true) 6 None].
Definition response_to_bert : bytes := Eval vm_compute in
  match delivered (toy_run relay_config served) with [(_, _, _, r)] => r | _ => [] end.
Lemma udp_responses_stay_with_their_user_witness :
  let w := toy_run relay_config served in
  delivered w = [(1, 0, SsCoding bert ReplayStore.Legacy, response_to_bert)]
  /\ of_one_user w 1 0 (SsCoding bert ReplayStore.Legacy).
Proof.
  assert (delivered (toy_run relay_config served) = [(1, 0, SsCoding bert ReplayStore.Legacy, response_to_bert)]) as Hd by (vm_compute; reflexivity).
  split; [exact Hd|].
  apply (udp_responses_stay_with_their_user toy_seal toy_hkdf toy_blake3 toy_xseal toy_block sample_iter toy_limits 300 (fun _ => false) false
    relay_config served 1 0 (SsCoding bert ReplayStore.Legacy) response_to_bert).
  - vm_compute. repeat split; try (intros ? [= <-] ? H; first [discriminate H|by injection H as <-]).
  - rewrite Hd. apply list_elem_of_here.
Defined.

(** The stream ends; its entry is there, and leads nowhere. *)
Definition over : list Label := served ++ [UClose 0 10].
Definition later : list Label := UOpen 1 (Some id_b) None :: datagram 1 1 bert 11.
Lemma closed_stream_is_let_go_witness :
  let w := foldl (world_step toy_seal toy_hkdf toy_blake3 toy_xseal toy_block sample_iter toy_limits 300 (fun _ => false) false)
             (toy_run relay_config over) later in
  map_to_list (nats (table w)) <> [] /\ forall key e, ~ entry_leads w key e 0.
Proof.
  split; [vm_compute; discriminate|].
  destruct (sessions (toy_run relay_config over) !! 0) as [s|] eqn:Hs; [|vm_compute in Hs; discriminate Hs].
  apply (closed_stream_is_let_go toy_seal toy_hkdf toy_blake3 toy_xseal toy_block sample_iter toy_limits 300 (fun _ => false) false
    relay_config over later 0 s Hs). vm_compute in Hs. by injection Hs as <-.
Defined.

(** The stream ends. Another stream of the user comes, and a sweep of the registry
    passes, before the successor of the first resumes it. *)
Definition bert_says (data : bytes) : UdpPacket := mkPacket bert (dns_wire ++ data) ReplayStore.Legacy None None.
Definition ending : list Label := served.
Definition in_between : list Label :=
  UOpen 1 None None :: UArrive 1 (bert_says (str "more")) 0 true :: UExpire 11 ::
  UOpen 2 (Some id_b) (Some id_a) :: UArrive 2 (bert_says (str "again")) 0 true :: repeat (UTask 1 (at_time 11)) 11.
Definition bert_key : NatKey := mkNatKey (str "bert") (Some 7%Z) (V4 [x01; x01; x01; x01] 53) (Some id_a).
Definition session_at (w : World) (i : nat) : UdpSession := default (session_new None None) (sessions w !! i).
Definition task_at (w : World) (j : nat) : Task := default (mkTask 0 bert Plaintext TDone) (tasks w !! j).
Lemma udp_resume_keeps_sockets_witness :
  let step := world_step toy_seal toy_hkdf toy_blake3 toy_xseal toy_block sample_iter toy_limits 300 (fun _ => false) false in
  let w2 := step (foldl step (step (toy_run relay_config ending) (UClose 0 10)) in_between) (UTask 2 (at_time 12)) in
  exists n, try_get (table w2) bert_key = Some 1 /\ nats (table w2) !! 1 = Some n /\ n_key n = bert_key
    /\ s_session (n_active n) = Some (mkSession 2 (SsCoding bert ReplayStore.Legacy) 2).
Proof.
  pose (step := world_step toy_seal toy_hkdf toy_blake3 toy_xseal toy_block sample_iter toy_limits 300 (fun _ => false) false).
  pose (w := toy_run relay_config ending). pose (w' := foldl step (step w (UClose 0 10)) in_between).
  destruct (udp_resume_keeps_sockets toy_seal toy_hkdf toy_blake3 toy_xseal toy_block sample_iter toy_limits 300 (fun _ => false) false
    relay_config ending 0 10 in_between 2 (at_time 12) (task_at w' 2) (dns_wire ++ str "again") (session_at w 0) (session_at w' 2) id_a (str "bert")
    bert_key 1) as [H _];
    try (vm_compute; reflexivity).
  - split; [vm_compute; reflexivity|]. destruct (nats (table (toy_run relay_config ending)) !! 1) as [n|] eqn:Hn; vm_compute in Hn; [|discriminate Hn].
    exists n, (mkSession 0 (SsCoding bert ReplayStore.Legacy) 0). injection Hn as <-. by split_and!.
  - exact H.
Defined.

(** Two streams of one user that share an entry, the first with a response on its
    way when the second takes the entry over. *)
Definition taken_over : list Label :=
  UOpen 0 None None :: UOpen 1 None None :: datagram 0 0 bert 1 ++ answer_from 1 ++ datagram 1 1 bert 2.
Lemma reader_leaves_a_replaced_carrier_witness :
  reader_at (world_step toy_seal toy_hkdf toy_blake3 toy_xseal toy_block sample_iter toy_limits 300 (fun _ => false) false
             (toy_run relay_config taken_over) (UReader 1 None 7 None)) 1 = RIdle.
Proof.
  pose (w := toy_run relay_config taken_over).
  destruct (reader_at w 1) as [| | | |seen sender coding response] eqn:Hr; try (vm_compute in Hr; discriminate Hr).
  destruct (nats (table w) !! 1) as [n|] eqn:Hn; [|vm_compute in Hn; discriminate Hn].
  etransitivity; [exact (reader_leaves_a_replaced_carrier toy_seal toy_hkdf toy_blake3 toy_xseal toy_block sample_iter toy_limits 300 (fun _ => false) false
    relay_config taken_over 1 n seen sender coding response 7 None Hr Hn)|].
  vm_compute in Hr, Hn. injection Hr as _ <- _ _. injection Hn as <-. reflexivity.
Defined.

Lemma packet_ids_sealed_once_witness :
  let w := toy_run relay_config (served ++ answer_from 1) in sealed_of w 1 = [0%Z; 1%Z] /\ NoDup (sealed_of w 1).
Proof.
  split; [vm_compute; reflexivity|].
  apply (packet_ids_sealed_once toy_seal toy_hkdf toy_blake3 toy_xseal toy_block sample_iter toy_limits 300 (fun _ => false) false
    relay_config (served ++ answer_from 1) 1). vm_compute. discriminate.
Defined.

(** The premise that a stream is of one user is needed. Nothing keeps a stream from
    carrying the datagrams of two users, and the park of such a stream holds the
    keys of both under the name of the first: when it is resumed, responses to the
    second are sealed for the first. *)
Definition mixed : list Label :=
  UOpen 0 (Some id_a) None :: datagram 0 0 bert 1 ++ datagram 0 1 dora 1
  ++ UClose 0 10 :: UOpen 1 (Some id_b) (Some id_a) :: datagram 1 2 bert 11
  ++ UUpstream 3 (V4 [x01; x01; x01; x01] 53) (str "for dora") :: repeat (UReader 3 None 12 (Some (zeros 32))) 3 ++ [UReader 3 (Some true) 12 None].
Example mixed_stream_crosses_users :
  let w := toy_run relay_config mixed in
  (fun n => k_user (n_key n)) <$> nats (table w) !! 3 = Some (str "dora")
  /\ match delivered w with
     | [(e, sender, SsCoding u _, _)] => e = 3 /\ sender = 1 /\ user_id u = str "bert"
     | _ => False
     end.
Proof. vm_compute. by repeat split. Qed.
